(* ===== verification/_CoqProject ===== *)
-Q . S2P
Prelude.v
GoBytes.v
Sha2.v
GoBase64.v
GoUtf8.v
RawMsg.v
RawBody.v
RawParser.v
RawSpec.v
RawInsertion.v
CanonTypes.v
CanonBody.v
CanonHeader.v
TagTypes.v
TagScan.v
TagBase64.v
Combine.v
RecipeTypes.v
RecipeUsage.v
RecipeHeader.v
RecipeBody.v
RecipeHeaderSpec.v
RecipeBodySpec.v
RecipeApply.v
RecipeSafety.v
GoTime.v
ReplayTypes.v
GoHeap.v
ReplayGate.v
ReplayKey.v
ReplayMemory.v
ReplayMemorySpec.v
ReplayHistory.v
ReplayConcurrent.v
GoStrconv.v
ReplayValue.v
TagSpec.v
InstTypes.v
InstParser.v
InstSpec.v
InstCollection.v
Emitter.v
FieldScript.v
InstRender.v
InstRenderSpec.v
InstRoundtrip.v
DomainName.v
Mailbox.v
MailboxSpec.v
SigAlgorithm.v
GoNetip.v
SigTypes.v
SigEnvelope.v
SigEnvelopeSpec.v
SigParser.v
SigSpec.v
SigCollection.v
SigCustody.v
SigRender.v
SigRenderSpec.v
SigTarget.v
SigUnsigned.v
SigComplete.v
SigRoundtrip.v
SigExtension.v
CanonSignature.v
CanonSigSpec.v
CanonSigAgree.v
Crypto.v
KeyTypes.v
KeyOwner.v
KeyRecord.v
KeyRecordSpec.v
GoHeapPtr.v
KeyCache.v
KeyCacheSpec.v
KeyFlight.v
KeyFlightSpec.v
KeyResolver.v
KeyResolverSpec.v
