(* ===== verification/Prelude.v ===== *)
(** * A verified model of the DKIM2 reference implementation

    This library models the core of the Go module under src/internal: the
    packages that parse, canonicalize, combine, reconstruct and remember
    messages, each function translated branch by branch, errors and limits
    included.  Each file below names the Go files it translates.

    ** How Go is represented

    A Go function that returns an error is a function into [outcome]: [Ret],
    [Fail] with the typed error, or [Crash] for a run-time panic or a loop whose
    fuel ran out; each component proves that [Crash] is not reached.  Strings and
    byte slices are [list byte]; an [int] is a [Z], with the wrap-around of 64
    bits written out where the source can overflow (GoTime, FoldedBase64Size);
    slicing and indexing out of range is [Crash].  Maps are [gmap]s.  Where
    pointers are shared (the replay store's records, held by a map and a heap)
    there is an explicit memory.  What the source uses of the Go library is
    modelled in the files Go*.v and Sha2.v: strings and bytes, stable sorting,
    Base64, hex, UTF-8, decimal integers, IPv6 texts, time, container/heap (GoHeap.v
    on values, GoHeapPtr.v on pointers), SHA-256 and SHA-512; these are executable and are checked on test vectors or proved.

    ** The parts

    - rawmsg (internal/rawmsg): RawMsg.v (errors, options, header blocks),
      RawBody.v (body and line index), RawParser.v ([ParseWithOptions]),
      RawSpec.v (the grammar of messages and the refinement theorem),
      RawInsertion.v (reconstruction and insertion of header fields).
    - canonical (internal/canonical): CanonTypes.v, CanonBody.v, CanonHeader.v
      (hash inputs and their digests, and that insertion leaves them alone),
      CanonSignature.v (the input of a signature), CanonSigSpec.v (what it is)
      and CanonSigAgree.v (the signer and the verifier build the same).
    - tagvalue (internal/tagvalue): TagTypes.v, TagScan.v (tag lists),
      TagBase64.v (folded Base64 values and their rendering), TagSpec.v (the
      grammar of the values that header fields share).
    - combine (internal/combine): Combine.v, layouts of signature sets and the
      evaluation of their results.
    - recipe (internal/recipe), application of recipes: RecipeTypes.v (recipes,
      states), RecipeUsage.v (the usage counter as a state monad),
      RecipeHeader.v and RecipeBody.v (the code), RecipeHeaderSpec.v (what a
      recipe means, and the header part), RecipeBodySpec.v, RecipeApply.v
      (refinement),
      RecipeSafety.v (no panic, usage within the limits).
    - instance (internal/instance): InstTypes.v (errors, limits, values),
      InstParser.v (hash sets and fields), InstSpec.v (the grammar of fields and
      the refinement theorem), InstCollection.v (extraction, sequences,
      collections), InstRender.v and InstRenderSpec.v (construction, preflight, rendering),
      InstRoundtrip.v (rendered fields read back through both parsers).
    - signature (internal/signature): SigAlgorithm.v, SigTypes.v (errors,
      limits, values, nonces, flags, domains), SigEnvelope.v (SMTP paths) and
      SigEnvelopeSpec.v (their grammar), SigParser.v (fields) and SigSpec.v
      (their grammar and the refinement theorem), SigCollection.v (extraction,
      sequences, references to instances), SigCustody.v (the chain of custody),
      SigRender.v (targets, their fields, completion and rebuilding),
      SigRenderSpec.v (the emission as a script, the groups of s=), SigTarget.v (canonical requests), SigUnsigned.v (unsigned targets),
      SigComplete.v (completion), SigRoundtrip.v (completed fields read back),
      SigExtension.v (a chain of custody before and after a hop is signed).
    - shared by the renderers of instance and signature: Emitter.v (emission
      under size limits, the interface of an emitter, its laws, and what follows
      for scripts and Base64 chunks), FieldScript.v (scripts of tag lists
      are messages of one header field).
    - replay (internal/replay): ReplayTypes.v (errors, limits, retentions,
      leases), ReplayGate.v (the lifecycle gate), ReplayKey.v (identities, HMAC
      frames, storage keys), ReplayMemory.v (the memory store over a shared
      memory), ReplayMemorySpec.v (its refinement of a map of records),
      ReplayHistory.v (what the answers of a run mean), ReplayConcurrent.v (all
      interleavings of concurrent calls), ReplayValue.v (stored values).
    - domainname and mailbox: DomainName.v (canonical domains), Mailbox.v (the
      From parser), MailboxSpec.v (the address-list grammar, the refinement).
    - cryptodkim2 (internal/cryptodkim2): Crypto.v (keys, representatives,
      dispatch to the primitives).
    - keyresolver (internal/keyresolver): KeyTypes.v (limits, errors,
      outcomes), KeyOwner.v (queries and DNS owners), KeyRecord.v (key and
      policy records, version filters), KeyRecordSpec.v (their grammar),
      KeyCache.v (the outcome cache over its shared entries, list and heap),
      KeyCacheSpec.v (its refinement of a list of entries), KeyFlight.v and
      KeyFlightSpec.v (the flight group under all interleavings),
      KeyResolver.v, KeyResolverSpec.v (lookups and cached resolution).

    rawmsg feeds canonical, recipe and instance; canonical's hash inputs and
    combine's evaluation are what signing and verification build on; recipe
    reconstructs earlier states of a message from rawmsg blocks; instance reads
    tag lists, Base64 values and combine layouts out of header fields and writes
    them back; signature reads its fields in the same way, checks the SMTP paths
    they record and what they say of instances and of each other; replay is fed by sealed identities; keyresolver builds DNS owners
    with domainname, parses answers with the tag scanner, hands keys to
    cryptodkim2 and shares lookups through its cache and flight group.

    ** What the theorems show

    Refinement: the parser, the tag scanner, the Base64 reader, the layout
    splitter and the recipe application succeed exactly on the inputs an
    abstract grammar or specification describes and return what it determines,
    and so do the instance and signature parsers, extraction, the reader of SMTP
    paths and the evaluation of custody; the memory store computes operations on a finite map of records.  Round
    trips: parse and reconstruct, non-empty values through folded Base64,
    rendered instance fields through the message parser and the instance parser,
    completed signature fields through the message parser and the signature
    parser and back to their unsigned targets (exactly when the nonce has no
    space at its ends), recorded SMTP paths (but for address literals with
    octets outside ASCII), storage keys, stored values.  Errors: verification of
    a representative reports its first failing check.  Generation: targets and completed
    fields are made exactly for the acceptable requests and values that keep to
    the limits, and the preflight knows their length.
    Canonicalization: exact, idempotent, invariant under reordering of distinct
    names and under insertion of excluded fields; the input of a signature is
    exact, and the signer and the verifier build the same bytes.  Safety and termination: no
    panic for any input, nor in any section of a concurrent call of the store; usage within the limits; under concurrency a replayed
    key is recognised exactly, a lease has one holder, closing always completes;
    concurrent lookups of a key share one flight, workers and waiters stay
    within their bounds and every call returns.  The outcome cache computes
    the list specification of expiry and least-recently-used eviction, and
    Resolve answers found only with the key of the one candidate record.

    ** Fuel and bounds

    Loops that are not structural take fuel that the caller computes from the
    input (a length plus one); the totality theorems say it is enough.  The
    heap's loops take the heap's length, the purge of expired cache entries the
    heap's length plus one, the search for a free waiter identity the number of
    waiters plus one.  Limits are those of the source.

    ** Not modelled

    Formatting, text and JSON marshalling methods of the value types (constant
    redacted strings).  The monotonic clock reading of [time.Time].  Go's
    garbage collector: the store's memory keeps removed records as unreachable
    objects.  Test seams (channels that are nil outside tests).  Nil receivers
    of opaque handles.  recipe's JSON parser and generator, and the packages that build on these
    (policy, verify, routeplan, dsn, signing, service), the HTTP daemon and the
    command-line tools: see PROJECT.json for each. *)

From stdpp Require Export base tactics decidable list option numbers strings.
From Stdlib Require Export Init.Byte.
From Stdlib Require Strings.Byte.
From Stdlib Require Import ZifyBool ZifyNat.

#[export] Set Default Proof Using "Type".

(** ** Outcomes of Go functions

    [Ret a] is a normal return, [Fail e] the return of a non-nil error, and
    [Crash] a run-time panic (index or slice bounds) or a loop that did not
    end within the fuel its model supplies.  Every component proves that
    [Crash] is not reached. *)
Inductive outcome (E A : Type) : Type :=
  | Ret (a : A)
  | Fail (e : E)
  | Crash.
Arguments Ret {_ _} _.
Arguments Fail {_ _} _.
Arguments Crash {_ _}.

Definition obind {E A B} (m : outcome E A) (k : A -> outcome E B) : outcome E B :=
  match m with
  | Ret a => k a
  | Fail e => Fail e
  | Crash => Crash
  end.

(** The same result with another error value: an error that is wrapped. *)
Definition map_fail {E F A} (f : E -> F) (m : outcome E A) : outcome F A :=
  match m with
  | Ret a => Ret a
  | Fail e => Fail (f e)
  | Crash => Crash
  end.

Declare Scope go_scope.
Delimit Scope go_scope with go.
Notation "'let*' x ':=' c 'in' k" := (obind c (fun x => k))
  (at level 10, x pattern, c at level 100, k at level 200,
   format "'[v' 'let*'  x  ':='  c  'in' '/' k ']'") : go_scope.
Notation "'check' c ';;' k" := (obind c (fun _ : unit => k))
  (at level 10, c at level 99, k at level 200) : go_scope.
#[global] Open Scope go_scope.

(** [require b e]: return the error [e] unless the condition [b] holds. *)
Definition require {E} (b : bool) (e : E) : outcome E unit :=
  if b then Ret tt else Fail e.

Definition is_ret {E A} (m : outcome E A) : bool :=
  match m with Ret _ => true | _ => false end.

Definition no_crash {E A} (m : outcome E A) : Prop := m <> Crash.

Section outcome.
Context {E A B : Type}.
Implicit Types (m : outcome E A) (k : A -> outcome E B).

Lemma obind_ret_inv m k b : obind m k = Ret b -> exists a, m = Ret a /\ k a = Ret b.
Proof. destruct m; simpl; [eauto | done | done]. Qed.

Lemma obind_no_crash m k :
  no_crash m -> (forall a, m = Ret a -> no_crash (k a)) -> no_crash (obind m k).
Proof. unfold no_crash. destruct m; simpl; auto. Qed.

Lemma require_no_crash (c : bool) (e : E) : no_crash (require c e).
Proof. by destruct c. Qed.

Lemma ret_no_crash (a : A) : no_crash (Ret (E := E) a).
Proof. done. Qed.

Lemma fail_no_crash (e : E) : no_crash (Fail (A := A) e).
Proof. done. Qed.

Lemma require_ret_inv (c : bool) (e : E) u : require c e = Ret u -> c = true.
Proof. by destruct c. Qed.
End outcome.

Lemma map_fail_Ret {E F A} (f : E -> F) (m : outcome E A) a : map_fail f m = Ret a <-> m = Ret a.
Proof. destruct m; simpl; split; congruence. Qed.
Lemma map_fail_no_crash {E F A} (f : E -> F) (m : outcome E A) : no_crash m -> no_crash (map_fail f m).
Proof. unfold no_crash. by destruct m. Qed.

(** [yields m C r]: [m] returns normally exactly when [C] holds, and then it
    returns [r].  The calculus below composes such characterisations. *)
Definition yields {E A} (m : outcome E A) (C : Prop) (r : A) : Prop :=
  forall x, m = Ret x <-> C /\ x = r.

Section yields.
Context {E A B : Type}.
Implicit Types (m : outcome E A) (k : A -> outcome E B).

Lemma yields_ret (r : A) : yields (Ret (E := E) r) True r.
Proof. intros x. split; [by intros [= <-] | by intros [_ ->]]. Qed.
Lemma yields_fail (e : E) (r : A) : yields (Fail e) False r.
Proof. intros x. by split; [ | intros [[] _]]. Qed.
Lemma yields_require (b : bool) (e : E) : yields (require b e) (b = true) tt.
Proof. intros []. destruct b; cbn; by split; [ | intros [??]]. Qed.
Lemma yields_bind m k C C' x y :
  yields m C x -> (C -> yields (k x) C' y) -> yields (obind m k) (C /\ C') y.
Proof.
  intros Hm Hk z. split.
  - intros (x' & Hx & Hz)%obind_ret_inv. apply Hm in Hx as [HC ->]. apply (Hk HC) in Hz as [HC' ->]. done.
  - intros [[HC HC'] ->]. rewrite (proj2 (Hm x)) by done. cbn. by apply (Hk HC).
Qed.
Lemma yields_conv m C C' x x' : yields m C x -> (C' <-> C) -> (C -> x' = x) -> yields m C' x'.
Proof. intros Hm HC Hx y. rewrite (Hm y), HC. split; intros [HCC ->]; rewrite Hx in * by done; done. Qed.
#[export] Instance yields_proper : Proper ((=) ==> iff ==> (=) ==> iff) (@yields E A).
Proof. intros m ? <- C C' HC r ? <-. unfold yields. by setoid_rewrite HC. Qed.
Lemma yields_Ret m C r : yields m C r -> C -> m = Ret r.
Proof. intros Hm HC. by apply Hm. Qed.
Lemma yields_inv m C r x : yields m C r -> m = Ret x -> C /\ x = r.
Proof. intros Hm. apply Hm. Qed.
End yields.

(** [settles m C Q]: [m] returns a value, which satisfies [Q], when [C] holds,
    and an error when it does not; it never panics. *)
Definition settles {E A} (m : outcome E A) (C : Prop) (Q : A -> Prop) : Prop :=
  match m with Ret a => C /\ Q a | Fail _ => ~ C | Crash => False end.
Section settles.
Context {E : Type}.
Lemma settles_ret {A} (a : A) (Q : A -> Prop) : Q a -> settles (Ret (E := E) a) True Q.
Proof. done. Qed.
Lemma settles_require (b : bool) (e : E) : settles (require b e) (b = true) (fun _ => True).
Proof. by destruct b. Qed.
Lemma settles_bind {A B} (m : outcome E A) (k : A -> outcome E B) C C' Q Q' :
  settles m C Q -> (forall a, C -> Q a -> settles (k a) C' Q') -> settles (obind m k) (C /\ C') Q'.
Proof.
  destruct m as [a | e |]; cbn; [ | tauto | done]. intros [HC Ha] Hk. specialize (Hk a HC Ha).
  destruct (k a); cbn in *; tauto.
Qed.
Lemma settles_conv {A} (m : outcome E A) C C' (Q Q' : A -> Prop) :
  settles m C Q -> (C <-> C') -> (forall a, C -> Q a -> Q' a) -> settles m C' Q'.
Proof. destruct m; cbn; [intros [HC HQ] HE HI; split; [tauto | auto] | tauto | done]. Qed.
Lemma settles_iff {A} (m : outcome E A) C C' (Q : A -> Prop) : settles m C Q -> (C <-> C') -> settles m C' Q.
Proof. intros H HC. by eapply settles_conv. Qed.
Lemma settles_Ret {A} (m : outcome E A) C Q : settles m C Q -> C -> exists a, m = Ret a /\ Q a.
Proof. destruct m as [a | |]; cbn; [intros [_ ?] _; by exists a | tauto | done]. Qed.
Lemma settles_fail {E' A} (f : E -> E') (m : outcome E A) C Q : settles m C Q -> settles (map_fail f m) C Q.
Proof. by destruct m. Qed.
End settles.

Create HintDb go discriminated.
Create Rewrite HintDb go_simpl.
#[export] Hint Resolve obind_no_crash require_no_crash ret_no_crash fail_no_crash map_fail_no_crash : go.

(** [ret_inv] takes a hypothesis [m = Ret a] apart along the binds, guards and
    matches that [m] is built from, leaving only the successful path. *)
Ltac ret_inv_step H :=
  match type of H with
  | obind _ _ = Ret _ =>
      let a := fresh "r" in let Ha := fresh "Hr" in
      apply obind_ret_inv in H as (a & Ha & H); try ret_inv_step Ha
  | require ?c _ = Ret _ => apply require_ret_inv in H
  | Ret _ = Ret _ => injection H as H; try subst
  | Fail _ = Ret _ => discriminate H
  | Crash = Ret _ => discriminate H
  | (if ?c then _ else _) = Ret _ => let Hc := fresh "Hc" in destruct c eqn:Hc; try discriminate H
  | match ?c with _ => _ end = Ret _ => let Hc := fresh "Hc" in destruct c eqn:Hc; try discriminate H
  end.
Ltac clear_units := repeat match goal with u : unit |- _ => clear u end.
Ltac ret_inv H := repeat (ret_inv_step H; try (progress simpl in H)); clear_units.

(** [crash_free] discharges [no_crash] goals built from binds and guards. *)
Ltac crash_free :=
  repeat match goal with
  | |- no_crash (obind _ _) => apply obind_no_crash; [ | intros ? ? ]
  | |- no_crash (require _ _) => apply require_no_crash
  | |- no_crash (Ret _) => done
  | |- no_crash (Fail _) => done
  | |- no_crash (if ?c then _ else _) => destruct c eqn:?; try discriminate
  | |- no_crash (match ?c with _ => _ end) => destruct c eqn:?; try discriminate
  end; auto with go.

(** ** Lengths as Go [int] values *)
Definition len {A} (l : list A) : Z := Z.of_nat (length l).

Lemma len_app {A} (l k : list A) : len (l ++ k) = (len l + len k)%Z.
Proof. unfold len. rewrite length_app. lia. Qed.
Lemma len_cons {A} (x : A) l : len (x :: l) = (1 + len l)%Z.
Proof. unfold len. simpl. lia. Qed.
Lemma len_nonneg {A} (l : list A) : (0 <= len l)%Z.
Proof. unfold len. lia. Qed.
#[export] Hint Resolve len_nonneg : go.

(** The largest value of Go's 64-bit [int] (math.MaxInt). *)
Definition MaxInt : Z := (2 ^ 63 - 1)%Z.

(** ** Bytes *)
Abbreviation bytes := (list byte).

#[export] Instance byte_eq_dec' : EqDecision byte := Byte.byte_eq_dec.
#[export] Instance byte_countable : countable.Countable byte.
Proof.
  refine (countable.inj_countable Byte.to_N Byte.of_N _). intros b. apply Byte.of_to_N.
Defined.

Definition bval (b : byte) : Z := Z.of_N (Byte.to_N b).

Lemma bval_range b : (0 <= bval b < 256)%Z.
Proof. by destruct b. Qed.

Lemma bval_inj a b : bval a = bval b -> a = b.
Proof.
  unfold bval. intros H%N2Z.inj.
  pose proof (Byte.of_to_N a) as Ha. pose proof (Byte.of_to_N b) as Hb. congruence.
Qed.

(** Conversion [byte(z)] of an integer, with Go's truncation to eight bits. *)
Definition byte_of (z : Z) : byte :=
  match Byte.of_N (Z.to_N (z mod 256)) with Some b => b | None => x00 end.

Lemma bval_byte_of z : bval (byte_of z) = (z mod 256)%Z.
Proof.
  unfold byte_of, bval. pose proof (Z.mod_pos_bound z 256 eq_refl) as Hz.
  destruct (Byte.of_N (Z.to_N (z mod 256))) eqn:E.
  - apply Byte.to_of_N in E. rewrite E. lia.
  - apply Byte.of_N_None_iff in E. lia.
Qed.

Lemma byte_of_bval b : byte_of (bval b) = b.
Proof. by destruct b. Qed.

(** [b1 =? b2] on bytes, with its reflection lemma. *)
Notation "a =?b c" := (Byte.eqb a c) (at level 70) : go_scope.

Lemma byte_eqb_spec (a b : byte) : Bool.reflect (a = b) (a =?b b).
Proof.
  destruct (a =?b b) eqn:E; constructor.
  - by apply Byte.byte_dec_bl.
  - intros ->. by rewrite (Byte.byte_dec_lb eq_refl) in E.
Qed.
Lemma byte_eqb_refl b : (b =?b b) = true.
Proof. by destruct (byte_eqb_spec b b). Qed.
Lemma byte_eqb_eq a b : (a =?b b) = true <-> a = b.
Proof. destruct (byte_eqb_spec a b); naive_solver. Qed.
Lemma byte_eqb_ne a b : (a =?b b) = false <-> a <> b.
Proof. destruct (byte_eqb_spec a b); naive_solver. Qed.
#[export] Hint Rewrite byte_eqb_refl : go_simpl.

Ltac case_byte :=
  match goal with
  | |- context [Byte.eqb ?a ?b] => destruct (byte_eqb_spec a b); [try subst | ]
  | _ : context [Byte.eqb ?a ?b] |- _ => destruct (byte_eqb_spec a b); [try subst | ]
  end.

(** [in_range lo b hi] is Go's [b >= lo && b <= hi]. *)
Definition in_range (lo b hi : byte) : bool :=
  ((bval lo <=? bval b) && (bval b <=? bval hi))%Z.

(** Decision procedure for a boolean statement about one byte. *)
Lemma forall_byte (P : byte -> bool) :
  forallb P (map (fun n => byte_of (Z.of_nat n)) (seq 0 256)) = true -> forall b, P b = true.
Proof.
  rewrite forallb_forall. intros H b. apply H. apply in_map_iff.
  exists (Z.to_nat (bval b)). pose proof (bval_range b).
  rewrite Z2Nat.id by lia. rewrite byte_of_bval. split; [done | ].
  apply in_seq. lia.
Qed.
Ltac by_bytes b := revert b; apply forall_byte; vm_compute; reflexivity.

Definition CR : byte := x0d.
Definition LF : byte := x0a.
Definition SP : byte := x20.
Definition TAB : byte := x09.

(** Go string and byte literals. *)
Definition bs (s : string) : bytes := String.list_byte_of_string s.
