(* ===== verification/GoBytes.v ===== *)
(** * Byte-slice operations of Go's [bytes] and [strings] packages

    Executable definitions of the standard-library operations the modelled
    packages call, checked slice expressions, and the lemmas about them that
    the components share. *)

From S2P Require Import Prelude.

(** The two-byte line terminator used all over the code base. *)
Definition crlf : bytes := [CR; LF].

(** [bytes.Equal] and string equality. *)
Definition bytes_equal (a b : bytes) : bool := bool_decide (a = b).

(** [bytes.HasPrefix s p] / [strings.HasPrefix s p]. *)
Fixpoint has_prefix (s p : bytes) {struct p} : bool :=
  match p, s with
  | [], _ => true
  | x :: p', y :: s' => (x =?b y) && has_prefix s' p'
  | _ :: _, [] => false
  end.

(** [bytes.HasSuffix s p]. *)
Definition has_suffix (s p : bytes) : bool :=
  (length p <=? length s)%nat && bytes_equal (drop (length s - length p) s) p.

(** [bytes.Index s sep]; Go's -1 is [None]. *)
Fixpoint bytes_index (s sep : bytes) : option nat :=
  if has_prefix s sep then Some 0%nat
  else match s with
       | [] => None
       | _ :: s' => S <$> bytes_index s' sep
       end.

(** [bytes.IndexByte s c]; Go's -1 is [None]. *)
Fixpoint index_byte (s : bytes) (c : byte) : option nat :=
  match s with
  | [] => None
  | b :: s' => if b =?b c then Some 0%nat else S <$> index_byte s' c
  end.

(** [bytes.Cut s sep] as (before, after), or [None] when [sep] is absent. *)
Definition bytes_cut (s sep : bytes) : option (bytes * bytes) :=
  match bytes_index s sep with
  | Some i => Some (take i s, drop (i + length sep) s)
  | None => None
  end.

(** bytes.Split with a separator of one byte. *)
Fixpoint split_byte (sep : byte) (s : bytes) : list bytes :=
  match s with
  | [] => [[]]
  | b :: s' =>
      if b =?b sep then [] :: split_byte sep s'
      else match split_byte sep s' with p :: ps => (b :: p) :: ps | [] => [[b]] end
  end.
(** [bytes.Contains]. *)
Definition bytes_contains (s sep : bytes) : bool :=
  if bytes_index s sep is Some _ then true else false.

(** [bytes.ContainsAny s chars] for ASCII [chars]. *)
Definition contains_any (s chars : bytes) : bool :=
  existsb (fun b => existsb (Byte.eqb b) chars) s.

(** The loops that skip bytes satisfying [p] from the front, and from the front
    and then from the back. *)
Fixpoint drop_while (p : byte -> bool) (s : bytes) : bytes :=
  match s with
  | [] => []
  | b :: s' => if p b then drop_while p s' else s
  end.
Definition trim_bytes (p : byte -> bool) (s : bytes) : bytes :=
  reverse (drop_while p (reverse (drop_while p s))).

(** Slice expressions [s[a:b]], [s[a:]] and index expressions [s[i]], which
    panic out of range. *)
Definition slice {E} (s : bytes) (a b : nat) : outcome E bytes :=
  if (a <=? b)%nat && (b <=? length s)%nat then Ret (take (b - a) (drop a s)) else Crash.
Definition slice_from {E} (s : bytes) (a : nat) : outcome E bytes := slice s a (length s).
Definition index_at {E} (s : bytes) (i : nat) : outcome E byte :=
  match s !! i with Some b => Ret b | None => Crash end.

(** ** Lemmas *)

Lemma bytes_equal_eq a b : bytes_equal a b = true <-> a = b.
Proof. apply bool_decide_eq_true. Qed.
Lemma bytes_equal_refl a : bytes_equal a a = true.
Proof. by apply bytes_equal_eq. Qed.
#[export] Hint Rewrite bytes_equal_refl : go_simpl.

Lemma has_prefix_spec s p : has_prefix s p = true <-> exists t, s = p ++ t.
Proof.
  revert s. induction p as [|x p IH]; intros s; simpl; [split; [eauto | done] | ].
  destruct s as [|y s]; simpl; [split; [done | by intros [? ?]] | ].
  rewrite andb_true_iff, byte_eqb_eq, IH. split.
  - intros [-> [t ->]]. eauto.
  - intros [t [= -> ->]]. eauto.
Qed.

Lemma has_prefix_app p t : has_prefix (p ++ t) p = true.
Proof. apply has_prefix_spec. eauto. Qed.

Lemma has_suffix_spec s p : has_suffix s p = true <-> exists t, s = t ++ p.
Proof.
  unfold has_suffix. rewrite andb_true_iff, bytes_equal_eq, Nat.leb_le. split.
  - intros [Hl Hd]. exists (take (length s - length p) s).
    rewrite <- Hd at 2. by rewrite take_drop.
  - intros [t ->]. rewrite length_app. split; [lia | ].
    replace (length t + length p - length p)%nat with (length t) by lia.
    by rewrite drop_app_length.
Qed.

Lemma has_suffix_app t p : has_suffix (t ++ p) p = true.
Proof. apply has_suffix_spec. eauto. Qed.

Lemma bytes_index_Some s sep i :
  bytes_index s sep = Some i -> s = take i s ++ sep ++ drop (i + length sep) s.
Proof.
  revert i. induction s as [|b s IH]; intros i; simpl.
  - destruct (has_prefix [] sep) eqn:E; [ | done]. intros [= <-].
    apply has_prefix_spec in E as [t Ht]. symmetry in Ht. apply app_eq_nil in Ht as [-> ->]. done.
  - destruct (has_prefix (b :: s) sep) eqn:E.
    + intros [= <-]. apply has_prefix_spec in E as [t ->]. simpl.
      by rewrite drop_app_length.
    + destruct (bytes_index s sep) as [j|] eqn:Ej; simpl; [ | done].
      intros [= <-]. simpl. f_equal. by apply IH.
Qed.

Lemma bytes_index_bound s sep i :
  bytes_index s sep = Some i -> (i + length sep <= length s)%nat.
Proof.
  revert i. induction s as [|b s IH]; intros i; simpl.
  - destruct (has_prefix [] sep) eqn:E; [ | done]. intros [= <-].
    apply has_prefix_spec in E as [t Ht]. symmetry in Ht. by apply app_eq_nil in Ht as [-> ->].
  - destruct (has_prefix (b :: s) sep) eqn:E.
    + intros [= <-]. apply has_prefix_spec in E as [t Ht].
      apply (f_equal length) in Ht. rewrite length_app in Ht. simpl in Ht. lia.
    + destruct (bytes_index s sep) as [j|]; simpl; [ | done].
      intros [= <-]. specialize (IH j eq_refl). lia.
Qed.

Lemma bytes_index_cons b s sep :
  bytes_index (b :: s) sep =
  if has_prefix (b :: s) sep then Some 0%nat else S <$> bytes_index s sep.
Proof. done. Qed.

(** A needle that does not begin inside [t] is found right after it. *)
Lemma bytes_index_app_ne t sep u :
  (forall i, (i < length t)%nat -> has_prefix (drop i t ++ sep ++ u) sep = false) ->
  bytes_index (t ++ sep ++ u) sep = Some (length t).
Proof.
  induction t as [|b t IH]; intros H; simpl.
  - destruct sep as [|c sep]; [by destruct u | ].
    pose proof (has_prefix_app (c :: sep) u) as Hp. simpl in *. by rewrite Hp.
  - pose proof (H 0%nat ltac:(simpl; lia)) as H0. simpl in H0. rewrite H0.
    rewrite IH; [done | ]. intros i Hi. apply (H (S i)). simpl. lia.
Qed.

Lemma index_byte_Some s c i :
  index_byte s c = Some i ->
  s = take i s ++ c :: drop (S i) s /\ c ∉ take i s.
Proof.
  revert i. induction s as [|b s IH]; intros i; simpl; [done | ].
  case_byte.
  - intros [= <-]. simpl. split; [done | apply not_elem_of_nil].
  - destruct (index_byte s c) as [j|] eqn:Ej; simpl; [ | done].
    intros [= <-]. destruct (IH j eq_refl) as [H1 H2]. simpl. split; [by rewrite <- H1 | ].
    rewrite not_elem_of_cons. split; [congruence | done].
Qed.

Lemma index_byte_app t c u : c ∉ t -> index_byte (t ++ c :: u) c = Some (length t).
Proof.
  induction t as [|b t IH]; simpl; intros H.
  - by rewrite byte_eqb_refl.
  - apply not_elem_of_cons in H as [H1 H2]. case_byte; [done | ]. by rewrite IH.
Qed.

Lemma index_byte_None s c : index_byte s c = None <-> c ∉ s.
Proof.
  induction s as [|b s IH]; simpl; [split; [intros _; apply not_elem_of_nil | done] | ].
  rewrite not_elem_of_cons. case_byte; [by split; [ | intros [? ?]] | ].
  destruct (index_byte s c) eqn:E; simpl.
  - split; [done | ]. intros [_ H]. by apply IH in H.
  - split; [ | done]. intros _. split; [congruence | by apply IH].
Qed.

Section slices.
Context {E : Type}.

Lemma slice_ok (s : bytes) a b :
  (a <= b <= length s)%nat -> slice (E := E) s a b = Ret (take (b - a) (drop a s)).
Proof.
  intros [??]. unfold slice.
  by rewrite (proj2 (Nat.leb_le a b)), (proj2 (Nat.leb_le b (length s))).
Qed.

Lemma slice_inv (s : bytes) a b r :
  slice (E := E) s a b = Ret r -> (a <= b <= length s)%nat /\ r = take (b - a) (drop a s).
Proof.
  unfold slice. destruct (_ && _) eqn:H; [ | done]. intros [= <-].
  apply andb_true_iff in H as [?%Nat.leb_le ?%Nat.leb_le]. auto.
Qed.

Lemma slice_app_mid (p m t : bytes) a b :
  a = length p -> b = (length p + length m)%nat ->
  slice (E := E) (p ++ m ++ t) a b = Ret m.
Proof.
  intros -> ->. rewrite slice_ok by (rewrite !length_app; lia). f_equal.
  rewrite drop_app_length. replace (length p + length m - length p)%nat with (length m) by lia.
  by rewrite take_app_length.
Qed.

Lemma slice_from_app (p t : bytes) a : a = length p -> slice_from (E := E) (p ++ t) a = Ret t.
Proof.
  intros ->. unfold slice_from. rewrite slice_ok by (rewrite length_app; lia). f_equal.
  rewrite drop_app_length, length_app. apply take_ge. lia.
Qed.

Lemma slice_no_crash (s : bytes) a b : (a <= b <= length s)%nat -> no_crash (slice (E := E) s a b).
Proof. intros H. rewrite slice_ok by done. done. Qed.

Lemma slice_from_no_crash (s : bytes) a : (a <= length s)%nat -> no_crash (slice_from (E := E) s a).
Proof. intros H. by apply slice_no_crash. Qed.

Lemma index_at_no_crash (s : bytes) i : (i < length s)%nat -> no_crash (index_at (E := E) s i).
Proof. intros [x Hx]%lookup_lt_is_Some_2. unfold index_at. by rewrite Hx. Qed.

Lemma index_at_inv (s : bytes) i b : index_at (E := E) s i = Ret b -> s !! i = Some b.
Proof. unfold index_at. destruct (s !! i); naive_solver. Qed.
End slices.

(** ** Line structure

    A byte string is [plain] when it holds no CR and no LF. *)
Definition plain_byte (b : byte) : bool := negb (b =?b CR) && negb (b =?b LF).
Definition plain (s : bytes) : Prop := Forall (fun b => plain_byte b = true) s.

#[export] Instance plain_dec s : Decision (plain s).
Proof. unfold plain. apply Forall_dec. intros b. apply bool_eq_dec. Defined.

Lemma plain_byte_spec b : plain_byte b = true <-> b <> CR /\ b <> LF.
Proof.
  unfold plain_byte. rewrite andb_true_iff, !negb_true_iff, !byte_eqb_ne. done.
Qed.

Lemma plain_app s t : plain (s ++ t) <-> plain s /\ plain t.
Proof. unfold plain. by rewrite Forall_app. Qed.

Lemma plain_cons b s : plain (b :: s) <-> plain_byte b = true /\ plain s.
Proof. unfold plain. by rewrite Forall_cons. Qed.

(** The first CRLF after a plain prefix is found at the end of that prefix. *)
Lemma bytes_index_plain s u : plain s -> bytes_index (s ++ crlf ++ u) crlf = Some (length s).
Proof.
  intros Hs. apply bytes_index_app_ne. intros i Hi.
  destruct (drop i s) as [|b t] eqn:E.
  { apply (f_equal length) in E. rewrite length_drop in E. simpl in E. lia. }
  assert (plain_byte b = true) as Hb.
  { apply (Forall_drop _ i) in Hs. rewrite E in Hs. by apply Forall_cons in Hs as [? _]. }
  apply plain_byte_spec in Hb as [Hb _]. simpl.
  by case_byte.
Qed.

Lemma bytes_index_plain_None s : plain s -> bytes_index s crlf = None.
Proof.
  induction 1 as [|b s Hb _ IH]; [done | ]. simpl.
  apply plain_byte_spec in Hb as [Hb _]. case_byte; [done | ]. simpl. by rewrite IH.
Qed.

(** Terminated lines. *)
Definition unlines (ls : list bytes) : bytes := concat (map (fun l => l ++ crlf) ls).

Lemma unlines_app ls ks : unlines (ls ++ ks) = unlines ls ++ unlines ks.
Proof. unfold unlines. by rewrite map_app, concat_app. Qed.

Lemma unlines_cons l ls : unlines (l :: ls) = l ++ crlf ++ unlines ls.
Proof. unfold unlines. simpl. by rewrite <- app_assoc. Qed.

(** Slices with signed bounds: a negative bound panics like a bound past the end. *)
Definition zslice {E} (s : bytes) (a b : Z) : outcome E bytes :=
  if (0 <=? a)%Z && (0 <=? b)%Z then slice s (Z.to_nat a) (Z.to_nat b) else Crash.

Lemma zslice_of_nat {E} (s : bytes) (a b : nat) :
  zslice (E := E) s (Z.of_nat a) (Z.of_nat b) = slice s a b.
Proof.
  unfold zslice. rewrite (proj2 (Z.leb_le 0 (Z.of_nat a))) by lia.
  rewrite (proj2 (Z.leb_le 0 (Z.of_nat b))) by lia. by rewrite !Nat2Z.id.
Qed.

Lemma zslice_no_crash {E} (s : bytes) a b :
  (0 <= a <= b)%Z -> (b <= len s)%Z -> no_crash (zslice (E := E) s a b).
Proof.
  intros H1 H2. unfold len in H2.
  rewrite <- (Z2Nat.id a), <- (Z2Nat.id b) by lia. rewrite zslice_of_nat.
  apply slice_no_crash. lia.
Qed.

Lemma contains_any_plain s : contains_any s [CR; LF] = false <-> plain s.
Proof.
  induction s as [|b s IH]; simpl; [by split; [constructor | ] | ].
  rewrite plain_cons, orb_false_iff, IH. unfold plain_byte.
  rewrite orb_false_r. destruct (byte_eqb_spec b CR), (byte_eqb_spec b LF); simpl; naive_solver.
Qed.

(** ** Trimming *)
Lemma drop_while_head p v b t : drop_while p v = b :: t -> p b = false.
Proof.
  induction v as [|c v IH]; simpl; [done | ]. destruct (p c) eqn:E; [done | ]. by intros [= -> ->].
Qed.

Lemma drop_while_split p v :
  exists k, v = k ++ drop_while p v /\ Forall (fun b => p b = true) k.
Proof.
  induction v as [|c v (k & Hk & Hp)]; simpl; [by exists []; split | ].
  destruct (p c) eqn:E; [ | by exists []; split].
  exists (c :: k). split; [simpl; congruence | by constructor].
Qed.

Lemma drop_while_app p k v : Forall (fun b => p b = true) k -> drop_while p (k ++ v) = drop_while p v.
Proof. induction 1 as [|b k Hb _ IH]; simpl; [done | ]. by rewrite Hb. Qed.

(** [m] neither starts nor ends with a byte satisfying [p]. *)
Definition edged (p : byte -> bool) (m : bytes) : Prop :=
  (forall b t, m = b :: t -> p b = false) /\ (forall t b, m = t ++ [b] -> p b = false).

Lemma trim_bytes_split p s :
  exists w1 w2, s = w1 ++ trim_bytes p s ++ w2 /\ edged p (trim_bytes p s) /\
    Forall (fun b => p b = true) w1 /\ Forall (fun b => p b = true) w2.
Proof.
  destruct (drop_while_split p s) as (w1 & E1 & H1). set (u := drop_while p s) in *.
  destruct (drop_while_split p (reverse u)) as (k & E2 & H2).
  exists w1, (reverse k).
  assert (u = trim_bytes p s ++ reverse k) as Eu.
  { unfold trim_bytes. fold u. by rewrite <- reverse_app, <- E2, reverse_involutive. }
  split_and!; [by rewrite <- Eu | | done | by apply Forall_reverse].
  split.
  - intros b t E. rewrite E in Eu. by eapply drop_while_head.
  - intros t b E. unfold trim_bytes in E. fold u in E. apply (f_equal reverse) in E.
    rewrite reverse_involutive, reverse_app, reverse_singleton in E. by eapply drop_while_head.
Qed.

Lemma trim_bytes_mid p w1 m w2 :
  edged p m -> Forall (fun b => p b = true) w1 -> Forall (fun b => p b = true) w2 ->
  trim_bytes p (w1 ++ m ++ w2) = m.
Proof.
  intros [Hh Hl] H1 H2. unfold trim_bytes. rewrite drop_while_app by done.
  destruct m as [|b m].
  - cbn [app]. rewrite <- (app_nil_r w2), drop_while_app by done. done.
  - cbn [app drop_while]. rewrite (Hh b m) by done.
    change (b :: m ++ w2) with ((b :: m) ++ w2). rewrite reverse_app, drop_while_app
      by by apply Forall_reverse.
    assert (drop_while p (reverse (b :: m)) = reverse (b :: m)) as ->; [ | apply reverse_involutive].
    destruct (reverse (b :: m)) as [|c r] eqn:E; [done | ]. cbn [drop_while].
    rewrite (Hl (reverse r) c); [done | ].
    by rewrite <- (reverse_involutive (b :: m)), E, reverse_cons.
Qed.

(** ** Splitting at one byte *)
Lemma split_byte_nonempty sep s : split_byte sep s <> [].
Proof. destruct s as [|b s]; simpl; [done | ]. case_byte; [done | ]. by destruct (split_byte sep s). Qed.
Lemma split_byte_plain sep s : sep ∉ s -> split_byte sep s = [s].
Proof.
  induction s as [|b s IH]; [done | ]. intros [Hb Hs]%not_elem_of_cons. cbn [split_byte].
  case_byte; [done | ]. by rewrite IH.
Qed.
Lemma split_byte_app sep p s : sep ∉ p -> split_byte sep (p ++ sep :: s) = p :: split_byte sep s.
Proof.
  induction p as [|b p IH]; [intros _; cbn; by rewrite byte_eqb_refl | ].
  intros [Hb Hp]%not_elem_of_cons. cbn [app split_byte]. case_byte; [done | ]. by rewrite IH.
Qed.
Lemma split_byte_inv sep s p ps :
  split_byte sep s = p :: ps ->
  sep ∉ p /\ (ps = [] /\ s = p \/ exists s', s = p ++ sep :: s' /\ split_byte sep s' = ps).
Proof.
  revert p ps. induction s as [|b s IH]; intros p ps; cbn [split_byte].
  { intros [= <- <-]. split; [apply not_elem_of_nil | by left]. }
  case_byte.
  { intros [= <- <-]. split; [apply not_elem_of_nil | right]. by exists s. }
  destruct (split_byte sep s) as [|q qs] eqn:E; [by apply split_byte_nonempty in E | ]. intros [= <- <-].
  destruct (IH q qs eq_refl) as [Hq Hs]. split; [by apply not_elem_of_cons | ].
  destruct Hs as [[-> ->] | (s' & -> & <-)]; [by left | right]. by exists s'.
Qed.

(** ** Go's sort.SliceStable, and uniqueness of key-sorted lists

    [slice_stable] is a stable sort by a [less] function.  The key lemma,
    [key_sorted_unique], says that a list sorted by a key is determined by the
    sublists of equal key. *)
Section stable_sort.
Context {A : Type} (less : A -> A -> bool).

Fixpoint insert_stable (x : A) (l : list A) : list A :=
  match l with
  | [] => [x]
  | y :: l' => if less y x then y :: insert_stable x l' else x :: l
  end.
Definition slice_stable (l : list A) : list A := foldr insert_stable [] l.

Lemma insert_stable_perm x l : insert_stable x l ≡ₚ x :: l.
Proof.
  induction l as [|y l IH]; simpl; [done | ]. destruct (less y x); [ | done].
  rewrite IH. apply Permutation_swap.
Qed.

Lemma slice_stable_perm l : slice_stable l ≡ₚ l.
Proof.
  induction l as [|x l IH]; [done | ]. cbn [slice_stable foldr].
  rewrite insert_stable_perm. by f_equiv.
Qed.

Lemma insert_stable_last x l : Forall (fun y => less y x = true) l -> insert_stable x l = l ++ [x].
Proof. induction 1 as [|y l Hy _ IH]; simpl; [done | ]. by rewrite Hy, IH. Qed.
End stable_sort.

(** ** Bytewise lexicographic order of Go strings *)
Fixpoint bytes_ltb (a b : bytes) : bool :=
  match a, b with
  | _, [] => false
  | [], _ :: _ => true
  | x :: a', y :: b' =>
      if (bval x <? bval y)%Z then true
      else if (bval y <? bval x)%Z then false else bytes_ltb a' b'
  end.

Lemma bytes_ltb_irrefl a : bytes_ltb a a = false.
Proof. induction a as [|x a IH]; simpl; [done | ]. by rewrite Z.ltb_irrefl. Qed.

Lemma bytes_ltb_trans a b c : bytes_ltb a b = true -> bytes_ltb b c = true -> bytes_ltb a c = true.
Proof.
  revert b c. induction a as [|x a IH]; intros [|y b] [|z c]; simpl; try done.
  destruct (Z.ltb_spec (bval x) (bval y)), (Z.ltb_spec (bval y) (bval x)); try lia; try done;
    destruct (Z.ltb_spec (bval y) (bval z)), (Z.ltb_spec (bval z) (bval y)); try lia; try done;
    destruct (Z.ltb_spec (bval x) (bval z)), (Z.ltb_spec (bval z) (bval x)); try lia; try done.
  apply IH.
Qed.

Lemma bytes_ltb_total a b : bytes_ltb a b = false -> bytes_ltb b a = false -> a = b.
Proof.
  revert b. induction a as [|x a IH]; intros [|y b]; simpl; try done.
  destruct (Z.ltb_spec (bval x) (bval y)), (Z.ltb_spec (bval y) (bval x)); try lia; try done.
  intros. f_equal; [apply bval_inj; lia | by apply IH].
Qed.

(** [a <= b] on strings. *)
Definition bytes_le (a b : bytes) : Prop := bytes_ltb b a = false.

Lemma bytes_le_refl a : bytes_le a a.
Proof. apply bytes_ltb_irrefl. Qed.
Lemma bytes_le_trans a b c : bytes_le a b -> bytes_le b c -> bytes_le a c.
Proof.
  unfold bytes_le. intros H1 H2. destruct (bytes_ltb c a) eqn:E; [ | done].
  destruct (bytes_ltb a b) eqn:Eab.
  - by rewrite (bytes_ltb_trans c a b) in H2.
  - by rewrite (bytes_ltb_total a b Eab H1), H2 in E.
Qed.
Lemma bytes_le_antisymm a b : bytes_le a b -> bytes_le b a -> a = b.
Proof. intros H1 H2. by apply bytes_ltb_total. Qed.
Lemma bytes_lt_le a b : bytes_ltb a b = true -> bytes_le a b.
Proof.
  unfold bytes_le. intros H. destruct (bytes_ltb b a) eqn:E; [ | done].
  by rewrite <- (bytes_ltb_irrefl a), (bytes_ltb_trans a b a H E).
Qed.

Lemma filter_all_False {A} (P : A -> Prop) `{!forall x, Decision (P x)} (l : list A) :
  Forall (fun x => ~ P x) l -> filter P l = [].
Proof. induction 1 as [|x l Hx _ IH]; [done | ]. by rewrite filter_cons_False. Qed.

Lemma reverse_map {A B} (f : A -> B) l : reverse (map f l) = map f (reverse l).
Proof. symmetry. apply (fmap_reverse f). Qed.

(** ** Lists sorted by a key *)
Section key_sorted.
Context {A : Type} (key : A -> bytes).

Inductive key_sorted : list A -> Prop :=
  | key_sorted_nil : key_sorted []
  | key_sorted_cons x l :
      Forall (fun y => bytes_le (key x) (key y)) l -> key_sorted l -> key_sorted (x :: l).

Lemma key_sorted_filter_head x l :
  key_sorted (x :: l) -> forall y k, y ∈ x :: l -> key y = k -> bytes_le (key x) k.
Proof.
  inversion 1 as [ | ? ? Hx _]; subst. intros y k [-> | Hy]%elem_of_cons <-; [apply bytes_le_refl | ].
  rewrite Forall_forall in Hx. by apply Hx.
Qed.

Lemma key_sorted_unique l1 l2 :
  key_sorted l1 -> key_sorted l2 ->
  (forall k, filter (fun x => key x = k) l1 = filter (fun x => key x = k) l2) -> l1 = l2.
Proof.
  intros H1. revert l2. induction H1 as [|x l1 Hx H1 IH]; intros [|y l2] H2 Hf.
  - done.
  - specialize (Hf (key y)). rewrite filter_nil, filter_cons_True in Hf by done. done.
  - specialize (Hf (key x)). rewrite filter_nil, filter_cons_True in Hf by done. done.
  - assert (key x = key y) as Hk.
    { apply bytes_le_antisymm.
      - assert (y ∈ filter (fun z => key z = key y) (x :: l1)) as Hin.
        { rewrite Hf, filter_cons_True by done. apply list_elem_of_here. }
        apply list_elem_of_filter in Hin as [_ Hin].
        eapply key_sorted_filter_head; [by constructor | exact Hin | done].
      - assert (x ∈ filter (fun z => key z = key x) (y :: l2)) as Hin.
        { rewrite <- Hf, filter_cons_True by done. apply list_elem_of_here. }
        apply list_elem_of_filter in Hin as [_ Hin].
        eapply key_sorted_filter_head; [exact H2 | exact Hin | done]. }
    assert (x = y) as <-.
    { specialize (Hf (key x)). rewrite !filter_cons_True in Hf by done. by injection Hf. }
    f_equal. apply IH; [by inversion H2 | ]. intros k. specialize (Hf k).
    rewrite !filter_cons in Hf. destruct (decide (key x = k)); [by injection Hf | done].
Qed.
End key_sorted.

Lemma key_sorted_map {A B} (f : A -> B) (kA : A -> bytes) (kB : B -> bytes) l :
  (forall x, kB (f x) = kA x) -> key_sorted kA l -> key_sorted kB (map f l).
Proof.
  intros Hk. induction 1 as [|x l Hx _ IH]; simpl; constructor; [ | done].
  rewrite Forall_map. eapply Forall_impl; [exact Hx | ]. intros y. simpl. by rewrite !Hk.
Qed.

Lemma filter_map_key {A B} (f : A -> B) (kA : A -> bytes) (kB : B -> bytes) k l :
  (forall x, kB (f x) = kA x) ->
  filter (fun y => kB y = k) (map f l) = map f (filter (fun x => kA x = k) l).
Proof.
  intros Hk. induction l as [|x l IH]; [done | ]. simpl. rewrite !filter_cons, Hk, IH.
  by destruct (decide (kA x = k)).
Qed.

(** A window of the reversed list is the reversed mirror window. *)
Lemma reverse_take_drop {X} (l : list X) a b :
  (a + b <= length l)%nat ->
  reverse (take b (drop a (reverse l))) = take b (drop (length l - a - b) l).
Proof.
  intros Hab. rewrite <- (take_drop (length l - a - b) l) at 1.
  rewrite reverse_app. set (p := take _ l). set (r := drop _ l).
  assert (length r = (a + b)%nat) as Hr by (unfold r; rewrite length_drop; lia).
  rewrite <- (take_drop b r) at 1. rewrite reverse_app, <- app_assoc.
  rewrite drop_app_le by (rewrite length_reverse, length_drop; lia).
  rewrite (drop_ge (reverse (drop b r))) by (rewrite length_reverse, length_drop; lia).
  cbn [app]. rewrite take_app_le by (rewrite length_reverse, length_take; lia).
  rewrite take_ge by (rewrite length_reverse, length_take; lia). apply reverse_involutive.
Qed.

Lemma reverse_concat {A} (ls : list (list A)) : reverse (concat ls) = concat (map reverse (reverse ls)).
Proof.
  induction ls as [|l ls IH]; [done | ]. cbn [concat]. rewrite reverse_app, IH, reverse_cons, map_app, concat_app.
  cbn. by rewrite app_nil_r.
Qed.

(** [mapM] in the option monad, total on lists of defined results. *)
Lemma mapM_default {A B} (f : A -> option B) (d : B) l :
  Forall (fun x => is_Some (f x)) l -> mapM f l = Some (map (fun x => default d (f x)) l).
Proof.
  intros H. apply mapM_Some. induction H as [|x l [y Hy] _ IH]; cbn; [constructor | ].
  constructor; [by rewrite Hy | done].
Qed.
Lemma mapM_is_Some_iff {A B} (f : A -> option B) l :
  is_Some (mapM f l) <-> Forall (fun x => is_Some (f x)) l.
Proof. apply mapM_is_Some. Qed.
