(* ===== verification/Sha2.v ===== *)
(** * SHA-256 and SHA-512 (FIPS 180-4)

    The digests of Go's [crypto/sha256] and [crypto/sha512], written once for a
    word size [w] and instantiated twice; words are integers below [2 ^ w]. *)

From S2P Require Import Prelude.
#[local] Open Scope Z_scope.

(** The parameters of one SHA-2 function: rotation amounts of the two message
    schedule functions (the third is a shift) and of the two round functions. *)
Record Sha2Params := MkSha2 {
  sha_w : Z; sha_H : list Z; sha_K : list Z;
  sha_s0 : Z * Z * Z; sha_s1 : Z * Z * Z; sha_S0 : Z * Z * Z; sha_S1 : Z * Z * Z }.

Section sha2.
Context (P : Sha2Params).

Definition wrap (x : Z) : Z := x mod 2 ^ sha_w P.
Definition rotr (x n : Z) : Z := Z.lor (Z.shiftr x n) (wrap (Z.shiftl x (sha_w P - n))).
Definition sigma_small (r : Z * Z * Z) (x : Z) : Z :=
  let '(a, b, c) := r in Z.lxor (Z.lxor (rotr x a) (rotr x b)) (Z.shiftr x c).
Definition sigma_big (r : Z * Z * Z) (x : Z) : Z :=
  let '(a, b, c) := r in Z.lxor (Z.lxor (rotr x a) (rotr x b)) (rotr x c).
Definition choose (e f g : Z) : Z := Z.lxor (Z.land e f) (Z.land (2 ^ sha_w P - 1 - e) g).
Definition majority (a b c : Z) : Z :=
  Z.lxor (Z.lxor (Z.land a b) (Z.land a c)) (Z.land b c).

(** Big-endian words. *)
Definition be_bytes (n : nat) (x : Z) : bytes :=
  map (fun i => byte_of (Z.shiftr x (8 * Z.of_nat (n - 1 - i)))) (seq 0 n).
Definition be_word (s : bytes) : Z := foldl (fun acc b => acc * 256 + bval b) 0 s.

Definition word_bytes : nat := Z.to_nat (sha_w P / 8).
Definition block_bytes : nat := (16 * word_bytes)%nat.

Definition sha_pad (msg : bytes) : bytes :=
  let lenBytes := (2 * word_bytes)%nat in
  let zeros := Z.to_nat ((- (len msg + 1 + Z.of_nat lenBytes)) mod Z.of_nat block_bytes) in
  msg ++ [x80] ++ repeat x00 zeros ++ be_bytes lenBytes (8 * len msg).

Fixpoint chunks (fuel size : nat) (s : bytes) : list bytes :=
  match fuel with
  | O => []
  | S fuel' => if decide (s = []) then [] else take size s :: chunks fuel' size (drop size s)
  end.

(** One more schedule word from the last sixteen, newest first. *)
Definition next_word (recent : list Z) : Z :=
  let at_ i := nth i recent 0 in
  wrap (at_ 15%nat + sigma_small (sha_s0 P) (at_ 14%nat) + at_ 6%nat
        + sigma_small (sha_s1 P) (at_ 1%nat)).
Fixpoint schedule (n : nat) (recent : list Z) : list Z :=
  match n with
  | O => []
  | S n' => let x := next_word recent in x :: schedule n' (x :: take 15 recent)
  end.

Definition sha_state : Type := Z * Z * Z * Z * Z * Z * Z * Z.
Definition sha_round (st : sha_state) (kw : Z * Z) : sha_state :=
  let '(a, b, c, d, e, f, g, h) := st in
  let t1 := wrap (h + sigma_big (sha_S1 P) e + choose e f g + kw.1 + kw.2) in
  let t2 := wrap (sigma_big (sha_S0 P) a + majority a b c) in
  (wrap (t1 + t2), a, b, c, wrap (d + t1), e, f, g).

Definition compress (st : sha_state) (block : bytes) : sha_state :=
  let first := map be_word (chunks 16 word_bytes block) in
  let words := first ++ schedule (length (sha_K P) - 16) (rev first) in
  let '(a, b, c, d, e, f, g, h) := st in
  let '(a', b', c', d', e', f', g', h') := foldl sha_round st (zip (sha_K P) words) in
  (wrap (a + a'), wrap (b + b'), wrap (c + c'), wrap (d + d'),
   wrap (e + e'), wrap (f + f'), wrap (g + g'), wrap (h + h')).

Definition sha_init : sha_state :=
  match sha_H P with
  | [a; b; c; d; e; f; g; h] => (a, b, c, d, e, f, g, h)
  | _ => (0, 0, 0, 0, 0, 0, 0, 0)
  end.

Definition sha2 (msg : bytes) : bytes :=
  let padded := sha_pad msg in
  let '(a, b, c, d, e, f, g, h) :=
    foldl compress sha_init (chunks (length padded) block_bytes padded) in
  concat (map (be_bytes word_bytes) [a; b; c; d; e; f; g; h]).

Lemma length_be_bytes n x : length (be_bytes n x) = n.
Proof. unfold be_bytes. by rewrite length_map, length_seq. Qed.

Lemma length_sha2 msg : length (sha2 msg) = (8 * word_bytes)%nat.
Proof.
  unfold sha2. destruct (foldl _ _ _) as [[[[[[[a b] c] d] e] f] g] h].
  cbn [map concat]. rewrite !length_app, !length_be_bytes. simpl. lia.
Qed.
End sha2.

Definition sha256_params : Sha2Params :=
  MkSha2 32
   [1779033703; 3144134277; 1013904242; 2773480762; 1359893119; 2600822924; 528734635; 1541459225]
   [1116352408; 1899447441; 3049323471; 3921009573; 961987163; 1508970993; 2453635748; 2870763221;
    3624381080; 310598401; 607225278; 1426881987; 1925078388; 2162078206; 2614888103; 3248222580;
    3835390401; 4022224774; 264347078; 604807628; 770255983; 1249150122; 1555081692; 1996064986;
    2554220882; 2821834349; 2952996808; 3210313671; 3336571891; 3584528711; 113926993; 338241895;
    666307205; 773529912; 1294757372; 1396182291; 1695183700; 1986661051; 2177026350; 2456956037;
    2730485921; 2820302411; 3259730800; 3345764771; 3516065817; 3600352804; 4094571909; 275423344;
    430227734; 506948616; 659060556; 883997877; 958139571; 1322822218; 1537002063; 1747873779;
    1955562222; 2024104815; 2227730452; 2361852424; 2428436474; 2756734187; 3204031479; 3329325298]
   (7, 18, 3) (17, 19, 10) (2, 13, 22) (6, 11, 25).

Definition sha512_params : Sha2Params :=
  MkSha2 64
   [7640891576956012808; 13503953896175478587; 4354685564936845355; 11912009170470909681;
    5840696475078001361; 11170449401992604703; 2270897969802886507; 6620516959819538809]
   [4794697086780616226; 8158064640168781261; 13096744586834688815; 16840607885511220156;
    4131703408338449720; 6480981068601479193; 10538285296894168987; 12329834152419229976;
    15566598209576043074; 1334009975649890238; 2608012711638119052; 6128411473006802146;
    8268148722764581231; 9286055187155687089; 11230858885718282805; 13951009754708518548;
    16472876342353939154; 17275323862435702243; 1135362057144423861; 2597628984639134821;
    3308224258029322869; 5365058923640841347; 6679025012923562964; 8573033837759648693;
    10970295158949994411; 12119686244451234320; 12683024718118986047; 13788192230050041572;
    14330467153632333762; 15395433587784984357; 489312712824947311; 1452737877330783856;
    2861767655752347644; 3322285676063803686; 5560940570517711597; 5996557281743188959;
    7280758554555802590; 8532644243296465576; 9350256976987008742; 10552545826968843579;
    11727347734174303076; 12113106623233404929; 14000437183269869457; 14369950271660146224;
    15101387698204529176; 15463397548674623760; 17586052441742319658; 1182934255886127544;
    1847814050463011016; 2177327727835720531; 2830643537854262169; 3796741975233480872;
    4115178125766777443; 5681478168544905931; 6601373596472566643; 7507060721942968483;
    8399075790359081724; 8693463985226723168; 9568029438360202098; 10144078919501101548;
    10430055236837252648; 11840083180663258601; 13761210420658862357; 14299343276471374635;
    14566680578165727644; 15097957966210449927; 16922976911328602910; 17689382322260857208;
    500013540394364858; 748580250866718886; 1242879168328830382; 1977374033974150939;
    2944078676154940804; 3659926193048069267; 4368137639120453308; 4836135668995329356;
    5532061633213252278; 6448918945643986474; 6902733635092675308; 7801388544844847127]
   (1, 8, 7) (19, 61, 6) (28, 34, 39) (14, 18, 41).

(** [sha256.Sum256] and [sha512.Sum512]. *)
Definition sha256_Sum256 (msg : bytes) : bytes := sha2 sha256_params msg.
Definition sha512_Sum512 (msg : bytes) : bytes := sha2 sha512_params msg.

Lemma length_sha256 msg : length (sha256_Sum256 msg) = 32%nat.
Proof. apply (length_sha2 sha256_params). Qed.
Lemma length_sha512 msg : length (sha512_Sum512 msg) = 64%nat.
Proof. apply (length_sha2 sha512_params). Qed.

(** Test vectors: one-block, and two-block messages. *)
Example sha256_abc : sha256_Sum256 (bs "abc") =
  [xba; x78; x16; xbf; x8f; x01; xcf; xea; x41; x41; x40; xde; x5d; xae; x22; x23; xb0; x03;
   x61; xa3; x96; x17; x7a; x9c; xb4; x10; xff; x61; xf2; x00; x15; xad].
Proof. vm_compute. reflexivity. Qed.
Example sha256_two_blocks : sha256_Sum256 (repeat x61 100) =
  [x28; x16; x59; x78; x88; xe4; xa0; xd3; xa3; x6b; x82; xb8; x33; x16; xab; x32; x68; x0e;
   xb8; xf0; x0f; x8c; xd3; xb9; x04; xd6; x81; x24; x6d; x28; x5a; x0e].
Proof. vm_compute. reflexivity. Qed.
Example sha512_abc : sha512_Sum512 (bs "abc") =
  [xdd; xaf; x35; xa1; x93; x61; x7a; xba; xcc; x41; x73; x49; xae; x20; x41; x31; x12; xe6;
   xfa; x4e; x89; xa9; x7e; xa2; x0a; x9e; xee; xe6; x4b; x55; xd3; x9a; x21; x92; x99; x2a;
   x27; x4f; xc1; xa8; x36; xba; x3c; x23; xa3; xfe; xeb; xbd; x45; x4d; x44; x23; x64; x3c;
   xe8; x0e; x2a; x9a; xc9; x4f; xa5; x4c; xa4; x9f].
Proof. vm_compute. reflexivity. Qed.
Example sha512_two_blocks : sha512_Sum512 (repeat x61 130) =
  [xb2; xfc; x6a; xcd; xce; x83; xfe; xb0; xb9; x43; x94; x33; x91; x5f; xe5; xdc; x1c; x73;
   xaf; x6f; x17; xe9; x62; xd7; xba; xdd; x7a; xd5; xdd; x7c; x50; x32; xbc; x17; x44; x85;
   x5d; x0b; xa0; x9d; xa5; xe4; xab; x1b; xb1; xca; xca; x3a; xad; x8e; x4a; x94; x7f; xaa;
   x19; xc4; x76; x9e; x12; x8b; xac; xfe; x6b; x85].
Proof. vm_compute. reflexivity. Qed.
