(* ===== verification/GoBase64.v ===== *)
(** * encoding/base64's StdEncoding

    [std_encode] is StdEncoding.EncodeToString and [std_decode]
    StdEncoding.Decode (the padded, non-strict decoder: line breaks are
    skipped and trailing bits are ignored). *)

From S2P Require Import Prelude GoBytes.
#[local] Open Scope Z_scope.

Definition PAD : byte := x3d.

Definition b64_char (v : Z) : byte :=
  if v <? 26 then byte_of (65 + v)
  else if v <? 52 then byte_of (97 + (v - 26))
  else if v <? 62 then byte_of (48 + (v - 52))
  else if v =? 62 then x2b else x2f.

Definition b64_val (b : byte) : option Z :=
  if in_range x41 b x5a then Some (bval b - 65)
  else if in_range x61 b x7a then Some (bval b - 97 + 26)
  else if in_range x30 b x39 then Some (bval b - 48 + 52)
  else if b =?b x2b then Some 62
  else if b =?b x2f then Some 63
  else None.

(** Sextets of a three-byte group, and back. *)
Definition sextets (a b c : byte) : Z * Z * Z * Z :=
  (Z.shiftr (bval a) 2,
   Z.lor (Z.shiftl (Z.land (bval a) 3) 4) (Z.shiftr (bval b) 4),
   Z.lor (Z.shiftl (Z.land (bval b) 15) 2) (Z.shiftr (bval c) 6),
   Z.land (bval c) 63).
Definition octets (v1 v2 v3 v4 : Z) : byte * byte * byte :=
  (byte_of (Z.lor (Z.shiftl v1 2) (Z.shiftr v2 4)),
   byte_of (Z.lor (Z.shiftl v2 4) (Z.shiftr v3 2)),
   byte_of (Z.lor (Z.shiftl v3 6) v4)).

Fixpoint std_encode (s : bytes) : bytes :=
  match s with
  | [] => []
  | [a] => let '(v1, v2, _, _) := sextets a x00 x00 in [b64_char v1; b64_char v2; PAD; PAD]
  | [a; b] =>
      let '(v1, v2, v3, _) := sextets a b x00 in [b64_char v1; b64_char v2; b64_char v3; PAD]
  | a :: b :: c :: rest =>
      let '(v1, v2, v3, v4) := sextets a b c in
      b64_char v1 :: b64_char v2 :: b64_char v3 :: b64_char v4 :: std_encode rest
  end.

(** Decoding of quanta; [None] is a CorruptInputError. *)
Fixpoint decode_quanta (s : bytes) : option bytes :=
  match s with
  | [] => Some []
  | c1 :: c2 :: c3 :: c4 :: rest =>
      match b64_val c1, b64_val c2, b64_val c3, b64_val c4 with
      | Some v1, Some v2, Some v3, Some v4 =>
          let '(a, b, c) := octets v1 v2 v3 v4 in
          (fun t => a :: b :: c :: t) <$> decode_quanta rest
      | Some v1, Some v2, Some v3, None =>
          let '(a, b, _) := octets v1 v2 v3 0 in
          if bool_decide (c4 = PAD /\ rest = []) then Some [a; b] else None
      | Some v1, Some v2, None, _ =>
          let '(a, _, _) := octets v1 v2 0 0 in
          if bool_decide (c3 = PAD /\ c4 = PAD /\ rest = []) then Some [a] else None
      | _, _, _, _ => None
      end
  | _ => None
  end.

Definition not_line_break (b : byte) : bool := negb ((b =?b CR) || (b =?b LF)).
Definition std_decode (s : bytes) : option bytes := decode_quanta (List.filter not_line_break s).

(** ** Alphabet *)
Definition b64_alpha (b : byte) : bool := if b64_val b is Some _ then true else false.

Lemma b64_val_char b v : b64_val b = Some v -> 0 <= v < 64 /\ b64_char v = b.
Proof.
  enough (match b64_val b with
          | Some v => (0 <=? v) && (v <? 64) && (b64_char v =?b b)
          | None => true end = true) as H.
  { intros E. rewrite E in H. apply andb_true_iff in H as [H1 H2].
    apply byte_eqb_eq in H2. split; [lia | done]. }
  by_bytes b.
Qed.

(** Decision procedure for a statement about the sextets. *)
Lemma forall_sextet (P : Z -> bool) :
  forallb P (map Z.of_nat (seq 0 64)) = true -> forall v, 0 <= v < 64 -> P v = true.
Proof.
  rewrite forallb_forall. intros H v Hv. apply H, in_map_iff.
  exists (Z.to_nat v). split; [lia | ]. apply in_seq. lia.
Qed.

Lemma b64_char_val v : 0 <= v < 64 -> b64_val (b64_char v) = Some v.
Proof.
  intros Hv. enough (bool_decide (b64_val (b64_char v) = Some v) = true) as H
    by by apply bool_decide_eq_true in H.
  revert v Hv. apply forall_sextet. vm_compute. reflexivity.
Qed.

Lemma b64_val_pad : b64_val PAD = None.
Proof. done. Qed.

(** ** Bit arithmetic of the groups *)
Lemma land_mod x n : 0 <= n -> Z.land x (2 ^ n - 1) = x mod 2 ^ n.
Proof. intros. rewrite <- Z.land_ones by done. f_equal. rewrite Z.ones_equiv. lia. Qed.

Lemma lor_add x y n : 0 <= n -> 0 <= y < 2 ^ n -> Z.lor (Z.shiftl x n) y = x * 2 ^ n + y.
Proof.
  intros Hn Hy. rewrite <- Z.shiftl_mul_pow2 by done.
  assert (Z.land (Z.shiftl x n) y = 0) as Hl.
  { apply Z.bits_inj'. intros m Hm. rewrite Z.land_spec, Z.bits_0.
    destruct (Z.ltb_spec m n); [by rewrite Z.shiftl_spec_low | ].
    rewrite <- (Z.mod_small y (2 ^ n)), (Z.mod_pow2_bits_high y n m) by lia. apply andb_false_r. }
  by rewrite Z.add_nocarry_lxor, <- Z.lxor_lor by done.
Qed.

(** Sextets and octets are the base-64 and base-256 digits of one 24-bit number. *)
Lemma sextets_arith a b c :
  sextets a b c =
  (bval a / 4, bval a mod 4 * 16 + bval b / 16, bval b mod 16 * 4 + bval c / 64, bval c mod 64).
Proof.
  pose proof (bval_range a). pose proof (bval_range b). pose proof (bval_range c).
  unfold sextets. change 3 with (2 ^ 2 - 1). change 15 with (2 ^ 4 - 1). change 63 with (2 ^ 6 - 1).
  rewrite !land_mod, !Z.shiftr_div_pow2 by lia.
  rewrite !lor_add; [done | lia | | lia | ]; simpl; lia.
Qed.

Lemma octets_arith v1 v2 v3 v4 :
  0 <= v2 < 64 -> 0 <= v3 < 64 -> 0 <= v4 < 64 ->
  octets v1 v2 v3 v4 =
  (byte_of (v1 * 4 + v2 / 16), byte_of (v2 * 16 + v3 / 4), byte_of (v3 * 64 + v4)).
Proof.
  intros. unfold octets. rewrite !Z.shiftr_div_pow2 by lia.
  rewrite !lor_add; [done | lia | | lia | | lia | ]; simpl; lia.
Qed.

Lemma byte_of_eq z b : z mod 256 = bval b -> byte_of z = b.
Proof. intros H. apply bval_inj. by rewrite bval_byte_of. Qed.

Lemma sextets_range a b c :
  let '(v1, v2, v3, v4) := sextets a b c in
  0 <= v1 < 64 /\ 0 <= v2 < 64 /\ 0 <= v3 < 64 /\ 0 <= v4 < 64.
Proof.
  pose proof (bval_range a). pose proof (bval_range b). pose proof (bval_range c).
  rewrite sextets_arith. lia.
Qed.

Lemma octets_sextets a b c :
  let '(v1, v2, v3, v4) := sextets a b c in octets v1 v2 v3 v4 = (a, b, c).
Proof.
  pose proof (sextets_range a b c) as Hr. rewrite sextets_arith in *.
  destruct Hr as (H1 & H2 & H3 & H4). rewrite octets_arith by done.
  pose proof (bval_range a). pose proof (bval_range b). pose proof (bval_range c).
  repeat f_equal; apply byte_of_eq; lia.
Qed.

Lemma sextets_octets v1 v2 v3 v4 :
  0 <= v1 < 64 -> 0 <= v2 < 64 -> 0 <= v3 < 64 -> 0 <= v4 < 64 ->
  let '(a, b, c) := octets v1 v2 v3 v4 in sextets a b c = (v1, v2, v3, v4).
Proof.
  intros. rewrite octets_arith, sextets_arith, !bval_byte_of by done.
  repeat f_equal; lia.
Qed.

(** ** Round trip *)
Lemma triple_ind (P : bytes -> Prop) :
  P [] -> (forall a, P [a]) -> (forall a b, P [a; b]) ->
  (forall a b c s, P s -> P (a :: b :: c :: s)) -> forall s, P s.
Proof.
  intros H0 H1 H2 H3. fix IH 1. intros [|a [|b [|c s]]]; [done | done | done | apply H3, IH].
Qed.

Lemma decode_encode s : decode_quanta (std_encode s) = Some s.
Proof.
  induction s as [|a|a b|a b c s IH] using triple_ind; [done | | | ]; cbn [std_encode].
  - pose proof (sextets_range a x00 x00) as Hr. pose proof (octets_sextets a x00 x00) as Ho.
    rewrite sextets_arith in *. destruct Hr as (H1 & H2 & H3 & H4).
    cbn [decode_quanta]. rewrite !b64_char_val, b64_val_pad by done.
    change (bval x00 mod 16 * 4 + bval x00 / 64) with 0 in Ho. change (bval x00 mod 64) with 0 in Ho.
    rewrite Ho. by rewrite bool_decide_eq_true_2.
  - pose proof (sextets_range a b x00) as Hr. pose proof (octets_sextets a b x00) as Ho.
    rewrite sextets_arith in *. destruct Hr as (H1 & H2 & H3 & H4).
    cbn [decode_quanta]. rewrite !b64_char_val, b64_val_pad by done.
    change (bval x00 mod 64) with 0 in Ho. rewrite Ho. by rewrite bool_decide_eq_true_2.
  - pose proof (sextets_range a b c) as Hr. pose proof (octets_sextets a b c) as Ho.
    destruct (sextets a b c) as [[[v1 v2] v3] v4]. destruct Hr as (H1 & H2 & H3 & H4).
    cbn [decode_quanta]. rewrite !b64_char_val by done. rewrite Ho, IH. done.
Qed.

Lemma b64_char_no_break v : 0 <= v < 64 -> not_line_break (b64_char v) = true.
Proof. revert v. apply forall_sextet. vm_compute. reflexivity. Qed.

Lemma encode_no_breaks s : List.filter not_line_break (std_encode s) = std_encode s.
Proof.
  induction s as [|a|a b|a b c s IH] using triple_ind; [done | | | ]; cbn [std_encode].
  - pose proof (sextets_range a x00 x00) as Hr.
    destruct (sextets a x00 x00) as [[[v1 v2] v3] v4]. destruct Hr as (H1 & H2 & H3 & H4).
    cbn [List.filter]. by rewrite !b64_char_no_break.
  - pose proof (sextets_range a b x00) as Hr.
    destruct (sextets a b x00) as [[[v1 v2] v3] v4]. destruct Hr as (H1 & H2 & H3 & H4).
    cbn [List.filter]. by rewrite !b64_char_no_break.
  - pose proof (sextets_range a b c) as Hr.
    destruct (sextets a b c) as [[[v1 v2] v3] v4]. destruct Hr as (H1 & H2 & H3 & H4).
    cbn [List.filter]. by rewrite !b64_char_no_break, IH.
Qed.

Lemma std_decode_encode s : std_decode (std_encode s) = Some s.
Proof. unfold std_decode. rewrite encode_no_breaks. apply decode_encode. Qed.

Lemma std_encode_inj s t : std_encode s = std_encode t -> s = t.
Proof. intros H. pose proof (std_decode_encode s) as E. rewrite H, std_decode_encode in E. by injection E. Qed.

(** Number of padding characters of an encoding. *)
Definition pads (s : bytes) : nat :=
  match (length s mod 3)%nat with 1%nat => 2 | 2%nat => 1 | _ => 0 end.

(** Every encoding is alphabet characters followed by [pads] padding characters
    and has four characters for every three bytes begun. *)
Lemma encode_shape s :
  exists body, std_encode s = body ++ repeat PAD (pads s) /\
    Forall (fun b => b64_alpha b = true) body /\
    len (std_encode s) mod 4 = 0 /\ len (std_encode s) / 4 * 3 - Z.of_nat (pads s) = len s.
Proof.
  assert (forall v, 0 <= v < 64 -> b64_alpha (b64_char v) = true) as Ha.
  { intros v Hv. unfold b64_alpha. by rewrite b64_char_val. }
  induction s as [|a|a b|a b c s (body & E & Hb & Hm & Hl)] using triple_ind.
  - exists []. split_and!; try done.
  - pose proof (sextets_range a x00 x00) as Hr. cbn [std_encode].
    destruct (sextets a x00 x00) as [[[v1 v2] v3] v4]. destruct Hr as (H1 & H2 & H3 & H4).
    exists [b64_char v1; b64_char v2]. split_and!; try done. repeat constructor; auto.
  - pose proof (sextets_range a b x00) as Hr. cbn [std_encode].
    destruct (sextets a b x00) as [[[v1 v2] v3] v4]. destruct Hr as (H1 & H2 & H3 & H4).
    exists [b64_char v1; b64_char v2; b64_char v3]. split_and!; try done. repeat constructor; auto.
  - pose proof (sextets_range a b c) as Hr. cbn [std_encode].
    destruct (sextets a b c) as [[[v1 v2] v3] v4]. destruct Hr as (H1 & H2 & H3 & H4).
    assert (pads (a :: b :: c :: s) = pads s) as Hp.
    { unfold pads. replace (length (a :: b :: c :: s)) with (length s + 1 * 3)%nat by (simpl; lia).
      by rewrite Nat.Div0.mod_add. }
    exists (b64_char v1 :: b64_char v2 :: b64_char v3 :: b64_char v4 :: body).
    rewrite Hp, E. split_and!; [done | by repeat constructor; auto | | ];
      rewrite <- E, !len_cons in *; lia.
Qed.

(** ** encoding/base64's RawURLEncoding, and encoding/hex

    The URL alphabet without padding.  The strict decoder accepts exactly the
    texts that, their line breaks skipped, are the encoding of what they decode
    to: a text with nonzero trailing bits is not. *)
Definition url_char (b : byte) : byte :=
  if b =?b x2b then x2d else if b =?b x2f then x5f else b.
Definition url_unchar (b : byte) : option byte :=
  if b =?b x2d then Some x2b else if b =?b x5f then Some x2f
  else if b64_alpha b && negb (b =?b x2b) && negb (b =?b x2f) then Some b else None.
Definition not_pad (b : byte) : bool := negb (b =?b PAD).

Definition rawurl_encode (s : bytes) : bytes := map url_char (List.filter not_pad (std_encode s)).
Definition rawurl_decode_strict (text : bytes) : option bytes :=
  let text := List.filter not_line_break text in
  quanta ← mapM url_unchar text;
  d ← decode_quanta (quanta ++ repeat PAD ((4 - length text mod 4) mod 4));
  if bool_decide (rawurl_encode d = text) then Some d else None.

Lemma alpha_char_facts b :
  b64_alpha b = true ->
  url_unchar (url_char b) = Some b /\ not_pad b = true /\ not_line_break (url_char b) = true.
Proof.
  intros Hb. enough ((negb (b64_alpha b) ||
    bool_decide (url_unchar (url_char b) = Some b /\ not_pad b = true /\ not_line_break (url_char b) = true)) = true) as H.
  { rewrite Hb in H. by apply bool_decide_eq_true in H. }
  clear Hb. by_bytes b.
Qed.

(** The encoding is the unpadded body of the standard one. *)
Lemma rawurl_shape s :
  exists body, std_encode s = body ++ repeat PAD (pads s) /\ Forall (fun b => b64_alpha b = true) body /\
    rawurl_encode s = map url_char body /\ ((4 - length body mod 4) mod 4 = pads s)%nat /\
    len body = (len s * 4 + 2) / 3.
Proof.
  destruct (encode_shape s) as (body & E & Hb & Hm & Hl). exists body.
  assert (List.filter not_pad body = body) as Hf.
  { clear E. induction Hb as [|b body Hb _ IH]; [done | ]. cbn. destruct (alpha_char_facts b Hb) as (_ & -> & _). by rewrite IH. }
  assert (forall n, List.filter not_pad (repeat PAD n) = []) as Hp by (by induction n).
  split_and!; [done | done | | | ].
  - unfold rawurl_encode. by rewrite E, List.filter_app, Hf, Hp, app_nil_r.
  - rewrite E, len_app in Hm. unfold len in Hm. rewrite repeat_length in Hm.
    assert (pads s <= 2)%nat by (unfold pads; repeat case_match; lia). lia.
  - rewrite E, len_app in Hm, Hl. unfold len in *. rewrite repeat_length in Hm, Hl.
    assert (pads s <= 2)%nat by (unfold pads; repeat case_match; lia).
    assert (Z.of_nat (pads s) = match Z.of_nat (length s) mod 3 with 1 => 2 | 2 => 1 | _ => 0 end) as Hps.
    { unfold pads. pose proof (Nat2Z.inj_mod (length s) 3) as Em. change (Z.of_nat 3) with 3 in Em. rewrite <- Em.
      pose proof (Nat.mod_upper_bound (length s) 3). destruct (length s mod 3)%nat as [|[|[|?]]]; [done.. | lia]. }
    pose proof (Z.div_mod (Z.of_nat (length s)) 3). pose proof (Z.mod_pos_bound (Z.of_nat (length s)) 3).
    assert (Z.of_nat (length s) mod 3 = 0 \/ Z.of_nat (length s) mod 3 = 1 \/ Z.of_nat (length s) mod 3 = 2) as [Hc|[Hc|Hc]]
      by lia; rewrite Hc in Hps; lia.
Qed.

Lemma rawurl_alphabet s b : b ∈ rawurl_encode s -> not_line_break b = true.
Proof.
  destruct (rawurl_shape s) as (body & _ & Hb & -> & _). intros (a & -> & Ha)%list_elem_of_fmap.
  rewrite Forall_forall in Hb. by apply alpha_char_facts, Hb.
Qed.
Lemma filter_line_breaks (l : bytes) : (forall b, b ∈ l -> not_line_break b = true) -> List.filter not_line_break l = l.
Proof.
  induction l as [|b l IH]; intros Hl; [done | ]. cbn. rewrite (Hl b) by left. f_equal. apply IH. intros c Hc. apply Hl. by right.
Qed.

Lemma rawurl_decode_encode s : rawurl_decode_strict (rawurl_encode s) = Some s.
Proof.
  unfold rawurl_decode_strict. rewrite filter_line_breaks by apply rawurl_alphabet.
  destruct (rawurl_shape s) as (body & E & Hb & Hr & Hp & _). 
  assert (mapM url_unchar (rawurl_encode s) = Some body) as ->.
  { rewrite Hr. clear E Hr Hp. induction Hb as [|b body Hb _ IH]; [done | ]. cbn [map mapM].
    destruct (alpha_char_facts b Hb) as (-> & _). cbn. by rewrite IH. }
  cbn [mbind option_bind].
  assert (length (rawurl_encode s) = length body) as -> by (rewrite Hr; apply length_map).
  rewrite Hp, <- E, decode_encode. cbn. by rewrite bool_decide_eq_true_2.
Qed.
Lemma rawurl_encode_inj s t : rawurl_encode s = rawurl_encode t -> s = t.
Proof. intros E. pose proof (rawurl_decode_encode s) as H. rewrite E, rawurl_decode_encode in H. by injection H. Qed.
Lemma rawurl_len s : len (rawurl_encode s) = (len s * 4 + 2) / 3.
Proof.
  destruct (rawurl_shape s) as (body & _ & _ & -> & _ & Hl). unfold len in *. by rewrite length_map.
Qed.

(** ** encoding/hex: lowercase digits *)
Definition hex_digit (v : Z) : byte := if v <? 10 then byte_of (48 + v) else byte_of (97 + (v - 10)).
Definition lower_hex (b : byte) : bool := in_range x30 b x39 || in_range x61 b x66.
Definition hex_value (b : byte) : Z := if in_range x30 b x39 then bval b - 48 else bval b - 97 + 10.
Lemma hex_digit_facts v : 0 <= v < 16 -> lower_hex (hex_digit v) = true /\ hex_value (hex_digit v) = v.
Proof.
  intros Hv. enough (bool_decide (lower_hex (hex_digit v) = true /\ hex_value (hex_digit v) = v) = true) as H
    by (by apply bool_decide_eq_true in H).
  assert (forallb (fun n => bool_decide (lower_hex (hex_digit (Z.of_nat n)) = true /\ hex_value (hex_digit (Z.of_nat n)) = Z.of_nat n))
    (seq 0 16) = true) as Hall by (vm_compute; reflexivity).
  rewrite forallb_forall in Hall. rewrite <- (Z2Nat.id v) by lia. apply Hall, in_seq. lia.
Qed.
Lemma hex_value_digit b : lower_hex b = true -> hex_digit (hex_value b) = b /\ 0 <= hex_value b < 16.
Proof.
  intros Hb. enough (negb (lower_hex b) || bool_decide (hex_digit (hex_value b) = b /\ 0 <= hex_value b < 16) = true) as H.
  { rewrite Hb in H. by apply bool_decide_eq_true in H. }
  clear Hb. by_bytes b.
Qed.
Definition hex_encode (s : bytes) : bytes :=
  concat (map (fun b => [hex_digit (bval b / 16); hex_digit (bval b mod 16)]) s).
(** Pairs of lowercase digits; the callers have checked the alphabet. *)
Fixpoint hex_decode (text : bytes) : option bytes :=
  match text with
  | [] => Some []
  | a :: b :: rest =>
      if lower_hex a && lower_hex b then
        d ← hex_decode rest; Some (byte_of (hex_value a * 16 + hex_value b) :: d)
      else None
  | [_] => None
  end.
Lemma hex_decode_encode s : hex_decode (hex_encode s) = Some s.
Proof.
  induction s as [|b s IH]; [done | ]. pose proof (bval_range b).
  destruct (hex_digit_facts (bval b / 16)) as [H1 H2]; [lia | ].
  destruct (hex_digit_facts (bval b mod 16)) as [H3 H4]; [lia | ].
  change (hex_encode (b :: s)) with (hex_digit (bval b / 16) :: hex_digit (bval b mod 16) :: hex_encode s).
  cbn [hex_decode]. rewrite H1, H2, H3, H4, IH. cbn. do 2 f_equal. apply byte_of_eq.
  rewrite Z.mod_small; lia.
Qed.
Lemma pair_ind (P : bytes -> Prop) :
  P [] -> (forall a, P [a]) -> (forall a b s, P s -> P (a :: b :: s)) -> forall s, P s.
Proof. intros H0 H1 H2. fix IH 1. intros [|a [|b s]]; [done | done | apply H2, IH]. Qed.
Lemma hex_encode_decode text d : hex_decode text = Some d -> hex_encode d = text /\ (length text = 2 * length d)%nat.
Proof.
  revert d. induction text as [|a|a b rest IH] using pair_ind; intros d; cbn [hex_decode].
  - by intros [= <-].
  - done.
  - destruct (lower_hex a) eqn:Ea, (lower_hex b) eqn:Eb; cbn [andb]; try done.
    destruct (hex_decode rest) as [d'|] eqn:E; cbn; [ | done]. intros [= <-].
    destruct (IH d' eq_refl) as [<- Hl]. destruct (hex_value_digit a Ea), (hex_value_digit b Eb).
    split; [ | cbn; lia].
    change (hex_encode (?x :: ?y)) with (hex_digit (bval x / 16) :: hex_digit (bval x mod 16) :: hex_encode y).
    rewrite bval_byte_of, (Z.mod_small (hex_value a * 16 + hex_value b)) by lia.
    rewrite Z.div_add_l, (Z.div_small (hex_value b)), Z.add_0_r by lia.
    rewrite Z.add_comm, Z.mod_add, Z.mod_small by lia. congruence.
Qed.
Lemma hex_encode_length s : length (hex_encode s) = (2 * length s)%nat.
Proof. unfold hex_encode. induction s as [|b s IH]; [done | ]. cbn. cbn in IH. lia. Qed.
Lemma hex_encode_lower s : forallb lower_hex (hex_encode s) = true.
Proof.
  unfold hex_encode. induction s as [|b s IH]; [done | ]. cbn [map concat app forallb]. pose proof (bval_range b).
  destruct (hex_digit_facts (bval b / 16)) as [-> _]; [lia | ].
  destruct (hex_digit_facts (bval b mod 16)) as [-> _]; [lia | ]. done.
Qed.
