(* ===== verification/GoUtf8.v ===== *)
(** * Go's unicode/utf8 package: validity of a byte string

    [utf8_valid] is [utf8.Valid]: the first byte selects the length of the
    sequence and the range of its second byte, every further byte lies in
    0x80..0xBF.  [utf8_valid_spec] shows that it accepts exactly the
    concatenations of encoded Unicode scalar values. *)

From S2P Require Import Prelude GoBytes.
#[local] Open Scope Z_scope.

Definition utf8_cont (b : byte) : bool := in_range x80 b xbf.

(** The range of the second byte of a sequence of three or four bytes. *)
Definition utf8_second (b0 b1 : byte) : bool :=
  if b0 =?b xe0 then in_range xa0 b1 xbf
  else if b0 =?b xed then in_range x80 b1 x9f
  else if b0 =?b xf0 then in_range x90 b1 xbf
  else if b0 =?b xf4 then in_range x80 b1 x8f
  else utf8_cont b1.

Fixpoint utf8_valid (s : bytes) : bool :=
  match s with
  | [] => true
  | b0 :: rest =>
      if bval b0 <? 128 then utf8_valid rest
      else if in_range xc2 b0 xdf then
        match rest with
        | b1 :: rest => utf8_cont b1 && utf8_valid rest
        | [] => false
        end
      else if in_range xe0 b0 xef then
        match rest with
        | b1 :: b2 :: rest => utf8_second b0 b1 && utf8_cont b2 && utf8_valid rest
        | _ => false
        end
      else if in_range xf0 b0 xf4 then
        match rest with
        | b1 :: b2 :: b3 :: rest =>
            utf8_second b0 b1 && utf8_cont b2 && utf8_cont b3 && utf8_valid rest
        | _ => false
        end
      else false
  end.

Lemma utf8_valid_ascii s : Forall (fun b => bval b < 128) s -> utf8_valid s = true.
Proof.
  induction 1 as [|b s Hb _ IH]; [done | ]. cbn [utf8_valid].
  by rewrite (proj2 (Z.ltb_lt _ _)).
Qed.

(** ** Encoded scalar values *)
Definition scalar_value (c : Z) : Prop := 0 <= c < 0xd800 \/ 0xe000 <= c < 0x110000.

Definition encode_rune (c : Z) : bytes :=
  if c <? 0x80 then [byte_of c]
  else if c <? 0x800 then [byte_of (0xc0 + c / 64); byte_of (0x80 + c mod 64)]
  else if c <? 0x10000 then
    [byte_of (0xe0 + c / 4096); byte_of (0x80 + c / 64 mod 64); byte_of (0x80 + c mod 64)]
  else
    [byte_of (0xf0 + c / 262144); byte_of (0x80 + c / 4096 mod 64);
     byte_of (0x80 + c / 64 mod 64); byte_of (0x80 + c mod 64)].

Lemma bval_small z : 0 <= z < 256 -> bval (byte_of z) = z.
Proof. intros H. rewrite bval_byte_of. by apply Z.mod_small. Qed.

Lemma in_range_iff lo b hi : in_range lo b hi = true <-> bval lo <= bval b <= bval hi.
Proof. unfold in_range. rewrite andb_true_iff, !Z.leb_le. done. Qed.
Lemma in_range_false lo b hi : in_range lo b hi = false <-> bval b < bval lo \/ bval hi < bval b.
Proof. rewrite <- not_true_iff_false, in_range_iff. lia. Qed.
Lemma byte_eqb_bval a b : (a =?b b) = true <-> bval a = bval b.
Proof. rewrite byte_eqb_eq. split; [by intros -> | apply bval_inj]. Qed.
Lemma byte_eqb_bval_false a b : (a =?b b) = false <-> bval a <> bval b.
Proof. rewrite <- not_true_iff_false, byte_eqb_bval. done. Qed.

Lemma utf8_second_iff b0 b1 :
  utf8_second b0 b1 = true <->
  (if bval b0 =? 0xe0 then 0xa0 else if bval b0 =? 0xf0 then 0x90 else 0x80) <= bval b1 <=
  (if bval b0 =? 0xed then 0x9f else if bval b0 =? 0xf4 then 0x8f else 0xbf).
Proof.
  unfold utf8_second, utf8_cont.
  repeat match goal with
  | |- context [?a =?b ?b] => destruct (a =?b b) eqn:?
  end;
  repeat match goal with
  | H : (_ =?b _) = true |- _ => apply byte_eqb_bval in H
  | H : (_ =?b _) = false |- _ => apply byte_eqb_bval_false in H
  end; rewrite in_range_iff;
  vm_compute (bval xe0) in *; vm_compute (bval xed) in *; vm_compute (bval xf0) in *;
  vm_compute (bval xf4) in *; vm_compute (bval xa0) in *; vm_compute (bval xbf) in *;
  vm_compute (bval x80) in *; vm_compute (bval x9f) in *; vm_compute (bval x90) in *;
  vm_compute (bval x8f) in *; repeat case_match; lia.
Qed.

(** The boundaries of the classes of first bytes, as integers. *)
Ltac byte_consts :=
  change (bval x80) with 0x80 in *; change (bval xbf) with 0xbf in *;
  change (bval xc2) with 0xc2 in *; change (bval xdf) with 0xdf in *;
  change (bval xe0) with 0xe0 in *; change (bval xef) with 0xef in *;
  change (bval xf0) with 0xf0 in *; change (bval xf4) with 0xf4 in *.

Lemma utf8_cont_iff b : utf8_cont b = true <-> 0x80 <= bval b <= 0xbf.
Proof. unfold utf8_cont. by rewrite in_range_iff. Qed.

Lemma utf8_valid_two b0 b1 s :
  0xc2 <= bval b0 <= 0xdf -> 0x80 <= bval b1 <= 0xbf ->
  utf8_valid (b0 :: b1 :: s) = utf8_valid s.
Proof.
  intros H0 H1. cbn [utf8_valid]. rewrite (proj2 (Z.ltb_ge _ _)) by lia.
  rewrite (proj2 (in_range_iff xc2 b0 xdf)) by (byte_consts; lia).
  by rewrite (proj2 (utf8_cont_iff b1)).
Qed.
Lemma utf8_valid_three b0 b1 b2 s :
  0xe0 <= bval b0 <= 0xef -> utf8_second b0 b1 = true -> 0x80 <= bval b2 <= 0xbf ->
  utf8_valid (b0 :: b1 :: b2 :: s) = utf8_valid s.
Proof.
  intros H0 H1 H2. cbn [utf8_valid]. rewrite (proj2 (Z.ltb_ge _ _)) by lia.
  rewrite (proj2 (in_range_false xc2 b0 xdf)) by (byte_consts; lia).
  rewrite (proj2 (in_range_iff xe0 b0 xef)) by (byte_consts; lia).
  by rewrite H1, (proj2 (utf8_cont_iff b2)).
Qed.
Lemma utf8_valid_four b0 b1 b2 b3 s :
  0xf0 <= bval b0 <= 0xf4 -> utf8_second b0 b1 = true -> 0x80 <= bval b2 <= 0xbf ->
  0x80 <= bval b3 <= 0xbf -> utf8_valid (b0 :: b1 :: b2 :: b3 :: s) = utf8_valid s.
Proof.
  intros H0 H1 H2 H3. cbn [utf8_valid]. rewrite (proj2 (Z.ltb_ge _ _)) by lia.
  rewrite (proj2 (in_range_false xc2 b0 xdf)) by (byte_consts; lia).
  rewrite (proj2 (in_range_false xe0 b0 xef)) by (byte_consts; lia).
  rewrite (proj2 (in_range_iff xf0 b0 xf4)) by (byte_consts; lia).
  by rewrite H1, (proj2 (utf8_cont_iff b2)), (proj2 (utf8_cont_iff b3)).
Qed.

Ltac digits c :=
  pose proof (Z.div_mod c 64 ltac:(lia)); pose proof (Z.mod_pos_bound c 64 ltac:(lia));
  pose proof (Z.div_mod (c / 64) 64 ltac:(lia)); pose proof (Z.mod_pos_bound (c / 64) 64 ltac:(lia));
  pose proof (Z.div_mod (c / 4096) 64 ltac:(lia)); pose proof (Z.mod_pos_bound (c / 4096) 64 ltac:(lia));
  assert (c / 64 / 64 = c / 4096) by (rewrite Z.div_div by lia; reflexivity);
  assert (c / 4096 / 64 = c / 262144) by (rewrite Z.div_div by lia; reflexivity).

Lemma utf8_valid_rune c s : scalar_value c -> utf8_valid (encode_rune c ++ s) = utf8_valid s.
Proof.
  intros Hc. unfold encode_rune, scalar_value in *. digits c.
  destruct (Z.ltb_spec c 0x80); [ | destruct (Z.ltb_spec c 0x800); [ | destruct (Z.ltb_spec c 0x10000)]];
    cbn [app].
  - cbn [utf8_valid]. rewrite bval_small by lia. by rewrite (proj2 (Z.ltb_lt _ _)) by lia.
  - apply utf8_valid_two; rewrite bval_small; lia.
  - apply utf8_valid_three; [rewrite bval_small; lia | | rewrite bval_small; lia].
    apply utf8_second_iff. rewrite !bval_small by lia. repeat case_match; lia.
  - apply utf8_valid_four; [rewrite bval_small; lia | | rewrite bval_small; lia | rewrite bval_small; lia].
    apply utf8_second_iff. rewrite !bval_small by lia. repeat case_match; lia.
Qed.

(** A list of bytes is determined by the byte values. *)
Lemma byte_of_as z b : z = bval b -> byte_of z = b.
Proof. intros ->. apply byte_of_bval. Qed.

Lemma rune_two b0 b1 :
  0xc2 <= bval b0 <= 0xdf -> 0x80 <= bval b1 <= 0xbf ->
  exists c, scalar_value c /\ encode_rune c = [b0; b1].
Proof.
  intros H0 H1. set (c := (bval b0 - 0xc0) * 64 + (bval b1 - 0x80)). exists c.
  assert (c / 64 = bval b0 - 0xc0 /\ c mod 64 = bval b1 - 0x80) as [E0 E1]
    by (subst c; split; [by rewrite Z.div_add_l, Z.div_small by lia; lia | ];
        rewrite Z.add_comm, Z.mod_add, Z.mod_small by lia; lia).
  split; [unfold scalar_value; lia | ]. unfold encode_rune.
  rewrite (proj2 (Z.ltb_ge c _)), (proj2 (Z.ltb_lt c _)) by lia.
  rewrite E0, E1. by rewrite !(byte_of_as _ b0), !(byte_of_as _ b1) by lia.
Qed.

Lemma rune_three b0 b1 b2 :
  0xe0 <= bval b0 <= 0xef -> utf8_second b0 b1 = true -> 0x80 <= bval b2 <= 0xbf ->
  exists c, scalar_value c /\ encode_rune c = [b0; b1; b2].
Proof.
  intros H0 H1%utf8_second_iff H2.
  set (c := (bval b0 - 0xe0) * 4096 + (bval b1 - 0x80) * 64 + (bval b2 - 0x80)). exists c. digits c.
  assert (0x80 <= bval b1 <= 0xbf) by (repeat case_match; lia).
  assert (c mod 64 = bval b2 - 0x80 /\ c / 64 mod 64 = bval b1 - 0x80 /\ c / 4096 = bval b0 - 0xe0)
    as (E0 & E1 & E2) by lia.
  split; [unfold scalar_value; repeat case_match; lia | ]. unfold encode_rune.
  rewrite (proj2 (Z.ltb_ge c _)), (proj2 (Z.ltb_ge c _)), (proj2 (Z.ltb_lt c _))
    by (repeat case_match; lia).
  rewrite E0, E1, E2. by rewrite (byte_of_as _ b0), (byte_of_as _ b1), (byte_of_as _ b2) by lia.
Qed.

Lemma rune_four b0 b1 b2 b3 :
  0xf0 <= bval b0 <= 0xf4 -> utf8_second b0 b1 = true -> 0x80 <= bval b2 <= 0xbf ->
  0x80 <= bval b3 <= 0xbf -> exists c, scalar_value c /\ encode_rune c = [b0; b1; b2; b3].
Proof.
  intros H0 H1%utf8_second_iff H2 H3.
  set (c := (bval b0 - 0xf0) * 262144 + (bval b1 - 0x80) * 4096 + (bval b2 - 0x80) * 64
            + (bval b3 - 0x80)). exists c. digits c.
  assert (0x80 <= bval b1 <= 0xbf) by (repeat case_match; lia).
  assert (c mod 64 = bval b3 - 0x80 /\ c / 64 mod 64 = bval b2 - 0x80 /\
          c / 4096 mod 64 = bval b1 - 0x80 /\ c / 262144 = bval b0 - 0xf0)
    as (E0 & E1 & E2 & E3) by lia.
  split; [unfold scalar_value; repeat case_match; lia | ]. unfold encode_rune.
  rewrite !(proj2 (Z.ltb_ge c _)) by (repeat case_match; lia).
  rewrite E0, E1, E2, E3.
  by rewrite (byte_of_as _ b0), (byte_of_as _ b1), (byte_of_as _ b2), (byte_of_as _ b3) by lia.
Qed.

Lemma utf8_valid_inv s :
  utf8_valid s = true ->
  s = [] \/ exists c t, scalar_value c /\ s = encode_rune c ++ t /\ utf8_valid t = true.
Proof.
  destruct s as [|b0 s]; [by left | ]. right. cbn [utf8_valid] in H.
  destruct (Z.ltb_spec (bval b0) 128) as [Hb|Hb].
  { exists (bval b0), s. pose proof (bval_range b0). split; [left; lia | ]. split; [ | done].
    unfold encode_rune. by rewrite (proj2 (Z.ltb_lt _ _)), byte_of_bval. }
  destruct (in_range xc2 b0 xdf) eqn:E2; [apply in_range_iff in E2; byte_consts | clear E2].
  { destruct s as [|b1 s]; [done | ]. apply andb_true_iff in H as [H1%utf8_cont_iff H].
    destruct (rune_two b0 b1) as (c & Hc & E); [done.. | ]. exists c, s. by rewrite E. }
  destruct (in_range xe0 b0 xef) eqn:E3; [apply in_range_iff in E3; byte_consts | clear E3].
  { destruct s as [|b1 [|b2 s]]; [done.. | ]. apply andb_true_iff in H as [[H1 H2%utf8_cont_iff]%andb_true_iff H].
    destruct (rune_three b0 b1 b2) as (c & Hc & E); [done.. | ]. exists c, s. by rewrite E. }
  destruct (in_range xf0 b0 xf4) eqn:E4; [apply in_range_iff in E4; byte_consts | done].
  destruct s as [|b1 [|b2 [|b3 s]]]; [done.. | ].
  apply andb_true_iff in H as [[[H1 H2%utf8_cont_iff]%andb_true_iff H3%utf8_cont_iff]%andb_true_iff H].
  destruct (rune_four b0 b1 b2 b3) as (c & Hc & E); [done.. | ]. exists c, s. by rewrite E.
Qed.

Lemma encode_rune_nonempty c : (0 < length (encode_rune c))%nat.
Proof. unfold encode_rune. repeat case_match; simpl; lia. Qed.

Lemma utf8_valid_spec s :
  utf8_valid s = true <-> exists cs, Forall scalar_value cs /\ s = concat (map encode_rune cs).
Proof.
  split.
  - remember (length s) as n eqn:Hn. revert s Hn. induction (lt_wf n) as [n _ IH]. intros s -> H.
    destruct (utf8_valid_inv s H) as [-> | (c & t & Hc & -> & Ht)]; [by exists [] | ].
    destruct (IH (length t)) with (s := t) as (cs & Hcs & ->); [ | done | done | ].
    + rewrite length_app. pose proof (encode_rune_nonempty c). lia.
    + exists (c :: cs). split; [by constructor | done].
  - intros (cs & Hcs & ->). induction Hcs as [|c cs Hc _ IH]; [done | ].
    cbn [map concat]. by rewrite utf8_valid_rune.
Qed.
