(* ===== verification/RawMsg.v ===== *)
(** * Package internal/rawmsg: errors, parser options, header fields and blocks

    [ParserError], [ParserOptions] and [ParserMetadata] follow errors.go and
    options.go; [HeaderField] and [HeaderBlock] with their validating
    constructors follow header.go.  The model's values are immutable, so the
    deep copies of the source (clone, bytes.Clone) are the identity. *)

From S2P Require Import Prelude GoBytes.
#[local] Open Scope Z_scope.

(** ** Errors (errors.go) *)
Inductive ErrorCode :=
  | ErrorCodeBareLF | ErrorCodeBareCR | ErrorCodeMixedLineEndings
  | ErrorCodeMissingDelimiter | ErrorCodeMalformedHeader | ErrorCodeLimitExceeded
  | ErrorCodeUnsupportedPolicy | ErrorCodeInvalidTransportForm | ErrorCodeInvalidInvariant.

(** [ErrorReasonUnset] is Go's empty reason string. *)
Inductive ErrorReasonClass :=
  | ErrorReasonUnset | ErrorReasonMalformed | ErrorReasonPolicy | ErrorReasonLimit
  | ErrorReasonInvariant.

#[export] Instance ErrorCode_eq_dec : EqDecision ErrorCode.
Proof. solve_decision. Defined.
#[export] Instance ErrorReasonClass_eq_dec : EqDecision ErrorReasonClass.
Proof. solve_decision. Defined.

Record ErrorLocation := MkLoc { Offset : Z; Line : Z; Column : Z }.
Definition noLoc : ErrorLocation := MkLoc 0 0 0.

#[export] Instance ErrorLocation_eq_dec : EqDecision ErrorLocation.
Proof. solve_decision. Defined.

Record ParserErrorDetails := MkDetails {
  Reason : ErrorReasonClass; PolicyName : string; LimitName : string; Limit : Z }.

Record ParserError := MkParserError {
  err_code : ErrorCode; err_location : ErrorLocation; err_details : ParserErrorDetails }.

Definition reasonForCode (code : ErrorCode) : ErrorReasonClass :=
  match code with
  | ErrorCodeBareLF | ErrorCodeBareCR | ErrorCodeMixedLineEndings
  | ErrorCodeMissingDelimiter | ErrorCodeInvalidTransportForm => ErrorReasonPolicy
  | ErrorCodeMalformedHeader => ErrorReasonMalformed
  | ErrorCodeLimitExceeded => ErrorReasonLimit
  | ErrorCodeInvalidInvariant => ErrorReasonInvariant
  | ErrorCodeUnsupportedPolicy => ErrorReasonMalformed
  end.

Definition sanitizeLocation (l : ErrorLocation) : ErrorLocation :=
  MkLoc (if Offset l <? 0 then 0 else Offset l)
        (if Line l <? 0 then 0 else Line l)
        (if Column l <? 0 then 0 else Column l).

Definition NewParserError (code : ErrorCode) (location : ErrorLocation)
    (details : ParserErrorDetails) : ParserError :=
  let details :=
    if decide (Reason details = ErrorReasonUnset)
    then MkDetails (reasonForCode code) (PolicyName details) (LimitName details) (Limit details)
    else details in
  MkParserError code (sanitizeLocation location) details.

Definition invariantError : ParserError :=
  NewParserError ErrorCodeInvalidInvariant noLoc (MkDetails ErrorReasonInvariant "" "" 0).
Definition limitError (loc : ErrorLocation) (limitName : string) (limit : Z) : ParserError :=
  NewParserError ErrorCodeLimitExceeded loc (MkDetails ErrorReasonLimit "" limitName limit).
Definition malformedHeaderError (offset line column : Z) : ParserError :=
  NewParserError ErrorCodeMalformedHeader (MkLoc offset line column)
    (MkDetails ErrorReasonMalformed "" "" 0).

(** ** Parser options and metadata (options.go) *)
Definition LineEndingPolicy := string.
Definition LineEndingPolicyStrictCRLF : LineEndingPolicy := "strict-crlf"%string.
Definition LineEndingPolicyNormalizeLF : LineEndingPolicy := "normalize-lf"%string.

Definition HardMaxBodyLines : Z := 2097152.
Definition HardMaxMessageBytes : Z := Z.shiftl 128 20.
Definition defaultMaxMessageBytes : Z := HardMaxMessageBytes.
Definition defaultMaxHeaderBytes : Z := 1024 * 1024.
Definition defaultMaxHeaderFields : Z := 2000.
Definition defaultMaxHeaderFieldBytes : Z := 64 * 1024.
Definition defaultMaxHeaderLineBytes : Z := 998.
Definition defaultMaxBodyLineBytes : Z := 998.
Definition defaultMaxBodyLines : Z := HardMaxBodyLines.

Record ParserOptions := MkOptions {
  MaxMessageBytes : Z; MaxHeaderBytes : Z; MaxHeaderFields : Z; MaxHeaderFieldBytes : Z;
  MaxHeaderLineBytes : Z; MaxBodyLineBytes : Z; MaxBodyLines : Z;
  OptLineEndingPolicy : LineEndingPolicy; RecordNormalizedInput : bool }.

Definition DefaultParserOptions : ParserOptions :=
  MkOptions defaultMaxMessageBytes defaultMaxHeaderBytes defaultMaxHeaderFields
    defaultMaxHeaderFieldBytes defaultMaxHeaderLineBytes defaultMaxBodyLineBytes
    defaultMaxBodyLines LineEndingPolicyStrictCRLF false.

Definition limitOptionError (limitName : string) (limit : Z) : ParserError :=
  limitError noLoc limitName limit.
Definition unsupportedPolicyError (policyName : string) : ParserError :=
  NewParserError ErrorCodeUnsupportedPolicy noLoc (MkDetails ErrorReasonPolicy policyName "" 0).

Definition ParserOptions_Validate (o : ParserOptions) : outcome ParserError unit :=
  check require (0 <? MaxMessageBytes o) (limitOptionError "max_message_bytes" (MaxMessageBytes o)) ;;
  check require (0 <? MaxHeaderBytes o) (limitOptionError "max_header_bytes" (MaxHeaderBytes o)) ;;
  check require (0 <? MaxHeaderFields o) (limitOptionError "max_header_fields" (MaxHeaderFields o)) ;;
  check require (0 <? MaxHeaderFieldBytes o)
    (limitOptionError "max_header_field_bytes" (MaxHeaderFieldBytes o)) ;;
  check require (0 <? MaxHeaderLineBytes o)
    (limitOptionError "max_header_line_bytes" (MaxHeaderLineBytes o)) ;;
  check require (MaxHeaderLineBytes o <=? defaultMaxHeaderLineBytes)
    (limitOptionError "max_header_line_bytes" defaultMaxHeaderLineBytes) ;;
  check require (0 <? MaxBodyLineBytes o)
    (limitOptionError "max_body_line_bytes" (MaxBodyLineBytes o)) ;;
  check require (MaxBodyLineBytes o <=? defaultMaxBodyLineBytes)
    (limitOptionError "max_body_line_bytes" defaultMaxBodyLineBytes) ;;
  check require (0 <? MaxBodyLines o) (limitOptionError "max_body_lines" (MaxBodyLines o)) ;;
  check require (MaxBodyLines o <=? HardMaxBodyLines)
    (limitOptionError "max_body_lines" HardMaxBodyLines) ;;
  check require (bool_decide (OptLineEndingPolicy o = LineEndingPolicyStrictCRLF))
    (unsupportedPolicyError (OptLineEndingPolicy o)) ;;
  check require (negb (RecordNormalizedInput o))
    (unsupportedPolicyError "record-normalized-input") ;;
  Ret tt.

Record ParserMetadata := MkMetadata {
  MetaLineEndingPolicy : LineEndingPolicy; NormalizedInput : bool; OriginalBytes : Z;
  StoredBytes : Z; HeaderBytes : Z; HeaderFields : Z; BodyBytes : Z }.

Definition nonNegative (v : Z) : Z := if v <? 0 then 0 else v.

Definition NewParserMetadata (policy : LineEndingPolicy) (normalized : bool)
    (originalBytes storedBytes headerBytes headerFields bodyBytes : Z) : ParserMetadata :=
  MkMetadata policy normalized (nonNegative originalBytes) (nonNegative storedBytes)
    (nonNegative headerBytes) (nonNegative headerFields) (nonNegative bodyBytes).

(** ** Header fields (header.go) *)
Definition isWSP (b : byte) : bool := (b =?b SP) || (b =?b TAB).

Record HeaderField := MkField {
  hf_index : Z; rawName : bytes; nameLower : bytes; rawValue : bytes;
  unfoldedValue : bytes; originalBytes : bytes; hf_valid : bool }.

(** The byte test of invalidHeaderFieldNameOffset. *)
Definition invalidNameByte (b : byte) : bool :=
  (bval b <=? 32) || (127 <=? bval b) || (b =?b x3a).

Fixpoint find_index (p : byte -> bool) (s : bytes) (i : nat) : option nat :=
  match s with
  | [] => None
  | b :: s' => if p b then Some i else find_index p s' (S i)
  end.

(** [None] is Go's -1. *)
Definition invalidHeaderFieldNameOffset (name : bytes) : option nat :=
  if decide (name = []) then Some 0%nat else find_index invalidNameByte name 0.

Definition validHeaderFieldName (name : bytes) : bool :=
  if invalidHeaderFieldNameOffset name is Some _ then false else true.

Definition lowerByte (b : byte) : byte :=
  if in_range x41 b x5a then byte_of (bval b + (97 - 65)) else b.
Definition lowerASCII (input : bytes) : bytes := map lowerByte input.

Definition canonicalHeaderLookupName (name : bytes) : option bytes :=
  if validHeaderFieldName name then Some (lowerASCII name) else None.

Fixpoint validHeaderFieldValue (value : bytes) : bool :=
  match value with
  | [] => true
  | b :: rest =>
      if b =?b CR then
        match rest with
        | lf :: (w :: _) as tail => (lf =?b LF) && isWSP w && validHeaderFieldValue tail
        | _ => false
        end
      else if b =?b LF then false
      else validHeaderFieldValue rest
  end.

(** The copy loop of unfoldHeaderValue: drop CR LF before white space. *)
Fixpoint unfoldLoop (value : bytes) : bytes :=
  match value with
  | [] => []
  | b :: rest =>
      match rest with
      | lf :: (w :: _) as tail =>
          if (b =?b CR) && (lf =?b LF) && isWSP w then unfoldLoop tail else b :: unfoldLoop rest
      | _ => b :: unfoldLoop rest
      end
  end.

Definition unfoldHeaderValue (value : bytes) : bytes :=
  if negb (bytes_contains value crlf) then value else unfoldLoop value.

(** The framing test of NewHeaderField; the slices are in range once the
    length test has passed. *)
Definition headerFieldFramed (rawName rawValue originalBytes : bytes) : bool :=
  let expectedLength := (length rawName + 1 + length rawValue + length crlf)%nat in
  (length originalBytes =? expectedLength)%nat
  && bytes_equal (take (length rawName) originalBytes) rawName
  && bool_decide (originalBytes !! length rawName = Some x3a)
  && bytes_equal (take (length originalBytes - length crlf - (length rawName + 1))
                       (drop (length rawName + 1) originalBytes)) rawValue
  && has_suffix originalBytes crlf.

Definition malformedFieldError : ParserError :=
  NewParserError ErrorCodeMalformedHeader noLoc (MkDetails ErrorReasonMalformed "" "" 0).

Definition NewHeaderField (index : Z) (rawName rawValue unfoldedValue originalBytes : bytes)
    : outcome ParserError HeaderField :=
  check require (negb (index <? 0)) invariantError ;;
  check require (validHeaderFieldName rawName) malformedFieldError ;;
  check require (validHeaderFieldValue rawValue) malformedFieldError ;;
  check require (headerFieldFramed rawName rawValue originalBytes) invariantError ;;
  check require (bytes_equal unfoldedValue (unfoldHeaderValue rawValue)) invariantError ;;
  Ret (MkField index rawName (lowerASCII rawName) rawValue unfoldedValue originalBytes true).

(** ** Header blocks (header.go) *)
Record HeaderBlock := MkBlock {
  hb_fields : list HeaderField; hb_originalBytes : bytes; hb_initialized : bool }.
Definition emptyHeaderBlock : HeaderBlock := MkBlock [] [] false.

(** The loop of NewHeaderBlock: [i] and [off] are the loop's index and
    originalOffset; the result is the final originalOffset. *)
Fixpoint checkHeaderFields (fields : list HeaderField) (original : bytes) (i : Z) (off : nat)
    : outcome ParserError nat :=
  match fields with
  | [] => Ret off
  | field :: rest =>
      check require (hf_valid field && (hf_index field =? i)) invariantError ;;
      let* tail := slice_from original off in
      check require (has_prefix tail (originalBytes field)) invariantError ;;
      checkHeaderFields rest original (i + 1) (off + length (originalBytes field))
  end.

Definition NewHeaderBlock (fields : list HeaderField) (original : bytes)
    : outcome ParserError HeaderBlock :=
  if decide (fields = []) then
    check require (bool_decide (original = [])) invariantError ;;
    Ret (MkBlock [] [] true)
  else
    let* off := checkHeaderFields fields original 0 0 in
    check require (off =? length original)%nat invariantError ;;
    Ret (MkBlock fields original true).

Definition HeaderBlock_Len (h : HeaderBlock) : Z := len (hb_fields h).

Definition HeaderBlock_Field (h : HeaderBlock) (index : Z) : option HeaderField :=
  if (index <? 0) || (len (hb_fields h) <=? index) then None
  else hb_fields h !! Z.to_nat index.

Definition HeaderBlock_FieldsByName (h : HeaderBlock) (name : bytes) : list HeaderField :=
  match canonicalHeaderLookupName name with
  | None => []
  | Some lower => filter (fun f => nameLower f = lower) (hb_fields h)
  end.

(** [LastFieldByName] scans from the bottom field upwards. *)
Fixpoint findFirstNamed (lower : bytes) (fields : list HeaderField) : option HeaderField :=
  match fields with
  | [] => None
  | f :: rest => if decide (nameLower f = lower) then Some f else findFirstNamed lower rest
  end.
Definition HeaderBlock_LastFieldByName (h : HeaderBlock) (name : bytes) : option HeaderField :=
  match canonicalHeaderLookupName name with
  | None => None
  | Some lower => findFirstNamed lower (reverse (hb_fields h))
  end.

(** [VisitFieldsReverse] with the callback's captured state made explicit. *)
Fixpoint visitFields {St} (visit : HeaderField -> St -> outcome ParserError St)
    (fields : list HeaderField) (st : St) : outcome ParserError St :=
  match fields with
  | [] => Ret st
  | f :: rest => let* st' := visit f st in visitFields visit rest st'
  end.
Definition HeaderBlock_VisitFieldsReverse {St} (h : HeaderBlock)
    (visit : HeaderField -> St -> outcome ParserError St) (st : St) : outcome ParserError St :=
  check require (hb_initialized h) invariantError ;;
  visitFields visit (reverse (hb_fields h)) st.

(** [MaximumPhysicalLineBytes]: [pos] is the loop index and [start] the first
    byte of the current line. *)
Fixpoint maxLineLoop (s : bytes) (pos start maximum : Z) : Z :=
  match s with
  | b :: rest =>
      match rest with
      | lf :: tail =>
          if (b =?b CR) && (lf =?b LF)
          then maxLineLoop tail (pos + 2) (pos + 2) (Z.max maximum (pos - start))
          else maxLineLoop rest (pos + 1) start maximum
      | [] => maximum
      end
  | [] => maximum
  end.
Definition MaximumPhysicalLineBytes (f : HeaderField) : Z :=
  if negb (hf_valid f) then 0 else maxLineLoop (originalBytes f) 0 0 0.

(** ** Lemmas *)

Lemma lowerByte_idem b : lowerByte (lowerByte b) = lowerByte b.
Proof.
  enough (bool_decide (lowerByte (lowerByte b) = lowerByte b) = true) as H.
  { by apply bool_decide_eq_true in H. }
  by_bytes b.
Qed.

Lemma lowerByte_valid b : invalidNameByte (lowerByte b) = invalidNameByte b.
Proof.
  enough (Bool.eqb (invalidNameByte (lowerByte b)) (invalidNameByte b) = true) as H.
  { by apply eqb_prop in H. }
  by_bytes b.
Qed.

Lemma lowerASCII_idem s : lowerASCII (lowerASCII s) = lowerASCII s.
Proof. unfold lowerASCII. rewrite map_map. apply map_ext. intros. apply lowerByte_idem. Qed.

Lemma invalidNameByte_false b :
  invalidNameByte b = false -> plain_byte b = true /\ isWSP b = false /\ b <> x3a.
Proof.
  enough (implb (negb (invalidNameByte b))
            (plain_byte b && negb (isWSP b) && negb (b =?b x3a)) = true) as H.
  { intros E. rewrite E in H. simpl in H.
    apply andb_true_iff in H as [[H1 H2]%andb_true_iff H3].
    apply negb_true_iff in H2, H3. apply byte_eqb_ne in H3. done. }
  by_bytes b.
Qed.

Lemma find_index_None p s i : find_index p s i = None <-> Forall (fun b => p b = false) s.
Proof.
  revert i. induction s as [|b s IH]; intros i; simpl; [by rewrite Forall_nil | ].
  rewrite Forall_cons. destruct (p b); [by split; [ | intros [? _]] | ]. rewrite IH. naive_solver.
Qed.

Lemma validHeaderFieldName_spec name :
  validHeaderFieldName name = true
  <-> name <> [] /\ Forall (fun b => invalidNameByte b = false) name.
Proof.
  unfold validHeaderFieldName, invalidHeaderFieldNameOffset.
  destruct (decide (name = [])) as [-> | Hne].
  - split; [done | intros [? _]; done].
  - rewrite <- (find_index_None _ _ 0). destruct (find_index _ _ _); naive_solver.
Qed.

Lemma valid_name_lower name :
  validHeaderFieldName (lowerASCII name) = validHeaderFieldName name.
Proof.
  apply eq_true_iff_eq. rewrite !validHeaderFieldName_spec. unfold lowerASCII.
  rewrite Forall_map. unfold compose. setoid_rewrite lowerByte_valid.
  split; intros [H1 H2]; (split; [by destruct name | done]).
Qed.

(** *** Folded values

    A header value is a first line and continuation lines, each continuation
    starting with white space; [fold_value] joins them with CRLF. *)
Definition cont_line (c : bytes) : Prop :=
  plain c /\ exists w t, c = w :: t /\ isWSP w = true.
Definition fold_value (v0 : bytes) (conts : list bytes) : bytes :=
  v0 ++ concat (map (fun c => crlf ++ c) conts).

Lemma isWSP_plain b : isWSP b = true -> plain_byte b = true.
Proof.
  enough (implb (isWSP b) (plain_byte b) = true) as H.
  { intros E. by rewrite E in H. }
  by_bytes b.
Qed.

Lemma validHeaderFieldValue_plain_app v r :
  plain v -> validHeaderFieldValue (v ++ r) = validHeaderFieldValue r.
Proof.
  induction 1 as [|b v Hb _ IH]; [done | ]. apply plain_byte_spec in Hb as [H1 H2].
  cbn [app validHeaderFieldValue].
  rewrite (proj2 (byte_eqb_ne b CR)), (proj2 (byte_eqb_ne b LF)) by done. done.
Qed.

Lemma validHeaderFieldValue_fold w t :
  validHeaderFieldValue (crlf ++ w :: t) = isWSP w && validHeaderFieldValue (w :: t).
Proof. reflexivity. Qed.

Lemma fold_value_valid v0 conts :
  plain v0 -> Forall cont_line conts -> validHeaderFieldValue (fold_value v0 conts) = true.
Proof.
  intros H0 Hc. unfold fold_value. rewrite validHeaderFieldValue_plain_app by done.
  induction Hc as [|c conts (Hp & w & t & -> & Hw) _ IH]; [done | ].
  cbn [map concat]. rewrite <- app_assoc. cbn [app]. rewrite validHeaderFieldValue_fold, Hw.
  change (w :: t ++ ?r) with ((w :: t) ++ r). by rewrite validHeaderFieldValue_plain_app.
Qed.

(** Every accepted value is a folded value: the converse of the lemma above. *)
Lemma validHeaderFieldValue_fold_aux n v :
  (length v < n)%nat -> validHeaderFieldValue v = true ->
  exists v0 conts, v = fold_value v0 conts /\ plain v0 /\ Forall cont_line conts.
Proof.
  revert v. induction n as [|n IH]; intros v Hn Hv; [lia | ].
  destruct v as [|b v]; [by exists [], []; repeat constructor | ].
  cbn [validHeaderFieldValue] in Hv. destruct (byte_eqb_spec b CR) as [-> | Hcr].
  - destruct v as [|lf [|w t]]; [done | done | ].
    apply andb_true_iff in Hv as [[Hlf Hw]%andb_true_iff Hv]. apply byte_eqb_eq in Hlf as ->.
    destruct (IH (w :: t)) as (v0 & conts & E & H0 & Hc); [simpl in *; lia | done | ].
    destruct v0 as [|w' t'].
    { destruct conts; simpl in E; [done | ]. injection E as -> _. by vm_compute in Hw. }
    injection E as -> ->. exists [], ((w' :: t') :: conts).
    split; [done | ]. split; [by constructor | ].
    constructor; [ | done]. split; [done | eauto].
  - destruct (byte_eqb_spec b LF) as [-> | Hlf]; [done | ].
    destruct (IH v) as (v0 & conts & -> & H0 & Hc); [simpl in *; lia | done | ].
    exists (b :: v0), conts. split; [done | ]. split; [ | done].
    apply plain_cons. by rewrite plain_byte_spec.
Qed.

Lemma unfoldLoop_plain v r :
  plain v -> unfoldLoop (v ++ r) = v ++ unfoldLoop r.
Proof.
  induction 1 as [|b v Hb _ IH]; [done | ]. apply plain_byte_spec in Hb as [H1 _].
  cbn [app unfoldLoop].
  destruct (v ++ r) as [|lf [|w t]] eqn:E; try (by rewrite <- IH).
  rewrite (proj2 (byte_eqb_ne b CR)) by done. cbn [andb]. by rewrite <- IH.
Qed.

Lemma unfoldLoop_crlf w t :
  isWSP w = true -> unfoldLoop (crlf ++ w :: t) = unfoldLoop (w :: t).
Proof. intros Hw. cbn -[isWSP]. by rewrite Hw. Qed.

Lemma unfoldLoop_fold v0 conts :
  plain v0 -> Forall cont_line conts ->
  unfoldLoop (fold_value v0 conts) = v0 ++ concat conts.
Proof.
  intros H0 Hc. unfold fold_value. rewrite unfoldLoop_plain by done. f_equal.
  induction Hc as [|c conts (Hp & w & t & -> & Hw) _ IH]; [done | ].
  cbn [map concat]. rewrite <- app_assoc. cbn [app]. rewrite unfoldLoop_crlf by done.
  change (w :: t ++ ?r) with ((w :: t) ++ r). rewrite unfoldLoop_plain by done. by rewrite IH.
Qed.

Lemma unfoldHeaderValue_fold v0 conts :
  plain v0 -> Forall cont_line conts ->
  unfoldHeaderValue (fold_value v0 conts) = v0 ++ concat conts.
Proof.
  intros H0 Hc. unfold unfoldHeaderValue, bytes_contains.
  destruct conts as [|c conts].
  - unfold fold_value. simpl. rewrite !app_nil_r. by rewrite bytes_index_plain_None.
  - unfold fold_value at 1. cbn [map concat]. rewrite <- app_assoc.
    rewrite bytes_index_plain by done. cbn [negb]. by rewrite unfoldLoop_fold.
Qed.

(** *** Validating constructors *)

Definition encode_field (name v0 : bytes) (conts : list bytes) : bytes :=
  name ++ x3a :: fold_value v0 conts ++ crlf.

Lemma headerFieldFramed_spec n v o :
  headerFieldFramed n v o = true <-> o = n ++ x3a :: v ++ crlf.
Proof.
  unfold headerFieldFramed.
  rewrite !andb_true_iff, !bytes_equal_eq, bool_decide_eq_true, Nat.eqb_eq, has_suffix_spec.
  split.
  - intros [[[[Hlen Hn] Hcolon] Hv] [t Ht]].
    rewrite <- (take_drop_middle o (length n) x3a), Hn by done. do 2 f_equal.
    replace (length o - length crlf - (length n + 1))%nat with (length v) in Hv by (simpl in *; lia).
    replace (length n + 1)%nat with (S (length n)) in Hv by lia.
    rewrite <- (take_drop (length v) (drop _ o)), Hv, drop_drop. f_equal.
    rewrite Ht in Hlen |- *. rewrite length_app in Hlen. simpl in Hlen.
    replace (S (length n) + length v)%nat with (length t) by lia. apply drop_app_length.
  - intros ->. split_and!.
    + rewrite length_app. simpl. rewrite length_app. simpl. lia.
    + apply take_app_length.
    + by rewrite list_lookup_middle.
    + rewrite length_app. simpl. rewrite length_app. simpl.
      replace (length n + 1)%nat with (length (n ++ [x3a])) by (rewrite length_app; simpl; lia).
      replace (n ++ x3a :: v ++ crlf) with ((n ++ [x3a]) ++ v ++ crlf) by by rewrite <- app_assoc.
      rewrite drop_app_length. rewrite take_app_le by (rewrite length_app; simpl; lia).
      apply take_ge. rewrite length_app. simpl. lia.
    + exists (n ++ x3a :: v). by rewrite <- app_assoc.
Qed.

Definition parsed_field (index : Z) (name v0 : bytes) (conts : list bytes) : HeaderField :=
  MkField index name (lowerASCII name) (fold_value v0 conts) (v0 ++ concat conts)
    (encode_field name v0 conts) true.

Lemma NewHeaderField_ok index name v0 conts :
  0 <= index -> validHeaderFieldName name = true -> plain v0 -> Forall cont_line conts ->
  NewHeaderField index name (fold_value v0 conts) (unfoldHeaderValue (fold_value v0 conts))
    (encode_field name v0 conts) = Ret (parsed_field index name v0 conts).
Proof.
  intros Hi Hn Hv Hc. unfold NewHeaderField, require.
  rewrite (proj2 (Z.ltb_ge index 0)) by lia. simpl. rewrite Hn. simpl.
  rewrite fold_value_valid by done. simpl.
  rewrite (proj2 (headerFieldFramed_spec _ _ _)) by done. simpl.
  rewrite unfoldHeaderValue_fold by done. by rewrite bytes_equal_refl.
Qed.

(** What a successful [NewHeaderField] returns. *)
Lemma NewHeaderField_inv index name value unfolded original f :
  NewHeaderField index name value unfolded original = Ret f ->
  0 <= index /\
  exists v0 conts, plain v0 /\ Forall cont_line conts /\ validHeaderFieldName name = true /\
    f = parsed_field index name v0 conts /\ value = fold_value v0 conts /\
    original = encode_field name v0 conts.
Proof.
  unfold NewHeaderField. intros H. ret_inv H.
  rewrite negb_true_iff, Z.ltb_ge in Hr. split; [lia | ].
  apply validHeaderFieldValue_fold_aux with (n := S (length value)) in Hr1
    as (v0 & conts & -> & H0 & Hc); [ | lia].
  apply headerFieldFramed_spec in Hr2 as ->. apply bytes_equal_eq in Hr3 as ->.
  exists v0, conts. rewrite unfoldHeaderValue_fold by done. done.
Qed.

(** Fields carry consecutive indices and the validity mark. *)
Inductive indexed_from : Z -> list HeaderField -> Prop :=
  | indexed_nil i : indexed_from i []
  | indexed_cons i f fs :
      hf_valid f = true -> hf_index f = i -> indexed_from (i + 1) fs -> indexed_from i (f :: fs).

Lemma indexed_from_app i fs gs :
  indexed_from i (fs ++ gs) <-> indexed_from i fs /\ indexed_from (i + len fs) gs.
Proof.
  revert i. induction fs as [|f fs IH]; intros i; cbn [app].
  - change (len (@nil HeaderField)) with 0. rewrite Z.add_0_r.
    split; [intros; split; [constructor | done] | by intros []].
  - rewrite len_cons, Z.add_assoc. split.
    + intros H. inversion H as [|??? H1 H2 H3]; subst. apply IH in H3 as [??].
      split; [by constructor | done].
    + intros [H Hg]. inversion H as [|??? H1 H2 H3]; subst. constructor; [done | done | ].
      by apply IH.
Qed.

Definition fields_bytes (fs : list HeaderField) : bytes := concat (map originalBytes fs).

Lemma fields_bytes_cons f fs : fields_bytes (f :: fs) = originalBytes f ++ fields_bytes fs.
Proof. done. Qed.

Lemma checkHeaderFields_spec fields original i off off' :
  (off <= length original)%nat ->
  checkHeaderFields fields original i off = Ret off' <->
  indexed_from i fields /\ (off' = off + length (fields_bytes fields))%nat /\
  exists t, drop off original = fields_bytes fields ++ t.
Proof.
  revert i off. induction fields as [|f fields IH]; intros i off Hoff.
  - cbn. split.
    + intros [= <-]. split; [constructor | ]. split; [lia | eauto].
    + intros (_ & -> & _). f_equal. lia.
  - cbn [checkHeaderFields]. unfold slice_from. rewrite slice_ok by lia.
    rewrite fields_bytes_cons.
    rewrite (take_ge (drop off original)) by (rewrite length_drop; lia).
    split.
    + intros H. ret_inv H. apply andb_true_iff in Hr as [Hv Hi]. apply Z.eqb_eq in Hi.
      apply has_prefix_spec in Hr0 as [t Ht].
      apply IH in H as (H1 & -> & t' & H2).
      2: { apply (f_equal length) in Ht. rewrite length_drop, length_app in Ht. lia. }
      split; [by constructor | ]. rewrite length_app. split; [lia | ].
      exists t'. rewrite Ht, <- app_assoc. f_equal.
      rewrite <- H2, <- drop_drop, Ht. by rewrite drop_app_length.
    + intros (Hx & -> & t & Ht). inversion Hx as [|??? H1 H2 H3]; subst.
      unfold require. rewrite H1, Z.eqb_refl. simpl. rewrite Ht, <- app_assoc, has_prefix_app.
      simpl. apply IH.
      { apply (f_equal length) in Ht. rewrite length_drop, !length_app in Ht. lia. }
      split; [done | ]. rewrite length_app. split; [lia | ].
      exists t. rewrite <- drop_drop, Ht, <- app_assoc. by rewrite drop_app_length.
Qed.

Lemma checkHeaderFields_no_crash fields original i off :
  (off <= length original)%nat -> no_crash (checkHeaderFields fields original i off).
Proof.
  revert i off. induction fields as [|f fields IH]; intros i off Hoff; simpl; crash_free.
  - by apply slice_from_no_crash.
  - apply IH. apply slice_inv in H0 as [_ ->].
    rewrite take_ge in * by (rewrite length_drop; lia).
    destruct (has_prefix _ _) eqn:Hp in H1; [ | done].
    apply has_prefix_spec in Hp as [t Ht]. apply (f_equal length) in Ht.
    rewrite length_drop, length_app in Ht. lia.
Qed.

(** [NewHeaderBlock] accepts exactly the consecutively indexed valid fields
    whose original bytes tile the block. *)
Lemma NewHeaderBlock_spec fields original h :
  NewHeaderBlock fields original = Ret h <->
  indexed_from 0 fields /\ original = fields_bytes fields /\ h = MkBlock fields original true.
Proof.
  unfold NewHeaderBlock. destruct (decide (fields = [])) as [-> | Hne].
  - split.
    + intros H. ret_inv H. apply bool_decide_eq_true in Hr as ->.
      split; [constructor | done].
    + intros (_ & -> & ->). done.
  - split.
    + intros H. ret_inv H. apply Nat.eqb_eq in Hr0.
      apply checkHeaderFields_spec in Hr as (H1 & -> & t & Ht); [ | lia].
      split; [done | ]. rewrite drop_0 in Ht. split; [ | done].
      rewrite Ht in Hr0. rewrite length_app in Hr0. assert (t = []) as ->.
      { apply length_zero_iff_nil. lia. }
      by rewrite app_nil_r in Ht.
    + intros (H1 & -> & ->).
      assert (checkHeaderFields fields (fields_bytes fields) 0 0
              = Ret (length (fields_bytes fields))) as ->.
      { apply checkHeaderFields_spec; [lia | ]. split; [done | ]. split; [done | ].
        exists []. by rewrite drop_0, app_nil_r. }
      simpl. by rewrite Nat.eqb_refl.
Qed.

Lemma NewHeaderBlock_no_crash fields original : no_crash (NewHeaderBlock fields original).
Proof.
  unfold NewHeaderBlock. destruct (decide _); crash_free.
  apply checkHeaderFields_no_crash. lia.
Qed.
#[export] Hint Resolve NewHeaderBlock_no_crash : go.

Lemma findFirstNamed_spec lower fields :
  findFirstNamed lower fields = head (filter (fun f => nameLower f = lower) fields).
Proof.
  induction fields as [|f fields IH]; [done | ]. simpl. rewrite filter_cons.
  by destruct (decide (nameLower f = lower)).
Qed.

Lemma filter_reverse {A} (P : A -> Prop) `{!forall x, Decision (P x)} (l : list A) :
  filter P (reverse l) = reverse (filter P l).
Proof.
  induction l as [|x l IH]; [done | ].
  rewrite reverse_cons, filter_app, IH, !filter_cons, filter_nil.
  destruct (decide (P x)); [by rewrite reverse_cons | by rewrite app_nil_r].
Qed.

(** The physical lines of a field: its first line and its continuations. *)
Lemma maxLineLoop_line l r pos start m :
  plain l ->
  maxLineLoop (l ++ crlf ++ r) pos start m =
  maxLineLoop r (pos + len l + 2) (pos + len l + 2) (Z.max m (pos + len l - start)).
Proof.
  intros Hl. revert pos. induction Hl as [|b l Hb Hl IH]; intros pos.
  - change (len (@nil byte)) with 0. cbn -[Z.add Z.sub]. by rewrite Z.add_0_r.
  - apply plain_byte_spec in Hb as [Hb _]. rewrite len_cons.
    replace (pos + (1 + len l)) with (pos + 1 + len l) by lia. rewrite <- IH.
    cbn [app]. cbn [maxLineLoop].
    rewrite (proj2 (byte_eqb_ne b CR)) by done. cbn [andb]. by destruct (l ++ crlf ++ r).
Qed.

Lemma maxLineLoop_unlines ls pos m :
  Forall plain ls ->
  maxLineLoop (unlines ls) pos pos m = foldl Z.max m (map len ls).
Proof.
  intros Hls. revert pos m. induction Hls as [|l ls Hl _ IH]; intros pos m; [done | ].
  rewrite unlines_cons, maxLineLoop_line by done. rewrite IH. simpl. f_equal. lia.
Qed.

Lemma encode_field_unlines name v0 conts :
  encode_field name v0 conts = unlines ((name ++ x3a :: v0) :: conts).
Proof.
  unfold encode_field, fold_value. rewrite unlines_cons, <- !app_assoc. f_equal. simpl. do 2 f_equal.
  induction conts as [|c conts IH]; [done | ].
  cbn [map concat]. rewrite <- !app_assoc, IH, unlines_cons. done.
Qed.

(** [LastFieldByName] is the last of the occurrences [FieldsByName]
    returns, both ignore ASCII case in the requested name, and they return
    exactly the block's fields of that name, in order. *)
Theorem LastFieldByName_spec h name :
  HeaderBlock_LastFieldByName h name = last (HeaderBlock_FieldsByName h name) /\
  HeaderBlock_FieldsByName h (lowerASCII name) = HeaderBlock_FieldsByName h name /\
  (forall f, f ∈ HeaderBlock_FieldsByName h name <->
     f ∈ hb_fields h /\ validHeaderFieldName name = true /\ nameLower f = lowerASCII name).
Proof.
  unfold HeaderBlock_LastFieldByName, HeaderBlock_FieldsByName, canonicalHeaderLookupName.
  rewrite valid_name_lower, lowerASCII_idem.
  destruct (validHeaderFieldName name); split_and!; try done.
  - rewrite findFirstNamed_spec, filter_reverse. apply head_reverse.
  - intros f. rewrite list_elem_of_filter. naive_solver.
  - intros f. rewrite elem_of_nil. naive_solver.
Qed.
