(* ===== verification/RawBody.v ===== *)
(** * Package internal/rawmsg: message bodies and their line index (body.go) *)

From S2P Require Import Prelude GoBytes RawMsg.
#[local] Open Scope Z_scope.

Record BodyLine := MkLine {
  bl_index : Z; startOffset : Z; endOffset : Z; lineEndingWidth : Z; bl_valid : bool }.

(** A BodyLineIndex is the list of its line spans. *)
Definition BodyLineIndex := list BodyLine.

Record Body := MkBody { body_bytes : bytes; body_lines : BodyLineIndex; body_initialized : bool }.
Definition emptyBody : Body := MkBody [] [] false.

Definition NewBodyLine (index startOffset endOffset lineEndingWidth : Z)
    : outcome ParserError BodyLine :=
  check require (negb ((index <? 0) || (startOffset <? 0) || (endOffset <? startOffset)))
    invariantError ;;
  check require (negb (negb (lineEndingWidth =? 0) && negb (lineEndingWidth =? len crlf)))
    invariantError ;;
  Ret (MkLine index startOffset endOffset lineEndingWidth true).

(** The loop of NewBodyLineIndex: [i] is the index, [more] tells [i < len(lines)-1]. *)
Fixpoint checkLineIndex (lines : list BodyLine) (i previousEnd : Z) : outcome ParserError unit :=
  match lines with
  | [] => Ret tt
  | line :: rest =>
      check require (bl_valid line && (bl_index line =? i) && (startOffset line =? previousEnd)
                     && negb (bool_decide (rest <> []) && (lineEndingWidth line =? 0)))
        invariantError ;;
      checkLineIndex rest (i + 1) (endOffset line + lineEndingWidth line)
  end.

Definition NewBodyLineIndex (lines : list BodyLine) : outcome ParserError BodyLineIndex :=
  check checkLineIndex lines 0 0 ;; Ret lines.

(** The loop of NewBody; the result is the final nextOffset. *)
Fixpoint checkBodyLines (lines : list BodyLine) (data : bytes) (nextOffset : Z)
    : outcome ParserError Z :=
  match lines with
  | [] => Ret nextOffset
  | line :: rest =>
      let lineEnd := endOffset line + lineEndingWidth line in
      check require (negb (negb (startOffset line =? nextOffset) || (len data <? lineEnd)))
        invariantError ;;
      let* content := zslice data (startOffset line) (endOffset line) in
      check require (negb (contains_any content [CR; LF])) invariantError ;;
      check (if lineEndingWidth line =? 0 then
               require (negb (bool_decide (rest <> []) || negb (endOffset line =? len data)))
                 invariantError
             else if lineEndingWidth line =? len crlf then
               let* ending := zslice data (endOffset line) lineEnd in
               require (bytes_equal ending crlf) invariantError
             else Fail invariantError) ;;
      checkBodyLines rest data lineEnd
  end.

Definition NewBody (data : bytes) (lines : BodyLineIndex) : outcome ParserError Body :=
  let* nextOffset := checkBodyLines lines data 0 in
  check require (negb ((0 <? len data) && negb (nextOffset =? len data))) invariantError ;;
  Ret (MkBody data lines true).

Definition Body_Len (b : Body) : Z := len (body_bytes b).
Definition Body_LineCount (b : Body) : Z := len (body_lines b).
Definition Body_Equal (b other : Body) : bool :=
  body_initialized b && body_initialized other && bytes_equal (body_bytes b) (body_bytes other).

(** Line views and line access. *)
Definition BodyLine_EncodedLen (l : BodyLine) : Z :=
  if negb (bl_valid l) then 0 else endOffset l - startOffset l + lineEndingWidth l.
Definition BodyLine_ContentLen (l : BodyLine) : Z :=
  if negb (bl_valid l) then 0 else endOffset l - startOffset l.
Definition BodyLine_Terminated (l : BodyLine) : bool :=
  bl_valid l && (lineEndingWidth l =? len crlf).
Definition BodyLine_EncodedCopy (b : Body) (l : BodyLine) : outcome ParserError bytes :=
  if negb (bl_valid l) then Ret []
  else zslice (body_bytes b) (startOffset l) (endOffset l + lineEndingWidth l).

Definition Body_LineBytes (b : Body) (index : Z) : outcome ParserError (option bytes) :=
  if (index <? 0) || (len (body_lines b) <=? index) then Ret None
  else match body_lines b !! Z.to_nat index with
       | None => Crash
       | Some line =>
           let* encoded := zslice (body_bytes b) (startOffset line)
                             (endOffset line + lineEndingWidth line) in
           Ret (Some encoded)
       end.

Definition Body_LineEncodedLen (b : Body) (index : Z) : option Z :=
  if (index <? 0) || (len (body_lines b) <=? index) then None
  else line ← body_lines b !! Z.to_nat index;
       Some (endOffset line - startOffset line + lineEndingWidth line).

(** [VisitLines] with the callback's captured state made explicit. *)
Fixpoint visitLines {St} (visit : BodyLine -> St -> outcome ParserError St)
    (lines : list BodyLine) (st : St) : outcome ParserError St :=
  match lines with
  | [] => Ret st
  | l :: rest => let* st' := visit l st in visitLines visit rest st'
  end.
Definition Body_VisitLines {St} (b : Body) (visit : BodyLine -> St -> outcome ParserError St)
    (st : St) : outcome ParserError St :=
  check require (body_initialized b) invariantError ;;
  visitLines visit (body_lines b) st.

(** [countBodyLinesWithinLimit]: (lineCount, overflowOffset, withinLimit). *)
Fixpoint countLoop (fuel : nat) (data : bytes) (maxLines : Z) (lineCount : Z) (lineStart : nat)
    : outcome ParserError (Z * Z * bool) :=
  match fuel with
  | O => Crash
  | S fuel =>
      if negb (lineStart <? length data)%nat then Ret (lineCount, 0, true)
      else if maxLines <=? lineCount then Ret (lineCount, Z.of_nat lineStart, false)
      else
        let lineCount := lineCount + 1 in
        let* tail := slice_from data lineStart in
        match bytes_index tail crlf with
        | None => Ret (lineCount, 0, true)
        | Some lineEndRel =>
            countLoop fuel data maxLines lineCount (lineStart + (lineEndRel + length crlf))
        end
  end.
Definition countBodyLinesWithinLimit (data : bytes) (maxLines : Z)
    : outcome ParserError (Z * Z * bool) :=
  countLoop (S (length data)) data maxLines 0 0.

(** The scan loop of indexBodyLines. *)
Fixpoint indexLoop (fuel : nat) (data : bytes) (options : ParserOptions) (bodyOffset : Z)
    (lineIndex : Z) (lineStart : nat) (lines : list BodyLine)
    : outcome ParserError (list BodyLine) :=
  match fuel with
  | O => Crash
  | S fuel =>
      if negb (lineStart <? length data)%nat then Ret lines
      else
        let* tail := slice_from data lineStart in
        let '(lineEnd, width) :=
          match bytes_index tail crlf with
          | Some rel => ((lineStart + rel)%nat, length crlf)
          | None => (length data, 0%nat)
          end in
        check require (negb (MaxBodyLineBytes options <? Z.of_nat (lineEnd - lineStart)))
          (limitError (MkLoc (bodyOffset + Z.of_nat lineStart) 0 0) "max_body_line_bytes"
             (MaxBodyLineBytes options)) ;;
        let* line := NewBodyLine lineIndex (Z.of_nat lineStart) (Z.of_nat lineEnd)
                       (Z.of_nat width) in
        let lines := lines ++ [line] in
        if (width =? 0)%nat then Ret lines
        else indexLoop fuel data options bodyOffset (lineIndex + 1) (lineEnd + width) lines
  end.

Definition indexBodyLines (data : bytes) (options : ParserOptions) (bodyOffset : Z)
    : outcome ParserError (list BodyLine) :=
  if decide (data = []) then Ret []
  else
    let* (_, overflowOffset, withinLimit) :=
      countBodyLinesWithinLimit data (MaxBodyLines options) in
    check require withinLimit
      (limitError (MkLoc (bodyOffset + overflowOffset) 0 0) "max_body_lines"
         (MaxBodyLines options)) ;;
    indexLoop (S (length data)) data options bodyOffset 0 0 [].

Definition buildBody (data : bytes) (options : ParserOptions) (bodyOffset : Z)
    : outcome ParserError Body :=
  let* lines := indexBodyLines data options bodyOffset in
  let* index := NewBodyLineIndex lines in
  NewBody data index.

(** ** The line structure of a body

    A body in strict CRLF form is a list of terminated lines and an
    unterminated rest; its index has one entry per terminated line and one
    for a non-empty rest. *)
Definition segments (ls : list bytes) (last : bytes) : list (bytes * Z) :=
  map (fun l => (l, 2)) ls ++ (if decide (last = []) then [] else [(last, 0)]).

Fixpoint layout (i pos : Z) (segs : list (bytes * Z)) : list BodyLine :=
  match segs with
  | [] => []
  | (l, w) :: rest => MkLine i pos (pos + len l) w true :: layout (i + 1) (pos + len l + w) rest
  end.

Definition body_of (ls : list bytes) (last : bytes) : Body :=
  MkBody (unlines ls ++ last) (layout 0 0 (segments ls last)) true.

Lemma segments_cons l ls last : segments (l :: ls) last = (l, 2) :: segments ls last.
Proof. done. Qed.

Lemma len_unlines_cons l ls : len (unlines (l :: ls)) = len l + 2 + len (unlines ls).
Proof. rewrite unlines_cons, !len_app. change (len crlf) with 2. lia. Qed.

Section loops.
Context (data : bytes) (options : ParserOptions) (bodyOffset : Z).

(** One unterminated rest. *)
Lemma tail_index pre last :
  data = pre ++ last -> plain last ->
  slice_from (E := ParserError) data (length pre) = Ret last /\ bytes_index last crlf = None.
Proof. intros -> H. split; [by apply slice_from_app | by apply bytes_index_plain_None]. Qed.

(** One terminated line. *)
Lemma line_index pre l rest :
  data = pre ++ l ++ crlf ++ rest -> plain l ->
  slice_from (E := ParserError) data (length pre) = Ret (l ++ crlf ++ rest) /\
  bytes_index (l ++ crlf ++ rest) crlf = Some (length l) /\
  (length pre <? length data)%nat = true.
Proof.
  intros E H. split; [rewrite E; by apply slice_from_app | ].
  split; [by apply bytes_index_plain | ]. rewrite E.
  apply Nat.ltb_lt. rewrite !length_app. simpl. lia.
Qed.

Lemma countLoop_spec fuel pre ls last maxLines cnt :
  data = pre ++ unlines ls ++ last -> Forall plain ls -> plain last ->
  (length (unlines ls ++ last) < fuel)%nat -> cnt <= maxLines ->
  countLoop fuel data maxLines cnt (length pre) =
  if cnt + len (segments ls last) <=? maxLines then Ret (cnt + len (segments ls last), 0, true)
  else Ret (maxLines, len pre + len (unlines (take (Z.to_nat (maxLines - cnt)) ls)), false).
Proof.
  revert fuel pre cnt. induction ls as [|l ls IH]; intros fuel pre cnt E Hls Hlast Hf Hc;
    (destruct fuel as [|fuel]; [lia | ]).
  - rewrite take_nil, Z.add_0_r. change (unlines []) with (@nil byte) in *. cbn [app] in *.
    cbn [countLoop]. unfold segments. cbn [map app].
    destruct (decide (last = [])) as [-> | Hne].
    + rewrite app_nil_r in E. rewrite E, Nat.ltb_irrefl. cbn [negb].
      change (len (@nil (bytes * Z))) with 0. rewrite Z.add_0_r.
      by rewrite (proj2 (Z.leb_le cnt maxLines)).
    + destruct (tail_index pre last E Hlast) as [H1 H2].
      rewrite (proj2 (Nat.ltb_lt (length pre) (length data))).
      2: { rewrite E, length_app. destruct last; [done | simpl; lia]. }
      cbn [negb]. rewrite H1. cbn [obind]. rewrite H2. change (len [(last, 0)]) with 1.
      destruct (Z.leb_spec maxLines cnt), (Z.leb_spec (cnt + 1) maxLines); try lia; [ | done].
      do 3 f_equal. lia.
  - rewrite unlines_cons, <- !app_assoc in E. rewrite unlines_cons, !length_app in Hf.
    simpl in Hf. apply Forall_cons in Hls as [Hl Hls].
    destruct (line_index pre l _ E Hl) as (H1 & H2 & H3). cbn [countLoop].
    rewrite H3, H1. cbn [negb obind]. rewrite H2, segments_cons, len_cons.
    pose proof (len_nonneg (segments ls last)) as Hseg.
    destruct (Z.leb_spec maxLines cnt).
    + rewrite (proj2 (Z.leb_gt _ _)) by lia. replace (maxLines - cnt) with 0 by lia.
      do 3 f_equal; [lia | ]. unfold len. simpl. lia.
    + replace (length pre + (length l + length crlf))%nat with (length (pre ++ l ++ crlf))
        by (rewrite !length_app; done).
      rewrite IH; [ | by rewrite <- !app_assoc | done | done | rewrite length_app; lia | lia].
      rewrite Z.add_assoc. destruct (Z.leb_spec (cnt + 1 + len (segments ls last)) maxLines);
        [done | ].
      do 3 f_equal. rewrite !len_app.
      replace (Z.to_nat (maxLines - cnt)) with (S (Z.to_nat (maxLines - (cnt + 1)))) by lia.
      cbn [take]. rewrite len_unlines_cons. change (len crlf) with 2. lia.
Qed.

Definition fits (l : bytes) : Prop := len l <= MaxBodyLineBytes options.

(** The limit error of the first line that is too long. *)
Fixpoint longLineError (pos : Z) (segs : list (bytes * Z)) : option ParserError :=
  match segs with
  | [] => None
  | (l, w) :: rest =>
      if MaxBodyLineBytes options <? len l
      then Some (limitError (MkLoc (bodyOffset + pos) 0 0) "max_body_line_bytes"
                   (MaxBodyLineBytes options))
      else longLineError (pos + len l + w) rest
  end.

Lemma longLineError_None pos segs :
  longLineError pos segs = None <-> Forall (fun s => fits s.1) segs.
Proof.
  revert pos. induction segs as [|[l w] segs IH]; intros pos; simpl; [by rewrite Forall_nil | ].
  rewrite Forall_cons, <- (IH (pos + len l + w)). unfold fits. simpl.
  destruct (Z.ltb_spec (MaxBodyLineBytes options) (len l)); split; try done; try lia.
  by intros [_ ?].
Qed.

Lemma NewBodyLine_ok i (a b w : nat) :
  0 <= i -> (a <= b)%nat -> w = 0%nat \/ w = 2%nat ->
  NewBodyLine i (Z.of_nat a) (Z.of_nat b) (Z.of_nat w) =
  Ret (MkLine i (Z.of_nat a) (Z.of_nat b) (Z.of_nat w) true).
Proof.
  intros Hi Hab Hw. unfold NewBodyLine.
  rewrite (proj2 (Z.ltb_ge i 0)), (proj2 (Z.ltb_ge (Z.of_nat a) 0)),
    (proj2 (Z.ltb_ge (Z.of_nat b) (Z.of_nat a))) by lia.
  by destruct Hw as [-> | ->].
Qed.

Lemma indexLoop_spec fuel pre ls last i acc :
  data = pre ++ unlines ls ++ last -> Forall plain ls -> plain last ->
  (length (unlines ls ++ last) < fuel)%nat -> 0 <= i ->
  indexLoop fuel data options bodyOffset i (length pre) acc =
  match longLineError (len pre) (segments ls last) with
  | Some e => Fail e
  | None => Ret (acc ++ layout i (len pre) (segments ls last))
  end.
Proof.
  revert fuel pre i acc. induction ls as [|l ls IH]; intros fuel pre i acc E Hls Hlast Hf Hi;
    (destruct fuel as [|fuel]; [lia | ]).
  - change (unlines []) with (@nil byte) in *. cbn [app] in *.
    cbn [indexLoop]. unfold segments. cbn [map app].
    destruct (decide (last = [])) as [-> | Hne].
    + rewrite app_nil_r in E. rewrite E, Nat.ltb_irrefl. cbn. by rewrite app_nil_r.
    + destruct (tail_index pre last E Hlast) as [H1 H2].
      rewrite (proj2 (Nat.ltb_lt (length pre) (length data))).
      2: { rewrite E, length_app. destruct last; [done | simpl; lia]. }
      cbn [negb]. rewrite H1. cbn [obind]. rewrite H2.
      assert (length data = length pre + length last)%nat as Hd by (rewrite E, length_app; lia).
      replace (length data - length pre)%nat with (length last) by lia. fold (len last). cbn [longLineError layout]. unfold require.
      destruct (MaxBodyLineBytes options <? len last); cbn [negb obind]; [done | ].
      rewrite NewBodyLine_ok by lia. cbn.
      do 4 f_equal. unfold len. lia.
  - rewrite unlines_cons, <- !app_assoc in E. rewrite unlines_cons, !length_app in Hf.
    simpl in Hf. apply Forall_cons in Hls as [Hl Hls].
    destruct (line_index pre l _ E Hl) as (H1 & H2 & H3). cbn [indexLoop].
    rewrite H3, H1. cbn [negb obind]. rewrite H2.
    replace (length pre + length l - length pre)%nat with (length l) by lia. fold (len l).
    rewrite segments_cons. cbn [longLineError layout]. unfold require.
    destruct (MaxBodyLineBytes options <? len l); cbn [negb obind]; [done | ].
    change (length crlf) with 2%nat.
    rewrite NewBodyLine_ok by lia. cbn [obind Nat.eqb].
    replace (length pre + length l + 2)%nat with (length (pre ++ l ++ crlf))
      by (rewrite !length_app; simpl; lia).
    rewrite IH; [ | by rewrite <- !app_assoc | done | done | rewrite length_app; lia | lia].
    rewrite !len_app. change (len crlf) with 2. rewrite Z.add_assoc, <- app_assoc.
    destruct (longLineError _ _); [done | ]. cbn [app]. do 4 f_equal. unfold len. lia.
Qed.
End loops.

(** ** The validating constructors accept a body's own index *)

Lemma checkLineIndex_layout i pos ls last :
  checkLineIndex (layout i pos (segments ls last)) i pos = Ret tt.
Proof.
  revert i pos. induction ls as [|l ls IH]; intros i pos.
  - unfold segments. destruct (decide (last = [])); [done | ].
    cbn. by rewrite !Z.eqb_refl.
  - rewrite segments_cons. cbn -[segments]. rewrite !Z.eqb_refl. cbn -[segments].
    rewrite andb_false_r. cbn -[segments]. apply IH.
Qed.

Lemma NewBodyLineIndex_layout ls last :
  NewBodyLineIndex (layout 0 0 (segments ls last)) = Ret (layout 0 0 (segments ls last)).
Proof. unfold NewBodyLineIndex. by rewrite checkLineIndex_layout. Qed.

Lemma zslice_mid {E} (data p m t : bytes) a b :
  data = p ++ m ++ t -> a = len p -> b = len p + len m -> zslice (E := E) data a b = Ret m.
Proof.
  intros -> -> ->. unfold len. rewrite <- Nat2Z.inj_add, zslice_of_nat. by apply slice_app_mid.
Qed.

Lemma plain_no_any l : plain l -> contains_any l [CR; LF] = false.
Proof. apply contains_any_plain. Qed.

Lemma checkBodyLines_layout data pre ls last i :
  data = pre ++ unlines ls ++ last -> Forall plain ls -> plain last ->
  checkBodyLines (layout i (len pre) (segments ls last)) data (len pre) = Ret (len data).
Proof.
  revert pre i. induction ls as [|l ls IH]; intros pre i E Hls Hlast.
  - change (unlines []) with (@nil byte) in E. cbn [app] in E.
    unfold segments. cbn [map app]. destruct (decide (last = [])) as [-> | Hne].
    + cbn. by rewrite E, app_nil_r.
    + cbn [layout checkBodyLines startOffset endOffset lineEndingWidth].
      assert (len data = len pre + len last) as Hd by by rewrite E, len_app.
      rewrite Z.eqb_refl, Z.add_0_r, Hd, (proj2 (Z.ltb_ge _ _)) by lia. cbn [negb orb obind].
      rewrite (zslice_mid data pre last []) by (rewrite ?app_nil_r; done).
      cbn [obind require]. rewrite plain_no_any by done. cbn. by rewrite Z.eqb_refl.
  - rewrite unlines_cons, <- !app_assoc in E. apply Forall_cons in Hls as [Hl Hls].
    rewrite segments_cons. cbn [layout checkBodyLines startOffset endOffset lineEndingWidth].
    assert (len data = len pre + len l + 2 + len (unlines ls ++ last)) as Hd.
    { rewrite E, !len_app. change (len crlf) with 2. lia. }
    pose proof (len_nonneg (unlines ls ++ last)).
    rewrite Z.eqb_refl, Hd, (proj2 (Z.ltb_ge _ _)) by lia. cbn [negb orb require obind].
    rewrite (zslice_mid data pre l (crlf ++ unlines ls ++ last)) by done. cbn [obind require].
    rewrite plain_no_any by done. cbn [negb obind Z.eqb len crlf length Z.of_nat].
    change (2 =? Z.of_nat 2) with true. cbn [require obind].
    rewrite (zslice_mid data (pre ++ l) crlf (unlines ls ++ last));
      [ | by rewrite <- app_assoc | by rewrite len_app | by rewrite len_app].
    cbn [obind]. rewrite bytes_equal_refl. cbn [require obind].
    rewrite <- Hd. replace (len pre + len l + 2) with (len (pre ++ l ++ crlf)).
    2: { rewrite !len_app. change (len crlf) with 2. lia. }
    apply IH; [ | done | done]. by rewrite <- !app_assoc.
Qed.

Lemma NewBody_layout ls last :
  Forall plain ls -> plain last ->
  NewBody (unlines ls ++ last) (layout 0 0 (segments ls last)) = Ret (body_of ls last).
Proof.
  intros Hls Hlast. unfold NewBody.
  change 0 with (len (@nil byte)) at 2 3.
  rewrite (checkBodyLines_layout (unlines ls ++ last) []) by done. cbn [obind].
  rewrite Z.eqb_refl, andb_false_r. done.
Qed.

(** [buildBody] on strict CRLF input, on every branch. *)
Definition bodyError (options : ParserOptions) (bodyOffset : Z) (ls : list bytes) (last : bytes)
    : option ParserError :=
  if len (segments ls last) <=? MaxBodyLines options
  then longLineError options bodyOffset 0 (segments ls last)
  else Some (limitError
         (MkLoc (bodyOffset + len (unlines (take (Z.to_nat (MaxBodyLines options)) ls))) 0 0)
         "max_body_lines" (MaxBodyLines options)).

Lemma buildBody_strict options bodyOffset ls last :
  Forall plain ls -> plain last -> 0 <= MaxBodyLines options ->
  buildBody (unlines ls ++ last) options bodyOffset =
  match bodyError options bodyOffset ls last with
  | Some e => Fail e
  | None => Ret (body_of ls last)
  end.
Proof.
  intros Hls Hlast Hmax. unfold buildBody, indexBodyLines, bodyError.
  destruct (decide (unlines ls ++ last = [])) as [E | Hne].
  - apply app_eq_nil in E as [E ->].
    destruct ls as [|l ls]; [ | rewrite unlines_cons in E; by destruct l].
    cbn. by rewrite (proj2 (Z.leb_le 0 _)).
  - unfold countBodyLinesWithinLimit. change 0%nat with (length (@nil byte)).
    rewrite (countLoop_spec (unlines ls ++ last) _ [] ls last) by (done || lia).
    rewrite Z.add_0_l, Z.sub_0_r.
    destruct (Z.leb_spec (len (segments ls last)) (MaxBodyLines options)); cbn [obind require].
    + rewrite (indexLoop_spec (unlines ls ++ last) _ _ _ [] ls last) by (done || lia).
      change (len (@nil byte)) with 0. destruct (longLineError _ _ _ _); [done | ]. cbn [app obind].
      rewrite NewBodyLineIndex_layout. cbn [obind]. by apply NewBody_layout.
    + done.
Qed.

(** ** No panics and termination, for arbitrary bytes *)
Definition wf_line (l : BodyLine) : Prop :=
  0 <= startOffset l <= endOffset l /\ (lineEndingWidth l = 0 \/ lineEndingWidth l = 2).

Lemma NewBodyLine_wf i a b w l : NewBodyLine i a b w = Ret l -> wf_line l.
Proof.
  unfold NewBodyLine, wf_line. intros H. ret_inv H. simpl.
  change (len crlf) with 2 in *. lia.
Qed.

Lemma NewBodyLine_no_crash i a b w : no_crash (NewBodyLine i a b w).
Proof. unfold NewBodyLine. crash_free. Qed.

Lemma tail_index_bound (data tail : bytes) (a i : nat) :
  slice_from (E := ParserError) data a = Ret tail -> bytes_index tail crlf = Some i ->
  (a + i + 2 <= length data)%nat.
Proof.
  intros [H ->]%slice_inv Hi. apply bytes_index_bound in Hi.
  rewrite length_take, length_drop in Hi. simpl in Hi. lia.
Qed.

Lemma countLoop_no_crash fuel data maxLines cnt start :
  (length data < fuel + start)%nat -> (0 < fuel)%nat ->
  no_crash (countLoop fuel data maxLines cnt start).
Proof.
  revert cnt start. induction fuel as [|fuel IH]; intros cnt start Hf Hpos; [lia | ].
  cbn [countLoop]. destruct (Nat.ltb_spec start (length data)); simpl; [ | done].
  destruct (maxLines <=? cnt); [done | ].
  apply obind_no_crash; [apply slice_from_no_crash; lia | ]. intros tail Htail.
  destruct (bytes_index tail crlf) as [i|] eqn:Ei; [ | done].
  pose proof (tail_index_bound _ _ _ _ Htail Ei). apply IH; lia.
Qed.

Lemma indexLoop_no_crash fuel data o off i start acc :
  (length data < fuel + start)%nat -> (0 < fuel)%nat ->
  no_crash (indexLoop fuel data o off i start acc).
Proof.
  revert i start acc. induction fuel as [|fuel IH]; intros i start acc Hf Hpos; [lia | ].
  cbn [indexLoop]. destruct (Nat.ltb_spec start (length data)); simpl; [ | done].
  apply obind_no_crash; [apply slice_from_no_crash; lia | ]. intros tail Htail.
  pose proof (tail_index_bound data tail start) as Hb.
  destruct (bytes_index tail crlf) as [rel|]; crash_free; try apply NewBodyLine_no_crash.
  apply IH; [ | lia]. specialize (Hb _ Htail eq_refl). simpl. lia.
Qed.

Lemma indexLoop_wf fuel data o off i start acc ls :
  Forall wf_line acc -> indexLoop fuel data o off i start acc = Ret ls -> Forall wf_line ls.
Proof.
  revert i start acc. induction fuel as [|fuel IH]; intros i start acc Hacc; [done | ].
  cbn [indexLoop]. destruct (negb _); [by intros [= <-] | ]. intros H.
  apply obind_ret_inv in H as (tail & _ & H).
  destruct (match bytes_index tail crlf with Some _ => _ | None => _ end) as [lineEnd width].
  apply obind_ret_inv in H as (? & _ & H). apply obind_ret_inv in H as (line & Hl & H).
  apply NewBodyLine_wf in Hl.
  assert (Forall wf_line (acc ++ [line])) by (apply Forall_app; split; [done | by constructor]).
  destruct (width =? 0)%nat; [by injection H as <- | by eapply IH].
Qed.

Lemma indexBodyLines_no_crash data o off : no_crash (indexBodyLines data o off).
Proof.
  unfold indexBodyLines. destruct (decide _); [done | ]. apply obind_no_crash.
  - apply countLoop_no_crash; lia.
  - intros [[c ov] w] _. crash_free. apply indexLoop_no_crash; lia.
Qed.

Lemma indexBodyLines_wf data o off ls : indexBodyLines data o off = Ret ls -> Forall wf_line ls.
Proof.
  unfold indexBodyLines. destruct (decide _); [by intros [= <-] | ]. intros H.
  apply obind_ret_inv in H as ([[c ov] w] & _ & H). apply obind_ret_inv in H as (? & _ & H).
  by eapply indexLoop_wf.
Qed.

Lemma checkLineIndex_no_crash ls i p : no_crash (checkLineIndex ls i p).
Proof. revert i p. induction ls; intros i p; simpl; crash_free. Qed.

Lemma checkBodyLines_no_crash ls data next :
  Forall wf_line ls -> no_crash (checkBodyLines ls data next).
Proof.
  intros H. revert next. induction H as [|l ls (Hse & Hw) _ IH]; intros next; simpl; [done | ].
  apply obind_no_crash; [apply require_no_crash | ]. intros ? Hr. apply require_ret_inv in Hr.
  assert (endOffset l + lineEndingWidth l <= len data) as Hle.
  { apply negb_true_iff, orb_false_iff in Hr as [_ Hr]. by apply Z.ltb_ge in Hr. }
  crash_free; try (apply zslice_no_crash; lia).
Qed.

Lemma NewBody_no_crash data ls : Forall wf_line ls -> no_crash (NewBody data ls).
Proof. intros H. unfold NewBody. crash_free. by apply checkBodyLines_no_crash. Qed.

Lemma NewBodyLineIndex_inv ls ix : NewBodyLineIndex ls = Ret ix -> ix = ls.
Proof. unfold NewBodyLineIndex. intros H. by ret_inv H. Qed.

Lemma buildBody_no_crash data o off : no_crash (buildBody data o off).
Proof.
  unfold buildBody. apply obind_no_crash; [apply indexBodyLines_no_crash | ]. intros ls Hls.
  apply obind_no_crash; [unfold NewBodyLineIndex; crash_free; apply checkLineIndex_no_crash | ].
  intros ix ->%NewBodyLineIndex_inv. apply NewBody_no_crash. by eapply indexBodyLines_wf.
Qed.

(** What [NewBody] and [buildBody] return on success. *)
Lemma NewBody_inv data ls b :
  NewBody data ls = Ret b -> b = MkBody data ls true.
Proof. unfold NewBody. intros H. by ret_inv H. Qed.

Lemma buildBody_inv data o off b :
  buildBody data o off = Ret b ->
  body_bytes b = data /\ body_initialized b = true /\ Forall wf_line (body_lines b).
Proof.
  unfold buildBody. intros H. apply obind_ret_inv in H as (ls & Hls & H).
  apply obind_ret_inv in H as (ix & ->%NewBodyLineIndex_inv & H).
  apply NewBody_inv in H as ->. split_and!; [done | done | ]. by eapply indexBodyLines_wf.
Qed.
#[export] Hint Resolve buildBody_no_crash checkLineIndex_no_crash NewBody_no_crash : go.
