(* ===== verification/RawParser.v ===== *)
(** * Package internal/rawmsg: the message parser (parser.go, message.go)

    [enforceStrictCRLF], the header-block loop and [ParseWithOptions] with the
    validating constructor [NewMessage]. *)

From S2P Require Import Prelude GoBytes RawMsg RawBody.
#[local] Open Scope Z_scope.

(** ** Line-ending policy *)
Record LineScan := MkScan {
  sawCRLF : bool; sawBareLF : bool; sawBareCR : bool;
  firstBareLF : ErrorLocation; firstBareCR : ErrorLocation; ls_line : Z; ls_column : Z }.
Definition initScan : LineScan := MkScan false false false noLoc noLoc 1 1.

Definition scanCRLF (s : LineScan) : LineScan :=
  MkScan true (sawBareLF s) (sawBareCR s) (firstBareLF s) (firstBareCR s) (ls_line s + 1) 1.
Definition scanBareCR (offset : Z) (s : LineScan) : LineScan :=
  MkScan (sawCRLF s) (sawBareLF s) true (firstBareLF s)
    (if sawBareCR s then firstBareCR s else MkLoc offset (ls_line s) (ls_column s))
    (ls_line s) (ls_column s + 1).
Definition scanBareLF (offset : Z) (s : LineScan) : LineScan :=
  MkScan (sawCRLF s) true (sawBareCR s)
    (if sawBareLF s then firstBareLF s else MkLoc offset (ls_line s) (ls_column s))
    (firstBareCR s) (ls_line s + 1) 1.
Definition scanOther (s : LineScan) : LineScan :=
  MkScan (sawCRLF s) (sawBareLF s) (sawBareCR s) (firstBareLF s) (firstBareCR s)
    (ls_line s) (ls_column s + 1).

(** The scan loop of enforceStrictCRLF. *)
Fixpoint scanLines (data : bytes) (offset : Z) (s : LineScan) : LineScan :=
  match data with
  | [] => s
  | b :: rest =>
      if b =?b CR then
        match rest with
        | b2 :: rest' =>
            if b2 =?b LF then scanLines rest' (offset + 2) (scanCRLF s)
            else scanLines rest (offset + 1) (scanBareCR offset s)
        | [] => scanBareCR offset s
        end
      else if b =?b LF then scanLines rest (offset + 1) (scanBareLF offset s)
      else scanLines rest (offset + 1) (scanOther s)
  end.

Definition firstLineEndingLocation (lf cr : ErrorLocation) : ErrorLocation :=
  if decide (lf = noLoc) then cr
  else if decide (cr = noLoc) then lf
  else if Offset lf <? Offset cr then lf else cr.

Definition policyDetails (options : ParserOptions) : ParserErrorDetails :=
  MkDetails ErrorReasonPolicy (OptLineEndingPolicy options) "" 0.

Definition enforceStrictCRLF (data : bytes) (options : ParserOptions) : outcome ParserError unit :=
  let s := scanLines data 0 initScan in
  if (sawBareLF s || sawBareCR s) && (sawCRLF s || sawBareLF s && sawBareCR s) then
    Fail (NewParserError ErrorCodeMixedLineEndings
            (firstLineEndingLocation (firstBareLF s) (firstBareCR s)) (policyDetails options))
  else if sawBareLF s then
    Fail (NewParserError ErrorCodeBareLF (firstBareLF s) (policyDetails options))
  else if sawBareCR s then
    Fail (NewParserError ErrorCodeBareCR (firstBareCR s) (policyDetails options))
  else Ret tt.

(** ** Header block parsing *)

Definition buildHeaderField (index : Z) (headerBytes : bytes) (start end_ : nat)
    (options : ParserOptions) : outcome ParserError HeaderField :=
  check require (negb ((end_ <=? start)%nat
                       || (MaxHeaderFieldBytes options <? Z.of_nat (end_ - start))))
    (limitError (MkLoc (Z.of_nat start) 0 0) "max_header_field_bytes"
       (MaxHeaderFieldBytes options)) ;;
  let* original := slice headerBytes start end_ in
  match bytes_cut original crlf with
  | None => Fail (malformedHeaderError (Z.of_nat start) 0 0)
  | Some (firstLine, _) =>
      match index_byte firstLine x3a with
      | None => Fail (malformedHeaderError (Z.of_nat start) 0 1)
      | Some colon =>
          let* rawName := slice firstLine 0 colon in
          match invalidHeaderFieldNameOffset rawName with
          | Some invalidOffset =>
              Fail (malformedHeaderError (Z.of_nat (start + invalidOffset)) 0
                      (Z.of_nat (invalidOffset + 1)))
          | None =>
              let* rawValue := zslice original (Z.of_nat colon + 1) (len original - len crlf) in
              NewHeaderField index rawName rawValue (unfoldHeaderValue rawValue) original
          end
      end
  end.

(** Loop state of parseHeaderBlock; [hp_start] is currentStart with Go's -1 as [None]. *)
Record HeaderParse := MkHP {
  hp_fields : list HeaderField; hp_start : option nat; hp_end : nat;
  hp_lineStart : nat; hp_lineNumber : Z }.

Definition maxFieldsError (options : ParserOptions) (offset : nat) (line : Z) : ParserError :=
  limitError (MkLoc (Z.of_nat offset) line 1) "max_header_fields" (MaxHeaderFields options).

(** Close the current field: build it, append it, and check the field limit. *)
Definition closeField (headerBytes : bytes) (options : ParserOptions) (fields : list HeaderField)
    (start end_ : nat) (errOffset : nat) (line : Z) : outcome ParserError (list HeaderField) :=
  let* field := buildHeaderField (len fields) headerBytes start end_ options in
  let fields := fields ++ [field] in
  check require (negb (MaxHeaderFields options <? len fields))
    (maxFieldsError options errOffset line) ;;
  Ret fields.

(** The body of the line loop for one physical line [line]. *)
Definition headerLineStep (headerBytes : bytes) (options : ParserOptions) (line : bytes)
    (lineEnd : nat) (st : HeaderParse) : outcome ParserError HeaderParse :=
  check require (negb (MaxHeaderLineBytes options <? len line))
    (limitError (MkLoc (Z.of_nat (hp_lineStart st)) (hp_lineNumber st) 1)
       "max_header_line_bytes" (MaxHeaderLineBytes options)) ;;
  check require (negb (bool_decide (line = [])))
    (malformedHeaderError (Z.of_nat (hp_lineStart st)) (hp_lineNumber st) 1) ;;
  let* first := index_at line 0 in
  let next := (lineEnd + length crlf)%nat in
  if isWSP first then
    match hp_start st with
    | None => Fail (malformedHeaderError (Z.of_nat (hp_lineStart st)) (hp_lineNumber st) 1)
    | Some start => Ret (MkHP (hp_fields st) (Some start) next next (hp_lineNumber st + 1))
    end
  else
    let* fields :=
      match hp_start st with
      | Some start =>
          closeField headerBytes options (hp_fields st) start (hp_end st) (hp_lineStart st)
            (hp_lineNumber st)
      | None => Ret (hp_fields st)
      end in
    Ret (MkHP fields (Some (hp_lineStart st)) next next (hp_lineNumber st + 1)).

Fixpoint headerLoop (fuel : nat) (headerBytes : bytes) (options : ParserOptions)
    (st : HeaderParse) : outcome ParserError HeaderParse :=
  match fuel with
  | O => Crash
  | S fuel =>
      if negb (hp_lineStart st <? length headerBytes)%nat then Ret st
      else
        let* tail := slice_from headerBytes (hp_lineStart st) in
        match bytes_index tail crlf with
        | None => Fail (malformedHeaderError (Z.of_nat (hp_lineStart st)) (hp_lineNumber st) 1)
        | Some lineEndRel =>
            let lineEnd := (hp_lineStart st + lineEndRel)%nat in
            let* line := slice headerBytes (hp_lineStart st) lineEnd in
            let* st' := headerLineStep headerBytes options line lineEnd st in
            headerLoop fuel headerBytes options st'
        end
  end.

Definition initHP : HeaderParse := MkHP [] None 0 0 1.

Definition parseHeaderBlock (headerBytes : bytes) (options : ParserOptions)
    : outcome ParserError HeaderBlock :=
  check require (negb (bool_decide (headerBytes = []))) (malformedHeaderError 0 1 1) ;;
  let* st := headerLoop (S (length headerBytes)) headerBytes options initHP in
  match hp_start st with
  | None => Fail (malformedHeaderError 0 1 1)
  | Some start =>
      let* fields := closeField headerBytes options (hp_fields st) start (hp_end st) start
                       (hp_lineNumber st) in
      NewHeaderBlock fields headerBytes
  end.

(** ** Messages (message.go) *)
Inductive MessageFraming :=
  | MessageFramingHeaderOnly | MessageFramingDelimited | MessageFramingOther (name : string).

Definition MessageFraming_Known (f : MessageFraming) : bool :=
  match f with
  | MessageFramingHeaderOnly | MessageFramingDelimited => true
  | MessageFramingOther _ => false
  end.
#[export] Instance MessageFraming_eq_dec : EqDecision MessageFraming.
Proof. solve_decision. Defined.

Record Message := MkMessage {
  rawBytes : bytes; headers : HeaderBlock; body : Body; metadata : ParserMetadata }.

Definition matchesMessageComponents (rawBytes headerBytes bodyBytes : bytes) : bool :=
  if bool_decide (bodyBytes = []) && bytes_equal rawBytes headerBytes then true
  else
    let expectedLength := (length headerBytes + length crlf + length bodyBytes)%nat in
    if negb (length rawBytes =? expectedLength)%nat
       || negb (bytes_equal (take (length headerBytes) rawBytes) headerBytes) then false
    else
      let delimiterEnd := (length headerBytes + length crlf)%nat in
      bytes_equal (take (delimiterEnd - length headerBytes) (drop (length headerBytes) rawBytes)) crlf
      && bytes_equal (drop delimiterEnd rawBytes) bodyBytes.

Definition metadataMatches (m : ParserMetadata) (rawBytes : bytes) (h : HeaderBlock) (b : Body)
    : bool :=
  bool_decide (MetaLineEndingPolicy m = LineEndingPolicyStrictCRLF)
  && negb (NormalizedInput m) && (OriginalBytes m =? len rawBytes)
  && (StoredBytes m =? len rawBytes) && (HeaderBytes m =? len (hb_originalBytes h))
  && (HeaderFields m =? HeaderBlock_Len h) && (BodyBytes m =? Body_Len b).

Definition NewMessage (raw : bytes) (h : HeaderBlock) (b : Body) (m : ParserMetadata)
    : outcome ParserError Message :=
  check require (negb (bool_decide (raw = []))) invariantError ;;
  check require (hb_initialized h && body_initialized b) invariantError ;;
  let* validatedHeaders := NewHeaderBlock (hb_fields h) (hb_originalBytes h) in
  let* validatedBody := NewBody (body_bytes b) (body_lines b) in
  check require (matchesMessageComponents raw (hb_originalBytes validatedHeaders)
                   (body_bytes validatedBody)) invariantError ;;
  check require (metadataMatches m raw validatedHeaders validatedBody) invariantError ;;
  Ret (MkMessage raw validatedHeaders validatedBody m).

Definition Message_Initialized (m : Message) : bool :=
  (0 <? len (rawBytes m)) && hb_initialized (headers m) && body_initialized (body m).

(** [None] is Go's empty framing of an uninitialized message. *)
Definition Message_Framing (m : Message) : option MessageFraming :=
  if negb (Message_Initialized m) then None
  else if bool_decide (body_bytes (body m) = [])
          && bytes_equal (rawBytes m) (hb_originalBytes (headers m))
       then Some MessageFramingHeaderOnly
       else Some MessageFramingDelimited.

(** ** ParseWithOptions *)
Definition strictHeaderBodyDelimiter : bytes := crlf ++ crlf.

Definition missingDelimiterError (options : ParserOptions) : ParserError :=
  NewParserError ErrorCodeMissingDelimiter noLoc (policyDetails options).

(** Header bytes, body bytes and body offset of the raw message. *)
Definition splitMessage (data : bytes) (options : ParserOptions)
    : outcome ParserError (bytes * bytes * Z) :=
  match bytes_index data strictHeaderBodyDelimiter with
  | Some off =>
      let* headerBytes := slice data 0 (off + length crlf) in
      let* bodyBytes := slice_from data (off + length strictHeaderBodyDelimiter) in
      Ret (headerBytes, bodyBytes, Z.of_nat off + len strictHeaderBodyDelimiter)
  | None =>
      check require (has_suffix data crlf) (missingDelimiterError options) ;;
      Ret (data, [], -1 + len strictHeaderBodyDelimiter)
  end.

Definition ParseWithOptions (data : bytes) (options : ParserOptions)
    : outcome ParserError Message :=
  check ParserOptions_Validate options ;;
  check require (bool_decide (OptLineEndingPolicy options = LineEndingPolicyStrictCRLF))
    (unsupportedPolicyError (OptLineEndingPolicy options)) ;;
  check require (negb (MaxMessageBytes options <? len data))
    (limitError noLoc "max_message_bytes" (MaxMessageBytes options)) ;;
  check enforceStrictCRLF data options ;;
  let* (headerBytes, bodyBytes, bodyOffset) := splitMessage data options in
  check require (negb (bool_decide (headerBytes = []))) (malformedHeaderError 0 1 1) ;;
  check require (negb (MaxHeaderBytes options <? len headerBytes))
    (limitError noLoc "max_header_bytes" (MaxHeaderBytes options)) ;;
  let* headers := parseHeaderBlock headerBytes options in
  let* body := buildBody bodyBytes options bodyOffset in
  let metadata :=
    NewParserMetadata (OptLineEndingPolicy options) false (len data) (len data)
      (len headerBytes) (HeaderBlock_Len headers) (len bodyBytes) in
  NewMessage data headers body metadata.

Definition Parse (data : bytes) : outcome ParserError Message :=
  ParseWithOptions data DefaultParserOptions.

(** ** Strict CRLF text

    [strict data] states that every CR is followed by LF and every LF
    preceded by CR, as terminated plain lines and a plain rest. *)
Definition strict (data : bytes) : Prop :=
  exists ls last, Forall plain ls /\ plain last /\ data = unlines ls ++ last.

Definition has_crlf (data : bytes) : Prop := exists p t, data = p ++ crlf ++ t.
Definition bare_lf (data : bytes) : Prop :=
  exists p t, data = p ++ LF :: t /\ last p <> Some CR.
Definition bare_cr (data : bytes) : Prop :=
  exists p t, data = p ++ CR :: t /\ head t <> Some LF.

Lemma strict_nil : strict [].
Proof. exists [], []. repeat constructor. Qed.
Lemma strict_crlf data : strict data -> strict (CR :: LF :: data).
Proof.
  intros (ls & last & H1 & H2 & ->). exists ([] :: ls), last.
  split; [by constructor; [constructor | ] | ]. split; [done | ]. by rewrite unlines_cons.
Qed.
Lemma strict_other b data : plain_byte b = true -> strict data -> strict (b :: data).
Proof.
  intros Hb (ls & last & H1 & H2 & ->). destruct ls as [|l ls].
  - exists [], (b :: last). split; [done | ]. split; [by apply plain_cons | done].
  - apply Forall_cons in H1 as [H0 H1]. exists ((b :: l) :: ls), last.
    split; [constructor; [by apply plain_cons | done] | ]. split; [done | ].
    by rewrite !unlines_cons.
Qed.

(** Induction over a byte string the way [scanLines] consumes it. *)
Lemma scan_ind (P : bytes -> Prop) :
  P [] ->
  (forall d, P d -> P (CR :: LF :: d)) ->
  (forall d, head d <> Some LF -> P d -> P (CR :: d)) ->
  (forall d, P d -> P (LF :: d)) ->
  (forall b d, plain_byte b = true -> P d -> P (b :: d)) ->
  forall d, P d.
Proof.
  intros H0 H1 H2 H3 H4 d. remember (length d) as n eqn:Hn.
  assert (length d <= n)%nat as Hle by lia. clear Hn. revert d Hle.
  induction n as [|n IH]; intros d Hle; [by destruct d; simpl in Hle; [ | lia] | ].
  destruct d as [|b d]; [done | ]. simpl in Hle.
  destruct (byte_eqb_spec b CR) as [-> | Hcr].
  - destruct d as [|c d]; [apply H2; [done | apply H0] | ].
    destruct (byte_eqb_spec c LF) as [-> | Hlf].
    + apply H1, IH. simpl in Hle. lia.
    + apply H2; [naive_solver | ]. apply IH. lia.
  - destruct (byte_eqb_spec b LF) as [-> | Hlf]; [apply H3, IH; lia | ].
    apply H4; [by apply plain_byte_spec | apply IH; lia].
Qed.

(** Equations of [scanLines] along that induction. *)
Lemma scanLines_bare_cr d off s :
  head d <> Some LF -> scanLines (CR :: d) off s = scanLines d (off + 1) (scanBareCR off s).
Proof.
  intros H. destruct d as [|c d]; [done | ]. cbn [scanLines].
  rewrite byte_eqb_refl, (proj2 (byte_eqb_ne c LF)) by naive_solver. done.
Qed.
Lemma scanLines_other b d off s :
  plain_byte b = true -> scanLines (b :: d) off s = scanLines d (off + 1) (scanOther s).
Proof.
  intros [H1 H2]%plain_byte_spec. cbn [scanLines].
  by rewrite (proj2 (byte_eqb_ne b CR)), (proj2 (byte_eqb_ne b LF)).
Qed.

(** Decomposition of the three specifications along the same induction. *)
Lemma bare_lf_cons b d : b <> CR -> b <> LF -> bare_lf (b :: d) <-> bare_lf d.
Proof.
  intros Hcr Hlf. split.
  - intros ([|x p] & t & E & Hp); simplify_eq/=.
    exists p, t. split; [done | ]. by destruct p.
  - intros (p & t & -> & Hp). exists (b :: p), t. split; [done | ].
    destruct p; [simpl; congruence | done].
Qed.
Lemma bare_lf_lf d : bare_lf (LF :: d).
Proof. by exists [], d. Qed.
Lemma bare_lf_cr d : head d <> Some LF -> bare_lf (CR :: d) <-> bare_lf d.
Proof.
  intros Hd. split.
  - intros ([|x p] & t & E & Hp); simplify_eq/=.
    exists p, t. split; [done | ]. by destruct p.
  - intros (p & t & -> & Hp). exists (CR :: p), t. split; [done | ].
    by destruct p; [simpl in Hd | ].
Qed.
Lemma bare_lf_crlf d : bare_lf (CR :: LF :: d) <-> bare_lf d.
Proof.
  split.
  - intros ([|x [|y p]] & t & E & Hp); simplify_eq/=.
    exists p, t. split; [done | ]. by destruct p.
  - intros (p & t & -> & Hp). exists (CR :: LF :: p), t. split; [done | ]. by destruct p.
Qed.
Lemma bare_cr_cons b d : b <> CR -> bare_cr (b :: d) <-> bare_cr d.
Proof.
  intros Hcr. split.
  - intros ([|x p] & t & E & Ht); simplify_eq/=. by exists p, t.
  - intros (p & t & -> & Ht). by exists (b :: p), t.
Qed.
Lemma bare_cr_cr d : head d <> Some LF -> bare_cr (CR :: d).
Proof. intros H. by exists [], d. Qed.
Lemma bare_cr_crlf d : bare_cr (CR :: LF :: d) <-> bare_cr d.
Proof.
  split.
  - intros ([|x [|y p]] & t & E & Ht); simplify_eq/=. by exists p, t.
  - intros (p & t & -> & Ht). by exists (CR :: LF :: p), t.
Qed.
Lemma has_crlf_cons b d : b <> CR \/ head d <> Some LF -> has_crlf (b :: d) <-> has_crlf d.
Proof.
  intros Hb. split.
  - intros ([|x p] & t & E); simplify_eq/=; [naive_solver | ]. by exists p, t.
  - intros (p & t & ->). by exists (b :: p), t.
Qed.
Lemma has_crlf_crlf d : has_crlf (CR :: LF :: d).
Proof. by exists [], d. Qed.

(** The flags at the end of the scan are the three specifications. *)
Lemma not_bare_nil : ~ bare_lf [] /\ ~ bare_cr [] /\ ~ has_crlf [].
Proof.
  split_and!.
  - by intros ([|] & ? & ? & ?).
  - by intros ([|] & ? & ? & ?).
  - by intros ([|] & ? & ?).
Qed.

Lemma scan_flags d off s :
  (sawBareLF (scanLines d off s) = true <-> sawBareLF s = true \/ bare_lf d) /\
  (sawBareCR (scanLines d off s) = true <-> sawBareCR s = true \/ bare_cr d) /\
  (sawCRLF (scanLines d off s) = true <-> sawCRLF s = true \/ has_crlf d).
Proof.
  revert off s. induction d as [|d IH|d Hd IH|d IH|b d Hb IH] using scan_ind; intros off s.
  - destruct not_bare_nil as (?&?&?). simpl. tauto.
  - change (scanLines (CR :: LF :: d) off s) with (scanLines d (off + 2) (scanCRLF s)).
    destruct (IH (off + 2) (scanCRLF s)) as (-> & -> & ->). simpl.
    rewrite bare_lf_crlf, bare_cr_crlf. pose proof (has_crlf_crlf d). tauto.
  - rewrite scanLines_bare_cr by done.
    destruct (IH (off + 1) (scanBareCR off s)) as (-> & -> & ->). simpl.
    rewrite bare_lf_cr, has_crlf_cons by auto. pose proof (bare_cr_cr d Hd). tauto.
  - change (scanLines (LF :: d) off s) with (scanLines d (off + 1) (scanBareLF off s)).
    destruct (IH (off + 1) (scanBareLF off s)) as (-> & -> & ->). simpl.
    rewrite bare_cr_cons, has_crlf_cons by (try left; done).
    pose proof (bare_lf_lf d). tauto.
  - rewrite scanLines_other by done. apply plain_byte_spec in Hb as [H1 H2].
    destruct (IH (off + 1) (scanOther s)) as (-> & -> & ->). simpl.
    by rewrite bare_lf_cons, bare_cr_cons, has_crlf_cons by auto.
Qed.

Lemma strict_spec d : strict d <-> ~ bare_lf d /\ ~ bare_cr d.
Proof.
  split.
  - intros (ls & last & Hls & Hlast & ->). induction Hls as [|l ls Hl _ IH].
    + change (unlines []) with (@nil byte). cbn [app].
      induction Hlast as [|b d Hb _ IH]; [split; apply not_bare_nil | ].
      apply plain_byte_spec in Hb as [??]. by rewrite bare_lf_cons, bare_cr_cons.
    + rewrite unlines_cons, <- !app_assoc.
      induction Hl as [|b l Hb _ IHl]; cbn [app crlf].
      * by rewrite bare_lf_crlf, bare_cr_crlf.
      * apply plain_byte_spec in Hb as [??]. by rewrite bare_lf_cons, bare_cr_cons.
  - induction d as [|d IH|d Hd IH|d IH|b d Hb IH] using scan_ind.
    + intros _. apply strict_nil.
    + rewrite bare_lf_crlf, bare_cr_crlf. intros H. by apply strict_crlf, IH.
    + intros [_ H]. destruct H. by apply bare_cr_cr.
    + intros [H _]. destruct H. apply bare_lf_lf.
    + intros H. apply strict_other; [done | ]. apply IH.
      apply plain_byte_spec in Hb as [??]. by rewrite bare_lf_cons, bare_cr_cons in H.
Qed.

Lemma scan_final d :
  (sawBareLF (scanLines d 0 initScan) = true <-> bare_lf d) /\
  (sawBareCR (scanLines d 0 initScan) = true <-> bare_cr d) /\
  (sawCRLF (scanLines d 0 initScan) = true <-> has_crlf d).
Proof. destruct (scan_flags d 0 initScan) as (-> & -> & ->). simpl. naive_solver. Qed.

Lemma enforceStrictCRLF_ret d options : enforceStrictCRLF d options = Ret tt <-> strict d.
Proof.
  rewrite strict_spec. unfold enforceStrictCRLF.
  destruct (scan_final d) as (<- & <- & _).
  destruct (sawBareLF _), (sawBareCR _), (sawCRLF _); simpl; naive_solver.
Qed.

(** The line-ending check accepts exactly strict CRLF text and otherwise
    names what it saw: both kinds of bare ending or a bare ending next to a
    CRLF is "mixed", a lone kind is reported as bare LF or bare CR. *)
Theorem enforceStrictCRLF_classifies d options :
  match enforceStrictCRLF d options with
  | Ret _ => strict d
  | Fail e =>
      match err_code e with
      | ErrorCodeMixedLineEndings =>
          (bare_lf d \/ bare_cr d) /\ (has_crlf d \/ bare_lf d /\ bare_cr d)
      | ErrorCodeBareLF => bare_lf d /\ ~ bare_cr d /\ ~ has_crlf d
      | ErrorCodeBareCR => bare_cr d /\ ~ bare_lf d /\ ~ has_crlf d
      | _ => False
      end
  | Crash => False
  end.
Proof.
  pose proof (enforceStrictCRLF_ret d options) as Hs. revert Hs. unfold enforceStrictCRLF.
  pose proof (scan_final d) as (H1 & H2 & H3). revert H1 H2 H3.
  destruct (sawBareLF _), (sawBareCR _), (sawCRLF _); simpl; intuition (done || congruence).
Qed.

(** ** No panics and termination, for arbitrary bytes *)
Lemma enforceStrictCRLF_no_crash d o : no_crash (enforceStrictCRLF d o).
Proof. unfold enforceStrictCRLF. crash_free. Qed.

Lemma NewHeaderField_no_crash i n v u b : no_crash (NewHeaderField i n v u b).
Proof. unfold NewHeaderField. crash_free. Qed.

Lemma bytes_cut_bound s a b c i :
  bytes_cut s crlf = Some (a, b) -> index_byte a c = Some i -> (i + 3 <= length s)%nat.
Proof.
  unfold bytes_cut. destruct (bytes_index s crlf) as [j|] eqn:Ej; [ | done].
  intros [= <- <-] Hi. apply bytes_index_bound in Ej. simpl in Ej.
  apply index_byte_Some in Hi as [Hi _].
  apply (f_equal length) in Hi. rewrite length_app, !length_take in Hi. simpl in Hi. lia.
Qed.

Lemma buildHeaderField_no_crash i hb a b o :
  (b <= length hb)%nat -> no_crash (buildHeaderField i hb a b o).
Proof.
  intros Hb. unfold buildHeaderField. apply obind_no_crash; [apply require_no_crash | ].
  intros ? Hr. apply require_ret_inv, negb_true_iff, orb_false_iff in Hr as [Hr _].
  apply Nat.leb_gt in Hr. apply obind_no_crash; [apply slice_no_crash; lia | ].
  intros original _. destruct (bytes_cut original crlf) as [[line rest]|] eqn:Ec; [ | done].
  destruct (index_byte line x3a) as [colon|] eqn:Ei; [ | done].
  pose proof (bytes_cut_bound _ _ _ _ _ Ec Ei) as Hlen.
  apply index_byte_Some in Ei as [Ei _]. apply (f_equal length) in Ei.
  rewrite length_app, length_take in Ei. simpl in Ei.
  apply obind_no_crash; [apply slice_no_crash; lia | ]. intros n _.
  destruct (invalidHeaderFieldNameOffset n); [done | ].
  apply obind_no_crash; [ | intros; apply NewHeaderField_no_crash].
  apply zslice_no_crash; [ | unfold len; simpl; lia]. unfold len. simpl. lia.
Qed.

Definition in_block (hb : bytes) (st : HeaderParse) : Prop :=
  (hp_lineStart st <= length hb)%nat /\ (hp_end st <= length hb)%nat.

Lemma closeField_no_crash hb o fs a b off ln :
  (b <= length hb)%nat -> no_crash (closeField hb o fs a b off ln).
Proof. intros H. unfold closeField. crash_free. by apply buildHeaderField_no_crash. Qed.

Lemma headerLineStep_safe hb o l lineEnd st :
  in_block hb st -> no_crash (headerLineStep hb o l lineEnd st).
Proof.
  intros [_ He]. unfold headerLineStep. apply obind_no_crash; [apply require_no_crash | ].
  intros _ _. apply obind_no_crash; [apply require_no_crash | ]. intros ? Hl.
  apply require_ret_inv, negb_true_iff, bool_decide_eq_false in Hl.
  apply obind_no_crash; [apply index_at_no_crash; destruct l; [done | simpl; lia] | ].
  intros w _. crash_free. by apply closeField_no_crash.
Qed.

Lemma headerLineStep_next hb o l lineEnd st st' :
  headerLineStep hb o l lineEnd st = Ret st' ->
  hp_lineStart st' = (lineEnd + 2)%nat /\ hp_end st' = (lineEnd + 2)%nat.
Proof.
  unfold headerLineStep. intros H.
  apply obind_ret_inv in H as (? & _ & H). apply obind_ret_inv in H as (? & _ & H).
  apply obind_ret_inv in H as (w & _ & H). destruct (isWSP w).
  - destruct (hp_start st); [ | done]. by injection H as <-.
  - apply obind_ret_inv in H as (fs & _ & H). by injection H as <-.
Qed.

Lemma headerLoop_safe fuel hb o st :
  in_block hb st -> (length hb < fuel + hp_lineStart st)%nat -> (0 < fuel)%nat ->
  no_crash (headerLoop fuel hb o st) /\
  forall st', headerLoop fuel hb o st = Ret st' -> in_block hb st'.
Proof.
  revert st. induction fuel as [|fuel IH]; intros st Hin Hf Hpos; [lia | ].
  cbn [headerLoop]. destruct (Nat.ltb_spec (hp_lineStart st) (length hb)); simpl.
  2: { split; [done | ]. by intros st' [= <-]. }
  destruct (slice_from hb (hp_lineStart st)) as [tail| |] eqn:Htail; simpl.
  2: done.
  2: { exfalso. eapply slice_from_no_crash; [ | exact Htail]. lia. }
  destruct (bytes_index tail crlf) as [rel|] eqn:Erel; [ | done].
  pose proof (tail_index_bound _ _ _ _ Htail Erel) as Hb.
  rewrite slice_ok by lia. cbn [obind].
  set (line := take _ _).
  pose proof (headerLineStep_safe hb o line (hp_lineStart st + rel) st Hin) as Hs.
  destruct (headerLineStep hb o line (hp_lineStart st + rel) st) as [st1| |] eqn:Hst;
    [ | done | done].
  apply headerLineStep_next in Hst as [H1 H2]. cbn [obind].
  apply IH; [split; lia | lia | lia].
Qed.

Lemma parseHeaderBlock_no_crash hb o : no_crash (parseHeaderBlock hb o).
Proof.
  unfold parseHeaderBlock. apply obind_no_crash; [apply require_no_crash | ]. intros _ _.
  destruct (headerLoop_safe (S (length hb)) hb o initHP) as [H1 H2];
    [split; simpl; lia | simpl; lia | lia | ].
  apply obind_no_crash; [done | ]. intros st Hst. apply H2 in Hst as [_ He].
  destruct (hp_start st); [ | done]. crash_free. by apply closeField_no_crash.
Qed.

Lemma splitMessage_no_crash data o : no_crash (splitMessage data o).
Proof.
  unfold splitMessage. destruct (bytes_index data _) as [i|] eqn:Ei; [ | crash_free].
  apply bytes_index_bound in Ei. simpl in Ei.
  crash_free; [apply slice_no_crash | apply slice_from_no_crash]; simpl; lia.
Qed.

Lemma NewMessage_no_crash raw h b m :
  Forall wf_line (body_lines b) -> no_crash (NewMessage raw h b m).
Proof. intros H. unfold NewMessage. crash_free. Qed.

Lemma ParserOptions_Validate_no_crash o : no_crash (ParserOptions_Validate o).
Proof. unfold ParserOptions_Validate. crash_free. Qed.
#[export] Hint Resolve enforceStrictCRLF_no_crash NewHeaderField_no_crash closeField_no_crash
  parseHeaderBlock_no_crash splitMessage_no_crash ParserOptions_Validate_no_crash : go.

Lemma ParseWithOptions_no_crash data o : no_crash (ParseWithOptions data o).
Proof.
  unfold ParseWithOptions. crash_free. apply NewMessage_no_crash.
  match goal with H : buildBody _ _ _ = Ret _ |- _ => apply buildBody_inv in H as (_ & _ & H) end.
  done.
Qed.

(** C2: parsing never panics and always ends, for any bytes and any options,
    valid or not. *)
Theorem ParseWithOptions_total data o : ParseWithOptions data o <> Crash.
Proof. apply ParseWithOptions_no_crash. Qed.

(** On strict CRLF data the body index consists of the lines of the data
    with consecutive offsets and widths; it fails exactly when there are more
    lines than allowed, at the first byte beyond the allowed lines, or else
    when a line is too long, at the start of the first such line. *)
Theorem buildBody_functional data options bodyOffset :
  strict data -> 0 <= MaxBodyLines options ->
  exists ls last, Forall plain ls /\ plain last /\ data = unlines ls ++ last /\
    buildBody data options bodyOffset =
    match bodyError options bodyOffset ls last with
    | Some e => Fail e
    | None => Ret (body_of ls last)
    end.
Proof.
  intros (ls & last & Hls & Hlast & ->) Hmax. exists ls, last. split_and!; try done.
  by apply buildBody_strict.
Qed.

Definition sample_bytes : bytes :=
  bs "A: b" ++ crlf ++ bs " c" ++ crlf ++ crlf ++ bs "hi" ++ crlf ++ bs "x".

Lemma buildBody_functional_witness :
  exists ls last, Forall plain ls /\ plain last /\ sample_bytes = unlines ls ++ last /\
    buildBody sample_bytes DefaultParserOptions 0 =
    match bodyError DefaultParserOptions 0 ls last with
    | Some e => Fail e
    | None => Ret (body_of ls last)
    end.
Proof.
  apply (buildBody_functional sample_bytes DefaultParserOptions 0).
  - apply (proj1 (enforceStrictCRLF_ret sample_bytes DefaultParserOptions)). vm_compute. reflexivity.
  - vm_compute. discriminate.
Defined.
