(* ===== verification/RawSpec.v ===== *)
(** * Specification of accepted messages and the refinement of the parser

    [msg_spec] is an abstract RFC 5322 message: header fields as a name, a
    first value line and continuation lines, and either no separator or a body
    of lines.  [encode_msg] prints it; [message_of] is the Message value the
    parser must build.  The theorems show that [ParseWithOptions] returns a
    message exactly for the encodings of well-formed specifications within
    the limits. *)

From S2P Require Import Prelude GoBytes RawMsg RawBody RawParser.
#[local] Open Scope Z_scope.

Record field_spec := MkFS { fs_name : bytes; fs_first : bytes; fs_conts : list bytes }.
Record msg_spec := MkMS { ms_fields : list field_spec; ms_body : option (list bytes * bytes) }.

Definition wf_field (f : field_spec) : Prop :=
  validHeaderFieldName (fs_name f) = true /\ plain (fs_first f) /\ Forall cont_line (fs_conts f).

Definition field_lines (f : field_spec) : list bytes :=
  (fs_name f ++ x3a :: fs_first f) :: fs_conts f.
Definition enc_field (f : field_spec) : bytes := unlines (field_lines f).
Definition enc_fields (fs : list field_spec) : bytes := unlines (concat (map field_lines fs)).
Definition enc_body (b : option (list bytes * bytes)) : bytes :=
  match b with None => [] | Some (ls, last) => crlf ++ unlines ls ++ last end.
Definition encode_msg (m : msg_spec) : bytes := enc_fields (ms_fields m) ++ enc_body (ms_body m).

Definition wf_msg (m : msg_spec) : Prop :=
  ms_fields m <> [] /\ Forall wf_field (ms_fields m) /\
  match ms_body m with None => True | Some (ls, last) => Forall plain ls /\ plain last end.

(** Limits of the options, as the parser enforces them. *)
Definition fits_header (o : ParserOptions) (fs : list field_spec) : Prop :=
  Forall (fun l => len l <= MaxHeaderLineBytes o) (concat (map field_lines fs)) /\
  Forall (fun f => len (enc_field f) <= MaxHeaderFieldBytes o) fs /\
  len fs <= MaxHeaderFields o.
Definition fits_body (o : ParserOptions) (b : option (list bytes * bytes)) : Prop :=
  match b with
  | None => True
  | Some (ls, last) =>
      len (segments ls last) <= MaxBodyLines o /\
      Forall (fun s => fits o s.1) (segments ls last)
  end.
Definition fits_msg (o : ParserOptions) (m : msg_spec) : Prop :=
  fits_header o (ms_fields m) /\ fits_body o (ms_body m) /\
  len (enc_fields (ms_fields m)) <= MaxHeaderBytes o /\ len (encode_msg m) <= MaxMessageBytes o.

Fixpoint fields_of (i : Z) (fs : list field_spec) : list HeaderField :=
  match fs with
  | [] => []
  | f :: rest => parsed_field i (fs_name f) (fs_first f) (fs_conts f) :: fields_of (i + 1) rest
  end.
Definition block_of (fs : list field_spec) : HeaderBlock :=
  MkBlock (fields_of 0 fs) (enc_fields fs) true.
Definition spec_body (b : option (list bytes * bytes)) : Body :=
  match b with None => body_of [] [] | Some (ls, last) => body_of ls last end.
Definition message_of (m : msg_spec) : Message :=
  MkMessage (encode_msg m) (block_of (ms_fields m)) (spec_body (ms_body m))
    (MkMetadata LineEndingPolicyStrictCRLF false (len (encode_msg m)) (len (encode_msg m))
       (len (enc_fields (ms_fields m))) (len (ms_fields m))
       (len (body_bytes (spec_body (ms_body m))))).

(** ** Encodings *)

Lemma enc_fields_cons f fs : enc_fields (f :: fs) = enc_field f ++ enc_fields fs.
Proof. unfold enc_fields, enc_field. simpl. apply (unlines_app (field_lines f)). Qed.
Lemma enc_fields_app fs gs : enc_fields (fs ++ gs) = enc_fields fs ++ enc_fields gs.
Proof. unfold enc_fields. by rewrite map_app, concat_app, unlines_app. Qed.
Lemma enc_field_encode f : enc_field f = encode_field (fs_name f) (fs_first f) (fs_conts f).
Proof. unfold enc_field, field_lines. by rewrite encode_field_unlines. Qed.

Lemma len_fields_of i fs : len (fields_of i fs) = len fs.
Proof.
  revert i. induction fs as [|f fs IH]; intros i; [done | ].
  cbn [fields_of]. by rewrite !len_cons, IH.
Qed.
Lemma fields_of_app i fs gs : fields_of i (fs ++ gs) = fields_of i fs ++ fields_of (i + len fs) gs.
Proof.
  revert i. induction fs as [|f fs IH]; intros i.
  - change (len (@nil field_spec)) with 0. by rewrite Z.add_0_r.
  - cbn [app fields_of]. rewrite IH, len_cons, Z.add_assoc. done.
Qed.
Lemma fields_bytes_of i fs : fields_bytes (fields_of i fs) = enc_fields fs.
Proof.
  revert i. induction fs as [|f fs IH]; intros i; [done | ].
  cbn [fields_of]. rewrite fields_bytes_cons, IH, enc_fields_cons, enc_field_encode. done.
Qed.
Lemma indexed_fields_of i fs : indexed_from i (fields_of i fs).
Proof. revert i. induction fs; intros i; constructor; auto. Qed.

Lemma valid_name_plain n : validHeaderFieldName n = true -> plain n /\ x3a ∉ n /\ n <> [].
Proof.
  intros [Hne Hn]%validHeaderFieldName_spec. split_and!; [ | | done].
  - eapply Forall_impl; [exact Hn | ]. intros b Hb. by apply invalidNameByte_false in Hb as (?&?&?).
  - intros Hin. rewrite Forall_forall in Hn. apply Hn in Hin.
    by apply invalidNameByte_false in Hin as (?&?&?).
Qed.

Lemma first_line_plain f : wf_field f -> plain (fs_name f ++ x3a :: fs_first f).
Proof.
  intros (Hn & H0 & _). apply valid_name_plain in Hn as (Hn & _).
  apply plain_app. split; [done | ]. by apply plain_cons.
Qed.
Lemma cont_plain cs : Forall cont_line cs -> Forall plain cs.
Proof. intros H. eapply Forall_impl; [exact H | ]. by intros c [? _]. Qed.
Lemma field_lines_plain f : wf_field f -> Forall plain (field_lines f).
Proof.
  intros Hf. constructor; [by apply first_line_plain | ]. apply cont_plain. apply Hf.
Qed.
Lemma fields_lines_plain fs : Forall wf_field fs -> Forall plain (concat (map field_lines fs)).
Proof.
  induction 1 as [|f fs Hf _ IH]; [done | ].
  change (Forall plain (field_lines f ++ concat (map field_lines fs))).
  apply Forall_app. split; [by apply field_lines_plain | done].
Qed.

(** ** Building one field *)
Lemma cut_field f :
  wf_field f ->
  bytes_cut (enc_field f) crlf = Some (fs_name f ++ x3a :: fs_first f, unlines (fs_conts f)).
Proof.
  intros Hf. unfold bytes_cut, enc_field, field_lines. rewrite unlines_cons.
  rewrite bytes_index_plain by by apply first_line_plain.
  rewrite take_app_length. change (length crlf) with 2%nat. rewrite <- drop_drop.
  by rewrite drop_app_length.
Qed.

Lemma buildHeaderField_ok i hb pre f post o :
  hb = pre ++ enc_field f ++ post -> 0 <= i -> wf_field f ->
  len (enc_field f) <= MaxHeaderFieldBytes o ->
  buildHeaderField i hb (length pre) (length (pre ++ enc_field f)) o =
  Ret (parsed_field i (fs_name f) (fs_first f) (fs_conts f)).
Proof.
  intros E Hi Hwf Hfit. unfold buildHeaderField. rewrite length_app.
  replace (length pre + length (enc_field f) - length pre)%nat with (length (enc_field f)) by lia.
  fold (len (enc_field f)). rewrite (proj2 (Z.ltb_ge _ _)) by lia.
  assert (enc_field f = (fs_name f ++ x3a :: fs_first f) ++ crlf ++ unlines (fs_conts f)) as Ef.
  { unfold enc_field, field_lines. by rewrite unlines_cons. }
  rewrite (proj2 (Nat.leb_gt _ _)).
  2: { rewrite Ef, length_app. simpl. lia. }
  cbn [orb negb require obind]. rewrite E, (slice_app_mid pre) by lia. cbn [obind].
  rewrite (cut_field f) by done.
  destruct Hwf as (Hn & H0 & Hc). destruct (valid_name_plain _ Hn) as (_ & Hcolon & _).
  rewrite index_byte_app by done.
  rewrite slice_ok by (rewrite length_app; lia). rewrite drop_0, Nat.sub_0_r, take_app_length.
  cbn [obind].
  unfold validHeaderFieldName in Hn. destruct (invalidHeaderFieldNameOffset _) eqn:Eoff; [done | ].
  rewrite (zslice_mid _ (fs_name f ++ [x3a]) (fold_value (fs_first f) (fs_conts f)) crlf).
  - cbn [obind]. rewrite enc_field_encode. apply NewHeaderField_ok; try done.
    unfold validHeaderFieldName. by rewrite Eoff.
  - rewrite enc_field_encode. unfold encode_field. by rewrite <- app_assoc.
  - rewrite len_app. unfold len. simpl. lia.
  - rewrite enc_field_encode. unfold encode_field. rewrite len_app, len_cons, !len_app.
    change (len [x3a]) with 1. lia.
Qed.

(** ** The header loop builds one field per specification field *)
Section header_loop.
Context (hb : bytes) (o : ParserOptions).

(** The code after the loop in parseHeaderBlock. *)
Definition finish (st : HeaderParse) : outcome ParserError HeaderBlock :=
  match hp_start st with
  | None => Fail (malformedHeaderError 0 1 1)
  | Some start =>
      let* fields := closeField hb o (hp_fields st) start (hp_end st) start (hp_lineNumber st) in
      NewHeaderBlock fields hb
  end.

(** One iteration over a plain line. *)
Lemma headerLoop_step fuel pre l rest st :
  hb = pre ++ l ++ crlf ++ rest -> plain l -> hp_lineStart st = length pre ->
  headerLoop (S fuel) hb o st =
  let* st' := headerLineStep hb o l (length pre + length l) st in headerLoop fuel hb o st'.
Proof.
  intros E Hl Hs. cbn [headerLoop]. rewrite Hs.
  destruct (line_index hb pre l rest E Hl) as (H1 & H2 & H3).
  rewrite H3, H1. cbn [negb obind]. rewrite H2.
  by rewrite E, (slice_app_mid pre l) by lia.
Qed.

Lemma headerLoop_done fuel st :
  hp_lineStart st = length hb -> headerLoop (S fuel) hb o st = Ret st.
Proof. intros Hs. cbn [headerLoop]. by rewrite Hs, Nat.ltb_irrefl. Qed.

(** Continuation lines extend the open field. *)
Lemma headerLoop_conts fuel pre conts rest acc s e ln :
  hb = pre ++ unlines conts ++ rest -> Forall cont_line conts ->
  Forall (fun l => len l <= MaxHeaderLineBytes o) conts ->
  (length (unlines conts ++ rest) < fuel)%nat -> e = length pre ->
  exists (fuel' : nat) (ln' : Z), (length rest < fuel')%nat /\
    headerLoop fuel hb o (MkHP acc (Some s) e (length pre) ln) =
    headerLoop fuel' hb o (MkHP acc (Some s) (length (pre ++ unlines conts))
                             (length (pre ++ unlines conts)) ln').
Proof.
  revert fuel pre e ln. induction conts as [|c conts IH]; intros fuel pre e ln E Hc Hm Hf ->.
  - exists fuel, ln. rewrite app_nil_r. done.
  - destruct fuel as [|fuel]; [lia | ]. apply Forall_cons in Hc as [(Hp & w & t & -> & Hw) Hc].
    apply Forall_cons in Hm as [Hm1 Hm].
    rewrite unlines_cons, <- !app_assoc in E. rewrite unlines_cons, !length_app in Hf. simpl in Hf.
    rewrite (headerLoop_step fuel pre (w :: t) (unlines conts ++ rest)) by done.
    unfold headerLineStep. rewrite (proj2 (Z.ltb_ge _ _)) by lia.
    rewrite bool_decide_eq_false_2 by done. cbn [negb require obind].
    change (index_at (w :: t) 0) with (Ret (E := ParserError) w). cbn [obind].
    rewrite Hw. cbn [hp_start obind].
    destruct (IH fuel (pre ++ (w :: t) ++ crlf) (length (pre ++ (w :: t) ++ crlf)) (ln + 1))
      as (fuel' & ln' & Hf' & Heq).
    + by rewrite <- !app_assoc.
    + done.
    + done.
    + rewrite length_app. lia.
    + done.
    + exists fuel', ln'. split; [done | ]. rewrite unlines_cons, !app_assoc in *.
      rewrite <- app_assoc in Heq. rewrite <- !app_assoc in Heq |- *. rewrite <- Heq.
      cbn [hp_fields hp_lineNumber]. do 2 f_equal; rewrite !length_app; lia.
Qed.

Lemma closeField_ok done cur post off ln :
  hb = enc_fields done ++ enc_field cur ++ post -> wf_field cur ->
  len (enc_field cur) <= MaxHeaderFieldBytes o -> len done + 1 <= MaxHeaderFields o ->
  closeField hb o (fields_of 0 done) (length (enc_fields done))
    (length (enc_fields done ++ enc_field cur)) off ln = Ret (fields_of 0 (done ++ [cur])).
Proof.
  intros E Hwf Hb Hn. unfold closeField. rewrite len_fields_of.
  rewrite (buildHeaderField_ok _ hb (enc_fields done) cur post) by (done || apply len_nonneg).
  cbn [obind]. rewrite len_app, len_fields_of.
  change (len [_]) with 1. rewrite (proj2 (Z.ltb_ge _ _)) by lia.
  cbn [negb require obind]. by rewrite fields_of_app.
Qed.

Lemma first_line_step f lineEnd st :
  wf_field f -> len (fs_name f ++ x3a :: fs_first f) <= MaxHeaderLineBytes o ->
  headerLineStep hb o (fs_name f ++ x3a :: fs_first f) lineEnd st =
  let* fields :=
    match hp_start st with
    | Some start =>
        closeField hb o (hp_fields st) start (hp_end st) (hp_lineStart st) (hp_lineNumber st)
    | None => Ret (hp_fields st)
    end in
  Ret (MkHP fields (Some (hp_lineStart st)) (lineEnd + 2) (lineEnd + 2) (hp_lineNumber st + 1)).
Proof.
  intros (Hn & _ & _) Hm. apply validHeaderFieldName_spec in Hn as [Hne Hn].
  destruct (fs_name f) as [|b n] eqn:En; [done | ].
  apply Forall_cons in Hn as [Hb _]. apply invalidNameByte_false in Hb as (_ & Hb & _).
  unfold headerLineStep. rewrite (proj2 (Z.ltb_ge _ _)) by lia.
  rewrite bool_decide_eq_false_2 by done. cbn [negb require obind].
  change (index_at ((b :: n) ++ _) 0) with (Ret (E := ParserError) b). cbn [obind].
  by rewrite Hb.
Qed.

Lemma headerLoop_fields fuel done cur gs ln :
  hb = enc_fields done ++ enc_field cur ++ enc_fields gs ->
  Forall wf_field (cur :: gs) ->
  Forall (fun l => len l <= MaxHeaderLineBytes o) (concat (map field_lines gs)) ->
  Forall (fun f => len (enc_field f) <= MaxHeaderFieldBytes o) (cur :: gs) ->
  len (done ++ cur :: gs) <= MaxHeaderFields o ->
  (length (enc_fields gs) < fuel)%nat ->
  (let* st := headerLoop fuel hb o
                (MkHP (fields_of 0 done) (Some (length (enc_fields done)))
                   (length (enc_fields done ++ enc_field cur))
                   (length (enc_fields done ++ enc_field cur)) ln) in
   finish st) = NewHeaderBlock (fields_of 0 (done ++ cur :: gs)) hb.
Proof.
  revert fuel done cur ln. induction gs as [|g gs IH];
    intros fuel done cur ln E Hwf Hlines Hbytes Hn Hf;
    apply Forall_cons in Hwf as [Hc Hwf]; apply Forall_cons in Hbytes as [Hb Hbytes];
    rewrite len_app, len_cons in Hn; (destruct fuel as [|fuel]; [lia | ]).
  - change (enc_fields []) with (@nil byte) in *. rewrite app_nil_r in E.
    rewrite headerLoop_done by (cbn; by rewrite E). cbn [obind]. unfold finish.
    cbn [hp_start hp_fields hp_end hp_lineNumber].
    change (len (@nil field_spec)) with 0 in Hn.
    by rewrite (closeField_ok done cur []) by (rewrite ?app_nil_r; done || lia).
  - pose proof Hwf as Hwf'. apply Forall_cons in Hwf as [Hg Hwf].
    rewrite enc_fields_cons in E, Hf. cbn [map concat] in Hlines.
    apply Forall_app in Hlines as [Hlg Hlines].
    unfold field_lines in Hlg. apply Forall_cons in Hlg as [Hl1 Hlc].
    assert (enc_field g = (fs_name g ++ x3a :: fs_first g) ++ crlf ++ unlines (fs_conts g)) as Eg.
    { unfold enc_field, field_lines. by rewrite unlines_cons. }
    rewrite (headerLoop_step fuel (enc_fields done ++ enc_field cur)
               (fs_name g ++ x3a :: fs_first g) (unlines (fs_conts g) ++ enc_fields gs));
      [ | | by apply first_line_plain | done].
    2: { rewrite E, Eg, <- !app_assoc. done. }
    rewrite first_line_step by done. cbn [hp_start hp_fields hp_end hp_lineStart hp_lineNumber].
    rewrite len_cons in Hn. pose proof (len_nonneg gs).
    rewrite (closeField_ok done cur (enc_field g ++ enc_fields gs)) by (done || lia).
    cbn [obind].
    replace (length (enc_fields done ++ enc_field cur) + length (fs_name g ++ x3a :: fs_first g) + 2)%nat
      with (length ((enc_fields done ++ enc_field cur) ++ (fs_name g ++ x3a :: fs_first g) ++ crlf)).
    2: { rewrite !length_app. simpl. lia. }
    assert (enc_fields done ++ enc_field cur = enc_fields (done ++ [cur])) as Ed.
    { rewrite enc_fields_app, enc_fields_cons. by rewrite app_nil_r. }
    rewrite Ed.
    destruct (headerLoop_conts fuel (enc_fields (done ++ [cur]) ++ (fs_name g ++ x3a :: fs_first g) ++ crlf)
                (fs_conts g) (enc_fields gs) (fields_of 0 (done ++ [cur]))
                (length (enc_fields (done ++ [cur])))
                (length (enc_fields (done ++ [cur]) ++ (fs_name g ++ x3a :: fs_first g) ++ crlf))
                (ln + 1)) as (fuel' & ln' & Hf' & ->).
    + rewrite E, Eg, <- Ed, <- !app_assoc. done.
    + apply Hg.
    + done.
    + rewrite Eg, !length_app in Hf. rewrite length_app. simpl in Hf. lia.
    + done.
    + replace (((enc_fields (done ++ [cur]) ++ (fs_name g ++ x3a :: fs_first g) ++ crlf)
                ++ unlines (fs_conts g))) with (enc_fields (done ++ [cur]) ++ enc_field g)
        by (rewrite Eg, <- !app_assoc; done).
      rewrite (IH fuel' (done ++ [cur]) g ln'); [by rewrite <- app_assoc | | done | done | done | | done].
      * by rewrite E, <- Ed, <- app_assoc.
      * rewrite !len_app, !len_cons. change (len (@nil field_spec)) with 0. lia.
Qed.
End header_loop.

Lemma NewHeaderBlock_fields fs :
  NewHeaderBlock (fields_of 0 fs) (enc_fields fs) = Ret (block_of fs).
Proof.
  apply NewHeaderBlock_spec. split; [apply indexed_fields_of | ]. split; [ | done].
  by rewrite fields_bytes_of.
Qed.

Lemma enc_field_nonempty f : wf_field f -> enc_field f <> [].
Proof.
  intros (Hn & _). apply valid_name_plain in Hn as (_ & _ & Hne).
  rewrite enc_field_encode. unfold encode_field. by destruct (fs_name f).
Qed.

(** The header parser returns the block of the fields it was given. *)
Lemma parseHeaderBlock_complete o fs :
  fs <> [] -> Forall wf_field fs -> fits_header o fs ->
  parseHeaderBlock (enc_fields fs) o = Ret (block_of fs).
Proof.
  intros Hne Hwf (Hl & Hb & Hn). destruct fs as [|f fs]; [done | ].
  pose proof Hwf as Hwf'. apply Forall_cons in Hwf as [Hf _].
  unfold parseHeaderBlock. rewrite bool_decide_eq_false_2.
  2: { rewrite enc_fields_cons. intros [E _]%app_eq_nil. by apply enc_field_nonempty in E. }
  cbn [negb require obind]. fold (finish (enc_fields (f :: fs)) o).
  cbn [map concat] in Hl. apply Forall_app in Hl as [Hlf Hl].
  unfold field_lines in Hlf. apply Forall_cons in Hlf as [Hl1 Hlc].
  assert (enc_field f = (fs_name f ++ x3a :: fs_first f) ++ crlf ++ unlines (fs_conts f)) as Ef.
  { unfold enc_field, field_lines. by rewrite unlines_cons. }
  rewrite (headerLoop_step _ _ _ [] (fs_name f ++ x3a :: fs_first f)
             (unlines (fs_conts f) ++ enc_fields fs));
    [ | | by apply first_line_plain | done].
  2: { rewrite enc_fields_cons, Ef, <- !app_assoc. done. }
  rewrite first_line_step by done. cbn [hp_start initHP obind hp_fields hp_lineStart hp_lineNumber].
  replace (length [] + length (fs_name f ++ x3a :: fs_first f) + 2)%nat
    with (length ((fs_name f ++ x3a :: fs_first f) ++ crlf)) by (rewrite !length_app; simpl; lia).
  destruct (headerLoop_conts (enc_fields (f :: fs)) o (length (enc_fields (f :: fs)))
              ((fs_name f ++ x3a :: fs_first f) ++ crlf) (fs_conts f) (enc_fields fs) [] 0%nat
              (length ((fs_name f ++ x3a :: fs_first f) ++ crlf)) (1 + 1))
    as (fuel' & ln' & Hf' & ->); [ | apply Hf | done | | done | ].
  - rewrite enc_fields_cons, Ef, <- !app_assoc. done.
  - rewrite enc_fields_cons, Ef, !length_app. simpl. lia.
  - replace (((fs_name f ++ x3a :: fs_first f) ++ crlf) ++ unlines (fs_conts f))
      with (enc_fields [] ++ enc_field f) by (rewrite Ef, <- !app_assoc; done).
    etransitivity; [ | apply (NewHeaderBlock_fields (f :: fs))].
    apply (headerLoop_fields (enc_fields (f :: fs)) o fuel' [] f fs ln'); try done.
    by rewrite enc_fields_cons.
Qed.

(** ** Finding the header/body separator *)
Lemma delimiter_line l rest :
  plain l ->
  bytes_index (l ++ crlf ++ rest) strictHeaderBodyDelimiter =
  if has_prefix rest crlf then Some (length l)
  else (fun j => length l + 2 + j)%nat <$> bytes_index rest strictHeaderBodyDelimiter.
Proof.
  induction 1 as [|b l Hb _ IH].
  - cbn [app length].
    change (crlf ++ rest) with (CR :: LF :: rest). rewrite !bytes_index_cons.
    change (has_prefix (CR :: LF :: rest) strictHeaderBodyDelimiter) with (has_prefix rest crlf).
    change (has_prefix (LF :: rest) strictHeaderBodyDelimiter) with false.
    destruct (has_prefix rest crlf); [done | ]. by destruct (bytes_index rest _).
  - apply plain_byte_spec in Hb as [Hb _]. cbn [app]. rewrite bytes_index_cons, IH.
    replace (has_prefix (b :: l ++ crlf ++ rest) strictHeaderBodyDelimiter) with false.
    2: { symmetry. apply not_true_iff_false. rewrite has_prefix_spec. by intros [t [= -> _]]. }
    destruct (has_prefix rest crlf); [done | ]. by destruct (bytes_index rest _).
Qed.

(** A non-empty plain line starts with a byte other than CR. *)
Definition content_line (l : bytes) : Prop := plain l /\ l <> [].

Lemma content_line_prefix l rest : content_line l -> has_prefix (l ++ rest) crlf = false.
Proof.
  intros [Hp Hne]. destruct l as [|b l]; [done | ]. apply plain_cons in Hp as [Hb _].
  apply plain_byte_spec in Hb as [Hb _].
  apply not_true_iff_false. rewrite has_prefix_spec. by intros [t [= -> _]].
Qed.

Lemma delimiter_after hs rest :
  hs <> [] -> Forall content_line hs ->
  bytes_index (unlines hs ++ crlf ++ rest) strictHeaderBodyDelimiter
    = Some (length (unlines hs) - 2)%nat.
Proof.
  intros Hne Hhs. revert Hne. induction Hhs as [|l hs [Hl Hl0] Hhs IH]; [done | ]. intros _.
  rewrite unlines_cons, <- !app_assoc, delimiter_line by done.
  destruct hs as [|l' hs].
  - change (unlines []) with (@nil byte). rewrite !app_nil_r. cbn [app].
    change (CR :: LF :: rest) with (crlf ++ rest). rewrite has_prefix_app.
    f_equal. rewrite length_app. simpl. lia.
  - rewrite IH by done. rewrite unlines_cons, <- !app_assoc.
    apply Forall_cons in Hhs as [Hl' _].
    rewrite content_line_prefix by done. cbn [fmap option_fmap option_map]. f_equal.
    rewrite !length_app. simpl. lia.
Qed.

Lemma delimiter_none hs :
  Forall content_line hs -> bytes_index (unlines hs) strictHeaderBodyDelimiter = None.
Proof.
  induction 1 as [|l hs [Hl Hl0] Hhs IH]; [done | ].
  rewrite unlines_cons, delimiter_line by done. rewrite IH.
  destruct hs as [|l' hs]; [done | ]. apply Forall_cons in Hhs as [Hl' _].
  by rewrite unlines_cons, content_line_prefix.
Qed.

Lemma unlines_suffix hs : hs <> [] -> has_suffix (unlines hs) crlf = true.
Proof.
  intros Hne. destruct hs as [|l hs _] using rev_ind; [done | ].
  rewrite unlines_app, unlines_cons. apply has_suffix_spec. exists (unlines hs ++ l).
  by rewrite app_nil_r, <- app_assoc.
Qed.

Lemma field_lines_content f : wf_field f -> Forall content_line (field_lines f).
Proof.
  intros Hf. pose proof (first_line_plain f Hf). destruct Hf as (Hn & H0 & Hc).
  constructor; [split; [done | by destruct (fs_name f)] | ].
  eapply Forall_impl; [exact Hc | ]. intros c (? & w & t & -> & _). by split.
Qed.
Lemma fields_lines_content fs : Forall wf_field fs -> Forall content_line (concat (map field_lines fs)).
Proof.
  induction 1 as [|f fs Hf _ IH]; [constructor | ]. cbn [map concat].
  apply Forall_app. split; [by apply field_lines_content | done].
Qed.
Lemma fields_lines_nonempty fs : fs <> [] -> concat (map field_lines fs) <> [].
Proof. by destruct fs. Qed.

Lemma splitMessage_delimited o hs rest :
  hs <> [] -> Forall content_line hs ->
  splitMessage (unlines hs ++ crlf ++ rest) o =
  Ret (unlines hs, rest, len (unlines hs) + 2).
Proof.
  intros Hne Hhs. unfold splitMessage. rewrite delimiter_after by done.
  apply unlines_suffix, has_suffix_spec in Hne as [t Ht].
  assert (length (unlines hs) = length t + 2)%nat as Hlen by (rewrite Ht, length_app; done).
  rewrite slice_ok by (rewrite !length_app; simpl; lia). cbn [obind].
  replace (length (unlines hs) - 2 + length crlf - 0)%nat with (length (unlines hs)) by (simpl; lia).
  rewrite drop_0, take_app_length. rewrite app_assoc.
  rewrite slice_from_app by (rewrite length_app; simpl; lia). cbn [obind].
  do 2 f_equal. unfold len. simpl. lia.
Qed.

Lemma splitMessage_headers o hs :
  hs <> [] -> Forall content_line hs -> splitMessage (unlines hs) o = Ret (unlines hs, [], 3).
Proof.
  intros Hne Hhs. unfold splitMessage. rewrite delimiter_none by done.
  by rewrite unlines_suffix.
Qed.

(** ** Completeness: every well-formed message within the limits is parsed *)
Lemma matchesMessageComponents_ok hb b :
  matchesMessageComponents (hb ++ enc_body b) hb (body_bytes (spec_body b)) = true.
Proof.
  unfold matchesMessageComponents. destruct b as [[ls last] | ]; cbn [enc_body spec_body].
  - destruct (_ && _); [done | ].
    rewrite take_app_length, bytes_equal_refl, drop_app_length.
    rewrite (proj2 (Nat.eqb_eq _ _)) by (rewrite !length_app; simpl; rewrite length_app; lia).
    cbn [negb orb]. replace (length hb + length crlf - length hb)%nat with (length crlf) by lia.
    rewrite take_app_length, bytes_equal_refl, <- drop_drop, drop_app_length, drop_app_length.
    apply bytes_equal_refl.
  - by rewrite app_nil_r, bytes_equal_refl.
Qed.

Lemma enc_msg_strict m : wf_msg m -> strict (encode_msg m).
Proof.
  intros (_ & Hf & Hb). unfold encode_msg, enc_fields.
  pose proof (fields_lines_plain _ Hf) as Hl. destruct (ms_body m) as [[ls last] | ]; cbn [enc_body].
  - destruct Hb as [H1 H2]. exists (concat (map field_lines (ms_fields m)) ++ [] :: ls), last.
    split; [ | split; [done | ]].
    + apply Forall_app. split; [done | ]. by constructor; [constructor | ].
    + by rewrite unlines_app, unlines_cons, <- !app_assoc.
  - exists (concat (map field_lines (ms_fields m))), []. split; [done | ]. split; [constructor | ].
    done.
Qed.

Lemma Validate_inv o :
  ParserOptions_Validate o = Ret tt ->
  0 < MaxMessageBytes o /\ 0 < MaxHeaderBytes o /\ 0 < MaxHeaderFields o /\
  0 < MaxBodyLines o /\ OptLineEndingPolicy o = LineEndingPolicyStrictCRLF.
Proof.
  unfold ParserOptions_Validate. intros H. ret_inv H.
  repeat match goal with H : (_ <? _) = true |- _ => apply Z.ltb_lt in H end.
  match goal with H : bool_decide _ = true |- _ => apply bool_decide_eq_true in H end.
  by split_and!.
Qed.

Lemma body_strict_ok o off ls last :
  Forall plain ls -> plain last -> 0 <= MaxBodyLines o -> fits_body o (Some (ls, last)) ->
  buildBody (unlines ls ++ last) o off = Ret (body_of ls last).
Proof.
  intros H1 H2 H3 [H4 H5]. rewrite buildBody_strict by done. unfold bodyError.
  rewrite (proj2 (Z.leb_le _ _)) by done.
  by rewrite (proj2 (longLineError_None o off 0 (segments ls last)) H5).
Qed.

Lemma NewMessage_ok m :
  wf_msg m ->
  NewMessage (encode_msg m) (block_of (ms_fields m)) (spec_body (ms_body m))
    (metadata (message_of m)) = Ret (message_of m).
Proof.
  intros (Hne & Hf & Hb). unfold NewMessage.
  assert (encode_msg m <> []) as Hm.
  { unfold encode_msg. intros [E _]%app_eq_nil. destruct (ms_fields m) as [|f fs]; [done | ].
    rewrite enc_fields_cons in E. apply app_eq_nil in E as [E _].
    apply Forall_cons in Hf as [Hf _]. by apply enc_field_nonempty in E. }
  rewrite bool_decide_eq_false_2 by done.
  assert (body_initialized (spec_body (ms_body m)) = true) as ->
    by by destruct (ms_body m) as [[]|].
  cbn [negb require obind andb hb_initialized block_of hb_fields hb_originalBytes].
  rewrite NewHeaderBlock_fields. cbn [obind].
  assert (NewBody (body_bytes (spec_body (ms_body m))) (body_lines (spec_body (ms_body m)))
          = Ret (spec_body (ms_body m))) as ->.
  { destruct (ms_body m) as [[ls last]|]; cbn [spec_body body_of body_bytes body_lines];
      [ | apply (NewBody_layout [] []); by constructor].
    apply NewBody_layout; apply Hb. }
  cbn [obind]. unfold encode_msg at 1.
  cbn [block_of hb_originalBytes].
  rewrite matchesMessageComponents_ok. cbn [require obind].
  unfold metadataMatches, message_of, HeaderBlock_Len, Body_Len.
  cbn [metadata MetaLineEndingPolicy NormalizedInput OriginalBytes StoredBytes HeaderBytes
       HeaderFields BodyBytes block_of hb_originalBytes hb_fields].
  rewrite len_fields_of, !Z.eqb_refl. done.
Qed.

Lemma nonNegative_len {A} (l : list A) : nonNegative (len l) = len l.
Proof. unfold nonNegative. by rewrite (proj2 (Z.ltb_ge _ _)) by apply len_nonneg. Qed.

Lemma parse_complete o m :
  ParserOptions_Validate o = Ret tt -> wf_msg m -> fits_msg o m ->
  ParseWithOptions (encode_msg m) o = Ret (message_of m).
Proof.
  intros Hv Hwf (Hh & Hb & Hhb & Hmb). pose proof (Validate_inv o Hv) as (_ & _ & _ & Hbl & Hp).
  unfold ParseWithOptions. rewrite Hv. cbn [obind].
  rewrite bool_decide_eq_true_2 by done. rewrite (proj2 (Z.ltb_ge _ _)) by done.
  cbn [negb require obind].
  rewrite (proj2 (enforceStrictCRLF_ret _ _)) by by apply enc_msg_strict. cbn [obind].
  assert (exists off, splitMessage (encode_msg m) o
            = Ret (enc_fields (ms_fields m), body_bytes (spec_body (ms_body m)), off)) as [off ->].
  { destruct Hwf as (Hne & Hf & _). unfold encode_msg, enc_fields.
    pose proof (fields_lines_content _ Hf). pose proof (fields_lines_nonempty _ Hne).
    destruct (ms_body m) as [[ls last]|]; cbn [enc_body spec_body body_of body_bytes].
    - eexists. by apply splitMessage_delimited.
    - eexists. rewrite !app_nil_r. by apply splitMessage_headers. }
  cbn [obind]. pose proof Hwf as (Hne & Hf & Hbw).
  rewrite bool_decide_eq_false_2.
  2: { destruct (ms_fields m) as [|f fs]; [done | ]. rewrite enc_fields_cons.
       intros [E _]%app_eq_nil. apply Forall_cons in Hf as [Hf _]. by apply enc_field_nonempty in E. }
  rewrite (proj2 (Z.ltb_ge _ _)) by done. cbn [negb require obind].
  rewrite parseHeaderBlock_complete by done. cbn [obind].
  assert (buildBody (body_bytes (spec_body (ms_body m))) o off = Ret (spec_body (ms_body m))) as ->.
  { destruct (ms_body m) as [[ls last]|]; cbn [spec_body body_of body_bytes].
    - apply body_strict_ok; try done; [apply Hbw | apply Hbw | lia].
    - apply (body_strict_ok o off [] []); [by constructor | by constructor | lia | ].
      split; [change (len (segments [] [])) with 0; lia | constructor]. }
  cbn [obind]. unfold NewParserMetadata. rewrite !nonNegative_len. unfold HeaderBlock_Len.
  cbn [block_of hb_fields]. rewrite len_fields_of, nonNegative_len, Hp.
  by apply NewMessage_ok.
Qed.

(** ** Soundness: what the parser accepts is an encoding *)

Lemma buildHeaderField_inv i hb pre first conts post o f :
  hb = pre ++ unlines (first :: conts) ++ post -> plain first -> Forall cont_line conts ->
  buildHeaderField i hb (length pre) (length (pre ++ unlines (first :: conts))) o = Ret f ->
  exists fs, wf_field fs /\ field_lines fs = first :: conts /\
    len (enc_field fs) <= MaxHeaderFieldBytes o /\
    f = parsed_field i (fs_name fs) (fs_first fs) (fs_conts fs) /\ 0 <= i.
Proof.
  intros -> Hp Hc. unfold buildHeaderField. rewrite length_app.
  rewrite (slice_app_mid pre) by lia. intros H.
  apply obind_ret_inv in H as ([] & Hg & H). apply require_ret_inv in Hg.
  cbn [obind] in H. unfold bytes_cut in H. rewrite unlines_cons in H at 1.
  rewrite bytes_index_plain in H by done. rewrite unlines_cons, take_app_length in H.
  destruct (index_byte first x3a) as [colon|] eqn:Ecolon; [ | done].
  apply index_byte_Some in Ecolon as [Ef _].
  set (n := take colon first) in *. set (v := drop (S colon) first) in *.
  assert (length n = colon) as Hn.
  { unfold n. rewrite length_take. apply (f_equal length) in Ef. rewrite length_app in Ef.
    unfold n in Ef. rewrite length_take in Ef. simpl in Ef. lia. }
  rewrite Ef in H at 1. rewrite slice_ok in H by (rewrite length_app; lia).
  rewrite drop_0, Nat.sub_0_r, <- Hn, take_app_length in H. cbn [obind] in H.
  destruct (invalidHeaderFieldNameOffset n) eqn:Eoff; [done | ].
  set (fs := MkFS n v conts).
  assert (wf_field fs) as Hwf.
  { split; [unfold validHeaderFieldName; simpl; by rewrite Eoff | ]. split; [ | done].
    rewrite Ef in Hp. apply plain_app in Hp as [_ Hp]. by apply plain_cons in Hp as [_ Hp]. }
  assert (first ++ crlf ++ unlines conts = enc_field fs) as Eenc.
  { unfold enc_field, field_lines. simpl. by rewrite unlines_cons, <- Ef. }
  rewrite Eenc in H. exists fs. split; [done | ].
  split; [unfold field_lines; simpl; by rewrite <- Ef | ].
  apply negb_true_iff, orb_false_iff in Hg as [_ Hg]. apply Z.ltb_ge in Hg.
  rewrite unlines_cons, Eenc in Hg.
  replace (length pre + length (enc_field fs) - length pre)%nat with (length (enc_field fs)) in Hg
    by lia.
  split; [done | ].
  rewrite (zslice_mid _ (n ++ [x3a]) (fold_value v conts) crlf) in H.
  - cbn [obind] in H. pose proof H as H'. apply NewHeaderField_inv in H' as (Hi & _).
    destruct Hwf as (Hwn & Hwv & Hwc).
    rewrite enc_field_encode in H. rewrite NewHeaderField_ok in H by done.
    by injection H as <-.
  - rewrite enc_field_encode. unfold encode_field. by rewrite <- app_assoc.
  - rewrite len_app. unfold len. simpl. lia.
  - rewrite enc_field_encode. unfold encode_field. simpl. rewrite len_app, len_cons, !len_app.
    change (len [x3a]) with 1. lia.
Qed.

Section header_sound.
Context (hb : bytes) (o : ParserOptions).

(** The loop invariant: closed fields are specifications within the limits,
    and the open field is its first line with continuation lines. *)
Definition open_inv (pre : bytes) (st : HeaderParse) : Prop :=
  match hp_start st with
  | None => pre = [] /\ hp_fields st = []
  | Some s =>
      exists done first conts,
        pre = enc_fields done ++ unlines (first :: conts) /\ s = length (enc_fields done) /\
        hp_end st = length pre /\ hp_fields st = fields_of 0 done /\
        Forall wf_field done /\ plain first /\ Forall cont_line conts /\
        Forall (fun l => len l <= MaxHeaderLineBytes o)
          (concat (map field_lines done) ++ first :: conts) /\
        Forall (fun f => len (enc_field f) <= MaxHeaderFieldBytes o) done /\
        len done <= MaxHeaderFields o
  end.

Lemma closeField_inv done first conts post off ln fs :
  hb = enc_fields done ++ unlines (first :: conts) ++ post ->
  plain first -> Forall cont_line conts ->
  closeField hb o (fields_of 0 done) (length (enc_fields done))
    (length (enc_fields done ++ unlines (first :: conts))) off ln = Ret fs ->
  exists cur, fs = fields_of 0 (done ++ [cur]) /\ wf_field cur /\
    field_lines cur = first :: conts /\ len (enc_field cur) <= MaxHeaderFieldBytes o /\
    len (done ++ [cur]) <= MaxHeaderFields o.
Proof.
  intros E Hp Hc. unfold closeField. rewrite len_fields_of. intros H.
  apply obind_ret_inv in H as (f & Hf & H).
  apply (buildHeaderField_inv _ hb (enc_fields done) first conts post) in Hf
    as (cur & Hwf & Hl & Hb & -> & _); [ | done | done | done].
  ret_inv H. apply negb_true_iff, Z.ltb_ge in Hr. rewrite len_app, len_fields_of in Hr.
  exists cur. split; [by rewrite fields_of_app | ]. rewrite len_app. done.
Qed.

Lemma open_inv_start pre l :
  plain l -> len l <= MaxHeaderLineBytes o ->
  forall done, pre = enc_fields done -> Forall wf_field done ->
  Forall (fun l => len l <= MaxHeaderLineBytes o) (concat (map field_lines done)) ->
  Forall (fun f => len (enc_field f) <= MaxHeaderFieldBytes o) done ->
  len done <= MaxHeaderFields o ->
  forall ln, open_inv (pre ++ l ++ crlf)
    (MkHP (fields_of 0 done) (Some (length pre)) (length (pre ++ l ++ crlf))
       (length (pre ++ l ++ crlf)) ln).
Proof.
  intros Hl Hm done -> Hwf Hls Hb Hn ln. unfold open_inv. cbn [hp_start hp_end hp_fields].
  exists done, l, []. split_and!; try done; [by rewrite unlines_cons, app_nil_r | ].
  apply Forall_app. split; [done | ]. by constructor.
Qed.

Lemma headerLineStep_inv pre l rest st st' :
  hb = pre ++ l ++ crlf ++ rest -> plain l -> hp_lineStart st = length pre ->
  0 < MaxHeaderFields o -> open_inv pre st ->
  headerLineStep hb o l (length pre + length l) st = Ret st' ->
  open_inv (pre ++ l ++ crlf) st' /\ hp_lineStart st' = length (pre ++ l ++ crlf).
Proof.
  intros E Hl Hs Hmax Hinv. unfold headerLineStep. intros H.
  apply obind_ret_inv in H as ([] & Hm & H). apply require_ret_inv, negb_true_iff, Z.ltb_ge in Hm.
  apply obind_ret_inv in H as ([] & _ & H).
  apply obind_ret_inv in H as (w & Hw & H). apply index_at_inv in Hw.
  replace (length pre + length l + length crlf)%nat with (length (pre ++ l ++ crlf)) in H
    by (rewrite !length_app; lia).
  unfold open_inv in Hinv. destruct (isWSP w) eqn:Hwsp.
  - destruct (hp_start st) as [s|]; [ | done]. injection H as <-. split; [ | done].
    destruct Hinv as (done & first & conts & -> & Es & He & Hf & Hwf & Hp & Hc & Hls & Hb & Hn).
    exists done, first, (conts ++ [l]).
    assert (cont_line l) as Hcl.
    { split; [done | ]. destruct l as [|b l]; [done | ]. injection Hw as ->. eauto. }
    cbn [hp_fields hp_end]. split_and!; try done.
    + rewrite !unlines_cons, unlines_app, unlines_cons, <- !app_assoc. by rewrite app_nil_r.
    + apply Forall_app. split; [done | by constructor].
    + rewrite app_comm_cons, app_assoc. apply Forall_app. split; [done | by constructor].
  - apply obind_ret_inv in H as (fs & Hfs & H). injection H as <-. split; [ | done].
    destruct (hp_start st) as [s|].
    + destruct Hinv as (done & first & conts & Epre & Es & He & Hf & Hwf & Hp & Hc & Hls & Hb & Hn).
      rewrite Es, He, Hf, Epre in Hfs.
      apply (closeField_inv done first conts (l ++ crlf ++ rest)) in Hfs
        as (cur & -> & Hcur & Hcl & Hcb & Hcn); [ | by rewrite E, Epre, <- app_assoc | done | done].
      rewrite Hs. apply open_inv_start; try done.
      * rewrite Epre, enc_fields_app, enc_fields_cons, app_nil_r. unfold enc_field. by rewrite Hcl.
      * apply Forall_app. split; [done | by constructor].
      * rewrite map_app, concat_app. cbn [map concat]. by rewrite app_nil_r, Hcl.
      * apply Forall_app. split; [done | by constructor].
    + destruct Hinv as [-> Hf]. injection Hfs as <-. rewrite Hf, Hs.
      apply (open_inv_start [] l Hl Hm []); try done; constructor || idtac.
      change (len (@nil field_spec)) with 0. lia.
Qed.

Lemma headerLoop_inv hs fuel pre st st' :
  hb = pre ++ unlines hs -> Forall plain hs -> hp_lineStart st = length pre ->
  0 < MaxHeaderFields o -> open_inv pre st -> headerLoop fuel hb o st = Ret st' ->
  open_inv hb st'.
Proof.
  revert fuel pre st. induction hs as [|l hs IH]; intros fuel pre st E Hhs Hs Hmax Hinv;
    (destruct fuel as [|fuel]; [done | ]).
  - change (unlines []) with (@nil byte) in E. rewrite app_nil_r in E. subst pre.
    rewrite headerLoop_done by done. by intros [= <-].
  - apply Forall_cons in Hhs as [Hl Hhs]. rewrite unlines_cons in E.
    rewrite (headerLoop_step hb o fuel pre l (unlines hs)) by done. intros H.
    apply obind_ret_inv in H as (st1 & H1 & H).
    apply (headerLineStep_inv pre l (unlines hs)) in H1 as [Hinv1 Hs1]; try done.
    eapply (IH fuel (pre ++ l ++ crlf)); try done. by rewrite <- !app_assoc.
Qed.

Lemma parseHeaderBlock_sound hs h :
  hb = unlines hs -> Forall plain hs -> 0 < MaxHeaderFields o ->
  parseHeaderBlock hb o = Ret h ->
  exists fs, fs <> [] /\ Forall wf_field fs /\ fits_header o fs /\ hb = enc_fields fs /\
    h = block_of fs.
Proof.
  intros E Hhs Hmax H. unfold parseHeaderBlock in H.
  apply obind_ret_inv in H as (? & _ & H).
  apply obind_ret_inv in H as (st & Hst & H).
  apply (headerLoop_inv hs _ [] initHP) in Hst; try done.
  unfold open_inv in Hst. destruct (hp_start st) as [s|]; [ | done].
  apply obind_ret_inv in H as (fields & Hr1 & H).
  destruct Hst as (done & first & conts & Eb & Es & He & Hf & Hwf & Hp & Hcs & Hls & Hb & Hn).
  rewrite He, Es, Hf in Hr1. rewrite Eb in Hr1 at 2.
  apply (closeField_inv done first conts []) in Hr1 as (cur & -> & Hcur & Hcl & Hcb & Hcn);
    [ | by rewrite app_nil_r | done | done].
  apply NewHeaderBlock_spec in H as (_ & Ehb & ->). rewrite fields_bytes_of in Ehb.
  exists (done ++ [cur]). split_and!; try done.
  - by destruct done.
  - apply Forall_app. split; [done | by constructor].
  - split_and!; [ | | done].
    + rewrite map_app, concat_app. cbn [map concat]. by rewrite app_nil_r, Hcl.
    + apply Forall_app. split; [done | by constructor].
  - unfold block_of. by rewrite <- Ehb.
Qed.
End header_sound.

(** Pieces of strict text around a CRLF are strict. *)
Lemma bare_lf_prefix s t : bare_lf s -> bare_lf (s ++ t).
Proof.
  intros (p & u & -> & Hp). exists p, (u ++ t). split; [by rewrite <- app_assoc | done].
Qed.
Lemma bare_cr_prefix s t : bare_cr (s ++ crlf) -> bare_cr ((s ++ crlf) ++ t).
Proof.
  intros (p & u & E & Hu). exists p, (u ++ t). split; [by rewrite E, <- app_assoc | ].
  destruct u as [|b u]; [ | done]. change crlf with ([CR] ++ [LF]) in E.
  rewrite app_assoc in E. by apply app_inj_tail in E as [_ ?].
Qed.
Lemma bare_lf_suffix s t : bare_lf t -> bare_lf ((s ++ crlf) ++ t).
Proof.
  intros (p & u & -> & Hp). exists ((s ++ crlf) ++ p), u. split; [by rewrite !app_assoc | ].
  destruct p as [|b p _] using rev_ind.
  - rewrite app_nil_r. change crlf with ([CR] ++ [LF]). by rewrite app_assoc, last_snoc.
  - rewrite app_assoc, last_snoc. by rewrite last_snoc in Hp.
Qed.
Lemma bare_cr_suffix s t : bare_cr t -> bare_cr (s ++ t).
Proof. intros (p & u & -> & Hu). exists (s ++ p), u. by rewrite <- app_assoc. Qed.

Lemma strict_split s t : strict ((s ++ crlf) ++ t) -> strict (s ++ crlf) /\ strict t.
Proof.
  rewrite !strict_spec. intros [H1 H2]. split; split.
  - intros H. by apply H1, bare_lf_prefix.
  - intros H. by apply H2, bare_cr_prefix.
  - intros H. by apply H1, bare_lf_suffix.
  - intros H. by apply H2, bare_cr_suffix.
Qed.

Lemma strict_terminated s : strict (s ++ crlf) -> exists hs, Forall plain hs /\ s ++ crlf = unlines hs.
Proof.
  intros (ls & last & Hls & Hlast & E). destruct last as [|b last _] using rev_ind.
  - exists ls. by rewrite app_nil_r in E.
  - exfalso. change crlf with ([CR] ++ [LF]) in E. rewrite !app_assoc in E.
    apply app_inj_tail in E as [_ <-]. apply plain_app in Hlast as [_ Hlast].
    apply plain_cons in Hlast as [Hlf _]. by vm_compute in Hlf.
Qed.

Lemma splitMessage_inv data o hbytes bbytes off :
  splitMessage data o = Ret (hbytes, bbytes, off) ->
  exists s, hbytes = s ++ crlf /\
    (data = hbytes /\ bbytes = [] \/ data = hbytes ++ crlf ++ bbytes).
Proof.
  unfold splitMessage. destruct (bytes_index data _) as [i|] eqn:Ei.
  - pose proof (bytes_index_bound _ _ _ Ei) as Hb. apply bytes_index_Some in Ei. simpl in Hb.
    set (a := take i data) in *.
    assert (length a = i) as Ha by (unfold a; rewrite length_take; lia).
    set (z := drop (i + length strictHeaderBodyDelimiter) data) in *.
    assert (data = (a ++ crlf) ++ crlf ++ z) as E by (rewrite Ei, <- app_assoc; done).
    assert (slice (E := ParserError) data 0 (i + length crlf) = Ret (a ++ crlf)) as ->.
    { rewrite E, <- Ha, <- length_app, slice_ok by (rewrite !length_app; lia).
      by rewrite drop_0, Nat.sub_0_r, take_app_length. }
    assert (slice_from (E := ParserError) data (i + length strictHeaderBodyDelimiter) = Ret z) as ->.
    { rewrite Ei, app_assoc. apply slice_from_app. by rewrite length_app, Ha. }
    cbn [obind]. intros [= <- <- <-]. exists a. by split; [ | right].
  - intros H. ret_inv H. apply has_suffix_spec in Hr as [t ->]. eauto.
Qed.

Lemma buildBody_strict_inv o off ls last b :
  Forall plain ls -> plain last -> 0 <= MaxBodyLines o ->
  buildBody (unlines ls ++ last) o off = Ret b -> fits_body o (Some (ls, last)).
Proof.
  intros H1 H2 H3. rewrite buildBody_strict by done. unfold bodyError.
  destruct (Z.leb_spec (len (segments ls last)) (MaxBodyLines o)); [ | done].
  destruct (longLineError _ _ _ _) eqn:E; [done | ]. intros _.
  apply longLineError_None in E. by split.
Qed.

(** The parsed message determines its specification. *)
Lemma parse_sound data o M :
  ParseWithOptions data o = Ret M ->
  exists m, wf_msg m /\ fits_msg o m /\ data = encode_msg m.
Proof.
  unfold ParseWithOptions. intros H.
  apply obind_ret_inv in H as ([] & Hv & H). pose proof (Validate_inv o Hv) as (_&_&Hmf&Hml&_).
  apply obind_ret_inv in H as ([] & _ & H).
  apply obind_ret_inv in H as ([] & Hmsg & H).
  apply obind_ret_inv in H as ([] & Hstrict & H). apply enforceStrictCRLF_ret in Hstrict.
  apply obind_ret_inv in H as ([[hbytes bbytes] off] & Hsplit & H).
  apply obind_ret_inv in H as ([] & _ & H).
  apply obind_ret_inv in H as ([] & Hhdr & H).
  apply obind_ret_inv in H as (h & Hh & H).
  apply obind_ret_inv in H as (b & Hb & _).
  apply require_ret_inv, negb_true_iff, Z.ltb_ge in Hmsg, Hhdr.
  apply splitMessage_inv in Hsplit as (s & -> & Hdata).
  assert (strict (s ++ crlf) /\ strict bbytes) as [Hs1 Hs2].
  { destruct Hdata as [[-> ->] | ->]; [split; [done | apply strict_nil] | ].
    apply strict_split in Hstrict as [H1 H2]. split; [done | ].
    change (crlf ++ bbytes) with (([] ++ crlf) ++ bbytes) in H2. by apply strict_split in H2 as [_ ?]. }
  apply strict_terminated in Hs1 as (hs & Hhs & Ehs).
  apply (parseHeaderBlock_sound _ o hs) in Hh as (fs & Hne & Hwf & Hfit & Efs & ->); try done.
  destruct Hs2 as (ls & last & Hls & Hlast & ->).
  apply buildBody_strict_inv in Hb; [ | done | done | lia].
  destruct Hdata as [[-> E] | ->].
  - exists (MkMS fs None). unfold encode_msg, fits_msg, wf_msg, encode_msg. simpl.
    rewrite app_nil_r, <- Efs. done.
  - exists (MkMS fs (Some (ls, last))). unfold encode_msg, fits_msg, wf_msg, encode_msg.
    cbn [ms_fields ms_body enc_body]. rewrite <- Efs. done.
Qed.

Lemma parse_validated data o M : ParseWithOptions data o = Ret M -> ParserOptions_Validate o = Ret tt.
Proof. unfold ParseWithOptions. intros H. by apply obind_ret_inv in H as ([] & Hv & _). Qed.

Lemma parse_inv data o M :
  ParseWithOptions data o = Ret M ->
  exists m, wf_msg m /\ fits_msg o m /\ data = encode_msg m /\ M = message_of m.
Proof.
  intros H. pose proof H as H'. unfold ParseWithOptions in H'.
  apply obind_ret_inv in H' as ([] & Hv & _).
  destruct (parse_sound _ _ _ H) as (m & Hwf & Hfit & ->). exists m.
  rewrite parse_complete in H by done. by injection H as <-.
Qed.

(** C1: the parser is the exact inverse of the message encoding. *)
Theorem parse_refines_spec data o M :
  ParseWithOptions data o = Ret M <->
  ParserOptions_Validate o = Ret tt /\
  exists m, wf_msg m /\ fits_msg o m /\ data = encode_msg m /\ M = message_of m.
Proof.
  split.
  - intros H. split; [by eapply parse_validated | by apply parse_inv].
  - intros (Hv & m & Hwf & Hfit & -> & ->). by apply parse_complete.
Qed.
