(* ===== verification/RawInsertion.v ===== *)
(** * Package internal/rawmsg: reconstruction and trace-field insertion

    reconstruction.go rebuilds validated header blocks, bodies and messages
    from detached parts; insertion.go places complete fields at the top of the
    header block.  Both are shown to agree with the message specification of
    RawSpec. *)

From S2P Require Import Prelude GoBytes RawMsg RawBody RawParser RawSpec.
#[local] Open Scope Z_scope.

(** ** reconstruction.go *)
Definition reconstructionLimitError (limitName : string) (limit : Z) : ParserError :=
  limitError noLoc limitName limit.

(** The loop of NewReconstructedHeaderBlock; the result is the final total. *)
Fixpoint checkFieldBytes (fieldBytes : list bytes) (options : ParserOptions) (total : Z)
    : outcome ParserError Z :=
  match fieldBytes with
  | [] => Ret total
  | encoded :: rest =>
      check require (negb (bool_decide (encoded = []) || (MaxHeaderFieldBytes options <? len encoded)))
        (reconstructionLimitError "max_header_field_bytes" (MaxHeaderFieldBytes options)) ;;
      let* parsed := parseHeaderBlock encoded options in
      check require (HeaderBlock_Len parsed =? 1) invariantError ;;
      check require (negb (MaxHeaderBytes options - len encoded <? total))
        (reconstructionLimitError "max_header_bytes" (MaxHeaderBytes options)) ;;
      checkFieldBytes rest options (total + len encoded)
  end.

Definition NewReconstructedHeaderBlock (fieldBytes : list bytes) (options : ParserOptions)
    : outcome ParserError HeaderBlock :=
  check ParserOptions_Validate options ;;
  check require (negb (MaxHeaderFields options <? len fieldBytes))
    (reconstructionLimitError "max_header_fields" (MaxHeaderFields options)) ;;
  if decide (fieldBytes = []) then NewHeaderBlock [] []
  else
    let* _ := checkFieldBytes fieldBytes options 0 in
    parseHeaderBlock (concat fieldBytes) options.

Definition NewReconstructedBody (data : bytes) (options : ParserOptions)
    : outcome ParserError Body :=
  check ParserOptions_Validate options ;;
  check require (negb (MaxMessageBytes options <? len data))
    (reconstructionLimitError "max_message_bytes" (MaxMessageBytes options)) ;;
  buildBody data options 0.

Definition NewReconstructedMessageWithFraming (h : HeaderBlock) (b : Body)
    (options : ParserOptions) (framing : MessageFraming) : outcome ParserError Message :=
  check ParserOptions_Validate options ;;
  check require (hb_initialized h && body_initialized b && MessageFraming_Known framing)
    invariantError ;;
  let* validatedHeaders := NewReconstructedHeaderBlock (map originalBytes (hb_fields h)) options in
  let* validatedBody := NewReconstructedBody (body_bytes b) options in
  let headerBytes := hb_originalBytes validatedHeaders in
  let bodyBytes := body_bytes validatedBody in
  let* separator :=
    if decide (framing = MessageFramingHeaderOnly) then
      check require (negb ((HeaderBlock_Len validatedHeaders =? 0) || negb (len bodyBytes =? 0)))
        invariantError ;;
      Ret []
    else Ret crlf in
  check require (negb ((MaxMessageBytes options - len separator <? len headerBytes)
                       || (MaxMessageBytes options - len headerBytes - len separator <? len bodyBytes)))
    (reconstructionLimitError "max_message_bytes" (MaxMessageBytes options)) ;;
  let raw := headerBytes ++ separator ++ bodyBytes in
  let metadata :=
    NewParserMetadata LineEndingPolicyStrictCRLF false (len raw) (len raw) (len headerBytes)
      (HeaderBlock_Len h) (len bodyBytes) in
  NewMessage raw validatedHeaders validatedBody metadata.

Definition NewReconstructedMessage (h : HeaderBlock) (b : Body) (options : ParserOptions)
    : outcome ParserError Message :=
  NewReconstructedMessageWithFraming h b options MessageFramingDelimited.

(** ** insertion.go *)
Definition TransportForm := string.
Definition TransportFormFinalNetworkPreDotStuffing : TransportForm :=
  "final_network_form_pre_dot_stuffing"%string.
Definition TransportForm_Known (f : TransportForm) : bool :=
  bool_decide (f = TransportFormFinalNetworkPreDotStuffing).

Record InsertionRequest := MkInsertion {
  ir_message : Message; ir_form : TransportForm; ir_fields : list bytes;
  ir_options : ParserOptions }.

Definition invalidTransportFormError : ParserError :=
  NewParserError ErrorCodeInvalidTransportForm noLoc (MkDetails ErrorReasonPolicy "" "" 0).

Fixpoint checkHardLimits (limits : list (string * Z * Z)) : outcome ParserError unit :=
  match limits with
  | [] => Ret tt
  | (name, value, max) :: rest =>
      check require (negb (max <? value)) (reconstructionLimitError name max) ;;
      checkHardLimits rest
  end.
Definition validateInsertionOptions (o : ParserOptions) : outcome ParserError unit :=
  let hard := DefaultParserOptions in
  checkHardLimits
    [("max_message_bytes"%string, MaxMessageBytes o, MaxMessageBytes hard);
     ("max_header_bytes"%string, MaxHeaderBytes o, MaxHeaderBytes hard);
     ("max_header_fields"%string, MaxHeaderFields o, MaxHeaderFields hard);
     ("max_header_field_bytes"%string, MaxHeaderFieldBytes o, MaxHeaderFieldBytes hard)].

(** The loop of validateInsertionFields; the result is the final total. *)
Fixpoint insertionFieldsLoop (fields : list bytes) (options : ParserOptions) (total : Z)
    : outcome ParserError Z :=
  match fields with
  | [] => Ret total
  | field :: rest =>
      check require (negb (bool_decide (field = []))) invariantError ;;
      check enforceStrictCRLF field options ;;
      let* parsed := NewReconstructedHeaderBlock [field] options in
      check require ((HeaderBlock_Len parsed =? 1) && bytes_equal (hb_originalBytes parsed) field)
        invariantError ;;
      check require (negb (MaxHeaderBytes options - total <? len field))
        (reconstructionLimitError "max_header_bytes" (MaxHeaderBytes options)) ;;
      insertionFieldsLoop rest options (total + len field)
  end.
Definition validateInsertionFields (fields : list bytes) (metadata : ParserMetadata)
    (options : ParserOptions) : outcome ParserError Z :=
  check require (negb (MaxHeaderFields options - HeaderFields metadata <? len fields))
    (reconstructionLimitError "max_header_fields" (MaxHeaderFields options)) ;;
  insertionFieldsLoop fields options 0.

Definition framing_eqb (a b : option MessageFraming) : bool := bool_decide (a = b).

Definition insertionPreservedSource (source inserted : Message) (fields : list bytes) : bool :=
  if negb (Message_Initialized source) || negb (Message_Initialized inserted)
     || negb (framing_eqb (Message_Framing source) (Message_Framing inserted))
     || negb (bytes_equal (body_bytes (body source)) (body_bytes (body inserted)))
  then false
  else
    let sourceFields := map originalBytes (hb_fields (headers source)) in
    let insertedFields := map originalBytes (hb_fields (headers inserted)) in
    (length insertedFields =? length sourceFields + length fields)%nat
    && bool_decide (take (length fields) insertedFields = fields)
    && bool_decide (drop (length fields) insertedFields = sourceFields).

Definition PrependValidatedFields (request : InsertionRequest) : outcome ParserError Message :=
  let options := ir_options request in
  check require (TransportForm_Known (ir_form request)) invalidTransportFormError ;;
  check require (Message_Initialized (ir_message request)
                 && negb (bool_decide (ir_fields request = []))) invariantError ;;
  check ParserOptions_Validate options ;;
  check validateInsertionOptions options ;;
  let sourceBytes := rawBytes (ir_message request) in
  let* source := ParseWithOptions sourceBytes options in
  check require (framing_eqb (Message_Framing source) (Message_Framing (ir_message request)))
    invariantError ;;
  let* addedBytes := validateInsertionFields (ir_fields request) (metadata source) options in
  let headerBytes := HeaderBytes (metadata source) in
  check require (negb (MaxHeaderBytes options - headerBytes <? addedBytes))
    (reconstructionLimitError "max_header_bytes" (MaxHeaderBytes options)) ;;
  check require (negb (MaxMessageBytes options - len sourceBytes <? addedBytes))
    (reconstructionLimitError "max_message_bytes" (MaxMessageBytes options)) ;;
  let output := concat (ir_fields request) ++ sourceBytes in
  let* inserted := ParseWithOptions output options in
  check require (insertionPreservedSource source inserted (ir_fields request)) invariantError ;;
  Ret inserted.

(** ** Single fields and field sequences *)

Lemma enc_fields_one f : enc_fields [f] = enc_field f.
Proof. rewrite enc_fields_cons. apply app_nil_r. Qed.

Lemma fits_header_one o f fs : fits_header o fs -> f ∈ fs -> 0 < MaxHeaderFields o -> fits_header o [f].
Proof.
  intros (Hl & Hb & _) Hin Hpos. split_and!.
  - cbn [map concat]. rewrite app_nil_r. apply Forall_forall. intros l Hlin.
    rewrite Forall_forall in Hl. apply Hl. rewrite list_elem_of_In, in_concat.
    exists (field_lines f). rewrite in_map_iff, <- list_elem_of_In. split; [ | done].
    exists f. by rewrite <- list_elem_of_In.
  - constructor; [ | done]. rewrite Forall_forall in Hb. by apply Hb.
  - change (len [f]) with 1. lia.
Qed.

Lemma parse_one o f :
  wf_field f -> fits_header o [f] -> parseHeaderBlock (enc_field f) o = Ret (block_of [f]).
Proof.
  intros Hwf Hfit. rewrite <- enc_fields_one. apply parseHeaderBlock_complete; [done | | done].
  by constructor.
Qed.

Lemma fits_header_cons o f fs :
  fits_header o (f :: fs) ->
  Forall (fun l => len l <= MaxHeaderLineBytes o) (field_lines f) /\
  len (enc_field f) <= MaxHeaderFieldBytes o /\ fits_header o fs.
Proof.
  intros (Hl & Hb & Hn). cbn [map concat] in Hl. apply Forall_app in Hl as [Hlf Hl].
  apply Forall_cons in Hb as [Hbf Hb]. rewrite len_cons in Hn. split_and!; try done.
  split_and!; try done. lia.
Qed.

Lemma checkFieldBytes_ok o fs total :
  0 < MaxHeaderFields o -> Forall wf_field fs -> fits_header o fs ->
  total + len (enc_fields fs) <= MaxHeaderBytes o ->
  checkFieldBytes (map enc_field fs) o total = Ret (total + len (enc_fields fs)).
Proof.
  intros Hpos Hwf. revert total.
  induction Hwf as [|f fs Hf _ IH]; intros total Hfit Ht; cbn [map checkFieldBytes].
  - by rewrite Z.add_0_r.
  - pose proof (fits_header_one o f _ Hfit (list_elem_of_here f fs) Hpos) as Hone.
    apply fits_header_cons in Hfit as (_ & Hb & Hfit).
    rewrite enc_fields_cons, len_app in Ht |- *.
    pose proof (len_nonneg (enc_fields fs)).
    rewrite bool_decide_eq_false_2 by by apply enc_field_nonempty.
    rewrite (proj2 (Z.ltb_ge _ _)) by done. cbn [orb negb require obind].
    rewrite parse_one by done. cbn [obind]. change (HeaderBlock_Len (block_of [f]) =? 1) with true.
    cbn [require obind]. rewrite (proj2 (Z.ltb_ge _ _)) by lia. cbn [negb require obind].
    rewrite IH by (done || lia). f_equal. lia.
Qed.

Lemma concat_enc_fields fs : concat (map enc_field fs) = enc_fields fs.
Proof. induction fs as [|f fs IH]; [done | ]. rewrite enc_fields_cons. simpl. by rewrite IH. Qed.

Lemma NewReconstructedHeaderBlock_ok o fs :
  ParserOptions_Validate o = Ret tt -> Forall wf_field fs -> fits_header o fs ->
  len (enc_fields fs) <= MaxHeaderBytes o ->
  NewReconstructedHeaderBlock (map enc_field fs) o = Ret (block_of fs).
Proof.
  intros Hv Hwf Hfit Hb. pose proof (Validate_inv o Hv) as (_ & _ & Hpos & _).
  unfold NewReconstructedHeaderBlock. rewrite Hv. cbn [obind].
  assert (len (map enc_field fs) = len fs) as -> by (unfold len; by rewrite length_map).
  rewrite (proj2 (Z.ltb_ge _ _)) by apply Hfit. cbn [negb require obind].
  destruct (decide (map enc_field fs = [])) as [E | Hne].
  - apply map_eq_nil in E as ->. done.
  - rewrite checkFieldBytes_ok by (done || lia). cbn [obind]. rewrite concat_enc_fields.
    apply parseHeaderBlock_complete; [by intros -> | done | done].
Qed.

Definition framing_of (m : msg_spec) : MessageFraming :=
  if ms_body m is Some _ then MessageFramingDelimited else MessageFramingHeaderOnly.

Lemma map_original_fields i fs : map originalBytes (fields_of i fs) = map enc_field fs.
Proof.
  revert i. induction fs as [|f fs IH]; intros i; [done | ].
  cbn [fields_of map originalBytes parsed_field]. by rewrite IH, enc_field_encode.
Qed.

Lemma encode_msg_split m :
  encode_msg m = enc_fields (ms_fields m)
    ++ (if ms_body m is Some _ then crlf else []) ++ body_bytes (spec_body (ms_body m)).
Proof. unfold encode_msg. by destruct (ms_body m) as [[ls last]|]. Qed.

(** Reconstruction of the parts of a parsed message gives the message back. *)
Lemma reconstruct_message o m :
  ParserOptions_Validate o = Ret tt -> wf_msg m -> fits_msg o m ->
  NewReconstructedMessageWithFraming (block_of (ms_fields m)) (spec_body (ms_body m)) o
    (framing_of m) = Ret (message_of m).
Proof.
  intros Hv Hwf (Hh & Hb & Hhb & Hmb). pose proof Hwf as (Hne & Hf & Hbw).
  pose proof (Validate_inv o Hv) as (_ & _ & _ & Hbl & _).
  unfold NewReconstructedMessageWithFraming. rewrite Hv. cbn [obind].
  assert (body_initialized (spec_body (ms_body m)) = true) as Hi by by destruct (ms_body m) as [[]|].
  rewrite Hi. assert (MessageFraming_Known (framing_of m) = true) as ->
    by (unfold framing_of; by destruct (ms_body m)).
  cbn [hb_initialized block_of andb require obind hb_fields].
  rewrite map_original_fields, NewReconstructedHeaderBlock_ok by done. cbn [obind].
  rewrite encode_msg_split, !len_app in Hmb.
  pose proof (len_nonneg (enc_fields (ms_fields m))).
  pose proof (len_nonneg (if ms_body m is Some _ then crlf else [])).
  pose proof (len_nonneg (body_bytes (spec_body (ms_body m)))).
  assert (NewReconstructedBody (body_bytes (spec_body (ms_body m))) o
          = Ret (spec_body (ms_body m))) as ->.
  { unfold NewReconstructedBody. rewrite Hv, (proj2 (Z.ltb_ge _ _)) by lia. cbn [obind negb require].
    destruct (ms_body m) as [[ls last]|]; cbn [spec_body body_of body_bytes].
    - apply body_strict_ok; try done; [apply Hbw | apply Hbw | lia].
    - apply (body_strict_ok o 0 [] []); [by constructor | by constructor | lia | ].
      split; [change (len (segments [] [])) with 0; lia | constructor]. }
  cbn [obind].
  assert ((if decide (framing_of m = MessageFramingHeaderOnly) then
             check require (negb ((HeaderBlock_Len (block_of (ms_fields m)) =? 0)
                       || negb (len (body_bytes (spec_body (ms_body m))) =? 0))) invariantError ;;
             Ret [] else Ret crlf)
          = Ret (if ms_body m is Some _ then crlf else [])) as ->.
  { unfold framing_of. destruct (ms_body m) as [[ls last]|]; [done | ]. cbn [decide].
    unfold HeaderBlock_Len, block_of. cbn [hb_fields]. rewrite len_fields_of.
    destruct (ms_fields m) as [|f fs]; [done | ]. rewrite len_cons.
    pose proof (len_nonneg fs). rewrite (proj2 (Z.eqb_neq _ _)) by lia. done. }
  cbn [obind hb_originalBytes block_of].
  rewrite !(proj2 (Z.ltb_ge _ _)) by lia. cbn [orb negb require obind].
  rewrite <- encode_msg_split.
  unfold NewParserMetadata. rewrite !nonNegative_len. unfold HeaderBlock_Len.
  cbn [block_of hb_fields]. rewrite len_fields_of, nonNegative_len.
  apply (NewMessage_ok m Hwf).
Qed.

Lemma message_framing m : wf_msg m -> Message_Framing (message_of m) = Some (framing_of m).
Proof.
  intros (Hne & Hf & _).
  assert (Message_Initialized (message_of m) = true) as Hi.
  { unfold Message_Initialized, message_of. cbn [rawBytes headers body hb_initialized block_of].
    destruct (ms_fields m) as [|f fs] eqn:Ef; [done | ].
    apply Forall_cons in Hf as [Hf _].
    assert (0 < len (encode_msg m)).
    { unfold encode_msg. rewrite Ef, enc_fields_cons. apply enc_field_nonempty in Hf.
      unfold len. rewrite !length_app. destruct (enc_field f); [done | simpl; lia]. }
    rewrite (proj2 (Z.ltb_lt _ _)) by done. by destruct (ms_body m) as [[]|]. }
  unfold Message_Framing. rewrite Hi. cbn [negb].
  unfold message_of at 1 2 3, framing_of. cbn [body rawBytes headers block_of hb_originalBytes].
  unfold encode_msg. destruct (ms_body m) as [[ls last]|]; cbn [spec_body enc_body].
  - case_bool_decide as Hb; [ | done]. cbn [body_of body_bytes] in Hb. rewrite Hb.
    destruct (bytes_equal _ _) eqn:E; [ | done]. apply bytes_equal_eq in E.
    apply (f_equal length) in E. rewrite !length_app in E. simpl in E. lia.
  - by rewrite app_nil_r, bytes_equal_refl.
Qed.

(** C3: splitting a parsed message into its header block, body and framing and
    reconstructing it under the same options returns the same message. *)
Theorem parse_reconstruct_roundtrip data o M framing :
  ParseWithOptions data o = Ret M -> Message_Framing M = Some framing ->
  NewReconstructedMessageWithFraming (headers M) (body M) o framing = Ret M.
Proof.
  intros H Hfr. pose proof (parse_validated _ _ _ H) as Hv.
  apply parse_inv in H as (m & Hwf & Hfit & -> & ->).
  rewrite message_framing in Hfr by done. injection Hfr as <-.
  by apply reconstruct_message.
Qed.

(** ** Insertion *)
Definition prepend_spec (gs : list field_spec) (m : msg_spec) : msg_spec :=
  MkMS (gs ++ ms_fields m) (ms_body m).

Lemma encode_prepend gs m : encode_msg (prepend_spec gs m) = enc_fields gs ++ encode_msg m.
Proof.
  unfold encode_msg. cbn [prepend_spec ms_fields ms_body]. by rewrite enc_fields_app, <- app_assoc.
Qed.

Lemma wf_prepend gs m : Forall wf_field gs -> wf_msg m -> wf_msg (prepend_spec gs m).
Proof.
  intros Hgs (Hne & Hf & Hb). split_and!; [ | by apply Forall_app | done].
  cbn. intros [_ ?]%app_eq_nil. done.
Qed.

Lemma fits_header_app o fs gs :
  fits_header o (fs ++ gs) <->
  fits_header o fs /\ fits_header o gs /\ len fs + len gs <= MaxHeaderFields o.
Proof.
  unfold fits_header. rewrite map_app, concat_app, !Forall_app, len_app.
  pose proof (len_nonneg fs). pose proof (len_nonneg gs). split; intuition lia.
Qed.

(** A block the parser accepts ends with CRLF. *)
Lemma parseHeaderBlock_terminated hb o h :
  parseHeaderBlock hb o = Ret h -> hb_originalBytes h = hb /\ exists s, hb = s ++ crlf.
Proof.
  unfold parseHeaderBlock. intros H.
  apply obind_ret_inv in H as (? & _ & H). apply obind_ret_inv in H as (st & _ & H).
  destruct (hp_start st) as [start|]; [ | done].
  apply obind_ret_inv in H as (fs & Hfs & H).
  apply NewHeaderBlock_spec in H as (_ & E & ->). split; [done | ].
  unfold closeField in Hfs. apply obind_ret_inv in Hfs as (f & Hf & Hfs).
  apply obind_ret_inv in Hfs as (? & _ & Hfs). injection Hfs as <-.
  unfold buildHeaderField in Hf. apply obind_ret_inv in Hf as (? & _ & Hf).
  apply obind_ret_inv in Hf as (orig & _ & Hf).
  destruct (bytes_cut orig crlf) as [[l r]|]; [ | done].
  destruct (index_byte l x3a) as [col|]; [ | done]. apply obind_ret_inv in Hf as (nm & _ & Hf).
  destruct (invalidHeaderFieldNameOffset nm); [done | ].
  apply obind_ret_inv in Hf as (v & _ & Hf).
  apply NewHeaderField_inv in Hf as (_ & v0 & conts & _ & _ & _ & -> & _ & Ho).
  set (prev := hp_fields st) in *. clearbody prev.
  exists (fields_bytes prev ++ nm ++ x3a :: fold_value v0 conts).
  rewrite E. unfold fields_bytes. rewrite map_app, concat_app, <- app_assoc. f_equal.
  simpl. unfold encode_field. by rewrite app_nil_r, <- app_assoc.
Qed.

(** One complete field, as validateInsertionFields demands it. *)
Lemma one_field_inv o field h :
  0 < MaxHeaderFields o -> strict field -> parseHeaderBlock field o = Ret h ->
  HeaderBlock_Len h = 1 ->
  exists g, wf_field g /\ field = enc_field g /\ fits_header o [g].
Proof.
  intros Hpos Hs Hp Hlen. destruct (parseHeaderBlock_terminated _ _ _ Hp) as [_ [s ->]].
  apply strict_terminated in Hs as (hs & Hhs & E).
  apply (parseHeaderBlock_sound _ o hs) in Hp as (fs & Hne & Hwf & Hfit & Ef & ->); try done.
  unfold HeaderBlock_Len in Hlen. cbn in Hlen. rewrite len_fields_of in Hlen.
  destruct fs as [|g [|g' fs]]; [done | | by unfold len in Hlen; simpl in Hlen; lia].
  exists g. apply Forall_cons in Hwf as [Hg _]. by rewrite Ef, enc_fields_one.
Qed.

Lemma insertionFieldsLoop_inv o fields total t :
  ParserOptions_Validate o = Ret tt ->
  insertionFieldsLoop fields o total = Ret t ->
  exists gs, fields = map enc_field gs /\ Forall wf_field gs /\
    (forall g, g ∈ gs -> fits_header o [g]) /\ t = total + len (enc_fields gs).
Proof.
  intros Hv. pose proof (Validate_inv o Hv) as (_ & _ & Hpos & _).
  revert total. induction fields as [|field fields IH]; intros total H; cbn in H.
  - injection H as <-. exists []. split_and!; try done; [by intros g ?%not_elem_of_nil | ].
    by rewrite Z.add_0_r.
  - apply obind_ret_inv in H as (? & _ & H).
    apply obind_ret_inv in H as ([] & Hs & H). apply enforceStrictCRLF_ret in Hs.
    apply obind_ret_inv in H as (h & Hh & H).
    apply obind_ret_inv in H as (? & H1 & H). apply obind_ret_inv in H as (? & _ & H).
    apply IH in H as (gs & -> & Hwf & Hfit & ->).
    apply require_ret_inv, andb_true_iff in H1 as [Hlen _]. apply Z.eqb_eq in Hlen.
    unfold NewReconstructedHeaderBlock in Hh. rewrite Hv in Hh. cbn [obind] in Hh.
    apply obind_ret_inv in Hh as (? & _ & Hh). simpl in Hh.
    apply obind_ret_inv in Hh as (? & _ & Hh). rewrite app_nil_r in Hh.
    apply one_field_inv in Hh as (g & Hg & -> & Hg1); try done.
    exists (g :: gs). split_and!; [done | by constructor | | ].
    + intros g' [-> | ?]%elem_of_cons; auto.
    + rewrite enc_fields_cons, len_app. lia.
Qed.

Lemma insertionFieldsLoop_ok o gs total :
  ParserOptions_Validate o = Ret tt -> Forall wf_field gs -> fits_header o gs -> 0 <= total ->
  total + len (enc_fields gs) <= MaxHeaderBytes o ->
  insertionFieldsLoop (map enc_field gs) o total = Ret (total + len (enc_fields gs)).
Proof.
  intros Hv Hwf. pose proof (Validate_inv o Hv) as (_ & _ & Hpos & _). revert total.
  induction Hwf as [|g gs Hg _ IH]; intros total Hfit Ht0 Ht; cbn [map insertionFieldsLoop].
  - by rewrite Z.add_0_r.
  - pose proof (fits_header_one o g _ Hfit (list_elem_of_here g gs) Hpos) as Hone.
    apply fits_header_cons in Hfit as (_ & _ & Hfit).
    rewrite enc_fields_cons, len_app in Ht |- *. pose proof (len_nonneg (enc_fields gs)). pose proof (len_nonneg (enc_field g)).
    rewrite bool_decide_eq_false_2 by by apply enc_field_nonempty. cbn [negb require obind].
    assert (strict (enc_field g)) as Hs.
    { exists (field_lines g), []. split; [by apply field_lines_plain | ]. split; [constructor | ].
      by rewrite app_nil_r. }
    apply enforceStrictCRLF_ret with (options := o) in Hs. rewrite Hs. cbn [obind].
    pose proof (NewReconstructedHeaderBlock_ok o [g] Hv) as Hr. cbn [map] in Hr.
    rewrite Hr; [ | by constructor | done | rewrite enc_fields_one; lia]. cbn [obind].
    change (HeaderBlock_Len (block_of [g]) =? 1) with true. cbn [block_of hb_originalBytes].
    rewrite enc_fields_one, bytes_equal_refl. cbn [andb require obind].
    rewrite (proj2 (Z.ltb_ge _ _)) by lia. cbn [negb require obind].
    rewrite IH by (done || lia). f_equal. lia.
Qed.

Lemma fits_header_all o gs :
  (forall g, g ∈ gs -> fits_header o [g]) -> len gs <= MaxHeaderFields o -> fits_header o gs.
Proof.
  intros H Hn. split_and!; [ | | done].
  - clear Hn. induction gs as [|g gs IH]; [done | ]. cbn [map concat]. apply Forall_app. split.
    + destruct (H g) as (Hl & _); [apply list_elem_of_here | ].
      cbn [map concat] in Hl. by rewrite app_nil_r in Hl.
    + apply IH. intros g' Hin. apply H. by apply list_elem_of_further.
  - apply Forall_forall. intros g Hin. destruct (H g Hin) as (_ & Hb & _).
    by apply Forall_cons in Hb as [? _].
Qed.

Lemma insertionPreserved_ok gs m :
  Forall wf_field gs -> wf_msg m ->
  insertionPreservedSource (message_of m) (message_of (prepend_spec gs m)) (map enc_field gs) = true.
Proof.
  intros Hgs Hwf. pose proof (wf_prepend gs m Hgs Hwf) as Hwf'.
  unfold insertionPreservedSource, framing_eqb. rewrite !message_framing by done.
  assert (forall m, wf_msg m -> Message_Initialized (message_of m) = true) as Hinit.
  { intros m' Hm'. pose proof (message_framing m' Hm') as Hf. unfold Message_Framing in Hf.
    by destruct (Message_Initialized (message_of m')). }
  rewrite !Hinit by done. cbn [negb orb].
  rewrite bool_decide_eq_true_2 by done. cbn [negb orb message_of body prepend_spec ms_body].
  rewrite bytes_equal_refl. cbn [negb headers message_of block_of hb_fields ms_fields prepend_spec].
  rewrite !map_original_fields, map_app.
  rewrite take_app_length, drop_app_length, !bool_decide_eq_true_2 by done.
  rewrite (proj2 (Nat.eqb_eq _ _)) by (rewrite length_app; lia). done.
Qed.

(** The guards of PrependValidatedFields that do not depend on the fields. *)
Definition insertion_guards (r : InsertionRequest) : Prop :=
  TransportForm_Known (ir_form r) = true /\ Message_Initialized (ir_message r) = true /\
  ParserOptions_Validate (ir_options r) = Ret tt /\
  validateInsertionOptions (ir_options r) = Ret tt.

Lemma fits_prepend o gs m :
  fits_msg o (prepend_spec gs m) <->
  fits_msg o m /\ fits_header o gs /\ len gs + len (ms_fields m) <= MaxHeaderFields o /\
  len (enc_fields gs) + len (enc_fields (ms_fields m)) <= MaxHeaderBytes o /\
  len (enc_fields gs) + len (encode_msg m) <= MaxMessageBytes o.
Proof.
  unfold fits_msg. rewrite encode_prepend. cbn [prepend_spec ms_fields ms_body].
  rewrite fits_header_app, enc_fields_app, !len_app.
  pose proof (len_nonneg (enc_fields gs)). intuition lia.
Qed.

Lemma parse_ok o m :
  ParserOptions_Validate o = Ret tt -> wf_msg m -> fits_msg o m ->
  ParseWithOptions (encode_msg m) o = Ret (message_of m).
Proof. intros Hv Hwf Hfit. by apply parse_complete. Qed.

Lemma PrependValidatedFields_ok r m gs :
  insertion_guards r -> wf_msg m -> rawBytes (ir_message r) = encode_msg m ->
  Message_Framing (ir_message r) = Some (framing_of m) ->
  gs <> [] -> Forall wf_field gs -> ir_fields r = map enc_field gs ->
  fits_msg (ir_options r) (prepend_spec gs m) ->
  PrependValidatedFields r = Ret (message_of (prepend_spec gs m)).
Proof.
  intros (Hform & Hi & Hv & Hvo) Hwf Hraw Hfr Hne Hgs Hf Hfit.
  pose proof Hfit as (Hfm & Hfg & Hn & Hhb & Hmb)%fits_prepend.
  unfold PrependValidatedFields. rewrite Hform, Hi, Hf, bool_decide_eq_false_2
    by by destruct gs. cbn [andb negb require obind].
  rewrite Hv, Hvo, Hraw. cbn [obind]. rewrite parse_ok by done. cbn [obind].
  rewrite message_framing, Hfr by done. unfold framing_eqb at 1.
  rewrite bool_decide_eq_true_2 by done. cbn [require obind].
  unfold validateInsertionFields. cbn [message_of metadata HeaderFields HeaderBytes].
  assert (len (map enc_field gs) = len gs) as -> by (unfold len; by rewrite length_map).
  rewrite (proj2 (Z.ltb_ge _ _)) by lia. cbn [negb require obind].
  pose proof (len_nonneg (enc_fields (ms_fields m))).
  rewrite insertionFieldsLoop_ok by (done || lia). cbn [obind]. rewrite !Z.add_0_l.
  rewrite !(proj2 (Z.ltb_ge _ _)) by lia. cbn [negb require obind].
  rewrite concat_enc_fields, <- encode_prepend, parse_ok by (done || by apply wf_prepend).
  cbn [obind]. by rewrite insertionPreserved_ok.
Qed.

Lemma PrependValidatedFields_inv r M' :
  PrependValidatedFields r = Ret M' ->
  insertion_guards r /\
  exists m gs, wf_msg m /\ rawBytes (ir_message r) = encode_msg m /\
    Message_Framing (ir_message r) = Some (framing_of m) /\
    gs <> [] /\ Forall wf_field gs /\ ir_fields r = map enc_field gs /\
    fits_msg (ir_options r) (prepend_spec gs m) /\ M' = message_of (prepend_spec gs m).
Proof.
  unfold PrependValidatedFields. intros H.
  apply obind_ret_inv in H as (? & Hform & H). apply require_ret_inv in Hform.
  apply obind_ret_inv in H as (? & Hi & H).
  apply require_ret_inv, andb_true_iff in Hi as [Hi Hne].
  apply negb_true_iff, bool_decide_eq_false in Hne.
  apply obind_ret_inv in H as ([] & Hv & H). apply obind_ret_inv in H as ([] & Hvo & H).
  split; [by split_and! | ].
  apply obind_ret_inv in H as (source & Hsrc & H).
  apply parse_inv in Hsrc as (m & Hwf & Hfm & Hraw & ->).
  apply obind_ret_inv in H as (? & Hfr & H). apply require_ret_inv, bool_decide_eq_true in Hfr.
  rewrite message_framing in Hfr by done.
  apply obind_ret_inv in H as (added & Hadd & H).
  apply obind_ret_inv in H as (? & Hhb & H). apply obind_ret_inv in H as (? & Hmb & H).
  apply require_ret_inv, negb_true_iff, Z.ltb_ge in Hhb, Hmb.
  apply obind_ret_inv in H as (ins & Hins & H). ret_inv H.
  unfold validateInsertionFields in Hadd. apply obind_ret_inv in Hadd as (? & Hn & Hadd).
  apply require_ret_inv, negb_true_iff, Z.ltb_ge in Hn.
  apply insertionFieldsLoop_inv in Hadd as (gs & Hf & Hgs & Hg1 & ->); [ | done].
  rewrite Hf in Hn. unfold len at 1 in Hn. rewrite length_map in Hn. fold (len gs) in Hn.
  cbn [message_of metadata HeaderFields HeaderBytes] in Hn, Hhb. rewrite Hraw in Hmb.
  pose proof (len_nonneg (ms_fields m)).
  assert (fits_msg (ir_options r) (prepend_spec gs m)) as Hfit.
  { apply fits_prepend. split_and!; try done; try lia. apply fits_header_all; [done | lia]. }
  exists m, gs. split_and!; try done.
  - intros ->. by destruct (ir_fields r).
  - rewrite Hf, concat_enc_fields, Hraw, <- encode_prepend, parse_ok in Hins
      by (done || by apply wf_prepend). by injection Hins.
Qed.

(** Insertion succeeds exactly when the request's fields are complete
    fields and the extended message is within the limits, and then returns the
    message whose header block starts with the given fields in request order,
    followed by the source's fields, under the source's framing and body. *)
Theorem PrependValidatedFields_refines r M' :
  PrependValidatedFields r = Ret M' <->
  insertion_guards r /\
  exists m gs, wf_msg m /\ rawBytes (ir_message r) = encode_msg m /\
    Message_Framing (ir_message r) = Some (framing_of m) /\
    gs <> [] /\ Forall wf_field gs /\ ir_fields r = map enc_field gs /\
    fits_msg (ir_options r) (prepend_spec gs m) /\ M' = message_of (prepend_spec gs m).
Proof.
  split.
  - intros H. apply PrependValidatedFields_inv in H as (Hg & m & gs & H). by eauto 10.
  - intros (Hg & m & gs & Hwf & Hraw & Hfr & Hne & Hgs & Hf & Hfit & ->).
    by apply (PrependValidatedFields_ok r m gs).
Qed.

Lemma parse_reconstruct_roundtrip_witness :
  exists M, ParseWithOptions sample_bytes DefaultParserOptions = Ret M /\
    NewReconstructedMessageWithFraming (headers M) (body M) DefaultParserOptions
      MessageFramingDelimited = Ret M.
Proof.
  destruct (ParseWithOptions sample_bytes DefaultParserOptions) as [M|e|] eqn:E.
  - exists M. split; [reflexivity | ].
    apply (parse_reconstruct_roundtrip sample_bytes DefaultParserOptions M); [exact E | ].
    vm_compute in E. injection E as <-. vm_compute. reflexivity.
  - vm_compute in E. discriminate.
  - vm_compute in E. discriminate.
Defined.

Lemma checkFieldBytes_no_crash fs o t : no_crash (checkFieldBytes fs o t).
Proof.
  revert t. induction fs as [|f fs IH]; intros t; cbn [checkFieldBytes]; crash_free.
Qed.

Lemma NewReconstructedHeaderBlock_no_crash fs o : no_crash (NewReconstructedHeaderBlock fs o).
Proof.
  unfold NewReconstructedHeaderBlock. crash_free;
    auto using checkFieldBytes_no_crash, parseHeaderBlock_no_crash, ParserOptions_Validate_no_crash.
Qed.

Lemma insertionFieldsLoop_no_crash fs o t : no_crash (insertionFieldsLoop fs o t).
Proof.
  revert t. induction fs as [|f fs IH]; intros t; cbn [insertionFieldsLoop]; crash_free;
    auto using NewReconstructedHeaderBlock_no_crash, enforceStrictCRLF_no_crash.
Qed.

Lemma checkHardLimits_no_crash l : no_crash (checkHardLimits l).
Proof. induction l as [|[[n v] m] l IH]; cbn [checkHardLimits]; crash_free. Qed.

(** Insertion never panics: it returns an extended message or an error. *)
Theorem PrependValidatedFields_total r : PrependValidatedFields r <> Crash.
Proof.
  change (no_crash (PrependValidatedFields r)). unfold PrependValidatedFields, validateInsertionFields.
  crash_free; auto using ParserOptions_Validate_no_crash, ParseWithOptions_no_crash,
    insertionFieldsLoop_no_crash.
  apply checkHardLimits_no_crash.
Qed.
