(* ===== verification/CanonTypes.v ===== *)
(** * Package internal/canonical: errors, limits, options, results and digests

    errors.go, limits.go, options.go, result.go and hash.go.  Tokens such as
    kinds and algorithm names are Go strings; every error of this part has a
    nil cause, so the cause is not a component of [Error] here. *)

From S2P Require Import Prelude GoBytes Sha2 GoBase64.
#[local] Open Scope Z_scope.

(** ** errors.go *)
Inductive ErrorCode :=
  | ErrorCodeUnsupportedAlgorithm | ErrorCodeInvalidOptions | ErrorCodeLimitExceeded
  | ErrorCodeMalformedState | ErrorCodeAmbiguousSelection | ErrorCodeMissingTarget
  | ErrorCodeDuplicateTarget | ErrorCodeInternalMisuse.
Inductive ErrorClass :=
  | ErrorClassUnset | ErrorClassAlgorithm | ErrorClassInvariant | ErrorClassLimit
  | ErrorClassMalformed | ErrorClassAmbiguous | ErrorClassMissing | ErrorClassDuplicate
  | ErrorClassInternal.

Definition Kind := string.
Definition KindBodyHashInput : Kind := "body_hash_input"%string.
Definition KindHeaderHashInput : Kind := "header_hash_input"%string.
Definition KindSignatureInput : Kind := "signature_input"%string.
Definition validKind (kind : Kind) : bool :=
  bool_decide (kind ∈ [KindBodyHashInput; KindHeaderHashInput; KindSignatureInput]).

Definition HashAlgorithm := string.
Definition HashAlgorithmSHA256 : HashAlgorithm := "sha256"%string.
Definition HashAlgorithmSHA512 : HashAlgorithm := "sha512"%string.
Definition HashAlgorithm_Known (a : HashAlgorithm) : bool :=
  bool_decide (a = HashAlgorithmSHA256) || bool_decide (a = HashAlgorithmSHA512).
Definition DraftBaseline : string := "draft-ietf-dkim-dkim2-spec-09"%string.

Record ErrorLocation := MkLoc { loc_Kind : Kind; FieldIndex : Z; TargetNumber : Z }.
Record ErrorDetails := MkDetails {
  Class : ErrorClass; Algorithm : HashAlgorithm; LimitName : string; Limit : Z; Count : Z;
  TargetName : string }.
Record Error := MkError { err_code : ErrorCode; err_location : ErrorLocation; err_details : ErrorDetails }.

Definition classForCode (code : ErrorCode) : ErrorClass :=
  match code with
  | ErrorCodeUnsupportedAlgorithm => ErrorClassAlgorithm
  | ErrorCodeInvalidOptions => ErrorClassInvariant
  | ErrorCodeLimitExceeded => ErrorClassLimit
  | ErrorCodeAmbiguousSelection => ErrorClassAmbiguous
  | ErrorCodeMissingTarget => ErrorClassMissing
  | ErrorCodeDuplicateTarget => ErrorClassDuplicate
  | ErrorCodeInternalMisuse => ErrorClassInternal
  | ErrorCodeMalformedState => ErrorClassMalformed
  end.

Definition tokenByte (b : byte) : bool :=
  in_range x61 b x7a || in_range x41 b x5a || in_range x30 b x39
  || (b =?b x5f) || (b =?b x2d) || (b =?b x2e).
Definition safeDiagnosticToken (value : string) : string :=
  let data := bs value in
  if bool_decide (data = []) then ""%string
  else if 64 <? len data then "redacted"%string
  else if forallb tokenByte data then value else "redacted"%string.

Definition sanitizeLocation (l : ErrorLocation) : ErrorLocation :=
  MkLoc (if validKind (loc_Kind l) then loc_Kind l else ""%string)
        (if FieldIndex l <? 0 then 0 else FieldIndex l) (TargetNumber l).
Definition sanitizeDetails (d : ErrorDetails) : ErrorDetails :=
  MkDetails (Class d) (Algorithm d) (LimitName d)
    (if Limit d <? 0 then 0 else Limit d) (if Count d <? 0 then 0 else Count d) (TargetName d).

Definition newError (code : ErrorCode) (location : ErrorLocation) (d : ErrorDetails) : Error :=
  MkError code (sanitizeLocation location)
    (sanitizeDetails
       (MkDetails (match Class d with ErrorClassUnset => classForCode code | c => c end)
          (safeDiagnosticToken (Algorithm d)) (safeDiagnosticToken (LimitName d))
          (Limit d) (Count d) (safeDiagnosticToken (TargetName d)))).

Definition malformedStateError (kind : Kind) : Error :=
  newError ErrorCodeMalformedState (MkLoc kind 0 0) (MkDetails ErrorClassMalformed "" "" 0 0 "").

(** ** limits.go and options.go *)
Definition defaultMaxBodyInputBytes : Z := Z.shiftl 128 20.
Definition defaultMaxHeaderInputBytes : Z := 2 * 1024 * 1024.
Definition defaultMaxSignatureInputBytes : Z := 2 * 1024 * 1024.
Definition defaultMaxFieldBytes : Z := 128 * 1024.
Definition defaultMaxFieldCount : Z := 4000.
Definition defaultExcludedCounterCount : Z := 10.

Record Limits := MkLimits {
  MaxBodyInputBytes : Z; MaxHeaderInputBytes : Z; MaxSignatureInputBytes : Z;
  MaxFieldBytes : Z; MaxFieldCount : Z; MaxExcludedHeaderCounters : Z }.
Definition DefaultLimits : Limits :=
  MkLimits defaultMaxBodyInputBytes defaultMaxHeaderInputBytes defaultMaxSignatureInputBytes
    defaultMaxFieldBytes defaultMaxFieldCount defaultExcludedCounterCount.

Definition invalidLimitOptionError (limitName : string) (limit : Z) : Error :=
  newError ErrorCodeInvalidOptions (MkLoc "" 0 0)
    (MkDetails ErrorClassInvariant "" limitName limit 0 "").

Definition Limits_Validate (l : Limits) : outcome Error unit :=
  check require (0 <? MaxBodyInputBytes l)
    (invalidLimitOptionError "max_body_input_bytes" (MaxBodyInputBytes l)) ;;
  check require (0 <? MaxHeaderInputBytes l)
    (invalidLimitOptionError "max_header_input_bytes" (MaxHeaderInputBytes l)) ;;
  check require (0 <? MaxSignatureInputBytes l)
    (invalidLimitOptionError "max_signature_input_bytes" (MaxSignatureInputBytes l)) ;;
  check require (0 <? MaxFieldBytes l)
    (invalidLimitOptionError "max_field_bytes" (MaxFieldBytes l)) ;;
  check require (0 <? MaxFieldCount l)
    (invalidLimitOptionError "max_field_count" (MaxFieldCount l)) ;;
  require ((0 <? MaxExcludedHeaderCounters l)
           && (MaxExcludedHeaderCounters l <=? defaultExcludedCounterCount))
    (invalidLimitOptionError "max_excluded_header_counters" (MaxExcludedHeaderCounters l)).

Record Options := MkOptions { opt_Limits : Limits; opt_HashAlgorithm : HashAlgorithm }.
Definition DefaultOptions : Options := MkOptions DefaultLimits HashAlgorithmSHA256.

Definition unsupportedAlgorithmError (kind : Kind) (algorithm : HashAlgorithm) : Error :=
  newError ErrorCodeUnsupportedAlgorithm (MkLoc kind 0 0)
    (MkDetails ErrorClassAlgorithm algorithm "" 0 0 "").

Definition Options_Validate (o : Options) : outcome Error unit :=
  check Limits_Validate (opt_Limits o) ;;
  require (HashAlgorithm_Known (opt_HashAlgorithm o))
    (unsupportedAlgorithmError "" (opt_HashAlgorithm o)).

(** A Canonicalizer carries its options; an Option is a function on them, a
    nil option is [None]. *)
Definition Canonicalizer := Options.
Definition Option_ : Type := Options -> Options.
Definition WithLimits (limits : Limits) : Option_ := fun o => MkOptions limits (opt_HashAlgorithm o).
Definition WithHashAlgorithm (algorithm : HashAlgorithm) : Option_ :=
  fun o => MkOptions (opt_Limits o) algorithm.
Definition NewCanonicalizer (options : list (option Option_)) : outcome Error Canonicalizer :=
  let resolved :=
    foldl (fun o opt => match opt with Some f => f o | None => o end) DefaultOptions options in
  check Options_Validate resolved ;;
  Ret resolved.

(** ** result.go *)
Inductive BodyTerminalAction :=
  | BodyTerminalActionUnspecified | BodyTerminalActionPreserved | BodyTerminalActionAppended
  | BodyTerminalActionCollapsed.

Record ExcludedHeaderCounts := MkCounts {
  Received : Z; ReturnPath : Z; DeliveredTo : Z; AuthenticationResults : Z; XHeader : Z;
  DKIMSignature : Z; ExactUnsigned : Z; ARC : Z; MessageInstance : Z; DKIM2Signature : Z }.
Definition noCounts : ExcludedHeaderCounts := MkCounts 0 0 0 0 0 0 0 0 0 0.

Definition nonNegative (value : Z) : Z := if value <? 0 then 0 else value.

Definition ExcludedHeaderCounts_Total (c : ExcludedHeaderCounts) : Z :=
  nonNegative (Received c) + nonNegative (ReturnPath c) + nonNegative (DeliveredTo c)
  + nonNegative (AuthenticationResults c) + nonNegative (XHeader c)
  + nonNegative (DKIMSignature c) + nonNegative (ExactUnsigned c) + nonNegative (ARC c)
  + nonNegative (MessageInstance c) + nonNegative (DKIM2Signature c).
Definition sanitizeExcludedHeaderCounts (c : ExcludedHeaderCounts) : ExcludedHeaderCounts :=
  MkCounts (nonNegative (Received c)) (nonNegative (ReturnPath c)) (nonNegative (DeliveredTo c))
    (nonNegative (AuthenticationResults c)) (nonNegative (XHeader c))
    (nonNegative (DKIMSignature c)) (nonNegative (ExactUnsigned c)) (nonNegative (ARC c))
    (nonNegative (MessageInstance c)) (nonNegative (DKIM2Signature c)).

Record Metadata := MkMetadata {
  md_Kind : Kind; Draft : string; md_Algorithm : HashAlgorithm; InputBytes : Z; OutputBytes : Z;
  IncludedFields : Z; ExcludedFields : Z; md_Counts : ExcludedHeaderCounts;
  BodyTrailingEmptyLines : Z; md_Action : BodyTerminalAction }.

Definition sanitizeMetadata (kind : Kind) (outputBytes : Z) (m : Metadata) : Metadata :=
  MkMetadata kind
    (if bool_decide (Draft m = ""%string) then DraftBaseline else safeDiagnosticToken (Draft m))
    (if bool_decide (md_Algorithm m = ""%string) then ""%string
     else safeDiagnosticToken (md_Algorithm m))
    (nonNegative (InputBytes m)) outputBytes
    (nonNegative (IncludedFields m)) (nonNegative (ExcludedFields m))
    (sanitizeExcludedHeaderCounts (md_Counts m))
    (nonNegative (BodyTrailingEmptyLines m)) (md_Action m).

Record ByteInput := MkInput { in_kind : Kind; in_bytes : bytes; in_metadata : Metadata }.
Record Digest := MkDigest { dg_algorithm : HashAlgorithm; dg_bytes : bytes; dg_base64 : bytes }.
Record Result := MkResult { res_canonical : ByteInput; res_digest : Digest; res_hasDigest : bool }.

Definition NewCanonicalBytes (kind : Kind) (input : bytes) (m : Metadata) : outcome Error ByteInput :=
  check require (validKind kind)
    (newError ErrorCodeInternalMisuse (MkLoc kind 0 0)
       (MkDetails ErrorClassInternal "" "" 0 0 "canonical_kind")) ;;
  Ret (MkInput kind input (sanitizeMetadata kind (len input) m)).

Definition digestSize (algorithm : HashAlgorithm) : Z :=
  if bool_decide (algorithm = HashAlgorithmSHA256) then 32
  else if bool_decide (algorithm = HashAlgorithmSHA512) then 64 else 0.

Definition NewDigest (algorithm : HashAlgorithm) (digest : bytes) : outcome Error Digest :=
  let expected := digestSize algorithm in
  check require (negb (expected =? 0)) (unsupportedAlgorithmError "" algorithm) ;;
  check require (len digest =? expected)
    (newError ErrorCodeMalformedState (MkLoc "" 0 0)
       (MkDetails ErrorClassMalformed algorithm "digest_bytes" expected (len digest) "")) ;;
  Ret (MkDigest algorithm digest (std_encode digest)).

Definition NewResult (canonical : ByteInput) (digest : Digest) : Result :=
  MkResult canonical digest true.

(** ** hash.go *)
Definition validateDigestInput (c : Canonicalizer) (input : ByteInput) (allowedKinds : list Kind)
    : outcome Error unit :=
  check Options_Validate c ;;
  require (bool_decide (in_kind input ∈ allowedKinds))
    (newError ErrorCodeInternalMisuse (MkLoc (in_kind input) 0 0)
       (MkDetails ErrorClassInternal "" "" 0 0 "digest_input_kind")).

Definition Canonicalizer_Digest (c : Canonicalizer) (input : ByteInput) : outcome Error Digest :=
  check validateDigestInput c input [KindBodyHashInput; KindHeaderHashInput] ;;
  if bool_decide (opt_HashAlgorithm c = HashAlgorithmSHA256) then
    NewDigest HashAlgorithmSHA256 (sha256_Sum256 (in_bytes input))
  else if bool_decide (opt_HashAlgorithm c = HashAlgorithmSHA512) then
    NewDigest HashAlgorithmSHA512 (sha512_Sum512 (in_bytes input))
  else Fail (unsupportedAlgorithmError (in_kind input) (opt_HashAlgorithm c)).

Definition SHA256Digest (c : Canonicalizer) (input : ByteInput) : outcome Error Digest :=
  check validateDigestInput c input [KindSignatureInput] ;;
  NewDigest HashAlgorithmSHA256 (sha256_Sum256 (in_bytes input)).

(** ** Lemmas *)

Definition hash_of (algorithm : HashAlgorithm) (s : bytes) : bytes :=
  if bool_decide (algorithm = HashAlgorithmSHA256) then sha256_Sum256 s else sha512_Sum512 s.
Definition digest_of (algorithm : HashAlgorithm) (s : bytes) : Digest :=
  MkDigest algorithm (hash_of algorithm s) (std_encode (hash_of algorithm s)).

Lemma Options_Validate_known c : Options_Validate c = Ret tt -> HashAlgorithm_Known (opt_HashAlgorithm c) = true.
Proof. unfold Options_Validate. intros H. by apply obind_ret_inv in H as (? & _ & H%require_ret_inv). Qed.

(** With valid options the digest of an allowed input always exists. *)
Lemma Digest_ok c input :
  Options_Validate c = Ret tt -> in_kind input ∈ [KindBodyHashInput; KindHeaderHashInput] ->
  Canonicalizer_Digest c input = Ret (digest_of (opt_HashAlgorithm c) (in_bytes input)).
Proof.
  intros Hv Hk. pose proof (Options_Validate_known c Hv) as Ha.
  unfold Canonicalizer_Digest, validateDigestInput. rewrite Hv. cbn [obind].
  rewrite bool_decide_eq_true_2 by done. cbn [require obind]. unfold digest_of, hash_of.
  unfold HashAlgorithm_Known in Ha. apply orb_true_iff in Ha as [Ha | Ha]; apply bool_decide_eq_true in Ha; rewrite Ha.
  - rewrite bool_decide_eq_true_2 by done. unfold NewDigest.
    change (digestSize HashAlgorithmSHA256) with 32. cbn [Z.eqb negb require obind].
    unfold len. rewrite length_sha256. done.
  - rewrite bool_decide_eq_false_2 by done. rewrite bool_decide_eq_true_2 by done. unfold NewDigest.
    change (digestSize HashAlgorithmSHA512) with 64. cbn [Z.eqb negb require obind].
    unfold len. rewrite length_sha512. done.
Qed.

Lemma canonical_Validate_no_crash c : no_crash (Options_Validate c).
Proof. unfold Options_Validate, Limits_Validate. crash_free. Qed.
