(* ===== verification/CanonBody.v ===== *)
(** * Package internal/canonical: body hash input (body.go)

    [canonicalizeBodyBytes] reduces the empty lines at the end of a body to one
    CRLF; the loop that walks back over trailing CRLFs keeps its index [end] as
    fuel, since every iteration shortens it. *)

From S2P Require Import Prelude GoBytes RawMsg RawBody Sha2 CanonTypes.
#[local] Open Scope Z_scope.

(** The backward loop: [fin] is the loop variable end. *)
Fixpoint trimTrailingLoop (fuel : nat) (body : bytes) (fin removed : nat) : outcome Error (nat * nat) :=
  match fuel with
  | O => Crash
  | S fuel' =>
      if (2 * length crlf <=? fin)%nat then
        let* window := slice body (fin - length crlf * 2) (fin - length crlf) in
        if bytes_equal window crlf
        then trimTrailingLoop fuel' body (fin - length crlf) (S removed)
        else Ret (fin, removed)
      else Ret (fin, removed)
  end.

Definition canonicalizeBodyBytes (body : bytes) : outcome Error (bytes * Z * BodyTerminalAction) :=
  if decide (body = []) then Ret (crlf, 0, BodyTerminalActionAppended)
  else if negb (has_suffix body crlf) then Ret (body ++ crlf, 0, BodyTerminalActionAppended)
  else
    let* (fin, removed) := trimTrailingLoop (S (length body)) body (length body) 0 in
    let action := if (0 <? removed)%nat then BodyTerminalActionCollapsed
                  else BodyTerminalActionPreserved in
    let* canonical := slice body 0 fin in
    Ret (canonical, Z.of_nat removed, action).

Definition bodyLimitExceededError (count limit : Z) : Error :=
  newError ErrorCodeLimitExceeded (MkLoc KindBodyHashInput 0 0)
    (MkDetails ErrorClassLimit "" "max_body_input_bytes" limit count "").

Definition BodyHashInput (c : Canonicalizer) (body : Body) : outcome Error ByteInput :=
  check require (body_initialized body) (malformedStateError KindBodyHashInput) ;;
  let rawBody := body_bytes body in
  let* (canonical, removedTrailingEmptyLines, terminalAction) := canonicalizeBodyBytes rawBody in
  check require (negb (MaxBodyInputBytes (opt_Limits c) <? len canonical))
    (bodyLimitExceededError (len canonical) (MaxBodyInputBytes (opt_Limits c))) ;;
  NewCanonicalBytes KindBodyHashInput canonical
    (MkMetadata "" "" "" (len rawBody) 0 0 0 noCounts removedTrailingEmptyLines terminalAction).

Definition BodyHash (c : Canonicalizer) (body : Body) : outcome Error Result :=
  let* canonical := BodyHashInput c body in
  let* digest := Canonicalizer_Digest c canonical in
  Ret (NewResult canonical digest).

(** ** Specification *)

(** [n] consecutive CRLFs. *)
Fixpoint crlfs (n : nat) : bytes :=
  match n with O => [] | S n' => crlf ++ crlfs n' end.

(** The action for a body that ends with [n] CRLFs. *)
Definition action_of (n : nat) : BodyTerminalAction :=
  match n with
  | O => BodyTerminalActionAppended
  | 1%nat => BodyTerminalActionPreserved
  | _ => BodyTerminalActionCollapsed
  end.

Lemma crlfs_app n m : crlfs (n + m) = crlfs n ++ crlfs m.
Proof. induction n as [|n IH]; [done | ]. simpl. by rewrite IH. Qed.
Lemma crlfs_snoc n : crlfs (S n) = crlfs n ++ crlf.
Proof. replace (S n) with (n + 1)%nat by lia. by rewrite crlfs_app. Qed.
Lemma length_crlfs n : length (crlfs n) = (2 * n)%nat.
Proof. induction n as [|n IH]; [done | ]. cbn [crlfs]. rewrite length_app, IH. simpl. lia. Qed.

(** Every body is a core that does not end in CRLF, followed by CRLFs. *)
Lemma body_decompose s : exists core n, s = core ++ crlfs n /\ has_suffix core crlf = false.
Proof.
  remember (length s) as k eqn:E. revert s E. induction k as [k IH] using lt_wf_ind. intros s ->.
  destruct (has_suffix s crlf) eqn:Hs; [ | by exists s, 0%nat; rewrite app_nil_r].
  apply has_suffix_spec in Hs as [t ->].
  destruct (IH (length t)) with (s := t) as (core & n & -> & Hc); [rewrite length_app; simpl; lia | done | ].
  exists core, (S n). by rewrite crlfs_snoc, app_assoc.
Qed.

Lemma suffix_window core m w :
  (2 <= length core)%nat -> w = drop (length core - 2) core ->
  slice (E := Error) (core ++ crlf ++ m) (length core + 2 - length crlf * 2) (length core + 2 - length crlf)
  = Ret w.
Proof.
  intros Hl ->. simpl length. rewrite slice_ok by (rewrite length_app; lia). f_equal.
  rewrite drop_app_le by lia.
  replace (length core + 2 - 2 * 2)%nat with (length core - 2)%nat by lia.
  replace (length core + 2 - 2 - (length core - 2))%nat with (length (drop (length core - 2) core))
    by (rewrite length_drop; lia).
  apply take_app_length.
Qed.

Lemma trimTrailingLoop_spec fuel core n m removed :
  has_suffix core crlf = false -> (n < fuel)%nat ->
  trimTrailingLoop fuel (core ++ crlfs (S n) ++ m) (length (core ++ crlfs (S n))) removed =
  Ret (length (core ++ crlf), (removed + n)%nat).
Proof.
  intros Hc. revert fuel m removed. induction n as [|n IH]; intros fuel m removed Hf;
    (destruct fuel as [|fuel]; [lia | ]); cbn [trimTrailingLoop].
  - change (crlfs 1) with crlf. rewrite Nat.add_0_r.
    destruct (Nat.leb_spec (2 * length crlf) (length (core ++ crlf))) as [Hl | _]; [ | done].
    rewrite length_app in Hl |- *. simpl length in Hl |- *.
    pose proof (suffix_window core m _ ltac:(lia) eq_refl) as Hw. simpl length in Hw.
    rewrite Hw. cbn [obind].
    unfold has_suffix in Hc. rewrite (proj2 (Nat.leb_le _ _)) in Hc by (simpl; lia). simpl in Hc.
    by rewrite Hc.
  - rewrite (proj2 (Nat.leb_le _ _)) by (rewrite length_app, length_crlfs; simpl; lia).
    rewrite crlfs_snoc. set (c' := core ++ crlfs (S n)).
    replace (core ++ (crlfs (S n) ++ crlf) ++ m) with (c' ++ crlf ++ m)
      by (unfold c'; by rewrite <- !app_assoc).
    replace (length (core ++ crlfs (S n) ++ crlf)) with (length c' + 2)%nat
      by (unfold c'; rewrite !length_app; simpl; lia).
    rewrite (suffix_window c' m crlf).
    + cbn [obind]. rewrite bytes_equal_refl.
      replace (length c' + 2 - length crlf)%nat with (length c') by (simpl; lia).
      unfold c'. rewrite <- app_assoc. rewrite IH by lia. f_equal. f_equal. lia.
    + unfold c'. rewrite length_app, length_crlfs. lia.
    + unfold c'. rewrite crlfs_snoc, app_assoc, length_app.
      rewrite Nat.add_sub. by rewrite drop_app_length.
Qed.

(** The canonical body of core and trailing CRLFs. *)
Lemma canonicalizeBodyBytes_spec core n :
  has_suffix core crlf = false ->
  canonicalizeBodyBytes (core ++ crlfs n) =
  Ret (core ++ crlf, Z.of_nat (Nat.pred n), action_of n).
Proof.
  intros Hc. unfold canonicalizeBodyBytes. destruct n as [|n].
  - rewrite app_nil_r. destruct (decide (core = [])) as [-> | Hne]; [done | ]. by rewrite Hc.
  - destruct (decide _) as [E | _].
    { apply app_eq_nil in E as [_ E]. done. }
    rewrite crlfs_snoc at 1. rewrite app_assoc, has_suffix_app. cbn [negb].
    pose proof (trimTrailingLoop_spec (S (length (core ++ crlfs (S n)))) core n [] 0 Hc) as Ht.
    rewrite app_nil_r in Ht. rewrite Ht by (rewrite length_app, length_crlfs; lia). cbn [obind Nat.add].
    rewrite slice_ok by (rewrite !length_app, length_crlfs; simpl; lia). cbn [obind].
    rewrite drop_0, Nat.sub_0_r. cbn [crlfs]. rewrite app_assoc, take_app_length.
    by destruct n.
Qed.

(** The canonical body is the body's core, without its trailing CRLFs,
    followed by one CRLF; the removed lines and the action are those of the
    number of CRLFs the body ends with.  The decomposition covers every body. *)
Theorem canonicalizeBodyBytes_core body :
  exists core n, body = core ++ crlfs n /\ has_suffix core crlf = false /\
    canonicalizeBodyBytes body = Ret (core ++ crlf, Z.of_nat (Nat.pred n), action_of n).
Proof.
  destruct (body_decompose body) as (core & n & -> & Hc). exists core, n.
  split; [done | ]. split; [done | ]. by apply canonicalizeBodyBytes_spec.
Qed.

(** Canonical bytes as a total function. *)
Definition canonical_body (body : bytes) : bytes :=
  match canonicalizeBodyBytes body with Ret (c, _, _) => c | _ => [] end.

Lemma canonical_body_spec core n :
  has_suffix core crlf = false -> canonical_body (core ++ crlfs n) = core ++ crlf.
Proof. intros Hc. unfold canonical_body. by rewrite canonicalizeBodyBytes_spec. Qed.

(** C7: canonicalisation is idempotent, ignores any number of empty lines at
    the end of the body, and identifies nothing else: two bodies have the same
    canonical bytes exactly when they differ only in their trailing CRLFs. *)
Theorem canonical_body_equivalence a b :
  canonical_body (canonical_body a) = canonical_body a /\
  canonical_body (a ++ crlf) = canonical_body a /\
  (canonical_body a = canonical_body b <->
   exists core n m, a = core ++ crlfs n /\ b = core ++ crlfs m).
Proof.
  assert (forall core n m, canonical_body (core ++ crlfs n) = canonical_body (core ++ crlfs m)) as Hsame.
  { intros core n m. destruct (body_decompose core) as (c & k & -> & Hc).
    rewrite <- !app_assoc, <- !crlfs_app, !canonical_body_spec by done. done. }
  destruct (body_decompose a) as (ca & na & Ea & Ha).
  destruct (body_decompose b) as (cb & nb & Eb & Hb).
  split_and!.
  - rewrite Ea, (canonical_body_spec ca na) by done. by apply (canonical_body_spec ca 1).
  - change crlf with (crlfs 1). pose proof (Hsame a 1%nat 0%nat) as H.
    change (crlfs 0) with (@nil byte) in H. by rewrite (app_nil_r a) in H.
  - split.
    + intros H. rewrite Ea, Eb, !canonical_body_spec in H by done.
      apply app_inj_2 in H as [-> _]; [ | done]. by exists cb, na, nb.
    + intros (core & n & m & -> & ->). apply Hsame.
Qed.

(** Under valid options the body hash of an initialised body fails only
    when the canonical body exceeds its limit, and is otherwise the selected
    SHA-2 digest of the canonical body with its padded base64 text. *)
Theorem BodyHash_functional c body :
  Options_Validate c = Ret tt -> body_initialized body = true ->
  let canonical := canonical_body (body_bytes body) in
  if MaxBodyInputBytes (opt_Limits c) <? len canonical
  then BodyHash c body =
       Fail (bodyLimitExceededError (len canonical) (MaxBodyInputBytes (opt_Limits c)))
  else exists input, BodyHash c body = Ret (NewResult input (digest_of (opt_HashAlgorithm c) canonical)) /\
       in_bytes input = canonical /\ in_kind input = KindBodyHashInput /\
       OutputBytes (in_metadata input) = len canonical.
Proof.
  intros Hv Hi. cbn zeta. destruct (body_decompose (body_bytes body)) as (core & n & E & Hc).
  unfold BodyHash, BodyHashInput. rewrite Hi. cbn [require obind].
  rewrite E, canonical_body_spec, canonicalizeBodyBytes_spec by done. cbn [obind].
  destruct (_ <? _); [done | ]. cbn [negb require obind].
  unfold NewCanonicalBytes. change (validKind KindBodyHashInput) with true. cbn [require obind].
  rewrite Digest_ok; [ | done | apply list_elem_of_here]. cbn [obind]. eexists. split_and!; done.
Qed.

Lemma BodyHash_functional_witness :
  let body := MkBody (bs "a" ++ crlf ++ crlf) [] true in
  Options_Validate DefaultOptions = Ret tt /\
  exists input, BodyHash DefaultOptions body =
    Ret (NewResult input (digest_of HashAlgorithmSHA256 (bs "a" ++ crlf))).
Proof.
  split; [reflexivity | ].
  pose proof (BodyHash_functional DefaultOptions (MkBody (bs "a" ++ crlf ++ crlf) [] true)
                eq_refl eq_refl) as H.
  destruct H as (input & H & _). exists input. exact H.
Defined.
