(* ===== verification/CanonHeader.v ===== *)
(** * Package internal/canonical: header hash input (header.go, relevance.go)

    Header fields outside the exclusion classes are canonicalised, sorted by
    name with repeated fields in reverse order, and concatenated. *)

From S2P Require Import Prelude GoBytes Sha2 RawMsg RawBody RawParser RawSpec RawInsertion CanonTypes CanonBody.
#[local] Open Scope Z_scope.

(** ** Value canonicalisation *)
Definition isHeaderWSP (b : byte) : bool := (b =?b x20) || (b =?b x09).

(** The two index loops: from the front, then from the back of the rest. *)
Definition trimHeaderValueWSP (value : bytes) : bytes :=
  trim_bytes isHeaderWSP value.

Fixpoint compressLoop (inWSP : bool) (value : bytes) : bytes :=
  match value with
  | [] => []
  | b :: rest =>
      if isHeaderWSP b then
        if inWSP then compressLoop true rest else x20 :: compressLoop true rest
      else b :: compressLoop false rest
  end.
Definition compressHeaderValueWSP (value : bytes) : bytes := compressLoop false value.

Definition canonicalizeHeaderFieldBytes (nameLower unfoldedValue : bytes) : bytes :=
  nameLower ++ [x3a] ++ compressHeaderValueWSP (trimHeaderValueWSP unfoldedValue) ++ crlf.

(** ** Exclusion classes *)
Inductive excludedHeaderKind :=
  | excludedHeaderNone | excludedHeaderReceived | excludedHeaderReturnPath
  | excludedHeaderDeliveredTo | excludedHeaderAuthenticationResults | excludedHeaderX
  | excludedHeaderDKIMSignature | excludedHeaderExactUnsigned | excludedHeaderARC
  | excludedHeaderMessageInstance | excludedHeaderDKIM2Signature.

#[export] Instance excludedHeaderKind_eq_dec : EqDecision excludedHeaderKind.
Proof. solve_decision. Defined.

Definition exactUnsignedHeaderName (nameLower : bytes) : bool :=
  bool_decide (nameLower ∈ [bs "apparently-to"; bs "dl-expansion-history"; bs "original-recipient";
                            bs "sio-label-history"; bs "x400-received"; bs "x400-trace"]).

Definition excludedHeaderKindForName (n : bytes) : excludedHeaderKind :=
  if bytes_equal n (bs "received") || has_prefix n (bs "received-") then excludedHeaderReceived
  else if bytes_equal n (bs "return-path") then excludedHeaderReturnPath
  else if bytes_equal n (bs "delivered-to") then excludedHeaderDeliveredTo
  else if bytes_equal n (bs "authentication-results") then excludedHeaderAuthenticationResults
  else if has_prefix n (bs "x-") then excludedHeaderX
  else if bytes_equal n (bs "dkim-signature") then excludedHeaderDKIMSignature
  else if exactUnsignedHeaderName n then excludedHeaderExactUnsigned
  else if bytes_equal n (bs "arc-authentication-results") || bytes_equal n (bs "arc-message-signature")
          || bytes_equal n (bs "arc-seal") then excludedHeaderARC
  else if bytes_equal n (bs "message-instance") then excludedHeaderMessageInstance
  else if bytes_equal n (bs "dkim2-signature") then excludedHeaderDKIM2Signature
  else excludedHeaderNone.

(** One counter incremented; [None] is the code's [false] for a relevant name. *)
Definition countExcludedHeader (n : bytes) (c : ExcludedHeaderCounts) : option ExcludedHeaderCounts :=
  let '(MkCounts r rp dt ar xh ds eu arc mi d2) := c in
  match excludedHeaderKindForName n with
  | excludedHeaderReceived => Some (MkCounts (r + 1) rp dt ar xh ds eu arc mi d2)
  | excludedHeaderReturnPath => Some (MkCounts r (rp + 1) dt ar xh ds eu arc mi d2)
  | excludedHeaderDeliveredTo => Some (MkCounts r rp (dt + 1) ar xh ds eu arc mi d2)
  | excludedHeaderAuthenticationResults => Some (MkCounts r rp dt (ar + 1) xh ds eu arc mi d2)
  | excludedHeaderX => Some (MkCounts r rp dt ar (xh + 1) ds eu arc mi d2)
  | excludedHeaderDKIMSignature => Some (MkCounts r rp dt ar xh (ds + 1) eu arc mi d2)
  | excludedHeaderExactUnsigned => Some (MkCounts r rp dt ar xh ds (eu + 1) arc mi d2)
  | excludedHeaderARC => Some (MkCounts r rp dt ar xh ds eu (arc + 1) mi d2)
  | excludedHeaderMessageInstance => Some (MkCounts r rp dt ar xh ds eu arc (mi + 1) d2)
  | excludedHeaderDKIM2Signature => Some (MkCounts r rp dt ar xh ds eu arc mi (d2 + 1))
  | excludedHeaderNone => None
  end.

(** relevance.go, for an initialised classifier. *)
Definition IsRelevantHeader (initialized : bool) (nameLower : bytes) : outcome Error bool :=
  check require (initialized && bool_decide (canonicalHeaderLookupName nameLower = Some nameLower))
    (malformedStateError KindHeaderHashInput) ;;
  Ret (bool_decide (excludedHeaderKindForName nameLower = excludedHeaderNone)).

(** ** Records, sorting and the hash input *)
Record headerFieldRecord := MkRecord {
  rec_nameLower : bytes; originalIndex : Z; rec_canonicalBytes : bytes }.

Definition headerRecordLess (a b : headerFieldRecord) : bool :=
  if negb (bytes_equal (rec_nameLower a) (rec_nameLower b))
  then bytes_ltb (rec_nameLower a) (rec_nameLower b)
  else originalIndex b <? originalIndex a.
Definition sortHeaderFieldRecords (records : list headerFieldRecord) : list headerFieldRecord :=
  slice_stable headerRecordLess records.

Definition headerLimitExceededError (limitName : string) (count limit fieldIndex : Z) : Error :=
  newError ErrorCodeLimitExceeded (MkLoc KindHeaderHashInput fieldIndex 0)
    (MkDetails ErrorClassLimit "" limitName limit count "").

(** The first loop of HeaderHashInput: records in field order, and counters. *)
Fixpoint collectRecords (c : Canonicalizer) (fields : list HeaderField) (counts : ExcludedHeaderCounts)
    : outcome Error (list headerFieldRecord * ExcludedHeaderCounts) :=
  match fields with
  | [] => Ret ([], counts)
  | field :: rest =>
      match countExcludedHeader (nameLower field) counts with
      | Some counts' => collectRecords c rest counts'
      | None =>
          let canonicalBytes := canonicalizeHeaderFieldBytes (nameLower field) (unfoldedValue field) in
          check require (negb (MaxFieldBytes (opt_Limits c) <? len canonicalBytes))
            (headerLimitExceededError "max_field_bytes" (len canonicalBytes)
               (MaxFieldBytes (opt_Limits c)) (hf_index field)) ;;
          let* (records, counts') := collectRecords c rest counts in
          Ret (MkRecord (nameLower field) (hf_index field) canonicalBytes :: records, counts')
      end
  end.

(** The second loop: concatenation under the total limit. *)
Fixpoint appendRecords (limit : Z) (records : list headerFieldRecord) (canonical : bytes)
    : outcome Error bytes :=
  match records with
  | [] => Ret canonical
  | record :: rest =>
      let total := len canonical + len (rec_canonicalBytes record) in
      check require (negb (limit <? total))
        (headerLimitExceededError "max_header_input_bytes" total limit (originalIndex record)) ;;
      appendRecords limit rest (canonical ++ rec_canonicalBytes record)
  end.

Definition HeaderHashInput (c : Canonicalizer) (h : HeaderBlock) : outcome Error ByteInput :=
  check require (hb_initialized h) (malformedStateError KindHeaderHashInput) ;;
  let fields := hb_fields h in
  check require (negb (MaxFieldCount (opt_Limits c) <? len fields))
    (headerLimitExceededError "max_field_count" (len fields) (MaxFieldCount (opt_Limits c)) 0) ;;
  let* (records, counts) := collectRecords c fields noCounts in
  let* canonical := appendRecords (MaxHeaderInputBytes (opt_Limits c)) (sortHeaderFieldRecords records) [] in
  NewCanonicalBytes KindHeaderHashInput canonical
    (MkMetadata "" "" "" (len (hb_originalBytes h)) 0 (len records) (ExcludedHeaderCounts_Total counts)
       counts 0 BodyTerminalActionUnspecified).

Definition HeaderHash (c : Canonicalizer) (h : HeaderBlock) : outcome Error Result :=
  let* canonical := HeaderHashInput c h in
  let* digest := Canonicalizer_Digest c canonical in
  Ret (NewResult canonical digest).

(** ** White space: the canonical value is the words joined by single spaces *)
Fixpoint words (v : bytes) : list bytes :=
  match v with
  | [] => []
  | b :: rest =>
      if isHeaderWSP b then words rest
      else match rest with
           | [] => [[b]]
           | c :: _ =>
               if isHeaderWSP c then [b] :: words rest
               else match words rest with w :: ws => (b :: w) :: ws | [] => [[b]] end
           end
  end.
Fixpoint join_words (ws : list bytes) : bytes :=
  match ws with
  | [] => []
  | [w] => w
  | w :: rest => w ++ x20 :: join_words rest
  end.

Definition ends_dark (v : bytes) : Prop := forall t b, v = t ++ [b] -> isHeaderWSP b = false.

Lemma ends_dark_tail b v : ends_dark (b :: v) -> ends_dark v.
Proof. intros H t c ->. by apply (H (b :: t) c). Qed.

Lemma words_nonempty v : ends_dark v -> v <> [] -> words v <> [].
Proof.
  induction v as [|b v IH]; [done | ]. intros H _. cbn [words].
  destruct (isHeaderWSP b) eqn:Hb.
  - apply IH; [by eapply ends_dark_tail | ]. intros ->. by rewrite (H [] b) in Hb.
  - destruct v as [|c v]; [done | ]. destruct (isHeaderWSP c); [done | ]. by destruct (words _).
Qed.

Lemma join_words_cons w ws : ws <> [] -> join_words (w :: ws) = w ++ x20 :: join_words ws.
Proof. by destruct ws. Qed.

Lemma compressLoop_words v :
  ends_dark v ->
  compressLoop true v = join_words (words v) /\
  compressLoop false v =
    match v with b :: _ => if isHeaderWSP b then x20 :: join_words (words v) else join_words (words v)
               | [] => [] end.
Proof.
  induction v as [|b v IH]; [done | ]. intros H. pose proof (ends_dark_tail b v H) as Hv.
  destruct (IH Hv) as [H1 H2]. cbn [compressLoop words].
  destruct (isHeaderWSP b) eqn:Hb; [by rewrite H1 | ].
  assert (b :: compressLoop false v =
          join_words match v with [] => [[b]] | c :: _ =>
            if isHeaderWSP c then [b] :: words v
            else match words v with w :: ws => (b :: w) :: ws | [] => [[b]] end end) as ->; [ | done].
  rewrite H2. destruct v as [|c v]; [done | ].
  destruct (isHeaderWSP c) eqn:Hc.
  - rewrite join_words_cons; [done | ]. by apply words_nonempty.
  - pose proof (words_nonempty (c :: v) Hv ltac:(done)) as Hne.
    destruct (words (c :: v)) as [|w ws]; [done | ]. by destruct ws.
Qed.

Lemma words_drop_while v : words (drop_while isHeaderWSP v) = words v.
Proof.
  induction v as [|b v IH]; [done | ]. cbn [drop_while]. destruct (isHeaderWSP b) eqn:Hb; [ | done].
  rewrite IH. cbn [words]. by rewrite Hb.
Qed.

Lemma words_snoc_wsp v b : isHeaderWSP b = true -> words (v ++ [b]) = words v.
Proof.
  intros Hb. induction v as [|c v IH]; cbn [app words]; [by rewrite Hb | ].
  destruct (isHeaderWSP c) eqn:Hc; [done | ]. rewrite IH.
  destruct v as [|d v]; cbn [app]; [by rewrite Hb | done].
Qed.

Lemma words_reverse_drop v : words (reverse (drop_while isHeaderWSP v)) = words (reverse v).
Proof.
  induction v as [|b v IH]; [done | ]. cbn [drop_while]. destruct (isHeaderWSP b) eqn:Hb; [ | done].
  by rewrite IH, reverse_cons, words_snoc_wsp.
Qed.

Lemma trim_ends_dark v : ends_dark (trimHeaderValueWSP v).
Proof.
  intros t b E. unfold trimHeaderValueWSP, trim_bytes in E. apply (f_equal reverse) in E.
  rewrite reverse_involutive, reverse_app, reverse_singleton in E. by eapply drop_while_head.
Qed.

Lemma words_trim v : words (trimHeaderValueWSP v) = words v.
Proof.
  unfold trimHeaderValueWSP, trim_bytes. by rewrite words_reverse_drop, reverse_involutive, words_drop_while.
Qed.

Lemma trim_head_dark v b t : trimHeaderValueWSP v = b :: t -> isHeaderWSP b = false.
Proof.
  unfold trimHeaderValueWSP, trim_bytes. intros E. set (u := drop_while isHeaderWSP v) in *.
  destruct (isHeaderWSP b) eqn:Hb; [ | done]. exfalso.
  destruct (drop_while_split isHeaderWSP (reverse u)) as (k & Hk & _). apply (f_equal reverse) in Hk.
  rewrite reverse_involutive, reverse_app, E in Hk. cbn [app] in Hk.
  unfold u in Hk. apply drop_while_head in Hk. by rewrite Hk in Hb.
Qed.

(** The canonical value depends on the words of the value only. *)
Lemma canonical_value_words v :
  compressHeaderValueWSP (trimHeaderValueWSP v) = join_words (words v).
Proof.
  destruct (compressLoop_words _ (trim_ends_dark v)) as [_ H].
  unfold compressHeaderValueWSP. rewrite H, words_trim.
  destruct (trimHeaderValueWSP v) as [|b t] eqn:E; [by rewrite <- words_trim, E | ].
  by rewrite (trim_head_dark v b t E).
Qed.

Definition dark (w : bytes) : Prop := w <> [] /\ Forall (fun b => isHeaderWSP b = false) w.

Lemma words_dark v : Forall dark (words v).
Proof.
  induction v as [|b v IH]; [constructor | ]. cbn [words].
  destruct (isHeaderWSP b) eqn:Hb; [done | ].
  destruct v as [|c v]; [by repeat constructor | ].
  destruct (isHeaderWSP c); [constructor; [by repeat constructor | done] | ].
  destruct (words (c :: v)) as [|w ws]; [by repeat constructor | ].
  apply Forall_cons in IH as [[_ Hw] IH]. constructor; [ | done]. by split; [ | constructor].
Qed.

Lemma words_app_sp w v : dark w -> words (w ++ x20 :: v) = w :: words v.
Proof.
  intros [Hne Hw]. induction Hw as [|b w Hb Hw IH]; [done | ]. cbn [app words]. rewrite Hb.
  destruct w as [|c w]; [done | ]. cbn [app] in *. pose proof (Forall_inv Hw) as Hc.
  simpl in Hc. rewrite Hc, IH by done. done.
Qed.

Lemma words_one w : dark w -> words w = [w].
Proof.
  intros [Hne Hw]. induction Hw as [|b w Hb Hw IH]; [done | ]. cbn [words]. rewrite Hb.
  destruct w as [|c w]; [done | ]. pose proof (Forall_inv Hw) as Hc.
  simpl in Hc. rewrite Hc, IH by done. done.
Qed.

Lemma words_join ws : Forall dark ws -> words (join_words ws) = ws.
Proof.
  induction 1 as [|w ws Hw Hws IH]; [done | ].
  destruct ws as [|w' ws]; [by apply words_one | ]. rewrite join_words_cons by done.
  by rewrite words_app_sp, IH.
Qed.

(** Canonicalising a value trims it and reduces every run of white space
    to one space: the result is the value's words joined by single spaces.
    Values are identified exactly when they have the same words, and a
    canonical value is its own canonical form. *)
Theorem header_value_canonical n v v' :
  canonicalizeHeaderFieldBytes n v = n ++ [x3a] ++ join_words (words v) ++ crlf /\
  (canonicalizeHeaderFieldBytes n v = canonicalizeHeaderFieldBytes n v' <-> words v = words v') /\
  canonicalizeHeaderFieldBytes n (join_words (words v)) = canonicalizeHeaderFieldBytes n v.
Proof.
  unfold canonicalizeHeaderFieldBytes. rewrite !canonical_value_words. split_and!; [done | | ].
  - split; [ | by intros ->]. intros H%app_inv_head%app_inv_head%app_inv_tail.
    rewrite <- (words_join (words v)), <- (words_join (words v')), H by apply words_dark. done.
  - by rewrite words_join by apply words_dark.
Qed.

(** ** The hash input as a function of the fields *)
Definition relevant (f : HeaderField) : Prop :=
  excludedHeaderKindForName (nameLower f) = excludedHeaderNone.
#[export] Instance relevant_dec f : Decision (relevant f).
Proof. unfold relevant. apply _. Defined.

Definition field_canonical (f : HeaderField) : bytes :=
  canonicalizeHeaderFieldBytes (nameLower f) (unfoldedValue f).
Definition field_record (f : HeaderField) : headerFieldRecord :=
  MkRecord (nameLower f) (hf_index f) (field_canonical f).
Definition header_records (fields : list HeaderField) : list headerFieldRecord :=
  map field_record (filter relevant fields).
Definition header_input (fields : list HeaderField) : bytes :=
  concat (map rec_canonicalBytes (sortHeaderFieldRecords (header_records fields))).

Definition fits_input (c : Canonicalizer) (fields : list HeaderField) : Prop :=
  len fields <= MaxFieldCount (opt_Limits c) /\
  Forall (fun f => relevant f -> len (field_canonical f) <= MaxFieldBytes (opt_Limits c)) fields /\
  len (header_input fields) <= MaxHeaderInputBytes (opt_Limits c).

Lemma countExcludedHeader_None n c : countExcludedHeader n c = None <-> excludedHeaderKindForName n = excludedHeaderNone.
Proof. destruct c. unfold countExcludedHeader. by destruct (excludedHeaderKindForName n). Qed.

Definition counts_nonneg (c : ExcludedHeaderCounts) : Prop := sanitizeExcludedHeaderCounts c = c.

Lemma nonNegative_id z : nonNegative z = z <-> 0 <= z.
Proof. unfold nonNegative. destruct (Z.ltb_spec z 0); lia. Qed.

Lemma countExcludedHeader_total n c c' :
  counts_nonneg c -> countExcludedHeader n c = Some c' ->
  counts_nonneg c' /\ ExcludedHeaderCounts_Total c' = ExcludedHeaderCounts_Total c + 1.
Proof.
  unfold counts_nonneg, sanitizeExcludedHeaderCounts, ExcludedHeaderCounts_Total.
  destruct c as [a1 a2 a3 a4 a5 a6 a7 a8 a9 a10]. simpl. intros H.
  injection H as H1 H2 H3 H4 H5 H6 H7 H8 H9 H10.
  pose proof (fun z => proj1 (nonNegative_id z)) as Hnn.
  apply Hnn in H1, H2, H3, H4, H5, H6, H7, H8, H9, H10.
  assert (forall z, 0 <= z -> nonNegative z = z) as Hid by (intros; by apply nonNegative_id).
  destruct (excludedHeaderKindForName n); intros [= <-]; simpl; rewrite !Hid by lia; (split; [done | lia]).
Qed.

Lemma collectRecords_ok c fields counts :
  counts_nonneg counts ->
  Forall (fun f => relevant f -> len (field_canonical f) <= MaxFieldBytes (opt_Limits c)) fields ->
  exists counts', collectRecords c fields counts = Ret (header_records fields, counts') /\
    counts_nonneg counts' /\
    ExcludedHeaderCounts_Total counts' =
    ExcludedHeaderCounts_Total counts + (len fields - len (header_records fields)).
Proof.
  intros Hc Hf. revert counts Hc. induction Hf as [|f fields Hf _ IH]; intros counts Hc.
  - exists counts. split_and!; [done | done | ]. unfold len. simpl. lia.
  - cbn [collectRecords]. unfold header_records. rewrite filter_cons.
    destruct (countExcludedHeader (nameLower f) counts) as [counts1|] eqn:E.
    + rewrite decide_False. 2: { intros Hr. apply (countExcludedHeader_None _ counts) in Hr. congruence. }
      apply countExcludedHeader_total in E as [Hc1 Ht]; [ | done].
      destruct (IH counts1 Hc1) as (counts' & -> & Hc' & Ht'). exists counts'.
      split_and!; [done | done | ]. rewrite len_cons. unfold header_records in Ht'. lia.
    + apply countExcludedHeader_None in E. rewrite decide_True by done. specialize (Hf E).
      unfold field_canonical in Hf. rewrite (proj2 (Z.ltb_ge _ _)) by done. cbn [negb require obind].
      destruct (IH counts Hc) as (counts' & -> & Hc' & Ht'). exists counts'.
      split_and!; [done | done | ]. cbn [map]. rewrite !len_cons. unfold header_records in Ht'. lia.
Qed.

Lemma collectRecords_inv c fields counts r :
  collectRecords c fields counts = Ret r ->
  Forall (fun f => relevant f -> len (field_canonical f) <= MaxFieldBytes (opt_Limits c)) fields.
Proof.
  revert counts r. induction fields as [|f fields IH]; intros counts r H; [constructor | ].
  cbn [collectRecords] in H. destruct (countExcludedHeader (nameLower f) counts) eqn:E.
  - constructor; [ | by eapply IH]. intros Hr. apply (countExcludedHeader_None _ counts) in Hr. congruence.
  - apply obind_ret_inv in H as (? & Hb & H). apply obind_ret_inv in H as ([rs c'] & H & _).
    constructor; [ | by eapply IH]. intros _. apply require_ret_inv, negb_true_iff, Z.ltb_ge in Hb. done.
Qed.

Lemma appendRecords_ok limit records acc :
  len (acc ++ concat (map rec_canonicalBytes records)) <= limit ->
  appendRecords limit records acc = Ret (acc ++ concat (map rec_canonicalBytes records)).
Proof.
  revert acc. induction records as [|r records IH]; intros acc; cbn [appendRecords map concat].
  - by rewrite app_nil_r.
  - intros Hle. rewrite !len_app in Hle.
    pose proof (len_nonneg (concat (map rec_canonicalBytes records))).
    rewrite (proj2 (Z.ltb_ge _ _)) by lia. cbn [negb require obind].
    rewrite IH by (rewrite !len_app; lia). by rewrite <- app_assoc.
Qed.

Lemma appendRecords_inv limit records acc r :
  len acc <= limit -> appendRecords limit records acc = Ret r ->
  r = acc ++ concat (map rec_canonicalBytes records) /\ len r <= limit.
Proof.
  revert acc. induction records as [|x records IH]; intros acc Ha; cbn [appendRecords map concat].
  - rewrite app_nil_r. by intros [= <-].
  - intros H. apply obind_ret_inv in H as (? & Hb%require_ret_inv & H).
    apply negb_true_iff, Z.ltb_ge in Hb.
    apply IH in H; [by rewrite <- app_assoc in H | rewrite len_app; lia].
Qed.

Lemma collectRecords_no_crash c fields counts : no_crash (collectRecords c fields counts).
Proof. revert counts. induction fields as [|f fs IH]; intros cs; cbn [collectRecords]; crash_free. Qed.
Lemma appendRecords_no_crash limit records acc : no_crash (appendRecords limit records acc).
Proof. revert acc. induction records as [|r rs IH]; intros acc; cbn [appendRecords]; crash_free. Qed.

Lemma Limits_positive c :
  Options_Validate c = Ret tt -> 0 < MaxHeaderInputBytes (opt_Limits c).
Proof.
  unfold Options_Validate, Limits_Validate. intros H.
  apply obind_ret_inv in H as (? & H & _). apply obind_ret_inv in H as (? & _ & H).
  apply obind_ret_inv in H as (? & Hb%require_ret_inv & _). lia.
Qed.

Lemma HeaderHashInput_ok c h :
  hb_initialized h = true -> fits_input c (hb_fields h) ->
  exists input, HeaderHashInput c h = Ret input /\ in_bytes input = header_input (hb_fields h) /\
    in_kind input = KindHeaderHashInput /\
    IncludedFields (in_metadata input) = len (header_records (hb_fields h)) /\
    IncludedFields (in_metadata input) + ExcludedFields (in_metadata input) = len (hb_fields h).
Proof.
  intros Hi (Hn & Hf & Ht). unfold HeaderHashInput. rewrite Hi, (proj2 (Z.ltb_ge _ _)) by done.
  cbn [require obind negb].
  destruct (collectRecords_ok c (hb_fields h) noCounts eq_refl Hf) as (counts & -> & Hc & Htot).
  cbn [obind]. rewrite appendRecords_ok by done. cbn [obind].
  unfold NewCanonicalBytes. change (validKind KindHeaderHashInput) with true. cbn [require obind].
  eexists. split; [done | ]. cbn [in_bytes in_kind in_metadata sanitizeMetadata IncludedFields ExcludedFields].
  change (ExcludedHeaderCounts_Total noCounts) with 0 in Htot.
  assert (len (header_records (hb_fields h)) <= len (hb_fields h)) as Hle.
  { unfold header_records, len. rewrite length_map. pose proof (length_filter relevant (hb_fields h)). lia. }
  rewrite Htot, !(proj2 (nonNegative_id _)) by (try apply len_nonneg; lia).
  split_and!; try done. lia.
Qed.

Lemma HeaderHashInput_inv c h input :
  Options_Validate c = Ret tt -> HeaderHashInput c h = Ret input ->
  hb_initialized h = true /\ fits_input c (hb_fields h).
Proof.
  intros Hv%Limits_positive. unfold HeaderHashInput. intros H.
  apply obind_ret_inv in H as (? & Hi%require_ret_inv & H). split; [done | ].
  apply obind_ret_inv in H as (? & Hn%require_ret_inv%negb_true_iff%Z.ltb_ge & H).
  apply obind_ret_inv in H as ([rs cs] & Hr & H). apply obind_ret_inv in H as (out & Ha & _).
  pose proof (collectRecords_inv _ _ _ _ Hr) as Hf.
  destruct (collectRecords_ok c (hb_fields h) noCounts eq_refl Hf) as (counts & E & _ & _).
  rewrite E in Hr. injection Hr as <- _.
  apply appendRecords_inv in Ha as [-> Hle]; [by split_and! | change (len (@nil byte)) with 0; lia].
Qed.

(** C6: under valid options the header hash input of a block exists exactly
    when the block is initialised, has no more fields than allowed, every
    relevant field's canonical form is within its limit and so is the whole
    input; it then consists of the canonical relevant fields in sorted order,
    and every field is counted as included or excluded. *)
Theorem HeaderHashInput_functional c h :
  Options_Validate c = Ret tt ->
  ((exists input, HeaderHashInput c h = Ret input) <->
   hb_initialized h = true /\ fits_input c (hb_fields h)) /\
  (forall input, HeaderHashInput c h = Ret input ->
     in_bytes input = header_input (hb_fields h) /\ in_kind input = KindHeaderHashInput /\
     IncludedFields (in_metadata input) + ExcludedFields (in_metadata input) = len (hb_fields h)) /\
  HeaderHashInput c h <> Crash.
Proof.
  intros Hv. split_and!.
  - split.
    + intros [input H]. by eapply HeaderHashInput_inv.
    + intros [Hi Hf]. destruct (HeaderHashInput_ok c h Hi Hf) as (input & H & _). eauto.
  - intros input H. destruct (HeaderHashInput_inv c h input Hv H) as [Hi Hf].
    destruct (HeaderHashInput_ok c h Hi Hf) as (input' & H' & ? & ? & _ & ?).
    rewrite H in H'. injection H' as <-. done.
  - change (no_crash (HeaderHashInput c h)). unfold HeaderHashInput, NewCanonicalBytes. crash_free.
    + apply collectRecords_no_crash.
    + apply appendRecords_no_crash.
Qed.

Definition sample_block : HeaderBlock :=
  MkBlock
    [parsed_field 0 (bs "Subject") (bs "  Hi   there ") []; parsed_field 1 (bs "X-Y") (bs "q") [];
     parsed_field 2 (bs "From") (bs "a@b") []; parsed_field 3 (bs "subject") (bs "2") []]
    [] true.
Example sample_header_input :
  header_input (hb_fields sample_block) =
  bs "from:a@b" ++ crlf ++ bs "subject:2" ++ crlf ++ bs "subject:Hi there" ++ crlf.
Proof. vm_compute. reflexivity. Qed.

Lemma HeaderHashInput_functional_witness :
  Options_Validate DefaultOptions = Ret tt /\
  exists input, HeaderHashInput DefaultOptions sample_block = Ret input.
Proof.
  split; [reflexivity | ].
  apply (proj1 (HeaderHashInput_functional DefaultOptions sample_block eq_refl)).
  split; [reflexivity | ]. split; [vm_compute; discriminate | ]. split.
  - repeat constructor; intros _; vm_compute; discriminate.
  - vm_compute. discriminate.
Defined.

(** ** Sorting: one canonical order *)

(** Indices strictly increase along a field list, as NewHeaderBlock ensures. *)
Fixpoint increasing (fields : list HeaderField) : Prop :=
  match fields with
  | [] => True
  | f :: rest => Forall (fun g => hf_index f < hf_index g) rest /\ increasing rest
  end.

Definition rec_key (r : headerFieldRecord) : bytes := rec_nameLower r.
Fixpoint rec_increasing (rs : list headerFieldRecord) : Prop :=
  match rs with
  | [] => True
  | r :: rest => Forall (fun s => originalIndex r < originalIndex s) rest /\ rec_increasing rest
  end.

Lemma insert_sorted x l :
  key_sorted rec_key l -> Forall (fun y => originalIndex x < originalIndex y) l ->
  key_sorted rec_key (insert_stable headerRecordLess x l) /\
  forall k, filter (fun r => rec_key r = k) (insert_stable headerRecordLess x l) =
            filter (fun r => rec_key r = k) l ++ (if decide (rec_key x = k) then [x] else []).
Proof.
  intros Hs Hi. induction Hs as [|y l Hy Hs IH]; cbn [insert_stable].
  - split; [by repeat constructor | ]. intros k. rewrite filter_cons, filter_nil. done.
  - apply Forall_cons in Hi as [Hxy Hi]. destruct (IH Hi) as [IH1 IH2].
    destruct (headerRecordLess y x) eqn:Hl.
    + split.
      * constructor; [ | done]. rewrite insert_stable_perm. constructor; [ | done].
        unfold headerRecordLess in Hl. destruct (bytes_equal _ _) eqn:E; cbn [negb] in Hl.
        -- apply bytes_equal_eq in E. unfold rec_key. rewrite E. apply bytes_le_refl.
        -- by apply bytes_lt_le.
      * intros k. rewrite !filter_cons, IH2. by destruct (decide (rec_key y = k)).
    + unfold headerRecordLess in Hl. destruct (bytes_equal _ _) eqn:E; cbn [negb] in Hl; [lia | ].
      assert (bytes_ltb (rec_key x) (rec_key y) = true) as Hlt.
      { destruct (bytes_ltb (rec_key x) (rec_key y)) eqn:E2; [done | ].
        apply (bytes_ltb_total (rec_nameLower y) (rec_nameLower x) Hl) in E2.
        rewrite E2, bytes_equal_refl in E. done. }
      assert (Forall (fun z => bytes_ltb (rec_key x) (rec_key z) = true) (y :: l)) as Hall.
      { constructor; [done | ]. eapply Forall_impl; [exact Hy | ]. intros z Hz. simpl in Hz.
        destruct (bytes_ltb (rec_key x) (rec_key z)) eqn:Ez; [done | ].
        pose proof (bytes_le_trans _ _ _ Hz Ez) as Hc. unfold bytes_le in Hc. congruence. }
      split.
      * constructor; [ | by constructor]. eapply Forall_impl; [exact Hall | ].
        intros z. apply bytes_lt_le.
      * intros k. rewrite filter_cons. destruct (decide (rec_key x = k)) as [<- | _].
        -- rewrite filter_all_False; [done | ]. eapply Forall_impl; [exact Hall | ].
           intros z Hz E2. simpl in Hz. by rewrite E2, bytes_ltb_irrefl in Hz.
        -- by rewrite app_nil_r.
Qed.

Lemma sort_records_spec rs :
  rec_increasing rs ->
  key_sorted rec_key (sortHeaderFieldRecords rs) /\
  forall k, filter (fun r => rec_key r = k) (sortHeaderFieldRecords rs) =
            reverse (filter (fun r => rec_key r = k) rs).
Proof.
  induction rs as [|r rs IH]; [by split; [constructor | ] | ].
  intros [Hr Hrs]. destruct (IH Hrs) as [Hs Hf]. unfold sortHeaderFieldRecords, slice_stable in *.
  cbn [foldr]. destruct (insert_sorted r (foldr (insert_stable headerRecordLess) [] rs)) as [H1 H2].
  - done.
  - pose proof (slice_stable_perm headerRecordLess rs) as Hp. unfold slice_stable in Hp. by rewrite Hp.
  - split; [done | ]. intros k. rewrite H2, Hf, filter_cons.
    destruct (decide (rec_key r = k)); [by rewrite reverse_cons | by rewrite app_nil_r].
Qed.

Lemma header_records_increasing fs : increasing fs -> rec_increasing (header_records fs).
Proof.
  unfold header_records. induction fs as [|f fs IH]; [done | ]. intros [Hf Hfs].
  rewrite filter_cons. destruct (decide (relevant f)); [ | by apply IH].
  cbn [map rec_increasing]. split; [ | by apply IH]. rewrite Forall_map.
  apply list.Forall_forall. intros g [_ Hg]%list_elem_of_filter. rewrite Forall_forall in Hf. by apply Hf.
Qed.

(** The fields of one name that enter the hash, in field order. *)
Definition named (k : bytes) (fs : list HeaderField) : list bytes :=
  map field_canonical (filter (fun f => nameLower f = k) fs).

Lemma header_records_named k fs :
  excludedHeaderKindForName k = excludedHeaderNone ->
  map rec_canonicalBytes (filter (fun r => rec_key r = k) (header_records fs)) = named k fs.
Proof.
  intros Hk. unfold named, header_records. induction fs as [|f fs IH]; [done | ].
  rewrite !filter_cons. destruct (decide (relevant f)) as [Hr | Hr], (decide (nameLower f = k)) as [E | Hne].
  - cbn [map]. rewrite filter_cons, decide_True by done. cbn [map]. by rewrite IH.
  - cbn [map]. rewrite filter_cons, decide_False by done. done.
  - exfalso. apply Hr. unfold relevant. by rewrite E.
  - done.
Qed.

Lemma header_records_excluded k fs :
  excludedHeaderKindForName k <> excludedHeaderNone ->
  filter (fun r => rec_key r = k) (header_records fs) = [].
Proof.
  intros Hk. apply filter_all_False. unfold header_records. rewrite Forall_map.
  apply list.Forall_forall. intros f [Hr _]%list_elem_of_filter E. apply Hk. by rewrite <- E.
Qed.

Definition record_view (r : headerFieldRecord) : bytes * bytes := (rec_nameLower r, rec_canonicalBytes r).

Lemma view_of_key k (rs : list headerFieldRecord) :
  Forall (fun r => rec_key r = k) rs -> map record_view rs = map (pair k) (map rec_canonicalBytes rs).
Proof. induction 1 as [|r rs <- _ IH]; [done | ]. simpl. by rewrite IH. Qed.

Lemma header_input_same fs1 fs2 :
  increasing fs1 -> increasing fs2 ->
  (forall k, excludedHeaderKindForName k = excludedHeaderNone -> named k fs1 = named k fs2) ->
  header_input fs1 = header_input fs2.
Proof.
  intros H1%header_records_increasing H2%header_records_increasing Hk.
  destruct (sort_records_spec _ H1) as [S1 F1]. destruct (sort_records_spec _ H2) as [S2 F2].
  assert (map record_view (sortHeaderFieldRecords (header_records fs1)) =
          map record_view (sortHeaderFieldRecords (header_records fs2))) as E.
  { apply (key_sorted_unique fst).
    - by apply (key_sorted_map _ rec_key).
    - by apply (key_sorted_map _ rec_key).
    - intros k. rewrite !(filter_map_key _ rec_key), F1, F2 by done.
      destruct (decide (excludedHeaderKindForName k = excludedHeaderNone)) as [Hr | Hr].
      + rewrite <- !reverse_map. f_equal.
        assert (forall rs : list headerFieldRecord,
                  Forall (fun r => rec_key r = k) (filter (fun r => rec_key r = k) rs)) as Hall.
        { intros rs. apply list.Forall_forall. by intros r [? _]%list_elem_of_filter. }
        rewrite !(view_of_key k) by apply Hall. by rewrite !header_records_named, Hk.
      + by rewrite !header_records_excluded. }
  unfold header_input.
  assert (forall rs, concat (map rec_canonicalBytes rs) = concat (map snd (map record_view rs))) as Hc
    by (intros rs; by rewrite map_map).
  by rewrite !Hc, E.
Qed.

(** C5: the hash input depends only on, for every relevant name, the sequence
    of canonical fields of that name: reordering fields of different names and
    adding, removing or moving excluded fields leaves it unchanged. *)
Theorem header_input_order_invariant fs1 fs2 :
  increasing fs1 -> increasing fs2 ->
  (forall k, excludedHeaderKindForName k = excludedHeaderNone -> named k fs1 = named k fs2) ->
  header_input fs1 = header_input fs2.
Proof. apply header_input_same. Qed.

Lemma header_input_order_invariant_witness :
  header_input (hb_fields sample_block) =
  header_input [parsed_field 0 (bs "Received") (bs "x") []; parsed_field 1 (bs "from") (bs " a@b") [];
                parsed_field 2 (bs "SUBJECT") (bs "Hi there") []; parsed_field 3 (bs "Subject") (bs "2") []].
Proof.
  apply header_input_order_invariant.
  - repeat split; repeat constructor.
  - repeat split; repeat constructor.
  - intros k Hk. destruct (decide (k = bs "subject")) as [-> | N1]; [vm_compute; reflexivity | ].
    destruct (decide (k = bs "from")) as [-> | N2]; [vm_compute; reflexivity | ].
    unfold named. rewrite !filter_all_False; [reflexivity | | ];
      repeat constructor; intros E; subst k; first [vm_compute in Hk; discriminate Hk | by apply N1 | by apply N2].
Defined.

(** ** Insertion of trace fields leaves the message hashes unchanged

    Connects rawmsg's PrependValidatedFields with canonical's body and header
    hash inputs: the fields a hop adds at the top (Received, DKIM2-Signature,
    Message-Instance, ...) are all in the exclusion classes. *)
Lemma fields_of_increasing i fs :
  increasing (fields_of i fs) /\ Forall (fun g => i <= hf_index g) (fields_of i fs).
Proof.
  revert i. induction fs as [|f fs IH]; intros i; [by split; constructor | ].
  cbn [fields_of increasing]. destruct (IH (i + 1)) as [H1 H2]. split; [split; [ | done] | ].
  - eapply Forall_impl; [exact H2 | ]. intros g Hg. simpl in *. lia.
  - constructor; [simpl; lia | ]. eapply Forall_impl; [exact H2 | ]. intros g Hg. simpl in *. lia.
Qed.

Lemma named_app k fs gs : named k (fs ++ gs) = named k fs ++ named k gs.
Proof. unfold named. by rewrite filter_app, map_app. Qed.

Lemma named_shift k i j fs : named k (fields_of i fs) = named k (fields_of j fs).
Proof.
  revert i j. induction fs as [|f fs IH]; intros i j; [done | ]. cbn [fields_of].
  change (parsed_field i _ _ _ :: ?l) with ([parsed_field i (fs_name f) (fs_first f) (fs_conts f)] ++ l).
  change (parsed_field j _ _ _ :: ?l) with ([parsed_field j (fs_name f) (fs_first f) (fs_conts f)] ++ l).
  rewrite !named_app, (IH (i + 1) (j + 1)). f_equal.
  unfold named. rewrite !filter_cons. cbn [nameLower parsed_field]. by destruct (decide _).
Qed.

(** The names of the inserted fields, as the parser reads them. *)
Definition inserted_fields (r : InsertionRequest) (M' : Message) : list HeaderField :=
  take (length (ir_fields r)) (hb_fields (headers M')).

(** C4: when every inserted field belongs to an exclusion class, the body and
    header hash inputs of the extended message are those of the source
    message, so every hash recorded over the source stays valid. *)
Theorem insertion_preserves_hash_inputs r M M' c input input' :
  Options_Validate c = Ret tt ->
  PrependValidatedFields r = Ret M' ->
  ParseWithOptions (rawBytes (ir_message r)) (ir_options r) = Ret M ->
  Forall (fun f => ~ relevant f) (inserted_fields r M') ->
  HeaderHashInput c (headers M) = Ret input -> HeaderHashInput c (headers M') = Ret input' ->
  in_bytes input' = in_bytes input /\ BodyHash c (body M') = BodyHash c (body M).
Proof.
  intros Hv Hp HM Hex Hin Hin'.
  apply PrependValidatedFields_inv in Hp as (Hg & m & gs & Hwf & Hraw & _ & _ & _ & Hf & Hfits & ->).
  apply fits_prepend in Hfits as [Hfits _].
  rewrite Hraw, parse_ok in HM by (done || apply Hg). injection HM as <-.
  pose proof (HeaderHashInput_inv c _ _ Hv Hin) as [Hi Hfit].
  pose proof (HeaderHashInput_inv c _ _ Hv Hin') as [Hi' Hfit'].
  destruct (HeaderHashInput_ok c _ Hi Hfit) as (i1 & E1 & B1 & _).
  destruct (HeaderHashInput_ok c _ Hi' Hfit') as (i2 & E2 & B2 & _).
  rewrite Hin in E1. injection E1 as <-. rewrite Hin' in E2. injection E2 as <-. rewrite B1, B2.
  split; [ | done]. unfold inserted_fields in Hex. rewrite Hf, length_map in Hex.
  cbn [message_of prepend_spec headers block_of hb_fields ms_fields] in Hex |- *.
  apply header_input_same; [apply fields_of_increasing | apply fields_of_increasing | ].
  intros k Hk. rewrite fields_of_app in Hex |- *. rewrite named_app, (named_shift k (0 + len gs) 0).
  replace (length gs) with (length (fields_of 0 gs)) in Hex
    by (pose proof (len_fields_of 0 gs); unfold len in *; lia).
  rewrite take_app_length in Hex.
  assert (named k (fields_of 0 gs) = []) as ->; [ | done].
  unfold named. rewrite filter_all_False; [done | ].
  eapply Forall_impl; [exact Hex | ]. intros f Hr E. apply Hr. unfold relevant. by rewrite E.
Qed.

Definition sample_request : option InsertionRequest :=
  match ParseWithOptions sample_bytes DefaultParserOptions with
  | Ret M => Some (MkInsertion M TransportFormFinalNetworkPreDotStuffing
                     [bs "X-Trace: 1" ++ crlf; bs "Received: by h" ++ crlf] DefaultParserOptions)
  | _ => None
  end.

Lemma insertion_preserves_hash_inputs_witness :
  exists r M M' input input', sample_request = Some r /\
    PrependValidatedFields r = Ret M' /\
    in_bytes input' = in_bytes input /\ BodyHash DefaultOptions (body M') = BodyHash DefaultOptions (body M).
Proof.
  destruct sample_request as [r|] eqn:Er; [ | vm_compute in Er; discriminate Er].
  destruct (ParseWithOptions (rawBytes (ir_message r)) (ir_options r)) as [M | |] eqn:EM;
    [ | vm_compute in Er; injection Er as <-; vm_compute in EM; discriminate EM ..].
  destruct (PrependValidatedFields r) as [M' | |] eqn:EP;
    [ | vm_compute in Er; injection Er as <-; vm_compute in EP; discriminate EP ..].
  destruct (HeaderHashInput DefaultOptions (headers M)) as [input | |] eqn:E1;
    [ | vm_compute in Er; injection Er as <-; vm_compute in EM; injection EM as <-;
        vm_compute in E1; discriminate E1 ..].
  destruct (HeaderHashInput DefaultOptions (headers M')) as [input' | |] eqn:E2;
    [ | vm_compute in Er; injection Er as <-; vm_compute in EP; injection EP as <-;
        vm_compute in E2; discriminate E2 ..].
  exists r, M, M', input, input'. split; [reflexivity | ]. split; [exact EP | ].
  apply (insertion_preserves_hash_inputs r M M' DefaultOptions input input'); try assumption.
  - reflexivity.
  - vm_compute in Er. injection Er as <-. vm_compute in EP. injection EP as <-.
    repeat constructor; vm_compute; discriminate.
Defined.
