(* ===== verification/TagTypes.v ===== *)
(** * Package internal/tagvalue: errors, limits and text strings

    errors.go, limits.go and textstring.go.  Limit names are Go strings with
    a closed vocabulary; error codes are an enumeration, so NewError's
    replacement of an unknown code has no counterpart. *)

From S2P Require Import Prelude GoBytes.
#[local] Open Scope Z_scope.

Inductive ErrorCode :=
  | ErrorCodeEmptyTagSpec | ErrorCodeMissingEquals | ErrorCodeInvalidTagName
  | ErrorCodeInvalidTagValue | ErrorCodeDuplicateTag | ErrorCodeLimitExceeded
  | ErrorCodeInvalidOptions | ErrorCodeInvalidBase64Alphabet | ErrorCodeInvalidBase64Padding
  | ErrorCodeInvalidBase64Length | ErrorCodeInvalidBase64PadBits
  | ErrorCodeInvalidBase64Whitespace.
Inductive ErrorClass :=
  | ErrorClassMalformed | ErrorClassDuplicate | ErrorClassLimit | ErrorClassInvariant.

Definition LimitName := string.
Definition LimitName_Known (n : LimitName) : bool :=
  bool_decide (n ∈ ["max_field_value_bytes"; "max_tags"; "max_tag_name_bytes";
                    "max_tag_value_bytes"; "max_base64_decoded_bytes"]%string).

Record ErrorLocation := MkLoc { Offset : Z; TagIndex : Z }.
Record ErrorDetails := MkDetails {
  Class : ErrorClass; det_LimitName : LimitName; Limit : Z; Count : Z; det_tagName : bytes }.
Record Error := MkError { code : ErrorCode; location : ErrorLocation; details : ErrorDetails }.
Definition noLoc : ErrorLocation := MkLoc 0 0.

Definition classForCode (c : ErrorCode) : ErrorClass :=
  match c with
  | ErrorCodeDuplicateTag => ErrorClassDuplicate
  | ErrorCodeLimitExceeded => ErrorClassLimit
  | ErrorCodeInvalidOptions => ErrorClassInvariant
  | _ => ErrorClassMalformed
  end.
Definition sanitizeLocation (l : ErrorLocation) : ErrorLocation :=
  MkLoc (if Offset l <? 0 then 0 else Offset l) (if TagIndex l <? 0 then 0 else TagIndex l).
Definition sanitizeDetails (d : ErrorDetails) : ErrorDetails :=
  MkDetails (Class d) (det_LimitName d) (if Limit d <? 0 then 0 else Limit d)
    (if Count d <? 0 then 0 else Count d) (det_tagName d).

Definition NewError (c : ErrorCode) (l : ErrorLocation) (d : ErrorDetails) : Error :=
  MkError c (sanitizeLocation l)
    (sanitizeDetails
       (MkDetails (classForCode c)
          (if LimitName_Known (det_LimitName d) then det_LimitName d else ""%string)
          (Limit d) (Count d) (det_tagName d))).

(** Details that carry nothing but a class, which NewError recomputes. *)
Definition noDetails : ErrorDetails := MkDetails ErrorClassMalformed "" 0 0 [].

(** ** limits.go *)
Definition defaultMaxFieldValueBytes : Z := 64 * 1024.
Definition defaultMaxTags : Z := 64.
Definition defaultMaxTagNameBytes : Z := 64.
Definition defaultMaxTagValueBytes : Z := 64 * 1024.
Definition defaultMaxBase64DecodedBytes : Z := 1024 * 1024.

Record Limits := MkLimits {
  MaxFieldValueBytes : Z; MaxTags : Z; MaxTagNameBytes : Z; MaxTagValueBytes : Z;
  MaxBase64DecodedBytes : Z }.
Definition DefaultLimits : Limits :=
  MkLimits defaultMaxFieldValueBytes defaultMaxTags defaultMaxTagNameBytes
    defaultMaxTagValueBytes defaultMaxBase64DecodedBytes.

Definition limitOptionError (limitName : string) (limit : Z) : Error :=
  NewError ErrorCodeInvalidOptions noLoc (MkDetails ErrorClassInvariant limitName limit 0 []).
Definition limitExceededError (limitName : string) (limit count : Z) (l : ErrorLocation) : Error :=
  NewError ErrorCodeLimitExceeded l (MkDetails ErrorClassLimit limitName limit count []).

Definition Limits_Validate (l : Limits) : outcome Error unit :=
  check require (0 <? MaxFieldValueBytes l)
    (limitOptionError "max_field_value_bytes" (MaxFieldValueBytes l)) ;;
  check require (0 <? MaxTags l) (limitOptionError "max_tags" (MaxTags l)) ;;
  check require (0 <? MaxTagNameBytes l)
    (limitOptionError "max_tag_name_bytes" (MaxTagNameBytes l)) ;;
  check require (0 <? MaxTagValueBytes l)
    (limitOptionError "max_tag_value_bytes" (MaxTagValueBytes l)) ;;
  require (0 <? MaxBase64DecodedBytes l)
    (limitOptionError "max_base64_decoded_bytes" (MaxBase64DecodedBytes l)).

Definition default_if_zero (v d : Z) : Z := if v =? 0 then d else v.
Definition Limits_normalize (l : Limits) : Limits :=
  MkLimits (default_if_zero (MaxFieldValueBytes l) defaultMaxFieldValueBytes)
    (default_if_zero (MaxTags l) defaultMaxTags)
    (default_if_zero (MaxTagNameBytes l) defaultMaxTagNameBytes)
    (default_if_zero (MaxTagValueBytes l) defaultMaxTagValueBytes)
    (default_if_zero (MaxBase64DecodedBytes l) defaultMaxBase64DecodedBytes).

(** ** Character classes shared by the scanner and textstring.go *)
Definition isWSP (b : byte) : bool := (b =?b x20) || (b =?b x09).
Definition isASCIILetter (b : byte) : bool := in_range x41 b x5a || in_range x61 b x7a.
Definition isASCIIDigit (b : byte) : bool := in_range x30 b x39.

Definition ParseTextstring (input : bytes) : option bytes :=
  if bool_decide (input = []) then None
  else if forallb (fun b => isASCIILetter b || isASCIIDigit b || (b =?b x2d) || (b =?b x5f)) input
       then Some input else None.

Lemma Limits_Validate_no_crash l : no_crash (Limits_Validate l).
Proof. unfold Limits_Validate. crash_free. Qed.
#[export] Hint Resolve Limits_Validate_no_crash : go.
