(* ===== verification/TagScan.v ===== *)
(** * Package internal/tagvalue: the tag-list scanner (scanner.go)

    [scan] splits a field value at semicolons and parses each segment as
    name = value.  A [Field] keeps the tags in order and an index from names
    to positions, as the code's map does. *)

From stdpp Require Import gmap.
From S2P Require Import Prelude GoBytes TagTypes.
#[local] Open Scope Z_scope.

(** The index of an element as Go's range loop gives it. *)
Fixpoint find_offset (p : byte -> bool) (s : bytes) (i : Z) : option Z :=
  match s with
  | [] => None
  | b :: s' => if p b then Some i else find_offset p s' (i + 1)
  end.

Definition trimWSP (input : bytes) : bytes * Z :=
  (trim_bytes isWSP input, len input - len (drop_while isWSP input)).

Definition containsASCIIUpper (input : bytes) : bool := existsb (fun b => in_range x41 b x5a) input.
Definition validTagValue (input : bytes) : bool :=
  forallb (fun b => (b =?b x09) || (b =?b x20) || in_range x21 b x3a || in_range x3c b x7e) input.

Definition nameByte (b : byte) : bool := isASCIILetter b || isASCIIDigit b || (b =?b x5f).
Definition tagName (input : bytes) (maxNameBytes : Z) : option bytes :=
  match input with
  | [] => None
  | b :: _ =>
      if (maxNameBytes <? len input) || negb (isASCIILetter b) then None
      else if forallb nameByte input then Some input else None
  end.

(** ** Known tags *)
Record KnownTags := MkKnown { exact : gset bytes }.

Definition knownTagsError : Error :=
  NewError ErrorCodeInvalidOptions noLoc (MkDetails ErrorClassInvariant "" 0 0 []).
Fixpoint addKnownTags (names : list bytes) (known : gset bytes) : outcome Error (gset bytes) :=
  match names with
  | [] => Ret known
  | name :: rest =>
      match tagName name (MaxTagNameBytes DefaultLimits) with
      | None => Fail knownTagsError
      | Some nm =>
          check require (negb (bool_decide (nm ∈ known))) knownTagsError ;;
          addKnownTags rest ({[nm]} ∪ known)
      end
  end.
Definition NewKnownTags (names : list bytes) : outcome Error KnownTags :=
  let* known := addKnownTags names ∅ in Ret (MkKnown known).
Definition KnownTags_Contains (k : KnownTags) (name : bytes) : bool := bool_decide (name ∈ exact k).

(** ** Tags and fields *)
Record Tag := MkTag { tag_name : bytes; tag_value : bytes; tag_known : bool }.
Record Field := MkField { tags : list Tag; index : gmap bytes nat }.

Definition Field_Len (f : Field) : Z := len (tags f).
Definition Field_Get (f : Field) (name : bytes) : outcome Error (option Tag) :=
  match index f !! name with
  | None => Ret None
  | Some i => match tags f !! i with Some t => Ret (Some t) | None => Crash end
  end.
Definition Field_Has (f : Field) (name : bytes) : outcome Error bool :=
  let* t := Field_Get f name in Ret (if t is Some _ then true else false).
Definition Field_UnknownTags (f : Field) : list Tag :=
  filter (fun t => tag_known t = false) (tags f).

Inductive scanMode := scanModeDNS | scanModeHeader.
#[export] Instance scanMode_eq_dec : EqDecision scanMode.
Proof. solve_decision. Defined.

(** ** Segments *)
Record tagSegment := MkSegment { seg_bytes : bytes; seg_offset : Z }.

(** [cur] is the text since [start], the offset of its first byte. *)
Fixpoint splitLoop (input cur : bytes) (start i : Z) : list tagSegment :=
  match input with
  | [] => [MkSegment cur start]
  | b :: rest =>
      if b =?b x3b then MkSegment cur start :: splitLoop rest [] (i + 1) (i + 1)
      else splitLoop rest (cur ++ [b]) start (i + 1)
  end.
Definition splitTagSpecs (input : bytes) : list tagSegment := splitLoop input [] 0 0.

(** ** DNS folding white space *)
Definition tagValueError (off : Z) : Error :=
  NewError ErrorCodeInvalidTagValue (MkLoc off 0) noDetails.

Fixpoint unfoldDNSLoop (input : bytes) (i : Z) : outcome Error bytes :=
  match input with
  | [] => Ret []
  | b :: rest =>
      if b =?b CR then
        match rest with
        | lf :: (w :: _) as tail =>
            if (lf =?b LF) && isWSP w then unfoldDNSLoop tail (i + 2) else Fail (tagValueError i)
        | _ => Fail (tagValueError i)
        end
      else if b =?b LF then Fail (tagValueError i)
      else let* unfolded := unfoldDNSLoop rest (i + 1) in Ret (b :: unfolded)
  end.
Definition unfoldDNSFWS (input : bytes) : outcome Error bytes := unfoldDNSLoop input 0.

Definition invalidUnfoldedLineBreak (input : bytes) : option Z :=
  find_offset (fun b => (b =?b CR) || (b =?b LF)) input 0.

(** ** One tag *)
Definition parseTagSpec (input : bytes) (offset tagIndex : Z) (known : KnownTags) (limits : Limits)
    (mode : scanMode) : outcome Error Tag :=
  match index_byte input x3d with
  | None => Fail (NewError ErrorCodeMissingEquals (MkLoc offset tagIndex) noDetails)
  | Some equals =>
      let* left_ := slice input 0 equals in
      let* right_ := slice_from input (equals + 1) in
      let (rawName, nameLeading) := trimWSP left_ in
      let (rawValue, valueLeading) := trimWSP right_ in
      let valueOffset := offset + Z.of_nat equals + 1 + valueLeading in
      check require (negb (MaxTagNameBytes limits <? len rawName))
        (limitExceededError "max_tag_name_bytes" (MaxTagNameBytes limits) (len rawName)
           (MkLoc (offset + nameLeading) tagIndex)) ;;
      check require (negb (MaxTagValueBytes limits <? len rawValue))
        (limitExceededError "max_tag_value_bytes" (MaxTagValueBytes limits) (len rawValue)
           (MkLoc valueOffset tagIndex)) ;;
      match tagName rawName (MaxTagNameBytes limits) with
      | Some name =>
          check require (negb (bool_decide (mode = scanModeHeader) && containsASCIIUpper rawName))
            (NewError ErrorCodeInvalidTagName (MkLoc (offset + nameLeading) tagIndex) noDetails) ;;
          let knownTag := KnownTags_Contains known name in
          check require (negb ((bool_decide (mode = scanModeDNS) || negb knownTag)
                               && negb (validTagValue rawValue)))
            (NewError ErrorCodeInvalidTagValue (MkLoc valueOffset tagIndex) noDetails) ;;
          Ret (MkTag name rawValue knownTag)
      | None => Fail (NewError ErrorCodeInvalidTagName (MkLoc (offset + nameLeading) tagIndex) noDetails)
      end
  end.

Definition duplicateTagError (tag : Tag) (offset tagIndex : Z) : Error :=
  NewError ErrorCodeDuplicateTag (MkLoc offset tagIndex)
    (MkDetails ErrorClassDuplicate "" 0 0 (if tag_known tag then tag_name tag else [])).

(** [rest] is the number of segments after this one, [total] of all. *)
Definition isFinalTrailingSemicolon (total rest : nat) (segment : tagSegment) : bool :=
  (rest =? 0)%nat && bool_decide ((trimWSP (seg_bytes segment)).1 = []) && (1 <? total)%nat.

(** The loop of scan over the segments. *)
Fixpoint scanLoop (total : nat) (segments : list tagSegment) (known : KnownTags) (limits : Limits)
    (mode : scanMode) (f : Field) : outcome Error Field :=
  match segments with
  | [] => Ret f
  | segment :: rest =>
      if isFinalTrailingSemicolon total (length rest) segment
      then scanLoop total rest known limits mode f
      else
        let tagIndex := len (tags f) in
        let (trimmed, leading) := trimWSP (seg_bytes segment) in
        check require (negb (bool_decide (trimmed = [])))
          (NewError ErrorCodeEmptyTagSpec (MkLoc (seg_offset segment + leading) tagIndex) noDetails) ;;
        check require (negb (MaxTags limits <=? tagIndex))
          (limitExceededError "max_tags" (MaxTags limits) (tagIndex + 1)
             (MkLoc (seg_offset segment) tagIndex)) ;;
        let* tag := parseTagSpec trimmed (seg_offset segment + leading) tagIndex known limits mode in
        check require (bool_decide (index f !! tag_name tag = None))
          (duplicateTagError tag (seg_offset segment + leading) tagIndex) ;;
        scanLoop total rest known limits mode
          (MkField (tags f ++ [tag]) (<[tag_name tag := length (tags f)]> (index f)))
  end.

Definition scan (input : bytes) (known : KnownTags) (limits : Limits) (mode : scanMode)
    : outcome Error Field :=
  let limits := Limits_normalize limits in
  check Limits_Validate limits ;;
  check require (negb (MaxFieldValueBytes limits <? len input))
    (limitExceededError "max_field_value_bytes" (MaxFieldValueBytes limits) (len input) noLoc) ;;
  let* input :=
    match mode with
    | scanModeHeader =>
        match invalidUnfoldedLineBreak input with
        | Some offset => Fail (tagValueError offset)
        | None => Ret input
        end
    | scanModeDNS => unfoldDNSFWS input
    end in
  let segments := splitTagSpecs input in
  let* f := scanLoop (length segments) segments known limits mode (MkField [] ∅) in
  check require (negb (bool_decide (tags f = []))) (NewError ErrorCodeEmptyTagSpec noLoc noDetails) ;;
  Ret f.

Definition Scan (input : bytes) (known : KnownTags) (limits : Limits) : outcome Error Field :=
  scan input known limits scanModeDNS.
Definition ScanHeader (input : bytes) (known : KnownTags) (limits : Limits) : outcome Error Field :=
  scan input known limits scanModeHeader.

Definition sample_known : KnownTags :=
  match NewKnownTags [bs "i"; bs "m"; bs "s"] with Ret k => k | _ => MkKnown ∅ end.
Example scan_sample :
  (let* f := ScanHeader (bs " i=1 ; m = 2;zz=ok ;") sample_known DefaultLimits in Ret (tags f)) =
  Ret [MkTag (bs "i") (bs "1") true; MkTag (bs "m") (bs "2") true; MkTag (bs "zz") (bs "ok") false].
Proof. vm_compute. reflexivity. Qed.

(** ** Grammar of tag lists *)
Definition wsp (w : bytes) : Prop := Forall (fun b => isWSP b = true) w.

(** The text of a tag: name and value with white space around both. *)
Definition tag_text (t : Tag) (s : bytes) : Prop :=
  exists w1 w2 w3 w4, wsp w1 /\ wsp w2 /\ wsp w3 /\ wsp w4 /\
    s = w1 ++ tag_name t ++ w2 ++ x3d :: w3 ++ tag_value t ++ w4.

Definition ok_tag (known : KnownTags) (limits : Limits) (mode : scanMode) (t : Tag) : Prop :=
  tagName (tag_name t) (MaxTagNameBytes limits) = Some (tag_name t) /\
  (mode = scanModeHeader -> containsASCIIUpper (tag_name t) = false) /\
  edged isWSP (tag_value t) /\ len (tag_value t) <= MaxTagValueBytes limits /\
  tag_known t = KnownTags_Contains known (tag_name t) /\
  (mode = scanModeDNS \/ tag_known t = false -> validTagValue (tag_value t) = true).

(** Texts separated by semicolons. *)
Fixpoint join_semi (ts : list bytes) : bytes :=
  match ts with
  | [] => []
  | [t] => t
  | t :: rest => t ++ x3b :: join_semi rest
  end.
Fixpoint split_semi (input : bytes) : list bytes :=
  match input with
  | [] => [[]]
  | b :: rest =>
      if b =?b x3b then [] :: split_semi rest
      else match split_semi rest with s :: ss => (b :: s) :: ss | [] => [[b]] end
  end.

Lemma split_semi_nonempty s : split_semi s <> [].
Proof. destruct s as [|b s]; simpl; [done | ]. case_byte; [done | ]. by destruct (split_semi s). Qed.

Lemma splitLoop_bytes input cur start i :
  map seg_bytes (splitLoop input cur start i) =
  match split_semi input with s :: ss => (cur ++ s) :: ss | [] => [] end.
Proof.
  revert cur start i. induction input as [|b input IH]; intros cur start i; simpl.
  - by rewrite app_nil_r.
  - case_byte; cbn [map seg_bytes].
    + rewrite IH, app_nil_r. pose proof (split_semi_nonempty input).
      by destruct (split_semi input).
    + rewrite IH. pose proof (split_semi_nonempty input).
      destruct (split_semi input); [done | ]. by rewrite <- app_assoc.
Qed.

Lemma splitTagSpecs_bytes input : map seg_bytes (splitTagSpecs input) = split_semi input.
Proof.
  unfold splitTagSpecs. rewrite splitLoop_bytes. pose proof (split_semi_nonempty input).
  by destruct (split_semi input).
Qed.

Lemma join_semi_cons t ts : ts <> [] -> join_semi (t :: ts) = t ++ x3b :: join_semi ts.
Proof. by destruct ts. Qed.

Lemma split_semi_join input :
  join_semi (split_semi input) = input /\ Forall (fun s => x3b ∉ s) (split_semi input).
Proof.
  induction input as [|b input [IH1 IH2]]; simpl.
  - split; [done | ]. constructor; [apply not_elem_of_nil | done].
  - pose proof (split_semi_nonempty input) as Hne. case_byte.
    + rewrite join_semi_cons by done. rewrite IH1.
      split; [done | constructor; [apply not_elem_of_nil | done]].
    + destruct (split_semi input) as [|s ss]; [done | ].
      apply Forall_cons in IH2 as [Hs Hss]. split.
      * rewrite <- IH1. by destruct ss.
      * constructor; [ | done]. rewrite not_elem_of_cons. by split.
Qed.

Lemma split_semi_plain t : x3b ∉ t -> split_semi t = [t].
Proof.
  induction t as [|b t IH]; [done | ]. intros [Hb Ht]%not_elem_of_cons. simpl. case_byte; [done | ].
  by rewrite IH.
Qed.

Lemma split_semi_app t u : x3b ∉ t -> split_semi (t ++ x3b :: u) = t :: split_semi u.
Proof.
  induction t as [|b t IH]; [done | ]. intros [Hb Ht]%not_elem_of_cons. simpl. case_byte; [done | ].
  by rewrite IH.
Qed.

Lemma join_semi_split ts :
  ts <> [] -> Forall (fun s => x3b ∉ s) ts -> split_semi (join_semi ts) = ts.
Proof.
  intros Hne H. induction H as [|t ts Ht Hts IH]; [done | ]. destruct ts as [|u ts].
  - by apply split_semi_plain.
  - rewrite join_semi_cons, split_semi_app by done. by rewrite IH.
Qed.

(** ** White space and names *)
Lemma wsp_not_special b : isWSP b = true -> b <> x3d /\ b <> x3b.
Proof.
  enough (implb (isWSP b) (negb (b =?b x3d) && negb (b =?b x3b)) = true) as H.
  { intros E. rewrite E in H. apply andb_true_iff in H as [H1 H2].
    apply negb_true_iff in H1, H2. apply byte_eqb_ne in H1, H2. done. }
  by_bytes b.
Qed.
Lemma nameByte_dark b : nameByte b = true -> isWSP b = false /\ b <> x3d /\ b <> x3b.
Proof.
  enough (implb (nameByte b) (negb (isWSP b) && negb (b =?b x3d) && negb (b =?b x3b)) = true) as H.
  { intros E. rewrite E in H. apply andb_true_iff in H as [[H0 H1]%andb_true_iff H2].
    apply negb_true_iff in H0, H1, H2. apply byte_eqb_ne in H1, H2. done. }
  by_bytes b.
Qed.

Lemma wsp_no b w : (b = x3d \/ b = x3b) -> wsp w -> b ∉ w.
Proof.
  intros Hb Hw Hin. unfold wsp in Hw. rewrite Forall_forall in Hw. apply Hw in Hin.
  apply wsp_not_special in Hin as [H1 H2]. by destruct Hb.
Qed.

Lemma tagName_inv s n r : tagName s n = Some r -> r = s /\ s <> [] /\ Forall (fun b => nameByte b = true) s /\ len s <= n.
Proof.
  unfold tagName. destruct s as [|b s]; [done | ].
  destruct (Z.ltb_spec n (len (b :: s))); cbn [orb]; [done | ].
  destruct (isASCIILetter b); [ | done]. cbn [negb].
  destruct (forallb nameByte (b :: s)) eqn:E; [ | done]. intros [= <-].
  split_and!; try done. apply list.Forall_forall. intros x Hx. rewrite forallb_forall in E.
  apply E. by rewrite <- list_elem_of_In.
Qed.

Lemma name_dark s : Forall (fun b => nameByte b = true) s -> edged isWSP s /\ x3d ∉ s /\ x3b ∉ s.
Proof.
  intros H. rewrite Forall_forall in H. split_and!.
  - split; intros.
    + subst. assert (b ∈ b :: t) as Hb by apply list_elem_of_here. by apply H, nameByte_dark in Hb as [? _].
    + subst. assert (b ∈ t ++ [b]) as Hb by (rewrite elem_of_app, list_elem_of_singleton; auto).
      by apply H, nameByte_dark in Hb as [? _].
  - intros Hin%H%nameByte_dark. tauto.
  - intros Hin%H%nameByte_dark. tauto.
Qed.

Lemma edged_nil p : edged p [].
Proof. split; [by intros | ]. intros t b E. by destruct t. Qed.

(** ** Parsing one segment *)
Lemma blank_no_equals s : trim_bytes isWSP s = [] -> x3d ∉ s.
Proof.
  intros E. destruct (trim_bytes_split isWSP s) as (w1 & w2 & Es & _ & H1 & H2).
  rewrite E in Es. rewrite Es, elem_of_app. intros [H | H]; revert H; apply wsp_no; auto.
Qed.

Lemma edged_app p a m b :
  edged p a -> a <> [] -> edged p b -> b <> [] -> edged p (a ++ m ++ b).
Proof.
  intros [Ha _] Hna [_ Hb] Hnb. split.
  - intros c t E. destruct a as [|x a]; [done | ]. injection E as -> _. by eapply Ha.
  - intros t c E. destruct b as [|x b _] using rev_ind; [done | ].
    rewrite !app_assoc in E. apply app_inj_tail in E as [_ ->]. by eapply Hb.
Qed.

Lemma edged_equals : edged isWSP [x3d].
Proof.
  split; [by intros b t [= <- _] | ]. intros t b E. destruct t as [|? t]; [by injection E as <- | ].
  injection E as _ E. by destruct t.
Qed.

Lemma tag_text_trim t s :
  tag_text t s -> edged isWSP (tag_name t) -> tag_name t <> [] -> edged isWSP (tag_value t) ->
  exists w r, trim_bytes isWSP s = tag_name t ++ w ++ x3d :: r /\ wsp w /\
    trim_bytes isWSP r = tag_value t.
Proof.
  intros (w1 & w2 & w3 & w4 & H1 & H2 & H3 & H4 & ->) Hn Hne Hv.
  destruct (tag_value t) as [|b v] eqn:Ev.
  - exists w2, []. split_and!; [ | done | done].
    replace (w1 ++ tag_name t ++ w2 ++ x3d :: w3 ++ [] ++ w4)
      with (w1 ++ (tag_name t ++ w2 ++ [x3d]) ++ w3 ++ w4) by (by rewrite <- !app_assoc).
    apply trim_bytes_mid; [ | done | by apply Forall_app].
    apply edged_app; [done | done | apply edged_equals | done].
  - exists w2, (w3 ++ b :: v). split_and!; [ | done | ].
    + replace (w1 ++ tag_name t ++ w2 ++ x3d :: w3 ++ (b :: v) ++ w4)
        with (w1 ++ (tag_name t ++ (w2 ++ x3d :: w3) ++ b :: v) ++ w4)
        by (cbn [app]; repeat (rewrite <- ?app_assoc; cbn [app]); done).
      rewrite trim_bytes_mid; [ | by apply edged_app | done | done].
      by rewrite <- app_assoc.
    + pose proof (trim_bytes_mid isWSP w3 (b :: v) [] Hv H3) as E.
      rewrite app_nil_r in E. by apply E.
Qed.

Section one_tag.
Context (known : KnownTags) (limits : Limits) (mode : scanMode) (off idx : Z).

Lemma parseTagSpec_ok t s :
  tag_text t s -> ok_tag known limits mode t ->
  parseTagSpec (trim_bytes isWSP s) off idx known limits mode = Ret t.
Proof.
  intros Ht (Hn & Hup & Hv & Hvl & Hk & Hval).
  destruct (tagName_inv _ _ _ Hn) as (_ & Hne & Hnb & Hnl).
  destruct (name_dark _ Hnb) as (He & Heq & _).
  destruct (tag_text_trim t s Ht He Hne Hv) as (w & r & -> & Hw & Hr).
  unfold parseTagSpec. rewrite app_assoc, index_byte_app.
  2: { rewrite elem_of_app. intros [? | Hin]; [done | ]. revert Hin. apply wsp_no; auto. }
  rewrite slice_ok by (rewrite !length_app; simpl; lia). rewrite drop_0, Nat.sub_0_r, take_app_length.
  cbn [obind].
  replace ((tag_name t ++ w) ++ x3d :: r) with (((tag_name t ++ w) ++ [x3d]) ++ r) by (by rewrite <- !app_assoc).
  rewrite slice_from_app by (rewrite !length_app; simpl; lia). cbn [obind].
  unfold trimWSP.
  assert (trim_bytes isWSP (tag_name t ++ w) = tag_name t) as Etn
    by (apply (trim_bytes_mid isWSP []); [done | constructor | done]).
  rewrite Etn, Hr, !(proj2 (Z.ltb_ge _ _)) by done. cbn [negb require obind]. rewrite Hn.
  rewrite <- Hk.
  destruct (decide (mode = scanModeHeader)) as [Em | Em].
  - rewrite Hup, andb_false_r by done. cbn [negb require obind].
    destruct (tag_known t) eqn:Ek.
    + rewrite (bool_decide_eq_false_2 (mode = scanModeDNS)) by congruence. cbn. by destruct t; simpl in *; subst.
    + rewrite Hval by auto. rewrite andb_false_r. cbn. by destruct t; simpl in *; subst.
  - rewrite (bool_decide_eq_false_2 (mode = scanModeHeader)) by done. cbn [andb negb require obind].
    rewrite Hval by (left; by destruct mode). rewrite andb_false_r. cbn. by destruct t; simpl in *; subst.
Qed.

Lemma parseTagSpec_inv t s :
  parseTagSpec (trim_bytes isWSP s) off idx known limits mode = Ret t ->
  tag_text t s /\ ok_tag known limits mode t.
Proof.
  unfold parseTagSpec. destruct (index_byte _ x3d) as [i|] eqn:Ei; [ | done]. intros H.
  apply index_byte_Some in Ei as [Es Hl].
  apply obind_ret_inv in H as (l & Hl' & H). apply obind_ret_inv in H as (r & Hr' & H).
  apply slice_inv in Hl' as [_ ->]. unfold slice_from in Hr'. apply slice_inv in Hr' as [Hle ->].
  rewrite drop_0, Nat.sub_0_r in H.
  rewrite (take_ge (drop _ _)) in H by (rewrite length_drop; lia).
  set (s' := trim_bytes isWSP s) in *. unfold trimWSP in H.
  apply obind_ret_inv in H as (? & Hnl%require_ret_inv%negb_true_iff%Z.ltb_ge & H).
  apply obind_ret_inv in H as (? & Hvl%require_ret_inv%negb_true_iff%Z.ltb_ge & H).
  destruct (tagName _ _) as [name|] eqn:En; [ | done].
  apply obind_ret_inv in H as (? & Hup%require_ret_inv%negb_true_iff & H).
  apply obind_ret_inv in H as (? & Hval%require_ret_inv%negb_true_iff & H). injection H as <-.
  pose proof (tagName_inv _ _ _ En) as (-> & Hne & Hnb & _).
  destruct (trim_bytes_split isWSP (take i s')) as (a1 & a2 & Ea & _ & Ha1 & Ha2).
  destruct (trim_bytes_split isWSP (drop (i + 1) s')) as (b1 & b2 & Eb & He & Hb1 & Hb2).
  destruct (trim_bytes_split isWSP s) as (c1 & c2 & Ec & _ & Hc1 & Hc2). fold s' in Ec.
  set (n := trim_bytes isWSP (take i s')) in *. set (v := trim_bytes isWSP (drop (i + 1) s')) in *.
  split.
  - exists (c1 ++ a1), a2, b1, (b2 ++ c2). split_and!; try (apply Forall_app; by split); try done.
    cbn [tag_name tag_value]. rewrite Ec at 1. rewrite Es, Ea.
    replace (S i) with (i + 1)%nat by lia. rewrite Eb.
    repeat (rewrite <- ?app_assoc; cbn [app]). done.
  - split_and!; cbn [tag_name tag_value tag_known]; try done.
    + intros Em. rewrite Em in Hup. by rewrite bool_decide_eq_true_2 in Hup.
    + intros Hm. apply andb_false_iff in Hval as [Hf | Hf]; [ | by apply negb_false_iff in Hf].
      apply orb_false_iff in Hf as [Hf1 Hf2]. apply bool_decide_eq_false in Hf1.
      apply negb_false_iff in Hf2. destruct Hm as [? | Hm]; congruence.
Qed.
End one_tag.

(** ** The scanning loop *)
Definition extend (f : Field) (t : Tag) : Field :=
  MkField (tags f ++ [t]) (<[tag_name t := length (tags f)]> (index f)).
Definition extend_all (f : Field) (ts : list Tag) : Field := foldl extend f ts.
Definition field_of (ts : list Tag) : Field := extend_all (MkField [] ∅) ts.

Definition blank (s : bytes) : bool := bool_decide (trim_bytes isWSP s = []).

(** The segments that are parsed: a blank last one is skipped. *)
Fixpoint drop_final (total : nat) (segs : list tagSegment) : list tagSegment :=
  match segs with
  | [] => []
  | s :: rest =>
      if (length rest =? 0)%nat && blank (seg_bytes s) && (1 <? total)%nat then drop_final total rest
      else s :: drop_final total rest
  end.

Lemma tag_text_not_blank t s : tag_text t s -> blank s = false.
Proof.
  intros (w1 & w2 & w3 & w4 & _ & _ & _ & _ & ->). apply bool_decide_eq_false.
  intros E%blank_no_equals. apply E. set_solver.
Qed.

Section loop.
Context (total : nat) (known : KnownTags) (limits : Limits) (mode : scanMode).

Definition tag_of_segment (t : Tag) (s : tagSegment) : Prop :=
  tag_text t (seg_bytes s) /\ ok_tag known limits mode t.

Definition loop_result (f : Field) (segs : list tagSegment) (f' : Field) : Prop :=
  exists ts, Forall2 tag_of_segment ts (drop_final total segs) /\ NoDup (tag_name <$> ts) /\
    (forall t, t ∈ ts -> index f !! tag_name t = None) /\
    len (tags f) + len ts <= MaxTags limits /\ f' = extend_all f ts.

Lemma scanLoop_spec segs f f' :
  len (tags f) <= MaxTags limits ->
  scanLoop total segs known limits mode f = Ret f' <-> loop_result f segs f'.
Proof.
  revert f. induction segs as [|s segs IH]; intros f Hmax; unfold loop_result; cbn [scanLoop drop_final].
  - split.
    + intros [= <-]. exists []. split_and!; [constructor | constructor | by intros t ?%not_elem_of_nil | | done].
      change (len (@nil Tag)) with 0. lia.
    + intros (ts & Hts & _ & _ & _ & ->). by inversion Hts.
  - change (isFinalTrailingSemicolon total (length segs) s)
      with ((length segs =? 0)%nat && blank (seg_bytes s) && (1 <? total)%nat).
    destruct (_ && _ && _); [by apply IH | ].
    unfold trimWSP. fold (blank (seg_bytes s)). split.
    + intros H. apply obind_ret_inv in H as (? & _ & H).
      apply obind_ret_inv in H as (? & Hn%require_ret_inv%negb_true_iff%Z.leb_gt & H).
      apply obind_ret_inv in H as (t & Ht & H).
      apply obind_ret_inv in H as (? & Hd%require_ret_inv%bool_decide_eq_true & H).
      apply parseTagSpec_inv in Ht. apply IH in H.
      2: { cbn [tags]. rewrite len_app. change (len [t]) with 1. lia. }
      destruct H as (ts & Hts & Hnd & Hnew & Hlen & ->). cbn [tags index] in *.
      exists (t :: ts). split_and!; [by constructor | | | | done].
      * cbn. constructor; [ | done]. intros (u & Hu & Hin)%list_elem_of_fmap.
        specialize (Hnew u Hin). rewrite <- Hu, lookup_insert in Hnew. by destruct (decide _).
      * intros u [-> | Hin]%elem_of_cons; [done | ]. specialize (Hnew u Hin).
        by apply lookup_insert_None in Hnew as [? _].
      * rewrite len_app in Hlen. change (len [t]) with 1 in Hlen. rewrite len_cons. lia.
    + intros (ts & Hts & Hnd & Hnew & Hlen & ->).
      inversion Hts as [|t ? ts' ? [Htx Hok] Hts' Heq1 Heq2]; subst. clear Hts.
      rewrite len_cons in Hlen. pose proof (len_nonneg ts').
      rewrite (tag_text_not_blank t) by done. cbn [negb require obind].
      rewrite (proj2 (Z.leb_gt _ _)) by lia. cbn [negb require obind].
      rewrite (parseTagSpec_ok _ _ _ _ _ t) by done. cbn [obind].
      rewrite bool_decide_eq_true_2 by (apply Hnew, list_elem_of_here). cbn [require obind].
      cbn in Hnd. apply NoDup_cons in Hnd as [Hni Hnd].
      apply IH; [cbn [tags]; rewrite len_app; change (len [t]) with 1; lia | ].
      exists ts'. split_and!; [done | done | | | done].
      * intros u Hin. cbn [index]. apply lookup_insert_None. split; [apply Hnew; by right | ].
        intros E. apply Hni. rewrite E. by apply list_elem_of_fmap_2.
      * cbn [tags]. rewrite len_app. change (len [t]) with 1. lia.
Qed.

Lemma scanLoop_no_crash segs f : no_crash (scanLoop total segs known limits mode f).
Proof.
  revert f. induction segs as [|s segs IH]; intros f; cbn [scanLoop]; [done | ].
  destruct (isFinalTrailingSemicolon _ _ _); [done | ]. unfold trimWSP. crash_free.
  unfold parseTagSpec. destruct (index_byte _ x3d) as [i|] eqn:Ei; [ | done].
  apply index_byte_Some in Ei as [Es _].
  assert (i < length (trim_bytes isWSP (seg_bytes s)))%nat as Hi.
  { apply (f_equal length) in Es. rewrite length_app, length_take in Es. simpl in Es. lia. }
  rewrite slice_ok by lia. unfold slice_from. rewrite slice_ok by lia. cbn [obind].
  unfold trimWSP. crash_free.
Qed.
End loop.

Lemma tags_extend_all f ts : tags (extend_all f ts) = tags f ++ ts.
Proof.
  revert f. induction ts as [|t ts IH]; intros f; [by rewrite app_nil_r | ].
  cbn [extend_all foldl]. unfold extend_all in IH. rewrite IH. cbn [tags extend].
  by rewrite <- app_assoc.
Qed.

Lemma index_extend_all f ts n :
  NoDup (tag_name <$> ts) ->
  index (extend_all f ts) !! n =
  match list_find (fun t => tag_name t = n) ts with
  | Some (i, _) => Some (length (tags f) + i)%nat
  | None => index f !! n
  end.
Proof.
  revert f. induction ts as [|t ts IH]; intros f Hnd; [done | ].
  cbn in Hnd. apply NoDup_cons in Hnd as [Hni Hnd].
  cbn [extend_all foldl list_find]. unfold extend_all in IH. rewrite IH by done. cbn [tags index extend].
  rewrite length_app. destruct (decide (tag_name t = n)) as [<- | Hne].
  - destruct (list_find _ ts) as [[i u]|] eqn:E.
    + apply list_find_Some in E as (Hl & Hu & _). exfalso. apply Hni. rewrite <- Hu.
      apply list_elem_of_fmap_2. by eapply list_elem_of_lookup_2.
    + rewrite lookup_insert, decide_True by done. by rewrite Nat.add_0_r.
  - destruct (list_find _ ts) as [[i u]|]; simpl; [f_equal; lia | ].
    rewrite lookup_insert_ne by done. done.
Qed.

Definition without_final (total : nat) (bsegs : list bytes) : list bytes :=
  match last bsegs with
  | Some b => if blank b && (1 <? total)%nat then removelast bsegs else bsegs
  | None => []
  end.

Lemma drop_final_texts total segs :
  map seg_bytes (drop_final total segs) = without_final total (map seg_bytes segs).
Proof.
  unfold without_final. induction segs as [|s segs IH]; [done | ]. cbn [drop_final map].
  destruct segs as [|s2 segs].
  - cbn [length Nat.eqb andb map last removelast drop_final].
    by destruct (blank (seg_bytes s)), (1 <? total)%nat.
  - cbn [length Nat.eqb andb map]. cbn [map] in IH. rewrite IH.
    change (last (seg_bytes s :: seg_bytes s2 :: map seg_bytes segs))
      with (last (seg_bytes s2 :: map seg_bytes segs)).
    destruct (last (seg_bytes s2 :: _)) as [b|] eqn:E; [ | by apply last_None in E].
    by destruct (blank b), (1 <? total)%nat.
Qed.

(** The texts of an input: its segments, without a blank final one. *)
Lemma texts_of_input input texts :
  without_final (length (split_semi input)) (split_semi input) = texts ->
  Forall (fun s => blank s = false) texts -> texts <> [] ->
  exists tail, input = join_semi texts ++ tail /\ Forall (fun s => x3b ∉ s) texts /\
    (tail = [] \/ exists w, wsp w /\ tail = x3b :: w).
Proof.
  pose proof (split_semi_join input) as [Hj Hs]. unfold without_final. intros E Hb Hne.
  destruct (last (split_semi input)) as [b|] eqn:El; [ | by subst].
  destruct (blank b && _) eqn:Eb.
  - apply andb_true_iff in Eb as [Eb _]. apply bool_decide_eq_true in Eb.
    apply last_Some in El as [l El]. rewrite El, removelast_last in E. subst l.
    exists (x3b :: b). rewrite El in Hj, Hs. apply Forall_app in Hs as [Hs _]. split_and!; [ | done | ].
    + rewrite <- Hj. clear -Hne. induction texts as [|t texts IH]; [done | ].
      destruct texts as [|u texts]; [done | ].
      change ((t :: u :: texts) ++ [b]) with (t :: ((u :: texts) ++ [b])).
      rewrite !join_semi_cons by done. rewrite IH by done. by rewrite <- app_assoc.
    + right. exists b. split; [ | done].
      destruct (trim_bytes_split isWSP b) as (w1 & w2 & Ew & _ & H1 & H2).
      rewrite Eb in Ew. rewrite Ew. by apply Forall_app.
  - exists []. rewrite app_nil_r, <- E. split_and!; [done | done | by left].
Qed.

Lemma join_semi_snoc texts w : texts <> [] -> join_semi (texts ++ [w]) = join_semi texts ++ x3b :: w.
Proof.
  intros Hne. induction texts as [|t texts IH]; [done | ]. destruct texts as [|u texts]; [done | ].
  change ((t :: u :: texts) ++ [w]) with (t :: ((u :: texts) ++ [w])).
  rewrite !join_semi_cons by done. rewrite IH by done. by rewrite <- app_assoc.
Qed.

Lemma input_of_texts texts tail :
  texts <> [] -> Forall (fun s => x3b ∉ s) texts -> Forall (fun s => blank s = false) texts ->
  (tail = [] \/ exists w, wsp w /\ tail = x3b :: w) ->
  let input := join_semi texts ++ tail in
  without_final (length (split_semi input)) (split_semi input) = texts.
Proof.
  intros Hne Hs Hb Ht. cbn zeta. unfold without_final. destruct Ht as [-> | (w & Hw & ->)].
  - rewrite app_nil_r, join_semi_split by done.
    destruct (last texts) as [b|] eqn:El; [ | by apply last_None in El].
    apply last_Some in El as [l ->]. apply Forall_app in Hb as [_ Hb].
    apply Forall_cons in Hb as [Hb _]. by rewrite Hb.
  - rewrite <- join_semi_snoc by done. rewrite join_semi_split.
    + rewrite last_snoc.
      assert (blank w = true) as ->.
      { apply bool_decide_eq_true. rewrite <- (app_nil_r w). change w with ([] ++ w).
        rewrite <- app_assoc. apply (trim_bytes_mid isWSP [] [] (w ++ [])); [apply edged_nil | constructor | ].
        by rewrite app_nil_r. }
      rewrite (proj2 (Nat.ltb_lt _ _)).
      * cbn [andb]. apply removelast_last.
      * rewrite length_app. destruct texts; [done | simpl; lia].
    + by destruct texts.
    + apply Forall_app. split; [done | ]. constructor; [ | done]. apply wsp_no; auto.
Qed.

(** What scan splits into tags: the input itself, without line breaks, in
    header mode; the unfolded input in DNS mode. *)
Definition scan_text (mode : scanMode) (input text : bytes) : Prop :=
  match mode with
  | scanModeHeader => text = input /\ Forall (fun b => b <> CR /\ b <> LF) input
  | scanModeDNS => unfoldDNSFWS input = Ret text
  end.

Lemma find_offset_None p s i : find_offset p s i = None <-> Forall (fun b => p b = false) s.
Proof.
  revert i. induction s as [|b s IH]; intros i; simpl; [by rewrite Forall_nil | ].
  rewrite Forall_cons. destruct (p b); [by split; [ | intros [? _]] | ]. rewrite IH. naive_solver.
Qed.

Lemma invalidUnfoldedLineBreak_None input :
  invalidUnfoldedLineBreak input = None <-> Forall (fun b => b <> CR /\ b <> LF) input.
Proof.
  unfold invalidUnfoldedLineBreak. rewrite find_offset_None. apply Forall_iff. intros b.
  rewrite orb_false_iff, !byte_eqb_ne. done.
Qed.

(** A tag list: tag texts separated by semicolons, with an optional final
    semicolon, under the limits; [f] is the field it denotes. *)
Definition tag_list (known : KnownTags) (limits : Limits) (mode : scanMode) (text : bytes) (f : Field)
    : Prop :=
  exists ts texts tail,
    Forall2 (fun t s => tag_text t s /\ ok_tag known limits mode t /\ x3b ∉ tag_value t) ts texts /\
    text = join_semi texts ++ tail /\ (tail = [] \/ exists w, wsp w /\ tail = x3b :: w) /\
    ts <> [] /\ NoDup (tag_name <$> ts) /\ len ts <= MaxTags limits /\ f = field_of ts.

Lemma tag_text_semi t s :
  tag_text t s -> (exists n, tagName (tag_name t) n = Some (tag_name t)) ->
  x3b ∉ s <-> x3b ∉ tag_value t.
Proof.
  intros (w1 & w2 & w3 & w4 & H1 & H2 & H3 & H4 & ->) (n & Hn).
  apply tagName_inv in Hn as (_ & _ & Hn & _). apply name_dark in Hn as (_ & _ & Hn).
  pose proof (wsp_no x3b w1 (or_intror eq_refl) H1). pose proof (wsp_no x3b w2 (or_intror eq_refl) H2).
  pose proof (wsp_no x3b w3 (or_intror eq_refl) H3). pose proof (wsp_no x3b w4 (or_intror eq_refl) H4).
  rewrite !not_elem_of_app, not_elem_of_cons, !not_elem_of_app. naive_solver.
Qed.

Lemma segments_spec known limits mode text f :
  0 < MaxTags limits ->
  (exists f', scanLoop (length (splitTagSpecs text)) (splitTagSpecs text) known limits mode (MkField [] ∅)
              = Ret f' /\ tags f' <> [] /\ f = f') <->
  tag_list known limits mode text f.
Proof.
  intros Hpos. pose proof (splitTagSpecs_bytes text) as Hb.
  assert (length (splitTagSpecs text) = length (split_semi text)) as Hlen by (by rewrite <- Hb, length_map).
  assert (map seg_bytes (drop_final (length (splitTagSpecs text)) (splitTagSpecs text)) =
          without_final (length (split_semi text)) (split_semi text)) as Hd.
  { by rewrite drop_final_texts, Hb, Hlen. }
  split.
  - intros (f' & H & Hne & ->). apply scanLoop_spec in H; [ | by apply Z.lt_le_incl].
    destruct H as (ts & Hts & Hnd & _ & Hn & ->).
    set (texts := without_final (length (split_semi text)) (split_semi text)) in *.
    assert (Forall2 (fun t s => tag_text t s /\ ok_tag known limits mode t) ts texts) as Hf2.
    { rewrite <- Hd. apply Forall2_fmap_r. eapply Forall2_impl; [exact Hts | ]. done. }
    rewrite tags_extend_all in Hne. cbn [tags app] in Hne.
    destruct (texts_of_input text texts eq_refl) as (tail & E & Hs & Htail).
    + apply list.Forall_forall. intros s [i Hi]%list_elem_of_lookup_1.
      destruct (Forall2_lookup_r _ _ _ _ _ Hf2 Hi) as (t & _ & Ht & _). by eapply tag_text_not_blank.
    + intros Et. rewrite Et in Hf2. by inversion Hf2; subst.
    + exists ts, texts, tail. split_and!; try done.
      apply Forall2_same_length_lookup. apply Forall2_same_length_lookup in Hf2 as [Hl Hf2].
      split; [done | ]. intros i t s Hti Hsi. destruct (Hf2 i t s Hti Hsi) as [Ht Hok].
      split_and!; [done | done | ]. rewrite <- (tag_text_semi t s Ht) by (eexists; apply Hok).
      rewrite Forall_forall in Hs. apply Hs. by eapply list_elem_of_lookup_2.
  - intros (ts & texts & tail & Hf2 & E & Htail & Hne & Hnd & Hn & ->).
    assert (Forall (fun s => x3b ∉ s) texts /\ Forall (fun s => blank s = false) texts) as [Hs Hb'].
    { split; apply list.Forall_forall; intros s Hin; eapply list_elem_of_lookup_1 in Hin as [i Hi];
        destruct (Forall2_lookup_r _ _ _ _ _ Hf2 Hi) as (t & _ & Ht & Hok & Hv).
      - apply (tag_text_semi t s Ht); [eexists; apply Hok | done].
      - by eapply tag_text_not_blank. }
    exists (field_of ts). split; [ | split; [ | done]].
    + apply scanLoop_spec; [by apply Z.lt_le_incl | ]. exists ts. split_and!; try done.
      enough (Forall2 (fun t s => tag_text t s /\ ok_tag known limits mode t) ts
                (map seg_bytes (drop_final (length (splitTagSpecs text)) (splitTagSpecs text)))) as H.
      { apply Forall2_fmap_r in H. eapply Forall2_impl; [exact H | ]. done. }
      rewrite Hd, E, input_of_texts; [ | | done | done | done].
      * eapply Forall2_impl; [exact Hf2 | ]. naive_solver.
      * intros ->. by inversion Hf2; subst.
    + unfold field_of. by rewrite tags_extend_all.
Qed.

Lemma Validate_tags limits : Limits_Validate limits = Ret tt -> 0 < MaxTags limits.
Proof.
  unfold Limits_Validate. intros H. apply obind_ret_inv in H as (? & _ & H).
  apply obind_ret_inv in H as (? & H%require_ret_inv & _). lia.
Qed.

Lemma scan_iff input known limits mode f :
  let L := Limits_normalize limits in
  scan input known limits mode = Ret f <->
  Limits_Validate L = Ret tt /\ len input <= MaxFieldValueBytes L /\
  exists text, scan_text mode input text /\ tag_list known L mode text f.
Proof.
  cbn zeta. set (L := Limits_normalize limits). unfold scan. fold L. split.
  - intros H. apply obind_ret_inv in H as ([] & Hv & H).
    apply obind_ret_inv in H as (? & Hl%require_ret_inv%negb_true_iff%Z.ltb_ge & H).
    apply obind_ret_inv in H as (text & Ht & H). apply obind_ret_inv in H as (f' & Hf & H).
    apply obind_ret_inv in H as (? & Hne%require_ret_inv%negb_true_iff%bool_decide_eq_false & H).
    injection H as <-. split_and!; try done. exists text. split.
    + destruct mode; [done | ]. unfold scan_text. rewrite <- invalidUnfoldedLineBreak_None.
      destruct (invalidUnfoldedLineBreak input); [done | ]. by injection Ht.
    + apply segments_spec; [by apply Validate_tags | ]. by exists f'.
  - intros (Hv & Hl & text & Ht & Hf). rewrite Hv, (proj2 (Z.ltb_ge _ _)) by done.
    cbn [negb require obind].
    assert ((match mode with
             | scanModeHeader =>
                 match invalidUnfoldedLineBreak input with
                 | Some offset => Fail (tagValueError offset) | None => Ret input end
             | scanModeDNS => unfoldDNSFWS input end) = Ret text) as ->.
    { destruct mode; [done | ]. destruct Ht as [-> Hb].
      apply invalidUnfoldedLineBreak_None in Hb. by rewrite Hb. }
    cbn [obind]. apply segments_spec in Hf; [ | by apply Validate_tags].
    destruct Hf as (f' & -> & Hne & ->). cbn [obind]. by rewrite bool_decide_eq_false_2.
Qed.

(** C8: scanning returns a field exactly when the normalised limits are
    valid, the input is within its limit and its text is a tag list: texts
    name = value with optional white space, separated by semicolons with an
    optional final one, whose names are valid and distinct (lowercase in
    header mode) and whose values are trimmed and, for extension tags and in
    DNS records, printable; the field then holds exactly those tags. *)
Theorem scan_refines_grammar input known limits mode f :
  let L := Limits_normalize limits in
  scan input known limits mode = Ret f <->
  Limits_Validate L = Ret tt /\ len input <= MaxFieldValueBytes L /\
  exists text, scan_text mode input text /\ tag_list known L mode text f.
Proof. apply scan_iff. Qed.

Lemma list_find_lookup (ts : list Tag) n i t :
  list_find (fun t => tag_name t = n) ts = Some (i, t) -> ts !! i = Some t /\ tag_name t = n.
Proof. intros (H1 & H2 & _)%list_find_Some. done. Qed.

(** Lookup in the field of a list of tags with distinct names. *)
Lemma Field_Get_field_of ts n :
  NoDup (tag_name <$> ts) ->
  exists r, Field_Get (field_of ts) n = Ret r /\ (forall t, r = Some t <-> t ∈ ts /\ tag_name t = n).
Proof.
  intros Hnd. unfold Field_Get, field_of. rewrite index_extend_all by done. cbn [tags index].
  destruct (list_find _ ts) as [[i t]|] eqn:E.
  - apply list_find_lookup in E as [Hl Hn]. rewrite Nat.add_0_l.
    rewrite tags_extend_all. cbn [tags app]. rewrite Hl. exists (Some t). split; [done | ].
    intros u. split.
    + intros [= <-]. split; [by eapply list_elem_of_lookup_2 | done].
    + intros [[j Hj]%list_elem_of_lookup_1 Hnu]. f_equal.
      assert (i = j) as ->; [ | congruence].
      eapply (NoDup_lookup _ _ _ n Hnd); rewrite list_lookup_fmap;
        [rewrite Hl | rewrite Hj]; simpl; congruence.
  - rewrite lookup_empty. exists None. split; [done | ]. intros u. split; [done | ].
    intros [Hin Hn]. apply list_find_None in E. rewrite Forall_forall in E. by apply E in Hin.
Qed.
Lemma tags_field_of ts : tags (field_of ts) = ts.
Proof. unfold field_of. by rewrite tags_extend_all. Qed.

(** Lookup in a scanned field is exact: [Get] never panics and returns the
    tag of the requested name if one was scanned and nothing otherwise, and
    names are pairwise distinct. *)
Theorem scan_lookup input known limits mode f :
  scan input known limits mode = Ret f ->
  NoDup (tag_name <$> tags f) /\
  forall n, exists r, Field_Get f n = Ret r /\
    (forall t, r = Some t <-> t ∈ tags f /\ tag_name t = n).
Proof.
  intros (_ & _ & text & _ & ts & ? & ? & _ & _ & _ & _ & Hnd & _ & ->)%scan_iff.
  rewrite tags_field_of. split; [done | ]. intros n. by apply Field_Get_field_of.
Qed.

Lemma scan_lookup_witness :
  exists f, scan (bs "i=1; m=2;zz=ok;") sample_known DefaultLimits scanModeHeader = Ret f /\
    NoDup (tag_name <$> tags f).
Proof.
  destruct (scan (bs "i=1; m=2;zz=ok;") sample_known DefaultLimits scanModeHeader) as [f | |] eqn:E.
  - exists f. split; [reflexivity | ].
    apply (proj1 (scan_lookup (bs "i=1; m=2;zz=ok;") sample_known DefaultLimits scanModeHeader f E)).
  - vm_compute in E. discriminate E.
  - vm_compute in E. discriminate E.
Defined.

Lemma unfoldDNSLoop_no_crash input i : no_crash (unfoldDNSLoop input i).
Proof.
  remember (length input) as n eqn:En. revert input i En.
  induction n as [n IH] using lt_wf_ind. intros [|b input] i ->; [done | ].
  cbn [unfoldDNSLoop]. crash_free; subst; try done; eapply IH; try reflexivity; simpl; lia.
Qed.

Lemma scan_no_crash input known limits mode : no_crash (scan input known limits mode).
Proof.
  unfold scan. crash_free; [apply unfoldDNSLoop_no_crash | apply scanLoop_no_crash].
Qed.
