(* ===== verification/TagBase64.v ===== *)
(** * Package internal/tagvalue: Base64 values and their folding (base64.go, render.go)

    Parsing of padded and optionally padded Base64 strings, and the exact
    64-character folding of rendered values.  A visitor callback is modelled
    by the list of its calls.  Go's int is 64 bits wide. *)

From S2P Require Import Prelude GoBytes GoBase64 RawMsg TagTypes.
#[local] Open Scope Z_scope.

(** ** Parsing (base64.go) *)
Record Base64String := MkB64 { original : bytes; encoded : bytes; decoded : bytes }.

Definition base64Error (c : ErrorCode) (offset : Z) : Error :=
  NewError c (MkLoc offset 0) noDetails.

Definition stripBase64FWS (input : bytes) : bytes := List.filter (fun b => negb (isWSP b)) input.
Definition isStandardBase64Alphabet (b : byte) : bool :=
  isASCIILetter b || isASCIIDigit b || (b =?b x2b) || (b =?b x2f).
Definition decodedBase64Length (encodedLen padCount : Z) : Z := encodedLen / 4 * 3 - padCount.
Definition bytesOf (value : byte) (count : Z) : bytes := repeat value (Z.to_nat count).

(** The loop of validateBase64AlphabetAndPadding; [total] is len(encoded). *)
Fixpoint validateLoop (rest : bytes) (i total padCount : Z) (seenPadding : bool) : outcome Error Z :=
  match rest with
  | [] => Ret padCount
  | b :: rest' =>
      if b =?b x3d then
        check require (negb ((2 <? padCount + 1) || (i <? total - 2)))
          (base64Error ErrorCodeInvalidBase64Padding i) ;;
        validateLoop rest' (i + 1) total (padCount + 1) true
      else
        check require (negb seenPadding) (base64Error ErrorCodeInvalidBase64Padding i) ;;
        check require (isStandardBase64Alphabet b) (base64Error ErrorCodeInvalidBase64Alphabet i) ;;
        validateLoop rest' (i + 1) total padCount seenPadding
  end.
Definition validateBase64AlphabetAndPadding (encoded : bytes) : outcome Error Z :=
  validateLoop encoded 0 (len encoded) 0 false.

(** StdEncoding.Decode into a buffer of [size] bytes, which must be large enough. *)
Definition decodeInto (size : Z) (encoded : bytes) : outcome Error bytes :=
  match std_decode encoded with
  | None => Fail (base64Error ErrorCodeInvalidBase64Padding 0)
  | Some d => if size <? len d then Crash else Ret d
  end.

Definition parseBase64String (input : bytes) (limits : Limits) (optionalPadding : bool)
    : outcome Error Base64String :=
  let limits := Limits_normalize limits in
  check Limits_Validate limits ;;
  check require (negb (MaxTagValueBytes limits <? len input))
    (limitExceededError "max_tag_value_bytes" (MaxTagValueBytes limits) (len input) noLoc) ;;
  let encoded := stripBase64FWS input in
  check (if negb optionalPadding && (0 <? len encoded) then
           let* first := index_at input 0 in
           let* last := index_at input (length input - 1) in
           require (negb (isWSP first || isWSP last)) (base64Error ErrorCodeInvalidBase64Whitespace 0)
         else Ret tt) ;;
  let* padCount := validateBase64AlphabetAndPadding encoded in
  check require (negb (len encoded =? 0)) (base64Error ErrorCodeInvalidBase64Length 0) ;;
  let remainder := len encoded mod 4 in
  let* (encoded, padCount) :=
    if negb (remainder =? 0) then
      check require (negb (negb optionalPadding || negb (padCount =? 0) || (remainder =? 1)))
        (base64Error ErrorCodeInvalidBase64Length 0) ;;
      let missingPadding := 4 - remainder in
      Ret (encoded ++ bytesOf x3d missingPadding, missingPadding)
    else Ret (encoded, padCount) in
  let decodedLen := decodedBase64Length (len encoded) padCount in
  check require (negb (MaxBase64DecodedBytes limits <? decodedLen))
    (limitExceededError "max_base64_decoded_bytes" (MaxBase64DecodedBytes limits) decodedLen noLoc) ;;
  let* decoded := decodeInto decodedLen encoded in
  check require (bytes_equal (std_encode decoded) encoded)
    (base64Error ErrorCodeInvalidBase64PadBits 0) ;;
  Ret (MkB64 input encoded decoded).

Definition ParseBase64String (input : bytes) (limits : Limits) : outcome Error Base64String :=
  parseBase64String input limits false.
Definition ParseOptionalPaddingBase64String (input : bytes) (limits : Limits)
    : outcome Error Base64String := parseBase64String input limits true.

(** ** Rendering (render.go) *)
Definition renderedBase64ChunkBytes : Z := 64.

Definition EncodeBase64 (input : bytes) : bytes := std_encode input.

(** (size, next, done) *)
Definition nextBase64Chunk (encodedBytes offset : Z) : Z * Z * bool :=
  let remaining := encodedBytes - offset in
  let size := Z.min renderedBase64ChunkBytes remaining in
  if size =? remaining then (size, encodedBytes, true) else (size, offset + size, false).

(** The calls (first, offset, size) of the chunk loop from [offset] on. *)
Fixpoint walkLoop (fuel : nat) (encodedBytes offset : Z) (first : Z -> bool)
    : outcome Error (list (bool * Z * Z)) :=
  match fuel with
  | O => Crash
  | S fuel' =>
      if offset <? encodedBytes then
        let '(size, next, done) := nextBase64Chunk encodedBytes offset in
        if done then Ret [(first offset, offset, size)]
        else
          let* rest := walkLoop fuel' encodedBytes next first in
          Ret ((first offset, offset, size) :: rest)
      else Ret []
  end.
Definition walkEncodedBase64Chunks (encodedBytes : Z) : outcome Error (list (bool * Z * Z)) :=
  walkLoop (S (Z.to_nat encodedBytes)) encodedBytes 0 (fun offset => offset =? 0).

Definition base64EncodedSize (decodedBytes : Z) : Z * bool :=
  if (decodedBytes <? 0) || (MaxInt - 2 <? decodedBytes) then (MaxInt, false)
  else
    let groups := (decodedBytes + 2) / 3 in
    if MaxInt / 4 <? groups then (MaxInt, false) else (groups * 4, true).

Definition FoldedBase64Size (decodedBytes : Z) : Z * bool :=
  let '(encoded, ok) := base64EncodedSize decodedBytes in
  if negb ok then (MaxInt, false)
  else if encoded =? 0 then (0, true)
  else
    let folds := (encoded - 1) / renderedBase64ChunkBytes in
    if (MaxInt - encoded) / 3 <? folds then (MaxInt, false) else (encoded + folds * 3, true).

(** The visitor's calls and the two results. *)
Definition WalkBase64Chunks (decodedBytes : Z) : outcome Error (list (bool * Z * Z) * Z * bool) :=
  let '(encodedBytes, ok) := base64EncodedSize decodedBytes in
  if negb ok then Ret ([], MaxInt, false)
  else let* calls := walkEncodedBase64Chunks encodedBytes in Ret (calls, encodedBytes, true).

Definition WalkContinuedBase64Chunks (decodedBytes : Z) : outcome Error (list (bool * Z * Z) * Z * bool) :=
  let '(encodedBytes, ok) := base64EncodedSize decodedBytes in
  if negb ok || (encodedBytes =? 0) then Ret ([], MaxInt, false)
  else
    let* calls := walkLoop (S (Z.to_nat encodedBytes)) encodedBytes 1 (fun _ => false) in
    Ret ((true, 0, 1) :: calls, encodedBytes, true).

Fixpoint writeChunks (encoded : bytes) (calls : list (bool * Z * Z)) : outcome Error bytes :=
  match calls with
  | [] => Ret []
  | (first, offset, size) :: rest =>
      let* chunk := zslice encoded offset (offset + size) in
      let* tail := writeChunks encoded rest in
      Ret ((if first : bool then [] else crlf ++ [x09]) ++ chunk ++ tail)
  end.
Definition FoldBase64 (encoded : bytes) : outcome Error bytes :=
  if len encoded <=? renderedBase64ChunkBytes then Ret encoded
  else let* calls := walkEncodedBase64Chunks (len encoded) in writeChunks encoded calls.

(** ** Lemmas on the alphabet and on padding *)
Lemma alphabet_alpha b : isStandardBase64Alphabet b = b64_alpha b.
Proof.
  enough (Bool.eqb (isStandardBase64Alphabet b) (b64_alpha b) = true) as H by by apply eqb_prop in H.
  by_bytes b.
Qed.

Lemma b64_char_plain b : b64_alpha b || (b =?b PAD) = true -> not_line_break b = true /\ isWSP b = false.
Proof.
  enough (implb (b64_alpha b || (b =?b PAD)) (not_line_break b && negb (isWSP b)) = true) as H.
  { intros E. rewrite E in H. apply andb_true_iff in H as [H1 H2]. by apply negb_true_iff in H2. }
  by_bytes b.
Qed.

Definition count_pad (s : bytes) : Z := len (List.filter (fun b => b =?b PAD) s).

Lemma count_pad_cons b s : count_pad (b :: s) = (if b =?b PAD then 1 else 0) + count_pad s.
Proof.
  unfold count_pad. cbn [List.filter]. destruct (b =?b PAD); [by rewrite len_cons | done].
Qed.
Lemma count_pad_app s t : count_pad (s ++ t) = count_pad s + count_pad t.
Proof. unfold count_pad. by rewrite List.filter_app, len_app. Qed.
Lemma count_pad_repeat n : count_pad (repeat PAD n) = Z.of_nat n.
Proof. induction n as [|n IH]; [done | ]. cbn [repeat]. rewrite count_pad_cons, IH. simpl. lia. Qed.
Lemma count_pad_alpha s : Forall (fun b => b64_alpha b = true) s -> count_pad s = 0.
Proof.
  induction 1 as [|b s Hb _ IH]; [done | ]. rewrite count_pad_cons, IH.
  destruct (byte_eqb_spec b PAD) as [-> | _]; [done | lia].
Qed.

Lemma validateLoop_inv rest i total p seen r :
  validateLoop rest i total p seen = Ret r ->
  r = p + count_pad rest /\ Forall (fun b => b64_alpha b || (b =?b PAD) = true) rest.
Proof.
  revert i p seen. induction rest as [|b rest IH]; intros i p seen H; cbn [validateLoop] in H.
  - injection H as <-. split; [change (count_pad []) with 0; lia | constructor].
  - rewrite count_pad_cons. change PAD with x3d in *. destruct (b =?b x3d) eqn:E.
    + apply obind_ret_inv in H as (? & _ & H). apply IH in H as [-> H]. split; [lia | ].
      constructor; [ | done]. change PAD with x3d. by rewrite E, orb_true_r.
    + apply obind_ret_inv in H as (? & _ & H). apply obind_ret_inv in H as (? & Ha%require_ret_inv & H).
      apply IH in H as [-> H]. split; [lia | ]. constructor; [ | done].
      rewrite alphabet_alpha in Ha. by rewrite Ha.
Qed.

Lemma validateLoop_pads n i total p seen :
  p + Z.of_nat n <= 2 -> total - 2 <= i -> validateLoop (repeat PAD n) i total p seen = Ret (p + Z.of_nat n).
Proof.
  revert i p seen. induction n as [|n IH]; intros i p seen Hp Hi; [by rewrite Z.add_0_r | ].
  cbn [repeat validateLoop]. change (PAD =?b x3d) with true. cbn match.
  rewrite (proj2 (Z.ltb_ge _ _)), (proj2 (Z.ltb_ge i _)) by lia. cbn [orb negb require obind].
  rewrite IH by lia. f_equal. lia.
Qed.

Lemma validateLoop_body body n i total :
  Forall (fun b => b64_alpha b = true) body -> (n <= 2)%nat -> total = i + len body + Z.of_nat n ->
  validateLoop (body ++ repeat PAD n) i total 0 false = Ret (Z.of_nat n).
Proof.
  intros Hb. revert i. induction Hb as [|b body Hb _ IH]; intros i Hn Ht.
  - change (len []) with 0 in Ht. cbn [app]. rewrite validateLoop_pads by lia. done.
  - rewrite len_cons in Ht. cbn [app validateLoop].
    destruct (byte_eqb_spec b x3d) as [-> | Hne]; [by vm_compute in Hb | ].
    cbn [negb require obind]. rewrite alphabet_alpha, Hb. cbn [require obind]. apply IH; lia.
Qed.

Lemma filter_id (p : byte -> bool) s : Forall (fun b => p b = true) s -> List.filter p s = s.
Proof. induction 1 as [|b s Hb _ IH]; simpl; [done | ]. by rewrite Hb, IH. Qed.

(** Number of bytes a quantum sequence decodes to. *)
Lemma decode_quanta_len e d : decode_quanta e = Some d -> len d = len e / 4 * 3 - count_pad e.
Proof.
  remember (length e) as n eqn:En. revert e d En.
  induction n as [n IH] using lt_wf_ind. intros e d -> H.
  destruct e as [|c1 [|c2 [|c3 [|c4 e]]]]; [by injection H as <- | done | done | done | ].
  cbn [decode_quanta] in H.
  assert (forall c v, b64_val c = Some v -> (c =?b PAD) = false) as Hnp.
  { intros c v Hc. apply byte_eqb_ne. intros ->. done. }
  rewrite !count_pad_cons.
  destruct (b64_val c1) eqn:E1; [ | done]. destruct (b64_val c2) eqn:E2; [ | done].
  rewrite (Hnp _ _ E1), (Hnp _ _ E2).
  destruct (b64_val c3) eqn:E3.
  - rewrite (Hnp _ _ E3). destruct (b64_val c4) eqn:E4.
    + rewrite (Hnp _ _ E4). destruct (octets _ _ _ _) as [[a b] c].
      destruct (decode_quanta e) as [d'|] eqn:Ed; simpl in H; [ | done]. injection H as <-.
      apply (IH (length e)) in Ed; [ | simpl; lia | done]. rewrite !len_cons in *. lia.
    + destruct (octets _ _ _ _) as [[a b] c]. case_bool_decide as Hb; [ | done].
      destruct Hb as [-> ->]. injection H as <-. done.
  - destruct (octets _ _ _ _) as [[a b] c]. case_bool_decide as Hb; [ | done].
    destruct Hb as (-> & -> & ->). injection H as <-. done.
Qed.

Lemma std_decode_len e d :
  Forall (fun b => b64_alpha b || (b =?b PAD) = true) e -> std_decode e = Some d ->
  len d = len e / 4 * 3 - count_pad e.
Proof.
  intros He. unfold std_decode. rewrite filter_id; [apply decode_quanta_len | ].
  eapply Forall_impl; [exact He | ]. intros b Hb. by apply b64_char_plain in Hb as [? _].
Qed.

Lemma app_repeat_inj (x : byte) l1 l2 n m :
  x ∉ l1 -> x ∉ l2 -> l1 ++ repeat x n = l2 ++ repeat x m -> l1 = l2 /\ n = m.
Proof.
  revert l2. induction l1 as [|a l1 IH]; intros [|b l2] H1 H2 E; simpl in *.
  - split; [done | ]. apply (f_equal length) in E. by rewrite !repeat_length in E.
  - destruct n; [done | ]. injection E as <- _. exfalso. apply H2, list_elem_of_here.
  - destruct m; [done | ]. injection E as -> _. exfalso. apply H1, list_elem_of_here.
  - injection E as <- E. apply not_elem_of_cons in H1 as [_ H1], H2 as [_ H2].
    destruct (IH l2 H1 H2 E) as [-> ->]. done.
Qed.

(** ** What a Base64 value is *)
Definition b64_text (optionalPadding : bool) (stripped d : bytes) : Prop :=
  stripped = std_encode d \/
  optionalPadding = true /\ PAD ∉ stripped /\ exists k, stripped ++ repeat PAD k = std_encode d.

Lemma pads_le d : (pads d <= 2)%nat.
Proof. unfold pads. destruct (length d mod 3)%nat as [|[|[|?]]]; lia. Qed.

Lemma std_encode_nonempty d : d <> [] -> std_encode d <> [].
Proof. destruct d as [|a [|b [|c d]]]; done. Qed.

Lemma alpha_no_pad s : Forall (fun b => b64_alpha b = true) s -> PAD ∉ s.
Proof. rewrite Forall_forall. intros H Hin%H. done. Qed.

Lemma strip_edges input :
  edged isWSP input <->
  (forall first last, head input = Some first -> list.last input = Some last ->
     isWSP first = false /\ isWSP last = false).
Proof.
  split.
  - intros [H1 H2] first last Hf Hl. destruct input as [|b t]; [done | ]. injection Hf as ->.
    split; [by eapply H1 | ]. apply last_Some in Hl as [l Hl]. by eapply H2.
  - intros H. split.
    + intros b t ->. destruct (list.last (b :: t)) as [l|] eqn:E; [ | by apply last_None in E].
      by destruct (H b l eq_refl eq_refl).
    + intros t b ->. destruct (t ++ [b]) as [|f r] eqn:E; [by destruct t | ].
      rewrite <- E in H. destruct (H f b) as [_ ?]; [by rewrite E | by rewrite last_snoc | done].
Qed.

(** The white-space check reads the first and the last byte of a non-empty input. *)
Definition edgeCheck (input : bytes) : outcome Error unit :=
  let* first := index_at input 0 in
  let* last := index_at input (length input - 1) in
  require (negb (isWSP first || isWSP last)) (base64Error ErrorCodeInvalidBase64Whitespace 0).

Lemma edgeCheck_spec input : input <> [] -> edgeCheck input = Ret tt <-> edged isWSP input.
Proof.
  intros Hne. rewrite strip_edges. unfold edgeCheck.
  destruct input as [|b t]; [done | ]. change (index_at (b :: t) 0) with (Ret (E := Error) b).
  cbn [obind]. unfold index_at.
  assert ((b :: t) !! (length (b :: t) - 1)%nat = list.last (b :: t)) as ->.
  { rewrite last_lookup. f_equal. simpl. lia. }
  destruct (list.last (b :: t)) as [l|] eqn:El; [ | by apply last_None in El]. cbn [obind].
  destruct (isWSP b) eqn:E1, (isWSP l) eqn:E2; cbn; (split; [intros H; try done | intros H]).
  all: try (intros ? ? [= <-] [= <-]; done).
  all: destruct (H b l eq_refl eq_refl); congruence.
Qed.

Lemma edgeCheck_no_crash input : input <> [] -> no_crash (edgeCheck input).
Proof.
  intros Hne. unfold edgeCheck. assert (0 < length input)%nat by (destruct input; [done | simpl; lia]).
  crash_free; apply index_at_no_crash; lia.
Qed.

Lemma strip_nonempty input : stripBase64FWS input <> [] -> input <> [].
Proof. by intros H ->. Qed.

Lemma len_repeat {A} (x : A) n : len (repeat x n) = Z.of_nat n.
Proof. unfold len. by rewrite repeat_length. Qed.

Lemma parse_tail_ok limits e k d :
  e ++ repeat PAD k = std_encode d -> (k = 0%nat \/ PAD ∉ e) -> d <> [] ->
  len d <= MaxBase64DecodedBytes limits ->
  exists padCount, validateBase64AlphabetAndPadding e = Ret padCount /\
    (len e =? 0) = false /\
    (k = 0%nat -> len e mod 4 = 0 /\ decodedBase64Length (len e) padCount = len d) /\
    (k <> 0%nat -> padCount = 0 /\ (len e mod 4 = 2 \/ len e mod 4 = 3) /\ Z.of_nat k = 4 - len e mod 4 /\
       decodedBase64Length (len (std_encode d)) (Z.of_nat k) = len d) /\
    decodeInto (len d) (std_encode d) = Ret d.
Proof.
  intros E Hk Hne Hmax. destruct (encode_shape d) as (body & Eb & Hb & Hm & Hl).
  pose proof (pads_le d) as Hp. pose proof (alpha_no_pad body Hb) as Hnp.
  assert (decodeInto (len d) (std_encode d) = Ret d) as Hdec.
  { unfold decodeInto. rewrite std_decode_encode. by rewrite Z.ltb_irrefl. }
  pose proof (std_encode_nonempty d Hne) as Hsn.
  destruct k as [|k].
  - rewrite app_nil_r in E. subst e. exists (Z.of_nat (pads d)). split_and!; try done.
    + unfold validateBase64AlphabetAndPadding. rewrite Eb. apply validateLoop_body; [done | done | ].
      rewrite len_app, len_repeat. lia.
    + destruct (std_encode d) as [|c r]; [done | ]. rewrite len_cons. pose proof (len_nonneg r). lia.
  - destruct Hk as [? | Hk]; [done | ]. rewrite Eb in E.
    apply app_repeat_inj in E as [-> Hkp]; [ | done | done].
    assert (len (std_encode d) = len body + Z.of_nat (pads d)) as Hlen.
    { by rewrite Eb, len_app, len_repeat. }
    rewrite <- Hkp in *. exists 0. split_and!; try done.
    + unfold validateBase64AlphabetAndPadding. rewrite <- (app_nil_r body) at 1.
      apply (validateLoop_body body 0); [done | lia | lia].
    + destruct body as [|b body]; [ | rewrite len_cons; pose proof (len_nonneg body); lia].
      change (len []) with 0 in Hlen. lia.
    + intros _. split_and!; [done | lia | lia | ]. unfold decodedBase64Length. lia.
Qed.

Lemma base64_parse_ok input limits optionalPadding d :
  let L := Limits_normalize limits in
  Limits_Validate L = Ret tt -> len input <= MaxTagValueBytes L ->
  (optionalPadding = false -> edged isWSP input) ->
  d <> [] -> len d <= MaxBase64DecodedBytes L -> b64_text optionalPadding (stripBase64FWS input) d ->
  parseBase64String input limits optionalPadding = Ret (MkB64 input (std_encode d) d).
Proof.
  cbn zeta. set (L := Limits_normalize limits). set (e := stripBase64FWS input).
  intros Hv Hl Hedge Hdn Hdl Htext. unfold parseBase64String. fold L e. fold (edgeCheck input).
  assert (exists k, e ++ repeat PAD k = std_encode d /\ (k = 0%nat \/ PAD ∉ e) /\
                    (k <> 0%nat -> optionalPadding = true)) as (k & Ek & Hk & Hok).
  { destruct Htext as [Et | (-> & Hp & k & Et)]; [ | by exists k; auto].
    exists 0%nat. rewrite app_nil_r. split_and!; [done | by left | done]. }
  destruct (parse_tail_ok L e k d Ek Hk Hdn Hdl) as (pc & Hval & Hne & H0 & H1 & Hdec).
  rewrite Hv, (proj2 (Z.ltb_ge _ _)) by done. cbn [negb require obind].
  assert ((if negb optionalPadding && (0 <? len e) then edgeCheck input else Ret tt) = Ret tt) as ->.
  { destruct optionalPadding; [done | ]. cbn [negb andb]. destruct (0 <? len e); [ | done].
    apply edgeCheck_spec; [ | by apply Hedge]. apply strip_nonempty. fold e. by intros ->. }
  cbn [obind]. rewrite Hval. cbn [obind]. rewrite Hne. cbn [negb require obind].
  destruct (decide (k = 0%nat)) as [-> | Hk0].
  + destruct (H0 eq_refl) as [-> Hdl']. change (0 =? 0) with true. cbn [negb obind].
    rewrite Hdl', (proj2 (Z.ltb_ge _ _)) by done. cbn [negb require obind].
    rewrite app_nil_r in Ek. rewrite Ek, Hdec. cbn [obind]. by rewrite bytes_equal_refl.
  + destruct (H1 Hk0) as (-> & Hr & Hkr & Hdl').
    rewrite (proj2 (Z.eqb_neq _ _)) by lia. rewrite Hok by done.
    rewrite (proj2 (Z.eqb_neq (len e mod 4) 1)) by lia. cbn [negb orb require obind Z.eqb].
    unfold bytesOf. rewrite <- Hkr, Nat2Z.id. change x3d with PAD. rewrite Ek, Hdl'.
    rewrite (proj2 (Z.ltb_ge _ _)) by done. cbn [negb require obind].
    rewrite Hdec. cbn [obind]. by rewrite bytes_equal_refl.
Qed.

Lemma parseBase64String_iff input limits optionalPadding v :
  let L := Limits_normalize limits in
  parseBase64String input limits optionalPadding = Ret v <->
  Limits_Validate L = Ret tt /\ len input <= MaxTagValueBytes L /\
  (optionalPadding = false -> edged isWSP input) /\
  exists d, d <> [] /\ len d <= MaxBase64DecodedBytes L /\
    b64_text optionalPadding (stripBase64FWS input) d /\ v = MkB64 input (std_encode d) d.
Proof.
  cbn zeta. set (L := Limits_normalize limits). set (e := stripBase64FWS input).
  unfold parseBase64String. fold L e. fold (edgeCheck input). split.
  - intros H. apply obind_ret_inv in H as ([] & Hv & H).
    apply obind_ret_inv in H as (? & Hl%require_ret_inv%negb_true_iff%Z.ltb_ge & H).
    apply obind_ret_inv in H as ([] & Hedge & H).
    apply obind_ret_inv in H as (pc & Hval & H).
    apply obind_ret_inv in H as (? & Hne%require_ret_inv%negb_true_iff%Z.eqb_neq & H).
    apply obind_ret_inv in H as ([e' pc'] & Hpad & H).
    apply obind_ret_inv in H as (? & Hmax%require_ret_inv%negb_true_iff%Z.ltb_ge & H).
    apply obind_ret_inv in H as (d & Hd & H).
    apply obind_ret_inv in H as (? & Henc%require_ret_inv%bytes_equal_eq & H). injection H as <-.
    apply validateLoop_inv in Hval as [-> Hal].
    assert (e <> []) as Hene by by intros ->.
    split_and!; [done | done | | ].
    { intros ->. cbn [negb andb] in Hedge.
      rewrite (proj2 (Z.ltb_lt _ _)) in Hedge by (pose proof (len_nonneg e); lia).
      apply edgeCheck_spec; [by apply strip_nonempty | done]. }
    assert (e' = e /\ pc' = 0 + count_pad e \/
            optionalPadding = true /\ count_pad e = 0 /\ exists k, e' = e ++ repeat PAD k /\ pc' = Z.of_nat k)
      as Hcase.
    { destruct (_ =? 0) eqn:Er in Hpad; [left; by injection Hpad as <- <- | ].
      apply obind_ret_inv in Hpad as (? & Hp%require_ret_inv & Hpad). injection Hpad as <- <-. right.
      apply negb_true_iff, orb_false_iff in Hp as [[Ho Hp]%orb_false_iff _].
      apply negb_false_iff in Ho, Hp. apply Z.eqb_eq in Hp. split_and!; [done | done | ].
      exists (Z.to_nat (4 - len e mod 4)). unfold bytesOf. split; [done | ]. lia. }
    assert (Forall (fun b => b64_alpha b || (b =?b PAD) = true) e' /\ pc' = count_pad e') as [Hal' Hpc'].
    { destruct Hcase as [[-> ->] | (_ & Hc & k & -> & ->)]; [done | ]. split.
      - apply Forall_app. split; [done | ]. apply list.Forall_forall. intros b Hin.
        apply list_elem_of_In, repeat_spec in Hin as ->. done.
      - rewrite count_pad_app, count_pad_repeat. lia. }
    assert (len d <= MaxBase64DecodedBytes L /\ d <> []) as [Hdl Hdn].
    { unfold decodeInto in Hd. destruct (std_decode e') as [d'|] eqn:Ed; [ | done].
      destruct (decodedBase64Length (len e') pc' <? len d'); [done | ]. injection Hd as ->.
      apply std_decode_len in Ed; [ | done]. unfold decodedBase64Length in Hmax. split; [lia | ].
      intros ->. change (std_encode []) with (@nil byte) in Henc.
      destruct Hcase as [[-> _] | (_ & _ & k & -> & _)]; [done | by destruct e]. }
    exists d. split_and!; [done | done | | by rewrite Henc].
    destruct Hcase as [[-> _] | (-> & Hc & k & -> & _)]; [by left | right].
    split_and!; [done | | by exists k]. intros Hin. clear -Hin Hc.
    induction e as [|b e IH]; [by apply elem_of_nil in Hin | ]. rewrite count_pad_cons in Hc.
    assert (0 <= count_pad e) by apply len_nonneg.
    apply elem_of_cons in Hin as [<- | Hin]; [rewrite byte_eqb_refl in Hc; lia | ].
    apply IH; [ | done]. destruct (b =?b PAD); lia.
  - intros (Hv & Hl & Hedge & d & Hdn & Hdl & Htext & ->). by apply base64_parse_ok.
Qed.

(** Base64 parsing returns a value exactly when the limits are valid, the
    input is within its limit, it neither begins nor ends with white space
    (padded form), and without spaces and tabs it is the canonical encoding of
    a non-empty decoded value within its limit, where the optional form may
    omit the padding; the value then holds that decoding and its padded text. *)
Theorem parseBase64String_refines input limits optionalPadding v :
  let L := Limits_normalize limits in
  parseBase64String input limits optionalPadding = Ret v <->
  Limits_Validate L = Ret tt /\ len input <= MaxTagValueBytes L /\
  (optionalPadding = false -> edged isWSP input) /\
  exists d, d <> [] /\ len d <= MaxBase64DecodedBytes L /\
    b64_text optionalPadding (stripBase64FWS input) d /\ v = MkB64 input (std_encode d) d.
Proof. apply parseBase64String_iff. Qed.

Lemma validateLoop_no_crash rest i total p seen : no_crash (validateLoop rest i total p seen).
Proof. revert i p seen. induction rest as [|b rest IH]; intros; cbn [validateLoop]; crash_free. Qed.

Lemma parseBase64String_no_crash input limits optionalPadding :
  no_crash (parseBase64String input limits optionalPadding).
Proof.
  unfold parseBase64String. fold (edgeCheck input). crash_free.
  - apply edgeCheck_no_crash. intros ->.
    match goal with H : _ && _ = true |- _ => by rewrite andb_false_r in H end.
  - apply validateLoop_no_crash.
  - match goal with H : _ = Ret (?e, ?p) |- _ => rename H into Hpad end.
    match goal with H : validateBase64AlphabetAndPadding _ = Ret _ |- _ => apply validateLoop_inv in H as [-> Hal] end.
    match goal with |- no_crash (decodeInto (decodedBase64Length (len ?e) ?p) ?e) =>
      assert (Forall (fun b => b64_alpha b || (b =?b PAD) = true) e /\ p = count_pad e) as [Ha Hp] end.
    { destruct (_ =? 0) eqn:Er in Hpad; [by injection Hpad as <- <- | ].
      apply obind_ret_inv in Hpad as (? & Hp%require_ret_inv & Hpad). injection Hpad as <- <-.
      apply negb_true_iff, orb_false_iff in Hp as [[_ Hp]%orb_false_iff _].
      apply negb_false_iff, Z.eqb_eq in Hp. unfold bytesOf. split.
      - apply Forall_app. split; [done | ]. apply list.Forall_forall. intros b Hin.
        apply list_elem_of_In, repeat_spec in Hin as ->. done.
      - change x3d with PAD. rewrite count_pad_app, count_pad_repeat. lia. }
    subst. unfold decodeInto. destruct (std_decode _) as [d|] eqn:Ed; [ | done].
    apply std_decode_len in Ed; [ | done]. unfold decodedBase64Length. rewrite <- Ed.
    by rewrite Z.ltb_irrefl.
Qed.

(** ** Folding *)

(** Chunks of 64 bytes, the last one shorter but not empty. *)
Inductive chunked : list bytes -> Prop :=
  | chunked_last c : 0 < len c <= renderedBase64ChunkBytes -> chunked [c]
  | chunked_cons c cs : len c = renderedBase64ChunkBytes -> chunked cs -> chunked (c :: cs).

(** A call of the walk with the bytes of its range. *)
Definition call_chunk (s : bytes) (first : bool) (call : bool * Z * Z) (c : bytes) : Prop :=
  exists off, call = (first, off, len c) /\ forall E, zslice (E := E) s off (off + len c) = Ret c.

Lemma call_chunk_at s (first : bool) (a n : nat) :
  (a + n <= length s)%nat -> call_chunk s first (first, Z.of_nat a, Z.of_nat n) (take n (drop a s)).
Proof.
  intros Hn. assert (len (take n (drop a s)) = Z.of_nat n) as El by (unfold len; rewrite length_take, length_drop; lia).
  exists (Z.of_nat a). rewrite El. split; [done | ]. intros E.
  rewrite <- Nat2Z.inj_add, zslice_of_nat, slice_ok by lia. do 2 f_equal. lia.
Qed.

Lemma walk_calls fuel s off first :
  0 <= off < len s -> (forall o, off <= o -> first o = false) -> len s - off < Z.of_nat fuel ->
  exists calls cs, walkLoop fuel (len s) off first = Ret calls /\
    Forall2 (call_chunk s false) calls cs /\ concat cs = drop (Z.to_nat off) s /\ chunked cs.
Proof.
  revert off. induction fuel as [|fuel IH]; intros off Hoff Hfirst Hf; [lia | ].
  cbn [walkLoop]. rewrite (proj2 (Z.ltb_lt _ _)) by lia. unfold nextBase64Chunk.
  change renderedBase64ChunkBytes with 64. rewrite (Hfirst off) by lia. unfold len in *.
  destruct (Z.eqb_spec (Z.min 64 (Z.of_nat (length s) - off)) (Z.of_nat (length s) - off)) as [E | E].
  - pose proof (call_chunk_at s false (Z.to_nat off) (length s - Z.to_nat off) ltac:(lia)) as Hc.
    rewrite take_ge in Hc by (rewrite length_drop; lia).
    rewrite E. eexists _, [drop (Z.to_nat off) s]. split_and!; [done | | cbn; by rewrite app_nil_r | ].
    + constructor; [ | constructor]. rewrite Z2Nat.id in Hc by lia.
      replace (Z.of_nat (length s - Z.to_nat off)) with (Z.of_nat (length s) - off) in Hc by lia. done.
    + constructor. unfold len. rewrite length_drop. change renderedBase64ChunkBytes with 64. lia.
  - assert (64 < Z.of_nat (length s) - off) by lia. rewrite Z.min_l in * by lia.
    destruct (IH (off + 64)) as (calls & cs & Hw & Hcc & Hcat & Hch); [lia | intros; apply Hfirst; lia | lia | ].
    rewrite Hw. cbn [obind].
    pose proof (call_chunk_at s false (Z.to_nat off) 64 ltac:(lia)) as Hc. rewrite Z2Nat.id in Hc by lia.
    eexists _, (_ :: cs). split_and!; [done | by constructor | | ].
    + cbn [concat]. rewrite Hcat. replace (Z.to_nat (off + 64)) with (Z.to_nat off + 64)%nat by lia.
      rewrite <- drop_drop. apply take_drop.
    + constructor; [ | done]. unfold len. rewrite length_take, length_drop.
      change renderedBase64ChunkBytes with 64. lia.
Qed.

(** All calls for a text that is not empty. *)
Lemma walk_all s :
  s <> [] ->
  exists call calls c cs, walkEncodedBase64Chunks (len s) = Ret (call :: calls) /\
    call_chunk s true call c /\ Forall2 (call_chunk s false) calls cs /\
    c ++ concat cs = s /\ chunked (c :: cs).
Proof.
  intros Hne. assert (0 < len s) as Hpos by (destruct s as [|b t]; [done | rewrite len_cons; pose proof (len_nonneg t); lia]).
  unfold walkEncodedBase64Chunks. cbn [walkLoop]. rewrite (proj2 (Z.ltb_lt _ _)) by lia.
  unfold nextBase64Chunk. change renderedBase64ChunkBytes with 64. rewrite Z.sub_0_r. change (0 =? 0) with true.
  destruct (Z.eqb_spec (Z.min 64 (len s)) (len s)) as [E | E].
  - pose proof (call_chunk_at s true 0 (length s) ltac:(lia)) as Hc. rewrite drop_0, firstn_all in Hc.
    rewrite E. eexists _, [], s, []. split_and!; [done | done | constructor | by rewrite app_nil_r | ].
    constructor. change renderedBase64ChunkBytes with 64. lia.
  - assert (64 < len s) by lia. rewrite Z.min_l by lia. change (0 + 64) with 64.
    destruct (walk_calls (Z.to_nat (len s)) s 64 (fun o => o =? 0)) as (calls & cs & Hw & Hcc & Hcat & Hch);
      [lia | intros; lia | lia | ].
    rewrite Hw. cbn [obind]. pose proof (call_chunk_at s true 0 64) as Hc. unfold len in *.
    eexists _, calls, _, cs. split_and!; [done | apply Hc; lia | done | rewrite Hcat; apply take_drop | ].
    constructor; [ | done]. unfold len. rewrite length_take, length_drop. change renderedBase64ChunkBytes with 64. lia.
Qed.

Lemma writeChunks_calls s calls cs :
  Forall2 (call_chunk s false) calls cs ->
  writeChunks s calls = Ret (concat (map (fun c => crlf ++ x09 :: c) cs)).
Proof.
  induction 1 as [|call c calls cs (off & -> & Hz) _ IH]; [done | ].
  cbn [writeChunks]. rewrite Hz. cbn [obind]. rewrite IH. cbn [obind map concat]. by rewrite <- !app_assoc.
Qed.

Lemma chunked_len cs :
  chunked cs ->
  renderedBase64ChunkBytes * (len cs - 1) < len (concat cs) <= renderedBase64ChunkBytes * len cs.
Proof.
  change renderedBase64ChunkBytes with 64.
  induction 1 as [c Hc | c cs Hc _ IH]; change renderedBase64ChunkBytes with 64 in *.
  - cbn. rewrite app_nil_r. change (len [c]) with 1. lia.
  - cbn [concat]. rewrite len_app, len_cons. lia.
Qed.

(** The folded text: the first chunk, then CR LF HTAB and a chunk each time. *)
Lemma FoldBase64_chunks s call calls c cs :
  walkEncodedBase64Chunks (len s) = Ret (call :: calls) -> call_chunk s true call c ->
  Forall2 (call_chunk s false) calls cs -> c ++ concat cs = s -> chunked (c :: cs) ->
  FoldBase64 s = Ret (fold_value c (map (cons x09) cs)).
Proof.
  intros Hw (off & -> & Hc) Hcs Hcat Hch. unfold FoldBase64, fold_value. destruct (Z.leb_spec (len s) renderedBase64ChunkBytes) as [Hle | _].
  - apply chunked_len in Hch. cbn [concat] in Hch. rewrite Hcat, len_cons in Hch.
    change renderedBase64ChunkBytes with 64 in *. pose proof (len_nonneg cs).
    destruct cs as [|d cs]; [by subst | ]. rewrite len_cons in Hch. pose proof (len_nonneg cs). lia.
  - rewrite Hw. cbn [obind writeChunks]. rewrite Hc. cbn [obind]. rewrite (writeChunks_calls _ _ _ Hcs). cbn [obind app].
    by rewrite map_map.
Qed.
Lemma FoldBase64_spec s :
  s <> [] ->
  exists c cs, FoldBase64 s = Ret (fold_value c (map (cons x09) cs)) /\
    c ++ concat cs = s /\ chunked (c :: cs).
Proof.
  intros Hne. destruct (walk_all s Hne) as (call & calls & c & cs & Hw & Hc & Hcs & Hcat & Hch).
  exists c, cs. split_and!; [by eapply FoldBase64_chunks | done | done].
Qed.

Lemma encode_chars s : Forall (fun b => b64_alpha b || (b =?b PAD) = true) (std_encode s).
Proof.
  destruct (encode_shape s) as (body & -> & Hb & _). apply Forall_app. split.
  - eapply Forall_impl; [exact Hb | ]. intros b Hb'. simpl. by rewrite Hb'.
  - apply list.Forall_forall. intros b Hin. apply list_elem_of_In, repeat_spec in Hin as ->. done.
Qed.

Lemma dark_plain b : b64_alpha b || (b =?b PAD) = true -> plain_byte b = true.
Proof.
  enough (implb (b64_alpha b || (b =?b PAD)) (plain_byte b) = true) as H.
  { intros E. by rewrite E in H. }
  by_bytes b.
Qed.

Lemma strip_folded cs :
  Forall (Forall (fun b => isWSP b = false)) cs -> stripBase64FWS (concat (map (cons x09) cs)) = concat cs.
Proof.
  induction 1 as [|c cs Hc _ IH]; [done | ]. cbn [map concat]. unfold stripBase64FWS in *.
  rewrite List.filter_app, IH. cbn [List.filter]. change (negb (isWSP x09)) with false. cbn match.
  f_equal. apply filter_id. eapply Forall_impl; [exact Hc | ]. intros b Hb. simpl. by rewrite Hb.
Qed.

Lemma chunks_dark (P : byte -> Prop) c cs : Forall P (c ++ concat cs) -> Forall P c /\ Forall (Forall P) cs.
Proof.
  intros [Hc Hcs]%Forall_app. split; [done | ]. clear Hc.
  induction cs as [|d cs IH]; [done | ]. cbn [concat] in Hcs. apply Forall_app in Hcs as [Hd Hcs].
  constructor; auto.
Qed.

Lemma nonempty_snoc (l : bytes) : 0 < len l -> exists u b, l = u ++ [b].
Proof. destruct l as [|b l _] using rev_ind; [done | eauto]. Qed.

Lemma chunked_ends (P : byte -> Prop) cs :
  chunked cs -> Forall (Forall P) cs -> exists u b, concat (map (cons x09) cs) = u ++ [b] /\ P b.
Proof.
  induction 1 as [l Hl | l cs _ _ IH]; intros [Hlp Hp]%Forall_cons.
  - destruct (nonempty_snoc l) as (u & b & ->); [lia | ]. exists (x09 :: u), b. cbn. rewrite app_nil_r.
    split; [done | ]. by apply Forall_app in Hlp as [_ [? _]%Forall_cons].
  - destruct (IH Hp) as (u & b & E & Hb). exists (x09 :: l ++ u), b. cbn [map concat].
    by rewrite E, app_comm_cons, app_assoc.
Qed.

(** The unfolded form of a folded encoding. *)
Lemma fold_unfold d :
  d <> [] ->
  exists folded, FoldBase64 (EncodeBase64 d) = Ret folded /\ validHeaderFieldValue folded = true /\
    stripBase64FWS (unfoldHeaderValue folded) = std_encode d /\ edged isWSP (unfoldHeaderValue folded).
Proof.
  intros Hne. destruct (FoldBase64_spec (std_encode d)) as (c & cs & Hf & Hcat & Hch);
    [by apply std_encode_nonempty | ].
  pose proof (encode_chars d) as Hd. rewrite <- Hcat in Hd. apply chunks_dark in Hd as [Hc Hcs].
  assert (plain c) as Hpc by (eapply Forall_impl; [exact Hc | apply dark_plain]).
  assert (Forall cont_line (map (cons x09) cs)) as Hcont.
  { rewrite Forall_map. eapply Forall_impl; [exact Hcs | ]. intros l Hl. split.
    - apply plain_cons. split; [done | ]. eapply Forall_impl; [exact Hl | apply dark_plain].
    - by exists x09, l. }
  assert (Forall (fun b => isWSP b = false) c) as Hcd.
  { eapply Forall_impl; [exact Hc | ]. intros b Hb. by apply b64_char_plain in Hb as [_ ?]. }
  assert (Forall (Forall (fun b => isWSP b = false)) cs) as Hcsd.
  { eapply Forall_impl; [exact Hcs | ]. intros l Hl. eapply Forall_impl; [exact Hl | ].
    intros b Hb. by apply b64_char_plain in Hb as [_ ?]. }
  exists (fold_value c (map (cons x09) cs)). split_and!.
  - done.
  - by apply fold_value_valid.
  - rewrite unfoldHeaderValue_fold by done. rewrite <- Hcat. unfold stripBase64FWS.
    rewrite List.filter_app. fold stripBase64FWS. f_equal; [ | by apply strip_folded].
    apply filter_id. eapply Forall_impl; [exact Hcd | ]. intros b Hb. simpl. by rewrite Hb.
  - rewrite unfoldHeaderValue_fold by done.
    assert (c <> []) as Hcn.
    { intros ->. inversion Hch as [? Hlen | ? ? Hlen]; subst; change (len (@nil byte)) with 0 in Hlen; [lia | done]. }
    split.
    + intros b t E. destruct c as [|x c]; [done | ]. injection E as <- _. by apply Forall_cons in Hcd as [? _].
    + intros t b E. assert (cs = [] \/ chunked cs) as [-> | Hcs'] by (inversion Hch; auto).
      * cbn in E. rewrite app_nil_r in E. subst c. by apply Forall_app in Hcd as [_ [? _]%Forall_cons].
      * destruct (chunked_ends _ cs Hcs' Hcsd) as (u & y & Eu & Hy). rewrite Eu, app_assoc in E.
        by apply app_inj_tail in E as [_ <-].
Qed.

Lemma valid_text_limit L : Limits_Validate L = Ret tt -> 0 < MaxTagValueBytes L.
Proof.
  unfold Limits_Validate. destruct (0 <? MaxFieldValueBytes L), (0 <? MaxTags L), (0 <? MaxTagNameBytes L), (0 <? MaxTagValueBytes L) eqn:E; try done. lia.
Qed.

(** C9: a rendered Base64 value reads back: folding the encoding of any
    non-empty value gives a valid folded header value, and parsing it after
    header unfolding returns the same bytes, exactly when the value and the
    unfolded text are within their limits.  The empty value folds to the empty
    text, which the parser rejects for its length. *)
Theorem base64_fold_roundtrip d limits :
  Limits_Validate (Limits_normalize limits) = Ret tt ->
  (d <> [] ->
   exists folded, FoldBase64 (EncodeBase64 d) = Ret folded /\ validHeaderFieldValue folded = true /\
     (ParseBase64String (unfoldHeaderValue folded) limits =
        Ret (MkB64 (unfoldHeaderValue folded) (EncodeBase64 d) d) <->
      len d <= MaxBase64DecodedBytes (Limits_normalize limits) /\
      len (unfoldHeaderValue folded) <= MaxTagValueBytes (Limits_normalize limits))) /\
  (d = [] ->
   FoldBase64 (EncodeBase64 d) = Ret [] /\
   ParseBase64String (unfoldHeaderValue []) limits = Fail (base64Error ErrorCodeInvalidBase64Length 0)).
Proof.
  intros Hv. split.
  - intros Hne. destruct (fold_unfold d Hne) as (folded & Hf & Hval & Hs & He).
    exists folded. split_and!; [done | done | ]. split.
    + intros (_ & Hl & _ & d' & _ & Hd & _ & [= _ <-])%parseBase64String_iff. by split.
    + intros [Hd Hl]. apply base64_parse_ok; try done. by left.
  - intros ->. split; [done | ]. pose proof (valid_text_limit _ Hv) as Hpos.
    unfold ParseBase64String, parseBase64String. rewrite Hv. change (unfoldHeaderValue []) with (@nil byte).
    change (len (@nil byte)) with 0. by rewrite (proj2 (Z.ltb_ge _ 0)) by lia.
Qed.

Lemma base64_fold_roundtrip_witness :
  exists folded, FoldBase64 (EncodeBase64 (repeat x41 100)) = Ret folded /\ len folded = 142 /\
    ParseBase64String (unfoldHeaderValue folded) DefaultLimits =
    Ret (MkB64 (unfoldHeaderValue folded) (EncodeBase64 (repeat x41 100)) (repeat x41 100)).
Proof.
  destruct (base64_fold_roundtrip (repeat x41 100) DefaultLimits eq_refl) as [H _].
  destruct (H ltac:(discriminate)) as (folded & H1 & _ & H3).
  exists folded. assert (len folded = 142 /\ len (unfoldHeaderValue folded) <= 200) as [Hl Hu].
  { vm_compute in H1. injection H1 as <-. split; [reflexivity | vm_compute; discriminate]. }
  split; [exact H1 | split; [exact Hl | ]]. apply H3. split; [vm_compute; discriminate | ].
  eapply Z.le_trans; [exact Hu | vm_compute; discriminate].
Defined.

(** Base64 parsing never panics; in particular the decoder never writes
    beyond the buffer sized from the padding count. *)
Theorem parseBase64String_total input limits optionalPadding :
  parseBase64String input limits optionalPadding <> Crash.
Proof. apply parseBase64String_no_crash. Qed.

Lemma len_encode d : len (std_encode d) = (len d + 2) / 3 * 4.
Proof.
  destruct (encode_shape d) as (body & _ & _ & Hm & Hl). pose proof (pads_le d).
  pose proof (len_nonneg (std_encode d)). lia.
Qed.

Lemma len_folds (cs : list bytes) :
  len (concat (map (fun c => crlf ++ c) (map (cons x09) cs))) = len (concat cs) + 3 * len cs.
Proof.
  induction cs as [|c cs IH]; [done | ]. cbn [map concat]. rewrite !len_app, IH, !len_cons.
  change (len crlf) with 2. lia.
Qed.

(** [FoldedBase64Size] is the exact length of the folded encoding of every
    value whose encoding is representable, and reports failure with the
    largest integer when the arithmetic would leave Go's int. *)
Theorem FoldedBase64Size_exact d :
  (len d <= 2 ^ 62 ->
   exists folded, (d = [] /\ folded = [] \/ FoldBase64 (EncodeBase64 d) = Ret folded) /\
     FoldedBase64Size (len d) = (len folded, true)) /\
  (forall n, n < 0 \/ MaxInt / 4 * 3 < n -> FoldedBase64Size n = (MaxInt, false)) /\
  (forall n r, FoldedBase64Size n = (r, true) -> 0 <= r <= MaxInt).
Proof.
  assert (MaxInt = 9223372036854775807) as HM by reflexivity.
  unfold FoldedBase64Size, base64EncodedSize. change renderedBase64ChunkBytes with 64. split_and!.
  - intros Hd. change (2 ^ 62) with 4611686018427387904 in Hd. pose proof (len_nonneg d).
    rewrite (proj2 (Z.ltb_ge _ _)), (proj2 (Z.ltb_ge _ _)) by lia. cbn [orb].
    rewrite (proj2 (Z.ltb_ge (MaxInt / 4) _)) by lia. cbn [negb]. rewrite <- len_encode.
    destruct (decide (d = [])) as [-> | Hne]; [exists []; auto | ].
    destruct (FoldBase64_spec (std_encode d)) as (c & cs & Hf & Hcat & Hch);
      [by apply std_encode_nonempty | ].
    exists (fold_value c (map (cons x09) cs)). split; [by right | ].
    apply chunked_len in Hch. change renderedBase64ChunkBytes with 64 in Hch.
    cbn [concat] in Hch. rewrite Hcat, len_cons in Hch. pose proof (len_nonneg cs).
    rewrite (proj2 (Z.eqb_neq _ _)) by lia.
    unfold fold_value. rewrite len_app, len_folds.
    apply (f_equal len) in Hcat. rewrite len_app in Hcat. pose proof (len_encode d).
    assert ((len (std_encode d) - 1) / 64 = len cs) as -> by lia.
    rewrite (proj2 (Z.ltb_ge _ _)) by lia. f_equal. lia.
  - intros n Hn. rewrite HM in Hn. destruct ((n <? 0) || _) eqn:E; [done | ].
    apply orb_false_iff in E as [E1%Z.ltb_ge E2%Z.ltb_ge].
    rewrite (proj2 (Z.ltb_lt (MaxInt / 4) _)) by (rewrite HM; lia). done.
  - intros n r. destruct ((n <? 0) || _) eqn:E; [done | ].
    apply orb_false_iff in E as [E1%Z.ltb_ge E2%Z.ltb_ge].
    destruct (Z.ltb_spec (MaxInt / 4) ((n + 2) / 3)) as [Hlt | Hge]; [done | ]. cbn [negb].
    destruct (Z.eqb_spec ((n + 2) / 3 * 4) 0); [intros [= <-]; lia | ].
    destruct (Z.ltb_spec ((MaxInt - (n + 2) / 3 * 4) / 3) (((n + 2) / 3 * 4 - 1) / 64)); [done | ].
    intros [= <-]. lia.
Qed.
