(* ===== verification/Combine.v ===== *)
(** * Package internal/combine: AND/OR group structure of h= and s= values

    layout.go ([Layout], [Split]) and evaluate.go ([Signatures], [Hashes]).  A
    Go array of [MaxSets] bytes is a list of that length; the result of a Go
    function returning (value, ok) is an option where the value is not used
    when ok is false.  [Result] has the four known results only. *)

From S2P Require Import Prelude GoBytes TagTypes TagScan.
#[local] Open Scope Z_scope.

Definition AllSeparator : byte := x2c.
Definition AnySeparator : byte := x7c.
Definition MaxSets : Z := 16.

(** ** layout.go *)
Record Layout := MkLayout { sizes : list Z; groups : Z }.
Definition noLayout : Layout := MkLayout (repeat 0 16) 0.

#[export] Instance Layout_eq_dec : EqDecision Layout.
Proof. solve_decision. Defined.

(** The loop of NewLayout; [array] is the array written so far. *)
Fixpoint newLayoutLoop (input : list Z) (index : nat) (total : Z) (array : list Z) : option (list Z) :=
  match input with
  | [] => Some array
  | size :: rest =>
      if (size <=? 0) || (MaxSets - total <? size) then None
      else newLayoutLoop rest (S index) (total + size) (<[index := size]> array)
  end.
Definition NewLayout (input : list Z) : option Layout :=
  if (len input =? 0) || (MaxSets <? len input) then None
  else
    match newLayoutLoop input 0 0 (repeat 0 16) with
    | Some array => Some (MkLayout array (len input))
    | None => None
    end.
Definition SingleGroup (count : Z) : option Layout := NewLayout [count].

(** The sizes of the layout's groups, as the loops over [range l.groups] read
    them. *)
Definition GroupSizes (l : Layout) : list Z := take (Z.to_nat (groups l)) (sizes l).
Definition Groups (l : Layout) : Z := groups l.
Definition sum_sizes (input : list Z) : Z := foldl Z.add 0 input.
Definition Sets (l : Layout) : Z := sum_sizes (GroupSizes l).
Definition Valid (l : Layout) : bool :=
  if (groups l =? 0) || (MaxSets <? groups l) then false
  else forallb (fun size => negb (size =? 0)) (GroupSizes l) && (Sets l <=? MaxSets).

Fixpoint groupOfLoop (input : list Z) (group start index : Z) : option Z :=
  match input with
  | [] => None
  | size :: rest =>
      if (start <=? index) && (index <? start + size) then Some group
      else groupOfLoop rest (group + 1) (start + size) index
  end.
Definition GroupOf (l : Layout) (index : Z) : option Z := groupOfLoop (GroupSizes l) 0 0 index.

Fixpoint separatorLoop (input : list Z) (start index : Z) : byte :=
  match input with
  | [] => x00
  | size :: rest =>
      if index =? start then AnySeparator
      else if index <? start + size then AllSeparator
      else separatorLoop rest (start + size) index
  end.
Definition SeparatorBefore (l : Layout) (index : Z) : byte :=
  if index <=? 0 then x00 else separatorLoop (GroupSizes l) 0 index.

Definition isSeparator (b : byte) : bool := (b =?b AllSeparator) || (b =?b AnySeparator).
Definition countSeparators (value : bytes) : Z := len (List.filter isSeparator value).
Definition CountSets (value : bytes) : Z :=
  if len value =? 0 then 0 else 1 + countSeparators value.
Definition onlyWSP (input : bytes) : bool := forallb (fun b => (b =?b x20) || (b =?b x09)) input.

(** The loop of Split: [piece] is the text since the last separator, [sets]
    and [done] the sets and the sizes of the groups completed so far. *)
Fixpoint splitLoop (value piece : bytes) (sets : list bytes) (done : list Z) (groupSize : Z)
    : option (list bytes * list Z) :=
  match value with
  | [] => if onlyWSP piece then None else Some (sets ++ [piece], done ++ [groupSize + 1])
  | b :: rest =>
      if negb (isSeparator b) then splitLoop rest (piece ++ [b]) sets done groupSize
      else if onlyWSP piece then None
      else if b =?b AnySeparator
      then splitLoop rest [] (sets ++ [piece]) (done ++ [groupSize + 1]) 0
      else splitLoop rest [] (sets ++ [piece]) done (groupSize + 1)
  end.
Definition Split (value : bytes) : option (list bytes * Layout) :=
  if (len value =? 0) || (MaxSets <? CountSets value) then None
  else
    match splitLoop value [] [] [] 0 with
    | None => None
    | Some (sets, szs) => match NewLayout szs with Some l => Some (sets, l) | None => None end
    end.

(** ** evaluate.go *)
Inductive Result := ResultPass | ResultFail | ResultTempError | ResultPermError.
#[export] Instance Result_eq_dec : EqDecision Result.
Proof. solve_decision. Defined.

Record Outcome := MkOutcome { oc_result : Result; decisive : Z }.
(** [None] is the invalid outcome. *)
Definition Outcome_Pass (o : option Outcome) : bool :=
  if o is Some oc then bool_decide (oc_result oc = ResultPass) else false.

Fixpoint signatureAllLoop (results : list Result) (allPass nonPassAllTemp anyFail : bool) : bool * bool * bool :=
  match results with
  | [] => (allPass, nonPassAllTemp, anyFail)
  | r :: rest =>
      if decide (r = ResultPass) then signatureAllLoop rest allPass nonPassAllTemp anyFail
      else signatureAllLoop rest false
             (if decide (r = ResultTempError) then nonPassAllTemp else false)
             (if decide (r = ResultFail) then true else anyFail)
  end.
Definition signatureAll (results : list Result) : Result :=
  let '(allPass, nonPassAllTemp, anyFail) := signatureAllLoop results true true false in
  if allPass : bool then ResultPass
  else if nonPassAllTemp : bool then ResultTempError
  else if anyFail : bool then ResultFail else ResultPermError.

Definition hashAll (results : list Result) : Result :=
  let '(allPass, anyFail) :=
    foldl (fun (acc : bool * bool) r =>
             (acc.1 && bool_decide (r = ResultPass), acc.2 || bool_decide (r = ResultFail)))
      (true, false) results in
  if allPass : bool then ResultPass else if anyFail : bool then ResultFail else ResultPermError.

Fixpoint firstPresent (results : list Result) (precedence : list Result) : Result :=
  match precedence with
  | [] => ResultPermError
  | candidate :: rest =>
      if bool_decide (candidate ∈ results) then candidate else firstPresent results rest
  end.
Definition signatureAny (results : list Result) : Result :=
  firstPresent results [ResultPass; ResultTempError; ResultFail].
Definition hashAny (results : list Result) : Result := firstPresent results [ResultPass; ResultFail].

(** The runs of intermediates of the groups, with their start indices. *)
Fixpoint group_runs (szs : list Z) (start : Z) (intermediates : list Result)
    : outcome unit (list (Z * list Result)) :=
  match szs with
  | [] => Ret []
  | size :: rest =>
      if len intermediates <? size then Crash
      else
        let n := Z.to_nat size in
        let* runs := group_runs rest (start + size) (drop n intermediates) in
        Ret ((start, take n intermediates) :: runs)
  end.

(** The first index of a run that carries [result]. *)
Fixpoint findResult (run : list Result) (start : Z) (result : Result) : option Z :=
  match run with
  | [] => None
  | r :: rest => if decide (r = result) then Some start else findResult rest (start + 1) result
  end.
Fixpoint selectDecisive (runs : list (Z * list Result)) (allRule : list Result -> Result)
    (result : Result) : option Outcome :=
  match runs with
  | [] => None
  | (start, run) :: rest =>
      if decide (allRule run = result)
      then match findResult run start result with
           | Some index => Some (MkOutcome result index)
           | None => None
           end
      else selectDecisive rest allRule result
  end.

Definition combine (layout : Layout) (intermediates : list Result)
    (allRule anyRule : list Result -> Result) (allowTemp : bool) : outcome unit (option Outcome) :=
  if negb (Valid layout) || negb (Sets layout =? len intermediates) then Ret None
  else if existsb (fun r => negb allowTemp && bool_decide (r = ResultTempError)) intermediates then Ret None
  else
    let* runs := group_runs (GroupSizes layout) 0 intermediates in
    let result := anyRule (map (fun run => allRule run.2) runs) in
    Ret (selectDecisive runs allRule result).

Definition Signatures (layout : Layout) (intermediates : list Result) : outcome unit (option Outcome) :=
  combine layout intermediates signatureAll signatureAny true.
Definition Hashes (layout : Layout) (intermediates : list Result) : outcome unit (option Outcome) :=
  combine layout intermediates hashAll hashAny false.

(** ** Layouts *)
Definition good_sizes (input : list Z) : Prop :=
  input <> [] /\ Forall (fun size => 0 < size) input /\ sum_sizes input <= MaxSets.

Lemma foldl_add_shift l a : foldl Z.add a l = a + foldl Z.add 0 l.
Proof.
  revert a. induction l as [|x l IH]; intros a; cbn [foldl]; [lia | ].
  rewrite (IH (a + x)), (IH (0 + x)). lia.
Qed.
Lemma sum_sizes_cons x l : sum_sizes (x :: l) = x + sum_sizes l.
Proof. unfold sum_sizes. simpl. apply foldl_add_shift. Qed.
Lemma sum_sizes_app l k : sum_sizes (l ++ k) = sum_sizes l + sum_sizes k.
Proof. induction l as [|x l IH]; [done | ]. cbn [app]. rewrite !sum_sizes_cons, IH. lia. Qed.
Lemma sum_sizes_bound l : Forall (fun size => 0 < size) l -> len l <= sum_sizes l.
Proof. induction 1 as [|x l Hx _ IH]; [done | ]. rewrite len_cons, sum_sizes_cons. lia. Qed.

Lemma newLayoutLoop_ok input done total :
  Forall (fun size => 0 < size) input -> (length done + length input <= 16)%nat ->
  total + sum_sizes input <= MaxSets ->
  newLayoutLoop input (length done) total (done ++ repeat 0 (16 - length done)) =
  Some ((done ++ input) ++ repeat 0 (16 - length (done ++ input))).
Proof.
  intros Hf. revert done total. induction Hf as [|x input Hx Hf IH]; intros done total Hl Hs.
  - cbn [newLayoutLoop]. by rewrite app_nil_r.
  - cbn [newLayoutLoop]. rewrite sum_sizes_cons in Hs. pose proof (sum_sizes_bound input Hf).
    pose proof (len_nonneg input). cbn [length] in Hl.
    rewrite (proj2 (Z.leb_gt _ _)), (proj2 (Z.ltb_ge _ _)) by lia. cbn [orb].
    rewrite insert_app_r_alt, Nat.sub_diag by lia.
    assert (repeat 0 (16 - length done) = 0 :: repeat 0 (16 - length (done ++ [x]))) as ->.
    { rewrite length_app. simpl length. replace (16 - length done)%nat with (S (16 - (length done + 1))) by lia.
      done. }
    cbn [insert list_insert].
    specialize (IH (done ++ [x]) (total + x)). rewrite length_app, <- !app_assoc in IH. cbn [length app] in IH.
    replace (length done + 1)%nat with (S (length done)) in IH by lia. 
    rewrite length_app. cbn [length]. replace (length done + 1)%nat with (S (length done)) by lia.
    rewrite IH by (cbn [length] in *; lia). by rewrite <- app_assoc.
Qed.

Lemma newLayoutLoop_inv input index total array r :
  newLayoutLoop input index total array = Some r ->
  Forall (fun size => 0 < size) input /\ (input <> [] -> total + sum_sizes input <= MaxSets).
Proof.
  revert index total array. induction input as [|x input IH]; intros index total array H; [by split | ].
  cbn [newLayoutLoop] in H. destruct (Z.leb_spec x 0), (Z.ltb_spec (MaxSets - total) x); try done.
  cbn [orb] in H. apply IH in H as [Hf Hs]. split; [by constructor | ]. intros _.
  rewrite sum_sizes_cons. destruct input as [|y input]; [change (sum_sizes []) with 0; lia | ].
  specialize (Hs ltac:(done)). lia.
Qed.

Definition layout_of (input : list Z) : Layout :=
  MkLayout (input ++ repeat 0 (16 - length input)) (len input).

Lemma NewLayout_Some input l : NewLayout input = Some l <-> good_sizes input /\ l = layout_of input.
Proof.
  unfold NewLayout, good_sizes. split.
  - destruct (Z.eqb_spec (len input) 0) as [|Hne]; [done | ].
    destruct (Z.ltb_spec MaxSets (len input)); [done | ]. cbn [orb].
    destruct (newLayoutLoop _ _ _ _) as [array|] eqn:E; [ | done]. intros [= <-].
    destruct (newLayoutLoop_inv _ _ _ _ _ E) as [Hf Hs].
    assert (input <> []) as Hin by by intros ->. specialize (Hs Hin).
    split; [done | ].
    pose proof (newLayoutLoop_ok input [] 0 Hf) as Hok. cbn [app length] in Hok.
    change (repeat 0 (16 - 0)) with (repeat 0 16) in Hok. rewrite Hok in E; [ | | done].
    + by injection E as <-.
    + unfold len in *. change MaxSets with 16 in *. lia.
  - intros [(Hne & Hf & Hs) ->]. pose proof (sum_sizes_bound input Hf). change MaxSets with 16 in *.
    destruct input as [|x input]; [done | ]. rewrite (proj2 (Z.eqb_neq _ _)).
    2: { rewrite len_cons. pose proof (len_nonneg input). lia. }
    rewrite (proj2 (Z.ltb_ge _ _)) by lia. cbn [orb].
    pose proof (newLayoutLoop_ok (x :: input) [] 0 Hf) as Hok. cbn [app] in Hok.
    change (length (@nil Z)) with 0%nat in Hok. change (repeat 0 (16 - 0)) with (repeat 0 16) in Hok.
    change MaxSets with 16 in Hok. rewrite Hok; [done | unfold len in *; simpl in *; lia | lia].
Qed.

Lemma GroupSizes_of input : GroupSizes (layout_of input) = input.
Proof. unfold GroupSizes, layout_of. cbn [sizes groups]. unfold len. by rewrite Nat2Z.id, take_app_length. Qed.

Lemma Valid_of input : good_sizes input -> Valid (layout_of input) = true.
Proof.
  intros (Hne & Hf & Hs). unfold Valid, Sets. rewrite GroupSizes_of. cbn [layout_of groups].
  pose proof (sum_sizes_bound input Hf).
  rewrite (proj2 (Z.eqb_neq _ _)). 2: { destruct input; [done | ]. rewrite len_cons. pose proof (len_nonneg input). lia. }
  rewrite (proj2 (Z.ltb_ge _ _)) by lia. cbn [orb].
  rewrite (proj2 (Z.leb_le _ _)) by done. rewrite andb_true_r.
  apply forallb_forall. intros x Hx. rewrite <- list_elem_of_In in Hx. rewrite Forall_forall in Hf.
  apply Hf in Hx. apply negb_true_iff, Z.eqb_neq. lia.
Qed.

(** ** Split as a grammar *)
Definition piece_ok (p : bytes) : Prop :=
  Forall (fun b => isSeparator b = false) p /\ onlyWSP p = false.

Fixpoint render_group (g : list bytes) : bytes :=
  match g with
  | [] => []
  | [p] => p
  | p :: rest => p ++ AllSeparator :: render_group rest
  end.
Fixpoint render_groups (gs : list (list bytes)) : bytes :=
  match gs with
  | [] => []
  | [g] => render_group g
  | g :: rest => render_group g ++ AnySeparator :: render_groups rest
  end.

Definition groups_ok (gs : list (list bytes)) : Prop :=
  gs <> [] /\ Forall (fun g => g <> [] /\ Forall piece_ok g) gs.

Lemma render_group_cons p g : g <> [] -> render_group (p :: g) = p ++ AllSeparator :: render_group g.
Proof. by destruct g. Qed.
Lemma render_groups_cons g gs : gs <> [] -> render_groups (g :: gs) = render_group g ++ AnySeparator :: render_groups gs.
Proof. by destruct gs. Qed.
Lemma render_push p g gs :
  g <> [] -> render_groups ((p :: g) :: gs) = p ++ AllSeparator :: render_groups (g :: gs).
Proof.
  intros Hg. destruct gs as [|g' gs].
  - cbn [render_groups]. by apply render_group_cons.
  - rewrite !render_groups_cons, render_group_cons by done. by rewrite <- app_assoc.
Qed.

Lemma splitLoop_inv value piece sets done n ss ds :
  Forall (fun b => isSeparator b = false) piece -> splitLoop value piece sets done n = Some (ss, ds) ->
  exists g gs, groups_ok (g :: gs) /\ piece ++ value = render_groups (g :: gs) /\
    ss = sets ++ concat (g :: gs) /\ ds = done ++ (n + len g) :: map len gs.
Proof.
  revert piece sets done n. induction value as [|b value IH]; intros piece sets done n Hp H; cbn [splitLoop] in H.
  - destruct (onlyWSP piece) eqn:E; [done | ]. injection H as <- <-. exists [piece], [].
    rewrite app_nil_r. split_and!; try done. split; [done | ]. by repeat constructor.
  - destruct (isSeparator b) eqn:Hb; cbn [negb] in H.
    + destruct (onlyWSP piece) eqn:E; [done | ].
      assert (piece_ok piece) as Hok by done.
      destruct (byte_eqb_spec b AnySeparator) as [-> | Hne].
      * apply IH in H as (g & gs & (_ & Hgs) & Hr & -> & ->); [ | constructor].
        exists [piece], (g :: gs). cbn [app] in Hr. split_and!.
        -- split; [done | ]. constructor; [ | done]. split; [done | by repeat constructor].
        -- rewrite render_groups_cons by done. by rewrite Hr.
        -- cbn [concat app]. by rewrite <- app_assoc.
        -- cbn [map]. change (len [piece]) with 1. rewrite <- app_assoc. cbn [app]. done.
      * apply IH in H as (g & gs & (_ & Hgs) & Hr & -> & ->); [ | constructor].
        assert (b = AllSeparator) as ->.
        { unfold isSeparator in Hb. apply orb_true_iff in Hb as [Hb | Hb]; by apply byte_eqb_eq in Hb. }
        apply Forall_cons in Hgs as [[Hg Hgok] Hgs].
        exists (piece :: g), gs. cbn [app] in Hr. split_and!.
        -- split; [done | ]. constructor; [ | done]. split; [done | by constructor].
        -- rewrite render_push by done. by rewrite Hr.
        -- cbn [concat app]. by rewrite <- app_assoc.
        -- rewrite len_cons. do 2 f_equal. lia.
    + apply IH in H as (g & gs & Hok & Hr & -> & ->).
      * exists g, gs. split_and!; try done. rewrite <- Hr, <- app_assoc. done.
      * apply Forall_app. split; [done | by repeat constructor].
Qed.

Lemma splitLoop_piece p value cur sets done n :
  Forall (fun b => isSeparator b = false) p ->
  splitLoop (p ++ value) cur sets done n = splitLoop value (cur ++ p) sets done n.
Proof.
  intros Hp. revert cur. induction Hp as [|b p Hb _ IH]; intros cur; [by rewrite app_nil_r | ].
  cbn [app splitLoop]. rewrite Hb. cbn [negb]. rewrite IH. by rewrite <- app_assoc.
Qed.

Lemma splitLoop_ok g gs sets dn n :
  groups_ok (g :: gs) ->
  splitLoop (render_groups (g :: gs)) [] sets dn n =
  Some (sets ++ concat (g :: gs), dn ++ (n + len g) :: map len gs).
Proof.
  intros [_ Hok]. revert g sets dn n Hok. induction gs as [|g' gs IHgs]; intros g sets dn n Hok;
    apply Forall_cons in Hok as [[Hne Hg] Hgs]; revert sets n; induction g as [|p g IHg];
    intros sets n; [done | | done | ]; apply Forall_cons in Hg as [[Hp Hw] Hg];
    (destruct g as [|q g];
     [ | rewrite render_push, splitLoop_piece by done; cbn [app splitLoop];
         change (isSeparator AllSeparator) with true; change (AllSeparator =?b AnySeparator) with false;
         cbn [negb]; rewrite Hw, IHg by done; rewrite (len_cons p); cbn [concat map app];
         rewrite <- !app_assoc; cbn [app]; replace (n + (1 + len (q :: g))) with (n + 1 + len (q :: g)) by lia; done]).
  - cbn [render_groups render_group concat]. rewrite <- (app_nil_r p) at 1.
    rewrite splitLoop_piece by done. cbn [app splitLoop]. rewrite Hw. done.
  - rewrite render_groups_cons by done. cbn [render_group]. rewrite splitLoop_piece by done. cbn [app splitLoop].
    change (isSeparator AnySeparator) with true. change (AnySeparator =?b AnySeparator) with true.
    cbn [negb]. rewrite Hw, IHgs by done. cbn [concat map app]. rewrite <- !app_assoc. done.
Qed.

Lemma countSeparators_app a b : countSeparators (a ++ b) = countSeparators a + countSeparators b.
Proof. unfold countSeparators. by rewrite List.filter_app, len_app. Qed.
Lemma countSeparators_piece p : Forall (fun b => isSeparator b = false) p -> countSeparators p = 0.
Proof.
  induction 1 as [|b p Hb _ IH]; [done | ]. unfold countSeparators in *. cbn [List.filter]. by rewrite Hb.
Qed.
Lemma countSeparators_sep b s : isSeparator b = true -> countSeparators (b :: s) = 1 + countSeparators s.
Proof. intros Hb. unfold countSeparators. cbn [List.filter]. by rewrite Hb, len_cons. Qed.

Lemma countSeparators_group g :
  g <> [] -> Forall piece_ok g -> countSeparators (render_group g) = len g - 1.
Proof.
  intros Hne Hg. induction Hg as [|p g [Hp _] Hg IH]; [done | ]. destruct g as [|q g].
  - cbn [render_group]. rewrite countSeparators_piece by done. done.
  - rewrite render_group_cons, countSeparators_app, countSeparators_sep, countSeparators_piece, IH by done.
    rewrite (len_cons p). lia.
Qed.

Lemma countSeparators_groups gs :
  groups_ok gs -> countSeparators (render_groups gs) = len (concat gs) - 1.
Proof.
  intros [Hne Hgs]. induction Hgs as [|g gs [Hg Hgo] Hgs IH]; [done | ]. destruct gs as [|g' gs].
  - cbn [render_groups concat]. rewrite app_nil_r. by apply countSeparators_group.
  - rewrite render_groups_cons, countSeparators_app, countSeparators_sep, countSeparators_group, IH by done.
    cbn [concat]. rewrite (len_app g). lia.
Qed.

Lemma sum_len (gs : list (list bytes)) : sum_sizes (map len gs) = len (concat gs).
Proof. induction gs as [|g gs IH]; [done | ]. cbn [map concat]. by rewrite sum_sizes_cons, IH, len_app. Qed.

Lemma group_sizes_good gs :
  groups_ok gs -> len (concat gs) <= MaxSets -> good_sizes (map len gs).
Proof.
  intros [Hne Hgs] Hlen. split_and!; [by destruct gs | | by rewrite sum_len].
  rewrite Forall_map. eapply Forall_impl; [exact Hgs | ]. intros g [Hg _].
  destruct g as [|p g]; [done | ]. simpl. rewrite len_cons. pose proof (len_nonneg g). lia.
Qed.

Lemma Split_iff value sets l :
  Split value = Some (sets, l) <->
  exists gs, groups_ok gs /\ len (concat gs) <= MaxSets /\ value = render_groups gs /\
    sets = concat gs /\ l = layout_of (map len gs).
Proof.
  unfold Split. split.
  - destruct (_ || _); [done | ]. destruct (splitLoop value [] [] [] 0) as [[ss ds]|] eqn:E; [ | done].
    destruct (NewLayout ds) as [l'|] eqn:El; [ | done]. intros [= <- <-].
    apply splitLoop_inv in E as (g & gs & Hok & Hr & -> & ->); [ | constructor].
    apply NewLayout_Some in El as [(_ & _ & Hs) ->]. cbn [app] in *. rewrite Z.add_0_l in *.
    change (len g :: map len gs) with (map len (g :: gs)) in *. rewrite sum_len in Hs. by exists (g :: gs).
  - intros (gs & Hok & Hlen & -> & -> & ->). pose proof (countSeparators_groups gs Hok) as Hc.
    assert (CountSets (render_groups gs) <= MaxSets) as Hcs.
    { unfold CountSets. destruct (_ =? 0); [done | lia]. }
    destruct gs as [|g gs]; [by destruct Hok | ].
    rewrite (proj2 (Z.eqb_neq _ _)).
    2: { intros E. destruct (render_groups (g :: gs)) as [|b r] eqn:Er.
         - pose proof (splitLoop_ok g gs [] [] 0 Hok) as Hs. rewrite Er in Hs. done.
         - rewrite len_cons in E. pose proof (len_nonneg r). lia. }
    rewrite (proj2 (Z.ltb_ge _ _)) by done. cbn [orb]. rewrite splitLoop_ok by done. cbn [app].
    rewrite Z.add_0_l. change (len g :: map len gs) with (map len (g :: gs)).
    rewrite (proj2 (NewLayout_Some _ (layout_of (map len (g :: gs))))); [done | ].
    split; [by apply group_sizes_good | done].
Qed.

(** C10: [Split] accepts exactly the texts of non-empty groups of sets, the
    groups separated by "|" and the sets by ",", with no separator and some
    dark character in every set and at most [MaxSets] sets, and returns the
    sets in field order with the layout of the group sizes. *)
Theorem Split_refines_grammar value sets l :
  Split value = Some (sets, l) <->
  exists gs, groups_ok gs /\ len (concat gs) <= MaxSets /\ value = render_groups gs /\
    sets = concat gs /\ l = layout_of (map len gs).
Proof. apply Split_iff. Qed.

Definition sample_value : bytes := bs "a:b,c:d|e".
Lemma Split_sample :
  Split sample_value = Some ([bs "a:b"; bs "c:d"; bs "e"], layout_of [2; 1]).
Proof. vm_compute. reflexivity. Qed.

(** ** Group evaluation *)

(** [all_result] restates the sig-all rule. *)
Lemma signatureAllLoop_spec rs a t f :
  signatureAllLoop rs a t f =
  (a && forallb (fun r => bool_decide (r = ResultPass)) rs,
   t && forallb (fun r => bool_decide (r = ResultPass \/ r = ResultTempError)) rs,
   f || existsb (fun r => bool_decide (r = ResultFail)) rs).
Proof.
  revert a t f. induction rs as [|r rs IH]; intros a t f; cbn [signatureAllLoop forallb existsb].
  - by rewrite !andb_true_r, orb_false_r.
  - destruct r; cbn [decide]; unfold decide, Result_eq_dec, Result_rec, Result_rect, decide_rel;
      rewrite IH; vm_compute bool_decide; rewrite ?andb_true_r, ?andb_false_r, ?orb_true_r, ?orb_false_r; done.
Qed.

Lemma forallb_Forall' (P : Result -> Prop) `{!forall r, Decision (P r)} rs :
  forallb (fun r => bool_decide (P r)) rs = true <-> Forall P rs.
Proof.
  induction rs as [|r rs IH]; cbn; [by split; [constructor | ] | ].
  rewrite andb_true_iff, bool_decide_eq_true, IH, Forall_cons. done.
Qed.
Lemma existsb_elem (x : Result) rs : existsb (fun r => bool_decide (r = x)) rs = true <-> x ∈ rs.
Proof.
  induction rs as [|r rs IH]; cbn; [by split; [ | intros ?%elem_of_nil] | ].
  rewrite orb_true_iff, bool_decide_eq_true, IH, elem_of_cons. naive_solver.
Qed.

Definition sig_all_spec (rs : list Result) (res : Result) : Prop :=
  match res with
  | ResultPass => Forall (fun r => r = ResultPass) rs
  | ResultTempError =>
      ~ Forall (fun r => r = ResultPass) rs /\ Forall (fun r => r = ResultPass \/ r = ResultTempError) rs
  | ResultFail => ResultFail ∈ rs
  | ResultPermError =>
      ResultFail ∉ rs /\ ~ Forall (fun r => r = ResultPass \/ r = ResultTempError) rs
  end.
Definition hash_all_spec (rs : list Result) (res : Result) : Prop :=
  match res with
  | ResultPass => Forall (fun r => r = ResultPass) rs
  | ResultFail => ResultFail ∈ rs
  | ResultPermError => ResultFail ∉ rs /\ ~ Forall (fun r => r = ResultPass) rs
  | ResultTempError => False
  end.

Lemma not_all_pass_temp rs :
  ResultFail ∈ rs -> ~ Forall (fun r => r = ResultPass \/ r = ResultTempError) rs.
Proof. intros Hin H. rewrite Forall_forall in H. by destruct (H _ Hin). Qed.

Lemma signatureAll_spec rs : sig_all_spec rs (signatureAll rs).
Proof.
  unfold signatureAll. rewrite signatureAllLoop_spec. cbn [andb orb].
  destruct (forallb _ rs) eqn:E1 at 1; [by apply (forallb_Forall' (fun r => r = ResultPass)) in E1 | ].
  assert (~ Forall (fun r => r = ResultPass) rs) as N1.
  { intros HF. apply (forallb_Forall' (fun r => r = ResultPass)) in HF. congruence. }
  destruct (forallb (fun r => bool_decide (r = ResultPass \/ _)) rs) eqn:E2.
  - split; [done | ]. by apply (forallb_Forall' (fun r => r = ResultPass \/ r = ResultTempError)).
  - assert (~ Forall (fun r => r = ResultPass \/ r = ResultTempError) rs) as N2
      by (rewrite <- (forallb_Forall' (fun r => r = ResultPass \/ r = ResultTempError)), E2; done).
    destruct (existsb _ rs) eqn:E3; [by apply existsb_elem | ]. split; [ | done].
    rewrite <- existsb_elem, E3. done.
Qed.

Lemma hashAll_fold rs a f :
  foldl (fun (acc : bool * bool) r =>
           (acc.1 && bool_decide (r = ResultPass), acc.2 || bool_decide (r = ResultFail))) (a, f) rs =
  (a && forallb (fun r => bool_decide (r = ResultPass)) rs,
   f || existsb (fun r => bool_decide (r = ResultFail)) rs).
Proof.
  revert a f. induction rs as [|r rs IH]; intros a f; cbn [foldl forallb existsb].
  - by rewrite andb_true_r, orb_false_r.
  - rewrite IH. cbn [fst snd]. by rewrite andb_assoc, orb_assoc.
Qed.

Lemma hashAll_spec rs : hash_all_spec rs (hashAll rs).
Proof.
  unfold hashAll. rewrite hashAll_fold. cbn [andb orb].
  destruct (forallb _ rs) eqn:E1; [by apply (forallb_Forall' (fun r => r = ResultPass)) in E1 | ].
  assert (~ Forall (fun r => r = ResultPass) rs) as N1.
  { intros HF. apply (forallb_Forall' (fun r => r = ResultPass)) in HF. congruence. }
  destruct (existsb _ rs) eqn:E3; [by apply existsb_elem | ]. split; [ | done].
  rewrite <- existsb_elem, E3. done.
Qed.

Lemma not_Forall_elem (P : Result -> Prop) `{!forall r, Decision (P r)} rs :
  ~ Forall P rs -> exists r, r ∈ rs /\ ~ P r.
Proof. intros HF%not_Forall_Exists; [ | apply _]. by apply Exists_exists in HF. Qed.

(** Every group result is carried by a set of the group. *)
Lemma signatureAll_carried rs : rs <> [] -> signatureAll rs ∈ rs.
Proof.
  intros Hne. pose proof (signatureAll_spec rs) as H. destruct (signatureAll rs); simpl in H.
  - destruct rs as [|r rs]; [done | ]. apply Forall_cons in H as [-> _]. apply list_elem_of_here.
  - done.
  - destruct H as [H1 H2]. apply not_Forall_elem in H1 as (r & Hr & Hn); [ | apply _].
    rewrite Forall_forall in H2. destruct (H2 r Hr) as [-> | ->]; done.
  - destruct H as [H1 H2]. apply not_Forall_elem in H2 as (r & Hr & Hn); [ | apply _].
    destruct r; tauto.
Qed.
Lemma hashAll_carried rs : rs <> [] -> ResultTempError ∉ rs -> hashAll rs ∈ rs.
Proof.
  intros Hne Ht. pose proof (hashAll_spec rs) as H. destruct (hashAll rs); simpl in H.
  - destruct rs as [|r rs]; [done | ]. apply Forall_cons in H as [-> _]. apply list_elem_of_here.
  - done.
  - done.
  - destruct H as [H1 H2]. apply not_Forall_elem in H2 as (r & Hr & Hn); [ | apply _].
    destruct r; tauto.
Qed.

(** The groups of intermediates of a layout. *)
Fixpoint runs_of (szs : list Z) (intermediates : list Result) : list (list Result) :=
  match szs with
  | [] => []
  | size :: rest =>
      take (Z.to_nat size) intermediates :: runs_of rest (drop (Z.to_nat size) intermediates)
  end.
Definition runs (l : Layout) (intermediates : list Result) : list (list Result) :=
  runs_of (GroupSizes l) intermediates.

Fixpoint with_starts (start : Z) (gs : list (list Result)) : list (Z * list Result) :=
  match gs with
  | [] => []
  | g :: rest => (start, g) :: with_starts (start + len g) rest
  end.

Lemma group_runs_ok szs start intermediates :
  Forall (fun size => 0 < size) szs -> sum_sizes szs = len intermediates ->
  group_runs szs start intermediates = Ret (with_starts start (runs_of szs intermediates)) /\
  concat (runs_of szs intermediates) = intermediates /\
  Forall (fun g => g <> []) (runs_of szs intermediates).
Proof.
  intros Hf. revert start intermediates. induction Hf as [|x szs Hx Hf IH]; intros start rs Hs.
  - change (sum_sizes []) with 0 in Hs. destruct rs as [|r rs]; [done | ]. rewrite len_cons in Hs.
    pose proof (len_nonneg rs). lia.
  - rewrite sum_sizes_cons in Hs. pose proof (sum_sizes_bound szs Hf). pose proof (len_nonneg szs).
    assert (len (take (Z.to_nat x) rs) = x) as Hlt by (unfold len in *; rewrite length_take; lia).
    assert (sum_sizes szs = len (drop (Z.to_nat x) rs)) as Hld by (unfold len in *; rewrite length_drop; lia).
    destruct (IH (start + x) _ Hld) as (IH1 & IH2 & IH3).
    cbn [group_runs runs_of with_starts concat]. rewrite (proj2 (Z.ltb_ge _ _)), IH1, Hlt by lia.
    split_and!; [done | by rewrite IH2, take_drop | ]. constructor; [ | done].
    intros E. rewrite E in Hlt. change (len []) with 0 in Hlt. lia.
Qed.

Lemma firstPresent_map rs prec :
  firstPresent rs prec ∈ prec /\ firstPresent rs prec ∈ rs \/
  firstPresent rs prec = ResultPermError /\ Forall (fun c => c ∉ rs) prec.
Proof.
  induction prec as [|c prec IH]; cbn [firstPresent]; [by right | ].
  case_bool_decide as Hc; [left; split; [apply list_elem_of_here | done] | ].
  destruct IH as [[H1 H2] | [H1 H2]]; [left; split; [by apply list_elem_of_further | done] | ].
  right. split; [done | by constructor].
Qed.

Definition decides (allRule : list Result -> Result) (gs : list (list Result)) (res : Result) (i : Z)
    : Prop :=
  exists before g after n, gs = before ++ g :: after /\
    Forall (fun h => allRule h <> res) before /\ allRule g = res /\
    g !! n = Some res /\ Forall (fun r => r <> res) (take n g) /\
    i = len (concat before) + Z.of_nat n.

Lemma findResult_spec g start res :
  res ∈ g -> exists n, findResult g start res = Some (start + Z.of_nat n) /\ g !! n = Some res /\
    Forall (fun r => r <> res) (take n g).
Proof.
  revert start. induction g as [|r g IH]; intros start; [by intros ?%elem_of_nil | ].
  cbn [findResult]. destruct (decide (r = res)) as [-> | Hne].
  - intros _. exists 0%nat. split_and!; [f_equal; lia | done | constructor].
  - intros [? | Hin]%elem_of_cons; [congruence | ]. destruct (IH (start + 1) Hin) as (n & Hn & Hl & Ht).
    exists (S n). rewrite Hn. split_and!; [f_equal; lia | done | by constructor].
Qed.

Lemma selectDecisive_spec allRule res gs start :
  Forall (fun g => allRule g = res -> res ∈ g) gs -> (exists g, g ∈ gs /\ allRule g = res) ->
  exists i, selectDecisive (with_starts start gs) allRule res = Some (MkOutcome res (start + i)) /\
    decides allRule gs res i.
Proof.
  revert start. induction gs as [|g gs IH]; intros start Hf (h & Hin & Hh); [by apply elem_of_nil in Hin | ].
  apply Forall_cons in Hf as [Hg Hf]. cbn [with_starts selectDecisive].
  destruct (decide (allRule g = res)) as [E | Hne].
  - destruct (findResult_spec g start res (Hg E)) as (n & -> & Hl & Ht).
    exists (Z.of_nat n). split; [done | ]. exists [], g, gs, n. by split_and!.
  - apply elem_of_cons in Hin as [-> | Hin]; [done | ].
    destruct (IH (start + len g) Hf) as (i & Hi & before & g' & after & n & -> & Hb & Hg' & Hl & Ht & ->);
      [by exists h | ].
    exists (len g + (len (concat before) + Z.of_nat n)). rewrite Hi.
    split; [do 2 f_equal; lia | ]. exists (g :: before), g', after, n.
    split_and!; [done | by constructor | done | done | done | ]. cbn [concat]. rewrite len_app. lia.
Qed.

Lemma map_with_starts (allRule : list Result -> Result) start gs :
  map (fun run => allRule run.2) (with_starts start gs) = map allRule gs.
Proof. revert start. induction gs as [|g gs IH]; intros start; [done | ]. cbn. by rewrite IH. Qed.

Section combination.
Context (allRule anyRule : list Result -> Result) (allowTemp : bool).
Context (any_carried : forall rs, rs <> [] -> (allowTemp = false -> ResultTempError ∉ rs) -> anyRule rs ∈ rs).

Lemma combine_ok l intermediates :
  Valid l = true -> Sets l = len intermediates ->
  Forall (fun size => 0 < size) (GroupSizes l) -> GroupSizes l <> [] ->
  (allowTemp = false -> ResultTempError ∉ intermediates) ->
  (forall g, g ∈ runs l intermediates -> g <> [] -> allRule g ∈ g) ->
  exists oc, combine l intermediates allRule anyRule allowTemp = Ret (Some oc) /\
    oc_result oc = anyRule (map allRule (runs l intermediates)) /\
    decides allRule (runs l intermediates) (oc_result oc) (decisive oc).
Proof using All.
  intros Hv Hs Hf Hne Ht Hall. unfold combine. rewrite Hv, Hs, Z.eqb_refl. cbn [negb orb].
  destruct (existsb _ intermediates) eqn:E.
  { apply existsb_exists in E as (r & Hr & [Ha Hb]%andb_true_iff).
    apply negb_true_iff in Ha. apply bool_decide_eq_true in Hb as ->.
    exfalso. apply (Ht Ha). by apply list_elem_of_In. }
  destruct (group_runs_ok (GroupSizes l) 0 intermediates Hf Hs) as (-> & Hcat & Hgne). cbn [obind].
  fold (runs l intermediates) in *.
  rewrite map_with_starts.
  set (res := anyRule _).
  destruct (selectDecisive_spec allRule res (runs l intermediates) 0) as (i & -> & Hd).
  - apply list.Forall_forall. intros g Hg <-. apply Hall; [done | ].
    rewrite Forall_forall in Hgne. by apply Hgne.
  - assert (res ∈ map allRule (runs l intermediates)) as Hin.
    { apply any_carried; [unfold runs; by destruct (GroupSizes l) | ].
      intros Ha Hin. apply (Ht Ha). apply list_elem_of_In, in_map_iff in Hin as (g & Hg & Hin).
      rewrite <- list_elem_of_In in Hin. rewrite <- Hcat, <- Hg. apply list_elem_of_In, in_concat.
      exists g. rewrite <- !list_elem_of_In. split; [done | ]. apply Hall; [done | ].
      rewrite Forall_forall in Hgne. by apply Hgne. }
    apply list_elem_of_In, in_map_iff in Hin as (g & Hg & Hin). exists g. by rewrite list_elem_of_In.
  - exists (MkOutcome res (0 + i)). split_and!; done.
Qed.
End combination.

Lemma signatureAny_carried rs : rs <> [] -> signatureAny rs ∈ rs.
Proof.
  intros Hne. unfold signatureAny.
  destruct (firstPresent_map rs [ResultPass; ResultTempError; ResultFail]) as [[_ ?] | [-> Hn]]; [done | ].
  apply Forall_cons in Hn as [H1 Hn]. apply Forall_cons in Hn as [H2 Hn]. apply Forall_cons in Hn as [H3 _].
  destruct rs as [|[] rs]; try done; try (by exfalso; apply H1, list_elem_of_here);
    try (by exfalso; apply H2, list_elem_of_here); try (by exfalso; apply H3, list_elem_of_here).
  apply list_elem_of_here.
Qed.
Lemma hashAny_carried rs : rs <> [] -> ResultTempError ∉ rs -> hashAny rs ∈ rs.
Proof.
  intros Hne Ht. unfold hashAny.
  destruct (firstPresent_map rs [ResultPass; ResultFail]) as [[_ ?] | [-> Hn]]; [done | ].
  apply Forall_cons in Hn as [H1 Hn]. apply Forall_cons in Hn as [H3 _].
  destruct rs as [|[] rs]; try done; try (by exfalso; apply H1, list_elem_of_here);
    try (by exfalso; apply Ht, list_elem_of_here); try (by exfalso; apply H3, list_elem_of_here).
  apply list_elem_of_here.
Qed.

(** The sig-any and hash-any rules over the group results. *)
Definition any_spec (temps : bool) (group_results : list Result) (res : Result) : Prop :=
  match res with
  | ResultPass => ResultPass ∈ group_results
  | ResultTempError => temps = true /\ ResultPass ∉ group_results /\ ResultTempError ∈ group_results
  | ResultFail =>
      ResultPass ∉ group_results /\ (temps = true -> ResultTempError ∉ group_results) /\
      ResultFail ∈ group_results
  | ResultPermError =>
      ResultPass ∉ group_results /\ (temps = true -> ResultTempError ∉ group_results) /\
      ResultFail ∉ group_results
  end.

Lemma signatureAny_spec rs : any_spec true rs (signatureAny rs).
Proof. unfold signatureAny. cbn [firstPresent]. repeat case_bool_decide; cbn; by split_and?. Qed.
Lemma hashAny_spec rs : any_spec false rs (hashAny rs).
Proof. unfold hashAny. cbn [firstPresent]. repeat case_bool_decide; cbn; by split_and?. Qed.

(** For a layout built from group sizes and as many intermediate results,
    the signature combination is always coherent: its result follows the
    sig-all rule in every group and the sig-any rule across them, and its
    decisive set is the first set carrying the result in the first group
    whose own result is that result. *)
Theorem Signatures_spec szs intermediates :
  good_sizes szs -> sum_sizes szs = len intermediates ->
  exists oc, Signatures (layout_of szs) intermediates = Ret (Some oc) /\
    let gs := runs_of szs intermediates in
    Forall (fun g => sig_all_spec g (signatureAll g)) gs /\
    any_spec true (map signatureAll gs) (oc_result oc) /\
    decides signatureAll gs (oc_result oc) (decisive oc).
Proof.
  intros Hg Hs. pose proof Hg as (Hne & Hf & _).
  destruct (combine_ok signatureAll signatureAny true) with (l := layout_of szs) (intermediates := intermediates)
    as (oc & H1 & H2 & H3).
  - intros rs Hrs _. by apply signatureAny_carried.
  - by apply Valid_of.
  - unfold Sets. by rewrite GroupSizes_of.
  - by rewrite GroupSizes_of.
  - by rewrite GroupSizes_of.
  - done.
  - intros g _ Hgne. by apply signatureAll_carried.
  - unfold runs in *. rewrite GroupSizes_of in *. exists oc. cbn zeta. split_and!; [done | | | done].
    + apply list.Forall_forall. intros g _. apply signatureAll_spec.
    + rewrite H2. apply signatureAny_spec.
Qed.

Lemma Signatures_spec_witness :
  exists oc, Signatures (layout_of [2; 1]) [ResultPass; ResultFail; ResultTempError] = Ret (Some oc) /\
    oc_result oc = ResultTempError /\ decisive oc = 2.
Proof.
  destruct (Signatures_spec [2; 1] [ResultPass; ResultFail; ResultTempError]) as (oc & H & _).
  - split_and!; [discriminate | repeat constructor | vm_compute; discriminate].
  - reflexivity.
  - exists oc. split; [exact H | ]. vm_compute in H. injection H as <-. split; reflexivity.
Defined.

(** The same for hash sets, whose intermediates are never TEMPERROR: the
    combination follows the hash-all and hash-any rules, and a TEMPERROR
    intermediate makes it invalid. *)
Theorem Hashes_spec szs intermediates :
  good_sizes szs -> sum_sizes szs = len intermediates ->
  (ResultTempError ∈ intermediates -> Hashes (layout_of szs) intermediates = Ret None) /\
  (ResultTempError ∉ intermediates ->
   exists oc, Hashes (layout_of szs) intermediates = Ret (Some oc) /\
     let gs := runs_of szs intermediates in
     Forall (fun g => hash_all_spec g (hashAll g)) gs /\
     any_spec false (map hashAll gs) (oc_result oc) /\
     decides hashAll gs (oc_result oc) (decisive oc)).
Proof.
  intros Hg Hs. pose proof Hg as (Hne & Hf & _). split.
  - intros Hin. unfold Hashes, combine. destruct (_ || _); [done | ].
    destruct (existsb _ intermediates) eqn:E; [done | ]. exfalso.
    assert (existsb (fun r => negb false && bool_decide (r = ResultTempError)) intermediates = true) as E'; [ | congruence].
    by apply existsb_elem.
  - intros Ht. destruct (combine_ok hashAll hashAny false) with (l := layout_of szs) (intermediates := intermediates)
      as (oc & H1 & H2 & H3).
    + intros rs Hrs Hnt. apply hashAny_carried; auto.
    + by apply Valid_of.
    + unfold Sets. by rewrite GroupSizes_of.
    + by rewrite GroupSizes_of.
    + by rewrite GroupSizes_of.
    + done.
    + intros g Hin Hgne. apply hashAll_carried; [done | ]. intros Hing. apply Ht.
      unfold runs in Hin. rewrite GroupSizes_of in Hin.
      destruct (group_runs_ok szs 0 intermediates Hf Hs) as (_ & <- & _).
      apply list_elem_of_In, in_concat. exists g. by rewrite <- !list_elem_of_In.
    + unfold runs in *. rewrite GroupSizes_of in *. exists oc. cbn zeta. split_and!; [done | | | done].
      * apply list.Forall_forall. intros g _. apply hashAll_spec.
      * rewrite H2. apply hashAny_spec.
Qed.

Lemma Hashes_spec_witness :
  Hashes (layout_of [2]) [ResultPass; ResultTempError] = Ret None /\
  exists oc, Hashes (layout_of [1; 1]) [ResultPermError; ResultFail] = Ret (Some oc).
Proof.
  split.
  - apply (proj1 (Hashes_spec [2] [ResultPass; ResultTempError]
             ltac:(split_and!; [discriminate | repeat constructor | vm_compute; discriminate]) eq_refl)).
    apply list_elem_of_further, list_elem_of_here.
  - destruct (proj2 (Hashes_spec [1; 1] [ResultPermError; ResultFail]
             ltac:(split_and!; [discriminate | repeat constructor | vm_compute; discriminate]) eq_refl))
      as (oc & H & _); [ | exists oc; exact H].
    intros Hin. apply list_elem_of_In in Hin. destruct Hin as [H | [H | []]]; discriminate H.
Defined.
