(* ===== verification/RecipeTypes.v ===== *)
(** * Package internal/recipe: errors, limits, steps, plans, recipes and states

    errors.go, limits.go, limit_names.go, types.go and state.go.  The closed
    string vocabularies are inductive types whose [...Unset] constructor is the
    zero value; every other definition keeps the name of the Go function it
    models. *)

From Stdlib Require Import Sorting.Sorted.
From S2P Require Import Prelude GoBytes GoUtf8 RawMsg RawBody RawParser RawInsertion.
#[local] Open Scope Z_scope.

(** ** errors.go *)
Inductive ErrorCode :=
  | ErrorCodeInvalidOptions | ErrorCodeInvalidState | ErrorCodeLimitExceeded
  | ErrorCodeInvalidJSON | ErrorCodeDuplicateMember | ErrorCodeInvalidTopLevel
  | ErrorCodeMissingRecipeDimension | ErrorCodeInvalidHeaderName | ErrorCodeNonLowercaseHeaderName
  | ErrorCodeNonLowercaseKey | ErrorCodeUnsignedHeaderRecipe | ErrorCodeHeaderNameCollision
  | ErrorCodeInvalidHeaderRecipe | ErrorCodeInvalidBodyRecipe | ErrorCodeInvalidStep
  | ErrorCodeInvalidCopyRange | ErrorCodeCopyRangeOrder | ErrorCodeCopyRangeOutOfBounds
  | ErrorCodeInvalidLiteral | ErrorCodeSourceUnavailable | ErrorCodeInvalidGenerator
  | ErrorCodeInvalidRequest | ErrorCodeInvalidPolicy | ErrorCodeHeaderRelevance
  | ErrorCodeHeaderUnrepresentable | ErrorCodeBodyUnrepresentable | ErrorCodeSerializationFailure
  | ErrorCodeGeneratedOutputInvariant | ErrorCodeReconstructionMismatch.

Inductive ErrorClass :=
  | ErrorClassOptions | ErrorClassState | ErrorClassLimit | ErrorClassSyntax | ErrorClassSchema
  | ErrorClassRange | ErrorClassSource | ErrorClassRequest | ErrorClassPolicy
  | ErrorClassRepresentation | ErrorClassSerialization | ErrorClassInvariant.

Inductive Dimension := DimensionUnset | DimensionRecipe | DimensionHeader | DimensionBody.

(** types.go: StepKind. *)
Inductive StepKind := StepKindUnset | StepKindCopy | StepKindData | StepKindBinaryData.
Definition StepKind_Known (k : StepKind) : bool :=
  match k with StepKindUnset => false | _ => true end.

Record ErrorLocation := MkLoc {
  Offset : Z; StepIndex : Z; MemberIndex : Z; HeaderOrdinal : Z; BodyLineNo : Z }.
Definition noLoc : ErrorLocation := MkLoc 0 0 0 0 0.

Record ErrorDetails := MkDetails {
  det_class : ErrorClass; det_limitName : string; Expected : Z; Actual : Z;
  det_dimension : Dimension; det_stepKind : StepKind }.

Record Error := MkError { code : ErrorCode; location : ErrorLocation; details : ErrorDetails }.

Definition classForCode (c : ErrorCode) : ErrorClass :=
  match c with
  | ErrorCodeInvalidOptions => ErrorClassOptions
  | ErrorCodeInvalidState | ErrorCodeInvalidGenerator => ErrorClassState
  | ErrorCodeInvalidRequest => ErrorClassRequest
  | ErrorCodeInvalidPolicy => ErrorClassPolicy
  | ErrorCodeLimitExceeded => ErrorClassLimit
  | ErrorCodeInvalidJSON | ErrorCodeDuplicateMember => ErrorClassSyntax
  | ErrorCodeInvalidTopLevel | ErrorCodeMissingRecipeDimension | ErrorCodeInvalidHeaderName
  | ErrorCodeNonLowercaseHeaderName | ErrorCodeNonLowercaseKey | ErrorCodeUnsignedHeaderRecipe
  | ErrorCodeHeaderNameCollision | ErrorCodeInvalidHeaderRecipe | ErrorCodeInvalidBodyRecipe
  | ErrorCodeInvalidStep | ErrorCodeInvalidLiteral => ErrorClassSchema
  | ErrorCodeInvalidCopyRange | ErrorCodeCopyRangeOrder | ErrorCodeCopyRangeOutOfBounds =>
      ErrorClassRange
  | ErrorCodeSourceUnavailable => ErrorClassSource
  | ErrorCodeHeaderUnrepresentable | ErrorCodeBodyUnrepresentable => ErrorClassRepresentation
  | ErrorCodeSerializationFailure => ErrorClassSerialization
  | ErrorCodeHeaderRelevance | ErrorCodeGeneratedOutputInvariant
  | ErrorCodeReconstructionMismatch => ErrorClassInvariant
  end.

Definition clamp (v : Z) : Z := if v <? 0 then 0 else v.
Definition sanitizeErrorLocation (l : ErrorLocation) : ErrorLocation :=
  MkLoc (clamp (Offset l)) (clamp (StepIndex l)) (clamp (MemberIndex l))
    (clamp (HeaderOrdinal l)) (clamp (BodyLineNo l)).

(** limit_names.go, in the order of the Limits struct, then the names only the
    generator uses. *)
Definition limitNames : list string :=
  ["max_decoded_recipe_bytes"; "max_json_depth"; "max_json_members"; "max_json_tokens";
   "max_header_names"; "max_header_name_bytes"; "max_total_header_name_bytes";
   "max_steps_per_header"; "max_body_steps"; "max_total_steps"; "max_copy_ranges";
   "max_copied_items_per_range"; "max_total_copied_items"; "max_data_strings";
   "max_data_string_bytes"; "max_total_literal_bytes"; "max_header_fields";
   "max_header_field_bytes"; "max_header_line_bytes"; "max_header_bytes";
   "max_body_lines"; "max_body_line_bytes"; "max_state_bytes"; "max_operation_work_units"]%string.
Definition generationLimitNames : list string :=
  ["max_input_bytes"; "max_input_items"; "max_candidate_entries"; "max_candidate_key_bytes";
   "max_comparisons"; "max_generation_work_units"; "generation_work_coherence"]%string.
Definition coherenceNames : list string :=
  ["literal_limit_coherence"; "step_limit_coherence"; "copy_limit_coherence"]%string.

Definition knownLimitName (value : string) : bool :=
  bool_decide (value ∈ limitNames ++ generationLimitNames ++ coherenceNames).

(** [newError]: the class is recomputed and the cause dropped. *)
Definition newError (c : ErrorCode) (l : ErrorLocation) (d : ErrorDetails) : Error :=
  MkError c (sanitizeErrorLocation l)
    (MkDetails (classForCode c)
       (if knownLimitName (det_limitName d) then det_limitName d else ""%string)
       (clamp (Expected d)) (clamp (Actual d)) (det_dimension d) (det_stepKind d)).

(** Details of a failure that names at most a dimension and a step kind. *)
Definition noDetails : ErrorDetails := MkDetails ErrorClassState "" 0 0 DimensionUnset StepKindUnset.
Definition detailsOf (d : Dimension) (k : StepKind) : ErrorDetails :=
  MkDetails ErrorClassState "" 0 0 d k.

Definition invalidStateError : Error := newError ErrorCodeInvalidState noLoc noDetails.
Definition invalidOptionsError (limitName : string) : Error :=
  newError ErrorCodeInvalidOptions noLoc
    (MkDetails ErrorClassOptions limitName 0 0 DimensionUnset StepKindUnset).

Definition IsJSONSyntaxError (e : Error) : bool :=
  match det_class (details e), code e with
  | ErrorClassSyntax, _ | _, ErrorCodeInvalidTopLevel => true
  | _, _ => false
  end.

(** ** limits.go *)
Definition hardMaxDecodedRecipeBytes : Z := 49152.
Definition hardMaxJSONDepth : Z := 16.
Definition hardMaxJSONMembers : Z := 2048.
Definition hardMaxJSONTokens : Z := 8192.
Definition hardMaxHeaderNames : Z := 256.
Definition hardMaxTotalHeaderNameBytes : Z := 16384.
Definition hardMaxStepsPerHeader : Z := 256.
Definition hardMaxBodySteps : Z := 2048.
Definition hardMaxTotalSteps : Z := 4096.
Definition hardMaxCopyRanges : Z := 2048.
Definition hardMaxCopiedItemsPerRange : Z := 2000.
Definition hardMaxTotalCopiedItems : Z := 8192.
Definition hardMaxDataStrings : Z := 4096.
Definition hardMaxDataStringBytes : Z := 16384.
Definition hardMaxTotalLiteralBytes : Z := 32768.
Definition hardMaxOperationWorkUnits : Z := 2 * HardMaxMessageBytes + 2 * HardMaxBodyLines.

Record Limits := MkLimits {
  MaxDecodedRecipeBytes : Z; MaxJSONDepth : Z; MaxJSONMembers : Z; MaxJSONTokens : Z;
  MaxHeaderNames : Z; MaxHeaderNameBytes : Z; MaxTotalHeaderNameBytes : Z;
  MaxStepsPerHeader : Z; MaxBodySteps : Z; MaxTotalSteps : Z; MaxCopyRanges : Z;
  MaxCopiedItemsPerRange : Z; MaxTotalCopiedItems : Z; MaxDataStrings : Z;
  MaxDataStringBytes : Z; MaxTotalLiteralBytes : Z; MaxHeaderFields : Z;
  MaxHeaderFieldBytes : Z; MaxHeaderLineBytes : Z; MaxHeaderBytes : Z;
  MaxBodyLines : Z; MaxBodyLineBytes : Z; MaxStateBytes : Z; MaxOperationWorkUnits : Z }.

Definition DefaultLimits : Limits :=
  let rawLimits := DefaultParserOptions in
  MkLimits hardMaxDecodedRecipeBytes hardMaxJSONDepth hardMaxJSONMembers hardMaxJSONTokens
    hardMaxHeaderNames (RawMsg.MaxHeaderLineBytes rawLimits) hardMaxTotalHeaderNameBytes
    hardMaxStepsPerHeader hardMaxBodySteps hardMaxTotalSteps hardMaxCopyRanges
    hardMaxCopiedItemsPerRange hardMaxTotalCopiedItems hardMaxDataStrings
    hardMaxDataStringBytes hardMaxTotalLiteralBytes (RawMsg.MaxHeaderFields rawLimits)
    (RawMsg.MaxHeaderFieldBytes rawLimits) (RawMsg.MaxHeaderLineBytes rawLimits)
    (RawMsg.MaxHeaderBytes rawLimits) (RawMsg.MaxBodyLines rawLimits)
    (RawMsg.MaxBodyLineBytes rawLimits) (MaxMessageBytes rawLimits) hardMaxOperationWorkUnits.

(** The slice of pointers of [normalized], and its writes. *)
Definition limitValues (l : Limits) : list Z :=
  [MaxDecodedRecipeBytes l; MaxJSONDepth l; MaxJSONMembers l; MaxJSONTokens l;
   MaxHeaderNames l; MaxHeaderNameBytes l; MaxTotalHeaderNameBytes l;
   MaxStepsPerHeader l; MaxBodySteps l; MaxTotalSteps l; MaxCopyRanges l;
   MaxCopiedItemsPerRange l; MaxTotalCopiedItems l; MaxDataStrings l;
   MaxDataStringBytes l; MaxTotalLiteralBytes l; MaxHeaderFields l;
   MaxHeaderFieldBytes l; MaxHeaderLineBytes l; MaxHeaderBytes l;
   MaxBodyLines l; MaxBodyLineBytes l; MaxStateBytes l; MaxOperationWorkUnits l].
Definition limitsOf (values : list Z) : Limits :=
  let v i := nth i values 0 in
  MkLimits (v 0%nat) (v 1%nat) (v 2%nat) (v 3%nat) (v 4%nat) (v 5%nat) (v 6%nat) (v 7%nat)
    (v 8%nat) (v 9%nat) (v 10%nat) (v 11%nat) (v 12%nat) (v 13%nat) (v 14%nat) (v 15%nat)
    (v 16%nat) (v 17%nat) (v 18%nat) (v 19%nat) (v 20%nat) (v 21%nat) (v 22%nat) (v 23%nat).

Fixpoint normalizeLoop (values defaults : list Z) (names : list string) : outcome Error (list Z) :=
  match values, defaults, names with
  | value :: values, default :: defaults, name :: names =>
      check require (negb ((value <? 0) || (default <? value))) (invalidOptionsError name) ;;
      let* rest := normalizeLoop values defaults names in
      Ret ((if value =? 0 then default else value) :: rest)
  | [], _, _ => Ret []
  | _, _, _ => Crash
  end.

Definition Limits_normalized (l : Limits) : outcome Error Limits :=
  let* values := normalizeLoop (limitValues l) (limitValues DefaultLimits) limitNames in
  let l := limitsOf values in
  check require (negb ((MaxTotalLiteralBytes l <? MaxDataStringBytes l)
                       || (MaxDecodedRecipeBytes l <? MaxTotalLiteralBytes l)))
    (invalidOptionsError "literal_limit_coherence") ;;
  check require (negb ((MaxTotalSteps l <? MaxStepsPerHeader l) || (MaxTotalSteps l <? MaxBodySteps l)))
    (invalidOptionsError "step_limit_coherence") ;;
  check require (negb (MaxTotalCopiedItems l <? MaxCopiedItemsPerRange l))
    (invalidOptionsError "copy_limit_coherence") ;;
  Ret l.

Definition Limits_Validate (l : Limits) : outcome Error unit :=
  let* _ := Limits_normalized l in Ret tt.

(** ** usage.go: [checkedAdd] on nonnegative 64-bit integers *)
Definition checkedAdd (left right : Z) : Z * bool :=
  if (left <? 0) || (right <? 0) || (MaxInt - right <? left) then (MaxInt, false)
  else (left + right, true).

(** ** types.go: literals and steps *)
#[export] Instance StepKind_eq_dec : EqDecision StepKind.
Proof. solve_decision. Defined.

Definition validBinaryLiteral (literal : bytes) : bool := negb (contains_any literal [CR; LF]).
Definition validDataLiteral (literal : bytes) : bool :=
  utf8_valid literal && validBinaryLiteral literal.

Definition literalStep (k : StepKind) : bool :=
  match k with StepKindData | StepKindBinaryData => true | _ => false end.
Definition validLiteral (k : StepKind) (literal : bytes) : bool :=
  match k with
  | StepKindData => validDataLiteral literal
  | StepKindBinaryData => validBinaryLiteral literal
  | _ => false
  end.
Definition literalJSONBytes (k : StepKind) (literal : bytes) : Z :=
  match k with
  | StepKindBinaryData => (len literal + 2) / 3 * 4
  | _ => len literal
  end.
Definition literalKindFor (literal : bytes) : StepKind :=
  if utf8_valid literal then StepKindData else StepKindBinaryData.

Record step := MkStep {
  st_kind : StepKind; copyStart : Z; copyEnd : Z; st_data : list bytes; st_initialized : bool }.

(** [copyRange] without its flag: the range when this is a copy step. *)
Definition copyRange (s : step) : option (Z * Z) :=
  if st_initialized s && bool_decide (st_kind s = StepKindCopy)
  then Some (copyStart s, copyEnd s) else None.

Definition step_valid (s : step) : bool :=
  if negb (st_initialized s) || negb (StepKind_Known (st_kind s)) then false
  else if decide (st_kind s = StepKindCopy) then
    (0 <? copyStart s) && (copyStart s <=? copyEnd s) && (len (st_data s) =? 0)
  else if negb (copyStart s =? 0) || negb (copyEnd s =? 0) || (len (st_data s) =? 0) then false
  else forallb (validLiteral (st_kind s)) (st_data s).

Definition newCopyStep (start end_ : Z) : outcome Error step :=
  let candidate := MkStep StepKindCopy start end_ [] true in
  check require (step_valid candidate)
    (newError ErrorCodeInvalidCopyRange noLoc (detailsOf DimensionUnset StepKindCopy)) ;;
  Ret candidate.

Definition newDataStep (data : list bytes) : outcome Error step :=
  let failure := newError ErrorCodeInvalidLiteral noLoc (detailsOf DimensionUnset StepKindData) in
  check require (negb (len data =? 0)) failure ;;
  check require (forallb validDataLiteral data) failure ;;
  let candidate := MkStep StepKindData 0 0 data true in
  check require (step_valid candidate) failure ;;
  Ret candidate.

Definition newBinaryDataStep (data : list bytes) : outcome Error step :=
  let candidate := MkStep StepKindBinaryData 0 0 data true in
  check require (negb ((len data =? 0) || negb (step_valid candidate)))
    (newError ErrorCodeInvalidLiteral noLoc (detailsOf DimensionUnset StepKindBinaryData)) ;;
  Ret candidate.

(** ** types.go: header plans *)
Record headerPlan := MkPlan {
  hp_name : bytes; hp_canonicalName : bytes; hp_steps : list step; hp_initialized : bool }.

(** The loop over steps shared by [headerPlan.valid] and [Recipe.Valid]. *)
Fixpoint orderedSteps (steps : list step) (previousCopyEnd : Z) : bool :=
  match steps with
  | [] => true
  | s :: rest =>
      step_valid s &&
      match copyRange s with
      | Some (start, end_) =>
          negb (negb (previousCopyEnd =? 0) && (start <=? previousCopyEnd)) && orderedSteps rest end_
      | None => orderedSteps rest previousCopyEnd
      end
  end.

Definition headerPlan_valid (p : headerPlan) : bool :=
  match canonicalHeaderLookupName (hp_name p) with
  | None => false
  | Some canonicalName =>
      hp_initialized p && bytes_equal canonicalName (hp_canonicalName p)
      && bytes_equal (hp_name p) canonicalName && orderedSteps (hp_steps p) 0
  end.

(** The same loop in the constructors, with the error of the failed test. *)
Fixpoint checkOrderedSteps (steps : list step) (dimension : Dimension) (previousCopyEnd : Z)
    : outcome Error unit :=
  match steps with
  | [] => Ret tt
  | s :: rest =>
      check require (step_valid s) (newError ErrorCodeInvalidStep noLoc noDetails) ;;
      match copyRange s with
      | Some (start, end_) =>
          check require (negb (negb (previousCopyEnd =? 0) && (start <=? previousCopyEnd)))
            (newError ErrorCodeCopyRangeOrder noLoc (detailsOf dimension StepKindCopy)) ;;
          checkOrderedSteps rest dimension end_
      | None => checkOrderedSteps rest dimension previousCopyEnd
      end
  end.

Definition newHeaderPlan (name canonicalName : bytes) (steps : list step)
    : outcome Error headerPlan :=
  check require
    match canonicalHeaderLookupName name with
    | None => false
    | Some resolvedName => bytes_equal canonicalName resolvedName && bytes_equal name canonicalName
    end (newError ErrorCodeInvalidHeaderName noLoc noDetails) ;;
  check checkOrderedSteps steps DimensionUnset 0 ;;
  Ret (MkPlan name canonicalName steps true).

(** ** types.go: recipes *)
Inductive BodyMode := BodyModeUnset | BodyModeAbsent | BodyModeSteps | BodyModeUnavailable.
Definition BodyMode_Known (m : BodyMode) : bool :=
  match m with BodyModeUnset => false | _ => true end.
#[export] Instance BodyMode_eq_dec : EqDecision BodyMode.
Proof. solve_decision. Defined.

Record Recipe := MkRecipe {
  rc_headers : list headerPlan; hasHeaderRecipe : bool; rc_bodyMode : BodyMode;
  rc_bodySteps : list step; rc_initialized : bool }.

(** [plan.canonicalName <= previousName] on byte strings. *)
Fixpoint orderedPlans (plans : list headerPlan) (previousName : bytes) : bool :=
  match plans with
  | [] => true
  | plan :: rest =>
      headerPlan_valid plan
      && negb (negb (bool_decide (previousName = []))
               && negb (bytes_ltb previousName (hp_canonicalName plan)))
      && orderedPlans rest (hp_canonicalName plan)
  end.

Definition Recipe_Valid (r : Recipe) : bool :=
  if negb (rc_initialized r) || negb (BodyMode_Known (rc_bodyMode r))
     || (negb (hasHeaderRecipe r) && bool_decide (rc_bodyMode r = BodyModeAbsent)) then false
  else if negb (hasHeaderRecipe r) && negb (len (rc_headers r) =? 0) then false
  else if hasHeaderRecipe r && (len (rc_headers r) =? 0) then false
  else if negb (bool_decide (rc_bodyMode r = BodyModeSteps)) && negb (len (rc_bodySteps r) =? 0) then false
  else orderedPlans (rc_headers r) [] && orderedSteps (rc_bodySteps r) 0.

Definition HasHeaderRecipe (r : Recipe) : bool := Recipe_Valid r && hasHeaderRecipe r.
Definition HeaderNames (r : Recipe) : list bytes :=
  if negb (Recipe_Valid r) then [] else map hp_name (rc_headers r).
Definition CanonicalHeaderNames (r : Recipe) : list bytes :=
  if negb (Recipe_Valid r) then [] else map hp_canonicalName (rc_headers r).
Definition Recipe_BodyMode (r : Recipe) : BodyMode :=
  if negb (Recipe_Valid r) then BodyModeUnset else rc_bodyMode r.

(** The plan loop of [newRecipe]; [previous] is the preceding plan's name. *)
Fixpoint checkPlans (plans : list headerPlan) (previous : option bytes) : outcome Error unit :=
  match plans with
  | [] => Ret tt
  | plan :: rest =>
      check require (headerPlan_valid plan) invalidStateError ;;
      check require (negb (bool_decide (previous = Some (hp_canonicalName plan))))
        (newError ErrorCodeHeaderNameCollision noLoc noDetails) ;;
      checkPlans rest (Some (hp_canonicalName plan))
  end.

Definition newRecipe (plans : list headerPlan) (hasHeaders : bool) (bodyMode : BodyMode)
    (bodySteps : list step) : outcome Error Recipe :=
  check checkPlans plans None ;;
  check checkOrderedSteps bodySteps DimensionBody 0 ;;
  let recipe := MkRecipe plans hasHeaders bodyMode bodySteps true in
  check require (Recipe_Valid recipe) invalidStateError ;;
  Ret recipe.

(** ** state.go *)
Inductive BodyAvailability :=
  | BodyAvailabilityUnset | BodyAvailabilityKnown | BodyAvailabilityUnavailable.
#[export] Instance BodyAvailability_eq_dec : EqDecision BodyAvailability.
Proof. solve_decision. Defined.
Definition BodyAvailability_Known (a : BodyAvailability) : bool :=
  match a with BodyAvailabilityUnset => false | _ => true end.

Record State := MkState {
  sta_headers : HeaderBlock; sta_body : Body; sta_availability : BodyAvailability;
  sta_framing : MessageFraming; sta_initialized : bool }.

Definition newUnavailableState (headers : HeaderBlock) : outcome Error State :=
  check require (hb_initialized headers) invalidStateError ;;
  Ret (MkState headers emptyBody BodyAvailabilityUnavailable MessageFramingDelimited true).

Definition newKnownState (headers : HeaderBlock) (body : Body) (framing : MessageFraming)
    : outcome Error State :=
  check require (hb_initialized headers && body_initialized body && MessageFraming_Known framing)
    invalidStateError ;;
  check require
    (negb (bool_decide (framing = MessageFramingHeaderOnly)
           && ((HeaderBlock_Len headers =? 0) || negb (Body_Len body =? 0)))) invalidStateError ;;
  Ret (MkState headers body BodyAvailabilityKnown framing true).

(** [message.Framing()] of an initialized message is always one of the two
    known forms; the empty value is read as an unknown form. *)
Definition NewState (message : Message) : outcome Error State :=
  check require (Message_Initialized message) invalidStateError ;;
  newKnownState (RawParser.headers message) (RawParser.body message)
    (from_option id (MessageFramingOther "") (Message_Framing message)).

Definition NewHeadersOnlyState (headers : HeaderBlock) : outcome Error State :=
  newUnavailableState headers.

Definition State_Valid (s : State) : bool :=
  if negb (sta_initialized s) || negb (hb_initialized (sta_headers s))
     || negb (BodyAvailability_Known (sta_availability s))
     || negb (MessageFraming_Known (sta_framing s)) then false
  else if decide (sta_availability s = BodyAvailabilityKnown) then
    body_initialized (sta_body s) &&
    (negb (bool_decide (sta_framing s = MessageFramingHeaderOnly))
     || ((0 <? HeaderBlock_Len (sta_headers s)) && (Body_Len (sta_body s) =? 0)))
  else negb (body_initialized (sta_body s)) && bool_decide (sta_framing s = MessageFramingDelimited).

Definition State_Headers (s : State) : HeaderBlock :=
  if negb (State_Valid s) then emptyHeaderBlock else sta_headers s.
Definition State_BodyState (s : State) : BodyAvailability :=
  if negb (State_Valid s) then BodyAvailabilityUnset else sta_availability s.
Definition State_Body (s : State) : option Body :=
  if negb (State_Valid s) || negb (bool_decide (sta_availability s = BodyAvailabilityKnown))
  then None else Some (sta_body s).
Definition State_Framing (s : State) : option MessageFraming :=
  if negb (State_Valid s) then None else Some (sta_framing s).

(** [Materialize]; the raw parser's error is returned as it is. *)
Definition Materialize (s : State) : outcome (Error + ParserError) Message :=
  check require (State_Valid s && bool_decide (sta_availability s = BodyAvailabilityKnown))
    (inl invalidStateError) ;;
  match NewReconstructedMessageWithFraming (sta_headers s) (sta_body s) DefaultParserOptions
          (sta_framing s) with
  | Ret m => Ret m
  | Fail e => Fail (inr e)
  | Crash => Crash
  end.

(** * Resolved limits *)
Definition limits_ok (l : Limits) : Prop :=
  Forall2 (fun v d => 0 < v <= d) (limitValues l) (limitValues DefaultLimits) /\
  MaxDataStringBytes l <= MaxTotalLiteralBytes l <= MaxDecodedRecipeBytes l /\
  MaxStepsPerHeader l <= MaxTotalSteps l /\ MaxBodySteps l <= MaxTotalSteps l /\
  MaxCopiedItemsPerRange l <= MaxTotalCopiedItems l.

Definition limit_or_default (v d : Z) : Z := if v =? 0 then d else v.

Lemma normalizeLoop_spec vs ds ns r :
  Forall (fun d => 0 < d) ds -> length vs = length ds -> length vs = length ns ->
  normalizeLoop vs ds ns = Ret r <->
  Forall2 (fun v d => 0 <= v <= d) vs ds /\ r = zip_with limit_or_default vs ds.
Proof.
  intros Hd. revert vs ns r. induction Hd as [|d ds Hd _ IH]; intros [|v vs] [|n ns] r Hl Hn; try done.
  - cbn. split; [intros [= <-]; by split | by intros [_ ->]].
  - cbn [normalizeLoop]. injection Hl as Hl. injection Hn as Hn. split.
    + intros H. apply obind_ret_inv in H as (? & Hr%require_ret_inv & H).
      apply obind_ret_inv in H as (rest & Hrest & [= <-]).
      apply IH in Hrest as [Hf ->]; [ | done..]. split; [constructor; [lia | done] | done].
    + intros [Hf ->]. apply Forall2_cons in Hf as [Hv Hf].
      assert (negb ((v <? 0) || (d <? v)) = true) as -> by lia. cbn [require obind].
      rewrite (proj2 (IH vs ns (zip_with limit_or_default vs ds) Hl Hn)) by done. done.
Qed.

Lemma limitsOf_values l : limitsOf (limitValues l) = l.
Proof. by destruct l. Qed.
Lemma limitValues_of vs : length vs = 24%nat -> limitValues (limitsOf vs) = vs.
Proof. do 25 (destruct vs as [|? vs]; try done). Qed.

Lemma default_limits_positive : Forall (fun d => 0 < d) (limitValues DefaultLimits).
Proof. vm_compute. repeat constructor. Qed.

(** The limits [normalized] resolves: zero reads as the hard ceiling. *)
Definition resolve_limits (l : Limits) : Limits :=
  limitsOf (zip_with limit_or_default (limitValues l) (limitValues DefaultLimits)).

Lemma resolved_range vs ds :
  Forall2 (fun v d => 0 <= v <= d) vs ds -> Forall (fun d => 0 < d) ds ->
  Forall2 (fun v d => 0 < v <= d) (zip_with limit_or_default vs ds) ds.
Proof.
  induction 1 as [|v d vs ds Hv _ IH]; intros Hd; [constructor | ]. apply Forall_cons in Hd as [Hd0 Hd].
  constructor; [ | by apply IH]. unfold limit_or_default. destruct (Z.eqb_spec v 0); lia.
Qed.
Lemma resolve_values l :
  limitValues (resolve_limits l) = zip_with limit_or_default (limitValues l) (limitValues DefaultLimits).
Proof. apply limitValues_of. by rewrite length_zip_with. Qed.

Lemma normalized_spec l r :
  Limits_normalized l = Ret r <->
  Forall2 (fun v d => 0 <= v <= d) (limitValues l) (limitValues DefaultLimits) /\
  limits_ok r /\ r = resolve_limits l.
Proof.
  unfold Limits_normalized. split.
  - intros H. apply obind_ret_inv in H as (vs & Hvs & H).
    apply normalizeLoop_spec in Hvs as [Hf ->]; [ | apply default_limits_positive | done | done].
    fold (resolve_limits l) in H.
    apply obind_ret_inv in H as (? & H1%require_ret_inv & H).
    apply obind_ret_inv in H as (? & H2%require_ret_inv & H).
    apply obind_ret_inv in H as (? & H3%require_ret_inv & [= <-]).
    split; [done | ]. split; [ | done]. split_and!; try lia.
    rewrite resolve_values. by apply resolved_range, default_limits_positive.
  - intros (Hf & (_ & Hc) & ->).
    rewrite (proj2 (normalizeLoop_spec (limitValues l) (limitValues DefaultLimits) limitNames _
               default_limits_positive eq_refl eq_refl)) by (split; [exact Hf | done]).
    cbn [obind]. fold (resolve_limits l).
    assert (negb ((MaxTotalLiteralBytes (resolve_limits l) <? MaxDataStringBytes (resolve_limits l))
      || (MaxDecodedRecipeBytes (resolve_limits l) <? MaxTotalLiteralBytes (resolve_limits l))) = true) as -> by lia.
    assert (negb ((MaxTotalSteps (resolve_limits l) <? MaxStepsPerHeader (resolve_limits l))
      || (MaxTotalSteps (resolve_limits l) <? MaxBodySteps (resolve_limits l))) = true) as -> by lia.
    assert (negb (MaxTotalCopiedItems (resolve_limits l) <? MaxCopiedItemsPerRange (resolve_limits l)) = true) as -> by lia.
    done.
Qed.

Lemma resolve_resolved vs ds :
  Forall2 (fun v d => 0 < v <= d) vs ds -> zip_with limit_or_default vs ds = vs.
Proof.
  induction 1 as [|v d vs ds Hv _ IH]; [done | ]. cbn. rewrite IH. unfold limit_or_default.
  by rewrite (proj2 (Z.eqb_neq _ _)) by lia.
Qed.
Lemma normalized_resolved l : limits_ok l -> Limits_normalized l = Ret l.
Proof.
  intros Hl. apply normalized_spec. pose proof Hl as [Hf _]. split; [ | split; [done | ]].
  - eapply Forall2_impl; [exact Hf | ]. cbn. intros; lia.
  - unfold resolve_limits. by rewrite resolve_resolved, limitsOf_values.
Qed.

Lemma normalizeLoop_no_crash vs ds ns :
  length vs = length ds -> length vs = length ns -> no_crash (normalizeLoop vs ds ns).
Proof.
  revert ds ns. induction vs as [|v vs IH]; intros [|d ds] [|n ns] Hd Hn; try done.
  cbn [normalizeLoop]. injection Hd as Hd. injection Hn as Hn.
  apply obind_no_crash; [apply require_no_crash | intros _ _].
  apply obind_no_crash; [by apply IH | done].
Qed.
Lemma normalized_no_crash l : no_crash (Limits_normalized l).
Proof.
  unfold Limits_normalized. apply obind_no_crash; [by apply normalizeLoop_no_crash | ].
  intros vs _. crash_free.
Qed.

(** The range of every limit, as hypotheses. *)
Lemma limits_ok_all l :
  limits_ok l -> Forall (fun v => 0 < v <= hardMaxOperationWorkUnits) (limitValues l).
Proof.
  intros [Hf _]. assert (Forall (fun d => d <= hardMaxOperationWorkUnits) (limitValues DefaultLimits)) as Hd
    by (apply list.Forall_forall; intros d Hd; apply list_elem_of_In in Hd; vm_compute in Hd;
        change hardMaxOperationWorkUnits with 272629760; intuition lia).
  revert Hd. induction Hf as [|v d vs ds Hv _ IH]; intros Hd; [constructor | ].
  apply Forall_cons in Hd as [Hd0 Hd]. constructor; [lia | by apply IH].
Qed.
Ltac limit_facts H :=
  let F := fresh "F" in
  pose proof (limits_ok_all _ H) as F; unfold limitValues in F;
  change hardMaxOperationWorkUnits with 272629760 in F;
  repeat match type of F with
  | Forall _ (_ :: _) => let F0 := fresh "F" in apply Forall_cons in F as [F0 F]
  end; clear F; assert (MaxInt = 9223372036854775807) by reflexivity.

(** ** Valid steps *)
Definition step_ok (s : step) : Prop :=
  match copyRange s with
  | Some (start, end_) => 0 < start <= end_ /\ st_data s = []
  | None =>
      (st_kind s = StepKindData \/ st_kind s = StepKindBinaryData) /\ st_data s <> [] /\
      Forall plain (st_data s)
  end.

Lemma validBinaryLiteral_plain l : validBinaryLiteral l = true <-> plain l.
Proof. unfold validBinaryLiteral. by rewrite negb_true_iff, contains_any_plain. Qed.
Lemma len_zero {A} (l : list A) : (len l =? 0) = true <-> l = [].
Proof. unfold len. rewrite Z.eqb_eq. destruct l; cbn; split; (done || lia). Qed.

Lemma validLiteral_plain k l : validLiteral k l = true -> plain l.
Proof.
  destruct k; cbn; try done; unfold validDataLiteral; rewrite ?andb_true_iff, ?validBinaryLiteral_plain.
  - by intros [_ ?].
  - done.
Qed.

Lemma step_valid_ok s : step_valid s = true -> step_ok s.
Proof.
  unfold step_valid, step_ok, copyRange. intros H.
  destruct (negb (st_initialized s) || _) eqn:Ei; [done | ].
  apply orb_false_iff in Ei as [Ei%negb_false_iff Ek%negb_false_iff]. rewrite Ei. cbn [andb].
  destruct (decide (st_kind s = StepKindCopy)) as [E|E].
  - rewrite bool_decide_eq_true_2 by done.
    apply andb_true_iff in H as [[H1 H2]%andb_true_iff H3%len_zero]. split; [lia | done].
  - rewrite bool_decide_eq_false_2 by done. destruct (negb (copyStart s =? 0) || _ || _) eqn:El; [done | ].
    apply orb_false_iff in El as [_ El]. split; [by destruct (st_kind s); auto | ].
    split; [by intros He%len_zero; rewrite He in El | ].
    apply Is_true_true, forallb_True in H. eapply Forall_impl; [exact H | ].
    intros l Hl%Is_true_true. by eapply validLiteral_plain.
Qed.

Lemma orderedSteps_ok steps previous : orderedSteps steps previous = true -> Forall step_ok steps.
Proof.
  revert previous. induction steps as [|s steps IH]; intros previous H; [constructor | ].
  cbn [orderedSteps] in H. apply andb_true_iff in H as [Hs H]. constructor; [by apply step_valid_ok | ].
  destruct (copyRange s) as [[start end_]|]; [apply andb_true_iff in H as [_ H] | ]; by eapply IH.
Qed.

(** ** Valid recipes *)
Definition plan_ok (p : headerPlan) : Prop :=
  validHeaderFieldName (hp_name p) = true /\ hp_canonicalName p = hp_name p /\
  lowerASCII (hp_name p) = hp_name p /\ Forall step_ok (hp_steps p).
Definition recipe_ok (r : Recipe) : Prop :=
  Forall plan_ok (rc_headers r) /\
  StronglySorted (fun a b => bytes_ltb a b = true) (map hp_canonicalName (rc_headers r)) /\
  Forall step_ok (rc_bodySteps r) /\
  (hasHeaderRecipe r = false -> rc_headers r = []) /\
  (rc_bodyMode r <> BodyModeSteps -> rc_bodySteps r = []) /\ rc_bodyMode r <> BodyModeUnset.

Lemma headerPlan_valid_ok p : headerPlan_valid p = true -> plan_ok p.
Proof.
  unfold headerPlan_valid, canonicalHeaderLookupName.
  destruct (validHeaderFieldName (hp_name p)) eqn:Ev; [ | done].
  intros [[[H1 H2%bytes_equal_eq]%andb_true_iff H3%bytes_equal_eq]%andb_true_iff H4]%andb_true_iff.
  split_and!; [done | congruence | done | by eapply orderedSteps_ok].
Qed.

Lemma orderedPlans_ok ps previous :
  orderedPlans ps previous = true ->
  Forall plan_ok ps /\ StronglySorted (fun a b => bytes_ltb a b = true) (map hp_canonicalName ps) /\
  (previous <> [] -> Forall (fun p => bytes_ltb previous (hp_canonicalName p) = true) ps).
Proof.
  revert previous. induction ps as [|p ps IH]; intros previous H; [by split_and!; try constructor | ].
  cbn [orderedPlans] in H. apply andb_true_iff in H as [[Hp%headerPlan_valid_ok H1]%andb_true_iff H2].
  destruct (IH _ H2) as (H3 & H4 & H5).
  assert (hp_canonicalName p <> []) as Hne.
  { destruct Hp as (Hv & -> & _). intros E. by rewrite E in Hv. }
  specialize (H5 Hne). split_and!; [by constructor | | ].
  - cbn [map]. constructor; [done | ]. by apply Forall_fmap.
  - intros Hprev. rewrite bool_decide_eq_false_2 in H1 by done. cbn in H1. rewrite negb_involutive in H1.
    constructor; [done | ]. eapply Forall_impl; [exact H5 | ]. intros q Hq.
    by eapply bytes_ltb_trans.
Qed.

Lemma Recipe_Valid_ok r : Recipe_Valid r = true -> recipe_ok r.
Proof.
  unfold Recipe_Valid, recipe_ok. intros H.
  destruct (negb (rc_initialized r) || _ || _) eqn:E1; [done | ].
  apply orb_false_iff in E1 as [[_ Hk%negb_false_iff]%orb_false_iff _].
  destruct (negb (hasHeaderRecipe r) && _) eqn:E2; [done | ].
  destruct (hasHeaderRecipe r && _) eqn:E3; [done | ].
  destruct (negb (bool_decide _) && _) eqn:E4; [done | ].
  apply andb_true_iff in H as [H5 H6]. apply orderedPlans_ok in H5 as (H7 & H8 & _).
  apply orderedSteps_ok in H6. split_and!; try done.
  - intros E. rewrite E in E2. cbn in E2. apply negb_false_iff in E2. by apply len_zero.
  - intros E. rewrite bool_decide_eq_false_2 in E4 by done. cbn in E4. apply negb_false_iff in E4. by apply len_zero.
  - by intros E; rewrite E in Hk.
Qed.

Lemma strictly_sorted_NoDup l : StronglySorted (fun a b => bytes_ltb a b = true) l -> NoDup l.
Proof.
  induction 1 as [|x l _ IH Hx]; constructor; [ | done]. intros Hin.
  rewrite Forall_forall in Hx. apply Hx in Hin. by rewrite bytes_ltb_irrefl in Hin.
Qed.

(** ** The constructors *)
Lemma checkOrderedSteps_ret steps d prev :
  checkOrderedSteps steps d prev = Ret tt <-> orderedSteps steps prev = true.
Proof.
  revert prev. induction steps as [|s steps IH]; intros prev; cbn; [done | ].
  destruct (step_valid s); cbn [require obind andb]; [ | done].
  destruct (copyRange s) as [[start end_]|]; [ | apply IH].
  destruct (negb _); cbn [require obind andb]; [apply IH | done].
Qed.
Lemma orderedPlans_checked plans name prev :
  orderedPlans plans name = true -> (forall n, prev = Some n -> n = name /\ n <> []) -> checkPlans plans prev = Ret tt.
Proof.
  revert name prev. induction plans as [|p plans IH]; intros name prev; cbn [orderedPlans checkPlans]; [done | ].
  intros [[Hp Ho]%andb_true_iff Hr]%andb_true_iff Hprev. rewrite Hp. cbn [require obind].
  rewrite bool_decide_eq_false_2.
  - cbn [negb require obind]. eapply IH; [exact Hr | ]. intros n [= <-]. split; [done | ].
    unfold headerPlan_valid, canonicalHeaderLookupName in Hp.
    destruct (validHeaderFieldName (hp_name p)) eqn:Ev; [ | done].
    apply andb_true_iff in Hp as [[[_ H2%bytes_equal_eq]%andb_true_iff H3%bytes_equal_eq]%andb_true_iff _].
    rewrite <- H2, <- H3. intros E. by rewrite E in Ev.
  - intros E. destruct (Hprev _ E) as [<- Hne]. rewrite bool_decide_eq_false_2 in Ho by done.
    cbn [negb andb] in Ho. rewrite negb_involutive in Ho. by rewrite bytes_ltb_irrefl in Ho.
Qed.

(** NewRecipe builds exactly the valid recipes: it succeeds exactly when
    the recipe made of its arguments is valid, and then returns that recipe,
    whose header names are valid, in ascending order and without repetition,
    and whose steps are well formed. *)
Theorem newRecipe_spec plans hasHeaders mode steps r :
  newRecipe plans hasHeaders mode steps = Ret r <->
  r = MkRecipe plans hasHeaders mode steps true /\ Recipe_Valid r = true /\ recipe_ok r /\
  NoDup (HeaderNames r).
Proof.
  unfold newRecipe. split.
  - intros (_ & _ & E)%obind_ret_inv. apply obind_ret_inv in E as (_ & _ & E).
    apply obind_ret_inv in E as (_ & Hv%require_ret_inv & [= <-]). split; [done | ]. split; [done | ].
    pose proof (Recipe_Valid_ok _ Hv) as Hok. split; [done | ].
    unfold HeaderNames. rewrite Hv. destruct Hok as (Hp & Hs & _). cbn [negb rc_headers] in *.
    apply strictly_sorted_NoDup in Hs. erewrite map_ext_Forall; [exact Hs | ].
    eapply Forall_impl; [exact Hp | ]. intros p (_ & E & _). done.
  - intros (-> & Hv & _). pose proof Hv as Hv'. unfold Recipe_Valid in Hv'.
    repeat (match type of Hv' with (if ?b then false else _) = true => destruct b; [done | ] end).
    apply andb_true_iff in Hv' as [Hp Hs]. cbn [rc_headers rc_bodySteps] in *.
    rewrite (orderedPlans_checked plans [] None) by done. cbn [obind].
    rewrite (proj2 (checkOrderedSteps_ret _ _ _)) by done. cbn [obind]. by rewrite Hv.
Qed.
