(* ===== verification/RecipeUsage.v ===== *)
(** * Package internal/recipe: work accounting and plan budgets

    usage.go and plan_budgets.go.  An operation that charges the shared
    [*usageCounter] is a function of type [UM A]: it takes the counter and
    returns its outcome with the counter as the operation left it, also when
    it failed.  The counter pointer is never nil in the callers modelled. *)

From S2P Require Import Prelude GoBytes RecipeTypes.
#[local] Open Scope Z_scope.

(** ** usage.go *)
Record Usage := MkUsage {
  us_decodedBytes : Z; us_emittedBytes : Z; us_items : Z; us_workUnits : Z; us_initialized : bool }.
Definition noUsage : Usage := MkUsage 0 0 0 0 false.

Definition Usage_Valid (u : Usage) : bool :=
  us_initialized u && (0 <=? us_decodedBytes u) && (0 <=? us_emittedBytes u)
  && (0 <=? us_items u) && (0 <=? us_workUnits u).

Definition newUsage (decodedBytes emittedBytes items workUnits : Z) : Usage :=
  let usage := MkUsage decodedBytes emittedBytes items workUnits true in
  if negb (Usage_Valid usage) then noUsage else usage.

Record usageCounter := MkCounter {
  uc_limits : Limits; decodedBytes : Z; emittedBytes : Z; items : Z; workUnits : Z }.

Definition newUsageCounter (limits : Limits) : outcome Error usageCounter :=
  let* resolved := Limits_normalized limits in
  Ret (MkCounter resolved 0 0 0 0).

Definition usageCounter_usage (c : usageCounter) : Usage :=
  newUsage (decodedBytes c) (emittedBytes c) (items c) (workUnits c).

(** ** Operations on a counter *)
Definition UM (A : Type) : Type := usageCounter -> outcome Error A * usageCounter.
Definition uret {A} (a : A) : UM A := fun c => (Ret a, c).
Definition ufail {A} (e : Error) : UM A := fun c => (Fail e, c).
Definition ubind {A B} (m : UM A) (k : A -> UM B) : UM B := fun c =>
  match m c with
  | (Ret a, c) => k a c
  | (Fail e, c) => (Fail e, c)
  | (Crash, c) => (Crash, c)
  end.
(** A computation that does not touch the counter. *)
Definition ulift {A} (m : outcome Error A) : UM A := fun c => (m, c).
Definition urequire (b : bool) (e : Error) : UM unit := ulift (require b e).

Notation "'let!' x ':=' c 'in' k" := (ubind c (fun x => k))
  (at level 10, x pattern, c at level 100, k at level 200,
   format "'[v' 'let!'  x  ':='  c  'in' '/' k ']'") : go_scope.
Notation "'check!' c ';;' k" := (ubind c (fun _ : unit => k))
  (at level 10, c at level 99, k at level 200) : go_scope.

(** [for _, x := range l] with the mutated variables as the state [b]. *)
Fixpoint ufold {A B} (f : B -> A -> UM B) (l : list A) (b : B) : UM B :=
  match l with
  | [] => uret b
  | x :: rest => let! b := f b x in ufold f rest b
  end.

Definition usageLimitError (name : string) (limit actual : Z) : Error :=
  newError ErrorCodeLimitExceeded noLoc
    (MkDetails ErrorClassLimit name limit actual DimensionUnset StepKindUnset).

Definition chargeDecoded (count : Z) : UM unit := fun c =>
  if count <? 0 then (Fail invalidStateError, c) else
  let (decoded, ok) := checkedAdd (decodedBytes c) count in
  if negb ok || (MaxDecodedRecipeBytes (uc_limits c) <? decoded) then
    (Fail (usageLimitError "max_decoded_recipe_bytes" (MaxDecodedRecipeBytes (uc_limits c)) decoded), c)
  else
  let (work, ok) := checkedAdd (workUnits c) count in
  if negb ok || (MaxOperationWorkUnits (uc_limits c) <? work) then
    (Fail (usageLimitError "max_operation_work_units" (MaxOperationWorkUnits (uc_limits c)) work), c)
  else (Ret tt, MkCounter (uc_limits c) decoded (emittedBytes c) (items c) work).

Definition chargeEmitted (count : Z) : UM unit := fun c =>
  if count <? 0 then (Fail invalidStateError, c) else
  let (emitted, ok) := checkedAdd (emittedBytes c) count in
  if negb ok || (MaxStateBytes (uc_limits c) <? emitted) then
    (Fail (usageLimitError "max_state_bytes" (MaxStateBytes (uc_limits c)) emitted), c)
  else
  let (work, ok) := checkedAdd (workUnits c) count in
  if negb ok || (MaxOperationWorkUnits (uc_limits c) <? work) then
    (Fail (usageLimitError "max_operation_work_units" (MaxOperationWorkUnits (uc_limits c)) work), c)
  else (Ret tt, MkCounter (uc_limits c) (decodedBytes c) emitted (items c) work).

Definition chargeItems (count : Z) : UM unit := fun c =>
  if count <? 0 then (Fail invalidStateError, c) else
  let (items', ok) := checkedAdd (items c) count in
  if negb ok then
    (Fail (usageLimitError "max_operation_work_units" (MaxOperationWorkUnits (uc_limits c)) MaxInt), c)
  else
  let (work, ok) := checkedAdd (workUnits c) count in
  if negb ok || (MaxOperationWorkUnits (uc_limits c) <? work) then
    (Fail (usageLimitError "max_operation_work_units" (MaxOperationWorkUnits (uc_limits c)) work), c)
  else (Ret tt, MkCounter (uc_limits c) (decodedBytes c) (emittedBytes c) items' work).

Definition chargeWork (count : Z) : UM unit := fun c =>
  if count <? 0 then (Fail invalidStateError, c) else
  let (work, ok) := checkedAdd (workUnits c) count in
  if negb ok || (MaxOperationWorkUnits (uc_limits c) <? work) then
    (Fail (usageLimitError "max_operation_work_units" (MaxOperationWorkUnits (uc_limits c)) work), c)
  else (Ret tt, MkCounter (uc_limits c) (decodedBytes c) (emittedBytes c) (items c) work).

(** ** apply_header.go: limit errors *)
Definition applicationLimitError (dimension : Dimension) (name : string) (limit actual : Z) : Error :=
  newError ErrorCodeLimitExceeded noLoc
    (MkDetails ErrorClassLimit name limit actual dimension StepKindUnset).

(** ** plan_budgets.go *)
Record planBudgetAccumulator := MkBudget {
  pb_steps : Z; pb_ranges : Z; pb_copied : Z; pb_dataStrings : Z; pb_literalBytes : Z }.
Definition noBudget : planBudgetAccumulator := MkBudget 0 0 0 0 0.

(** [next, ok = checkedAdd(total, count); if !ok || next > limit] *)
Definition addBudget (dimension : Dimension) (name : string) (limit total count : Z)
    : outcome Error Z :=
  let (next, ok) := checkedAdd total count in
  check require (negb (negb ok || (limit <? next))) (applicationLimitError dimension name limit next) ;;
  Ret next.

Fixpoint addLiterals (data : list bytes) (limits : Limits) (dimension : Dimension)
    (b : planBudgetAccumulator) : outcome Error planBudgetAccumulator :=
  match data with
  | [] => Ret b
  | literal :: rest =>
      check require (negb (MaxDataStringBytes limits <? len literal))
        (applicationLimitError dimension "max_data_string_bytes" (MaxDataStringBytes limits)
           (len literal)) ;;
      let* dataStrings := addBudget dimension "max_data_strings" (MaxDataStrings limits) (pb_dataStrings b) 1 in
      let* literalBytes :=
        addBudget dimension "max_total_literal_bytes" (MaxTotalLiteralBytes limits)
          (pb_literalBytes b) (len literal) in
      addLiterals rest limits dimension
        (MkBudget (pb_steps b) (pb_ranges b) (pb_copied b) dataStrings literalBytes)
  end.

Fixpoint addInstructions (steps : list step) (limits : Limits) (dimension : Dimension)
    (b : planBudgetAccumulator) : outcome Error planBudgetAccumulator :=
  match steps with
  | [] => Ret b
  | instruction :: rest =>
      match copyRange instruction with
      | Some (start, end_) =>
          let width := end_ - start + 1 in
          check require (negb (MaxCopiedItemsPerRange limits <? width))
            (applicationLimitError dimension "max_copied_items_per_range"
               (MaxCopiedItemsPerRange limits) width) ;;
          let* ranges := addBudget dimension "max_copy_ranges" (MaxCopyRanges limits) (pb_ranges b) 1 in
          let* copied :=
            addBudget dimension "max_total_copied_items" (MaxTotalCopiedItems limits)
              (pb_copied b) width in
          addInstructions rest limits dimension
            (MkBudget (pb_steps b) ranges copied (pb_dataStrings b) (pb_literalBytes b))
      | None =>
          let* b := addLiterals (st_data instruction) limits dimension b in
          addInstructions rest limits dimension b
      end
  end.

Definition addSteps (b : planBudgetAccumulator) (steps : list step) (limits : Limits)
    (dimension : Dimension) : outcome Error planBudgetAccumulator :=
  let* steps' := addBudget dimension "max_total_steps" (MaxTotalSteps limits) (pb_steps b) (len steps) in
  addInstructions steps limits dimension
    (MkBudget steps' (pb_ranges b) (pb_copied b) (pb_dataStrings b) (pb_literalBytes b)).

Fixpoint addPlans (plans : list headerPlan) (limits : Limits) (dimension : Dimension)
    (b : planBudgetAccumulator) : outcome Error planBudgetAccumulator :=
  match plans with
  | [] => Ret b
  | plan :: rest =>
      let* b := addSteps b (hp_steps plan) limits dimension in
      addPlans rest limits dimension b
  end.

Definition validateAllPlanStepBudgets (recipe : Recipe) (limits : Limits) (dimension : Dimension)
    : outcome Error unit :=
  let* budget := addPlans (rc_headers recipe) limits dimension noBudget in
  let* _ := addSteps budget (rc_bodySteps recipe) limits dimension in
  Ret tt.

(** * Invariant of the counter *)
Definition counter_fits (c : usageCounter) : Prop :=
  emittedBytes c <= MaxStateBytes (uc_limits c) /\ workUnits c <= MaxOperationWorkUnits (uc_limits c).
Definition counter_ok (c : usageCounter) : Prop :=
  0 <= decodedBytes c /\ 0 <= emittedBytes c /\ 0 <= items c /\
  decodedBytes c + emittedBytes c + items c <= workUnits c /\ counter_fits c /\
  MaxStateBytes (uc_limits c) <= MaxInt /\ MaxOperationWorkUnits (uc_limits c) <= MaxInt /\
  MaxDecodedRecipeBytes (uc_limits c) <= MaxInt.

(** [m] keeps the invariant and the limits, whatever its outcome. *)
Definition keeps {A} (m : UM A) : Prop :=
  forall c, counter_ok c -> counter_ok (m c).2 /\ uc_limits (m c).2 = uc_limits c.

Lemma checkedAdd_ok x y : 0 <= x -> 0 <= y -> x + y <= MaxInt -> checkedAdd x y = (x + y, true).
Proof.
  intros Hx Hy Hs. unfold checkedAdd.
  rewrite (proj2 (Z.ltb_ge _ _)), (proj2 (Z.ltb_ge _ _)), (proj2 (Z.ltb_ge _ _)) by lia. done.
Qed.
Lemma checkedAdd_overflow x y : 0 <= x -> 0 <= y -> MaxInt < x + y -> checkedAdd x y = (MaxInt, false).
Proof.
  intros Hx Hy Hs. unfold checkedAdd.
  rewrite (proj2 (Z.ltb_ge _ _)), (proj2 (Z.ltb_ge _ _)), (proj2 (Z.ltb_lt _ _)) by lia. done.
Qed.
Lemma checkedAdd_cases x y :
  0 <= x -> 0 <= y ->
  (x + y <= MaxInt /\ checkedAdd x y = (x + y, true)) \/
  (MaxInt < x + y /\ checkedAdd x y = (MaxInt, false)).
Proof.
  intros Hx Hy. destruct (Z_le_gt_dec (x + y) MaxInt).
  - left. split; [done | ]. by apply checkedAdd_ok.
  - right. split; [lia | ]. apply checkedAdd_overflow; lia.
Qed.

Lemma keeps_uret {A} (x : A) : keeps (uret x).
Proof. by intros c Hc. Qed.
Lemma keeps_ufail {A} e : keeps (ufail (A := A) e).
Proof. by intros c Hc. Qed.
Lemma keeps_ulift {A} (m : outcome Error A) : keeps (ulift m).
Proof. by intros c Hc. Qed.
Lemma keeps_urequire b e : keeps (urequire b e).
Proof. apply keeps_ulift. Qed.
Lemma keeps_ubind {A B} (m : UM A) (k : A -> UM B) :
  keeps m -> (forall x, keeps (k x)) -> keeps (ubind m k).
Proof.
  intros Hm Hk c Hc. unfold ubind. destruct (Hm c Hc) as [H1 H2].
  destruct (m c) as [[x|e|] c1]; cbn [snd] in *; [ | by split..].
  destruct (Hk x c1 H1) as [H3 H4]. split; [done | congruence].
Qed.
Lemma keeps_ufold {A B} (f : B -> A -> UM B) l b : (forall b x, keeps (f b x)) -> keeps (ufold f l b).
Proof.
  intros Hf. revert b. induction l as [|x l IH]; intros b; cbn [ufold]; [apply keeps_uret | ].
  by apply keeps_ubind.
Qed.

Ltac charge_cases :=
  repeat match goal with
  | |- context [checkedAdd ?x ?y] =>
      destruct (checkedAdd_cases x y) as [[? ->] | [? ->]]; [lia | lia | | ]; cbn [negb orb]
  | |- context [?x <? ?y] => destruct (Z.ltb_spec x y); cbn [negb orb]
  end.

Lemma keeps_chargeDecoded n : keeps (chargeDecoded n).
Proof.
  intros c Hc. pose proof Hc as (H1 & H2 & H3 & H4 & (H5 & H6) & H7 & H8 & H9). unfold chargeDecoded.
  charge_cases; (split; [ | done]); unfold counter_ok, counter_fits; cbn; lia.
Qed.
Lemma keeps_chargeEmitted n : keeps (chargeEmitted n).
Proof.
  intros c Hc. pose proof Hc as (H1 & H2 & H3 & H4 & (H5 & H6) & H7 & H8 & H9). unfold chargeEmitted.
  charge_cases; (split; [ | done]); unfold counter_ok, counter_fits; cbn; lia.
Qed.
Lemma keeps_chargeItems n : keeps (chargeItems n).
Proof.
  intros c Hc. pose proof Hc as (H1 & H2 & H3 & H4 & (H5 & H6) & H7 & H8 & H9). unfold chargeItems.
  charge_cases; (split; [ | done]); unfold counter_ok, counter_fits; cbn; lia.
Qed.
Lemma keeps_chargeWork n : keeps (chargeWork n).
Proof.
  intros c Hc. pose proof Hc as (H1 & H2 & H3 & H4 & (H5 & H6) & H7 & H8 & H9). unfold chargeWork.
  charge_cases; (split; [ | done]); unfold counter_ok, counter_fits; cbn; lia.
Qed.
Create HintDb usage discriminated.
#[export] Hint Resolve keeps_uret keeps_ufail keeps_ulift keeps_urequire keeps_chargeDecoded
  keeps_chargeEmitted keeps_chargeItems keeps_chargeWork : usage.
(** [keeps_all] splits an operation into its charges. *)
Ltac keeps_all :=
  repeat match goal with
  | |- keeps (ubind _ _) => apply keeps_ubind; [ | intros ?]
  | |- keeps (ufold _ _ _) => apply keeps_ufold; intros ? ?
  | |- keeps (if ?b then _ else _) => destruct b
  | |- keeps (let '(_, _) := ?p in _) => destruct p
  | |- keeps (match ?p with _ => _ end) => destruct p
  end; auto with usage.

(** ** Exact success conditions and costs

    [exact m C r i e w]: the operation [m] succeeds exactly when the condition
    [C] holds and the counter can take [i] items, [e] emitted bytes and [w]
    further work units; it then returns [r] and charges exactly that. *)
Definition spend (i e w : Z) (c : usageCounter) : usageCounter :=
  MkCounter (uc_limits c) (decodedBytes c) (emittedBytes c + e) (items c + i)
    (workUnits c + (i + e + w)).

Record exact {A} (m : UM A) (C : Prop) (r : A) (i e w : Z) : Prop := MkExact {
  exact_cost : C -> 0 <= i /\ 0 <= e /\ 0 <= w;
  exact_run : forall c x c', counter_ok c ->
    (m c = (Ret x, c') <-> C /\ x = r /\ c' = spend i e w c /\ counter_fits (spend i e w c)) }.

Lemma spend_0 c : spend 0 0 0 c = c.
Proof. destruct c. unfold spend. cbn. f_equal; lia. Qed.
Lemma spend_spend i e w i' e' w' c :
  spend i' e' w' (spend i e w c) = spend (i + i') (e + e') (w + w') c.
Proof. unfold spend. cbn. f_equal; lia. Qed.
Lemma spend_ok i e w c :
  counter_ok c -> 0 <= i -> 0 <= e -> 0 <= w -> counter_fits (spend i e w c) -> counter_ok (spend i e w c).
Proof. unfold counter_ok, counter_fits, spend. cbn. lia. Qed.
Lemma fits_mono i e w i' e' w' c :
  counter_fits (spend (i + i') (e + e') (w + w') c) -> 0 <= i' -> 0 <= e' -> 0 <= w' ->
  counter_fits (spend i e w c).
Proof. unfold counter_fits, spend. cbn. lia. Qed.

Section exact.
Context {A B : Type}.

Lemma exact_uret (x : A) : exact (uret x) True x 0 0 0.
Proof.
  split; [done | ]. intros c y c' Hc. unfold uret. rewrite spend_0.
  split; [intros [= <- <-]; destruct Hc; intuition | by intros (_ & -> & -> & _)].
Qed.
Lemma exact_ulift (m : outcome Error A) (C : Prop) x : yields m C x -> exact (ulift m) C x 0 0 0.
Proof.
  intros Hm. split; [done | ]. intros c y c' Hc. unfold ulift. rewrite spend_0. split.
  - intros [= E <-]. apply Hm in E as [HC ->]. destruct Hc; intuition.
  - intros (HC & -> & -> & _). f_equal. by apply Hm.
Qed.
Lemma exact_fail e (x : A) : exact (ufail e) False x 0 0 0.
Proof. split; [done | ]. intros c y c' Hc. by split; [ | intros [[] _]]. Qed.

Lemma exact_bind (m : UM A) (k : A -> UM B) C C' x y i e w i' e' w' :
  exact m C x i e w -> (C -> exact (k x) C' y i' e' w') ->
  exact (ubind m k) (C /\ C') y (i + i') (e + e') (w + w').
Proof.
  intros (Hn & Hm) Hk. split.
  { intros [HC HC']. destruct (Hn HC) as (? & ? & ?), (Hk HC) as (Hn' & _).
    destruct (Hn' HC') as (? & ? & ?). lia. }
  intros c z c' Hc. unfold ubind. split.
  - destruct (m c) as [[x'|?|] c1] eqn:E; [ | done..]. intros Hz.
    apply Hm in E as (HC & -> & -> & Hf); [ | done]. destruct (Hn HC) as (? & ? & ?).
    destruct (Hk HC) as (_ & Hk'). apply Hk' in Hz as (HC' & -> & -> & Hf'); [ | by apply spend_ok].
    rewrite spend_spend in *. done.
  - intros ([HC HC'] & -> & -> & Hf). destruct (Hn HC) as (? & ? & ?), (Hk HC) as (Hn' & Hk').
    destruct (Hn' HC') as (? & ? & ?).
    assert (counter_fits (spend i e w c)) as Hf1 by by eapply fits_mono.
    rewrite (proj2 (Hm c x (spend i e w c) Hc)) by done.
    apply Hk'; [by apply spend_ok | ]. by rewrite spend_spend.
Qed.

Lemma exact_conv (m : UM A) C C' x x' i e w i' e' w' :
  exact m C x i e w -> (C' <-> C) -> (C -> x' = x) ->
  (C -> i' = i /\ e' = e /\ w' = w) -> exact m C' x' i' e' w'.
Proof.
  intros (H1 & H) HC Hx Hi. split.
  { rewrite HC. intros HCC. destruct (Hi HCC) as (-> & -> & ->). auto. }
  intros c y c' Hc. rewrite H by done. rewrite HC.
  split; intros (HCC & ? & ? & ?); destruct (Hi HCC) as (? & ? & ?), (Hx HCC); by subst.
Qed.
#[export] Instance exact_proper :
  Proper ((=) ==> iff ==> (=) ==> (=) ==> (=) ==> (=) ==> iff) (@exact A).
Proof.
  intros m ? <- C C' HC r ? <- i ? <- e ? <- w ? <-.
  split; intros [H1 H2]; (split; [tauto | ]); intros c x c' Hc; rewrite H2 by done; tauto.
Qed.
End exact.

Lemma exact_require b e : exact (urequire b e) (b = true) tt 0 0 0.
Proof. apply exact_ulift, yields_require. Qed.

Lemma exact_ext {A} (m m' : UM A) C r i e w :
  (forall c, m' c = m c) -> exact m C r i e w -> exact m' C r i e w.
Proof. intros Hm [H1 H2]. split; [done | ]. intros c x c' Hc. rewrite Hm. by apply H2. Qed.
Lemma ufold_ext {A B} (f g : B -> A -> UM B) l b c :
  (forall b x, x ∈ l -> forall c, f b x c = g b x c) -> ufold f l b c = ufold g l b c.
Proof.
  revert b c. induction l as [|x l IH]; intros b c H; [done | ]. cbn [ufold]. unfold ubind.
  rewrite H by left. destruct (g b x c) as [[b'|e|] c']; [ | done..]. apply IH. intros. apply H. by right.
Qed.

Lemma exact_chargeItems n : 0 <= n -> exact (chargeItems n) True tt n 0 0.
Proof.
  intros Hn. split; [done | ]. intros c x c' Hc.
  pose proof Hc as (H1 & H2 & H3 & H4 & (H5 & H6) & H7 & H8 & H9). unfold chargeItems, counter_fits, spend. cbn.
  destruct x. charge_cases; (split; [try (intros [= <-]); try done | try lia]).
  - split_and!; try done; try lia. f_equal; lia.
  - intros (_ & _ & -> & _). do 2 f_equal; lia.
Qed.
Lemma exact_chargeEmitted n : 0 <= n -> exact (chargeEmitted n) True tt 0 n 0.
Proof.
  intros Hn. split; [done | ]. intros c x c' Hc.
  pose proof Hc as (H1 & H2 & H3 & H4 & (H5 & H6) & H7 & H8 & H9). unfold chargeEmitted, counter_fits, spend. cbn.
  destruct x. charge_cases; (split; [try (intros [= <-]); try done | try lia]).
  - split_and!; try done; try lia. f_equal; lia.
  - intros (_ & _ & -> & _). do 2 f_equal; lia.
Qed.
Lemma exact_chargeWork n : 0 <= n -> exact (chargeWork n) True tt 0 0 n.
Proof.
  intros Hn. split; [done | ]. intros c x c' Hc.
  pose proof Hc as (H1 & H2 & H3 & H4 & (H5 & H6) & H7 & H8 & H9). unfold chargeWork, counter_fits, spend. cbn.
  destruct x. charge_cases; (split; [try (intros [= <-]); try done | try lia]).
  - split_and!; try done; try lia. f_equal; lia.
  - intros (_ & _ & -> & _). do 2 f_equal; lia.
Qed.

(** * The plan budgets as sums *)
Definition step_width (s : step) : Z :=
  if copyRange s is Some (start, end_) then end_ - start + 1 else 0.
Definition step_literals (s : step) : list bytes :=
  if copyRange s is Some _ then [] else st_data s.
Definition sumZ (l : list Z) : Z := foldr Z.add 0 l.

Definition budget_of (steps : list step) : planBudgetAccumulator :=
  MkBudget (len steps) (len (omap copyRange steps)) (sumZ (map step_width steps))
    (len (concat (map step_literals steps)))
    (sumZ (map len (concat (map step_literals steps)))).
Definition budget_add (b b' : planBudgetAccumulator) : planBudgetAccumulator :=
  MkBudget (pb_steps b + pb_steps b') (pb_ranges b + pb_ranges b') (pb_copied b + pb_copied b')
    (pb_dataStrings b + pb_dataStrings b') (pb_literalBytes b + pb_literalBytes b').
Definition budget_fits (l : Limits) (b : planBudgetAccumulator) : Prop :=
  pb_steps b <= MaxTotalSteps l /\ pb_ranges b <= MaxCopyRanges l /\
  pb_copied b <= MaxTotalCopiedItems l /\ pb_dataStrings b <= MaxDataStrings l /\
  pb_literalBytes b <= MaxTotalLiteralBytes l.
Definition budget_nonneg (b : planBudgetAccumulator) : Prop :=
  0 <= pb_steps b /\ 0 <= pb_ranges b /\ 0 <= pb_copied b /\ 0 <= pb_dataStrings b /\
  0 <= pb_literalBytes b.
(** The limits on single steps. *)
Definition step_fits (l : Limits) (s : step) : Prop :=
  step_width s <= MaxCopiedItemsPerRange l /\
  Forall (fun literal => len literal <= MaxDataStringBytes l) (step_literals s).

Lemma sumZ_app l k : sumZ (l ++ k) = sumZ l + sumZ k.
Proof. unfold sumZ. induction l as [|x l IH]; cbn; [done | lia]. Qed.
#[export] Instance sumZ_perm : Proper ((≡ₚ) ==> (=)) sumZ.
Proof. intros l k H. unfold sumZ. induction H; cbn; lia. Qed.
Lemma sumZ_len_nonneg {A} (l : list (list A)) : 0 <= sumZ (map len l).
Proof. induction l as [|x l IH]; cbn; [done | ]. pose proof (len_nonneg x). unfold sumZ in *. lia. Qed.
Lemma step_width_nonneg s : step_ok s -> 0 <= step_width s.
Proof. unfold step_ok, step_width. destruct (copyRange s) as [[? ?]|]; lia. Qed.
Lemma sumZ_width_nonneg steps : Forall step_ok steps -> 0 <= sumZ (map step_width steps).
Proof.
  induction 1 as [|s steps Hs _ IH]; [done | ]. apply step_width_nonneg in Hs.
  cbn. unfold sumZ in *. lia.
Qed.
Lemma budget_of_nonneg steps : Forall step_ok steps -> budget_nonneg (budget_of steps).
Proof.
  intros H. unfold budget_nonneg. cbn. auto using len_nonneg, sumZ_len_nonneg, sumZ_width_nonneg.
Qed.
Lemma budget_add_assoc a b c : budget_add (budget_add a b) c = budget_add a (budget_add b c).
Proof. unfold budget_add. cbn. f_equal; lia. Qed.
Lemma budget_add_0 b : budget_add b noBudget = b.
Proof. destruct b. unfold budget_add. cbn. f_equal; lia. Qed.
Lemma budget_of_cons s steps :
  budget_of (s :: steps) = budget_add (budget_of [s]) (budget_of steps).
Proof.
  unfold budget_of, budget_add. cbn [map concat omap list_omap pb_steps pb_ranges pb_copied pb_dataStrings pb_literalBytes].
  rewrite app_nil_r. f_equal.
  - apply len_app with (l := [s]).
  - destruct (copyRange s); [apply len_app with (l := [p]) | done].
  - cbn. unfold sumZ. cbn. lia.
  - apply len_app.
  - by rewrite map_app, sumZ_app.
Qed.

Lemma yields_addBudget d name limit total count :
  0 <= total -> 0 <= count -> limit <= MaxInt ->
  yields (addBudget d name limit total count) (total + count <= limit) (total + count).
Proof.
  intros Ht Hc Hl x. unfold addBudget.
  destruct (checkedAdd_cases total count Ht Hc) as [[? ->] | [? ->]]; cbn [negb orb].
  - destruct (Z.ltb_spec limit (total + count)); cbn.
    + split; [done | lia].
    + split; [intros [= <-]; split; lia | by intros [_ ->]].
  - split; [done | lia].
Qed.

Section budgets.
Context (l : Limits) (Hl : limits_ok l) (d : Dimension).

Definition literals_budget (data : list bytes) : planBudgetAccumulator :=
  MkBudget 0 0 0 (len data) (sumZ (map len data)).

Lemma yields_addLiterals data b :
  budget_nonneg b -> budget_fits l b ->
  yields (addLiterals data l d b)
    (Forall (fun literal => len literal <= MaxDataStringBytes l) data /\
     budget_fits l (budget_add b (literals_budget data)))
    (budget_add b (literals_budget data)).
Proof using Hl.
  limit_facts Hl. revert b. induction data as [|x data IH]; intros b Hn Hf; cbn [addLiterals].
  - change (literals_budget []) with noBudget. rewrite budget_add_0.
    eapply yields_conv; [apply yields_ret | by split | done].
  - pose proof Hn as (? & ? & ? & ? & ?). pose proof (len_nonneg x). pose proof (len_nonneg data).
    pose proof (sumZ_len_nonneg data).
    assert (budget_add b (literals_budget (x :: data)) =
      budget_add (MkBudget (pb_steps b) (pb_ranges b) (pb_copied b) (pb_dataStrings b + 1) (pb_literalBytes b + len x))
        (literals_budget data)) as ->
      by (unfold budget_add, literals_budget, sumZ; cbn; rewrite len_cons; f_equal; lia).
    eapply yields_conv.
    + eapply yields_bind; [apply yields_require | intros Hx].
      eapply yields_bind; [apply yields_addBudget; lia | intros Hy].
      eapply yields_bind; [apply yields_addBudget; lia | intros Hz].
      apply IH; [unfold budget_nonneg; cbn; lia | unfold budget_fits in *; cbn; lia].
    + rewrite Forall_cons. unfold budget_fits, literals_budget; cbn. rewrite negb_true_iff, Z.ltb_ge. intuition lia.
    + done.
Qed.

Lemma yields_addInstructions steps b :
  Forall step_ok steps -> budget_nonneg b -> budget_fits l b ->
  let b' := budget_add b (budget_add (MkBudget (- len steps) 0 0 0 0) (budget_of steps)) in
  yields (addInstructions steps l d b) (Forall (step_fits l) steps /\ budget_fits l b') b'.
Proof using Hl.
  limit_facts Hl. cbn zeta. intros Hok. revert b. induction Hok as [|s steps Hs Hok IH]; intros b Hn Hf.
  - change (budget_add _ (budget_of [])) with noBudget. rewrite budget_add_0.
    eapply yields_conv; [apply yields_ret | by split | done].
  - rewrite budget_of_cons, Forall_cons, len_cons. cbn [addInstructions].
    pose proof (budget_of_nonneg steps Hok) as (? & ? & ? & ? & ?). pose proof Hn as (? & ? & ? & ? & ?).
    unfold step_fits at 1. unfold step_ok in Hs. pose proof (len_nonneg steps).
    destruct (copyRange s) as [[start end_]|] eqn:Er; unfold step_width, step_literals; rewrite Er.
    + assert (budget_of [s] = MkBudget 1 1 (end_ - start + 1) 0 0) as ->
        by (unfold budget_of, step_width, step_literals; cbn; rewrite Er; cbn; f_equal; unfold sumZ; cbn; lia).
      eapply yields_conv.
      * eapply yields_bind; [apply yields_require | intros Hx].
        eapply yields_bind; [apply yields_addBudget; lia | intros Hy].
        eapply yields_bind; [apply yields_addBudget; lia | intros Hz].
        apply IH; [unfold budget_nonneg; cbn; lia | unfold budget_fits in *; cbn; lia].
      * unfold budget_fits in *. cbn in *. rewrite negb_true_iff, Z.ltb_ge, Forall_nil. intuition lia.
      * intros _. unfold budget_add. cbn. f_equal; lia.
    + assert (budget_of [s] = budget_add (MkBudget 1 0 0 0 0) (literals_budget (st_data s))) as ->
        by (unfold budget_of, step_width, step_literals; cbn; rewrite Er; cbn; by rewrite app_nil_r).
      pose proof (len_nonneg (st_data s)). pose proof (sumZ_len_nonneg (st_data s)).
      eapply yields_conv.
      * eapply yields_bind; [by apply yields_addLiterals | intros [_ Hx]].
        apply IH; [unfold budget_nonneg in *; cbn; lia | done].
      * unfold budget_fits in *. cbn in *. intuition lia.
      * intros _. unfold budget_add. cbn. f_equal; lia.
Qed.

Lemma yields_addSteps b steps :
  Forall step_ok steps -> budget_nonneg b -> budget_fits l b ->
  yields (addSteps b steps l d)
    (Forall (step_fits l) steps /\ budget_fits l (budget_add b (budget_of steps)))
    (budget_add b (budget_of steps)).
Proof using Hl.
  limit_facts Hl. intros Hok Hn Hf. unfold addSteps. pose proof Hn as (? & ? & ? & ? & ?).
  pose proof (len_nonneg steps). pose proof (budget_of_nonneg steps Hok) as (? & ? & ? & ? & ?).
  eapply yields_conv.
  - eapply yields_bind; [apply yields_addBudget; lia | intros Hy].
    apply yields_addInstructions; [done | unfold budget_nonneg; cbn; lia | unfold budget_fits in *; cbn; lia].
  - unfold budget_fits in *. cbn in *. intuition lia.
  - intros _. unfold budget_add. cbn. f_equal; lia.
Qed.
End budgets.

(** The budget of all the plans of a recipe. *)
Definition plans_budget (ps : list headerPlan) : planBudgetAccumulator :=
  foldr (fun p b => budget_add (budget_of (hp_steps p)) b) noBudget ps.

Lemma budget_add_nonneg b b' : budget_nonneg b -> budget_nonneg b' -> budget_nonneg (budget_add b b').
Proof. unfold budget_nonneg, budget_add. cbn. lia. Qed.
Lemma plans_budget_nonneg ps : Forall plan_ok ps -> budget_nonneg (plans_budget ps).
Proof.
  induction 1 as [|p ps (_ & _ & _ & Hp) _ IH]; [unfold budget_nonneg; cbn; lia | ].
  cbn [plans_budget foldr]. apply budget_add_nonneg; [by apply budget_of_nonneg | done].
Qed.
Lemma budget_fits_mono l b b' : budget_nonneg b' -> budget_fits l (budget_add b b') -> budget_fits l b.
Proof. unfold budget_nonneg, budget_fits, budget_add. cbn. lia. Qed.
Lemma no_budget_fits l : limits_ok l -> budget_fits l noBudget.
Proof. intros Hl. limit_facts Hl. unfold budget_fits. cbn. lia. Qed.
Lemma no_budget_nonneg : budget_nonneg noBudget.
Proof. unfold budget_nonneg. cbn. lia. Qed.

Lemma yields_addPlans l d ps b :
  limits_ok l -> Forall plan_ok ps -> budget_nonneg b -> budget_fits l b ->
  yields (addPlans ps l d b)
    (Forall (fun p => Forall (step_fits l) (hp_steps p)) ps /\ budget_fits l (budget_add b (plans_budget ps)))
    (budget_add b (plans_budget ps)).
Proof.
  intros Hl Hp. revert b. induction Hp as [|p ps Hp Hps IH]; intros b Hn Hf; cbn [addPlans plans_budget foldr].
  - rewrite budget_add_0. eapply yields_conv; [apply yields_ret | by split | done].
  - fold (plans_budget ps). rewrite <- budget_add_assoc. destruct Hp as (_ & _ & _ & Hp).
    assert (budget_nonneg (budget_add b (budget_of (hp_steps p)))) by by apply budget_add_nonneg, budget_of_nonneg.
    eapply yields_conv.
    + eapply yields_bind; [by apply yields_addSteps | intros [_ Hb]]. by apply IH.
    + rewrite Forall_cons. split; [ | tauto]. intros [[H1 H2] H3]. split_and!; try done.
      eapply budget_fits_mono; [ | exact H3]. by apply plans_budget_nonneg.
    + done.
Qed.

(** [validateAllPlanStepBudgets] accepts exactly the recipes whose steps and
    total expansion respect the limits. *)
Definition recipe_budget_fits (l : Limits) (r : Recipe) : Prop :=
  Forall (fun p => Forall (step_fits l) (hp_steps p)) (rc_headers r) /\
  Forall (step_fits l) (rc_bodySteps r) /\
  budget_fits l (budget_add (plans_budget (rc_headers r)) (budget_of (rc_bodySteps r))).

Lemma budget_0_add b : budget_add noBudget b = b.
Proof. by destruct b. Qed.

Lemma yields_validateAllPlanStepBudgets l d r :
  limits_ok l -> recipe_ok r ->
  yields (validateAllPlanStepBudgets r l d) (recipe_budget_fits l r) tt.
Proof.
  intros Hl (Hp & _ & Hs & _). unfold validateAllPlanStepBudgets, recipe_budget_fits.
  pose proof (no_budget_fits l Hl) as Hf. pose proof no_budget_nonneg as Hn.
  pose proof (plans_budget_nonneg _ Hp). pose proof (budget_of_nonneg _ Hs).
  eapply yields_conv.
  - eapply yields_bind; [by apply yields_addPlans | rewrite budget_0_add; intros [_ Hb]].
    eapply yields_bind; [by apply yields_addSteps | intros _]. apply yields_ret.
  - rewrite budget_0_add. split; [ | tauto]. intros (H1 & H2 & H3). split_and!; try done.
    by eapply budget_fits_mono.
  - done.
Qed.
