(* ===== verification/RecipeHeader.v ===== *)
(** * Package internal/recipe: application of the header dimension

    applier.go (construction) and apply_header.go.  Go maps keyed by canonical
    header names are finite maps keyed by the name's bytes; the slice of names
    is kept beside them, as in the code. *)

From stdpp Require Import gmap.
From S2P Require Import Prelude GoBytes RawMsg RawBody RawParser RawInsertion.
From S2P Require Import RecipeTypes RecipeUsage.
#[local] Open Scope Z_scope.

(** ** applier.go *)
Record Applier := MkApplier { ap_limits : Limits; ap_rawOptions : ParserOptions; ap_initialized : bool }.

Definition applierOptions (resolved : Limits) : ParserOptions :=
  MkOptions (MaxStateBytes resolved) (MaxHeaderBytes resolved) (MaxHeaderFields resolved)
    (MaxHeaderFieldBytes resolved) (MaxHeaderLineBytes resolved) (MaxBodyLineBytes resolved)
    (MaxBodyLines resolved) (OptLineEndingPolicy DefaultParserOptions)
    (RecordNormalizedInput DefaultParserOptions).

Definition NewApplier (limits : Limits) : outcome Error Applier :=
  let* resolved := Limits_normalized limits in
  check require (is_ret (ParserOptions_Validate (applierOptions resolved))) (invalidOptionsError "") ;;
  Ret (MkApplier resolved (applierOptions resolved) true).

Definition Applier_valid (a : Applier) : bool :=
  ap_initialized a && is_ret (Limits_Validate (ap_limits a))
  && is_ret (ParserOptions_Validate (ap_rawOptions a)).

(** ** apply_header.go *)
Definition applyLimitError (name : string) (limit actual : Z) : Error :=
  applicationLimitError DimensionHeader name limit actual.

(** [errors.As] finds the raw error itself; anything else is not a limit. *)
Definition mapRawApplicationError (e : ParserError) (dimension : Dimension) : Error :=
  if decide (err_code e = RawMsg.ErrorCodeLimitExceeded) then
    let limit := Limit (err_details e) in
    let (actual, ok) := checkedAdd limit 1 in
    applicationLimitError dimension (LimitName (err_details e)) limit
      (if ok then actual else limit)
  else invalidStateError.
Definition liftRaw {A} (m : outcome ParserError A) (dimension : Dimension) : outcome Error A :=
  match m with
  | Ret a => Ret a
  | Fail e => Fail (mapRawApplicationError e dimension)
  | Crash => Crash
  end.

Record headerOutput := MkHeaderOutput { encoded : list bytes; headerBytes : Z }.

(** The first physical line over the limit: its length, when there is one. *)
Fixpoint lineOverLoop (fuel : nat) (field : bytes) (limit : Z) : outcome Error (option Z) :=
  match fuel with
  | O => Crash
  | S fuel =>
      if len field =? 0 then Ret None
      else match bytes_index field crlf with
           | None => Ret (Some (len field))
           | Some end_ =>
               if limit <? Z.of_nat end_ then Ret (Some (Z.of_nat end_))
               else let* rest := slice_from field (end_ + 2) in lineOverLoop fuel rest limit
           end
  end.
Definition physicalHeaderLineLengthOver (field : bytes) (limit : Z) : outcome Error (option Z) :=
  lineOverLoop (S (length field)) field limit.

(** [addBudget]'s test with the header dimension, on a checked sum. *)
Definition checkSum (name : string) (limit : Z) (sum : Z * bool) : outcome Error Z :=
  check require (negb (negb sum.2 || (limit <? sum.1))) (applyLimitError name limit sum.1) ;;
  Ret sum.1.

Definition checkLines (field : bytes) (limit : Z) : outcome Error unit :=
  let* over := physicalHeaderLineLengthOver field limit in
  match over with
  | Some actual => Fail (applyLimitError "max_header_line_bytes" limit actual)
  | None => Ret tt
  end.

Section applier.
Context (a : Applier).
Abbreviation L := (ap_limits a).

(** The loop of validateHeaderPlanBudgets. *)
Fixpoint headerBudgetLoop (plans : list headerPlan) (totalNames : Z) (budget : planBudgetAccumulator)
    : outcome Error unit :=
  match plans with
  | [] => Ret tt
  | plan :: rest =>
      check require (negb (MaxHeaderNameBytes L <? len (hp_name plan)))
        (applyLimitError "max_header_name_bytes" (MaxHeaderNameBytes L) (len (hp_name plan))) ;;
      let* totalNames :=
        checkSum "max_total_header_name_bytes" (MaxTotalHeaderNameBytes L)
          (checkedAdd totalNames (len (hp_name plan))) in
      check require (negb (MaxStepsPerHeader L <? len (hp_steps plan)))
        (applyLimitError "max_steps_per_header" (MaxStepsPerHeader L) (len (hp_steps plan))) ;;
      let* budget := addSteps budget (hp_steps plan) L DimensionHeader in
      headerBudgetLoop rest totalNames budget
  end.
Definition validateHeaderPlanBudgets (recipe : Recipe) : outcome Error unit :=
  if negb (hasHeaderRecipe recipe) then Ret tt
  else
    check require (negb (MaxHeaderNames L <? len (rc_headers recipe)))
      (applyLimitError "max_header_names" (MaxHeaderNames L) (len (rc_headers recipe))) ;;
    headerBudgetLoop (rc_headers recipe) 0 noBudget.

(** The variables of collectHeaderGroups: groups, names, sourceOrder and
    totalNameBytes.  A headerGroup is the list of its fields. *)
Record groupIndex := MkGroups {
  gi_groups : gmap bytes (list bytes); gi_names : list bytes; gi_sourceOrder : list bytes;
  gi_nameBytes : Z }.

Definition collectField (g : groupIndex) (field : HeaderField) : UM groupIndex :=
  check! chargeItems 1 ;;
  let original := originalBytes field in
  check! urequire (negb (MaxHeaderFieldBytes L <? len original))
    (applyLimitError "max_header_field_bytes" (MaxHeaderFieldBytes L) (len original)) ;;
  check! ulift (checkLines original (MaxHeaderLineBytes L)) ;;
  let name := nameLower field in
  let! (names, nameBytes) := ulift
    match gi_groups g !! name with
    | Some _ => Ret (gi_names g, gi_nameBytes g)
    | None =>
        check require (negb (MaxHeaderNameBytes L <? len name))
          (applyLimitError "max_header_name_bytes" (MaxHeaderNameBytes L) (len name)) ;;
        check require (negb (MaxHeaderNames L <=? len (gi_names g)))
          (applyLimitError "max_header_names" (MaxHeaderNames L) (len (gi_names g) + 1)) ;;
        let* nameBytes :=
          checkSum "max_total_header_name_bytes" (MaxTotalHeaderNameBytes L)
            (checkedAdd (gi_nameBytes g) (len name)) in
        Ret (gi_names g ++ [name], nameBytes)
    end in
  let group := default [] (gi_groups g !! name) in
  uret (MkGroups (<[name := group ++ [original]]> (gi_groups g)) names
          (gi_sourceOrder g ++ [original]) nameBytes).

Definition collectHeaderGroups (h : HeaderBlock) : UM groupIndex :=
  check! urequire (negb (MaxHeaderFields L <? HeaderBlock_Len h))
    (applyLimitError "max_header_fields" (MaxHeaderFields L) (HeaderBlock_Len h)) ;;
  check! urequire (negb (MaxHeaderBytes L <? len (hb_originalBytes h)))
    (applyLimitError "max_header_bytes" (MaxHeaderBytes L) (len (hb_originalBytes h))) ;;
  ufold collectField (hb_fields h) (MkGroups ∅ [] [] 0).

(** [o.stateBytes]: the size and whether the sums overflowed. *)
Definition stateBytes (current : State) (headerBytes headerFields : Z) : Z * bool :=
  if negb (bool_decide (sta_availability current = BodyAvailabilityKnown)) then (headerBytes, true)
  else
    let base := Body_Len (sta_body current) in
    let (base, ok) :=
      if bool_decide (sta_framing current = MessageFramingDelimited)
         || (bool_decide (sta_framing current = MessageFramingHeaderOnly) && (headerFields =? 0))
      then checkedAdd base 2 else (base, true) in
    if negb ok then (base, false) else checkedAdd headerBytes base.

Section output.
Context (current : State) (enforceState : bool).

Definition checkStateBytes (headerBytes headerFields : Z) : outcome Error unit :=
  if enforceState then
    let* _ := checkSum "max_state_bytes" (MaxStateBytes L) (stateBytes current headerBytes headerFields) in
    Ret tt
  else Ret tt.

(** [reserveField] returns the new headerBytes. *)
Definition reserveField (o : headerOutput) (length : Z) (field : option bytes) : UM Z :=
  let! nextFields := ulift
    (checkSum "max_header_fields" (MaxHeaderFields L) (checkedAdd (len (encoded o)) 1)) in
  check! urequire (negb (MaxHeaderFieldBytes L <? length))
    (applyLimitError "max_header_field_bytes" (MaxHeaderFieldBytes L) length) ;;
  check! ulift (match field with Some f => checkLines f (MaxHeaderLineBytes L) | None => Ret tt end) ;;
  let! nextHeaderBytes := ulift
    (checkSum "max_header_bytes" (MaxHeaderBytes L) (checkedAdd (headerBytes o) length)) in
  check! ulift (checkStateBytes nextHeaderBytes nextFields) ;;
  check! chargeItems 1 ;;
  check! chargeEmitted length ;;
  uret nextHeaderBytes.

Definition appendField (o : headerOutput) (field : bytes) : UM headerOutput :=
  let! headerBytes := reserveField o (len field) (Some field) in
  uret (MkHeaderOutput (encoded o ++ [field]) headerBytes).

Definition appendData (name : bytes) (o : headerOutput) (literal : bytes) : UM headerOutput :=
  let (nameAndColon, ok) := checkedAdd (len name) 1 in
  check! urequire ok (applyLimitError "max_header_line_bytes" (MaxHeaderLineBytes L) nameAndColon) ;;
  let! lineLength := ulift
    (checkSum "max_header_line_bytes" (MaxHeaderLineBytes L) (checkedAdd nameAndColon (len literal))) in
  let (fieldLength, ok) := checkedAdd lineLength 2 in
  check! urequire ok (applyLimitError "max_header_field_bytes" (MaxHeaderFieldBytes L) fieldLength) ;;
  let! headerBytes := reserveField o fieldLength None in
  let field := name ++ [x3a] ++ literal ++ [CR; LF] in
  uret (MkHeaderOutput (encoded o ++ [field]) headerBytes).

(** The inner copy loop: occurrence runs from [end_] down to [start]. *)
Definition copyOccurrence (group : list bytes) (o : headerOutput) (occurrence : Z) : UM headerOutput :=
  match (if occurrence <=? len group then group !! Z.to_nat (len group - occurrence) else None) with
  | None => ulift Crash
  | Some field => appendField o field
  end.

(** One step of appendHeaderPlan; the state is (output, totalCopied). *)
Definition planStep (group : list bytes) (name : bytes) (st : headerOutput * Z) (x : Z * step)
    : UM (headerOutput * Z) :=
  let '(output, totalCopied) := st in
  let '(stepIndex, instruction) := x in
  match copyRange instruction with
  | Some (start, end_) =>
      let count := end_ - start + 1 in
      check! urequire (negb (len group <? end_))
        (newError ErrorCodeCopyRangeOutOfBounds (MkLoc 0 stepIndex 0 0 0)
           (MkDetails ErrorClassRange "" (len group) end_ DimensionHeader StepKindCopy)) ;;
      check! urequire (negb (MaxCopiedItemsPerRange L <? count))
        (applyLimitError "max_copied_items_per_range" (MaxCopiedItemsPerRange L) count) ;;
      let! nextCopied := ulift
        (checkSum "max_total_copied_items" (MaxTotalCopiedItems L) (checkedAdd totalCopied count)) in
      check! chargeItems count ;;
      let! output := ufold (copyOccurrence group) (reverse (seqZ start count)) output in
      uret (output, nextCopied)
  | None =>
      let! output := ufold (appendData name) (reverse (st_data instruction)) output in
      uret (output, totalCopied)
  end.
Definition appendHeaderPlan (group : list bytes) (plan : headerPlan) (st : headerOutput * Z)
    : UM (headerOutput * Z) :=
  ufold (planStep group (hp_name plan))
    (reverse (zip (seqZ 0 (len (hp_steps plan))) (hp_steps plan))) st.

Definition finish (o : headerOutput) : UM State := ulift (
  check checkStateBytes (headerBytes o) (len (encoded o)) ;;
  let* headers := liftRaw (NewReconstructedHeaderBlock (encoded o) (ap_rawOptions a)) DimensionHeader in
  if decide (sta_availability current = BodyAvailabilityUnavailable) then newUnavailableState headers
  else
    let framing :=
      if bool_decide (sta_framing current = MessageFramingHeaderOnly) && (HeaderBlock_Len headers =? 0)
      then MessageFramingDelimited else sta_framing current in
    newKnownState headers (sta_body current) framing).
End output.

(** ** Insertion sort of the names, one work unit per comparison.
    [insertName] is the inner loop on the reversed sorted prefix. *)
Fixpoint insertName (candidate : bytes) (prefix : list bytes) : UM (list bytes) :=
  match prefix with
  | [] => uret [candidate]
  | previous :: rest =>
      check! chargeWork 1 ;;
      if negb (bytes_ltb candidate previous) then uret (candidate :: previous :: rest)
      else let! rest := insertName candidate rest in uret (previous :: rest)
  end.
Definition sortHeaderNames (names : list bytes) : UM (list bytes) :=
  match names with
  | [] => uret []
  | first :: rest =>
      let! sorted := ufold (fun prefix candidate => insertName candidate prefix) rest [first] in
      uret (reverse sorted)
  end.

(** The loop over recipe.headers: plans, groups, names and nameBytes. *)
Record planIndex := MkPlans {
  pi_plans : gmap bytes headerPlan; pi_groups : gmap bytes (list bytes); pi_names : list bytes;
  pi_nameBytes : Z }.
Definition indexPlan (x : planIndex) (plan : headerPlan) : UM planIndex :=
  let plans := <[hp_canonicalName plan := plan]> (pi_plans x) in
  match pi_groups x !! hp_canonicalName plan with
  | Some _ => uret (MkPlans plans (pi_groups x) (pi_names x) (pi_nameBytes x))
  | None =>
      check! urequire (negb (MaxHeaderNames L <=? len (pi_names x)))
        (applyLimitError "max_header_names" (MaxHeaderNames L) (len (pi_names x) + 1)) ;;
      let! nextNameBytes := ulift
        (checkSum "max_total_header_name_bytes" (MaxTotalHeaderNameBytes L)
           (checkedAdd (pi_nameBytes x) (len (hp_name plan)))) in
      uret (MkPlans plans (<[hp_canonicalName plan := []]> (pi_groups x))
              (pi_names x ++ [hp_canonicalName plan]) nextNameBytes)
  end.

(** One name of the emission loop. *)
Definition emitName (current : State) (enforceState : bool) (groups : gmap bytes (list bytes))
    (plans : gmap bytes headerPlan) (st : headerOutput * Z) (canonicalName : bytes)
    : UM (headerOutput * Z) :=
  let group := default [] (groups !! canonicalName) in
  match plans !! canonicalName with
  | None =>
      let! output := ufold (appendField current enforceState) group st.1 in
      uret (output, st.2)
  | Some plan => appendHeaderPlan current enforceState group plan st
  end.

Definition applyHeadersUsing (current : State) (recipe : Recipe) (enforceState : bool) : UM State :=
  check! urequire (Applier_valid a && State_Valid current && Recipe_Valid recipe) invalidStateError ;;
  check! ulift (validateHeaderPlanBudgets recipe) ;;
  let! g := collectHeaderGroups (sta_headers current) in
  let output := MkHeaderOutput [] 0 in
  if negb (hasHeaderRecipe recipe) then
    let! output := ufold (appendField current enforceState) (gi_sourceOrder g) output in
    finish current enforceState output
  else
    let! x := ufold indexPlan (rc_headers recipe)
                (MkPlans ∅ (gi_groups g) (gi_names g) (gi_nameBytes g)) in
    let! names := sortHeaderNames (pi_names x) in
    let! (output, _) :=
      ufold (emitName current enforceState (pi_groups x) (pi_plans x)) names (output, 0) in
    finish current enforceState output.
End applier.

(** * Appliers built by [NewApplier] *)
Lemma applierOptions_valid l : limits_ok l -> ParserOptions_Validate (applierOptions l) = Ret tt.
Proof.
  intros [Hf _]. unfold limitValues in Hf.
  repeat match type of Hf with
  | Forall2 _ (_ :: _) (_ :: _) => let F := fresh "F" in apply Forall2_cons in Hf as [F Hf]
  end. cbn in *.
  unfold ParserOptions_Validate, applierOptions. cbn [RawMsg.MaxMessageBytes RawMsg.MaxHeaderBytes
    RawMsg.MaxHeaderFields RawMsg.MaxHeaderFieldBytes RawMsg.MaxHeaderLineBytes RawMsg.MaxBodyLineBytes
    RawMsg.MaxBodyLines RawMsg.OptLineEndingPolicy RawMsg.RecordNormalizedInput].
  repeat (rewrite (proj2 (Z.ltb_lt _ _)) by lia; cbn [require obind]).
  rewrite (proj2 (Z.leb_le _ _)) by (unfold defaultMaxHeaderLineBytes in *; lia). cbn [require obind].
  repeat (rewrite (proj2 (Z.ltb_lt _ _)) by lia; cbn [require obind]).
  rewrite (proj2 (Z.leb_le _ _)) by (unfold defaultMaxBodyLineBytes in *; lia). cbn [require obind].
  repeat (rewrite (proj2 (Z.ltb_lt _ _)) by lia; cbn [require obind]).
  rewrite (proj2 (Z.leb_le _ _)) by (unfold defaultMaxBodyLines in *; lia). done.
Qed.

(** [applier_ok a]: [a] came out of [NewApplier]. *)
Definition applier_ok (a : Applier) : Prop :=
  limits_ok (ap_limits a) /\ ap_rawOptions a = applierOptions (ap_limits a) /\ ap_initialized a = true.

Lemma NewApplier_ok l a :
  NewApplier l = Ret a <-> 
  Forall2 (fun v d => 0 <= v <= d) (limitValues l) (limitValues DefaultLimits) /\
  limits_ok (resolve_limits l) /\
  a = MkApplier (resolve_limits l) (applierOptions (resolve_limits l)) true.
Proof.
  unfold NewApplier. split.
  - intros (l' & (H1 & H2 & ->)%normalized_spec & H)%obind_ret_inv.
    rewrite applierOptions_valid in H by done. by injection H as <-.
  - intros (H1 & H2 & ->). rewrite (proj2 (normalized_spec l (resolve_limits l))) by done.
    cbn [obind]. by rewrite applierOptions_valid.
Qed.
Lemma NewApplier_applier_ok l a : NewApplier l = Ret a -> applier_ok a.
Proof. intros (_ & H & ->)%NewApplier_ok. done. Qed.

Lemma applier_ok_valid a : applier_ok a -> Applier_valid a = true.
Proof.
  intros (Hl & Ho & Hi). unfold Applier_valid, Limits_Validate.
  rewrite Hi, Ho, normalized_resolved, applierOptions_valid by done. done.
Qed.
Lemma applier_ok_counter a : applier_ok a -> newUsageCounter (ap_limits a) = Ret (MkCounter (ap_limits a) 0 0 0 0).
Proof. intros (Hl & _). unfold newUsageCounter. by rewrite normalized_resolved. Qed.
Lemma counter_start l : limits_ok l -> counter_ok (MkCounter l 0 0 0 0).
Proof. intros Hl. limit_facts Hl. unfold counter_ok, counter_fits. cbn. lia. Qed.
