(* ===== verification/RecipeBody.v ===== *)
(** * Package internal/recipe: application of the body dimension, and Apply

    apply_body.go and the Apply and ApplyHistorical methods of applier.go. *)

From S2P Require Import Prelude GoBytes RawMsg RawBody RawParser RawInsertion.
From S2P Require Import RecipeTypes RecipeUsage RecipeHeader.
#[local] Open Scope Z_scope.

(** ** apply_body.go *)
Definition bodyLimitError (name : string) (limit actual : Z) : Error :=
  applicationLimitError DimensionBody name limit actual.

Definition checkBodySum (name : string) (limit : Z) (sum : Z * bool) : outcome Error Z :=
  check require (negb (negb sum.2 || (limit <? sum.1))) (bodyLimitError name limit sum.1) ;;
  Ret sum.1.

(** [bodyOutput]: the bytes and the number of lines. *)
Record bodyOutput := MkBodyOutput { bo_bytes : bytes; bo_lines : Z }.

Definition recipeHasBodyCopy (recipe : Recipe) : bool :=
  existsb (fun s => if copyRange s is Some _ then true else false) (rc_bodySteps recipe).

(** The first loop of validateBodyCopySources: bounds and emission count. *)
Definition countEmission (lineCount maxBodyLines : Z) (emissions : Z) (instruction : step) : UM Z :=
  match copyRange instruction with
  | Some (start, end_) =>
      check! urequire (negb (lineCount <? end_))
        (newError ErrorCodeCopyRangeOutOfBounds noLoc
           (MkDetails ErrorClassRange "" lineCount end_ DimensionBody StepKindCopy)) ;;
      check! chargeItems (end_ - start + 1) ;;
      ulift (checkBodySum "max_body_lines" maxBodyLines (checkedAdd emissions (end_ - start + 1)))
  | None =>
      ulift (checkBodySum "max_body_lines" maxBodyLines (checkedAdd emissions (len (st_data instruction))))
  end.

(** The second loop: an unterminated line may only be emitted last.  A line
    missing from the index reads as the zero view, whose width is 0. *)
Fixpoint checkTerminated (lines : BodyLineIndex) (numbers : list Z) (emissions stepIndex ordinal : Z)
    : outcome Error Z :=
  match numbers with
  | [] => Ret ordinal
  | number :: rest =>
      let width := from_option lineEndingWidth 0 (lines !! Z.to_nat (number - 1)) in
      check require (negb ((width =? 0) && negb (ordinal =? emissions - 1)))
        (newError ErrorCodeInvalidState (MkLoc 0 stepIndex 0 0 number)
           (detailsOf DimensionBody StepKindCopy)) ;;
      let (ordinal, ok) := checkedAdd ordinal 1 in
      check require ok invalidStateError ;;
      checkTerminated lines rest emissions stepIndex ordinal
  end.
Fixpoint checkTerminatedSteps (lines : BodyLineIndex) (steps : list step)
    (emissions stepIndex ordinal : Z) : outcome Error unit :=
  match steps with
  | [] => Ret tt
  | instruction :: rest =>
      let* ordinal :=
        match copyRange instruction with
        | Some (start, end_) =>
            checkTerminated lines (seqZ start (end_ - start + 1)) emissions stepIndex ordinal
        | None =>
            let (ordinal, ok) := checkedAdd ordinal (len (st_data instruction)) in
            check require ok invalidStateError ;; Ret ordinal
        end in
      checkTerminatedSteps lines rest emissions (stepIndex + 1) ordinal
  end.
Definition validateBodyCopySources (recipe : Recipe) (lines : BodyLineIndex) (maxBodyLines : Z)
    : UM unit :=
  let! emissions := ufold (countEmission (len lines) maxBodyLines) (rc_bodySteps recipe) 0 in
  ulift (checkTerminatedSteps lines (rc_bodySteps recipe) emissions 0 0).

Section applier.
Context (a : Applier).
Abbreviation L := (ap_limits a).

Definition validateBodyPlanBudgets (recipe : Recipe) : outcome Error unit :=
  check require (negb (MaxBodySteps L <? len (rc_bodySteps recipe)))
    (bodyLimitError "max_body_steps" (MaxBodySteps L) (len (rc_bodySteps recipe))) ;;
  validateAllPlanStepBudgets recipe L DimensionBody.

Definition preflightLine (_ : unit) (line : BodyLine) : UM unit :=
  check! chargeItems 1 ;;
  let length := endOffset line - startOffset line in
  urequire (negb (MaxBodyLineBytes L <? length))
    (bodyLimitError "max_body_line_bytes" (MaxBodyLineBytes L) length).
Definition preflightKnownBodySource (current : State) (recipe : Recipe) : UM BodyLineIndex :=
  check! urequire (bool_decide (sta_availability current = BodyAvailabilityKnown)) invalidStateError ;;
  let lineCount := Body_LineCount (sta_body current) in
  check! urequire (negb (MaxBodyLines L <? lineCount))
    (bodyLimitError "max_body_lines" (MaxBodyLines L) lineCount) ;;
  let lines := body_lines (sta_body current) in
  check! ufold preflightLine lines tt ;;
  check! (if bool_decide (rc_bodyMode recipe = BodyModeSteps)
          then validateBodyCopySources recipe lines (MaxBodyLines L) else uret tt) ;;
  uret lines.

Section output.
Context (state : State).

(** [reserveLine] returns the new line count. *)
Definition reserveLine (o : bodyOutput) (length : Z) : UM Z :=
  let! nextLines := ulift
    (checkBodySum "max_body_lines" (MaxBodyLines L) (checkedAdd (bo_lines o) 1)) in
  let (nextBytes, ok) := checkedAdd (len (bo_bytes o)) length in
  check! urequire ok (bodyLimitError "max_state_bytes" (MaxStateBytes L) nextBytes) ;;
  let (stateBytes, ok) := checkedAdd (len (hb_originalBytes (sta_headers state))) 2 in
  check! urequire ok (bodyLimitError "max_state_bytes" (MaxStateBytes L) stateBytes) ;;
  let! _ := ulift
    (checkBodySum "max_state_bytes" (MaxStateBytes L) (checkedAdd stateBytes nextBytes)) in
  check! chargeItems 1 ;;
  check! chargeEmitted length ;;
  uret nextLines.

Definition appendBodyData (o : bodyOutput) (literal : bytes) : UM bodyOutput :=
  let (length, ok) := checkedAdd (len literal) 2 in
  check! urequire (negb (negb ok || (MaxBodyLineBytes L <? len literal)))
    (bodyLimitError "max_body_line_bytes" (MaxBodyLineBytes L) (len literal)) ;;
  let! nextLines := reserveLine o length in
  uret (MkBodyOutput (bo_bytes o ++ literal ++ [CR; LF]) nextLines).

(** A nil error of the raw layer is the only case [LineBytes] has here. *)
Definition appendSourceLine (body : Body) (o : bodyOutput) (lineIndex : Z) : UM bodyOutput :=
  match Body_LineEncodedLen body lineIndex with
  | None => ufail invalidStateError
  | Some length =>
      let! nextLines := reserveLine o length in
      match Body_LineBytes body lineIndex with
      | Ret (Some line) =>
          check! urequire (len line =? length) invalidStateError ;;
          uret (MkBodyOutput (bo_bytes o ++ line) nextLines)
      | Ret None | Fail _ => ufail invalidStateError
      | Crash => ulift Crash
      end
  end.

Definition finishBody (framing : MessageFraming) (o : bodyOutput) : UM State := ulift (
  let separator := if bool_decide (framing = MessageFramingDelimited) then 2 else 0 in
  let (stateBytes, ok) := checkedAdd (len (hb_originalBytes (sta_headers state))) separator in
  check require ok (bodyLimitError "max_state_bytes" (MaxStateBytes L) stateBytes) ;;
  let* _ := checkBodySum "max_state_bytes" (MaxStateBytes L) (checkedAdd stateBytes (len (bo_bytes o))) in
  let* body := liftRaw (NewReconstructedBody (bo_bytes o) (ap_rawOptions a)) DimensionBody in
  newKnownState (sta_headers state) body framing).

Definition emitBodyStep (o : bodyOutput) (instruction : step) : UM bodyOutput :=
  match copyRange instruction with
  | Some (start, end_) =>
      ufold (fun o lineNumber => appendSourceLine (sta_body state) o (lineNumber - 1))
        (seqZ start (end_ - start + 1)) o
  | None => ufold appendBodyData (st_data instruction) o
  end.

Definition emitBodyData (recipe : Recipe) : UM State :=
  let! o := ufold (fun o instruction => ufold appendBodyData (st_data instruction) o)
              (rc_bodySteps recipe) (MkBodyOutput [] 0) in
  finishBody MessageFramingDelimited o.
End output.

Definition checkHeaderStateBytes (h : HeaderBlock) : outcome Error unit :=
  require (negb (MaxStateBytes L <? len (hb_originalBytes h)))
    (bodyLimitError "max_state_bytes" (MaxStateBytes L) (len (hb_originalBytes h))).

Definition sourceUnavailableError : Error :=
  newError ErrorCodeSourceUnavailable noLoc (detailsOf DimensionBody StepKindCopy).

Definition applyBodyUsing (current : State) (recipe : Recipe) (sourcePrepared : bool) : UM State :=
  check! urequire (Applier_valid a && State_Valid current && Recipe_Valid recipe) invalidStateError ;;
  check! ulift (validateBodyPlanBudgets recipe) ;;
  if decide (rc_bodyMode recipe = BodyModeUnavailable) then
    ulift (check checkHeaderStateBytes (sta_headers current) ;; newUnavailableState (sta_headers current))
  else if bool_decide (rc_bodyMode recipe = BodyModeAbsent)
          && bool_decide (sta_availability current = BodyAvailabilityUnavailable) then
    ulift (check checkHeaderStateBytes (sta_headers current) ;; Ret current)
  else if decide (sta_availability current = BodyAvailabilityUnavailable) then
    if recipeHasBodyCopy recipe then ufail sourceUnavailableError
    else emitBodyData current recipe
  else
    check! (if sourcePrepared then uret tt
            else let! _ := preflightKnownBodySource current recipe in uret tt) ;;
    let framing :=
      if bool_decide (rc_bodyMode recipe = BodyModeSteps) then MessageFramingDelimited
      else sta_framing current in
    let! o :=
      if decide (rc_bodyMode recipe = BodyModeAbsent) then
        ufold (appendSourceLine current (sta_body current))
          (seqZ 0 (Body_LineCount (sta_body current))) (MkBodyOutput [] 0)
      else ufold (emitBodyStep current) (rc_bodySteps recipe) (MkBodyOutput [] 0) in
    finishBody current framing o.

(** ** applier.go: Apply and ApplyHistorical
    The usage is returned with every outcome but the failure to build the
    counter, which returns the zero usage. *)
Definition withUsage (m : UM State) : outcome Error State * Usage :=
  match newUsageCounter L with
  | Ret c => let '(r, c) := m c in (r, usageCounter_usage c)
  | Fail e => (Fail e, noUsage)
  | Crash => (Crash, noUsage)
  end.

Definition Apply (current : State) (recipe : Recipe) : outcome Error State * Usage :=
  withUsage (
    check! urequire (Applier_valid a && State_Valid current && Recipe_Valid recipe) invalidStateError ;;
    check! ulift (validateHeaderPlanBudgets a recipe) ;;
    check! ulift (validateBodyPlanBudgets recipe) ;;
    check! urequire (negb (bool_decide (sta_availability current = BodyAvailabilityUnavailable)
                           && recipeHasBodyCopy recipe)) sourceUnavailableError ;;
    let! sourcePrepared :=
      if bool_decide (sta_availability current = BodyAvailabilityKnown)
         && negb (bool_decide (rc_bodyMode recipe = BodyModeUnavailable))
      then let! _ := preflightKnownBodySource current recipe in uret true
      else uret false in
    let enforceHeaderState := bool_decide (rc_bodyMode recipe = BodyModeAbsent) in
    let! headerState := applyHeadersUsing a current recipe enforceHeaderState in
    applyBodyUsing headerState recipe sourcePrepared).

Definition ApplyHistorical (current : State) (recipe : Recipe) : outcome Error State * Usage :=
  if negb (bool_decide (State_BodyState current = BodyAvailabilityUnavailable))
     || negb (recipeHasBodyCopy recipe) then Apply current recipe
  else
    withUsage (
      check! urequire (Applier_valid a && State_Valid current && Recipe_Valid recipe) invalidStateError ;;
      check! ulift (validateHeaderPlanBudgets a recipe) ;;
      check! ulift (validateBodyPlanBudgets recipe) ;;
      let! headerState := applyHeadersUsing a current recipe false in
      check! urequire (bool_decide (State_BodyState headerState = BodyAvailabilityUnavailable))
        invalidStateError ;;
      uret headerState).
End applier.
