(* ===== verification/RecipeHeaderSpec.v ===== *)
(** * The header dimension of a recipe application meets its specification

    [applyHeadersUsing_exact] characterises success, result and charged work
    of header application on every well-formed state. *)

From stdpp Require Import sorting gmap.
From S2P Require Import Prelude GoBytes RawMsg RawBody RawParser RawSpec RawInsertion RecipeTypes RecipeUsage RecipeHeader.
#[local] Open Scope Z_scope.

(** ** Specification of recipe application

    A reconstruction state is a list of complete header fields and, when the
    body is known, its framing and lines.  A recipe turns it into another one:
    fields are grouped by name, the names are put in ascending order, and every
    group a plan names is rebuilt from the plan's steps, its fields numbered
    from the bottom; body lines are numbered from the top. *)
Record state_spec := MkSS {
  ss_fields : list field_spec; ss_body : option (MessageFraming * (list bytes * bytes)) }.

Definition wf_state (s : state_spec) : Prop :=
  Forall wf_field (ss_fields s) /\
  match ss_body s with
  | None => True
  | Some (framing, (ls, last)) =>
      Forall plain ls /\ plain last /\ MessageFraming_Known framing = true /\
      (framing = MessageFramingHeaderOnly -> ss_fields s <> [] /\ ls = [] /\ last = [])
  end.

Definition state_of (s : state_spec) : State :=
  match ss_body s with
  | None => MkState (block_of (ss_fields s)) emptyBody BodyAvailabilityUnavailable
              MessageFramingDelimited true
  | Some (framing, (ls, last)) =>
      MkState (block_of (ss_fields s)) (body_of ls last) BodyAvailabilityKnown framing true
  end.

(** The state of a parsed message. *)
Definition state_of_msg (m : msg_spec) : state_spec :=
  MkSS (ms_fields m)
    (Some (framing_of m, match ms_body m with Some b => b | None => ([], []) end)).

(** ** The header dimension *)
Definition rname (f : field_spec) : bytes := lowerASCII (fs_name f).
Definition group (n : bytes) (fs : list field_spec) : list field_spec :=
  filter (fun f => rname f = n) fs.

(** What one step of the plan for name [n] emits, bottom field first; the
    group is given bottom field first. *)
Definition step_fields (n : bytes) (bottomUp : list field_spec) (s : step) : option (list field_spec) :=
  match copyRange s with
  | Some (start, end_) =>
      if end_ <=? len bottomUp
      then Some (take (Z.to_nat (end_ - start + 1)) (drop (Z.to_nat (start - 1)) bottomUp))
      else None
  | None => Some (map (fun literal => MkFS n literal []) (st_data s))
  end.
Definition plan_fields (fs : list field_spec) (p : headerPlan) : option (list field_spec) :=
  emitted ← mapM (step_fields (hp_name p) (reverse (group (hp_canonicalName p) fs))) (hp_steps p);
  Some (reverse (concat emitted)).

(** The distinct names in order of first occurrence. *)
Definition add_name (ns : list bytes) (n : bytes) : list bytes :=
  if decide (n ∈ ns) then ns else ns ++ [n].
Definition distinct_names (ns : list bytes) : list bytes := foldl add_name [] ns.

Definition plan_for (r : Recipe) (n : bytes) : option headerPlan :=
  List.find (fun p => bool_decide (hp_canonicalName p = n)) (rc_headers r).

Definition all_names (r : Recipe) (fs : list field_spec) : list bytes :=
  distinct_names (map rname fs ++ map hp_canonicalName (rc_headers r)).
#[export] Instance bytes_le_dec a b : Decision (bytes_le a b) := decide (bytes_ltb b a = false).
(** The names in ascending order. *)
Definition sorted_names (ns : list bytes) : list bytes :=
  merge_sort bytes_le ns.

Definition named_fields (r : Recipe) (fs : list field_spec) (n : bytes) : option (list field_spec) :=
  match plan_for r n with
  | None => Some (group n fs)
  | Some p => plan_fields fs p
  end.

Definition reconstruct_fields (r : Recipe) (fs : list field_spec) : option (list field_spec) :=
  if hasHeaderRecipe r then
    (fun ls => concat ls) <$> mapM (named_fields r fs) (sorted_names (all_names r fs))
  else Some fs.

(** ** The body dimension: lines as (content, terminator width) *)
Definition step_segments (source : list (bytes * Z)) (s : step) : option (list (bytes * Z)) :=
  match copyRange s with
  | Some (start, end_) =>
      if end_ <=? len source
      then Some (take (Z.to_nat (end_ - start + 1)) (drop (Z.to_nat (start - 1)) source))
      else None
  | None => Some (map (fun literal => (literal, 2)) (st_data s))
  end.
(** An unterminated line may only come last. *)
Fixpoint join_segments (segs : list (bytes * Z)) : option (list bytes * bytes) :=
  match segs with
  | [] => Some ([], [])
  | [(l, 0)] => Some ([], l)
  | (l, 0) :: _ => None
  | (l, _) :: rest => '(ls, last) ← join_segments rest; Some (l :: ls, last)
  end.
Definition reconstruct_body (steps : list step) (source : list (bytes * Z))
    : option (list bytes * bytes) :=
  segs ← mapM (step_segments source) steps;
  join_segments (concat segs).

Definition source_segments (s : state_spec) : list (bytes * Z) :=
  match ss_body s with Some (_, (ls, last)) => segments ls last | None => [] end.

Definition body_framing (framing : MessageFraming) (fs : list field_spec) : MessageFraming :=
  if decide (framing = MessageFramingHeaderOnly /\ fs = []) then MessageFramingDelimited else framing.

(** ** Both dimensions *)
Definition reconstruct (r : Recipe) (s : state_spec) : option state_spec :=
  fs ← reconstruct_fields r (ss_fields s);
  match rc_bodyMode r with
  | BodyModeUnavailable => Some (MkSS fs None)
  | BodyModeSteps =>
      b ← reconstruct_body (rc_bodySteps r) (source_segments s);
      Some (MkSS fs (Some (MessageFramingDelimited, b)))
  | _ =>
      Some (MkSS fs (match ss_body s with
                     | Some (framing, b) => Some (body_framing framing fs, b)
                     | None => None
                     end))
  end.

(** ** Specified states are valid states *)
Lemma state_of_Valid ss : wf_state ss -> State_Valid (state_of ss) = true.
Proof.
  intros Hss. destruct Hss as [_ Hb]. unfold State_Valid, state_of. destruct (ss_body ss) as [[framing [ls last]]|]; [ | done].
  destruct Hb as (_ & _ & Hk & Hho). cbn [sta_initialized sta_headers sta_body sta_availability sta_framing
    block_of hb_initialized body_of body_initialized BodyAvailability_Known negb orb andb]. rewrite Hk. cbn [negb].
  destruct (decide _) as [_|?]; [ | done]. destruct framing; [ | done | done].
  destruct (Hho eq_refl) as (Hne & -> & ->). rewrite bool_decide_eq_true_2 by done. cbn [negb orb].
  rewrite andb_true_r. apply Z.ltb_lt. unfold HeaderBlock_Len.
  assert (forall h, len (hb_fields (block_of h)) = len h) as Hlen by (intros; apply len_fields_of).
  specialize (Hlen (ss_fields ss)). cbn [hb_fields block_of] in *. rewrite Hlen.
  destruct (ss_fields ss); [done | ]. rewrite len_cons. pose proof (len_nonneg l). lia.
Qed.

Lemma group_wf n fs : Forall wf_field fs -> Forall wf_field (group n fs).
Proof.
  rewrite !list.Forall_forall. intros H f Hf. apply H. unfold group in Hf.
  by apply list_elem_of_filter in Hf as [_ ?].
Qed.

(** ** Physical lines *)
Lemma lineOverLoop_spec fuel ls limit :
  Forall plain ls -> (length (unlines ls) < fuel)%nat ->
  exists o, lineOverLoop fuel (unlines ls) limit = Ret o /\
    (o = None <-> Forall (fun l => len l <= limit) ls).
Proof.
  intros Hls. revert fuel. induction Hls as [|l ls Hl _ IH]; intros fuel Hfuel; (destruct fuel as [|fuel]; [lia | ]).
  - exists None. split; [done | ]. by split; [constructor | ].
  - cbn [lineOverLoop]. rewrite (proj2 (Z.eqb_neq _ _)).
    2: { rewrite len_unlines_cons. pose proof (len_nonneg l). pose proof (len_nonneg (unlines ls)). lia. }
    rewrite unlines_cons, bytes_index_plain by done. fold (len l).
    destruct (Z.ltb_spec limit (len l)) as [Hlt|Hle].
    + exists (Some (len l)). split; [done | ]. split; [done | ]. intros [H _]%Forall_cons. lia.
    + assert (length (unlines ls) < fuel)%nat as Hf.
      { rewrite unlines_cons in Hfuel. rewrite !length_app in Hfuel. cbn in Hfuel. lia. }
      destruct (IH fuel Hf) as (o & Ho & Hio). exists o. split.
      * rewrite app_assoc, slice_from_app by (rewrite length_app; cbn; lia). cbn [obind]. done.
      * rewrite Hio, Forall_cons. by split; [ | intros [_ ?]].
Qed.

Lemma yields_checkLines ls limit :
  Forall plain ls -> yields (checkLines (unlines ls) limit) (Forall (fun l => len l <= limit) ls) tt.
Proof.
  intros Hls. unfold checkLines, physicalHeaderLineLengthOver.
  destruct (lineOverLoop_spec (S (length (unlines ls))) ls limit Hls ltac:(lia)) as (o & -> & <-).
  intros []. cbn. destruct o; by split; [ | intros [??]].
Qed.

(** ** The insertion sort of the names and the comparisons it charges *)
Fixpoint insert_rev (c : bytes) (prefix : list bytes) : list bytes :=
  match prefix with
  | [] => [c]
  | p :: rest => if negb (bytes_ltb c p) then c :: p :: rest else p :: insert_rev c rest
  end.
Fixpoint insert_work (c : bytes) (prefix : list bytes) : Z :=
  match prefix with
  | [] => 0
  | p :: rest => 1 + (if negb (bytes_ltb c p) then 0 else insert_work c rest)
  end.
Fixpoint sort_rev (rest prefix : list bytes) : list bytes :=
  match rest with [] => prefix | c :: rest => sort_rev rest (insert_rev c prefix) end.
Fixpoint sort_rev_work (rest prefix : list bytes) : Z :=
  match rest with
  | [] => 0
  | c :: rest => insert_work c prefix + sort_rev_work rest (insert_rev c prefix)
  end.
(** The number of comparisons of sorting [names]. *)
Definition sort_work (names : list bytes) : Z :=
  match names with [] => 0 | first :: rest => sort_rev_work rest [first] end.

Lemma insert_work_nonneg c prefix : 0 <= insert_work c prefix.
Proof. induction prefix as [|p prefix IH]; cbn; [lia | ]. destruct (negb _); lia. Qed.
Lemma sort_rev_work_nonneg rest prefix : 0 <= sort_rev_work rest prefix.
Proof.
  revert prefix. induction rest as [|c rest IH]; intros prefix; cbn; [lia | ].
  pose proof (insert_work_nonneg c prefix). specialize (IH (insert_rev c prefix)). lia.
Qed.

Lemma insertName_exact c prefix :
  exact (insertName c prefix) True (insert_rev c prefix) 0 0 (insert_work c prefix).
Proof.
  induction prefix as [|p prefix IH]; cbn [insertName insert_rev insert_work]; [apply exact_uret | ].
  eapply exact_conv.
  - eapply exact_bind; [by apply exact_chargeWork | intros _].
    instantiate (1 := if negb (bytes_ltb c p) then 0 else insert_work c prefix).
    instantiate (1 := 0). instantiate (1 := 0). instantiate (1 := if negb (bytes_ltb c p) then c :: p :: prefix else p :: insert_rev c prefix).
    instantiate (1 := True).
    destruct (negb (bytes_ltb c p)); [apply exact_uret | ].
    eapply exact_conv; [eapply exact_bind; [exact IH | intros _; apply exact_uret] | tauto | done | lia].
  - tauto.
  - done.
  - lia.
Qed.
Lemma insertNames_exact rest prefix :
  exact (ufold (fun prefix candidate => insertName candidate prefix) rest prefix) True
    (sort_rev rest prefix) 0 0 (sort_rev_work rest prefix).
Proof.
  revert prefix. induction rest as [|c rest IH]; intros prefix; cbn [ufold sort_rev sort_rev_work]; [apply exact_uret | ].
  eapply exact_conv; [eapply exact_bind; [apply insertName_exact | intros _; apply IH] | tauto | done | lia].
Qed.

#[export] Instance bytes_le_preorder : PreOrder bytes_le.
Proof. split; [exact bytes_le_refl | exact bytes_le_trans]. Qed.
#[export] Instance bytes_le_antisymm' : AntiSymm (=) bytes_le.
Proof. exact bytes_le_antisymm. Qed.
#[export] Instance bytes_le_total : Total bytes_le.
Proof.
  intros x y. unfold bytes_le. destruct (bytes_ltb y x) eqn:E; [right | by left].
  destruct (bytes_ltb x y) eqn:E'; [ | done].
  pose proof (bytes_ltb_trans _ _ _ E E') as H. by rewrite bytes_ltb_irrefl in H.
Qed.

Lemma insert_rev_spec c prefix :
  StronglySorted (flip bytes_le) prefix ->
  StronglySorted (flip bytes_le) (insert_rev c prefix) /\ insert_rev c prefix ≡ₚ c :: prefix.
Proof.
  induction 1 as [|p prefix Hs [IH1 IH2] Hp]; cbn [insert_rev]; [by split; [repeat constructor | ] | ].
  destruct (bytes_ltb c p) eqn:E; cbn [negb].
  - split.
    + constructor; [done | ]. rewrite IH2. constructor; [by apply bytes_lt_le | done].
    + rewrite IH2. by constructor.
  - split; [ | done]. constructor; [by constructor | ]. constructor; [done | ].
    eapply Forall_impl; [exact Hp | ]. intros q Hq. cbn in *. unfold flip in *. etrans; [exact Hq | done].
Qed.
Lemma sort_rev_spec rest prefix :
  StronglySorted (flip bytes_le) prefix ->
  StronglySorted (flip bytes_le) (sort_rev rest prefix) /\ sort_rev rest prefix ≡ₚ rest ++ prefix.
Proof.
  revert prefix. induction rest as [|c rest IH]; intros prefix Hs; cbn [sort_rev]; [done | ].
  destruct (insert_rev_spec c prefix Hs) as [H1 H2]. destruct (IH _ H1) as [H3 H4].
  split; [done | ]. rewrite H4, H2. symmetry. apply Permutation_middle.
Qed.
Lemma StronglySorted_reverse (l : list bytes) :
  StronglySorted (flip bytes_le) l -> StronglySorted bytes_le (reverse l).
Proof.
  induction 1 as [|x l _ IH Hx]; [constructor | ]. rewrite reverse_cons.
  apply StronglySorted_app_2; [ | done | by repeat constructor].
  intros y z Hy ->%list_elem_of_singleton. rewrite Forall_forall in Hx. apply (Hx y).
  by rewrite elem_of_reverse in Hy.
Qed.

Lemma sortHeaderNames_exact names :
  exact (sortHeaderNames names) True (sorted_names names) 0 0 (sort_work names).
Proof.
  assert (forall l, StronglySorted bytes_le l -> l ≡ₚ names -> l = sorted_names names) as Huniq.
  { intros l Hl Hp. apply (StronglySorted_unique bytes_le); [done | by apply StronglySorted_merge_sort; typeclasses eauto | ].
    rewrite Hp. symmetry. apply merge_sort_Permutation. }
  unfold sortHeaderNames, sort_work. destruct names as [|first rest]; [by rewrite <- (Huniq []); [apply exact_uret | constructor | ] | ].
  destruct (sort_rev_spec rest [first]) as [Hs Hp]; [by repeat constructor | ].
  rewrite <- (Huniq (reverse (sort_rev rest [first]))).
  - eapply exact_conv; [eapply exact_bind; [apply insertNames_exact | intros _; apply exact_uret] | tauto | done | lia].
  - by apply StronglySorted_reverse.
  - rewrite reverse_Permutation, Hp. by rewrite Permutation_app_comm.
Qed.

Section applier.
Context (a : Applier) (Hlim : limits_ok (ap_limits a)).
Abbreviation L := (ap_limits a).

(** The limits on single fields, source or emitted. *)
Definition field_fits (f : field_spec) : Prop :=
  Forall (fun l => len l <= MaxHeaderLineBytes L) (field_lines f) /\
  len (enc_field f) <= MaxHeaderFieldBytes L.

Lemma yields_checkField f :
  wf_field f ->
  yields (checkLines (enc_field f) (MaxHeaderLineBytes L))
    (Forall (fun l => len l <= MaxHeaderLineBytes L) (field_lines f)) tt.
Proof. intros Hf. apply yields_checkLines. by apply field_lines_plain. Qed.

Lemma yields_checkSum name limit x y :
  0 <= x -> 0 <= y -> limit <= MaxInt ->
  yields (checkSum name limit (checkedAdd x y)) (x + y <= limit) (x + y).
Proof.
  intros Hx Hy Hl z. unfold checkSum.
  destruct (checkedAdd_cases x y Hx Hy) as [[? ->] | [? ->]]; cbn [fst snd negb orb].
  - destruct (Z.ltb_spec limit (x + y)); cbn.
    + split; [done | lia].
    + split; [intros [= <-]; split; lia | by intros [_ ->]].
  - split; [done | lia].
Qed.

(** ** collectHeaderGroups *)
Definition names_fit (ns : list bytes) : Prop :=
  len ns <= MaxHeaderNames L /\ sumZ (map len ns) <= MaxTotalHeaderNameBytes L /\
  Forall (fun n => len n <= MaxHeaderNameBytes L) ns.

Definition groups_of (fs : list field_spec) : gmap bytes (list bytes) :=
  foldl (fun g f => <[rname f := default [] (g !! rname f) ++ [enc_field f]]> g) ∅ fs.
Definition names_of (fs : list field_spec) : list bytes := distinct_names (map rname fs).
Definition index_of (fs : list field_spec) : groupIndex :=
  MkGroups (groups_of fs) (names_of fs) (map enc_field fs) (sumZ (map len (names_of fs))).

Lemma distinct_names_snoc ns n : distinct_names (ns ++ [n]) = add_name (distinct_names ns) n.
Proof. unfold distinct_names. by rewrite foldl_app. Qed.
Lemma names_of_snoc fs f : names_of (fs ++ [f]) = add_name (names_of fs) (rname f).
Proof. unfold names_of. rewrite map_app. apply distinct_names_snoc. Qed.
Lemma groups_of_snoc fs f :
  groups_of (fs ++ [f]) = <[rname f := default [] (groups_of fs !! rname f) ++ [enc_field f]]> (groups_of fs).
Proof. unfold groups_of. by rewrite foldl_app. Qed.

Lemma elem_distinct_names ns n : n ∈ distinct_names ns <-> n ∈ ns.
Proof.
  induction ns as [|m ns IH] using rev_ind; [done | ].
  rewrite distinct_names_snoc, elem_of_app, <- IH. unfold add_name. destruct (decide _) as [Hin|Hni].
  - split; [by left | ]. intros [? | ->%list_elem_of_singleton]; done.
  - by rewrite elem_of_app.
Qed.
Lemma NoDup_distinct_names ns : NoDup (distinct_names ns).
Proof.
  induction ns as [|m ns IH] using rev_ind; [constructor | ].
  rewrite distinct_names_snoc. unfold add_name. destruct (decide _) as [Hin|Hni]; [done | ].
  apply NoDup_app. split_and!; [done | | apply NoDup_singleton].
  intros x Hx ->%list_elem_of_singleton. done.
Qed.

Lemma groups_of_lookup fs n :
  groups_of fs !! n = if decide (n ∈ names_of fs) then Some (map enc_field (group n fs)) else None.
Proof.
  induction fs as [|f fs IH] using rev_ind.
  - unfold groups_of, names_of. cbn. apply lookup_empty.
  - rewrite groups_of_snoc. unfold group. rewrite filter_app, map_app.
    destruct (decide (rname f = n)) as [<-|Hne].
    + rewrite lookup_insert_eq, decide_True.
      2: { unfold names_of. rewrite elem_distinct_names, map_app, elem_of_app. right. apply list_elem_of_here. }
      f_equal. rewrite filter_cons_True by done. rewrite IH. f_equal. destruct (decide _) as [Hin|Hni]; [done | ].
      cbn. rewrite (filter_all_False _ fs); [done | ]. apply list.Forall_forall. intros g Hg Eg.
      apply Hni. unfold names_of. rewrite elem_distinct_names, <- Eg. by apply list_elem_of_fmap_2.
    + rewrite lookup_insert_ne, IH by done. rewrite filter_cons_False by done.
      cbn [map]. rewrite app_nil_r.
      assert (n ∈ names_of (fs ++ [f]) <-> n ∈ names_of fs) as Hiff.
      { unfold names_of. rewrite !elem_distinct_names, map_app, elem_of_app.
        split; [intros [? | Hx%list_elem_of_singleton]; [done | by subst] | by left]. }
      by destruct (decide (n ∈ names_of (fs ++ [f]))), (decide (n ∈ names_of fs)); try tauto.
Qed.

Lemma names_fit_snoc ns n : names_fit (add_name ns n) -> names_fit ns.
Proof.
  unfold names_fit, add_name. destruct (decide _); [done | ].
  rewrite len_app, map_app, sumZ_app, Forall_app. change (len [n]) with 1. cbn.
  pose proof (len_nonneg n). intros (? & ? & ? & _). split_and!; try done; lia.
Qed.
Lemma names_fit_app ms ns : names_fit (distinct_names (ms ++ ns)) -> names_fit (distinct_names ms).
Proof.
  induction ns as [|n ns IH] using rev_ind; [by rewrite app_nil_r | ].
  rewrite app_assoc, distinct_names_snoc. intros H%names_fit_snoc. by apply IH.
Qed.

Lemma names_fit_prefix fs gs : names_fit (names_of (fs ++ gs)) -> names_fit (names_of fs).
Proof. unfold names_of. rewrite map_app. apply names_fit_app. Qed.

Lemma rname_parsed i f : nameLower (parsed_field i (fs_name f) (fs_first f) (fs_conts f)) = rname f.
Proof. done. Qed.

Lemma collectField_exact fs f i :
  wf_field f -> names_fit (names_of fs) ->
  exact (collectField a (index_of fs) (parsed_field i (fs_name f) (fs_first f) (fs_conts f)))
    (field_fits f /\ names_fit (names_of (fs ++ [f]))) (index_of (fs ++ [f])) 1 0 0.
Proof using Hlim.
  limit_facts Hlim. intros Hwf Hn. unfold collectField. cbn [originalBytes parsed_field]. cbn zeta.
  rewrite <- enc_field_encode, !rname_parsed.
  eapply exact_conv.
  - eapply exact_bind; [by apply exact_chargeItems | intros _].
    eapply exact_bind; [apply exact_require | intros Hlen].
    eapply exact_bind; [apply exact_ulift, yields_checkField; exact Hwf | intros Hlines].
    eapply exact_bind with (C := names_fit (names_of (fs ++ [f])))
      (x := (names_of (fs ++ [f]), sumZ (map len (names_of (fs ++ [f]))))); [ | intros _; apply exact_uret].
    apply exact_ulift. cbn [index_of gi_groups gi_names gi_nameBytes].
    rewrite groups_of_lookup, names_of_snoc. unfold add_name.
    destruct (decide (rname f ∈ names_of fs)) as [Hin|Hni].
    + eapply yields_conv; [apply yields_ret | by split | done].
    + pose proof (len_nonneg (rname f)). pose proof (sumZ_len_nonneg (names_of fs)).
      eapply yields_conv.
      * eapply yields_bind; [apply yields_require | intros _].
        eapply yields_bind; [apply yields_require | intros _].
        eapply yields_bind; [apply yields_checkSum; lia | intros _]. apply yields_ret.
      * unfold names_fit in *. rewrite len_app, map_app, sumZ_app, Forall_app, Forall_singleton.
        change (len [rname f]) with 1. cbn. rewrite !negb_true_iff, Z.ltb_ge, Z.leb_gt. intuition lia.
      * intros _. rewrite map_app, sumZ_app. cbn. f_equal. lia.
  - unfold field_fits. rewrite negb_true_iff, Z.ltb_ge. tauto.
  - intros _. unfold index_of. cbn. by rewrite groups_of_snoc, map_app.
  - intros _. lia.
Qed.

Lemma collectFields_exact fs gs i :
  Forall wf_field gs -> names_fit (names_of fs) ->
  exact (ufold (collectField a) (fields_of i gs) (index_of fs))
    (Forall field_fits gs /\ names_fit (names_of (fs ++ gs))) (index_of (fs ++ gs)) (len gs) 0 0.
Proof using Hlim.
  intros Hwf. revert fs i. induction Hwf as [|g gs Hg _ IH]; intros fs i Hn; cbn [fields_of ufold].
  - rewrite app_nil_r. eapply exact_conv; [apply exact_uret | by split; [ | split; [constructor | ]] | done | done].
  - eapply exact_conv.
    + eapply exact_bind; [by apply collectField_exact | intros [_ Hn']]. by apply IH.
    + assert (fs ++ g :: gs = (fs ++ [g]) ++ gs) as -> by by rewrite <- app_assoc.
      rewrite Forall_cons. split; [ | tauto]. intros ([??] & Hf). split_and!; try done.
      by apply names_fit_prefix in Hf.
    + by rewrite <- app_assoc.
    + intros _. rewrite len_cons. lia.
Qed.

Definition source_fits (fs : list field_spec) : Prop :=
  len fs <= MaxHeaderFields L /\ len (enc_fields fs) <= MaxHeaderBytes L /\
  Forall field_fits fs /\ names_fit (names_of fs).

Lemma collectHeaderGroups_exact fs :
  Forall wf_field fs ->
  exact (collectHeaderGroups a (block_of fs)) (source_fits fs) (index_of fs) (len fs) 0 0.
Proof using Hlim.
  limit_facts Hlim. intros Hwf. unfold collectHeaderGroups.
  assert (names_fit []) by (unfold names_fit, sumZ, len; cbn; split_and!; [lia | lia | constructor]).
  eapply exact_conv.
  - eapply exact_bind; [apply exact_require | intros H1].
    eapply exact_bind; [apply exact_require | intros H2].
    apply (collectFields_exact [] fs 0 Hwf). done.
  - unfold source_fits. rewrite !negb_true_iff, !Z.ltb_ge.
    change (HeaderBlock_Len (block_of fs)) with (len (fields_of 0 fs)). rewrite len_fields_of.
    change (hb_originalBytes (block_of fs)) with (enc_fields fs). tauto.
  - done.
  - intros _. lia.
Qed.

(** ** Emission *)
Section output.
Context (ss : state_spec) (Hss : wf_state ss) (enforce : bool).
Abbreviation current := (state_of ss).

(** The output after emitting the fields [fs]. *)
Definition out_of (fs : list field_spec) : headerOutput :=
  MkHeaderOutput (map enc_field fs) (len (enc_fields fs)).

(** The size of the state with header fields [fs] and the current body. *)
Definition header_state_size (fs : list field_spec) : Z :=
  len (enc_fields fs) +
  match ss_body ss with
  | None => 0
  | Some (framing, (ls, last)) =>
      len (unlines ls ++ last) +
      (if decide (framing = MessageFramingDelimited \/ fs = []) then 2 else 0)
  end.
Definition state_fits (fs : list field_spec) : Prop :=
  enforce = true -> header_state_size fs <= MaxStateBytes L.
Definition out_fits (fs : list field_spec) : Prop :=
  len fs <= MaxHeaderFields L /\ len (enc_fields fs) <= MaxHeaderBytes L /\ state_fits fs.
Definition emit_ok (fs gs : list field_spec) : Prop :=
  Forall field_fits gs /\ (gs = [] \/ out_fits (fs ++ gs)).

Lemma enc_fields_snoc fs f : enc_fields (fs ++ [f]) = enc_fields fs ++ enc_field f.
Proof. by rewrite enc_fields_app, enc_fields_one. Qed.

Lemma state_fits_mono fs gs : fs <> [] -> state_fits (fs ++ gs) -> state_fits fs.
Proof.
  intros Hne H He. specialize (H He). unfold header_state_size in *.
  rewrite enc_fields_app, len_app in H. pose proof (len_nonneg (enc_fields gs)).
  destruct (ss_body ss) as [[framing [ls last]]|]; [ | lia].
  assert (fs ++ gs <> []) by (by destruct fs).
  destruct (decide (framing = MessageFramingDelimited \/ fs ++ gs = [])),
    (decide (framing = MessageFramingDelimited \/ fs = [])); try lia; tauto.
Qed.
Lemma out_fits_mono fs gs : fs <> [] -> out_fits (fs ++ gs) -> out_fits fs.
Proof.
  intros Hne (H1 & H2 & H3). rewrite len_app in H1. rewrite enc_fields_app, len_app in H2.
  pose proof (len_nonneg gs). pose proof (len_nonneg (enc_fields gs)).
  split_and!; [lia | lia | by eapply state_fits_mono].
Qed.

Lemma emit_ok_nil fs : emit_ok fs [].
Proof. split; [constructor | by left]. Qed.
Lemma emit_ok_app fs gs hs : emit_ok fs (gs ++ hs) <-> emit_ok fs gs /\ emit_ok (fs ++ gs) hs.
Proof.
  unfold emit_ok. rewrite Forall_app, app_assoc. split.
  - intros [[H1 H2] H]. destruct H as [[-> ->]%app_eq_nil | H]; [by split_and!; auto | ].
    split; (split; [done | ]).
    + destruct (decide (gs = [])) as [-> | Hne]; [by left | right].
      eapply out_fits_mono; [ | exact H]. by destruct fs, gs.
    + destruct (decide (hs = [])); [by left | by right].
  - intros [[H1 H2] [H3 H4]]. split; [done | ]. destruct H4 as [-> | H4]; [ | by right].
    rewrite !app_nil_r. by destruct H2 as [-> | ?]; [left | right].
Qed.
Lemma emit_ok_one fs g : emit_ok fs [g] <-> field_fits g /\ out_fits (fs ++ [g]).
Proof.
  unfold emit_ok. rewrite Forall_singleton. split; [ | tauto]. by intros [? [? | ?]].
Qed.

Lemma yields_checkStateBytes fs :
  yields (checkStateBytes a current enforce (len (enc_fields fs)) (len fs)) (state_fits fs) tt.
Proof using Hlim Hss.
  limit_facts Hlim. unfold checkStateBytes, state_fits, header_state_size, stateBytes, state_of.
  pose proof (len_nonneg (enc_fields fs)).
  destruct enforce; [ | by eapply yields_conv; [apply yields_ret | | done]].
  destruct Hss as [_ Hb]. destruct (ss_body ss) as [[framing [ls last]]|]; cbn [sta_availability sta_body sta_framing].
  - destruct Hb as (_ & _ & Hk & _). rewrite bool_decide_eq_true_2 by done. cbn [negb].
    change (Body_Len (body_of ls last)) with (len (unlines ls ++ last)).
    pose proof (len_nonneg (unlines ls ++ last)).
    assert (bool_decide (framing = MessageFramingDelimited)
       || bool_decide (framing = MessageFramingHeaderOnly) && (len fs =? 0) =
       bool_decide (framing = MessageFramingDelimited \/ fs = [])) as ->.
    { destruct (bool_decide_reflect (framing = MessageFramingDelimited)) as [->|Hne].
      - rewrite (bool_decide_eq_true_2 (_ \/ _)) by by left. done.
      - destruct framing; try done. rewrite bool_decide_eq_true_2 by done. cbn [orb andb].
        destruct fs as [|f fs]; [by rewrite (bool_decide_eq_true_2 (_ \/ _)) by by right | ].
        rewrite (bool_decide_eq_false_2 (_ \/ _)) by (by intros [|]). rewrite len_cons. pose proof (len_nonneg fs).
        apply Z.eqb_neq. lia. }
    destruct (decide (framing = MessageFramingDelimited \/ fs = [])) as [Hd|Hd].
    + rewrite bool_decide_eq_true_2 by done.
      destruct (checkedAdd_cases (len (unlines ls ++ last)) 2) as [[? ->] | [? ->]]; [lia | lia | | ]; cbn [negb].
      * eapply yields_conv; [eapply yields_bind; [apply yields_checkSum; lia | intros _; apply yields_ret] | intuition lia | done].
      * unfold checkSum. cbn [fst snd negb orb require obind].
        eapply yields_conv; [apply yields_fail | intuition lia | done].
    + rewrite bool_decide_eq_false_2 by done. cbn [negb].
      eapply yields_conv; [eapply yields_bind; [apply yields_checkSum; lia | intros _; apply yields_ret] | intuition lia | done].
  - rewrite bool_decide_eq_false_2 by done. cbn [negb].
    unfold checkSum. cbn [fst snd negb orb].
    eapply yields_conv; [eapply yields_bind; [eapply yields_bind; [apply yields_require | intros _; apply yields_ret]
      | intros _; apply yields_ret] | rewrite negb_true_iff, Z.ltb_ge; intuition lia | done].
Qed.

Lemma len_map {X Y} (f : X -> Y) l : len (map f l) = len l.
Proof. unfold len. by rewrite length_map. Qed.

(** [reserveField] for the field [f]; without the field itself the line
    lengths are the caller's business. *)
Lemma reserveField_exact fs f field (Lines : Prop) :
  yields (match field with Some f => checkLines f (MaxHeaderLineBytes L) | None => Ret tt end) Lines tt ->
  exact (reserveField a current enforce (out_of fs) (len (enc_field f)) field)
    (len (enc_field f) <= MaxHeaderFieldBytes L /\ Lines /\ out_fits (fs ++ [f]))
    (len (enc_fields (fs ++ [f]))) 1 (len (enc_field f)) 0.
Proof using Hlim Hss.
  limit_facts Hlim. intros Hlines. unfold reserveField. cbn [out_of encoded headerBytes].
  rewrite len_map. pose proof (len_nonneg fs). pose proof (len_nonneg (enc_field f)).
  pose proof (len_nonneg (enc_fields fs)).
  assert (len (enc_fields (fs ++ [f])) = len (enc_fields fs) + len (enc_field f)) as Hb
    by by rewrite enc_fields_snoc, len_app.
  assert (len (fs ++ [f]) = len fs + 1) as Hn by by rewrite len_app.
  eapply exact_conv.
  - eapply exact_bind; [apply exact_ulift, yields_checkSum; lia | intros _].
    eapply exact_bind; [apply exact_require | intros _].
    eapply exact_bind; [apply exact_ulift, Hlines | intros _].
    eapply exact_bind; [apply exact_ulift, yields_checkSum; lia | intros _].
    rewrite <- Hb, <- Hn.
    eapply exact_bind; [apply exact_ulift, yields_checkStateBytes | intros _].
    eapply exact_bind; [by apply exact_chargeItems | intros _].
    eapply exact_bind; [by apply exact_chargeEmitted | intros _]. apply exact_uret.
  - unfold out_fits. rewrite negb_true_iff, Z.ltb_ge, Hn, Hb. tauto.
  - done.
  - intros _. lia.
Qed.

Lemma appendField_exact fs f :
  wf_field f ->
  exact (appendField a current enforce (out_of fs) (enc_field f))
    (emit_ok fs [f]) (out_of (fs ++ [f])) 1 (len (enc_field f)) 0.
Proof using Hlim Hss.
  intros Hf. unfold appendField. eapply exact_conv.
  - eapply exact_bind; [eapply reserveField_exact; apply yields_checkField; exact Hf | intros _].
    apply exact_uret.
  - rewrite emit_ok_one. unfold field_fits. tauto.
  - intros _. unfold out_of. by rewrite map_app.
  - intros _. lia.
Qed.

Definition data_field (n literal : bytes) : field_spec := MkFS n literal [].

Lemma data_field_enc n literal : enc_field (data_field n literal) = n ++ [x3a] ++ literal ++ [CR; LF].
Proof. rewrite enc_field_encode. unfold encode_field, data_field, fold_value. cbn. by rewrite app_nil_r. Qed.

Lemma appendData_exact fs n literal :
  validHeaderFieldName n = true ->
  exact (appendData a current enforce n (out_of fs) literal)
    (emit_ok fs [data_field n literal]) (out_of (fs ++ [data_field n literal])) 1
    (len (enc_field (data_field n literal))) 0.
Proof using Hlim Hss.
  limit_facts Hlim. intros Hn. unfold appendData. pose proof (len_nonneg n). pose proof (len_nonneg literal).
  set (f := data_field n literal).
  assert (len (enc_field f) = len n + 1 + len literal + 2) as Hlen.
  { unfold f. rewrite data_field_enc, !len_app. change (len [x3a]) with 1. change (len [CR; LF]) with 2. lia. }
  assert (Forall (fun l => len l <= MaxHeaderLineBytes L) (field_lines f) <->
          len n + 1 + len literal <= MaxHeaderLineBytes L) as Hlines.
  { unfold f, field_lines, data_field. cbn [fs_name fs_first fs_conts].
    rewrite Forall_singleton, len_app, len_cons. lia. }
  destruct (checkedAdd_cases (len n) 1) as [[? ->] | [? ->]]; [lia | lia | | ].
  2: { cbn beta iota. eapply exact_conv; [eapply (exact_bind _ _ _ True _ (out_of fs) 0 0 0 0 0 0);
         [apply exact_require | intros Hf; discriminate Hf] | | by intros [Hf _] | by intros [Hf _]].
       split; [ | by intros [Hf _]]. rewrite emit_ok_one. intros [[Hl _] _].
       apply Hlines in Hl. lia. }
  destruct (Z_le_gt_dec (len n + 1 + len literal) (MaxHeaderLineBytes L)) as [Hle|Hgt].
  - eapply exact_conv.
    + eapply exact_bind; [apply exact_require | intros _].
      eapply exact_bind; [apply exact_ulift, yields_checkSum; lia | intros _].
      rewrite checkedAdd_ok by lia.
      eapply exact_bind; [apply exact_require | intros _]. rewrite <- Hlen.
      eapply exact_bind; [apply reserveField_exact, yields_ret | intros _]. apply exact_uret.
    + rewrite emit_ok_one. unfold field_fits. rewrite Hlines. tauto.
    + intros _. unfold out_of. rewrite map_app. cbn [map]. unfold f. by rewrite data_field_enc.
    + intros _. lia.
  - eapply exact_conv.
    + eapply exact_bind; [apply exact_require | intros _].
      eapply (exact_bind _ _ _ True _ (out_of fs) 0 0 0 0 0 0);
        [apply exact_ulift, yields_checkSum; lia | intros Hc; exfalso; lia].
    + rewrite emit_ok_one. unfold field_fits. rewrite Hlines. lia.
    + intros [_ [? _]]. lia.
    + intros [_ [? _]]. lia.
Qed.

(** A loop whose body emits one field per element. *)
Lemma emit_loop {X} (F : headerOutput -> X -> UM headerOutput) xs gs :
  Forall2 (fun x g => forall fs, exact (F (out_of fs) x) (emit_ok fs [g]) (out_of (fs ++ [g]))
                                   1 (len (enc_field g)) 0) xs gs ->
  forall fs, exact (ufold F xs (out_of fs)) (emit_ok fs gs) (out_of (fs ++ gs))
               (len gs) (len (enc_fields gs)) 0.
Proof.
  induction 1 as [|x g xs gs Hx _ IH]; intros fs; cbn [ufold].
  - rewrite app_nil_r. eapply exact_conv; [apply exact_uret | | done | done].
    split; [done | intros _; apply emit_ok_nil].
  - eapply exact_conv.
    + eapply exact_bind; [apply Hx | intros _; apply IH].
    + apply (emit_ok_app fs [g] gs).
    + by rewrite <- app_assoc.
    + intros _. rewrite len_cons, enc_fields_cons, len_app. lia.
Qed.

(** Source fields [start..end] from the bottom, in the order of the loop. *)
Definition copied_fields (g : list field_spec) (start end_ : Z) : list field_spec :=
  take (Z.to_nat (end_ - start + 1)) (drop (Z.to_nat (len g - end_)) g).

Lemma copied_fields_reverse g start end_ :
  0 < start <= end_ -> end_ <= len g ->
  reverse (take (Z.to_nat (end_ - start + 1)) (drop (Z.to_nat (start - 1)) (reverse g))) =
  copied_fields g start end_.
Proof.
  intros Hs He. unfold len in He. rewrite reverse_take_drop by lia. unfold copied_fields, len.
  do 2 f_equal. lia.
Qed.

Lemma copied_fields_len g start end_ :
  0 < start <= end_ -> end_ <= len g -> len (copied_fields g start end_) = end_ - start + 1.
Proof. unfold copied_fields, len. intros. rewrite length_take, length_drop. lia. Qed.

Lemma copy_loop_fields g start end_ :
  Forall wf_field g -> 0 < start <= end_ -> end_ <= len g ->
  Forall2 (fun k f => forall fs,
      exact (copyOccurrence a current enforce (map enc_field g) (out_of fs) k)
        (emit_ok fs [f]) (out_of (fs ++ [f])) 1 (len (enc_field f)) 0)
    (reverse (seqZ start (end_ - start + 1))) (copied_fields g start end_).
Proof using Hlim Hss.
  intros Hg Hs He. apply Forall2_same_length_lookup_2.
  { apply Nat2Z.inj. rewrite length_reverse, length_seqZ.
    change (Z.of_nat (length (copied_fields g start end_))) with (len (copied_fields g start end_)).
    rewrite copied_fields_len by done. lia. }
  intros i k f Hk Hf fs. unfold copied_fields in Hf.
  apply lookup_take_Some in Hf as [Hf Hi]. rewrite lookup_drop in Hf.
  rewrite reverse_lookup in Hk by (rewrite length_seqZ; lia).
  rewrite length_seqZ in Hk. apply lookup_seqZ in Hk as [-> _].
  unfold copyOccurrence. rewrite len_map.
  rewrite (proj2 (Z.leb_le _ _)) by (unfold len in *; lia).
  replace (Z.to_nat _) with (Z.to_nat (len g - end_) + i)%nat by (unfold len in *; lia).
  rewrite list_lookup_fmap, Hf. cbn [fmap option_fmap option_map]. apply appendField_exact.
  rewrite Forall_forall in Hg. by eapply Hg, list_elem_of_lookup_2.
Qed.

(** ** One step of a plan *)
Definition step_emission (n : bytes) (g : list field_spec) (s : step) : list field_spec :=
  default [] (step_fields n (reverse g) s).
Definition step_cond (g : list field_spec) (n : bytes) (s : step) (t : Z) : Prop :=
  is_Some (step_fields n (reverse g) s) /\ step_width s <= MaxCopiedItemsPerRange L /\
  (copyRange s <> None -> t + step_width s <= MaxTotalCopiedItems L).

Lemma planStep_exact g n fs t idx s :
  Forall wf_field g -> validHeaderFieldName n = true -> step_ok s -> 0 <= t ->
  exact (planStep a current enforce (map enc_field g) n (out_of fs, t) (idx, s))
    (step_cond g n s t /\ emit_ok fs (reverse (step_emission n g s)))
    (out_of (fs ++ reverse (step_emission n g s)), t + step_width s)
    (step_width s + len (step_emission n g s)) (len (enc_fields (reverse (step_emission n g s)))) 0.
Proof using Hlim Hss.
  limit_facts Hlim. intros Hg Hn Hs Ht. unfold planStep, step_cond, step_emission, step_fields, step_width.
  unfold step_ok in Hs. rewrite !len_map.
  assert (len (reverse g) = len g) as -> by (unfold len; by rewrite length_reverse).
  destruct (copyRange s) as [[start end_]|].
  - destruct Hs as [Hs _]. destruct (Z.leb_spec end_ (len g)) as [Hle|Hgt]; cbn [from_option id].
    + assert (len (take (Z.to_nat (end_ - start + 1)) (drop (Z.to_nat (start - 1)) (reverse g))) =
              end_ - start + 1) as ->
        by (unfold len in *; rewrite length_take, length_drop, length_reverse; lia).
      cbn [from_option id]. rewrite copied_fields_reverse by done.
      eapply exact_conv.
      * eapply exact_bind; [apply exact_require | intros _].
        eapply exact_bind; [apply exact_require | intros _].
        eapply exact_bind; [apply exact_ulift, yields_checkSum; lia | intros _].
        eapply exact_bind; [apply exact_chargeItems; lia | intros _].
        eapply exact_bind; [apply emit_loop, copy_loop_fields; done | intros _]. apply exact_uret.
      * rewrite !negb_true_iff, !Z.ltb_ge. split; [ | by intros (? & ? & ? & _ & ? & _)].
        intros ((_ & H1 & H2) & H3). specialize (H2 ltac:(done)). tauto.
      * done.
      * intros _. rewrite copied_fields_len by done. lia.
    + cbn [from_option id]. eapply exact_conv.
      * eapply (exact_bind _ _ _ True _ (out_of fs, 0) 0 0 0 0 0 0); [apply exact_require | ].
        intros Hc%negb_true_iff%Z.ltb_ge. lia.
      * rewrite negb_true_iff, Z.ltb_ge. split; [ | lia]. intros ([[] ?] & _). done.
      * intros [Hc%negb_true_iff%Z.ltb_ge _]. lia.
      * intros [Hc%negb_true_iff%Z.ltb_ge _]. lia.
  - destruct Hs as (_ & _ & Hd). cbn [from_option id].
    rewrite reverse_map, len_map.
    eapply exact_conv.
    + eapply exact_bind; [apply (emit_loop _ _ (map (data_field n) (reverse (st_data s)))) | intros _; apply exact_uret].
      apply Forall2_fmap_r, Forall2_same_length_lookup_2; [done | ]. intros i x y Hx Hy fs'.
      rewrite Hx in Hy. injection Hy as <-. by apply appendData_exact.
    + split; [intros (_ & H2); by split | intros [H2 _]; split; [ | done]].
      split_and!; [done | lia | done].
    + intros _. by rewrite Z.add_0_r.
    + intros _. unfold data_field. unfold len. rewrite length_map, length_reverse. lia.
Qed.

(** ** A whole plan *)
Definition steps_width (ss : list step) : Z := sumZ (map step_width ss).
Definition step_possible (n : bytes) (g : list field_spec) (s : step) : Prop :=
  is_Some (step_fields n (reverse g) s) /\ step_width s <= MaxCopiedItemsPerRange L.
Definition steps_emission (n : bytes) (g : list field_spec) (xs : list (Z * step)) : list field_spec :=
  concat (map (fun x => reverse (step_emission n g x.2)) xs).

Lemma step_cond_alt g n s t :
  t <= MaxTotalCopiedItems L ->
  step_cond g n s t <-> step_possible n g s /\ t + step_width s <= MaxTotalCopiedItems L.
Proof.
  intros Ht. unfold step_cond, step_possible, step_width.
  destruct (copyRange s) as [[? ?]|]; [ | intuition lia].
  split; [intros (? & ? & H); specialize (H ltac:(done)) | ]; tauto.
Qed.

Lemma plan_loop_exact g n xs :
  Forall wf_field g -> validHeaderFieldName n = true -> Forall (fun x => step_ok x.2) xs ->
  forall fs t, 0 <= t <= MaxTotalCopiedItems L ->
  exact (ufold (planStep a current enforce (map enc_field g) n) xs (out_of fs, t))
    (Forall (fun x => step_possible n g x.2) xs /\
     t + steps_width (map snd xs) <= MaxTotalCopiedItems L /\ emit_ok fs (steps_emission n g xs))
    (out_of (fs ++ steps_emission n g xs), t + steps_width (map snd xs))
    (steps_width (map snd xs) + len (steps_emission n g xs)) (len (enc_fields (steps_emission n g xs))) 0.
Proof using Hlim Hss.
  intros Hg Hn. induction 1 as [|[idx s] xs Hs Hok IH]; intros fs t Ht; cbn [ufold].
  - unfold steps_width, steps_emission, sumZ. cbn. rewrite app_nil_r, Z.add_0_r.
    eapply exact_conv; [apply exact_uret | | done | done].
    split; [done | intros _]. split_and!; [constructor | lia | apply emit_ok_nil].
  - cbn [snd] in Hs. pose proof (step_width_nonneg s Hs).
    assert (Forall step_ok (map snd xs)) as Hok' by by apply Forall_fmap.
    pose proof (sumZ_width_nonneg _ Hok') as Hsum.
    assert (steps_emission n g ((idx, s) :: xs) = reverse (step_emission n g s) ++ steps_emission n g xs) as -> by done.
    assert (steps_width (map snd ((idx, s) :: xs)) = step_width s + steps_width (map snd xs)) as -> by done.
    unfold steps_width in *.
    eapply exact_conv.
    + eapply exact_bind; [apply planStep_exact; [done.. | lia] | ].
      rewrite step_cond_alt by lia. intros ((_ & Hc) & _). apply IH. lia.
    + rewrite step_cond_alt by lia. rewrite Forall_cons, emit_ok_app. cbn [snd]. split.
      * intros ((H1 & H2) & H3 & H4 & H5). split_and!; try done; lia.
      * intros (((H1 & H2) & H3) & H4 & H5 & H6). split_and!; try done; lia.
    + intros _. rewrite app_assoc. f_equal. lia.
    + intros _. rewrite len_app, enc_fields_app, len_app.
      assert (len (reverse (step_emission n g s)) = len (step_emission n g s)) as ->
        by (unfold len; by rewrite length_reverse). lia.
Qed.

Lemma appendHeaderPlan_exact g p fs t :
  Forall wf_field g -> plan_ok p -> 0 <= t <= MaxTotalCopiedItems L ->
  let emission := reverse (concat (map (step_emission (hp_name p) g) (hp_steps p))) in
  exact (appendHeaderPlan a current enforce (map enc_field g) p (out_of fs, t))
    (Forall (step_possible (hp_name p) g) (hp_steps p) /\
     t + steps_width (hp_steps p) <= MaxTotalCopiedItems L /\ emit_ok fs emission)
    (out_of (fs ++ emission), t + steps_width (hp_steps p))
    (steps_width (hp_steps p) + len emission) (len (enc_fields emission)) 0.
Proof using Hlim Hss.
  intros Hg (Hn & _ & _ & Hs) Ht. cbn zeta. unfold appendHeaderPlan.
  set (xs := reverse (zip (seqZ 0 (len (hp_steps p))) (hp_steps p))).
  assert (map snd xs = reverse (hp_steps p)) as Hsnd.
  { unfold xs. rewrite <- reverse_map. f_equal. apply snd_zip.
    rewrite length_seqZ. unfold len. lia. }
  assert (xs ≡ₚ zip (seqZ 0 (len (hp_steps p))) (hp_steps p)) as Hperm by apply reverse_Permutation.
  assert (forall P : step -> Prop, Forall (fun x => P x.2) xs <-> Forall P (hp_steps p)) as HF.
  { intros P. transitivity (Forall P (map snd xs)); [symmetry; apply Forall_fmap | ].
    by rewrite Hsnd, Forall_reverse. }
  assert (steps_emission (hp_name p) g xs =
          reverse (concat (map (step_emission (hp_name p) g) (hp_steps p)))) as <-.
  { unfold steps_emission. rewrite reverse_concat, reverse_map, <- Hsnd, !map_map. done. }
  assert (steps_width (hp_steps p) = steps_width (map snd xs)) as ->.
  { rewrite Hsnd. unfold steps_width. rewrite <- reverse_map.
    by rewrite (reverse_Permutation (map step_width (hp_steps p))). }
  rewrite <- HF. apply plan_loop_exact; [done.. | by apply HF | done].
Qed.

(** ** One name of the emission loop *)
Context (r : Recipe) (Hr : recipe_ok r) (src : list field_spec) (Hsrc : Forall wf_field src).

Definition name_emission (n : bytes) : list field_spec := default [] (named_fields r src n).
Definition name_width (n : bytes) : Z := from_option (fun p => steps_width (hp_steps p)) 0 (plan_for r n).
Definition name_possible (n : bytes) : Prop :=
  is_Some (named_fields r src n) /\
  from_option (fun p => Forall (fun s => step_width s <= MaxCopiedItemsPerRange L) (hp_steps p)) True
    (plan_for r n).

Lemma plan_for_ok n p : plan_for r n = Some p -> plan_ok p /\ hp_canonicalName p = n.
Proof using Hr.
  unfold plan_for. intros [Hin Hn%bool_decide_eq_true]%find_some. split; [ | done].
  destruct Hr as [Hp _]. rewrite Forall_forall in Hp. by apply Hp, list_elem_of_In.
Qed.

Lemma plan_fields_possible p :
  is_Some (plan_fields src p) <->
  Forall (fun s => is_Some (step_fields (hp_name p) (reverse (group (hp_canonicalName p) src)) s)) (hp_steps p).
Proof.
  unfold plan_fields. rewrite <- mapM_is_Some_iff. destruct (mapM _ _); cbn.
  - split; by eexists.
  - split; by intros [? ?].
Qed.
Lemma plan_fields_emission p :
  is_Some (plan_fields src p) ->
  plan_fields src p =
  Some (reverse (concat (map (step_emission (hp_name p) (group (hp_canonicalName p) src)) (hp_steps p)))).
Proof.
  intros H%plan_fields_possible. unfold plan_fields. rewrite (mapM_default _ []) by done. done.
Qed.

Lemma name_width_nonneg n : 0 <= name_width n.
Proof using Hr.
  unfold name_width. destruct (plan_for r n) as [p|] eqn:E; cbn; [ | done].
  apply plan_for_ok in E as [(_ & _ & _ & Hs) _]. by apply sumZ_width_nonneg.
Qed.

Lemma emitName_exact groups plans n fs t :
  (forall n, default [] (groups !! n) = map enc_field (group n src)) ->
  (forall n, plans !! n = plan_for r n) -> 0 <= t <= MaxTotalCopiedItems L ->
  exact (emitName a current enforce groups plans (out_of fs, t) n)
    (name_possible n /\ t + name_width n <= MaxTotalCopiedItems L /\ emit_ok fs (name_emission n))
    (out_of (fs ++ name_emission n), t + name_width n)
    (name_width n + len (name_emission n)) (len (enc_fields (name_emission n))) 0.
Proof using All.
  intros Hgr Hpl Ht. unfold emitName. rewrite Hgr, Hpl.
  unfold name_possible, name_width, name_emission, named_fields. cbn [fst snd].
  assert (Forall wf_field (group n src)) as Hg by by apply group_wf.
  destruct (plan_for r n) as [p|] eqn:Ep; cbn [from_option id].
  - apply plan_for_ok in Ep as [Hp Hn].
    pose proof (appendHeaderPlan_exact (group n src) p fs t Hg Hp Ht) as He. cbn zeta in He.
    assert (Forall (step_possible (hp_name p) (group n src)) (hp_steps p) <->
      is_Some (plan_fields src p) /\ Forall (fun s => step_width s <= MaxCopiedItemsPerRange L) (hp_steps p)) as Hc.
    { rewrite plan_fields_possible, Hn, <- Forall_and. done. }
    rewrite Hc in He.
    assert (is_Some (plan_fields src p) ->
      default [] (plan_fields src p) =
      reverse (concat (map (step_emission (hp_name p) (group n src)) (hp_steps p)))) as Hem.
    { intros Hsome. rewrite plan_fields_emission, Hn by done. done. }
    eapply exact_conv; [exact He | | |].
    + split; intros ((H1 & H2) & H3 & H4); rewrite Hem in * by done; done.
    + intros ((H1 & H2) & _). by rewrite Hem.
    + intros ((H1 & H2) & _). by rewrite Hem.
  - eapply exact_conv.
    + eapply exact_bind; [apply (emit_loop _ _ (group n src)) | intros _; apply exact_uret].
      apply Forall2_fmap_l, Forall2_same_length_lookup_2; [done | ]. intros i f f' Hf Hf' fs'.
      rewrite Hf in Hf'. injection Hf' as <-. apply appendField_exact.
      rewrite Forall_forall in Hg. by eapply Hg, list_elem_of_lookup_2.
    + split; [intros (_ & _ & H); done | intros [H _]]. split_and!; [done | done | lia | done].
    + intros _. f_equal. lia.
    + intros _. lia.
Qed.

Definition names_emission (ns : list bytes) : list field_spec := concat (map name_emission ns).
Definition names_width (ns : list bytes) : Z := sumZ (map name_width ns).

Lemma names_width_nonneg ns : 0 <= names_width ns.
Proof using Hr.
  induction ns as [|n ns IH]; [done | ]. pose proof (name_width_nonneg n). unfold names_width, sumZ in *. cbn. lia.
Qed.

Lemma emitNames_exact groups plans ns fs t :
  (forall n, default [] (groups !! n) = map enc_field (group n src)) ->
  (forall n, plans !! n = plan_for r n) -> 0 <= t <= MaxTotalCopiedItems L ->
  exact (ufold (emitName a current enforce groups plans) ns (out_of fs, t))
    (Forall name_possible ns /\ t + names_width ns <= MaxTotalCopiedItems L /\ emit_ok fs (names_emission ns))
    (out_of (fs ++ names_emission ns), t + names_width ns)
    (names_width ns + len (names_emission ns)) (len (enc_fields (names_emission ns))) 0.
Proof using All.
  intros Hgr Hpl. revert fs t. induction ns as [|n ns IH]; intros fs t Ht; cbn [ufold].
  - unfold names_width, names_emission, sumZ. cbn. rewrite app_nil_r, Z.add_0_r.
    eapply exact_conv; [apply exact_uret | | done | done].
    split; [done | intros _]. split_and!; [constructor | lia | apply emit_ok_nil].
  - pose proof (name_width_nonneg n). pose proof (names_width_nonneg ns).
    assert (names_emission (n :: ns) = name_emission n ++ names_emission ns) as -> by done.
    assert (names_width (n :: ns) = name_width n + names_width ns) as -> by done.
    eapply exact_conv.
    + eapply exact_bind; [by apply emitName_exact | intros (_ & Ht' & _)]. apply IH. lia.
    + rewrite Forall_cons, emit_ok_app. split.
      * intros ((H1 & H2) & H3 & H4 & H5). split_and!; try done; lia.
      * intros ((H1 & H2 & H3) & H4 & H5 & H6). split_and!; try done; lia.
    + intros _. rewrite app_assoc. f_equal. lia.
    + intros _. rewrite len_app, enc_fields_app, len_app. lia.
Qed.

(** ** Indexing the plans *)
Definition plan_names (ps : list headerPlan) : list bytes :=
  distinct_names (map rname src ++ map hp_canonicalName ps).
Definition plans_of (ps : list headerPlan) : gmap bytes headerPlan :=
  foldl (fun m p => <[hp_canonicalName p := p]> m) ∅ ps.
Definition plan_groups (ps : list headerPlan) : gmap bytes (list bytes) :=
  foldl (fun g p => match g !! hp_canonicalName p with
                    | Some _ => g | None => <[hp_canonicalName p := []]> g end) (groups_of src) ps.
Definition plan_index (ps : list headerPlan) : planIndex :=
  MkPlans (plans_of ps) (plan_groups ps) (plan_names ps) (sumZ (map len (plan_names ps))).
Definition total_names_fit (ns : list bytes) : Prop :=
  len ns <= MaxHeaderNames L /\ sumZ (map len ns) <= MaxTotalHeaderNameBytes L.

Lemma plan_names_snoc ps p : plan_names (ps ++ [p]) = add_name (plan_names ps) (hp_canonicalName p).
Proof. unfold plan_names. rewrite map_app, app_assoc. apply distinct_names_snoc. Qed.
Lemma plan_groups_snoc ps p :
  plan_groups (ps ++ [p]) =
  match plan_groups ps !! hp_canonicalName p with
  | Some _ => plan_groups ps | None => <[hp_canonicalName p := []]> (plan_groups ps) end.
Proof. unfold plan_groups. by rewrite foldl_app. Qed.

Lemma group_absent n : n ∉ map rname src -> group n src = [].
Proof.
  intros Hn. apply filter_all_False, list.Forall_forall. intros f Hf <-. apply Hn.
  by apply list_elem_of_fmap_2.
Qed.

Lemma plan_groups_lookup ps : forall n,
  plan_groups ps !! n =
  if decide (n ∈ plan_names ps) then Some (map enc_field (group n src)) else None.
Proof.
  induction ps as [|p ps IH] using rev_ind; intros n.
  - unfold plan_groups, plan_names. cbn. rewrite app_nil_r. apply groups_of_lookup.
  - rewrite plan_groups_snoc, plan_names_snoc, IH. unfold add_name.
    destruct (decide (hp_canonicalName p ∈ plan_names ps)) as [Hin|Hni]; [apply IH | ].
    destruct (decide (n = hp_canonicalName p)) as [-> | Hne].
    + rewrite lookup_insert_eq, decide_True by (rewrite elem_of_app, list_elem_of_singleton; by right).
      rewrite group_absent; [done | ]. intros Hs. apply Hni. unfold plan_names.
      rewrite elem_distinct_names, elem_of_app. by left.
    + rewrite lookup_insert_ne, IH by done.
      assert (n ∈ plan_names ps ++ [hp_canonicalName p] <-> n ∈ plan_names ps) as Hiff
        by (rewrite elem_of_app, list_elem_of_singleton; tauto).
      destruct (decide (n ∈ plan_names ps ++ [hp_canonicalName p])), (decide (n ∈ plan_names ps)); tauto.
Qed.

Lemma plan_groups_default ps n : default [] (plan_groups ps !! n) = map enc_field (group n src).
Proof.
  rewrite plan_groups_lookup. destruct (decide _) as [Hin|Hni]; [done | ].
  cbn. rewrite group_absent; [done | ]. intros Hs. apply Hni. unfold plan_names.
  rewrite elem_distinct_names, elem_of_app. by left.
Qed.

Lemma plans_of_lookup ps n :
  NoDup (map hp_canonicalName ps) ->
  plans_of ps !! n = List.find (fun p => bool_decide (hp_canonicalName p = n)) ps.
Proof.
  unfold plans_of. assert (forall m : gmap bytes headerPlan, NoDup (map hp_canonicalName ps) ->
    foldl (fun m p => <[hp_canonicalName p := p]> m) m ps !! n =
    match List.find (fun p => bool_decide (hp_canonicalName p = n)) ps with
    | Some p => Some p | None => m !! n end) as H.
  { induction ps as [|p ps IH]; intros m Hnd; [done | ]. cbn [foldl List.find map] in *.
    apply NoDup_cons in Hnd as [Hni Hnd]. rewrite IH by done.
    destruct (bool_decide_reflect (hp_canonicalName p = n)) as [Hp|Hp].
    - destruct (List.find _ ps) eqn:Ef; [ | by rewrite Hp, lookup_insert_eq].
      apply find_some in Ef as [Hin Hq%bool_decide_eq_true]. exfalso. apply Hni.
      rewrite Hp, <- Hq. apply list_elem_of_fmap_2, list_elem_of_In, Hin.
    - destruct (List.find _ ps); [done | ]. by rewrite lookup_insert_ne. }
  intros Hnd. rewrite (H ∅ Hnd), lookup_empty. by destruct (List.find _ ps).
Qed.

Lemma indexPlan_exact ps p :
  plan_ok p -> total_names_fit (plan_names ps) ->
  exact (indexPlan a (plan_index ps) p) (total_names_fit (plan_names (ps ++ [p]))) (plan_index (ps ++ [p])) 0 0 0.
Proof using Hlim.
  limit_facts Hlim. intros (_ & Hc & _) Hn. unfold indexPlan. cbn [plan_index pi_groups pi_plans pi_names pi_nameBytes].
  assert (plans_of (ps ++ [p]) = <[hp_canonicalName p := p]> (plans_of ps)) as Hp
    by (unfold plans_of; by rewrite foldl_app).
  unfold plan_index. rewrite Hp, plan_groups_snoc, plan_names_snoc, plan_groups_lookup.
  unfold add_name. destruct (decide (hp_canonicalName p ∈ plan_names ps)) as [Hin|Hni].
  - eapply exact_conv; [apply exact_uret | by split | done | done].
  - pose proof (len_nonneg (hp_name p)). pose proof (sumZ_len_nonneg (plan_names ps)).
    eapply exact_conv.
    + eapply exact_bind; [apply exact_require | intros _].
      eapply exact_bind; [apply exact_ulift, yields_checkSum; lia | intros _]. apply exact_uret.
    + unfold total_names_fit. rewrite len_app, map_app, sumZ_app, negb_true_iff, Z.leb_gt, Hc.
      change (len [hp_name p]) with 1. cbn. intuition lia.
    + intros _. rewrite map_app, sumZ_app, Hc. cbn. f_equal. lia.
    + done.
Qed.

Lemma total_names_fit_mono ns n : total_names_fit (add_name ns n) -> total_names_fit ns.
Proof.
  unfold total_names_fit, add_name. destruct (decide _); [done | ].
  rewrite len_app, map_app, sumZ_app. change (len [n]) with 1. cbn. pose proof (len_nonneg n). lia.
Qed.

Lemma indexPlans_exact ps qs :
  Forall plan_ok qs -> total_names_fit (plan_names ps) ->
  exact (ufold (indexPlan a) qs (plan_index ps)) (total_names_fit (plan_names (ps ++ qs)))
    (plan_index (ps ++ qs)) 0 0 0.
Proof using Hlim.
  intros Hq. revert ps. induction Hq as [|q qs Hq _ IH]; intros ps Hn; cbn [ufold].
  - rewrite app_nil_r. eapply exact_conv; [apply exact_uret | by split | done | done].
  - assert (ps ++ q :: qs = (ps ++ [q]) ++ qs) as -> by by rewrite <- app_assoc.
    eapply exact_conv.
    + eapply exact_bind; [by apply indexPlan_exact | intros Hn'; by apply IH].
    + split; [ | tauto]. intros Hf. split; [ | done].
      clear IH. induction qs as [|x qs IH] using rev_ind; [by rewrite app_nil_r in Hf | ].
      apply IH. rewrite app_assoc, plan_names_snoc in Hf. by apply total_names_fit_mono in Hf.
    + done.
    + lia.
Qed.

(** ** Plan budgets *)
Definition header_plans_fit (r : Recipe) : Prop :=
  hasHeaderRecipe r = true ->
  len (rc_headers r) <= MaxHeaderNames L /\
  Forall (fun p => len (hp_name p) <= MaxHeaderNameBytes L /\ len (hp_steps p) <= MaxStepsPerHeader L)
    (rc_headers r) /\
  sumZ (map (fun p => len (hp_name p)) (rc_headers r)) <= MaxTotalHeaderNameBytes L /\
  Forall (fun p => Forall (step_fits L) (hp_steps p)) (rc_headers r) /\
  budget_fits L (plans_budget (rc_headers r)).

Lemma sumZ_map_len_nonneg {X Y} (f : X -> list Y) l : 0 <= sumZ (map (fun x => len (f x)) l).
Proof. rewrite <- (map_map f len). apply sumZ_len_nonneg. Qed.

Lemma yields_headerBudgetLoop ps names b :
  Forall plan_ok ps -> 0 <= names <= MaxTotalHeaderNameBytes L -> budget_nonneg b -> budget_fits L b ->
  yields (headerBudgetLoop a ps names b)
    (Forall (fun p => len (hp_name p) <= MaxHeaderNameBytes L /\ len (hp_steps p) <= MaxStepsPerHeader L) ps /\
     names + sumZ (map (fun p => len (hp_name p)) ps) <= MaxTotalHeaderNameBytes L /\
     Forall (fun p => Forall (step_fits L) (hp_steps p)) ps /\
     budget_fits L (budget_add b (plans_budget ps))) tt.
Proof using Hlim.
  limit_facts Hlim. intros Hp. revert names b.
  induction Hp as [|p ps Hp Hps IH]; intros names b Hnm Hn Hf; cbn [headerBudgetLoop plans_budget foldr].
  - rewrite budget_add_0. eapply yields_conv; [apply yields_ret | | done].
    split; [done | ]. intros _. split_and!; [constructor | cbn; lia | constructor | done].
  - fold (plans_budget ps). rewrite <- budget_add_assoc. destruct Hp as (_ & _ & _ & Hp).
    assert (budget_nonneg (budget_add b (budget_of (hp_steps p)))) by by apply budget_add_nonneg, budget_of_nonneg.
    pose proof (len_nonneg (hp_name p)). pose proof (sumZ_map_len_nonneg hp_name ps).
    assert (sumZ (map (fun p => len (hp_name p)) (p :: ps)) =
            len (hp_name p) + sumZ (map (fun p => len (hp_name p)) ps)) as -> by done.
    eapply yields_conv.
    + eapply yields_bind; [apply yields_require | intros _].
      eapply yields_bind; [apply yields_checkSum; lia | intros Hs].
      eapply yields_bind; [apply yields_require | intros _].
      eapply yields_bind; [by apply yields_addSteps | intros [_ Hb]]. apply IH; [lia | done | done].
    + rewrite !Forall_cons, !negb_true_iff, !Z.ltb_ge. split.
      * intros ((G1 & G2) & G3 & (G4 & G5) & G6).
        apply budget_fits_mono in G6 as G7; [ | by apply plans_budget_nonneg].
        split_and!; try tauto; lia.
      * intros (G1 & G2 & G3 & (G4 & G5) & G6 & G7 & G8 & G9). split_and!; try tauto; lia.
    + done.
Qed.

Lemma yields_validateHeaderPlanBudgets :
  yields (validateHeaderPlanBudgets a r) (header_plans_fit r) tt.
Proof using Hlim Hr.
  limit_facts Hlim. unfold validateHeaderPlanBudgets, header_plans_fit.
  destruct (hasHeaderRecipe r); cbn [negb].
  - destruct Hr as [Hp _]. eapply yields_conv.
    + eapply yields_bind; [apply yields_require | intros _].
      apply yields_headerBudgetLoop; [done | lia | apply no_budget_nonneg | by apply no_budget_fits].
    + rewrite negb_true_iff, Z.ltb_ge, budget_0_add. intuition.
    + done.
  - eapply yields_conv; [apply yields_ret | by split | done].
Qed.

(** ** The reconstructed header block *)
Definition with_fields (fs : list field_spec) : state_spec :=
  MkSS fs (match ss_body ss with
           | Some (framing, b) => Some (body_framing framing fs, b)
           | None => None
           end).

Lemma fits_header_of fs :
  ap_rawOptions a = applierOptions L -> Forall field_fits fs -> len fs <= MaxHeaderFields L ->
  fits_header (ap_rawOptions a) fs.
Proof.
  intros Ho Hf Hn. rewrite Ho. split_and!; cbn [applierOptions RawMsg.MaxHeaderLineBytes
    RawMsg.MaxHeaderFieldBytes RawMsg.MaxHeaderFields]; [ | | done].
  - clear Hn. induction Hf as [|f fs [Hl _] _ IH]; [constructor | ]. cbn [map concat]. by apply Forall_app.
  - eapply Forall_impl; [exact Hf | ]. by intros f [_ ?].
Qed.

Lemma finish_exact fs :
  ap_rawOptions a = applierOptions L -> Forall wf_field fs -> Forall field_fits fs ->
  len fs <= MaxHeaderFields L -> len (enc_fields fs) <= MaxHeaderBytes L ->
  exact (finish a current enforce (out_of fs)) (state_fits fs) (state_of (with_fields fs)) 0 0 0.
Proof using Hlim Hss.
  intros Ho Hwf Hff Hn Hb. unfold finish. apply exact_ulift. cbn [out_of encoded headerBytes].
  rewrite len_map. eapply yields_conv with (C := state_fits fs /\ True); [ | tauto | done].
  eapply yields_bind; [apply yields_checkStateBytes | intros _].
  rewrite NewReconstructedHeaderBlock_ok;
    [ | by rewrite Ho; apply applierOptions_valid | done | by apply fits_header_of | by rewrite Ho].
  cbn [liftRaw obind]. unfold state_of, with_fields, body_framing.
  destruct Hss as [_ Hbody]. destruct (ss_body ss) as [[framing [ls last]]|]; cbn [ss_body ss_fields sta_availability sta_framing sta_body].
  - destruct Hbody as (_ & _ & Hk & Hho).
    destruct (decide (BodyAvailabilityKnown = BodyAvailabilityUnavailable)) as [?|_]; [done | ].
    assert (HeaderBlock_Len (block_of fs) = len fs) as Hlen by apply len_fields_of. rewrite Hlen.
    unfold newKnownState. cbn [block_of hb_initialized body_of body_initialized andb]. rewrite Hlen.
    change (Body_Len (body_of ls last)) with (len (unlines ls ++ last)).
    destruct framing; [ | | done].
    + destruct (Hho eq_refl) as (_ & -> & ->). rewrite bool_decide_eq_true_2 by done. cbn [andb].
      destruct fs as [|f fs].
      * rewrite decide_True by done. apply yields_ret.
      * rewrite decide_False by (by intros [_ ?]). rewrite (proj2 (Z.eqb_neq _ _)).
        2: { rewrite len_cons. pose proof (len_nonneg fs). lia. }
        cbn [MessageFraming_Known require obind]. rewrite bool_decide_eq_true_2 by done.
        apply yields_ret.
    + rewrite bool_decide_eq_false_2 by done. cbn [andb]. rewrite decide_False by (by intros [? _]).
      cbn [MessageFraming_Known require obind]. rewrite bool_decide_eq_false_2 by done. apply yields_ret.
  - apply yields_ret.
Qed.
End output.
End applier.

(** The copies of all names are the copies of the plans. *)
Lemma find_width_le (w : headerPlan -> Z) ps ns :
  (forall p, p ∈ ps -> 0 <= w p) -> NoDup ns ->
  sumZ (map (fun n => from_option w 0 (List.find (fun p => bool_decide (hp_canonicalName p = n)) ps)) ns)
  <= sumZ (map w ps).
Proof.
  revert ns. induction ps as [|p ps IH]; intros ns Hw Hns.
  - cbn [List.find from_option map]. induction Hns as [|n ns _ _ IHn]; cbn in *; [lia | ].
    unfold sumZ in *. cbn in *. lia.
  - assert (sumZ (map w (p :: ps)) = w p + sumZ (map w ps)) as -> by done.
    pose proof (Hw p ltac:(left)) as Hp. cbn [List.find].
    assert (forall q, q ∈ ps -> 0 <= w q) as Hw' by (intros; apply Hw; by right).
    destruct (decide (hp_canonicalName p ∈ ns)) as [Hin|Hni].
    + apply elem_of_Permutation in Hin as [ns' Hperm]. rewrite Hperm in Hns |- *.
      apply NoDup_cons in Hns as [Hni Hns]. cbn [map]. rewrite bool_decide_eq_true_2 by done. cbn [from_option].
      specialize (IH ns' Hw' Hns).
      rewrite (map_ext_in _ (fun n => from_option w 0 (List.find (fun p => bool_decide (hp_canonicalName p = n)) ps))).
      * unfold sumZ in *. cbn. lia.
      * intros n Hn%list_elem_of_In. rewrite bool_decide_eq_false_2; [done | ]. by intros <-.
    + rewrite (map_ext_in _ (fun n => from_option w 0 (List.find (fun p => bool_decide (hp_canonicalName p = n)) ps))).
      * specialize (IH ns Hw' Hns). lia.
      * intros n Hn%list_elem_of_In. rewrite bool_decide_eq_false_2; [done | ]. by intros <-.
Qed.

(** * Header application, exactly *)
Section apply.
Context (a : Applier) (Ha : applier_ok a) (ss : state_spec) (Hss : wf_state ss) (enforce : bool).
Context (r : Recipe) (Hv : Recipe_Valid r = true).
Abbreviation L := (ap_limits a).
Abbreviation src := (ss_fields ss).

(** The names the application handles, when there is a header recipe. *)
Definition recipe_names_fit : Prop :=
  hasHeaderRecipe r = true -> total_names_fit a (all_names r src).
Definition copied_width : Z :=
  if hasHeaderRecipe r then names_width r (sorted_names (all_names r src)) else 0.
Definition names_work : Z := if hasHeaderRecipe r then sort_work (all_names r src) else 0.

(** The header fields after application. *)
Definition new_fields : list field_spec := default [] (reconstruct_fields r src).
Definition header_cond : Prop :=
  header_plans_fit a r /\ source_fits a src /\ recipe_names_fit /\
  is_Some (reconstruct_fields r src) /\ Forall (field_fits a) new_fields /\
  out_fits a ss enforce new_fields.

Lemma emit_all fs :
  (emit_ok a ss enforce [] fs /\ state_fits a ss enforce fs) <->
  (Forall (field_fits a) fs /\ out_fits a ss enforce fs).
Proof using Ha.
  clear Hv. destruct Ha as [Hlim _]. limit_facts Hlim. unfold emit_ok. cbn [app]. split.
  - intros [[H1 [-> | H2]] H3]; split; try done. split_and!; [unfold len; cbn; lia | unfold len; cbn; lia | done].
  - intros [H1 H2]. split; [split; [done | by right] | apply H2].
Qed.

Lemma wf_data_fields n data :
  validHeaderFieldName n = true -> Forall plain data ->
  Forall wf_field (map (fun literal => MkFS n literal []) data).
Proof. intros Hn Hd. apply Forall_fmap. eapply Forall_impl; [exact Hd | ]. intros l Hl. by split_and!. Qed.

Lemma step_fields_wf n g s fs :
  validHeaderFieldName n = true -> step_ok s -> Forall wf_field g -> step_fields n g s = Some fs ->
  Forall wf_field fs.
Proof.
  intros Hn Hs Hg. unfold step_fields, step_ok in *. destruct (copyRange s) as [[start end_]|].
  - destruct (end_ <=? len g); [intros [= <-] | done]. by apply Forall_take, Forall_drop.
  - intros [= <-]. apply wf_data_fields; [done | apply Hs].
Qed.

Lemma named_fields_wf n fs : named_fields r src n = Some fs -> Forall wf_field fs.
Proof using Hss Hv.
  destruct Hss as [Hsrc _]. apply Recipe_Valid_ok in Hv as Hr. unfold named_fields.
  destruct (plan_for r n) as [p|] eqn:Ep; [ | intros [= <-]; by apply group_wf].
  apply plan_for_ok in Ep as [(Hn & _ & _ & Hs) _]; [ | done]. unfold plan_fields.
  destruct (mapM _ (hp_steps p)) as [emitted|] eqn:E; [ | done]. cbn. intros [= <-].
  apply Forall_reverse, Forall_concat. apply mapM_Some in E.
  apply list.Forall_forall. intros fs Hin. apply list_elem_of_lookup in Hin as [i Hi].
  destruct (Forall2_lookup_r _ _ _ _ _ E Hi) as (s & Hsi & Hfs).
  eapply step_fields_wf; [exact Hn | | | exact Hfs].
  - rewrite Forall_forall in Hs. by eapply Hs, list_elem_of_lookup_2.
  - by apply Forall_reverse, group_wf.
Qed.

Lemma reconstruct_fields_wf fs : reconstruct_fields r src = Some fs -> Forall wf_field fs.
Proof using Hss Hv.
  unfold reconstruct_fields. destruct (hasHeaderRecipe r); [ | intros [= <-]; apply Hss].
  destruct (mapM _ _) as [emitted|] eqn:E; [ | done]. cbn. intros [= <-].
  apply Forall_concat. apply mapM_Some in E. apply list.Forall_forall. intros fs Hin.
  apply list_elem_of_lookup in Hin as [i Hi]. destruct (Forall2_lookup_r _ _ _ _ _ E Hi) as (n & _ & Hfs).
  by eapply named_fields_wf.
Qed.

Lemma new_fields_wf : Forall wf_field new_fields.
Proof using Hss Hv.
  unfold new_fields. destruct (reconstruct_fields r src) as [fs|] eqn:E; [ | constructor].
  by apply reconstruct_fields_wf.
Qed.

Lemma plans_budget_copied ps :
  pb_copied (plans_budget ps) = sumZ (map (fun p => steps_width (hp_steps p)) ps).
Proof. induction ps as [|p ps IH]; [done | ]. cbn [plans_budget foldr budget_add pb_copied]. fold (plans_budget ps). by rewrite IH. Qed.

Lemma sorted_names_perm ns : sorted_names ns ≡ₚ ns.
Proof. apply merge_sort_Permutation. Qed.

Lemma names_width_le : names_width r (sorted_names (all_names r src)) <= pb_copied (plans_budget (rc_headers r)).
Proof using Hv.
  apply Recipe_Valid_ok in Hv as (Hp & _). unfold names_width. rewrite plans_budget_copied, sorted_names_perm.
  apply (find_width_le (fun p => steps_width (hp_steps p))).
  - intros p Hin. rewrite Forall_forall in Hp. apply Hp in Hin as (_ & _ & _ & Hs). by apply sumZ_width_nonneg.
  - apply NoDup_distinct_names.
Qed.

Lemma names_possible ns :
  Forall (fun p => Forall (step_fits L) (hp_steps p)) (rc_headers r) ->
  Forall (name_possible a r src) ns <-> Forall (fun n => is_Some (named_fields r src n)) ns.
Proof.
  intros Hf. split; intros H; (eapply Forall_impl; [exact H | ]); intros n; [by intros [? _] | ].
  intros Hn. split; [done | ]. unfold plan_for. destruct (List.find _ (rc_headers r)) as [p|] eqn:E; [ | done].
  apply find_some in E as [Hin%list_elem_of_In _]. rewrite Forall_forall in Hf. specialize (Hf p Hin).
  eapply Forall_impl; [exact Hf | ]. by intros s [? _].
Qed.

Lemma new_fields_names :
  hasHeaderRecipe r = true -> is_Some (reconstruct_fields r src) ->
  new_fields = names_emission r src (sorted_names (all_names r src)).
Proof.
  intros Hh. unfold new_fields, reconstruct_fields. rewrite Hh. intros [x Hx].
  destruct (mapM _ _) as [emitted|] eqn:E; [ | done]. cbn. rewrite (mapM_default _ []) in E.
  - by injection E as <-.
  - apply mapM_is_Some_iff. by eexists.
Qed.
Lemma reconstruct_fields_possible :
  hasHeaderRecipe r = true ->
  is_Some (reconstruct_fields r src) <->
  Forall (fun n => is_Some (named_fields r src n)) (sorted_names (all_names r src)).
Proof.
  intros Hh. unfold reconstruct_fields. rewrite Hh, <- mapM_is_Some_iff.
  destruct (mapM _ _); cbn; split; try done; by intros [? ?].
Qed.


(** Emitting all fields and building the block, from the empty output. *)
Lemma header_conditions fs :
  Forall wf_field fs -> is_Some (Some fs) ->
  emit_ok a ss enforce [] fs ->
  exact (finish a (state_of ss) enforce (out_of fs)) (state_fits a ss enforce fs)
    (state_of (with_fields ss fs)) 0 0 0.
Proof using Ha Hss.
  clear Hv. destruct Ha as (Hlim & Ho & _). limit_facts Hlim. intros Hwf _ [Hff Hout].
  assert (len fs <= MaxHeaderFields L /\ len (enc_fields fs) <= MaxHeaderBytes L) as [Hn Hb].
  { destruct Hout as [-> | (H1 & H2 & _)]; [unfold len; cbn; lia | done]. }
  by apply finish_exact.
Qed.

Lemma header_tail_plain :
  hasHeaderRecipe r = false ->
  exact (let! output := ufold (appendField a (state_of ss) enforce) (map enc_field src) (MkHeaderOutput [] 0) in
         finish a (state_of ss) enforce output)
    (Forall (field_fits a) src /\ out_fits a ss enforce src)
    (state_of (with_fields ss src)) (len src) (len (enc_fields src)) 0.
Proof using Ha Hss Hv.
  intros Hh. pose proof Ha as (Hlim & _). pose proof Hss as [Hsrc _].
  change (MkHeaderOutput [] 0) with (out_of []). eapply exact_conv.
  - eapply exact_bind; [eapply (emit_loop a ss enforce _ _ src) | intros Hem; by apply header_conditions].
    apply Forall2_fmap_l, Forall2_same_length_lookup_2; [done | ]. intros i f f' Hf Hf' fs'.
    rewrite Hf in Hf'. injection Hf' as <-. apply appendField_exact; [done.. | ].
    rewrite Forall_forall in Hsrc. by eapply Hsrc, list_elem_of_lookup_2.
  - symmetry. apply emit_all.
  - done.
  - lia.
Qed.

Lemma header_tail_recipe :
  hasHeaderRecipe r = true -> header_plans_fit a r -> source_fits a src ->
  exact (let! x := ufold (indexPlan a) (rc_headers r)
                     (MkPlans ∅ (groups_of src) (names_of src) (sumZ (map len (names_of src)))) in
         let! names := sortHeaderNames (pi_names x) in
         let! (output, _) := ufold (emitName a (state_of ss) enforce (pi_groups x) (pi_plans x)) names
                               (MkHeaderOutput [] 0, 0) in
         finish a (state_of ss) enforce output)
    (total_names_fit a (all_names r src) /\ is_Some (reconstruct_fields r src) /\
     Forall (field_fits a) new_fields /\ out_fits a ss enforce new_fields)
    (state_of (with_fields ss new_fields))
    (names_width r (sorted_names (all_names r src)) + len new_fields) (len (enc_fields new_fields))
    (sort_work (all_names r src)).
Proof using Ha Hss Hv.
  intros Hh Hplans Hsource. pose proof (Recipe_Valid_ok r Hv) as Hr. pose proof Ha as (Hlim & Ho & _).
  pose proof Hss as [Hsrc _]. limit_facts Hlim.
  destruct (Hplans Hh) as (_ & _ & _ & Hsteps & Hbudget).
  assert (names_of src = plan_names src []) as Hnames by by (unfold plan_names; rewrite app_nil_r).
  rewrite Hnames. change (MkPlans _ _ _ _) with (plan_index src []).
  change (MkHeaderOutput [] 0) with (out_of []).
  assert (names_width r (sorted_names (all_names r src)) <= MaxTotalCopiedItems L) as Hwidth
    by (pose proof names_width_le; destruct Hbudget as (_ & _ & ? & _); lia).
  set (E := names_emission r src (sorted_names (all_names r src))).
  assert (Forall (name_possible a r src) (sorted_names (all_names r src)) <->
          is_Some (reconstruct_fields r src)) as Hposs
    by by rewrite names_possible, reconstruct_fields_possible.
  eapply exact_conv.
  - eapply exact_bind.
    { apply indexPlans_exact; [done | apply Hr | ]. rewrite <- Hnames.
      destruct Hsource as (_ & _ & _ & ? & ? & _). done. }
    intros _. cbn [app]. eapply exact_bind; [apply sortHeaderNames_exact | intros _].
    cbn [plan_index pi_groups pi_plans pi_names]. change (plan_names src (rc_headers r)) with (all_names r src).
    eapply exact_bind.
    + apply (emitNames_exact a Hlim ss Hss enforce r Hr src Hsrc); [apply plan_groups_default | | lia].
      intros n. apply plans_of_lookup. apply strictly_sorted_NoDup, Hr.
    + intros (Hp%Hposs & _ & Hem). cbn [app]. apply header_conditions; [ | done | exact Hem].
      unfold E. rewrite <- new_fields_names by done. apply new_fields_wf.
  - rewrite Hposs, Z.add_0_l. cbn [app]. change (plan_names src (rc_headers r)) with (all_names r src). split.
    + intros (G1 & G2 & G3). rewrite new_fields_names in G3 by done.
      apply emit_all in G3 as [G3 G4]. by split_and!.
    + intros (G1 & _ & (G2 & _ & G3) & G4). pose proof (proj1 (emit_all _) (conj G3 G4)) as [G5 G6].
      rewrite new_fields_names by done. by split_and!.
  - intros (_ & _ & (H2%Hposs & _) & _). by rewrite new_fields_names.
  - intros (_ & _ & (H2%Hposs & _) & _). rewrite new_fields_names by done. fold E.
    change (pi_names (plan_index src (rc_headers r))) with (all_names r src). lia.
Qed.

Theorem applyHeadersUsing_exact :
  exact (applyHeadersUsing a (state_of ss) r enforce) header_cond
    (state_of (with_fields ss new_fields)) (len src + (copied_width + len new_fields))
    (len (enc_fields new_fields)) names_work.
Proof using Ha Hss Hv.
  pose proof (Recipe_Valid_ok r Hv) as Hr. pose proof Ha as (Hlim & Ho & _). pose proof Hss as [Hsrc _].
  unfold applyHeadersUsing.
  assert (Applier_valid a && State_Valid (state_of ss) && Recipe_Valid r = true) as Hvalid
    by by rewrite applier_ok_valid, state_of_Valid, Hv.
  assert (sta_headers (state_of ss) = block_of src) as Hhead
    by by (unfold state_of; destruct (ss_body ss) as [[? [? ?]]|]).
  rewrite Hvalid, Hhead. unfold header_cond, recipe_names_fit, copied_width, names_work.
  destruct (hasHeaderRecipe r) eqn:Hh; cbn [negb].
  - eapply exact_conv.
    + eapply exact_bind; [apply exact_require | intros _].
      eapply exact_bind; [by apply exact_ulift, yields_validateHeaderPlanBudgets | intros Hplans].
      eapply exact_bind; [by apply collectHeaderGroups_exact | intros Hsource].
      by apply header_tail_recipe.
    + intuition.
    + done.
    + lia.
  - assert (new_fields = src) as -> by by (unfold new_fields, reconstruct_fields; rewrite Hh).
    eapply exact_conv.
    + eapply exact_bind; [apply exact_require | intros _].
      eapply exact_bind; [by apply exact_ulift, yields_validateHeaderPlanBudgets | intros Hplans].
      eapply exact_bind; [by apply collectHeaderGroups_exact | intros Hsource].
      by apply header_tail_plain.
    + unfold reconstruct_fields. rewrite Hh. intuition (done || congruence).
    + done.
    + lia.
Qed.
End apply.
