(* ===== verification/RecipeBodySpec.v ===== *)
(** * The body dimension of a recipe application meets its specification *)

From S2P Require Import Prelude GoBytes RawMsg RawBody RawParser RawSpec RawInsertion.
From S2P Require Import RecipeTypes RecipeUsage RecipeHeader RecipeBody RecipeHeaderSpec.
#[local] Open Scope Z_scope.

(** ** Segments: lines with their terminator width *)
Definition seg_bytes (s : bytes * Z) : bytes := s.1 ++ (if s.2 =? 0 then [] else crlf).
Definition segs_bytes (segs : list (bytes * Z)) : bytes := concat (map seg_bytes segs).
Definition wf_seg (s : bytes * Z) : Prop := plain s.1 /\ (s.2 = 2 \/ s.2 = 0 /\ s.1 <> []).

Lemma segs_bytes_app s t : segs_bytes (s ++ t) = segs_bytes s ++ segs_bytes t.
Proof. unfold segs_bytes. by rewrite map_app, concat_app. Qed.
Lemma segs_bytes_one s : segs_bytes [s] = seg_bytes s.
Proof. unfold segs_bytes. cbn. apply app_nil_r. Qed.

Lemma segments_bytes ls last : segs_bytes (segments ls last) = unlines ls ++ last.
Proof.
  induction ls as [|l ls IH].
  - unfold segments. destruct (decide (last = [])) as [-> | Hne]; [done | ].
    cbn [map app]. rewrite segs_bytes_one. unfold seg_bytes. cbn. by rewrite app_nil_r.
  - rewrite segments_cons. change (segs_bytes ((l, 2) :: segments ls last)) with
      ((l ++ crlf) ++ segs_bytes (segments ls last)).
    rewrite IH, unlines_cons, <- !app_assoc. done.
Qed.

Lemma segments_wf ls last : Forall plain ls -> plain last -> Forall wf_seg (segments ls last).
Proof.
  intros Hls Hlast. unfold segments. apply Forall_app. split.
  - apply Forall_fmap. eapply Forall_impl; [exact Hls | ]. intros l Hl. split; [done | by left].
  - destruct (decide _); [constructor | ]. constructor; [ | constructor]. split; [done | by right].
Qed.

(** [join_segments] succeeds when only the last line is unterminated, and is
    then the inverse of [segments]. *)
Lemma join_segments_Some segs ls last :
  Forall wf_seg segs -> join_segments segs = Some (ls, last) ->
  segs = segments ls last /\ Forall plain ls /\ plain last.
Proof.
  intros Hwf. revert ls last. induction Hwf as [|[l w] segs [Hp Hw] Hwf IH]; intros ls last.
  - cbn. intros [= <- <-]. by split_and!; try constructor.
  - cbn in Hp, Hw. destruct Hw as [-> | [-> Hne]].
    + destruct segs as [|s segs]; cbn [join_segments].
      * intros [= <- <-]. split_and!; [done | by constructor | constructor].
      * intros H. change (('(ls', last') ← join_segments (s :: segs); Some (l :: ls', last')) = Some (ls, last)) in H.
        destruct (join_segments (s :: segs)) as [[ls' last']|]; [ | done]. cbn in H. injection H as <- <-.
        destruct (IH ls' last' eq_refl) as (-> & Hl & Ha).
        split_and!; [by rewrite segments_cons | by constructor | done].
    + cbn [join_segments]. destruct segs as [|s segs]; [ | done]. intros [= <- <-].
      unfold segments. rewrite decide_False by done. split_and!; [done | constructor | done].
Qed.

Definition term_ok (emissions ordinal : Z) (segs : list (bytes * Z)) : Prop :=
  forall k s, segs !! k = Some s -> s.2 = 0 -> ordinal + Z.of_nat k = emissions - 1.

Lemma term_ok_nil em o : term_ok em o [].
Proof. intros k s Hk. by rewrite lookup_nil in Hk. Qed.
Lemma term_ok_app em o s t : term_ok em o (s ++ t) <-> term_ok em o s /\ term_ok em (o + len s) t.
Proof.
  unfold term_ok. split.
  - intros H. split; intros k x Hk Hx.
    + apply (H k x); [ | done]. by apply lookup_app_l_Some.
    + specialize (H (length s + k)%nat x). rewrite lookup_app_r in H by lia.
      replace (length s + k - length s)%nat with k in H by lia. specialize (H Hk Hx). unfold len. lia.
  - intros [H1 H2] k x Hk Hx. apply lookup_app_Some in Hk as [Hk | [Hl Hk]]; [by eapply H1 | ].
    specialize (H2 _ _ Hk Hx). unfold len in H2. lia.
Qed.

Lemma join_segments_iff segs :
  Forall wf_seg segs -> is_Some (join_segments segs) <-> term_ok (len segs) 0 segs.
Proof.
  induction 1 as [|[l w] segs [Hp Hw] Hwf IH].
  - split; [intros _ k s Hk; by rewrite lookup_nil in Hk | by eexists].
  - change ((l, w) :: segs) with ([(l, w)] ++ segs). rewrite term_ok_app, len_app. change (len [(l, w)]) with 1.
    assert (term_ok (1 + len segs) (0 + 1) segs <-> term_ok (len segs) 0 segs) as ->.
    { unfold term_ok. split; intros H k s Hk Hs; specialize (H k s Hk Hs); lia. }
    rewrite <- IH. cbn in Hw. destruct Hw as [-> | [-> Hne]].
    + transitivity (is_Some (join_segments segs)).
      * destruct segs as [|s segs]; [cbn; split; by eexists | ].
        change (join_segments ([(l, 2)] ++ s :: segs)) with
          ('(ls', last') ← join_segments (s :: segs); Some (l :: ls', last')).
        destruct (join_segments (s :: segs)) as [[? ?]|]; cbn; split; try done; by intros [? ?].
      * split; [ | tauto]. intros H. split; [ | done]. intros k s Hk Hs.
        apply list_lookup_singleton_Some in Hk as [_ <-]. done.
    + cbn [app join_segments]. destruct segs as [|s segs].
      * split; [ | intros _; by eexists]. intros _. split; [ | by eexists].
        intros k s Hk _. apply list_lookup_singleton_Some in Hk as [-> _]. done.
      * split; [by intros [? ?] | ]. intros [H _]. specialize (H 0%nat (l, 0) eq_refl eq_refl).
        rewrite len_cons in H. pose proof (len_nonneg segs). lia.
Qed.

(** ** Reading source lines *)
Lemma layout_lookup segs i pos k s :
  segs !! k = Some s ->
  layout i pos segs !! k =
  Some (MkLine (i + Z.of_nat k) (pos + len (segs_bytes (take k segs)))
          (pos + len (segs_bytes (take k segs)) + len s.1) s.2 true) \/ ~ Forall wf_seg segs.
Proof.
  intros Hk. destruct (decide (Forall (fun s => s.2 = 2 \/ s.2 = 0) segs)) as [Hw|Hw].
  2: { right. intros Hwf. apply Hw. eapply Forall_impl; [exact Hwf | ]. cbn. intros x [_ H]. tauto. }
  left. revert i pos k Hk. induction Hw as [|[l w] segs Hw _ IH]; intros i pos k Hk; [done | ].
  destruct k as [|k]; cbn in Hk.
  - injection Hk as <-. cbn [take layout fst snd]. change (segs_bytes []) with (@nil byte).
    change (len (@nil byte)) with 0. cbn [lookup list_lookup]. do 2 f_equal; lia.
  - change (layout i pos ((l, w) :: segs) !! S k) with (layout (i + 1) (pos + len l + w) segs !! k).
    rewrite (IH (i + 1) (pos + len l + w) k Hk).
    change (segs_bytes (take (S k) ((l, w) :: segs))) with (seg_bytes (l, w) ++ segs_bytes (take k segs)).
    rewrite len_app. assert (len (seg_bytes (l, w)) = len l + w) as ->.
    { unfold seg_bytes. cbn in *. destruct Hw as [-> | ->]; cbn; rewrite len_app; done. }
    do 2 f_equal; lia.
Qed.

Section source.
Context (ls : list bytes) (last : bytes) (Hls : Forall plain ls) (Hlast : plain last).
Abbreviation segs := (segments ls last).

Lemma body_line k s :
  segs !! k = Some s ->
  body_lines (body_of ls last) !! k =
  Some (MkLine (Z.of_nat k) (len (segs_bytes (take k segs)))
          (len (segs_bytes (take k segs)) + len s.1) s.2 true).
Proof using All.
  intros Hk. cbn [body_of body_lines].
  destruct (layout_lookup segs 0 0 k s Hk) as [H|H]; [exact H | ].
  exfalso. apply H. by apply segments_wf.
Qed.

Lemma length_layout i pos l : length (layout i pos l) = length l.
Proof. revert i pos. induction l as [|[l w] rest IH]; intros; cbn; [done | by rewrite IH]. Qed.
Lemma len_body_lines : len (body_lines (body_of ls last)) = len segs.
Proof. unfold len. cbn [body_of body_lines]. by rewrite length_layout. Qed.

Lemma wf_seg_lookup k s : segs !! k = Some s -> wf_seg s.
Proof using All.
  intros Hk. pose proof (segments_wf ls last Hls Hlast) as H. rewrite Forall_forall in H.
  by eapply H, list_elem_of_lookup_2.
Qed.
Lemma len_seg_bytes s : wf_seg s -> len (seg_bytes s) = len s.1 + s.2.
Proof. intros [_ Hw]. unfold seg_bytes. rewrite len_app. destruct Hw as [-> | [-> _]]; done. Qed.

Lemma body_line_len i s :
  0 <= i -> segs !! Z.to_nat i = Some s -> Body_LineEncodedLen (body_of ls last) i = Some (len (seg_bytes s)).
Proof using All.
  intros Hi Hk. unfold Body_LineEncodedLen. rewrite len_body_lines.
  pose proof (lookup_lt_Some _ _ _ Hk) as Hlt. rewrite (body_line _ _ Hk).
  rewrite (proj2 (Z.ltb_ge _ _)) by done. rewrite (proj2 (Z.leb_gt _ _)) by (unfold len; lia).
  cbn. rewrite len_seg_bytes by by eapply wf_seg_lookup. f_equal. lia.
Qed.
Lemma body_line_bytes i s :
  0 <= i -> segs !! Z.to_nat i = Some s -> Body_LineBytes (body_of ls last) i = Ret (Some (seg_bytes s)).
Proof using All.
  intros Hi Hk. unfold Body_LineBytes. rewrite len_body_lines.
  pose proof (lookup_lt_Some _ _ _ Hk) as Hlt. rewrite (body_line _ _ Hk).
  rewrite (proj2 (Z.ltb_ge _ _)) by done. rewrite (proj2 (Z.leb_gt _ _)) by (unfold len; lia).
  cbn [orb startOffset endOffset lineEndingWidth].
  rewrite (zslice_mid _ (segs_bytes (take (Z.to_nat i) segs)) (seg_bytes s) (segs_bytes (drop (S (Z.to_nat i)) segs))).
  - done.
  - cbn [body_of body_bytes]. rewrite <- segments_bytes, <- (take_drop_middle _ _ _ Hk) at 1.
    change (s :: drop (S (Z.to_nat i)) segs) with ([s] ++ drop (S (Z.to_nat i)) segs).
    by rewrite !segs_bytes_app, segs_bytes_one.
  - done.
  - rewrite len_seg_bytes by by eapply wf_seg_lookup. lia.
Qed.
End source.

Lemma yields_checkBodySum name limit x y :
  0 <= x -> 0 <= y -> limit <= MaxInt ->
  yields (checkBodySum name limit (checkedAdd x y)) (x + y <= limit) (x + y).
Proof.
  intros Hx Hy Hl z. unfold checkBodySum.
  destruct (checkedAdd_cases x y Hx Hy) as [[? ->] | [? ->]]; cbn [fst snd negb orb].
  - destruct (Z.ltb_spec limit (x + y)); cbn.
    + split; [done | lia].
    + split; [intros [= <-]; split; lia | by intros [_ ->]].
  - split; [done | lia].
Qed.

(** ** Feasibility of the copies *)
Definition step_count (s : step) : Z :=
  if copyRange s is Some (start, end_) then end_ - start + 1 else len (st_data s).
Definition steps_count (steps : list step) : Z := sumZ (map step_count steps).
Definition step_segs (source : list (bytes * Z)) (s : step) : list (bytes * Z) :=
  default [] (step_segments source s).

Lemma step_count_nonneg s : step_ok s -> 0 <= step_count s.
Proof.
  unfold step_ok, step_count. destruct (copyRange s) as [[? ?]|]; [lia | ]. intros _. apply len_nonneg.
Qed.
Lemma steps_count_nonneg steps : Forall step_ok steps -> 0 <= steps_count steps.
Proof.
  unfold steps_count. induction 1 as [|s steps Hs _ IH]; [done | ]. apply step_count_nonneg in Hs.
  unfold sumZ in *. cbn. lia.
Qed.
Lemma step_segs_len source s :
  step_ok s -> is_Some (step_segments source s) -> len (step_segs source s) = step_count s.
Proof.
  unfold step_ok, step_segs, step_segments, step_count. destruct (copyRange s) as [[start end_]|].
  - intros [Hs _]. destruct (Z.leb_spec end_ (len source)) as [Hle|]; [ | by intros [? ?]]. intros _.
    cbn [from_option id]. unfold len in *. rewrite length_take, length_drop. lia.
  - intros _ _. cbn [from_option id]. unfold len. by rewrite length_map.
Qed.
Lemma step_segs_wf source s :
  Forall wf_seg source -> step_ok s -> Forall wf_seg (step_segs source s).
Proof.
  intros Hsrc. unfold step_ok, step_segs, step_segments. destruct (copyRange s) as [[start end_]|].
  - intros _. destruct (end_ <=? len source); cbn [from_option id]; [ | constructor].
    by apply Forall_take, Forall_drop.
  - intros (_ & _ & Hd). cbn [from_option id]. apply Forall_fmap.
    eapply Forall_impl; [exact Hd | ]. intros l Hl. split; [done | by left].
Qed.

Section copies.
Context (source : list (bytes * Z)) (limit : Z) (Hlimit : limit <= MaxInt).

Definition copies_possible (steps : list step) : Prop :=
  Forall (fun s => is_Some (step_segments source s)) steps.

Lemma countEmission_exact s em :
  step_ok s -> 0 <= em ->
  exact (countEmission (len source) limit em s)
    (is_Some (step_segments source s) /\ em + step_count s <= limit) (em + step_count s)
    (step_width s) 0 0.
Proof using Hlimit.
  intros Hs Hem. pose proof (step_count_nonneg s Hs) as Hc.
  unfold countEmission, step_segments, step_width, step_ok, step_count in *.
  destruct (copyRange s) as [[start end_]|].
  - destruct Hs as [Hs _]. eapply exact_conv.
    + eapply exact_bind; [apply exact_require | intros _].
      eapply exact_bind; [apply exact_chargeItems; lia | intros _].
      apply exact_ulift, yields_checkBodySum; lia.
    + rewrite negb_true_iff, Z.ltb_ge. destruct (Z.leb_spec end_ (len source)).
      * split; [intros [_ ?]; by split_and! | ]. intros (? & _ & ?). split; [by eexists | done].
      * split; [by intros [[? ?] _] | lia].
    + done.
    + lia.
  - eapply exact_conv; [apply exact_ulift, yields_checkBodySum; lia | | done | done].
    split; [tauto | ]. intros ?. split; [by eexists | done].
Qed.

Lemma countEmissions_exact steps em :
  Forall step_ok steps -> 0 <= em <= limit ->
  exact (ufold (countEmission (len source) limit) steps em)
    (copies_possible steps /\ em + steps_count steps <= limit) (em + steps_count steps)
    (sumZ (map step_width steps)) 0 0.
Proof using Hlimit.
  intros Hok. revert em. induction Hok as [|s steps Hs Hok IH]; intros em Hem; cbn [ufold].
  - unfold steps_count, sumZ. cbn. rewrite Z.add_0_r.
    eapply exact_conv; [apply exact_uret | | done | done]. split; [done | split; [constructor | lia]].
  - pose proof (step_count_nonneg s Hs). pose proof (steps_count_nonneg steps Hok).
    assert (steps_count (s :: steps) = step_count s + steps_count steps) as -> by done.
    assert (sumZ (map step_width (s :: steps)) = step_width s + sumZ (map step_width steps)) as -> by done.
    eapply exact_conv.
    + eapply exact_bind; [apply countEmission_exact; [done | lia] | intros [_ ?]; apply IH; lia].
    + unfold copies_possible. rewrite Forall_cons. intuition lia.
    + lia.
    + lia.
Qed.
End copies.

Section terminated.
Context (ls : list bytes) (last : bytes) (Hls : Forall plain ls) (Hlast : plain last).
Abbreviation source := (segments ls last).
Abbreviation lines := (body_lines (body_of ls last)).

Lemma yields_checkTerminated em idx numbers segs ord :
  Forall2 (fun n s => 0 < n /\ source !! Z.to_nat (n - 1) = Some s) numbers segs ->
  0 <= ord -> ord + len segs <= MaxInt ->
  yields (checkTerminated lines numbers em idx ord) (term_ok em ord segs) (ord + len segs).
Proof using All.
  intros H. revert ord. induction H as [|n s numbers segs [Hn Hs] _ IH]; intros ord Ho Hmax; cbn [checkTerminated].
  - rewrite Z.add_0_r. eapply yields_conv; [apply yields_ret | | done].
    split; [done | ]. intros _. apply term_ok_nil.
  - rewrite (body_line ls last Hls Hlast _ _ Hs). cbn [from_option lineEndingWidth].
    rewrite len_cons in *. pose proof (len_nonneg segs). rewrite checkedAdd_ok by lia.
    change (s :: segs) with ([s] ++ segs). rewrite (term_ok_app em ord [s] segs). change (len [s]) with 1.
    eapply yields_conv.
    + eapply yields_bind; [apply yields_require | intros _].
      eapply yields_bind; [apply yields_require | intros _]. apply IH; lia.
    + rewrite negb_true_iff, andb_false_iff, negb_false_iff, Z.eqb_neq, Z.eqb_eq.
      split.
      * intros [H1 H2]. split_and!; [ | done | done]. destruct (decide (s.2 = 0)) as [E|E]; [right | by left].
        specialize (H1 0%nat s eq_refl E). lia.
      * intros ([H1|H1] & _ & H2); (split; [ | done]); intros k x Hk Hx;
          apply list_lookup_singleton_Some in Hk as [-> <-]; [done | lia].
    + intros _. lia.
Qed.

Lemma copy_numbers start end_ :
  0 < start <= end_ -> end_ <= len source ->
  Forall2 (fun n s => 0 < n /\ source !! Z.to_nat (n - 1) = Some s) (seqZ start (end_ - start + 1))
    (take (Z.to_nat (end_ - start + 1)) (drop (Z.to_nat (start - 1)) source)).
Proof.
  intros Hs He. apply Forall2_same_length_lookup_2.
  { rewrite length_seqZ, length_take, length_drop. unfold len in He. lia. }
  intros i n s Hn Hsi. apply lookup_seqZ in Hn as [-> _].
  apply lookup_take_Some in Hsi as [Hsi _]. rewrite lookup_drop in Hsi. split; [lia | ].
  rewrite <- Hsi. f_equal. lia.
Qed.

Lemma yields_terminated_step em s idx ord :
  step_ok s -> is_Some (step_segments source s) -> 0 <= ord -> ord + step_count s <= MaxInt ->
  yields
    (match copyRange s with
     | Some (start, end_) => checkTerminated lines (seqZ start (end_ - start + 1)) em idx ord
     | None =>
         let (ordinal, ok) := checkedAdd ord (len (st_data s)) in
         check require ok invalidStateError ;; Ret ordinal
     end) (term_ok em ord (step_segs source s)) (ord + step_count s).
Proof using All.
  intros Hs Hp Ho Hmax. pose proof (step_segs_len source s Hs Hp) as Hlen. rewrite <- Hlen in *.
  unfold step_ok, step_segs, step_segments in *. destruct (copyRange s) as [[start end_]|].
  - destruct (Z.leb_spec end_ (len source)) as [Hle|]; [ | by destruct Hp].
    cbn [from_option id] in *. destruct Hs as [Hs _].
    apply yields_checkTerminated; [by apply copy_numbers | done | lia].
  - cbn [from_option id] in *.
    assert (len (map (fun literal : bytes => (literal, 2)) (st_data s)) = len (st_data s)) as Hl
      by (unfold len; by rewrite length_map).
    rewrite Hl in *. pose proof (len_nonneg (st_data s)). rewrite checkedAdd_ok by lia. cbn [require obind].
    eapply yields_conv; [apply yields_ret | | done]. split; [done | ]. intros _ k x Hk Hx.
    apply list_lookup_fmap_Some in Hk as (l & -> & _). done.
Qed.

Lemma yields_checkTerminatedSteps em steps idx ord :
  Forall step_ok steps -> copies_possible source steps -> 0 <= ord -> ord + steps_count steps <= MaxInt ->
  yields (checkTerminatedSteps lines steps em idx ord)
    (term_ok em ord (concat (map (step_segs source) steps))) tt.
Proof using All.
  intros Hok Hp. revert idx ord. induction Hok as [|s steps Hs Hok IH]; intros idx ord Ho Hmax;
    cbn [checkTerminatedSteps].
  - eapply yields_conv; [apply yields_ret | | done]. split; [done | ]. intros _. apply term_ok_nil.
  - apply Forall_cons in Hp as [Hps Hp].
    assert (steps_count (s :: steps) = step_count s + steps_count steps) as Hc by done. rewrite Hc in Hmax.
    pose proof (step_count_nonneg s Hs). pose proof (steps_count_nonneg steps Hok).
    pose proof (step_segs_len source s Hs Hps) as Hlen.
    cbn [map concat]. rewrite term_ok_app.
    eapply yields_conv.
    + eapply yields_bind; [by apply yields_terminated_step; [ | | | lia] | intros _].
      rewrite <- Hlen. apply IH; [done | lia | lia].
    + done.
    + done.
Qed.
End terminated.

(** ** Preflight, emission and finish *)
Section applier.
Context (a : Applier) (Ha : applier_ok a).
Abbreviation L := (ap_limits a).

Definition seg_fits (s : bytes * Z) : Prop := len s.1 <= MaxBodyLineBytes L.

Lemma preflightLines_exact i pos segs :
  exact (ufold (preflightLine a) (layout i pos segs) tt) (Forall seg_fits segs) tt (len segs) 0 0.
Proof.
  revert i pos. induction segs as [|[l w] segs IH]; intros i pos; cbn [layout ufold].
  - eapply exact_conv; [apply exact_uret | by split | done | done].
  - eapply exact_conv.
    + eapply exact_bind; [ | intros _; apply IH]. unfold preflightLine.
      eapply exact_bind; [by apply exact_chargeItems | intros _; apply exact_require].
    + cbn [startOffset endOffset]. rewrite Forall_cons, negb_true_iff, Z.ltb_ge. unfold seg_fits. cbn [fst].
      replace (pos + len l - pos) with (len l) by lia. tauto.
    + done.
    + intros _. rewrite len_cons. lia.
Qed.

Section state.
Context (ss : state_spec) (Hss : wf_state ss) (r : Recipe) (Hv : Recipe_Valid r = true).
Abbreviation source := (source_segments ss).

Lemma body_steps_ok : Forall step_ok (rc_bodySteps r).
Proof using Hv. by apply Recipe_Valid_ok in Hv as (_ & _ & ? & _). Qed.

Lemma source_wf : Forall wf_seg source.
Proof using Hss.
  clear Hv. destruct Hss as [_ Hb]. unfold source_segments. destruct (ss_body ss) as [[framing [ls last]]|]; [ | constructor].
  apply segments_wf; apply Hb.
Qed.

(** The lines the body steps emit. *)
Definition emitted_segs : list (bytes * Z) := concat (map (step_segs source) (rc_bodySteps r)).

Lemma emitted_segs_wf : Forall wf_seg emitted_segs.
Proof using Hss Hv.
  unfold emitted_segs. pose proof body_steps_ok as H. apply Forall_concat, Forall_fmap.
  eapply Forall_impl; [exact H | ]. intros s Hs. apply step_segs_wf; [apply source_wf | done].
Qed.
Lemma emitted_segs_len :
  copies_possible source (rc_bodySteps r) -> len emitted_segs = steps_count (rc_bodySteps r).
Proof using Hv.
  unfold emitted_segs, steps_count, copies_possible. pose proof body_steps_ok as H.
  induction H as [|s steps Hs _ IH]; intros Hp; [done | ]. apply Forall_cons in Hp as [Hps Hp].
  cbn [map concat]. rewrite len_app, step_segs_len, IH by done. done.
Qed.

Definition body_copies_ok : Prop :=
  copies_possible source (rc_bodySteps r) /\ steps_count (rc_bodySteps r) <= MaxBodyLines L /\
  is_Some (join_segments emitted_segs).

Lemma validateBodyCopySources_exact ls last :
  source = segments ls last -> Forall plain ls -> plain last ->
  exact (validateBodyCopySources r (body_lines (body_of ls last)) (MaxBodyLines L))
    body_copies_ok tt (sumZ (map step_width (rc_bodySteps r))) 0 0.
Proof using Ha Hss Hv.
  intros Hsrc Hls Hlast. destruct Ha as [Hlim _]. limit_facts Hlim. unfold validateBodyCopySources, body_copies_ok.
  pose proof body_steps_ok as Hok. pose proof (steps_count_nonneg _ Hok).
  rewrite len_body_lines, (join_segments_iff _ emitted_segs_wf).
  unfold emitted_segs. rewrite Hsrc. eapply exact_conv.
  - eapply exact_bind; [apply countEmissions_exact; [lia | done | lia] | intros [Hp Hn]].
    apply exact_ulift. rewrite Z.add_0_l. apply yields_checkTerminatedSteps; [done.. | lia].
  - rewrite Z.add_0_l. split.
    + intros (H1 & H2 & H3). split_and!; [done.. | ]. rewrite <- Hsrc in H1, H3. fold emitted_segs in H3.
      rewrite emitted_segs_len in H3 by done. rewrite <- Hsrc. done.
    + intros ((H1 & H2) & H3). split_and!; [done.. | ]. rewrite <- Hsrc in *. fold emitted_segs.
      by rewrite emitted_segs_len.
  - done.
  - lia.
Qed.

Definition preflight_cond : Prop :=
  len source <= MaxBodyLines L /\ Forall seg_fits source /\
  (rc_bodyMode r = BodyModeSteps -> body_copies_ok).
Definition preflight_items : Z :=
  len source + (if bool_decide (rc_bodyMode r = BodyModeSteps) then sumZ (map step_width (rc_bodySteps r)) else 0).

Lemma preflight_exact :
  ss_body ss <> None ->
  exists lines, exact (preflightKnownBodySource a (state_of ss) r) preflight_cond lines preflight_items 0 0.
Proof using Ha Hss Hv.
  intros Hne. unfold preflightKnownBodySource, preflight_cond, preflight_items. 
  destruct Hss as [_ Hb]. destruct (ss_body ss) as [[framing [ls last]]|] eqn:Eb; [ | done].
  destruct Hb as (Hls & Hlast & _).
  assert (source = segments ls last) as Hsrc by (unfold source_segments; by rewrite Eb).
  unfold state_of. rewrite Eb. cbn [sta_availability sta_body]. exists (body_lines (body_of ls last)).
  assert (Body_LineCount (body_of ls last) = len source) as -> by (rewrite Hsrc; apply len_body_lines).
  eapply exact_conv.
  - eapply exact_bind; [apply exact_require | intros _].
    eapply exact_bind; [apply exact_require | intros _].
    eapply exact_bind; [cbn [body_of body_lines]; apply preflightLines_exact | intros _].
    eapply exact_bind with (C := rc_bodyMode r = BodyModeSteps -> body_copies_ok)
      (x := tt) (i := if bool_decide (rc_bodyMode r = BodyModeSteps)
                      then sumZ (map step_width (rc_bodySteps r)) else 0) (e := 0) (w := 0);
      [ | intros _; apply exact_uret].
    destruct (bool_decide_reflect (rc_bodyMode r = BodyModeSteps)) as [Em|Em].
    + eapply exact_conv; [by apply validateBodyCopySources_exact | | done | done]. tauto.
    + eapply exact_conv; [apply exact_uret | | done | done]. by split.
  - rewrite bool_decide_eq_true, negb_true_iff, Z.ltb_ge, <- Hsrc. tauto.
  - done.
  - rewrite <- Hsrc. lia.
Qed.
End state.

(** ** Emission *)
Section emission.
Context (ss : state_spec) (Hss : wf_state ss).
Abbreviation source := (source_segments ss).
Abbreviation headerLen := (len (enc_fields (ss_fields ss))).

Definition out_segs (segs : list (bytes * Z)) : bodyOutput := MkBodyOutput (segs_bytes segs) (len segs).
Definition body_out_fits (segs : list (bytes * Z)) : Prop :=
  len segs <= MaxBodyLines L /\ headerLen + 2 + len (segs_bytes segs) <= MaxStateBytes L.
Definition body_emit_ok (segs new : list (bytes * Z)) : Prop := new = [] \/ body_out_fits (segs ++ new).

Lemma body_out_fits_mono s t : body_out_fits (s ++ t) -> body_out_fits s.
Proof.
  unfold body_out_fits. rewrite segs_bytes_app, !len_app.
  pose proof (len_nonneg t). pose proof (len_nonneg (segs_bytes t)). lia.
Qed.
Lemma body_emit_ok_app s t u : body_emit_ok s (t ++ u) <-> body_emit_ok s t /\ body_emit_ok (s ++ t) u.
Proof.
  unfold body_emit_ok. rewrite app_assoc. split.
  - intros [[-> ->]%app_eq_nil | H]; [by split; left | ].
    split; [right; by eapply body_out_fits_mono | by right].
  - intros [H1 [-> | H2]]; [ | by right]. rewrite !app_nil_r. done.
Qed.

Lemma header_of_state : sta_headers (state_of ss) = block_of (ss_fields ss).
Proof. by (unfold state_of; destruct (ss_body ss) as [[? [? ?]]|]). Qed.

Lemma reserveLine_exact segs s :
  exact (reserveLine a (state_of ss) (out_segs segs) (len (seg_bytes s)))
    (body_out_fits (segs ++ [s])) (len (segs ++ [s])) 1 (len (seg_bytes s)) 0.
Proof using Ha.
  destruct Ha as [Hlim _]. limit_facts Hlim. unfold reserveLine, out_segs, body_out_fits.
  rewrite header_of_state. cbn [bo_lines bo_bytes block_of hb_originalBytes].
  rewrite segs_bytes_app, segs_bytes_one, !len_app. change (len [s]) with 1.
  pose proof (len_nonneg segs). pose proof (len_nonneg (seg_bytes s)).
  pose proof (len_nonneg (segs_bytes segs)). pose proof (len_nonneg (enc_fields (ss_fields ss))).
  destruct (Z_le_gt_dec (len segs + 1) (MaxBodyLines L)) as [Hs1|Hs1].
  2: { eapply exact_conv; [eapply (exact_bind _ _ _ True _ 0 0 0 0 0 0 0);
         [apply exact_ulift, yields_checkBodySum; lia | intros ?; exfalso; lia] | | lia | lia]. lia. }
  destruct (checkedAdd_cases (len (segs_bytes segs)) (len (seg_bytes s))) as [[G2 ->] | [G2 ->]]; [lia | lia | | ].
  2: { eapply exact_conv; [eapply exact_bind; [apply exact_ulift, yields_checkBodySum; lia | intros _];
         cbn beta iota; eapply (exact_bind _ _ _ True _ 0 0 0 0 0 0 0);
         [apply exact_require | intros Hf; discriminate Hf] | | intros (_ & Hf & _); discriminate Hf
         | intros (_ & Hf & _); discriminate Hf].
       split; [lia | intros (_ & Hf & _); discriminate Hf]. }
  destruct (checkedAdd_cases (len (enc_fields (ss_fields ss))) 2) as [[G3 ->] | [G3 ->]]; [lia | lia | | ].
  2: { eapply exact_conv; [eapply exact_bind; [apply exact_ulift, yields_checkBodySum; lia | intros _];
         cbn beta iota; eapply exact_bind; [apply exact_require | intros _];
         eapply (exact_bind _ _ _ True _ 0 0 0 0 0 0 0);
         [apply exact_require | intros Hf; discriminate Hf] | | intros (_ & _ & Hf & _); discriminate Hf
         | intros (_ & _ & Hf & _); discriminate Hf].
       split; [lia | intros (_ & _ & Hf & _); discriminate Hf]. }
  eapply exact_conv.
  - eapply exact_bind; [apply exact_ulift, yields_checkBodySum; lia | intros _].
    eapply exact_bind; [apply exact_require | intros _].
    eapply exact_bind; [apply exact_require | intros _].
    eapply exact_bind; [apply exact_ulift, yields_checkBodySum; lia | intros _].
    eapply exact_bind; [by apply exact_chargeItems | intros _].
    eapply exact_bind; [by apply exact_chargeEmitted | intros _]. apply exact_uret.
  - intuition lia.
  - done.
  - lia.
Qed.

Lemma appendBodyData_exact segs l :
  exact (appendBodyData a (state_of ss) (out_segs segs) l)
    (seg_fits (l, 2) /\ body_out_fits (segs ++ [(l, 2)])) (out_segs (segs ++ [(l, 2)]))
    1 (len (seg_bytes (l, 2))) 0.
Proof using Ha.
  destruct Ha as [Hlim _]. limit_facts Hlim. unfold appendBodyData, seg_fits. cbn [fst].
  pose proof (len_nonneg l).
  assert (len (seg_bytes (l, 2)) = len l + 2) as Hlen by (unfold seg_bytes; cbn; by rewrite len_app).
  destruct (checkedAdd_cases (len l) 2) as [[G1 ->] | [G1 ->]]; [lia | lia | | ].
  - rewrite <- Hlen. eapply exact_conv.
    + eapply exact_bind; [apply exact_require | intros _].
      eapply exact_bind; [apply reserveLine_exact | intros _]. apply exact_uret.
    + cbn [negb orb]. rewrite negb_true_iff, Z.ltb_ge. tauto.
    + intros _. unfold out_segs. rewrite segs_bytes_app, segs_bytes_one. done.
    + lia.
  - eapply exact_conv; [cbn beta iota; eapply (exact_bind _ _ _ True _ (out_segs []) 0 0 0 0 0 0);
         [apply exact_require | intros Hf; discriminate Hf] | | intros (Hf & _); discriminate Hf
         | intros (Hf & _); discriminate Hf].
    split; [lia | intros (Hf & _); discriminate Hf].
Qed.

Lemma appendSourceLine_exact segs i s :
  0 <= i -> source !! Z.to_nat i = Some s ->
  exact (appendSourceLine a (state_of ss) (sta_body (state_of ss)) (out_segs segs) i)
    (body_out_fits (segs ++ [s])) (out_segs (segs ++ [s])) 1 (len (seg_bytes s)) 0.
Proof using Ha Hss.
  intros Hi Hs. destruct Hss as [_ Hb]. unfold source_segments in Hs.
  assert (exists ls last, Forall plain ls /\ plain last /\ sta_body (state_of ss) = body_of ls last /\
            segments ls last !! Z.to_nat i = Some s) as (ls & last & Hls & Hlast & -> & Hs').
  { unfold state_of. destruct (ss_body ss) as [[framing [ls last]]|]; [ | by rewrite lookup_nil in Hs].
    exists ls, last. destruct Hb as (? & ? & _). done. }
  unfold appendSourceLine. rewrite (body_line_len ls last Hls Hlast i s Hi Hs'), (body_line_bytes ls last Hls Hlast i s Hi Hs').
  rewrite Z.eqb_refl. eapply exact_conv.
  - eapply exact_bind; [apply reserveLine_exact | intros _].
    eapply exact_bind; [apply exact_require | intros _]. apply exact_uret.
  - tauto.
  - intros _. unfold out_segs. by rewrite segs_bytes_app, segs_bytes_one.
  - lia.
Qed.

(** A loop whose body emits one line per element, under the condition [Q]. *)
Lemma body_emit_loop {X} (F : bodyOutput -> X -> UM bodyOutput) (Q : X -> Prop) xs new :
  Forall2 (fun x s => forall segs, exact (F (out_segs segs) x) (Q x /\ body_out_fits (segs ++ [s]))
                                   (out_segs (segs ++ [s])) 1 (len (seg_bytes s)) 0) xs new ->
  forall segs, exact (ufold F xs (out_segs segs)) (Forall Q xs /\ body_emit_ok segs new)
               (out_segs (segs ++ new)) (len new) (len (segs_bytes new)) 0.
Proof.
  induction 1 as [|x s xs new Hx _ IH]; intros segs; cbn [ufold].
  - rewrite app_nil_r. eapply exact_conv; [apply exact_uret | | done | done].
    split; [done | intros _; split; [constructor | by left]].
  - eapply exact_conv.
    + eapply exact_bind; [apply Hx | intros _; apply IH].
    + rewrite Forall_cons. change (s :: new) with ([s] ++ new). rewrite (body_emit_ok_app segs [s] new).
      unfold body_emit_ok at 1. split; [intros ((? & ?) & [? | ?] & ?); done | tauto].
    + by rewrite <- app_assoc.
    + intros _. change (s :: new) with ([s] ++ new). rewrite segs_bytes_app, segs_bytes_one, !len_app.
      change (len [s]) with 1. lia.
Qed.

Definition step_literals_fit (s : step) : Prop :=
  copyRange s = None -> Forall (fun l => seg_fits (l, 2)) (st_data s).

Lemma data_emission data :
  forall segs, exact (ufold (appendBodyData a (state_of ss)) data (out_segs segs))
    (Forall (fun l => seg_fits (l, 2)) data /\ body_emit_ok segs (map (fun l => (l, 2)) data))
    (out_segs (segs ++ map (fun l => (l, 2)) data)) (len (map (fun l : bytes => (l, 2)) data))
    (len (segs_bytes (map (fun l => (l, 2)) data))) 0.
Proof using Ha.
  apply body_emit_loop, Forall2_fmap_r, Forall2_same_length_lookup_2; [done | ].
  intros i x y Hx Hy segs. rewrite Hx in Hy. injection Hy as <-. apply appendBodyData_exact.
Qed.

Lemma emitBodyStep_exact s segs :
  step_ok s -> is_Some (step_segments source s) ->
  exact (emitBodyStep a (state_of ss) (out_segs segs) s)
    (step_literals_fit s /\ body_emit_ok segs (step_segs source s)) (out_segs (segs ++ step_segs source s))
    (len (step_segs source s)) (len (segs_bytes (step_segs source s))) 0.
Proof using Ha Hss.
  intros Hs Hp. unfold emitBodyStep, step_literals_fit, step_segs, step_segments, step_ok in *.
  destruct (copyRange s) as [[start end_]|].
  - destruct Hs as [Hs _]. destruct (Z.leb_spec end_ (len source)) as [Hle|]; [ | by destruct Hp].
    cbn [from_option id]. eapply exact_conv.
    + apply (body_emit_loop _ (fun _ => True)). 
      eapply Forall2_impl; [ | intros x y H; exact H]. apply Forall2_same_length_lookup_2.
      { instantiate (1 := take (Z.to_nat (end_ - start + 1)) (drop (Z.to_nat (start - 1)) source)).
        rewrite length_seqZ, length_take, length_drop. unfold len in Hle. lia. }
      intros i n s' Hn Hsi segs'. apply lookup_seqZ in Hn as [-> _].
      apply lookup_take_Some in Hsi as [Hsi _]. rewrite lookup_drop in Hsi.
      eapply exact_conv; [apply appendSourceLine_exact; [lia | ] | | done | done].
      * rewrite <- Hsi. f_equal. lia.
      * tauto.
    + split; [intros [_ ?]; split; [by apply Forall_true | done] | by intros [_ ?]].
    + done.
    + done.
  - cbn [from_option id]. eapply exact_conv; [apply data_emission | | done | done]. intuition.
Qed.

Lemma emitBodySteps_exact steps segs :
  Forall step_ok steps -> copies_possible source steps ->
  let new := concat (map (step_segs source) steps) in
  exact (ufold (emitBodyStep a (state_of ss)) steps (out_segs segs))
    (Forall step_literals_fit steps /\ body_emit_ok segs new) (out_segs (segs ++ new))
    (len new) (len (segs_bytes new)) 0.
Proof using Ha Hss.
  cbn zeta. intros Hok. revert segs. induction Hok as [|s steps Hs _ IH]; intros segs Hp; cbn [ufold map concat].
  - rewrite app_nil_r. eapply exact_conv; [apply exact_uret | | done | done].
    split; [done | intros _; split; [constructor | by left]].
  - apply Forall_cons in Hp as [Hps Hp]. eapply exact_conv.
    + eapply exact_bind; [by apply emitBodyStep_exact | intros _; by apply IH].
    + rewrite Forall_cons, body_emit_ok_app. tauto.
    + by rewrite <- app_assoc.
    + intros _. rewrite segs_bytes_app, !len_app. lia.
Qed.
End emission.

(** ** The result of the body dimension *)
Definition state_size (s : state_spec) : Z :=
  len (enc_fields (ss_fields s)) +
  match ss_body s with
  | None => 0
  | Some (framing, (ls, last)) =>
      (if decide (framing = MessageFramingDelimited) then 2 else 0) + len (unlines ls ++ last)
  end.
Definition result_fits (s : state_spec) : Prop :=
  len (source_segments s) <= MaxBodyLines L /\ Forall seg_fits (source_segments s) /\
  state_size s <= MaxStateBytes L.

Lemma newKnownState_ok fs framing ls last :
  MessageFraming_Known framing = true ->
  (framing = MessageFramingHeaderOnly -> fs <> [] /\ ls = [] /\ last = []) ->
  newKnownState (block_of fs) (body_of ls last) framing =
  Ret (state_of (MkSS fs (Some (framing, (ls, last))))).
Proof.
  intros Hk Hho. unfold newKnownState.
  assert (hb_initialized (block_of fs) && body_initialized (body_of ls last) && MessageFraming_Known framing = true)
    as -> by done.
  assert (negb (bool_decide (framing = MessageFramingHeaderOnly)
     && ((HeaderBlock_Len (block_of fs) =? 0) || negb (Body_Len (body_of ls last) =? 0))) = true) as ->; [ | done].
  destruct (bool_decide_reflect (framing = MessageFramingHeaderOnly)) as [Eh|]; [ | done].
  destruct (Hho Eh) as (Hne & -> & ->). cbn [andb].
  assert (HeaderBlock_Len (block_of fs) = len fs) as -> by apply len_fields_of.
  destruct fs as [|f fs]; [done | ]. rewrite len_cons. pose proof (len_nonneg fs).
  by rewrite (proj2 (Z.eqb_neq _ _)) by lia.
Qed.

Lemma finishBody_exact ss framing ls last :
  let s' := MkSS (ss_fields ss) (Some (framing, (ls, last))) in
  wf_state s' -> len (segments ls last) <= MaxBodyLines L -> Forall seg_fits (segments ls last) ->
  exact (finishBody a (state_of ss) framing (out_segs (segments ls last)))
    (state_size s' <= MaxStateBytes L) (state_of s') 0 0 0.
Proof using Ha.
  cbn zeta. intros [Hf (Hls & Hlast & Hk & Hho)] Hn Hfit. destruct Ha as (Hlim & Ho & _). limit_facts Hlim.
  unfold finishBody, state_size. cbn [ss_fields ss_body]. apply exact_ulift.
  rewrite header_of_state. cbn [out_segs bo_bytes block_of hb_originalBytes]. rewrite segments_bytes.
  pose proof (len_nonneg (enc_fields (ss_fields ss))). pose proof (len_nonneg (unlines ls ++ last)).
  assert ((if bool_decide (framing = MessageFramingDelimited) then 2 else 0) =
          (if decide (framing = MessageFramingDelimited) then 2 else 0)) as ->
    by (destruct (decide (framing = MessageFramingDelimited)); [by rewrite bool_decide_eq_true_2 | by rewrite bool_decide_eq_false_2]).
  set (sep := if decide (framing = MessageFramingDelimited) then 2 else 0).
  assert (0 <= sep) as Hsep by (unfold sep; destruct (decide _); lia).
  cbn [ss_fields] in *.
  destruct (checkedAdd_cases (len (enc_fields (ss_fields ss))) sep) as [[G1 ->] | [G1 ->]]; [lia | lia | | ].
  2: { eapply yields_conv; [apply yields_fail | lia | done]. }
  cbn [require obind]. eapply yields_conv.
  - eapply yields_bind; [apply yields_checkBodySum; lia | intros Hle].
    assert (NewReconstructedBody (unlines ls ++ last) (ap_rawOptions a) = Ret (body_of ls last)) as ->.
    { unfold NewReconstructedBody. rewrite Ho, applierOptions_valid by done. cbn [obind].
      cbn [applierOptions RawMsg.MaxMessageBytes]. rewrite (proj2 (Z.ltb_ge _ _)) by lia. cbn [negb require obind].
      apply body_strict_ok; [done | done | cbn; lia | done]. }
    cbn [liftRaw obind]. rewrite newKnownState_ok by done. apply yields_ret.
  - lia.
  - done.
Qed.

Definition finish_state (r : Recipe) (s : state_spec) : option state_spec :=
  match rc_bodyMode r with
  | BodyModeUnavailable => Some (MkSS (ss_fields s) None)
  | BodyModeSteps =>
      b ← reconstruct_body (rc_bodySteps r) (source_segments s);
      Some (MkSS (ss_fields s) (Some (MessageFramingDelimited, b)))
  | _ => Some s
  end.
Definition body_plan_fits (r : Recipe) : Prop :=
  len (rc_bodySteps r) <= MaxBodySteps L /\ recipe_budget_fits L r.

Section apply.
Context (r : Recipe) (Hv : Recipe_Valid r = true) (ss : state_spec) (Hss : wf_state ss).
Abbreviation source := (source_segments ss).

Lemma yields_validateBodyPlanBudgets : yields (validateBodyPlanBudgets a r) (body_plan_fits r) tt.
Proof using Ha Hv.
  unfold validateBodyPlanBudgets, body_plan_fits. eapply yields_conv.
  - eapply yields_bind; [apply yields_require | intros _].
    apply yields_validateAllPlanStepBudgets; [apply Ha | by apply Recipe_Valid_ok].
  - by rewrite negb_true_iff, Z.ltb_ge.
  - done.
Qed.

(** [reconstruct_body] and the conditions of the applier. *)
Lemma reconstruct_body_iff :
  is_Some (reconstruct_body (rc_bodySteps r) source) <->
  copies_possible source (rc_bodySteps r) /\ is_Some (join_segments (emitted_segs ss r)).
Proof.
  unfold reconstruct_body, emitted_segs. change (copies_possible source (rc_bodySteps r)) with
    (Forall (fun s => is_Some (step_segments source s)) (rc_bodySteps r)).
  rewrite <- mapM_is_Some_iff. split.
  - destruct (mapM _ _) as [segs|] eqn:E; cbn; [ | by intros [? ?]].
    intros H. split; [by eexists | ]. rewrite (mapM_default _ []) in E.
    + by injection E as <-.
    + apply mapM_is_Some_iff. by eexists.
  - intros [[segs E] H]. rewrite E. cbn. rewrite (mapM_default _ []) in E.
    + injection E as <-. exact H.
    + apply mapM_is_Some_iff. by eexists.
Qed.
Lemma reconstruct_body_eq :
  copies_possible source (rc_bodySteps r) ->
  reconstruct_body (rc_bodySteps r) source = join_segments (emitted_segs ss r).
Proof.
  intros H. unfold reconstruct_body. rewrite (mapM_default _ []) by done. done.
Qed.

Lemma emitted_fits :
  Forall seg_fits source -> copies_possible source (rc_bodySteps r) ->
  Forall step_literals_fit (rc_bodySteps r) <-> Forall seg_fits (emitted_segs ss r).
Proof.
  intros Hsrc. unfold emitted_segs, copies_possible.
  induction (rc_bodySteps r) as [|s steps IH]; intros Hp; [by split; constructor | ].
  apply Forall_cons in Hp as [Hs Hp]. cbn [map concat]. rewrite Forall_cons, Forall_app, IH by done.
  apply and_iff_compat_r.
  unfold step_literals_fit, step_segs, step_segments in *. destruct (copyRange s) as [[start end_]|].
  - destruct (end_ <=? len source); [ | by destruct Hs]. cbn [from_option id].
    split; [intros _; by apply Forall_take, Forall_drop | done].
  - cbn [from_option id]. rewrite (Forall_fmap (fun l : bytes => (l, 2))).
    split; [intros H; by apply H | done].
Qed.

Definition body_result : state_spec := default ss (finish_state r ss).
Definition body_cond : Prop :=
  body_plan_fits r /\ is_Some (finish_state r ss) /\ result_fits body_result.
(** What [Apply] has established when it calls [applyBodyUsing]. *)
Definition prepared (b : bool) : Prop :=
  ss_body ss <> None -> rc_bodyMode r <> BodyModeUnavailable ->
  b = true /\ preflight_cond ss r.

Lemma unavailable_tail :
  exact (ulift (check checkHeaderStateBytes a (sta_headers (state_of ss)) ;;
                newUnavailableState (sta_headers (state_of ss))))
    (state_size (MkSS (ss_fields ss) None) <= MaxStateBytes L)
    (state_of (MkSS (ss_fields ss) None)) 0 0 0.
Proof.
  apply exact_ulift. rewrite header_of_state. unfold state_size. cbn [ss_fields ss_body]. rewrite Z.add_0_r.
  eapply yields_conv.
  - eapply yields_bind; [apply yields_require | intros _]. apply yields_ret.
  - rewrite negb_true_iff, Z.ltb_ge. by split; [ | intros [? _]].
  - done.
Qed.

Lemma recipeHasBodyCopy_false :
  ss_body ss = None -> copies_possible source (rc_bodySteps r) -> recipeHasBodyCopy r = false.
Proof using Hv.
  intros Hn Hp. pose proof (body_steps_ok r Hv) as Hok. unfold recipeHasBodyCopy, source_segments in *. rewrite Hn in Hp.
  revert Hp. induction Hok as [|s steps Hs _ IH]; intros Hp; [done | ].
  apply Forall_cons in Hp as [Hps Hp]. cbn [existsb]. rewrite IH, orb_false_r by done.
  unfold step_segments, step_ok in *. destruct (copyRange s) as [[start end_]|]; [ | done].
  destruct (Z.leb_spec end_ (len (@nil (bytes * Z)))) as [Hle|]; [ | by destruct Hps].
  change (len (@nil (bytes * Z))) with 0 in Hle. lia.
Qed.

(** Emission of a body recipe and the final state. *)
Lemma steps_tail :
  rc_bodyMode r = BodyModeSteps -> Forall seg_fits source -> copies_possible source (rc_bodySteps r) ->
  exact (let! o := ufold (emitBodyStep a (state_of ss)) (rc_bodySteps r) (out_segs []) in
         finishBody a (state_of ss) MessageFramingDelimited o)
    (result_fits body_result) (state_of body_result) (len (emitted_segs ss r))
    (len (segs_bytes (emitted_segs ss r))) 0 \/ ~ is_Some (join_segments (emitted_segs ss r)).
Proof using Ha Hv Hss.
  intros Em Hfit Hp. destruct (join_segments (emitted_segs ss r)) as [[ls last]|] eqn:Ej; [left | right; by intros [? ?]].
  apply join_segments_Some in Ej as Hj; [ | by apply emitted_segs_wf]. destruct Hj as (Hsegs & Hls & Hlast).
  unfold body_result, finish_state. rewrite Em, reconstruct_body_eq, Ej by done. cbn [mbind option_bind from_option id].
  pose proof Ha as [Hlim _]. limit_facts Hlim.
  unfold result_fits, source_segments. cbn [ss_body ss_fields]. rewrite <- Hsegs.
  assert (state_size (MkSS (ss_fields ss) (Some (MessageFramingDelimited, (ls, last)))) =
          len (enc_fields (ss_fields ss)) + 2 + len (segs_bytes (emitted_segs ss r))) as Hsize.
  { unfold state_size. cbn [ss_fields ss_body]. rewrite Hsegs, segments_bytes.
    rewrite decide_True by done. lia. }
  eapply exact_conv.
  - eapply exact_bind; [apply emitBodySteps_exact; [done | by apply body_steps_ok | done] | ].
    intros [Hlit Hem]. cbn [app]. change (concat (map (step_segs source) (rc_bodySteps r))) with (emitted_segs ss r) in *.
    rewrite Hsegs. apply finishBody_exact.
    + split; [apply Hss | ]. by split_and!.
    + rewrite <- Hsegs. destruct Hem as [-> | [? _]]; [unfold len; cbn; lia | done].
    + rewrite <- Hsegs. by apply emitted_fits.
  - rewrite emitted_fits by done. unfold body_emit_ok. cbn [app].
    change (concat (map (step_segs source) (rc_bodySteps r))) with (emitted_segs ss r). rewrite Hsize. split.
    + intros (H1 & H2 & H3). split_and!; [done | right; by split | done].
    + intros ((H1 & H2) & H3). split_and!; [ | done | done].
      destruct H2 as [-> | [? _]]; [unfold len; cbn; lia | done].
  - done.
  - change (concat (map (step_segs source) (rc_bodySteps r))) with (emitted_segs ss r). lia.
Qed.

Lemma emitBodyData_steps c :
  recipeHasBodyCopy r = false ->
  emitBodyData a (state_of ss) r c =
  (let! o := ufold (emitBodyStep a (state_of ss)) (rc_bodySteps r) (out_segs []) in
   finishBody a (state_of ss) MessageFramingDelimited o) c.
Proof.
  intros Hc. unfold emitBodyData, ubind. change (MkBodyOutput [] 0) with (out_segs []).
  rewrite (ufold_ext _ (emitBodyStep a (state_of ss))); [done | ].
  intros o s Hin c'. unfold emitBodyStep. unfold recipeHasBodyCopy in Hc.
  destruct (copyRange s) eqn:E; [ | done]. exfalso. apply not_true_iff_false in Hc. apply Hc.
  apply existsb_exists. exists s. by rewrite <- list_elem_of_In, E.
Qed.

(** The branches of applyBodyUsing once its tests have passed. *)
Lemma no_body_result s : ss_body s = None -> result_fits s <-> state_size s <= MaxStateBytes L.
Proof using Ha.
  clear Hv Hss. intros Hn. destruct Ha as [Hlim _]. limit_facts Hlim. unfold result_fits, source_segments. rewrite Hn.
  split; [tauto | ]. intros ?. split_and!; [unfold len; cbn; lia | constructor | done].
Qed.

Lemma absent_known_tail framing ls last :
  rc_bodyMode r = BodyModeAbsent -> ss_body ss = Some (framing, (ls, last)) -> preflight_cond ss r ->
  exact (let! o := ufold (appendSourceLine a (state_of ss) (sta_body (state_of ss)))
                     (seqZ 0 (Body_LineCount (sta_body (state_of ss)))) (MkBodyOutput [] 0) in
         finishBody a (state_of ss) framing o)
    (result_fits ss) (state_of ss) (len source) (len (segs_bytes source)) 0.
Proof using Ha Hss.
  clear Hv. intros Em Eb (Hn & Hfit & _). pose proof Ha as [Hlim _]. limit_facts Hlim.
  change (MkBodyOutput [] 0) with (out_segs []).
  assert (source = segments ls last) as Hsrc by (unfold source_segments; by rewrite Eb).
  assert (Body_LineCount (sta_body (state_of ss)) = len source) as ->
    by (unfold state_of; rewrite Eb, Hsrc; apply len_body_lines).
  assert (state_of ss = state_of (MkSS (ss_fields ss) (Some (framing, (ls, last))))) as Hst
    by (destruct ss as [f b]; cbn in *; by subst b).
  assert (state_size ss = state_size (MkSS (ss_fields ss) (Some (framing, (ls, last))))) as Hsz
    by (unfold state_size; cbn; by rewrite Eb).
  assert (wf_state (MkSS (ss_fields ss) (Some (framing, (ls, last))))) as Hwf
    by (destruct ss as [f b]; cbn in *; by subst b).
  eapply exact_conv.
  - eapply exact_bind.
    + apply (body_emit_loop ss _ (fun _ => True) _ source). apply Forall2_same_length_lookup_2.
      { rewrite length_seqZ. unfold len. lia. }
      intros k n s' Hk Hs segs. apply lookup_seqZ in Hk as [-> _].
      eapply exact_conv; [apply (appendSourceLine_exact ss Hss segs _ s'); [lia | by rewrite Z.add_0_l, Nat2Z.id] | tauto | done | done].
    + intros _. cbn [app]. rewrite Hsrc at 1. apply finishBody_exact; [done | by rewrite <- Hsrc | by rewrite <- Hsrc].
  - unfold result_fits, body_emit_ok, body_out_fits. cbn [app]. rewrite <- Hsz. split.
    + intros (_ & _ & Hle). split_and!; [by apply Forall_true | | done].
      destruct (decide (source = [])) as [?|Hne]; [by left | right]. split; [done | ].
      unfold state_size in Hle. rewrite Eb in Hle. rewrite Hsrc, segments_bytes.
      destruct Hwf as [_ (_ & _ & Hk & Hho)]. destruct framing; [ | rewrite decide_True in Hle by done; lia | done].
      destruct (Hho eq_refl) as (_ & -> & ->). done.
    + intros (_ & Hle). split_and!; done.
  - by rewrite <- Hst.
  - lia.
Qed.

(** Without copies every step is possible and every line is terminated. *)
Lemma no_copies :
  recipeHasBodyCopy r = false ->
  copies_possible source (rc_bodySteps r) /\ is_Some (join_segments (emitted_segs ss r)).
Proof using Hss Hv.
  intros Hc. rewrite (join_segments_iff _ (emitted_segs_wf ss Hss r Hv)).
  assert (Forall (fun s => copyRange s = None) (rc_bodySteps r)) as Hn.
  { apply list.Forall_forall. intros s Hin. destruct (copyRange s) eqn:E; [ | done]. exfalso.
    apply not_true_iff_false in Hc. apply Hc, existsb_exists. exists s. by rewrite <- list_elem_of_In, E. }
  split.
  - eapply Forall_impl; [exact Hn | ]. intros s E. unfold step_segments. rewrite E. by eexists.
  - intros k x Hk Hx. exfalso. apply list_elem_of_lookup_2 in Hk. unfold emitted_segs in Hk.
    apply list_elem_of_In, in_concat in Hk as (l & Hl & Hxl). apply in_map_iff in Hl as (s & <- & Hs).
    rewrite Forall_forall in Hn. specialize (Hn s ltac:(by apply list_elem_of_In)).
    unfold step_segs, step_segments in Hxl. rewrite Hn in Hxl. apply in_map_iff in Hxl as (l' & <- & _). done.
Qed.

Lemma steps_branch b :
  rc_bodyMode r = BodyModeSteps -> prepared b ->
  exact
    (if decide (sta_availability (state_of ss) = BodyAvailabilityUnavailable) then
       if recipeHasBodyCopy r then ufail sourceUnavailableError else emitBodyData a (state_of ss) r
     else
       check! (if b then uret tt else let! _ := preflightKnownBodySource a (state_of ss) r in uret tt) ;;
       let! o := ufold (emitBodyStep a (state_of ss)) (rc_bodySteps r) (out_segs []) in
       finishBody a (state_of ss) MessageFramingDelimited o)
    ((copies_possible source (rc_bodySteps r) /\ is_Some (join_segments (emitted_segs ss r))) /\
     result_fits body_result)
    (state_of body_result) (len (emitted_segs ss r)) (len (segs_bytes (emitted_segs ss r))) 0.
Proof using Ha Hss Hv.
  intros Em Hprep. destruct (ss_body ss) as [[framing [ls last]]|] eqn:Eb.
  - assert (b = true /\ preflight_cond ss r) as [-> (_ & Hfit & Hc)] by (apply Hprep; congruence).
    destruct (Hc Em) as (Hp & _ & Hj).
    rewrite decide_False by (unfold state_of; by rewrite Eb).
    destruct (steps_tail Em Hfit Hp) as [H|?]; [ | done].
    eapply exact_conv; [eapply exact_bind; [apply exact_uret | intros _; exact H] | tauto | done | lia].
  - rewrite decide_True by (unfold state_of; by rewrite Eb).
    destruct (recipeHasBodyCopy r) eqn:Hc.
    + eapply exact_conv; [apply (exact_fail _ (state_of ss)) | | done | done].
      split; [ | done]. intros ((Hp & _) & _). by rewrite recipeHasBodyCopy_false in Hc.
    + destruct (no_copies Hc) as [Hp Hj].
      assert (Forall seg_fits source) as Hfit by (unfold source_segments; rewrite Eb; constructor).
      destruct (steps_tail Em Hfit Hp) as [H|?]; [ | done].
      eapply exact_ext; [intros c; by apply emitBodyData_steps | ].
      eapply exact_conv; [exact H | tauto | done | done].
Qed.

Lemma result_segments :
  rc_bodyMode r = BodyModeSteps -> is_Some (finish_state r ss) ->
  source_segments body_result = emitted_segs ss r /\
  (copies_possible source (rc_bodySteps r) /\ is_Some (join_segments (emitted_segs ss r))).
Proof using Hss Hv.
  intros Em. unfold body_result, finish_state. rewrite Em. intros Hs.
  assert (is_Some (reconstruct_body (rc_bodySteps r) source)) as Hb
    by (destruct (reconstruct_body _ _); [by eexists | by destruct Hs]).
  apply reconstruct_body_iff in Hb as [Hp Hj]. split; [ | done].
  rewrite reconstruct_body_eq by done. destruct Hj as [[ls last] Hj]. rewrite Hj. cbn.
  apply join_segments_Some in Hj as (E & _); [done | by apply emitted_segs_wf].
Qed.

Theorem applyBodyUsing_exact b :
  prepared b ->
  exact (applyBodyUsing a (state_of ss) r b) body_cond (state_of body_result)
    (len (source_segments body_result)) (len (segs_bytes (source_segments body_result))) 0.
Proof using Ha Hv Hss.
  intros Hprep. unfold applyBodyUsing.
  assert (Applier_valid a && State_Valid (state_of ss) && Recipe_Valid r = true) as Hvalid
    by by rewrite applier_ok_valid, state_of_Valid, Hv.
  rewrite Hvalid. unfold body_cond.
  eapply exact_conv with (C := True /\ body_plan_fits r /\ is_Some (finish_state r ss) /\ result_fits body_result)
    (i := 0 + (0 + len (source_segments body_result)))
    (e := 0 + (0 + len (segs_bytes (source_segments body_result)))) (w := 0 + (0 + 0)); [ | tauto | done | done].
  eapply exact_bind; [eapply exact_conv; [apply exact_require | by split | done | done] | intros _].
  eapply exact_bind; [apply exact_ulift, yields_validateBodyPlanBudgets | intros Hplan].
  pose proof (Recipe_Valid_ok r Hv) as (_ & _ & _ & _ & _ & Hmode).
  unfold body_result, finish_state. destruct (rc_bodyMode r) eqn:Em; [done | | | ].
  - (* absent *)
    rewrite decide_False by done. rewrite (bool_decide_eq_true_2 (BodyModeAbsent = BodyModeAbsent)) by done.
    cbn [andb from_option id]. destruct (ss_body ss) as [[framing [ls last]]|] eqn:Eb.
    + assert (b = true /\ preflight_cond ss r) as [-> Hpre] by (apply Hprep; congruence).
      assert (sta_availability (state_of ss) = BodyAvailabilityKnown /\ sta_framing (state_of ss) = framing) as [-> ->]
        by (unfold state_of; by rewrite Eb).
      rewrite bool_decide_eq_false_2, decide_False by done.
      rewrite (bool_decide_eq_false_2 (BodyModeAbsent = BodyModeSteps)), decide_True by done.
      eapply exact_conv; [eapply exact_bind; [apply exact_uret | intros _; by eapply absent_known_tail] | | done | lia].
      split; [tauto | ]. intros [_ ?]. split; [by eexists | done].
    + assert (sta_availability (state_of ss) = BodyAvailabilityUnavailable) as -> by (unfold state_of; by rewrite Eb).
      rewrite bool_decide_eq_true_2 by done. rewrite no_body_result by done.
      assert (source = []) as -> by (unfold source_segments; by rewrite Eb).
      eapply exact_conv; [apply exact_ulift; eapply yields_bind; [apply yields_require | intros _; apply yields_ret] | | done | done].
      rewrite header_of_state, negb_true_iff, Z.ltb_ge. unfold state_size. rewrite Eb, Z.add_0_r.
      split; [by intros [_ ?] | ]. intros [? _]. split; [by eexists | done].
  - (* steps *)
    rewrite decide_False by done. rewrite (bool_decide_eq_false_2 (BodyModeSteps = BodyModeAbsent)) by done.
    cbn [andb]. rewrite (decide_False (P := BodyModeSteps = BodyModeAbsent)) by done.
    rewrite (bool_decide_eq_true_2 (BodyModeSteps = BodyModeSteps)) by done.
    change (MkBodyOutput [] 0) with (out_segs []).
    assert (finish_state r ss = (b0 ← reconstruct_body (rc_bodySteps r) source;
              Some (MkSS (ss_fields ss) (Some (MessageFramingDelimited, b0))))) as <-
      by by unfold finish_state; rewrite Em.
    fold body_result. 
    assert (is_Some (finish_state r ss) <->
            copies_possible source (rc_bodySteps r) /\ is_Some (join_segments (emitted_segs ss r))) as Hiff.
    { rewrite <- reconstruct_body_iff. unfold finish_state. rewrite Em.
      destruct (reconstruct_body _ _); cbn; split; try done; by intros [? ?]. }
    eapply exact_conv; [by apply steps_branch | by rewrite Hiff | done | ].
    intros [Hs%Hiff _]. by destruct (result_segments Em Hs) as [-> _].
  - (* unavailable *)
    rewrite decide_True by done. cbn [from_option id].
    eapply exact_conv; [apply unavailable_tail | | done | done].
    rewrite no_body_result by done. split; [by intros [_ ?] | ]. intros ?. split; [by eexists | done].
Qed.
End apply.
End applier.
