(* ===== verification/RecipeApply.v ===== *)
(** * Recipe application: success, result, work and safety

    The theorems about [Apply] and [ApplyHistorical] of applier.go. *)

From S2P Require Import Prelude GoBytes RawMsg RawBody RawParser RawSpec RawInsertion.
From S2P Require Import RecipeTypes RecipeUsage RecipeHeader RecipeBody RecipeHeaderSpec.
From S2P Require Import RecipeBodySpec.
#[local] Open Scope Z_scope.

(** ** The two dimensions combined *)
Lemma source_segments_with_fields ss fs : source_segments (with_fields ss fs) = source_segments ss.
Proof. unfold source_segments, with_fields. cbn. by destruct (ss_body ss) as [[? [? ?]]|]. Qed.
Lemma emitted_segs_with_fields ss fs r : emitted_segs (with_fields ss fs) r = emitted_segs ss r.
Proof. unfold emitted_segs. by rewrite source_segments_with_fields. Qed.

Lemma with_fields_wf ss fs : wf_state ss -> Forall wf_field fs -> wf_state (with_fields ss fs).
Proof.
  intros [_ Hb] Hf. split; [done | ]. cbn. destruct (ss_body ss) as [[framing [ls last]]|]; [ | done].
  destruct Hb as (H1 & H2 & H3 & H4). unfold body_framing. destruct (decide _) as [[? ?]|Hd]; [by split_and! | ].
  split_and!; try done. intros E. destruct (H4 E) as (_ & ? & ?). split_and!; try done.
  intros ->. by apply Hd.
Qed.

Lemma reconstruct_eq r ss :
  rc_bodyMode r <> BodyModeUnset ->
  reconstruct r ss =
  (fs ← reconstruct_fields r (ss_fields ss); finish_state r (with_fields ss fs)).
Proof.
  intros Hm. unfold reconstruct. destruct (reconstruct_fields r (ss_fields ss)) as [fs|]; [ | done]. cbn.
  unfold finish_state. rewrite source_segments_with_fields. by destruct (rc_bodyMode r).
Qed.

(** What [withUsage] makes of an operation on a fresh counter. *)
Lemma withUsage_exact a (m : UM State) C x i e w st u :
  applier_ok a -> exact m C x i e w ->
  withUsage a m = (Ret st, u) <->
  C /\ st = x /\ u = MkUsage 0 e i (i + e + w) true /\
  e <= MaxStateBytes (ap_limits a) /\ i + e + w <= MaxOperationWorkUnits (ap_limits a).
Proof.
  intros Ha [Hcost Hrun]. unfold withUsage. rewrite applier_ok_counter by done.
  pose proof (counter_start _ (proj1 Ha)) as Hc0. set (c0 := MkCounter _ 0 0 0 0) in *.
  assert (C -> counter_fits (spend i e w c0) -> usageCounter_usage (spend i e w c0) = MkUsage 0 e i (i + e + w) true) as Hu.
  { intros (? & ? & ?)%Hcost _. unfold usageCounter_usage, newUsage, Usage_Valid, spend. cbn -[Z.add Z.leb].
    rewrite !(proj2 (Z.leb_le _ _)) by lia. cbn [andb negb]. f_equal; lia. }
  assert (counter_fits (spend i e w c0) <->
    e <= MaxStateBytes (ap_limits a) /\ i + e + w <= MaxOperationWorkUnits (ap_limits a)) as Hfits.
  { unfold counter_fits, spend, c0. cbn -[Z.add]. by rewrite !Z.add_0_l. }
  rewrite <- Hfits. destruct (m c0) as [res c'] eqn:E. split.
  - intros [= -> <-]. apply Hrun in E as (HC & -> & -> & Hf); [ | done]. by rewrite Hu.
  - intros (HC & -> & -> & Hf).
    assert (m c0 = (Ret x, spend i e w c0)) as E' by (by apply Hrun). rewrite E in E'.
    injection E' as -> ->. by rewrite Hu.
Qed.

Section apply.
Context (a : Applier) (Ha : applier_ok a) (ss : state_spec) (Hss : wf_state ss).
Context (r : Recipe) (Hv : Recipe_Valid r = true).
Abbreviation L := (ap_limits a).

(** The limits an application respects: on the plan, on the source and on the
    result. *)
Definition apply_fits (ss' : state_spec) : Prop :=
  header_plans_fit a r /\ body_plan_fits a r /\
  source_fits a (ss_fields ss) /\ recipe_names_fit a ss r /\
  (rc_bodyMode r <> BodyModeUnavailable ->
   len (source_segments ss) <= MaxBodyLines L /\ Forall (seg_fits a) (source_segments ss)) /\
  Forall (field_fits a) (ss_fields ss') /\ len (ss_fields ss') <= MaxHeaderFields L /\
  len (enc_fields (ss_fields ss')) <= MaxHeaderBytes L /\ result_fits a ss'.

(** The work of an application: items, emitted bytes and comparisons. *)
Definition apply_items (ss' : state_spec) : Z :=
  (if decide (rc_bodyMode r = BodyModeUnavailable) then 0
   else len (source_segments ss) + sumZ (map step_width (rc_bodySteps r))) +
  (len (ss_fields ss) + (copied_width ss r + len (ss_fields ss'))) + len (source_segments ss').
Definition apply_emitted (ss' : state_spec) : Z :=
  len (enc_fields (ss_fields ss')) + len (segs_bytes (source_segments ss')).
Definition apply_usage (ss' : state_spec) : Usage :=
  MkUsage 0 (apply_emitted ss') (apply_items ss')
    (apply_items ss' + apply_emitted ss' + names_work ss r) true.

Definition enforced : bool := bool_decide (rc_bodyMode r = BodyModeAbsent).
Abbreviation headerState := (with_fields ss (new_fields ss r)).
Definition preflight_needed : bool :=
  bool_decide (sta_availability (state_of ss) = BodyAvailabilityKnown)
  && negb (bool_decide (rc_bodyMode r = BodyModeUnavailable)).
Definition preflight_ok : Prop := preflight_needed = true -> preflight_cond a ss r.

Lemma preflight_needed_true :
  preflight_needed = true <-> ss_body ss <> None /\ rc_bodyMode r <> BodyModeUnavailable.
Proof.
  unfold preflight_needed, state_of. rewrite andb_true_iff, bool_decide_eq_true, negb_true_iff, bool_decide_eq_false.
  destruct (ss_body ss) as [[? [? ?]]|]; cbn [sta_availability]; split; intros [? ?]; split; done.
Qed.

Lemma header_state_wf : wf_state headerState.
Proof using Hss Hv. apply with_fields_wf; [done | by apply new_fields_wf]. Qed.

Lemma unavailable_copies :
  negb (bool_decide (sta_availability (state_of ss) = BodyAvailabilityUnavailable) && recipeHasBodyCopy r) = true <->
  (ss_body ss = None -> recipeHasBodyCopy r = false).
Proof.
  unfold state_of. destruct (ss_body ss) as [[? [? ?]]|]; cbn [sta_availability];
    [rewrite bool_decide_eq_false_2 by done | rewrite bool_decide_eq_true_2 by done]; cbn [andb negb].
  - split; [intros _ ?; discriminate | done].
  - rewrite negb_true_iff. split; [by intros ? _ | auto].
Qed.

(** The body of [Apply] as an operation on the counter. *)
Definition apply_body : UM State :=
  check! urequire (Applier_valid a && State_Valid (state_of ss) && Recipe_Valid r) invalidStateError ;;
  check! ulift (validateHeaderPlanBudgets a r) ;;
  check! ulift (validateBodyPlanBudgets a r) ;;
  check! urequire (negb (bool_decide (sta_availability (state_of ss) = BodyAvailabilityUnavailable)
                         && recipeHasBodyCopy r)) sourceUnavailableError ;;
  let! sourcePrepared :=
    if preflight_needed then let! _ := preflightKnownBodySource a (state_of ss) r in uret true
    else uret false in
  let! headerState := applyHeadersUsing a (state_of ss) r enforced in
  applyBodyUsing a headerState r sourcePrepared.
Lemma Apply_body : Apply a (state_of ss) r = withUsage a apply_body.
Proof. done. Qed.

Definition preflight_cost : Z := if preflight_needed then preflight_items ss r else 0.

Lemma preflight_step_exact :
  exact (if preflight_needed then let! _ := preflightKnownBodySource a (state_of ss) r in uret true
         else uret false) preflight_ok preflight_needed preflight_cost 0 0.
Proof using Ha Hss Hv.
  unfold preflight_ok, preflight_cost. destruct preflight_needed eqn:E.
  - apply preflight_needed_true in E as [Hb _].
    destruct (preflight_exact a Ha ss Hss r Hv Hb) as (lines & H).
    eapply exact_conv; [eapply exact_bind; [exact H | intros _; apply exact_uret] | tauto | done | lia].
  - eapply exact_conv; [apply exact_uret | by split | done | done].
Qed.

Lemma prepared_header : preflight_ok -> prepared a r headerState preflight_needed.
Proof.
  intros Hp Hb Hm. assert (preflight_needed = true) as E.
  { apply preflight_needed_true. split; [ | done]. intros E. apply Hb. cbn. by rewrite E. }
  split; [done | ]. destruct (Hp E) as (H1 & H2 & H3).
  unfold preflight_cond, body_copies_ok. by rewrite source_segments_with_fields, emitted_segs_with_fields.
Qed.

Lemma apply_body_exact :
  exact apply_body
    (header_plans_fit a r /\ body_plan_fits a r /\ (ss_body ss = None -> recipeHasBodyCopy r = false) /\
     preflight_ok /\ header_cond a ss enforced r /\ body_cond a r headerState)
    (state_of (body_result r headerState))
    (preflight_cost + (len (ss_fields ss) + (copied_width ss r + len (new_fields ss r)))
       + len (source_segments (body_result r headerState)))
    (len (enc_fields (new_fields ss r)) + len (segs_bytes (source_segments (body_result r headerState))))
    (names_work ss r).
Proof using Ha Hss Hv.
  pose proof (Recipe_Valid_ok r Hv) as Hr. pose proof Ha as [Hlim _]. unfold apply_body.
  eapply exact_conv.
  - eapply exact_bind; [apply exact_require | intros _].
    eapply exact_bind; [by apply exact_ulift, yields_validateHeaderPlanBudgets | intros _].
    eapply exact_bind; [by apply exact_ulift, yields_validateBodyPlanBudgets | intros _].
    eapply exact_bind; [apply exact_require | intros _].
    eapply exact_bind; [apply preflight_step_exact | intros Hpre].
    eapply exact_bind; [by apply applyHeadersUsing_exact | intros _].
    apply applyBodyUsing_exact; [done | done | apply header_state_wf | by apply prepared_header].
  - rewrite applier_ok_valid, state_of_Valid, Hv, unavailable_copies by done. cbn [andb]. tauto.
  - done.
  - lia.
Qed.

Lemma reconstruct_iff ss' :
  reconstruct r ss = Some ss' <->
  (is_Some (reconstruct_fields r (ss_fields ss)) /\ is_Some (finish_state r headerState)) /\
  ss' = body_result r headerState.
Proof using Hv.
  destruct (Recipe_Valid_ok r Hv) as (_ & _ & _ & _ & _ & Hm).
  rewrite reconstruct_eq by done. unfold body_result, new_fields.
  destruct (reconstruct_fields r (ss_fields ss)) as [fs|]; cbn [mbind option_bind default from_option id].
  - destruct (finish_state r (with_fields ss fs)) as [s|]; cbn [default from_option id]; split.
    + intros [= ->]. split; [split; by eexists | done].
    + by intros [_ ->].
    + done.
    + by intros [[_ [? ?]] _].
  - split; [done | by intros [[[? ?] _] _]].
Qed.

Lemma result_fields : is_Some (finish_state r headerState) -> ss_fields (body_result r headerState) = new_fields ss r.
Proof.
  unfold body_result, finish_state. destruct (rc_bodyMode r); try done.
  intros [s E]. rewrite E. destruct (reconstruct_body _ _); [ | done]. by injection E as <-.
Qed.

Lemma absent_result : rc_bodyMode r = BodyModeAbsent -> body_result r headerState = headerState.
Proof. intros Em. unfold body_result, finish_state. by rewrite Em. Qed.
Lemma absent_size fs : state_size (with_fields ss fs) = header_state_size ss fs.
Proof using Hss.
  clear Hv. destruct Hss as [_ Hb]. unfold state_size, header_state_size, with_fields. cbn [ss_body ss_fields].
  destruct (ss_body ss) as [[framing [ls last]]|]; [ | done].
  destruct Hb as (_ & _ & Hk & _). unfold body_framing. destruct framing; [ | | done].
  - destruct (decide (_ /\ _)) as [[_ ->]|Hd]; [ | rewrite (decide_False (P := _ = _)) by done].
    + rewrite !decide_True by auto. lia.
    + rewrite decide_False; [lia | ]. intros [?| ->]; [done | auto].
  - rewrite (decide_False (P := _ /\ _)) by (by intros []). rewrite !decide_True by auto. lia.
Qed.

Lemma copies_without_body :
  is_Some (finish_state r headerState) -> ss_body ss = None -> recipeHasBodyCopy r = false.
Proof using Hss Hv.
  intros Hf Hb. destruct (decide (rc_bodyMode r = BodyModeSteps)) as [Em|Em].
  - destruct (result_segments r Hv _ header_state_wf Em Hf) as (_ & Hc & _).
    eapply (recipeHasBodyCopy_false r Hv headerState); [cbn; by rewrite Hb | exact Hc].
  - destruct (Recipe_Valid_ok r Hv) as (_ & _ & _ & _ & Hn & _). unfold recipeHasBodyCopy. by rewrite Hn.
Qed.

(** The conditions met along the way are those of the specification. *)
Lemma apply_cond :
  (header_plans_fit a r /\ body_plan_fits a r /\ (ss_body ss = None -> recipeHasBodyCopy r = false) /\
   preflight_ok /\ header_cond a ss enforced r /\ body_cond a r headerState) <->
  (is_Some (reconstruct_fields r (ss_fields ss)) /\ is_Some (finish_state r headerState)) /\
  apply_fits (body_result r headerState).
Proof using Ha Hss Hv.
  unfold apply_fits, header_cond, body_cond, out_fits, state_fits, preflight_ok, preflight_cond.
  split.
  - intros (H1 & H2 & _ & Hp & (_ & H3 & H4 & H5 & H6 & H7 & H8 & _) & _ & H9 & H10).
    rewrite result_fields by done. split_and!; try done. intros Hm.
    destruct (ss_body ss) eqn:Eb.
    + destruct Hp as (? & ? & _); [ | done]. apply preflight_needed_true. by rewrite Eb.
    + unfold source_segments. rewrite Eb. split; [ | done]. clear - Ha. destruct Ha as [Hlim _]. limit_facts Hlim.
      unfold len. cbn. lia.
  - intros [[H5 H9] (H1 & H2 & H3 & H4 & Hp & H6 & H7 & H8 & H10)].
    rewrite result_fields in * by done. split_and!; try done; [by apply copies_without_body | | ].
    + intros [Hb Hm]%preflight_needed_true. destruct (Hp Hm). split_and!; [done.. | ]. intros Em.
      destruct (result_segments r Hv _ header_state_wf Em H9) as (E & Hc & Hj).
      unfold body_copies_ok. rewrite source_segments_with_fields in Hc. rewrite emitted_segs_with_fields in Hj, E.
      split_and!; [done | | done]. destruct H10 as [H10 _]. rewrite E in H10.
      by rewrite <- (emitted_segs_len ss r Hv).
    + intros Em%bool_decide_eq_true. rewrite <- absent_size. rewrite absent_result in H10 by done. apply H10.
Qed.

(** The work of the whole, dimension by dimension, is [apply_items]. *)
Lemma no_copy_width : recipeHasBodyCopy r = false -> sumZ (map step_width (rc_bodySteps r)) = 0.
Proof.
  unfold recipeHasBodyCopy. induction (rc_bodySteps r) as [|s steps IH]; [done | ].
  cbn [existsb map]. change (sumZ (?x :: ?l)) with (x + sumZ l). unfold step_width at 1.
  destruct (copyRange s) as [[? ?]|]; [done | ]. intros E. by rewrite IH.
Qed.
Lemma apply_items_eq :
  is_Some (finish_state r headerState) ->
  preflight_cost + (len (ss_fields ss) + (copied_width ss r + len (new_fields ss r)))
    + len (source_segments (body_result r headerState)) = apply_items (body_result r headerState).
Proof using Hss Hv.
  intros Hf. unfold apply_items, preflight_cost. rewrite result_fields by done.
  f_equal. f_equal. destruct preflight_needed eqn:E.
  - apply preflight_needed_true in E as [_ Hm]. rewrite decide_False by done. unfold preflight_items.
    case_bool_decide as Em; [done | ]. destruct (Recipe_Valid_ok r Hv) as (_ & _ & _ & _ & -> & _); done.
  - destruct (decide _) as [|Hm]; [done | ]. destruct (ss_body ss) eqn:Eb.
    { exfalso. apply not_true_iff_false in E. apply E, preflight_needed_true. by rewrite Eb. }
    rewrite no_copy_width by (by apply copies_without_body). unfold source_segments. by rewrite Eb.
Qed.

(** [Apply] within its limits computes [reconstruct]. *)
Lemma Apply_exact st u :
  Apply a (state_of ss) r = (Ret st, u) <->
  exists ss', reconstruct r ss = Some ss' /\ apply_fits ss' /\
    us_emittedBytes (apply_usage ss') <= MaxStateBytes L /\
    us_workUnits (apply_usage ss') <= MaxOperationWorkUnits L /\
    st = state_of ss' /\ u = apply_usage ss'.
Proof using Ha Hss Hv.
  rewrite Apply_body, (withUsage_exact a _ _ _ _ _ _ st u Ha apply_body_exact), apply_cond. split.
  - intros ([H Hf] & -> & -> & He & Hw). exists (body_result r headerState).
    rewrite apply_items_eq in * by apply H. rewrite reconstruct_iff. unfold apply_usage, apply_emitted.
    rewrite result_fields by apply H. cbn [us_emittedBytes us_workUnits]. done.
  - intros (ss' & [H ->]%reconstruct_iff & Hf & He & Hw & -> & ->).
    unfold apply_usage, apply_emitted in *. rewrite result_fields in * by apply H.
    rewrite apply_items_eq by apply H. done.
Qed.
End apply.

Lemma reconstruct_wf ss r ss' :
  wf_state ss -> Recipe_Valid r = true -> reconstruct r ss = Some ss' -> wf_state ss'.
Proof.
  intros Hss Hv [[_ [s Hf]] ->]%reconstruct_iff; [ | done].
  pose proof (header_state_wf ss Hss r Hv) as Hh. unfold body_result. rewrite Hf. cbn [default from_option id].
  unfold finish_state in Hf. destruct (rc_bodyMode r) eqn:Em.
  - by injection Hf as <-.
  - by injection Hf as <-.
  - apply bind_Some in Hf as ([ls last] & Hb & [= <-]). split; [apply Hh | ]. cbn [ss_body].
    assert (is_Some (reconstruct_body (rc_bodySteps r) (source_segments (with_fields ss (new_fields ss r))))) as Hs
      by (by eexists).
    apply (reconstruct_body_iff) in Hs as [Hc _]. rewrite reconstruct_body_eq in Hb by done.
    apply join_segments_Some in Hb as (_ & ? & ?); [done | by apply emitted_segs_wf].
  - injection Hf as <-. split; [apply Hh | done].
Qed.

(** ** ApplyHistorical *)
Section historical.
Context (a : Applier) (Ha : applier_ok a) (ss : state_spec) (Hss : wf_state ss).
Context (r : Recipe) (Hv : Recipe_Valid r = true).
Context (Hb : ss_body ss = None) (Hc : recipeHasBodyCopy r = true).
Abbreviation L := (ap_limits a).

(** The limits when only the header dimension is applied. *)
Definition historical_fits (fs : list field_spec) : Prop :=
  header_plans_fit a r /\ body_plan_fits a r /\ source_fits a (ss_fields ss) /\ recipe_names_fit a ss r /\
  Forall (field_fits a) fs /\ len fs <= MaxHeaderFields L /\ len (enc_fields fs) <= MaxHeaderBytes L.
Definition historical_usage (fs : list field_spec) : Usage :=
  let items := len (ss_fields ss) + (copied_width ss r + len fs) in
  let emitted := len (enc_fields fs) in
  MkUsage 0 emitted items (items + emitted + names_work ss r) true.

Lemma with_fields_unavailable fs : with_fields ss fs = MkSS fs None.
Proof using Hb. unfold with_fields. by rewrite Hb. Qed.

Lemma ApplyHistorical_exact st u :
  ApplyHistorical a (state_of ss) r = (Ret st, u) <->
  exists fs, reconstruct_fields r (ss_fields ss) = Some fs /\ historical_fits fs /\
    us_emittedBytes (historical_usage fs) <= MaxStateBytes L /\
    us_workUnits (historical_usage fs) <= MaxOperationWorkUnits L /\
    st = state_of (MkSS fs None) /\ u = historical_usage fs.
Proof using Ha Hss Hv Hb Hc.
  unfold ApplyHistorical, State_BodyState. rewrite state_of_Valid, Hv, Hc, applier_ok_valid by done.
  assert (sta_availability (state_of ss) = BodyAvailabilityUnavailable) as -> by (unfold state_of; by rewrite Hb).
  cbn [negb orb andb]. rewrite bool_decide_eq_true_2 by done. cbn [negb orb].
  pose proof (Recipe_Valid_ok r Hv) as Hr. pose proof Ha as [Hlim _].
  match goal with |- withUsage a ?m = _ <-> _ => assert (exact m
    (header_plans_fit a r /\ body_plan_fits a r /\ header_cond a ss false r)
    (state_of (with_fields ss (new_fields ss r)))
    (len (ss_fields ss) + (copied_width ss r + len (new_fields ss r))) (len (enc_fields (new_fields ss r)))
    (names_work ss r)) as Hm end.
  { eapply exact_conv.
    - eapply exact_bind; [apply exact_require | intros _].
      eapply exact_bind; [by apply exact_ulift, yields_validateHeaderPlanBudgets | intros _].
      eapply exact_bind; [by apply exact_ulift, yields_validateBodyPlanBudgets | intros _].
      eapply exact_bind; [by apply applyHeadersUsing_exact | intros _].
      eapply exact_bind; [apply exact_require | intros _]. apply exact_uret.
    - rewrite state_of_Valid by (by apply header_state_wf). rewrite with_fields_unavailable.
      rewrite bool_decide_eq_true. cbn [negb state_of ss_body sta_availability]. tauto.
    - done.
    - lia. }
  rewrite (withUsage_exact a _ _ _ _ _ _ st u Ha Hm), with_fields_unavailable.
  unfold header_cond, historical_fits, out_fits, state_fits, new_fields. split.
  - intros ((H1 & H2 & _ & H3 & H4 & [fs Hf] & H5 & H6) & -> & -> & He & Hw). rewrite Hf in *.
    exists fs. cbn [default from_option id] in *. unfold historical_usage. cbn [us_emittedBytes us_workUnits].
    tauto.
  - intros (fs & Hf & Hfit & He & Hw & -> & ->). rewrite Hf. cbn [default from_option id].
    unfold historical_usage in *. cbn [us_emittedBytes us_workUnits] in *. split_and!; try done; tauto.
Qed.

Lemma Apply_unavailable st u : Apply a (state_of ss) r <> (Ret st, u).
Proof using Ha Hss Hv Hb Hc.
  intros (ss' & [[_ Hf] _]%reconstruct_iff & _)%Apply_exact; try done.
  by rewrite (copies_without_body ss Hss r Hv Hf Hb) in Hc.
Qed.
End historical.

(** * The theorems *)
(** C15: with an applier from NewApplier, Apply succeeds on a well-formed state
    exactly when the specification reconstructs a state, the plan, the source
    and the result are within the limits and the emitted bytes and work units
    are within the budgets; it then returns that state with the exact usage. *)
Theorem Apply_refines l a ss r st u :
  NewApplier l = Ret a -> wf_state ss -> Recipe_Valid r = true ->
  Apply a (state_of ss) r = (Ret st, u) <->
  exists ss', reconstruct r ss = Some ss' /\ apply_fits a ss r ss' /\
    us_emittedBytes (apply_usage ss r ss') <= MaxStateBytes (ap_limits a) /\
    us_workUnits (apply_usage ss r ss') <= MaxOperationWorkUnits (ap_limits a) /\
    st = state_of ss' /\ u = apply_usage ss r ss'.
Proof. intros Ha%NewApplier_applier_ok Hss Hv. by apply Apply_exact. Qed.

(** What Apply returns on a well-formed state is again a valid, well-formed
    state, so that recipes can be applied one after the other. *)
Theorem Apply_preserves_wf l a ss r st u :
  NewApplier l = Ret a -> wf_state ss -> Recipe_Valid r = true ->
  Apply a (state_of ss) r = (Ret st, u) ->
  State_Valid st = true /\ exists ss', wf_state ss' /\ st = state_of ss' /\ apply_fits a ss r ss'.
Proof.
  intros Ha%NewApplier_applier_ok Hss Hv (ss' & Hr & Hf & _ & _ & -> & _)%Apply_exact; [ | done..].
  pose proof (reconstruct_wf _ _ _ Hss Hv Hr). split; [by apply state_of_Valid | eauto].
Qed.

(** When the body of the source is unavailable and the recipe copies body
    lines, Apply never succeeds, and ApplyHistorical succeeds exactly when the
    header dimension can be reconstructed within the limits; it returns the
    new header fields without a body. *)
Theorem ApplyHistorical_unavailable l a ss r st u :
  NewApplier l = Ret a -> wf_state ss -> Recipe_Valid r = true ->
  ss_body ss = None -> recipeHasBodyCopy r = true ->
  Apply a (state_of ss) r <> (Ret st, u) /\
  (ApplyHistorical a (state_of ss) r = (Ret st, u) <->
   exists fs, reconstruct_fields r (ss_fields ss) = Some fs /\ historical_fits a ss r fs /\
     us_emittedBytes (historical_usage ss r fs) <= MaxStateBytes (ap_limits a) /\
     us_workUnits (historical_usage ss r fs) <= MaxOperationWorkUnits (ap_limits a) /\
     st = state_of (MkSS fs None) /\ u = historical_usage ss r fs).
Proof.
  intros Ha%NewApplier_applier_ok Hss Hv Hb Hc. split; [by apply Apply_unavailable | by apply ApplyHistorical_exact].
Qed.

(** ** A concrete application *)
Definition sample_state : state_spec :=
  MkSS [MkFS (bs "B") (bs " 2") []; MkFS (bs "a") (bs " 1") []; MkFS (bs "A") (bs " 3") []]
    (Some (MessageFramingDelimited, ([bs "x"; bs "y"], []))).
Definition sample_recipe : Recipe :=
  MkRecipe [MkPlan (bs "a") (bs "a")
              [MkStep StepKindCopy 2 2 [] true; MkStep StepKindData 0 0 [bs " q"] true] true] true
    BodyModeSteps [MkStep StepKindData 0 0 [bs "hello"] true; MkStep StepKindCopy 2 2 [] true] true.
Definition sample_result : state_spec :=
  MkSS [MkFS (bs "a") (bs " q") []; MkFS (bs "a") (bs " 1") []; MkFS (bs "B") (bs " 2") []]
    (Some (MessageFramingDelimited, ([bs "hello"; bs "y"], []))).
Definition sample_applier : Applier := MkApplier DefaultLimits (applierOptions DefaultLimits) true.

Lemma sample_state_wf : wf_state sample_state.
Proof. repeat constructor; try done; by apply (bool_decide_unpack _). Qed.

Definition applied (r : outcome Error State * Usage) (s : state_spec) : Prop :=
  exists u, r = (Ret (state_of s), u).
Lemma sample_new_applier : NewApplier DefaultLimits = Ret sample_applier.
Proof. vm_compute. reflexivity. Qed.
Lemma sample_applied : applied (Apply sample_applier (state_of sample_state) sample_recipe) sample_result.
Proof. eexists. vm_compute. reflexivity. Qed.

Lemma Apply_refines_witness : reconstruct sample_recipe sample_state <> None.
Proof.
  destruct sample_applied as [u E].
  destruct (proj1 (Apply_refines DefaultLimits sample_applier sample_state sample_recipe _ u
    sample_new_applier sample_state_wf ltac:(vm_compute; reflexivity)) E) as (ss' & Hr & _).
  rewrite Hr. discriminate.
Defined.
Lemma Apply_preserves_wf_witness : State_Valid (state_of sample_result) = true.
Proof.
  destruct sample_applied as [u E].
  apply (Apply_preserves_wf DefaultLimits sample_applier sample_state sample_recipe _ u
    sample_new_applier sample_state_wf); [vm_compute; reflexivity | exact E].
Defined.

Definition headers_only : state_spec := MkSS (ss_fields sample_state) None.
Lemma headers_only_wf : wf_state headers_only.
Proof. split; [apply sample_state_wf | exact I]. Qed.
Lemma sample_historical :
  applied (ApplyHistorical sample_applier (state_of headers_only) sample_recipe)
    (MkSS (ss_fields sample_result) None).
Proof. eexists. vm_compute. reflexivity. Qed.
Lemma ApplyHistorical_unavailable_witness :
  reconstruct_fields sample_recipe (ss_fields headers_only) <> None.
Proof.
  destruct sample_historical as [u E].
  destruct (proj1 (proj2 (ApplyHistorical_unavailable DefaultLimits sample_applier headers_only sample_recipe _ u
    sample_new_applier headers_only_wf ltac:(vm_compute; reflexivity) eq_refl ltac:(vm_compute; reflexivity))) E)
    as (fs & Hf & _).
  rewrite Hf. discriminate.
Defined.
