(* ===== verification/RecipeSafety.v ===== *)
(** * Recipe application: no run-time panic, and bounded work on every outcome

    The statements here are about every applier, every recipe and every state
    whose body index lies within the body, valid or not: [Apply] never panics,
    and the usage it reports is within the limits whether it succeeds or
    fails. *)

From stdpp Require Import gmap.
From S2P Require Import Prelude GoBytes RawMsg RawBody RawParser RawSpec RawInsertion.
From S2P Require Import RecipeTypes RecipeUsage RecipeHeader RecipeBody RecipeHeaderSpec.
#[local] Open Scope Z_scope.

(** ** A weakest-precondition reading of an operation: it never panics, and
    what it returns satisfies [Q] *)
Definition safe {A} (m : UM A) (Q : A -> Prop) : Prop :=
  forall c, match (m c).1 with Ret x => Q x | Fail _ => True | Crash => False end.

Section safe.
Context {A B : Type}.
Implicit Types (Q : A -> Prop).

Lemma safe_ret (x : A) Q : Q x -> safe (uret x) Q.
Proof. by intros H c. Qed.
Lemma safe_fail e Q : safe (ufail e) Q.
Proof. by intros c. Qed.
Lemma safe_lift (m : outcome Error A) Q : no_crash m -> (forall x, m = Ret x -> Q x) -> safe (ulift m) Q.
Proof. intros Hn HQ c. unfold ulift. cbn. destruct m; [by apply HQ | done | by apply Hn]. Qed.
Lemma safe_bind (m : UM A) (k : A -> UM B) Q R :
  safe m Q -> (forall x, Q x -> safe (k x) R) -> safe (ubind m k) R.
Proof.
  intros Hm Hk c. unfold ubind. specialize (Hm c). destruct (m c) as [[x|e|] c']; cbn in *; [ | done..].
  by apply Hk.
Qed.
Lemma safe_mono (m : UM A) Q Q' : safe m Q -> (forall x, Q x -> Q' x) -> safe m Q'.
Proof. intros Hm HQ c. specialize (Hm c). destruct (m c).1; auto. Qed.
Lemma safe_fold (f : B -> A -> UM B) l b (R : B -> Prop) :
  Forall (fun x => forall b, R b -> safe (f b x) R) l -> R b -> safe (ufold f l b) R.
Proof.
  intros Hf. revert b. induction Hf as [|x l Hx Hf IH]; intros b Hb; cbn [ufold]; [by intros c | ].
  intros c. specialize (Hx b Hb c). unfold ubind. destruct (f b x c) as [[b'|e|] c']; cbn in Hx; [ | done..].
  by apply IH.
Qed.
End safe.

Abbreviation top := (fun _ => True).
Lemma safe_require b e : safe (urequire b e) (fun _ => b = true).
Proof. intros c. by destruct b. Qed.
Lemma safe_charge n : safe (chargeItems n) top /\ safe (chargeEmitted n) top /\ safe (chargeWork n) top.
Proof.
  split_and!; intros c; unfold chargeItems, chargeEmitted, chargeWork;
    repeat (case_match; try done).
Qed.
Lemma safe_items n : safe (chargeItems n) top. Proof. apply safe_charge. Qed.
Lemma safe_emitted n : safe (chargeEmitted n) top. Proof. apply safe_charge. Qed.
Lemma safe_work n : safe (chargeWork n) top. Proof. apply safe_charge. Qed.
Lemma safe_pure {A} (m : outcome Error A) : no_crash m -> safe (ulift m) top.
Proof. intros Hn. by apply safe_lift. Qed.
#[export] Hint Resolve safe_items safe_emitted safe_work safe_require safe_fail safe_pure : safe.

(** [wp] walks through an operation. *)
Ltac wp :=
  repeat match goal with
  | |- safe (ubind (urequire _ _) _) _ => eapply safe_bind; [apply safe_require | let Hreq := fresh "Hreq" in intros ? Hreq; cbv beta in Hreq]
  | |- safe (ubind (chargeItems _) _) _ => eapply safe_bind; [apply safe_items | intros ? _]
  | |- safe (ubind (chargeEmitted _) _) _ => eapply safe_bind; [apply safe_emitted | intros ? _]
  | |- safe (ubind (chargeWork _) _) _ => eapply safe_bind; [apply safe_work | intros ? _]
  | |- safe (ubind (ulift _) _) _ => eapply safe_bind; [apply safe_pure | intros ? _]
  | |- safe (let (_, _) := checkedAdd ?x ?y in _) _ => destruct (checkedAdd x y)
  | |- safe (match ?p with (_, _) => _ end) _ => is_var p; destruct p
  | |- safe (uret _) _ => apply safe_ret; try exact I
  | |- safe (ufail _) _ => apply safe_fail
  | |- safe (urequire _ _) top => eapply safe_mono; [apply safe_require | done]
  end.

(** ** The pure parts *)
Lemma checkSum_no_crash name l s : no_crash (checkSum name l s).
Proof. unfold checkSum. crash_free. Qed.
Lemma checkBodySum_no_crash name l s : no_crash (checkBodySum name l s).
Proof. unfold checkBodySum. crash_free. Qed.
Lemma addBudget_no_crash d n l t c : no_crash (addBudget d n l t c).
Proof. unfold addBudget. destruct (checkedAdd t c). crash_free. Qed.
Lemma addLiterals_no_crash data l d b : no_crash (addLiterals data l d b).
Proof.
  revert b. induction data as [|x data IH]; intros b; cbn [addLiterals]; crash_free; auto using addBudget_no_crash.
Qed.
Lemma addInstructions_no_crash steps l d b : no_crash (addInstructions steps l d b).
Proof.
  revert b. induction steps as [|s steps IH]; intros b; cbn [addInstructions]; [done | ].
  destruct (copyRange s) as [[? ?]|]; crash_free; auto using addBudget_no_crash, addLiterals_no_crash.
Qed.
Lemma addSteps_no_crash b steps l d : no_crash (addSteps b steps l d).
Proof. unfold addSteps. crash_free; auto using addBudget_no_crash, addInstructions_no_crash. Qed.
Lemma addPlans_no_crash ps l d b : no_crash (addPlans ps l d b).
Proof. revert b. induction ps; intros b; cbn [addPlans]; crash_free; auto using addSteps_no_crash. Qed.
Lemma validateAllPlanStepBudgets_no_crash r l d : no_crash (validateAllPlanStepBudgets r l d).
Proof. unfold validateAllPlanStepBudgets. crash_free; auto using addPlans_no_crash, addSteps_no_crash. Qed.
#[export] Hint Resolve checkSum_no_crash checkBodySum_no_crash addSteps_no_crash
  validateAllPlanStepBudgets_no_crash : go.

Lemma lineOverLoop_no_crash fuel field limit : (length field < fuel)%nat -> no_crash (lineOverLoop fuel field limit).
Proof.
  revert field. induction fuel as [|fuel IH]; intros field Hf; [lia | ]. cbn [lineOverLoop].
  destruct (len field =? 0); [done | ]. destruct (bytes_index field crlf) as [i|] eqn:Ei; [ | done].
  apply bytes_index_bound in Ei. cbn in Ei. destruct (limit <? _); [done | ]. apply obind_no_crash.
  - apply slice_from_no_crash. lia.
  - intros rest [_ ->]%slice_inv. apply IH. rewrite length_take, length_drop. lia.
Qed.
Lemma checkLines_no_crash field limit : no_crash (checkLines field limit).
Proof. unfold checkLines, physicalHeaderLineLengthOver. crash_free. apply lineOverLoop_no_crash. lia. Qed.
#[export] Hint Resolve normalized_no_crash checkLines_no_crash : go.
Lemma liftRaw_no_crash {A} (m : outcome ParserError A) d : no_crash m -> no_crash (liftRaw m d).
Proof. unfold no_crash. by destruct m. Qed.

(** ** The header dimension *)
Section applier.
Context (a : Applier).

Lemma headerBudgetLoop_no_crash plans t b : no_crash (headerBudgetLoop a plans t b).
Proof. revert t b. induction plans; intros t b; cbn [headerBudgetLoop]; crash_free. Qed.
Lemma validateHeaderPlanBudgets_no_crash r : no_crash (validateHeaderPlanBudgets a r).
Proof. unfold validateHeaderPlanBudgets. crash_free. apply headerBudgetLoop_no_crash. Qed.
Lemma validateBodyPlanBudgets_no_crash r : no_crash (validateBodyPlanBudgets a r).
Proof. unfold validateBodyPlanBudgets. crash_free. Qed.
Lemma checkStateBytes_no_crash s e x y : no_crash (checkStateBytes a s e x y).
Proof. unfold checkStateBytes. crash_free. Qed.

Lemma collectHeaderGroups_safe h : safe (collectHeaderGroups a h) top.
Proof.
  unfold collectHeaderGroups. wp. apply safe_fold; [ | done]. apply list.Forall_forall. intros f _ g _.
  unfold collectField. wp; auto with go. crash_free.
Qed.

Section output.
Context (s : State) (e : bool).
Lemma reserveField_safe o n f : safe (reserveField a s e o n f) top.
Proof. unfold reserveField. wp; auto with go; [by destruct f; auto with go | apply checkStateBytes_no_crash]. Qed.
Lemma appendField_safe o f : safe (appendField a s e o f) top.
Proof. unfold appendField. eapply safe_bind; [apply reserveField_safe | intros ? _]. by wp. Qed.
Lemma appendData_safe n o l : safe (appendData a s e n o l) top.
Proof.
  unfold appendData. wp; auto with go. destruct (checkedAdd x0 2). wp.
  eapply safe_bind; [apply reserveField_safe | intros ? _]. by wp.
Qed.
Lemma copyOccurrence_safe g o k : 1 <= k <= len g -> safe (copyOccurrence a s e g o k) top.
Proof.
  intros Hk. unfold copyOccurrence. rewrite (proj2 (Z.leb_le _ _)) by lia.
  destruct (lookup_lt_is_Some_2 g (Z.to_nat (len g - k))) as [f ->]; [unfold len in *; lia | ].
  apply appendField_safe.
Qed.

Lemma planStep_safe g n st idx i : step_ok i -> safe (planStep a s e g n st (idx, i)) top.
Proof.
  intros Hi. unfold planStep, step_ok in *. destruct st as [o t]. destruct (copyRange i) as [[start end_]|].
  - destruct Hi as [Hr _]. wp; auto with go. eapply safe_bind; [ | intros ? _; by wp].
    apply (safe_fold _ _ _ top); [ | done]. apply list.Forall_forall. intros k Hk o' _.
    rewrite elem_of_reverse, elem_of_seqZ in Hk. apply copyOccurrence_safe. lia.
  - eapply safe_bind; [ | intros ? _; by wp]. apply (safe_fold _ _ _ top); [ | done].
    apply list.Forall_forall. intros l _ o' _. apply appendData_safe.
Qed.
Lemma appendHeaderPlan_safe g p st : plan_ok p -> safe (appendHeaderPlan a s e g p st) top.
Proof.
  intros (_ & _ & _ & Hs). apply safe_fold; [ | done]. apply list.Forall_forall. intros [idx i] Hi st' _.
  apply planStep_safe. rewrite Forall_forall in Hs. apply Hs.
  rewrite elem_of_reverse in Hi. by eapply elem_of_zip_r.
Qed.

(** The state that leaves the header dimension has the body it came with. *)
Definition same_body (s' : State) : Prop := sta_body s' = sta_body s \/ sta_body s' = emptyBody.
Lemma finish_safe o : safe (finish a s e o) same_body.
Proof.
  unfold finish. apply safe_lift.
  - crash_free; [apply checkStateBytes_no_crash | | unfold newUnavailableState; crash_free
               | unfold newKnownState; crash_free].
    apply liftRaw_no_crash, NewReconstructedHeaderBlock_no_crash.
  - intros x H. apply obind_ret_inv in H as (_ & _ & H). apply obind_ret_inv in H as (h & _ & H).
    destruct (decide _).
    + unfold newUnavailableState in H. ret_inv H. by right.
    + unfold newKnownState in H. ret_inv H. by left.
Qed.
End output.
End applier.

(** ** The whole header dimension *)
Section applier.
Context (a : Applier).

Lemma insertName_safe c p : safe (insertName c p) top.
Proof.
  induction p as [|x p IH]; cbn [insertName]; wp. destruct (negb (bytes_ltb c x)); wp.
  eapply safe_bind; [exact IH | intros ? _]. by wp.
Qed.
Lemma sortHeaderNames_safe ns : safe (sortHeaderNames ns) top.
Proof.
  destruct ns as [|n ns]; cbn; wp; try done. eapply safe_bind; [ | intros ? _; by wp].
  apply (safe_fold _ _ _ top); [ | done]. apply list.Forall_forall. intros c _ p _. apply insertName_safe.
Qed.

(** Every plan in the index is a plan of the recipe. *)
Definition indexed_plans (r : Recipe) (x : planIndex) : Prop :=
  forall n p, pi_plans x !! n = Some p -> p ∈ rc_headers r.
Lemma indexPlan_safe r x p :
  p ∈ rc_headers r -> indexed_plans r x -> safe (indexPlan a x p) (indexed_plans r).
Proof.
  intros Hp Hx.
  assert (forall g ns nb, indexed_plans r (MkPlans (<[hp_canonicalName p:=p]> (pi_plans x)) g ns nb)) as Hi.
  { intros g ns nb n q. cbn. rewrite lookup_insert_Some. intros [[_ <-] | [_ Hq]]; [done | by eapply Hx]. }
  unfold indexPlan. destruct (pi_groups x !! _); wp; auto with go.
Qed.
Lemma emitName_safe r s e gs ps st n :
  recipe_ok r -> (forall n p, ps !! n = Some p -> p ∈ rc_headers r) ->
  safe (emitName a s e gs ps st n) top.
Proof.
  intros (Hplans & _) Hps. unfold emitName. destruct (ps !! n) as [p|] eqn:E.
  - apply appendHeaderPlan_safe. rewrite Forall_forall in Hplans. by eapply Hplans, Hps.
  - eapply safe_bind; [ | intros ? _; by wp]. apply (safe_fold _ _ _ top); [ | done].
    apply list.Forall_forall. intros f _ o _. apply appendField_safe.
Qed.

Lemma applyHeadersUsing_safe s r e : safe (applyHeadersUsing a s r e) (same_body s).
Proof.
  unfold applyHeadersUsing. wp; [apply validateHeaderPlanBudgets_no_crash | ].
  apply andb_true_iff in Hreq as [_ Hr%Recipe_Valid_ok].
  eapply safe_bind; [apply collectHeaderGroups_safe | intros g _]. destruct (hasHeaderRecipe r); cbn [negb].
  - eapply (safe_bind _ _ (indexed_plans r)).
    + apply safe_fold; [ | intros n p; cbn; by rewrite lookup_empty].
      apply list.Forall_forall. intros p Hp px Hx. by apply indexPlan_safe.
    + intros px Hx. eapply safe_bind; [apply sortHeaderNames_safe | intros ns _].
      eapply (safe_bind _ _ top); [ | intros [o t] _; apply finish_safe].
      apply safe_fold; [ | done]. apply list.Forall_forall. intros n _ st _. by eapply emitName_safe.
  - eapply (safe_bind _ _ top); [ | intros o _; apply finish_safe].
    apply safe_fold; [ | done]. apply list.Forall_forall. intros f _ o _. apply appendField_safe.
Qed.

(** ** The body dimension *)
(** Every line of the body's index lies within its bytes. *)
Definition body_indexed (b : Body) : Prop :=
  Forall (fun l => 0 <= startOffset l <= endOffset l /\ 0 <= lineEndingWidth l /\
                   endOffset l + lineEndingWidth l <= len (body_bytes b)) (body_lines b).

Lemma Body_LineBytes_no_crash b i : body_indexed b -> no_crash (Body_LineBytes b i).
Proof.
  intros Hb. unfold Body_LineBytes. destruct (_ || _) eqn:E; [done | ].
  apply orb_false_iff in E as [E1 E2].
  assert (Z.to_nat i < length (body_lines b))%nat as [l El]%lookup_lt_is_Some_2 by (unfold len in *; lia).
  destruct (_ !! _) as [l'|] eqn:El'; [ | by rewrite El in El'].
  unfold body_indexed in Hb. rewrite Forall_forall in Hb.
  apply list_elem_of_lookup_2, Hb in El'. crash_free. apply zslice_no_crash; lia.
Qed.

Lemma zslice_bounds {E} (s : bytes) x y r : zslice (E := E) s x y = Ret r -> 0 <= x <= y /\ y <= len s.
Proof.
  unfold zslice. destruct (_ && _) eqn:E0; [ | done]. intros [Hxy _]%slice_inv. unfold len.
  apply andb_true_iff in E0. lia.
Qed.
(** [NewBody] only builds such bodies. *)
Lemma checkBodyLines_indexed data ls next n :
  checkBodyLines ls data next = Ret n -> body_indexed (MkBody data ls true).
Proof.
  revert next. unfold body_indexed. cbn [body_lines body_bytes].
  induction ls as [|l ls IH]; intros next; cbn [checkBodyLines]; [constructor | ]. intros E.
  apply obind_ret_inv in E as (_ & Hr%require_ret_inv & E). apply obind_ret_inv in E as (content & Hc & E).
  apply obind_ret_inv in E as (u & _ & E). apply obind_ret_inv in E as (u' & Hw & E).
  constructor; [ | by eapply IH]. apply zslice_bounds in Hc.
  assert (lineEndingWidth l = 0 \/ lineEndingWidth l = 2) as Hwidth.
  { destruct (Z.eqb_spec (lineEndingWidth l) 0); [by left | ].
    destruct (Z.eqb_spec (lineEndingWidth l) (len crlf)); [by right | done]. }
  lia.
Qed.
Lemma buildBody_indexed data o off b : buildBody data o off = Ret b -> body_indexed b.
Proof.
  unfold buildBody. intros E. apply obind_ret_inv in E as (ls & _ & E). apply obind_ret_inv in E as (ix & _ & E).
  unfold NewBody in E. apply obind_ret_inv in E as (n & Hn & E). ret_inv E. by eapply checkBodyLines_indexed.
Qed.
Definition state_indexed (s : State) : Prop := body_indexed (sta_body s).
Lemma empty_indexed : body_indexed emptyBody.
Proof. constructor. Qed.

Lemma countEmission_safe n m em i : safe (countEmission n m em i) top.
Proof.
  unfold countEmission. destruct (copyRange i) as [[? ?]|]; wp; auto with go; apply safe_pure; auto with go.
Qed.
Lemma checkTerminated_no_crash ls ns em idx o : no_crash (checkTerminated ls ns em idx o).
Proof.
  revert o. induction ns as [|n ns IH]; intros o; cbn [checkTerminated]; [done | ].
  crash_free.
Qed.
Lemma checkTerminatedSteps_no_crash ls steps em idx o : no_crash (checkTerminatedSteps ls steps em idx o).
Proof.
  revert idx o. induction steps as [|s steps IH]; intros idx o; cbn [checkTerminatedSteps]; [done | ].
  apply obind_no_crash; [ | auto]. destruct (copyRange s) as [[? ?]|]; [apply checkTerminated_no_crash | ].
  destruct (checkedAdd o _). crash_free.
Qed.
Lemma preflight_safe s r : safe (preflightKnownBodySource a s r) top.
Proof.
  unfold preflightKnownBodySource. wp. eapply safe_bind.
  - apply (safe_fold _ _ _ top); [ | done]. apply list.Forall_forall. intros l _ u _. unfold preflightLine. by wp.
  - intros u _. eapply (safe_bind _ _ top); [ | intros ? _; by wp]. destruct (bool_decide (rc_bodyMode r = BodyModeSteps)); [ | by wp].
    unfold validateBodyCopySources. eapply (safe_bind _ _ top).
    + apply safe_fold; [ | done]. apply list.Forall_forall. intros i _ em _. apply countEmission_safe.
    + intros em _. apply safe_pure, checkTerminatedSteps_no_crash.
Qed.

Section output.
Context (s : State).
Lemma reserveLine_safe o n : safe (reserveLine a s o n) top.
Proof.
  unfold reserveLine. wp; auto with go.
Qed.
Lemma appendBodyData_safe o l : safe (appendBodyData a s o l) top.
Proof.
  unfold appendBodyData. destruct (checkedAdd _ 2). wp.
  eapply safe_bind; [apply reserveLine_safe | intros ? _]. by wp.
Qed.
Lemma appendSourceLine_safe b o i : body_indexed b -> safe (appendSourceLine a s b o i) top.
Proof.
  intros Hb. unfold appendSourceLine. destruct (Body_LineEncodedLen b i); [ | by wp].
  eapply safe_bind; [apply reserveLine_safe | intros ? _].
  pose proof (Body_LineBytes_no_crash b i Hb) as Hn.
  destruct (Body_LineBytes b i) as [[l|]|e|]; [by wp | by wp | by wp | done].
Qed.
Lemma finishBody_safe f o : safe (finishBody a s f o) state_indexed.
Proof.
  unfold finishBody. apply safe_lift.
  - crash_free; [ | unfold newKnownState; crash_free].
    apply liftRaw_no_crash. unfold NewReconstructedBody. crash_free.
  - intros x. destruct (checkedAdd _ _). intros Hx.
    apply obind_ret_inv in Hx as (_ & _ & Hx). apply obind_ret_inv in Hx as (_ & _ & Hx).
    apply obind_ret_inv in Hx as (bd & Hb & Hx). unfold newKnownState in Hx. ret_inv Hx.
    unfold state_indexed. cbn [sta_body]. destruct (NewReconstructedBody _ _) as [b'|e|] eqn:E; [ | done..].
    injection Hb as ->. unfold NewReconstructedBody in E.
    apply obind_ret_inv in E as (_ & _ & E). apply obind_ret_inv in E as (_ & _ & E). by eapply buildBody_indexed.
Qed.
Lemma emitData_safe data o : safe (ufold (appendBodyData a s) data o) top.
Proof.
  apply safe_fold; [ | done]. apply list.Forall_forall. intros l _ o' _. apply appendBodyData_safe.
Qed.
Lemma emitBodyStep_safe o i : body_indexed (sta_body s) -> safe (emitBodyStep a s o i) top.
Proof.
  intros Hb. unfold emitBodyStep. destruct (copyRange i) as [[? ?]|]; [ | apply emitData_safe].
  apply safe_fold; [ | done]. apply list.Forall_forall. intros k _ o' _. by apply appendSourceLine_safe.
Qed.
End output.

Lemma unavailable_safe h :
  safe (ulift (check checkHeaderStateBytes a h ;; newUnavailableState h)) state_indexed.
Proof.
  unfold checkHeaderStateBytes, newUnavailableState. apply safe_lift; [crash_free | ].
  intros x Hx. ret_inv Hx. apply empty_indexed.
Qed.
Lemma applyBodyUsing_safe s r p : state_indexed s -> safe (applyBodyUsing a s r p) state_indexed.
Proof.
  intros Hb. unfold applyBodyUsing. wp; [apply validateBodyPlanBudgets_no_crash | ].
  destruct (decide (rc_bodyMode r = _)); [apply unavailable_safe | ].
  destruct (bool_decide (rc_bodyMode r = _) && _).
  { unfold checkHeaderStateBytes. apply safe_lift; [crash_free | ]. intros st Hst. by ret_inv Hst. }
  destruct (decide _).
  { destruct (recipeHasBodyCopy r); [by wp | ]. unfold emitBodyData. eapply (safe_bind _ _ top).
    - apply safe_fold; [ | done]. apply list.Forall_forall. intros i _ o _. apply emitData_safe.
    - intros o _. apply finishBody_safe. }
  eapply (safe_bind _ _ top).
  { destruct p; [by wp | ]. eapply safe_bind; [apply preflight_safe | intros ? _; by wp]. }
  intros _ _. eapply (safe_bind _ _ top); [ | intros o _; apply finishBody_safe].
  destruct (decide _); (apply safe_fold; [ | done]); apply list.Forall_forall; intros i _ o _;
    [by apply appendSourceLine_safe | by apply emitBodyStep_safe].
Qed.

(** The outcome of an operation that keeps the states indexed. *)
Definition good_outcome (m : outcome Error State) : Prop :=
  match m with Ret s => state_indexed s | Fail _ => True | Crash => False end.
Lemma withUsage_safe m : safe m state_indexed -> good_outcome (withUsage a m).1.
Proof.
  intros Hm. unfold withUsage. pose proof (normalized_no_crash (ap_limits a)) as Hn.
  unfold newUsageCounter. destruct (Limits_normalized _) as [l| |]; [ | done..]. cbn.
  specialize (Hm (MkCounter l 0 0 0 0)). by destruct (m _) as [[|e|] c'].
Qed.
Lemma same_body_indexed s s' : state_indexed s -> same_body s s' -> state_indexed s'.
Proof. unfold state_indexed. intros Hs [-> | ->]; [done | apply empty_indexed]. Qed.

Lemma Apply_safe s r : state_indexed s -> good_outcome (Apply a s r).1.
Proof.
  intros Hb. apply withUsage_safe. wp;
    [apply validateHeaderPlanBudgets_no_crash | apply validateBodyPlanBudgets_no_crash | ].
  eapply (safe_bind _ _ top).
  { destruct (bool_decide (sta_availability s = BodyAvailabilityKnown) && _); [ | by wp].
    eapply safe_bind; [apply preflight_safe | intros ? _; by wp]. }
  intros p _. eapply safe_bind; [apply applyHeadersUsing_safe | ]. intros h Hh.
  by eapply applyBodyUsing_safe, same_body_indexed.
Qed.
Lemma ApplyHistorical_safe s r : state_indexed s -> good_outcome (ApplyHistorical a s r).1.
Proof.
  intros Hb. unfold ApplyHistorical. destruct (_ || _); [by apply Apply_safe | ]. apply withUsage_safe. wp;
    [apply validateHeaderPlanBudgets_no_crash | apply validateBodyPlanBudgets_no_crash | ].
  eapply safe_bind; [apply applyHeadersUsing_safe | ]. intros h Hh. wp. by eapply same_body_indexed.
Qed.
End applier.

(** ** The counter *)
Section counter.
Context (a : Applier).

Lemma keeps_reserveField s e o n f : keeps (reserveField a s e o n f).
Proof. unfold reserveField. keeps_all. Qed.
Lemma keeps_reserveLine s o n : keeps (reserveLine a s o n).
Proof. unfold reserveLine. keeps_all. Qed.
#[local] Hint Resolve keeps_reserveField keeps_reserveLine : usage.
Lemma keeps_appendField s e o f : keeps (appendField a s e o f).
Proof. unfold appendField. keeps_all. Qed.
Lemma keeps_appendData s e n o l : keeps (appendData a s e n o l).
Proof. unfold appendData. keeps_all. Qed.
Lemma keeps_appendBodyData s o l : keeps (appendBodyData a s o l).
Proof. unfold appendBodyData. keeps_all. Qed.
Lemma keeps_appendSourceLine s b o i : keeps (appendSourceLine a s b o i).
Proof. unfold appendSourceLine. keeps_all. Qed.
Lemma keeps_collectField g f : keeps (collectField a g f).
Proof. unfold collectField. keeps_all. Qed.
Lemma keeps_insertName c p : keeps (insertName c p).
Proof. induction p; cbn [insertName]; keeps_all. Qed.
Lemma keeps_preflightLine u l : keeps (preflightLine a u l).
Proof. unfold preflightLine. keeps_all. Qed.
Lemma keeps_countEmission n m em i : keeps (countEmission n m em i).
Proof. unfold countEmission. keeps_all. Qed.
#[local] Hint Resolve keeps_appendField keeps_appendData keeps_appendBodyData keeps_appendSourceLine
  keeps_collectField keeps_insertName keeps_preflightLine keeps_countEmission : usage.
Lemma keeps_copyOccurrence s e g o k : keeps (copyOccurrence a s e g o k).
Proof. unfold copyOccurrence. keeps_all. Qed.
#[local] Hint Resolve keeps_copyOccurrence : usage.
Lemma keeps_planStep s e g n st x : keeps (planStep a s e g n st x).
Proof. unfold planStep. keeps_all. Qed.
#[local] Hint Resolve keeps_planStep : usage.
Lemma keeps_emitName s e gs ps st n : keeps (emitName a s e gs ps st n).
Proof. unfold emitName, appendHeaderPlan. keeps_all. Qed.
Lemma keeps_indexPlan x p : keeps (indexPlan a x p).
Proof. unfold indexPlan. keeps_all. Qed.
Lemma keeps_sortHeaderNames ns : keeps (sortHeaderNames ns).
Proof. unfold sortHeaderNames. keeps_all. Qed.
Lemma keeps_collectHeaderGroups h : keeps (collectHeaderGroups a h).
Proof. unfold collectHeaderGroups. keeps_all. Qed.
Lemma keeps_finish s e o : keeps (finish a s e o).
Proof. unfold finish. keeps_all. Qed.
#[local] Hint Resolve keeps_emitName keeps_indexPlan keeps_sortHeaderNames keeps_collectHeaderGroups
  keeps_finish : usage.
Lemma keeps_applyHeadersUsing s r e : keeps (applyHeadersUsing a s r e).
Proof. unfold applyHeadersUsing. keeps_all. Qed.
Lemma keeps_emitBodyStep s o i : keeps (emitBodyStep a s o i).
Proof. unfold emitBodyStep. keeps_all. Qed.
Lemma keeps_finishBody s f o : keeps (finishBody a s f o).
Proof. unfold finishBody. keeps_all. Qed.
#[local] Hint Resolve keeps_applyHeadersUsing keeps_emitBodyStep keeps_finishBody : usage.
Lemma keeps_preflight s r : keeps (preflightKnownBodySource a s r).
Proof. unfold preflightKnownBodySource, validateBodyCopySources. keeps_all. Qed.
#[local] Hint Resolve keeps_preflight : usage.
Lemma keeps_applyBodyUsing s r p : keeps (applyBodyUsing a s r p).
Proof. unfold applyBodyUsing, emitBodyData. keeps_all. Qed.
#[local] Hint Resolve keeps_applyBodyUsing : usage.

(** The bounds the returned usage satisfies. *)
Definition usage_bounded (u : Usage) : Prop :=
  0 <= us_decodedBytes u /\ 0 <= us_emittedBytes u <= MaxStateBytes (ap_limits a) /\ 0 <= us_items u /\
  us_decodedBytes u + us_emittedBytes u + us_items u <= us_workUnits u
    <= MaxOperationWorkUnits (ap_limits a) /\ us_initialized u = true.

Lemma withUsage_bounded m : applier_ok a -> keeps m -> usage_bounded (withUsage a m).2.
Proof.
  intros Ha Hm. unfold withUsage. rewrite applier_ok_counter by done.
  destruct (Hm _ (counter_start _ (proj1 Ha))) as [Hc Hl]. destruct (m _) as [res c]. cbn [snd] in *.
  destruct Hc as (H1 & H2 & H3 & H4 & [H5 H6] & _). rewrite Hl in H5, H6.
  unfold usageCounter_usage, newUsage, Usage_Valid, usage_bounded. cbn -[Z.add Z.leb] in *.
  rewrite !(proj2 (Z.leb_le _ _)) by lia. cbn. lia.
Qed.
Lemma Apply_bounded s r : applier_ok a -> usage_bounded (Apply a s r).2.
Proof. intros Ha. apply withUsage_bounded; [done | ]. cbv zeta. keeps_all. Qed.
Lemma ApplyHistorical_bounded s r : applier_ok a -> usage_bounded (ApplyHistorical a s r).2.
Proof.
  intros Ha. unfold ApplyHistorical. destruct (_ || _); [by apply Apply_bounded | ].
  apply withUsage_bounded; [done | ]. keeps_all.
Qed.
End counter.

(** * The theorems *)
(** C16: Apply and ApplyHistorical never panic, for any applier and any recipe,
    on a state whose body index lies within the body; and they return states
    of that kind. *)
Theorem Apply_total a s r :
  state_indexed s -> good_outcome (Apply a s r).1 /\ good_outcome (ApplyHistorical a s r).1.
Proof. intros Hs. split; [by apply Apply_safe | by apply ApplyHistorical_safe]. Qed.

(** Whatever the outcome, for every state and recipe, the usage that Apply
    and ApplyHistorical report accounts for every item and byte as work and is
    within the applier's limits. *)
Theorem Apply_usage_bounded l a s r :
  NewApplier l = Ret a -> usage_bounded a (Apply a s r).2 /\ usage_bounded a (ApplyHistorical a s r).2.
Proof.
  intros Ha%NewApplier_applier_ok. split; [by apply Apply_bounded | by apply ApplyHistorical_bounded].
Qed.

Lemma layout_indexed i pos ls last n :
  0 <= pos -> pos + len (unlines ls ++ last) <= n ->
  Forall (fun l => 0 <= startOffset l <= endOffset l /\ 0 <= lineEndingWidth l /\
                   endOffset l + lineEndingWidth l <= n) (layout i pos (segments ls last)).
Proof.
  revert i pos. induction ls as [|l ls IH]; intros i pos Hp Hn.
  - unfold segments. cbn. destruct last; [constructor | ]. cbn [app] in *. repeat constructor; cbn in *; unfold len in *; lia.
  - rewrite segments_cons. cbn [layout]. rewrite unlines_cons, !len_app in Hn. change (len crlf) with 2 in Hn.
    pose proof (len_nonneg l). pose proof (len_nonneg (unlines ls)). pose proof (len_nonneg last).
    constructor; [cbn; lia | ]. apply IH; rewrite ?len_app; lia.
Qed.
Lemma state_of_indexed ss : state_indexed (state_of ss).
Proof.
  unfold state_of, state_indexed. destruct (ss_body ss) as [[framing [ls last]]|]; [ | apply empty_indexed].
  cbn [sta_body]. unfold body_indexed, body_of. cbn [body_lines body_bytes]. apply layout_indexed; lia.
Qed.

Lemma state_of_msg_wf m : wf_msg m -> wf_state (state_of_msg m).
Proof.
  intros (Hne & Hf & Hb). split; [done | ]. unfold state_of_msg, framing_of. cbn [ss_body ss_fields].
  by destruct (ms_body m) as [[ls last]|]; split_and!; try apply Hb; try done; constructor.
Qed.
Lemma NewState_ok m : wf_msg m -> NewState (message_of m) = Ret (state_of (state_of_msg m)).
Proof.
  intros Hwf. pose proof (message_framing m Hwf) as Hf. pose proof Hf as Hi. unfold Message_Framing in Hi.
  unfold NewState. rewrite Hf. destruct (Message_Initialized (message_of m)); [ | done].
  cbn [negb require obind from_option id]. unfold newKnownState.
  assert (HeaderBlock_Len (RawParser.headers (message_of m)) =? 0 = false) as ->.
  { unfold HeaderBlock_Len, message_of, block_of. cbn [RawParser.headers hb_fields]. rewrite len_fields_of. apply Z.eqb_neq.
    destruct Hwf as [Hne _]. by destruct (ms_fields m). }
  unfold state_of, state_of_msg, framing_of. cbn [ss_body ss_fields message_of RawParser.headers RawParser.body].
  by destruct (ms_body m) as [[ls last]|].
Qed.

(** C17: the state of a parsed message is valid and indexed, and materializing
    it gives the message back. *)
Theorem parsed_state_roundtrip data M :
  ParseWithOptions data DefaultParserOptions = Ret M ->
  exists s, NewState M = Ret s /\ State_Valid s = true /\ state_indexed s /\ Materialize s = Ret M.
Proof.
  intros E. pose proof (parse_validated _ _ _ E) as Hv.
  apply parse_inv in E as (m & Hwf & Hfit & -> & ->). exists (state_of (state_of_msg m)).
  assert (State_Valid (state_of (state_of_msg m)) = true) as Hvalid by (by apply state_of_Valid, state_of_msg_wf).
  split_and!; [by apply NewState_ok | done | apply state_of_indexed | ].
  unfold Materialize. rewrite Hvalid. pose proof (reconstruct_message _ m Hv Hwf Hfit) as Hr.
  unfold state_of, state_of_msg in *. destruct (ms_body m) as [[ls last]|] eqn:Eb; cbn in *; by rewrite Hr.
Qed.

Definition default_applier : Applier := MkApplier DefaultLimits (applierOptions DefaultLimits) true.
Definition empty_recipe : Recipe := MkRecipe [] false BodyModeUnavailable [] true.
Definition sample_spec : state_spec :=
  MkSS [MkFS (bs "a") (bs " 1") []] (Some (MessageFramingDelimited, ([bs "x"], []))).

Lemma Apply_total_witness :
  good_outcome (Apply default_applier (state_of sample_spec) empty_recipe).1.
Proof. apply (Apply_total default_applier (state_of sample_spec) empty_recipe), state_of_indexed. Defined.
Lemma Apply_usage_bounded_witness :
  usage_bounded default_applier (Apply default_applier (state_of sample_spec) empty_recipe).2.
Proof.
  apply (Apply_usage_bounded DefaultLimits default_applier (state_of sample_spec) empty_recipe).
  vm_compute. reflexivity.
Defined.
Lemma parsed_state_roundtrip_witness :
  exists M s, ParseWithOptions sample_bytes DefaultParserOptions = Ret M /\ NewState M = Ret s /\ Materialize s = Ret M.
Proof.
  destruct (ParseWithOptions sample_bytes DefaultParserOptions) as [M|e|] eqn:E.
  - destruct (parsed_state_roundtrip sample_bytes M E) as (s & Hn & _ & _ & Hm). exists M, s. split_and!; [reflexivity | exact Hn | exact Hm].
  - vm_compute in E. discriminate.
  - vm_compute in E. discriminate.
Defined.
