(* ===== verification/GoTime.v ===== *)
(** * Go's time package: instants and durations

    [time.Time] without a monotonic reading is a number of seconds since
    January 1 of year 1 (a 64-bit integer) and nanoseconds within the second;
    [time.Duration] is a 64-bit number of nanoseconds.  [instant] is the exact
    point on the time line, on which the operations are ordinary arithmetic as
    long as nothing overflows. *)

From S2P Require Import Prelude.
#[local] Open Scope Z_scope.

(** Two's complement wrap-around of 64-bit integers. *)
Definition wrap64 (z : Z) : Z := (z + 2 ^ 63) mod 2 ^ 64 - 2 ^ 63.
Definition MinInt : Z := - 2 ^ 63.

Lemma wrap64_id z : MinInt <= z <= MaxInt -> wrap64 z = z.
Proof. unfold wrap64, MinInt, MaxInt. intros Hz. rewrite Z.mod_small; lia. Qed.
Lemma wrap64_range z : MinInt <= wrap64 z <= MaxInt.
Proof. unfold wrap64, MinInt, MaxInt. pose proof (Z.mod_pos_bound (z + 2 ^ 63) (2 ^ 64)). lia. Qed.

Definition Nanosecond : Z := 1.
Definition Millisecond : Z := 1000000.
Definition Second : Z := 1000000000.
Definition Hour : Z := 3600 * Second.

Record Time := MkTime { t_sec : Z; t_nsec : Z }.
#[export] Instance Time_eq_dec : EqDecision Time.
Proof. solve_decision. Defined.
Definition zeroTime : Time := MkTime 0 0.
(** Seconds from January 1 of year 1 to the Unix epoch. *)
Definition unixToInternal : Z := 62135596800.

Definition IsZero (t : Time) : bool := (t_sec t =? 0) && (t_nsec t =? 0).
Definition Unix (t : Time) : Z := wrap64 (t_sec t - unixToInternal).
Definition After (t u : Time) : bool :=
  (t_sec u <? t_sec t) || ((t_sec t =? t_sec u) && (t_nsec u <? t_nsec t)).
Definition Before (t u : Time) : bool := After u t.
Definition Equal (t u : Time) : bool := (t_sec t =? t_sec u) && (t_nsec t =? t_nsec u).

(** The addition of seconds saturates. *)
Definition addSec (s d : Z) : Z :=
  let sum := wrap64 (s + d) in
  if Bool.eqb (s <? sum) (0 <? d) then sum
  else if 0 <? d then MaxInt else - MaxInt.
Definition Add (t : Time) (d : Z) : Time :=
  let nsec := t_nsec t + Z.rem d Second in
  let '(dsec, nsec) :=
    if Second <=? nsec then (Z.quot d Second + 1, nsec - Second)
    else if nsec <? 0 then (Z.quot d Second - 1, nsec + Second)
    else (Z.quot d Second, nsec) in
  MkTime (addSec (t_sec t) dsec) nsec.
Definition Sub (t u : Time) : Z :=
  let d := wrap64 (wrap64 (wrap64 (t_sec t - t_sec u) * Second) + (t_nsec t - t_nsec u)) in
  if Equal (Add u d) t then d
  else if Before t u then MinInt else MaxInt.

(** Milliseconds since the Unix epoch, and back. *)
Definition UnixMilli (t : Time) : Z := wrap64 (wrap64 (Unix t * 1000) + Z.quot (t_nsec t) 1000000).
Definition unixMilli (msec : Z) : Time :=
  let sec := Z.quot msec 1000 in
  let nsec := Z.rem msec 1000 * 1000000 in
  let '(sec, nsec) := if nsec <? 0 then (sec - 1, nsec + Second) else (sec, nsec) in
  MkTime (wrap64 (sec + unixToInternal)) nsec.

(** ** Exact arithmetic *)
Definition wf_time (t : Time) : Prop := MinInt <= t_sec t <= MaxInt /\ 0 <= t_nsec t < Second.
Definition instant (t : Time) : Z := t_sec t * Second + t_nsec t.

Lemma After_instant t u : wf_time t -> wf_time u -> After t u = true <-> instant u < instant t.
Proof. unfold wf_time, After, instant, Second. intros [_ Ht] [_ Hu]. lia. Qed.
Lemma Before_instant t u : wf_time t -> wf_time u -> Before t u = true <-> instant t < instant u.
Proof. intros Ht Hu. by apply After_instant. Qed.
Lemma After_false t u : wf_time t -> wf_time u -> After t u = false <-> instant t <= instant u.
Proof. intros Ht Hu. rewrite <- not_true_iff_false, After_instant by done. lia. Qed.
Lemma Before_false t u : wf_time t -> wf_time u -> Before t u = false <-> instant u <= instant t.
Proof. intros Ht Hu. by apply After_false. Qed.
Lemma instant_inj t u : wf_time t -> wf_time u -> instant t = instant u -> t = u.
Proof.
  destruct t as [s n], u as [s' n']. unfold wf_time, instant, Second. cbn. intros [_ Ht] [_ Hu] E.
  assert (s = s') as -> by lia. f_equal. lia.
Qed.
Lemma Equal_spec t u : Equal t u = true <-> t = u.
Proof.
  unfold Equal. destruct t as [s n], u as [s' n']. cbn. split; [intros; f_equal; lia | intros [= -> ->]; lia].
Qed.
Lemma IsZero_spec t : IsZero t = true <-> t = zeroTime.
Proof. apply (Equal_spec t zeroTime). Qed.

(** [After] orders instants strictly and totally. *)
Lemma time_cmp t u : (After t u = true /\ t <> u /\ After u t = false) \/ t = u \/ (After u t = true /\ t <> u /\ After t u = false).
Proof.
  destruct t as [s n], u as [s' n']. unfold After. cbn.
  assert ((s = s' /\ n = n') \/ (s < s' \/ s = s' /\ n < n') \/ (s' < s \/ s = s' /\ n' < n)) as [[-> ->] | [H | H]] by lia.
  - right. by left.
  - right. right. split_and!; [lia | intros [= -> ->]; lia | lia].
  - left. split_and!; [lia | intros [= -> ->]; lia | lia].
Qed.
Lemma After_trans t u v : After t u = true -> After u v = true -> After t v = true.
Proof. unfold After. lia. Qed.

(** [Add] is exact when the seconds do not overflow. *)
Lemma addSec_exact s d : MinInt <= s + d <= MaxInt -> addSec s d = s + d.
Proof.
  intros H. unfold addSec. rewrite wrap64_id by done.
  destruct (Z.ltb_spec s (s + d)), (Z.ltb_spec 0 d); cbn; lia.
Qed.
(** The whole seconds a nonnegative duration carries an instant forward. *)
Definition carry_seconds (t : Time) (d : Z) : Z :=
  d / Second + (if Second <=? t_nsec t + d mod Second then 1 else 0).
Lemma carry_seconds_bounds t d :
  wf_time t -> 0 <= d -> 0 <= d / Second <= carry_seconds t d /\ carry_seconds t d <= d / Second + 1.
Proof.
  intros _ Hd. unfold carry_seconds. assert (0 <= d / Second) by (apply Z.div_pos; unfold Second; lia).
  destruct (_ <=? _); lia.
Qed.
Lemma carry_seconds_div t d : wf_time t -> carry_seconds t d = (t_nsec t + d) / Second.
Proof.
  intros [_ Hn]. unfold carry_seconds.
  pose proof (Z.div_mod d Second ltac:(unfold Second; lia)) as E.
  pose proof (Z.mod_pos_bound d Second ltac:(unfold Second; lia)) as Hr.
  pose proof (Z.div_mod (t_nsec t + d) Second ltac:(unfold Second; lia)) as E'.
  pose proof (Z.mod_pos_bound (t_nsec t + d) Second ltac:(unfold Second; lia)) as Hr'.
  unfold Second in *. destruct (Z.leb_spec 1000000000 (t_nsec t + d mod 1000000000)); lia.
Qed.
Lemma Add_seconds t d :
  wf_time t -> 0 <= d ->
  Add t d = MkTime (addSec (t_sec t) (carry_seconds t d))
              ((t_nsec t + d mod Second) - (if Second <=? t_nsec t + d mod Second then Second else 0)).
Proof.
  intros [Hs Hn] Hd. unfold Add, carry_seconds. rewrite Z.rem_mod_nonneg, Z.quot_div_nonneg by (unfold Second; lia).
  pose proof (Z.mod_pos_bound d Second ltac:(unfold Second; lia)) as Hr.
  destruct (Z.leb_spec Second (t_nsec t + d mod Second)) as [Hc|Hc]; [done | ].
  rewrite (proj2 (Z.ltb_ge _ 0)) by lia. f_equal; [f_equal; lia | lia].
Qed.
Lemma Add_exact t d :
  wf_time t -> 0 <= d -> t_sec t + carry_seconds t d <= MaxInt ->
  wf_time (Add t d) /\ instant (Add t d) = instant t + d.
Proof.
  intros Ht Hd Hm. pose proof (carry_seconds_bounds t d Ht Hd) as Hb. rewrite Add_seconds by done.
  destruct Ht as [Hs Hn].
  pose proof (Z.div_mod d Second ltac:(unfold Second; lia)) as E.
  pose proof (Z.mod_pos_bound d Second ltac:(unfold Second; lia)) as Hr.
  unfold wf_time, instant. cbn [t_sec t_nsec]. rewrite addSec_exact by (unfold MinInt in *; lia).
  unfold carry_seconds in *. destruct (Z.leb_spec Second (t_nsec t + d mod Second)); lia.
Qed.
Lemma Add_saturated t d :
  wf_time t -> 0 <= d <= MaxInt -> MaxInt < t_sec t + carry_seconds t d ->
  wf_time (Add t d) /\ t_sec (Add t d) = MaxInt /\ instant (Add t d) <= instant t + d - Second.
Proof.
  intros Ht Hd Hm. assert (0 <= t_nsec (Add t d) < Second /\
      instant t + d = (t_sec t + carry_seconds t d) * Second + t_nsec (Add t d)) as [Hns Hi].
  { rewrite Add_seconds by (done || lia). cbn [t_nsec]. destruct Ht as [_ Hn]. unfold instant, carry_seconds.
    pose proof (Z.div_mod d Second ltac:(unfold Second; lia)) as E.
    pose proof (Z.mod_pos_bound d Second ltac:(unfold Second; lia)) as Hr.
    destruct (Z.leb_spec Second (t_nsec t + d mod Second)); lia. }
  assert (t_sec (Add t d) = MaxInt) as Hsat.
  2: { unfold wf_time, instant in *. rewrite Hsat. unfold Second, MinInt, MaxInt in *. lia. }
  clear Hns Hi. pose proof (carry_seconds_bounds t d Ht ltac:(lia)) as Hb. rewrite Add_seconds by (done || lia).
  cbn [t_sec]. destruct Ht as [Hs _]. unfold addSec.
  assert (d / Second <= MaxInt / Second) by (apply Z.div_le_mono; [unfold Second; lia | lia]).
  assert (wrap64 (t_sec t + carry_seconds t d) = t_sec t + carry_seconds t d - 2 ^ 64) as ->.
  { unfold wrap64. rewrite <- (Z.mod_unique _ (2 ^ 64) 1 (t_sec t + carry_seconds t d + 2 ^ 63 - 2 ^ 64));
      [lia | left; unfold MaxInt, Second in *; lia | lia]. }
  unfold MaxInt, MinInt, Second in *.
  destruct (Z.ltb_spec (t_sec t) (t_sec t + carry_seconds t d - 2 ^ 64)), (Z.ltb_spec 0 (carry_seconds t d)); cbn; lia.
Qed.

(** [Sub] is exact when the difference is a duration. *)
Lemma Sub_exact t u :
  wf_time t -> wf_time u ->
  0 <= instant t - instant u <= MaxInt - Second -> Add u (instant t - instant u) = t ->
  Sub t u = instant t - instant u.
Proof.
  intros [Ht1 Ht2] [Hu1 Hu2] Hd Ha. unfold Sub.
  assert (wrap64 (wrap64 (wrap64 (t_sec t - t_sec u) * Second) + (t_nsec t - t_nsec u)) =
          instant t - instant u) as ->.
  { unfold instant, Second, MaxInt in *. rewrite (wrap64_id (t_sec t - t_sec u)) by (unfold MinInt, MaxInt; lia).
    rewrite (wrap64_id ((t_sec t - t_sec u) * 1000000000)) by (unfold MinInt, MaxInt; lia).
    rewrite wrap64_id by (unfold MinInt, MaxInt; lia). lia. }
  rewrite Ha. by rewrite (proj2 (Equal_spec t t)).
Qed.
