(* ===== verification/ReplayTypes.v ===== *)
(** * Package internal/replay: errors, vocabularies, limits, retention, leases

    errors.go, contracts.go, enums.go, limits.go, retention.go and the lease and
    the vocabularies of propagation.go.  A typed error is its code: its cause is
    determined by it.  A deferred [recover] is [recovered]. *)

From S2P Require Import Prelude GoBytes GoTime.
#[local] Open Scope Z_scope.

(** ** errors.go *)
Inductive ErrorCode :=
  | ErrorCodeInvalidRequest | ErrorCodeMisconfigured | ErrorCodeLimitExceeded | ErrorCodeUnavailable
  | ErrorCodeIndeterminate | ErrorCodeInconsistent | ErrorCodeCancelled | ErrorCodeDeadlineExceeded
  | ErrorCodeClosed | ErrorCodeInternalInvariant.
#[export] Instance ErrorCode_eq_dec : EqDecision ErrorCode.
Proof. solve_decision. Defined.

(** An error value of the package's callers and providers: a valid [*Error], or
    anything else. *)
Inductive GoError := TypedError (code : ErrorCode) | ForeignError.
Definition NewError (code : ErrorCode) : GoError := TypedError code.
Definition IsTypedError (e : GoError) : bool := if e is TypedError _ then true else false.
Definition ErrorCodeOf (e : GoError) : ErrorCode :=
  match e with TypedError c => c | ForeignError => ErrorCodeInternalInvariant end.

(** What a caller's context answers when it is asked: [ctx.Err()], or the
    context itself is nil, or the call panics. *)
Inductive ContextState := CtxNil | CtxActive | CtxCanceled | CtxDeadlineExceeded | CtxOther | CtxPanics.
Definition PreflightContext (ctx : ContextState) : outcome ErrorCode unit :=
  match ctx with
  | CtxNil => Fail ErrorCodeInvalidRequest
  | CtxActive => Ret tt
  | CtxCanceled => Fail ErrorCodeCancelled
  | CtxDeadlineExceeded => Fail ErrorCodeDeadlineExceeded
  | CtxOther | CtxPanics => Fail ErrorCodeInternalInvariant
  end.

(** [defer func() { if recover() != nil { result = ErrorCodeInternalInvariant } }()] *)
Definition recovered {A} (m : outcome ErrorCode A) : outcome ErrorCode A :=
  if m is Crash then Fail ErrorCodeInternalInvariant else m.
Lemma recovered_no_crash {A} (m : outcome ErrorCode A) : no_crash (recovered m).
Proof. by destruct m. Qed.
Lemma recovered_id {A} (m : outcome ErrorCode A) : no_crash m -> recovered m = m.
Proof. by destruct m. Qed.

(** ** enums.go *)
Inductive Check := CheckUnset | CheckFirstSeen | CheckReplayed | CheckDisabled | CheckOther.
#[export] Instance Check_eq_dec : EqDecision Check.
Proof. solve_decision. Defined.
Definition Check_Known (c : Check) : bool :=
  match c with CheckFirstSeen | CheckReplayed | CheckDisabled => true | _ => false end.

Inductive StoreState :=
  | StoreUnset | StoreReady | StoreDegraded | StoreDisabled | StoreClosing | StoreClosed.
#[export] Instance StoreState_eq_dec : EqDecision StoreState.
Proof. solve_decision. Defined.
Definition StoreState_Known (s : StoreState) : bool := if s is StoreUnset then false else true.

(** ** contracts.go: the check a client makes on a provider's answer *)
Definition ValidateCheckOutcome (answer : Check) (err : option GoError) : outcome ErrorCode unit :=
  match err with
  | None => if Check_Known answer then Ret tt else Fail ErrorCodeInternalInvariant
  | Some e =>
      if negb (bool_decide (answer = CheckUnset)) || negb (IsTypedError e)
      then Fail ErrorCodeInternalInvariant else Ret tt
  end.

(** ** limits.go *)
Record Limits := MkLimits {
  MaxEntries : Z; MaxWaiters : Z; PruneBudget : Z; MaxInFlight : Z; MaxAdmissionWaiters : Z }.
Definition DefaultLimits : Limits := MkLimits 65536 1024 4096 1024 1024.
Definition HardLimits : Limits := MkLimits 1048576 65536 65536 65536 65536.
Definition limitPairs (l : Limits) : list (Z * Z) :=
  [(MaxEntries l, MaxEntries HardLimits); (MaxWaiters l, MaxWaiters HardLimits);
   (PruneBudget l, PruneBudget HardLimits); (MaxInFlight l, MaxInFlight HardLimits);
   (MaxAdmissionWaiters l, MaxAdmissionWaiters HardLimits)].
Definition Limits_Validate (l : Limits) : outcome ErrorCode unit :=
  require (forallb (fun p => negb ((p.1 <=? 0) || (p.2 <? p.1))) (limitPairs l)) ErrorCodeMisconfigured.
Definition or_default (value default : Z) : Z := if value =? 0 then default else value.
Definition ResolveLimits (config : Limits) : outcome ErrorCode Limits :=
  let config := MkLimits
    (or_default (MaxEntries config) (MaxEntries DefaultLimits))
    (or_default (MaxWaiters config) (MaxWaiters DefaultLimits))
    (or_default (PruneBudget config) (PruneBudget DefaultLimits))
    (or_default (MaxInFlight config) (MaxInFlight DefaultLimits))
    (or_default (MaxAdmissionWaiters config) (MaxAdmissionWaiters DefaultLimits)) in
  check Limits_Validate config ;; Ret config.

Definition limits_ok (l : Limits) : Prop := Forall (fun p => 0 < p.1 <= p.2) (limitPairs l).
Lemma ResolveLimits_ok c l : ResolveLimits c = Ret l -> limits_ok l.
Proof.
  unfold ResolveLimits. intros (_ & Hv%require_ret_inv & [= <-])%obind_ret_inv.
  apply list.Forall_forall. intros p Hp. rewrite forallb_forall in Hv.
  specialize (Hv p ltac:(by apply list_elem_of_In)). lia.
Qed.

(** ** retention.go *)
Definition minimumRetentionDuration : Z := Second.
Definition defaultRetentionDuration : Z := 14 * 24 * Hour.
Definition maximumRetentionDuration : Z := 30 * 24 * Hour.

Record Retention := MkRetention { rt_milliseconds : Z }.
Definition NewRetention (duration : Z) : outcome ErrorCode Retention :=
  check require (negb ((duration <? minimumRetentionDuration) || (maximumRetentionDuration <? duration)
                       || negb (Z.rem duration Millisecond =? 0))) ErrorCodeInvalidRequest ;;
  let milliseconds := Z.quot duration Millisecond in
  check require (negb ((milliseconds <=? 0) || negb (wrap64 (milliseconds * Millisecond) =? duration)))
    ErrorCodeInvalidRequest ;;
  Ret (MkRetention milliseconds).
(** [panic] when the constant is invalid. *)
Definition DefaultRetention : outcome ErrorCode Retention :=
  match NewRetention defaultRetentionDuration with Ret r => Ret r | _ => Crash end.
Definition Retention_Duration (r : Retention) : Z :=
  if (rt_milliseconds r <=? 0) || (Z.quot MaxInt Millisecond <? rt_milliseconds r) then 0
  else
    let duration := wrap64 (rt_milliseconds r * Millisecond) in
    if negb (Z.quot duration Millisecond =? rt_milliseconds r) then 0 else duration.
Definition Retention_Valid (r : Retention) : bool := is_ret (NewRetention (Retention_Duration r)).
Definition Retention_Milliseconds (r : Retention) : Z :=
  if negb (Retention_Valid r) then 0 else rt_milliseconds r.
Definition AddTo (r : Retention) (now : Time) : outcome ErrorCode Time := recovered (
  check require (Retention_Valid r) ErrorCodeInvalidRequest ;;
  check require (negb (IsZero now)) ErrorCodeInternalInvariant ;;
  let duration := Retention_Duration r in
  let addSeconds := Z.quot duration Second in
  let addNanoseconds := Z.rem duration Second in
  let addSeconds := if Second <=? t_nsec now + addNanoseconds then addSeconds + 1 else addSeconds in
  check require (negb (MaxInt - addSeconds <? Unix now)) ErrorCodeInternalInvariant ;;
  let expiry := Add now duration in
  check require (negb (negb (After expiry now) || negb (Sub expiry now =? duration)))
    ErrorCodeInternalInvariant ;;
  Ret expiry).

(** ** propagation.go: leases and vocabularies *)
Definition minimumLeaseDuration : Z := Millisecond.
Definition maximumLeaseDuration : Z := 24 * Hour.
Record Lease := MkLease { ls_milliseconds : Z }.
Definition NewLease (duration : Z) : outcome ErrorCode Lease :=
  check require (negb ((duration <? minimumLeaseDuration) || (maximumLeaseDuration <? duration)
                       || negb (Z.rem duration Millisecond =? 0))) ErrorCodeInvalidRequest ;;
  Ret (MkLease (Z.quot duration Millisecond)).
Definition Lease_Duration (l : Lease) : Z :=
  if (ls_milliseconds l <=? 0) || (Z.quot maximumLeaseDuration Millisecond <? ls_milliseconds l) then 0
  else wrap64 (ls_milliseconds l * Millisecond).
Definition Lease_Valid (l : Lease) : bool := is_ret (NewLease (Lease_Duration l)).

Inductive PropagationState := PropagationStateUnset | PropagationStatePending | PropagationStateCommitted.
#[export] Instance PropagationState_eq_dec : EqDecision PropagationState.
Proof. solve_decision. Defined.
Definition PropagationState_Known (s : PropagationState) : bool :=
  if s is PropagationStateUnset then false else true.
Inductive PropagationReservation :=
  | PropagationReserved | PropagationPending | PropagationAlreadyCommitted | PropagationReservationDisabled.
Inductive PropagationCommit := PropagationCommitted | PropagationCommitUnresolved | PropagationCommitDisabled.

(** * Retentions are exact *)
Lemma NewRetention_ret d r :
  NewRetention d = Ret r <->
  minimumRetentionDuration <= d <= maximumRetentionDuration /\ r = MkRetention (d / Millisecond) /\
  d = d / Millisecond * Millisecond.
Proof.
  unfold NewRetention. split.
  - intros (_ & H1%require_ret_inv & H)%obind_ret_inv. apply obind_ret_inv in H as (_ & _ & [= <-]).
    unfold minimumRetentionDuration, maximumRetentionDuration, Hour, Second, Millisecond in *.
    rewrite Z.rem_mod_nonneg in H1 by lia. rewrite Z.quot_div_nonneg by lia.
    pose proof (Z.div_mod d 1000000). split; [lia | ]. split; [done | lia].
  - intros (Hd & -> & E). unfold minimumRetentionDuration, maximumRetentionDuration, Hour, Second, Millisecond in *.
    rewrite Z.rem_mod_nonneg, Z.quot_div_nonneg by lia.
    rewrite wrap64_id by (unfold MinInt, MaxInt; lia). pose proof (Z.div_mod d 1000000).
    assert (d mod 1000000 =? 0 = true) as -> by lia.
    assert (negb ((d <? 1000000000) || (30 * 24 * (3600 * 1000000000) <? d) || negb true) = true) as -> by lia.
    cbn [require obind].
    assert (negb ((d / 1000000 <=? 0) || negb (d / 1000000 * 1000000 =? d)) = true) as -> by lia. done.
Qed.

Lemma Retention_Valid_spec r :
  Retention_Valid r = true <->
  minimumRetentionDuration <= rt_milliseconds r * Millisecond <= maximumRetentionDuration.
Proof.
  unfold Retention_Valid. split.
  - destruct (NewRetention (Retention_Duration r)) as [r'| |] eqn:E; [intros _ | done..].
    apply NewRetention_ret in E as (Hd & -> & E). revert Hd. unfold Retention_Duration.
    destruct (Z.leb_spec (rt_milliseconds r) 0); [intros [Hm _]; exfalso; by compute in Hm | ].
    destruct (Z.ltb_spec (Z.quot MaxInt Millisecond) (rt_milliseconds r)); [intros [Hm _]; exfalso; by compute in Hm | ].
    cbn [orb]. destruct (negb _); [intros [Hm _]; exfalso; by compute in Hm | ].
    change (Z.quot MaxInt Millisecond) with 9223372036854 in *.
    rewrite wrap64_id; [done | unfold MinInt, MaxInt, Millisecond; lia].
  - intros Hd. assert (Retention_Duration r = rt_milliseconds r * Millisecond) as ->.
    { unfold Retention_Duration. change (Z.quot MaxInt Millisecond) with 9223372036854.
      unfold minimumRetentionDuration, maximumRetentionDuration, Hour, Second, Millisecond in *.
      rewrite (proj2 (Z.leb_gt _ _)), (proj2 (Z.ltb_ge _ _)) by lia. cbn [orb].
      rewrite wrap64_id by (unfold MinInt, MaxInt; lia). rewrite Z.quot_mul by done. by rewrite Z.eqb_refl. }
    rewrite (proj2 (NewRetention_ret _ (MkRetention (rt_milliseconds r)))); [done | ].
    rewrite Z.div_mul by done. done.
Qed.
Lemma Retention_Duration_valid r :
  Retention_Valid r = true -> Retention_Duration r = rt_milliseconds r * Millisecond.
Proof.
  intros Hd%Retention_Valid_spec. unfold Retention_Duration. change (Z.quot MaxInt Millisecond) with 9223372036854.
  unfold minimumRetentionDuration, maximumRetentionDuration, Hour, Second, Millisecond in *.
  rewrite (proj2 (Z.leb_gt _ _)), (proj2 (Z.ltb_ge _ _)) by lia. cbn [orb].
  rewrite wrap64_id by (unfold MinInt, MaxInt; lia). rewrite Z.quot_mul by done. by rewrite Z.eqb_refl.
Qed.

(** The expiry lies on the 64-bit time line, counted from year 1 and from 1970. *)
Definition expiry_representable (now : Time) (d : Z) : Prop :=
  t_sec now + carry_seconds now d <= MaxInt /\ Unix now + carry_seconds now d <= MaxInt.

Lemma add_seconds_eq now d :
  0 <= d ->
  (if Second <=? t_nsec now + Z.rem d Second then Z.quot d Second + 1 else Z.quot d Second) = carry_seconds now d.
Proof.
  intros Hd. unfold carry_seconds. rewrite Z.rem_mod_nonneg, Z.quot_div_nonneg by (unfold Second; lia).
  destruct (_ <=? _); lia.
Qed.

Lemma AddTo_ok r now e :
  wf_time now ->
  AddTo r now = Ret e <->
  Retention_Valid r = true /\ now <> zeroTime /\ expiry_representable now (rt_milliseconds r * Millisecond) /\
  wf_time e /\ instant e = instant now + rt_milliseconds r * Millisecond.
Proof.
  intros Hn. unfold AddTo, recovered. set (d := rt_milliseconds r * Millisecond).
  destruct (Retention_Valid r) eqn:Hv; cbn [require obind]; [ | by split; [ | intros [? _]]].
  pose proof Hv as Hd%Retention_Valid_spec. fold d in Hd. rewrite Retention_Duration_valid by done. fold d.
  assert (0 < d <= MaxInt - Second) as Hdp.
  { unfold minimumRetentionDuration, maximumRetentionDuration, Hour, Second, Millisecond, MaxInt in *. lia. }
  destruct (IsZero now) eqn:Hz; cbn [negb require obind].
  { apply IsZero_spec in Hz. by split; [ | intros (_ & [] & _)]. }
  rewrite add_seconds_eq by lia.
  assert (now <> zeroTime) as Hz' by (by intros E%IsZero_spec; rewrite E in Hz).
  destruct (Z.ltb_spec (MaxInt - carry_seconds now d) (Unix now)) as [Hu|Hu]; cbn [negb require obind].
  { split; [done | ]. intros (_ & _ & [_ Hr] & _). lia. }
  destruct (Z_le_gt_dec (t_sec now + carry_seconds now d) MaxInt) as [Hs|Hs].
  - destruct (Add_exact now d Hn ltac:(lia) Hs) as [Hw Hi].
    rewrite (proj2 (After_instant _ _ Hw Hn)) by lia.
    assert (Sub (Add now d) now = d) as ->.
    { rewrite Sub_exact; [lia | done | done | lia | f_equal; lia]. }
    rewrite Z.eqb_refl. cbn [negb orb require obind]. split.
    + intros [= <-]. split; [done | ]. split; [done | ]. split; [split; lia | done].
    + intros (_ & _ & _ & He & Hi'). f_equal. apply instant_inj; [done | done | lia].
  - split; [ | intros (_ & _ & [? _] & _); lia]. intros E. exfalso.
    destruct (negb _) eqn:Eb in E; [ | done]. clear E.
    apply negb_true_iff, orb_false_iff in Eb as [Ha Eb]. apply negb_false_iff, Z.eqb_eq in Eb.
    apply negb_false_iff in Ha. clear Hv.
    destruct (Add_saturated now d Hn ltac:(unfold Second in *; lia) ltac:(lia)) as (Hw & Hsat & Hi).
    apply After_instant in Ha; [ | done..].
    rewrite Sub_exact in Eb; [unfold Second in *; lia | done | done | unfold Second in *; lia | ].
    set (e' := Add now d) in *. set (delta := instant e' - instant now) in *.
    assert (t_sec now + carry_seconds now delta <= MaxInt) as Hs'.
    { rewrite carry_seconds_div by done.
      assert (t_nsec now + delta = (MaxInt - t_sec now) * Second + t_nsec e') as ->
        by (unfold delta, instant; rewrite Hsat; lia).
      rewrite Z.div_add_l by (unfold Second; lia).
      rewrite (Z.div_small (t_nsec e')) by (apply Hw). lia. }
    destruct (Add_exact now delta Hn ltac:(unfold delta; lia) Hs') as [Hw' Hi'].
    apply instant_inj; [done | done | unfold delta in *; lia].
Qed.

(** Retentions are exact: NewRetention accepts the whole milliseconds
    between one second and thirty days and keeps them; AddTo succeeds for a
    valid retention and a nonzero instant unless the 64-bit time line ends
    before the expiry, and the expiry it returns is later by exactly the
    retention, never a wrapped or saturated instant. *)
Theorem retention_exact :
  (forall d r, NewRetention d = Ret r <->
     Second <= d <= 30 * 24 * Hour /\ d mod Millisecond = 0 /\ r = MkRetention (d / Millisecond)) /\
  (forall r now, wf_time now ->
     (forall e, AddTo r now = Ret e <->
        Second <= rt_milliseconds r * Millisecond <= 30 * 24 * Hour /\ now <> zeroTime /\
        expiry_representable now (rt_milliseconds r * Millisecond) /\
        wf_time e /\ instant e = instant now + rt_milliseconds r * Millisecond) /\
     AddTo r now <> Crash).
Proof.
  split.
  - intros d r. rewrite NewRetention_ret. unfold minimumRetentionDuration, maximumRetentionDuration, Millisecond.
    pose proof (Z.div_mod d 1000000). split; intros (? & ? & ?); split_and!; try done; lia.
  - intros r now Hw. split; [ | apply recovered_no_crash]. intros e. rewrite AddTo_ok by done. by rewrite Retention_Valid_spec.
Qed.
Lemma retention_exact_witness :
  AddTo (MkRetention 1500) (MkTime 100 700000000) = Ret (MkTime 102 200000000) /\
  instant (MkTime 102 200000000) = instant (MkTime 100 700000000) + 1500 * Millisecond.
Proof.
  assert (AddTo (MkRetention 1500) (MkTime 100 700000000) = Ret (MkTime 102 200000000)) as E by (vm_compute; reflexivity).
  split; [exact E | ].
  assert (wf_time (MkTime 100 700000000)) as Hw by (split; vm_compute; split; congruence).
  apply (proj2 retention_exact (MkRetention 1500) _ Hw) in E. apply E.
Defined.
