(* ===== verification/GoHeap.v ===== *)
(** * Go's container/heap

    The sifting loops over an interface with [Len], [Less] and [Swap], as the
    package states it, their correctness on lists, and a simulation lemma by
    which an implementation of the interface inherits it. *)

From S2P Require Import Prelude.

(** ** heap.Interface and the package's functions *)
Class HeapInterface (S : Type) := {
  hLen : S -> nat;
  hLess : S -> nat -> nat -> bool;
  hSwap : S -> nat -> nat -> S }.

Definition parent (j : nat) : nat := ((j - 1) / 2)%nat.

Section package.
Context {S : Type} `{HeapInterface S}.

(** [up]: fuel [j + 1] is enough, the index decreases. *)
Fixpoint up (fuel : nat) (h : S) (j : nat) : S :=
  match fuel with
  | O => h
  | Datatypes.S fuel =>
      let i := parent j in
      if (i =? j)%nat || negb (hLess h j i) then h else up fuel (hSwap h i j) i
  end.
(** [down] returns the heap and the final index; fuel [n] is enough. *)
Fixpoint down (fuel : nat) (h : S) (i n : nat) : S * nat :=
  match fuel with
  | O => (h, i)
  | Datatypes.S fuel =>
      let j1 := (2 * i + 1)%nat in
      if (n <=? j1)%nat then (h, i)
      else
        let j2 := (j1 + 1)%nat in
        let j := if (j2 <? n)%nat && hLess h j2 j1 then j2 else j1 in
        if negb (hLess h j i) then (h, i) else down fuel (hSwap h i j) j n
  end.

(** The rest of [heap.Push] after the interface's own [Push]. *)
Definition heap_pushed (h : S) : S := up (hLen h) h (hLen h - 1).
(** What [heap.Pop] does before the interface's own [Pop]. *)
Definition heap_to_pop (h : S) : S :=
  let n := (hLen h - 1)%nat in (down (hLen h) (hSwap h 0 n) 0 n).1.
Definition heap_Fix (h : S) (i : nat) : S :=
  let '(h', i') := down (hLen h) h i (hLen h) in
  if (i <? i')%nat then h' else up (Datatypes.S i) h' i.
End package.

(** ** Lists *)
Section lists.
Context {A : Type} (less : A -> A -> bool).
Definition swap_at (l : list A) (i j : nat) : list A :=
  match l !! i, l !! j with
  | Some a, Some b => <[i := b]> (<[j := a]> l)
  | _, _ => l
  end.
Definition less_at (l : list A) (i j : nat) : bool :=
  match l !! i, l !! j with Some a, Some b => less a b | _, _ => false end.
#[local] Instance list_heap : HeapInterface (list A) :=
  { hLen := length; hLess := less_at; hSwap := swap_at }.

Lemma length_swap_at l i j : length (swap_at l i j) = length l.
Proof. unfold swap_at. repeat case_match; by rewrite ?length_insert. Qed.
Lemma swap_at_lookup l i j a b k :
  l !! i = Some a -> l !! j = Some b ->
  swap_at l i j !! k = if decide (k = i) then Some b else if decide (k = j) then Some a else l !! k.
Proof.
  intros Hi Hj. unfold swap_at. rewrite Hi, Hj. pose proof (lookup_lt_Some _ _ _ Hi). pose proof (lookup_lt_Some _ _ _ Hj).
  destruct (decide (k = i)) as [-> | ?]; [rewrite list_lookup_insert_eq; [done | by rewrite length_insert] | ].
  rewrite list_lookup_insert_ne by done.
  destruct (decide (k = j)) as [-> | ?]; [by rewrite list_lookup_insert_eq | by rewrite list_lookup_insert_ne].
Qed.
Lemma swap_at_perm l i j : swap_at l i j ≡ₚ l.
Proof.
  destruct (l !! i) as [a|] eqn:Hi, (l !! j) as [b|] eqn:Hj; try (unfold swap_at; by rewrite Hi, ?Hj).
  apply Permutation_inj. split; [apply length_swap_at | ].
  exists (fun k => if decide (k = i) then j else if decide (k = j) then i else k). split.
  - intros x y. repeat case_decide; congruence.
  - intros k. rewrite (swap_at_lookup _ _ _ _ _ k Hi Hj). repeat case_decide; congruence.
Qed.

(** A strict order: transitive, asymmetric, with transitive incomparability. *)
Definition le (a b : A) : Prop := less b a = false.
Context (le_trans : forall a b c, le a b -> le b c -> le a c).
Context (less_le : forall a b, less a b = true -> le a b).

Definition edge_ok (l : list A) (k : nat) : Prop :=
  forall a b, l !! parent k = Some a -> l !! k = Some b -> le a b.
(** The first [n] elements form a heap. *)
Definition heap_ordered (n : nat) (l : list A) : Prop := forall k, (0 < k < n)%nat -> edge_ok l k.
(** The parent of [j] is at most the children of [j]. *)
Definition bridge_ok (n : nat) (l : list A) (j : nat) : Prop :=
  forall k a b, (0 < k < n)%nat -> parent k = j -> (0 < j)%nat -> l !! parent j = Some a -> l !! k = Some b -> le a b.

Lemma parent_lt k : (0 < k)%nat -> (parent k < k)%nat.
Proof. intros Hk. unfold parent. apply Nat.Div0.div_lt_upper_bound. lia. Qed.
Lemma parent_children k i : (0 < k)%nat -> parent k = i -> k = (2 * i + 1)%nat \/ k = (2 * i + 2)%nat.
Proof.
  intros Hk <-. unfold parent. pose proof (Nat.div_mod_eq (k - 1) 2). pose proof (Nat.mod_upper_bound (k - 1) 2). lia.
Qed.
Lemma parent_left i : parent (2 * i + 1) = i.
Proof. unfold parent. replace (2 * i + 1 - 1)%nat with (i * 2)%nat by lia. by apply Nat.div_mul. Qed.
Lemma parent_right i : parent (2 * i + 1 + 1) = i.
Proof. unfold parent. replace (2 * i + 1 + 1 - 1)%nat with (1 + i * 2)%nat by lia. by rewrite Nat.div_add. Qed.

Lemma up_ordered n fuel l j :
  (j < fuel)%nat -> (j < n <= length l)%nat ->
  (forall k, (0 < k < n)%nat -> k <> j -> edge_ok l k) -> bridge_ok n l j ->
  heap_ordered n (up fuel l j).
Proof using le_trans less_le.
  revert l j. induction fuel as [|fuel IH]; intros l j Hf Hj He Hbr; [lia | ]. cbn [up hLess hSwap list_heap].
  destruct (Nat.eqb_spec (parent j) j) as [E|E]; cbn [orb].
  { assert (j = 0)%nat as -> by (destruct j; [done | pose proof (parent_lt (Datatypes.S j)); lia]).
    intros k Hk. apply He; lia. }
  assert (0 < j)%nat as Hj0 by (destruct j; [done | lia]). pose proof (parent_lt j Hj0) as Hlt.
  destruct (lookup_lt_is_Some_2 l j) as [b Hb]; [lia | ].
  destruct (lookup_lt_is_Some_2 l (parent j)) as [a Ha]; [lia | ].
  unfold less_at. rewrite Hb, Ha. destruct (less b a) eqn:Hba; cbn [negb].
  2: { intros k Hk. destruct (decide (k = j)) as [->|?]; [ | by apply He].
       intros x y. rewrite Ha, Hb. intros [= <-] [= <-]. exact Hba. }
  apply less_le in Hba.
  assert (forall k c, k <> j -> (0 < k < n)%nat -> parent k = parent j -> l !! k = Some c -> le b c) as Hsib.
  { intros k c Hkj Hk Hpk Hc. apply (le_trans b a c Hba). apply (He k Hk Hkj); [by rewrite Hpk | done]. }
  apply IH; [lia | rewrite length_swap_at; lia | | ].
  - intros k Hk Hki x y. rewrite !(swap_at_lookup _ _ _ _ _ _ Ha Hb).
    rewrite (decide_False (P := k = parent j)) by done.
    destruct (decide (parent k = parent j)) as [E1|E1].
    + intros [= <-]. destruct (decide (k = j)) as [->|?]; [by intros [= <-] | ]. intros Hy. by eapply Hsib.
    + destruct (decide (parent k = j)) as [E2|E2].
      * intros [= <-]. rewrite decide_False by (intros ->; pose proof (parent_lt j Hj0); lia).
        intros Hy. eapply Hbr; [exact Hk | exact E2 | exact Hj0 | exact Ha | exact Hy].
      * destruct (decide (k = j)) as [->|?]; [done | ]. intros Hx Hy. by eapply He.
  - intros k x y Hk Hpk Hi0. pose proof (parent_lt _ Hi0). rewrite !(swap_at_lookup _ _ _ _ _ _ Ha Hb).
    rewrite (decide_False (P := parent (parent j) = parent j)), (decide_False (P := parent (parent j) = j)) by lia.
    rewrite (decide_False (P := k = parent j)) by (intros ->; lia). intros Hx.
    assert (le x a) as Hxa by (apply (He (parent j)); [lia | lia | done | done]).
    destruct (decide (k = j)) as [->|Hkj]; [by intros [= <-] | ]. intros Hy.
    apply (le_trans x a y Hxa). apply (He k); [done | done | by rewrite Hpk | done].
Qed.

(** One step of [down]: the smaller child. *)
Definition smaller_child (l : list A) (i n : nat) : nat :=
  let j1 := (2 * i + 1)%nat in
  if (j1 + 1 <? n)%nat && less_at l (j1 + 1) j1 then (j1 + 1)%nat else j1.
Lemma smaller_child_spec l i n b :
  (2 * i + 1 < n)%nat -> (n <= length l)%nat -> l !! smaller_child l i n = Some b ->
  (smaller_child l i n < n)%nat /\ (i < smaller_child l i n)%nat /\ parent (smaller_child l i n) = i /\
  forall k c, (0 < k < n)%nat -> parent k = i -> l !! k = Some c -> le b c.
Proof using less_le.
  intros Hn Hl. unfold smaller_child.
  destruct (lookup_lt_is_Some_2 l (2 * i + 1)) as [x Hx]; [lia | ].
  assert (le x x) as Hxx by (destruct (less x x) eqn:E; [by apply less_le in E | done]).
  destruct (Nat.ltb_spec (2 * i + 1 + 1) n) as [H2|H2]; cbn [andb].
  - destruct (lookup_lt_is_Some_2 l (2 * i + 1 + 1)) as [y Hy]; [lia | ]. unfold less_at. rewrite Hx, Hy.
    assert (le y y) as Hyy by (destruct (less y y) eqn:E; [by apply less_le in E | done]).
    destruct (less y x) eqn:E; intros Hb.
    + rewrite Hy in Hb. injection Hb as <-. split_and!; [lia | lia | apply parent_right | ].
      intros k c Hk [-> | ->]%parent_children Hc; [ | | lia].
      * rewrite Hx in Hc. injection Hc as <-. by apply less_le.
      * replace (2 * i + 2)%nat with (2 * i + 1 + 1)%nat in Hc by lia. rewrite Hy in Hc. by injection Hc as <-.
    + rewrite Hx in Hb. injection Hb as <-. split_and!; [lia | lia | apply parent_left | ].
      intros k c Hk [-> | ->]%parent_children Hc; [ | | lia].
      * rewrite Hx in Hc. by injection Hc as <-.
      * replace (2 * i + 2)%nat with (2 * i + 1 + 1)%nat in Hc by lia. rewrite Hy in Hc. by injection Hc as <-.
  - intros Hb. rewrite Hx in Hb. injection Hb as <-. split_and!; [lia | lia | apply parent_left | ].
    intros k c Hk [-> | ->]%parent_children Hc; [ | lia | lia]. rewrite Hx in Hc. by injection Hc as <-.
Qed.
Lemma down_unfold fuel l i n :
  down (Datatypes.S fuel) l i n =
  if (n <=? 2 * i + 1)%nat then (l, i)
  else if negb (less_at l (smaller_child l i n) i) then (l, i)
  else down fuel (swap_at l i (smaller_child l i n)) (smaller_child l i n) n.
Proof. done. Qed.

(** The heap order below [i], when everything away from [i] is in order. *)
Definition down_inv (n : nat) (l : list A) (i : nat) : Prop :=
  (forall k, (0 < k < n)%nat -> k <> i -> parent k <> i -> edge_ok l k) /\ bridge_ok n l i.
Lemma down_stop n l i :
  down_inv n l i -> (n <= 2 * i + 1)%nat -> forall k, (0 < k < n)%nat -> k <> i -> edge_ok l k.
Proof.
  intros [He _] Hn k Hk Hki. apply He; [done | done | ]. intros [-> | ->]%parent_children; lia.
Qed.
Lemma down_step n l i a b :
  down_inv n l i -> (2 * i + 1 < n)%nat -> (n <= length l)%nat ->
  l !! i = Some a -> l !! smaller_child l i n = Some b ->
  if less b a then
    down_inv n (swap_at l i (smaller_child l i n)) (smaller_child l i n) /\
    ((0 < i)%nat -> edge_ok (swap_at l i (smaller_child l i n)) i) /\
    edge_ok (swap_at l i (smaller_child l i n)) (smaller_child l i n)
  else forall k, (0 < k < n)%nat -> k <> i -> edge_ok l k.
Proof using le_trans less_le.
  intros [He Hbr] Hn Hl Ha Hb. destruct (smaller_child_spec l i n b Hn Hl Hb) as (Hjn & Hij & Hpj & Hmin).
  set (j := smaller_child l i n) in *. destruct (less b a) eqn:Hba.
  2: { intros k Hk Hki. destruct (decide (parent k = i)) as [E|E]; [ | by apply He].
       intros x y. rewrite E, Ha. intros [= <-] Hy. apply (le_trans a b y Hba). by eapply Hmin. }
  apply less_le in Hba. assert (0 < j)%nat as Hj0 by lia. pose proof (parent_lt j Hj0).
  assert (forall k, (0 < k < n)%nat -> k <> i -> parent k <> j -> edge_ok (swap_at l i j) k) as Hedges.
  { intros k Hk Hki Hkj x y. rewrite !(swap_at_lookup _ _ _ _ _ _ Ha Hb).
    rewrite (decide_False (P := k = i)), (decide_False (P := parent k = j)) by done.
    destruct (decide (parent k = i)) as [E|E].
    - intros [= <-]. destruct (decide (k = j)) as [->|?]; [by intros [= <-] | ]. intros Hy. by eapply Hmin.
    - rewrite (decide_False (P := k = j)) by (intros ->; congruence). intros Hx Hy. by eapply (He k). }
  split; [split | split].
  - intros k Hk Hkj Hpk. destruct (decide (k = i)) as [->|Hki]; [ | by apply Hedges].
    intros x y. rewrite !(swap_at_lookup _ _ _ _ _ _ Ha Hb).
    destruct (Hk) as [Hi0 _]. pose proof (parent_lt i Hi0).
    rewrite (decide_False (P := parent i = i)), (decide_False (P := parent i = j)), (decide_True (P := i = i)) by lia.
    intros Hx [= <-]. by eapply (Hbr j).
  - intros k x y Hk Hpk _. rewrite !(swap_at_lookup _ _ _ _ _ _ Ha Hb), Hpj.
    rewrite (decide_True (P := i = i)) by done. intros [= <-].
    pose proof (parent_lt k ltac:(lia)).
    rewrite !decide_False by lia. intros Hy. apply (He k); [done | lia | lia | by rewrite Hpk | done].
  - intros Hi0 x y. pose proof (parent_lt i Hi0). rewrite !(swap_at_lookup _ _ _ _ _ _ Ha Hb).
    rewrite (decide_False (P := parent i = i)), (decide_False (P := parent i = j)), (decide_True (P := i = i)) by lia.
    intros Hx [= <-]. by eapply (Hbr j).
  - apply Hedges; lia.
Qed.

Lemma down_ordered n fuel l i :
  (n <= fuel + i)%nat -> (n <= length l)%nat -> down_inv n l i -> ((0 < i < n)%nat -> edge_ok l i) ->
  heap_ordered n (down fuel l i n).1 /\ (i <= (down fuel l i n).2)%nat.
Proof using le_trans less_le.
  assert (forall l, (forall k, (0 < k < n)%nat -> k <> i -> edge_ok l k) -> ((0 < i < n)%nat -> edge_ok l i) ->
    heap_ordered n l) as Hall.
  { intros l' H1 H2 k Hk. destruct (decide (k = i)) as [->|]; [by apply H2 | by apply H1]. }
  revert l i Hall. induction fuel as [|fuel IH]; intros l i Hall Hf Hl Hinv Hi.
  { split; [ | done]. apply Hall; [ | done]. apply down_stop; [done | lia]. }
  rewrite down_unfold. destruct (Nat.leb_spec n (2 * i + 1)) as [Hn|Hn].
  { split; [ | done]. apply Hall; [by apply down_stop | done]. }
  destruct (lookup_lt_is_Some_2 l i) as [a Ha]; [lia | ].
  assert (smaller_child l i n < length l)%nat as [b Hb]%lookup_lt_is_Some_2
    by (unfold smaller_child; destruct (_ <? _)%nat eqn:E, (less_at _ _ _); cbn; lia).
  pose proof (smaller_child_spec l i n b Hn Hl Hb) as (Hjn & Hij & _ & _).
  pose proof (down_step n l i a b Hinv Hn Hl Ha Hb) as Hstep.
  unfold less_at. rewrite Ha, Hb. destruct (less b a); cbn [negb].
  - destruct Hstep as (Hinv' & Hi' & Hj').
    destruct (IH (swap_at l i (smaller_child l i n)) (smaller_child l i n)) as [H1 H2]; [ | | | done | done | ].
    + intros l' H1 H2 k Hk. destruct (decide (k = smaller_child l i n)) as [->|]; [by apply H2 | by apply H1].
    + lia.
    + by rewrite length_swap_at.
    + split; [done | lia].
  - split; [ | done]. by apply Hall.
Qed.

(** The loops only exchange elements, [down] only among the first [n]. *)
Lemma up_perm fuel l j : up fuel l j ≡ₚ l.
Proof.
  revert l j. induction fuel as [|fuel IH]; intros l j; cbn [up hLess hSwap list_heap]; [done | ].
  destruct (_ || _); [done | ]. by rewrite IH, swap_at_perm.
Qed.
Lemma down_perm fuel l i n : (down fuel l i n).1 ≡ₚ l.
Proof.
  revert l i. induction fuel as [|fuel IH]; intros l i; [done | ]. rewrite down_unfold.
  destruct (_ <=? _)%nat; [done | ]. destruct (negb _); [done | ]. by rewrite IH, swap_at_perm.
Qed.
Lemma swap_at_other l i j k : k <> i -> k <> j -> swap_at l i j !! k = l !! k.
Proof. intros. unfold swap_at. repeat case_match; [ | done..]. by rewrite !list_lookup_insert_ne by done. Qed.
Lemma down_beyond fuel l i n k : (i < n)%nat -> (n <= k)%nat -> (down fuel l i n).1 !! k = l !! k.
Proof.
  revert l i. induction fuel as [|fuel IH]; intros l i Hi Hk; [done | ]. rewrite down_unfold.
  destruct (Nat.leb_spec n (2 * i + 1)); [done | ]. destruct (negb _); [done | ].
  assert (smaller_child l i n < n)%nat
    by (unfold smaller_child; destruct (Nat.ltb_spec (2 * i + 1 + 1) n), (less_at _ _ _); cbn; lia).
  rewrite IH by done. apply swap_at_other; lia.
Qed.

Lemma heap_min n l k a b :
  heap_ordered n l -> (k < n)%nat -> (forall a, le a a) -> l !! 0%nat = Some a -> l !! k = Some b -> le a b.
Proof using le_trans.
  intros Ho Hk Hr Ha. revert b Hk. induction (lt_wf k) as [k _ IH]. intros b Hk Hb.
  destruct (decide (k = 0)%nat) as [-> | Hne]; [rewrite Ha in Hb; by injection Hb as <- | ].
  pose proof (parent_lt k ltac:(lia)) as Hp.
  destruct (lookup_lt_is_Some_2 l (parent k)) as [c Hc]; [pose proof (lookup_lt_Some _ _ _ Hb); lia | ].
  apply (le_trans a c b); [apply (IH (parent k)); [lia | lia | done] | by apply (Ho k ltac:(lia))].
Qed.

(** ** heap.Push, heap.Pop and heap.Fix on lists *)
Definition heap (l : list A) : Prop := heap_ordered (length l) l.

Lemma heap_pushed_spec l x : heap l -> heap (heap_pushed (l ++ [x])) /\ heap_pushed (l ++ [x]) ≡ₚ x :: l.
Proof using le_trans less_le.
  intros Ho. assert (heap_pushed (l ++ [x]) ≡ₚ x :: l) as Hp.
  { unfold heap_pushed. rewrite up_perm. by rewrite Permutation_app_comm. }
  split; [ | done]. unfold heap. rewrite (Permutation_length Hp). unfold heap_pushed. cbn [hLen list_heap].
  rewrite length_app. cbn [length]. replace (length l + 1 - 1)%nat with (length l) by lia.
  apply up_ordered; [lia | rewrite length_app; cbn; lia | | ].
  - intros k Hk Hkj a b. pose proof (parent_lt k ltac:(lia)).
    rewrite !lookup_app_l by lia. apply Ho. lia.
  - intros k a b Hk Hpk. pose proof (parent_lt k ltac:(lia)). lia.
Qed.

Lemma heap_to_pop_spec l r rest :
  heap l -> l = r :: rest ->
  exists l', heap_to_pop l = l' ++ [r] /\ heap l' /\ l' ≡ₚ rest.
Proof using le_trans less_le.
  intros Ho El. set (n := length rest).
  assert (length l = Datatypes.S n) as Hlen by (by rewrite El).
  set (l1 := swap_at l 0 n). set (l2 := (down (Datatypes.S n) l1 0 n).1).
  assert (heap_to_pop l = l2) as ->.
  { unfold heap_to_pop. cbn [hLen hSwap list_heap]. rewrite Hlen. by rewrite Nat.sub_succ, Nat.sub_0_r. }
  assert (l !! 0%nat = Some r) as H0 by (by rewrite El).
  assert (length l1 = Datatypes.S n) as Hl1 by (unfold l1; by rewrite length_swap_at).
  destruct (lookup_lt_is_Some_2 l n) as [z Hz]; [lia | ].
  assert (l1 !! n = Some r) as Hlast.
  { unfold l1. rewrite (swap_at_lookup _ _ _ _ _ _ H0 Hz). destruct (decide (n = 0%nat)) as [E|E]; [ | by rewrite decide_True].
    rewrite E, H0 in Hz. by injection Hz as <-. }
  assert (l2 ≡ₚ l) as Hp by (unfold l2, l1; by rewrite down_perm, swap_at_perm).
  assert (heap_ordered n l2) as Hh.
  { destruct (decide (n = 0%nat)) as [->|Hn0]; [intros k Hk; lia | ].
    apply down_ordered; [lia | lia | | lia]. split; [ | intros k a b; lia].
    intros k Hk Hk0 Hpk a b. rewrite !(swap_at_lookup _ _ _ _ _ _ H0 Hz).
    pose proof (parent_lt k ltac:(lia)). rewrite !decide_False by lia. apply Ho. lia. }
  assert (l2 !! n = Some r) as Hr.
  { destruct (decide (n = 0%nat)) as [Hn0|Hn0]; [ | unfold l2; by rewrite down_beyond by lia].
    rewrite Hn0 in Hlast |- *. unfold l2. rewrite Hn0, down_unfold. exact Hlast. }
  exists (take n l2). assert (l2 = take n l2 ++ [r]) as E.
  { rewrite <- (take_S_r _ _ _ Hr). rewrite take_ge; [done | ]. rewrite (Permutation_length Hp). lia. }
  assert (length (take n l2) = n) as Hlt by (rewrite length_take, (Permutation_length Hp); lia).
  split_and!; [exact E | | ].
  - unfold heap. rewrite Hlt. intros k Hk a b. pose proof (parent_lt k ltac:(lia)).
    rewrite !lookup_take_lt by lia. by apply Hh.
  - rewrite El, E in Hp. rewrite Permutation_app_comm in Hp. cbn in Hp. by apply Permutation_cons_inv in Hp.
Qed.

(** [Fix] after the element at [i] of a heap was replaced. *)
Lemma heap_Fix_spec l i x y :
  heap l -> l !! i = Some y -> heap (heap_Fix (<[i := x]> l) i) /\ heap_Fix (<[i := x]> l) i ≡ₚ <[i := x]> l.
Proof using le_trans less_le.
  intros Ho Hy. pose proof (lookup_lt_Some _ _ _ Hy) as Hi. set (n := length l) in *. set (l1 := <[i := x]> l).
  assert (length l1 = n) as Hn by (unfold l1; by rewrite length_insert).
  assert (down_inv n l1 i) as Hinv.
  { split.
    - intros k Hk Hki Hpk a b. unfold l1. rewrite !list_lookup_insert_ne by done. by apply Ho.
    - intros k a b Hk Hpk Hi0. pose proof (parent_lt i Hi0). pose proof (parent_lt k ltac:(lia)).
      unfold l1. rewrite !list_lookup_insert_ne by lia. intros Ha Hb. apply (le_trans a y b).
      + by apply (Ho i ltac:(lia)).
      + apply (Ho k Hk); [by rewrite Hpk | done]. }
  assert (heap_Fix l1 i ≡ₚ l1) as Hp.
  { unfold heap_Fix. pose proof (down_perm (hLen l1) l1 i (hLen l1)) as Hd.
    destruct (down _ _ _ _) as [l' i']. cbn [fst] in Hd. destruct (_ <? _)%nat; [done | by rewrite up_perm]. }
  split; [ | done]. unfold heap. rewrite (Permutation_length Hp), Hn. unfold heap_Fix. cbn [hLen list_heap]. rewrite Hn.
  destruct n as [|n'] eqn:En; [lia | ]. rewrite down_unfold.
  assert (forall l', (forall k, (0 < k < Datatypes.S n')%nat -> k <> i -> edge_ok l' k) -> l' = l1 ->
    heap_ordered (Datatypes.S n') (up (Datatypes.S i) l' i)) as Hup.
  { intros l' He ->. apply up_ordered; [lia | rewrite Hn; lia | done | apply Hinv]. }
  destruct (Nat.leb_spec (Datatypes.S n') (2 * i + 1)) as [Hc|Hc].
  { rewrite Nat.ltb_irrefl. apply Hup; [ | done]. by apply down_stop. }
  destruct (lookup_lt_is_Some_2 l1 i) as [a Ha]; [lia | ].
  assert (smaller_child l1 i (Datatypes.S n') < length l1)%nat as [b Hb]%lookup_lt_is_Some_2
    by (rewrite Hn; unfold smaller_child; destruct (Nat.ltb_spec (2 * i + 1 + 1) (Datatypes.S n')), (less_at _ _ _); cbn; lia).
  pose proof (smaller_child_spec l1 i _ b Hc ltac:(lia) Hb) as (Hjn & Hij & _ & _).
  pose proof (down_step _ l1 i a b Hinv Hc ltac:(lia) Ha Hb) as Hstep.
  unfold less_at at 1. rewrite Ha, Hb. destruct (less b a); cbn [negb].
  - destruct Hstep as (Hinv' & Hi' & Hj'). set (j := smaller_child l1 i (Datatypes.S n')) in *.
    destruct (down_ordered (Datatypes.S n') n' (swap_at l1 i j) j) as [H1 H2];
      [lia | rewrite length_swap_at; lia | done | done | ].
    destruct (down n' (swap_at l1 i j) j (Datatypes.S n')) as [l' i'] eqn:Ed. cbn [fst snd] in *.
    rewrite (proj2 (Nat.ltb_lt i i')) by lia. exact H1.
  - rewrite Nat.ltb_irrefl. by apply Hup.
Qed.
End lists.

(** ** Simulation
    An implementation related to a list by [R] behaves like the list. *)
Section simulation.
Context {S A : Type} `{HeapInterface S} (less : A -> A -> bool) (R : S -> list A -> Prop).
#[local] Existing Instance list_heap.
Context (R_len : forall h l, R h l -> hLen h = length l).
Context (R_less : forall h l i j, R h l -> (i < length l)%nat -> (j < length l)%nat -> hLess h i j = less_at less l i j).
Context (R_swap : forall h l i j, R h l -> (i < length l)%nat -> (j < length l)%nat -> R (hSwap h i j) (swap_at l i j)).

Lemma up_sim fuel h l j : R h l -> (j < length l)%nat -> R (up fuel h j) (up (H := list_heap less) fuel l j).
Proof using R_less R_swap.
  revert h l j. induction fuel as [|fuel IH]; intros h l j HR Hj; [done | ]. cbn [up hLess hSwap list_heap].
  assert (parent j < length l)%nat by (destruct j; [done | pose proof (parent_lt (Datatypes.S j)); lia]).
  rewrite (R_less h l) by done. destruct (_ || _); [done | ]. apply IH; [by apply R_swap | by rewrite length_swap_at].
Qed.
Lemma down_sim fuel h l i n :
  R h l -> (n <= length l)%nat -> (i < length l)%nat ->
  R (down fuel h i n).1 (down (H := list_heap less) fuel l i n).1 /\
  (down fuel h i n).2 = (down (H := list_heap less) fuel l i n).2 /\ (down fuel h i n).2 < length l.
Proof using R_less R_swap.
  revert h l i. induction fuel as [|fuel IH]; intros h l i HR Hn Hi; [done | ].
  rewrite (down_unfold less). cbn [down].
  destruct (Nat.leb_spec n (2 * i + 1)); [done | ].
  assert ((if (2 * i + 1 + 1 <? n)%nat && hLess h (2 * i + 1 + 1) (2 * i + 1) then (2 * i + 1 + 1)%nat else (2 * i + 1)%nat)
          = smaller_child less l i n) as ->.
  { unfold smaller_child. destruct (Nat.ltb_spec (2 * i + 1 + 1) n); cbn [andb]; [ | done].
    by rewrite (R_less h l) by (done || lia). }
  assert (smaller_child less l i n < n)%nat
    by (unfold smaller_child; destruct (Nat.ltb_spec (2 * i + 1 + 1) n), (less_at _ _ _ _); cbn; lia).
  rewrite (R_less h l) by (done || lia). destruct (negb _); [done | ].
  rewrite <- (length_swap_at l i (smaller_child less l i n)).
  apply IH; [apply R_swap; [done | done | lia] | rewrite length_swap_at; lia | rewrite length_swap_at; lia].
Qed.
Lemma heap_pushed_sim h l : R h l -> l <> [] -> R (heap_pushed h) (heap_pushed (H := list_heap less) l).
Proof using R_len R_less R_swap.
  intros HR Hl. unfold heap_pushed. rewrite (R_len h l HR). cbn [hLen list_heap]. apply up_sim; [done | ].
  destruct l; [done | cbn; lia].
Qed.
Lemma heap_to_pop_sim h l : R h l -> l <> [] -> R (heap_to_pop h) (heap_to_pop (H := list_heap less) l).
Proof using R_len R_less R_swap.
  intros HR Hl. assert (0 < length l)%nat by (destruct l; [done | cbn; lia]).
  unfold heap_to_pop. rewrite (R_len h l HR). cbn [hLen hSwap list_heap].
  apply down_sim; [apply R_swap; [done | done | lia] | rewrite length_swap_at; lia | by rewrite length_swap_at].
Qed.
Lemma heap_Fix_sim h l i : R h l -> (i < length l)%nat -> R (heap_Fix h i) (heap_Fix (H := list_heap less) l i).
Proof using R_len R_less R_swap.
  intros HR Hi. unfold heap_Fix. rewrite (R_len h l HR). cbn [hLen list_heap].
  pose proof (down_sim (length l) h l i (length l) HR ltac:(lia) Hi) as (H1 & H2 & H3).
  pose proof (down_perm less (length l) l i (length l)) as Hp%Permutation_length.
  destruct (down _ h _ _) as [h' i'], (down _ l _ _) as [l' i'']. cbn [fst snd] in *. subst i''.
  destruct (_ <? _)%nat; [done | ]. apply up_sim; [done | lia].
Qed.
End simulation.
