(* ===== verification/ReplayGate.v ===== *)
(** * Package internal/replay: the lifecycle gate (lifecycle.go)

    A gate that is not nil.  The drain channel is the flag [drained]: closing
    it twice is a panic.  The operations hold the gate's mutex, so each one is
    one atomic step. *)

From S2P Require Import Prelude GoBytes GoTime ReplayTypes.
#[local] Open Scope Z_scope.

Record lifecycleGate := MkGate {
  g_state : StoreState; inFlight : Z; drained : bool; drainPublished : bool }.

Definition newLifecycleGate (initial : StoreState) : lifecycleGate := MkGate initial 0 false false.
Definition gate_State (g : lifecycleGate) : StoreState := g_state g.

Definition gate_admit (g : lifecycleGate) (operational : StoreState) : outcome ErrorCode unit * lifecycleGate :=
  if decide (g_state g = operational) then
    (Ret tt, MkGate (g_state g) (inFlight g + 1) (drained g) (drainPublished g))
  else
    match g_state g with
    | StoreClosing | StoreClosed => (Fail ErrorCodeClosed, g)
    | _ => (Fail ErrorCodeInternalInvariant, g)
    end.

(** [close(g.drained)] of a closed channel panics. *)
Definition publishDrainLocked (g : lifecycleGate) : outcome ErrorCode lifecycleGate :=
  if bool_decide (g_state g = StoreClosing) && (inFlight g =? 0) && negb (drainPublished g) then
    if drained g then Crash else Ret (MkGate (g_state g) (inFlight g) true true)
  else Ret g.
Definition finish (g : lifecycleGate) : outcome ErrorCode lifecycleGate :=
  if inFlight g <=? 0 then Ret g
  else publishDrainLocked (MkGate (g_state g) (inFlight g - 1) (drained g) (drainPublished g)).
Definition beginClose (g : lifecycleGate) : outcome ErrorCode lifecycleGate :=
  match g_state g with
  | StoreReady | StoreDegraded | StoreDisabled =>
      publishDrainLocked (MkGate StoreClosing (inFlight g) (drained g) (drainPublished g))
  | StoreClosing | StoreClosed => publishDrainLocked g
  | StoreUnset => Fail ErrorCodeInternalInvariant
  end.
Definition publishClosed (g : lifecycleGate) : outcome ErrorCode lifecycleGate :=
  match g_state g with
  | StoreClosing =>
      if negb (inFlight g =? 0) || negb (drainPublished g) then Fail ErrorCodeInternalInvariant
      else Ret (MkGate StoreClosed (inFlight g) (drained g) (drainPublished g))
  | StoreClosed => Ret g
  | _ => Fail ErrorCodeInternalInvariant
  end.
(** The compare-and-swap of [degrade]. *)
Definition degrade (g : lifecycleGate) : lifecycleGate :=
  if decide (g_state g = StoreReady) then MkGate StoreDegraded (inFlight g) (drained g) (drainPublished g) else g.
Definition drainedNow (g : lifecycleGate) : bool := drained g.

(** What a [select] between a channel and [ctx.Done()] ends with. *)
Inductive Wakeup := ChannelReady | ContextDone (ctx : ContextState).
Definition waitForDrain (w : Wakeup) : outcome ErrorCode unit :=
  match w with
  | ChannelReady => Ret tt
  | ContextDone ctx => check PreflightContext ctx ;; Fail ErrorCodeInternalInvariant
  end.

(** ** The gate's invariant *)
Record gate_ok (g : lifecycleGate) : Prop := MkGateOk {
  go_known : StoreState_Known (g_state g) = true;
  go_count : 0 <= inFlight g;
  go_drained : drained g = drainPublished g;
  go_published : drainPublished g = true -> (g_state g = StoreClosing \/ g_state g = StoreClosed) /\ inFlight g = 0;
  go_closing : g_state g = StoreClosing -> inFlight g = 0 -> drainPublished g = true;
  go_closed : g_state g = StoreClosed -> drainPublished g = true }.

Lemma newLifecycleGate_ok s :
  s = StoreReady \/ s = StoreDegraded \/ s = StoreDisabled -> gate_ok (newLifecycleGate s).
Proof. intros [-> | [-> | ->]]; split; cbn; try done; lia. Qed.
Lemma admit_ok g op g' :
  gate_ok g -> op = StoreReady \/ op = StoreDegraded \/ op = StoreDisabled ->
  gate_admit g op = (Ret tt, g') -> gate_ok g' /\ g_state g' = op /\ g_state g = op /\ inFlight g' = inFlight g + 1.
Proof.
  intros [H1 H2 H3 H4 H5 H6] Hop. unfold gate_admit. destruct (decide _) as [E|]; [ | by destruct (g_state g)].
  intros [= <-]. cbn. split; [ | done].
  assert (g_state g <> StoreClosing /\ g_state g <> StoreClosed) as [Hn1 Hn2]
    by (rewrite E; destruct Hop as [-> | [-> | ->]]; done).
  split; cbn; try done; [lia | intros Hd; destruct (H4 Hd) as [[?|?] _]; done].
Qed.
Lemma publishDrain_ok g :
  StoreState_Known (g_state g) = true -> 0 <= inFlight g -> drained g = drainPublished g ->
  (drainPublished g = true -> (g_state g = StoreClosing \/ g_state g = StoreClosed) /\ inFlight g = 0) ->
  (g_state g = StoreClosed -> drainPublished g = true) ->
  exists g', publishDrainLocked g = Ret g' /\ gate_ok g' /\ g_state g' = g_state g /\ inFlight g' = inFlight g /\
    (drainPublished g = true -> drainPublished g' = true).
Proof.
  intros H1 H2 H3 H4 H6. unfold publishDrainLocked. destruct (_ && _) eqn:E.
  - apply andb_true_iff in E as [[Ec%bool_decide_eq_true E0%Z.eqb_eq]%andb_true_iff Ep%negb_true_iff].
    rewrite H3, Ep. eexists. split; [done | ]. split; [ | done]. split; cbn; try done; intros _; split; [by left | done].
  - eexists. split; [done | ]. split; [ | done]. split; try done. intros Hc Hz. rewrite Hc, Hz in E.
    rewrite bool_decide_eq_true_2 in E by done. cbn in E. by apply negb_false_iff in E.
Qed.
Lemma finish_ok g :
  gate_ok g -> 0 < inFlight g ->
  exists g', finish g = Ret g' /\ gate_ok g' /\ g_state g' = g_state g /\ inFlight g' = inFlight g - 1.
Proof.
  intros [H1 H2 H3 H4 H5 H6] Hp. unfold finish. rewrite (proj2 (Z.leb_gt _ _)) by lia.
  destruct (publishDrain_ok (MkGate (g_state g) (inFlight g - 1) (drained g) (drainPublished g)))
    as (g' & E & Hg & Hs & Hi & _); cbn in *; try done; [lia | | by exists g'].
  intros Hd. destruct (H4 Hd). lia.
Qed.
Lemma beginClose_ok g :
  gate_ok g ->
  exists g', beginClose g = Ret g' /\ gate_ok g' /\ inFlight g' = inFlight g /\
    g_state g' = (if decide (g_state g = StoreClosed) then StoreClosed else StoreClosing) /\
    (drainPublished g = true -> drainPublished g' = true).
Proof.
  intros [H1 H2 H3 H4 H5 H6]. unfold beginClose.
  destruct (g_state g) eqn:Es; [done | ..];
    (edestruct publishDrain_ok as (g' & E & Hg & Hs & Hi & Hp); [.. | rewrite E; exists g'; split; [done | ];
      split; [done | ]; split; [rewrite Hi; done | ]; split; [rewrite Hs; cbn; by rewrite ?Es | exact Hp]]); cbn;
    rewrite ?Es in *; try done; intros Hd; destruct (H4 Hd) as [[?|?] ?]; done || auto.
Qed.
Lemma degrade_ok g : gate_ok g -> gate_ok (degrade g) /\ inFlight (degrade g) = inFlight g /\
  (g_state g = StoreClosing \/ g_state g = StoreClosed -> degrade g = g).
Proof.
  intros [H1 H2 H3 H4 H5 H6]. unfold degrade. destruct (decide _) as [E|E].
  - split; [ | split; [done | intros [?|?]; congruence]]. split; cbn; try done.
    intros Hd. destruct (H4 Hd) as [[?|?] _]; congruence.
  - done.
Qed.
Lemma publishClosed_ok g :
  gate_ok g -> drainPublished g = true ->
  exists g', publishClosed g = Ret g' /\ gate_ok g' /\ g_state g' = StoreClosed /\ inFlight g' = 0.
Proof.
  intros [H1 H2 H3 H4 H5 H6] Hd. destruct (H4 Hd) as [[Hs|Hs] Hi]; unfold publishClosed; rewrite Hs.
  - rewrite Hi, Hd. eexists. split; [reflexivity | ]. split; [ | done].
    split; cbn; try done; [congruence | ]. intros _; split; [by right | done].
  - exists g. split; [done | ]. split; [by split | done].
Qed.
