(* ===== verification/ReplayKey.v ===== *)
(** * Package internal/replay: identities and storage keys (identity.go, deriver.go)

    An identity source is what its methods return.  HMAC-SHA256 is built from
    the executable SHA-256.  A [Key] is nil or the 68 bytes of its storage. *)

From S2P Require Import Prelude GoBytes Sha2 GoBase64 GoTime ReplayTypes ReplayGate.
#[local] Open Scope Z_scope.

(** ** identity.go *)
Definition DraftIdentifier : bytes := bs "draft-ietf-dkim-dkim2-spec-09".
Record identityState := MkIdentityState {
  originDigest : bytes; hasOriginDigest : bool; recipientDigest : bytes; id_draft : Z }.
Definition Identity := option identityState.
Definition Identity_Valid (i : Identity) : bool :=
  match i with Some s => (id_draft s =? 2) && hasOriginDigest s | None => false end.

(** The three kinds of source the code tells apart by its interfaces. *)
Inductive SourceMethods :=
  | OriginSource (digest : option bytes) (exploded eligible : bool)
  | LegacySource (message signature : option bytes) (recipientCount : Z)
      (recipientDigestOf : Z -> option bytes) (exploded : bool)
  | PlainSource.
Record IdentitySource := MkSource { src_Valid : bool; src_Draft : bytes; src_methods : SourceMethods }.

Record identitySetState := MkIdentitySet {
  is_identity : Identity; is_identities : list Identity; is_exploded : bool; is_eligible : bool;
  is_valid : bool }.
Definition IdentitySet := option identitySetState.

(** The loop over the recipients, which must be strictly increasing. *)
Fixpoint legacyIdentities (message signature : bytes) (recipientOf : Z -> option bytes)
    (indices : list Z) (previous : option bytes) : outcome ErrorCode (list Identity) :=
  match indices with
  | [] => Ret []
  | index :: rest =>
      match recipientOf index with
      | None => Fail ErrorCodeInvalidRequest
      | Some recipient =>
          check require (match previous with
                         | Some p => bytes_ltb p recipient
                         | None => true end) ErrorCodeInvalidRequest ;;
          let digest := sha256_Sum256 (message ++ signature ++ recipient) in
          let* identities := legacyIdentities message signature recipientOf rest (Some recipient) in
          Ret (Some (MkIdentityState digest true recipient 2) :: identities)
      end
  end.
Definition noDigest : bytes := repeat x00 32.
Definition NewIdentitySet (source : option IdentitySource) : outcome ErrorCode identitySetState := recovered (
  match source with
  | None => Fail ErrorCodeInvalidRequest
  | Some source =>
      check require (src_Valid source && bytes_equal (src_Draft source) DraftIdentifier)
        ErrorCodeInvalidRequest ;;
      match src_methods source with
      | OriginSource None _ _ => Fail ErrorCodeInvalidRequest
      | OriginSource (Some digest) exploded eligible =>
          let identity := Some (MkIdentityState digest true noDigest 2) in
          Ret (MkIdentitySet identity [identity] exploded eligible true)
      | LegacySource (Some message) (Some signature) count recipientOf exploded =>
          check require (0 <? count) ErrorCodeInvalidRequest ;;
          let* identities := legacyIdentities message signature recipientOf (seqZ 0 count) None in
          match identities with
          | first :: _ => Ret (MkIdentitySet first identities exploded true true)
          | [] => Crash
          end
      | LegacySource _ _ _ _ _ | PlainSource => Fail ErrorCodeInvalidRequest
      end
  end).
Definition IdentitySet_Valid (s : IdentitySet) : bool :=
  match s with
  | None => false
  | Some st => is_valid st && negb (len (is_identities st) =? 0) && forallb Identity_Valid (is_identities st)
  end.
Definition IdentitySet_Len (s : IdentitySet) : Z :=
  if negb (IdentitySet_Valid s) then 0 else from_option (fun st => len (is_identities st)) 0 s.
Definition IdentitySet_Identity (s : IdentitySet) (index : Z) : outcome ErrorCode Identity :=
  match s with
  | Some st =>
      check require (negb (negb (IdentitySet_Valid s) || (index <? 0) || (len (is_identities st) <=? index)))
        ErrorCodeInvalidRequest ;;
      match is_identities st !! Z.to_nat index with
      | Some (Some state) => Ret (Some state)
      | _ => Crash
      end
  | None => Fail ErrorCodeInvalidRequest
  end.
Definition IdentitySet_Eligible (s : IdentitySet) : bool :=
  match s with Some st => IdentitySet_Valid s && is_eligible st | None => false end.

(** ** contracts.go, deriver.go: storage keys *)
Definition storageKeyByteLength : Z := 68.
Definition keyNamespacePrefix : bytes := bs "dkim2:replay:v1:".
Definition keyDomainLabel : bytes := bs "dkim2-replay-v2".
Definition PropagationKeyDomainLabel : bytes := bs "dkim2-replay-propagation-v1".
Definition Key := option bytes.

Definition fromLowerHex (value : byte) : Z :=
  if in_range x30 value x39 then bval value - 48 else bval value - 97 + 10.
(** [Uint32] of the bytes made of two digits each. *)
Definition epochOf (digits : bytes) : Z :=
  foldl (fun acc b => acc * 16 + fromLowerHex b) 0 digits.
Definition validStorageKey (key : Key) : bool :=
  match key with
  | None => false
  | Some value =>
      if negb (len value =? storageKeyByteLength) || negb (has_prefix value keyNamespacePrefix)
         || negb (bool_decide (value !! 24%nat = Some x3a)) then false
      else if negb (forallb lower_hex (take 8 (drop 16 value))) then false
      else if epochOf (take 8 (drop 16 value)) =? 0 then false
      else
        match rawurl_decode_strict (drop 25 value) with
        | Some decoded => (len decoded =? 32) && bytes_equal (rawurl_encode decoded) (drop 25 value)
        | None => false
        end
  end.
Definition UseStorageKey (key : Key) (use : option (bytes -> outcome GoError unit)) : outcome ErrorCode unit :=
  match key, use with
  | Some storage, Some use =>
      check require (validStorageKey key) ErrorCodeInvalidRequest ;;
      match use storage with
      | Ret _ => Ret tt
      | Fail (TypedError code) => Fail code
      | Fail ForeignError | Crash => Fail ErrorCodeInternalInvariant
      end
  | _, _ => Fail ErrorCodeInvalidRequest
  end.

(** ** HMAC-SHA256 *)
Definition hmac_pad (secret : bytes) (p : Z) : bytes :=
  map (fun b => byte_of (Z.lxor (bval b) p)) (secret ++ repeat x00 (64 - length secret)).
Definition hmac_sha256 (secret message : bytes) : bytes :=
  let secret := if 64 <? len secret then sha256_Sum256 secret else secret in
  sha256_Sum256 (hmac_pad secret 92 ++ sha256_Sum256 (hmac_pad secret 54 ++ message)).

Definition uint32_bytes (v : Z) : bytes :=
  [byte_of (Z.shiftr v 24); byte_of (Z.shiftr v 16); byte_of (Z.shiftr v 8); byte_of v].
Definition appendUint32Bytes (output value : bytes) : bytes := output ++ uint32_bytes (len value) ++ value.
Definition replayHMACFrame (digest frameLabel draft : bytes) : bytes :=
  let frame := frameLabel ++ [x00; x02] ++ [x01] in
  let frame := appendUint32Bytes frame draft in
  let frame := frame ++ [x02] in
  appendUint32Bytes frame digest.

(** ** deriver.go: the deriver *)
Record deriverState := MkDeriver { dv_gate : lifecycleGate; dv_secret : bytes; dv_epoch : Z; dv_cleared : bool }.
Definition allZero (value : bytes) : bool := forallb (fun b => b =?b x00) value.
Definition NewDeriver (secret : bytes) (epoch : Z) : outcome ErrorCode deriverState :=
  check require (negb (negb (len secret =? 32) || (epoch =? 0) || allZero secret)) ErrorCodeMisconfigured ;;
  Ret (MkDeriver (newLifecycleGate StoreReady) secret epoch false).

Definition with_gate (d : deriverState) (g : lifecycleGate) : deriverState :=
  MkDeriver g (dv_secret d) (dv_epoch d) (dv_cleared d).
Definition clearAndClose (d : deriverState) : outcome ErrorCode unit * deriverState :=
  let d := if dv_cleared d then d
           else MkDeriver (dv_gate d) (map (fun _ => x00) (dv_secret d)) (dv_epoch d) true in
  match publishClosed (dv_gate d) with
  | Ret g => (Ret tt, with_gate d g)
  | Fail e => (Fail e, d)
  | Crash => (Crash, d)
  end.
(** The deferred [finish]; the error of its cleanup is dropped. *)
Definition deriver_finish (d : deriverState) : outcome ErrorCode deriverState :=
  let* g := finish (dv_gate d) in
  let d := with_gate d g in
  if drainedNow g then
    match clearAndClose d with (Crash, _) => Crash | (_, d) => Ret d end
  else Ret d.

Definition render_key (epoch : Z) (mac : bytes) : bytes :=
  keyNamespacePrefix ++ hex_encode (uint32_bytes epoch) ++ [x3a] ++ rawurl_encode mac.
(** The body of [derive] between admission and the deferred calls. *)
Definition derive_key (d : deriverState) (identity : Identity) (frameLabel : bytes) : outcome ErrorCode Key :=
  match identity with
  | Some state =>
      check require (Identity_Valid identity) ErrorCodeInvalidRequest ;;
      let frame := replayHMACFrame (originDigest state) frameLabel DraftIdentifier in
      let digest := hmac_sha256 (dv_secret d) frame in
      let storage := render_key (dv_epoch d) digest in
      check require (len storage =? storageKeyByteLength) ErrorCodeInternalInvariant ;;
      check require (validStorageKey (Some storage)) ErrorCodeInternalInvariant ;;
      Ret (Some storage)
  | None => Fail ErrorCodeInvalidRequest
  end.
Definition derive (ctx : ContextState) (d : deriverState) (identity : Identity) (frameLabel : bytes)
    : outcome ErrorCode Key * deriverState :=
  match PreflightContext ctx with
  | Ret _ =>
      match gate_admit (dv_gate d) StoreReady with
      | (Ret _, g) =>
          let d := with_gate d g in
          let result := derive_key d identity frameLabel in
          match deriver_finish d with
          | Ret d => (recovered result, d)
          | _ => (Crash, d)
          end
      | (Fail e, g) => (Fail e, with_gate d g)
      | (Crash, g) => (Crash, with_gate d g)
      end
  | Fail e => (Fail e, d)
  | Crash => (Crash, d)
  end.
Definition Derive ctx d identity := derive ctx d identity keyDomainLabel.
Definition DerivePropagation ctx d identity := derive ctx d identity PropagationKeyDomainLabel.
(** [Close]: what it has done when the drain wait ends. *)
Definition deriver_Close (ctx : ContextState) (w : Wakeup) (d : deriverState)
    : outcome ErrorCode unit * deriverState :=
  match PreflightContext ctx with
  | Ret _ =>
      match beginClose (dv_gate d) with
      | Ret g =>
          let d := with_gate d g in
          match waitForDrain w with
          | Ret _ => let '(r, d) := clearAndClose d in (recovered r, d)
          | Fail e => (Fail e, d)
          | Crash => (recovered Crash, d)
          end
      | Fail e => (Fail e, d)
      | Crash => (recovered Crash, d)
      end
  | Fail e => (Fail e, d)
  | Crash => (recovered Crash, d)
  end.

(** * Storage keys *)
Lemma uint32_hex_spec e :
  0 <= e < 2 ^ 32 ->
  exists h0 h1 h2 h3 h4 h5 h6 h7,
    hex_encode (uint32_bytes e) = map hex_digit [h0; h1; h2; h3; h4; h5; h6; h7] /\
    Forall (fun h => 0 <= h < 16) [h0; h1; h2; h3; h4; h5; h6; h7] /\
    e = foldl (fun acc h => acc * 16 + h) 0 [h0; h1; h2; h3; h4; h5; h6; h7].
Proof.
  intros He. change (hex_encode (uint32_bytes e)) with
    [hex_digit (bval (byte_of (Z.shiftr e 24)) / 16); hex_digit (bval (byte_of (Z.shiftr e 24)) mod 16);
     hex_digit (bval (byte_of (Z.shiftr e 16)) / 16); hex_digit (bval (byte_of (Z.shiftr e 16)) mod 16);
     hex_digit (bval (byte_of (Z.shiftr e 8)) / 16); hex_digit (bval (byte_of (Z.shiftr e 8)) mod 16);
     hex_digit (bval (byte_of e) / 16); hex_digit (bval (byte_of e) mod 16)].
  rewrite !bval_byte_of, !Z.shiftr_div_pow2 by lia. do 8 eexists. split; [reflexivity | ].
  split; [repeat constructor; lia | ]. cbn [foldl]. change (2 ^ 24) with 16777216. change (2 ^ 16) with 65536.
  change (2 ^ 8) with 256. change (2 ^ 32) with 4294967296 in He. lia.
Qed.
Lemma epochOf_digits hs :
  Forall (fun h => 0 <= h < 16) hs -> epochOf (map hex_digit hs) = foldl (fun acc h => acc * 16 + h) 0 hs.
Proof.
  intros Hf. unfold epochOf. assert (forall acc, foldl (fun acc b => acc * 16 + fromLowerHex b) acc (map hex_digit hs) =
    foldl (fun acc h => acc * 16 + h) acc hs) as H; [ | apply H]. induction Hf as [|h hs Hh _ IH]; intros acc; [done | ].
  cbn [map foldl]. rewrite IH. do 3 f_equal. by apply hex_digit_facts.
Qed.
Lemma epochOf_uint32 e : 0 <= e < 2 ^ 32 -> epochOf (hex_encode (uint32_bytes e)) = e.
Proof.
  intros He. destruct (uint32_hex_spec e He) as (h0 & h1 & h2 & h3 & h4 & h5 & h6 & h7 & -> & Hf & E).
  rewrite epochOf_digits by done. by rewrite <- E.
Qed.
Lemma digits_of_hex (t : bytes) :
  forallb lower_hex t = true -> exists hs, t = map hex_digit hs /\ Forall (fun h => 0 <= h < 16) hs.
Proof.
  induction t as [|b t IH]; [by exists [] | ]. cbn. intros [Hb Ht]%andb_true_iff.
  destruct (IH Ht) as (hs & -> & Hf). destruct (hex_value_digit b Hb) as [E Hr].
  exists (hex_value b :: hs). cbn. rewrite E. split; [done | by constructor].
Qed.
Lemma uint32_epochOf t :
  forallb lower_hex t = true -> length t = 8%nat ->
  0 <= epochOf t < 2 ^ 32 /\ hex_encode (uint32_bytes (epochOf t)) = t.
Proof.
  intros Ht Hl. destruct (digits_of_hex t Ht) as (hs & -> & Hf). rewrite length_map in Hl.
  rewrite epochOf_digits by done.
  destruct hs as [|h0 [|h1 [|h2 [|h3 [|h4 [|h5 [|h6 [|h7 [|? ?]]]]]]]]]; try done. clear Hl Ht.
  repeat (apply Forall_cons in Hf as [? Hf]). cbn [foldl]. set (e := _ * 16 + h7).
  assert (0 <= e < 2 ^ 32) as He by (unfold e; change (2 ^ 32) with 4294967296; lia). split; [done | ].
  destruct (uint32_hex_spec e He) as (k0 & k1 & k2 & k3 & k4 & k5 & k6 & k7 & -> & Hk & E).
  repeat (apply Forall_cons in Hk as [? Hk]). cbn [foldl] in E. unfold e in E.
  cbn [map]. assert (k7 = h7) by lia. assert (k6 = h6) by lia. assert (k5 = h5) by lia. assert (k4 = h4) by lia.
  assert (k3 = h3) by lia. assert (k2 = h2) by lia. assert (k1 = h1) by lia. assert (k0 = h0) by lia. by subst.
Qed.

Lemma render_key_len epoch mac : len mac = 32 -> len (render_key epoch mac) = storageKeyByteLength.
Proof.
  intros Hm. unfold render_key. rewrite !len_app, rawurl_len, Hm.
  change (len (hex_encode (uint32_bytes epoch))) with 8. reflexivity.
Qed.

(** The parts of a rendered key. *)
Lemma render_key_parts epoch mac :
  has_prefix (render_key epoch mac) keyNamespacePrefix = true /\
  take 8 (drop 16 (render_key epoch mac)) = hex_encode (uint32_bytes epoch) /\
  render_key epoch mac !! 24%nat = Some x3a /\ drop 25 (render_key epoch mac) = rawurl_encode mac.
Proof.
  assert (render_key epoch mac =
    keyNamespacePrefix ++ hex_encode (uint32_bytes epoch) ++ x3a :: rawurl_encode mac) as -> by done.
  split_and!.
  - apply has_prefix_app.
  - rewrite (drop_app_length' keyNamespacePrefix) by done. by rewrite (take_app_length' (hex_encode _)).
  - rewrite lookup_app_r by (cbn; lia). rewrite lookup_app_r by (cbn; lia). done.
  - rewrite !app_assoc. rewrite (cons_middle x3a), app_assoc. by rewrite drop_app_length'.
Qed.
Lemma render_key_valid epoch mac :
  0 < epoch < 2 ^ 32 -> len mac = 32 -> validStorageKey (Some (render_key epoch mac)) = true.
Proof.
  intros He Hm. destruct (render_key_parts epoch mac) as (H1 & H2 & H3 & H4).
  unfold validStorageKey. rewrite render_key_len, H1, H2, H3, H4 by done.
  rewrite bool_decide_eq_true_2 by done. rewrite hex_encode_lower, epochOf_uint32 by lia.
  rewrite (proj2 (Z.eqb_neq epoch 0)) by lia. cbn [negb orb Z.eqb].
  rewrite rawurl_decode_encode, Hm. unfold bytes_equal. by rewrite bool_decide_eq_true_2.
Qed.
Lemma render_key_inj e m e' m' :
  0 <= e < 2 ^ 32 -> 0 <= e' < 2 ^ 32 -> render_key e m = render_key e' m' -> e = e' /\ m = m'.
Proof.
  intros He He' E. destruct (render_key_parts e m) as (_ & H2 & _ & H4).
  destruct (render_key_parts e' m') as (_ & H2' & _ & H4'). rewrite E in H2, H4. split.
  - rewrite H2' in H2. apply (f_equal epochOf) in H2. by rewrite !epochOf_uint32 in H2.
  - rewrite H4' in H4. by apply rawurl_encode_inj in H4.
Qed.

(** C22: a storage key is valid exactly when it is the rendering of a nonzero
    32-bit epoch and a 32-byte MAC, which it determines. *)
Theorem validStorageKey_spec v :
  validStorageKey (Some v) = true <->
  exists epoch mac, (0 < epoch < 2 ^ 32 /\ len mac = 32) /\ v = render_key epoch mac /\
    forall epoch' mac', 0 < epoch' < 2 ^ 32 -> v = render_key epoch' mac' -> epoch' = epoch /\ mac' = mac.
Proof.
  split.
  - unfold validStorageKey. destruct (negb (len v =? storageKeyByteLength) || _ || _) eqn:E1; [done | ].
    apply orb_false_iff in E1 as [[El%negb_false_iff Ep%negb_false_iff]%orb_false_iff Ec%negb_false_iff].
    apply bool_decide_eq_true in Ec. apply Z.eqb_eq in El.
    destruct (forallb lower_hex _) eqn:Eh; cbn [negb]; [ | done].
    destruct (Z.eqb_spec (epochOf (take 8 (drop 16 v))) 0) as [|Ee]; [done | ].
    destruct (rawurl_decode_strict (drop 25 v)) as [mac|] eqn:Ed; [ | done].
    intros [Em%Z.eqb_eq Er%bytes_equal_eq]%andb_true_iff.
    apply has_prefix_spec in Ep as [rest Ep].
    assert (length v = 68%nat) as Hlen by (unfold len, storageKeyByteLength in El; lia).
    destruct (uint32_epochOf _ Eh) as [He Hhex]; [rewrite length_take, length_drop; lia | ].
    assert (v = render_key (epochOf (take 8 (drop 16 v))) mac) as Ev.
    { unfold render_key. rewrite Hhex, Er. rewrite Ep at 1. f_equal.
      assert (rest = drop 16 v) as -> by (by rewrite Ep, (drop_app_length' keyNamespacePrefix)).
      rewrite <- (take_drop 8 (drop 16 v)) at 1. f_equal. rewrite drop_drop. cbn [Nat.add].
        by rewrite (drop_S _ _ _ Ec). }
    exists (epochOf (take 8 (drop 16 v))), mac. split; [split; [split; [lia | apply He] | done] | ]. split; [exact Ev | ].
    intros e' m' He' E'. apply render_key_inj; [lia | done | by rewrite <- E'].
  - intros (e & m & [He Hm] & -> & _). by apply render_key_valid.
Qed.

(** ** HMAC frames *)
Lemma length_uint32 n : length (uint32_bytes n) = 4%nat.
Proof. done. Qed.
Lemma replayHMACFrame_eq digest label draft :
  replayHMACFrame digest label draft =
  label ++ [x00; x02; x01] ++ uint32_bytes (len draft) ++ draft ++ [x02] ++ uint32_bytes (len digest) ++ digest.
Proof. unfold replayHMACFrame, appendUint32Bytes. by rewrite <- !app_assoc. Qed.
Lemma uint32_bytes_inj n m : 0 <= n < 2 ^ 32 -> 0 <= m < 2 ^ 32 -> uint32_bytes n = uint32_bytes m -> n = m.
Proof.
  intros Hn Hm E. apply (f_equal (fun l => epochOf (hex_encode l))) in E. by rewrite !epochOf_uint32 in E.
Qed.

(** The two frame labels separate the MAC inputs: frames are equal exactly
    when their labels, draft identifiers and digests are. *)
Theorem replayHMACFrame_injective d d' label label' draft draft' :
  label = keyDomainLabel \/ label = PropagationKeyDomainLabel ->
  label' = keyDomainLabel \/ label' = PropagationKeyDomainLabel ->
  len draft < 2 ^ 32 -> len draft' < 2 ^ 32 -> len d < 2 ^ 32 -> len d' < 2 ^ 32 ->
  replayHMACFrame d label draft = replayHMACFrame d' label' draft' <->
  label = label' /\ draft = draft' /\ d = d'.
Proof.
  intros Hl Hl' Hdr Hdr' Hd Hd'. split; [ | by intros (-> & -> & ->)].
  rewrite !replayHMACFrame_eq. intros E.
  assert (label = label') as <- by (destruct Hl as [-> | ->], Hl' as [-> | ->]; done).
  apply app_inv_head, app_inv_head in E. apply app_inj_1 in E as [E1 E]; [ | done].
  apply uint32_bytes_inj in E1; [ | pose proof (len_nonneg draft); lia | pose proof (len_nonneg draft'); lia].
  apply app_inj_1 in E as [-> E]; [ | unfold len in E1; lia].
  apply app_inv_head in E. apply app_inj_1 in E as [_ ->]; done.
Qed.

(** ** Derivation *)
Lemma hmac_len secret message : len (hmac_sha256 secret message) = 32.
Proof. unfold hmac_sha256, len. by rewrite length_sha256. Qed.
Lemma derive_key_ok d state label :
  0 < dv_epoch d < 2 ^ 32 -> Identity_Valid (Some state) = true ->
  derive_key d (Some state) label =
  Ret (Some (render_key (dv_epoch d) (hmac_sha256 (dv_secret d) (replayHMACFrame (originDigest state) label DraftIdentifier)))).
Proof.
  intros He Hv. unfold derive_key. rewrite Hv. cbn [require obind].
  rewrite render_key_len by apply hmac_len. rewrite Z.eqb_refl. cbn [require obind].
  by rewrite render_key_valid by (done || apply hmac_len).
Qed.

(** A ready deriver that [NewDeriver] built, between calls. *)
Definition deriver_ready (d : deriverState) : Prop :=
  gate_ok (dv_gate d) /\ g_state (dv_gate d) = StoreReady /\ 0 < dv_epoch d < 2 ^ 32 /\ len (dv_secret d) = 32.
Lemma NewDeriver_ready secret epoch d : 0 <= epoch < 2 ^ 32 -> NewDeriver secret epoch = Ret d -> deriver_ready d.
Proof.
  intros He (_ & Hr%require_ret_inv & [= <-])%obind_ret_inv. split; cbn; [apply newLifecycleGate_ok; auto | ].
  split; [done | ]. lia.
Qed.

(** A ready deriver derives a valid key for every valid identity: the
    rendering of its epoch and the HMAC of the frame; it refuses an invalid
    identity; and either way it is ready again, with its secret kept. *)
Theorem derive_functional d identity label :
  deriver_ready d ->
  exists g, derive CtxActive d identity label =
    (match identity with
     | Some state =>
         if Identity_Valid identity then
           Ret (Some (render_key (dv_epoch d)
             (hmac_sha256 (dv_secret d) (replayHMACFrame (originDigest state) label DraftIdentifier))))
         else Fail ErrorCodeInvalidRequest
     | None => Fail ErrorCodeInvalidRequest
     end, with_gate d g) /\
    deriver_ready (with_gate d g) /\ inFlight g = inFlight (dv_gate d) /\
    (forall key, (derive CtxActive d identity label).1 = Ret key -> validStorageKey key = true).
Proof.
  intros (Hg & Hs & He & Hl). unfold derive, PreflightContext.
  destruct (gate_admit (dv_gate d) StoreReady) as [r g1] eqn:Ea.
  assert (r = Ret tt) as -> by (unfold gate_admit in Ea; rewrite decide_True in Ea by done; by injection Ea as <-).
  apply admit_ok in Ea as (Hg1 & Hs1 & _ & Hi1); [ | done | by left].
  destruct (finish_ok g1 Hg1) as (g2 & Ef & Hg2 & Hs2 & Hi2); [destruct Hg; lia | ].
  assert (drained g2 = false) as Hnd.
  { destruct Hg2 as [_ _ H3 H4 _ _]. rewrite H3. destruct (drainPublished g2); [ | done].
    destruct (H4 eq_refl) as [[?|?] _]; congruence. }
  assert (deriver_finish (with_gate d g1) = Ret (with_gate d g2)) as ->.
  { unfold deriver_finish, drainedNow. cbn [with_gate dv_gate]. rewrite Ef. cbn [obind]. by rewrite Hnd. }
  exists g2. split; [ | split; [split; [exact Hg2 | split; [cbn; congruence | done]] | split; [lia | ]]].
  - f_equal. destruct identity as [state|]; [ | done]. destruct (Identity_Valid (Some state)) eqn:Ev.
    + by rewrite derive_key_ok.
    + unfold derive_key. by rewrite Ev.
  - cbn [fst]. intros key. destruct identity as [state|]; [ | done]. destruct (Identity_Valid (Some state)) eqn:Ev.
    + rewrite derive_key_ok by done. intros [= <-]. by apply render_key_valid, hmac_len.
    + unfold derive_key. by rewrite Ev.
Qed.

Definition sample_deriver : deriverState :=
  MkDeriver (newLifecycleGate StoreReady) (repeat x01 32) 1 false.
Definition sample_identity : identityState := MkIdentityState (repeat x02 32) true noDigest 2.
Lemma sample_deriver_ready : deriver_ready sample_deriver.
Proof. apply (NewDeriver_ready (repeat x01 32) 1); [lia | reflexivity]. Qed.
Lemma derive_functional_witness :
  exists key, (derive CtxActive sample_deriver (Some sample_identity) keyDomainLabel).1 = Ret key /\
    validStorageKey key = true.
Proof.
  destruct (derive_functional sample_deriver (Some sample_identity) keyDomainLabel sample_deriver_ready)
    as (g & E & _ & _ & H).
  rewrite E in H |- *. eexists. split; [reflexivity | by apply H].
Defined.
Lemma replayHMACFrame_injective_witness :
  replayHMACFrame (repeat x02 32) keyDomainLabel DraftIdentifier <>
  replayHMACFrame (repeat x02 32) PropagationKeyDomainLabel DraftIdentifier.
Proof.
  intros E. destruct (proj1 (replayHMACFrame_injective (repeat x02 32) (repeat x02 32) keyDomainLabel
    PropagationKeyDomainLabel DraftIdentifier DraftIdentifier ltac:(by left) ltac:(by right)
    ltac:(vm_compute; reflexivity) ltac:(vm_compute; reflexivity) ltac:(vm_compute; reflexivity)
    ltac:(vm_compute; reflexivity)) E) as [El _]. discriminate El.
Defined.
