(* ===== verification/ReplayMemory.v ===== *)
(** * Package internal/replay: the memory store (memory.go)

    The records behind the map and the heap are shared objects: the map holds
    pointers into [ms_memory], and so does the expiry heap, whose exchanges
    write the records' indexes.  The store's mutable variables are one state; a
    critical section is a function of it.  The environment of a call says what
    the context, the clock and the waits answer. *)

From stdpp Require Import gmap.
From S2P Require Import Prelude GoBytes GoTime GoHeap ReplayTypes ReplayGate ReplayKey.
#[local] Open Scope Z_scope.

(** ** Entries and the expiry heap *)
Inductive entryKind := entryFirstSeen | entryPropagation.
#[export] Instance entryKind_eq_dec : EqDecision entryKind.
Proof. solve_decision. Defined.

Record memoryEntry := MkEntry {
  me_key : bytes; me_expiry : Time; me_index : Z; me_kind : entryKind;
  me_propagation : PropagationState; me_lease : Time }.
Abbreviation pointer := positive.
Abbreviation memory := (gmap pointer memoryEntry).

Definition set_index (i : Z) (e : memoryEntry) : memoryEntry :=
  MkEntry (me_key e) (me_expiry e) i (me_kind e) (me_propagation e) (me_lease e).
Definition entry_less (a b : memoryEntry) : bool :=
  if Equal (me_expiry a) (me_expiry b) then bytes_ltb (me_key a) (me_key b)
  else Before (me_expiry a) (me_expiry b).

(** The heap interface: the memory and the slice of pointers. *)
Definition expiryHeap : Type := memory * list pointer.
Definition expiry_less (h : expiryHeap) (left right : nat) : bool :=
  match h.2 !! left, h.2 !! right with
  | Some p, Some q =>
      match h.1 !! p, h.1 !! q with Some a, Some b => entry_less a b | _, _ => false end
  | _, _ => false
  end.
Definition expiry_swap (h : expiryHeap) (left right : nat) : expiryHeap :=
  match h.2 !! left, h.2 !! right with
  | Some p, Some q =>
      (alter (set_index (Z.of_nat right)) p (alter (set_index (Z.of_nat left)) q h.1),
       <[left := q]> (<[right := p]> h.2))
  | _, _ => h
  end.
#[export] Instance expiryHeap_interface : HeapInterface expiryHeap :=
  { hLen := fun h => length h.2; hLess := expiry_less; hSwap := expiry_swap }.

Definition heap_Push (p : pointer) (h : expiryHeap) : expiryHeap :=
  heap_pushed (alter (set_index (len h.2)) p h.1, h.2 ++ [p]).
(** Popping from an empty heap panics. *)
Definition heap_Pop (h : expiryHeap) : option (pointer * expiryHeap) :=
  let h := heap_to_pop h in
  p ← last h.2;
  Some (p, (alter (set_index (-1)) p h.1, take (length h.2 - 1) h.2)).

(** ** The store *)
(** A [sync.Once]: not begun, running, done. *)
Inductive OnceState := OnceNew | OnceRunning | OnceDone.
#[export] Instance OnceState_eq_dec : EqDecision OnceState.
Proof. solve_decision. Defined.

Record memoryStoreState := MkStore {
  ms_gate : lifecycleGate; ms_limits : Limits; ms_token : bool; ms_waiters : Z;
  ms_memory : memory; ms_entries : gmap bytes pointer; ms_expiries : list pointer;
  ms_lastNow : Time; ms_closeOnce : OnceState; ms_clearCount : Z }.

Definition with_ms_gate (s : memoryStoreState) (g : lifecycleGate) : memoryStoreState :=
  MkStore g (ms_limits s) (ms_token s) (ms_waiters s) (ms_memory s) (ms_entries s) (ms_expiries s)
    (ms_lastNow s) (ms_closeOnce s) (ms_clearCount s).
Definition with_ms_token (s : memoryStoreState) (t : bool) : memoryStoreState :=
  MkStore (ms_gate s) (ms_limits s) t (ms_waiters s) (ms_memory s) (ms_entries s) (ms_expiries s)
    (ms_lastNow s) (ms_closeOnce s) (ms_clearCount s).
Definition with_ms_heap (s : memoryStoreState) (h : expiryHeap) : memoryStoreState :=
  MkStore (ms_gate s) (ms_limits s) (ms_token s) (ms_waiters s) h.1 (ms_entries s) h.2
    (ms_lastNow s) (ms_closeOnce s) (ms_clearCount s).
Definition with_ms_entries (s : memoryStoreState) (m : gmap bytes pointer) : memoryStoreState :=
  MkStore (ms_gate s) (ms_limits s) (ms_token s) (ms_waiters s) (ms_memory s) m (ms_expiries s)
    (ms_lastNow s) (ms_closeOnce s) (ms_clearCount s).
Definition with_ms_lastNow (s : memoryStoreState) (t : Time) : memoryStoreState :=
  MkStore (ms_gate s) (ms_limits s) (ms_token s) (ms_waiters s) (ms_memory s) (ms_entries s) (ms_expiries s)
    t (ms_closeOnce s) (ms_clearCount s).
Definition ms_heap (s : memoryStoreState) : expiryHeap := (ms_memory s, ms_expiries s).

(** The clock is nil or a function; [hasClock] tells. *)
Definition NewMemoryStore (limits : Limits) (hasClock : bool) : outcome ErrorCode memoryStoreState :=
  check require hasClock ErrorCodeMisconfigured ;;
  let* limits := ResolveLimits limits in
  Ret (MkStore (newLifecycleGate StoreReady) limits true 0 ∅ ∅ [] zeroTime OnceNew 0).

(** ** Critical sections: operations on the state *)
Definition SM (A : Type) : Type := memoryStoreState -> outcome ErrorCode A * memoryStoreState.
Definition sret {A} (a : A) : SM A := fun s => (Ret a, s).
Definition sfail {A} (e : ErrorCode) : SM A := fun s => (Fail e, s).
Definition sbind {A B} (m : SM A) (k : A -> SM B) : SM B := fun s =>
  match m s with
  | (Ret a, s) => k a s
  | (Fail e, s) => (Fail e, s)
  | (Crash, s) => (Crash, s)
  end.
Definition slift {A} (m : outcome ErrorCode A) : SM A := fun s => (m, s).
Definition sget : SM memoryStoreState := fun s => (Ret s, s).
Definition sput (s : memoryStoreState) : SM unit := fun _ => (Ret tt, s).
Definition smodify (f : memoryStoreState -> memoryStoreState) : SM unit := fun s => (Ret tt, f s).
Notation "'let%' x ':=' c 'in' k" := (sbind c (fun x => k))
  (at level 10, x pattern, c at level 100, k at level 200,
   format "'[v' 'let%'  x  ':='  c  'in' '/' k ']'") : go_scope.
Notation "'check%' c ';;' k" := (sbind c (fun _ : unit => k))
  (at level 10, c at level 99, k at level 200) : go_scope.

Definition degradeGate : SM unit := smodify (fun s => with_ms_gate s (degrade (ms_gate s))).

(** The loop of [pruneExpired]; every iteration pops the heap. *)
Fixpoint pruneLoop (fuel : nat) (now : Time) (pruned : Z) : SM Z := fun s =>
  match fuel with
  | O => (Crash, s)
  | S fuel =>
      if (pruned <? PruneBudget (ms_limits s)) && (0 <? len (ms_expiries s)) then
        match p ← ms_expiries s !! 0%nat; ms_memory s !! p with
        | None => (Crash, s)
        | Some entry =>
            if After (me_expiry entry) now then (Ret pruned, s)
            else
              match heap_Pop (ms_heap s) with
              | None => (Crash, s)
              | Some (p, h) =>
                  match h.1 !! p with
                  | None => (Crash, s)
                  | Some removed =>
                      let s := with_ms_heap s h in
                      pruneLoop fuel now (pruned + 1)
                        (with_ms_entries s (delete (me_key removed) (ms_entries s)))
                  end
              end
        end
      else (Ret pruned, s)
  end.
Definition pruneExpired (now : Time) : SM Z := fun s => pruneLoop (S (length (ms_expiries s))) now 0 s.

(** [liveEntry]: the pointer of the live record. *)
Definition liveEntry (storage : bytes) (now : Time) (kind : entryKind) : SM (option pointer) :=
  let% pruned := pruneExpired now in
  let% s := sget in
  match ms_entries s !! storage with
  | None => sret None
  | Some p =>
      match ms_memory s !! p with
      | None => slift Crash
      | Some existing =>
          if negb (After (me_expiry existing) now) then
            if PruneBudget (ms_limits s) <=? pruned then sfail ErrorCodeLimitExceeded
            else sfail ErrorCodeInternalInvariant
          else if decide (me_kind existing = kind) then sret (Some p)
          else sfail ErrorCodeInconsistent
      end
  end.

(** [insertEntry]: a new object, in the map and in the heap. *)
Definition insertEntry (storage : bytes) (expiry : Time) (kind : entryKind) : SM pointer :=
  let% s := sget in
  if MaxEntries (ms_limits s) <=? Z.of_nat (size (ms_entries s)) then sfail ErrorCodeLimitExceeded
  else
    let p := fresh (dom (ms_memory s)) in
    let entry := MkEntry storage expiry (-1) kind PropagationStateUnset zeroTime in
    let s := with_ms_entries s (<[storage := p]> (ms_entries s)) in
    let s := with_ms_heap s (heap_Push p (<[p := entry]> (ms_memory s), ms_expiries s)) in
    check% sput s ;; sret p.

Definition rememberStorageKey (storage : bytes) (now expiry : Time) : SM Check :=
  let% existing := liveEntry storage now entryFirstSeen in
  match existing with
  | Some _ => sret CheckReplayed
  | None => let% _ := insertEntry storage expiry entryFirstSeen in sret CheckFirstSeen
  end.

(** Assignments through a record's pointer. *)
Definition set_propagation (state : PropagationState) (lease : Time) (e : memoryEntry) : memoryEntry :=
  MkEntry (me_key e) (me_expiry e) (me_index e) (me_kind e) state lease.
Definition set_lease_expiry (lease expiry : Time) (e : memoryEntry) : memoryEntry :=
  MkEntry (me_key e) expiry (me_index e) (me_kind e) (me_propagation e) lease.
Definition update_entry (p : pointer) (f : memoryEntry -> memoryEntry) : SM unit :=
  smodify (fun s => with_ms_heap s (alter f p (ms_memory s), ms_expiries s)).
Definition fixEntry (p : pointer) : SM unit :=
  let% s := sget in
  match ms_memory s !! p with
  | None => slift Crash
  | Some e =>
      if me_index e <? 0 then sret tt
      else sput (with_ms_heap s (heap_Fix (ms_heap s) (Z.to_nat (me_index e))))
  end.

Definition reservePropagationKey (storage : bytes) (now expiry leaseExpiry : Time)
    : SM PropagationReservation :=
  let% existing := liveEntry storage now entryPropagation in
  match existing with
  | None =>
      let% p := insertEntry storage expiry entryPropagation in
      check% update_entry p (set_propagation PropagationStatePending leaseExpiry) ;;
      sret PropagationReserved
  | Some p =>
      let% s := sget in
      match ms_memory s !! p with
      | None => slift Crash
      | Some e =>
          if decide (me_propagation e = PropagationStateCommitted) then sret PropagationAlreadyCommitted
          else if After (me_lease e) now then sret PropagationPending
          else
            check% update_entry p (set_lease_expiry leaseExpiry expiry) ;;
            check% fixEntry p ;;
            sret PropagationReserved
      end
  end.

Definition commitPropagationKey (storage : bytes) (now : Time) : SM PropagationCommit :=
  let% existing := liveEntry storage now entryPropagation in
  match existing with
  | None => sret PropagationCommitUnresolved
  | Some p =>
      check% update_entry p (set_propagation PropagationStateCommitted zeroTime) ;;
      sret PropagationCommitted
  end.

(** ** The calls *)
(** What the environment answers during a call: the context at its three
    checks, the wait for the token, and the clock ([None] is a panic). *)
Record Environment := MkEnv {
  env_ctx : ContextState; env_wait : Wakeup; env_ctxAfterToken : ContextState;
  env_clock : option Time; env_ctxAfterClock : ContextState }.

Definition validateKeyRequest (ctx : ContextState) (key : Key) : SM bytes := fun s =>
  (check PreflightContext ctx ;;
   check match gate_State (ms_gate s) with
         | StoreClosing | StoreClosed => Fail ErrorCodeClosed
         | StoreReady | StoreDegraded => Ret tt
         | StoreUnset | StoreDisabled => Fail ErrorCodeInternalInvariant
         end ;;
   match key with
   | Some storage => check require (validStorageKey key) ErrorCodeInvalidRequest ;; Ret storage
   | None => Fail ErrorCodeInvalidRequest
   end, s).
Definition validateCheckRequest (ctx : ContextState) (key : Key) (retention : Retention) : SM bytes :=
  let% storage := validateKeyRequest ctx key in
  check% slift (require (Retention_Valid retention) ErrorCodeInvalidRequest) ;;
  sret storage.

Definition admitGate : SM unit := fun s =>
  let '(r, g) := gate_admit (ms_gate s) StoreReady in (r, with_ms_gate s g).
Definition finishGate : SM unit := fun s =>
  match finish (ms_gate s) with
  | Ret g => (Ret tt, with_ms_gate s g)
  | Fail e => (Fail e, s)
  | Crash => (Crash, s)
  end.

(** Taking a free token, joining and leaving the queue of waiters. *)
Definition tryToken : SM bool := fun s =>
  if ms_token s then (Ret true, with_ms_token s false) else (Ret false, s).
Definition with_ms_waiters (s : memoryStoreState) (w : Z) : memoryStoreState :=
  MkStore (ms_gate s) (ms_limits s) (ms_token s) w (ms_memory s) (ms_entries s) (ms_expiries s)
    (ms_lastNow s) (ms_closeOnce s) (ms_clearCount s).
Definition joinWaiters : SM unit := fun s =>
  if MaxWaiters (ms_limits s) <=? ms_waiters s then (Fail ErrorCodeLimitExceeded, s)
  else (Ret tt, with_ms_waiters s (ms_waiters s + 1)).
Definition leaveWaiters : SM unit := smodify (fun s => with_ms_waiters s (ms_waiters s - 1)).
(** A deferred call: it runs whatever the outcome. *)
Definition deferred {A} (m : SM A) (f : SM unit) : SM A := fun s =>
  let '(r, s) := m s in
  match f s with
  | (Ret _, s) => (r, s)
  | (_, s) => (Crash, s)
  end.
(** [ChannelReady]: another call released the token meanwhile. *)
Definition acquireToken (wait : Wakeup) : SM unit :=
  let% taken := tryToken in
  if taken then sret tt
  else
    check% joinWaiters ;;
    deferred
      match wait with
      | ChannelReady => sret tt
      | ContextDone ctx =>
          check% slift (PreflightContext ctx) ;; sfail ErrorCodeInternalInvariant
      end leaveWaiters.
Definition releaseToken : SM unit := smodify (fun s => with_ms_token s true).

Definition recovering {A} (m : SM A) : SM A := fun s => let '(r, s) := m s in (recovered r, s).

(** The shape of the three operations: validation, admission, token, section. *)
Definition guarded {X A} (wait : Wakeup) (validate : SM X) (section : X -> SM A) : SM A :=
  recovering (
    let% x := validate in
    check% admitGate ;;
    deferred (
      check% acquireToken wait ;;
      deferred (section x) releaseToken) finishGate).

Definition readClock (clock : option Time) : outcome ErrorCode Time :=
  match clock with Some now => Ret now | None => Fail ErrorCodeInternalInvariant end.
(** [captureOperationNow], with its two halves: the state of the gate is read
    first, and another call may begin to close it before the clock is read. *)
Definition recheckAdmission (env : Environment) : SM unit :=
  check% slift (PreflightContext (env_ctxAfterToken env)) ;;
  let% s := sget in
  match gate_State (ms_gate s) with
  | StoreReady => sret tt
  | StoreClosing | StoreClosed => sfail ErrorCodeClosed
  | _ => sfail ErrorCodeInternalInvariant
  end.
Definition readOperationNow (env : Environment) : SM Time :=
  let% s := sget in
  match readClock (env_clock env) with
  | Ret now =>
      if IsZero now || (negb (IsZero (ms_lastNow s)) && Before now (ms_lastNow s)) then
        check% degradeGate ;; sfail ErrorCodeInternalInvariant
      else sret now
  | _ => check% degradeGate ;; sfail ErrorCodeInternalInvariant
  end.
Definition captureOperationNow (env : Environment) : SM Time :=
  check% recheckAdmission env ;; readOperationNow env.
(** The rest of [captureOperationTime] after [captureOperationNow]. *)
Definition captureExpiry (env : Environment) (retention : Retention) (now : Time) : SM (Time * Time) :=
  match AddTo retention now with
  | Ret expiry =>
      check% slift (PreflightContext (env_ctxAfterClock env)) ;; sret (now, expiry)
  | _ => check% degradeGate ;; sfail ErrorCodeInternalInvariant
  end.
Definition captureOperationTime (env : Environment) (retention : Retention) : SM (Time * Time) :=
  let% now := captureOperationNow env in captureExpiry env retention now.
Definition setLastNow (now : Time) : SM unit := smodify (fun s => with_ms_lastNow s now).

(** The critical sections, after the times are known. *)
Definition checkMutation (storage : bytes) (times : Time * Time) : SM Check :=
  check% setLastNow times.1 ;; rememberStorageKey storage times.1 times.2.
Definition reserveMutation (lease : Lease) (storage : bytes) (times : Time * Time) : SM PropagationReservation :=
  let now := times.1 in
  let leaseExpiry := Add now (Lease_Duration lease) in
  if negb (After leaseExpiry now) then
    check% degradeGate ;; sfail ErrorCodeInternalInvariant
  else
    check% setLastNow now ;;
    reservePropagationKey storage now times.2 leaseExpiry.
Definition commitMutation (storage : bytes) (now : Time) : SM PropagationCommit :=
  check% setLastNow now ;; commitPropagationKey storage now.

Definition checkSection (env : Environment) (retention : Retention) (storage : bytes) : SM Check :=
  let% times := captureOperationTime env retention in checkMutation storage times.
Definition reserveSection (env : Environment) (retention : Retention) (lease : Lease) (storage : bytes)
    : SM PropagationReservation :=
  let% times := captureOperationTime env retention in reserveMutation lease storage times.
Definition commitSection (env : Environment) (storage : bytes) : SM PropagationCommit :=
  let% now := captureOperationNow env in
  check% slift (PreflightContext (env_ctxAfterClock env)) ;;
  commitMutation storage now.

Definition CheckAndRemember (env : Environment) (key : Key) (retention : Retention) : SM Check :=
  guarded (env_wait env) (validateCheckRequest (env_ctx env) key retention) (checkSection env retention).
Definition ReservePropagation (env : Environment) (key : Key) (retention : Retention) (lease : Lease)
    : SM PropagationReservation :=
  guarded (env_wait env)
    (let% storage := validateCheckRequest (env_ctx env) key retention in
     check% slift (require (Lease_Valid lease) ErrorCodeInvalidRequest) ;;
     sret storage)
    (reserveSection env retention lease).
Definition CommitPropagation (env : Environment) (key : Key) : SM PropagationCommit :=
  guarded (env_wait env) (validateKeyRequest (env_ctx env) key) (commitSection env).

(** [Close]: the wait for the drain, then the clearing under the token, once.
    A receive from an empty channel that nobody fills blocks for ever. *)
Definition liftGate (f : lifecycleGate -> outcome ErrorCode lifecycleGate) : SM unit := fun s =>
  match f (ms_gate s) with
  | Ret g => (Ret tt, with_ms_gate s g)
  | Fail e => (Fail e, s)
  | Crash => (Crash, s)
  end.
Definition set_once (o : OnceState) (s : memoryStoreState) : memoryStoreState :=
  MkStore (ms_gate s) (ms_limits s) (ms_token s) (ms_waiters s) (ms_memory s) (ms_entries s) (ms_expiries s)
    (ms_lastNow s) o (ms_clearCount s).
Definition receiveToken : SM unit :=
  let% taken := tryToken in if taken then sret tt else slift Crash.
Definition clearStore : SM unit := smodify (fun s =>
  MkStore (ms_gate s) (ms_limits s) (ms_token s) (ms_waiters s) (ms_memory s) ∅ [] zeroTime
    (ms_closeOnce s) (ms_clearCount s + 1)).
Definition closeOnceDo : SM unit :=
  let% s := sget in
  match ms_closeOnce s with
  | OnceDone => sret tt
  | OnceRunning => slift Crash
  | OnceNew =>
      check% smodify (set_once OnceRunning) ;;
      check% receiveToken ;;
      check% clearStore ;;
      check% releaseToken ;;
      smodify (set_once OnceDone)
  end.
Definition Close (ctx : ContextState) (wait : Wakeup) : SM unit := recovering (
  check% slift (PreflightContext ctx) ;;
  check% liftGate beginClose ;;
  check% slift (waitForDrain wait) ;;
  check% closeOnceDo ;;
  liftGate publishClosed).

(** ** disabled.go: the provider that stores nothing *)
Definition disabledAdmission (ctx : ContextState) (g : lifecycleGate) : outcome ErrorCode unit :=
  check PreflightContext ctx ;;
  match gate_State g with
  | StoreDisabled => Ret tt
  | StoreClosing | StoreClosed => Fail ErrorCodeClosed
  | _ => Fail ErrorCodeInternalInvariant
  end.
Definition NewDisabledStore : lifecycleGate := newLifecycleGate StoreDisabled.
Definition disabled_CheckAndRemember (ctx : ContextState) (g : lifecycleGate) : outcome ErrorCode Check :=
  check disabledAdmission ctx g ;; Ret CheckDisabled.
Definition disabled_ReservePropagation (ctx : ContextState) (g : lifecycleGate)
    : outcome ErrorCode PropagationReservation :=
  check disabledAdmission ctx g ;; Ret PropagationReservationDisabled.
Definition disabled_CommitPropagation (ctx : ContextState) (g : lifecycleGate)
    : outcome ErrorCode PropagationCommit :=
  check disabledAdmission ctx g ;; Ret PropagationCommitDisabled.
Definition disabled_Close (ctx : ContextState) (wait : Wakeup) (g : lifecycleGate)
    : outcome ErrorCode lifecycleGate :=
  recovered (
    check PreflightContext ctx ;;
    let* g := beginClose g in
    check waitForDrain wait ;;
    publishClosed g).
