(* ===== verification/ReplayMemorySpec.v ===== *)
(** * Package internal/replay: correctness of the memory store

    The invariant of the store, its contents as a map from keys to records, the
    operations on such maps, and the refinement of the former by the latter. *)

From stdpp Require Import gmap functions.
From S2P Require Import Prelude GoBytes GoTime GoHeap ReplayTypes ReplayGate ReplayKey ReplayMemory.
#[local] Open Scope Z_scope.

(** ** The order of expiry *)
Lemma entry_less_irrefl a : entry_less a a = false.
Proof. unfold entry_less. rewrite (proj2 (Equal_spec _ _) eq_refl). apply bytes_ltb_irrefl. Qed.
Lemma entry_less_cases a b :
  entry_less a b = (if decide (me_expiry a = me_expiry b) then bytes_ltb (me_key a) (me_key b)
                    else After (me_expiry b) (me_expiry a)).
Proof.
  unfold entry_less, Before. destruct (Equal _ _) eqn:E.
  - apply Equal_spec in E. by rewrite decide_True.
  - rewrite decide_False; [done | ]. intros H%Equal_spec. congruence.
Qed.
Lemma entry_less_trans a b c : entry_less a b = true -> entry_less b c = true -> entry_less a c = true.
Proof.
  rewrite !entry_less_cases. intros H1 H2. revert H1 H2.
  destruct (decide (me_expiry a = me_expiry b)) as [E1|E1], (decide (me_expiry b = me_expiry c)) as [E2|E2].
  - rewrite decide_True by congruence. apply bytes_ltb_trans.
  - rewrite decide_False by congruence. by rewrite E1.
  - rewrite decide_False by congruence. by rewrite E2.
  - destruct (decide (me_expiry a = me_expiry c)) as [E3|E3]; intros H1 H2; [exfalso | by apply (After_trans _ (me_expiry b))].
    pose proof (After_trans _ _ _ H2 H1) as H3. rewrite E3 in H3. unfold After in H3. lia.
Qed.
Lemma entry_less_total a b :
  entry_less a b = false -> entry_less b a = false -> me_expiry a = me_expiry b /\ me_key a = me_key b.
Proof.
  rewrite !entry_less_cases. destruct (time_cmp (me_expiry a) (me_expiry b)) as [(H1 & H2 & _) | [H | (H1 & H2 & _)]].
  - rewrite !decide_False by congruence. congruence.
  - rewrite !decide_True by congruence. intros. split; [done | by apply bytes_ltb_total].
  - rewrite !decide_False by congruence. congruence.
Qed.
Lemma entry_less_le a b : entry_less a b = true -> entry_less b a = false.
Proof.
  intros H. destruct (entry_less b a) eqn:E; [ | done].
  by rewrite <- (entry_less_trans _ _ _ H E), entry_less_irrefl.
Qed.
Lemma entry_le_trans a b c : entry_less b a = false -> entry_less c b = false -> entry_less c a = false.
Proof.
  intros H1 H2. destruct (entry_less c a) eqn:E; [ | done].
  destruct (entry_less a b) eqn:Eab.
  - by rewrite (entry_less_trans c a b) in H2.
  - destruct (entry_less_total a b Eab H1) as [E1 E2]. revert H2 E. rewrite !entry_less_cases, E1, E2. congruence.
Qed.
(** The order reads only the expiry and the key. *)
Lemma entry_less_ext a a' b b' :
  me_expiry a' = me_expiry a -> me_key a' = me_key a -> me_expiry b' = me_expiry b -> me_key b' = me_key b ->
  entry_less a' b' = entry_less a b.
Proof. intros E1 E2 E3 E4. by rewrite !entry_less_cases, E1, E2, E3, E4. Qed.

(** ** The heap of pointers
    [v] gives the record of every pointer up to its index. *)
Section heap_relation.
Context (v : pointer -> memoryEntry).
Definition pointer_less (p q : pointer) : bool := entry_less (v p) (v q).
Definition placed (m : memory) (l : list pointer) : Prop :=
  forall i p, l !! i = Some p -> m !! p = Some (set_index (Z.of_nat i) (v p)).
Definition heap_rel (m0 : memory) (h : expiryHeap) (l : list pointer) : Prop :=
  h.2 = l /\ NoDup l /\ placed h.1 l /\ forall p, p ∉ l -> h.1 !! p = m0 !! p.

Lemma pointer_le_trans p q r : le pointer_less p q -> le pointer_less q r -> le pointer_less p r.
Proof. apply entry_le_trans. Qed.
Lemma pointer_less_le p q : pointer_less p q = true -> le pointer_less p q.
Proof. apply entry_less_le. Qed.
Lemma heap_rel_len m0 h l : heap_rel m0 h l -> hLen h = length l.
Proof. by intros [<- _]. Qed.
Lemma heap_rel_less m0 h l i j :
  heap_rel m0 h l -> (i < length l)%nat -> (j < length l)%nat -> hLess h i j = less_at pointer_less l i j.
Proof.
  intros (E & _ & Hp & _) [p Hi]%lookup_lt_is_Some_2 [q Hj]%lookup_lt_is_Some_2.
  cbn [hLess expiryHeap_interface]. unfold expiry_less, less_at. rewrite E, Hi, Hj.
  by rewrite (Hp _ _ Hi), (Hp _ _ Hj).
Qed.
Lemma heap_rel_swap m0 h l i j :
  heap_rel m0 h l -> (i < length l)%nat -> (j < length l)%nat -> heap_rel m0 (hSwap h i j) (swap_at l i j).
Proof.
  destruct h as [m ps]. intros (E & Hnd & Hp & Hm) [p Hi]%lookup_lt_is_Some_2 [q Hj]%lookup_lt_is_Some_2. cbn [fst snd] in *. subst ps.
  cbn [hSwap expiryHeap_interface]. unfold expiry_swap. cbn [fst snd]. rewrite Hi, Hj.
  assert (NoDup (swap_at l i j)) as Hnd' by (by rewrite swap_at_perm).
  split; [cbn; unfold swap_at; by rewrite Hi, Hj | ]. split; [done | ]. split; cbn [fst].
  - intros k r. rewrite (swap_at_lookup _ _ _ _ _ _ Hi Hj).
    destruct (decide (k = i)) as [->|Hki].
    + intros [= <-]. destruct (decide (p = q)) as [->|Hpq].
      * pose proof (NoDup_lookup _ _ _ _ Hnd Hi Hj) as ->. by rewrite !lookup_alter_eq, (Hp _ _ Hj).
      * rewrite lookup_alter_ne, lookup_alter_eq by done. by rewrite (Hp _ _ Hj).
    + destruct (decide (k = j)) as [->|Hkj].
      * intros [= <-]. rewrite lookup_alter_eq. assert (p <> q) as Hpq by (intros ->; by pose proof (NoDup_lookup _ _ _ _ Hnd Hi Hj)).
        rewrite lookup_alter_ne by done. by rewrite (Hp _ _ Hi).
      * intros Hr. assert (p <> r) by (intros ->; apply Hki; exact (NoDup_lookup _ _ _ _ Hnd Hr Hi)).
        assert (q <> r) by (intros ->; apply Hkj; exact (NoDup_lookup _ _ _ _ Hnd Hr Hj)).
        rewrite !lookup_alter_ne by done. by apply Hp.
  - intros r Hr. assert (r ∉ l) as Hr' by (by rewrite swap_at_perm in Hr).
    rewrite !lookup_alter_ne; [by apply Hm | | ]; intros ->; apply Hr'; by eapply list_elem_of_lookup_2.
Qed.
#[local] Existing Instance list_heap.

Lemma heap_rel_pushed m0 h l : heap_rel m0 h l -> l <> [] -> heap_rel m0 (heap_pushed h) (heap_pushed (H := list_heap pointer_less) l).
Proof. apply heap_pushed_sim; eauto using heap_rel_len, heap_rel_less, heap_rel_swap. Qed.
Lemma heap_rel_to_pop m0 h l : heap_rel m0 h l -> l <> [] -> heap_rel m0 (heap_to_pop h) (heap_to_pop (H := list_heap pointer_less) l).
Proof. apply heap_to_pop_sim; eauto using heap_rel_len, heap_rel_less, heap_rel_swap. Qed.
Lemma heap_rel_Fix m0 h l i : heap_rel m0 h l -> (i < length l)%nat -> heap_rel m0 (heap_Fix h i) (heap_Fix (H := list_heap pointer_less) l i).
Proof. apply heap_Fix_sim; eauto using heap_rel_len, heap_rel_less, heap_rel_swap. Qed.
End heap_relation.

Lemma heap_ext {A} (less less' : A -> A -> bool) l :
  (forall a b, a ∈ l -> b ∈ l -> less' a b = less a b) -> heap less l -> heap less' l.
Proof.
  intros Hl Ho k Hk a b Ha Hb. unfold le. rewrite Hl by (by eapply list_elem_of_lookup_2). by apply (Ho k Hk).
Qed.

(** ** The store's contents *)
Record record := MkRecord {
  r_expiry : Time; r_kind : entryKind; r_propagation : PropagationState; r_lease : Time }.
#[export] Instance record_eq_dec : EqDecision record.
Proof. solve_decision. Defined.
Abbreviation records := (gmap bytes record).
Definition record_of (e : memoryEntry) : record :=
  MkRecord (me_expiry e) (me_kind e) (me_propagation e) (me_lease e).
Definition entry_of (x : bytes * record) : memoryEntry :=
  MkEntry x.1 (r_expiry x.2) 0 (r_kind x.2) (r_propagation x.2) (r_lease x.2).
Definition contents (s : memoryStoreState) : records :=
  omap (fun p => record_of <$> ms_memory s !! p) (ms_entries s).

(** The invariant: the map and the heap hold the same records, each indexed by
    its own key and by its own place in the heap; [v] is the records without
    their indexes. *)
Record store_rel (v : pointer -> memoryEntry) (s : memoryStoreState) : Prop := MkStoreRel {
  sr_limits : limits_ok (ms_limits s);
  sr_nodup : NoDup (ms_expiries s);
  sr_placed : placed v (ms_memory s) (ms_expiries s);
  sr_heap : heap (pointer_less v) (ms_expiries s);
  sr_entries : forall k p, ms_entries s !! k = Some p <-> p ∈ ms_expiries s /\ me_key (v p) = k;
  sr_size : len (ms_expiries s) <= MaxEntries (ms_limits s) }.
Definition store_ok (s : memoryStoreState) : Prop := exists v, store_rel v s.

(** A critical section changes only the records, the map and the heap. *)
Definition data_only (s s' : memoryStoreState) : Prop :=
  s' = with_ms_entries (with_ms_heap s (ms_heap s')) (ms_entries s').
#[export] Instance data_only_preorder : PreOrder data_only.
Proof.
  split; [by intros [] | ]. intros [] [] []. unfold data_only, ms_heap, with_ms_heap, with_ms_entries. cbn. congruence.
Qed.
Lemma data_only_limits s s' : data_only s s' -> ms_limits s' = ms_limits s.
Proof. by intros ->. Qed.

Section store_rel.
Context (v : pointer -> memoryEntry) (s : memoryStoreState) (Hs : store_rel v s).

Lemma sr_lookup p : p ∈ ms_expiries s -> exists i, ms_expiries s !! i = Some p /\ ms_memory s !! p = Some (set_index (Z.of_nat i) (v p)).
Proof using Hs. intros [i Hi]%list_elem_of_lookup. exists i. split; [done | by apply (sr_placed _ _ Hs)]. Qed.
Lemma contents_entries k : contents s !! k = record_of ∘ v <$> ms_entries s !! k.
Proof using Hs.
  unfold contents. rewrite lookup_omap. destruct (ms_entries s !! k) as [p|] eqn:E; [ | done]. cbn.
  apply (sr_entries _ _ Hs) in E as [(i & _ & Hp)%sr_lookup _]. by rewrite Hp.
Qed.
Lemma contents_lookup k r :
  contents s !! k = Some r <-> exists p, p ∈ ms_expiries s /\ me_key (v p) = k /\ record_of (v p) = r.
Proof using Hs.
  rewrite contents_entries, fmap_Some. split.
  - intros (p & [Hp Hk]%(sr_entries _ _ Hs) & ->). by exists p.
  - intros (p & Hp & Hk & <-). exists p. split; [by apply (sr_entries _ _ Hs) | done].
Qed.
Lemma entries_size : size (ms_entries s) = length (ms_expiries s).
Proof using Hs.
  rewrite <- length_map_to_list, <- (length_fmap snd). apply Permutation_length, NoDup_Permutation.
  - apply NoDup_fmap_2_strong; [ | apply NoDup_map_to_list].
    intros [k p] [k' p'] [_ Hk]%elem_of_map_to_list%(sr_entries _ _ Hs) [_ Hk']%elem_of_map_to_list%(sr_entries _ _ Hs).
    cbn. intros ->. by rewrite <- Hk, <- Hk'.
  - apply (sr_nodup _ _ Hs).
  - intros p. rewrite list_elem_of_fmap. split.
    + intros ([k q] & -> & [Hq _]%elem_of_map_to_list%(sr_entries _ _ Hs)). done.
    + intros Hp. exists (me_key (v p), p). split; [done | ]. by apply elem_of_map_to_list, (sr_entries _ _ Hs).
Qed.
Lemma contents_size : size (contents s) = length (ms_expiries s).
Proof using Hs.
  rewrite <- entries_size, <- !size_dom. f_equal. apply set_eq. intros k.
  rewrite !elem_of_dom, contents_entries. by rewrite fmap_is_Some.
Qed.
End store_rel.

(** ** The specification: operations on a map of records *)
Definition record_less (x y : bytes * record) : bool := entry_less (entry_of x) (entry_of y).
Definition earlier (x : bytes * record) (acc : option (bytes * record)) : option (bytes * record) :=
  match acc with
  | Some y => if record_less y x then Some y else Some x
  | None => Some x
  end.
(** The record that expires first, by expiry and then by key. *)
Definition earliest (m : records) : option (bytes * record) := foldr earlier None (map_to_list m).

Fixpoint prune (budget : nat) (now : Time) (m : records) : records * nat :=
  match budget with
  | O => (m, O)
  | S budget =>
      match earliest m with
      | Some (k, r) =>
          if After (r_expiry r) now then (m, O)
          else let '(m', n) := prune budget now (delete k m) in (m', S n)
      | None => (m, O)
      end
  end.
Definition live_record (L : Limits) (now : Time) (kind : entryKind) (storage : bytes) (m : records)
    : outcome ErrorCode (option record) * records :=
  let m := (prune (Z.to_nat (PruneBudget L)) now m).1 in
  (match m !! storage with
   | None => Ret None
   | Some r =>
       if negb (After (r_expiry r) now) then Fail ErrorCodeLimitExceeded
       else if decide (r_kind r = kind) then Ret (Some r) else Fail ErrorCodeInconsistent
   end, m).
Definition add_record (L : Limits) (storage : bytes) (r : record) (m : records) : outcome ErrorCode unit * records :=
  if MaxEntries L <=? Z.of_nat (size m) then (Fail ErrorCodeLimitExceeded, m) else (Ret tt, <[storage := r]> m).

Definition remember (L : Limits) (storage : bytes) (now expiry : Time) (m : records)
    : outcome ErrorCode Check * records :=
  match live_record L now entryFirstSeen storage m with
  | (Ret (Some _), m) => (Ret CheckReplayed, m)
  | (Ret None, m) =>
      let '(added, m) := add_record L storage (MkRecord expiry entryFirstSeen PropagationStateUnset zeroTime) m in
      (check added ;; Ret CheckFirstSeen, m)
  | (Fail e, m) => (Fail e, m)
  | (Crash, m) => (Crash, m)
  end.
Definition reserve (L : Limits) (storage : bytes) (now expiry leaseExpiry : Time) (m : records)
    : outcome ErrorCode PropagationReservation * records :=
  let pending := MkRecord expiry entryPropagation PropagationStatePending leaseExpiry in
  match live_record L now entryPropagation storage m with
  | (Ret None, m) =>
      let '(added, m) := add_record L storage pending m in (check added ;; Ret PropagationReserved, m)
  | (Ret (Some r), m) =>
      if decide (r_propagation r = PropagationStateCommitted) then (Ret PropagationAlreadyCommitted, m)
      else if After (r_lease r) now then (Ret PropagationPending, m)
      else (Ret PropagationReserved, <[storage := MkRecord expiry entryPropagation (r_propagation r) leaseExpiry]> m)
  | (Fail e, m) => (Fail e, m)
  | (Crash, m) => (Crash, m)
  end.
Definition commit (L : Limits) (storage : bytes) (now : Time) (m : records)
    : outcome ErrorCode PropagationCommit * records :=
  match live_record L now entryPropagation storage m with
  | (Ret None, m) => (Ret PropagationCommitUnresolved, m)
  | (Ret (Some r), m) =>
      (Ret PropagationCommitted,
       <[storage := MkRecord (r_expiry r) entryPropagation PropagationStateCommitted zeroTime]> m)
  | (Fail e, m) => (Fail e, m)
  | (Crash, m) => (Crash, m)
  end.

(** *** The earliest record *)
Lemma record_less_total x y : record_less x y = false -> record_less y x = false -> x.1 = y.1.
Proof. intros H1 H2. by destruct (entry_less_total _ _ H1 H2). Qed.
Lemma foldr_earlier l :
  match foldr earlier None l with
  | Some x => x ∈ l /\ forall y, y ∈ l -> record_less y x = false
  | None => l = []
  end.
Proof.
  induction l as [|x l IH]; cbn; [done | ]. unfold earlier at 1. destruct (foldr earlier None l) as [z|].
  - destruct IH as [Hz Hmin]. destruct (record_less z x) eqn:E.
    + split; [by right | ]. intros y [->|Hy]%elem_of_cons; [by apply entry_less_le | by apply Hmin].
    + split; [by left | ]. intros y [->|Hy]%elem_of_cons; [apply entry_less_irrefl | ].
      apply (entry_le_trans (entry_of x) (entry_of z)); [done | by apply Hmin].
  - subst l. split; [by left | ]. intros y ->%list_elem_of_singleton. apply entry_less_irrefl.
Qed.
Lemma earliest_None m : earliest m = None <-> m = ∅.
Proof.
  unfold earliest. pose proof (foldr_earlier (map_to_list m)) as H. split.
  - intros E. rewrite E in H. by apply map_to_list_empty_iff.
  - intros ->. by rewrite map_to_list_empty.
Qed.
Lemma earliest_Some m k r :
  earliest m = Some (k, r) <->
  m !! k = Some r /\ forall k' r', m !! k' = Some r' -> record_less (k', r') (k, r) = false.
Proof.
  unfold earliest. pose proof (foldr_earlier (map_to_list m)) as H. split.
  - intros E. rewrite E in H. destruct H as [H%elem_of_map_to_list Hmin]. split; [done | ].
    intros k' r' H'. by apply Hmin, elem_of_map_to_list.
  - intros [Hk Hmin]. destruct (foldr earlier None (map_to_list m)) as [[k' r']|].
    + destruct H as [H%elem_of_map_to_list Hmin']. specialize (Hmin _ _ H).
      specialize (Hmin' (k, r) ltac:(by apply elem_of_map_to_list)).
      pose proof (record_less_total _ _ Hmin Hmin') as E. cbn in E. subst k'. congruence.
    + apply map_to_list_empty_iff in H. by subst m.
Qed.

(** *** Pruning *)
Lemma prune_subseteq b now m : (prune b now m).1 ⊆ m.
Proof.
  revert m. induction b as [|b IH]; intros m; cbn [prune]; [done | ].
  destruct (earliest m) as [[k r]|]; [ | done]. destruct (After _ _); [done | ].
  specialize (IH (delete k m)). destruct (prune b now (delete k m)) as [m' n]. cbn [fst] in *.
  etrans; [exact IH | apply delete_subseteq].
Qed.
Lemma prune_removed b now m k r :
  m !! k = Some r -> (prune b now m).1 !! k = None -> After (r_expiry r) now = false.
Proof.
  revert m. induction b as [|b IH]; intros m Hm; cbn [prune fst]; [congruence | ].
  destruct (earliest m) as [[k' r']|] eqn:E; cbn [fst]; [ | congruence].
  destruct (After (r_expiry r') now) eqn:Ea; cbn [fst]; [congruence | ].
  specialize (IH (delete k' m)). destruct (prune b now (delete k' m)) as [m' n]. cbn [fst] in *. intros Hk.
  apply earliest_Some in E as [E _]. destruct (decide (k = k')) as [->|Hne]; [congruence | ].
  apply IH; [by rewrite lookup_delete_ne | done].
Qed.
Lemma prune_count b now m :
  ((prune b now m).2 <= b)%nat /\ size (prune b now m).1 = (size m - (prune b now m).2)%nat /\ ((prune b now m).2 <= size m)%nat.
Proof.
  revert m. induction b as [|b IH]; intros m; cbn [prune fst snd]; [lia | ].
  destruct (earliest m) as [[k r]|] eqn:E; cbn [fst snd]; [ | lia].
  destruct (After (r_expiry r) now); cbn [fst snd]; [lia | ].
  specialize (IH (delete k m)). destruct (prune b now (delete k m)) as [m' n]. cbn [fst snd] in *.
  apply earliest_Some in E as [E _]. rewrite (map_size_delete_Some k m) in IH by eauto.
  assert (size m <> 0)%nat by (intros H%map_size_empty_inv; by subst m). lia.
Qed.
Lemma expiry_le k k' r r' : record_less (k', r') (k, r) = false -> After (r_expiry r') (r_expiry r) = true \/ r_expiry r' = r_expiry r.
Proof.
  unfold record_less. rewrite entry_less_cases. cbn. destruct (decide _) as [->|Hne]; [by right | ]. intros E.
  destruct (time_cmp (r_expiry r') (r_expiry r)) as [(H & _) | [H | (H & _)]]; [by left | by right | congruence].
Qed.
(** The whole budget is used unless every remaining record is live. *)
Lemma prune_exhaustive b now m k r :
  ((prune b now m).2 < b)%nat -> (prune b now m).1 !! k = Some r -> After (r_expiry r) now = true.
Proof.
  revert m. induction b as [|b IH]; intros m; cbn [prune fst snd]; [lia | ].
  destruct (earliest m) as [[k' r']|] eqn:E; cbn [fst snd].
  - destruct (After (r_expiry r') now) eqn:Ea; cbn [fst snd].
    + intros _ Hk. apply earliest_Some in E as [_ Hmin]. specialize (Hmin _ _ Hk).
      apply expiry_le in Hmin as [H | ->]; [ | done]. by apply (After_trans _ (r_expiry r')).
    + specialize (IH (delete k' m)). destruct (prune b now (delete k' m)) as [m' n]. cbn [fst snd] in *.
      intros Hn. apply IH. lia.
  - apply earliest_None in E as ->. intros _. by rewrite lookup_empty.
Qed.
(** What is removed expires no later than what remains. *)
Lemma prune_earliest b now m k r k' r' :
  m !! k = Some r -> (prune b now m).1 !! k = None -> (prune b now m).1 !! k' = Some r' ->
  record_less (k', r') (k, r) = false.
Proof.
  revert m. induction b as [|b IH]; intros m Hm; cbn [prune fst]; [congruence | ].
  destruct (earliest m) as [[k0 r0]|] eqn:E; cbn [fst]; [ | congruence].
  destruct (After (r_expiry r0) now) eqn:Ea; cbn [fst]; [congruence | ].
  specialize (IH (delete k0 m)). pose proof (prune_subseteq b now (delete k0 m)) as Hsub.
  destruct (prune b now (delete k0 m)) as [m' n]. cbn [fst] in *. intros Hk Hk'.
  apply earliest_Some in E as [E Hmin]. destruct (decide (k = k0)) as [->|Hne].
  - assert (r = r0) as -> by congruence. apply Hmin.
    pose proof (lookup_weaken _ _ _ _ Hk' Hsub) as H. by apply lookup_delete_Some in H as [_ H].
  - apply IH; [by rewrite lookup_delete_ne | done | done].
Qed.

(** ** Refinement *)
(** The state with other data keeps the invariant. *)
Lemma store_rel_data v s (h : expiryHeap) es :
  limits_ok (ms_limits s) -> NoDup h.2 -> placed v h.1 h.2 -> heap (pointer_less v) h.2 ->
  (forall k p, es !! k = Some p <-> p ∈ h.2 /\ me_key (v p) = k) -> len h.2 <= MaxEntries (ms_limits s) ->
  store_rel v (with_ms_entries (with_ms_heap s h) es).
Proof. by intros; split. Qed.

Lemma heap_rel_start v s : store_rel v s -> heap_rel v (ms_memory s) (ms_heap s) (ms_expiries s).
Proof. intros [_ Hnd Hp _ _ _]. by split_and!. Qed.

#[local] Existing Instance list_heap.
Lemma heap_Pop_spec v s p rest :
  store_rel v s -> ms_expiries s = p :: rest ->
  exists h, heap_Pop (ms_heap s) = Some (p, h) /\ h.2 ≡ₚ rest /\ h.1 !! p = Some (set_index (-1) (v p)) /\
    placed v h.1 h.2 /\ heap (pointer_less v) h.2.
Proof.
  intros Hs E. pose proof (heap_rel_to_pop v _ _ _ (heap_rel_start v s Hs) ltac:(by rewrite E)) as HR.
  destruct (heap_to_pop_spec (pointer_less v) (pointer_le_trans v) (pointer_less_le v) (ms_expiries s) p rest (sr_heap _ _ Hs) E)
    as (l' & El & Ho & Hperm).
  rewrite El in HR. destruct HR as (E2 & Hnd & Hp & _). unfold heap_Pop.
  destruct (heap_to_pop (ms_heap s)) as [m' ps']. cbn [fst snd] in *. subst ps'.
  rewrite last_snoc. cbn [mbind option_bind]. eexists. split; [done | ]. cbn [fst snd].
  rewrite length_app, Nat.add_sub, take_app_length. apply NoDup_app in Hnd as (Hnd' & Hnp & _).
  assert (p ∉ l') as Hpl by (intros H; apply (Hnp _ H); by left).
  split; [done | ]. split; [ | split; [ | done]].
  - rewrite lookup_alter_eq, (Hp (length l') p); [done | by rewrite list_lookup_middle].
  - intros i q Hq. rewrite lookup_alter_ne.
    + apply Hp. rewrite lookup_app_l; [done | by eapply lookup_lt_Some].
    + intros ->. apply Hpl. by eapply list_elem_of_lookup_2.
Qed.

(** The root of the heap is the earliest record. *)
Lemma root_earliest v s p rest :
  store_rel v s -> ms_expiries s = p :: rest -> earliest (contents s) = Some (me_key (v p), record_of (v p)).
Proof.
  intros Hs E. apply earliest_Some. split.
  - apply (contents_lookup v s Hs). exists p. split; [rewrite E; by left | done].
  - intros k r (q & [i Hi]%list_elem_of_lookup & <- & <-)%(contents_lookup v s Hs).
    assert (le (pointer_less v) p q) as H.
    { eapply (heap_min (pointer_less v) (pointer_le_trans v) _ (ms_expiries s) i).
      - apply (sr_heap _ _ Hs).
      - by eapply lookup_lt_Some.
      - intros a. apply entry_less_irrefl.
      - by rewrite E.
      - done. }
    unfold le, pointer_less in H. rewrite <- H. by apply entry_less_ext.
Qed.

(** One iteration of the pruning loop. *)
Lemma popped_rel v s p rest h :
  store_rel v s -> ms_expiries s = p :: rest -> h.2 ≡ₚ rest -> placed v h.1 h.2 -> heap (pointer_less v) h.2 ->
  store_rel v (with_ms_entries (with_ms_heap s h) (delete (me_key (v p)) (ms_entries s))).
Proof.
  intros Hs E Hp Hpl Ho. pose proof (sr_nodup _ _ Hs) as Hnd. rewrite E in Hnd. apply NoDup_cons in Hnd as [Hpr Hnd].
  apply store_rel_data; [apply (sr_limits _ _ Hs) | by rewrite Hp | done | done | | ].
  - intros k q. rewrite lookup_delete_Some, (sr_entries _ _ Hs), E, Hp, elem_of_cons. split.
    + intros (Hk & [-> | Hq] & Hqk); [congruence | done].
    + intros [Hq Hqk]. split; [ | by auto]. intros Hk. apply Hpr.
      assert (ms_entries s !! k = Some q) as E1 by (apply (sr_entries _ _ Hs); rewrite E; split; [by right | done]).
      assert (ms_entries s !! k = Some p) as E2 by (apply (sr_entries _ _ Hs); rewrite E; split; [by left | done]).
      congruence.
  - pose proof (sr_size _ _ Hs) as Hsz. unfold len in *. rewrite E in Hsz. rewrite (Permutation_length Hp). cbn in Hsz |- *. lia.
Qed.
Lemma popped_contents v s p rest h :
  store_rel v s -> ms_expiries s = p :: rest -> h.2 ≡ₚ rest -> placed v h.1 h.2 -> heap (pointer_less v) h.2 ->
  contents (with_ms_entries (with_ms_heap s h) (delete (me_key (v p)) (ms_entries s))) =
  delete (me_key (v p)) (contents s).
Proof.
  intros Hs E Hp Hpl Ho. apply map_eq. intros k.
  rewrite (contents_entries v) by (by eapply popped_rel). cbn [ms_entries with_ms_entries].
  destruct (decide (me_key (v p) = k)) as [<-|Hne]; [by rewrite !lookup_delete_eq | ].
  rewrite !lookup_delete_ne by done. by rewrite (contents_entries v s Hs).
Qed.

Lemma pruneLoop_refines fuel v now pruned budget s :
  store_rel v s -> PruneBudget (ms_limits s) - pruned = Z.of_nat budget -> (length (ms_expiries s) < fuel)%nat ->
  exists s', pruneLoop fuel now pruned s = (Ret (pruned + Z.of_nat (prune budget now (contents s)).2), s') /\
    store_rel v s' /\ contents s' = (prune budget now (contents s)).1 /\ data_only s s'.
Proof.
  revert pruned budget s. induction fuel as [|fuel IH]; intros pruned budget s Hs Hb Hf; [lia | ]. cbn [pruneLoop].
  destruct (Z.ltb_spec pruned (PruneBudget (ms_limits s))) as [Hlt|Hge]; cbn [andb].
  2: { assert (budget = O) as -> by lia. exists s. cbn. rewrite Z.add_0_r. by split_and!. }
  destruct budget as [|budget]; [lia | ]. destruct (ms_expiries s) as [|p rest] eqn:E.
  { assert (earliest (contents s) = None) as Ee.
    { apply earliest_None, map_size_empty_iff. by rewrite (contents_size v s Hs), E. }
    cbn. rewrite Ee. exists s. cbn. rewrite Z.add_0_r. by split_and!. }
  cbn [prune]. rewrite (root_earliest v s p rest Hs E).
  assert (0 <? len (p :: rest) = true) as -> by (unfold len; cbn; lia). cbn [mbind option_bind lookup list_lookup].
  rewrite (sr_placed _ _ Hs 0%nat p) by (by rewrite E). cbn [r_expiry record_of].
  change (me_expiry (set_index _ (v p))) with (me_expiry (v p)).
  destruct (After (me_expiry (v p)) now) eqn:Ea.
  { exists s. cbn. rewrite Z.add_0_r. by split_and!. }
  destruct (heap_Pop_spec v s p rest Hs E) as (h & -> & Hperm & Hhp & Hpl & Ho). rewrite Hhp.
  change (me_key (set_index _ (v p))) with (me_key (v p)).
  destruct (IH (pruned + 1) budget (with_ms_entries (with_ms_heap s h) (delete (me_key (v p)) (ms_entries s))))
    as (s' & Es & Hs' & Hc & Hd).
  - by eapply popped_rel.
  - cbn. lia.
  - cbn. rewrite (Permutation_length Hperm). cbn in Hf. lia.
  - rewrite (popped_contents v s p rest h) in Es, Hc by done.
    destruct (prune budget now (delete (me_key (v p)) (contents s))) as [m' n]. cbn [fst snd] in *.
    exists s'. split; [etrans; [exact Es | f_equal; f_equal; lia] | ]. split_and!; [done | done | ].
    etrans; [ | exact Hd]. by destruct s, h.
Qed.
Lemma pruneExpired_refines v now s :
  store_rel v s ->
  exists s', pruneExpired now s = (Ret (Z.of_nat (prune (Z.to_nat (PruneBudget (ms_limits s))) now (contents s)).2), s') /\
    store_rel v s' /\ contents s' = (prune (Z.to_nat (PruneBudget (ms_limits s))) now (contents s)).1 /\ data_only s s'.
Proof.
  intros Hs. pose proof (sr_limits _ _ Hs) as Hl. unfold limits_ok, limitPairs in Hl.
  destruct (proj1 (list.Forall_forall _ _) Hl (PruneBudget (ms_limits s), PruneBudget HardLimits)) as [Hb _]; [by do 2 right; left | ].
  cbn in Hb. unfold pruneExpired.
  apply (pruneLoop_refines _ v now 0 (Z.to_nat (PruneBudget (ms_limits s))) s Hs); lia.
Qed.

(** [liveEntry] finds the record's pointer. *)
Lemma liveEntry_refines v s storage now kind :
  store_rel v s ->
  exists s', store_rel v s' /\ data_only s s' /\
    contents s' = (live_record (ms_limits s) now kind storage (contents s)).2 /\
    match (live_record (ms_limits s) now kind storage (contents s)).1 with
    | Ret (Some r) =>
        exists p, liveEntry storage now kind s = (Ret (Some p), s') /\ ms_entries s' !! storage = Some p /\
          p ∈ ms_expiries s' /\ me_key (v p) = storage /\ record_of (v p) = r /\ r_kind r = kind
    | Ret None => liveEntry storage now kind s = (Ret None, s') /\ ms_entries s' !! storage = None
    | Fail e => liveEntry storage now kind s = (Fail e, s')
    | Crash => False
    end.
Proof.
  intros Hs. destruct (pruneExpired_refines v now s Hs) as (s' & Ep & Hs' & Hc & Hd).
  exists s'. unfold live_record. cbn [fst snd]. rewrite <- Hc. split; [done | ]. split; [done | ]. split; [done | ].
  unfold liveEntry, sbind, sget. rewrite Ep. cbv beta iota.
  rewrite (contents_entries v s' Hs'). destruct (ms_entries s' !! storage) as [p|] eqn:E; cbn; [ | done].
  pose proof E as [Hp Hk]%(sr_entries _ _ Hs'). destruct (sr_lookup v s' Hs' p Hp) as (i & Hi & Hm). rewrite Hm.
  cbn [me_expiry set_index]. destruct (After (me_expiry (v p)) now) eqn:Ea; cbn [negb].
  - cbn [me_kind set_index]. destruct (decide (me_kind (v p) = kind)); [ | done]. by exists p.
  - rewrite (data_only_limits s s' Hd). assert (PruneBudget (ms_limits s) <=? Z.of_nat (prune (Z.to_nat (PruneBudget (ms_limits s))) now (contents s)).2 = true) as ->; [ | done].
    apply Z.leb_le. destruct (decide ((prune (Z.to_nat (PruneBudget (ms_limits s))) now (contents s)).2 < Z.to_nat (PruneBudget (ms_limits s)))%nat) as [Hlt|]; [exfalso | lia].
    pose proof (prune_exhaustive _ _ _ storage (record_of (v p)) Hlt) as He. rewrite <- Hc in He.
    rewrite (contents_entries v s' Hs'), E in He. specialize (He eq_refl). cbn in He. congruence.
Qed.

Lemma placed_fresh v s : store_rel v s -> fresh (dom (ms_memory s)) ∉ ms_expiries s.
Proof.
  intros Hs (i & _ & Hp)%(sr_lookup v s Hs). apply (is_fresh (dom (ms_memory s))), elem_of_dom. eauto.
Qed.

Lemma insertEntry_refines v s storage expiry kind :
  store_rel v s -> ms_entries s !! storage = None ->
  let r := MkRecord expiry kind PropagationStateUnset zeroTime in
  match (add_record (ms_limits s) storage r (contents s)).1 with
  | Ret _ =>
      exists p s', insertEntry storage expiry kind s = (Ret p, s') /\ data_only s s' /\
        store_rel (<[p := MkEntry storage expiry (-1) kind PropagationStateUnset zeroTime]> v) s' /\
        ms_entries s' !! storage = Some p /\
        contents s' = (add_record (ms_limits s) storage r (contents s)).2
  | Fail e => insertEntry storage expiry kind s = (Fail e, s)
  | Crash => False
  end.
Proof.
  intros Hs Hnone r. unfold add_record, insertEntry, sbind, sget, sfail, sput, sret.
  rewrite (contents_size v s Hs), (entries_size v s Hs).
  destruct (Z.leb_spec (MaxEntries (ms_limits s)) (Z.of_nat (length (ms_expiries s)))) as [Hle|Hlt]; cbn [fst snd]; [done | ].
  set (p := fresh (dom (ms_memory s))). set (e := MkEntry storage expiry (-1) kind PropagationStateUnset zeroTime).
  pose proof (placed_fresh v s Hs) as Hfr. fold p in Hfr. set (v' := <[p:=e]> v).
  assert (forall q, q ∈ ms_expiries s -> v' q = v q) as Hv.
  { intros q Hq. unfold v'. by rewrite fn_lookup_insert_ne by (intros ->; done). }
  assert (v' p = e) as Hvp by (unfold v'; by rewrite fn_lookup_insert).
  assert (heap_rel v' (<[p:=e]> (ms_memory s)) (alter (set_index (len (ms_expiries s))) p (<[p:=e]> (ms_memory s)), ms_expiries s ++ [p])
    (ms_expiries s ++ [p])) as HR.
  { split; [done | ]. split; [ | split].
    - apply NoDup_app. split; [apply (sr_nodup _ _ Hs) | ]. split; [ | apply NoDup_singleton].
      intros q Hq ->%list_elem_of_singleton. done.
    - cbn [fst]. intros i q [Hq | [Hi Hq]]%lookup_app_Some.
      + pose proof (list_elem_of_lookup_2 _ _ _ Hq) as Hin. rewrite Hv by done.
        rewrite lookup_alter_ne, lookup_insert_ne by (intros <-; done). by apply (sr_placed _ _ Hs).
      + apply list_lookup_singleton_Some in Hq as [Hq <-]. rewrite lookup_alter_eq, lookup_insert_eq, Hvp. cbn.
        repeat f_equal. unfold len. lia.
    - intros q Hq. cbn [fst]. rewrite lookup_alter_ne; [done | ]. intros <-. apply Hq, elem_of_app. right. by left. }
  apply (heap_rel_pushed v') in HR; [ | by destruct (ms_expiries s)].
  destruct (heap_pushed_spec (pointer_less v') (pointer_le_trans v') (pointer_less_le v') (ms_expiries s) p) as [Ho Hperm].
  { apply (heap_ext (pointer_less v)); [ | apply (sr_heap _ _ Hs)]. intros a b Ha Hb. unfold pointer_less. by rewrite !Hv. }
  match type of HR with heap_rel _ _ ?x _ => set (h := x) in HR end. destruct HR as (E2 & Hnd & Hp & _).
  rewrite <- E2 in Hnd, Hp, Ho, Hperm.
  exists p, (with_ms_entries (with_ms_heap s h) (<[storage := p]> (ms_entries s))).
  assert (store_rel v' (with_ms_entries (with_ms_heap s h) (<[storage := p]> (ms_entries s)))) as Hs'.
  { apply store_rel_data; cbn [fst snd]; [apply (sr_limits _ _ Hs) | done | done | done | | ].
    - intros k q. rewrite Hperm, elem_of_cons. rewrite lookup_insert_Some, (sr_entries _ _ Hs). split.
      + intros [[<- <-] | (Hk & Hq & Hqk)]; [split; [by left | by rewrite Hvp] | split; [by right | by rewrite Hv]].
      + intros [[-> | Hq] Hqk]; [left; rewrite Hvp in Hqk; done | ]. rewrite Hv in Hqk by done. right. split; [ | done].
        intros ->. assert (ms_entries s !! k = Some q) as E by (by apply (sr_entries _ _ Hs)). congruence.
    - unfold len. rewrite (Permutation_length Hperm). cbn. lia. }
  split; [done | ]. split; [by destruct s | ]. split; [done | ]. split; [apply lookup_insert_eq | ].
  apply map_eq. intros k. rewrite (contents_entries v' _ Hs'). cbn [ms_entries with_ms_entries].
  destruct (decide (storage = k)) as [<-|Hne]; [by rewrite !lookup_insert_eq; cbn; rewrite Hvp | ].
  rewrite !lookup_insert_ne by done. rewrite (contents_entries v s Hs).
  destruct (ms_entries s !! k) as [q|] eqn:E; [ | done]. cbn. apply (sr_entries _ _ Hs) in E as [Hq _]. by rewrite Hv.
Qed.

(** Assignments through a pointer of the map, with or without a repair of the heap. *)
Lemma assigned_rel v s k p e (h : expiryHeap) :
  store_rel v s -> ms_entries s !! k = Some p -> me_key e = k ->
  h.2 ≡ₚ ms_expiries s -> placed (<[p := e]> v) h.1 h.2 -> heap (pointer_less (<[p := e]> v)) h.2 ->
  store_rel (<[p := e]> v) (with_ms_heap s h) /\ contents (with_ms_heap s h) = <[k := record_of e]> (contents s).
Proof.
  intros Hs Hp Hk Hperm Hpl Ho. pose proof (proj1 (sr_entries _ _ Hs _ _) Hp) as [Hpin Hpk].
  assert (store_rel (<[p := e]> v) (with_ms_heap s h)) as Hs'.
  { split; cbn [ms_limits ms_expiries ms_memory ms_entries with_ms_heap]; [apply (sr_limits _ _ Hs) | | done | done | | ].
    - rewrite Hperm. apply (sr_nodup _ _ Hs).
    - intros k' q. rewrite (sr_entries _ _ Hs), Hperm. destruct (decide (p = q)) as [<-|Hne].
      + rewrite fn_lookup_insert. rewrite Hk, Hpk. done.
      + by rewrite fn_lookup_insert_ne.
    - unfold len. rewrite (Permutation_length Hperm). apply (sr_size _ _ Hs). }
  split; [done | ]. apply map_eq. intros k'. rewrite (contents_entries _ _ Hs'). cbn [ms_entries with_ms_heap].
  destruct (decide (k = k')) as [<-|Hne].
  - rewrite Hp, lookup_insert_eq. cbn. by rewrite fn_lookup_insert.
  - rewrite lookup_insert_ne by done. rewrite (contents_entries v s Hs). destruct (ms_entries s !! k') as [q|] eqn:E; [ | done].
    cbn. rewrite fn_lookup_insert_ne; [done | ]. intros <-. apply (sr_entries _ _ Hs) in E as [_ E]. congruence.
Qed.
Lemma assigned_placed v s p (f : memoryEntry -> memoryEntry) :
  store_rel v s -> (forall i e, f (set_index i e) = set_index i (f e)) ->
  placed (<[p := f (v p)]> v) (alter f p (ms_memory s)) (ms_expiries s).
Proof.
  intros Hs Hf i q Hq. pose proof (sr_placed _ _ Hs _ _ Hq) as Hm. destruct (decide (p = q)) as [<-|Hne].
  - rewrite lookup_alter_eq, Hm, fn_lookup_insert. cbn. by rewrite Hf.
  - by rewrite lookup_alter_ne, fn_lookup_insert_ne.
Qed.
Lemma update_entry_refines v s k p f :
  store_rel v s -> ms_entries s !! k = Some p -> (forall i e, f (set_index i e) = set_index i (f e)) ->
  me_key (f (v p)) = k -> me_expiry (f (v p)) = me_expiry (v p) ->
  exists s', update_entry p f s = (Ret tt, s') /\ data_only s s' /\ store_rel (<[p := f (v p)]> v) s' /\
    contents s' = <[k := record_of (f (v p))]> (contents s).
Proof.
  intros Hs Hp Hf Hk He. pose proof (proj1 (sr_entries _ _ Hs _ _) Hp) as [_ Hpk].
  eexists. split; [reflexivity | ]. split; [by destruct s | ].
  apply assigned_rel; [done | done | done | done | by apply assigned_placed | ].
  apply (heap_ext (pointer_less v)); [ | apply (sr_heap _ _ Hs)]. intros a b _ _. unfold pointer_less.
  apply entry_less_ext; [destruct (decide (p = a)) as [<-|] | destruct (decide (p = a)) as [<-|]
    | destruct (decide (p = b)) as [<-|] | destruct (decide (p = b)) as [<-|]];
    rewrite ?fn_lookup_insert, ?fn_lookup_insert_ne by done; congruence.
Qed.

(** [heap.Fix] after the record of one pointer changed its expiry: the list is
    the heap with the changed element in the place of the old one, which a fresh
    pointer stands for. *)
Lemma heap_Fix_pointer v l i p e :
  NoDup l -> heap (pointer_less v) l -> l !! i = Some p ->
  heap (pointer_less (<[p := e]> v)) (heap_Fix (H := list_heap (pointer_less (<[p := e]> v))) l i) /\
  heap_Fix (H := list_heap (pointer_less (<[p := e]> v))) l i ≡ₚ l.
Proof.
  intros Hnd Ho Hi. set (q := fresh (list_to_set l : gset pointer)).
  assert (q ∉ l) as Hq by (intros H; apply (is_fresh (list_to_set l : gset pointer)), elem_of_list_to_set, H).
  set (v' := <[q := v p]> (<[p := e]> v)).
  assert (forall r, r ∈ l -> v' r = <[p := e]> v r) as Hv'
    by (intros r Hr; unfold v'; by rewrite fn_lookup_insert_ne by (intros ->; done)).
  assert (forall r r', r ∈ l -> r' ∈ l -> pointer_less v' r r' = pointer_less (<[p := e]> v) r r') as Hless
    by (intros r r' Hr Hr'; unfold pointer_less; by rewrite !Hv').
  set (l0 := <[i := q]> l). assert (length l0 = length l) as Hlen by (unfold l0; by rewrite length_insert).
  assert (heap (pointer_less v') l0) as Ho0.
  { unfold heap. rewrite Hlen. intros k Hk a b Ha Hb.
    assert (forall j r, l0 !! j = Some r -> exists r', l !! j = Some r' /\ v' r = v r') as Hold.
    { intros j r. unfold l0. destruct (decide (j = i)) as [->|Hji].
      - rewrite list_lookup_insert_eq by (by eapply lookup_lt_Some). intros [= <-]. exists p. split; [done | ].
        unfold v'. by rewrite fn_lookup_insert.
      - rewrite list_lookup_insert_ne by done. intros Hr. exists r. split; [done | ].
        rewrite Hv' by (by eapply list_elem_of_lookup_2). rewrite fn_lookup_insert_ne; [done | ].
        intros <-. apply Hji. by eapply NoDup_lookup. }
    destruct (Hold _ _ Ha) as (a' & Ha' & Ea), (Hold _ _ Hb) as (b' & Hb' & Eb).
    unfold le, pointer_less. rewrite Ea, Eb. by apply (Ho k Hk). }
  assert (l0 !! i = Some q) as Hi0 by (unfold l0; apply list_lookup_insert_eq; by eapply lookup_lt_Some).
  pose proof (heap_Fix_spec (pointer_less v') (pointer_le_trans v') (pointer_less_le v') l0 i p q Ho0 Hi0) as [Hh Hperm].
  assert (<[i := p]> l0 = l) as El by (unfold l0; rewrite list_insert_insert_eq; by apply list_insert_id).
  rewrite El in Hh, Hperm.
  pose proof (heap_Fix_sim (H := list_heap (pointer_less v')) (pointer_less (<[p := e]> v)) (fun h l' => h = l' /\ l' ≡ₚ l)) as Hsim.
  assert (heap_Fix (H := list_heap (pointer_less v')) l i = heap_Fix (H := list_heap (pointer_less (<[p := e]> v))) l i) as Efix.
  { refine (proj1 (Hsim _ _ _ l l i (conj eq_refl (reflexivity l)) ltac:(by eapply lookup_lt_Some))).
    - by intros h l' [-> _].
    - intros h l' j k [-> Hp] [a Ha]%lookup_lt_is_Some_2 [b Hb]%lookup_lt_is_Some_2. cbn [hLess list_heap].
      unfold less_at. rewrite Ha, Hb. apply Hless; rewrite <- Hp; by eapply list_elem_of_lookup_2.
    - intros h l' j k [-> Hp] _ _. split; [done | by rewrite swap_at_perm]. }
  rewrite <- Efix. split; [ | done]. apply (heap_ext (pointer_less v')); [ | done].
  intros a b Ha Hb. rewrite Hperm in Ha, Hb. symmetry. by apply Hless.
Qed.

Lemma refresh_refines v s k p lease expiry :
  store_rel v s -> ms_entries s !! k = Some p ->
  exists s', (check% update_entry p (set_lease_expiry lease expiry) ;; fixEntry p) s = (Ret tt, s') /\ data_only s s' /\
    store_ok s' /\ contents s' = <[k := record_of (set_lease_expiry lease expiry (v p))]> (contents s).
Proof.
  intros Hs Hp. pose proof (proj1 (sr_entries _ _ Hs _ _) Hp) as [Hpin Hpk].
  destruct (sr_lookup v s Hs p Hpin) as (i & Hi & Hm). set (e := set_lease_expiry lease expiry (v p)).
  set (m := alter (set_lease_expiry lease expiry) p (ms_memory s)).
  destruct (heap_Fix_pointer v (ms_expiries s) i p e (sr_nodup _ _ Hs) (sr_heap _ _ Hs) Hi) as [Ho Hperm].
  assert (placed (<[p := e]> v) m (ms_expiries s)) as Hpl by (apply assigned_placed; done).
  assert (heap_rel (<[p := e]> v) m (heap_Fix (m, ms_expiries s) i)
    (heap_Fix (H := list_heap (pointer_less (<[p := e]> v))) (ms_expiries s) i)) as (E2 & _ & Hpl' & _).
  { apply heap_rel_Fix; [ | by eapply lookup_lt_Some]. split_and!; [done | apply (sr_nodup _ _ Hs) | done | done]. }
  exists (with_ms_heap s (heap_Fix (m, ms_expiries s) i)). split; [ | split].
  - unfold update_entry, smodify, fixEntry, sget, sput, sret, sbind. cbn [ms_memory with_ms_heap fst snd].
    fold m. assert (m !! p = Some (set_lease_expiry lease expiry (set_index (Z.of_nat i) (v p)))) as ->
      by (unfold m; by rewrite lookup_alter_eq, Hm).
    change (me_index (set_lease_expiry lease expiry (set_index (Z.of_nat i) (v p)))) with (Z.of_nat i).
    assert (Z.of_nat i <? 0 = false) as -> by lia. rewrite Nat2Z.id. by destruct s.
  - by destruct s, (heap_Fix (m, _) i).
  - rewrite <- E2 in Ho, Hperm, Hpl'.
    destruct (assigned_rel v s k p e (heap_Fix (m, ms_expiries s) i) Hs Hp Hpk Hperm Hpl' Ho) as [Hs' Hc].
    split; [by exists (<[p := e]> v) | done].
Qed.

(** The operations on the store compute the operations on its contents. *)
Definition refines {A} (c : SM A) (spec : Limits -> records -> outcome ErrorCode A * records) : Prop :=
  forall s, store_ok s ->
  exists s', c s = ((spec (ms_limits s) (contents s)).1, s') /\ contents s' = (spec (ms_limits s) (contents s)).2 /\
    store_ok s' /\ data_only s s'.

Lemma remember_refines storage now expiry :
  refines (rememberStorageKey storage now expiry) (fun L => remember L storage now expiry).
Proof.
  intros s [v Hs]. destruct (liveEntry_refines v s storage now entryFirstSeen Hs) as (s1 & Hs1 & Hd1 & Hc1 & H1).
  unfold rememberStorageKey, remember. destruct (live_record _ _ _ _ _) as [[[r|]|e|] m] eqn:El; cbn [fst snd] in *; [ | | | done].
  - destruct H1 as (p & E & _). exists s1. unfold sbind. rewrite E. split_and!; [done | done | by exists v | done].
  - destruct H1 as [E Hn]. unfold sbind. rewrite E.
    pose proof (insertEntry_refines v s1 storage expiry entryFirstSeen Hs1 Hn) as Hi. cbv zeta in Hi.
    rewrite (data_only_limits s s1 Hd1), Hc1 in Hi.
    destruct (add_record _ _ _ _) as [[[]|e|] m'] eqn:Ea; cbn [fst snd obind] in *; [ | | done].
    + destruct Hi as (p & s2 & -> & Hd2 & Hs2 & _ & Hc2). exists s2. split_and!; [done | done | by eexists | by etrans].
    + rewrite Hi. exists s1. split_and!; [done | | by exists v | done].
      unfold add_record in Ea. rewrite Hc1. by destruct (_ <=? _); simplify_eq.
  - exists s1. unfold sbind. rewrite H1. split_and!; [done | done | by exists v | done].
Qed.

Lemma reserve_refines storage now expiry leaseExpiry :
  refines (reservePropagationKey storage now expiry leaseExpiry) (fun L => reserve L storage now expiry leaseExpiry).
Proof.
  intros s [v Hs]. destruct (liveEntry_refines v s storage now entryPropagation Hs) as (s1 & Hs1 & Hd1 & Hc1 & H1).
  unfold reservePropagationKey, reserve.
  destruct (live_record _ _ _ _ _) as [[[r|]|e|] m] eqn:El; cbn [fst snd] in *; [ | | | done].
  - destruct H1 as (p & E & Hp & Hpin & Hk & Hr & Hkind). unfold sbind at 1. rewrite E. unfold sbind at 1, sget.
    destruct (sr_lookup v s1 Hs1 p Hpin) as (i & _ & Hm). rewrite Hm. rewrite <- Hr. cbn [r_propagation r_lease record_of].
    change (me_propagation (set_index _ (v p))) with (me_propagation (v p)).
    change (me_lease (set_index _ (v p))) with (me_lease (v p)).
    destruct (decide (me_propagation (v p) = PropagationStateCommitted)) as [|Hnc];
      [exists s1; split_and!; [done | done | by exists v | done] | ].
    destruct (After (me_lease (v p)) now); [exists s1; split_and!; [done | done | by exists v | done] | ].
    destruct (refresh_refines v s1 storage p leaseExpiry expiry Hs1 Hp) as (s2 & E2 & Hd2 & Hs2 & Hc2).
    exists s2. revert E2. unfold sbind. destruct (update_entry _ _ _) as [[[]|e|] s3]; [ | done..]. intros ->. cbn [sret fst snd].
    split_and!; [done | | done | by etrans]. rewrite Hc2, Hc1. f_equal. unfold record_of. cbn. rewrite <- Hkind, <- Hr. done.
  - destruct H1 as [E Hn]. unfold sbind at 1. rewrite E.
    pose proof (insertEntry_refines v s1 storage expiry entryPropagation Hs1 Hn) as Hi. cbv zeta in Hi.
    rewrite (data_only_limits s s1 Hd1), Hc1 in Hi. unfold add_record in *.
    destruct (_ <=? _); cbn [fst snd obind] in *.
    + unfold sbind. rewrite Hi. exists s1. split_and!; [done | done | by exists v | done].
    + destruct Hi as (p & s2 & Ei & Hd2 & Hs2 & Hp2 & Hc2). unfold sbind at 1. rewrite Ei.
      set (e := MkEntry storage expiry (-1) entryPropagation PropagationStateUnset zeroTime) in Hs2.
      destruct (update_entry_refines _ s2 storage p (set_propagation PropagationStatePending leaseExpiry) Hs2 Hp2)
        as (s3 & E3 & Hd3 & Hs3 & Hc3); [done | by rewrite fn_lookup_insert | by rewrite fn_lookup_insert | ].
      unfold sbind. rewrite E3. exists s3. split_and!; [done | | by eexists | by etrans; [ | etrans]].
      rewrite Hc3, Hc2, fn_lookup_insert, insert_insert_eq. done.
  - exists s1. unfold sbind. rewrite H1. split_and!; [done | done | by exists v | done].
Qed.

Lemma commit_refines storage now : refines (commitPropagationKey storage now) (fun L => commit L storage now).
Proof.
  intros s [v Hs]. destruct (liveEntry_refines v s storage now entryPropagation Hs) as (s1 & Hs1 & Hd1 & Hc1 & H1).
  unfold commitPropagationKey, commit.
  destruct (live_record _ _ _ _ _) as [[[r|]|e|] m] eqn:El; cbn [fst snd] in *; [ | | | done].
  - destruct H1 as (p & E & Hp & _ & Hk & Hr & Hkind). unfold sbind at 1. rewrite E.
    destruct (update_entry_refines v s1 storage p (set_propagation PropagationStateCommitted zeroTime) Hs1 Hp)
      as (s2 & E2 & Hd2 & Hs2 & Hc2); [done | done | done | ].
    unfold sbind. rewrite E2. exists s2. split_and!; [done | | by eexists | by etrans].
    rewrite Hc2, Hc1. f_equal. unfold record_of. cbn. by rewrite <- Hkind, <- Hr.
  - destruct H1 as [E Hn]. unfold sbind. rewrite E. exists s1. split_and!; [done | done | by exists v | done].
  - exists s1. unfold sbind. rewrite H1. split_and!; [done | done | by exists v | done].
Qed.
