(* ===== verification/ReplayHistory.v ===== *)
(** * Package internal/replay: histories of the memory store

    A run is a sequence of operations on the store's contents at times that do
    not go back.  The theorems say what the answers of a run mean: a key is
    first seen once per retention, a propagation has one holder per lease. *)

From stdpp Require Import gmap.
From S2P Require Import Prelude GoBytes GoTime GoHeap ReplayTypes ReplayGate ReplayKey ReplayMemory ReplayMemorySpec.
#[local] Open Scope Z_scope.

(** An operation with its times and its answer. *)
Inductive event :=
  | EvCheck (storage : bytes) (now expiry : Time) (r : outcome ErrorCode Check)
  | EvReserve (storage : bytes) (now expiry lease : Time) (r : outcome ErrorCode PropagationReservation)
  | EvCommit (storage : bytes) (now : Time) (r : outcome ErrorCode PropagationCommit).
Definition ev_now (e : event) : Time :=
  match e with EvCheck _ now _ _ | EvReserve _ now _ _ _ | EvCommit _ now _ => now end.

Section runs.
Context (L : Limits).

Definition performs (e : event) (m m' : records) : Prop :=
  match e with
  | EvCheck storage now expiry r => remember L storage now expiry m = (r, m')
  | EvReserve storage now expiry lease r => reserve L storage now expiry lease m = (r, m')
  | EvCommit storage now r => commit L storage now m = (r, m')
  end.
(** [captureOperationNow] accepts the time [now] after the time [t]. *)
Definition accepted (t now : Time) : Prop := IsZero now = false /\ (IsZero t = true \/ Before now t = false).
Inductive run : list event -> records -> Time -> Prop :=
  | run_nil : run [] ∅ zeroTime
  | run_snoc evs e m m' t :
      run evs m t -> accepted t (ev_now e) -> performs e m m' -> run (evs ++ [e]) m' (ev_now e).

(** ** The effect of one operation *)
Lemma live_record_spec now kind k0 m out m' :
  live_record L now kind k0 m = (out, m') ->
  m' ⊆ m /\ (forall k r, m !! k = Some r -> After (r_expiry r) now = true -> m' !! k = Some r) /\
  match out with
  | Ret None => m' !! k0 = None
  | Ret (Some r) => m' !! k0 = Some r /\ r_kind r = kind /\ After (r_expiry r) now = true
  | Fail _ => True
  | Crash => False
  end.
Proof.
  unfold live_record. pose proof (prune_subseteq (Z.to_nat (PruneBudget L)) now m) as Hsub.
  pose proof (prune_removed (Z.to_nat (PruneBudget L)) now m) as Hrem.
  destruct (prune _ now m) as [m1 n]. cbn [fst] in *. intros [= <- <-]. split; [done | ]. split.
  - intros k r Hk Ha. destruct (m1 !! k) as [r'|] eqn:E.
    + pose proof (lookup_weaken _ _ _ _ E Hsub). congruence.
    + rewrite (Hrem _ _ Hk E) in Ha. done.
  - destruct (m1 !! k0) as [r|]; [ | done]. destruct (After _ _) eqn:Ea; cbn [negb]; [ | done]. by destruct (decide _).
Qed.

(** A live first-seen record stays, whatever is done. *)
Definition live_in (m : records) (now : Time) (k : bytes) (r : record) : Prop :=
  m !! k = Some r /\ After (r_expiry r) now = true.
Lemma performs_keeps e m m' k r :
  performs e m m' -> live_in m (ev_now e) k r -> r_kind r = entryFirstSeen -> m' !! k = Some r.
Proof.
  intros He [Hk Ha] Hfs. destruct e as [k0 now ex out | k0 now ex ls out | k0 now out]; cbn [performs ev_now] in He, Ha.
  - unfold remember in He. destruct (live_record _ _ _ _ _) as [[[r0|]|e|] m1] eqn:E;
      apply live_record_spec in E as (_ & Hkeep & H0); specialize (Hkeep _ _ Hk Ha); simplify_eq; try done.
    unfold add_record in He. destruct (_ <=? _); simplify_eq; [done | ].
    rewrite lookup_insert_ne; [done | ]. intros <-. congruence.
  - unfold reserve in He. destruct (live_record _ _ _ _ _) as [[[r0|]|e|] m1] eqn:E;
      apply live_record_spec in E as (_ & Hkeep & H0); specialize (Hkeep _ _ Hk Ha); simplify_eq; try done.
    + destruct (decide _); [by simplify_eq | ]. destruct (After (r_lease r0) now); simplify_eq; [done | ].
      rewrite lookup_insert_ne; [done | ]. intros <-. destruct H0 as (H1 & H2 & _). congruence.
    + unfold add_record in He. destruct (_ <=? _); simplify_eq; [done | ].
      rewrite lookup_insert_ne; [done | ]. intros <-. congruence.
  - unfold commit in He. destruct (live_record _ _ _ _ _) as [[[r0|]|e|] m1] eqn:E;
      apply live_record_spec in E as (_ & Hkeep & H0); specialize (Hkeep _ _ Hk Ha); simplify_eq; try done.
    rewrite lookup_insert_ne; [done | ]. intros <-. destruct H0 as (H1 & H2 & _). congruence.
Qed.
(** A first-seen record is there only because a check put it there. *)
Lemma performs_origin e m m' k r :
  performs e m m' -> m' !! k = Some r -> r_kind r = entryFirstSeen ->
  m !! k = Some r \/ exists now, e = EvCheck k now (r_expiry r) (Ret CheckFirstSeen).
Proof.
  intros He Hk Hfs. destruct e as [k0 now ex out | k0 now ex ls out | k0 now out]; cbn [performs] in He.
  - unfold remember in He. destruct (live_record _ _ _ _ _) as [[[r0|]|e|] m1] eqn:E;
      apply live_record_spec in E as (Hsub & _ & H0); simplify_eq; try (left; exact (lookup_weaken _ _ _ _ Hk Hsub)).
    unfold add_record in He. destruct (_ <=? _); simplify_eq; [left; exact (lookup_weaken _ _ _ _ Hk Hsub) | ].
    apply lookup_insert_Some in Hk as [[<- <-] | [_ Hk]]; [right; by exists now | left; exact (lookup_weaken _ _ _ _ Hk Hsub)].
  - unfold reserve in He. destruct (live_record _ _ _ _ _) as [[[r0|]|e|] m1] eqn:E;
      apply live_record_spec in E as (Hsub & _ & H0); simplify_eq; try (left; exact (lookup_weaken _ _ _ _ Hk Hsub)).
    + destruct (decide _); [simplify_eq; left; exact (lookup_weaken _ _ _ _ Hk Hsub) | ].
      destruct (After (r_lease r0) now); simplify_eq; [left; exact (lookup_weaken _ _ _ _ Hk Hsub) | ].
      apply lookup_insert_Some in Hk as [[<- <-] | [_ Hk]]; [done | left; exact (lookup_weaken _ _ _ _ Hk Hsub)].
    + unfold add_record in He. destruct (_ <=? _); simplify_eq; [left; exact (lookup_weaken _ _ _ _ Hk Hsub) | ].
      apply lookup_insert_Some in Hk as [[<- <-] | [_ Hk]]; [done | left; exact (lookup_weaken _ _ _ _ Hk Hsub)].
  - unfold commit in He. destruct (live_record _ _ _ _ _) as [[[r0|]|e|] m1] eqn:E;
      apply live_record_spec in E as (Hsub & _ & H0); simplify_eq; try (left; exact (lookup_weaken _ _ _ _ Hk Hsub)).
    apply lookup_insert_Some in Hk as [[<- <-] | [_ Hk]]; [done | left; exact (lookup_weaken _ _ _ _ Hk Hsub)].
Qed.
Lemma first_seen_effect k now ex m m' :
  performs (EvCheck k now ex (Ret CheckFirstSeen)) m m' ->
  m' !! k = Some (MkRecord ex entryFirstSeen PropagationStateUnset zeroTime) /\ forall r, ~ live_in m now k r.
Proof.
  cbn [performs]. unfold remember. destruct (live_record _ _ _ _ _) as [[[r0|]|e|] m1] eqn:E;
    apply live_record_spec in E as (_ & Hkeep & H0); intros He; simplify_eq.
  unfold add_record in He. destruct (_ <=? _); simplify_eq/=. split; [apply lookup_insert_eq | ].
  intros r [Hr Ha]. rewrite (Hkeep _ _ Hr Ha) in H0. done.
Qed.
Lemma replayed_effect k now ex m m' :
  performs (EvCheck k now ex (Ret CheckReplayed)) m m' -> exists r, live_in m now k r /\ r_kind r = entryFirstSeen.
Proof.
  cbn [performs]. unfold remember. destruct (live_record _ _ _ _ _) as [[[r0|]|e|] m1] eqn:E;
    apply live_record_spec in E as (Hsub & Hkeep & H0); intros He; simplify_eq.
  - destruct H0 as (H1 & H2 & H3). exists r0. split; [ | done]. split; [by eapply lookup_weaken | done].
  - unfold add_record in He. by destruct (_ <=? _); simplify_eq/=.
Qed.

(** ** Time in a run *)
Lemma Before_step e t now : Before now t = false -> After e t = false -> After e now = false.
Proof. unfold Before, After. lia. Qed.
Lemma run_zero evs m t : run evs m t -> IsZero t = true -> evs = [].
Proof. by intros [ | ? e ? ? ? _ [Hz _] _] H; [ | congruence]. Qed.
Lemma run_monotone evs e m m' t :
  run evs m t -> accepted t (ev_now e) -> performs e m m' -> evs <> [] -> Before (ev_now e) t = false.
Proof. intros Hr [_ [Hz|Hb]] _ Hne; [ | done]. by apply (run_zero _ _ _ Hr) in Hz. Qed.
Lemma run_snoc_inv evs e m t :
  run (evs ++ [e]) m t -> exists m0 t0, run evs m0 t0 /\ accepted t0 (ev_now e) /\ performs e m0 m /\ t = ev_now e.
Proof.
  intros H. inversion H as [E | evs' e' m0 m' t0 Hr Ha Hp E]; [by destruct evs | ].
  apply app_inj_2 in E as [-> [= ->]]; [ | done]. eauto 10.
Qed.
Lemma run_prefix evs evs' m t : run (evs ++ evs') m t -> exists m0 t0, run evs m0 t0.
Proof.
  revert m t. induction evs' as [|e evs' IH] using rev_ind; intros m t; [rewrite app_nil_r; eauto | ].
  rewrite app_assoc. intros (m0 & t0 & H & _)%run_snoc_inv. eauto.
Qed.

(** ** First seen once per retention *)
Lemma first_seen_remains evs1 k now ex evs2 m t :
  run (evs1 ++ [EvCheck k now ex (Ret CheckFirstSeen)] ++ evs2) m t ->
  (exists r, m !! k = Some r /\ r_kind r = entryFirstSeen /\ r_expiry r = ex) \/ After ex t = false.
Proof.
  revert m t. induction evs2 as [|e evs2 IH] using rev_ind; intros m t.
  - rewrite app_nil_r. intros (m0 & t0 & _ & _ & [Hm _]%first_seen_effect & ->)%run_snoc_inv. left. by eexists.
  - rewrite !app_assoc. intros (m0 & t0 & Hr & Ha & Hp & ->)%run_snoc_inv. rewrite <- app_assoc in Hr.
    pose proof (run_monotone _ _ _ _ _ Hr Ha Hp ltac:(by destruct evs1)) as Hmono.
    destruct (IH _ _ Hr) as [(r & Hk & Hfs & <-) | Hx]; [ | right; by eapply Before_step].
    destruct (After (r_expiry r) (ev_now e)) eqn:Ea; [left | by right].
    exists r. split; [by eapply performs_keeps | done].
Qed.
Lemma first_seen_origin evs m t k r :
  run evs m t -> m !! k = Some r -> r_kind r = entryFirstSeen ->
  exists now, EvCheck k now (r_expiry r) (Ret CheckFirstSeen) ∈ evs.
Proof.
  intros Hr. induction Hr as [ | evs e m m' t _ IH _ Hp]; intros Hk Hfs; [by rewrite lookup_empty in Hk | ].
  destruct (performs_origin _ _ _ _ _ Hp Hk Hfs) as [Hm | [now ->]].
  - destruct (IH Hm Hfs) as [now Hin]. exists now. apply elem_of_app. by left.
  - exists now. apply elem_of_app. right. by left.
Qed.

(** The answer of a check that does not fail, at the end of a run. *)
Lemma check_exact evs k now ex c m t :
  run (evs ++ [EvCheck k now ex (Ret c)]) m t ->
  (c = CheckFirstSeen \/ c = CheckReplayed) /\
  (c = CheckReplayed <-> exists now' ex', EvCheck k now' ex' (Ret CheckFirstSeen) ∈ evs /\ After ex' now = true).
Proof.
  intros (m0 & t0 & Hr & Ha & Hp & _)%run_snoc_inv.
  assert (c = CheckFirstSeen \/ c = CheckReplayed) as Hc.
  { clear -Hp. cbn [performs] in Hp. unfold remember in Hp. destruct (live_record _ _ _ _ _) as [[[r0|]|e|] m1]; simplify_eq; [by right | ].
    unfold add_record in Hp. destruct (_ <=? _); simplify_eq/=. by left. }
  split; [done | ]. split.
  - intros ->. apply replayed_effect in Hp as (r & [Hk Hx] & Hfs).
    destruct (first_seen_origin _ _ _ _ _ Hr Hk Hfs) as [now' Hin]. eauto.
  - intros (now' & ex' & (evs1 & evs2 & ->)%list_elem_of_split & Hx). destruct Hc as [-> | ->]; [exfalso | done].
    pose proof (run_monotone _ _ _ _ _ Hr Ha Hp ltac:(by destruct evs1)) as Hmono. cbn in Hmono.
    destruct (first_seen_remains _ _ _ _ _ _ _ Hr) as [(r & Hk & Hfs & <-) | Hx'].
    + apply first_seen_effect in Hp as [_ Hn]. by apply (Hn r).
    + by rewrite (Before_step _ _ _ Hmono Hx') in Hx.
Qed.

(** ** One holder per lease *)
Definition is_reserved (k : bytes) (e : event) : Prop :=
  exists now ex ls, e = EvReserve k now ex ls (Ret PropagationReserved).
Lemma performs_propagation e m m' k r :
  performs e m m' -> live_in m (ev_now e) k r -> r_kind r = entryPropagation ->
  (m' !! k = Some r /\ ~ is_reserved k e /\ e <> EvCommit k (ev_now e) (Ret PropagationCommitted)) \/
  (exists ex ls, e = EvReserve k (ev_now e) ex ls (Ret PropagationReserved) /\
    r_propagation r <> PropagationStateCommitted /\ After (r_lease r) (ev_now e) = false /\
    m' !! k = Some (MkRecord ex entryPropagation (r_propagation r) ls)) \/
  (e = EvCommit k (ev_now e) (Ret PropagationCommitted) /\
    m' !! k = Some (MkRecord (r_expiry r) entryPropagation PropagationStateCommitted zeroTime)).
Proof.
  intros He [Hk Ha] Hp. unfold is_reserved.
  destruct e as [k0 now ex out | k0 now ex ls out | k0 now out]; cbn [performs ev_now] in *.
  - left. split; [ | split; [by intros (? & ? & ? & ?) | done]].
    unfold remember in He. destruct (live_record _ _ _ _ _) as [[[r0|]|e|] m1] eqn:E;
      apply live_record_spec in E as (_ & Hkeep & H0); specialize (Hkeep _ _ Hk Ha); simplify_eq; try done.
    unfold add_record in He. destruct (_ <=? _); simplify_eq; [done | ].
    rewrite lookup_insert_ne; [done | ]. intros <-. congruence.
  - unfold reserve in He. destruct (live_record _ _ _ _ _) as [[[r0|]|e|] m1] eqn:E;
      apply live_record_spec in E as (_ & Hkeep & H0); specialize (Hkeep _ _ Hk Ha); [ | | | done].
    + destruct (decide _) as [Hc|Hc]; [simplify_eq; left; split_and!; [done | naive_solver | done] | ].
      destruct (After (r_lease r0) now) eqn:El; [simplify_eq; left; split_and!; [done | naive_solver | done] | ].
      destruct (decide (k = k0)) as [->|Hne].
      * right. left. destruct H0 as (H0 & _ & _). assert (r0 = r) as -> by congruence.
        injection He as <- <-. exists ex, ls. split_and!; [done | done | done | apply lookup_insert_eq].
      * injection He as <- <-. left. rewrite lookup_insert_ne by done. split_and!; [done | naive_solver | done].
    + unfold add_record in He. destruct (_ <=? _); simplify_eq/=; left.
      * split_and!; [done | naive_solver | done].
      * assert (k0 <> k) by congruence. rewrite lookup_insert_ne by done. split_and!; [done | naive_solver | done].
    + simplify_eq. left. split_and!; [done | naive_solver | done].
  - unfold commit in He. destruct (live_record _ _ _ _ _) as [[[r0|]|e|] m1] eqn:E;
      apply live_record_spec in E as (_ & Hkeep & H0); specialize (Hkeep _ _ Hk Ha); [ | | | done].
    + injection He as <- <-. destruct (decide (k = k0)) as [->|Hne].
      * right. right. destruct H0 as (H0 & _ & _). assert (r0 = r) as -> by congruence. split; [done | apply lookup_insert_eq].
      * left. rewrite lookup_insert_ne by done. split_and!; [done | naive_solver | naive_solver].
    + simplify_eq. left. split_and!; [done | naive_solver | naive_solver].
    + simplify_eq. left. split_and!; [done | naive_solver | naive_solver].
Qed.
Lemma reserved_effect k now ex ls m m' :
  performs (EvReserve k now ex ls (Ret PropagationReserved)) m m' ->
  (exists r, m' !! k = Some r /\ r_kind r = entryPropagation /\ r_expiry r = ex /\ r_lease r = ls) /\
  forall r, live_in m now k r ->
    r_kind r = entryPropagation /\ r_propagation r <> PropagationStateCommitted /\ After (r_lease r) now = false.
Proof.
  cbn [performs]. unfold reserve. destruct (live_record _ _ _ _ _) as [[[r0|]|e|] m1] eqn:E;
    apply live_record_spec in E as (_ & Hkeep & H0); intros He; [ | | done | done].
  - destruct (decide _) as [Hc|Hc]; [done | ]. destruct (After (r_lease r0) now) eqn:El; [done | ]. injection He as <-.
    split; [rewrite lookup_insert_eq; by eexists | ]. intros r [Hr Ha]. specialize (Hkeep _ _ Hr Ha).
    destruct H0 as (H0 & Hk & _). assert (r0 = r) as -> by congruence. done.
  - unfold add_record in He. destruct (_ <=? _); simplify_eq/=.
    split; [rewrite lookup_insert_eq; by eexists | ]. intros r [Hr Ha]. specialize (Hkeep _ _ Hr Ha). congruence.
Qed.

(** The record of a reservation until its lease or its retention ends. *)
Lemma reservation_remains evs1 k now ex ls evs2 m t :
  run (evs1 ++ [EvReserve k now ex ls (Ret PropagationReserved)] ++ evs2) m t ->
  (exists r, m !! k = Some r /\ r_kind r = entryPropagation /\ r_expiry r = ex /\
     (r_lease r = ls \/ r_propagation r = PropagationStateCommitted)) \/
  After ls t = false \/ After ex t = false.
Proof.
  revert m t. induction evs2 as [|e evs2 IH] using rev_ind; intros m t.
  - rewrite app_nil_r. intros (m0 & t0 & _ & _ & [(r & Hr) _]%reserved_effect & ->)%run_snoc_inv. left. exists r. naive_solver.
  - rewrite !app_assoc. intros (m0 & t0 & Hr & Ha & Hp & ->)%run_snoc_inv. rewrite <- app_assoc in Hr.
    pose proof (run_monotone _ _ _ _ _ Hr Ha Hp ltac:(by destruct evs1)) as Hmono.
    destruct (IH _ _ Hr) as [(r & Hk & Hkd & <- & Hls) | [Hx | Hx]];
      [ | right; left; by eapply Before_step | right; right; by eapply Before_step].
    destruct (After (r_expiry r) (ev_now e)) eqn:Ea; [ | by right; right].
    destruct (performs_propagation e m0 m k r Hp (conj Hk Ea) Hkd) as [(H & _) | [(ex' & ls' & _ & Hc & Hl & _) | (_ & H)]].
    + left. exists r. naive_solver.
    + right. left. destruct Hls as [<- | ?]; done.
    + left. eexists. split; [exact H | ]. naive_solver.
Qed.
Lemma commit_remains evs1 k now ex ls evs2 now2 evs3 m t :
  run (evs1 ++ [EvReserve k now ex ls (Ret PropagationReserved)] ++ evs2 ++
       [EvCommit k now2 (Ret PropagationCommitted)] ++ evs3) m t ->
  Forall (fun e => ~ is_reserved k e) evs2 ->
  (exists r, m !! k = Some r /\ r_kind r = entryPropagation /\ r_expiry r = ex /\ r_propagation r = PropagationStateCommitted) \/
  After ex t = false.
Proof.
  intros Hrun Hno.
  assert (forall m t, run (evs1 ++ [EvReserve k now ex ls (Ret PropagationReserved)] ++ evs2) m t ->
    (exists r, m !! k = Some r /\ r_kind r = entryPropagation /\ r_expiry r = ex) \/ After ex t = false) as H1.
  { clear m t Hrun. induction evs2 as [|e evs2 IH] using rev_ind; intros m t.
    - rewrite app_nil_r. intros (m0 & t0 & _ & _ & [(r & Hr) _]%reserved_effect & ->)%run_snoc_inv. left. exists r. naive_solver.
    - rewrite !app_assoc. intros (m0 & t0 & Hr & Ha & Hp & ->)%run_snoc_inv. rewrite <- app_assoc in Hr.
      apply Forall_app in Hno as [Hno He]. apply list.Forall_cons in He as [He _].
      pose proof (run_monotone _ _ _ _ _ Hr Ha Hp ltac:(by destruct evs1)) as Hmono.
      destruct (IH Hno _ _ Hr) as [(r & Hk & Hkd & <-) | Hx]; [ | right; by eapply Before_step].
      destruct (After (r_expiry r) (ev_now e)) eqn:Ea; [ | by right].
      destruct (performs_propagation e m0 m k r Hp (conj Hk Ea) Hkd) as [(H & _) | [(ex' & ls' & E & _) | (_ & H)]].
      + left. exists r. naive_solver.
      + destruct He. by exists (ev_now e), ex', ls'.
      + left. by eexists. }
  revert m t Hrun. induction evs3 as [|e evs3 IH] using rev_ind; intros m t.
  - rewrite app_nil_r, !app_assoc. intros (m0 & t0 & Hr & Ha & Hp & ->)%run_snoc_inv. rewrite <- app_assoc in Hr.
    pose proof (run_monotone _ _ _ _ _ Hr Ha Hp ltac:(by destruct evs1)) as Hmono. cbn [ev_now] in *.
    destruct (H1 _ _ Hr) as [(r & Hk & Hkd & <-) | Hx]; [ | right; by eapply Before_step].
    destruct (After (r_expiry r) now2) eqn:Ea; [ | by right].
    destruct (performs_propagation _ m0 m k r Hp (conj Hk Ea) Hkd) as [(_ & _ & H) | [(ex' & ls' & H & _) | (_ & H)]].
    + by destruct H.
    + done.
    + left. by eexists.
  - replace (evs1 ++ _) with ((evs1 ++ [EvReserve k now ex ls (Ret PropagationReserved)] ++ evs2 ++
       [EvCommit k now2 (Ret PropagationCommitted)] ++ evs3) ++ [e]) by (by rewrite <- !app_assoc).
    intros (m0 & t0 & Hr & Ha & Hp & ->)%run_snoc_inv.
    pose proof (run_monotone _ _ _ _ _ Hr Ha Hp ltac:(by destruct evs1)) as Hmono.
    destruct (IH _ _ Hr) as [(r & Hk & Hkd & <- & Hc) | Hx]; [ | right; by eapply Before_step].
    destruct (After (r_expiry r) (ev_now e)) eqn:Ea; [ | by right].
    destruct (performs_propagation e m0 m k r Hp (conj Hk Ea) Hkd) as [(H & _) | [(ex' & ls' & _ & Hn & _) | (_ & H)]].
    + left. by exists r.
    + done.
    + left. by eexists.
Qed.
Lemma reservation_exclusive evs1 k now ex ls evs2 now' ex' ls' m t :
  run (evs1 ++ [EvReserve k now ex ls (Ret PropagationReserved)] ++ evs2 ++
       [EvReserve k now' ex' ls' (Ret PropagationReserved)]) m t ->
  After ls now' = false \/ After ex now' = false.
Proof.
  rewrite !app_assoc. intros (m0 & t0 & Hr & Ha & Hp & _)%run_snoc_inv. rewrite <- app_assoc in Hr.
  pose proof (run_monotone _ _ _ _ _ Hr Ha Hp ltac:(by destruct evs1)) as Hmono. cbn [ev_now] in *.
  destruct (reservation_remains _ _ _ _ _ _ _ _ Hr) as [(r & Hk & Hkd & <- & Hls) | [Hx | Hx]];
    [ | left; by eapply Before_step | right; by eapply Before_step].
  destruct (After (r_expiry r) now') eqn:Ea; [left | by right].
  apply reserved_effect in Hp as [_ Hp]. destruct (Hp r (conj Hk Ea)) as (_ & Hc & Hl). destruct Hls as [<- | ?]; done.
Qed.
Lemma committed_final evs1 k now ex ls evs2 now2 evs3 now' ex' ls' m t :
  run (evs1 ++ [EvReserve k now ex ls (Ret PropagationReserved)] ++ evs2 ++
       [EvCommit k now2 (Ret PropagationCommitted)] ++ evs3 ++
       [EvReserve k now' ex' ls' (Ret PropagationReserved)]) m t ->
  Forall (fun e => ~ is_reserved k e) evs2 -> After ex now' = false.
Proof.
  intros Hrun Hno. revert Hrun.
  replace (evs1 ++ _) with ((evs1 ++ [EvReserve k now ex ls (Ret PropagationReserved)] ++ evs2 ++
     [EvCommit k now2 (Ret PropagationCommitted)] ++ evs3) ++ [EvReserve k now' ex' ls' (Ret PropagationReserved)])
    by (by rewrite <- !app_assoc).
  intros (m0 & t0 & Hr & Ha & Hp & _)%run_snoc_inv.
  pose proof (run_monotone _ _ _ _ _ Hr Ha Hp ltac:(by destruct evs1)) as Hmono. cbn [ev_now] in *.
  destruct (commit_remains _ _ _ _ _ _ _ _ _ _ Hr Hno) as [(r & Hk & Hkd & <- & Hc) | Hx]; [ | by eapply Before_step].
  destruct (After (r_expiry r) now') eqn:Ea; [ | done]. apply reserved_effect in Hp as [_ Hp].
  by destruct (Hp r (conj Hk Ea)) as (_ & Hn & _).
Qed.
End runs.
