(* ===== verification/ReplayConcurrent.v ===== *)
(** * Package internal/replay: concurrent calls of the memory store

    Calls run in threads; every step of a thread is one access to the shared
    state: an operation of the gate under its mutex, a non-blocking receive, an
    update of the waiters, the critical section of the token's holder.  Any
    interleaving is an execution.  The log records, with its thread, each
    operation at the step that performs it. *)

From stdpp Require Import gmap.
From S2P Require Import Prelude GoBytes GoTime GoHeap ReplayTypes ReplayGate ReplayKey.
From S2P Require Import ReplayMemory ReplayMemorySpec ReplayHistory.
#[local] Open Scope Z_scope.

(** ** Calls and their sections *)
Inductive operation := OpCheck (retention : Retention) | OpReserve (retention : Retention) (lease : Lease) | OpCommit.
Inductive answer := ACheck (c : Check) | AReserve (r : PropagationReservation) | ACommit (c : PropagationCommit).
Definition smap {A B} (f : A -> B) (m : SM A) : SM B := let% a := m in sret (f a).

Definition validate (op : operation) (ctx : ContextState) (key : Key) : SM bytes :=
  match op with
  | OpCheck retention => validateCheckRequest ctx key retention
  | OpReserve retention lease =>
      let% storage := validateCheckRequest ctx key retention in
      check% slift (require (Lease_Valid lease) ErrorCodeInvalidRequest) ;;
      sret storage
  | OpCommit => validateKeyRequest ctx key
  end.
Definition capture (op : operation) (env : Environment) : SM (Time * Time) :=
  let% now := readOperationNow env in
  match op with
  | OpCheck retention | OpReserve retention _ => captureExpiry env retention now
  | OpCommit => check% slift (PreflightContext (env_ctxAfterClock env)) ;; sret (now, now)
  end.
Definition perform (op : operation) (storage : bytes) (times : Time * Time) : SM answer :=
  match op with
  | OpCheck _ => smap ACheck (checkMutation storage times)
  | OpReserve _ lease => smap AReserve (reserveMutation lease storage times)
  | OpCommit => smap ACommit (commitMutation storage times.1)
  end.
Definition section (op : operation) (env : Environment) (storage : bytes) : SM answer :=
  check% recheckAdmission env ;; let% times := capture op env in perform op storage times.

(** The operation on the contents that the section performs. *)
Definition project {A} (f : answer -> option A) (out : outcome ErrorCode answer) : outcome ErrorCode A :=
  match out with
  | Ret a => match f a with Some x => Ret x | None => Crash end
  | Fail e => Fail e
  | Crash => Crash
  end.
Definition as_check (a : answer) : option Check := if a is ACheck c then Some c else None.
Definition as_reservation (a : answer) : option PropagationReservation := if a is AReserve r then Some r else None.
Definition as_commit (a : answer) : option PropagationCommit := if a is ACommit c then Some c else None.
Definition event_of (op : operation) (storage : bytes) (times : Time * Time) (out : outcome ErrorCode answer) : option event :=
  match op with
  | OpCheck _ => Some (EvCheck storage times.1 times.2 (project as_check out))
  | OpReserve _ lease =>
      let leaseExpiry := Add times.1 (Lease_Duration lease) in
      if After leaseExpiry times.1
      then Some (EvReserve storage times.1 times.2 leaseExpiry (project as_reservation out)) else None
  | OpCommit => Some (EvCommit storage times.1 (project as_commit out))
  end.

(** ** Threads *)
Inductive call := CallOp (op : operation) (key : Key) | CallClose.
Inductive pc :=
  | PStart
  (* an operation *)
  | PValid (storage : bytes) | PAdmitted (storage : bytes) | PRefused (storage : bytes)
  | PQueued (storage : bytes) | PLeaving (storage : bytes) (acquired : outcome ErrorCode unit)
  | PHolding (storage : bytes) | PChecked (storage : bytes) | PReleasing (out : outcome ErrorCode answer)
  | PFinishing (out : outcome ErrorCode answer)
  (* Close *)
  | CBegin | CPoll | CDraining | COnce | CClearing | CToken | CCleared | CMark | CPublish
  | PDone (out : outcome ErrorCode (option answer)).
Record thread := MkThread { th_call : call; th_pc : pc }.
(** A section of the call has panicked: the gate's, the token's, the waiters' or
    the one under the token, in an operation or in Close. *)
Definition panicked (p : pc) : bool :=
  match p with
  | PLeaving _ Crash | PReleasing Crash | PFinishing Crash | PDone Crash => true
  | _ => false
  end.

(** What an operation ended with.  [Crash] is a panic: the deferred [recover] of
    the call turns it into an error ([recovered]) before the caller sees it, but
    here it stays visible. *)
Definition returned (out : outcome ErrorCode answer) : outcome ErrorCode (option answer) :=
  let* a := out in Ret (Some a).
(** A step: the next place, the state, and the operation performed. *)
Definition next : Type := option (pc * memoryStoreState * option event).
Definition goes {A} (m : outcome ErrorCode A * memoryStoreState) (onRet : A -> pc)
    (onFail : outcome ErrorCode answer -> pc) : next :=
  match m with
  | (Ret a, s) => Some (onRet a, s, None)
  | (Fail e, s) => Some (onFail (Fail e), s, None)
  | (Crash, s) => Some (onFail Crash, s, None)
  end.
Definition done (out : outcome ErrorCode answer) : pc := PDone (returned out).

Definition thread_step (env : Environment) (t : thread) (s : memoryStoreState) : next :=
  match th_call t, th_pc t with
  | CallOp op key, PStart => goes (validate op (env_ctx env) key s) PValid done
  | CallOp op key, PValid storage => goes (admitGate s) (fun _ => PAdmitted storage) done
  | CallOp op key, PAdmitted storage =>
      goes (tryToken s) (fun taken => if taken : bool then PHolding storage else PRefused storage) PFinishing
  | CallOp op key, PRefused storage => goes (joinWaiters s) (fun _ => PQueued storage) PFinishing
  | CallOp op key, PQueued storage =>
      match env_wait env with
      | ChannelReady =>
          match tryToken s with
          | (Ret true, s) => Some (PLeaving storage (Ret tt), s, None)
          | _ => None
          end
      | ContextDone ctx =>
          Some (PLeaving storage (check PreflightContext ctx ;; Fail ErrorCodeInternalInvariant), s, None)
      end
  | CallOp op key, PLeaving storage acquired =>
      goes (leaveWaiters s)
        (fun _ => match acquired with
                  | Ret _ => PHolding storage
                  | Fail e => PFinishing (Fail e)
                  | Crash => PFinishing Crash
                  end) PFinishing
  | CallOp op key, PHolding storage => goes (recheckAdmission env s) (fun _ => PChecked storage) PReleasing
  | CallOp op key, PChecked storage =>
      match capture op env s with
      | (Ret times, s) =>
          let '(out, s) := perform op storage times s in Some (PReleasing out, s, event_of op storage times out)
      | (Fail e, s) => Some (PReleasing (Fail e), s, None)
      | (Crash, s) => Some (PReleasing Crash, s, None)
      end
  | CallOp op key, PReleasing out => goes (releaseToken s) (fun _ => PFinishing out) PFinishing
  | CallOp op key, PFinishing out => goes (finishGate s) (fun _ => done out) done
  | CallClose, PStart => goes (slift (PreflightContext (env_ctx env)) s) (fun _ => CBegin) done
  | CallClose, CBegin => goes (liftGate beginClose s) (fun _ => CPoll) done
  | CallClose, CPoll => Some (if drainedNow (ms_gate s) then COnce else CDraining, s, None)
  | CallClose, CDraining =>
      match env_wait env with
      | ChannelReady => if drainedNow (ms_gate s) then Some (COnce, s, None) else None
      | ContextDone ctx => goes (slift (waitForDrain (ContextDone ctx)) s) (fun _ => COnce) done
      end
  | CallClose, COnce =>
      match ms_closeOnce s with
      | OnceNew => Some (CClearing, set_once OnceRunning s, None)
      | OnceRunning => None
      | OnceDone => Some (CPublish, s, None)
      end
  | CallClose, CClearing =>
      match tryToken s with
      | (Ret true, s) => Some (CToken, s, None)
      | _ => None
      end
  | CallClose, CToken => goes (clearStore s) (fun _ => CCleared) done
  | CallClose, CCleared => goes (releaseToken s) (fun _ => CMark) done
  | CallClose, CMark => Some (CPublish, set_once OnceDone s, None)
  | CallClose, CPublish => goes (liftGate publishClosed s) (fun _ => PDone (Ret None)) done
  | _, _ => None
  end.

(** ** Executions *)
Record config := MkConfig {
  c_store : memoryStoreState; c_threads : list thread; c_log : list (nat * event) }.
Definition is_done (t : thread) : bool := if th_pc t is PDone _ then true else false.

(** Clocks answer proper times. *)
Definition env_wf (env : Environment) : Prop := forall now, env_clock env = Some now -> wf_time now.
Inductive step : Environment -> config -> config -> Prop :=
  | step_thread env s ts log i t p s' ev :
      env_wf env -> ts !! i = Some t -> thread_step env t s = Some (p, s', ev) ->
      step env (MkConfig s ts log)
        (MkConfig s' (<[i := MkThread (th_call t) p]> ts) (log ++ (if ev is Some e then [(i, e)] else []))).
Inductive arrives : config -> config -> Prop :=
  | arrives_call s ts log c : arrives (MkConfig s ts log) (MkConfig s (ts ++ [MkThread c PStart]) log).

Inductive reachable (s0 : memoryStoreState) : config -> Prop :=
  | reachable_start : reachable s0 (MkConfig s0 [] [])
  | reachable_arrives c c' : reachable s0 c -> arrives c c' -> reachable s0 c'
  | reachable_step env c c' : reachable s0 c -> step env c c' -> reachable s0 c'.

(** ** The sections are the code's *)
Lemma section_check env retention storage s :
  smap ACheck (checkSection env retention storage) s = section (OpCheck retention) env storage s.
Proof.
  unfold section, capture, perform, smap, checkSection, captureOperationTime, captureOperationNow, sbind.
  destruct (recheckAdmission env s) as [[[]|e|] s1]; [ | done..].
  destruct (readOperationNow env s1) as [[now|e|] s2]; [ | done..].
  by destruct (captureExpiry env retention now s2) as [[times|e|] s3].
Qed.
Lemma section_reserve env retention lease storage s :
  smap AReserve (reserveSection env retention lease storage) s = section (OpReserve retention lease) env storage s.
Proof.
  unfold section, capture, perform, smap, reserveSection, captureOperationTime, captureOperationNow, sbind.
  destruct (recheckAdmission env s) as [[[]|e|] s1]; [ | done..].
  destruct (readOperationNow env s1) as [[now|e|] s2]; [ | done..].
  by destruct (captureExpiry env retention now s2) as [[times|e|] s3].
Qed.
Lemma section_commit env storage s :
  smap ACommit (commitSection env storage) s = section OpCommit env storage s.
Proof.
  unfold section, capture, perform, smap, commitSection, captureOperationNow, sbind, slift.
  destruct (recheckAdmission env s) as [[[]|e|] s1]; [ | done..].
  destruct (readOperationNow env s1) as [[now|e|] s2]; [ | done..].
  by destruct (PreflightContext (env_ctxAfterClock env)) as [[]|e|].
Qed.

(** ** What a section does *)
Definition same_control (s s' : memoryStoreState) : Prop :=
  ms_limits s' = ms_limits s /\ ms_token s' = ms_token s /\ ms_waiters s' = ms_waiters s /\
  ms_closeOnce s' = ms_closeOnce s /\ ms_clearCount s' = ms_clearCount s.
Lemma data_only_control s s' : data_only s s' -> same_control s s' /\ ms_gate s' = ms_gate s /\ ms_lastNow s' = ms_lastNow s.
Proof. by intros ->. Qed.
Definition op_times (op : operation) (times : Time * Time) : Prop :=
  match op with
  | OpCheck retention | OpReserve retention _ => AddTo retention times.1 = Ret times.2
  | OpCommit => times.2 = times.1
  end.

Lemma preflight_no_crash ctx : PreflightContext ctx <> Crash.
Proof. by destruct ctx. Qed.
Lemma capture_spec op env s :
  (exists times, capture op env s = (Ret times, s) /\ env_clock env = Some times.1 /\
     accepted (ms_lastNow s) times.1 /\ op_times op times) \/
  (exists e, capture op env s = (Fail e, s)) \/
  (exists e, capture op env s = (Fail e, with_ms_gate s (degrade (ms_gate s)))).
Proof.
  unfold capture, readOperationNow, sget, sbind. destruct (env_clock env) as [now|]; cbn [readClock]; [ | right; right; eexists; reflexivity].
  destruct (IsZero now || (negb (IsZero (ms_lastNow s)) && Before now (ms_lastNow s))) eqn:E; [right; right; eexists; reflexivity | ].
  apply orb_false_iff in E as [Hz E]. cbn [sret].
  assert (accepted (ms_lastNow s) now) as Hacc.
  { split; [done | ]. destruct (IsZero (ms_lastNow s)); [by left | by right]. }
  assert (forall retention,
    (exists times, captureExpiry env retention now s = (Ret times, s) /\ times.1 = now /\ AddTo retention now = Ret times.2) \/
    (exists e, captureExpiry env retention now s = (Fail e, s)) \/
    (exists e, captureExpiry env retention now s = (Fail e, with_ms_gate s (degrade (ms_gate s))))) as Hexp.
  { intros retention. unfold captureExpiry. destruct (AddTo retention now) as [expiry|e|] eqn:Ea; [ | right; right; eexists; reflexivity..].
    unfold sbind, slift. destruct (PreflightContext _) as [[]|e|] eqn:Ep; [left; by exists (now, expiry) | right; left; by eexists | ].
    by apply preflight_no_crash in Ep. }
  destruct op as [retention | retention lease | ].
  1, 2: destruct (Hexp retention) as [(times & H1 & H2 & H3) | H]; [left; exists times; rewrite H2; cbn; by rewrite H2 | by right].
  unfold slift. destruct (PreflightContext _) as [[]|e|] eqn:Ep; [left; by exists (now, now) | right; left; by eexists | ].
  by apply preflight_no_crash in Ep.
Qed.

Lemma store_ok_ext s s' :
  ms_limits s' = ms_limits s -> ms_memory s' = ms_memory s -> ms_entries s' = ms_entries s ->
  ms_expiries s' = ms_expiries s -> store_ok s -> store_ok s' /\ contents s' = contents s.
Proof.
  intros E1 E2 E3 E4 [v [H1 H2 H3 H4 H5 H6]]. split; [ | unfold contents; by rewrite E2, E3].
  exists v. split; rewrite ?E1, ?E2, ?E3, ?E4; done.
Qed.
Lemma spec_no_crash L e m m' :
  performs L e m m' ->
  match e with EvCheck _ _ _ r => r <> Crash | EvReserve _ _ _ _ r => r <> Crash | EvCommit _ _ r => r <> Crash end.
Proof.
  destruct e as [k now ex r | k now ex ls r | k now r]; cbn [performs]; unfold remember, reserve, commit;
    destruct (live_record _ _ _ _ _) as [[[r0|]|e|] m1] eqn:E; apply live_record_spec in E as (_ & _ & H0);
    unfold add_record; try (destruct (MaxEntries L <=? _)); repeat case_match; intros; by simplify_eq/=.
Qed.

(** Running a specified mutation from the store with its last time set. *)
Lemma mutation_refines {A} (c : SM A) spec now s :
  refines c spec -> store_ok s ->
  exists s', (check% setLastNow now ;; c) s = ((spec (ms_limits s) (contents s)).1, s') /\
    contents s' = (spec (ms_limits s) (contents s)).2 /\ store_ok s' /\ same_control s s' /\
    ms_gate s' = ms_gate s /\ ms_lastNow s' = now.
Proof.
  intros Hc Hs. destruct (store_ok_ext s (with_ms_lastNow s now)) as [Hs1 E1]; [done.. | ].
  destruct (Hc _ Hs1) as (s' & E & Hcs & Hs' & Hd). rewrite E1 in E, Hcs. exists s'. unfold sbind, setLastNow, smodify.
  apply data_only_control in Hd as (Hctl & Hg & Hn). split_and!; try done; apply Hctl.
Qed.

Lemma perform_spec op storage times s :
  store_ok s ->
  exists out s', perform op storage times s = (out, s') /\ out <> Crash /\ store_ok s' /\ same_control s s' /\
    match event_of op storage times out with
    | Some ev => performs (ms_limits s) ev (contents s) (contents s') /\ ev_now ev = times.1 /\
        ms_lastNow s' = times.1 /\ ms_gate s' = ms_gate s
    | None => (exists e, out = Fail e) /\ s' = with_ms_gate s (degrade (ms_gate s))
    end.
Proof.
  intros Hs. destruct times as [now ex]. destruct op as [retention | retention lease | ]; cbn [fst snd].
  - destruct (mutation_refines _ _ now s (remember_refines storage now ex) Hs) as (s' & E & Hc & Hs' & Hctl & Hg & Hn).
    cbv beta in E, Hc. cbn [perform]. unfold smap. unfold checkMutation. cbn [fst snd]. unfold sbind at 1. rewrite E.
    assert (performs (ms_limits s) (EvCheck storage now ex (remember (ms_limits s) storage now ex (contents s)).1) (contents s) (contents s')) as Hp
      by (cbn [performs]; rewrite Hc; by destruct (remember _ _ _ _ _)).
    pose proof (spec_no_crash _ _ _ _ Hp) as Hnc. cbv beta iota in Hnc.
    destruct (remember _ _ _ _ _).1 as [c|e|]; [ | | by destruct Hnc]; eexists _, s'; (split; [reflexivity | ]); split_and!; try done; apply Hctl.
  - cbn [perform]. unfold smap. unfold reserveMutation. cbn [fst snd]. unfold event_of. cbn [fst snd].
    destruct (After (Add now (Lease_Duration lease)) now); cbn [negb].
    + destruct (mutation_refines _ _ now s (reserve_refines storage now ex (Add now (Lease_Duration lease))) Hs)
        as (s' & E & Hc & Hs' & Hctl & Hg & Hn).
      cbv beta in E, Hc. unfold sbind at 1. rewrite E.
      assert (performs (ms_limits s) (EvReserve storage now ex (Add now (Lease_Duration lease))
        (reserve (ms_limits s) storage now ex (Add now (Lease_Duration lease)) (contents s)).1) (contents s) (contents s')) as Hp
        by (cbn [performs]; rewrite Hc; by destruct (reserve _ _ _ _ _ _)).
      pose proof (spec_no_crash _ _ _ _ Hp) as Hnc. cbv beta iota in Hnc.
      destruct (reserve _ _ _ _ _ _).1 as [c|e|]; [ | | by destruct Hnc]; eexists _, s'; (split; [reflexivity | ]); split_and!; try done; apply Hctl.
    + eexists _, _. split; [reflexivity | ]. split; [done | ]. split; [by apply (store_ok_ext s) | ]. split; [done | ]. split; [by eexists | done].
  - destruct (mutation_refines _ _ now s (commit_refines storage now) Hs) as (s' & E & Hc & Hs' & Hctl & Hg & Hn).
    cbv beta in E, Hc. cbn [perform]. unfold smap. unfold commitMutation. cbn [fst snd]. unfold sbind at 1. rewrite E.
    assert (performs (ms_limits s) (EvCommit storage now (commit (ms_limits s) storage now (contents s)).1) (contents s) (contents s')) as Hp
      by (cbn [performs]; rewrite Hc; by destruct (commit _ _ _ _)).
    pose proof (spec_no_crash _ _ _ _ Hp) as Hnc. cbv beta iota in Hnc.
    destruct (commit _ _ _ _).1 as [c|e|]; [ | | by destruct Hnc]; eexists _, s'; (split; [reflexivity | ]); split_and!; try done; apply Hctl.
Qed.

(** ** Counting threads *)
Definition total (w : pc -> nat) (ts : list thread) : nat := sum_list_with (fun t => w (th_pc t)) ts.
Arguments total : simpl never.
Lemma total_cons w t ts : total w (t :: ts) = (w (th_pc t) + total w ts)%nat.
Proof. done. Qed.
Lemma total_insert w ts i t c p :
  ts !! i = Some t -> (total w (<[i := MkThread c p]> ts) + w (th_pc t) = total w ts + w p)%nat.
Proof.
  revert i. induction ts as [|u ts IH]; intros [|i] E; simplify_eq/=; rewrite !total_cons; cbn [th_pc]; [lia | ].
  specialize (IH i E). lia.
Qed.
Lemma total_app w ts t : total w (ts ++ [t]) = (total w ts + w (th_pc t))%nat.
Proof. induction ts as [|u ts IH]; cbn [app]; rewrite !total_cons; [done | ]. lia. Qed.
Lemma total_member w ts i t : ts !! i = Some t -> (w (th_pc t) <= total w ts)%nat.
Proof.
  revert i. induction ts as [|u ts IH]; intros [|i] E; simplify_eq/=; rewrite total_cons; [lia | ]. specialize (IH i E). lia.
Qed.
Lemma total_pos w ts : (0 < total w ts)%nat -> exists i t, ts !! i = Some t /\ (0 < w (th_pc t))%nat.
Proof.
  induction ts as [|u ts IH]; [unfold total; cbn; lia | ]. rewrite total_cons. intros H.
  destruct (decide (0 < w (th_pc u))%nat) as [Hu|Hu]; [by exists O, u | ].
  destruct IH as (i & t & E & Ht); [lia | ]. by exists (S i), t.
Qed.
Lemma total_le w w' ts : (forall p, (w p <= w' p)%nat) -> (total w ts <= total w' ts)%nat.
Proof. intros Hw. induction ts as [|u ts IH]; [done | ]. rewrite !total_cons. specialize (Hw (th_pc u)). lia. Qed.

Definition w_flight (p : pc) : nat :=
  match p with
  | PAdmitted _ | PRefused _ | PQueued _ | PLeaving _ _ | PHolding _ | PChecked _ | PReleasing _ | PFinishing _ => 1
  | _ => 0
  end.
Definition w_holds (p : pc) : nat :=
  match p with
  | PLeaving _ (Ret _) | PHolding _ | PChecked _ | PReleasing _ | CToken | CCleared => 1
  | _ => 0
  end.
Definition w_waits (p : pc) : nat := match p with PQueued _ | PLeaving _ _ => 1 | _ => 0 end.
Definition w_once (p : pc) : nat := match p with CClearing | CToken | CCleared | CMark => 1 | _ => 0 end.
Definition w_cleared (p : pc) : nat := match p with CCleared | CMark => 1 | _ => 0 end.

(** ** The invariant *)
Definition closing (g : lifecycleGate) : Prop := g_state g = StoreClosing \/ g_state g = StoreClosed.
Definition thread_ok (s : memoryStoreState) (t : thread) : Prop :=
  match th_call t, th_pc t with
  | CallOp op key, (PValid st | PAdmitted st | PRefused st | PQueued st | PHolding st | PChecked st) => key = Some st
  | CallOp op key, PLeaving st acquired => key = Some st /\ acquired <> Crash
  | CallOp op key, (PReleasing out | PFinishing out) => out <> Crash
  | CallOp op key, PStart => True
  | CallOp op key, PDone out => out <> Crash
  | CallClose, (PStart | CBegin | PDone (Fail _)) => True
  | CallClose, PDone (Ret _) => g_state (ms_gate s) = StoreClosed
  | CallClose, (CPoll | CDraining) => closing (ms_gate s)
  | CallClose, (COnce | CClearing | CToken | CCleared | CMark) => drainPublished (ms_gate s) = true
  | CallClose, CPublish => drainPublished (ms_gate s) = true /\ ms_closeOnce s = OnceDone
  | _, _ => False
  end.
(** The answer a thread carries. *)
Definition answer_of (t : thread) : option answer :=
  match th_pc t with
  | PReleasing (Ret a) | PFinishing (Ret a) | PDone (Ret (Some a)) => Some a
  | _ => None
  end.
Definition answers (e : event) (a : answer) : Prop :=
  match e, a with
  | EvCheck _ _ _ r, ACheck c => r = Ret c
  | EvReserve _ _ _ _ r, AReserve c => r = Ret c
  | EvCommit _ _ r, ACommit c => r = Ret c
  | _, _ => False
  end.
(** The event of an operation at a proper clock time. *)
Definition logged (c : call) (e : event) : Prop :=
  wf_time (ev_now e) /\
  match c, e with
  | CallOp (OpCheck retention) key, EvCheck k now ex _ => key = Some k /\ AddTo retention now = Ret ex
  | CallOp (OpReserve retention lease) key, EvReserve k now ex ls _ =>
      key = Some k /\ AddTo retention now = Ret ex /\ ls = Add now (Lease_Duration lease)
  | CallOp OpCommit key, EvCommit k _ _ => key = Some k
  | _, _ => False
  end.

Definition is_running (o : OnceState) : bool := if o is OnceRunning then true else false.
Definition is_once_done (o : OnceState) : bool := if o is OnceDone then true else false.
Definition flag (b : bool) : nat := if b then 1 else 0.
Record inv (c : config) : Prop := MkInv {
  i_store : store_ok (c_store c);
  i_gate : gate_ok (ms_gate (c_store c));
  i_flight : inFlight (ms_gate (c_store c)) = Z.of_nat (total w_flight (c_threads c));
  i_token : total w_holds (c_threads c) = flag (negb (ms_token (c_store c)));
  i_waiters : ms_waiters (c_store c) = Z.of_nat (total w_waits (c_threads c));
  i_once : total w_once (c_threads c) = flag (is_running (ms_closeOnce (c_store c)));
  i_drained : ms_closeOnce (c_store c) <> OnceNew -> drainPublished (ms_gate (c_store c)) = true;
  i_clears : ms_clearCount (c_store c) =
    Z.of_nat (total w_cleared (c_threads c) + flag (is_once_done (ms_closeOnce (c_store c))));
  i_empty : ms_clearCount (c_store c) <> 0 -> ms_entries (c_store c) = ∅ /\ ms_expiries (c_store c) = [];
  i_closed : g_state (ms_gate (c_store c)) = StoreClosed -> ms_closeOnce (c_store c) = OnceDone;
  i_threads : forall i t, c_threads c !! i = Some t -> thread_ok (c_store c) t;
  i_run : exists m t, run (ms_limits (c_store c)) (c_log c).*2 m t /\
    (ms_clearCount (c_store c) = 0 -> m = contents (c_store c) /\ t = ms_lastNow (c_store c));
  i_log : forall i e, (i, e) ∈ c_log c -> exists t, c_threads c !! i = Some t /\ logged (th_call t) e;
  i_answers : forall i t a, c_threads c !! i = Some t -> answer_of t = Some a ->
    exists e, (i, e) ∈ c_log c /\ answers e a }.

(** What never goes back. *)
Definition advances (s s' : memoryStoreState) : Prop :=
  (closing (ms_gate s) -> closing (ms_gate s')) /\
  (drainPublished (ms_gate s) = true -> drainPublished (ms_gate s') = true) /\
  (ms_closeOnce s = OnceDone -> ms_closeOnce s' = OnceDone) /\
  (g_state (ms_gate s) = StoreClosed -> g_state (ms_gate s') = StoreClosed).
Lemma thread_ok_advances s s' t : advances s s' -> thread_ok s t -> thread_ok s' t.
Proof.
  intros (H1 & H2 & H3 & H4). unfold thread_ok.
  destruct (th_call t), (th_pc t) as [ | | | | | | | | | | | | | | | | | | | [[]|?|]]; try done; try tauto.
Qed.

(** A step that performs no operation keeps the invariant when the state's
    counters follow the thread. *)
Section quiet_step.
Context (s s' : memoryStoreState) (ts : list thread) (log : list (nat * event)) (i : nat) (t : thread) (p : pc).
Context (Hi : inv (MkConfig s ts log)) (Ht : ts !! i = Some t).

Definition moves (w : pc -> nat) (x x' : Z) : Prop := x' + Z.of_nat (w (th_pc t)) = x + Z.of_nat (w p).
Lemma quiet_step :
  ms_limits s' = ms_limits s -> store_ok s' -> gate_ok (ms_gate s') -> advances s s' ->
  moves w_flight (inFlight (ms_gate s)) (inFlight (ms_gate s')) ->
  moves w_holds (Z.of_nat (flag (negb (ms_token s)))) (Z.of_nat (flag (negb (ms_token s')))) ->
  moves w_waits (ms_waiters s) (ms_waiters s') ->
  moves w_once (Z.of_nat (flag (is_running (ms_closeOnce s))))
    (Z.of_nat (flag (is_running (ms_closeOnce s')))) ->
  (ms_closeOnce s' <> OnceNew -> drainPublished (ms_gate s') = true) ->
  moves w_cleared (ms_clearCount s - Z.of_nat (flag (is_once_done (ms_closeOnce s))))
    (ms_clearCount s' - Z.of_nat (flag (is_once_done (ms_closeOnce s')))) ->
  (ms_clearCount s' <> 0 -> ms_entries s' = ∅ /\ ms_expiries s' = []) ->
  (g_state (ms_gate s') = StoreClosed -> ms_closeOnce s' = OnceDone) ->
  thread_ok s' (MkThread (th_call t) p) ->
  (ms_clearCount s' = 0 -> ms_clearCount s = 0 /\ contents s' = contents s /\ ms_lastNow s' = ms_lastNow s) ->
  (forall a, answer_of (MkThread (th_call t) p) = Some a -> answer_of t = Some a) ->
  inv (MkConfig s' (<[i := MkThread (th_call t) p]> ts) log).
Proof using Hi Ht.
  intros HL Hs Hg Hadv M1 M2 M3 M4 Hd M5 He Hcl Hok Hrun Hans.
  pose proof (total_insert w_flight ts i t (th_call t) p Ht) as T1.
  pose proof (total_insert w_holds ts i t (th_call t) p Ht) as T2.
  pose proof (total_insert w_waits ts i t (th_call t) p Ht) as T3.
  pose proof (total_insert w_once ts i t (th_call t) p Ht) as T4.
  pose proof (total_insert w_cleared ts i t (th_call t) p Ht) as T5.
  destruct Hi as [_ _ I1 I2 I3 I4 _ I5 _ _ Ith Irun Ilog Ians]. unfold moves in *. cbn [c_store c_threads c_log] in *.
  split; cbn [c_store c_threads c_log]; try done; try lia.
  - intros j u. destruct (decide (j = i)) as [->|Hne].
    + rewrite list_lookup_insert_eq by (by eapply lookup_lt_Some). by intros [= <-].
    + rewrite list_lookup_insert_ne by done. intros Hu. eapply thread_ok_advances; [exact Hadv | by eapply Ith].
  - destruct Irun as (m & t0 & Hr & Heq). exists m, t0. rewrite HL. split; [done | ].
    intros Hz. destruct (Hrun Hz) as (Hz' & -> & ->). by apply Heq.
  - intros j e Hin. destruct (Ilog j e Hin) as (u & Hu & Hl). destruct (decide (j = i)) as [->|Hne].
    + rewrite list_lookup_insert_eq by (by eapply lookup_lt_Some). eexists. split; [done | ]. by simplify_eq.
    + rewrite list_lookup_insert_ne by done. by exists u.
  - intros j u a. destruct (decide (j = i)) as [->|Hne].
    + rewrite list_lookup_insert_eq by (by eapply lookup_lt_Some). intros [= <-] Ha. by eapply Ians, Hans.
    + rewrite list_lookup_insert_ne by done. apply Ians.
Qed.
End quiet_step.

Lemma goes_inv {A} (m : outcome ErrorCode A * memoryStoreState) f g p s' ev :
  goes m f g = Some (p, s', ev) ->
  ev = None /\ ((exists a, m = (Ret a, s') /\ p = f a) \/ (exists e, m = (Fail e, s') /\ p = g (Fail e)) \/
                (m = (Crash, s') /\ p = g Crash)).
Proof. destruct m as [[a|e|] s1]; cbn; intros [= <- <- <-]; eauto 10. Qed.
Lemma validate_spec op ctx key s :
  (exists st, validate op ctx key s = (Ret st, s) /\ key = Some st) \/ (exists e, validate op ctx key s = (Fail e, s)).
Proof.
  assert ((exists st, validateKeyRequest ctx key s = (Ret st, s) /\ key = Some st) \/
    (exists e, validateKeyRequest ctx key s = (Fail e, s))) as H1.
  { unfold validateKeyRequest. match goal with |- context [(?m, s)] => destruct m as [st|e|] eqn:E end.
    - left. exists st. split; [done | ]. apply obind_ret_inv in E as (_ & _ & E). apply obind_ret_inv in E as (_ & _ & E).
      destruct key as [k|]; [ | done]. apply obind_ret_inv in E as (_ & _ & E). by injection E as ->.
    - right. by eexists.
    - exfalso. revert E. apply obind_no_crash; [apply preflight_no_crash | intros _ _]. crash_free. }
  assert (forall retention, (exists st, validateCheckRequest ctx key retention s = (Ret st, s) /\ key = Some st) \/
    (exists e, validateCheckRequest ctx key retention s = (Fail e, s))) as H2.
  { intros retention. unfold validateCheckRequest, sbind, slift. destruct H1 as [(st & -> & Hk) | [e ->]]; [ | right; by eexists].
    destruct (Retention_Valid _); cbn; [left; by exists st | right; by eexists]. }
  destruct op as [retention | retention lease | ]; cbn [validate]; [apply H2 | | apply H1].
  unfold sbind, slift. destruct (H2 retention) as [(st & -> & Hk) | [e ->]]; [ | right; by eexists].
  destruct (Lease_Valid _); cbn; [left; by exists st | right; by eexists].
Qed.
Lemma recheck_spec env s :
  recheckAdmission env s = (Ret tt, s) \/ exists e, recheckAdmission env s = (Fail e, s).
Proof.
  unfold recheckAdmission, sget, slift, sbind. destruct (PreflightContext _) as [[]|e|] eqn:E; [ | by right; eexists | by apply preflight_no_crash in E].
  destruct (gate_State _); cbn; eauto.
Qed.

(** Consequences of the invariant. *)
Section consequences.
Context (s : memoryStoreState) (ts : list thread) (log : list (nat * event)) (Hi : inv (MkConfig s ts log)).

Lemma cleared_once : (0 < ms_clearCount s)%Z -> ms_closeOnce s <> OnceNew.
Proof using Hi.
  pose proof (i_clears _ Hi) as H. pose proof (i_once _ Hi) as Ho. cbn in *. intros Hc E. rewrite E in *. cbn in *.
  pose proof (total_le w_cleared w_once ts ltac:(intros []; cbn; lia)). lia.
Qed.
Lemma clear_nonneg : 0 <= ms_clearCount s.
Proof using Hi. pose proof (i_clears _ Hi) as H. cbn in *. lia. Qed.
Lemma flight_open i t :
  ts !! i = Some t -> w_flight (th_pc t) = 1%nat ->
  0 < inFlight (ms_gate s) /\ drainPublished (ms_gate s) = false /\ ms_closeOnce s = OnceNew /\ ms_clearCount s = 0 /\
  g_state (ms_gate s) <> StoreClosed.
Proof using Hi.
  intros Ht Hw. pose proof (i_flight _ Hi) as Hf. cbn in Hf. pose proof (total_member w_flight ts i t Ht) as Hm.
  pose proof (i_gate _ Hi) as Hg. cbn in Hg. assert (0 < inFlight (ms_gate s)) as Hp by lia.
  assert (drainPublished (ms_gate s) = false) as Hd.
  { destruct (drainPublished (ms_gate s)) eqn:E; [ | done]. apply (go_published _ Hg) in E as [_ E]. lia. }
  assert (ms_closeOnce s = OnceNew) as Ho.
  { destruct (decide (ms_closeOnce s = OnceNew)) as [|Hn]; [done | ]. apply (i_drained _ Hi) in Hn. cbn in Hn. congruence. }
  split_and!; [done | done | done | | ].
  - destruct (decide (ms_clearCount s = 0)) as [|Hn]; [done | ]. pose proof clear_nonneg. destruct cleared_once; [lia | done].
  - intros Hc. apply (go_closed _ Hg) in Hc. congruence.
Qed.
Lemma holder_token i t : ts !! i = Some t -> w_holds (th_pc t) = 1%nat -> ms_token s = false.
Proof using Hi.
  intros Ht Hw. pose proof (i_token _ Hi) as H. cbn in H. pose proof (total_member w_holds ts i t Ht) as Hm.
  destruct (ms_token s); cbn in *; [lia | done].
Qed.
Lemma once_running i t : ts !! i = Some t -> w_once (th_pc t) = 1%nat -> ms_closeOnce s = OnceRunning.
Proof using Hi.
  intros Ht Hw. pose proof (i_once _ Hi) as H. cbn in H. pose proof (total_member w_once ts i t Ht) as Hm.
  destruct (ms_closeOnce s); cbn in *; [lia | done | lia].
Qed.
End consequences.

Lemma with_gate_id s : with_ms_gate s (ms_gate s) = s.
Proof. by destruct s. Qed.
Lemma advances_refl s : advances s s.
Proof. done. Qed.

(** A thread moves on, the state stays. *)
Lemma stay_step s ts log i t p :
  inv (MkConfig s ts log) -> ts !! i = Some t ->
  w_flight p = w_flight (th_pc t) -> w_holds p = w_holds (th_pc t) -> w_waits p = w_waits (th_pc t) ->
  w_once p = w_once (th_pc t) -> w_cleared p = w_cleared (th_pc t) ->
  thread_ok s (MkThread (th_call t) p) ->
  (forall a, answer_of (MkThread (th_call t) p) = Some a -> answer_of t = Some a) ->
  inv (MkConfig s (<[i := MkThread (th_call t) p]> ts) log).
Proof.
  intros Hi Ht E1 E2 E3 E4 E5 Hok Ha.
  apply (quiet_step s s ts log i t p Hi Ht); unfold moves; rewrite ?E1, ?E2, ?E3, ?E4, ?E5; try done; apply Hi.
Qed.

(** A step on the gate, the token, the waiters or the once; not on the data. *)
Lemma control_step s s' ts log i t p :
  inv (MkConfig s ts log) -> ts !! i = Some t ->
  ms_limits s' = ms_limits s -> ms_memory s' = ms_memory s -> ms_entries s' = ms_entries s ->
  ms_expiries s' = ms_expiries s -> ms_lastNow s' = ms_lastNow s -> ms_clearCount s' = ms_clearCount s ->
  gate_ok (ms_gate s') -> advances s s' ->
  moves t p w_flight (inFlight (ms_gate s)) (inFlight (ms_gate s')) ->
  moves t p w_holds (Z.of_nat (flag (negb (ms_token s)))) (Z.of_nat (flag (negb (ms_token s')))) ->
  moves t p w_waits (ms_waiters s) (ms_waiters s') ->
  moves t p w_once (Z.of_nat (flag (is_running (ms_closeOnce s))))
    (Z.of_nat (flag (is_running (ms_closeOnce s')))) ->
  (ms_closeOnce s' <> OnceNew -> drainPublished (ms_gate s') = true) ->
  moves t p w_cleared (- Z.of_nat (flag (is_once_done (ms_closeOnce s))))
    (- Z.of_nat (flag (is_once_done (ms_closeOnce s')))) ->
  (g_state (ms_gate s') = StoreClosed -> ms_closeOnce s' = OnceDone) ->
  thread_ok s' (MkThread (th_call t) p) ->
  (forall a, answer_of (MkThread (th_call t) p) = Some a -> answer_of t = Some a) ->
  inv (MkConfig s' (<[i := MkThread (th_call t) p]> ts) log).
Proof.
  intros Hi Ht E1 E2 E3 E4 E5 E6 Hg Hadv M1 M2 M3 M4 Hd M5 Hc Hok Ha.
  destruct (store_ok_ext s s' E1 E2 E3 E4 (i_store _ Hi)) as [Hs' Ec].
  apply (quiet_step s s' ts log i t p Hi Ht); try done.
  - unfold moves in *. rewrite E6. lia.
  - rewrite E6, E3, E4. apply (i_empty _ Hi).
  - by rewrite E6.
Qed.

Ltac use_thread Hi Ht Ep Ec Hok :=
  pose proof (i_threads _ Hi _ _ Ht) as Hok; cbn [c_store] in Hok; unfold thread_ok in Hok; rewrite Ep, Ec in Hok.
Ltac counts Ep := unfold moves; rewrite ?Ep; cbn; try done; try lia.

Lemma op_step_quiet env s ts log i t op key p s' ev :
  inv (MkConfig s ts log) -> ts !! i = Some t -> th_call t = CallOp op key ->
  (forall st, th_pc t <> PChecked st) -> thread_step env t s = Some (p, s', ev) ->
  ev = None /\ inv (MkConfig s' (<[i := MkThread (th_call t) p]> ts) log).
Proof.
  intros Hi Ht Ec Hnc Hst. unfold thread_step in Hst. rewrite Ec in Hst. pose proof (i_gate _ Hi) as Hg. cbn in Hg.
  destruct (th_pc t) as [ | st | st | st | st | st acq | st | st | out | out | | | | | | | | | | out] eqn:Ep; try done.
  - apply goes_inv in Hst as [-> Hst]. split; [done | ].
    destruct (validate_spec op (env_ctx env) key s) as [(st & E & Hk) | [e E]]; rewrite E in Hst;
      destruct Hst as [(a & [= <- <-] & ->) | [(e' & [= <- <-] & ->) | ([=] & _)]];
      (eapply stay_step; [exact Hi | exact Ht | rewrite ?Ep; done.. | unfold thread_ok; rewrite ?Ec; done | done]).
  - apply goes_inv in Hst as [-> Hst]. split; [done | ]. use_thread Hi Ht Ep Ec Hok. unfold admitGate in Hst.
    destruct (gate_admit (ms_gate s) StoreReady) as [r g] eqn:Ea.
    destruct Hst as [([] & [= -> <-] & ->) | [(e & [= -> <-] & ->) | ([= -> <-] & _)]].
    + destruct (admit_ok _ _ _ Hg ltac:(by left) Ea) as (Hg' & E1 & E2 & E3).
      assert (drainPublished g = drainPublished (ms_gate s)) as Ed
        by (revert Ea; unfold gate_admit; destruct (decide _); [by intros [= <-] | by destruct (g_state (ms_gate s))]).
      eapply control_step; [exact Hi | exact Ht | try done..]; try (by counts Ep).
      * split; [ | split; [ | split]]; cbn; rewrite ?Ed; [ | done | done | congruence].
        unfold closing. rewrite E1, E2. intros [?|?]; done.
      * cbn. rewrite Ed. apply (i_drained _ Hi).
      * cbn. congruence.
      * unfold thread_ok. by rewrite Ec.
    + assert (g = ms_gate s) as -> by (revert Ea; unfold gate_admit; destruct (decide _); [done | by destruct (g_state (ms_gate s)); intros [= _ <-]]).
      rewrite with_gate_id. eapply stay_step; [exact Hi | exact Ht | rewrite ?Ep; done.. | unfold thread_ok; rewrite ?Ec; done | done].
    + revert Ea. unfold gate_admit. destruct (decide _); [done | by destruct (g_state (ms_gate s))].
  - apply goes_inv in Hst as [-> Hst]. split; [done | ]. use_thread Hi Ht Ep Ec Hok. unfold tryToken in Hst.
    destruct (ms_token s) eqn:Etok; destruct Hst as [([] & [= <-] & ->) | [(e & [=] & _) | ([=] & _)]].
    + eapply control_step; [exact Hi | exact Ht | try done..]; try (by counts Ep); try apply Hi.
      * rewrite Etok. by counts Ep.
      * unfold thread_ok. by rewrite Ec.
    + eapply stay_step; [exact Hi | exact Ht | rewrite ?Ep; done.. | unfold thread_ok; rewrite ?Ec; done | done].
  - apply goes_inv in Hst as [-> Hst]. split; [done | ]. use_thread Hi Ht Ep Ec Hok. unfold joinWaiters in Hst.
    destruct (_ <=? _); destruct Hst as [([] & [= <-] & ->) | [(e & [= <- <-] & ->) | ([=] & _)]].
    + eapply stay_step; [exact Hi | exact Ht | rewrite ?Ep; done.. | unfold thread_ok; rewrite ?Ec; done | done].
    + eapply control_step; [exact Hi | exact Ht | try done..]; try (by counts Ep); try apply Hi.
      unfold thread_ok. by rewrite Ec.
  - use_thread Hi Ht Ep Ec Hok. destruct (env_wait env) as [ | ctx].
    + unfold tryToken in Hst. destruct (ms_token s) eqn:Etok; [ | done]. injection Hst as <- <- <-. split; [done | ].
      eapply control_step; [exact Hi | exact Ht | try done..]; try (by counts Ep); try apply Hi.
      * rewrite Etok. by counts Ep.
      * unfold thread_ok. by rewrite Ec.
    + injection Hst as <- <- <-. split; [done | ].
      assert (exists e, (check PreflightContext ctx ;; Fail (A := unit) ErrorCodeInternalInvariant) = Fail e) as [e ->]
        by (destruct ctx; cbn; eauto).
      eapply stay_step; [exact Hi | exact Ht | rewrite ?Ep; done.. | unfold thread_ok; rewrite ?Ec; done | done].
  - apply goes_inv in Hst as [-> Hst]. split; [done | ]. use_thread Hi Ht Ep Ec Hok. destruct Hok as [Hk Hacq].
    destruct Hst as [([] & [= <-] & ->) | [(e & [=] & _) | ([=] & _)]].
    eapply control_step; [exact Hi | exact Ht | try done..]; try (by destruct acq as [[]|e|]; counts Ep); try apply Hi.
    unfold thread_ok. rewrite Ec. by destruct acq.
  - apply goes_inv in Hst as [-> Hst]. split; [done | ]. use_thread Hi Ht Ep Ec Hok.
    destruct (recheck_spec env s) as [E | [e E]]; rewrite E in Hst;
      destruct Hst as [([] & [= <-] & ->) | [(e' & [= <- <-] & ->) | ([=] & _)]];
      (eapply stay_step; [exact Hi | exact Ht | rewrite ?Ep; done.. | unfold thread_ok; rewrite ?Ec; done | done]).
  - by destruct (Hnc st).
  - apply goes_inv in Hst as [-> Hst]. split; [done | ]. use_thread Hi Ht Ep Ec Hok.
    destruct Hst as [([] & [= <-] & ->) | [(e & [=] & _) | ([=] & _)]].
    pose proof (holder_token _ _ _ Hi i t Ht ltac:(by rewrite Ep)) as Etok.
    eapply control_step; [exact Hi | exact Ht | try done..]; try (by counts Ep); try apply Hi.
    + rewrite Etok. by counts Ep.
    + unfold thread_ok. by rewrite Ec.
    + intros a. unfold answer_of. rewrite Ep. cbn. by destruct out.
  - apply goes_inv in Hst as [-> Hst]. split; [done | ]. use_thread Hi Ht Ep Ec Hok.
    destruct (flight_open _ _ _ Hi i t Ht ltac:(by rewrite Ep)) as (Hf & Hd & Ho & Hz & Hncl).
    destruct (finish_ok _ Hg Hf) as (g & E & Hg' & Es & Ein). unfold finishGate in Hst. rewrite E in Hst.
    destruct Hst as [([] & [= <-] & ->) | [(e & [=] & _) | ([=] & _)]].
    eapply control_step; [exact Hi | exact Ht | try done..]; try (by counts Ep).
    + split; [ | split; [ | split]]; cbn; [unfold closing; by rewrite Es | congruence | congruence | by rewrite Es].
    + cbn. rewrite Es. done.
    + unfold thread_ok. rewrite Ec. by destruct out.
    + intros a. unfold answer_of, done. rewrite Ep. cbn. by destruct out.
Qed.

Lemma close_step env s ts log i t p s' ev :
  inv (MkConfig s ts log) -> ts !! i = Some t -> th_call t = CallClose -> thread_step env t s = Some (p, s', ev) ->
  ev = None /\ inv (MkConfig s' (<[i := MkThread (th_call t) p]> ts) log).
Proof.
  intros Hi Ht Ec Hst. unfold thread_step in Hst. rewrite Ec in Hst. pose proof (i_gate _ Hi) as Hg. cbn in Hg.
  destruct (th_pc t) as [ | st | st | st | st | st acq | st | st | out | out | | | | | | | | | | out] eqn:Ep; try done;
    use_thread Hi Ht Ep Ec Hok.
  - apply goes_inv in Hst as [-> Hst]. split; [done | ]. unfold slift in Hst.
    destruct Hst as [(a & [= Hp <-] & ->) | [(e & [= Hp <-] & ->) | ([= Hp] & _)]]; [ | | by apply preflight_no_crash in Hp];
      (eapply stay_step; [exact Hi | exact Ht | rewrite ?Ep; done.. | unfold thread_ok; rewrite ?Ec; done | done]).
  - apply goes_inv in Hst as [-> Hst]. split; [done | ]. destruct (beginClose_ok _ Hg) as (g & E & Hg' & Ein & Es & Hd).
    unfold liftGate in Hst. rewrite E in Hst.
    destruct Hst as [([] & [= <-] & ->) | [(e & [=] & _) | ([=] & _)]].
    assert (closing g) as Hcl by (unfold closing; rewrite Es; destruct (decide _); [by right | by left]).
    eapply control_step; [exact Hi | exact Ht | try done..]; try (by counts Ep).
    + split; [ | split; [ | split]]; cbn; [done | done | done | intros Hc; by rewrite Es, decide_True].
    + cbn. intros Ho. apply Hd. by apply (i_drained _ Hi).
    + cbn. rewrite Es. destruct (decide _) as [E'|]; [ | done]. intros _. by apply (i_closed _ Hi).
    + unfold thread_ok. by rewrite Ec.
  - injection Hst as <- <- <-. split; [done | ]. unfold drainedNow. rewrite (go_drained _ Hg).
    destruct (drainPublished (ms_gate s)) eqn:Ed;
      (eapply stay_step; [exact Hi | exact Ht | rewrite ?Ep; done.. | unfold thread_ok; rewrite ?Ec; done | done]).
  - destruct (env_wait env) as [ | ctx].
    + unfold drainedNow in Hst. rewrite (go_drained _ Hg) in Hst. destruct (drainPublished (ms_gate s)) eqn:Ed; [ | done].
      injection Hst as <- <- <-. split; [done | ].
      eapply stay_step; [exact Hi | exact Ht | rewrite ?Ep; done.. | unfold thread_ok; rewrite ?Ec; done | done].
    + apply goes_inv in Hst as [-> Hst]. split; [done | ]. unfold slift, waitForDrain in Hst.
      assert (exists e, (check PreflightContext ctx ;; Fail (A := unit) ErrorCodeInternalInvariant) = Fail e) as [e E]
        by (destruct ctx; cbn; eauto).
      rewrite E in Hst. destruct Hst as [(a & [=] & _) | [(e' & [= <- <-] & ->) | ([=] & _)]].
      eapply stay_step; [exact Hi | exact Ht | rewrite ?Ep; done.. | unfold thread_ok; rewrite ?Ec; done | done].
  - destruct (ms_closeOnce s) eqn:Eo; [ | done | ].
    + injection Hst as <- <- <-. split; [done | ].
      eapply control_step; [exact Hi | exact Ht | try done..]; try (by counts Ep); try apply Hi; cbn; rewrite ?Eo; try done;
        try (by counts Ep).
      * split; [ | split; [ | split]]; cbn; try done. congruence.
      * intros Hc. apply (i_closed _ Hi) in Hc. cbn in Hc. congruence.
      * unfold thread_ok. by rewrite Ec.
    + injection Hst as <- <- <-. split; [done | ].
      eapply stay_step; [exact Hi | exact Ht | rewrite ?Ep; done.. | unfold thread_ok; rewrite ?Ec; done | done].
  - unfold tryToken in Hst. destruct (ms_token s) eqn:Etok; [ | done]. injection Hst as <- <- <-. split; [done | ].
    eapply control_step; [exact Hi | exact Ht | try done..]; try (by counts Ep); try apply Hi.
    + rewrite Etok. by counts Ep.
    + unfold thread_ok. by rewrite Ec.
  - apply goes_inv in Hst as [-> Hst]. split; [done | ].
    destruct Hst as [([] & [= <-] & ->) | [(e & [=] & _) | ([=] & _)]].
    pose proof (once_running _ _ _ Hi i t Ht ltac:(by rewrite Ep)) as Eo.
    pose proof (clear_nonneg _ _ _ Hi) as Hnn.
    destruct (i_store _ Hi) as [v Hs]. cbn in Hs.
    apply (quiet_step s _ ts log i t CCleared Hi Ht); try done; try (by counts Ep).
    + exists v. split; cbn; [apply Hs | apply NoDup_nil_2 | done | done | | ].
      * intros k q. rewrite lookup_empty, elem_of_nil. naive_solver.
      * pose proof (i_store _ Hi) as Hl. pose proof (sr_size _ _ Hs). pose proof (len_nonneg (ms_expiries s)). unfold len at 1. cbn. lia.
    + apply (i_closed _ Hi).
    + unfold thread_ok. by rewrite Ec.
  - apply goes_inv in Hst as [-> Hst]. split; [done | ].
    destruct Hst as [([] & [= <-] & ->) | [(e & [=] & _) | ([=] & _)]].
    pose proof (holder_token _ _ _ Hi i t Ht ltac:(by rewrite Ep)) as Etok.
    eapply control_step; [exact Hi | exact Ht | try done..]; try (by counts Ep); try apply Hi.
    + rewrite Etok. by counts Ep.
    + unfold thread_ok. by rewrite Ec.
  - injection Hst as <- <- <-. split; [done | ].
    pose proof (once_running _ _ _ Hi i t Ht ltac:(by rewrite Ep)) as Eo.
    eapply control_step; [exact Hi | exact Ht | try done..]; try (by counts Ep); cbn; rewrite ?Eo; try (by counts Ep).
    unfold thread_ok. rewrite Ec. split; [ | done]. done.
  - destruct Hok as [Hd Hdone]. apply goes_inv in Hst as [-> Hst]. split; [done | ].
    destruct (publishClosed_ok _ Hg Hd) as (g & E & Hg' & Es & Ein). unfold liftGate in Hst. rewrite E in Hst.
    destruct Hst as [([] & [= <-] & ->) | [(e & [=] & _) | ([=] & _)]].
    assert (inFlight (ms_gate s) = 0) as Ei by (by apply (go_published _ Hg)).
    eapply control_step; [exact Hi | exact Ht | try done..]; try (by counts Ep).
    + split; [ | split; [ | split]]; cbn; [by right; rewrite Es | intros _; by apply (go_closed _ Hg') | done | done].
    + cbn. intros _. by apply (go_closed _ Hg').
    + unfold thread_ok. by rewrite Ec.
Qed.

(** The step that performs an operation. *)
Lemma degrade_open g : gate_ok g -> gate_ok (degrade g) /\ inFlight (degrade g) = inFlight g /\
  drainPublished (degrade g) = drainPublished g /\ (closing g -> closing (degrade g)) /\
  (g_state (degrade g) = StoreClosed <-> g_state g = StoreClosed).
Proof.
  intros Hg. destruct (degrade_ok g Hg) as (H1 & H2 & H3). split_and!; [done | done | | | ].
  - unfold degrade. by destruct (decide _).
  - intros Hc. by rewrite H3.
  - unfold degrade. destruct (decide _) as [E|]; [by rewrite E | done].
Qed.
Lemma degrade_step s ts log i t p :
  inv (MkConfig s ts log) -> ts !! i = Some t ->
  w_flight p = w_flight (th_pc t) -> w_holds p = w_holds (th_pc t) -> w_waits p = w_waits (th_pc t) ->
  w_once p = w_once (th_pc t) -> w_cleared p = w_cleared (th_pc t) ->
  (forall s', thread_ok s' (MkThread (th_call t) p)) ->
  (forall a, answer_of (MkThread (th_call t) p) = Some a -> answer_of t = Some a) ->
  inv (MkConfig (with_ms_gate s (degrade (ms_gate s))) (<[i := MkThread (th_call t) p]> ts) log).
Proof.
  intros Hi Ht E1 E2 E3 E4 E5 Hok Ha. destruct (degrade_open _ (i_gate _ Hi)) as (Hg' & Ein & Ed & Hcl & Hcd). cbn in *.
  eapply control_step; [exact Hi | exact Ht | try done..]; unfold moves; rewrite ?E1, ?E2, ?E3, ?E4, ?E5; cbn; rewrite ?Ein, ?Ed; try done.
  - split; [done | ]. cbn. by rewrite Ed, Hcd.
  - apply (i_drained _ Hi).
  - intros Hc. by apply (i_closed _ Hi), Hcd.
Qed.

Lemma logged_event op storage times out ev :
  event_of op storage times out = Some ev -> wf_time times.1 -> op_times op times ->
  logged (CallOp op (Some storage)) ev.
Proof.
  destruct op as [retention | retention lease | ]; cbn [event_of].
  - intros [= <-] Hw Ht. by split.
  - destruct (After _ _); intros [= <-] Hw Ht. by split.
  - intros [= <-] Hw Ht. by split.
Qed.
Lemma perform_answer op storage times s out s' a :
  perform op storage times s = (out, s') -> out = Ret a ->
  match op, a with OpCheck _, ACheck _ | OpReserve _ _, AReserve _ | OpCommit, ACommit _ => True | _, _ => False end.
Proof.
  destruct op as [retention | retention lease | ]; cbn [perform]; unfold smap, sbind.
  - destruct (checkMutation _ _ s) as [[c|e|] s1]; intros [= <- <-]; intros [=]; by subst a.
  - destruct (reserveMutation _ _ _ s) as [[c|e|] s1]; intros [= <- <-]; intros [=]; by subst a.
  - destruct (commitMutation _ _ s) as [[c|e|] s1]; intros [= <- <-]; intros [=]; by subst a.
Qed.

Lemma section_step env s ts log i t op key st p s' ev :
  inv (MkConfig s ts log) -> env_wf env -> ts !! i = Some t -> th_call t = CallOp op key -> th_pc t = PChecked st ->
  thread_step env t s = Some (p, s', ev) ->
  inv (MkConfig s' (<[i := MkThread (th_call t) p]> ts) (log ++ (if ev is Some e then [(i, e)] else []))).
Proof.
  intros Hi Henv Ht Ec Ep Hst. unfold thread_step in Hst. rewrite Ec, Ep in Hst. use_thread Hi Ht Ep Ec Hok. subst key.
  destruct (capture_spec op env s) as [(times & E & Hclk & Hacc & Htm) | [[e E] | [e E]]]; rewrite E in Hst.
  2: { injection Hst as <- <- <-. rewrite app_nil_r.
       eapply stay_step; [exact Hi | exact Ht | rewrite ?Ep; done.. | unfold thread_ok; rewrite ?Ec; done | done]. }
  2: { injection Hst as <- <- <-. rewrite app_nil_r.
       eapply degrade_step; [exact Hi | exact Ht | rewrite ?Ep; done.. | intros s'; unfold thread_ok; rewrite ?Ec; done | done]. }
  destruct (perform_spec op st times s (i_store _ Hi)) as (out & s1 & Eperf & Hnc & Hs1 & Hctl & Hev).
  rewrite Eperf in Hst. injection Hst as <- <- <-.
  destruct (event_of op st times out) as [e|] eqn:Ee.
  2: { destruct Hev as [[e' ->] ->]. rewrite app_nil_r.
       eapply degrade_step; [exact Hi | exact Ht | rewrite ?Ep; done.. | intros s'; unfold thread_ok; rewrite ?Ec; done | done]. }
  destruct Hev as (Hp & Hnow & Hlast & Hgate). destruct Hctl as (C1 & C2 & C3 & C4 & C5).
  destruct (flight_open _ _ _ Hi i t Ht ltac:(by rewrite Ep)) as (Hf & Hd & Ho & Hz & Hncl).
  pose proof (logged_event _ _ _ _ _ Ee (Henv _ Hclk) Htm) as Hlog.
  pose proof (total_insert w_flight ts i t (th_call t) (PReleasing out) Ht) as T1.
  pose proof (total_insert w_holds ts i t (th_call t) (PReleasing out) Ht) as T2.
  pose proof (total_insert w_waits ts i t (th_call t) (PReleasing out) Ht) as T3.
  pose proof (total_insert w_once ts i t (th_call t) (PReleasing out) Ht) as T4.
  pose proof (total_insert w_cleared ts i t (th_call t) (PReleasing out) Ht) as T5.
  rewrite Ep in T1, T2, T3, T4, T5. cbn in T1, T2, T3, T4, T5.
  pose proof Hi as [_ Ig I1 I2 I3 I4 Idr I5 _ Icl Ith Irun Ilog Ians]. cbn [c_store c_threads c_log] in *.
  split; cbn [c_store c_threads c_log]; rewrite ?Hgate, ?C2, ?C3, ?C4, ?C5; try done; try lia.
  - intros j u. destruct (decide (j = i)) as [->|Hne].
    + rewrite list_lookup_insert_eq by (by eapply lookup_lt_Some). intros [= <-]. unfold thread_ok. by rewrite Ec.
    + rewrite list_lookup_insert_ne by done. intros Hu. apply (thread_ok_advances s); [ | by eapply Ith].
      unfold advances. by rewrite Hgate, C4.
  - destruct Irun as (m & t0 & Hr & Heq). destruct (Heq Hz) as [-> ->]. exists (contents s1), (ev_now e).
    rewrite fmap_app. cbn [fmap list_fmap snd]. rewrite C1. split; [ | by rewrite Hlast].
    eapply run_snoc; [exact Hr | by rewrite Hnow | done].
  - intros j e' [Hin | Hin]%elem_of_app.
    + destruct (Ilog j e' Hin) as (u & Hu & Hl). destruct (decide (j = i)) as [->|Hne].
      * rewrite list_lookup_insert_eq by (by eapply lookup_lt_Some). eexists. split; [done | ]. by simplify_eq.
      * rewrite list_lookup_insert_ne by done. by exists u.
    + apply list_elem_of_singleton in Hin as [= -> ->].
      rewrite list_lookup_insert_eq by (by eapply lookup_lt_Some). eexists. split; [done | ]. cbn. by rewrite Ec.
  - intros j u a. destruct (decide (j = i)) as [->|Hne].
    + rewrite list_lookup_insert_eq by (by eapply lookup_lt_Some). intros [= <-]. unfold answer_of. cbn.
      destruct out as [a'|e'|]; intros [= ->]. exists e. split; [apply elem_of_app; right; by left | ].
      pose proof (perform_answer _ _ _ _ _ _ a Eperf eq_refl) as Hsh.
      destruct op as [retention | retention lease | ], a; try done; cbn [event_of] in Ee; [ | | ].
      * by injection Ee as <-.
      * destruct (After _ _); [by injection Ee as <- | done].
      * by injection Ee as <-.
    + rewrite list_lookup_insert_ne by done. intros Hu Ha. destruct (Ians j u a Hu Ha) as (e' & Hin & Hans).
      exists e'. split; [apply elem_of_app; by left | done].
Qed.

Lemma inv_step env c c' : inv c -> step env c c' -> inv c'.
Proof.
  intros Hi Hst. destruct Hst as [env s ts log i t p s' ev Henv Ht Hst].
  destruct (th_call t) as [op key | ] eqn:Ec.
  - destruct (th_pc t) eqn:Ep; try (rewrite <- Ec; eapply section_step; done).
    all: destruct (op_step_quiet env s ts log i t op key p s' ev Hi Ht Ec) as [-> H]; [by rewrite Ep | done | ];
      rewrite Ec in H; by rewrite app_nil_r.
  - destruct (close_step env s ts log i t p s' ev Hi Ht Ec Hst) as [-> H]. rewrite Ec in H. by rewrite app_nil_r.
Qed.
Lemma inv_arrives c c' : inv c -> arrives c c' -> inv c'.
Proof.
  intros Hi Ha. destruct Ha as [s ts log cl]. destruct Hi as [I0 Ig I1 I2 I3 I4 Idr I5 Iem Icl Ith Irun Ilog Ians]. cbn [c_store c_threads c_log] in *.
  split; cbn [c_store c_threads c_log]; rewrite ?total_app; cbn [th_pc w_flight w_holds w_waits w_once w_cleared]; rewrite ?Nat.add_0_r; try done.
  - intros i t [Ht | [Hi Ht]]%lookup_app_Some; [by eapply Ith | ]. apply list_lookup_singleton_Some in Ht as [_ <-]. by destruct cl.
  - intros i e Hin. destruct (Ilog i e Hin) as (t & Ht & Hl). exists t. split; [by apply lookup_app_l_Some | done].
  - intros i t a [Ht | [Hi Ht]]%lookup_app_Some; [by eapply Ians | ]. by apply list_lookup_singleton_Some in Ht as [_ <-].
Qed.

Lemma inv_start limits hasClock s0 : NewMemoryStore limits hasClock = Ret s0 -> inv (MkConfig s0 [] []).
Proof.
  unfold NewMemoryStore. intros (_ & _ & (L & HL & [= <-])%obind_ret_inv)%obind_ret_inv.
  apply ResolveLimits_ok in HL as Hok.
  split; cbn [c_store c_threads c_log]; try done.
  - exists (fun _ => MkEntry [] zeroTime 0 entryFirstSeen PropagationStateUnset zeroTime).
    split; cbn; [done | apply NoDup_nil_2 | done | intros k Hk; cbn in Hk; lia | | ].
    + intros k p. rewrite lookup_empty, elem_of_nil. naive_solver.
    + unfold limits_ok, limitPairs in Hok. apply list.Forall_cons in Hok as [Hok _]. cbn in Hok. unfold len. cbn. lia.
  - exists ∅, zeroTime. split; [apply run_nil | done].
  - by intros i e Hin%elem_of_nil.
Qed.
Lemma reachable_inv limits hasClock s0 c : NewMemoryStore limits hasClock = Ret s0 -> reachable s0 c -> inv c.
Proof.
  intros H0. induction 1 as [ | c c' _ IH Ha | env c c' _ IH Hs]; [by eapply inv_start | by eapply inv_arrives | by eapply inv_step].
Qed.

(** * The store under concurrent calls *)
Lemma fmap_snd_split {A B} (l : list (A * B)) l1 x l2 : l = l1 ++ x :: l2 -> l.*2 = l1.*2 ++ x.2 :: l2.*2.
Proof. intros ->. by rewrite fmap_app. Qed.
Lemma run_of_log s ts log l1 l2 :
  inv (MkConfig s ts log) -> log = l1 ++ l2 -> exists m t, run (ms_limits s) l1.*2 m t.
Proof.
  intros Hi ->. destruct (i_run _ Hi) as (m & t & Hr & _). cbn in Hr. rewrite fmap_app in Hr. by eapply run_prefix.
Qed.
Lemma log_thread s ts log i e :
  inv (MkConfig s ts log) -> (i, e) ∈ log -> exists t, ts !! i = Some t /\ logged (th_call t) e.
Proof. intros Hi. apply (i_log _ Hi). Qed.
Lemma expiry_instant retention now ex :
  wf_time now -> AddTo retention now = Ret ex -> wf_time ex /\ instant ex = instant now + rt_milliseconds retention * Millisecond.
Proof. intros Hw H. apply AddTo_ok in H; [ | done]. tauto. Qed.

(** C19: At every moment of every interleaving of calls the map and the heap
    hold the same records, at most one thread holds the token, the gate counts
    the admitted calls and the queue its waiters, no section of any call has
    panicked (the drain channel is not closed twice, no heap index is out of
    range), so that no deferred recover acts, and the retained records are cleared at most once; a closed store has no admitted
    call, no record and was cleared exactly once. *)
Theorem store_invariant limits hasClock s0 c :
  NewMemoryStore limits hasClock = Ret s0 -> reachable s0 c ->
  store_ok (c_store c) /\ (total w_holds (c_threads c) <= 1)%nat /\
  inFlight (ms_gate (c_store c)) = Z.of_nat (total w_flight (c_threads c)) /\
  ms_waiters (c_store c) = Z.of_nat (total w_waits (c_threads c)) /\
  (forall i t, c_threads c !! i = Some t -> panicked (th_pc t) = false) /\
  0 <= ms_clearCount (c_store c) <= 1 /\
  (g_state (ms_gate (c_store c)) = StoreClosed ->
     total w_flight (c_threads c) = 0%nat /\ ms_entries (c_store c) = ∅ /\ ms_expiries (c_store c) = [] /\
     ms_clearCount (c_store c) = 1).
Proof.
  intros H0 Hr. pose proof (reachable_inv _ _ _ _ H0 Hr) as Hi. destruct c as [s ts log].
  pose proof Hi as [I0 Ig I1 I2 I3 I4 Idr I5 Iem Icl Ith Irun Ilog Ians]. cbn [c_store c_threads c_log] in *.
  pose proof (total_le w_cleared w_once ts ltac:(intros []; cbn; lia)) as Hle.
  assert (0 <= ms_clearCount s <= 1) as Hcc by (rewrite I5; destruct (ms_closeOnce s); cbn in *; lia).
  split; [done | ]. split; [rewrite I2; destruct (ms_token s); cbn; lia | ]. split; [done | ]. split; [done | ]. split; [ | split; [done | ]].
  - intros i t Ht. specialize (Ith i t Ht). unfold thread_ok in Ith. by destruct (th_call t), (th_pc t) as [ | | | | | ? [] | | | [] | [] | | | | | | | | | | []]; try done; destruct Ith.
  - intros Hc. pose proof (Icl Hc) as Ho. rewrite Ho in I5. cbn in I5.
    pose proof (go_closed _ Ig Hc) as Hd. destruct (go_published _ Ig Hd) as [_ Hz].
    split; [lia | ]. assert (ms_clearCount s = 1) as E by lia. destruct (Iem ltac:(lia)) as [-> ->]. done.
Qed.

(** C18: The checks of all threads are linearizable, and exact: a check that
    does not fail answers Replayed when and only when an earlier check of the
    same key answered FirstSeen less than its retention before; otherwise it
    answers FirstSeen.  Every answer a call returns is the answer of its own
    operation in the log. *)
Theorem checks_exact limits hasClock s0 c :
  NewMemoryStore limits hasClock = Ret s0 -> reachable s0 c ->
  (forall j op key a, c_threads c !! j = Some (MkThread (CallOp op key) (PDone (Ret (Some a)))) ->
     exists e, (j, e) ∈ c_log c /\ logged (CallOp op key) e /\ answers e a) /\
  (forall l1 j k now' ex' answer l2, c_log c = l1 ++ (j, EvCheck k now' ex' (Ret answer)) :: l2 ->
     (answer = CheckFirstSeen \/ answer = CheckReplayed) /\
     (answer = CheckReplayed <->
        exists i retention now ex pc,
          (i, EvCheck k now ex (Ret CheckFirstSeen)) ∈ l1 /\
          c_threads c !! i = Some (MkThread (CallOp (OpCheck retention) (Some k)) pc) /\
          instant now' < instant now + rt_milliseconds retention * Millisecond)).
Proof.
  intros H0 Hr. pose proof (reachable_inv _ _ _ _ H0 Hr) as Hi. destruct c as [s ts log]. cbn [c_threads c_log]. split.
  - intros j op key a Hj. destruct (i_answers _ Hi j _ a Hj eq_refl) as (e & Hin & Hans). cbn in Hin.
    exists e. split; [done | ]. split; [ | done]. destruct (log_thread _ _ _ _ _ Hi Hin) as (t & Ht & Hl). by simplify_eq/=.
  - intros l1 j k now' ex' an l2 El.
    destruct (run_of_log s ts log (l1 ++ [(j, EvCheck k now' ex' (Ret an))]) l2 Hi) as (m & t & Hrun); [by rewrite <- app_assoc | ].
    rewrite fmap_app in Hrun. cbn [fmap list_fmap snd] in Hrun. destruct (check_exact _ _ _ _ _ _ _ _ Hrun) as [Hc Hiff].
    split; [done | ]. rewrite Hiff.
    assert (wf_time now') as Hw'.
    { destruct (log_thread _ _ _ j _ Hi ltac:(rewrite El; apply elem_of_app; right; by left)) as (u & _ & Hw & _). done. }
    assert (forall i now ex, (i, EvCheck k now ex (Ret CheckFirstSeen)) ∈ l1 ->
      exists retention pc, ts !! i = Some (MkThread (CallOp (OpCheck retention) (Some k)) pc) /\ wf_time ex /\
        instant ex = instant now + rt_milliseconds retention * Millisecond) as Hthread.
    { intros i now ex Hin. destruct (log_thread _ _ _ i _ Hi ltac:(rewrite El; apply elem_of_app; by left)) as ([cl p] & Hu & Hw & Hl).
      cbn in Hl. destruct cl as [[retention | retention lease | ] key | ]; try done. destruct Hl as [-> Ha].
      apply expiry_instant in Ha; [ | done]. eauto 10. }
    split.
    + intros (now & ex & ([i e] & Ee & Hin)%list_elem_of_fmap & Hx). cbn in Ee. subst e.
      destruct (Hthread _ _ _ Hin) as (retention & p & Hu & Hwx & Hex).
      exists i, retention, now, ex, p. split; [done | ]. split; [done | ]. rewrite <- Hex. by apply After_instant.
    + intros (i & retention & now & ex & p & Hin & Hu & Hlt).
      destruct (Hthread _ _ _ Hin) as (retention' & p' & Hu' & Hwx & Hex). simplify_eq.
      exists now, ex. split; [by apply (list_elem_of_fmap_2 snd _ _ Hin) | ]. apply After_instant; [done | done | lia].
Qed.

(** C21: A propagation key has one holder per lease: between two successful
    reservations of a key by any threads the first one's lease or retention has
    run out; and once a reservation has been committed, no reservation of the
    key succeeds until its retention has run out. *)
Theorem propagation_exclusive limits hasClock s0 c :
  NewMemoryStore limits hasClock = Ret s0 -> reachable s0 c ->
  (forall l1 i k now ex ls l2 j now' ex' ls' l3,
     c_log c = l1 ++ [(i, EvReserve k now ex ls (Ret PropagationReserved))] ++ l2 ++
               [(j, EvReserve k now' ex' ls' (Ret PropagationReserved))] ++ l3 ->
     After ls now' = false \/ After ex now' = false) /\
  (forall l1 i k now ex ls l2 h now2 l3 j now' ex' ls' l4,
     c_log c = l1 ++ [(i, EvReserve k now ex ls (Ret PropagationReserved))] ++ l2 ++
               [(h, EvCommit k now2 (Ret PropagationCommitted))] ++ l3 ++
               [(j, EvReserve k now' ex' ls' (Ret PropagationReserved))] ++ l4 ->
     Forall (fun x => ~ is_reserved k x.2) l2 -> After ex now' = false).
Proof.
  intros H0 Hr. pose proof (reachable_inv _ _ _ _ H0 Hr) as Hi. destruct c as [s ts log]. cbn [c_threads c_log]. split.
  - intros l1 i k now ex ls l2 j now' ex' ls' l3 El.
    destruct (run_of_log s ts log (l1 ++ [(i, EvReserve k now ex ls (Ret PropagationReserved))] ++ l2 ++
      [(j, EvReserve k now' ex' ls' (Ret PropagationReserved))]) l3 Hi) as (m & t & Hrun); [by rewrite <- !app_assoc | ].
    rewrite !fmap_app in Hrun. cbn [fmap list_fmap snd] in Hrun. by eapply reservation_exclusive.
  - intros l1 i k now ex ls l2 h now2 l3 j now' ex' ls' l4 El Hno.
    destruct (run_of_log s ts log (l1 ++ [(i, EvReserve k now ex ls (Ret PropagationReserved))] ++ l2 ++
      [(h, EvCommit k now2 (Ret PropagationCommitted))] ++ l3 ++
      [(j, EvReserve k now' ex' ls' (Ret PropagationReserved))]) l4 Hi) as (m & t & Hrun); [by rewrite <- !app_assoc | ].
    rewrite !fmap_app in Hrun. cbn [fmap list_fmap snd] in Hrun. eapply committed_final; [exact Hrun | ].
    by apply list.Forall_fmap.
Qed.

(** ** Progress *)
Definition rank (p : pc) : nat :=
  match p with
  | PStart => 12 | PValid _ => 11 | PAdmitted _ => 10 | PRefused _ => 9 | PQueued _ => 8 | PLeaving _ _ => 7
  | PHolding _ => 6 | PChecked _ => 5 | PReleasing _ => 4 | PFinishing _ => 3
  | CBegin => 11 | CPoll => 10 | CDraining => 9 | COnce => 8 | CClearing => 7 | CToken => 6 | CCleared => 5
  | CMark => 4 | CPublish => 3 | PDone _ => 0
  end.
Lemma goes_rank {A} (m : outcome ErrorCode A * memoryStoreState) f g p s' ev n :
  goes m f g = Some (p, s', ev) -> (forall a, rank (f a) < n)%nat -> (forall o, rank (g o) < n)%nat -> (rank p < n)%nat.
Proof. intros (_ & [(a & _ & ->) | [(e & _ & ->) | (_ & ->)]])%goes_inv Hf Hg; auto. Qed.
Lemma thread_step_rank env t s p s' ev : thread_step env t s = Some (p, s', ev) -> (rank p < rank (th_pc t))%nat.
Proof.
  unfold thread_step. destruct t as [[op key|] pc0]; cbn [th_call th_pc].
  - destruct pc0 as [ | st | st | st | st | st acq | st | st | out | out | | | | | | | | | | out]; try done.
    1-4: intros H; eapply goes_rank; [exact H | intros []; cbn; lia | intros o; cbn; lia].
    + destruct (env_wait env); [ | intros [= <- <- <-]; cbn; lia]. destruct (tryToken s) as [[[]|?|] ?]; [ | done..].
      intros [= <- <- <-]. cbn. lia.
    + intros H; eapply goes_rank; [exact H | intros ?; destruct acq; cbn; lia | intros o; cbn; lia].
    + intros H; eapply goes_rank; [exact H | intros []; cbn; lia | intros o; cbn; lia].
    + destruct (capture op env s) as [[times|e|] s1]; [destruct (perform op st times s1) as [out s2] | | ];
        intros [= <- <- <-]; cbn; lia.
    + intros H; eapply goes_rank; [exact H | intros []; cbn; lia | intros o; cbn; lia].
    + intros H; eapply goes_rank; [exact H | intros []; cbn; lia | intros o; cbn; lia].
  - destruct pc0 as [ | st | st | st | st | st acq | st | st | out | out | | | | | | | | | | out]; try done.
    + intros H; eapply goes_rank; [exact H | intros []; cbn; lia | intros o; cbn; lia].
    + intros H; eapply goes_rank; [exact H | intros []; cbn; lia | intros o; cbn; lia].
    + intros [= <- <- <-]. destruct (drainedNow _); cbn; lia.
    + destruct (env_wait env); [destruct (drainedNow _); [ | done]; intros [= <- <- <-]; cbn; lia | ].
      intros H; eapply goes_rank; [exact H | intros []; cbn; lia | intros o; cbn; lia].
    + destruct (ms_closeOnce s); [ | done | ]; intros [= <- <- <-]; cbn; lia.
    + destruct (tryToken s) as [[[]|?|] ?]; [ | done..]. intros [= <- <- <-]. cbn. lia.
    + intros H; eapply goes_rank; [exact H | intros []; cbn; lia | intros o; cbn; lia].
    + intros H; eapply goes_rank; [exact H | intros []; cbn; lia | intros o; cbn; lia].
    + intros [= <- <- <-]. cbn. lia.
    + intros H; eapply goes_rank; [exact H | intros []; cbn; lia | intros o; cbn; lia].
Qed.
Definition work (c : config) : nat := total rank (c_threads c).
Lemma step_work env c c' : step env c c' -> (work c' < work c)%nat.
Proof.
  intros Hst. destruct Hst as [env s ts log i t p s' ev Henv Ht Hst]. unfold work. cbn.
  pose proof (total_insert rank ts i t (th_call t) p Ht). pose proof (thread_step_rank _ _ _ _ _ _ Hst). lia.
Qed.

(** A context that does not end, a clock that answers. *)
Definition active (env : Environment) : Prop :=
  env_wf env /\ env_ctx env = CtxActive /\ env_wait env = ChannelReady.
Definition can_step (env : Environment) (s : memoryStoreState) (t : thread) : Prop := is_Some (thread_step env t s).

Lemma goes_some {A} (m : outcome ErrorCode A * memoryStoreState) f g : is_Some (goes m f g).
Proof. destruct m as [[a|e|] s]; by eexists. Qed.
Lemma op_can_step env s t :
  active env -> thread_ok s t -> is_done t = false ->
  (exists st, th_pc t = PQueued st /\ ms_token s = false) \/ can_step env s t \/ th_call t = CallClose.
Proof.
  intros (_ & _ & Hw) Hok Hnd. unfold can_step, thread_step, thread_ok, is_done in *.
  destruct t as [[op key|] pc0]; cbn [th_call th_pc] in *; [ | by right; right].
  destruct pc0; try done; try (right; left; apply goes_some).
  - rewrite Hw. unfold tryToken. destruct (ms_token s); [right; left; by eexists | left; eauto].
  - right. left. destruct (capture op env s) as [[times|e|] s1]; [destruct (perform op storage times s1) as [out s2] | | ]; by eexists.
Qed.
Lemma close_can_step env s t :
  active env -> thread_ok s t -> is_done t = false -> th_call t = CallClose ->
  (th_pc t = CDraining /\ drained (ms_gate s) = false) \/ (th_pc t = COnce /\ ms_closeOnce s = OnceRunning) \/
  (th_pc t = CClearing /\ ms_token s = false) \/ can_step env s t.
Proof.
  intros (_ & _ & Hw) Hok Hnd Ec. unfold can_step, thread_step, thread_ok, is_done in *.
  destruct t as [cl pc0]; cbn [th_call th_pc] in *. subst cl.
  destruct pc0; try done; try (right; right; right; apply goes_some); try (right; right; right; by eexists).
  - rewrite Hw. unfold drainedNow. destruct (drained (ms_gate s)); [right; right; right; by eexists | by left].
  - destruct (ms_closeOnce s); [right; right; right; by eexists | by right; left | right; right; right; by eexists].
  - unfold tryToken. destruct (ms_token s); [right; right; right; by eexists | by right; right; left].
Qed.
(** A holder of the token, or any thread in flight, lets some thread step. *)
Lemma flight_op s t : thread_ok s t -> w_flight (th_pc t) = 1%nat -> th_call t <> CallClose /\ is_done t = false.
Proof. unfold thread_ok, is_done. destruct (th_call t), (th_pc t); cbn; try done; naive_solver. Qed.
Lemma deadlock_free env s ts log :
  inv (MkConfig s ts log) -> active env -> (exists i t, ts !! i = Some t /\ is_done t = false) ->
  exists i t, ts !! i = Some t /\ can_step env s t.
Proof.
  intros Hi Ha (i & t & Ht & Hnd). pose proof (i_threads _ Hi) as Hok. cbn in Hok. pose proof (i_gate _ Hi) as Hg. cbn in Hg.
  pose proof (i_token _ Hi) as Itok. pose proof (i_flight _ Hi) as Ifl. pose proof (i_once _ Hi) as Ion. cbn in *.
  assert (forall j u, ts !! j = Some u -> (0 < w_holds (th_pc u))%nat -> exists i t, ts !! i = Some t /\ can_step env s t) as Hholder.
  { intros j u Hu Hh. exists j, u. split; [done | ]. pose proof (Hok _ _ Hu) as Hoku.
    assert (is_done u = false) as Hd by (unfold is_done; destruct (th_pc u); cbn in *; try done; lia).
    destruct (th_call u) as [op key|] eqn:Ec.
    - destruct (op_can_step env s u Ha Hoku Hd) as [(st & Ep & _) | [H | H]]; [by rewrite Ep in Hh; cbn in Hh; lia | done | congruence].
    - destruct (close_can_step env s u Ha Hoku Hd Ec) as [[Ep _] | [[Ep _] | [[Ep _] | H]]]; [ | | | done]; rewrite Ep in Hh; cbn in Hh; lia. }
  assert (ms_token s = false -> exists i t, ts !! i = Some t /\ can_step env s t) as Htok.
  { intros E. rewrite E in Itok. cbn in Itok. destruct (total_pos w_holds ts) as (j & u & Hu & Hh); [lia | ]. by eapply Hholder. }
  assert (forall j u, ts !! j = Some u -> th_call u <> CallClose -> is_done u = false ->
    exists i t, ts !! i = Some t /\ can_step env s t) as Hop.
  { intros j u Hu Hc Hd. destruct (op_can_step env s u Ha (Hok _ _ Hu) Hd) as [(st & _ & E) | [H | H]]; [by apply Htok | eauto | done]. }
  assert (forall j u, ts !! j = Some u -> th_call u = CallClose -> is_done u = false ->
    (th_pc u = COnce /\ ms_closeOnce s = OnceRunning) \/ exists i t, ts !! i = Some t /\ can_step env s t) as Hclose.
  { intros j u Hu Hc Hd. destruct (close_can_step env s u Ha (Hok _ _ Hu) Hd Hc) as [[Ep E] | [H | [[_ E] | H]]];
      [right | by left | right; by apply Htok | right; eauto].
    pose proof (Hok _ _ Hu) as Hoku. unfold thread_ok in Hoku. rewrite Hc, Ep in Hoku.
    assert (0 < inFlight (ms_gate s)) as Hpos.
    { destruct (decide (inFlight (ms_gate s) = 0)) as [Hz|Hz]; [ | pose proof (go_count _ Hg); lia]. exfalso.
      rewrite (go_drained _ Hg) in E. destruct Hoku as [Hs|Hs].
      - by rewrite (go_closing _ Hg Hs Hz) in E.
      - by rewrite (go_closed _ Hg Hs) in E. }
    destruct (total_pos w_flight ts) as (l & x & Hx & Hfx); [lia | ].
    assert (w_flight (th_pc x) = 1%nat) as Hfx' by (destruct (th_pc x); cbn in *; lia).
    destruct (flight_op s x (Hok _ _ Hx) Hfx') as [Hc' Hd']. by eapply Hop. }
  destruct (th_call t) as [op key|] eqn:Ec; [eapply Hop; [exact Ht | congruence | done] | ].
  destruct (Hclose i t Ht Ec Hnd) as [[Ep Eo] | H]; [ | done].
  rewrite Eo in Ion. cbn in Ion. destruct (total_pos w_once ts) as (j & u & Hu & Hw); [lia | ].
  pose proof (Hok _ _ Hu) as Hoku.
  assert (th_call u = CallClose) as Ecu by (unfold thread_ok in Hoku; destruct (th_call u), (th_pc u); cbn in *; try done; lia).
  assert (is_done u = false) as Hdu by (unfold is_done; destruct (th_pc u); cbn in *; try done; lia).
  destruct (Hclose j u Hu Ecu Hdu) as [[Epu _] | H]; [rewrite Epu in Hw; cbn in Hw; lia | done].
Qed.

Definition active_step (c c' : config) : Prop := exists env, active env /\ step env c c'.
Definition anEnvironment : Environment := MkEnv CtxActive ChannelReady CtxActive (Some zeroTime) CtxActive.
Lemma anEnvironment_active : active anEnvironment.
Proof. split; [ | done]. intros now [= <-]. split; cbn; unfold MinInt, MaxInt, Second; lia. Qed.

(** A Close that has not failed under active contexts. *)
Definition close_going (p : pc) : Prop := match p with PDone out => out = Ret None | _ => True end.
Lemma close_going_step env t s p s' ev :
  active env -> thread_ok s t -> gate_ok (ms_gate s) -> th_call t = CallClose ->
  thread_step env t s = Some (p, s', ev) -> close_going p.
Proof.
  intros (_ & Hctx & Hw) Hok Hg Ec Hst. unfold thread_step, thread_ok in *. rewrite Ec in *.
  destruct (th_pc t) as [ | st | st | st | st | st acq | st | st | out | out | | | | | | | | | | out] eqn:Ep; try done.
  - rewrite Hctx in Hst. by injection Hst as <- _ _.
  - destruct (beginClose_ok _ Hg) as (g & E & _). unfold liftGate in Hst. rewrite E in Hst. by injection Hst as <- _ _.
  - injection Hst as <- _ _. by destruct (drainedNow _).
  - rewrite Hw in Hst. destruct (drainedNow _); [ | done]. by injection Hst as <- _ _.
  - destruct (ms_closeOnce s); [ | done | ]; by injection Hst as <- _ _.
  - destruct (tryToken s) as [[[]|?|] ?]; [ | done..]. by injection Hst as <- _ _.
  - by injection Hst as <- _ _.
  - by injection Hst as <- _ _.
  - by injection Hst as <- _ _.
  - destruct Hok as [Hd _]. destruct (publishClosed_ok _ Hg Hd) as (g & E & _). unfold liftGate in Hst. rewrite E in Hst.
    by injection Hst as <- _ _.
Qed.
Lemma close_going_steps c c' j p :
  rtc active_step c c' -> inv c -> c_threads c !! j = Some (MkThread CallClose p) -> close_going p ->
  inv c' /\ exists p', c_threads c' !! j = Some (MkThread CallClose p') /\ close_going p'.
Proof.
  intros Hst. revert p. induction Hst as [c | c c1 c' (env & Ha & Hst) _ IH]; intros p Hi Hj Hp; [eauto | ].
  pose proof (inv_step _ _ _ Hi Hst) as Hi1. destruct Hst as [env s ts log i t q s' ev Henv Ht Hst]. cbn in *.
  destruct (decide (j = i)) as [->|Hne].
  - assert (t = MkThread CallClose p) as -> by congruence.
    apply (IH q Hi1); [by rewrite list_lookup_insert_eq by (by eapply lookup_lt_Some) | ].
    eapply close_going_step; [exact Ha | by apply (i_threads _ Hi i) | apply (i_gate _ Hi) | done | done].
  - apply (IH p Hi1); [by rewrite list_lookup_insert_ne | done].
Qed.
Lemma steps_inv c c' : rtc active_step c c' -> inv c -> inv c'.
Proof. induction 1 as [c | c c1 c' (env & Ha & Hst) _ IH]; [done | ]. intros Hi. by eapply IH, inv_step. Qed.


(** ** Executable schedules *)
Inductive action := Arrive (c : call) | Run (i : nat) (env : Environment).
Definition env_wfb (env : Environment) : bool :=
  match env_clock env with
  | Some now => (MinInt <=? t_sec now) && (t_sec now <=? MaxInt) && (0 <=? t_nsec now) && (t_nsec now <? Second)
  | None => true
  end.
Definition act (a : action) (c : config) : option config :=
  match a with
  | Arrive cl => Some (MkConfig (c_store c) (c_threads c ++ [MkThread cl PStart]) (c_log c))
  | Run i env =>
      if negb (env_wfb env) then None
      else
        t ← c_threads c !! i;
        '(p, s, ev) ← thread_step env t (c_store c);
        Some (MkConfig s (<[i := MkThread (th_call t) p]> (c_threads c)) (c_log c ++ (if ev is Some e then [(i, e)] else [])))
  end.
Fixpoint execute (l : list action) (c : config) : option config :=
  match l with
  | [] => Some c
  | a :: l => c ← act a c; execute l c
  end.
Lemma act_reachable s0 a c c' : reachable s0 c -> act a c = Some c' -> reachable s0 c'.
Proof.
  intros Hr. destruct a as [cl | i env], c as [s ts log]; cbn; [intros [= <-]; by eapply reachable_arrives | ].
  destruct (env_wfb env) eqn:Ew; cbn [negb]; [ | done].
  destruct (ts !! i) as [t|] eqn:Ht; cbn; [ | done]. destruct (thread_step env t s) as [[[p s'] ev]|] eqn:Hs; cbn; [ | done].
  intros [= <-]. eapply reachable_step; [exact Hr | ]. eapply step_thread; [ | exact Ht | exact Hs].
  intros now E. unfold env_wfb in Ew. rewrite E in Ew. unfold wf_time. lia.
Qed.
Lemma execute_reachable s0 l c c' : reachable s0 c -> execute l c = Some c' -> reachable s0 c'.
Proof.
  revert c. induction l as [|a l IH]; intros c Hr; cbn; [by intros [= <-] | ].
  destruct (act a c) as [c1|] eqn:E; cbn; [ | done]. intros H. eapply IH; [by eapply act_reachable | done].
Qed.

(** ** Concrete executions *)
Definition at_second (t : Z) : Environment :=
  MkEnv CtxActive ChannelReady CtxActive (Some (MkTime (63000000000 + t) 0)) CtxActive.
Definition runs (n i : nat) (t : Z) : list action := repeat (Run i (at_second t)) n.
Definition demo_key : Key := Some (render_key 1 (repeat x2a 32)).
Definition demo_storage : bytes := render_key 1 (repeat x2a 32).
Definition demo_start : memoryStoreState :=
  match NewMemoryStore (MkLimits 4 2 2 0 0) true with
  | Ret s => s
  | _ => MkStore (newLifecycleGate StoreReady) DefaultLimits true 0 ∅ ∅ [] zeroTime OnceNew 0
  end.
Definition demo (l : list action) : config := default (MkConfig demo_start [] []) (execute l (MkConfig demo_start [] [])).
Lemma demo_new : NewMemoryStore (MkLimits 4 2 2 0 0) true = Ret demo_start.
Proof. reflexivity. Qed.
Lemma demo_reachable l : is_Some (execute l (MkConfig demo_start [] [])) -> reachable demo_start (demo l).
Proof. intros [c E]. unfold demo. rewrite E. eapply execute_reachable; [apply reachable_start | exact E]. Qed.

(** Two checks of one key, the second queued behind the first; a check after
    the retention; a closing call that waits for them. *)
Definition check_call : call := CallOp (OpCheck (MkRetention 1000)) demo_key.
Definition demo_checks : list action :=
  [Arrive check_call; Arrive check_call] ++ runs 4 0 0 ++ runs 4 1 0 ++ [Arrive CallClose] ++ runs 2 2 0 ++
  runs 3 0 0 ++ runs 5 1 0.
Definition demo_twice : list action :=
  [Arrive check_call; Arrive check_call; Arrive check_call] ++ runs 7 0 0 ++ runs 7 1 0 ++ runs 7 2 1.
Lemma demo_checks_runs : is_Some (execute demo_checks (MkConfig demo_start [] [])).
Proof. vm_compute. by eexists. Qed.
Lemma demo_twice_runs : is_Some (execute demo_twice (MkConfig demo_start [] [])).
Proof. vm_compute. by eexists. Qed.
Definition reserve_call : call := CallOp (OpReserve (MkRetention 60000) (MkLease 2000)) demo_key.
Definition demo_propagation : list action :=
  [Arrive reserve_call; Arrive reserve_call; Arrive (CallOp OpCommit demo_key); Arrive reserve_call] ++
  runs 7 0 0 ++ runs 7 1 5 ++ runs 7 2 6 ++ runs 7 3 70.
Lemma demo_propagation_runs : is_Some (execute demo_propagation (MkConfig demo_start [] [])).
Proof. vm_compute. by eexists. Qed.
Definition demo_closed : list action := demo_checks ++ runs 7 2 0.
Lemma demo_closed_runs : is_Some (execute demo_closed (MkConfig demo_start [] [])).
Proof. vm_compute. by eexists. Qed.
Lemma demo_closed_state : g_state (ms_gate (c_store (demo demo_closed))) = StoreClosed.
Proof. vm_compute. reflexivity. Qed.

Lemma store_invariant_witness :
  reachable demo_start (demo demo_closed) /\
  total w_flight (c_threads (demo demo_closed)) = 0%nat /\ ms_entries (c_store (demo demo_closed)) = ∅ /\
  ms_expiries (c_store (demo demo_closed)) = [] /\ ms_clearCount (c_store (demo demo_closed)) = 1.
Proof.
  split; [apply (demo_reachable _ demo_closed_runs) | ].
  destruct (store_invariant _ _ _ _ demo_new (demo_reachable _ demo_closed_runs)) as (_ & _ & _ & _ & _ & _ & H).
  exact (H demo_closed_state).
Defined.

Definition check_event (i : nat) (t t' : Z) (c : Check) : nat * event :=
  (i, EvCheck demo_storage (MkTime (63000000000 + t) 0) (MkTime (63000000000 + t') 0) (Ret c)).
Lemma demo_twice_log :
  c_log (demo demo_twice) =
  [check_event 0 0 1 CheckFirstSeen] ++ check_event 1 0 1 CheckReplayed :: [check_event 2 1 2 CheckFirstSeen].
Proof. vm_compute. reflexivity. Qed.
Lemma checks_exact_witness :
  reachable demo_start (demo demo_twice) /\
  exists i retention now ex pc,
    (i, EvCheck demo_storage now ex (Ret CheckFirstSeen)) ∈ [check_event 0 0 1 CheckFirstSeen] /\
    c_threads (demo demo_twice) !! i = Some (MkThread (CallOp (OpCheck retention) (Some demo_storage)) pc) /\
    instant (MkTime 63000000000 0) < instant now + rt_milliseconds retention * Millisecond.
Proof.
  split; [apply (demo_reachable _ demo_twice_runs) | ].
  destruct (checks_exact _ _ _ _ demo_new (demo_reachable _ demo_twice_runs)) as [_ H].
  exact (proj1 (proj2 (H _ _ _ _ _ _ _ demo_twice_log)) eq_refl).
Defined.

Definition reserve_event (i : nat) (t : Z) : nat * event :=
  (i, EvReserve demo_storage (MkTime (63000000000 + t) 0) (MkTime (63000000000 + t + 60) 0)
        (MkTime (63000000000 + t + 2) 0) (Ret PropagationReserved)).
Definition commit_event (i : nat) (t : Z) : nat * event :=
  (i, EvCommit demo_storage (MkTime (63000000000 + t) 0) (Ret PropagationCommitted)).
Lemma demo_propagation_log :
  c_log (demo demo_propagation) =
  [reserve_event 0 0] ++ [reserve_event 1 5] ++ [] ++ [commit_event 2 6] ++ [] ++ [reserve_event 3 70] ++ [].
Proof. vm_compute. reflexivity. Qed.
Lemma propagation_exclusive_witness :
  reachable demo_start (demo demo_propagation) /\
  (After (MkTime 63000000002 0) (MkTime 63000000005 0) = false \/ After (MkTime 63000000060 0) (MkTime 63000000005 0) = false) /\
  After (MkTime 63000000065 0) (MkTime 63000000070 0) = false.
Proof.
  split; [apply (demo_reachable _ demo_propagation_runs) | ].
  destruct (propagation_exclusive _ _ _ _ demo_new (demo_reachable _ demo_propagation_runs)) as [H1 H2]. split.
  - exact (H1 [] 0%nat demo_storage _ _ _ [] 1%nat _ _ _ _ demo_propagation_log).
  - exact (H2 [reserve_event 0 0] 1%nat demo_storage _ _ _ [] 2%nat _ [] 3%nat _ _ _ [] demo_propagation_log (Forall_nil_2 _)).
Defined.

