(* ===== verification/GoStrconv.v ===== *)
(** * Go's strconv: decimal integers

    [FormatInt] and [ParseInt] in base 10 and 64 bits, with the grammar of
    what they write and read. *)

From S2P Require Import Prelude GoBytes GoTime.
#[local] Open Scope Z_scope.

Definition is_digit (b : byte) : bool := in_range x30 b x39.
Definition digit_value (b : byte) : Z := bval b - 48.
Definition digit_char (d : Z) : byte := byte_of (48 + d).

(** The digits of a positive number, least significant first in the loop. *)
Fixpoint format_loop (fuel : nat) (n : Z) (acc : bytes) : bytes :=
  match fuel with
  | O => acc
  | S fuel => if n =? 0 then acc else format_loop fuel (n / 10) (digit_char (n mod 10) :: acc)
  end.
(** 64 bits have at most 20 digits. *)
Definition format_uint (n : Z) : bytes := if n =? 0 then [x30] else format_loop 20 n [].
Definition FormatInt (z : Z) : bytes := if z <? 0 then x2d :: format_uint (- z) else format_uint z.

Definition dec_value (s : bytes) : Z := foldl (fun acc b => acc * 10 + digit_value b) 0 s.
Definition parse_uint (s : bytes) : option Z :=
  if (0 <? len s) && forallb is_digit s then Some (dec_value s) else None.
(** [None] for a syntax or a range error. *)
Definition ParseInt (s : bytes) : option Z :=
  let '(neg, digits) :=
    match s with
    | x2d :: t => (true, t)
    | x2b :: t => (false, t)
    | _ => (false, s)
    end in
  n ← parse_uint digits;
  let z := if neg : bool then - n else n in
  if (MinInt <=? z) && (z <=? MaxInt) then Some z else None.

Definition MaxUint64 : Z := 2 ^ 64 - 1.
(** [None] for a syntax or a range error. *)
Definition ParseUint (s : bytes) : option Z :=
  n ← parse_uint s; if n <=? MaxUint64 then Some n else None.

(** ** Digits *)
Lemma digit_char_facts d : 0 <= d < 10 -> is_digit (digit_char d) = true /\ digit_value (digit_char d) = d.
Proof.
  intros Hd. assert (d = 0 \/ d = 1 \/ d = 2 \/ d = 3 \/ d = 4 \/ d = 5 \/ d = 6 \/ d = 7 \/ d = 8 \/ d = 9) as H by lia.
  repeat (destruct H as [-> | H]; [done | ]). by subst d.
Qed.
Lemma is_digit_facts b : is_digit b = true -> 0 <= digit_value b < 10 /\ digit_char (digit_value b) = b.
Proof.
  unfold is_digit, in_range, digit_value, digit_char. change (bval x30) with 48. change (bval x39) with 57.
  intros H. split; [lia | ]. rewrite Z.add_comm, Z.sub_add. apply byte_of_bval.
Qed.
Lemma dec_value_snoc s b : dec_value (s ++ [b]) = dec_value s * 10 + digit_value b.
Proof. unfold dec_value. by rewrite foldl_app. Qed.
Lemma dec_value_bounds s : forallb is_digit s = true -> 0 <= dec_value s < 10 ^ len s.
Proof.
  induction s as [|b s IH] using rev_ind; [done | ]. rewrite forallb_app, dec_value_snoc, len_app. cbn [forallb].
  rewrite andb_true_r. intros [Hs Hb]%andb_true_iff. specialize (IH Hs). pose proof (is_digit_facts b Hb) as [Hv _].
  change (len [b]) with 1. rewrite Z.pow_add_r by (auto with go; lia). lia.
Qed.

(** The loop writes the digits of [n] before [acc]. *)
Lemma format_loop_spec fuel n acc :
  0 <= n < 10 ^ Z.of_nat fuel ->
  exists s, format_loop fuel n acc = s ++ acc /\ forallb is_digit s = true /\ dec_value s = n /\
    (n = 0 -> s = []) /\ (0 < n -> exists b t, s = b :: t /\ 0 < digit_value b).
Proof.
  revert n acc. induction fuel as [|fuel IH]; intros n acc Hn.
  - assert (n = 0) as -> by (cbn in Hn; lia). exists []. split_and!; try done; intros; lia.
  - cbn [format_loop]. destruct (Z.eqb_spec n 0) as [->|Hz].
    { exists []. split_and!; try done; intros; lia. }
    rewrite Nat2Z.inj_succ, Z.pow_succ_r in Hn by lia.
    destruct (IH (n / 10) (digit_char (n mod 10) :: acc)) as (s & E & Hd & Hv & H0 & H1); [lia | ].
    destruct (digit_char_facts (n mod 10)) as [Hc Hcv]; [lia | ].
    exists (s ++ [digit_char (n mod 10)]). split_and!.
    + rewrite E. by rewrite <- app_assoc.
    + rewrite forallb_app. cbn. by rewrite Hd, Hc.
    + rewrite dec_value_snoc, Hv, Hcv. lia.
    + lia.
    + intros _. destruct (decide (n / 10 = 0)) as [Ez|Ez].
      * rewrite (H0 Ez). cbn. eexists _, []. split; [done | ]. rewrite Hcv. lia.
      * destruct H1 as (b & t & -> & Hb); [lia | ]. by eexists b, _.
Qed.
Lemma format_uint_spec n :
  0 <= n < 10 ^ 20 ->
  forallb is_digit (format_uint n) = true /\ dec_value (format_uint n) = n /\ format_uint n <> [] /\
  (0 < n -> exists b t, format_uint n = b :: t /\ 0 < digit_value b).
Proof.
  intros Hn. unfold format_uint. destruct (Z.eqb_spec n 0) as [->|Hz]; [split_and!; try done; lia | ].
  destruct (format_loop_spec 20 n [] Hn) as (s & -> & Hd & Hv & _ & H1). rewrite app_nil_r.
  destruct H1 as (b & t & -> & Hb); [lia | ]. split_and!; try done. eauto.
Qed.
Lemma parse_format_uint n : 0 <= n < 10 ^ 20 -> parse_uint (format_uint n) = Some n.
Proof.
  intros Hn. destruct (format_uint_spec n Hn) as (Hd & Hv & Hne & _). unfold parse_uint. rewrite Hd, Hv.
  assert (0 <? len (format_uint n) = true) as -> by (destruct (format_uint n); [done | rewrite len_cons; pose proof (len_nonneg l); lia]).
  done.
Qed.
Lemma format_uint_head n b t : 0 <= n < 10 ^ 20 -> format_uint n = b :: t -> is_digit b = true.
Proof. intros Hn E. destruct (format_uint_spec n Hn) as (Hd & _). rewrite E in Hd. cbn in Hd. by apply andb_true_iff in Hd as [Hd _]. Qed.

(** ** Round trip *)
Lemma ParseInt_FormatInt z : MinInt <= z <= MaxInt -> ParseInt (FormatInt z) = Some z.
Proof.
  unfold MinInt, MaxInt, FormatInt, ParseInt. intros Hz. destruct (Z.ltb_spec z 0).
  - cbn [option_bind mbind]. rewrite parse_format_uint by lia. cbn. rewrite Z.opp_involutive.
    by rewrite (proj2 (Z.leb_le _ _)), (proj2 (Z.leb_le _ _)) by (unfold MinInt, MaxInt; lia).
  - pose proof (parse_format_uint z ltac:(lia)) as Hp. destruct (format_uint z) as [|b t] eqn:E; [done | ].
    pose proof (format_uint_head z b t ltac:(lia) E) as Hb.
    assert (match b :: t with x2d :: t' => (true, t') | x2b :: t' => (false, t') | _ => (false, b :: t) end = (false, b :: t)) as ->
      by (destruct b; done).
    rewrite Hp. cbn. by rewrite (proj2 (Z.leb_le _ _)), (proj2 (Z.leb_le _ _)) by (unfold MinInt, MaxInt; lia).
Qed.
Lemma ParseInt_digits s :
  s <> [] -> forallb is_digit s = true -> ParseInt s = if dec_value s <=? MaxInt then Some (dec_value s) else None.
Proof.
  intros Hne Hd. unfold ParseInt. destruct s as [|b t]; [done | ].
  assert (match b :: t with x2d :: t' => (true, t') | x2b :: t' => (false, t') | _ => (false, b :: t) end = (false, b :: t)) as ->.
  { cbn in Hd. apply andb_true_iff in Hd as [Hb _]. by destruct b. }
  unfold parse_uint. rewrite Hd. rewrite len_cons. pose proof (len_nonneg t). assert (0 <? 1 + len t = true) as -> by lia.
  cbn [andb mbind option_bind]. pose proof (dec_value_bounds _ Hd). rewrite (proj2 (Z.leb_le MinInt _)) by (unfold MinInt; lia). done.
Qed.
Lemma ParseUint_format n : 0 <= n <= MaxUint64 -> ParseUint (format_uint n) = Some n.
Proof.
  unfold MaxUint64. intros Hn. unfold ParseUint. rewrite parse_format_uint by lia. cbn [mbind option_bind].
  by rewrite (proj2 (Z.leb_le _ _)) by (unfold MaxUint64; lia).
Qed.
Lemma ParseUint_Some s n :
  ParseUint s = Some n <-> s <> [] /\ forallb is_digit s = true /\ n = dec_value s /\ n <= MaxUint64.
Proof.
  unfold ParseUint, parse_uint. destruct s as [|b s]; [by split; [ | intros [? _]] | ].
  rewrite len_cons. pose proof (len_nonneg s). rewrite (proj2 (Z.ltb_lt 0 _)) by lia. cbn [andb].
  destruct (forallb is_digit (b :: s)); [ | by split; [ | intros (_ & ? & _)]]. cbn [mbind option_bind].
  destruct (Z.leb_spec (dec_value (b :: s)) MaxUint64).
  - split; [intros [= <-]; by split_and! | by intros (_ & _ & -> & _)].
  - split; [done | ]. intros (_ & _ & -> & ?). lia.
Qed.
(** The length of a number without a sign. *)
Lemma format_uint_len n k : 0 < n < 10 ^ 20 -> 0 <= k -> len (format_uint n) <= k <-> n < 10 ^ k.
Proof.
  intros Hn Hk. destruct (format_uint_spec n ltac:(lia)) as (Hd & Hv & _ & H1).
  destruct H1 as (b & t & E & Hb); [lia | ]. rewrite E in *.
  cbn in Hd. apply andb_true_iff in Hd as [Hdb Hdt].
  assert (forall s c, forallb is_digit s = true -> dec_value (c :: s) = digit_value c * 10 ^ len s + dec_value s) as Hsplit.
  { clear. intros s c. induction s as [|x s IH] using rev_ind; [unfold dec_value; cbn [foldl]; change (len (@nil byte)) with 0; rewrite Z.pow_0_r; lia | ]. rewrite forallb_app. intros [Hs _]%andb_true_iff.
    rewrite app_comm_cons, !dec_value_snoc, IH, len_app by done. change (len [x]) with 1.
    rewrite Z.pow_add_r by (auto with go; lia). lia. }
  rewrite Hsplit in Hv by done. pose proof (dec_value_bounds t Hdt) as Ht. rewrite len_cons.
  pose proof (is_digit_facts b Hdb) as [Hbv _]. pose proof (len_nonneg t) as Hl. split.
  - intros Hle. apply (Z.lt_le_trans _ (10 ^ (1 + len t))); [ | apply Z.pow_le_mono_r; lia].
    rewrite Z.pow_add_r by lia. nia.
  - intros Hlt. destruct (Z_le_gt_dec (1 + len t) k) as [|Hgt]; [done | exfalso].
    assert (10 ^ k <= 10 ^ len t) by (apply Z.pow_le_mono_r; lia). nia.
Qed.
