(* ===== verification/ReplayValue.v ===== *)
(** * Package internal/replay: stored values (value.go, propagation.go)

    The texts a networked provider stores for a first-seen record and for a
    propagation coordinate, their parsers, and the grammars they accept. *)

From S2P Require Import Prelude GoBytes GoTime GoStrconv GoBase64 ReplayTypes.
#[local] Open Scope Z_scope.

(** ** value.go *)
Definition FirstSeenValuePrefix : bytes := bs "v2:".
Definition StoredValue : bytes := bs "v1".
Definition nonceByteLength : Z := 8.
Definition NonceHexLength : Z := 2 * nonceByteLength.

(** A nonce is an array of eight bytes. *)
Record Nonce := MkNonce { nonce_bytes : bytes }.
#[export] Instance Nonce_eq_dec : EqDecision Nonce.
Proof. solve_decision. Defined.
Definition zeroNonce : Nonce := MkNonce (repeat x00 8).
Definition Nonce_Valid (n : Nonce) : bool := negb (bool_decide (n = zeroNonce)).
(** What [io.ReadFull] delivers: eight bytes, or an error. *)
Definition NewNonce (random : option bytes) : outcome ErrorCode Nonce :=
  match random with
  | Some b =>
      check require (Nonce_Valid (MkNonce b)) ErrorCodeInternalInvariant ;; Ret (MkNonce b)
  | None => Fail ErrorCodeInternalInvariant
  end.
Definition encode (n : Nonce) : bytes := hex_encode (nonce_bytes n).
Definition parseNonce (text : bytes) : Nonce * bool :=
  if negb (len text =? NonceHexLength) then (zeroNonce, false)
  else if negb (forallb lower_hex text) then (zeroNonce, false)
  else
    match hex_decode text with
    | Some b => (MkNonce b, true)
    | None => (zeroNonce, false)
    end.
Definition FirstSeenValue (n : Nonce) : outcome ErrorCode bytes :=
  check require (Nonce_Valid n) ErrorCodeInvalidRequest ;; Ret (FirstSeenValuePrefix ++ encode n).
(** The nonce, whether the value is the legacy one, whether it is a value. *)
Definition ParseFirstSeenValue (value : bytes) : Nonce * bool * bool :=
  if bytes_equal value StoredValue then (zeroNonce, true, true)
  else if negb (len value =? len FirstSeenValuePrefix + NonceHexLength)
          || negb (bytes_equal (take (length FirstSeenValuePrefix) value) FirstSeenValuePrefix)
  then (zeroNonce, false, false)
  else
    let '(nonce, ok) := parseNonce (drop (length FirstSeenValuePrefix) value) in
    if negb ok then (zeroNonce, false, false) else (nonce, false, true).

(** ** propagation.go: the stored value of a coordinate *)
Definition PropagationCommittedValue : bytes := bs "committed".
Definition PropagationPendingPrefix : bytes := bs "pending:".
Definition maxLeaseExpiryDigits : Z := 16.
Definition colon : bytes := [x3a].

Definition PropagationPendingValue (leaseExpiry : Time) (nonce : Nonce) : outcome ErrorCode bytes :=
  let milliseconds := UnixMilli leaseExpiry in
  let digits := FormatInt milliseconds in
  check require (negb ((milliseconds <=? 0) || (maxLeaseExpiryDigits <? len digits) || negb (Nonce_Valid nonce)))
    ErrorCodeInvalidRequest ;;
  Ret (PropagationPendingPrefix ++ digits ++ colon ++ encode nonce).
(** The loop over the runes of the text accepts none that is not one of the
    ten ASCII bytes. *)
Definition parseLeaseExpiry (digits : bytes) : Time * bool :=
  if (len digits =? 0) || (maxLeaseExpiryDigits <? len digits) then (zeroTime, false)
  else if negb (forallb is_digit digits) then (zeroTime, false)
  else
    match ParseInt digits with
    | Some milliseconds =>
        if milliseconds <=? 0 then (zeroTime, false) else (unixMilli milliseconds, true)
    | None => (zeroTime, false)
    end.
Definition ParsePropagationValue (value : bytes) : PropagationState * Time * bool :=
  if bytes_equal value PropagationCommittedValue then (PropagationStateCommitted, zeroTime, true)
  else if negb (has_prefix value PropagationPendingPrefix) then (PropagationStateUnset, zeroTime, false)
  else
    let rest := drop (length PropagationPendingPrefix) value in
    let '(digits, nonceText, nonceForm) :=
      match bytes_cut rest colon with
      | Some (before, after) => (before, after, true)
      | None => (rest, [], false)
      end in
    if nonceForm && negb (parseNonce nonceText).2 then (PropagationStateUnset, zeroTime, false)
    else
      let '(expiry, ok) := parseLeaseExpiry digits in
      if negb ok then (PropagationStateUnset, zeroTime, false)
      else (PropagationStatePending, expiry, true).

(** * Nonces *)
Definition nonce_ok (n : Nonce) : Prop := length (nonce_bytes n) = 8%nat.

(** [parseNonce] accepts exactly the encodings of eight bytes. *)
Lemma parseNonce_spec text n :
  parseNonce text = (n, true) <-> nonce_ok n /\ text = encode n.
Proof.
  unfold parseNonce, nonce_ok, encode, NonceHexLength, nonceByteLength. split.
  - destruct (Z.eqb_spec (len text) (2 * 8)) as [Hl|Hl]; cbn [negb]; [ | done].
    destruct (forallb lower_hex text); cbn [negb]; [ | done].
    destruct (hex_decode text) as [b|] eqn:E; [ | done]. intros [= <-]. cbn.
    apply hex_encode_decode in E as [<- E]. split; [ | done]. unfold len in Hl. rewrite E in Hl. lia.
  - intros [Hl ->]. unfold len. rewrite hex_encode_length, Hl, hex_encode_lower. cbn [negb Z.of_nat Z.eqb].
    change (Z.of_nat (2 * 8) =? 2 * 8) with true. cbn [negb]. rewrite hex_decode_encode. by destruct n.
Qed.
Lemma parseNonce_fails text : (parseNonce text).2 = false -> forall n, nonce_ok n -> text <> encode n.
Proof. intros H n Hn E. pose proof (proj2 (parseNonce_spec text n) (conj Hn E)) as Hp. by rewrite Hp in H. Qed.
Lemma parseNonce_true text : (parseNonce text).2 = true <-> exists n, nonce_ok n /\ text = encode n.
Proof.
  destruct (parseNonce text) as [n ok] eqn:E. cbn. split.
  - intros ->. apply parseNonce_spec in E. by exists n.
  - intros (n' & Hn). apply parseNonce_spec in Hn. congruence.
Qed.

(** The first-seen values are exactly "v1" and "v2:" followed by the
    sixteen lowercase hexadecimal digits of a nonce; parsing what was rendered
    gives the nonce back, so equal values have equal nonces, and no rendered
    value is taken for the legacy one. *)
Theorem first_seen_value_roundtrip :
  (forall value n legacy, ParseFirstSeenValue value = (n, legacy, true) <->
     (value = bs "v1" /\ n = zeroNonce /\ legacy = true) \/
     (value = bs "v2:" ++ hex_encode (nonce_bytes n) /\ nonce_ok n /\ legacy = false)) /\
  (forall n value, nonce_ok n -> FirstSeenValue n = Ret value -> ParseFirstSeenValue value = (n, false, true)) /\
  (forall n, FirstSeenValue n = Fail ErrorCodeInvalidRequest <-> n = zeroNonce).
Proof.
  assert (forall n, nonce_ok n -> ParseFirstSeenValue (bs "v2:" ++ encode n) = (n, false, true)) as Hround.
  { intros n Hn. unfold ParseFirstSeenValue. unfold bytes_equal at 1. rewrite bool_decide_eq_false_2 by done.
    unfold len. rewrite length_app. unfold encode at 1. rewrite hex_encode_length, Hn. cbn -[encode].
    rewrite (proj2 (parseNonce_spec _ n)) by done. done. }
  split; [ | split].
  - intros value n legacy. split.
    + unfold ParseFirstSeenValue. destruct (bytes_equal value StoredValue) eqn:E1.
      { intros [= <- <-]. left. split; [by apply bytes_equal_eq | done]. }
      destruct (_ || _) eqn:E2; [done | ]. apply orb_false_iff in E2 as [_ E2%negb_false_iff].
      apply bytes_equal_eq in E2. destruct (parseNonce _) as [n' ok] eqn:E3. destruct ok; cbn [negb]; [ | done].
      intros [= <- <-]. right. apply parseNonce_spec in E3 as [Hn E3]. split; [ | done].
      rewrite <- (take_drop (length FirstSeenValuePrefix) value), E2, E3. done.
    + intros [(-> & -> & ->) | (-> & Hn & ->)]; [done | by apply Hround].
  - intros n value Hn. unfold FirstSeenValue. destruct (Nonce_Valid n); cbn; [ | done]. intros [= <-]. by apply Hround.
  - intros n. unfold FirstSeenValue, Nonce_Valid. destruct (bool_decide (n = zeroNonce)) eqn:E; cbn.
    + by apply bool_decide_eq_true in E.
    + apply bool_decide_eq_false in E. by split.
Qed.

(** * Propagation values *)
Lemma bytes_index_byte s c : bytes_index s [c] = index_byte s c.
Proof.
  induction s as [|b s IH]; [done | ]. cbn [bytes_index index_byte has_prefix]. rewrite IH.
  destruct (byte_eqb_spec c b), (byte_eqb_spec b c); congruence || by destruct s.
Qed.
Lemma cut_byte_Some s c t u : c ∉ t -> s = t ++ c :: u -> bytes_cut s [c] = Some (t, u).
Proof.
  intros Ht ->. unfold bytes_cut. rewrite bytes_index_byte, index_byte_app by done.
  rewrite take_app_length. do 2 f_equal. rewrite cons_middle, app_assoc, drop_app_length' by (rewrite length_app; cbn; lia). done.
Qed.
Lemma cut_byte_inv s c t u : bytes_cut s [c] = Some (t, u) -> s = t ++ c :: u.
Proof.
  unfold bytes_cut. rewrite bytes_index_byte. destruct (index_byte s c) as [i|] eqn:E; [ | done]. intros [= <- <-].
  apply index_byte_Some in E as (Hi & _). change (length [c]) with 1%nat. by rewrite Nat.add_1_r.
Qed.
Lemma cut_byte_None s c : c ∉ s -> bytes_cut s [c] = None.
Proof. intros H. unfold bytes_cut. rewrite bytes_index_byte. by apply index_byte_None in H as ->. Qed.
Lemma digits_no_colon s : forallb is_digit s = true -> x3a ∉ s.
Proof.
  intros Hd Hin. rewrite forallb_forall in Hd. specialize (Hd x3a ltac:(by apply list_elem_of_In)). by vm_compute in Hd.
Qed.

(** A lease expiry: 1 to 16 digits of a positive number. *)
Definition expiry_digits (digits : bytes) : Prop :=
  0 < len digits <= 16 /\ forallb is_digit digits = true /\ 0 < dec_value digits.
Lemma parseLeaseExpiry_spec digits e :
  parseLeaseExpiry digits = (e, true) <-> expiry_digits digits /\ e = unixMilli (dec_value digits).
Proof.
  unfold parseLeaseExpiry, expiry_digits, maxLeaseExpiryDigits. pose proof (len_nonneg digits) as Hl. split.
  - destruct (_ || _) eqn:E1; [done | ]. apply orb_false_iff in E1 as [E1 E2].
    destruct (forallb is_digit digits) eqn:Ed; cbn [negb]; [ | done].
    rewrite ParseInt_digits by (done || by intros ->). destruct (dec_value digits <=? MaxInt) eqn:E3; [ | done].
    destruct (dec_value digits <=? 0) eqn:E4; [done | ]. intros [= <-]. split; [ | done]. split_and!; try done; lia.
  - intros [(H1 & H2 & H3) ->]. assert ((len digits =? 0) || (16 <? len digits) = false) as -> by lia. rewrite H2. cbn [negb].
    rewrite ParseInt_digits by (done || (intros ->; by destruct H1)). pose proof (dec_value_bounds digits H2) as Hb.
    assert (dec_value digits < 10 ^ 16) by (eapply Z.lt_le_trans; [apply Hb | apply Z.pow_le_mono_r; lia]).
    rewrite (proj2 (Z.leb_le _ MaxInt)) by (unfold MaxInt; lia). rewrite (proj2 (Z.leb_gt _ _)) by lia. done.
Qed.

Lemma ParsePropagationValue_pending digits :
  forallb is_digit digits = true ->
  ParsePropagationValue (PropagationPendingPrefix ++ digits) =
  let '(e, ok) := parseLeaseExpiry digits in
  if negb ok then (PropagationStateUnset, zeroTime, false) else (PropagationStatePending, e, true).
Proof.
  intros Hd. unfold ParsePropagationValue. unfold bytes_equal at 1. rewrite bool_decide_eq_false_2 by done.
  rewrite has_prefix_app. cbn [negb]. rewrite drop_app_length. unfold colon.
  by rewrite cut_byte_None by (by apply digits_no_colon).
Qed.
Lemma ParsePropagationValue_nonce digits text :
  forallb is_digit digits = true ->
  ParsePropagationValue (PropagationPendingPrefix ++ digits ++ colon ++ text) =
  if negb (parseNonce text).2 then (PropagationStateUnset, zeroTime, false)
  else
    let '(e, ok) := parseLeaseExpiry digits in
    if negb ok then (PropagationStateUnset, zeroTime, false) else (PropagationStatePending, e, true).
Proof.
  intros Hd. unfold ParsePropagationValue. unfold bytes_equal at 1. rewrite bool_decide_eq_false_2 by done.
  rewrite has_prefix_app. cbn [negb]. rewrite drop_app_length. unfold colon.
  by rewrite (cut_byte_Some _ x3a digits text) by (done || by apply digits_no_colon).
Qed.
Lemma ParsePropagationValue_spec value state e :
  ParsePropagationValue value = (state, e, true) <->
  (value = bs "committed" /\ state = PropagationStateCommitted /\ e = zeroTime) \/
  (state = PropagationStatePending /\
   exists digits, expiry_digits digits /\ e = unixMilli (dec_value digits) /\
     (value = bs "pending:" ++ digits \/
      exists n, nonce_ok n /\ value = bs "pending:" ++ digits ++ bs ":" ++ hex_encode (nonce_bytes n))).
Proof.
  split.
  - unfold ParsePropagationValue. destruct (bytes_equal value PropagationCommittedValue) eqn:E1.
    { intros [= <- <-]. left. split; [by apply bytes_equal_eq | done]. }
    destruct (has_prefix value PropagationPendingPrefix) eqn:E2; cbn [negb]; [ | done].
    apply has_prefix_spec in E2 as (rest & ->). rewrite drop_app_length. unfold colon.
    destruct (bytes_cut rest [x3a]) as [[digits text]|] eqn:Ec.
    + apply cut_byte_inv in Ec as ->. destruct (parseNonce text).2 eqn:En; cbn [negb andb]; [ | done].
      apply parseNonce_true in En as (n & Hn & ->).
      destruct (parseLeaseExpiry digits) as [e' ok] eqn:El. destruct ok; cbn [negb]; [ | done]. intros [= <- <-].
      apply parseLeaseExpiry_spec in El as [Hd ->]. right. split; [done | ]. exists digits. split_and!; [done | done | right].
      by exists n.
    + cbn [andb]. destruct (parseLeaseExpiry rest) as [e' ok] eqn:El. destruct ok; cbn [negb]; [ | done]. intros [= <- <-].
      apply parseLeaseExpiry_spec in El as [Hd ->]. right. split; [done | ]. exists rest. split_and!; [done | done | by left].
  - intros [(-> & -> & ->) | (-> & digits & Hd & -> & [-> | (n & Hn & ->)])]; [done | | ]; pose proof Hd as (_ & Hdd & _).
    + change (bs "pending:") with PropagationPendingPrefix. rewrite ParsePropagationValue_pending by done.
      by rewrite (proj2 (parseLeaseExpiry_spec digits _) (conj Hd eq_refl)).
    + change (bs "pending:") with PropagationPendingPrefix. change (bs ":") with colon.
      change (hex_encode (nonce_bytes n)) with (encode n). rewrite ParsePropagationValue_nonce by done.
      rewrite (proj2 (parseNonce_spec _ n)) by done. cbn [snd negb].
      by rewrite (proj2 (parseLeaseExpiry_spec digits _) (conj Hd eq_refl)).
Qed.

(** Milliseconds of an instant between 1970 and the sixteen-digit bound. *)
Definition millisecond_range (t : Time) : Prop := 0 <= t_sec t - unixToInternal < 10 ^ 13.
Lemma UnixMilli_exact t :
  wf_time t -> millisecond_range t ->
  UnixMilli t = (t_sec t - unixToInternal) * 1000 + t_nsec t / 1000000 /\ 0 <= UnixMilli t < 10 ^ 16.
Proof.
  intros [Hs Hn] Hr. unfold millisecond_range in Hr. unfold UnixMilli, Unix. rewrite Z.quot_div_nonneg by lia.
  assert (0 <= t_nsec t / 1000000 < 1000) by (unfold Second in Hn; lia).
  rewrite (wrap64_id (t_sec t - _)) by (unfold MinInt, MaxInt; lia).
  rewrite (wrap64_id (_ * 1000)) by (unfold MinInt, MaxInt; lia).
  rewrite wrap64_id by (unfold MinInt, MaxInt; lia). lia.
Qed.
Lemma unixMilli_truncates t :
  wf_time t -> millisecond_range t ->
  wf_time (unixMilli (UnixMilli t)) /\ instant (unixMilli (UnixMilli t)) = instant t - instant t mod Millisecond.
Proof.
  intros Hw Hr. destruct (UnixMilli_exact t Hw Hr) as [-> _]. destruct Hw as [Hs Hn]. unfold millisecond_range in Hr.
  assert (0 <= t_nsec t / 1000000 < 1000) as Hms by (unfold Second in Hn; lia).
  unfold unixMilli. rewrite Z.quot_div_nonneg, Z.rem_mod_nonneg by lia.
  rewrite Z.div_add_l by lia. rewrite (Z.div_small (t_nsec t / 1000000)) by lia. rewrite Z.add_0_r.
  rewrite Z.add_comm, Z.mod_add, Z.mod_small by lia.
  rewrite (proj2 (Z.ltb_ge _ _)) by lia. rewrite wrap64_id by (unfold MinInt, MaxInt, unixToInternal in *; lia).
  unfold wf_time, instant, Second, Millisecond, MinInt, MaxInt in *. cbn [t_sec t_nsec]. split; [lia | ].
  replace (t_sec t * 1000000000 + t_nsec t) with (t_nsec t + t_sec t * 1000 * 1000000) by lia.
  rewrite Z.mod_add by lia. pose proof (Z.div_mod (t_nsec t) 1000000 ltac:(lia)). lia.
Qed.

Lemma format_digits ms : 0 < ms < 10 ^ 16 -> expiry_digits (FormatInt ms) /\ dec_value (FormatInt ms) = ms.
Proof.
  intros Hms. unfold FormatInt. rewrite (proj2 (Z.ltb_ge _ _)) by lia.
  destruct (format_uint_spec ms ltac:(lia)) as (Hd & Hv & Hne & _). split; [ | done]. unfold expiry_digits. rewrite Hv.
  split; [ | split; [done | lia]]. split; [ | by apply (format_uint_len ms 16); lia].
  destruct (format_uint ms) as [|b t]; [done | ]. rewrite len_cons. pose proof (len_nonneg t). lia.
Qed.
Lemma PropagationPendingValue_ret t n v :
  PropagationPendingValue t n = Ret v <->
  Nonce_Valid n = true /\ 0 < UnixMilli t < 10 ^ 16 /\
  v = PropagationPendingPrefix ++ FormatInt (UnixMilli t) ++ colon ++ encode n.
Proof.
  unfold PropagationPendingValue, maxLeaseExpiryDigits.
  assert (UnixMilli t <= MaxInt) as Hmax by apply wrap64_range.
  destruct (Z.leb_spec (UnixMilli t) 0) as [Hle|Hgt]; cbn [orb negb require obind].
  { split; [done | ]. intros (_ & H & _). lia. }
  assert (len (FormatInt (UnixMilli t)) <= 16 <-> UnixMilli t < 10 ^ 16) as Hlen.
  { unfold FormatInt. rewrite (proj2 (Z.ltb_ge _ _)) by lia. apply format_uint_len; unfold MaxInt in *; lia. }
  destruct (Z.ltb_spec 16 (len (FormatInt (UnixMilli t)))) as [Hl|Hl]; cbn [orb negb require obind].
  { split; [done | ]. intros (_ & H & _). lia. }
  destruct (Nonce_Valid n); cbn [orb negb require obind].
  - split; [intros [= <-]; split_and!; try done; lia | by intros (_ & _ & ->)].
  - by split; [ | intros [? _]].
Qed.

(** The propagation values are exactly "committed" and "pending:" followed
    by one to sixteen digits of a positive number of milliseconds, with or
    without ":" and a nonce in hexadecimal; a pending value is rendered exactly
    for a valid nonce and an expiry of at most sixteen digits, and parses back
    to the pending state and the expiry cut to whole milliseconds. *)
Theorem propagation_value_roundtrip :
  (forall value state e, ParsePropagationValue value = (state, e, true) <->
     (value = bs "committed" /\ state = PropagationStateCommitted /\ e = zeroTime) \/
     (state = PropagationStatePending /\
      exists digits, expiry_digits digits /\ e = unixMilli (dec_value digits) /\
        (value = bs "pending:" ++ digits \/
         exists n, nonce_ok n /\ value = bs "pending:" ++ digits ++ bs ":" ++ hex_encode (nonce_bytes n)))) /\
  (forall t n, nonce_ok n ->
     (is_ret (PropagationPendingValue t n) = true <-> n <> zeroNonce /\ 0 < UnixMilli t < 10 ^ 16)) /\
  (forall t n v, nonce_ok n -> PropagationPendingValue t n = Ret v ->
     ParsePropagationValue v = (PropagationStatePending, unixMilli (UnixMilli t), true)) /\
  (forall t, wf_time t -> millisecond_range t ->
     wf_time (unixMilli (UnixMilli t)) /\ instant (unixMilli (UnixMilli t)) = instant t - instant t mod Millisecond).
Proof.
  split; [apply ParsePropagationValue_spec | ]. split; [ | split].
  - intros t n Hn. split.
    + destruct (PropagationPendingValue t n) as [v| |] eqn:E; [intros _ | done..].
      apply PropagationPendingValue_ret in E as (Hv & Hm & _). split; [ | done]. intros ->. done.
    + intros [Hv Hm]. rewrite (proj2 (PropagationPendingValue_ret t n (PropagationPendingPrefix ++ FormatInt (UnixMilli t) ++ colon ++ encode n))); [done | ]. split_and!; [ | lia | lia | done].
      unfold Nonce_Valid. by rewrite bool_decide_eq_false_2.
  - intros t n v Hn (_ & Hm & ->)%PropagationPendingValue_ret. destruct (format_digits _ Hm) as [Hd Hv].
    apply ParsePropagationValue_spec. right. split; [done | ]. exists (FormatInt (UnixMilli t)).
    split; [done | ]. split; [by rewrite Hv | ]. right. by exists n.
  - intros t. apply unixMilli_truncates.
Qed.
