(* ===== verification/TagSpec.v ===== *)
(** * What the values of tags are

    The grammar the field parsers share: Base64 values, text strings, decimal
    numbers, lists of separated sets, trimmed white space, and the tags of a
    scanned field with their values. *)

From stdpp Require Import gmap.
From S2P Require Import Prelude GoBytes GoBase64 GoStrconv TagTypes TagScan TagBase64 Combine.
#[local] Open Scope Z_scope.

(** ** Base64 values *)
Definition base64_value (L : TagTypes.Limits) (text : bytes) (v : Base64String) : Prop :=
  edged isWSP text /\ len text <= MaxTagValueBytes L /\
  exists d, d <> [] /\ len d <= MaxBase64DecodedBytes L /\ stripBase64FWS text = std_encode d /\
    v = MkB64 text (std_encode d) d.

Lemma ParseBase64String_value limits text v :
  let L := TagTypes.Limits_normalize limits in
  TagTypes.Limits_Validate L = Ret tt ->
  ParseBase64String text limits = Ret v <-> base64_value L text v.
Proof.
  cbn zeta. intros HL. unfold ParseBase64String, base64_value. rewrite parseBase64String_iff. split.
  - intros (_ & Hl & He & d & Hd & Hdl & Ht & ->). split_and!; [by apply He | done | ].
    exists d. split_and!; try done. by destruct Ht as [? | [? _]].
  - intros (He & Hl & d & Hd & Hdl & Ht & ->). split_and!; try done. exists d. split_and!; try done. by left.
Qed.

(** The characters of a Base64 text: its alphabet, padding, spaces and tabs. *)
Definition b64_text_byte (b : byte) : bool := b64_alpha b || (b =?b PAD) || isWSP b.
Lemma b64_text_byte_facts b :
  b64_text_byte b = true ->
  b <> x3a /\ b <> x3b /\ isSeparator b = false /\ plain_byte b = true /\
  negb (((bval b <? 32) && negb (isWSP b)) || (b =?b x7f)) = true.
Proof.
  enough (implb (b64_text_byte b)
    (negb (b =?b x3a) && negb (b =?b x3b) && negb (isSeparator b) && plain_byte b &&
     negb (((bval b <? 32) && negb (isWSP b)) || (b =?b x7f))) = true) as H.
  { intros E. rewrite E in H. cbn [implb] in H.
    apply andb_true_iff in H as [[[[H1 H2]%andb_true_iff H3]%andb_true_iff H4]%andb_true_iff H5].
    apply negb_true_iff in H1, H2, H3. apply byte_eqb_ne in H1, H2. done. }
  by_bytes b.
Qed.

Lemma base64_value_chars L text v : base64_value L text v -> Forall (fun b => b64_text_byte b = true) text.
Proof.
  intros (_ & _ & d & _ & _ & Hs & _). pose proof (encode_chars d) as Hc. rewrite <- Hs in Hc. clear Hs.
  induction text as [|b text IH]; [constructor | ]. unfold stripBase64FWS in *. cbn [List.filter] in Hc.
  unfold b64_text_byte. constructor.
  - destruct (isWSP b); [by rewrite orb_true_r | ].
    cbn [negb] in Hc. apply Forall_cons in Hc as [-> _]. done.
  - apply IH. destruct (negb (isWSP b)); [by apply Forall_cons in Hc as [_ ?] | done].
Qed.
Lemma base64_value_nonempty L text v : base64_value L text v -> text <> [].
Proof. intros (_ & _ & d & Hd & _ & Hs & _) ->. symmetry in Hs. by apply std_encode_nonempty in Hd. Qed.
Lemma chars_no (P : byte -> bool) c s :
  Forall (fun b => P b = true) s -> P c = false -> c ∉ s.
Proof. rewrite Forall_forall. intros H Hc Hin%H. congruence. Qed.
(** ** White space *)
(** The loops that drop bytes satisfying [p] from the end only. *)
Definition trim_trailing (p : byte -> bool) (input : bytes) : bytes := reverse (drop_while p (reverse input)).
Lemma drop_while_all p w : Forall (fun b => p b = true) w -> drop_while p w = [].
Proof. induction 1 as [|b w Hb _ IH]; [done | ]. cbn. by rewrite Hb. Qed.

Lemma trim_trailing_spec s :
  exists w, wsp w /\ s = trim_trailing isWSP s ++ w /\
    (forall t b, trim_trailing isWSP s = t ++ [b] -> isWSP b = false).
Proof.
  unfold trim_trailing. destruct (drop_while_split isWSP (reverse s)) as (w & E & Hw).
  exists (reverse w). split_and!.
  - unfold wsp. by rewrite Forall_reverse.
  - by rewrite <- reverse_app, <- E, reverse_involutive.
  - intros t b Ht. apply (f_equal reverse) in Ht. rewrite reverse_involutive, reverse_snoc in Ht.
    by eapply drop_while_head.
Qed.
Lemma trim_trailing_app s w : edged isWSP s -> wsp w -> trim_trailing isWSP (s ++ w) = s.
Proof.
  intros [_ He] Hw. unfold trim_trailing. rewrite reverse_app, drop_while_app by (by rewrite Forall_reverse).
  destruct s as [|b s _] using rev_ind; [done | ]. rewrite reverse_snoc. cbn [drop_while].
  rewrite (He s b eq_refl). by rewrite <- reverse_snoc, reverse_involutive.
Qed.


(** ** Text strings *)
Definition textstring_byte (b : byte) : bool := isASCIILetter b || isASCIIDigit b || (b =?b x2d) || (b =?b x5f).
Lemma ParseTextstring_Some s t :
  ParseTextstring s = Some t <-> t = s /\ s <> [] /\ Forall (fun b => textstring_byte b = true) s.
Proof.
  unfold ParseTextstring. case_bool_decide as E; [by split; [ | intros (_ & ? & _)] | ].
  change (forallb _ s) with (forallb textstring_byte s).
  destruct (forallb textstring_byte s) eqn:Ef.
  - split; [ | by intros (-> & _)]. intros [= <-]. split_and!; [done | done | ].
    apply list.Forall_forall. intros b Hb%list_elem_of_In. by apply (proj1 (forallb_forall _ _) Ef).
  - split; [done | ]. intros (_ & _ & Hs). rewrite Forall_forall in Hs.
    rewrite (proj2 (forallb_forall textstring_byte s)) in Ef; [done | ].
    intros b Hb%list_elem_of_In. auto.
Qed.
Lemma textstring_byte_facts b :
  textstring_byte b = true -> isWSP b = false /\ b <> x3a /\ b <> x3b /\ isSeparator b = false /\ plain_byte b = true.
Proof.
  enough (implb (textstring_byte b) (negb (isWSP b) && negb (b =?b x3a) && negb (b =?b x3b) &&
    negb (isSeparator b) && plain_byte b) = true) as H.
  { intros E. rewrite E in H. cbn [implb] in H.
    apply andb_true_iff in H as [[[[H1 H2]%andb_true_iff H3]%andb_true_iff H4]%andb_true_iff H5].
    apply negb_true_iff in H1, H2, H3, H4. apply byte_eqb_ne in H2, H3. done. }
  by_bytes b.
Qed.
Lemma all_dark_edged (P : byte -> bool) s :
  (forall b, P b = true -> isWSP b = false) -> Forall (fun b => P b = true) s -> edged isWSP s.
Proof.
  intros HP Hs. split; intros; subst.
  - apply Forall_cons in Hs as [? _]. auto.
  - apply Forall_app in Hs as [_ [? _]%Forall_cons]. auto.
Qed.
Lemma wsp_no_colon w : wsp w -> x3a ∉ w.
Proof. intros Hw. by eapply (chars_no isWSP). Qed.


(** ** Lists of separated sets *)
Lemma render_groups_nonempty gs : groups_ok gs -> render_groups gs <> [].
Proof.
  intros [Hne Hgs]. destruct gs as [|g gs]; [done | ]. apply Forall_cons in Hgs as [[Hg Hp] _].
  destruct g as [|p g]; [done | ]. apply Forall_cons in Hp as [[_ Hp] _].
  assert (p <> []) by by intros ->. destruct p as [|b p]; [done | ].
  destruct g; [destruct gs; done | destruct gs; done].
Qed.
Lemma CountSets_groups gs : groups_ok gs -> CountSets (render_groups gs) = len (concat gs).
Proof.
  intros H. unfold CountSets. pose proof (countSeparators_groups gs H) as Hc.
  apply render_groups_nonempty in H. destruct (render_groups gs) as [|b s]; [done | ].
  rewrite len_cons in *. pose proof (len_nonneg s). rewrite (proj2 (Z.eqb_neq _ _)) by lia. lia.
Qed.


(** Comma-separated lists. *)
Lemma split_comma_iff s ps :
  split_byte x2c s = ps <-> ps <> [] /\ Forall (fun p => x2c ∉ p) ps /\ s = render_group ps.
Proof.
  split.
  - intros E. split; [rewrite <- E; apply split_byte_nonempty | ].
    revert s E. induction ps as [|p ps IH]; intros s E; [by apply split_byte_nonempty in E | ].
    apply split_byte_inv in E as (Hp & [[-> ->] | (s' & -> & E)]); [by repeat constructor | ].
    destruct (IH s' E) as [Hps ->]. split; [by constructor | ].
    rewrite render_group_cons; [done | ]. rewrite <- E. apply split_byte_nonempty.
  - intros (Hne & Hps & ->). induction Hps as [|p ps Hp Hps IH]; [done | ].
    destruct ps as [|q ps]; [by apply split_byte_plain | ].
    rewrite render_group_cons by done. change AllSeparator with x2c. rewrite split_byte_app by done. f_equal. by apply IH.
Qed.

(** ** Numbers and tags *)
Definition tag_of (f : Field) (n : bytes) (v : bytes) : Prop :=
  exists t, t ∈ tags f /\ tag_name t = n /\ tag_value t = v.
Definition number_value (text : bytes) (n : Z) : Prop :=
  text <> [] /\ forallb is_digit text = true /\ n = dec_value text /\ 0 < n <= MaxUint64.

Lemma ParseUint_number text n :
  text <> [] -> forallb is_digit text = true ->
  ParseUint text = Some n <-> n = dec_value text /\ 0 <= n <= MaxUint64.
Proof.
  intros Hne Hd. pose proof (dec_value_bounds _ Hd). rewrite ParseUint_Some. naive_solver lia.
Qed.

(** Field_Get with its error wrapped by a caller. *)
Definition get_tag {F} (wrap : Error -> F) (f : Field) (n : bytes) : outcome F (option Tag) :=
  map_fail wrap (Field_Get f n).

Section get.
Context {F : Type} (wrap : Error -> F).

Lemma get_tag_Ret ts n r :
  NoDup (tag_name <$> ts) ->
  get_tag wrap (field_of ts) n = Ret r <->
  match r with
  | Some t => t ∈ ts /\ tag_name t = n
  | None => forall v, ~ tag_of (field_of ts) n v
  end.
Proof.
  intros Hnd. unfold get_tag. rewrite map_fail_Ret. destruct (Field_Get_field_of ts n Hnd) as (r' & -> & Hr).
  split.
  - intros [= <-]. destruct r' as [t|]; [by apply Hr | ]. intros v (t & Hin & Hn & _).
    rewrite tags_field_of in Hin. assert (None = Some t) by by apply Hr. done.
  - destruct r as [t|]; [intros Ht; by rewrite (proj2 (Hr t) Ht) | ]. intros H.
    destruct r' as [t|]; [ | done]. destruct (proj1 (Hr t) eq_refl) as [Hin Hn].
    exfalso. apply (H (tag_value t)). exists t. by rewrite tags_field_of.
Qed.
Lemma tag_of_get ts n v :
  NoDup (tag_name <$> ts) -> tag_of (field_of ts) n v ->
  exists t, get_tag wrap (field_of ts) n = Ret (Some t) /\ tag_value t = v.
Proof.
  intros Hnd (t & Hin & Hn & Hv). rewrite tags_field_of in Hin. exists t. split; [ | done].
  by apply get_tag_Ret.
Qed.
Lemma get_tag_of ts n t :
  NoDup (tag_name <$> ts) -> get_tag wrap (field_of ts) n = Ret (Some t) -> tag_of (field_of ts) n (tag_value t).
Proof. intros Hnd [Hin Hn]%get_tag_Ret; [ | done]. exists t. by rewrite tags_field_of. Qed.
Lemma get_tag_safe ts n : NoDup (tag_name <$> ts) -> no_crash (get_tag wrap (field_of ts) n).
Proof.
  intros Hnd. apply map_fail_no_crash. by destruct (Field_Get_field_of ts n Hnd) as (r & -> & _).
Qed.
End get.
