(* ===== verification/InstTypes.v ===== *)
(** * Package internal/instance: errors, limits and parsed values

    errors.go and types.go.  Error codes and classes are enumerations, so the
    replacement of an unknown code by newError has no counterpart; tag and
    limit names are Go strings with a closed vocabulary.  The cause of an error
    is the tagvalue error it wraps, when there is one.  A copy of a hash set is
    the value itself. *)

From S2P Require Import Prelude GoBytes TagTypes TagBase64 Combine.
#[local] Open Scope Z_scope.

(** ** errors.go *)
Inductive ErrorCode :=
  | ErrorCodeWrongHeaderField | ErrorCodeMissingRequiredTag | ErrorCodeInvalidNumber
  | ErrorCodeMalformedHashSet | ErrorCodeDuplicateHashName | ErrorCodeInvalidHashBase64
  | ErrorCodeInvalidHashLength | ErrorCodeInvalidRecipeBase64 | ErrorCodeLimitExceeded
  | ErrorCodeInvalidOptions | ErrorCodeMissingOrigin | ErrorCodeDuplicateNumber
  | ErrorCodeSequenceGap | ErrorCodeInvalidConstruction | ErrorCodeRenderInvariant.
Inductive ErrorClass :=
  | ErrorClassMalformed | ErrorClassMissing | ErrorClassDuplicate | ErrorClassLimit
  | ErrorClassInvariant.
#[export] Instance ErrorCode_eq_dec : EqDecision ErrorCode.
Proof. solve_decision. Defined.

Definition TagName := string.
Definition TagNameNumber : TagName := "m"%string.
Definition TagNameHashes : TagName := "h"%string.
Definition TagNameRecipe : TagName := "r"%string.
Definition TagName_Known (n : TagName) : bool :=
  bool_decide (n ∈ [TagNameNumber; TagNameHashes; TagNameRecipe]).

Definition LimitName := string.
Definition LimitNameMaxHashSets : LimitName := "max_hash_sets"%string.
Definition LimitNameMaxInstances : LimitName := "max_instances"%string.
Definition LimitNameMaxFieldBytes : LimitName := "max_field_bytes"%string.
Definition LimitNameMaxLineBytes : LimitName := "max_line_bytes"%string.
Definition LimitNameMaxRecipeBytes : LimitName := "max_recipe_bytes"%string.
Definition LimitNameRenderCoherence : LimitName := "render_limit_coherence"%string.
Definition LimitName_Known (n : LimitName) : bool :=
  bool_decide (n ∈ [LimitNameMaxHashSets; LimitNameMaxInstances; LimitNameMaxFieldBytes;
                    LimitNameMaxLineBytes; LimitNameMaxRecipeBytes; LimitNameRenderCoherence]).

Record ErrorLocation := MkLoc { FieldIndex : Z; HashIndex : Z }.
Definition noLoc : ErrorLocation := MkLoc 0 0.
Record ErrorDetails := MkDetails {
  det_TagName : TagName; det_LimitName : LimitName; det_Limit : Z; det_Count : Z;
  det_ExpectedNumber : Z; det_ObservedNumber : Z }.
Definition noDetails : ErrorDetails := MkDetails "" "" 0 0 0 0.
Definition tagDetails (t : TagName) : ErrorDetails := MkDetails t "" 0 0 0 0.
Definition limitDetails (n : LimitName) (limit count : Z) : ErrorDetails := MkDetails "" n limit count 0 0.

Record Error := MkError {
  err_code : ErrorCode; err_class : ErrorClass; err_location : ErrorLocation;
  err_details : ErrorDetails; err_cause : option TagTypes.Error }.

Definition classForCode (c : ErrorCode) : ErrorClass :=
  match c with
  | ErrorCodeMissingRequiredTag => ErrorClassMissing
  | ErrorCodeDuplicateHashName | ErrorCodeDuplicateNumber => ErrorClassDuplicate
  | ErrorCodeLimitExceeded => ErrorClassLimit
  | ErrorCodeInvalidOptions | ErrorCodeRenderInvariant => ErrorClassInvariant
  | _ => ErrorClassMalformed
  end.
Definition sanitizeLocation (l : ErrorLocation) : ErrorLocation :=
  MkLoc (if FieldIndex l <? 0 then 0 else FieldIndex l) (if HashIndex l <? 0 then 0 else HashIndex l).
Definition sanitizeDetails (d : ErrorDetails) : ErrorDetails :=
  MkDetails (det_TagName d) (det_LimitName d) (if det_Limit d <? 0 then 0 else det_Limit d)
    (if det_Count d <? 0 then 0 else det_Count d) (det_ExpectedNumber d) (det_ObservedNumber d).

Definition newError (c : ErrorCode) (l : ErrorLocation) (d : ErrorDetails) (cause : option TagTypes.Error)
    : Error :=
  MkError c (classForCode c) (sanitizeLocation l)
    (sanitizeDetails
       (MkDetails (if TagName_Known (det_TagName d) then det_TagName d else ""%string)
          (if LimitName_Known (det_LimitName d) then det_LimitName d else ""%string)
          (det_Limit d) (det_Count d) (det_ExpectedNumber d) (det_ObservedNumber d)))
    cause.

(** What the package's functions return: an error of its own, or one of the
    tag scanner passed through. *)
Inductive Failure := TagFailure (e : TagTypes.Error) | InstanceFailure (e : Error).
Definition IsErrorCode (f : Failure) (c : ErrorCode) : bool :=
  match f with
  | TagFailure _ => false
  | InstanceFailure e => bool_decide (err_code e = c)
  end.

Definition fail {A} (c : ErrorCode) (l : ErrorLocation) (d : ErrorDetails) : outcome Failure A :=
  Fail (InstanceFailure (newError c l d None)).

(** ** types.go *)
Definition HeaderName : bytes := bs "message-instance".
Definition HashAlgorithmSHA256 : bytes := bs "sha256".
Definition HashAlgorithmSHA512 : bytes := bs "sha512".
Definition maxHashSetsHard : Z := 16.
Definition maxInstancesHard : Z := 128.

Inductive HashSelectionStatus :=
  | HashSelectionStatusSelected | HashSelectionStatusMissing | HashSelectionStatusUnsupported.

Record Limits := MkLimits { TagLimits : TagTypes.Limits; MaxHashSets : Z; MaxInstances : Z }.
Definition DefaultLimits : Limits := MkLimits TagTypes.DefaultLimits maxHashSetsHard maxInstancesHard.
Definition Limits_Validate (l : Limits) : outcome Failure unit :=
  if (MaxHashSets l <=? 0) || (maxHashSetsHard <? MaxHashSets l)
  then fail ErrorCodeInvalidOptions noLoc (limitDetails "max_hash_sets" (MaxHashSets l) 0)
  else if (MaxInstances l <=? 0) || (maxInstancesHard <? MaxInstances l)
  then fail ErrorCodeInvalidOptions noLoc (limitDetails LimitNameMaxInstances (MaxInstances l) 0)
  else Ret tt.
Definition Limits_normalize (l : Limits) : Limits :=
  MkLimits (TagLimits l) (default_if_zero (MaxHashSets l) (MaxHashSets DefaultLimits))
    (default_if_zero (MaxInstances l) (MaxInstances DefaultLimits)).

Definition emptyBase64 : Base64String := MkB64 [] [] [].
Definition DecodedLen (b : Base64String) : Z := len (decoded b).

Record HashSet := MkHashSet {
  name : bytes; known : bool; headerHash : Base64String; bodyHash : Base64String;
  headerHashValue : bytes; bodyHashValue : bytes }.
Definition noHashSet : HashSet := MkHashSet [] false emptyBase64 emptyBase64 [] [].

Record MessageInstance := MkInstance {
  number : Z; hashes : list HashSet; hashLayout : Layout; recipe : Base64String;
  hasRecipe : bool; headerIndex : Z }.
Definition noInstance : MessageInstance := MkInstance 0 [] noLayout emptyBase64 false 0.

Definition HashSet_HeaderHash (h : HashSet) : option Base64String :=
  if negb (known h) then None else Some (headerHash h).
Definition HashSet_BodyHash (h : HashSet) : option Base64String :=
  if negb (known h) then None else Some (bodyHash h).
Definition MessageInstance_Recipe (m : MessageInstance) : option Base64String :=
  if negb (hasRecipe m) then None else Some (recipe m).

Fixpoint sha256Loop (hs : list HashSet) (sawUnknown : bool) : HashSet * HashSelectionStatus :=
  match hs with
  | [] => (noHashSet, if sawUnknown then HashSelectionStatusUnsupported else HashSelectionStatusMissing)
  | h :: rest =>
      if bool_decide (name h = HashAlgorithmSHA256) && known h && (DecodedLen (headerHash h) =? 32)
         && (DecodedLen (bodyHash h) =? 32)
      then (h, HashSelectionStatusSelected)
      else sha256Loop rest (if negb (known h) then true else sawUnknown)
  end.
Definition SHA256HashSet (m : MessageInstance) : HashSet * HashSelectionStatus :=
  sha256Loop (hashes m) false.
Definition SupportedHashSets (m : MessageInstance) : list HashSet * HashSelectionStatus :=
  let supported := List.filter known (hashes m) in
  if 0 <? len supported then (supported, HashSelectionStatusSelected)
  else if 0 <? len (hashes m) then ([], HashSelectionStatusUnsupported)
  else ([], HashSelectionStatusMissing).

Lemma Limits_Validate_Ret l :
  Limits_Validate l = Ret tt <-> 0 < MaxHashSets l <= maxHashSetsHard /\ 0 < MaxInstances l <= maxInstancesHard.
Proof.
  unfold Limits_Validate, fail. destruct (Z.leb_spec (MaxHashSets l) 0), (Z.ltb_spec maxHashSetsHard (MaxHashSets l)),
    (Z.leb_spec (MaxInstances l) 0), (Z.ltb_spec maxInstancesHard (MaxInstances l)); cbn [orb];
    (split; [done || lia | intros; done || lia]).
Qed.
Lemma Limits_Validate_safe l : no_crash (Limits_Validate l).
Proof. unfold Limits_Validate, fail. crash_free. Qed.
#[export] Hint Resolve Limits_Validate_safe : go.
