(* ===== verification/InstParser.v ===== *)
(** * Package internal/instance: parsing Message-Instance fields (hash.go, parser.go) *)

From stdpp Require Import gmap.
From S2P Require Import Prelude GoBytes GoStrconv RawMsg TagTypes TagScan TagBase64 Combine TagSpec InstTypes.
#[local] Open Scope Z_scope.

(** ** hash.go *)
Definition sha256HashBytes : Z := 32.
Definition sha512HashBytes : Z := 64.

(** The package's isWSP is that of tagvalue. *)
Definition trimWSP (input : bytes) : bytes := trim_bytes TagTypes.isWSP input.
Definition trimTrailingWSP (input : bytes) : bytes := trim_trailing TagTypes.isWSP input.
Definition base64Edges (component : bytes) : bool :=
  match component with
  | [] => false
  | first :: _ => negb (TagTypes.isWSP first) && negb (TagTypes.isWSP (List.last component first))
  end.
Definition validUnknownHashComponent (input : bytes) : bool :=
  forallb (fun b => negb (((bval b <? 32) && negb (TagTypes.isWSP b)) || (b =?b x7f))) input.

Definition malformedHashSetError (fieldIndex hashIndex : Z) : Failure :=
  InstanceFailure (newError ErrorCodeMalformedHashSet (MkLoc fieldIndex hashIndex) (tagDetails "h") None).
Definition invalidHashLengthError (fieldIndex hashIndex expectedLength decodedLength : Z) : Failure :=
  InstanceFailure (newError ErrorCodeInvalidHashLength (MkLoc fieldIndex hashIndex)
    (MkDetails "h" "" expectedLength decodedLength 0 0) None).

(** The digest size of a supported algorithm. *)
Definition supportedHashAlgorithmForName (n : bytes) : option Z :=
  if bool_decide (n = HashAlgorithmSHA256) then Some sha256HashBytes
  else if bool_decide (n = HashAlgorithmSHA512) then Some sha512HashBytes else None.

Definition parseHashBase64 (input : bytes) (limits : TagTypes.Limits) (fieldIndex hashIndex : Z)
    : outcome Failure Base64String :=
  map_fail (fun cause => InstanceFailure
      (newError ErrorCodeInvalidHashBase64 (MkLoc fieldIndex hashIndex) (tagDetails "h") (Some cause)))
    (ParseBase64String input limits).

Definition parseHashSet (input : bytes) (tagLimits : TagTypes.Limits) (fieldIndex hashIndex : Z)
    : outcome Failure HashSet :=
  match split_byte x3a input with
  | [c0; rawHeaderHash; c2] =>
      let rawName := trimWSP c0 in
      let rawBodyHash := trimTrailingWSP c2 in
      match ParseTextstring rawName with
      | None => Fail (malformedHashSetError fieldIndex hashIndex)
      | Some nm =>
          check require (base64Edges rawHeaderHash && base64Edges rawBodyHash)
            (malformedHashSetError fieldIndex hashIndex) ;;
          check require (validUnknownHashComponent rawHeaderHash && validUnknownHashComponent rawBodyHash)
            (malformedHashSetError fieldIndex hashIndex) ;;
          let algorithm := supportedHashAlgorithmForName nm in
          let* header := parseHashBase64 rawHeaderHash tagLimits fieldIndex hashIndex in
          let* body := parseHashBase64 rawBodyHash tagLimits fieldIndex hashIndex in
          let hashSet := MkHashSet nm (if algorithm is Some _ then true else false) header body
                           rawHeaderHash rawBodyHash in
          match algorithm with
          | None => Ret hashSet
          | Some digestBytes =>
              check require (DecodedLen header =? digestBytes)
                (invalidHashLengthError fieldIndex hashIndex digestBytes (DecodedLen header)) ;;
              check require (DecodedLen body =? digestBytes)
                (invalidHashLengthError fieldIndex hashIndex digestBytes (DecodedLen body)) ;;
              Ret hashSet
          end
      end
  | _ => Fail (malformedHashSetError fieldIndex hashIndex)
  end.

(** The loop of parseHashSets; [acc] are the sets parsed so far, [i] their number. *)
Fixpoint hashSetsLoop (parts : list bytes) (tagLimits : TagTypes.Limits) (fieldIndex i : Z)
    (seen : gset bytes) (acc : list HashSet) : outcome Failure (list HashSet) :=
  match parts with
  | [] => Ret acc
  | part :: rest =>
      let* hashSet := parseHashSet part tagLimits fieldIndex i in
      check require (negb (bool_decide (name hashSet ∈ seen)))
        (InstanceFailure (newError ErrorCodeDuplicateHashName (MkLoc fieldIndex i) (tagDetails "h") None)) ;;
      hashSetsLoop rest tagLimits fieldIndex (i + 1) ({[name hashSet]} ∪ seen) (acc ++ [hashSet])
  end.
Definition parseHashSets (value : bytes) (limits : Limits) (fieldIndex : Z)
    : outcome Failure (list HashSet * Layout) :=
  check require (negb (len value =? 0)) (malformedHashSetError fieldIndex 0) ;;
  let count := CountSets value in
  check require (negb (MaxHashSets limits <? count))
    (InstanceFailure (newError ErrorCodeLimitExceeded (MkLoc fieldIndex 0)
       (MkDetails "h" "max_hash_sets" (MaxHashSets limits) count 0 0) None)) ;;
  match Split value with
  | None => Fail (malformedHashSetError fieldIndex 0)
  | Some (parts, layout) =>
      let* hs := hashSetsLoop parts (TagLimits limits) fieldIndex 0 ∅ [] in
      Ret (hs, layout)
  end.

(** ** parser.go *)
Definition knownMessageInstanceTags : KnownTags :=
  match NewKnownTags [bs "m"; bs "h"; bs "r"] with Ret k => k | _ => MkKnown ∅ end.

Definition missingTagError (fieldIndex : Z) (tagName : string) : Failure :=
  InstanceFailure (newError ErrorCodeMissingRequiredTag (MkLoc fieldIndex 0) (tagDetails tagName) None).
Definition invalidNumberError (fieldIndex : Z) : Failure :=
  InstanceFailure (newError ErrorCodeInvalidNumber (MkLoc fieldIndex 0) (tagDetails TagNameNumber) None).

Definition parseInstanceNumber (value : bytes) (fieldIndex : Z) : outcome Failure Z :=
  check require (negb (bool_decide (value = []))) (invalidNumberError fieldIndex) ;;
  check require (forallb (fun b => in_range x30 b x39) value) (invalidNumberError fieldIndex) ;;
  match ParseUint value with
  | Some n => if n =? 0 then Fail (invalidNumberError fieldIndex) else Ret n
  | None => Fail (invalidNumberError fieldIndex)
  end.

(** A parser is its limits. *)
Definition NewParser (limits : Limits) : outcome Failure Limits :=
  let limits := Limits_normalize limits in
  check Limits_Validate limits ;; Ret limits.

#[local] Abbreviation Get := (get_tag TagFailure).

Definition parseRecipe (tag : option Tag) (limits : TagTypes.Limits) (fieldIndex : Z)
    : outcome Failure (option Base64String) :=
  match tag with
  | None => Ret None
  | Some recipeTag =>
      let* r := map_fail (fun cause => InstanceFailure
            (newError ErrorCodeInvalidRecipeBase64 (MkLoc fieldIndex 0) (tagDetails "r") (Some cause)))
          (ParseBase64String (tag_value recipeTag) limits) in
      Ret (Some r)
  end.

Definition ParseField (limits : Limits) (field : HeaderField) : outcome Failure MessageInstance :=
  check require (bool_decide (nameLower field = HeaderName))
    (InstanceFailure (newError ErrorCodeWrongHeaderField (MkLoc (hf_index field) 0) noDetails None)) ;;
  let* tagField := map_fail TagFailure
      (ScanHeader (unfoldedValue field) knownMessageInstanceTags (TagLimits limits)) in
  let* numberTag := Get tagField (bs "m") in
  match numberTag with
  | None => Fail (missingTagError (hf_index field) "m")
  | Some numberTag =>
      let* hashTag := Get tagField (bs "h") in
      match hashTag with
      | None => Fail (missingTagError (hf_index field) "h")
      | Some hashTag =>
          let* num := parseInstanceNumber (tag_value numberTag) (hf_index field) in
          let* (hs, layout) := parseHashSets (tag_value hashTag) limits (hf_index field) in
          let* recipeTag := Get tagField (bs "r") in
          let* r := parseRecipe recipeTag (TagLimits limits) (hf_index field) in
          Ret (MkInstance num hs layout (default emptyBase64 r)
                 (if r is Some _ then true else false) (hf_index field))
      end
  end.
Definition Parse (field : HeaderField) : outcome Failure MessageInstance :=
  let* parser := NewParser (MkLimits (TagTypes.MkLimits 0 0 0 0 0) 0 0) in ParseField parser field.
