(* ===== verification/InstSpec.v ===== *)
(** * What a Message-Instance field is, and that the parser reads exactly that

    The grammar of hash sets and of the field's tags, the values they denote,
    and the refinement theorem for ParseField. *)

From stdpp Require Import gmap.
From S2P Require Import Prelude GoBytes GoBase64 GoStrconv RawMsg TagTypes TagScan TagBase64 Combine TagSpec InstTypes InstParser.
#[local] Open Scope Z_scope.
#[local] Abbreviation isWSP := TagTypes.isWSP.
#[local] Abbreviation Get := (get_tag TagFailure).

Lemma base64_value_clean L text v :
  base64_value L text v -> x3a ∉ text /\ validUnknownHashComponent text = true.
Proof.
  intros Hv%base64_value_chars. split; [by eapply chars_no | ].
  apply forallb_forall. intros b Hb%list_elem_of_In. rewrite Forall_forall in Hv.
  by apply Hv, b64_text_byte_facts in Hb as (_ & _ & _ & _ & ?).
Qed.

(** ** White space *)
Lemma base64Edges_spec s : base64Edges s = true <-> s <> [] /\ edged isWSP s.
Proof.
  destruct s as [|b s]; [by split; [ | intros [? _]] | ]. cbn [base64Edges].
  rewrite andb_true_iff, !negb_true_iff. split.
  - intros [Hb Hl]. split; [done | split]; [by intros ? ? [= <- _] | ]. intros t c E.
    rewrite E, List.last_last in Hl. done.
  - intros [_ [H1 H2]]. split; [by eapply H1 | ].
    destruct (exists_last (l := b :: s)) as (t & c & E); [done | ]. rewrite E, List.last_last. by eapply H2.
Qed.

(** ** Hash sets *)
Definition hash_set_text (h : HashSet) (s : bytes) : Prop :=
  exists w1 w2 w3, wsp w1 /\ wsp w2 /\ wsp w3 /\
    s = (w1 ++ name h ++ w2) ++ x3a :: headerHashValue h ++ x3a :: bodyHashValue h ++ w3.
Definition is_known (nm : bytes) : bool := if supportedHashAlgorithmForName nm is Some _ then true else false.
Definition ok_hash_set (L : TagTypes.Limits) (h : HashSet) : Prop :=
  ParseTextstring (name h) = Some (name h) /\ known h = is_known (name h) /\
  base64_value L (headerHashValue h) (headerHash h) /\ base64_value L (bodyHashValue h) (bodyHash h) /\
  (forall n, supportedHashAlgorithmForName (name h) = Some n ->
     DecodedLen (headerHash h) = n /\ DecodedLen (bodyHash h) = n).

Section hash_sets.
Context (limits : TagTypes.Limits).
Let L := TagTypes.Limits_normalize limits.
Hypothesis Hvalid : TagTypes.Limits_Validate L = Ret tt.

Lemma parseHashBase64_Ret text fieldIndex i v :
  parseHashBase64 text limits fieldIndex i = Ret v <-> base64_value L text v.
Proof using Hvalid. unfold parseHashBase64. rewrite map_fail_Ret. by apply ParseBase64String_value. Qed.

Lemma hash_set_split h s :
  hash_set_text h s -> ok_hash_set L h ->
  exists c0 c2, split_byte x3a s = [c0; headerHashValue h; c2] /\ trimWSP c0 = name h /\
    trimTrailingWSP c2 = bodyHashValue h.
Proof using.
  intros (w1 & w2 & w3 & H1 & H2 & H3 & ->) (Hn & _ & Hh & Hb & _).
  apply ParseTextstring_Some in Hn as (_ & Hne & Hn).
  assert (edged isWSP (name h)) as He.
  { eapply all_dark_edged; [ | done]. intros b Hb'%textstring_byte_facts. tauto. }
  exists (w1 ++ name h ++ w2), (bodyHashValue h ++ w3). split_and!.
  - rewrite split_byte_app. 2: { rewrite !not_elem_of_app. split_and!; [by apply wsp_no_colon | | by apply wsp_no_colon].
      by eapply chars_no. }
    rewrite split_byte_app by by eapply base64_value_clean. rewrite split_byte_plain; [done | ].
    rewrite not_elem_of_app. split; [by eapply base64_value_clean | by apply wsp_no_colon].
  - by apply trim_bytes_mid.
  - apply trim_trailing_app; [ | done]. apply Hb.
Qed.

Lemma parseHashSet_Ret s fieldIndex i h :
  parseHashSet s limits fieldIndex i = Ret h <-> hash_set_text h s /\ ok_hash_set L h.
Proof using Hvalid.
  split.
  - unfold parseHashSet. destruct (split_byte x3a s) as [|c0 [|hd [|c2 [|? ?]]]] eqn:Es; try done.
    apply split_byte_inv in Es as (_ & [[? _] | (s1 & -> & Es)]); [done | ].
    apply split_byte_inv in Es as (_ & [[? _] | (s2 & -> & Es)]); [done | ].
    apply split_byte_inv in Es as (_ & [[_ ->] | (s3 & -> & Es)]); [ | by apply split_byte_nonempty in Es].
    destruct (ParseTextstring (trimWSP c0)) as [nm|] eqn:En; [ | done]. intros H.
    apply obind_ret_inv in H as (? & _ & H). apply obind_ret_inv in H as (? & _ & H).
    apply obind_ret_inv in H as (vh & Hh%parseHashBase64_Ret & H).
    apply obind_ret_inv in H as (vb & Hb%parseHashBase64_Ret & H).
    apply ParseTextstring_Some in En as (-> & Hne & Hn).
    destruct (trim_bytes_split isWSP c0) as (w1 & w2 & E0 & _ & H1 & H2).
    destruct (trim_trailing_spec c2) as (w3 & H3 & E2 & _).
    assert (h = MkHashSet (trimWSP c0) (is_known (trimWSP c0)) vh vb hd (trimTrailingWSP c2) /\
            (forall n, supportedHashAlgorithmForName (trimWSP c0) = Some n ->
               DecodedLen vh = n /\ DecodedLen vb = n)) as [-> Hlen].
    { unfold is_known. destruct (supportedHashAlgorithmForName _) as [n|]; [ | by injection H as <-].
      apply obind_ret_inv in H as (? & Hx%require_ret_inv%Z.eqb_eq & H).
      apply obind_ret_inv in H as (? & Hy%require_ret_inv%Z.eqb_eq & H). injection H as <-.
      split; [done | ]. by intros ? [= <-]. }
    split.
    + exists w1, w2, w3. split_and!; try done. cbn. unfold trimWSP at 1, trimTrailingWSP. by rewrite <- E0, <- E2.
    + split_and!; try done. by apply ParseTextstring_Some.
  - intros [Ht Hok]. destruct (hash_set_split h s Ht Hok) as (c0 & c2 & Es & E0 & E2).
    destruct Hok as (Hn & Hk & Hh & Hb & Hl). unfold parseHashSet. rewrite Es, E0, E2, Hn.
    rewrite (proj2 (base64Edges_spec _)), (proj2 (base64Edges_spec _)).
    2: { split; [by eapply base64_value_nonempty | apply Hb]. }
    2: { split; [by eapply base64_value_nonempty | apply Hh]. }
    rewrite (proj2 (base64_value_clean _ _ _ Hh)), (proj2 (base64_value_clean _ _ _ Hb)).
    cbn [andb require obind].
    rewrite (proj2 (parseHashBase64_Ret _ _ _ _) Hh), (proj2 (parseHashBase64_Ret _ _ _ _) Hb). cbn [obind].
    unfold is_known in Hk. destruct (supportedHashAlgorithmForName (name h)) as [n|].
    + destruct (Hl n eq_refl) as [-> ->]. rewrite Z.eqb_refl. cbn. rewrite <- Hk. by destruct h.
    + rewrite <- Hk. by destruct h.
Qed.
End hash_sets.

(** ** The h= value *)
Definition denotes_hash_set (L : TagTypes.Limits) (h : HashSet) (piece : bytes) : Prop :=
  hash_set_text h piece /\ ok_hash_set L h.

(** Groups of hash sets with distinct algorithm names. *)
Definition hashes_value (L : TagTypes.Limits) (maxSets : Z) (text : bytes) (hs : list HashSet) (l : Layout) : Prop :=
  exists gs, groups_ok gs /\ len (concat gs) <= MaxSets /\ len (concat gs) <= maxSets /\
    text = render_groups gs /\ l = layout_of (map len gs) /\
    Forall2 (denotes_hash_set L) hs (concat gs) /\ NoDup (name <$> hs).

Section values.
Context (limits : Limits) (fieldIndex : Z).
Let L := TagTypes.Limits_normalize (TagLimits limits).
Hypothesis Hvalid : TagTypes.Limits_Validate L = Ret tt.

Lemma hashSetsLoop_Ret parts i seen acc r :
  hashSetsLoop parts (TagLimits limits) fieldIndex i seen acc = Ret r <->
  exists hs, Forall2 (denotes_hash_set L) hs parts /\ NoDup (name <$> hs) /\
    (forall h, h ∈ hs -> name h ∉ seen) /\ r = acc ++ hs.
Proof using Hvalid.
  revert i seen acc. induction parts as [|p parts IH]; intros i seen acc; cbn [hashSetsLoop].
  - split.
    + intros [= <-]. exists []. rewrite app_nil_r. split_and!; [done | constructor | | done].
      by intros h ?%elem_of_nil.
    + intros (hs & Hf & _ & _ & ->). apply Forall2_nil_inv_r in Hf as ->. by rewrite app_nil_r.
  - split.
    + intros H. apply obind_ret_inv in H as (h & Hh%parseHashSet_Ret & H); [ | done].
      apply obind_ret_inv in H as (? & Hn%require_ret_inv%negb_true_iff%bool_decide_eq_false & H).
      apply IH in H as (hs & Hf & Hnd & Hs & ->). exists (h :: hs). rewrite <- app_assoc.
      split_and!; [by constructor | | | done].
      * cbn. constructor; [ | done]. intros (h' & Hh' & Hin)%list_elem_of_fmap.
        apply (Hs h' Hin). rewrite <- Hh'. set_solver.
      * intros h' [-> | Hin]%elem_of_cons; [done | ]. apply Hs in Hin. set_solver.
    + intros (hs & Hf & Hnd & Hs & ->). apply Forall2_cons_inv_r in Hf as (h & hs' & Hh & Hf & ->).
      cbn in Hnd. apply NoDup_cons in Hnd as [Hni Hnd].
      rewrite (proj2 (parseHashSet_Ret (TagLimits limits) Hvalid p fieldIndex i h)) by done. cbn [obind].
      rewrite bool_decide_eq_false_2 by (apply Hs; set_solver). cbn [negb require obind].
      apply IH. exists hs'. rewrite <- app_assoc. split_and!; [done | done | | done].
      intros h' Hin. rewrite not_elem_of_union, not_elem_of_singleton. split; [ | apply Hs; set_solver].
      intros E. apply Hni. rewrite <- E. by apply list_elem_of_fmap_2.
Qed.

Lemma parseHashSets_Ret text hs l :
  parseHashSets text limits fieldIndex = Ret (hs, l) <-> hashes_value L (MaxHashSets limits) text hs l.
Proof using Hvalid.
  unfold parseHashSets, hashes_value. split.
  - intros H. apply obind_ret_inv in H as (? & _ & H).
    apply obind_ret_inv in H as (? & Hc%require_ret_inv%negb_true_iff%Z.ltb_ge & H).
    destruct (Split text) as [[parts l']|] eqn:Es; [ | done].
    apply obind_ret_inv in H as (hs' & H & [= <- <-]).
    apply Split_iff in Es as (gs & Hok & Hlen & -> & -> & ->). rewrite CountSets_groups in Hc by done.
    apply hashSetsLoop_Ret in H as (hs'' & Hf & Hnd & _ & ->). exists gs. by split_and!.
  - intros (gs & Hok & Hlen & Hmax & -> & -> & Hf & Hnd).
    rewrite CountSets_groups, (proj2 (Z.ltb_ge _ _)) by done. pose proof (render_groups_nonempty gs Hok).
    rewrite (proj2 (Z.eqb_neq _ _)). 2: { destruct (render_groups gs) as [|b s]; [done | ]. rewrite len_cons.
      pose proof (len_nonneg s). lia. }
    cbn [negb require obind]. rewrite (proj2 (Split_iff _ (concat gs) (layout_of (map len gs)))) by by exists gs.
    rewrite (proj2 (hashSetsLoop_Ret _ _ _ _ hs)); [done | ]. exists hs. split_and!; [done | done | | done].
    set_solver.
Qed.
End values.

(** ** The field *)
Lemma parseInstanceNumber_Ret text i n : parseInstanceNumber text i = Ret n <-> number_value text n.
Proof.
  unfold parseInstanceNumber, number_value. change (forallb _ text) with (forallb is_digit text).
  case_bool_decide as E; cbn [negb require obind]; [by split; [ | intros [? _]] | ].
  destruct (forallb is_digit text) eqn:Hd; cbn [require obind]; [ | by split; [ | intros (_ & ? & _)]].
  pose proof (ParseUint_number text) as Hn. destruct (ParseUint text) as [k|].
  - destruct (proj1 (Hn k E Hd) eq_refl) as [-> Hk]. destruct (Z.eqb_spec (dec_value text) 0).
    + split; [done | lia].
    + split; [intros [= <-]; split_and!; done || lia | by intros (_ & _ & -> & _)].
  - split; [done | ]. intros (_ & _ & -> & Hk).
    assert (None = Some (dec_value text)) by (apply Hn; [done | done | lia]). congruence.
Qed.

(** The tags m=, h= and, when there is one, r= of a tag list, with the values
    they denote. *)
Definition instance_tags (limits : Limits) (f : Field) (m : MessageInstance) : Prop :=
  let L := TagTypes.Limits_normalize (TagLimits limits) in
  (exists v, tag_of f (bs "m") v /\ number_value v (number m)) /\
  (exists v, tag_of f (bs "h") v /\ hashes_value L (MaxHashSets limits) v (hashes m) (hashLayout m)) /\
  (if hasRecipe m then exists v, tag_of f (bs "r") v /\ base64_value L v (recipe m)
   else (forall v, ~ tag_of f (bs "r") v) /\ recipe m = emptyBase64).

Definition instance_text (limits : Limits) (text : bytes) (m : MessageInstance) : Prop :=
  let L := TagTypes.Limits_normalize (TagLimits limits) in
  TagTypes.Limits_Validate L = Ret tt /\ len text <= MaxFieldValueBytes L /\
  Forall (fun b => b <> CR /\ b <> LF) text /\
  exists f, tag_list knownMessageInstanceTags L scanModeHeader text f /\ instance_tags limits f m.

(** The part of ParseField after the scan. *)
Definition parseTags (limits : Limits) (tagField : Field) (index : Z) : outcome Failure MessageInstance :=
  let* numberTag := Get tagField (bs "m") in
  match numberTag with
  | None => Fail (missingTagError index "m")
  | Some numberTag =>
      let* hashTag := Get tagField (bs "h") in
      match hashTag with
      | None => Fail (missingTagError index "h")
      | Some hashTag =>
          let* num := parseInstanceNumber (tag_value numberTag) index in
          let* (hs, layout) := parseHashSets (tag_value hashTag) limits index in
          let* recipeTag := Get tagField (bs "r") in
          let* r := parseRecipe recipeTag (TagLimits limits) index in
          Ret (MkInstance num hs layout (default emptyBase64 r)
                 (if r is Some _ then true else false) index)
      end
  end.

Section parse_field.
Context (limits : Limits).
Let L := TagTypes.Limits_normalize (TagLimits limits).

Lemma parseRecipe_Ret tag i r :
  TagTypes.Limits_Validate L = Ret tt ->
  parseRecipe tag (TagLimits limits) i = Ret r <->
  match tag, r with
  | None, None => True
  | Some t, Some v => base64_value L (tag_value t) v
  | _, _ => False
  end.
Proof using.
  intros HL. unfold parseRecipe. destruct tag as [t|]; [ | by destruct r]. split.
  - intros (v & Hv%map_fail_Ret & [= <-])%obind_ret_inv. by apply ParseBase64String_value in Hv.
  - destruct r as [v|]; [ | done]. intros Hv. 
    rewrite (proj2 (map_fail_Ret _ _ v)); [done | ]. by apply ParseBase64String_value.
Qed.

Lemma parseTags_Ret ts index m :
  TagTypes.Limits_Validate L = Ret tt -> NoDup (tag_name <$> ts) ->
  parseTags limits (field_of ts) index = Ret m <->
  instance_tags limits (field_of ts) m /\ headerIndex m = index.
Proof using.
  intros HL Hnd. unfold parseTags, instance_tags. fold L. split.
  - intros ([tm|] & Hm & H)%obind_ret_inv; [ | done].
    apply obind_ret_inv in H as ([th|] & Hh & H); [ | done].
    apply obind_ret_inv in H as (num & Hnum%parseInstanceNumber_Ret & H).
    apply obind_ret_inv in H as ([hs l] & Hhs%parseHashSets_Ret & H); [ | done].
    apply obind_ret_inv in H as (tr & Htr & H). apply obind_ret_inv in H as (r & Hr & [= <-]).
    apply parseRecipe_Ret in Hr; [ | done]. apply get_tag_of in Hm, Hh; [ | done | done]. split; [ | done].
    cbn [number hashes hashLayout recipe hasRecipe]. split_and!; [eauto | eauto | ].
    destruct tr as [tr|], r as [v|]; try done; cbn.
    + apply (get_tag_of TagFailure) in Htr; eauto.
    + by apply get_tag_Ret in Htr.
  - intros [((vm & Hm & Hnum) & (vh & Hh & Hhs) & Hr) Hi].
    apply (tag_of_get TagFailure) in Hm as (tm & -> & <-); [ | done]. apply (tag_of_get TagFailure) in Hh as (th & -> & <-); [ | done].
    cbn [obind]. rewrite (proj2 (parseInstanceNumber_Ret _ _ _) Hnum). cbn [obind].
    rewrite (proj2 (parseHashSets_Ret _ _ HL _ _ _) Hhs). cbn [obind].
    destruct m as [num hs l rv hr hi]. cbn [number hashes hashLayout recipe hasRecipe headerIndex] in *.
    destruct hr.
    + destruct Hr as (vr & Hr & Hv). apply (tag_of_get TagFailure) in Hr as (tr & -> & <-); [ | done]. cbn [obind].
      rewrite (proj2 (parseRecipe_Ret (Some tr) index (Some rv) HL)) by done. cbn. by rewrite Hi.
    + destruct Hr as [Hr ->]. rewrite (proj2 (get_tag_Ret TagFailure ts _ None Hnd)) by done. cbn. by rewrite Hi.
Qed.
End parse_field.

Lemma ParseField_Ret limits field m :
  ParseField limits field = Ret m <->
  nameLower field = HeaderName /\ headerIndex m = hf_index field /\ instance_text limits (unfoldedValue field) m.
Proof.
  unfold ParseField, instance_text. split.
  - intros (? & Hn%require_ret_inv%bool_decide_eq_true & H)%obind_ret_inv.
    apply obind_ret_inv in H as (f & Hf%map_fail_Ret & H).
    apply scan_iff in Hf as (HL & Hlen & text & [-> Hplain] & Hf).
    change (parseTags limits f (hf_index field) = Ret m) in H.
    pose proof Hf as (ts & texts & tail & _ & _ & _ & _ & Hnd & _ & ->).
    apply parseTags_Ret in H as [H Hi]; [ | done | done]. split_and!; eauto.
  - intros (Hn & Hi & HL & Hlen & Hplain & f & Hf & Ht). rewrite bool_decide_eq_true_2 by done.
    cbn [require obind].
    rewrite (proj2 (map_fail_Ret _ _ f)).
    2: { apply scan_iff. split_and!; try done. by exists (unfoldedValue field). }
    cbn [obind]. change (parseTags limits f (hf_index field) = Ret m).
    destruct Hf as (ts & texts & tail & _ & _ & _ & _ & Hnd & _ & ->). by apply parseTags_Ret.
Qed.

(** ** The parser does not panic *)
Lemma parseHashBase64_safe text limits i j : no_crash (parseHashBase64 text limits i j).
Proof. apply map_fail_no_crash, parseBase64String_no_crash. Qed.
#[export] Hint Resolve parseHashBase64_safe : go.
Lemma parseHashSet_safe s limits i j : no_crash (parseHashSet s limits i j).
Proof. unfold parseHashSet. crash_free. Qed.
#[export] Hint Resolve parseHashSet_safe : go.
Lemma hashSetsLoop_safe parts limits i j seen acc : no_crash (hashSetsLoop parts limits i j seen acc).
Proof. revert j seen acc. induction parts as [|p parts IH]; intros; cbn [hashSetsLoop]; crash_free. Qed.
#[export] Hint Resolve hashSetsLoop_safe : go.
Lemma parseTags_safe limits ts i : NoDup (tag_name <$> ts) -> no_crash (parseTags limits (field_of ts) i).
Proof.
  intros Hnd.
  assert (forall n, no_crash (Get (field_of ts) n)) as HG by (intros n; by apply get_tag_safe).
  unfold parseTags. crash_free.
  - unfold parseInstanceNumber. crash_free.
  - unfold parseHashSets. crash_free.
  - unfold parseRecipe. crash_free. apply map_fail_no_crash, parseBase64String_no_crash.
Qed.
Lemma ParseField_safe limits field : no_crash (ParseField limits field).
Proof.
  unfold ParseField. apply obind_no_crash; [apply require_no_crash | intros _ _].
  apply obind_no_crash; [apply map_fail_no_crash, scan_no_crash | ]. intros f Hf%map_fail_Ret.
  apply scan_iff in Hf as (_ & _ & text & _ & ts & ? & ? & _ & _ & _ & _ & Hnd & _ & ->).
  by apply parseTags_safe.
Qed.

(** C11: ParseField never panics and succeeds exactly on Message-Instance fields
    whose unfolded value is, within the limits, a tag list in which m= is a
    positive decimal of 64 bits, h= is groups of hash sets (a name, and the
    Base64 of a header and a body hash, of the algorithm's length when it is
    known) with distinct names, and r=, if there, is Base64; the instance holds
    exactly those values, in field order. *)
Theorem ParseField_refines limits field :
  ParseField limits field <> Crash /\
  forall m, ParseField limits field = Ret m <->
    nameLower field = HeaderName /\ headerIndex m = hf_index field /\
    instance_text limits (unfoldedValue field) m.
Proof. split; [apply ParseField_safe | intros m; apply ParseField_Ret]. Qed.
