(* ===== verification/InstCollection.v ===== *)
(** * Package internal/instance: sequences of instances (collection.go, collection_type.go)

    Numbers are unsigned 64-bit integers.  A collection's items are in field
    order; its map takes a number to the item's position. *)

From stdpp Require Import gmap numbers.
From S2P Require Import Prelude GoBytes RawMsg RawBody RawParser TagTypes TagBase64 Combine TagSpec InstTypes InstParser InstSpec.
#[local] Open Scope Z_scope.

(** ** collection.go *)
Definition firstInstanceIndex (instances : list MessageInstance) : Z :=
  match instances with [] => 0 | m :: _ => headerIndex m end.
Definition lowestObservedNumber (instances : list MessageInstance) : outcome Failure Z :=
  match instances with
  | [] => Crash
  | m :: rest => Ret (foldl (fun lowest p => if number p <? lowest then number p else lowest) (number m) rest)
  end.
Definition nextStep (expected : Z) (acc : Z * Z) (parsed : MessageInstance) : Z * Z :=
  let '(observed, fieldIndex) := acc in
  if number parsed <=? expected then acc
  else if (observed =? 0) || (number parsed <? observed) then (number parsed, headerIndex parsed) else acc.
Definition nextObservedNumber (instances : list MessageInstance) (expected : Z) : Z * Z :=
  foldl (nextStep expected) (0, firstInstanceIndex instances) instances.

Definition newSequenceError (c : ErrorCode) (fieldIndex expected observed duplicateOf : Z) : Failure :=
  InstanceFailure (newError c (MkLoc fieldIndex 0)
    (MkDetails TagNameNumber "" 0 (if decide (c = ErrorCodeDuplicateNumber) then duplicateOf + 1 else 0)
       expected observed) None).

(** The first loop of ValidateSequence: the header index of each number, and
    the greatest number. *)
Fixpoint sequenceLoop (instances : list MessageInstance) (seen : gmap Z Z) (maxNumber : Z)
    : outcome Failure (gmap Z Z * Z) :=
  match instances with
  | [] => Ret (seen, maxNumber)
  | parsed :: rest =>
      match seen !! number parsed with
      | Some firstIndex =>
          Fail (newSequenceError ErrorCodeDuplicateNumber (headerIndex parsed) (number parsed)
                  (number parsed) firstIndex)
      | None =>
          sequenceLoop rest (<[number parsed := headerIndex parsed]> seen)
            (if maxNumber <? number parsed then number parsed else maxNumber)
      end
  end.

(** The first of [count] numbers from [expected] on that was not seen. *)
Fixpoint gapLoop (count : nat) (expected : Z) (seen : gmap Z Z) : option Z :=
  match count with
  | O => None
  | S count =>
      match seen !! expected with
      | Some _ => gapLoop count (expected + 1) seen
      | None => Some expected
      end
  end.

Definition ValidateSequence (instances : list MessageInstance) : outcome Failure unit :=
  if len instances =? 0 then Ret tt
  else
    check require (negb (maxInstancesHard <? len instances))
      (InstanceFailure (newError ErrorCodeLimitExceeded noLoc
         (limitDetails LimitNameMaxInstances maxInstancesHard (len instances)) None)) ;;
    let* (seen, maxNumber) := sequenceLoop instances ∅ 0 in
    match seen !! 1 with
    | None =>
        let* lowest := lowestObservedNumber instances in
        Fail (newSequenceError ErrorCodeMissingOrigin (firstInstanceIndex instances) 1 lowest 0)
    | Some _ =>
        if negb (maxNumber =? len instances) then
          match gapLoop (length instances) 1 seen with
          | Some expected =>
              let '(observed, fieldIndex) := nextObservedNumber instances expected in
              Fail (newSequenceError ErrorCodeSequenceGap fieldIndex expected observed 0)
          | None =>
              Fail (newSequenceError ErrorCodeSequenceGap (firstInstanceIndex instances)
                      (len instances) maxNumber 0)
          end
        else Ret tt
    end.

Fixpoint parseFields (limits : Limits) (fields : list HeaderField) : outcome Failure (list MessageInstance) :=
  match fields with
  | [] => Ret []
  | field :: rest =>
      let* parsed := ParseField limits field in
      let* parsedRest := parseFields limits rest in
      Ret (parsed :: parsedRest)
  end.
Definition Extract (limits : Limits) (msg : Message) : outcome Failure (list MessageInstance) :=
  let fields := HeaderBlock_FieldsByName (headers msg) HeaderName in
  check require (negb (MaxInstances limits <? len fields))
    (InstanceFailure (newError ErrorCodeLimitExceeded noLoc
       (limitDetails LimitNameMaxInstances (MaxInstances limits) (len fields)) None)) ;;
  let* instances := parseFields limits fields in
  check ValidateSequence instances ;;
  Ret instances.
(** The package's Extract, with default limits. *)
Definition Extract_default (msg : Message) : outcome Failure (list MessageInstance) :=
  let* parser := NewParser (MkLimits (TagTypes.MkLimits 0 0 0 0 0) 0 0) in Extract parser msg.

(** ** collection_type.go *)
Record Collection := MkCollection {
  items : list MessageInstance; byNumber : gmap Z nat; highest : Z; initialized : bool }.

Fixpoint collectionLoop (rest : list MessageInstance) (index : nat) (byNumber : gmap Z nat) (highest : Z)
    : gmap Z nat * Z :=
  match rest with
  | [] => (byNumber, highest)
  | item :: rest =>
      collectionLoop rest (S index) (<[number item := index]> byNumber)
        (if highest <? number item then number item else highest)
  end.
Definition NewCollection (its : list MessageInstance) : outcome Failure Collection :=
  check require (negb (len its =? 0))
    (InstanceFailure (newError ErrorCodeMissingOrigin noLoc noDetails None)) ;;
  check ValidateSequence its ;;
  let '(byNum, high) := collectionLoop its 0 ∅ 0 in
  Ret (MkCollection its byNum high true).

Definition Collection_Valid (c : Collection) : bool :=
  initialized c && (0 <? len (items c)) && (Z.of_nat (size (byNumber c)) =? len (items c))
  && (highest c =? len (items c)).
Definition Collection_Len (c : Collection) : Z := len (items c).
Definition HighestNumber (c : Collection) : Z := highest c.
Definition ByNumber (c : Collection) (n : Z) : option MessageInstance :=
  if negb (Collection_Valid c) then None
  else
    match byNumber c !! n with
    | Some index => if (length (items c) <=? index)%nat then None else items c !! index
    | None => None
    end.

(** ** The loops *)
Abbreviation numbers := (map number).

Lemma sequenceLoop_Ret ms seen mx s m' :
  sequenceLoop ms seen mx = Ret (s, m') ->
  NoDup (numbers ms) /\ (forall m, m ∈ ms -> seen !! number m = None) /\
  (forall k, is_Some (s !! k) <-> k ∈ numbers ms \/ is_Some (seen !! k)) /\
  (forall k, k ∈ numbers ms -> k <= m') /\ mx <= m' /\ (m' = mx \/ m' ∈ numbers ms).
Proof.
  revert seen mx. induction ms as [|m ms IH]; intros seen mx; cbn [sequenceLoop map].
  - intros [= <- <-]. split_and!; [constructor | by intros m ?%elem_of_nil | | | lia | by left].
    + intros k. rewrite elem_of_nil. tauto.
    + by intros k ?%elem_of_nil.
  - destruct (seen !! number m) as [i|] eqn:Es; [done | ]. intros H. apply IH in H as (Hnd & Hs & Hk & Hle & Hmx & Hm).
    assert (number m ∉ numbers ms) as Hni.
    { intros (m2 & Hn & Hin)%list_elem_of_fmap. specialize (Hs m2 Hin). rewrite <- Hn, lookup_insert_eq in Hs. done. }
    split_and!.
    + by constructor.
    + intros m2 [-> | Hin]%elem_of_cons; [done | ]. specialize (Hs m2 Hin). by apply lookup_insert_None in Hs as [? _].
    + intros k. rewrite Hk, elem_of_cons, lookup_insert_is_Some'. naive_solver.
    + intros k [-> | Hin]%elem_of_cons; [ | by apply Hle]. destruct (Z.ltb_spec mx (number m)); lia.
    + destruct (Z.ltb_spec mx (number m)); lia.
    + destruct (Z.ltb_spec mx (number m)); set_solver.
Qed.

Lemma sequenceLoop_complete ms seen mx :
  NoDup (numbers ms) -> (forall m, m ∈ ms -> seen !! number m = None) ->
  exists r, sequenceLoop ms seen mx = Ret r.
Proof.
  revert seen mx. induction ms as [|m ms IH]; intros seen mx Hnd Hs; cbn [sequenceLoop]; [by eexists | ].
  cbn [map] in Hnd. apply NoDup_cons in Hnd as [Hni Hnd]. rewrite Hs by apply list_elem_of_here.
  apply IH; [done | ]. intros m2 Hin. apply lookup_insert_None. split; [apply Hs; by right | ].
  intros E. apply Hni. rewrite E. by apply list_elem_of_fmap_2.
Qed.

Lemma sequenceLoop_Fail ms seen mx e :
  sequenceLoop ms seen mx = Fail e ->
  exists p m q i, ms = p ++ m :: q /\ NoDup (numbers p) /\
    (forall m2, m2 ∈ p -> seen !! number m2 = None) /\
    (number m ∈ numbers p \/ is_Some (seen !! number m)) /\
    e = newSequenceError ErrorCodeDuplicateNumber (headerIndex m) (number m) (number m) i.
Proof.
  revert seen mx. induction ms as [|m ms IH]; intros seen mx; cbn [sequenceLoop]; [done | ].
  destruct (seen !! number m) as [i|] eqn:Es.
  - intros [= <-]. exists [], m, ms, i. split_and!; [done | constructor | by intros ? ?%elem_of_nil | by right; eexists | done].
  - intros (p & m2 & q & i & -> & Hnd & Hp & Hin & ->)%IH. exists (m :: p), m2, q, i. split_and!; [done | | | | done].
    + cbn. constructor; [ | done]. intros (m3 & Hn & Hm3)%list_elem_of_fmap.
      specialize (Hp m3 Hm3). by rewrite <- Hn, lookup_insert_eq in Hp.
    + intros m3 [-> | Hm3]%elem_of_cons; [done | ]. by apply Hp, lookup_insert_None in Hm3 as [? _].
    + cbn. rewrite elem_of_cons. rewrite lookup_insert_is_Some' in Hin. naive_solver.
Qed.

Lemma sequenceLoop_safe ms seen mx : no_crash (sequenceLoop ms seen mx).
Proof. revert seen mx. induction ms as [|m ms IH]; intros; cbn [sequenceLoop]; crash_free. Qed.

Lemma gapLoop_Some count expected seen k :
  gapLoop count expected seen = Some k ->
  expected <= k < expected + Z.of_nat count /\ seen !! k = None /\ (forall j, expected <= j < k -> is_Some (seen !! j)).
Proof.
  revert expected. induction count as [|count IH]; intros expected; cbn [gapLoop]; [done | ].
  destruct (seen !! expected) as [i|] eqn:E.
  - intros (Hk & Hn & Hj)%IH. split_and!; [lia | lia | done | ]. intros j Hj'.
    destruct (decide (j = expected)) as [-> | ?]; [by eexists | apply Hj; lia].
  - intros [= <-]. split_and!; [lia | lia | done | lia].
Qed.
Lemma gapLoop_None count expected seen :
  gapLoop count expected seen = None -> forall j, expected <= j < expected + Z.of_nat count -> is_Some (seen !! j).
Proof.
  revert expected. induction count as [|count IH]; intros expected; cbn [gapLoop]; [lia | ].
  destruct (seen !! expected) as [i|] eqn:E; [ | done]. intros H j Hj.
  destruct (decide (j = expected)) as [-> | ?]; [by eexists | eapply IH; [done | lia]].
Qed.

(** [nextObservedNumber] is the least number above [expected], or 0. *)
Lemma nextStep_fold expected ms o i :
  0 <= expected -> (o = 0 \/ expected < o) ->
  let r := (foldl (nextStep expected) (o, i) ms).1 in
  (r = 0 /\ o = 0 /\ (forall k, k ∈ numbers ms -> k <= expected)) \/
  (expected < r /\ (r ∈ numbers ms \/ r = o) /\ (o <> 0 -> r <= o) /\
   (forall k, k ∈ numbers ms -> expected < k -> r <= k)).
Proof.
  intros He. revert o i. induction ms as [|m ms IH]; intros o i Ho; cbn [foldl map].
  - cbn zeta. cbn [fst]. destruct Ho as [-> | Ho]; [left | right].
    + split_and!; [done | done | by intros k ?%elem_of_nil].
    + split_and!; [done | by right | lia | by intros k ?%elem_of_nil].
  - cbn zeta in *.
    assert (nextStep expected (o, i) m =
            if number m <=? expected then (o, i)
            else if (o =? 0) || (number m <? o) then (number m, headerIndex m) else (o, i)) as -> by done.
    destruct (Z.leb_spec (number m) expected).
    + destruct (IH o i Ho) as [(-> & -> & Hk) | (Hr & Hin & Hro & Hk)]; [left | right].
      * split_and!; [done | done | ]. intros k [-> | ?]%elem_of_cons; auto.
      * split_and!; [done | set_solver | done | ]. intros k [-> | ?]%elem_of_cons; [lia | auto].
    + destruct ((o =? 0) || (number m <? o)) eqn:Eb.
      * destruct (IH (number m) (headerIndex m)) as [(-> & Hz & Hk) | (Hr & Hin & Hro & Hk)]; [by right | lia | right].
        split_and!; [done | set_solver | intros; lia | ]. intros k [-> | ?]%elem_of_cons; [lia | auto].
      * destruct (IH o i Ho) as [(-> & -> & Hk) | (Hr & Hin & Hro & Hk)]; [done | right].
        split_and!; [done | set_solver | done | ]. intros k [-> | ?]%elem_of_cons; [lia | auto].
Qed.

(** ** Contiguous numbers *)
Definition contiguous (ms : list MessageInstance) : Prop := numbers ms ≡ₚ seqZ 1 (len ms).
Definition positive (ms : list MessageInstance) : Prop := Forall (fun m => 0 < number m) ms.

Lemma positive_numbers ms k : positive ms -> k ∈ numbers ms -> 0 < k.
Proof. unfold positive. rewrite Forall_forall. intros H (m & -> & Hm)%list_elem_of_fmap. auto. Qed.
Lemma contiguous_elem ms k : contiguous ms -> k ∈ numbers ms <-> 1 <= k <= len ms.
Proof. unfold contiguous. intros H. rewrite H, elem_of_seqZ. lia. Qed.
Lemma contiguous_NoDup ms : contiguous ms -> NoDup (numbers ms).
Proof. unfold contiguous. intros H. rewrite H. apply NoDup_seqZ. Qed.

(** Distinct positive numbers up to the length are the first ones. *)
Lemma bounded_contiguous ms n :
  NoDup (numbers ms) -> positive ms -> (forall k, k ∈ numbers ms -> k <= n) -> n <= len ms ->
  contiguous ms /\ n = len ms \/ ms = [] /\ n <= 0.
Proof.
  intros Hnd Hp Hk Hn. destruct (decide (ms = [])) as [-> | Hne]; [by right | left].
  assert (numbers ms ⊆+ seqZ 1 n) as Hs.
  { apply NoDup_submseteq; [done | ]. intros k Hin. apply elem_of_seqZ.
    pose proof (positive_numbers _ _ Hp Hin). specialize (Hk _ Hin). lia. }
  pose proof (submseteq_length _ _ Hs) as Hl. rewrite length_map, length_seqZ in Hl. unfold len in *.
  assert (0 < Z.of_nat (length ms)) by (destruct ms; [done | simpl; lia]).
  assert (n = Z.of_nat (length ms)) as -> by lia. split; [ | done].
  apply submseteq_length_Permutation; [done | ]. rewrite length_seqZ, length_map. unfold len. lia.
Qed.
Lemma full_contiguous ms :
  (forall k, 1 <= k <= len ms -> k ∈ numbers ms) -> contiguous ms.
Proof.
  intros H. unfold contiguous. symmetry.
  apply submseteq_length_Permutation; [ | by rewrite length_map, length_seqZ; unfold len; lia].
  apply NoDup_submseteq; [apply NoDup_seqZ | ]. intros k Hk%elem_of_seqZ. apply H. lia.
Qed.

Lemma lowestObservedNumber_Ret m ms :
  exists r, lowestObservedNumber (m :: ms) = Ret r /\ r ∈ numbers (m :: ms) /\ forall k, k ∈ numbers (m :: ms) -> r <= k.
Proof.
  cbn [lowestObservedNumber]. eexists. split; [done | ]. cbn [map]. generalize (number m). clear m.
  induction ms as [|m ms IH]; intros lo; cbn [foldl map]; [set_solver by lia | ].
  destruct (Z.ltb_spec (number m) lo).
  - destruct (IH (number m)) as [H1 H2]. split; [set_solver | ].
    intros k [-> | Hk]%elem_of_cons; [ | by apply H2]. specialize (H2 (number m) ltac:(set_solver)). lia.
  - destruct (IH lo) as [H1 H2]. split; [set_solver | ].
    intros k [-> | [-> | Hk]%elem_of_cons]%elem_of_cons; [apply H2; set_solver | | apply H2; set_solver].
    specialize (H2 lo ltac:(set_solver)). lia.
Qed.

(** What the errors of ValidateSequence say. *)
Definition fault_of (ms : list MessageInstance) (c : ErrorCode) (expected observed : Z) : Prop :=
  match c with
  | ErrorCodeLimitExceeded => maxInstancesHard < len ms
  | ErrorCodeDuplicateNumber =>
      exists p m q, ms = p ++ m :: q /\ NoDup (numbers p) /\ number m ∈ numbers p /\ observed = number m
  | ErrorCodeMissingOrigin =>
      NoDup (numbers ms) /\ expected = 1 /\ 1 ∉ numbers ms /\ observed ∈ numbers ms /\
      (forall k, k ∈ numbers ms -> observed <= k)
  | ErrorCodeSequenceGap =>
      NoDup (numbers ms) /\ expected ∉ numbers ms /\ 1 < expected <= len ms /\
      (forall k, 1 <= k < expected -> k ∈ numbers ms) /\
      observed ∈ numbers ms /\ expected < observed /\
      (forall k, k ∈ numbers ms -> expected < k -> observed <= k)
  | _ => False
  end.
Definition sequence_fault (ms : list MessageInstance) (e : Error) : Prop :=
  fault_of ms (err_code e) (det_ExpectedNumber (err_details e)) (det_ObservedNumber (err_details e)).

Lemma ValidateSequence_cases ms :
  positive ms ->
  (ValidateSequence ms = Ret tt /\ len ms <= maxInstancesHard /\ contiguous ms) \/
  (exists e, ValidateSequence ms = Fail (InstanceFailure e) /\ sequence_fault ms e).
Proof.
  intros Hp. unfold ValidateSequence. destruct ms as [|m0 ms0]; [left; split_and!; [done | done | exact (perm_nil _)] | ].
  set (ms := m0 :: ms0) in *. assert (0 < len ms) as Hpos by (unfold ms; rewrite len_cons; pose proof (len_nonneg ms0); lia).
  rewrite (proj2 (Z.eqb_neq _ _)) by lia.
  destruct (Z.ltb_spec maxInstancesHard (len ms)) as [Hmax | Hmax]; cbn [negb require obind].
  { right. eexists. split; [done | ]. done. }
  destruct (sequenceLoop ms ∅ 0) as [[s mx] | e |] eqn:El; cbn [obind]; [ | | by apply sequenceLoop_safe in El].
  2: { apply sequenceLoop_Fail in El as (p & m & q & i & E & Hnd & _ & [Hin | [? Hin]] & ->); [ | by rewrite lookup_empty in Hin].
    right. eexists. split; [done | ]. by exists p, m, q. }
  apply sequenceLoop_Ret in El as (Hnd & _ & Hs & Hle & Hmx & Hmx').
  assert (forall k, is_Some (s !! k) <-> k ∈ numbers ms) as Hsk.
  { intros k. rewrite Hs, lookup_empty. split; [by intros [? | []] | by left]. }
  clear Hs. destruct (s !! 1) as [i|] eqn:E1.
  2: { right. destruct (lowestObservedNumber_Ret m0 ms0) as (r & Er & Hr & Hrk). fold ms in Er. rewrite Er. cbn [obind].
    eexists. split; [done | ]. split_and!; [exact Hnd | reflexivity | | exact Hr | exact Hrk].
    rewrite <- Hsk, E1. by intros []. }
  destruct (Z.eqb_spec mx (len ms)) as [Em | Em]; cbn [negb].
  { left. split_and!; [done | done | ].
    destruct (bounded_contiguous ms (len ms)) as [[? _] | [? _]]; try done. intros k Hk%Hle. lia. }
  right. destruct (gapLoop (length ms) 1 s) as [x|] eqn:Eg.
  - apply gapLoop_Some in Eg as (Hx & Hxn & Hxj).
    assert (x ∉ numbers ms) as Hxm by (rewrite <- Hsk, Hxn; by intros []).
    assert (x <> 1) by (intros ->; congruence).
    pose proof (nextStep_fold x ms 0 (firstInstanceIndex ms) ltac:(lia) ltac:(by left)) as Hnx.
    fold (nextObservedNumber ms x) in Hnx. destruct (nextObservedNumber ms x) as [ob fi]. cbn [fst] in Hnx.
    eexists. split; [done | ]. change (fault_of ms ErrorCodeSequenceGap x ob). cbn [fault_of].
    destruct Hnx as [(_ & _ & Hk) | (Hr & [Hin | ->] & _ & Hk)]; [exfalso | | lia].
    + destruct (bounded_contiguous ms (x - 1)) as [[_ ?] | [? _]]; try done; [ | unfold len; lia | unfold len in *; lia].
      intros k Hin. specialize (Hk k Hin). assert (k <> x) by congruence. lia.
    + split_and!; try done; [lia | unfold len; lia | ]. intros k Hk'. by apply Hsk, Hxj.
  - exfalso. pose proof (gapLoop_None _ _ _ Eg) as Hg. assert (contiguous ms) as Hc.
    { apply full_contiguous. intros k Hk. apply Hsk, Hg. unfold len in *. lia. }
    apply Em. apply Z.le_antisymm.
    + destruct Hmx' as [-> | Hin]; [lia | ]. apply (contiguous_elem ms) in Hin; [lia | done].
    + apply Hle, contiguous_elem; [done | lia].
Qed.

Lemma ValidateSequence_Ret ms :
  positive ms -> ValidateSequence ms = Ret tt <-> len ms <= maxInstancesHard /\ contiguous ms.
Proof.
  intros Hp. destruct (ValidateSequence_cases ms Hp) as [(-> & ? & ?) | (e & -> & He)]; [by split | ].
  split; [done | ]. intros [Hl Hc]. exfalso. pose proof (contiguous_NoDup ms Hc) as Hnd. revert He.
  unfold sequence_fault. destruct (err_code e); cbn [fault_of]; try done; [lia | | | ].
  - intros (_ & _ & H1 & Hin & _). apply H1, contiguous_elem; [done | ].
    apply contiguous_elem in Hin; [lia | done].
  - intros (p & m & q & -> & _ & Hin & _). rewrite map_app in Hnd. cbn [map] in Hnd.
    apply NoDup_app in Hnd as (_ & Hnd & _). apply (Hnd _ Hin), list_elem_of_here.
  - intros (_ & Hx & Hr & _). apply Hx, contiguous_elem; [done | lia].
Qed.

(** C12: for instances with positive numbers ValidateSequence never panics,
    succeeds exactly when there are at most [maxInstancesHard] of them and their
    numbers are 1 to the number of instances in some order, and otherwise
    reports what is wrong: too many instances, the first repeated number, a
    missing origin with the least number, or the least missing number with the
    least number above it. *)
Theorem ValidateSequence_exact ms :
  Forall (fun m => 0 < number m) ms ->
  ValidateSequence ms <> Crash /\
  (ValidateSequence ms = Ret tt <-> len ms <= maxInstancesHard /\ contiguous ms) /\
  (forall f, ValidateSequence ms = Fail f -> exists e, f = InstanceFailure e /\ sequence_fault ms e).
Proof.
  intros Hp. split_and!.
  - by destruct (ValidateSequence_cases ms Hp) as [(-> & _) | (e & -> & _)].
  - by apply ValidateSequence_Ret.
  - intros f Hf. destruct (ValidateSequence_cases ms Hp) as [(E & _) | (e & E & He)]; [congruence | ].
    rewrite E in Hf. injection Hf as <-. by exists e.
Qed.

Definition numbered (n : Z) : MessageInstance := MkInstance n [] noLayout emptyBase64 false 0.
Lemma ValidateSequence_exact_witness :
  ValidateSequence (map numbered [2; 3; 1]) = Ret tt /\
  (exists e, ValidateSequence (map numbered [4; 1]) = Fail (InstanceFailure e) /\
     err_code e = ErrorCodeSequenceGap /\ det_ExpectedNumber (err_details e) = 2 /\
     det_ObservedNumber (err_details e) = 4) /\
  ValidateSequence (map numbered [4; 1]) <> Crash.
Proof.
  split_and!; [reflexivity | eexists; split_and!; reflexivity | ].
  apply (ValidateSequence_exact (map numbered [4; 1])). by repeat constructor.
Defined.

(** ** Collections *)
Lemma collectionLoop_spec rest index by0 hi b h :
  collectionLoop rest index by0 hi = (b, h) -> NoDup (numbers rest) ->
  (forall m, m ∈ rest -> by0 !! number m = None) ->
  (forall k i, b !! k = Some i <->
     by0 !! k = Some i \/ exists j m, rest !! j = Some m /\ number m = k /\ i = (index + j)%nat) /\
  size b = (size by0 + length rest)%nat /\
  hi <= h /\ (forall k, k ∈ numbers rest -> k <= h) /\ (h = hi \/ h ∈ numbers rest).
Proof.
  revert index by0 hi. induction rest as [|m rest IH]; intros index by0 hi; cbn [collectionLoop map].
  - intros [= <- <-] _ _. split_and!; [ | simpl; lia | done | by intros k ?%elem_of_nil | by left].
    intros k i. split; [by left | ]. intros [? | (j & m & ? & _)]; done.
  - intros H [Hni Hnd]%NoDup_cons Hby. apply IH in H as (Hb & Hsz & Hh & Hle & Hin); [ | done | ].
    2: { intros m2 Hm2. apply lookup_insert_None. split; [apply Hby; by right | ].
      intros E. apply Hni. rewrite E. by apply list_elem_of_fmap_2. }
    specialize (Hby m ltac:(apply list_elem_of_here)). split_and!.
    + intros k i. rewrite Hb. destruct (decide (k = number m)) as [-> | Hne].
      * rewrite lookup_insert_eq. rewrite Hby. split.
        -- intros [[= <-] | (j & m2 & Hj & Hn & ->)]; right; [exists 0%nat, m | exists (S j), m2]; split_and!; done || simpl; lia.
        -- intros [? | (j & m2 & Hj & Hn & ->)]; [done | ]. destruct j as [|j].
           ++ left. injection Hj as ->. f_equal. lia.
           ++ exfalso. apply Hni. rewrite <- Hn. apply list_elem_of_fmap_2. by eapply list_elem_of_lookup_2.
      * rewrite lookup_insert_ne by done. split.
        -- intros [? | (j & m2 & Hj & Hn & ->)]; [by left | right]. exists (S j), m2. split_and!; [done | done | lia].
        -- intros [? | (j & m2 & Hj & Hn & ->)]; [by left | right]. destruct j as [|j]; [by injection Hj as -> | ].
           exists j, m2. split_and!; [done | done | lia].
    + rewrite Hsz, map_size_insert_None by done. simpl. lia.
    + destruct (Z.ltb_spec hi (number m)); lia.
    + intros k [-> | Hk]%elem_of_cons; [ | by apply Hle]. destruct (Z.ltb_spec hi (number m)); lia.
    + destruct (Z.ltb_spec hi (number m)); set_solver.
Qed.

Lemma NewCollection_Ret its c :
  positive its -> NewCollection its = Ret c ->
  its <> [] /\ len its <= maxInstancesHard /\ contiguous its /\ items c = its /\ Collection_Valid c = true /\
  highest c = len its /\
  (forall k i, byNumber c !! k = Some i <-> exists m, its !! i = Some m /\ number m = k).
Proof.
  intros Hp. unfold NewCollection. intros (? & Hne%require_ret_inv%negb_true_iff%Z.eqb_neq & H)%obind_ret_inv.
  apply obind_ret_inv in H as ([] & [Hl Hc]%ValidateSequence_Ret & H); [ | done].
  destruct (collectionLoop its 0 ∅ 0) as [b h] eqn:E. injection H as <-.
  apply collectionLoop_spec in E as (Hb & Hsz & _ & Hle & Hin);
    [ | by apply contiguous_NoDup | intros; apply lookup_empty].
  assert (0 < len its) by (pose proof (len_nonneg its); lia).
  assert (h = len its) as ->.
  { destruct Hin as [-> | Hin]; [specialize (Hle 1); rewrite (contiguous_elem its) in Hle by done; lia | ].
    apply (contiguous_elem its) in Hin; [ | done].
    specialize (Hle (len its)). rewrite (contiguous_elem its) in Hle by done. lia. }
  split_and!; try done; [by intros -> | | ].
  - unfold Collection_Valid. cbn [initialized items byNumber highest]. rewrite Hsz, map_size_empty.
    rewrite (proj2 (Z.ltb_lt _ _)) by done. unfold len. cbn [Nat.add]. rewrite !Z.eqb_refl. done.
  - intros k i. cbn [byNumber]. rewrite Hb, lookup_empty. naive_solver.
Qed.

(** NewCollection accepts exactly the nonempty contiguous sequences within
    the limit; the collection it returns is valid, holds the instances in the
    given order, its highest number is their count, and ByNumber finds for each
    number from 1 to that count the one instance with it and nothing else. *)
Theorem NewCollection_exact its :
  Forall (fun m => 0 < number m) its ->
  (is_ret (NewCollection its) = true <-> its <> [] /\ len its <= maxInstancesHard /\ contiguous its) /\
  (forall c, NewCollection its = Ret c ->
     Collection_Valid c = true /\ items c = its /\ HighestNumber c = Collection_Len c /\
     (forall n, is_Some (ByNumber c n) <-> 1 <= n <= Collection_Len c) /\
     (forall n m, ByNumber c n = Some m <-> m ∈ its /\ number m = n)).
Proof.
  intros Hp. split.
  - split.
    + destruct (NewCollection its) as [c | |] eqn:E; try done. intros _. by apply NewCollection_Ret in E as (? & ? & ? & _).
    + intros (Hne & Hl & Hc). unfold NewCollection. rewrite (proj2 (Z.eqb_neq _ _)).
      2: { destruct its as [|m its]; [done | ]. rewrite len_cons. pose proof (len_nonneg its). lia. }
      rewrite (proj2 (ValidateSequence_Ret its Hp)) by done. cbn. by destruct (collectionLoop its 0 ∅ 0).
  - intros c H. apply NewCollection_Ret in H as (Hne & Hl & Hc & Hi & Hv & Hh & Hb); [ | done].
    assert (forall n m, ByNumber c n = Some m <-> m ∈ its /\ number m = n) as HB.
    { intros n m. unfold ByNumber. rewrite Hv, Hi. cbn [negb]. split.
      - destruct (byNumber c !! n) as [i|] eqn:E; [ | done]. apply Hb in E as (m2 & Hm2 & <-).
        destruct (_ <=? _)%nat; [done | ]. rewrite Hm2. intros [= ->]. split; [by eapply list_elem_of_lookup_2 | done].
      - intros [[i Hm]%list_elem_of_lookup_1 Hn]. rewrite (proj2 (Hb n i)) by eauto.
        rewrite (proj2 (Nat.leb_gt _ _)) by by eapply lookup_lt_Some. done. }
    unfold HighestNumber, Collection_Len. rewrite Hi. split_and!; try done. intros n.
    rewrite <- (contiguous_elem its n) by done. split.
    + intros [m [Hm <-]%HB]. by apply list_elem_of_fmap_2.
    + intros (m & -> & Hm)%list_elem_of_fmap. exists m. by apply HB.
Qed.
Lemma NewCollection_exact_witness :
  is_ret (NewCollection (map numbered [2; 1])) = true /\
  (is_ret (NewCollection (map numbered [2; 1])) = true <->
   map numbered [2; 1] <> [] /\ len (map numbered [2; 1]) <= maxInstancesHard /\ contiguous (map numbered [2; 1])).
Proof.
  split; [reflexivity | ]. apply (NewCollection_exact (map numbered [2; 1])). by repeat constructor.
Defined.

(** ** Extraction from a message *)
Definition denotes_field (limits : Limits) (m : MessageInstance) (field : HeaderField) : Prop :=
  headerIndex m = hf_index field /\ instance_text limits (unfoldedValue field) m.

Lemma parseFields_Ret limits fields ms :
  Forall (fun f => nameLower f = HeaderName) fields ->
  parseFields limits fields = Ret ms <-> Forall2 (denotes_field limits) ms fields.
Proof.
  intros Hf. revert ms. induction Hf as [|f fields Hn _ IH]; intros ms; cbn [parseFields].
  - split; [by intros [= <-] | ]. by intros ->%Forall2_nil_inv_r.
  - split.
    + intros (m & (_ & Hm)%ParseField_Ret & H)%obind_ret_inv. apply obind_ret_inv in H as (ms' & Hms & [= <-]).
      constructor; [done | by apply IH].
    + intros (m & ms' & Hm & Hms & ->)%Forall2_cons_inv_r.
      rewrite (proj2 (ParseField_Ret limits f m)) by done. cbn [obind]. by rewrite (proj2 (IH ms')).
Qed.
Lemma parseFields_safe limits fields : no_crash (parseFields limits fields).
Proof. induction fields as [|f fields IH]; cbn [parseFields]; [done | ]. crash_free. apply ParseField_safe. Qed.

Lemma denoted_positive limits ms fields : Forall2 (denotes_field limits) ms fields -> positive ms.
Proof.
  induction 1 as [|m f ms fields [_ Hm] _ IH]; constructor; [ | done].
  destruct Hm as (_ & _ & _ & tf & _ & (v & _ & _ & _ & _ & ? & _) & _). done.
Qed.

Lemma FieldsByName_instance msg :
  HeaderBlock_FieldsByName (headers msg) HeaderName =
  filter (fun f => nameLower f = HeaderName) (hb_fields (headers msg)).
Proof. reflexivity. Qed.

(** Extract never panics and returns a sequence exactly when the message has
    at most the allowed number of Message-Instance fields, each of them denotes
    the instance at its position, and the instances' numbers are 1 to their
    count in some order. *)
Theorem Extract_refines limits msg :
  Extract limits msg <> Crash /\
  forall ms, Extract limits msg = Ret ms <->
    let fields := filter (fun f => nameLower f = HeaderName) (hb_fields (headers msg)) in
    len fields <= MaxInstances limits /\ Forall2 (denotes_field limits) ms fields /\
    len ms <= maxInstancesHard /\ contiguous ms.
Proof.
  unfold Extract. rewrite FieldsByName_instance. set (fields := filter _ _).
  assert (Forall (fun f => nameLower f = HeaderName) fields) as Hf.
  { apply list.Forall_forall. by intros f [? _]%list_elem_of_filter. }
  split.
  - match goal with |- ?g <> Crash => change (no_crash g) end. crash_free; [apply parseFields_safe | ].
    match goal with H : parseFields _ _ = Ret ?ms |- _ => apply parseFields_Ret in H as H%denoted_positive; [ | done];
      destruct (ValidateSequence_cases ms H) as [(-> & _) | (e & -> & _)]; done end.
  - intros ms. cbn zeta. split.
    + intros (? & Hl%require_ret_inv%negb_true_iff%Z.ltb_ge & H)%obind_ret_inv.
      apply obind_ret_inv in H as (ms' & Hms & H). apply parseFields_Ret in Hms; [ | done].
      apply obind_ret_inv in H as ([] & Hv & [= <-]).
      apply ValidateSequence_Ret in Hv as [? ?]; [done | by eapply denoted_positive].
    + intros (Hl & Hms & Hmax & Hc). rewrite (proj2 (Z.ltb_ge _ _)) by done. cbn [negb require obind].
      rewrite (proj2 (parseFields_Ret limits fields ms Hf)) by done. cbn [obind].
      rewrite (proj2 (ValidateSequence_Ret ms (denoted_positive _ _ _ Hms))) by done. done.
Qed.

(** A number of zero, which no parsed field has, is not noticed: the numbers
    0, 1 and 3 pass for a contiguous sequence of three. *)
Lemma ValidateSequence_zero_value : ValidateSequence (map numbered [0; 1; 3]) = Ret tt.
Proof. reflexivity. Qed.
