(* ===== verification/Emitter.v ===== *)
(** * Emitters of folded header fields

    The interface that the emitters of the two renderers share: writing a text,
    accounting for a text by its length only, breaking the line, and what can be
    seen of an emitter that has not failed.  The theorems on scripts and on
    Base64 chunks are proved against the laws; InstRenderSpec.v and
    SigRenderSpec.v discharge them. *)

From S2P Require Import Prelude GoBytes GoBase64 TagTypes TagBase64.
#[local] Open Scope Z_scope.

(** ** Emission of folded header fields under size limits

    The renderers of Message-Instance and DKIM2-Signature fields write texts
    without line breaks and physical line breaks, and account for the size of
    the field and of the current line.  A script is the sequence of what is
    written; [script_fits] is the accounting, and [script_fits_iff] says in
    terms of the physical lines when it stays within the limits. *)
Inductive item := Txt (s : bytes) | Brk.

Definition item_bytes (i : item) : bytes := match i with Txt s => s | Brk => crlf end.
Definition script_bytes (items : list item) : bytes := concat (map item_bytes items).

(** The complete physical lines and the open last one, from the open line [cur] on. *)
Fixpoint script_lines (cur : bytes) (items : list item) : list bytes * bytes :=
  match items with
  | [] => ([], cur)
  | Txt s :: rest => script_lines (cur ++ s) rest
  | Brk :: rest => let '(ls, last) := script_lines [] rest in (cur :: ls, last)
  end.

Section fits.
Context (maxField maxLine : Z).

Definition item_fits (size line : Z) (i : item) : bool :=
  match i with
  | Txt s => (len s <=? maxField - size) && (len s <=? maxLine - line)
  | Brk => 2 <=? maxField - size
  end.
Definition next_line (line : Z) (i : item) : Z := match i with Txt s => line + len s | Brk => 0 end.
Fixpoint script_fits (size line : Z) (items : list item) : bool :=
  match items with
  | [] => true
  | i :: rest => item_fits size line i && script_fits (size + len (item_bytes i)) (next_line line i) rest
  end.

Definition lines_fit (r : list bytes * bytes) : Prop :=
  Forall (fun l => len l <= maxLine) (r.1 ++ [r.2]).

Lemma script_bytes_lines cur items :
  let r := script_lines cur items in cur ++ script_bytes items = unlines r.1 ++ r.2.
Proof.
  revert cur. induction items as [|[s|] items IH]; intros cur; cbn zeta; cbn [script_lines].
  - unfold script_bytes. cbn. by rewrite app_nil_r.
  - unfold script_bytes in *. cbn [map concat item_bytes]. rewrite app_assoc. apply IH.
  - specialize (IH []). cbn zeta in IH. destruct (script_lines [] items) as [ls last].
    cbn [fst snd] in *. rewrite unlines_cons, <- !app_assoc. unfold script_bytes in *. cbn [map concat item_bytes app].
    cbn [app] in IH. by rewrite IH.
Qed.

(** The line that is open can only grow. *)
Lemma lines_fit_open cur items : lines_fit (script_lines cur items) -> len cur <= maxLine.
Proof using.
  unfold lines_fit. revert cur. induction items as [|[s|] items IH]; intros cur; cbn [script_lines].
  - cbn. by intros [? _]%Forall_cons.
  - intros H%IH. rewrite len_app in H. pose proof (len_nonneg s). lia.
  - destruct (script_lines [] items) as [ls last]. cbn. by intros [? _]%Forall_cons.
Qed.

Lemma script_fits_iff size cur items :
  size <= maxField -> len cur <= maxLine ->
  script_fits size (len cur) items = true <->
  size + len (script_bytes items) <= maxField /\ lines_fit (script_lines cur items).
Proof using.
  revert size cur. induction items as [|[s|] items IH]; intros size cur Hs Hc;
    cbn [script_fits script_lines item_fits next_line item_bytes]; unfold script_bytes in *; cbn [map concat item_bytes].
  - change (len (@nil byte)) with 0. rewrite Z.add_0_r. split; [ | done]. intros _. split; [done | ].
    by repeat constructor.
  - rewrite !andb_true_iff, !Z.leb_le, (len_app s). split.
    + intros [[H1 H2] H3]. rewrite <- (len_app cur) in H3. apply IH in H3; [ | lia | rewrite len_app; lia]. split; [lia | tauto].
    + intros [H1 H2]. pose proof (lines_fit_open _ _ H2) as Ho. rewrite len_app in Ho.
      pose proof (len_nonneg (concat (map item_bytes items))). pose proof (len_nonneg s).
      split; [lia | ]. rewrite <- (len_app cur). apply IH; [lia | rewrite len_app; lia | ]. split; [lia | done].
  - rewrite andb_true_iff, Z.leb_le, len_app. change (len crlf) with 2 in *. pose proof (len_nonneg cur).
    pose proof (len_nonneg (concat (map item_bytes items))). change 0 with (len (@nil byte)).
    pose proof (IH (size + 2) []) as IH'. cbn zeta in IH'. change (len (@nil byte)) with 0 in *.
    split.
    + intros [H1 H2]. apply IH' in H2; [ | lia | lia]. destruct (script_lines [] items) as [ls last].
      destruct H2 as [H2 H3]. split; [lia | ]. unfold lines_fit in *. cbn [fst snd app] in *. by constructor.
    + intros [H1 H2]. split; [lia | ]. apply IH'; [lia | lia | ]. destruct (script_lines [] items) as [ls last].
      split; [lia | ]. unfold lines_fit in *. cbn [fst snd app] in *. by apply Forall_cons in H2 as [_ ?].
Qed.
End fits.

(** Scripts of the same shape and lengths fit together. *)
Definition same_shape : list item -> list item -> Prop :=
  Forall2 (fun i j => match i, j with Txt s, Txt t => len s = len t | Brk, Brk => True | _, _ => False end).
Lemma same_shape_fits maxField maxLine size line a b :
  same_shape a b -> script_fits maxField maxLine size line a = script_fits maxField maxLine size line b.
Proof.
  intros H. revert size line. induction H as [|[s|] [t|] a b Hij _ IH]; intros size line; try done; cbn [script_fits item_fits next_line item_bytes].
  - by rewrite Hij, IH.
  - by rewrite IH.
Qed.
Lemma same_shape_len a b : same_shape a b -> len (script_bytes a) = len (script_bytes b).
Proof.
  unfold script_bytes. induction 1 as [|[s|] [t|] a b Hij _ IH]; try done; cbn [map concat item_bytes]; rewrite !len_app; lia.
Qed.

(** An emitter that has not failed: its limits, the text written when there
    is a builder, and the sizes of the field and of the open line. *)
Record view := MkView { v_field : Z; v_line : Z; v_built : option bytes; v_size : Z; v_open : Z }.
Definition view_fits (v : view) (i : item) : bool := item_fits (v_field v) (v_line v) (v_size v) (v_open v) i.
Definition advance (v : view) (i : item) : view :=
  MkView (v_field v) (v_line v) ((fun b => b ++ item_bytes i) <$> v_built v) (v_size v + len (item_bytes i))
    (next_line (v_open v) i).

Class Emitter (X : Type) := {
  e_text : bytes -> X -> X; e_count : Z -> X -> X; e_crlf : X -> X;
  e_builder : X -> option bytes; e_view : X -> option view }.
Definition e_emit `{Emitter X} (e : X) (i : item) : X :=
  match i with Txt s => e_text s e | Brk => e_crlf e end.
Class EmitterLaws (X : Type) `{Emitter X} := {
  emit_view (e : X) i v : e_view e = Some v -> e_view (e_emit e i) = if view_fits v i then Some (advance v i) else None;
  emit_failed (e : X) i : e_view e = None -> e_view (e_emit e i) = None;
  emit_builder (e : X) i : is_Some (e_builder (e_emit e i)) <-> is_Some (e_builder e);
  count_text (e : X) s : e_builder e = None -> e_text s e = e_count (len s) e;
  count_builder (e : X) n : is_Some (e_builder (e_count n e)) <-> is_Some (e_builder e) }.

Section emitter.
Context `{EmitterLaws X}.
#[local] Set Default Proof Using "All".

(** ** Running a script *)
Definition run (items : list item) (e : X) : X := foldl e_emit e items.

Lemma run_nil e : run [] e = e.
Proof. done. Qed.
Lemma run_cons i items e : run (i :: items) e = run items (e_emit e i).
Proof. done. Qed.
Lemma run_app a b e : run (a ++ b) e = run b (run a e).
Proof. apply foldl_app. Qed.
Lemma text_builder s e : is_Some (e_builder (e_text s e)) <-> is_Some (e_builder e).
Proof. apply (emit_builder e (Txt s)). Qed.
Lemma crlf_builder e : is_Some (e_builder (e_crlf e)) <-> is_Some (e_builder e).
Proof. apply (emit_builder e Brk). Qed.
Lemma run_failed items e : e_view e = None -> e_view (run items e) = None.
Proof. revert e. induction items as [|i items IH]; intros e He; [done | ]. by apply IH, emit_failed. Qed.
Lemma run_builder e items : is_Some (e_builder (run items e)) <-> is_Some (e_builder e).
Proof.
  revert e. induction items as [|i items IH]; intros e; [done | ]. rewrite run_cons, IH. apply emit_builder.
Qed.

(** A script is written, with its size, when it fits, and fails otherwise. *)
Definition open_after (line : Z) (items : list item) : Z := foldl next_line line items.
Lemma run_view items e v :
  e_view e = Some v ->
  e_view (run items e) =
  if script_fits (v_field v) (v_line v) (v_size v) (v_open v) items
  then Some (MkView (v_field v) (v_line v) ((fun b => b ++ script_bytes items) <$> v_built v)
               (v_size v + len (script_bytes items)) (open_after (v_open v) items))
  else None.
Proof.
  revert e v. induction items as [|i items IH]; intros e v He; cbn [script_fits].
  - rewrite run_nil, He. unfold script_bytes. cbn. rewrite Z.add_0_r.
    destruct v as [f l [b|] s o]; cbn; [by rewrite app_nil_r | done].
  - rewrite run_cons. pose proof (emit_view e i v He) as Hv. unfold view_fits in Hv.
    destruct (item_fits _ _ _ _ i); cbn [andb]; [ | by apply run_failed].
    rewrite (IH _ _ Hv). cbn [advance v_field v_line v_size v_open v_built].
    destruct (script_fits _ _ _ _ items); [ | done]. do 2 f_equal.
    + unfold script_bytes. destruct (v_built v); cbn; [by rewrite <- app_assoc | done].
    + unfold script_bytes. cbn [map concat]. rewrite len_app. lia.
Qed.
Lemma open_after_break line items : open_after line (items ++ [Brk]) = 0.
Proof. unfold open_after. by rewrite foldl_app. Qed.

(** ** Chunks of a Base64 text *)
(** The visitor of the chunk walk, over its calls. *)
Fixpoint emit_chunks {F} (encoded : bytes) (calls : list (bool * Z * Z)) (e : X) : outcome F X :=
  match calls with
  | [] => Ret e
  | (first, offset, size) :: rest =>
      let e := if first : bool then e else e_text [x09] (e_crlf e) in
      match e_builder e with
      | None => emit_chunks encoded rest (e_count size e)
      | Some _ =>
          let* chunk := zslice encoded offset (offset + size) in
          emit_chunks encoded rest (e_text chunk e)
      end
  end.
Definition fold_items (cs : list bytes) : list item := concat (map (fun d => [Brk; Txt [x09]; Txt d]) cs).
Definition chunk_items (c : bytes) (cs : list bytes) : list item := Txt c :: fold_items cs.

Lemma emit_chunks_run {F} s encoded calls cs e :
  Forall2 (call_chunk s false) calls cs -> (is_Some (e_builder e) -> encoded = s) ->
  emit_chunks (F := F) encoded calls e = Ret (run (fold_items cs) e).
Proof.
  intros HF. revert e. induction HF as [|call d calls cs (off & -> & Hz) _ IH]; intros e He; [done | ].
  cbn [emit_chunks]. unfold fold_items. cbn [map concat app]. fold (fold_items cs).
  rewrite !run_cons. cbn [e_emit]. set (e1 := e_text [x09] (e_crlf e)).
  assert (is_Some (e_builder e1) <-> is_Some (e_builder e)) as Hb.
  { unfold e1. by rewrite text_builder, crlf_builder. }
  assert (is_Some (e_builder (e_text d e1)) <-> is_Some (e_builder e)) as Hb2 by by rewrite text_builder.
  destruct (e_builder e1) as [b|] eqn:E1.
  - assert (encoded = s) as -> by (apply He, Hb; eauto). rewrite Hz. cbn [obind]. by apply IH.
  - rewrite <- count_text by done. apply IH. intros Hx%Hb2%Hb. by destruct Hx.
Qed.
Lemma emit_chunks_all {F} s encoded call calls c cs e :
  call_chunk s true call c -> Forall2 (call_chunk s false) calls cs -> (is_Some (e_builder e) -> encoded = s) ->
  emit_chunks (F := F) encoded (call :: calls) e = Ret (run (chunk_items c cs) e).
Proof.
  intros (off & -> & Hz) Hcs He. cbn [emit_chunks]. unfold chunk_items. rewrite run_cons. cbn [e_emit].
  assert (is_Some (e_builder (e_text c e)) <-> is_Some (e_builder e)) as Hb by apply text_builder.
  destruct (e_builder e) as [b|] eqn:E1.
  - assert (encoded = s) as -> by eauto. rewrite Hz. cbn [obind]. by eapply emit_chunks_run.
  - rewrite <- count_text by done. eapply emit_chunks_run; [done | ]. intros Hx%Hb. by destruct Hx.
Qed.
End emitter.

(** ** The chunks of a text *)
(** The text cut every 64 characters. *)
Fixpoint chunk_loop (fuel : nat) (s : bytes) : list bytes :=
  match fuel with
  | O => []
  | S fuel => if (length s <=? 64)%nat then [s] else take 64 s :: chunk_loop fuel (drop 64 s)
  end.
Definition chunk64 (s : bytes) : list bytes := match s with [] => [] | _ => chunk_loop (length s) s end.

Lemma chunk_loop_spec fuel s :
  s <> [] -> (length s <= fuel)%nat -> chunked (chunk_loop fuel s) /\ concat (chunk_loop fuel s) = s.
Proof.
  revert s. induction fuel as [|fuel IH]; intros s Hne Hf; [by destruct s; [ | cbn in Hf; lia] | ]. cbn [chunk_loop].
  assert (0 < length s)%nat by (destruct s; [done | cbn; lia]).
  destruct (Nat.leb_spec (length s) 64).
  - split; [ | by apply app_nil_r]. constructor. unfold len. change renderedBase64ChunkBytes with 64. lia.
  - destruct (IH (drop 64 s)) as [Hc He]; [intros E; apply (f_equal length) in E; rewrite length_drop in E; cbn in E; lia |
      rewrite length_drop; lia | ].
    split; [ | cbn [concat]; rewrite He; apply take_drop]. constructor; [ | done].
    unfold len. rewrite length_take. change renderedBase64ChunkBytes with 64. lia.
Qed.
Lemma chunk64_spec s : s <> [] -> chunked (chunk64 s) /\ concat (chunk64 s) = s.
Proof. intros Hs. destruct s as [|b s]; [done | ]. by apply chunk_loop_spec. Qed.

Lemma chunked_nonempty cs : chunked cs -> 0 < len (concat cs).
Proof.
  intros [c Hc | c cs' Hc H]; cbn [concat]; rewrite len_app; change renderedBase64ChunkBytes with 64 in Hc.
  - change (len (@nil byte)) with 0. lia.
  - pose proof (len_nonneg (concat cs')). lia.
Qed.
(** There is one way to cut a text into chunks. *)
Lemma chunked_unique l l' : chunked l -> chunked l' -> concat l = concat l' -> l = l'.
Proof.
  intros Hl. revert l'. induction Hl as [x Hx | x l Hx Hl IH]; intros l' Hl'; cbn [concat];
    destruct Hl' as [y Hy | y l' Hy Hl']; cbn [concat]; rewrite ?app_nil_r; intros E;
    change renderedBase64ChunkBytes with 64 in *.
  - by rewrite E.
  - apply chunked_nonempty in Hl'. apply (f_equal len) in E. rewrite len_app in E. lia.
  - apply chunked_nonempty in Hl. apply (f_equal len) in E. rewrite len_app in E. lia.
  - apply app_inj_1 in E as [-> E]; [ | unfold len in *; lia]. f_equal. by apply IH.
Qed.
Lemma chunked_chunk64 cs : chunked cs -> cs = chunk64 (concat cs).
Proof.
  intros H. pose proof (chunked_nonempty _ H) as Hp.
  destruct (chunk64_spec (concat cs)) as [Hc He]; [by intros E; rewrite E in Hp | ]. by apply chunked_unique.
Qed.

(** A Base64 text on a new line, and one that goes on with the open line. *)
Definition b64_items (d : bytes) : list item :=
  match chunk64 (std_encode d) with c :: cs => chunk_items c cs | [] => [] end.
Definition b64_cont_items (d : bytes) : list item :=
  match std_encode d with b :: rest => chunk_items [b] (chunk64 rest) | [] => [] end.

Section walks.
Context `{EmitterLaws X}.
#[local] Set Default Proof Using "All".
Context (d : bytes) (Hne : d <> []) (Hlen : len d <= 2 ^ 62).

Lemma encoded_size : base64EncodedSize (len d) = (len (std_encode d), true).
Proof.
  unfold base64EncodedSize. change (2 ^ 62) with 4611686018427387904 in Hlen. pose proof (len_nonneg d). unfold MaxInt.
  rewrite (proj2 (Z.ltb_ge _ _)), (proj2 (Z.ltb_ge _ _)) by lia. cbn [orb].
  rewrite (proj2 (Z.ltb_ge _ _)) by lia. by rewrite <- len_encode.
Qed.
Lemma walk_emits :
  exists calls, WalkBase64Chunks (len d) = Ret (calls, len (std_encode d), true) /\
    forall F encoded (e : X), (is_Some (e_builder e) -> encoded = std_encode d) ->
      emit_chunks (F := F) encoded calls e = Ret (run (b64_items d) e).
Proof.
  destruct (walk_all _ (std_encode_nonempty d Hne)) as (call & calls & c & cs & Hw & Hc & Hcs & Hcat & Hch).
  exists (call :: calls). unfold WalkBase64Chunks. rewrite encoded_size, Hw. split; [done | ]. intros F enc e He.
  assert (b64_items d = chunk_items c cs) as ->.
  { unfold b64_items. rewrite <- Hcat. change (c ++ concat cs) with (concat (c :: cs)). by rewrite <- chunked_chunk64. }
  by eapply emit_chunks_all.
Qed.
Lemma walk_continued_emits :
  exists calls, WalkContinuedBase64Chunks (len d) = Ret (calls, len (std_encode d), true) /\
    forall F encoded (e : X), (is_Some (e_builder e) -> encoded = std_encode d) ->
      emit_chunks (F := F) encoded calls e = Ret (run (b64_cont_items d) e).
Proof.
  pose proof (std_encode_nonempty d Hne) as Hs. pose proof (len_encode d) as Hl.
  assert (1 <= len d) by (destruct d as [|b t]; [done | rewrite len_cons; pose proof (len_nonneg t); lia]).
  unfold WalkContinuedBase64Chunks. rewrite encoded_size. cbn [negb orb]. rewrite (proj2 (Z.eqb_neq _ _)) by lia.
  unfold b64_cont_items. destruct (std_encode d) as [|b rest] eqn:E; [done | ]. rewrite len_cons in Hl.
  destruct (walk_calls (S (Z.to_nat (len (b :: rest)))) (b :: rest) 1 (fun _ => false)) as (calls & cs & Hw & Hcs & Hcat & Hch);
    [rewrite len_cons; lia | done | lia | ].
  rewrite Hw. cbn [obind]. eexists. split; [done | ]. intros F enc e He. change (drop (Z.to_nat 1) (b :: rest)) with rest in Hcat.
  assert (cs = chunk64 rest) as -> by (rewrite <- Hcat; by apply chunked_chunk64).
  eapply emit_chunks_all; [ | done | done].
  apply (call_chunk_at (b :: rest) true 0 1). cbn. lia.
Qed.
End walks.
