(* ===== verification/FieldScript.v ===== *)
(** * Scripts of header fields with tag lists

    A generated field writes its name, then one tag after another, each on a
    line of its own; a value may fold inside.  Such a script is a message of one
    header field for the rawmsg parser, whose unfolded value is the tag list of
    the values. *)

From stdpp Require Import gmap.
From S2P Require Import Prelude GoBytes GoBase64 GoStrconv RawMsg RawBody RawParser RawSpec TagTypes TagScan TagBase64 Combine TagSpec Emitter.
#[local] Open Scope Z_scope.

(** ** Folded scripts *)
(** Every break is followed by a line that begins with a tab. *)
Inductive folded : list item -> Prop :=
  | folded_nil : folded []
  | folded_txt s r : folded r -> folded (Txt s :: r)
  | folded_brk s r : folded r -> folded (Brk :: Txt (x09 :: s) :: r).
Lemma folded_app a b : folded a -> folded b -> folded (a ++ b).
Proof. intros Ha Hb. induction Ha; cbn [app]; by try constructor. Qed.
Lemma folded_fold_items cs : folded (fold_items cs).
Proof.
  unfold fold_items. induction cs as [|c cs IH]; cbn [map concat app]; [constructor | ]. by apply (folded_brk []), folded_txt.
Qed.
Lemma folded_b64 d : folded (b64_items d).
Proof. unfold b64_items. destruct (chunk64 _); [constructor | ]. apply folded_txt, folded_fold_items. Qed.
Lemma folded_b64_cont d : folded (b64_cont_items d).
Proof. unfold b64_cont_items. destruct (std_encode d); [constructor | ]. apply folded_txt, folded_fold_items. Qed.

(** What is written between the breaks. *)
Definition item_text (i : item) : bytes := match i with Txt s => s | Brk => [] end.
Definition script_text (items : list item) : bytes := concat (map item_text items).
Lemma script_text_app a b : script_text (a ++ b) = script_text a ++ script_text b.
Proof. unfold script_text. by rewrite map_app, concat_app. Qed.
Lemma script_text_cons i a : script_text (i :: a) = item_text i ++ script_text a.
Proof. done. Qed.
Definition plain_items (items : list item) : Prop := Forall (fun i => plain (item_text i)) items.
Lemma plain_items_app a b : plain_items (a ++ b) <-> plain_items a /\ plain_items b.
Proof. apply Forall_app. Qed.
Lemma plain_items_cons s a : plain_items (Txt s :: a) <-> plain s /\ plain_items a.
Proof. unfold plain_items. by rewrite Forall_cons. Qed.
Lemma plain_items_brk a : plain_items (Brk :: a) <-> plain_items a.
Proof. unfold plain_items. rewrite Forall_cons. cbn. split; [tauto | ]. intros ?. split; [constructor | done]. Qed.

Lemma folded_lines items :
  folded items -> plain_items items ->
  exists l ls, (forall cur, script_lines cur (items ++ [Brk]) = ((cur ++ l) :: ls, [])) /\
    plain l /\ Forall cont_line ls /\ l ++ concat ls = script_text items.
Proof.
  intros Hf. induction Hf as [ | s r Hf IH | s r Hf IH]; intros Hp.
  - exists [], []. split_and!; [intros cur; cbn; by rewrite app_nil_r | constructor | constructor | done].
  - apply plain_items_cons in Hp as [Hs Hp]. destruct (IH Hp) as (l & ls & Hl & Hpl & Hc & E).
    exists (s ++ l), ls. split_and!; [ | by apply plain_app | done | rewrite script_text_cons, <- E; by rewrite <- app_assoc].
    intros cur. cbn [app script_lines]. by rewrite Hl, <- app_assoc.
  - apply plain_items_brk, plain_items_cons in Hp as [Hs Hp]. destruct (IH Hp) as (l & ls & Hl & Hpl & Hc & E).
    exists [], (((x09 :: s) ++ l) :: ls). split_and!; [ | constructor | | ].
    + intros cur. cbn [app script_lines]. pose proof (Hl (x09 :: s)) as Hl'. cbn [app] in *. rewrite Hl'. by rewrite app_nil_r.
    + constructor; [ | done]. split; [by apply plain_app | by exists x09, (s ++ l)].
    + rewrite !script_text_cons. cbn [item_text app concat]. rewrite <- E. cbn [app]. by rewrite <- app_assoc.
Qed.

(** ** The script of a field *)
Definition tag_start (n : bytes) : bytes := x09 :: n ++ [x3d].
Definition more_tags (tags : list (bytes * list item)) : list item :=
  concat (map (fun '(n, v) => [Txt [x3b]; Brk; Txt (tag_start n)] ++ v) tags).
Definition header_script (name n0 : bytes) (v0 : list item) (tags : list (bytes * list item)) : list item :=
  Txt (name ++ [x3a; x20] ++ n0 ++ [x3d]) :: v0 ++ more_tags tags ++ [Txt [x3b]; Brk].
Definition tag_texts (n0 : bytes) (v0 : list item) (tags : list (bytes * list item)) : list bytes :=
  ([x20] ++ n0 ++ [x3d] ++ script_text v0) :: map (fun '(n, v) => [x09] ++ n ++ [x3d] ++ script_text v) tags.
Definition header_value (n0 : bytes) (v0 : list item) (tags : list (bytes * list item)) : bytes :=
  join_semi (tag_texts n0 v0 tags) ++ [x3b].

Definition good_tag (t : bytes * list item) : Prop := plain t.1 /\ folded t.2 /\ plain_items t.2.
Lemma more_tags_good tags : Forall good_tag tags -> folded (more_tags tags) /\ plain_items (more_tags tags).
Proof.
  unfold more_tags. induction 1 as [|[n v] tags (Hn & Hf & Hp) _ [IHf IHp]]; [split; constructor | ].
  cbn [map concat fst snd] in *. split.
  - apply folded_app; [ | done]. apply folded_txt, (folded_brk (n ++ [x3d])), Hf.
  - apply plain_items_app. split; [ | done]. apply plain_items_app. split; [ | done].
    repeat constructor. apply plain_app. split; [done | by repeat constructor].
Qed.
Lemma more_tags_text tags text :
  text ++ script_text (more_tags tags) = join_semi (text :: map (fun '(n, v) => [x09] ++ n ++ [x3d] ++ script_text v) tags).
Proof.
  revert text. induction tags as [|[n v] tags IH]; intros text; [by apply app_nil_r | ].
  unfold more_tags. cbn [map concat]. fold (more_tags tags). rewrite !script_text_app, !script_text_cons. cbn [item_text app].
  cbn [map]. change (join_semi (text :: ?u :: ?r)) with (text ++ x3b :: join_semi (u :: r)). rewrite <- IH.
  unfold tag_start, script_text. cbn [map concat app]. by rewrite <- !app_assoc.
Qed.

Lemma header_script_lines name n0 v0 tags :
  plain n0 -> folded v0 -> plain_items v0 -> Forall good_tag tags ->
  exists first conts, script_lines [] (header_script name n0 v0 tags) = (field_lines (MkFS name first conts), []) /\
    plain first /\ Forall cont_line conts /\ first ++ concat conts = header_value n0 v0 tags.
Proof.
  intros Hn Hf Hp [Htf Htp]%more_tags_good.
  destruct (folded_lines (v0 ++ more_tags tags ++ [Txt [x3b]])) as (l & ls & Hl & Hpl & Hc & E).
  - apply folded_app; [done | ]. apply folded_app; [done | repeat constructor].
  - rewrite !plain_items_app. split_and!; [done | done | by repeat constructor].
  - exists ([x20] ++ n0 ++ [x3d] ++ l), ls. split_and!; [ | | done | ].
    + unfold header_script. cbn [script_lines app]. unfold field_lines. cbn [fs_name fs_first fs_conts].
      rewrite <- !app_assoc in Hl. cbn [app] in Hl. rewrite Hl. do 2 f_equal. repeat (rewrite <- ?app_assoc; cbn [app]). done.
    + rewrite !plain_app. split_and!; try done; by repeat constructor.
    + unfold header_value, tag_texts. rewrite <- more_tags_text, <- !app_assoc, E, !script_text_app. done.
Qed.

(** ** The field as a message *)
Lemma plain_literal (s : bytes) : forallb plain_byte s = true -> plain s.
Proof. intros H. apply list.Forall_forall. intros b Hb%list_elem_of_In. by apply (proj1 (forallb_forall _ _) H). Qed.
Definition field_message (f : field_spec) : msg_spec := MkMS [f] None.
Lemma field_message_encoding f : encode_msg (field_message f) = unlines (field_lines f).
Proof. unfold encode_msg, enc_fields. cbn. by rewrite !app_nil_r. Qed.

(** The field alone, or with the empty line that ends a header. *)
Definition delimited_message (f : field_spec) : msg_spec := MkMS [f] (Some ([], [])).
Lemma delimited_message_encoding f : encode_msg (delimited_message f) = unlines (field_lines f) ++ crlf.
Proof. unfold encode_msg, enc_fields. cbn. by rewrite !app_nil_r. Qed.

Lemma field_message_parses f :
  wf_field f -> len (unlines (field_lines f)) <= 65536 -> Forall (fun l => len l <= 998) (field_lines f) ->
  ParseWithOptions (unlines (field_lines f)) DefaultParserOptions = Ret (message_of (field_message f)) /\
  ParseWithOptions (unlines (field_lines f) ++ crlf) DefaultParserOptions = Ret (message_of (delimited_message f)).
Proof.
  intros Hf Hlen Hlines.
  assert (fits_header DefaultParserOptions [f]) as Hh.
  { unfold fits_header. change (concat (map field_lines [f])) with (field_lines f ++ []). rewrite app_nil_r. split_and!; [done | | done].
    apply Forall_singleton. change (enc_field f) with (unlines (field_lines f)). exact Hlen. }
  assert (enc_fields [f] = unlines (field_lines f)) as Ef by (unfold enc_fields; cbn; by rewrite app_nil_r).
  change defaultMaxHeaderFieldBytes with 65536 in *.
  split; [rewrite <- field_message_encoding | rewrite <- delimited_message_encoding]; (apply parse_complete; [done | split; [done | split; [by apply Forall_singleton | first [exact I | split; constructor]]] | ]).
  - unfold fits_msg. rewrite field_message_encoding. cbn [field_message ms_fields ms_body]. rewrite Ef.
    cbn [DefaultParserOptions MaxHeaderBytes MaxMessageBytes]. change defaultMaxHeaderBytes with 1048576.
    change defaultMaxMessageBytes with 134217728. split_and!; done || lia.
  - unfold fits_msg. rewrite delimited_message_encoding, len_app. cbn [delimited_message ms_fields ms_body]. rewrite Ef.
    change (len crlf) with 2. cbn [DefaultParserOptions MaxHeaderBytes MaxMessageBytes]. change defaultMaxHeaderBytes with 1048576.
    change defaultMaxMessageBytes with 134217728. split_and!; done || lia || by split.
Qed.

Lemma field_message_framing f : Message_Framing (message_of (field_message f)) = Some MessageFramingHeaderOnly.
Proof.
  unfold Message_Framing. 
  assert (Message_Initialized (message_of (field_message f)) = true) as ->.
  { unfold Message_Initialized. cbn [message_of rawBytes headers body block_of hb_initialized]. rewrite andb_true_r.
    change (body_initialized (spec_body (ms_body (field_message f)))) with true. rewrite andb_true_r, field_message_encoding.
    apply Z.ltb_lt. unfold field_lines. rewrite unlines_cons. unfold len, crlf. rewrite !length_app. cbn [length]. lia. }
  cbn [negb message_of rawBytes headers body block_of hb_originalBytes].
  rewrite bool_decide_eq_true_2 by done. unfold encode_msg. cbn [field_message ms_body ms_fields].
  by rewrite (proj2 (bytes_equal_eq _ _)) by by rewrite ?app_nil_r.
Qed.
Lemma len_concat_unlines ls : len (concat ls) <= len (unlines ls).
Proof.
  induction ls as [|l ls IH]; [done | ]. rewrite unlines_cons. cbn [concat]. rewrite !len_app. change (len crlf) with 2. lia.
Qed.
Lemma len_unfolded f : len (fs_first f ++ concat (fs_conts f)) <= len (unlines (field_lines f)).
Proof.
  unfold field_lines. rewrite unlines_cons. pose proof (len_concat_unlines (fs_conts f)).
  rewrite !len_app, len_cons. pose proof (len_nonneg (fs_name f)). change (len crlf) with 2. lia.
Qed.

(** ** The tag list *)
Definition as_tag (t : bytes * list item) : Tag := MkTag t.1 (trim_bytes TagTypes.isWSP (script_text t.2)) true.
Lemma as_tag_edged n v : edged TagTypes.isWSP (script_text v) -> as_tag (n, v) = MkTag n (script_text v) true.
Proof.
  intros He. unfold as_tag. cbn [fst snd]. f_equal.
  assert (trim_bytes TagTypes.isWSP ([] ++ script_text v ++ []) = script_text v) as H
    by (apply trim_bytes_mid; [done | constructor | constructor]).
  by rewrite app_nil_r in H.
Qed.
Definition known_name (known : KnownTags) (n : bytes) : bool :=
  bool_decide (tagName n (MaxTagNameBytes TagTypes.DefaultLimits) = Some n) && negb (containsASCIIUpper n)
  && KnownTags_Contains known n.

Lemma as_tag_ok known t :
  known_name known t.1 = true -> len (script_text t.2) <= 65536 -> x3b ∉ script_text t.2 ->
  ok_tag known TagTypes.DefaultLimits scanModeHeader (as_tag t) /\ x3b ∉ tag_value (as_tag t) /\
  exists w1 w2, wsp w1 /\ wsp w2 /\ script_text t.2 = w1 ++ tag_value (as_tag t) ++ w2.
Proof.
  intros [[Hn%bool_decide_eq_true Hu%negb_true_iff]%andb_true_iff Hk]%andb_true_iff Hl Hs.
  destruct (trim_bytes_split TagTypes.isWSP (script_text t.2)) as (w1 & w2 & E & He & H1 & H2).
  unfold as_tag. cbn [tag_name tag_value]. set (v := trim_bytes _ _) in *. split_and!.
  - unfold ok_tag. cbn [tag_name tag_value tag_known]. rewrite E, !len_app in Hl. pose proof (len_nonneg w1). pose proof (len_nonneg w2).
    change (MaxTagValueBytes TagTypes.DefaultLimits) with 65536. split_and!; try done; [lia | by intros [? | ?]].
  - intros Hin. apply Hs. rewrite E. set_solver.
  - exists w1, w2. by split_and!.
Qed.

Lemma in_join_len s ss : s ∈ ss -> len s <= len (join_semi ss).
Proof.
  induction ss as [|x ss IH]; [by intros ?%elem_of_nil | ]. pose proof (len_nonneg (join_semi ss)). pose proof (len_nonneg x).
  destruct ss as [|y ss]; [intros ->%list_elem_of_singleton; cbn; lia | ].
  change (join_semi (x :: y :: ss)) with (x ++ x3b :: join_semi (y :: ss)) in *. rewrite len_app, len_cons.
  intros [-> | Hin]%elem_of_cons; [lia | specialize (IH Hin); lia].
Qed.
Lemma header_tag_list known n0 v0 tags :
  let all := (n0, v0) :: tags in
  Forall (fun t => known_name known t.1 = true /\ x3b ∉ script_text t.2) all ->
  NoDup (map fst all) -> len all <= 64 -> len (header_value n0 v0 tags) <= 65536 ->
  tag_list known TagTypes.DefaultLimits scanModeHeader (header_value n0 v0 tags) (field_of (map as_tag all)).
Proof.
  cbn zeta. intros Hall Hnd Hlen Hval.
  assert (forall s, s ∈ tag_texts n0 v0 tags -> len s <= 65536) as Hl.
  { intros s Hs%in_join_len. unfold header_value in Hval. rewrite len_app in Hval. change (len [x3b]) with 1 in Hval. lia. }
  assert (forall w t s, wsp w -> s = w ++ t.1 ++ [x3d] ++ script_text t.2 -> len s <= 65536 ->
            known_name known t.1 = true /\ x3b ∉ script_text t.2 ->
            tag_text (as_tag t) s /\ ok_tag known TagTypes.DefaultLimits scanModeHeader (as_tag t) /\ x3b ∉ tag_value (as_tag t)) as Hone.
  { intros w t s Hw -> Hs [Hn Hv]. rewrite !len_app in Hs. change (len [x3d]) with 1 in Hs.
    pose proof (len_nonneg w). pose proof (len_nonneg t.1).
    destruct (as_tag_ok known t Hn ltac:(lia) Hv) as (Hok & Hsemi & w1 & w2 & H1 & H2 & E). split_and!; [ | done | done].
    exists w, [], w1, w2. split_and!; [done | constructor | done | done | ]. cbn [app]. by rewrite E. }
  exists (map as_tag ((n0, v0) :: tags)), (tag_texts n0 v0 tags), [x3b]. split_and!.
  - unfold tag_texts in *. cbn [map]. apply Forall_cons in Hall as [H0 Hall]. constructor.
    + apply (Hone [x20]); [by repeat constructor | done | apply Hl; by left | done].
    + assert (forall s, s ∈ map (fun '(n, v) => [x09] ++ n ++ [x3d] ++ script_text v) tags -> len s <= 65536) as Hl'
        by (intros s Hs; apply Hl; by right).
      clear -Hall Hone Hl'. induction Hall as [|[n v] tags Ht _ IH]; [constructor | ]. cbn [map] in *. constructor.
      * apply (Hone [x09]); [by repeat constructor | done | apply Hl'; by left | done].
      * apply IH. intros s Hs. apply Hl'. by right.
  - done.
  - right. exists []. split; [constructor | done].
  - done.
  - rewrite map_map. exact Hnd.
  - change (MaxTags TagTypes.DefaultLimits) with 64. unfold len in *. by rewrite length_map.
  - done.
Qed.

Lemma header_value_len n0 v0 tags t :
  t ∈ (n0, v0) :: tags -> len (script_text t.2) <= len (header_value n0 v0 tags).
Proof.
  intros Ht. unfold header_value. rewrite len_app. change (len [x3b]) with 1.
  assert (exists s, s ∈ tag_texts n0 v0 tags /\ len (script_text t.2) <= len s) as (s & Hs%in_join_len & Hl); [ | lia].
  apply elem_of_cons in Ht as [-> | Ht].
  - eexists. split; [by left | ]. rewrite !len_app. cbn [snd]. pose proof (len_nonneg n0). change (len [x20]) with 1. change (len [x3d]) with 1. lia.
  - destruct t as [n v]. exists ([x09] ++ n ++ [x3d] ++ script_text v). split.
    + right. apply list_elem_of_fmap. by exists (n, v).
    + rewrite !len_app. cbn [snd]. pose proof (len_nonneg n). change (len [x09]) with 1. change (len [x3d]) with 1. lia.
Qed.

(** ** Numbers *)
Lemma digit_byte b : is_digit b = true -> plain_byte b = true /\ TagTypes.isWSP b = false /\ b <> x3b.
Proof.
  enough (implb (is_digit b) (plain_byte b && negb (TagTypes.isWSP b) && negb (b =?b x3b)) = true) as H.
  { intros E. rewrite E in H. cbn in H. apply andb_true_iff in H as [[H1 H2]%andb_true_iff H3].
    apply negb_true_iff in H2, H3. by apply byte_eqb_ne in H3. }
  by_bytes b.
Qed.
Lemma digits_Forall s : forallb is_digit s = true -> Forall (fun b => is_digit b = true) s.
Proof. intros H. apply list.Forall_forall. intros b Hb%list_elem_of_In. by apply (proj1 (forallb_forall _ _) H). Qed.
Lemma digits_plain s : forallb is_digit s = true -> plain s.
Proof. intros H%digits_Forall. eapply Forall_impl; [exact H | ]. intros b Hb. by apply digit_byte in Hb as [? _]. Qed.
Lemma number_ok num :
  0 < num <= MaxUint64 ->
  edged TagTypes.isWSP (format_uint num) /\ len (format_uint num) <= 20 /\ x3b ∉ format_uint num /\
  number_value (format_uint num) num.
Proof.
  unfold MaxUint64. intros Hn. destruct (format_uint_spec num ltac:(lia)) as (Hd & Hv & Hne & _).
  pose proof (digits_Forall _ Hd) as Hf. split_and!.
  - apply (all_dark_edged is_digit); [ | done]. intros b Hb. by apply digit_byte in Hb as (_ & ? & _).
  - apply format_uint_len; lia.
  - by eapply (chars_no is_digit).
  - unfold number_value, MaxUint64. rewrite Hv. split_and!; [done | done | done | lia | lia].
Qed.

(** A script that fits is a message of its one field. *)
Section message.
Context (name n0 : bytes) (v0 : list item) (tags : list (bytes * list item)).
Hypothesis Hname : validHeaderFieldName name = true.
Hypothesis Hgood : Forall good_tag ((n0, v0) :: tags).

Lemma header_message maxField maxLine :
  0 <= maxField <= 65536 -> 0 <= maxLine <= 998 ->
  script_fits maxField maxLine 0 0 (header_script name n0 v0 tags) = true ->
  exists first conts,
    Parse (script_bytes (header_script name n0 v0 tags)) = Ret (message_of (field_message (MkFS name first conts))) /\
    Parse (script_bytes (header_script name n0 v0 tags) ++ crlf) = Ret (message_of (delimited_message (MkFS name first conts))) /\
    first ++ concat conts = header_value n0 v0 tags /\
    Forall (fun b => b <> CR /\ b <> LF) (header_value n0 v0 tags) /\ len (header_value n0 v0 tags) <= 65536.
Proof using Hname Hgood.
  intros HF HL Hfit. apply Forall_cons in Hgood as [(Hn & Hf & Hp) Htags]. cbn [fst snd] in *.
  destruct (header_script_lines name n0 v0 tags Hn Hf Hp Htags) as (first & conts & Hlines & Hpf & Hc & E).
  change 0 with (len (@nil byte)) in Hfit at 2. apply script_fits_iff in Hfit; [ | lia | change (len (@nil byte)) with 0; lia].
  pose proof (script_bytes_lines [] (header_script name n0 v0 tags)) as Eb. cbn zeta in Eb.
  unfold lines_fit in Hfit. rewrite Hlines in *. cbn [fst snd app] in *. rewrite app_nil_r in Eb.
  rewrite Eb in *. destruct Hfit as [Hlen [Hls _]%Forall_app].
  assert (wf_field (MkFS name first conts)) as Hwf by by split_and!.
  destruct (field_message_parses (MkFS name first conts)) as [H1 H2]; [done | lia | | ].
  { eapply Forall_impl; [exact Hls | ]. cbn. lia. }
  exists first, conts. split_and!; [exact H1 | exact H2 | done | | ].
  - rewrite <- E. apply Forall_app. split; [eapply Forall_impl; [exact Hpf | intros b; apply plain_byte_spec] | ].
    apply Forall_concat. eapply Forall_impl; [exact Hc | ]. intros l [Hl _]. eapply Forall_impl; [exact Hl | intros b; apply plain_byte_spec].
  - rewrite <- E. pose proof (len_unfolded (MkFS name first conts)) as Hu. cbn [fs_first fs_conts] in Hu. lia.
Qed.
End message.
