(* ===== verification/InstRender.v ===== *)
(** * Package internal/instance: rendering Message-Instance fields (render.go)

    The emitter is threaded through its methods; its [builder] is the text
    written so far when there is one (rendering) and [None] in the preflight.
    The formatting methods of render.go are not modelled. *)

From S2P Require Import Prelude GoBytes GoBase64 GoStrconv TagTypes TagBase64 Combine InstTypes InstParser Emitter.
#[local] Open Scope Z_scope.

Definition hardMaxRenderedFieldBytes : Z := 64 * 1024.
Definition hardMaxRenderedLineBytes : Z := 998.
Definition hardMaxSigningRecipeBytes : Z := 45 * 1024.

Record SigningRequest := MkRequest {
  req_Number : Z; req_HeaderHash : bytes; req_BodyHash : bytes; req_Recipe : bytes;
  req_RecipePresent : bool }.

Record RenderLimits := MkRenderLimits { MaxFieldBytes : Z; MaxLineBytes : Z; MaxRecipeBytes : Z }.
Definition DefaultRenderLimits : RenderLimits :=
  MkRenderLimits hardMaxRenderedFieldBytes hardMaxRenderedLineBytes hardMaxSigningRecipeBytes.

Definition renderOptionsError (n : string) (actual : Z) : Failure :=
  InstanceFailure (newError ErrorCodeInvalidOptions noLoc (limitDetails n 0 actual) None).
Definition renderLimitError (n : string) (limit actual : Z) : Failure :=
  InstanceFailure (newError ErrorCodeLimitExceeded noLoc (limitDetails n limit actual) None).
Definition constructionError (t : TagName) : Failure :=
  InstanceFailure (newError ErrorCodeInvalidConstruction noLoc (tagDetails t) None).
Definition invariantError : Failure :=
  InstanceFailure (newError ErrorCodeRenderInvariant noLoc noDetails None).

Definition RenderLimits_Validate (l : RenderLimits) : outcome Failure unit :=
  check require (negb ((MaxFieldBytes l <=? 0) || (hardMaxRenderedFieldBytes <? MaxFieldBytes l)))
    (renderOptionsError "max_field_bytes" (MaxFieldBytes l)) ;;
  check require (negb ((MaxLineBytes l <=? 0) || (hardMaxRenderedLineBytes <? MaxLineBytes l)))
    (renderOptionsError "max_line_bytes" (MaxLineBytes l)) ;;
  require (negb ((MaxRecipeBytes l <=? 0) || (hardMaxSigningRecipeBytes <? MaxRecipeBytes l)))
    (renderOptionsError "max_recipe_bytes" (MaxRecipeBytes l)).
Definition normalized (l : RenderLimits) : outcome Failure RenderLimits :=
  let l := MkRenderLimits (default_if_zero (MaxFieldBytes l) (MaxFieldBytes DefaultRenderLimits))
             (default_if_zero (MaxLineBytes l) (MaxLineBytes DefaultRenderLimits))
             (default_if_zero (MaxRecipeBytes l) (MaxRecipeBytes DefaultRenderLimits)) in
  check RenderLimits_Validate l ;; Ret l.

Definition parseGeneratedBase64 (decoded : bytes) : outcome Failure Base64String :=
  map_fail (fun _ => invariantError) (ParseBase64String (EncodeBase64 decoded) TagTypes.DefaultLimits).

Definition NewForSigning (request : SigningRequest) : outcome Failure MessageInstance :=
  check require (negb ((req_Number request =? 0) || negb (len (req_HeaderHash request) =? sha256HashBytes)
                       || negb (len (req_BodyHash request) =? sha256HashBytes)))
    (constructionError "") ;;
  check require (negb (negb (req_RecipePresent request) && negb (len (req_Recipe request) =? 0)
                       || req_RecipePresent request && (len (req_Recipe request) =? 0)))
    (constructionError "r") ;;
  check require (negb (hardMaxSigningRecipeBytes <? len (req_Recipe request)))
    (renderLimitError "max_recipe_bytes" hardMaxSigningRecipeBytes (len (req_Recipe request))) ;;
  let* headerHash := parseGeneratedBase64 (req_HeaderHash request) in
  let* bodyHash := parseGeneratedBase64 (req_BodyHash request) in
  let hashSet := MkHashSet HashAlgorithmSHA256 true headerHash bodyHash
                   (encoded headerHash) (encoded bodyHash) in
  let layout := default noLayout (SingleGroup 1) in
  if req_RecipePresent request then
    let* r := parseGeneratedBase64 (req_Recipe request) in
    Ret (MkInstance (req_Number request) [hashSet] layout r true 0)
  else Ret (MkInstance (req_Number request) [hashSet] layout emptyBase64 false 0).

(** ** The emitter *)
Record instanceEmitter := MkEmitter {
  em_limits : RenderLimits; builder : option bytes; em_size : Z; em_line : Z; em_err : option Failure }.
Definition set_err (e : instanceEmitter) (f : Failure) : instanceEmitter :=
  MkEmitter (em_limits e) (builder e) (em_size e) (em_line e) (Some f).
Definition WriteString (e : instanceEmitter) (value : bytes) : instanceEmitter :=
  MkEmitter (em_limits e) ((fun b => b ++ value) <$> builder e) (em_size e) (em_line e) (em_err e).

Definition textCount (count : Z) (e : instanceEmitter) : instanceEmitter :=
  let L := em_limits e in
  match em_err e with
  | Some _ => e
  | None =>
      if (count <? 0) || (MaxFieldBytes L - em_size e <? count)
      then set_err e (renderLimitError "max_field_bytes" (MaxFieldBytes L) (MaxFieldBytes L + 1))
      else if MaxLineBytes L - em_line e <? count
      then set_err e (renderLimitError "max_line_bytes" (MaxLineBytes L) (MaxLineBytes L + 1))
      else MkEmitter L (builder e) (em_size e + count) (em_line e + count) None
  end.
Definition text (value : bytes) (e : instanceEmitter) : instanceEmitter :=
  let e := textCount (len value) e in
  match em_err e, builder e with None, Some _ => WriteString e value | _, _ => e end.
Definition emit_crlf (e : instanceEmitter) : instanceEmitter :=
  let L := em_limits e in
  match em_err e with
  | Some _ => e
  | None =>
      if MaxFieldBytes L - em_size e <? 2
      then set_err e (renderLimitError "max_field_bytes" (MaxFieldBytes L) (MaxFieldBytes L + 1))
      else
        let e := MkEmitter L (builder e) (em_size e + 2) 0 None in
        match builder e with Some _ => WriteString e crlf | None => e end
  end.

(** The visitor that base64 passes to WalkBase64Chunks, over its calls. *)
Fixpoint emitChunks (encoded : bytes) (calls : list (bool * Z * Z)) (e : instanceEmitter)
    : outcome Failure instanceEmitter :=
  match calls with
  | [] => Ret e
  | (first, offset, size) :: rest =>
      let e := if first : bool then e else text [x09] (emit_crlf e) in
      match builder e with
      | None => emitChunks encoded rest (textCount size e)
      | Some _ =>
          let* chunk := zslice encoded offset (offset + size) in
          emitChunks encoded rest (text chunk e)
      end
  end.
Definition base64 (encoded : bytes) (decodedBytes : Z) (e : instanceEmitter) : outcome Failure instanceEmitter :=
  let* (calls, encodedBytes, ok) := map_fail TagFailure (WalkBase64Chunks decodedBytes) in
  if negb ok || (if builder e is Some _ then negb (len encoded =? encodedBytes) else false)
  then Ret (set_err e invariantError)
  else emitChunks encoded calls e.

Definition emitSigningField (e : instanceEmitter) (num : Z) (headerHash bodyHash recipe : bytes)
    (recipeBytes : Z) (recipePresent : bool) : outcome Failure instanceEmitter :=
  let e := text (bs "Message-Instance: m=") e in
  let e := text (format_uint num) e in
  let e := text (bs ";") e in
  let e := emit_crlf e in
  let e := text (x09 :: bs "h=sha256:") e in
  let* e := base64 headerHash sha256HashBytes e in
  let e := text (bs ":") e in
  let* e := base64 bodyHash sha256HashBytes e in
  let e := text (bs ";") e in
  let e := emit_crlf e in
  if recipePresent then
    let e := text (x09 :: bs "r=") e in
    let* e := base64 recipe recipeBytes e in
    let e := text (bs ";") e in
    Ret (emit_crlf e)
  else Ret e.

Definition preflightSigningFieldResolved (num recipeBytes : Z) (recipePresent : bool) (resolved : RenderLimits)
    : outcome Failure Z :=
  check require (negb ((num =? 0) || (recipeBytes <? 0) || negb recipePresent && negb (recipeBytes =? 0)
                       || recipePresent && (recipeBytes =? 0))) (constructionError "") ;;
  check require (negb (MaxRecipeBytes resolved <? recipeBytes))
    (renderLimitError "max_recipe_bytes" (MaxRecipeBytes resolved) recipeBytes) ;;
  let* e := emitSigningField (MkEmitter resolved None 0 0 None) num [] [] [] recipeBytes recipePresent in
  match em_err e with Some f => Fail f | None => Ret (em_size e) end.
Definition PreflightSigningField (num recipeBytes : Z) (recipePresent : bool) (limits : RenderLimits)
    : outcome Failure Z :=
  let* resolved := normalized limits in preflightSigningFieldResolved num recipeBytes recipePresent resolved.

(** Whether an instance is one that NewForSigning makes. *)
Definition renderable (m : MessageInstance) : option HashSet :=
  match hashes m with
  | [h] =>
      if negb ((number m =? 0) || negb (known h) || negb (bool_decide (name h = HashAlgorithmSHA256))
               || negb (DecodedLen (headerHash h) =? sha256HashBytes)
               || negb (DecodedLen (bodyHash h) =? sha256HashBytes))
      then Some h else None
  | _ => None
  end.
Definition Render (m : MessageInstance) (limits : RenderLimits) : outcome Failure bytes :=
  match renderable m with
  | None => Fail (constructionError "")
  | Some h =>
      let recipeBytes := if hasRecipe m then DecodedLen (recipe m) else 0 in
      let* size := PreflightSigningField (number m) recipeBytes (hasRecipe m) limits in
      let* resolved := normalized limits in
      let* e := emitSigningField (MkEmitter resolved (Some []) 0 0 None) (number m)
                  (encoded (headerHash h)) (encoded (bodyHash h)) (encoded (recipe m))
                  recipeBytes (hasRecipe m) in
      match em_err e with
      | Some _ => Fail invariantError
      | None =>
          if negb (em_size e =? size) then Fail invariantError
          else Ret (default [] (builder e))
      end
  end.
