(* ===== verification/InstRenderSpec.v ===== *)
(** * What the renderer writes

    The emission of a field as a script, the exact text and size of a rendered
    field, and the exactness of the preflight. *)

From S2P Require Import Prelude GoBytes GoBase64 GoStrconv RawMsg TagTypes TagBase64 Combine InstTypes InstParser Emitter InstRender.
#[local] Open Scope Z_scope.

(** ** The emitter *)
Definition instance_view (e : instanceEmitter) : option view :=
  match em_err e with
  | Some _ => None
  | None => Some (MkView (MaxFieldBytes (em_limits e)) (MaxLineBytes (em_limits e)) (builder e) (em_size e) (em_line e))
  end.
#[export] Instance instance_emitter : Emitter instanceEmitter :=
  { e_text := text; e_count := textCount; e_crlf := emit_crlf; e_builder := builder; e_view := instance_view }.
#[export] Instance instance_emitter_laws : EmitterLaws instanceEmitter.
Proof.
  split; unfold e_emit, e_view, e_builder, e_text, e_count, e_crlf; cbn [instance_emitter].
  - intros [L bl sz ln er] i v. unfold instance_view. destruct er; [done | ].
    cbn [em_err em_limits builder em_size em_line]. intros [= <-].
    destruct i as [s|]; unfold view_fits; cbn [item_fits v_field v_line v_size v_open].
    + unfold text, textCount. cbn [em_err em_limits builder em_size em_line]. pose proof (len_nonneg s).
      rewrite (proj2 (Z.ltb_ge _ 0)) by lia. cbn [orb]. rewrite !(Z.ltb_antisym (len s)).
      destruct (len s <=? _); cbn [negb andb]; [ | done]. destruct (len s <=? _); cbn [negb]; by destruct bl.
    + unfold emit_crlf. cbn [em_err em_limits builder em_size em_line].
      rewrite Z.ltb_antisym. destruct (2 <=? _); cbn [negb]; [by destruct bl | done].
  - intros [L bl sz ln er] [s|]; unfold instance_view; cbn [em_err]; intros H; destruct er; try done;
      unfold text, textCount, emit_crlf; cbn; by destruct bl.
  - intros [L bl sz ln er] [s|]; unfold text, textCount, emit_crlf; cbn;
      destruct er, bl; cbn; repeat case_match; try done; by rewrite !is_Some_alt.
  - intros [L bl sz ln er] s H. cbn in H. subst bl. unfold text. assert (builder (textCount (len s) (MkEmitter L None sz ln er)) = None) as ->.
    { unfold textCount. cbn. repeat case_match; done. }
    by destruct (em_err _).
  - intros [L bl sz ln er] n. unfold textCount. cbn. repeat case_match; done.
Qed.

(** A script is written, with its size, when it fits, and fails otherwise. *)
Lemma run_cases L items bl :
  let e := run items (MkEmitter L bl 0 0 None) in
  if script_fits (MaxFieldBytes L) (MaxLineBytes L) 0 0 items
  then em_err e = None /\ builder e = (fun b => b ++ script_bytes items) <$> bl /\ em_size e = len (script_bytes items)
  else em_err e <> None.
Proof.
  cbn zeta. pose proof (run_view items (MkEmitter L bl 0 0 None) (MkView (MaxFieldBytes L) (MaxLineBytes L) bl 0 0) eq_refl) as H.
  cbn [v_field v_line v_built v_size v_open] in H. revert H. generalize (run items (MkEmitter L bl 0 0 None)). intros [L' bl' sz' ln' er'].
  cbn [e_view instance_emitter]. unfold instance_view. cbn [em_err em_limits builder em_size em_line].
  destruct (script_fits _ _ _ _ _), er' as [f|]; intros H; try done. injection H as _ _ -> -> _. by split_and!.
Qed.
Lemma instChunks_generic encoded calls e : emitChunks encoded calls e = emit_chunks encoded calls e.
Proof.
  revert e. induction calls as [|[[first offset] size] calls IH]; intros e; [done | ].
  cbn [emitChunks emit_chunks]. cbn [e_builder e_text e_count e_crlf instance_emitter]. destruct first; (destruct (builder _); [ | apply IH]);
    destruct (zslice _ _ _); cbn [obind]; try done; apply IH.
Qed.
Lemma written_builder s e : is_Some (builder (text s e)) <-> is_Some (builder e).
Proof. exact (text_builder (X := instanceEmitter) s e). Qed.
Lemma broken_builder e : is_Some (builder (emit_crlf e)) <-> is_Some (builder e).
Proof. exact (crlf_builder (X := instanceEmitter) e). Qed.
Ltac builders H := repeat (rewrite written_builder in H || rewrite broken_builder in H).

Lemma written_txt s (e : instanceEmitter) : e_emit e (Txt s) = text s e.
Proof. done. Qed.
Lemma written_brk (e : instanceEmitter) : e_emit e Brk = emit_crlf e.
Proof. done. Qed.
Ltac writes := repeat (first [rewrite run_app | rewrite run_cons | rewrite run_nil | rewrite written_txt | rewrite written_brk]); cbn [app].

(** ** Base64 texts *)
Definition wf_b64 (v : Base64String) : Prop := decoded v <> [] /\ encoded v = std_encode (decoded v).

(** The chunks that the encoding of [d] is written in. *)
Definition chunks_of (d c : bytes) (cs : list bytes) : Prop :=
  c ++ concat cs = std_encode d /\ chunked (c :: cs) /\
  FoldBase64 (std_encode d) = Ret (fold_value c (map (cons x09) cs)).

Lemma base64_script d :
  d <> [] -> len d <= 2 ^ 62 ->
  exists c cs, chunks_of d c cs /\
    forall encoded e, (is_Some (builder e) -> encoded = std_encode d) ->
      base64 encoded (len d) e = Ret (run (chunk_items c cs) e).
Proof.
  intros Hne Hd. pose proof (std_encode_nonempty d Hne) as Hs.
  destruct (walk_all _ Hs) as (call & calls & c & cs & Hw & Hc & Hcs & Hcat & Hch).
  exists c, cs. split; [split_and!; [done | done | by eapply FoldBase64_chunks] | ]. intros enc e He.
  unfold base64, WalkBase64Chunks, base64EncodedSize. change (2 ^ 62) with 4611686018427387904 in Hd.
  pose proof (len_nonneg d). unfold MaxInt.
  rewrite (proj2 (Z.ltb_ge _ _)), (proj2 (Z.ltb_ge _ _)) by lia. cbn [orb].
  rewrite (proj2 (Z.ltb_ge _ _)) by lia. rewrite <- len_encode, Hw. cbn [obind map_fail negb orb].
  assert ((if builder e is Some _ then negb (len enc =? len (std_encode d)) else false) = false) as ->.
  { destruct (builder e); [ | done]. rewrite He by eauto. by rewrite Z.eqb_refl. }
  rewrite instChunks_generic. by eapply emit_chunks_all.
Qed.

(** A digest is written in one chunk. *)
Lemma digest_script d :
  len d = sha256HashBytes ->
  forall encoded e, (is_Some (builder e) -> encoded = std_encode d) ->
    base64 encoded sha256HashBytes e = Ret (text (std_encode d) e).
Proof.
  intros Hd enc e He. assert (d <> []) as Hne by by intros ->. rewrite <- Hd.
  destruct (base64_script d Hne) as (c & cs & (Hcat & Hch & _) & H); [by rewrite Hd | ].
  rewrite H by done. apply chunked_len in Hch. cbn [concat] in Hch. rewrite Hcat, len_cons, len_encode, Hd in Hch.
  change renderedBase64ChunkBytes with 64 in Hch. change ((sha256HashBytes + 2) / 3 * 4) with 44 in Hch.
  destruct cs as [|x cs]; [ | rewrite len_cons in Hch; pose proof (len_nonneg cs); lia].
  cbn in Hcat. rewrite app_nil_r in Hcat. by subst c.
Qed.

(** ** The whole field *)
Definition recipe_items (r : option (bytes * list bytes)) : list item :=
  match r with
  | None => []
  | Some (c, cs) => Txt (x09 :: bs "r=") :: chunk_items c cs ++ [Txt (bs ";"); Brk]
  end.
Definition field_script (num : Z) (hh bh : bytes) (r : option (bytes * list bytes)) : list item :=
  [Txt (bs "Message-Instance: m="); Txt (format_uint num); Txt (bs ";"); Brk;
   Txt (x09 :: bs "h=sha256:"); Txt hh; Txt (bs ":"); Txt bh; Txt (bs ";"); Brk] ++ recipe_items r.

Definition recipe_chunks (present : bool) (d : bytes) (r : option (bytes * list bytes)) : Prop :=
  match r with
  | None => present = false /\ d = []
  | Some (c, cs) => present = true /\ d <> [] /\ chunks_of d c cs
  end.
Lemma recipe_chunks_exist present d :
  (present = false -> d = []) -> (present = true -> d <> []) -> len d <= 2 ^ 62 -> exists r, recipe_chunks present d r.
Proof.
  intros H0 H1 Hd. destruct present.
  - destruct (base64_script d (H1 eq_refl) Hd) as (c & cs & Hc & _). exists (Some (c, cs)). by split_and!; [ | auto | ].
  - exists None. split; auto.
Qed.

Lemma chunks_of_unique d c cs c' cs' : chunks_of d c cs -> chunks_of d c' cs' -> c = c' /\ cs = cs'.
Proof.
  intros (Hcat & Hch & _) (Hcat' & Hch' & _).
  assert (c :: cs = c' :: cs') as E by (apply chunked_unique; [done | done | by cbn; rewrite Hcat, Hcat']).
  by injection E.
Qed.

#[local] Opaque text emit_crlf textCount.
Lemma emitSigningField_run num hd bd present rd r hh bh rr e :
  len hd = sha256HashBytes -> len bd = sha256HashBytes -> len rd <= 2 ^ 62 -> recipe_chunks present rd r ->
  (is_Some (builder e) -> hh = std_encode hd /\ bh = std_encode bd /\ (present = true -> rr = std_encode rd)) ->
  emitSigningField e num hh bh rr (len rd) present =
  Ret (run (field_script num (std_encode hd) (std_encode bd) r) e).
Proof.
  intros Hh Hb Hrl Hr He. unfold emitSigningField.
  rewrite (digest_script hd Hh).
  2: { intros Hx. builders Hx. by apply He. }
  cbn [obind]. rewrite (digest_script bd Hb).
  2: { intros Hx. builders Hx. by apply He. }
  cbn [obind]. unfold field_script. rewrite run_app. destruct r as [[c cs]|]; cbn [recipe_chunks] in Hr.
  - destruct Hr as (-> & Hne & Hc). destruct (base64_script rd Hne Hrl) as (c' & cs' & Hc' & HS).
    destruct (chunks_of_unique _ _ _ _ _ Hc Hc') as [<- <-]. rewrite HS.
    2: { intros Hx. builders Hx. by apply He. }
    cbn [obind recipe_items]. writes. reflexivity.
  - destruct Hr as [-> _]. cbn [recipe_items]. writes. reflexivity.
Qed.

#[local] Transparent text emit_crlf textCount.

(** ** The physical lines *)
Fixpoint recipe_lines (cur : bytes) (cs : list bytes) : list bytes :=
  match cs with
  | [] => [cur ++ bs ";"]
  | d :: cs => cur :: recipe_lines (x09 :: d) cs
  end.
Definition number_line (num : Z) : bytes := bs " m=" ++ format_uint num ++ bs ";".
Definition hash_line (hh bh : bytes) : bytes := x09 :: bs "h=sha256:" ++ hh ++ bs ":" ++ bh ++ bs ";".
Definition cont_lines (hh bh : bytes) (r : option (bytes * list bytes)) : list bytes :=
  hash_line hh bh :: match r with Some (c, cs) => recipe_lines (x09 :: bs "r=" ++ c) cs | None => [] end.
Definition instance_lines (num : Z) (hh bh : bytes) (r : option (bytes * list bytes)) : list bytes :=
  (bs "Message-Instance:" ++ number_line num) :: cont_lines hh bh r.

Lemma script_lines_chunks cur cs :
  script_lines cur (fold_items cs ++ [Txt (bs ";"); Brk]) = (recipe_lines cur cs, []).
Proof.
  unfold fold_items.   revert cur. induction cs as [|d cs IH]; intros cur; [done | ]. cbn [map concat app script_lines recipe_lines].
  by rewrite IH.
Qed.
Lemma script_lines_field num hh bh r : script_lines [] (field_script num hh bh r) = (instance_lines num hh bh r, []).
Proof.
  unfold field_script, instance_lines, cont_lines, hash_line, number_line, recipe_items.
  destruct r as [[c cs]|]; unfold chunk_items; cbn [app script_lines].
  - rewrite script_lines_chunks. repeat (rewrite <- ?app_assoc; cbn [app]). done.
  - repeat (rewrite <- ?app_assoc; cbn [app]). done.
Qed.

Lemma field_script_fits L num hh bh r :
  0 <= MaxFieldBytes L -> 0 <= MaxLineBytes L ->
  let ls := instance_lines num hh bh r in
  script_fits (MaxFieldBytes L) (MaxLineBytes L) 0 0 (field_script num hh bh r) = true <->
  len (unlines ls) <= MaxFieldBytes L /\ Forall (fun l => len l <= MaxLineBytes L) ls.
Proof.
  intros HF HL. cbn zeta. change 0 with (len (@nil byte)) at 2. rewrite script_fits_iff by done.
  pose proof (script_bytes_lines [] (field_script num hh bh r)) as E. cbn zeta in E.
  unfold lines_fit. rewrite script_lines_field in *. cbn [fst snd app] in *. rewrite app_nil_r in E.
  rewrite E, Forall_app, Forall_singleton. change (len (@nil byte)) with 0. rewrite Z.add_0_l. tauto.
Qed.
Lemma field_script_bytes num hh bh r : script_bytes (field_script num hh bh r) = unlines (instance_lines num hh bh r).
Proof.
  pose proof (script_bytes_lines [] (field_script num hh bh r)) as E. cbn zeta in E.
  rewrite script_lines_field in E. cbn [fst snd app] in E. by rewrite app_nil_r in E.
Qed.

(** ** Rendering *)
Lemma RenderLimits_Validate_inv L :
  RenderLimits_Validate L = Ret tt ->
  0 < MaxFieldBytes L <= hardMaxRenderedFieldBytes /\ 0 < MaxLineBytes L <= hardMaxRenderedLineBytes /\
  0 < MaxRecipeBytes L <= hardMaxSigningRecipeBytes.
Proof.
  unfold RenderLimits_Validate. intros (? & H1%require_ret_inv & H)%obind_ret_inv.
  apply obind_ret_inv in H as (? & H2%require_ret_inv & H3%require_ret_inv). lia.
Qed.
Lemma normalized_inv limits L :
  normalized limits = Ret L ->
  0 < MaxFieldBytes L <= hardMaxRenderedFieldBytes /\ 0 < MaxLineBytes L <= hardMaxRenderedLineBytes /\
  0 < MaxRecipeBytes L <= hardMaxSigningRecipeBytes.
Proof.
  unfold normalized. intros ([] & H%RenderLimits_Validate_inv & [= <-])%obind_ret_inv. done.
Qed.
Lemma normalized_safe limits : no_crash (normalized limits).
Proof. unfold normalized, RenderLimits_Validate. crash_free. Qed.

(** The instances that can be rendered: one SHA-256 hash set and, if there is
    a recipe, its Base64. *)
Record wf_instance (m : MessageInstance) (h : HashSet) : Prop := WfInstance {
  wf_renderable : renderable m = Some h;
  wf_header : wf_b64 (headerHash h);
  wf_body : wf_b64 (bodyHash h);
  wf_recipe : hasRecipe m = true -> wf_b64 (recipe m);
  wf_no_recipe : hasRecipe m = false -> recipe m = emptyBase64 }.

Lemma renderable_inv m h :
  renderable m = Some h ->
  number m <> 0 /\ hashes m = [h] /\ known h = true /\ name h = HashAlgorithmSHA256 /\
  DecodedLen (headerHash h) = sha256HashBytes /\ DecodedLen (bodyHash h) = sha256HashBytes.
Proof.
  unfold renderable. destruct (hashes m) as [|h' [|? ?]]; try done. destruct (negb _) eqn:E; [ | done]. intros [= ->].
  apply negb_true_iff in E. repeat (apply orb_false_iff in E as [E ?]).
  repeat match goal with H : negb _ = false |- _ => apply negb_false_iff in H end.
  split_and!; try done; [by apply Z.eqb_neq | by eapply bool_decide_eq_true | by apply Z.eqb_eq | by apply Z.eqb_eq].
Qed.

Definition recipe_bytes (m : MessageInstance) : Z := if hasRecipe m then DecodedLen (recipe m) else 0.
(** The lines of an instance. *)
Definition denotes_lines (m : MessageInstance) (h : HashSet) (ls : list bytes) : Prop :=
  exists r, recipe_chunks (hasRecipe m) (decoded (recipe m)) r /\
    ls = instance_lines (number m) (encoded (headerHash h)) (encoded (bodyHash h)) r.
Definition lines_within (L : RenderLimits) (m : MessageInstance) (ls : list bytes) : Prop :=
  recipe_bytes m <= MaxRecipeBytes L /\ len (unlines ls) <= MaxFieldBytes L /\
  Forall (fun l => len l <= MaxLineBytes L) ls.

Section render.
Context (m : MessageInstance) (h : HashSet) (Hm : wf_instance m h) (limits : RenderLimits).

Lemma recipe_bytes_decoded : recipe_bytes m = len (decoded (recipe m)).
Proof using Hm. unfold recipe_bytes. destruct (hasRecipe m) eqn:E; [done | ]. by rewrite (wf_no_recipe _ _ Hm E). Qed.

(** The emission of the instance, with or without a builder. *)
Lemma emission L ls :
  normalized limits = Ret L -> denotes_lines m h ls -> recipe_bytes m <= MaxRecipeBytes L ->
  forall bl hh bh rr,
  (is_Some bl -> hh = encoded (headerHash h) /\ bh = encoded (bodyHash h) /\ rr = encoded (recipe m)) ->
  exists e, emitSigningField (MkEmitter L bl 0 0 None) (number m) hh bh rr (recipe_bytes m) (hasRecipe m) = Ret e /\
    (lines_within L m ls -> em_err e = None /\ em_size e = len (unlines ls) /\ builder e = (fun b => b ++ unlines ls) <$> bl) /\
    (~ lines_within L m ls -> em_err e <> None).
Proof using Hm.
  intros HL (r & Hr & ->) Hrb bl hh bh rr Hbl. apply normalized_inv in HL as (HF & HLn & HR).
  destruct (renderable_inv _ _ (wf_renderable _ _ Hm)) as (_ & _ & _ & _ & Hdh & Hdb).
  rewrite recipe_bytes_decoded in Hrb.
  pose proof (emitSigningField_run (number m) _ _ (hasRecipe m) (decoded (recipe m)) r hh bh rr
    (MkEmitter L bl 0 0 None) Hdh Hdb) as HE. rewrite recipe_bytes_decoded, HE; [ | | done | ].
  2: { change hardMaxSigningRecipeBytes with 46080 in HR. change (2 ^ 62) with 4611686018427387904. lia. }
  2: { intros (-> & -> & ->)%Hbl. split_and!; [apply (wf_header _ _ Hm) | apply (wf_body _ _ Hm) | apply (wf_recipe _ _ Hm)]. }
  clear HE. destruct (wf_header _ _ Hm) as [_ <-], (wf_body _ _ Hm) as [_ <-].
  eexists. split; [done | ]. unfold lines_within.
  pose proof (field_script_fits L (number m) (encoded (headerHash h)) (encoded (bodyHash h)) r ltac:(lia) ltac:(lia)) as Hfit.
  cbn zeta in Hfit. clear HR. pose proof (run_cases L (field_script (number m) (encoded (headerHash h)) (encoded (bodyHash h)) r) bl) as HR.
  cbn zeta in HR. destruct (script_fits _ _ _ _ _) eqn:Ef.
  - destruct HR as (He & Hb & Hs). rewrite field_script_bytes in Hb, Hs. split; [done | ].
    intros Hno. exfalso. apply Hno. split; [by rewrite recipe_bytes_decoded | by apply Hfit].
  - split; [intros (_ & H); by apply Hfit in H | done].
Qed.

Lemma denotes_lines_exist : recipe_bytes m <= 2 ^ 62 -> exists ls, denotes_lines m h ls.
Proof using Hm.
  intros Hl. rewrite recipe_bytes_decoded in Hl.
  destruct (recipe_chunks_exist (hasRecipe m) (decoded (recipe m))) as [r Hr]; [ | | done | by exists (instance_lines (number m) (encoded (headerHash h)) (encoded (bodyHash h)) r), r].
  - intros E. by rewrite (wf_no_recipe _ _ Hm E).
  - intros E. by apply (wf_recipe _ _ Hm E).
Qed.

(** The preflight of the instance. *)
Lemma preflight_cases ls :
  denotes_lines m h ls \/ hardMaxSigningRecipeBytes < recipe_bytes m ->
  (exists L, normalized limits = Ret L /\ lines_within L m ls /\ denotes_lines m h ls /\
     PreflightSigningField (number m) (recipe_bytes m) (hasRecipe m) limits = Ret (len (unlines ls))) \/
  ((forall L, normalized limits = Ret L -> ~ lines_within L m ls) /\
   exists f, PreflightSigningField (number m) (recipe_bytes m) (hasRecipe m) limits = Fail f).
Proof using Hm.
  intros Hls. unfold PreflightSigningField. destruct (normalized limits) as [L | f |] eqn:EL; cbn [obind].
  2: { right. split; [done | eauto]. }
  2: { by apply normalized_safe in EL. }
  pose proof (normalized_inv _ _ EL) as (HF & HLn & HR). unfold preflightSigningFieldResolved.
  destruct (renderable_inv _ _ (wf_renderable _ _ Hm)) as (Hn & _ & _ & _ & _ & _).
  assert ((number m =? 0) || (recipe_bytes m <? 0) || negb (hasRecipe m) && negb (recipe_bytes m =? 0)
          || hasRecipe m && (recipe_bytes m =? 0) = false) as ->.
  { rewrite (proj2 (Z.eqb_neq _ _)) by done. unfold recipe_bytes, DecodedLen. destruct (hasRecipe m) eqn:Er; [ | done].
    destruct (wf_recipe _ _ Hm Er) as [Hne _]. pose proof (len_nonneg (decoded (recipe m))).
    assert (len (decoded (recipe m)) <> 0) by (destruct (decoded (recipe m)); [done | rewrite len_cons; pose proof (len_nonneg l); lia]).
    rewrite (proj2 (Z.ltb_ge _ _)), (proj2 (Z.eqb_neq _ _)) by done. done. }
  cbn [negb require obind]. destruct (Z.ltb_spec (MaxRecipeBytes L) (recipe_bytes m)) as [Hbig | Hrb]; cbn [negb require obind].
  { right. split; [ | eauto]. intros L' [= <-] (? & _). lia. }
  destruct Hls as [Hls | ?]; [ | lia].
  destruct (emission L ls EL Hls Hrb None [] [] []) as (e & -> & Hok & Hbad); [by intros [] | ]. cbn [obind].
  destruct (em_err e) as [f|] eqn:Ee.
  - right. split; [ | eauto]. intros L' [= <-] Hw. by destruct (Hok Hw).
  - left. exists L. assert (lines_within L m ls) as Hw.
    { destruct (decide (Forall (fun l => len l <= MaxLineBytes L) ls)), (decide (len (unlines ls) <= MaxFieldBytes L));
        [done | | | ]; exfalso; apply Hbad; try done; by intros (_ & ? & ?). }
    destruct (Hok Hw) as (_ & -> & _). done.
Qed.

Lemma Render_cases ls :
  denotes_lines m h ls \/ hardMaxSigningRecipeBytes < recipe_bytes m ->
  (exists L, normalized limits = Ret L /\ lines_within L m ls /\
     PreflightSigningField (number m) (recipe_bytes m) (hasRecipe m) limits = Ret (len (unlines ls)) /\
     Render m limits = Ret (unlines ls)) \/
  ((forall L, normalized limits = Ret L -> ~ lines_within L m ls) /\
   exists f, PreflightSigningField (number m) (recipe_bytes m) (hasRecipe m) limits = Fail f /\ Render m limits = Fail f).
Proof using Hm.
  intros Hls. unfold Render. rewrite (wf_renderable _ _ Hm). fold (recipe_bytes m).
  destruct (preflight_cases ls Hls) as [(L & EL & Hw & Hd & ->) | (Hno & f & ->)].
  - left. exists L. rewrite EL. cbn [obind].
    destruct (emission L ls EL Hd ltac:(apply Hw) (Some []) (encoded (headerHash h)) (encoded (bodyHash h)) (encoded (recipe m)))
      as (e & -> & Hok & _); [done | ]. cbn [obind]. destruct (Hok Hw) as (-> & -> & ->). by rewrite Z.eqb_refl.
  - right. cbn [obind]. eauto.
Qed.

(** C13: rendering an instance with one SHA-256 hash set never panics and
    succeeds exactly when the limits are valid and the recipe, the field and
    every physical line are within them; the result is then the field's lines,
    with the recipe folded at 64 characters.  The preflight, which sees sizes
    only, fails in the same cases with the same error and otherwise returns the
    exact length of the rendered field. *)
Theorem Render_exact ls :
  denotes_lines m h ls ->
  (forall out, Render m limits = Ret out <->
     out = unlines ls /\ exists L, normalized limits = Ret L /\ lines_within L m ls) /\
  Render m limits <> Crash /\
  PreflightSigningField (number m) (recipe_bytes m) (hasRecipe m) limits =
    (let* out := Render m limits in Ret (len out)).
Proof using Hm.
  intros Hls. destruct (Render_cases ls (or_introl Hls)) as [(L & EL & Hw & -> & ->) | (Hno & f & -> & ->)].
  - split_and!; [ | done | done]. intros out. split; [intros [= <-]; eauto | by intros [-> _]].
  - split_and!; [ | done | done]. intros out. split; [done | ]. intros [_ (L & EL & Hw)]. by apply Hno in EL.
Qed.
End render.

Definition sample_request : SigningRequest :=
  MkRequest 2 (repeat x41 32) (repeat x42 32) (repeat x43 100) true.
Definition sample_b64 (d : bytes) : Base64String := MkB64 (std_encode d) (std_encode d) d.
Definition sample_hash_set : HashSet :=
  MkHashSet HashAlgorithmSHA256 true (sample_b64 (repeat x41 32)) (sample_b64 (repeat x42 32))
    (std_encode (repeat x41 32)) (std_encode (repeat x42 32)).
Definition sample_instance : MessageInstance :=
  MkInstance 2 [sample_hash_set] (layout_of [1]) (sample_b64 (repeat x43 100)) true 0.
Lemma sample_instance_wf : wf_instance sample_instance sample_hash_set.
Proof. by constructor. Qed.

Definition noRenderLimits : RenderLimits := MkRenderLimits 0 0 0.
Lemma Render_exact_witness :
  NewForSigning sample_request = Ret sample_instance /\
  is_ret (Render sample_instance noRenderLimits) = true /\
  PreflightSigningField 2 100 true noRenderLimits = Ret 274 /\
  exists ls, denotes_lines sample_instance sample_hash_set ls /\ Render sample_instance noRenderLimits <> Crash.
Proof.
  split_and!; [vm_compute; reflexivity | vm_compute; reflexivity | vm_compute; reflexivity | ].
  destruct (denotes_lines_exist sample_instance sample_hash_set sample_instance_wf) as [ls Hls]; [by vm_compute | ].
  exists ls. split; [exact Hls | ].
  apply (Render_exact sample_instance sample_hash_set sample_instance_wf noRenderLimits ls Hls).
Defined.
