(* ===== verification/InstRoundtrip.v ===== *)
(** * Rendered Message-Instance fields read back

    A field rendered from a signing request is a message of one header field
    for the rawmsg parser, and the instance parser reads the request's values
    from it. *)

From stdpp Require Import gmap.
From S2P Require Import Prelude GoBytes GoBase64 GoStrconv RawMsg RawBody RawParser RawSpec TagTypes TagScan TagBase64 Combine TagSpec InstTypes InstParser InstSpec Emitter FieldScript InstRender InstRenderSpec.
#[local] Open Scope Z_scope.

(** ** What NewForSigning makes *)
Definition gen_b64 (d : bytes) : Base64String := MkB64 (std_encode d) (std_encode d) d.
Definition gen_hash_set (req : SigningRequest) : HashSet :=
  MkHashSet HashAlgorithmSHA256 true (gen_b64 (req_HeaderHash req)) (gen_b64 (req_BodyHash req))
    (std_encode (req_HeaderHash req)) (std_encode (req_BodyHash req)).
Definition gen_instance (req : SigningRequest) : MessageInstance :=
  MkInstance (req_Number req) [gen_hash_set req] (layout_of [1])
    (if req_RecipePresent req then gen_b64 (req_Recipe req) else emptyBase64) (req_RecipePresent req) 0.

Definition ok_request (req : SigningRequest) : Prop :=
  req_Number req <> 0 /\ len (req_HeaderHash req) = sha256HashBytes /\ len (req_BodyHash req) = sha256HashBytes /\
  (req_RecipePresent req = true <-> req_Recipe req <> []) /\ len (req_Recipe req) <= hardMaxSigningRecipeBytes.

Lemma encode_dark d : Forall (fun b => TagTypes.isWSP b = false) (std_encode d).
Proof.
  eapply Forall_impl; [apply encode_chars | ]. intros b Hb. by apply b64_char_plain in Hb as [_ ?].
Qed.
Lemma encode_edged d : edged TagTypes.isWSP (std_encode d).
Proof.
  pose proof (encode_dark d) as Hd. split; intros ? ? E; rewrite E in Hd.
  - by apply Forall_cons in Hd as [? _].
  - by apply Forall_app in Hd as [_ [? _]%Forall_cons].
Qed.
Lemma strip_encode d : stripBase64FWS (std_encode d) = std_encode d.
Proof.
  unfold stripBase64FWS. apply filter_id. eapply Forall_impl; [apply encode_dark | ].
  intros b Hb. cbn. by rewrite Hb.
Qed.

Lemma gen_base64_value d :
  d <> [] -> len d <= hardMaxSigningRecipeBytes -> base64_value TagTypes.DefaultLimits (std_encode d) (gen_b64 d).
Proof.
  intros Hne Hd. change hardMaxSigningRecipeBytes with 46080 in Hd. split_and!; [apply encode_edged | | ].
  - rewrite len_encode. change (MaxTagValueBytes TagTypes.DefaultLimits) with 65536. lia.
  - exists d. change (MaxBase64DecodedBytes TagTypes.DefaultLimits) with 1048576.
    split_and!; [done | lia | apply strip_encode | done].
Qed.
Lemma parseGeneratedBase64_ok d :
  d <> [] -> len d <= hardMaxSigningRecipeBytes -> parseGeneratedBase64 d = Ret (gen_b64 d).
Proof.
  intros Hne Hd. unfold parseGeneratedBase64. apply map_fail_Ret, ParseBase64String_value; [done | ].
  by apply gen_base64_value.
Qed.

Lemma len_pos_nonempty {A} (l : list A) : 0 < len l -> l <> [].
Proof. by intros H ->. Qed.
Lemma nonempty_len {A} (l : list A) : l <> [] -> len l <> 0.
Proof. destruct l as [|x l]; [done | ]. rewrite len_cons. pose proof (len_nonneg l). lia. Qed.

Lemma NewForSigning_Ret req m : NewForSigning req = Ret m <-> ok_request req /\ m = gen_instance req.
Proof.
  assert (forall d, len d = sha256HashBytes -> parseGeneratedBase64 d = Ret (gen_b64 d)) as Hdigest.
  { intros d Hd. apply parseGeneratedBase64_ok; [apply len_pos_nonempty; by rewrite Hd | rewrite Hd; by vm_compute]. }
  unfold NewForSigning, ok_request, gen_instance, gen_hash_set. split.
  - intros (? & H1%require_ret_inv & H)%obind_ret_inv. apply obind_ret_inv in H as (? & H2%require_ret_inv & H).
    apply obind_ret_inv in H as (? & H3%require_ret_inv & H).
    apply negb_true_iff, orb_false_iff in H1 as [[H1 Hh]%orb_false_iff Hb]. apply negb_false_iff in Hh, Hb.
    apply Z.eqb_neq in H1. apply Z.eqb_eq in Hh, Hb. apply negb_true_iff, Z.ltb_ge in H3.
    rewrite !Hdigest in H by done. cbn [obind encoded gen_b64] in H.
    apply negb_true_iff, orb_false_iff in H2 as [H2 H2'].
    destruct (req_RecipePresent req); cbn [negb andb] in *.
    + apply Z.eqb_neq in H2'. assert (req_Recipe req <> []) as Hne by by intros E; rewrite E in H2'.
      rewrite parseGeneratedBase64_ok in H by done. cbn in H. injection H as <-. by split_and!.
    + apply negb_false_iff, Z.eqb_eq in H2. injection H as <-. split_and!; try done. split; [done | ]. by intros ?%nonempty_len.
  - intros [(H1 & Hh & Hb & Hr & Hl) ->]. rewrite Hh, Hb, (proj2 (Z.eqb_neq _ _)) by done. cbn [negb orb require obind Z.eqb].
    change (sha256HashBytes =? sha256HashBytes) with true. cbn [negb orb require obind].
    rewrite (proj2 (Z.ltb_ge _ _)) by done. rewrite !Hdigest by done.
    destruct (req_RecipePresent req); cbn [negb andb orb].
    + assert (req_Recipe req <> []) as Hne by by apply Hr.
      rewrite (proj2 (Z.eqb_neq _ _)) by by apply nonempty_len. cbn [negb require obind].
      rewrite parseGeneratedBase64_ok by done. done.
    + destruct (req_Recipe req) as [|b t]; [done | ]. by destruct Hr as [_ Hr]; specialize (Hr ltac:(done)).
Qed.

Lemma gen_instance_wf req : ok_request req -> wf_instance (gen_instance req) (gen_hash_set req).
Proof.
  intros (H1 & Hh & Hb & Hr & Hl).
  assert (forall d, len d = sha256HashBytes -> wf_b64 (gen_b64 d)) as Hd.
  { intros d Hd. split; [apply len_pos_nonempty; cbn; by rewrite Hd | done]. }
  constructor; cbn [gen_instance hasRecipe recipe headerHash bodyHash gen_hash_set]; auto.
  - unfold renderable. cbn [gen_instance hashes gen_hash_set known name headerHash bodyHash gen_b64 number].
    unfold DecodedLen. cbn [decoded gen_b64]. rewrite Hh, Hb, (proj2 (Z.eqb_neq _ _)) by done. done.
  - intros E. rewrite E. split; [ | done]. by apply Hr.
  - intros ->. done.
Qed.

(** ** The field as a message *)
Lemma chunks_facts d c cs :
  chunks_of d c cs -> plain c /\ Forall plain cs /\
  stripBase64FWS (c ++ concat (map (cons x09) cs)) = std_encode d /\
  (d <> [] -> edged TagTypes.isWSP (c ++ concat (map (cons x09) cs))).
Proof.
  intros (Hcat & Hch & Hf).
  pose proof (encode_chars d) as Hd. rewrite <- Hcat in Hd. apply chunks_dark in Hd as [Hc Hcs].
  assert (plain c) as Hpc by (eapply Forall_impl; [exact Hc | apply dark_plain]).
  assert (Forall plain cs) as Hps.
  { eapply Forall_impl; [exact Hcs | ]. intros l Hl. eapply Forall_impl; [exact Hl | apply dark_plain]. }
  assert (Forall cont_line (map (cons x09) cs)) as Hcont.
  { rewrite Forall_map. eapply Forall_impl; [exact Hps | ]. intros l Hl. split; [by apply plain_cons | by exists x09, l]. }
  split_and!; [done | done | | ].
  - pose proof (encode_dark d) as Hdk. rewrite <- Hcat in Hdk. apply chunks_dark in Hdk as [Hcd Hcsd].
    rewrite <- Hcat. unfold stripBase64FWS. rewrite List.filter_app. fold stripBase64FWS. f_equal; [ | by apply strip_folded].
    apply filter_id. eapply Forall_impl; [exact Hcd | ]. intros b Hb. cbn. by rewrite Hb.
  - intros Hne. destruct (fold_unfold d Hne) as (folded & Hf' & _ & _ & He).
    unfold EncodeBase64 in Hf'. rewrite Hf in Hf'. injection Hf' as <-. by rewrite unfoldHeaderValue_fold in He.
Qed.

Lemma recipe_lines_concat cur cs : concat (recipe_lines cur cs) = cur ++ concat (map (cons x09) cs) ++ bs ";".
Proof.
  revert cur. induction cs as [|d cs IH]; intros cur; cbn [recipe_lines map concat].
  - by rewrite app_nil_r.
  - rewrite IH, <- !app_assoc. done.
Qed.
Lemma recipe_lines_cont cur cs :
  cont_line cur -> Forall plain cs -> Forall cont_line (recipe_lines cur cs).
Proof.
  intros Hc Hcs. revert cur Hc. induction Hcs as [|d cs Hd _ IH]; intros cur Hc; cbn [recipe_lines].
  - constructor; [ | done]. destruct Hc as (Hp & w & t & -> & Hw). split; [apply plain_app; split; [done | by repeat constructor] | ].
    by exists w, (t ++ bs ";").
  - constructor; [done | ]. apply IH. split; [apply plain_cons; by split | by exists x09, d].
Qed.

Lemma encode_plain d : plain (std_encode d).
Proof. eapply Forall_impl; [apply encode_chars | apply dark_plain]. Qed.

Definition name_text : bytes := bs "Message-Instance".
Definition field_spec_of (num : Z) (hd bd : bytes) (r : option (bytes * list bytes)) : field_spec :=
  MkFS name_text (number_line num) (cont_lines (std_encode hd) (std_encode bd) r).

Lemma field_spec_wf num hd bd present rd r :
  0 <= num <= MaxUint64 -> recipe_chunks present rd r -> wf_field (field_spec_of num hd bd r).
Proof.
  intros Hn Hr. unfold MaxUint64 in Hn. split_and!; cbn [fs_name fs_first fs_conts field_spec_of].
  - by vm_compute.
  - unfold number_line. rewrite !plain_app. split_and!; [by apply plain_literal | | by apply plain_literal].
    apply digits_plain. apply format_uint_spec. lia.
  - unfold cont_lines. constructor.
    + split; [ | by eexists x09, _]. unfold hash_line. rewrite plain_cons, !plain_app.
      split_and!; try (by apply plain_literal); try done; apply encode_plain.
    + destruct r as [[c cs]|]; [ | constructor]. destruct Hr as (_ & _ & Hc).
      apply chunks_facts in Hc as (Hpc & Hpcs & _). apply recipe_lines_cont; [ | done].
      split; [ | by eexists x09, _]. rewrite plain_cons, plain_app. split_and!; [done | by apply plain_literal | done].
Qed.

Lemma field_spec_lines num hd bd r :
  field_lines (field_spec_of num hd bd r) = instance_lines num (std_encode hd) (std_encode bd) r.
Proof. reflexivity. Qed.


Lemma rendered_message_parses L f :
  wf_field f -> MaxFieldBytes L <= hardMaxRenderedFieldBytes -> MaxLineBytes L <= hardMaxRenderedLineBytes ->
  len (unlines (field_lines f)) <= MaxFieldBytes L -> Forall (fun l => len l <= MaxLineBytes L) (field_lines f) ->
  ParseWithOptions (unlines (field_lines f)) DefaultParserOptions = Ret (message_of (field_message f)).
Proof.
  change hardMaxRenderedFieldBytes with 65536. change hardMaxRenderedLineBytes with 998. intros Hf HF HL Hlen Hlines.
  apply field_message_parses; [done | lia | ]. eapply Forall_impl; [exact Hlines | ]. cbn. lia.
Qed.

(** ** The tags of the field *)
Abbreviation L0 := TagTypes.DefaultLimits.
Definition hash_value (hd bd : bytes) : bytes := bs "sha256" ++ x3a :: std_encode hd ++ x3a :: std_encode bd.
Definition recipe_value (c : bytes) (cs : list bytes) : bytes := c ++ concat (map (cons x09) cs).

Definition known_tag (nm v : bytes) : Tag := MkTag nm v true.
Definition field_tags (num : Z) (hd bd : bytes) (r : option (bytes * list bytes)) : list Tag :=
  [known_tag (bs "m") (format_uint num); known_tag (bs "h") (hash_value hd bd)] ++
  match r with Some (c, cs) => [known_tag (bs "r") (recipe_value c cs)] | None => [] end.

Lemma known_tag_ok nm v :
  nm ∈ [bs "m"; bs "h"; bs "r"] -> edged TagTypes.isWSP v -> len v <= 65536 ->
  ok_tag knownMessageInstanceTags L0 scanModeHeader (known_tag nm v).
Proof.
  intros Hn He Hl. unfold ok_tag. cbn [known_tag tag_name tag_value tag_known].
  change (MaxTagValueBytes L0) with 65536.
  repeat (apply elem_of_cons in Hn as [-> | Hn]; [split_and!; [reflexivity | reflexivity | done | done | vm_compute; reflexivity | by intros [? | ?]] | ]).
  by apply elem_of_nil in Hn.
Qed.


Lemma b64_semi d : x3b ∉ std_encode d.
Proof. eapply chars_no; [apply encode_chars | reflexivity]. Qed.
Lemma b64_no_separator d : Forall (fun b => isSeparator b = false) (std_encode d).
Proof.
  eapply Forall_impl; [apply encode_chars | ]. intros b Hb. cbn beta in Hb. apply b64_text_byte_facts. unfold b64_text_byte. by rewrite Hb.
Qed.
Lemma digest_len d : len d = sha256HashBytes -> len (std_encode d) = 44.
Proof. intros H. rewrite len_encode, H. done. Qed.
Lemma len_ne_nil (d : bytes) n : len d = n -> 0 < n -> d <> [].
Proof. intros <- H ->. done. Qed.

Section digests.
Context (hd bd : bytes) (Hh : len hd = sha256HashBytes) (Hb : len bd = sha256HashBytes).

Lemma hash_value_ok :
  edged TagTypes.isWSP (hash_value hd bd) /\ len (hash_value hd bd) <= 65536 /\ x3b ∉ hash_value hd bd.
Proof using Hh Hb.
  unfold hash_value. split_and!.
  - rewrite app_comm_cons, app_assoc. change (?a ++ x3a :: ?b) with (a ++ [x3a] ++ b).
    rewrite <- !app_assoc. change (x3a :: std_encode hd) with ([x3a] ++ std_encode hd). rewrite <- app_assoc.
    rewrite (app_assoc [x3a]), (app_assoc ([x3a] ++ std_encode hd)). apply edged_app; [ | done | apply encode_edged | ].
    + apply (all_dark_edged textstring_byte); [ | by repeat constructor]. intros b Hx. by apply textstring_byte_facts in Hx as [? _].
    + apply std_encode_nonempty. by eapply len_ne_nil.
  - rewrite len_app, len_cons, len_app, len_cons, !digest_len by done. by vm_compute.
  - rewrite not_elem_of_app, not_elem_of_cons, not_elem_of_app, not_elem_of_cons. split_and!; try done; try apply b64_semi.
    by eapply (chars_no textstring_byte); [repeat constructor | ].
Qed.

Definition gen_set : HashSet :=
  MkHashSet HashAlgorithmSHA256 true (gen_b64 hd) (gen_b64 bd) (std_encode hd) (std_encode bd).

Lemma hash_value_denotes : hashes_value L0 maxHashSetsHard (hash_value hd bd) [gen_set] (layout_of [1]).
Proof using Hh Hb.
  assert (hd <> [] /\ bd <> []) as [Hhn Hbn] by (split; by eapply len_ne_nil).
  exists [[hash_value hd bd]]. split_and!; try done.
  - split; [done | ]. constructor; [ | done]. split; [done | ]. constructor; [ | done]. split.
    + unfold hash_value. apply Forall_app. split; [by repeat constructor | ]. constructor; [done | ].
      apply Forall_app. split; [apply b64_no_separator | ]. constructor; [done | apply b64_no_separator].
    + reflexivity.
  - constructor; [ | constructor]. split.
    + exists [], [], []. split_and!; try constructor. cbn [gen_set name headerHashValue bodyHashValue].
      rewrite !app_nil_r. reflexivity.
    + split_and!; try done; cbn [gen_set headerHashValue headerHash bodyHashValue bodyHash];
        try (apply gen_base64_value; [done | rewrite ?Hh, ?Hb; by vm_compute]).
      intros n. cbn [gen_set name]. intros E. assert (n = sha256HashBytes) as -> by (vm_compute in E; injection E as <-; done).
      unfold DecodedLen. cbn [decoded gen_b64]. done.
  - cbn. apply NoDup_singleton.
Qed.
End digests.

Definition field_value (num : Z) (hd bd : bytes) (r : option (bytes * list bytes)) : bytes :=
  number_line num ++ concat (cont_lines (std_encode hd) (std_encode bd) r).
Definition field_texts (num : Z) (hd bd : bytes) (r : option (bytes * list bytes)) : list bytes :=
  [bs " m=" ++ format_uint num; x09 :: bs "h=" ++ hash_value hd bd] ++
  match r with Some (c, cs) => [x09 :: bs "r=" ++ recipe_value c cs] | None => [] end.

Lemma field_value_texts num hd bd r : field_value num hd bd r = join_semi (field_texts num hd bd r) ++ [x3b].
Proof.
  unfold field_value, field_texts, number_line, cont_lines, hash_line, hash_value, recipe_value.
  destruct r as [[c cs]|]; cbn [app concat join_semi]; rewrite ?recipe_lines_concat, ?app_nil_r;
    change (bs ";") with [x3b]; change (bs "h=sha256:") with (bs "h=" ++ bs "sha256" ++ [x3a]); change (bs ":") with [x3a];
    repeat (rewrite <- ?app_assoc; cbn [app]); done.
Qed.

Lemma wsp_nil : wsp [].
Proof. constructor. Qed.
Lemma tag_text_plain w nm v s : wsp w -> s = w ++ nm ++ x3d :: v -> tag_text (known_tag nm v) s.
Proof. intros Hw ->. exists w, [], [], []. cbn. rewrite app_nil_r. by split_and!; try apply wsp_nil. Qed.

Section tags.
Context (req : SigningRequest) (Hreq : ok_request req) (Hnum : 0 <= req_Number req <= MaxUint64).
Context (r : option (bytes * list bytes)) (Hr : recipe_chunks (req_RecipePresent req) (req_Recipe req) r).
Let num := req_Number req.
Let hd := req_HeaderHash req.
Let bd := req_BodyHash req.
Hypothesis Hlen : len (field_value num hd bd r) <= 65536.

Lemma recipe_value_ok c cs :
  r = Some (c, cs) ->
  edged TagTypes.isWSP (recipe_value c cs) /\ len (recipe_value c cs) <= 65536 /\ x3b ∉ recipe_value c cs /\
  base64_value L0 (recipe_value c cs) (MkB64 (recipe_value c cs) (std_encode (req_Recipe req)) (req_Recipe req)).
Proof using Hr Hreq Hlen.
  intros E. assert (len (recipe_value c cs) <= 65536) as Hl.
  { pose proof Hlen as Hl. rewrite E, field_value_texts in Hl. unfold field_texts in Hl. cbn [app join_semi] in Hl.
    rewrite !len_app, !len_cons, !len_app, !len_cons, !len_app in Hl.
    repeat match type of Hl with context [len ?l] => let n := fresh "n" in pose proof (len_nonneg l); set (n := len l) in * end. lia. }
  pose proof Hr as Hr'. rewrite E in Hr'. destruct Hr' as (_ & Hne & Hc). pose proof (chunks_facts _ _ _ Hc) as (_ & _ & Hs & He).
  fold (recipe_value c cs) in Hs, He. pose proof (He Hne) as Hed. split_and!; [done | done | | ].
  - assert (base64_value L0 (recipe_value c cs) (MkB64 (recipe_value c cs) (std_encode (req_Recipe req)) (req_Recipe req))) as Hv.
    { split_and!; [done | done | ]. exists (req_Recipe req). destruct Hreq as (_ & _ & _ & _ & Hrl).
      change (MaxBase64DecodedBytes L0) with 1048576. change hardMaxSigningRecipeBytes with 46080 in Hrl. split_and!; done || lia. }
    apply base64_value_chars in Hv. by eapply chars_no.
  - split_and!; [done | done | ]. exists (req_Recipe req). destruct Hreq as (_ & _ & _ & _ & Hrl).
    change (MaxBase64DecodedBytes L0) with 1048576. change hardMaxSigningRecipeBytes with 46080 in Hrl. split_and!; done || lia.
Qed.

Lemma field_tag_list : tag_list knownMessageInstanceTags L0 scanModeHeader (field_value num hd bd r) (field_of (field_tags num hd bd r)).
Proof using Hr Hreq Hlen Hnum.
  pose proof Hreq as (Hn & Hh & Hb & _). destruct (number_ok num) as (Hne & Hnl & Hns & _); [unfold num; lia | ].
  destruct (hash_value_ok hd bd Hh Hb) as (Hhe & Hhl & Hhs).
  exists (field_tags num hd bd r), (field_texts num hd bd r), [x3b]. split_and!.
  - unfold field_tags, field_texts. cbn [app]. constructor; [ | constructor].
    + split_and!; [apply (tag_text_plain [x20]); [by repeat constructor | done] | apply known_tag_ok; [set_solver | done | lia] | done].
    + split_and!; [apply (tag_text_plain [x09]); [by repeat constructor | done] | apply known_tag_ok; [set_solver | done | done] | done].
    + pose proof recipe_value_ok as HR. destruct r as [[c cs]|]; [ | constructor]. destruct (HR c cs eq_refl) as (He & Hl & Hs & _).
      constructor; [ | constructor]. split_and!; [apply (tag_text_plain [x09]); [by repeat constructor | done] | apply known_tag_ok; [set_solver | done | done] | done].
  - apply field_value_texts.
  - right. exists []. split; [apply wsp_nil | done].
  - done.
  - unfold field_tags. destruct r as [[c cs]|]; (apply NoDup_ListNoDup || idtac); vm_compute; repeat constructor; set_solver.
  - unfold field_tags. change (MaxTags L0) with 64. destruct r as [[c cs]|]; by vm_compute.
  - done.
Qed.

(** The instance that the parser reads. *)
Definition read_instance : MessageInstance :=
  MkInstance num [gen_set hd bd] (layout_of [1])
    (match r with Some (c, cs) => MkB64 (recipe_value c cs) (std_encode (req_Recipe req)) (req_Recipe req) | None => emptyBase64 end)
    (req_RecipePresent req) 0.

Lemma field_instance_text : instance_text DefaultLimits (field_value num hd bd r) read_instance.
Proof using Hr Hreq Hlen Hnum.
  pose proof Hreq as (Hn & Hh & Hb & _). unfold instance_text. change (TagTypes.Limits_normalize (TagLimits DefaultLimits)) with L0.
  split_and!; [done | done | | exists (field_of (field_tags num hd bd r)); split; [apply field_tag_list | ]].
  - destruct (field_spec_wf num hd bd _ _ r ltac:(unfold num; done) Hr) as (_ & Hp & Hc). cbn [fs_first fs_conts field_spec_of] in *.
    apply Forall_app. split; [eapply Forall_impl; [exact Hp | intros b; apply plain_byte_spec] | ].
    apply Forall_concat. eapply Forall_impl; [exact Hc | ]. intros l [Hl _]. eapply Forall_impl; [exact Hl | intros b; apply plain_byte_spec].
  - assert (forall nm v, known_tag nm v ∈ field_tags num hd bd r -> tag_of (field_of (field_tags num hd bd r)) nm v) as Htag.
    { intros nm v Hin. exists (known_tag nm v). by rewrite tags_field_of. }
    unfold instance_tags. change (TagTypes.Limits_normalize (TagLimits DefaultLimits)) with L0.
    cbn [read_instance number hashes hashLayout hasRecipe recipe]. split_and!.
    + exists (format_uint num). split; [apply Htag; by left | ]. apply number_ok. unfold num. lia.
    + exists (hash_value hd bd). split; [apply Htag; right; by left | ]. by apply hash_value_denotes.
    + pose proof recipe_value_ok as HR. destruct r as [[c cs]|].
      * destruct Hr as [-> _]. exists (recipe_value c cs). split; [apply Htag; right; right; by left | ]. by apply HR.
      * destruct Hr as [-> _]. split; [ | done]. intros v (t & Hin & Hname & _). rewrite tags_field_of in Hin.
        by repeat (apply elem_of_cons in Hin as [-> | Hin]; [done | ]); apply elem_of_nil in Hin.
Qed.
End tags.

(** A rendered instance is the lines of its request. *)
Lemma rendered_lines req limits out :
  ok_request req -> Render (gen_instance req) limits = Ret out ->
  exists L r, normalized limits = Ret L /\ recipe_chunks (req_RecipePresent req) (req_Recipe req) r /\
    out = unlines (instance_lines (req_Number req) (std_encode (req_HeaderHash req)) (std_encode (req_BodyHash req)) r) /\
    lines_within L (gen_instance req) (instance_lines (req_Number req) (std_encode (req_HeaderHash req)) (std_encode (req_BodyHash req)) r).
Proof.
  intros Hreq Hout. pose proof (gen_instance_wf req Hreq) as Hm.
  assert (decoded (recipe (gen_instance req)) = req_Recipe req) as Hdr.
  { destruct Hreq as (_ & _ & _ & Hr & _). cbn [gen_instance recipe]. destruct (req_RecipePresent req); [done | ].
    destruct (req_Recipe req); [done | ]. by destruct Hr as [_ Hr]; specialize (Hr ltac:(done)). }
  destruct (denotes_lines_exist _ _ Hm) as (ls & r & Hr & Els).
  { rewrite (recipe_bytes_decoded _ _ Hm), Hdr. destruct Hreq as (_ & _ & _ & _ & Hl).
    change hardMaxSigningRecipeBytes with 46080 in Hl. change (2 ^ 62) with 4611686018427387904. lia. }
  assert (denotes_lines (gen_instance req) (gen_hash_set req) ls) as Hd by by exists r.
  destruct (Render_cases _ _ Hm limits ls (or_introl Hd)) as [(L & HL & Hw & _ & E) | (_ & f & _ & E)]; [ | congruence].
  rewrite E in Hout. injection Hout as <-. rewrite Els in *. exists L, r. rewrite Hdr in Hr. done.
Qed.

(** What Render returns is read by both parsers. *)
Lemma rendered_instance_reads req limits out :
  0 <= req_Number req <= MaxUint64 -> ok_request req -> Render (gen_instance req) limits = Ret out ->
  exists M field r, recipe_chunks (req_RecipePresent req) (req_Recipe req) r /\
    ParseWithOptions out DefaultParserOptions = Ret M /\ hb_fields (headers M) = [field] /\
    HeaderBlock_FieldsByName (headers M) HeaderName = [field] /\
    ParseField DefaultLimits field = Ret (read_instance req r).
Proof.
  intros Hnum Hreq Hout.
  destruct (rendered_lines req limits out Hreq Hout) as (L & r & HL & Hr & -> & _ & Hlen & Hlines).
  apply normalized_inv in HL as (HF & HLn & _). rewrite <- field_spec_lines in *.
  set (f := field_spec_of _ _ _ r) in *.
  assert (wf_field f) as Hf by by eapply field_spec_wf.
  pose proof (rendered_message_parses L f Hf ltac:(lia) ltac:(lia) Hlen Hlines) as HP.
  assert (len (field_value (req_Number req) (req_HeaderHash req) (req_BodyHash req) r) <= 65536) as Hv.
  { change hardMaxRenderedFieldBytes with 65536 in HF. pose proof (len_unfolded f) as Hc.
    change (fs_first f ++ concat (fs_conts f)) with
      (field_value (req_Number req) (req_HeaderHash req) (req_BodyHash req) r) in Hc. lia. }
  exists (message_of (field_message f)), (parsed_field 0 name_text (number_line (req_Number req))
    (cont_lines (std_encode (req_HeaderHash req)) (std_encode (req_BodyHash req)) r)), r.
  split_and!; [done | done | reflexivity | reflexivity | ].
  apply ParseField_Ret. split_and!; [by vm_compute | done | ]. by apply field_instance_text.
Qed.

(** C14: a rendered Message-Instance field reads back.  For every request that
    NewForSigning accepts, what Render returns is a message of one header field
    for the rawmsg parser; the field has the Message-Instance name, and
    ParseField returns an instance with the request's number, the same hash set
    and layout, and a recipe that decodes to the request's recipe. *)
Theorem instance_render_roundtrip req m limits out :
  0 <= req_Number req <= MaxUint64 -> NewForSigning req = Ret m -> Render m limits = Ret out ->
  exists M field m',
    ParseWithOptions out DefaultParserOptions = Ret M /\
    HeaderBlock_FieldsByName (headers M) HeaderName = [field] /\ hb_fields (headers M) = [field] /\
    ParseField DefaultLimits field = Ret m' /\
    number m' = req_Number req /\ hashes m' = hashes m /\ hashLayout m' = hashLayout m /\
    hasRecipe m' = req_RecipePresent req /\ decoded (recipe m') = req_Recipe req /\
    encoded (recipe m') = encoded (recipe m) /\ headerIndex m' = 0.
Proof.
  intros Hnum [Hreq ->]%NewForSigning_Ret Hout.
  destruct (rendered_instance_reads req limits out Hnum Hreq Hout) as (M & field & r & Hr & HM & Hf & Hn & Hp).
  exists M, field, (read_instance req r). split_and!; try done.
  - cbn [read_instance recipe]. destruct r as [[c cs]|]; [done | ]. by destruct Hr as [_ ->].
  - cbn [read_instance recipe gen_instance]. destruct r as [[c cs]|]; destruct Hr as [-> Hr]; done.
Qed.
Lemma instance_render_roundtrip_witness :
  exists m out M field m',
    NewForSigning sample_request = Ret m /\ Render m noRenderLimits = Ret out /\
    ParseWithOptions out DefaultParserOptions = Ret M /\ hb_fields (headers M) = [field] /\
    ParseField DefaultLimits field = Ret m' /\ decoded (recipe m') = repeat x43 100.
Proof.
  assert (NewForSigning sample_request = Ret sample_instance) as Hm by (vm_compute; reflexivity).
  destruct (Render sample_instance noRenderLimits) as [out | |] eqn:Hout;
    [ | vm_compute in Hout; discriminate | vm_compute in Hout; discriminate].
  destruct (instance_render_roundtrip sample_request sample_instance noRenderLimits out)
    as (M & field & m' & H1 & _ & H2 & H3 & _ & _ & _ & _ & H4 & _); [vm_compute; split; discriminate | exact Hm | exact Hout | ].
  exists sample_instance, out, M, field, m'. split_and!; [exact Hm | exact Hout | exact H1 | exact H2 | exact H3 | exact H4].
Defined.
