(* ===== verification/DomainName.v ===== *)
(** * Package internal/domainname: canonical protocol domains

    The strict IDNA conversion of golang.org/x/net is a parameter: a function
    from a name to its A-label form, or nothing when it reports an error. *)

From S2P Require Import Prelude GoBytes.
#[local] Open Scope Z_scope.

Definition maxDomainBytes : Z := 253.
Definition maxLabelBytes : Z := 63.

Definition fold_byte (b : byte) : byte := if in_range x41 b x5a then byte_of (bval b + (97 - 65)) else b.
Definition IsASCII (domain : bytes) : bool := forallb (fun b => negb (128 <=? bval b)) domain.
Definition hasACEPrefix (domain : bytes) : bool :=
  existsb (fun label => has_prefix label (bs "xn--")) (split_byte x2e domain).

Definition ldh_byte (b : byte) : bool := in_range x61 b x7a || in_range x30 b x39 || (b =?b x2d).
Definition validLDHLabel (label : bytes) : bool :=
  match label with
  | [] => false
  | first :: _ =>
      negb ((maxLabelBytes <? len label) || (first =?b x2d) || (List.last label first =?b x2d))
      && forallb ldh_byte label
  end.
(** The loop of validASCIIDomain; [label] is the text since labelStart. *)
Fixpoint labelLoop (rest label : bytes) : bool :=
  match rest with
  | [] => validLDHLabel label
  | b :: rest =>
      if b =?b x2e then validLDHLabel label && labelLoop rest [] else labelLoop rest (label ++ [b])
  end.
Definition validASCIIDomain (domain : bytes) : bool :=
  if (len domain =? 0) || (maxDomainBytes <? len domain) then false else labelLoop domain [].

(** ** Labels joined by dots *)
Fixpoint join_labels (ls : list bytes) : bytes :=
  match ls with [] => [] | [l] => l | l :: ls => l ++ x2e :: join_labels ls end.
Lemma join_labels_cons l ls : ls <> [] -> join_labels (l :: ls) = l ++ x2e :: join_labels ls.
Proof. by destruct ls. Qed.
Lemma join_split s : join_labels (split_byte x2e s) = s.
Proof.
  remember (split_byte x2e s) as ps eqn:E. symmetry in E. revert s E.
  induction ps as [|p ps IH]; intros s E; [by apply split_byte_nonempty in E | ].
  apply split_byte_inv in E as (_ & [[-> ->] | (s' & -> & E)]); [done | ].
  rewrite join_labels_cons by (intros ->; by apply split_byte_nonempty in E). by rewrite (IH s').
Qed.
Lemma split_join ls : ls <> [] -> Forall (fun l => x2e ∉ l) ls -> split_byte x2e (join_labels ls) = ls.
Proof.
  intros Hne H. induction H as [|l ls Hl Hls IH]; [done | ]. destruct ls as [|l' ls]; [by apply split_byte_plain | ].
  rewrite join_labels_cons, split_byte_app by done. by rewrite IH.
Qed.
Lemma join_labels_app ls ks :
  ls <> [] -> ks <> [] -> join_labels (ls ++ ks) = join_labels ls ++ x2e :: join_labels ks.
Proof.
  intros Hl Hk. induction ls as [|l ls IH]; [done | ]. destruct ls as [|l' ls].
  - cbn [app]. by rewrite join_labels_cons.
  - change ((l :: l' :: ls) ++ ks) with (l :: (l' :: ls) ++ ks). rewrite !join_labels_cons by done. rewrite IH by done.
    by rewrite <- app_assoc.
Qed.
Lemma split_byte_join_app ls s : ls <> [] -> Forall (fun l => x2e ∉ l) ls ->
  split_byte x2e (join_labels ls ++ x2e :: s) = ls ++ split_byte x2e s.
Proof.
  intros Hne H. induction H as [|l ls Hl Hls IH]; [done | ]. destruct ls as [|l' ls]; [by apply split_byte_app | ].
  rewrite join_labels_cons by done. rewrite <- app_assoc. cbn [app]. rewrite split_byte_app by done. by rewrite IH.
Qed.
Lemma split_byte_app_split s t : split_byte x2e (s ++ x2e :: t) = split_byte x2e s ++ split_byte x2e t.
Proof.
  induction s as [|b s IH]; cbn [app split_byte]; [by rewrite byte_eqb_refl | ].
  case_byte; [by rewrite IH | ]. rewrite IH. destruct (split_byte x2e s) eqn:E; [by apply split_byte_nonempty in E | done].
Qed.

(** ** Valid names *)
Lemma labelLoop_labels rest label :
  labelLoop rest label =
  match split_byte x2e rest with p :: ps => forallb validLDHLabel ((label ++ p) :: ps) | [] => true end.
Proof.
  revert label. induction rest as [|b rest IH]; intros label; cbn [labelLoop split_byte].
  - cbn. by rewrite app_nil_r, andb_true_r.
  - case_byte.
    + rewrite IH, app_nil_r. destruct (split_byte x2e rest) eqn:E; [by apply split_byte_nonempty in E | ]. done.
    + rewrite IH. destruct (split_byte x2e rest) eqn:E; [by apply split_byte_nonempty in E | ]. by rewrite <- app_assoc.
Qed.

(** A valid label: 1 to 63 letters, digits and hyphens, with no hyphen at an end. *)
Definition is_label (l : bytes) : Prop :=
  Forall (fun b => ldh_byte b = true) l /\ 1 <= len l <= maxLabelBytes /\ edged (fun b => b =?b x2d) l.
Definition is_domain (d : bytes) : Prop :=
  len d <= maxDomainBytes /\ Forall is_label (split_byte x2e d).

Lemma edged_ends p first l : edged p (first :: l) <-> p first = false /\ p (List.last (first :: l) first) = false.
Proof.
  split.
  - intros [H1 H2]. split; [by eapply H1 | ].
    destruct (exists_last (l := first :: l)) as (t & c & E); [done | ]. rewrite E, List.last_last. by eapply H2.
  - intros [Hf Hl]. split; [by intros ? ? [= <- _] | ]. intros t c E. by rewrite E, List.last_last in Hl.
Qed.

Lemma validLDHLabel_spec l : validLDHLabel l = true <-> is_label l.
Proof.
  unfold is_label. destruct l as [|b l]; cbn [validLDHLabel].
  - split; [done | ]. intros (_ & ? & _). change (len (@nil byte)) with 0 in *. lia.
  - rewrite edged_ends, len_cons, andb_true_iff, negb_true_iff, !orb_false_iff, Z.ltb_ge. pose proof (len_nonneg l).
    rewrite forallb_forall, list.Forall_forall. setoid_rewrite list_elem_of_In.
    change (List.last (b :: l) b) with (List.last (b :: l) b). naive_solver lia.
Qed.

Lemma validASCIIDomain_spec d : validASCIIDomain d = true <-> is_domain d.
Proof.
  unfold validASCIIDomain, is_domain. rewrite labelLoop_labels.
  destruct (split_byte x2e d) as [|p ps] eqn:E; [by apply split_byte_nonempty in E | ]. cbn [app].
  destruct (Z.eqb_spec (len d) 0) as [E0 | E0]; cbn [orb].
  - split; [done | ]. intros [_ H]. destruct d; [ | rewrite len_cons in E0; pose proof (len_nonneg d); lia].
    cbn in E. injection E as <- <-. apply Forall_cons in H as [(_ & ? & _) _]. change (len (@nil byte)) with 0 in *. lia.
  - destruct (Z.ltb_spec maxDomainBytes (len d)); [split; [done | lia] | ].
    rewrite forallb_forall, list.Forall_forall. setoid_rewrite list_elem_of_In. setoid_rewrite validLDHLabel_spec. tauto.
Qed.

Lemma fold_byte_idem b : fold_byte (fold_byte b) = fold_byte b.
Proof.
  enough ((fold_byte (fold_byte b) =?b fold_byte b) = true) by by apply byte_eqb_eq.
  by_bytes b.
Qed.
Lemma ldh_byte_facts b : ldh_byte b = true -> fold_byte b = b /\ negb (128 <=? bval b) = true /\ b <> x2e.
Proof.
  enough (implb (ldh_byte b) ((fold_byte b =?b b) && negb (128 <=? bval b) && negb (b =?b x2e)) = true) as H.
  { intros E. rewrite E in H. cbn [implb] in H. apply andb_true_iff in H as [[H1 H2]%andb_true_iff H3].
    apply byte_eqb_eq in H1. apply negb_true_iff in H3. by apply byte_eqb_ne in H3. }
  by_bytes b.
Qed.
Lemma split_byte_chars (P : byte -> Prop) sep s :
  Forall (Forall P) (split_byte sep s) -> P sep -> Forall P s.
Proof.
  intros H Hsep. remember (split_byte sep s) as ps eqn:E. symmetry in E. revert s E.
  induction H as [|p ps Hp _ IH]; intros s E; [by apply split_byte_nonempty in E | ].
  apply split_byte_inv in E as (_ & [[_ ->] | (s' & -> & E)]); [done | ].
  apply Forall_app. split; [done | ]. constructor; [done | by apply IH].
Qed.
Lemma domain_chars d : is_domain d -> Forall (fun b => fold_byte b = b /\ negb (128 <=? bval b) = true) d.
Proof.
  intros [_ H]. eapply (split_byte_chars _ x2e); [ | by split]. eapply Forall_impl; [exact H | ].
  intros l (Hl & _). eapply Forall_impl; [exact Hl | ]. intros b Hb. apply ldh_byte_facts in Hb. tauto.
Qed.
Lemma domain_folded d : is_domain d -> map fold_byte d = d /\ IsASCII d = true.
Proof.
  intros H%domain_chars. split.
  - induction H as [|b d [Hb _] _ IH]; [done | ]. cbn. by rewrite Hb, IH.
  - apply forallb_forall. intros b Hb%list_elem_of_In. rewrite Forall_forall in H. by apply H.
Qed.
Lemma split_byte_snoc sep s : exists p ps, split_byte sep (s ++ [sep]) = (p :: ps) ++ [[]].
Proof.
  induction s as [|b s (p & ps & IH)]; cbn [app split_byte]; [rewrite byte_eqb_refl; by exists [], [] | ].
  case_byte; [exists [], (p :: ps); by rewrite IH | ]. rewrite IH. by exists (b :: p), ps.
Qed.
Lemma empty_not_label : ~ is_label [].
Proof. intros (_ & H & _). change (len (@nil byte)) with 0 in H. lia. Qed.
Lemma domain_dots first d : is_domain (first :: d) -> (first =?b x2e) || (List.last (first :: d) first =?b x2e) = false.
Proof.
  intros [_ H]. apply orb_false_iff. split; apply byte_eqb_ne.
  - intros ->. cbn [split_byte] in H. rewrite byte_eqb_refl in H. apply Forall_cons in H as [H _]. by apply empty_not_label.
  - intros E. destruct (exists_last (l := first :: d)) as (t & c & Et); [done | ]. rewrite Et, List.last_last in E.
    subst c. destruct (split_byte_snoc x2e t) as (p & ps & Ep). rewrite Et, Ep in H. apply Forall_app in H as [_ [H _]%Forall_cons].
    by apply empty_not_label.
Qed.

Lemma last_map {A B} (f : A -> B) l d : List.last (map f l) (f d) = f (List.last l d).
Proof. induction l as [|x l IH]; [done | ]. destruct l as [|y l]; [done | ]. exact IH. Qed.
Lemma fold_dot b : (fold_byte b =?b x2e) = (b =?b x2e).
Proof.
  enough (Bool.eqb (fold_byte b =?b x2e) (b =?b x2e) = true) as H by by apply eqb_prop.
  by_bytes b.
Qed.
(** ** Conversion *)
Section idna.
(** registration.ToASCII of golang.org/x/net/idna. *)
Variable registration_ToASCII : bytes -> option bytes.

Definition ToASCII (domain : bytes) : option bytes :=
  match domain with
  | [] => None
  | first :: _ =>
      if (first =?b x2e) || (List.last domain first =?b x2e) then None
      else
        let folded := map fold_byte domain in
        if IsASCII folded && negb (hasACEPrefix folded) then
          if negb (validASCIIDomain folded) then None else Some folded
        else
          match registration_ToASCII folded with
          | None => None
          | Some converted => if negb (validASCIIDomain converted) then None else Some converted
          end
  end.

Lemma ToASCII_domain d r : ToASCII d = Some r -> is_domain r.
Proof.
  unfold ToASCII. destruct d as [|b d]; [done | ]. destruct (_ || _); [done | ].
  destruct (IsASCII _ && _).
  - destruct (validASCIIDomain _) eqn:E; [ | done]. intros [= <-]. by apply validASCIIDomain_spec.
  - destruct (registration_ToASCII _) as [c|]; [ | done]. destruct (validASCIIDomain c) eqn:E; [ | done].
    intros [= <-]. by apply validASCIIDomain_spec.
Qed.

Lemma ToASCII_fold d : ToASCII (map fold_byte d) = ToASCII d.
Proof.
  unfold ToASCII. destruct d as [|b d]; [done | ]. cbn [map]. rewrite map_map.
  change (fold_byte b :: map fold_byte d) with (map fold_byte (b :: d)).
  rewrite last_map, !fold_dot, fold_byte_idem.
  assert (map (fun x => fold_byte (fold_byte x)) d = map fold_byte d) as -> by (apply map_ext; apply fold_byte_idem).
  done.
Qed.

(** Names without A-labels are converted without the library. *)
Lemma ToASCII_ascii d :
  IsASCII (map fold_byte d) = true -> hasACEPrefix (map fold_byte d) = false ->
  forall r, ToASCII d = Some r <-> is_domain (map fold_byte d) /\ r = map fold_byte d.
Proof.
  intros Ha Hx r. split.
  - unfold ToASCII. destruct d as [|b d]; [done | ]. destruct (_ || _); [done | ]. rewrite Ha, Hx. cbn [andb negb].
    destruct (validASCIIDomain _) eqn:E; [ | done]. intros [= <-]. by apply validASCIIDomain_spec in E.
  - intros [Hd ->]. rewrite <- ToASCII_fold. revert Ha Hx Hd. generalize (map fold_byte d).
    intros f Ha Hx Hd. unfold ToASCII. destruct f as [|b f]; [by apply validASCIIDomain_spec in Hd | ].
    rewrite domain_dots by done. rewrite (proj1 (domain_folded _ Hd)), Ha, Hx. cbn [andb negb].
    by rewrite (proj2 (validASCIIDomain_spec _) Hd).
Qed.
Lemma ToASCII_plain r : is_domain r -> hasACEPrefix r = false -> ToASCII r = Some r.
Proof.
  intros Hr Hx. pose proof (domain_folded r Hr) as [Hf Ha]. apply ToASCII_ascii; rewrite Hf; [done | done | by split].
Qed.
(** A library that leaves its own results alone makes the conversion do so. *)
Lemma ToASCII_fixed :
  (forall d a, registration_ToASCII d = Some a -> registration_ToASCII a = Some a) ->
  forall d a, ToASCII d = Some a -> ToASCII a = Some a.
Proof.
  intros Hfix d a H. pose proof (ToASCII_domain _ _ H) as Ha.
  destruct (hasACEPrefix a) eqn:Hx; [ | by apply ToASCII_plain].
  assert (registration_ToASCII a = Some a) as Hr.
  { revert H. unfold ToASCII. destruct d as [|b d]; [done | ]. destruct (_ || _); [done | ].
    destruct (IsASCII _ && _) eqn:Ef.
    - destruct (validASCIIDomain _); [ | done]. intros [= E]. apply andb_true_iff in Ef as [_ Ef%negb_true_iff].
      rewrite <- E in Hx. cbn [map] in *. congruence.
    - destruct (registration_ToASCII _) as [c|] eqn:Ec; [ | done]. destruct (validASCIIDomain c); [ | done]. intros [= ->]. eauto. }
  pose proof (domain_folded a Ha) as [Hf _]. revert Hr. unfold ToASCII. destruct a as [|b a]; [done | ].
  rewrite domain_dots by done. rewrite Hf, Hx, andb_false_r. intros ->.
  by rewrite (proj2 (validASCIIDomain_spec _) Ha).
Qed.

(** Whatever the IDNA library answers, a converted name is a lowercase
    domain: labels of 1 to 63 letters, digits and hyphens that neither begin
    nor end with a hyphen, 253 octets in all.  The case of ASCII letters does
    not matter, and an ASCII name without an A-label candidate is converted
    without the library: exactly when its folded form is such a domain, to that
    form.  Converting a converted name without A-labels changes nothing. *)
Theorem ToASCII_spec d :
  (forall r, ToASCII d = Some r -> is_domain r) /\
  ToASCII (map fold_byte d) = ToASCII d /\
  (IsASCII (map fold_byte d) = true -> hasACEPrefix (map fold_byte d) = false ->
   forall r, ToASCII d = Some r <-> is_domain (map fold_byte d) /\ r = map fold_byte d) /\
  (forall r, ToASCII d = Some r -> hasACEPrefix r = false -> ToASCII r = Some r).
Proof.
  split_and!; [apply ToASCII_domain | apply ToASCII_fold | apply ToASCII_ascii | ].
  intros r Hr%ToASCII_domain Hx. by apply ToASCII_plain.
Qed.
End idna.

Example ToASCII_samples :
  ToASCII (fun _ => None) (bs "Mail.Example.ORG") = Some (bs "mail.example.org") /\
  ToASCII (fun _ => None) (bs "mail..example") = None /\
  ToASCII (fun _ => Some (bs "xn--bcher-kva.example")) (bs "xn--bcher-kva.example") = Some (bs "xn--bcher-kva.example").
Proof. split_and!; vm_compute; reflexivity. Qed.
