(* ===== verification/Mailbox.v ===== *)
(** * Package internal/mailbox: author address lists

    The tokenizer works on the text not consumed yet, the parser on the tokens
    not consumed yet; [Fail tt] is the Go result ok = false.  A token's text
    includes its quotes or brackets.  The loops that are not structural take
    the length of their input as fuel. *)

From S2P Require Import Prelude GoBytes GoUtf8 DomainName.
#[local] Open Scope Z_scope.

Definition MaxValueBytes : Z := 16 * 1024.
Definition maxMailboxes : Z := 128.
Definition maxComments : Z := 32.

Inductive Status :=
  | StatusSingle | StatusMalformed | StatusNoMailbox | StatusMultiple | StatusDomainLiteral
  | StatusInvalidDomain.
Record Author := MkAuthor { au_localPart : bytes; au_domain : bytes; au_inGroup : bool; au_ascii : bool }.
Definition noAuthor : Author := MkAuthor [] [] false false.

(** ** Tokens *)
Inductive token := tokenAtom (text : bytes) | tokenQuoted (text : bytes) | tokenLiteral (text : bytes)
  | tokenSpecial (b : byte).
#[export] Instance token_eq_dec : EqDecision token.
Proof. solve_decision. Defined.

Definition quotedPairByte (b : byte) : bool :=
  (b =?b x20) || (b =?b x09) || ((0x21 <=? bval b) && negb (b =?b x7f)).
Definition isSpecial (b : byte) : bool :=
  bool_decide (b ∈ [x3c; x3e; x3a; x3b; x40; x2c; x2e]).
Definition isAtext (b : byte) : bool :=
  if 0x80 <=? bval b then true
  else if in_range x61 b x7a || in_range x41 b x5a || in_range x30 b x39 then true
  else bool_decide (b ∈ [x21; x23; x24; x25; x26; x27; x2a; x2b; x2d; x2f; x3d; x3f; x5e; x5f; x60; x7b; x7c; x7d; x7e]).
(** Bytes that end a comment or a quoted string with an error. *)
Definition forbidden (b : byte) : bool := ((bval b <? 0x20) && negb (b =?b x09)) || (b =?b x7f).

(** The text after a comment, from the text after its first parenthesis on. *)
Fixpoint skipComment (rest : bytes) (depth : Z) : option bytes :=
  match rest with
  | [] => None
  | b :: rest =>
      if b =?b x5c then
        match rest with
        | c :: rest => if quotedPairByte c then skipComment rest depth else None
        | [] => None
        end
      else if b =?b x28 then if maxComments <? depth + 1 then None else skipComment rest (depth + 1)
      else if b =?b x29 then if depth - 1 =? 0 then Some rest else skipComment rest (depth - 1)
      else if forbidden b then None
      else skipComment rest depth
  end.

Definition cons_text (b : byte) (r : option (bytes * bytes)) : option (bytes * bytes) :=
  '(text, rest) ← r; Some (b :: text, rest).
(** The text of a quoted string after its first quote, and what follows it. *)
Fixpoint scanQuoted (rest : bytes) : option (bytes * bytes) :=
  match rest with
  | [] => None
  | b :: rest =>
      if b =?b x5c then
        match rest with
        | c :: rest => if quotedPairByte c then cons_text b (cons_text c (scanQuoted rest)) else None
        | [] => None
        end
      else if b =?b x22 then Some ([b], rest)
      else if forbidden b then None
      else cons_text b (scanQuoted rest)
  end.
Fixpoint scanLiteral (rest : bytes) : option (bytes * bytes) :=
  match rest with
  | [] => None
  | b :: rest =>
      if b =?b x5d then Some ([b], rest)
      else if (b =?b x5b) || (b =?b x5c) || forbidden b then None
      else cons_text b (scanLiteral rest)
  end.
Fixpoint scanAtom (rest : bytes) : bytes * bytes :=
  match rest with
  | [] => ([], [])
  | b :: rest' => if isAtext b then let '(text, r) := scanAtom rest' in (b :: text, r) else ([], rest)
  end.

Definition orFail {A} (o : option A) : outcome unit A := match o with Some a => Ret a | None => Fail tt end.

Fixpoint tokenizeLoop (fuel : nat) (value : bytes) (comments : Z) : outcome unit (list token) :=
  match fuel with
  | O => Crash
  | S fuel =>
      match value with
      | [] => Ret []
      | b :: rest =>
          if (b =?b x20) || (b =?b x09) then tokenizeLoop fuel rest comments
          else if b =?b x28 then
            let* rest := orFail (skipComment rest 1) in
            check require (negb (maxComments <? comments + 1)) tt ;;
            tokenizeLoop fuel rest (comments + 1)
          else if b =?b x22 then
            let* (text, rest) := orFail (scanQuoted rest) in
            let* ts := tokenizeLoop fuel rest comments in Ret (tokenQuoted (b :: text) :: ts)
          else if b =?b x5b then
            let* (text, rest) := orFail (scanLiteral rest) in
            let* ts := tokenizeLoop fuel rest comments in Ret (tokenLiteral (b :: text) :: ts)
          else if isSpecial b then
            let* ts := tokenizeLoop fuel rest comments in Ret (tokenSpecial b :: ts)
          else if isAtext b then
            let '(text, rest) := scanAtom (b :: rest) in
            let* ts := tokenizeLoop fuel rest comments in Ret (tokenAtom text :: ts)
          else Fail tt
      end
  end.
Definition tokenize (value : bytes) : outcome unit (list token) :=
  tokenizeLoop (S (length value)) value 0.

(** ** The parser *)
Record parsedMailbox := MkMailbox { local : bytes; mb_domain : bytes; literal : bool; inGroup : bool }.

(** [None]: no token was consumed. *)
Definition consumeSpecial (special : byte) (ts : list token) : option (list token) :=
  match ts with tokenSpecial b :: rest => if b =?b special then Some rest else None | _ => None end.
Definition word (ts : list token) : option (list token) :=
  match ts with tokenAtom _ :: rest | tokenQuoted _ :: rest => Some rest | _ => None end.
(** The tokens after the words and dots that begin [ts]. *)
Fixpoint moreWords (ts : list token) : list token :=
  match ts with
  | tokenAtom _ :: rest | tokenQuoted _ :: rest => moreWords rest
  | tokenSpecial b :: rest => if b =?b x2e then moreWords rest else ts
  | _ => ts
  end.
Definition phrase (ts : list token) : option (list token) :=
  rest ← word ts; Some (moreWords rest).

(** [text] is what was read so far; [quoted] says whether quoted strings are
    words here. *)
Fixpoint dotWords (quoted : bool) (text : bytes) (ts : list token) : option (bytes * list token) :=
  match ts with
  | tokenSpecial b :: rest =>
      if b =?b x2e then
        match rest with
        | tokenAtom w :: rest => dotWords quoted (text ++ x2e :: w) rest
        | tokenQuoted w :: rest => if quoted then dotWords quoted (text ++ x2e :: w) rest else None
        | _ => None
        end
      else Some (text, ts)
  | _ => Some (text, ts)
  end.
Definition localPart (ts : list token) : option (bytes * list token) :=
  match ts with
  | tokenAtom w :: rest | tokenQuoted w :: rest => dotWords true w rest
  | _ => None
  end.
Definition dotAtoms (ts : list token) : option (bytes * list token) :=
  match ts with tokenAtom w :: rest => dotWords false w rest | _ => None end.

Definition addrSpec (ts : list token) : option (parsedMailbox * list token) :=
  '(loc, ts) ← localPart ts;
  ts ← consumeSpecial x40 ts;
  match ts with
  | tokenLiteral text :: rest => Some (MkMailbox loc text true false, rest)
  | _ => '(dom, rest) ← dotAtoms ts; Some (MkMailbox loc dom false false, rest)
  end.

Definition set_group (g : bool) (m : parsedMailbox) : parsedMailbox :=
  MkMailbox (local m) (mb_domain m) (literal m) g.
Definition mailbox (group : bool) (ts : list token) : option (parsedMailbox * list token) :=
  let after := default ts (phrase ts) in
  match consumeSpecial x3c after with
  | Some rest =>
      '(m, rest) ← addrSpec rest;
      rest ← consumeSpecial x3e rest;
      Some (set_group group m, rest)
  | None => '(m, rest) ← addrSpec ts; Some (set_group group m, rest)
  end.

(** The loop of groupList; [mailboxes] are those found so far. *)
Fixpoint groupLoop (fuel : nat) (ts : list token) (mailboxes : list parsedMailbox)
    : outcome unit (list parsedMailbox * list token) :=
  match fuel with
  | O => Crash
  | S fuel =>
      let* (m, rest) := orFail (mailbox true ts) in
      let mailboxes := mailboxes ++ [m] in
      check require (negb (maxMailboxes <? len mailboxes)) tt ;;
      match consumeSpecial x3b rest with
      | Some rest => Ret (mailboxes, rest)
      | None =>
          let* rest := orFail (consumeSpecial x2c rest) in
          groupLoop fuel rest mailboxes
      end
  end.
Definition groupList (ts : list token) : outcome unit (list parsedMailbox * list token) :=
  match consumeSpecial x3b ts with
  | Some rest => Ret ([], rest)
  | None => groupLoop (S (length ts)) ts []
  end.

Definition address (ts : list token) : outcome unit (list parsedMailbox * list token) :=
  match phrase ts ≫= consumeSpecial x3a with
  | Some rest => groupList rest
  | None => let* (m, rest) := orFail (mailbox false ts) in Ret ([m], rest)
  end.

Fixpoint addressLoop (fuel : nat) (ts : list token) (mailboxes : list parsedMailbox)
    : outcome unit (list parsedMailbox) :=
  match fuel with
  | O => Crash
  | S fuel =>
      let* (found, rest) := address ts in
      let mailboxes := mailboxes ++ found in
      check require (negb (maxMailboxes <? len mailboxes)) tt ;;
      match rest with
      | [] => Ret mailboxes
      | _ => let* rest := orFail (consumeSpecial x2c rest) in addressLoop fuel rest mailboxes
      end
  end.
Definition addressList (ts : list token) : outcome unit (list parsedMailbox) :=
  addressLoop (S (length ts)) ts [].

Definition asciiString (value : bytes) : bool := forallb (fun b => negb (0x80 <=? bval b)) value.

Section idna.
Variable registration_ToASCII : bytes -> option bytes.

(** Malformed for a failed tokenizer or parser; [Crash] is kept. *)
Definition ParseAuthor (value : bytes) : outcome unit (Author * Status) :=
  if (len value =? 0) || (MaxValueBytes <? len value) || negb (utf8_valid value)
  then Ret (noAuthor, StatusMalformed)
  else
    match tokenize value with
    | Crash => Crash
    | Fail _ | Ret [] => Ret (noAuthor, StatusMalformed)
    | Ret ts =>
        match addressList ts with
        | Crash => Crash
        | Fail _ => Ret (noAuthor, StatusMalformed)
        | Ret [] => Ret (noAuthor, StatusNoMailbox)
        | Ret [parsed] =>
            if literal parsed then Ret (noAuthor, StatusDomainLiteral)
            else
              match ToASCII registration_ToASCII (mb_domain parsed) with
              | None => Ret (noAuthor, StatusInvalidDomain)
              | Some d =>
                  Ret (MkAuthor (local parsed) d (inGroup parsed)
                         (asciiString (local parsed) && asciiString (mb_domain parsed)), StatusSingle)
              end
        | Ret _ => Ret (noAuthor, StatusMultiple)
        end
    end.
End idna.

Definition no_idna : bytes -> option bytes := fun _ => None.
Example ParseAuthor_samples :
  ParseAuthor no_idna (bs "Ann Other (x) <a.b@Example.org>") =
    Ret (MkAuthor (bs "a.b") (bs "example.org") false true, StatusSingle) /\
  ParseAuthor no_idna (bs "team: ann@example.org;") =
    Ret (MkAuthor (bs "ann") (bs "example.org") true true, StatusSingle) /\
  ParseAuthor no_idna (bs "a@b, c@d") = Ret (noAuthor, StatusMultiple) /\
  ParseAuthor no_idna (bs "a@[127.0.0.1]") = Ret (noAuthor, StatusDomainLiteral) /\
  ParseAuthor no_idna (bs "nobody: ;") = Ret (noAuthor, StatusNoMailbox) /\
  ParseAuthor no_idna (bs "a@b,") = Ret (noAuthor, StatusMalformed).
Proof. split_and!; vm_compute; reflexivity. Qed.
