(* ===== verification/MailboxSpec.v ===== *)
(** * The grammar of author address lists

    The lexical grammar (comments, quoted strings, domain literals, atoms) and
    the grammar of address lists over tokens, with the theorems that the
    tokenizer and the parser accept exactly these and return what they denote. *)

From S2P Require Import Prelude GoBytes GoUtf8 DomainName Mailbox.
#[local] Open Scope Z_scope.

(** ** Lexical grammar *)

(** The inside of a comment, where comments nest at most [d] deep. *)
Inductive comment_body : nat -> bytes -> Prop :=
  | comment_nil d : comment_body d []
  | comment_text d b s :
      b <> x5c -> b <> x28 -> b <> x29 -> forbidden b = false -> comment_body d s -> comment_body d (b :: s)
  | comment_pair d c s : quotedPairByte c = true -> comment_body d s -> comment_body d (x5c :: c :: s)
  | comment_nested d s t :
      comment_body d s -> comment_body (S d) t -> comment_body (S d) (x28 :: s ++ x29 :: t).

Inductive quoted_body : bytes -> Prop :=
  | quoted_nil : quoted_body []
  | quoted_text b s : b <> x5c -> b <> x22 -> forbidden b = false -> quoted_body s -> quoted_body (b :: s)
  | quoted_pair c s : quotedPairByte c = true -> quoted_body s -> quoted_body (x5c :: c :: s).

Definition literal_byte (b : byte) : bool :=
  negb (b =?b x5d) && negb (b =?b x5b) && negb (b =?b x5c) && negb (forbidden b).
Definition starts_atext (s : bytes) : bool := if s is b :: _ then isAtext b else false.

(** A value, its tokens and the number of its comments. *)
Inductive lexes : bytes -> list token -> Z -> Prop :=
  | lex_nil : lexes [] [] 0
  | lex_wsp b s ts n : b = x20 \/ b = x09 -> lexes s ts n -> lexes (b :: s) ts n
  | lex_comment c s ts n :
      comment_body 31 c -> lexes s ts n -> lexes (x28 :: c ++ x29 :: s) ts (n + 1)
  | lex_quoted q s ts n :
      quoted_body q -> lexes s ts n -> lexes (x22 :: q ++ x22 :: s) (tokenQuoted (x22 :: q ++ [x22]) :: ts) n
  | lex_literal l s ts n :
      Forall (fun b => literal_byte b = true) l -> lexes s ts n ->
      lexes (x5b :: l ++ x5d :: s) (tokenLiteral (x5b :: l ++ [x5d]) :: ts) n
  | lex_special b s ts n : isSpecial b = true -> lexes s ts n -> lexes (b :: s) (tokenSpecial b :: ts) n
  | lex_atom a s ts n :
      a <> [] -> Forall (fun b => isAtext b = true) a -> starts_atext s = false -> lexes s ts n ->
      lexes (a ++ s) (tokenAtom a :: ts) n.

Lemma lexes_count v ts n : lexes v ts n -> 0 <= n.
Proof. induction 1; lia. Qed.

(** ** Scanners *)
Ltac byte_cases :=
  repeat match goal with
  | |- context [?a =?b ?b] => destruct (byte_eqb_spec a b); [try subst; try done | ]
  end.

Lemma skipComment_body s d rest :
  comment_body d s -> forall depth, 1 <= depth -> depth + Z.of_nat d = maxComments ->
  skipComment (s ++ rest) depth = skipComment rest depth.
Proof.
  intros H. revert rest. induction H as [d | d b s H1 H2 H3 Hf _ IH | d c s Hc _ IH | d s t _ IHs _ IHt];
    intros rest depth Hd Hmax; cbn [app skipComment].
  - done.
  - rewrite !(proj2 (byte_eqb_ne b _)) by done. rewrite Hf. by apply IH.
  - rewrite byte_eqb_refl, Hc. by apply IH.
  - change (x28 =?b x5c) with false. change (x28 =?b x28) with true. cbn match.
    rewrite (proj2 (Z.ltb_ge _ _)) by lia. rewrite <- app_assoc, IHs by lia. cbn [app skipComment].
    change (x29 =?b x5c) with false. change (x29 =?b x28) with false. change (x29 =?b x29) with true. cbn match.
    rewrite (proj2 (Z.eqb_neq _ _)) by lia. replace (depth + 1 - 1) with depth by lia. by apply IHt.
Qed.

Lemma skipComment_inv rest depth r :
  1 <= depth <= maxComments -> skipComment rest depth = Some r ->
  exists s t, rest = s ++ x29 :: t /\ comment_body (Z.to_nat (maxComments - depth)) s /\
    (if depth =? 1 then r = t else skipComment t (depth - 1) = Some r).
Proof.
  remember (length rest) as n eqn:En. revert rest depth r En.
  induction n as [n IH] using lt_wf_ind. intros [|b rest] depth r -> Hd; cbn [skipComment]; [done | ].
  destruct (byte_eqb_spec b x5c) as [-> | N1].
  { destruct rest as [|c rest]; [done | ]. destruct (quotedPairByte c) eqn:Ec; [ | done]. intros H.
    apply (IH (length rest)) in H as (s & t & -> & Hs & Ht); [ | simpl; lia | done | done].
    exists (x5c :: c :: s), t. split_and!; [done | by constructor | done]. }
  destruct (byte_eqb_spec b x28) as [-> | N2].
  { destruct (Z.ltb_spec maxComments (depth + 1)) as [|Hlt]; [done | ]. intros H.
    apply (IH (length rest)) in H as (s & t & -> & Hs & Ht); [ | simpl; lia | done | lia].
    rewrite (proj2 (Z.eqb_neq _ _)) in Ht by lia. replace (depth + 1 - 1) with depth in Ht by lia.
    apply (IH (length t)) in Ht as (s2 & t2 & -> & Hs2 & Ht2); [ | simpl; rewrite length_app; simpl; lia | done | done].
    exists (x28 :: s ++ x29 :: s2), t2. split_and!; [cbn; by rewrite <- app_assoc | | done].
    replace (Z.to_nat (maxComments - depth)) with (S (Z.to_nat (maxComments - (depth + 1)))) in * by lia.
    by constructor. }
  destruct (byte_eqb_spec b x29) as [-> | N3].
  { intros H. exists [], rest. split_and!; [done | constructor | ].
    destruct (Z.eqb_spec (depth - 1) 0), (Z.eqb_spec depth 1); try lia; [by injection H as <- | done]. }
  destruct (forbidden b) eqn:Ef; [done | ]. intros H.
  apply (IH (length rest)) in H as (s & t & -> & Hs & Ht); [ | simpl; lia | done | done].
  exists (b :: s), t. split_and!; [done | by constructor | done].
Qed.
Lemma skipComment_Some rest r :
  skipComment rest 1 = Some r <-> exists c, comment_body 31 c /\ rest = c ++ x29 :: r.
Proof.
  split.
  - intros (s & t & -> & Hs & ->)%skipComment_inv; [ | by vm_compute]. by exists s.
  - intros (c & Hc & ->). rewrite (skipComment_body c 31) by (done || lia). done.
Qed.

Lemma scanQuoted_Some rest text r :
  scanQuoted rest = Some (text, r) <-> exists q, quoted_body q /\ text = q ++ [x22] /\ rest = q ++ x22 :: r.
Proof.
  split.
  - remember (length rest) as n eqn:En. revert rest text r En.
    induction n as [n IH] using lt_wf_ind. intros [|b rest] text r ->; cbn [scanQuoted]; [done | ].
    destruct (byte_eqb_spec b x5c) as [-> | N1].
    { destruct rest as [|c rest]; [done | ]. destruct (quotedPairByte c) eqn:Ec; [ | done].
      destruct (scanQuoted rest) as [[text' r']|] eqn:E; [ | done]. intros [= <- <-].
      apply (IH (length rest)) in E as (q & Hq & -> & ->); [ | simpl; lia | done].
      exists (x5c :: c :: q). by split_and!; [constructor | | ]. }
    destruct (byte_eqb_spec b x22) as [-> | N2]; [intros [= <- <-]; exists []; by split_and!; [constructor | | ] | ].
    destruct (forbidden b) eqn:Ef; [done | ].
    destruct (scanQuoted rest) as [[text' r']|] eqn:E; [ | done]. intros [= <- <-].
    apply (IH (length rest)) in E as (q & Hq & -> & ->); [ | simpl; lia | done].
    exists (b :: q). by split_and!; [constructor | | ].
  - intros (q & Hq & -> & ->). induction Hq as [| b q H1 H2 Hf _ IH | c q Hc _ IH]; cbn [app scanQuoted].
    + done.
    + rewrite !(proj2 (byte_eqb_ne b _)) by done. by rewrite Hf, IH.
    + rewrite byte_eqb_refl, Hc. by rewrite IH.
Qed.
Lemma scanLiteral_Some rest text r :
  scanLiteral rest = Some (text, r) <->
  exists l, Forall (fun b => literal_byte b = true) l /\ text = l ++ [x5d] /\ rest = l ++ x5d :: r.
Proof.
  split.
  - revert text. induction rest as [|b rest IH]; intros text; cbn [scanLiteral]; [done | ].
    destruct (byte_eqb_spec b x5d) as [-> | N1]; [intros [= <- <-]; by exists [] | ].
    destruct (_ || _ || _) eqn:Ef; [done | ]. destruct (scanLiteral rest) as [[text' r']|] eqn:E; [ | done]. intros [= <- <-].
    destruct (IH text' eq_refl) as (l & Hl & -> & ->). exists (b :: l). split_and!; [ | done | done].
    constructor; [ | done]. unfold literal_byte. apply orb_false_iff in Ef as [[-> ->]%orb_false_iff ->].
    by rewrite (proj2 (byte_eqb_ne b x5d)).
  - intros (l & Hl & -> & ->). induction Hl as [|b l Hb _ IH]; cbn [app scanLiteral]; [done | ].
    unfold literal_byte in Hb. apply andb_true_iff in Hb as [[[H1 H2]%andb_true_iff H3]%andb_true_iff H4].
    apply negb_true_iff in H1, H2, H3, H4. rewrite H1, H2, H3, H4. cbn [orb]. by rewrite IH.
Qed.
Lemma scanAtom_spec rest a r :
  scanAtom rest = (a, r) <-> rest = a ++ r /\ Forall (fun b => isAtext b = true) a /\ starts_atext r = false.
Proof.
  revert a. induction rest as [|b rest IH]; intros a; cbn [scanAtom].
  - split; [by intros [= <- <-] | ]. intros (E & _ & _). by destruct a, r.
  - destruct (isAtext b) eqn:Eb.
    + destruct (scanAtom rest) as [a' r'] eqn:E. split.
      * intros [= <- <-]. destruct (proj1 (IH a') eq_refl) as (-> & Ha & Hr). split_and!; [done | by constructor | done].
      * intros (E' & Ha & Hr). destruct a as [|c a]; [cbn in E'; subst r; cbn in Hr; congruence | ].
        injection E' as <- E'. apply Forall_cons in Ha as [_ Ha].
        assert ((a', r') = (a, r)) as [= -> ->] by (apply IH; by split_and!). done.
    + split; [intros [= <- <-]; by split_and! | ]. intros (E' & Ha & Hr).
      destruct a as [|c a]; [by cbn in E'; subst | ]. injection E' as <- _. apply Forall_cons in Ha as [Ha _]. congruence.
Qed.

(** ** The tokenizer *)
Lemma special_facts b :
  isSpecial b = true -> b <> x20 /\ b <> x09 /\ b <> x28 /\ b <> x22 /\ b <> x5b /\ isAtext b = false.
Proof.
  enough (implb (isSpecial b) (negb (b =?b x20) && negb (b =?b x09) && negb (b =?b x28) && negb (b =?b x22)
    && negb (b =?b x5b) && negb (isAtext b)) = true) as H.
  { intros E. rewrite E in H. cbn [implb] in H. repeat (apply andb_true_iff in H as [H ?]).
    repeat match goal with H : negb (_ =?b _) = true |- _ => apply negb_true_iff, byte_eqb_ne in H end.
    by repeat match goal with H : negb _ = true |- _ => apply negb_true_iff in H end. }
  by_bytes b.
Qed.
Lemma atext_facts b :
  isAtext b = true -> b <> x20 /\ b <> x09 /\ b <> x28 /\ b <> x22 /\ b <> x5b /\ isSpecial b = false.
Proof.
  intros Ha. enough (implb (isAtext b) (negb (b =?b x20) && negb (b =?b x09) && negb (b =?b x28) && negb (b =?b x22)
    && negb (b =?b x5b) && negb (isSpecial b)) = true) as H.
  { rewrite Ha in H. cbn [implb] in H. clear Ha. repeat (apply andb_true_iff in H as [H ?]).
    repeat match goal with H : negb (_ =?b _) = true |- _ => apply negb_true_iff, byte_eqb_ne in H end.
    by repeat match goal with H : negb _ = true |- _ => apply negb_true_iff in H end. }
  clear Ha. by_bytes b.
Qed.

Lemma orFail_Ret {A} (o : option A) a : orFail o = Ret a <-> o = Some a.
Proof. destruct o; cbn; split; congruence. Qed.
Lemma orFail_safe {A} (o : option A) : no_crash (orFail o).
Proof. by destruct o. Qed.
#[local] Hint Resolve orFail_safe : go.

Lemma tokenizeLoop_inv fuel v k ts :
  k <= maxComments -> tokenizeLoop fuel v k = Ret ts -> exists n, lexes v ts n /\ k + n <= maxComments.
Proof.
  revert v k ts. induction fuel as [|fuel IH]; intros v k ts Hk; [done | ]. cbn [tokenizeLoop].
  destruct v as [|b v]; [intros [= <-]; exists 0; split; [constructor | lia] | ].
  destruct ((b =?b x20) || (b =?b x09)) eqn:Ew.
  { intros (n & Hn & Hl)%IH; [ | done]. exists n. split; [ | done]. constructor; [ | done].
    by apply orb_true_iff in Ew as [?%byte_eqb_eq | ?%byte_eqb_eq]; auto. }
  destruct (byte_eqb_spec b x28) as [-> | N1].
  { intros (r & (c & Hc & ->)%orFail_Ret%skipComment_Some & H)%obind_ret_inv.
    apply obind_ret_inv in H as (? & Hm%require_ret_inv%negb_true_iff%Z.ltb_ge & H).
    apply IH in H as (n & Hn & Hl); [ | done]. exists (n + 1). split; [by constructor | lia]. }
  destruct (byte_eqb_spec b x22) as [-> | N2].
  { intros ([text r] & (q & Hq & -> & ->)%orFail_Ret%scanQuoted_Some & H)%obind_ret_inv.
    apply obind_ret_inv in H as (ts' & (n & Hn & Hl)%IH & [= <-]); [ | done]. exists n. split; [by constructor | done]. }
  destruct (byte_eqb_spec b x5b) as [-> | N3].
  { intros ([text r] & (l & Hq & -> & ->)%orFail_Ret%scanLiteral_Some & H)%obind_ret_inv.
    apply obind_ret_inv in H as (ts' & (n & Hn & Hl)%IH & [= <-]); [ | done]. exists n. split; [by constructor | done]. }
  destruct (isSpecial b) eqn:Es.
  { intros (ts' & (n & Hn & Hl)%IH & [= <-])%obind_ret_inv; [ | done]. exists n. split; [by constructor | done]. }
  destruct (isAtext b) eqn:Ea; [ | done].
  destruct (scanAtom (b :: v)) as [a r] eqn:Esc. intros (ts' & (n & Hn & Hl)%IH & [= <-])%obind_ret_inv; [ | done].
  apply scanAtom_spec in Esc as (E & Ha & Hr). exists n. split; [ | done]. rewrite E. constructor; try done.
  intros ->. cbn in E. subst r. cbn in Hr. congruence.
Qed.

Lemma tokenizeLoop_ok fuel v k ts n :
  lexes v ts n -> (length v < fuel)%nat -> 0 <= k -> k + n <= maxComments -> tokenizeLoop fuel v k = Ret ts.
Proof.
  intros H. revert fuel k. induction H as [| b s ts n Hb _ IH | c s ts n Hc Hs IH | q s ts n Hq _ IH | l s ts n Hl _ IH
    | b s ts n Hb _ IH | a s ts n Hne Ha Hr _ IH]; intros [|fuel] k Hf Hk Hn; try lia; cbn [tokenizeLoop].
  - done.
  - assert ((b =?b x20) || (b =?b x09) = true) as -> by (by destruct Hb as [-> | ->]). apply IH; simpl in *; lia.
  - change ((x28 =?b x20) || (x28 =?b x09)) with false. rewrite byte_eqb_refl.
    rewrite (proj2 (skipComment_Some _ s)) by eauto. cbn [orFail obind]. pose proof (lexes_count _ _ _ Hs).
    rewrite (proj2 (Z.ltb_ge _ _)) by lia. cbn [negb require obind].
    apply IH; [simpl in Hf; rewrite length_app in Hf; simpl in Hf; lia | lia | lia].
  - change ((x22 =?b x20) || (x22 =?b x09)) with false. change (x22 =?b x28) with false. rewrite byte_eqb_refl.
    rewrite (proj2 (scanQuoted_Some _ (q ++ [x22]) s)) by eauto. cbn [orFail obind].
    rewrite IH; [done | simpl in Hf; rewrite length_app in Hf; simpl in Hf; lia | lia | lia].
  - change ((x5b =?b x20) || (x5b =?b x09)) with false. change (x5b =?b x28) with false. change (x5b =?b x22) with false.
    rewrite byte_eqb_refl. rewrite (proj2 (scanLiteral_Some _ (l ++ [x5d]) s)) by eauto. cbn [orFail obind].
    rewrite IH; [done | simpl in Hf; rewrite length_app in Hf; simpl in Hf; lia | lia | lia].
  - apply special_facts in Hb as Hb'. destruct Hb' as (H1 & H2 & H3 & H4 & H5 & _).
    rewrite !(proj2 (byte_eqb_ne b _)) by done. cbn [orb]. rewrite Hb. rewrite IH; [done | simpl in *; lia | lia | lia].
  - destruct a as [|b a]; [done | ]. apply Forall_cons in Ha as Ha'. destruct Ha' as [Hb _].
    apply atext_facts in Hb as Hb'. destruct Hb' as (H1 & H2 & H3 & H4 & H5 & H6). cbn [app].
    rewrite !(proj2 (byte_eqb_ne b _)) by done. cbn [orb]. rewrite H6, Hb.
    rewrite (proj2 (scanAtom_spec (b :: a ++ s) (b :: a) s)) by done.
    rewrite IH; [done | simpl in Hf; rewrite length_app in Hf; lia | lia | lia].
Qed.

Lemma tokenizeLoop_safe fuel v k : (length v < fuel)%nat -> no_crash (tokenizeLoop fuel v k).
Proof.
  revert v k. induction fuel as [|fuel IH]; intros v k Hf; [lia | ]. cbn [tokenizeLoop].
  destruct v as [|b v]; [done | ]. simpl in Hf. crash_free.
  - apply IH. lia.
  - apply IH. match goal with H : orFail _ = Ret _ |- _ => apply orFail_Ret, skipComment_Some in H as (c & _ & ->) end.
    rewrite length_app in Hf. simpl in Hf. lia.
  - apply IH. match goal with H : orFail _ = Ret _ |- _ => apply orFail_Ret, scanQuoted_Some in H as (c & _ & _ & ->) end.
    rewrite length_app in Hf. simpl in Hf. lia.
  - apply IH. match goal with H : orFail _ = Ret _ |- _ => apply orFail_Ret, scanLiteral_Some in H as (c & _ & _ & ->) end.
    rewrite length_app in Hf. simpl in Hf. lia.
  - apply IH. lia.
  - apply IH. match goal with H : scanAtom _ = (?a, ?r) |- _ =>
      apply scanAtom_spec in H as (E & _ & Hr); destruct a as [|c a]; [cbn in E; subst r; cbn in Hr; congruence | ] end.
    apply (f_equal length) in E. simpl in E. rewrite length_app in E. lia.
Qed.

Lemma tokenize_Ret v ts : tokenize v = Ret ts <-> exists n, lexes v ts n /\ n <= maxComments.
Proof.
  unfold tokenize. split.
  - intros (n & Hn & Hl)%tokenizeLoop_inv; [ | done]. by exists n.
  - intros (n & Hn & Hl). eapply tokenizeLoop_ok; [done | lia | lia | lia].
Qed.
Lemma tokenize_safe v : no_crash (tokenize v).
Proof. apply tokenizeLoop_safe. lia. Qed.

(** ** Grammar of address lists over tokens *)
Definition is_word (t : token) : bool := match t with tokenAtom _ | tokenQuoted _ => true | _ => false end.
Definition is_phrase_token (t : token) : bool := is_word t || bool_decide (t = tokenSpecial x2e).
Definition phrase_text (ts : list token) : Prop :=
  exists w rest, ts = w :: rest /\ is_word w = true /\ Forall (fun t => is_phrase_token t = true) rest.

Definition word_text (quoted : bool) (t : token) : option bytes :=
  match t with tokenAtom w => Some w | tokenQuoted w => if quoted then Some w else None | _ => None end.
(** Words separated by dots, and the text they stand for. *)
Inductive dot_words (quoted : bool) : list token -> bytes -> Prop :=
  | dot_one t w : word_text quoted t = Some w -> dot_words quoted [t] w
  | dot_more t w ts s :
      word_text quoted t = Some w -> dot_words quoted ts s ->
      dot_words quoted (t :: tokenSpecial x2e :: ts) (w ++ x2e :: s).

Definition addr_spec (ts : list token) (m : parsedMailbox) : Prop :=
  inGroup m = false /\ exists l, dot_words true l (local m) /\
    if literal m then ts = l ++ [tokenSpecial x40; tokenLiteral (mb_domain m)]
    else exists d, dot_words false d (mb_domain m) /\ ts = l ++ tokenSpecial x40 :: d.
Definition mailbox_text (group : bool) (ts : list token) (m : parsedMailbox) : Prop :=
  exists m', m = set_group group m' /\
    (addr_spec ts m' \/
     exists p a, (p = [] \/ phrase_text p) /\ addr_spec a m' /\
       ts = p ++ tokenSpecial x3c :: a ++ [tokenSpecial x3e]).

(** Elements separated by commas. *)
Inductive sep_list {A} (P : list token -> A -> Prop) : list token -> list A -> Prop :=
  | sep_one ts a : P ts a -> sep_list P ts [a]
  | sep_more ts a rest l : P ts a -> sep_list P rest l -> sep_list P (ts ++ tokenSpecial x2c :: rest) (a :: l).

Definition group_text (ts : list token) (ms : list parsedMailbox) : Prop :=
  exists p, phrase_text p /\
    (ts = p ++ [tokenSpecial x3a; tokenSpecial x3b] /\ ms = [] \/
     exists l, sep_list (mailbox_text true) l ms /\ ts = p ++ tokenSpecial x3a :: l ++ [tokenSpecial x3b]).
Definition address_text (ts : list token) (ms : list parsedMailbox) : Prop :=
  (exists m, mailbox_text false ts m /\ ms = [m]) \/ group_text ts ms.
Definition address_list (ts : list token) (ms : list parsedMailbox) : Prop :=
  exists mss, sep_list address_text ts mss /\ ms = concat mss.

(** ** Phrases and dotted words *)
Definition stops (rest : list token) : Prop := match rest with t :: _ => is_phrase_token t = false | [] => True end.
Definition no_dot (rest : list token) : Prop := match rest with tokenSpecial b :: _ => b <> x2e | _ => True end.

Lemma moreWords_app p rest :
  Forall (fun t => is_phrase_token t = true) p -> stops rest -> moreWords (p ++ rest) = rest.
Proof.
  intros Hp Hr. induction Hp as [|t p Ht _ IH]; cbn [app].
  - destruct rest as [|[w | w | w | b] rest]; try done. cbn in *. case_byte; [ | done].
    by rewrite bool_decide_eq_true_2 in Hr.
  - destruct t as [w | w | w | b]; try done; cbn [moreWords].
    unfold is_phrase_token in Ht. cbn in Ht. apply bool_decide_eq_true in Ht as [= ->]. by rewrite byte_eqb_refl.
Qed.
Lemma moreWords_inv ts :
  exists p, ts = p ++ moreWords ts /\ Forall (fun t => is_phrase_token t = true) p /\ stops (moreWords ts).
Proof.
  induction ts as [|t ts (p & E & Hp & Hs)]; [by exists [] | ].
  destruct t as [w | w | w | b]; cbn [moreWords].
  - exists (tokenAtom w :: p). split_and!; [cbn; by f_equal | by constructor | done].
  - exists (tokenQuoted w :: p). split_and!; [cbn; by f_equal | by constructor | done].
  - by exists [].
  - destruct (byte_eqb_spec b x2e) as [-> | Hb].
    + exists (tokenSpecial x2e :: p). split_and!; [cbn; by f_equal | by constructor | done].
    + exists []. split_and!; [done | constructor | ]. cbn. rewrite bool_decide_eq_false_2; congruence.
Qed.
Lemma phrase_app p rest : phrase_text p -> stops rest -> phrase (p ++ rest) = Some rest.
Proof.
  intros (w & r & -> & Hw & Hr) Hs. unfold phrase. destruct w; try done; cbn; by rewrite moreWords_app.
Qed.
Lemma phrase_inv ts rest : phrase ts = Some rest -> exists p, phrase_text p /\ ts = p ++ rest /\ stops rest.
Proof.
  unfold phrase. destruct ts as [|[w | w | w | b] ts]; try done; cbn; intros [= <-];
    destruct (moreWords_inv ts) as (p & E & Hp & Hs); eexists (_ :: p); cbn; rewrite <- E;
    (split_and!; [ | done | done]); by eexists _, p.
Qed.
Lemma phrase_None ts : phrase ts = None <-> match ts with t :: _ => is_word t = false | [] => True end.
Proof. unfold phrase. destruct ts as [|[w | w | w | b] ts]; by cbn. Qed.

Lemma dotWords_app q l s text rest :
  dot_words q l s -> no_dot rest ->
  match l with
  | t :: l' => exists w s', word_text q t = Some w /\ s = w ++ s' /\ dotWords q text (l' ++ rest) = Some (text ++ s', rest)
  | [] => False
  end.
Proof.
  intros H Hr. revert text. induction H as [t w Hw | t w ts s Hw Hts IH]; intros text.
  - exists w, []. rewrite app_nil_r. split_and!; [done | done | ]. rewrite app_nil_r.
    destruct rest as [|[? | ? | ? | b] rest]; try done. cbn in *. by rewrite (proj2 (byte_eqb_ne b x2e)).
  - exists w, (x2e :: s). split_and!; [done | done | ]. cbn [app dotWords]. rewrite byte_eqb_refl.
    destruct ts as [|t' ts]; [by destruct (IH text) | ]. 
    destruct (IH (text ++ x2e :: match word_text q t' with Some w => w | None => [] end)) as (w' & s' & Hw' & -> & E).
    rewrite Hw' in E. cbn [app]. destruct t' as [w2 | w2 | w2 | b]; try done; cbn in Hw'.
    + injection Hw' as ->. rewrite E. by rewrite <- app_assoc.
    + destruct q; [ | done]. injection Hw' as ->. rewrite E. by rewrite <- app_assoc.
Qed.
Lemma dotWords_inv q text ts r rest :
  dotWords q text ts = Some (r, rest) ->
  no_dot rest /\
  (rest = ts /\ r = text \/ exists l s, dot_words q l s /\ ts = tokenSpecial x2e :: l ++ rest /\ r = text ++ x2e :: s).
Proof.
  remember (length ts) as n eqn:En. revert text ts r rest En.
  induction n as [n IH] using lt_wf_ind. intros text ts r rest -> H.
  destruct ts as [|[w | w | w | b] ts]; cbn [dotWords] in H; try (injection H as <- <-; by split; [ | left]).
  destruct (byte_eqb_spec b x2e) as [-> | Hb]; [ | injection H as <- <-; by split; [ | left]].
  assert (exists t w ts', ts = t :: ts' /\ word_text q t = Some w /\ dotWords q (text ++ x2e :: w) ts' = Some (r, rest))
    as (t & w & ts' & -> & Hw & H').
  { destruct ts as [|[w | w | w | b] ts]; try done; [by eexists _, w, ts | ]. destruct q; [ | done]. by eexists _, w, ts. }
  apply (IH (length ts')) in H' as [Hn H']; [ | simpl; lia | done]. split; [done | right].
  destruct H' as [[-> ->] | (l & s & Hl & -> & ->)].
  - exists [t], w. split_and!; [by constructor | done | done].
  - exists (t :: tokenSpecial x2e :: l), (w ++ x2e :: s). split_and!; [by constructor | done | ]. by rewrite <- app_assoc.
Qed.

(** ** Local parts, domains and mailboxes *)
Definition startWords (q : bool) (ts : list token) : option (bytes * list token) :=
  match ts with t :: rest => w ← word_text q t; dotWords q w rest | [] => None end.
Lemma localPart_start ts : localPart ts = startWords true ts.
Proof. by destruct ts as [|[] ?]. Qed.
Lemma dotAtoms_start ts : dotAtoms ts = startWords false ts.
Proof. by destruct ts as [|[] ?]. Qed.

Lemma startWords_iff q ts s rest :
  startWords q ts = Some (s, rest) <-> exists l, ts = l ++ rest /\ dot_words q l s /\ no_dot rest.
Proof.
  split.
  - destruct ts as [|t ts]; [done | ]. cbn. destruct (word_text q t) as [w | ] eqn:Ew; [ | done]. cbn.
    intros [Hn [[-> ->] | (l & s' & Hl & -> & ->)]]%dotWords_inv.
    + exists [t]. split_and!; [done | by constructor | done].
    + exists (t :: tokenSpecial x2e :: l). split_and!; [done | by constructor | done].
  - intros (l & -> & Hl & Hn). inversion Hl as [t w Hw E1 E2 | t w l' s' Hw Hl' E1 E2]; subst; cbn; rewrite Hw; cbn.
    + destruct (dotWords_app q _ _ s rest Hl Hn) as (w & s' & Hw' & E & H). rewrite Hw in Hw'. injection Hw' as <-.
      assert (s' = []) as -> by (apply (f_equal length) in E; rewrite length_app in E; destruct s'; simpl in *; lia || done).
      cbn in H. rewrite app_nil_r in H. done.
    + destruct (dotWords_app q _ _ w rest Hl Hn) as (w' & s2 & Hw' & E & H). rewrite Hw in Hw'. injection Hw' as <-.
      apply app_inv_head in E as <-. exact H.
Qed.

Lemma dot_words_phrase q l s : dot_words q l s -> phrase_text l.
Proof.
  intros H.
  assert (forall t w, word_text q t = Some w -> is_word t = true) as Hw by (by intros [] ? ?).
  induction H as [t w Ht | t w ts s Ht _ (v & rest & -> & Hv & Hrest)].
  - exists t, []. split_and!; [done | by eapply Hw | constructor].
  - eexists t, _. split_and!; [done | by eapply Hw | ]. repeat constructor; [ | done].
    unfold is_phrase_token. by rewrite Hv.
Qed.

Lemma consumeSpecial_Some b ts rest : consumeSpecial b ts = Some rest <-> ts = tokenSpecial b :: rest.
Proof.
  destruct ts as [|[w | w | w | c] ts]; cbn; try (split; congruence).
  destruct (byte_eqb_spec c b) as [-> | H]; split; congruence.
Qed.

Lemma addrSpec_iff ts m rest :
  addrSpec ts = Some (m, rest) <-> exists a, ts = a ++ rest /\ addr_spec a m /\ (literal m = true \/ no_dot rest).
Proof.
  unfold addrSpec, addr_spec. rewrite localPart_start. split.
  - intros ([loc r] & (l & -> & Hl & _)%startWords_iff & H)%bind_Some.
    apply bind_Some in H as (r' & ->%consumeSpecial_Some & H).
    assert ((exists text, r' = tokenLiteral text :: rest /\ m = MkMailbox loc text true false) \/
            exists dom, startWords false r' = Some (dom, rest) /\ m = MkMailbox loc dom false false)
      as [(text & -> & ->) | (dom & (d & -> & Hd & Hn)%startWords_iff & ->)].
    { destruct r' as [|[w | w | w | b] r']; rewrite ?dotAtoms_start in H;
        try (apply bind_Some in H as ([dom r2] & Hd & [= <- <-]); right; exists dom; by split).
      injection H as <- <-. left. by eexists. }
    + exists (l ++ [tokenSpecial x40; tokenLiteral text]). rewrite <- app_assoc. split_and!; [done | done | by exists l | by left].
    + exists (l ++ tokenSpecial x40 :: d). rewrite <- app_assoc. split_and!; [done | done | | by right].
      exists l. split; [done | ]. by exists d.
  - intros (a & -> & [Hg (l & Hl & H)] & Hn). destruct m as [loc dom lit g]. cbn in *. subst g. destruct lit.
    + subst a. rewrite <- app_assoc. rewrite (proj2 (startWords_iff true _ loc ([tokenSpecial x40; tokenLiteral dom] ++ rest))) by (exists l; by split_and!). done.
    + destruct H as (d & Hd & ->). destruct Hn as [Hn | Hn]; [done | ]. rewrite <- app_assoc.
      rewrite (proj2 (startWords_iff true _ loc ((tokenSpecial x40 :: d) ++ rest))) by (exists l; by split_and!). cbn.
      rewrite dotAtoms_start, (proj2 (startWords_iff false (d ++ rest) dom rest)) by (exists d; by split_and!).
      cbn. by inversion Hd as [[] ? ? | [] ? ? ? ? ?]; subst.
Qed.

(** A mailbox never begins with a display name and a colon. *)
Lemma addr_spec_phrase a m rest :
  addr_spec a m -> exists r, phrase (a ++ rest) = Some (tokenSpecial x40 :: r).
Proof.
  intros [_ (l & Hl & H)]. apply dot_words_phrase in Hl.
  assert (exists r, a ++ rest = l ++ tokenSpecial x40 :: r) as [r ->].
  { destruct (literal m); [subst a | destruct H as (d & _ & ->)]; rewrite <- app_assoc; by eexists. }
  exists r. by apply phrase_app.
Qed.
Lemma angle_phrase p r :
  p = [] \/ phrase_text p ->
  default (p ++ tokenSpecial x3c :: r) (phrase (p ++ tokenSpecial x3c :: r)) = tokenSpecial x3c :: r /\
  phrase (p ++ tokenSpecial x3c :: r) ≫= consumeSpecial x3a = None.
Proof. intros [-> | H]; [done | ]. by rewrite phrase_app. Qed.

Lemma mailbox_sound g ts m rest :
  mailbox g ts = Some (m, rest) -> exists a, ts = a ++ rest /\ mailbox_text g a m.
Proof.
  unfold mailbox. destruct (consumeSpecial x3c _) as [r | ] eqn:E.
  - apply consumeSpecial_Some in E.
    intros ([m' r'] & (a & -> & Ha & _)%addrSpec_iff & H)%bind_Some.
    apply bind_Some in H as (r2 & ->%consumeSpecial_Some & [= <- <-]).
    assert (exists p, (p = [] \/ phrase_text p) /\ ts = p ++ tokenSpecial x3c :: a ++ tokenSpecial x3e :: r2)
      as (p & Hp & ->).
    { destruct (phrase ts) as [r | ] eqn:Ep; cbn in E; [ | exists []; by split; [left | ]].
      apply phrase_inv in Ep as (p & Hp & -> & _). exists p. split; [by right | by rewrite E]. }
    exists (p ++ tokenSpecial x3c :: a ++ [tokenSpecial x3e]). split; [by rewrite <- !app_assoc; cbn; rewrite <- app_assoc | ].
    exists m'. split; [done | ]. right. by exists p, a.
  - intros ([m' r] & (a & -> & Ha & _)%addrSpec_iff & [= <- <-])%bind_Some. exists a. split; [done | ].
    exists m'. split; [done | by left].
Qed.
Lemma mailbox_complete g a m rest : mailbox_text g a m -> no_dot rest -> mailbox g (a ++ rest) = Some (m, rest).
Proof.
  intros (m' & -> & [Ha | (p & a' & Hp & Ha & ->)]) Hn; unfold mailbox.
  - destruct (addr_spec_phrase a m' rest Ha) as [r ->]. cbn [default consumeSpecial].
    change (x40 =?b x3c) with false. cbn match.
    rewrite (proj2 (addrSpec_iff (a ++ rest) m' rest)) by (exists a; split_and!; auto). done.
  - replace ((p ++ tokenSpecial x3c :: a' ++ [tokenSpecial x3e]) ++ rest)
      with (p ++ tokenSpecial x3c :: a' ++ tokenSpecial x3e :: rest) by (by rewrite <- !app_assoc; cbn; rewrite <- app_assoc).
    destruct (angle_phrase p (a' ++ tokenSpecial x3e :: rest) Hp) as [-> _]. cbn [consumeSpecial].
    rewrite byte_eqb_refl. rewrite (proj2 (addrSpec_iff _ m' (tokenSpecial x3e :: rest))) by (exists a'; split_and!; auto; by right).
    done.
Qed.
Lemma mailbox_text_no_group g a m rest : mailbox_text g a m -> phrase (a ++ rest) ≫= consumeSpecial x3a = None.
Proof.
  intros (m' & -> & [Ha | (p & a' & Hp & Ha & ->)]).
  - by destruct (addr_spec_phrase a m' rest Ha) as [r ->].
  - rewrite <- app_assoc. by apply angle_phrase.
Qed.
Lemma addr_spec_nonempty a m : addr_spec a m -> a <> [].
Proof. intros [_ (l & _ & H)]. destruct (literal m); [ | destruct H as (d & _ & H)]; destruct l; by subst. Qed.
Lemma mailbox_text_nonempty g a m : mailbox_text g a m -> (0 < length a)%nat.
Proof.
  intros (m' & -> & [Ha%addr_spec_nonempty | (p & a' & Hp & Ha & ->)]).
  - destruct a; [done | simpl; lia].
  - rewrite length_app. simpl. lia.
Qed.

(** ** Groups and lists *)
Lemma groupLoop_sound fuel ts acc ms rest :
  groupLoop fuel ts acc = Ret (ms, rest) ->
  exists l new, sep_list (mailbox_text true) l new /\ ts = l ++ tokenSpecial x3b :: rest /\ ms = acc ++ new /\
    len ms <= maxMailboxes.
Proof.
  revert ts acc. induction fuel as [|fuel IH]; intros ts acc; [done | ]. cbn [groupLoop].
  intros ([m r] & (a & -> & Ha)%orFail_Ret%mailbox_sound & H)%obind_ret_inv.
  apply obind_ret_inv in H as (? & Hm%require_ret_inv%negb_true_iff%Z.ltb_ge & H).
  destruct (consumeSpecial x3b r) as [r' | ] eqn:E.
  - apply consumeSpecial_Some in E as ->. injection H as <- <-. exists a, [m]. split_and!; [by constructor | done | done | done].
  - apply obind_ret_inv in H as (r2 & ->%orFail_Ret%consumeSpecial_Some & (l & new & Hl & -> & -> & Hlen)%IH).
    exists (a ++ tokenSpecial x2c :: l), (m :: new). rewrite <- app_assoc in Hlen. rewrite <- !app_assoc.
    split_and!; [by constructor | done | done | done].
Qed.
Lemma groupLoop_complete fuel l new acc rest :
  sep_list (mailbox_text true) l new -> (length (l ++ tokenSpecial x3b :: rest) < fuel)%nat ->
  len (acc ++ new) <= maxMailboxes ->
  groupLoop fuel (l ++ tokenSpecial x3b :: rest) acc = Ret (acc ++ new, rest).
Proof.
  intros H. revert fuel acc. induction H as [a m Ha | a m l new Ha Hl IH]; intros [|fuel] acc Hf Hm; try lia; cbn [groupLoop].
  - rewrite (mailbox_complete true a m) by done. cbn [orFail obind]. rewrite (proj2 (Z.ltb_ge _ _)) by done. done.
  - replace ((a ++ tokenSpecial x2c :: l) ++ tokenSpecial x3b :: rest)
      with (a ++ tokenSpecial x2c :: l ++ tokenSpecial x3b :: rest) in * by (by rewrite <- app_assoc).
    rewrite (mailbox_complete true a m) by done. cbn [orFail obind].
    rewrite (proj2 (Z.ltb_ge _ _)) by (rewrite len_app in *; unfold len in *; simpl in *; lia).
    cbn [negb require obind consumeSpecial]. change (x2c =?b x3b) with false. rewrite byte_eqb_refl. cbn match. cbn [orFail obind].
    rewrite IH; [by rewrite <- app_assoc | | by rewrite <- app_assoc].
    rewrite length_app in Hf. simpl in Hf. lia.
Qed.
Lemma groupLoop_safe fuel ts acc : (length ts < fuel)%nat -> no_crash (groupLoop fuel ts acc).
Proof.
  revert ts acc. induction fuel as [|fuel IH]; intros ts acc Hf; [lia | ]. cbn [groupLoop]. crash_free.
  apply IH. match goal with
  | H1 : orFail (mailbox _ _) = Ret _, H2 : orFail (consumeSpecial _ _) = Ret _ |- _ =>
      apply orFail_Ret, consumeSpecial_Some in H2; subst;
      apply orFail_Ret, mailbox_sound in H1 as (a & -> & Ha%mailbox_text_nonempty)
  end.
  rewrite length_app in Hf. simpl in Hf. lia.
Qed.

Lemma address_sound ts ms rest :
  address ts = Ret (ms, rest) -> exists a, ts = a ++ rest /\ address_text a ms /\ len ms <= maxMailboxes.
Proof.
  unfold address, groupList. destruct (phrase ts ≫= consumeSpecial x3a) as [r | ] eqn:E.
  - apply bind_Some in E as (r' & (p & Hp & -> & _)%phrase_inv & ->%consumeSpecial_Some).
    destruct (consumeSpecial x3b r) as [r' | ] eqn:E.
    + apply consumeSpecial_Some in E as ->. intros [= <- <-].
      exists (p ++ [tokenSpecial x3a; tokenSpecial x3b]). rewrite <- app_assoc. split_and!; [done | | done].
      right. exists p. split; [done | by left].
    + intros (l & new & Hl & -> & -> & Hlen)%groupLoop_sound.
      exists (p ++ tokenSpecial x3a :: l ++ [tokenSpecial x3b]). rewrite <- !app_assoc. cbn. rewrite <- app_assoc.
      split_and!; [done | | done]. right. exists p. split; [done | right]. by exists l.
  - intros ([m r] & (a & -> & Ha)%orFail_Ret%mailbox_sound & [= <- <-])%obind_ret_inv.
    exists a. split_and!; [done | | done]. left. by exists m.
Qed.
Lemma sep_group_head l new rest :
  sep_list (mailbox_text true) l new -> consumeSpecial x3b (l ++ rest) = None.
Proof.
  assert (forall a m r, mailbox_text true a m -> consumeSpecial x3b (a ++ r) = None) as Hh.
  { intros a m r (m' & -> & [[_ (l' & Hl & H)] | (p & a' & Hp & _ & ->)]).
    - apply dot_words_phrase in Hl as (w & x & -> & Hw & _).
      destruct (literal m'); [ | destruct H as (d & _ & H)]; subst a; by destruct w.
    - destruct Hp as [-> | (w & x & -> & Hw & _)]; [done | by destruct w]. }
  intros H. destruct H; [by eapply Hh | ]. rewrite <- app_assoc. by eapply Hh.
Qed.
Lemma address_complete a ms rest :
  address_text a ms -> no_dot rest -> len ms <= maxMailboxes -> address (a ++ rest) = Ret (ms, rest).
Proof.
  unfold address, groupList. intros [(m & Hm & ->) | (p & Hp & [[-> ->] | (l & Hl & ->)])] Hn Hlen.
  - rewrite (mailbox_text_no_group _ _ _ _ Hm), (mailbox_complete _ _ _ _ Hm Hn). done.
  - rewrite <- app_assoc, phrase_app by done. cbn. done.
  - rewrite <- app_assoc, phrase_app by done. cbn [app mbind option_bind consumeSpecial]. rewrite byte_eqb_refl.
    rewrite <- app_assoc. rewrite (sep_group_head _ _ _ Hl). cbn [app].
    by rewrite (groupLoop_complete _ l ms []) by (done || lia).
Qed.
Lemma address_safe ts : no_crash (address ts).
Proof. unfold address, groupList. crash_free. apply groupLoop_safe. lia. Qed.
Lemma address_text_nonempty a ms : address_text a ms -> (0 < length a)%nat.
Proof.
  intros [(m & Hm%mailbox_text_nonempty & _) | (p & (w & r & -> & _) & [[-> _] | (l & _ & ->)])]; simpl; lia.
Qed.

Lemma addressLoop_iff fuel ts acc ms :
  (length ts < fuel)%nat ->
  addressLoop fuel ts acc = Ret ms <->
  exists mss, sep_list address_text ts mss /\ ms = acc ++ concat mss /\ len ms <= maxMailboxes.
Proof.
  intros Hf. split.
  - clear Hf. revert ts acc. induction fuel as [|fuel IH]; intros ts acc; [done | ]. cbn [addressLoop].
    intros ([found r] & (a & -> & Ha & _)%address_sound & H)%obind_ret_inv.
    apply obind_ret_inv in H as (? & Hm%require_ret_inv%negb_true_iff%Z.ltb_ge & H).
    destruct r as [|t r].
    + injection H as <-. exists [found]. rewrite app_nil_r. split_and!; [by constructor | cbn; by rewrite app_nil_r | done].
    + apply obind_ret_inv in H as (r' & ->%orFail_Ret%consumeSpecial_Some & (mss & Hs & -> & Hlen)%IH).
      exists (found :: mss). split_and!; [by constructor | by rewrite <- app_assoc | done].
  - intros (mss & H & -> & Hm). revert fuel acc Hf Hm.
    induction H as [a ms Ha | a ms l mss Ha Hl IH]; intros [|fuel] acc Hf Hm; try lia; cbn [addressLoop].
    + cbn in Hm |- *. rewrite app_nil_r in Hm |- *. rewrite <- (app_nil_r a) at 1.
      rewrite (address_complete a ms []) by (done || rewrite len_app in Hm; unfold len in *; lia).
      cbn [obind]. rewrite (proj2 (Z.ltb_ge _ _)) by done. done.
    + cbn [concat] in *. rewrite (address_complete a ms) by (done || rewrite !len_app in Hm; unfold len in *; lia).
      cbn [obind]. rewrite (proj2 (Z.ltb_ge _ _)) by (rewrite !len_app in *; unfold len in *; lia).
      cbn [negb require obind consumeSpecial]. rewrite byte_eqb_refl. cbn [orFail obind].
      rewrite IH; [by rewrite <- app_assoc | | by rewrite <- app_assoc].
      apply address_text_nonempty in Ha. rewrite length_app in Hf. simpl in Hf. lia.
Qed.
Lemma addressLoop_safe fuel ts acc : (length ts < fuel)%nat -> no_crash (addressLoop fuel ts acc).
Proof.
  revert ts acc. induction fuel as [|fuel IH]; intros ts acc Hf; [lia | ]. cbn [addressLoop].
  crash_free; [apply address_safe | ].
  apply IH. match goal with
  | H1 : address _ = Ret _, H2 : orFail (consumeSpecial _ _) = Ret _ |- _ =>
      apply orFail_Ret, consumeSpecial_Some in H2; simplify_eq;
      apply address_sound in H1 as (a & -> & Ha%address_text_nonempty & _)
  end.
  rewrite length_app in Hf. simpl in Hf. lia.
Qed.

(** ** Author lists *)
Lemma addressList_iff ts ms : addressList ts = Ret ms <-> address_list ts ms /\ len ms <= maxMailboxes.
Proof.
  unfold addressList, address_list. rewrite addressLoop_iff by lia. split.
  - intros (mss & H & -> & Hm). split; [by exists mss | done].
  - intros [(mss & H & ->) Hm]. by exists mss.
Qed.
Lemma address_list_nonempty ts ms : address_list ts ms -> ts <> [].
Proof.
  intros (mss & H & _). destruct H as [a ? Ha | a]; [ | by destruct a].
  apply address_text_nonempty in Ha. intros ->. simpl in Ha. lia.
Qed.

(** A value that is an address list of the mailboxes [ms]. *)
Definition author_list (value : bytes) (ms : list parsedMailbox) : Prop :=
  1 <= len value <= MaxValueBytes /\ utf8_valid value = true /\
  exists ts n, lexes value ts n /\ n <= maxComments /\ address_list ts ms /\ len ms <= maxMailboxes.
(** The single author of a list of mailboxes, when there is one. *)
Definition author_of (registration : bytes -> option bytes) (ms : list parsedMailbox) : Author * Status :=
  match ms with
  | [] => (noAuthor, StatusNoMailbox)
  | [m] =>
      if literal m then (noAuthor, StatusDomainLiteral)
      else from_option (fun d => (MkAuthor (local m) d (inGroup m)
                                    (asciiString (local m) && asciiString (mb_domain m)), StatusSingle))
             (noAuthor, StatusInvalidDomain) (ToASCII registration (mb_domain m))
  | _ => (noAuthor, StatusMultiple)
  end.

Lemma ParseAuthor_cases registration value :
  (exists ms, author_list value ms /\ ParseAuthor registration value = Ret (author_of registration ms)) \/
  (~ (exists ms, author_list value ms) /\ ParseAuthor registration value = Ret (noAuthor, StatusMalformed)).
Proof.
  unfold ParseAuthor, author_list. pose proof (len_nonneg value).
  destruct ((len value =? 0) || (MaxValueBytes <? len value) || negb (utf8_valid value)) eqn:Eb.
  { right. split; [ | done]. intros (ms & [H1 H2] & Hu & _). rewrite Hu, orb_false_r in Eb.
    apply orb_true_iff in Eb as [?%Z.eqb_eq | ?%Z.ltb_lt]; lia. }
  apply orb_false_iff in Eb as [[H1%Z.eqb_neq H2%Z.ltb_ge]%orb_false_iff H3%negb_false_iff].
  pose proof (tokenize_safe value) as Hts. destruct (tokenize value) as [ts | [] | ] eqn:Et; [ | | done].
  2: { right. split; [ | done]. intros (ms & _ & _ & ts & n & Hl & Hn & _).
       assert (tokenize value = Ret ts) by (apply tokenize_Ret; by exists n). congruence. }
  assert (forall ts', tokenize value = Ret ts' -> ts' = ts) as Hdet by congruence.
  pose proof (addressLoop_safe (S (length ts)) ts [] ltac:(lia)) as Has.
  assert ((exists ms, addressList ts = Ret ms /\ ts <> []) \/ (forall ms, ~ (address_list ts ms /\ len ms <= maxMailboxes)))
    as [(ms & Ha & Hne) | Hno].
  { fold (addressList ts) in Has. destruct (addressList ts) as [ms | [] | ] eqn:Ea; [left | right | done].
    - exists ms. split; [done | ]. apply addressList_iff in Ea as [Ea _]. by eapply address_list_nonempty.
    - intros ms Hms%addressList_iff. congruence. }
  - left. exists ms. apply tokenize_Ret in Et as (n & Hl & Hn). split.
    { split_and!; [lia | done | done | ]. apply addressList_iff in Ha as [Ha Hm]. exists ts, n. by split_and!. }
    destruct ts as [|t ts]; [done | ]. rewrite Ha. destruct ms as [|m [|m' ms]]; try done.
    unfold author_of. destruct (literal m); [done | ]. by destruct (ToASCII _ _).
  - right. split.
    + intros (ms & _ & _ & ts' & n & Hl & Hn & Hms & Hlen). rewrite (Hdet ts') in Hms; [by eapply Hno | ].
      apply tokenize_Ret. by exists n.
    + destruct ts as [|t ts]; [done | ]. fold (addressList (t :: ts)) in Has.
      destruct (addressList (t :: ts)) as [ms | [] | ] eqn:Ea; [ | done | done].
      by apply addressList_iff, Hno in Ea.
Qed.

(** C23: ParseAuthor never panics, and what it returns is determined by the
    grammar alone: a value of at most 16 KiB of valid UTF-8 that is an RFC 5322
    address list (comments nested at most 32 deep and at most 32 of them, at
    most 128 mailboxes, groups flattened) gives the author its mailboxes
    denote or the reason why there is no single one, and every other value is
    malformed. *)
Theorem ParseAuthor_refines (registration : bytes -> option bytes) (value : bytes) :
  no_crash (ParseAuthor registration value) /\
  forall r, ParseAuthor registration value = Ret r <->
    (exists ms, author_list value ms /\ r = author_of registration ms) \/
    (~ (exists ms, author_list value ms) /\ r = (noAuthor, StatusMalformed)).
Proof.
  assert (forall ms ms', author_list value ms -> author_list value ms' -> ms = ms') as Hdet.
  { intros ms ms' (_ & _ & ts & n & Hl & Hn & Hms) (_ & _ & ts' & n' & Hl' & Hn' & Hms').
    assert (Ret (E := unit) ts = Ret ts') as [= <-].
    { transitivity (tokenize value); [symmetry | ]; apply tokenize_Ret; eauto. }
    apply addressList_iff in Hms, Hms'. congruence. }
  destruct (ParseAuthor_cases registration value) as [(ms & Hms & ->) | [Hno ->]]; (split; [done | ]); intros r; split.
  - intros [= <-]. left. by exists ms.
  - intros [(ms' & Hms' & ->) | [Hno _]]; [by rewrite (Hdet ms ms') | ]. destruct Hno. by exists ms.
  - intros [= <-]. by right.
  - intros [(ms' & Hms' & _) | [_ ->]]; [ | done]. destruct Hno. by exists ms'.
Qed.
