(* ===== verification/SigAlgorithm.v ===== *)
(** * Package internal/signature: the algorithm vocabulary (types.go)

    An algorithm is a Go string; three of them are implemented. *)

From S2P Require Import Prelude GoBytes.
#[local] Open Scope Z_scope.

Abbreviation Algorithm := bytes (only parsing).
Definition AlgorithmRSASHA256 : Algorithm := bs "rsa-sha256".
Definition AlgorithmEd25519SHA256 : Algorithm := bs "ed25519-sha256".
Definition AlgorithmMLDSA44 : Algorithm := bs "mldsa44".

Definition Algorithm_Known (a : Algorithm) : bool :=
  bytes_equal a AlgorithmRSASHA256 || bytes_equal a AlgorithmEd25519SHA256 || bytes_equal a AlgorithmMLDSA44.

Definition SigningAlgorithmOrder : list Algorithm :=
  [AlgorithmRSASHA256; AlgorithmEd25519SHA256; AlgorithmMLDSA44].
Fixpoint rankLoop (order : list Algorithm) (rank : Z) (a : Algorithm) : Z * bool :=
  match order with
  | [] => (0, false)
  | algorithm :: order => if bytes_equal a algorithm then (rank, true) else rankLoop order (rank + 1) a
  end.
Definition SigningRank (a : Algorithm) : Z * bool := rankLoop SigningAlgorithmOrder 0 a.
Definition Signable (a : Algorithm) : bool := (SigningRank a).2.

Lemma Algorithm_Known_iff a : Algorithm_Known a = true <-> a ∈ SigningAlgorithmOrder.
Proof.
  unfold Algorithm_Known, SigningAlgorithmOrder. rewrite !orb_true_iff, !bytes_equal_eq, !elem_of_cons, elem_of_nil. tauto.
Qed.
Lemma SigningRank_spec a :
  Signable a = Algorithm_Known a /\
  forall rank, SigningRank a = (rank, true) <-> 0 <= rank /\ SigningAlgorithmOrder !! Z.to_nat rank = Some a.
Proof.
  unfold Signable, SigningRank, Algorithm_Known, rankLoop, SigningAlgorithmOrder.
  destruct (bytes_equal a AlgorithmRSASHA256) eqn:E1; [apply bytes_equal_eq in E1 as -> | ].
  2: destruct (bytes_equal a AlgorithmEd25519SHA256) eqn:E2; [apply bytes_equal_eq in E2 as -> | ].
  3: destruct (bytes_equal a AlgorithmMLDSA44) eqn:E3; [apply bytes_equal_eq in E3 as -> | ].
  all: cbn [orb snd]; split; [done | ]; intros rank; split.
  all: try (intros [= <-]; by split).
  all: intros [H1 H2]; destruct (Z.to_nat rank) as [|[|[|n]]] eqn:En; cbn in H2; try discriminate H2.
  all: try (do 2 f_equal; lia).
  all: injection H2 as H2; subst a; try (by rewrite bytes_equal_refl in *).
Qed.
