(* ===== verification/GoNetip.v ===== *)
(** * Go's net/netip: which texts parse as IPv6 addresses

    [ParseAddr] and [Addr.Is6], as far as the sources use them: whether a text
    parses and is an IPv6 address.  The address itself is not computed. *)

From S2P Require Import Prelude GoBytes.
#[local] Open Scope Z_scope.

(** parseIPv4Fields: four decimal octets without leading zeros; [prev] is the
    byte before the current one. *)
Fixpoint ipv4Loop (s : bytes) (prev : option byte) (val pos digLen : Z) : bool :=
  match s with
  | [] => negb (pos <? 3)
  | b :: rest =>
      if in_range x30 b x39 then
        if (digLen =? 1) && (val =? 0) then false
        else
          let val := val * 10 + (bval b - 48) in
          if 255 <? val then false else ipv4Loop rest (Some b) val pos (digLen + 1)
      else if b =?b x2e then
        if match prev, rest with
           | None, _ | _, [] => true
           | Some c, _ => c =?b x2e
           end || (pos =? 3)
        then false
        else ipv4Loop rest (Some b) 0 (pos + 1) 0
      else false
  end.
Definition parseIPv4Fields (s : bytes) : bool := ipv4Loop s None 0 0 0.

Definition hexDigit (c : byte) : option Z :=
  if in_range x30 c x39 then Some (bval c - 48)
  else if in_range x61 c x66 then Some (bval c - 97 + 10)
  else if in_range x41 c x46 then Some (bval c - 65 + 10)
  else None.
(** One group: how many digits it has, and the text after it. *)
Fixpoint hexLoop (s : bytes) (off acc : Z) : option (Z * bytes) :=
  match s with
  | [] => Some (off, [])
  | c :: rest =>
      match hexDigit c with
      | None => Some (off, s)
      | Some d =>
          let acc := acc * 16 + d in
          if (3 <? off) || (65535 <? acc) then None else hexLoop rest (off + 1) acc
      end
  end.
(** The loop over groups; [groups] are those that still fit, so that the
    position in the address is 16 - 2 * groups, and [ellipsis] tells whether
    there was one.  The result is the text left, the position and the ellipsis. *)
Fixpoint ipv6Loop (groups : nat) (s : bytes) (ellipsis : bool) : option (bytes * Z * bool) :=
  match groups with
  | O => Some (s, 16, ellipsis)
  | S groups' =>
      let i := 16 - 2 * Z.of_nat groups in
      '(off, rest) ← hexLoop s 0 0;
      if off =? 0 then None
      else
        match rest with
        | [] => Some ([], i + 2, ellipsis)
        | b :: after =>
            if b =?b x2e then
              if (negb ellipsis && negb (i =? 12)) || (16 <? i + 4) || negb (parseIPv4Fields s) then None
              else Some ([], i + 4, ellipsis)
            else if negb (b =?b x3a) then None
            else
              match after with
              | [] => None
              | c :: after' =>
                  if c =?b x3a then
                    if ellipsis then None
                    else match after' with
                         | [] => Some ([], i + 2, true)
                         | _ => ipv6Loop groups' after' true
                         end
                  else ipv6Loop groups' after ellipsis
              end
        end
  end.
Definition parseIPv6 (input : bytes) : bool :=
  let zone := match index_byte input x25 with Some i => Some (drop (S i) input) | None => None end in
  let s := match index_byte input x25 with Some i => take i input | None => input end in
  match zone with
  | Some [] => false
  | _ =>
      let leading := has_prefix s [x3a; x3a] in
      let s := if leading then drop 2 s else s in
      if leading && (len s =? 0) then true
      else
        match ipv6Loop 8 s leading with
        | None => false
        | Some (rest, i, ellipsis) =>
            (len rest =? 0) && (if i <? 16 then ellipsis else negb ellipsis)
        end
  end.

(** Whether ParseAddr succeeds with an address that Is6: the first of the bytes
    '.', ':' and '%' chooses the parser. *)
Definition addrSelector (b : byte) : bool := (b =?b x2e) || (b =?b x3a) || (b =?b x25).
Definition ParseAddr_Is6 (s : bytes) : bool :=
  match List.find addrSelector s with
  | Some b => (b =?b x3a) && parseIPv6 s
  | None => false
  end.

(** ** The case of letters does not matter *)
Lemma byte_eqb_sym a b : (a =?b b) = (b =?b a).
Proof. destruct (byte_eqb_spec a b), (byte_eqb_spec b a); congruence. Qed.
Section fold.
Variable fold : byte -> byte.
Hypothesis fold_hex : forall b, hexDigit (fold b) = hexDigit b.
Hypothesis fold_digit : forall b, in_range x30 b x39 = true -> fold b = b.
Hypothesis fold_range : forall b, in_range x30 (fold b) x39 = in_range x30 b x39.
Hypothesis fold_mark : forall m b, m = x2e \/ m = x3a \/ m = x25 -> (fold b =?b m) = (b =?b m).

Lemma ipv4Loop_fold s prev val pos digLen :
  ipv4Loop (map fold s) (fold <$> prev) val pos digLen = ipv4Loop s prev val pos digLen.
Proof using fold_digit fold_range fold_mark.
  revert prev val pos digLen. induction s as [|b s IH]; intros prev val pos digLen; cbn [map ipv4Loop]; [done | ].
  rewrite fold_range, (fold_mark x2e) by auto. pose proof (fun v => IH (Some b) v) as IHb. cbn [fmap option_fmap option_map] in IHb.
  destruct (in_range x30 b x39) eqn:Hb.
  - rewrite (fold_digit b Hb) in *. by rewrite IHb.
  - rewrite !IHb. destruct (b =?b x2e); [ | done]. destruct prev as [c|], s; cbn [map fmap option_fmap option_map]; rewrite ?(fold_mark x2e) by auto; done.
Qed.
Lemma hexLoop_fold s off acc :
  hexLoop (map fold s) off acc = prod_map id (map fold) <$> hexLoop s off acc.
Proof using fold_hex.
  revert off acc. induction s as [|b s IH]; intros off acc; cbn [map hexLoop]; [done | ].
  rewrite fold_hex. destruct (hexDigit b); [ | done]. destruct (_ || _); [done | ]. apply IH.
Qed.
Definition fold_state (r : bytes * Z * bool) : bytes * Z * bool := let '(s, i, e) := r in (map fold s, i, e).
Lemma ipv6Loop_fold groups s ellipsis :
  ipv6Loop groups (map fold s) ellipsis = fold_state <$> ipv6Loop groups s ellipsis.
Proof using fold_hex fold_digit fold_range fold_mark.
  revert s ellipsis. induction groups as [|groups IH]; intros s ellipsis; [done | ]. cbn [ipv6Loop].
  rewrite hexLoop_fold. destruct (hexLoop s 0 0) as [[off rest]|]; [ | done]. cbn.
  destruct (off =? 0); [done | ]. destruct rest as [|b rest]; [done | ]. cbn [map].
  rewrite !fold_mark by auto.
  change (parseIPv4Fields (map fold s)) with (ipv4Loop (map fold s) (fold <$> None) 0 0 0). rewrite ipv4Loop_fold.
  change (ipv4Loop s None 0 0 0) with (parseIPv4Fields s).
  destruct (b =?b x2e); [by destruct (_ || negb (parseIPv4Fields s)) | ]. destruct (b =?b x3a); [ | done]. cbn [negb].
  destruct rest as [|c rest]; [done | ]. cbn [map]. rewrite fold_mark by auto. destruct (c =?b x3a).
  - destruct ellipsis; [done | ]. destruct rest; [done | ]. apply IH.
  - apply (IH (c :: rest)).
Qed.
Lemma index_byte_fold s m : m = x2e \/ m = x3a \/ m = x25 -> index_byte (map fold s) m = index_byte s m.
Proof using fold_mark.
  intros Hm. induction s as [|b s IH]; [done | ]. cbn [map index_byte]. rewrite fold_mark by done. by rewrite IH.
Qed.
Lemma parseIPv6_fold s : parseIPv6 (map fold s) = parseIPv6 s.
Proof using fold_hex fold_digit fold_range fold_mark.
  unfold parseIPv6. rewrite index_byte_fold by auto.
  assert (forall s, has_prefix (map fold s) [x3a; x3a] = has_prefix s [x3a; x3a]) as Hpre.
  { intros [|a [|b t]]; cbn [map has_prefix]; try done; rewrite !(byte_eqb_sym x3a), !fold_mark by auto; done. }
  assert (forall s, (let leading := has_prefix (map fold s) [x3a; x3a] in
      let s := if leading then drop 2 (map fold s) else map fold s in
      if leading && (len s =? 0) then true
      else match ipv6Loop 8 s leading with
           | None => false
           | Some (rest, i, ellipsis) => (len rest =? 0) && (if i <? 16 then ellipsis else negb ellipsis)
           end) =
      (let leading := has_prefix s [x3a; x3a] in
      let s := if leading then drop 2 s else s in
      if leading && (len s =? 0) then true
      else match ipv6Loop 8 s leading with
           | None => false
           | Some (rest, i, ellipsis) => (len rest =? 0) && (if i <? 16 then ellipsis else negb ellipsis)
           end)) as Hbody.
  { intros t. cbv zeta. rewrite Hpre.
    assert ((if has_prefix t [x3a; x3a] then drop 2 (map fold t) else map fold t) =
            map fold (if has_prefix t [x3a; x3a] then drop 2 t else t)) as ->.
    { destruct (has_prefix t _); [by rewrite skipn_map | done]. }
    unfold len. rewrite length_map, ipv6Loop_fold. destruct (_ && _); [done | ].
    destruct (ipv6Loop _ _ _) as [[[r i] e]|]; [ | done]. cbn. by rewrite length_map. }
  destruct (index_byte s x25) as [i|].
  - rewrite skipn_map, firstn_map. destruct (drop (S i) s); cbn [map]; [done | ]. apply Hbody.
  - apply Hbody.
Qed.
Lemma ParseAddr_Is6_fold s : ParseAddr_Is6 (map fold s) = ParseAddr_Is6 s.
Proof using fold_hex fold_digit fold_range fold_mark.
  unfold ParseAddr_Is6.
  assert (forall t, List.find addrSelector (map fold t) = fold <$> List.find addrSelector t) as ->.
  { intros t. induction t as [|b t IH]; [done | ]. cbn [map List.find].
    assert (addrSelector (fold b) = addrSelector b) as -> by (unfold addrSelector; by rewrite !fold_mark by auto).
    by destruct (addrSelector b). }
  destruct (List.find addrSelector s) as [b|]; [ | done]. cbn. by rewrite fold_mark, parseIPv6_fold by auto.
Qed.
End fold.

Example netip_samples :
  map ParseAddr_Is6
    [bs "::"; bs "::1"; bs "2001:db8::1"; bs "1:2:3:4:5:6:7:8"; bs "::ffff:192.0.2.1"; bs "fe80::1%eth0";
     bs "1:2:3:4:5:6:192.0.2.1"; bs "1::"; bs "1:2:3:4:5:6:7::"; bs "::1.2.3.4"]
  = repeat true 10 /\
  map ParseAddr_Is6
    [bs "192.0.2.1"; bs ""; bs ":"; bs ":::"; bs "1:2:3:4:5:6:7"; bs "1:2:3:4:5:6:7:8:9"; bs "1::2::3";
     bs "12345::"; bs "::1%"; bs "1:"; bs "::192.0.2.256"; bs "1:2:3:4:5:6:7:192.0.2.1"; bs "::01.2.3.4"; bs "g::"; bs "1:2:3:4::5:6:7:8"]
  = repeat false 15.
Proof. split; vm_compute; reflexivity. Qed.
