(* ===== verification/SigTypes.v ===== *)
(** * Package internal/signature: errors, limits and parsed values

    errors.go, types.go, helpers.go, domain.go, cardinality.go and flags.go.
    Error codes and classes are enumerations, so the replacement of an unknown
    code by newError has no counterpart; tag and limit names are Go strings with
    a closed vocabulary.  The cause of an error is the tagvalue error it wraps,
    when there is one.  Copies of values are the values themselves. *)

From stdpp Require Import gmap.
From S2P Require Import Prelude GoBytes TagTypes TagBase64 Combine TagSpec DomainName SigAlgorithm.
#[local] Open Scope Z_scope.

(** ** errors.go *)
Inductive ErrorCode :=
  | ErrorCodeWrongHeaderField | ErrorCodeMissingRequiredTag | ErrorCodeInvalidNumber
  | ErrorCodeInvalidTimestamp | ErrorCodeInvalidEnvelopeBase64 | ErrorCodeInvalidEnvelopePath
  | ErrorCodeInvalidDomain | ErrorCodeInvalidEnvelopeForm | ErrorCodeMalformedSignatureSet
  | ErrorCodeDuplicateSelector | ErrorCodeInvalidSignatureBase64 | ErrorCodeInvalidSignatureLength
  | ErrorCodeInvalidNonce | ErrorCodeMalformedFlag | ErrorCodeDuplicateKnownFlag
  | ErrorCodeLimitExceeded | ErrorCodeInvalidOptions | ErrorCodeMissingOrigin
  | ErrorCodeDuplicateSequence | ErrorCodeSequenceGap | ErrorCodeUnreferencedInstance
  | ErrorCodeInvalidInstanceReference | ErrorCodeInvalidConstruction | ErrorCodeRenderInvariant
  | ErrorCodeCustodyMismatch.
Inductive ErrorClass :=
  | ErrorClassMalformed | ErrorClassMissing | ErrorClassDuplicate | ErrorClassLimit
  | ErrorClassInvariant.
#[export] Instance ErrorCode_eq_dec : EqDecision ErrorCode.
Proof. solve_decision. Defined.

Definition TagName := string.
Definition TagNameSequence : TagName := "i"%string.
Definition TagNameInstance : TagName := "m"%string.
Definition TagNameTimestamp : TagName := "t"%string.
Definition TagNameMailFrom : TagName := "mf"%string.
Definition TagNameRecipients : TagName := "rt"%string.
Definition TagNameNextDomain : TagName := "nd"%string.
Definition TagNameDomain : TagName := "d"%string.
Definition TagNameSignatures : TagName := "s"%string.
Definition TagNameNonce : TagName := "n"%string.
Definition TagNameFlags : TagName := "f"%string.
Definition TagName_Known (n : TagName) : bool :=
  bool_decide (n ∈ [TagNameSequence; TagNameInstance; TagNameTimestamp; TagNameMailFrom;
                    TagNameRecipients; TagNameNextDomain; TagNameDomain; TagNameSignatures;
                    TagNameNonce; TagNameFlags]).

Definition LimitName := string.
Definition LimitNameMaxRecipients : LimitName := "max_recipients"%string.
Definition LimitNameMaxSignatureSets : LimitName := "max_signature_sets"%string.
Definition LimitNameMaxFlags : LimitName := "max_flags"%string.
Definition LimitNameMaxNonceBytes : LimitName := "max_nonce_bytes"%string.
Definition LimitNameMaxSignatures : LimitName := "max_signatures"%string.
Definition LimitNameMaxFieldBytes : LimitName := "max_field_bytes"%string.
Definition LimitNameMaxLineBytes : LimitName := "max_line_bytes"%string.
Definition LimitNameMaxEnvelopePathBytes : LimitName := "max_envelope_path_bytes"%string.
Definition LimitNameMaxSignatureBytes : LimitName := "max_signature_bytes"%string.
Definition LimitNameRenderCoherence : LimitName := "render_limit_coherence"%string.
Definition LimitName_Known (n : LimitName) : bool :=
  bool_decide (n ∈ [LimitNameMaxRecipients; LimitNameMaxSignatureSets; LimitNameMaxFlags;
                    LimitNameMaxNonceBytes; LimitNameMaxSignatures; LimitNameMaxFieldBytes;
                    LimitNameMaxLineBytes; LimitNameMaxEnvelopePathBytes;
                    LimitNameMaxSignatureBytes; LimitNameRenderCoherence]).

Record ErrorLocation := MkLoc {
  FieldIndex : Z; RecipientIndex : Z; SignatureIndex : Z; FlagIndex : Z }.
Definition noLoc : ErrorLocation := MkLoc 0 0 0 0.
Definition fieldLoc (fieldIndex : Z) : ErrorLocation := MkLoc fieldIndex 0 0 0.
Record ErrorDetails := MkDetails {
  det_TagName : TagName; det_LimitName : LimitName; det_Limit : Z; det_Count : Z;
  det_ExpectedNumber : Z; det_ObservedNumber : Z }.
Definition noDetails : ErrorDetails := MkDetails "" "" 0 0 0 0.
Definition tagDetails (t : TagName) : ErrorDetails := MkDetails t "" 0 0 0 0.
Definition limitDetails (n : LimitName) (limit count : Z) : ErrorDetails := MkDetails "" n limit count 0 0.

Record Error := MkError {
  err_code : ErrorCode; err_class : ErrorClass; err_location : ErrorLocation;
  err_details : ErrorDetails; err_cause : option TagTypes.Error }.

Definition classForCode (c : ErrorCode) : ErrorClass :=
  match c with
  | ErrorCodeMissingRequiredTag => ErrorClassMissing
  | ErrorCodeDuplicateSelector | ErrorCodeDuplicateKnownFlag | ErrorCodeDuplicateSequence => ErrorClassDuplicate
  | ErrorCodeLimitExceeded => ErrorClassLimit
  | ErrorCodeInvalidOptions | ErrorCodeRenderInvariant => ErrorClassInvariant
  | _ => ErrorClassMalformed
  end.
Definition sanitizeLocation (l : ErrorLocation) : ErrorLocation :=
  MkLoc (if FieldIndex l <? 0 then 0 else FieldIndex l)
    (if RecipientIndex l <? 0 then 0 else RecipientIndex l)
    (if SignatureIndex l <? 0 then 0 else SignatureIndex l)
    (if FlagIndex l <? 0 then 0 else FlagIndex l).
Definition sanitizeDetails (d : ErrorDetails) : ErrorDetails :=
  MkDetails (det_TagName d) (det_LimitName d) (if det_Limit d <? 0 then 0 else det_Limit d)
    (if det_Count d <? 0 then 0 else det_Count d) (det_ExpectedNumber d) (det_ObservedNumber d).

Definition newError (c : ErrorCode) (l : ErrorLocation) (d : ErrorDetails) (cause : option TagTypes.Error)
    : Error :=
  MkError c (classForCode c) (sanitizeLocation l)
    (sanitizeDetails
       (MkDetails (if TagName_Known (det_TagName d) then det_TagName d else ""%string)
          (if LimitName_Known (det_LimitName d) then det_LimitName d else ""%string)
          (det_Limit d) (det_Count d) (det_ExpectedNumber d) (det_ObservedNumber d)))
    cause.

(** What the package's functions return: an error of its own, or one of the
    tag scanner passed through. *)
Inductive Failure := TagFailure (e : TagTypes.Error) | SignatureFailure (e : Error).
Definition IsErrorCode (f : Failure) (c : ErrorCode) : bool :=
  match f with
  | TagFailure _ => false
  | SignatureFailure e => bool_decide (err_code e = c)
  end.

Definition sigError (c : ErrorCode) (l : ErrorLocation) (d : ErrorDetails) : Failure :=
  SignatureFailure (newError c l d None).

(** ** types.go *)
Definition HeaderName : bytes := bs "dkim2-signature".

Record Limits := MkLimits {
  TagLimits : TagTypes.Limits; MaxRecipients : Z; MaxSignatureSets : Z; MaxFlags : Z;
  MaxNonceBytes : Z; MaxSignatures : Z }.
Definition DefaultLimits : Limits := MkLimits TagTypes.DefaultLimits 2000 16 32 64 128.

Definition invalidLimitError (limitName : string) (limit : Z) : Failure :=
  sigError ErrorCodeInvalidOptions noLoc (limitDetails limitName limit 0).
Definition limit_ok (value hard : Z) : bool := negb ((value <=? 0) || (hard <? value)).
Definition Limits_Validate (l : Limits) : outcome Failure unit :=
  let hard := DefaultLimits in
  check require (limit_ok (MaxRecipients l) (MaxRecipients hard))
    (invalidLimitError "max_recipients" (MaxRecipients l)) ;;
  check require (limit_ok (MaxSignatureSets l) (MaxSignatureSets hard))
    (invalidLimitError "max_signature_sets" (MaxSignatureSets l)) ;;
  check require (limit_ok (MaxFlags l) (MaxFlags hard)) (invalidLimitError "max_flags" (MaxFlags l)) ;;
  check require (limit_ok (MaxNonceBytes l) (MaxNonceBytes hard))
    (invalidLimitError "max_nonce_bytes" (MaxNonceBytes l)) ;;
  require (limit_ok (MaxSignatures l) (MaxSignatures hard))
    (invalidLimitError "max_signatures" (MaxSignatures l)).

#[export] Instance TagLimits_eq_dec : EqDecision TagTypes.Limits.
Proof. solve_decision. Defined.
(** The tag limits are replaced only when all of them are zero (parser.go). *)
Definition Limits_normalize (l : Limits) : Limits :=
  MkLimits
    (if bool_decide (TagLimits l = TagTypes.MkLimits 0 0 0 0 0) then TagLimits DefaultLimits else TagLimits l)
    (default_if_zero (MaxRecipients l) (MaxRecipients DefaultLimits))
    (default_if_zero (MaxSignatureSets l) (MaxSignatureSets DefaultLimits))
    (default_if_zero (MaxFlags l) (MaxFlags DefaultLimits))
    (default_if_zero (MaxNonceBytes l) (MaxNonceBytes DefaultLimits))
    (default_if_zero (MaxSignatures l) (MaxSignatures DefaultLimits)).

Record EnvelopePath := MkPath { value : bytes; container : Base64String }.
Definition emptyBase64 : Base64String := MkB64 [] [] [].
Definition noPath : EnvelopePath := MkPath [] emptyBase64.
(** One tuple selector:algorithm:signature (Set in the source). *)
Record SigSet := MkSet {
  selector : bytes; rawSelector : bytes; algorithm : bytes; knownAlgorithm : bool;
  set_signature : Base64String }.

(** ** flags.go, the values *)
Definition FlagFeedback : bytes := bs "feedback".
Definition FlagFeedHere : bytes := bs "feedhere".
Definition FlagExploded : bytes := bs "exploded".
Record Flag := MkFlag { flag_name : bytes; flag_known : bool }.
Record Flags := MkFlags { values : list Flag }.
Definition noFlags : Flags := MkFlags [].
Definition knownFlag (name : bytes) : bool :=
  bool_decide (name = FlagFeedback) || bool_decide (name = FlagFeedHere) || bool_decide (name = FlagExploded).
Definition HasKnown (f : Flags) (name : bytes) : bool :=
  match ParseTextstring name with
  | None => false
  | Some canonical =>
      if negb (knownFlag canonical) then false
      else existsb (fun flag => flag_known flag && bool_decide (flag_name flag = canonical)) (values f)
  end.

(** ** Parsed signatures (types.go) *)
Record Signature := MkSignature {
  sequence : Z; instanceNumber : Z; timestamp : Z; mailFrom : EnvelopePath;
  recipients : list EnvelopePath; nextDomain : bytes; hasNextDomain : bool; domain : bytes;
  signatures : list SigSet; setLayout : Layout; flags : Flags; nonce : bytes; hasNonce : bool;
  headerIndex : Z }.
Definition Signature_NextDomain (s : Signature) : option bytes :=
  if negb (hasNextDomain s) then None else Some (nextDomain s).
Definition Signature_Nonce (s : Signature) : option bytes :=
  if negb (hasNonce s) then None else Some (nonce s).

(** ** helpers.go *)
Definition isWSP (b : byte) : bool := (b =?b x20) || (b =?b x09).
Definition ValidNonceSyntax (value : bytes) : bool :=
  forallb (fun b => negb ((bval b <? 32) || (126 <? bval b) || (b =?b x3b))) value.
Definition parseNonce (value : bytes) (limits : Limits) (fieldIndex : Z) : outcome Failure bytes :=
  check require (negb (MaxNonceBytes limits <? len value))
    (sigError ErrorCodeInvalidNonce (fieldLoc fieldIndex)
       (MkDetails "n" "max_nonce_bytes" (MaxNonceBytes limits) (len value) 0 0)) ;;
  check require (ValidNonceSyntax value)
    (sigError ErrorCodeInvalidNonce (fieldLoc fieldIndex) (tagDetails "n")) ;;
  Ret value.
Definition splitCommaList (input : bytes) : list bytes :=
  match input with [] => [] | _ => split_byte x2c input end.
(** The trimmed text and how many bytes were dropped before it. *)
Definition trimWSP (input : bytes) : bytes * Z :=
  (trim_bytes isWSP input, len input - len (drop_while isWSP input)).
Definition trimTrailingWSP (input : bytes) : bytes := trim_trailing isWSP input.

(** ** domain.go *)
Definition maxDomainNameBytes : Z := 253.
Definition maxDomainLabelBytes : Z := 63.

(** The loop of validDNSLabel; it lowers letters in place and so returns the
    label it leaves. *)
Fixpoint dnsLabelLoop (label : bytes) (i n : Z) : option bytes :=
  match label with
  | [] => Some []
  | b :: rest =>
      let b := if in_range x41 b x5a then byte_of (bval b + (97 - 65)) else b in
      if in_range x61 b x7a || in_range x30 b x39 || ((b =?b x2d) && (0 <? i) && (i <? n - 1))
      then tail ← dnsLabelLoop rest (i + 1) n; Some (b :: tail)
      else None
  end.
Definition validDNSLabel (label : bytes) : option bytes :=
  if (len label =? 0) || (maxDomainLabelBytes <? len label) then None
  else dnsLabelLoop label 0 (len label).
(** The loop of canonicalDNSName: [label] is the text since labelStart and
    [output] the canonical text before it. *)
Fixpoint dnsNameLoop (input label output : bytes) : option bytes :=
  match input with
  | [] => l ← validDNSLabel label; Some (output ++ l)
  | b :: rest =>
      if b =?b x2e then l ← validDNSLabel label; dnsNameLoop rest [] (output ++ l ++ [b])
      else dnsNameLoop rest (label ++ [b]) output
  end.
Definition canonicalDNSName (input : bytes) : option bytes :=
  match input with
  | [] => None
  | first :: _ =>
      if (maxDomainNameBytes <? len input) || (first =?b x2e) || (List.last input first =?b x2e) then None
      else dnsNameLoop input [] []
  end.
Definition parseDomain (value : bytes) (fieldIndex : Z) (tagName : TagName) : outcome Failure bytes :=
  match canonicalDNSName value with
  | None => Fail (sigError ErrorCodeInvalidDomain (fieldLoc fieldIndex) (tagDetails tagName))
  | Some d => Ret d
  end.

(** ** cardinality.go *)
Definition selectorUniqueness := gset bytes.
Definition newSelectorUniqueness : selectorUniqueness := ∅.
Definition selector_add (u : selectorUniqueness) (s : bytes) (fieldIndex signatureIndex : Z)
    : outcome Failure selectorUniqueness :=
  if bool_decide (s ∈ u)
  then Fail (sigError ErrorCodeDuplicateSelector (MkLoc fieldIndex 0 signatureIndex 0) (tagDetails TagNameSignatures))
  else Ret ({[s]} ∪ u).

(** ** flags.go, parsing *)
Definition malformedFlagError (fieldIndex flagIndex : Z) : Failure :=
  sigError ErrorCodeMalformedFlag (MkLoc fieldIndex 0 0 flagIndex) (tagDetails "f").
Fixpoint flagsLoop (parts : list bytes) (fieldIndex i : Z) (seenKnown : gset bytes) (acc : list Flag)
    : outcome Failure (list Flag) :=
  match parts with
  | [] => Ret acc
  | part :: rest =>
      match ParseTextstring (trimWSP part).1 with
      | None => Fail (malformedFlagError fieldIndex i)
      | Some name =>
          let known := knownFlag name in
          check require (negb (known && bool_decide (name ∈ seenKnown)))
            (sigError ErrorCodeDuplicateKnownFlag (MkLoc fieldIndex 0 0 i) (tagDetails "f")) ;;
          flagsLoop rest fieldIndex (i + 1) (if known then {[name]} ∪ seenKnown else seenKnown)
            (acc ++ [MkFlag name known])
      end
  end.
Definition parseFlags (value : bytes) (limits : Limits) (fieldIndex : Z) : outcome Failure Flags :=
  let parts := splitCommaList value in
  check require (negb (len parts =? 0)) (malformedFlagError fieldIndex 0) ;;
  check require (negb (MaxFlags limits <? len parts))
    (sigError ErrorCodeLimitExceeded (fieldLoc fieldIndex)
       (MkDetails "f" "max_flags" (MaxFlags limits) (len parts) 0 0)) ;;
  let* fs := flagsLoop parts fieldIndex 0 ∅ [] in
  Ret (MkFlags fs).

(** ** Canonical names

    The package's own check of DNS names agrees with domainname's. *)
Lemma fold_byte_unfold b : (if in_range x41 b x5a then byte_of (bval b + (97 - 65)) else b) = fold_byte b.
Proof. done. Qed.
Lemma hyphen_alnum b : (b =?b x2d) = true -> in_range x61 b x7a || in_range x30 b x39 = false.
Proof. intros ->%byte_eqb_eq. reflexivity. Qed.

Definition not_edge_hyphen (i n : Z) (j : nat) (b : byte) : bool :=
  negb ((b =?b x2d) && negb ((0 <? i + Z.of_nat j) && (i + Z.of_nat j <? n - 1))).
Lemma dnsLabelLoop_spec label i n :
  dnsLabelLoop label i n =
  if forallb ldh_byte (map fold_byte label) && forallb id (imap (not_edge_hyphen i n) (map fold_byte label))
  then Some (map fold_byte label) else None.
Proof.
  revert i. induction label as [|b label IH]; intros i; cbn [dnsLabelLoop map forallb imap]; [done | ].
  rewrite fold_byte_unfold, IH. clear IH.
  assert (forallb id (imap (not_edge_hyphen (i + 1) n) (map fold_byte label)) =
          forallb id (imap (not_edge_hyphen i n ∘ S) (map fold_byte label))) as ->.
  { f_equal. apply imap_ext. intros j c _. unfold not_edge_hyphen, compose. do 3 f_equal; f_equal; f_equal; lia. }
  unfold not_edge_hyphen at 2, ldh_byte at 2. cbn [id]. rewrite Z.add_0_r.
  destruct (fold_byte b =?b x2d) eqn:Eh.
  - rewrite (hyphen_alnum _ Eh). cbn [orb andb].
    destruct ((0 <? i) && (i <? n - 1)); cbn [negb andb]; [ | by rewrite andb_false_r]. 
    by destruct (forallb ldh_byte _), (forallb id _).
  - rewrite orb_false_r. cbn [orb andb negb].
    destruct (in_range x61 (fold_byte b) x7a || in_range x30 (fold_byte b) x39); cbn [orb andb]; [ | done].
    by destruct (forallb ldh_byte _), (forallb id _).
Qed.
Lemma forallb_imap {A} (f : nat -> A -> bool) l :
  forallb id (imap f l) = true <-> forall j x, l !! j = Some x -> f j x = true.
Proof.
  rewrite forallb_forall. setoid_rewrite <- list_elem_of_In. split.
  - intros H j x Hj. apply (H (f j x)). apply elem_of_lookup_imap. eauto.
  - intros H b (j & x & -> & Hj)%elem_of_lookup_imap. by apply (H j x).
Qed.
Lemma edge_hyphens first l :
  forallb id (imap (not_edge_hyphen 0 (len (first :: l))) (first :: l)) =
  negb ((first =?b x2d) || (List.last (first :: l) first =?b x2d)).
Proof.
  destruct (exists_last (l := first :: l)) as (t & c & E); [done | ]. rewrite E at 3. rewrite List.last_last.
  apply eq_true_iff_eq. rewrite forallb_imap, negb_true_iff, orb_false_iff. unfold not_edge_hyphen. split.
  - intros H. split.
    + specialize (H 0%nat first eq_refl). by destruct (first =?b x2d).
    + specialize (H (length t) c). destruct (c =?b x2d); [ | done]. exfalso.
      rewrite E, lookup_app_r, Nat.sub_diag, len_app in H by done. specialize (H eq_refl).
      change (len [c]) with 1 in H. unfold len in H.
      apply negb_true_iff, negb_false_iff, andb_true_iff in H as [_ H%Z.ltb_lt]. lia.
  - intros [Hf Hc] j b Hj. destruct (b =?b x2d) eqn:Eb; [ | done]. cbn [andb negb]. rewrite negb_involutive.
    apply byte_eqb_eq in Eb as ->. apply andb_true_iff. split; apply Z.ltb_lt.
    + destruct j; [ | lia]. injection Hj as ->. done.
    + rewrite E, len_app. change (len [c]) with 1. unfold len. rewrite E in Hj.
      pose proof (lookup_lt_Some _ _ _ Hj) as Hlt. rewrite length_app in Hlt. cbn in Hlt.
      destruct (decide (j = length t)) as [-> | Hne]; [ | lia].
      rewrite lookup_app_r, Nat.sub_diag in Hj by done. injection Hj as ->. done.
Qed.
Lemma len_mapped {A B} (f : A -> B) l : len (map f l) = len l.
Proof. unfold len. by rewrite length_map. Qed.
Lemma validDNSLabel_folds l :
  validDNSLabel l = if validLDHLabel (map fold_byte l) then Some (map fold_byte l) else None.
Proof.
  unfold validDNSLabel. rewrite dnsLabelLoop_spec. destruct l as [|b l]; [done | ]. rewrite <- (len_mapped fold_byte).
  cbn [map validLDHLabel]. rewrite edge_hyphens. unfold maxDomainLabelBytes, maxLabelBytes.
  rewrite (len_cons (fold_byte b)). pose proof (len_nonneg (map fold_byte l)).
  rewrite (proj2 (Z.eqb_neq (1 + _) 0)) by lia. cbn [orb]. destruct (63 <? _); [done | ]. cbn [orb].
  by rewrite andb_comm.
Qed.
Lemma split_byte_fold d : split_byte x2e (map fold_byte d) = map (map fold_byte) (split_byte x2e d).
Proof.
  induction d as [|b d IH]; [done | ]. cbn [map split_byte]. rewrite fold_dot, IH.
  destruct (b =?b x2e); [done | ]. by destruct (split_byte x2e d).
Qed.
Lemma dnsNameLoop_spec input label output :
  dnsNameLoop input label output =
  if labelLoop (map fold_byte input) (map fold_byte label)
  then Some (output ++ map fold_byte (label ++ input)) else None.
Proof.
  revert label output. induction input as [|b input IH]; intros label output; cbn [dnsNameLoop map labelLoop].
  - rewrite validDNSLabel_folds, app_nil_r. by destruct (validLDHLabel _).
  - rewrite fold_dot. destruct (byte_eqb_spec b x2e) as [-> | Hne].
    + rewrite validDNSLabel_folds. destruct (validLDHLabel _); [ | done]. cbn [mbind option_bind andb]. rewrite IH.
      cbn [map app]. destruct (labelLoop _ _); [ | done]. rewrite map_app, <- !app_assoc. done.
    + rewrite IH, map_app. destruct (labelLoop _ _); [ | done]. by rewrite <- app_assoc.
Qed.
(** canonicalDNSName lower-cases exactly the names that domainname validates
    once they are lower-case. *)
Lemma canonicalDNSName_spec d :
  canonicalDNSName d = if validASCIIDomain (map fold_byte d) then Some (map fold_byte d) else None.
Proof.
  unfold canonicalDNSName, validASCIIDomain. destruct d as [|b d]; [done | ].
  rewrite len_mapped, len_cons. pose proof (len_nonneg d). rewrite (proj2 (Z.eqb_neq (1 + _) 0)) by lia. cbn [orb].
  unfold maxDomainNameBytes, maxDomainBytes.
  destruct (253 <? _) eqn:El; [done | ]. rewrite dnsNameLoop_spec. cbn [orb app]. change (map fold_byte []) with (@nil byte).
  destruct (_ || _) eqn:Ed; [ | done].
  destruct (labelLoop _ _) eqn:E; [ | done]. exfalso.
  assert (is_domain (map fold_byte (b :: d))) as Hd.
  { apply validASCIIDomain_spec. unfold validASCIIDomain. rewrite E, len_mapped, len_cons.
    unfold maxDomainBytes. rewrite El. rewrite (proj2 (Z.eqb_neq (1 + _) 0)) by lia. done. }
  cbn [map] in Hd. apply domain_dots in Hd. change (fold_byte b :: map fold_byte d) with (map fold_byte (b :: d)) in Hd.
  rewrite last_map, !fold_dot in Hd. congruence.
Qed.
Lemma canonicalDNSName_Some d r : canonicalDNSName d = Some r <-> is_domain (map fold_byte d) /\ r = map fold_byte d.
Proof.
  rewrite canonicalDNSName_spec, <- validASCIIDomain_spec. destruct (validASCIIDomain _); naive_solver.
Qed.
Lemma canonicalDNSName_domain d : is_domain d -> canonicalDNSName d = Some d.
Proof.
  intros Hd. apply canonicalDNSName_Some. by rewrite (proj1 (domain_folded d Hd)).
Qed.
Lemma canonicalDNSName_is_domain d r : canonicalDNSName d = Some r -> is_domain r.
Proof. by intros [? ->]%canonicalDNSName_Some. Qed.
