(* ===== verification/SigEnvelope.v ===== *)
(** * Package internal/signature: SMTP paths (envelope.go)

    A path is located by positions in its text, as in the source; slices are
    taken with take and drop, and SigEnvelopeSpec.v shows that the positions are
    in range.  The IDNA library stays a parameter, as in DomainName.v. *)

From S2P Require Import Prelude GoBytes GoUtf8 GoNetip TagTypes TagBase64 DomainName SigAlgorithm SigTypes.
#[local] Open Scope Z_scope.

Definition MaxEnvelopePathBytes : Z := 256.

(** [s[a:b]] for positions in range. *)
Definition sub (s : bytes) (a b : Z) : bytes := take (Z.to_nat (b - a)) (drop (Z.to_nat a) s).
Definition suffix (s : bytes) (a : Z) : bytes := drop (Z.to_nat a) s.
Definition interior (s : bytes) : bytes := removelast (tail s).

(** ** Characters *)
Definition isASCIILetter (b : byte) : bool := in_range x41 b x5a || in_range x61 b x7a.
Definition isASCIIDigit (b : byte) : bool := in_range x30 b x39.
Definition isASCIILetterOrDigit (b : byte) : bool := isASCIILetter b || isASCIIDigit b.
Definition isSMTPAtext (b : byte) : bool :=
  if 128 <=? bval b then true
  else if isASCIILetter b || isASCIIDigit b then true
  else bool_decide (b ∈ [x21; x23; x24; x25; x26; x27; x2a; x2b; x2d; x2f; x3d; x3f; x5e; x5f; x60; x7b; x7c; x7d; x7e]).
Definition isSMTPQuotedText (b : byte) : bool :=
  in_range x20 b x21 || in_range x23 b x5b || in_range x5d b x7e.

(** ** Local parts *)
Definition validDotString (local : bytes) : bool :=
  forallb (fun atom => negb (bool_decide (atom = [])) && forallb isSMTPAtext atom) (split_byte x2e local)
  && (0 <? len local).
(** The loop over a quoted string, from the byte at position [i] on. *)
Fixpoint quotedEnd (rest : bytes) (i : Z) : option Z :=
  match rest with
  | [] => None
  | b :: rest =>
      if b =?b x22 then Some (i + 1)
      else if b =?b x5c then
        match rest with
        | [] => None
        | c :: rest => if (bval c <? 32) || (126 <? bval c) then None else quotedEnd rest (i + 2)
        end
      else if negb (isSMTPQuotedText b) && (bval b <? 128) then None
      else quotedEnd rest (i + 1)
  end.
Definition smtpLocalPartEnd (mailbox : bytes) : option Z :=
  match mailbox with
  | [] => None
  | first :: rest =>
      if first =?b x22 then quotedEnd rest 1
      else
        match index_byte mailbox x40 with
        | None => None
        | Some i =>
            if (Z.of_nat i <=? 0) || negb (validDotString (take i mailbox)) then None else Some (Z.of_nat i)
        end
  end.

(** ** Domains and address literals *)
Definition validSMTPLabel (label : bytes) : bool :=
  match label with
  | [] => false
  | first :: _ =>
      negb (63 <? len label) && isASCIILetterOrDigit first && isASCIILetterOrDigit (List.last label first)
      && (if 2 <? len label
          then forallb (fun b => isASCIILetterOrDigit b || (b =?b x2d)) (interior label) else true)
  end.
Definition validSMTPDomain (domain : bytes) : bool :=
  if (len domain =? 0) || (255 <? len domain) then false
  else forallb validSMTPLabel (split_byte x2e domain).
Definition validSourceRoute (route : bytes) : bool :=
  forallb (fun part => match part with
                       | first :: second :: rest => (first =?b x40) && validSMTPDomain (second :: rest)
                       | _ => false
                       end) (split_byte x2c route)
  && (0 <? len (split_byte x2c route)).

Definition snum (part : bytes) : bool :=
  negb ((len part =? 0) || (3 <? len part)) && forallb isASCIIDigit part
  && negb (255 <? foldl (fun value b => value * 10 + (bval b - 48)) 0 part).
Definition validIPv4AddressLiteral (input : bytes) : bool :=
  let parts := split_byte x2e input in (len parts =? 4) && forallb snum parts.
Definition validStandardizedTag (tag : bytes) : bool :=
  match tag with
  | [] => false
  | first :: _ =>
      isASCIILetterOrDigit (List.last tag first)
      && forallb (fun b => isASCIILetterOrDigit b || (b =?b x2d)) (removelast tag)
  end.
Definition validGeneralAddressContent (content : bytes) : bool :=
  negb (len content =? 0)
  && forallb (fun b => negb ((bval b <? 33) || (90 <? bval b) && (bval b <? 94) || (126 <? bval b))) content.
Definition ipv6Prefix : bytes := bs "IPv6:".
(** strings.EqualFold with a text of ASCII letters that have no other foldings
    than their two cases. *)
Definition equalFold (s t : bytes) : bool := bytes_equal (map fold_byte s) (map fold_byte t).
Definition validAddressLiteral (domain : bytes) : bool :=
  match domain with
  | first :: _ =>
      if (len domain <? 3) || negb (first =?b x5b) || negb (List.last domain first =?b x5d) then false
      else
        let content := interior domain in
        if validIPv4AddressLiteral content then true
        else if (len ipv6Prefix <? len content) && equalFold (take 5 content) ipv6Prefix
        then ParseAddr_Is6 (drop 5 content)
        else
          match index_byte content x3a with
          | Some separator =>
              (0 <? Z.of_nat separator) && validStandardizedTag (take separator content)
              && validGeneralAddressContent (drop (S separator) content)
          | None => false
          end
  | [] => false
  end.

(** Where the domain of a mailbox starts. *)
Definition smtpMailboxDomainStart (mailbox : bytes) : option Z :=
  localEnd ← smtpLocalPartEnd mailbox;
  match suffix mailbox localEnd with
  | x40 :: domain =>
      let local := take (Z.to_nat localEnd) mailbox in
      match domain with
      | [] => None
      | d :: _ =>
          if (64 <? len local) || (255 <? len domain) then None
          else if d =?b x5b then if validAddressLiteral domain then Some (localEnd + 1) else None
          else if utf8_valid local then Some (localEnd + 1) else None
      end
  | _ => None
  end.

(** ** Paths *)
Record envelopeParts := MkParts {
  ep_null : bool; ep_literal : bool; routeEnd : Z; domainStart : Z; domainEnd : Z; asciiDomain : bytes }.
Definition nullParts : envelopeParts := MkParts true false 0 0 0 [].

Section idna.
Variable registration_ToASCII : bytes -> option bytes.
#[local] Abbreviation ToASCII := (DomainName.ToASCII registration_ToASCII).

Definition parseMailboxParts (path inner : bytes) (mailboxOffset routeEnd : Z) : option envelopeParts :=
  start ← smtpMailboxDomainStart inner;
  let domainStart := mailboxOffset + start in
  let domainEnd := len path - 1 in
  let domain := sub path domainStart domainEnd in
  match domain with
  | x5b :: _ => Some (MkParts false true routeEnd domainStart domainEnd [])
  | _ => a ← ToASCII domain; Some (MkParts false false routeEnd domainStart domainEnd a)
  end.
Definition parseEnvelopeParts (path : bytes) (allowNull : bool) : option envelopeParts :=
  match path with
  | first :: _ =>
      if (len path <? 2) || (MaxEnvelopePathBytes <? len path) || negb (first =?b x3c)
         || negb (List.last path first =?b x3e) then None
      else
        let inner := interior path in
        match inner with
        | [] => if allowNull then Some nullParts else None
        | x40 :: _ =>
            match index_byte inner x3a with
            | None => None
            | Some separator =>
                if (Z.of_nat separator <=? 1) || negb (validSourceRoute (take separator inner)) then None
                else parseMailboxParts path (drop (S separator) inner) (1 + (Z.of_nat separator + 1))
                       (1 + Z.of_nat separator)
            end
        | _ => parseMailboxParts path inner 1 0
        end
  | [] => None
  end.

Definition render (p : envelopeParts) (path : bytes) (foldRoute : bool) : option bytes :=
  let prefix := sub path 0 (domainStart p) in
  let prefix :=
    if foldRoute && (1 <? routeEnd p)
    then sub prefix 0 1 ++ map fold_byte (sub prefix 1 (routeEnd p)) ++ suffix prefix (routeEnd p)
    else prefix in
  let domain :=
    if ep_literal p then map fold_byte (sub path (domainStart p) (domainEnd p)) else asciiDomain p in
  let output := prefix ++ domain ++ [x3e] in
  if MaxEnvelopePathBytes <? len output then None else Some output.

Definition validEnvelopePath (path : bytes) (allowNull : bool) : bool :=
  if parseEnvelopeParts path allowNull is Some _ then true else false.
Definition validRecordedEnvelopePath (path : bytes) (allowNull : bool) : bool :=
  match parseEnvelopeParts path allowNull with
  | None => false
  | Some parts => ep_null parts || IsASCII (sub path (domainStart parts) (domainEnd parts))
  end.
Definition canonicalEnvelopePath (path : bytes) (allowNull : bool) : option bytes :=
  parts ← parseEnvelopeParts path allowNull;
  if ep_null parts then Some path else render parts path true.
Definition RecordableEnvelopePath (path : bytes) (allowNull : bool) : option bytes :=
  parts ← parseEnvelopeParts path allowNull;
  if ep_null parts || ep_literal parts || IsASCII (sub path (domainStart parts) (domainEnd parts))
  then Some path else render parts path false.

Definition CanonicalEnvelopeDomain (path : bytes) (allowNull : bool) : option bytes :=
  canonical ← canonicalEnvelopePath path allowNull;
  if len canonical <? 4 then None
  else
    let mailbox := interior canonical in
    match mailbox with
    | [] => None
    | b :: _ =>
        mailbox ←
          (if b =?b x40 then
             match index_byte mailbox x3a with
             | None => None
             | Some separator =>
                 if (Z.of_nat separator <=? 1) || (Z.of_nat separator =? len mailbox - 1) then None
                 else Some (drop (S separator) mailbox)
             end
           else Some mailbox);
        start ← smtpMailboxDomainStart mailbox;
        if len mailbox <=? start then None else canonicalDNSName (suffix mailbox start)
    end.

(** ** Base64-wrapped paths of a field *)
Definition parseEnvelopePath (value : bytes) (limits : TagTypes.Limits) (fieldIndex recipientIndex : Z)
    (tagName : TagName) : outcome Failure EnvelopePath :=
  let* parsed := map_fail (fun cause => SignatureFailure
        (newError ErrorCodeInvalidEnvelopeBase64 (MkLoc fieldIndex recipientIndex 0 0) (tagDetails tagName) (Some cause)))
      (ParseBase64String value limits) in
  check require (validRecordedEnvelopePath (decoded parsed) (bool_decide (tagName = "mf"%string)))
    (sigError ErrorCodeInvalidEnvelopePath (MkLoc fieldIndex recipientIndex 0 0) (tagDetails tagName)) ;;
  Ret (MkPath (decoded parsed) parsed).

Definition malformedRecipientListError (fieldIndex : Z) : Failure :=
  sigError ErrorCodeInvalidEnvelopePath (fieldLoc fieldIndex) (tagDetails "rt").
Fixpoint recipientsLoop (parts : list bytes) (limits : Limits) (fieldIndex i n : Z) (acc : list EnvelopePath)
    : outcome Failure (list EnvelopePath) :=
  match parts with
  | [] => Ret acc
  | part :: rest =>
      let trimmed := (trimWSP part).1 in
      check require (negb ((len trimmed =? 0)
                           || (i <? n - 1) && match last part with Some b => isWSP b | None => false end))
        (malformedRecipientListError fieldIndex) ;;
      let* path := parseEnvelopePath trimmed (TagLimits limits) fieldIndex i "rt" in
      recipientsLoop rest limits fieldIndex (i + 1) n (acc ++ [path])
  end.
Definition parseRecipientPaths (value : bytes) (limits : Limits) (fieldIndex : Z)
    : outcome Failure (list EnvelopePath) :=
  let parts := splitCommaList value in
  check require (negb (len parts =? 0)) (malformedRecipientListError fieldIndex) ;;
  check require (negb (MaxRecipients limits <? len parts))
    (sigError ErrorCodeLimitExceeded (fieldLoc fieldIndex)
       (MkDetails "rt" "max_recipients" (MaxRecipients limits) (len parts) 0 0)) ;;
  recipientsLoop parts limits fieldIndex 0 (len parts) [].
End idna.

Example envelope_samples :
  let rec := RecordableEnvelopePath (fun _ => None) in
  rec (bs "<user@Example.ORG>") false = Some (bs "<user@Example.ORG>") /\
  CanonicalEnvelopeDomain (fun _ => None) (bs "<@Relay.example:user@Example.ORG>") false = Some (bs "example.org") /\
  rec (bs "<>") true = Some (bs "<>") /\ rec (bs "<>") false = None /\
  rec (bs "<u@[IPv6:::1]>") false = Some (bs "<u@[IPv6:::1]>") /\
  rec (bs "<a..b@example.org>") false = None.
Proof. vm_compute. split_and!; reflexivity. Qed.
