(* ===== verification/SigEnvelopeSpec.v ===== *)
(** * What an SMTP path is, and that envelope.go reads exactly that

    The grammar of source routes, local parts and mailboxes, the refinement
    theorem for parseEnvelopeParts, and the recorded and canonical forms. *)

From S2P Require Import Prelude GoBytes GoUtf8 GoNetip TagTypes TagBase64 Combine TagSpec DomainName SigAlgorithm SigTypes SigEnvelope.
#[local] Open Scope Z_scope.

(** ** Positions *)
Lemma len_nat {A} (l : list A) : Z.to_nat (len l) = length l.
Proof. unfold len. lia. Qed.
Lemma sub_app (p m t : bytes) a b : a = len p -> b = len p + len m -> sub (p ++ m ++ t) a b = m.
Proof.
  intros -> ->. unfold sub. rewrite len_nat, drop_app_length. unfold len.
  replace (Z.to_nat _) with (length m) by lia. by rewrite take_app_length.
Qed.
Lemma sub_prefix (m t : bytes) b : b = len m -> sub (m ++ t) 0 b = m.
Proof. intros ->. apply (sub_app [] m t); [done | ]. change (len (@nil byte)) with 0. lia. Qed.
Lemma suffix_app (p t : bytes) a : a = len p -> suffix (p ++ t) a = t.
Proof. intros ->. unfold suffix. by rewrite len_nat, drop_app_length. Qed.
Lemma interior_mid a m b : interior (a :: m ++ [b]) = m.
Proof. unfold interior. cbn [tail]. apply removelast_last. Qed.

(** ** Domains *)
Lemma ldh_fold b : ldh_byte (fold_byte b) = isASCIILetterOrDigit b || (b =?b x2d).
Proof.
  enough (Bool.eqb (ldh_byte (fold_byte b)) (isASCIILetterOrDigit b || (b =?b x2d)) = true) as H by by apply eqb_prop.
  by_bytes b.
Qed.
Lemma alnum_ldh b : isASCIILetterOrDigit b = ldh_byte (fold_byte b) && negb (fold_byte b =?b x2d).
Proof.
  enough (Bool.eqb (isASCIILetterOrDigit b) (ldh_byte (fold_byte b) && negb (fold_byte b =?b x2d)) = true) as H
    by by apply eqb_prop.
  by_bytes b.
Qed.
Lemma forallb_map {A B} (f : B -> bool) (g : A -> B) l : forallb f (map g l) = forallb (fun x => f (g x)) l.
Proof. induction l as [|x l IH]; [done | ]. cbn. by rewrite IH. Qed.
Lemma forallb_ext {A} (f g : A -> bool) l : (forall x, f x = g x) -> forallb f l = forallb g l.
Proof. intros H. induction l as [|x l IH]; [done | ]. cbn. by rewrite H, IH. Qed.
Lemma validSMTPLabel_spec l : validSMTPLabel l = validLDHLabel (map fold_byte l).
Proof.
  destruct l as [|b l]; [done | ]. cbn [map]. unfold validSMTPLabel, validLDHLabel. rewrite !alnum_ldh.
  change (fold_byte b :: map fold_byte l) with (map fold_byte (b :: l)). rewrite last_map, len_mapped.
  assert (forallb ldh_byte (map fold_byte (b :: l)) =
          ldh_byte (fold_byte b) && ldh_byte (fold_byte (List.last (b :: l) b)) &&
          (if 2 <? len (b :: l) then forallb (fun b => isASCIILetterOrDigit b || (b =?b x2d)) (interior (b :: l)) else true)) as ->.
  { rewrite forallb_map. destruct l as [|c l _] using rev_ind.
    - cbn. by destruct (ldh_byte (fold_byte b)).
    - rewrite app_comm_cons, List.last_last, forallb_app. cbn [forallb].
      change (interior ((b :: l) ++ [c])) with (interior (b :: l ++ [c])). rewrite interior_mid, andb_true_r.
      assert ((if 2 <? len ((b :: l) ++ [c]) then forallb (fun b => isASCIILetterOrDigit b || (b =?b x2d)) l else true) =
              forallb (fun x => ldh_byte (fold_byte x)) l) as ->.
      { rewrite len_app, len_cons. change (len [c]) with 1. destruct l as [|d l]; [done | ].
        rewrite len_cons. pose proof (len_nonneg l). rewrite (proj2 (Z.ltb_lt 2 _)) by lia.
        apply forallb_ext. intros x. by rewrite ldh_fold. }
      by destruct (ldh_byte (fold_byte b)), (ldh_byte (fold_byte c)), (forallb _ l). }
  unfold maxLabelBytes. match goal with |- context [if 2 <? ?x then ?y else true] => generalize (if 2 <? x then y else true) end.
  intros c. destruct (63 <? _), (ldh_byte (fold_byte b)), (ldh_byte (fold_byte (List.last _ b))),
    (fold_byte b =?b x2d), (fold_byte (List.last _ b) =?b x2d), c; done.
Qed.

(** A domain of RFC 5321: labels of letters, digits and inner hyphens, 255 octets in all. *)
Definition is_smtp_domain (d : bytes) : Prop :=
  len d <= 255 /\ Forall (fun l => is_label (map fold_byte l)) (split_byte x2e d).
Lemma validSMTPDomain_spec d : validSMTPDomain d = true <-> is_smtp_domain d.
Proof.
  unfold validSMTPDomain, is_smtp_domain.
  assert (forallb validSMTPLabel (split_byte x2e d) = true <->
          Forall (fun l => is_label (map fold_byte l)) (split_byte x2e d)) as E.
  { rewrite forallb_forall, list.Forall_forall. setoid_rewrite list_elem_of_In. setoid_rewrite validSMTPLabel_spec.
    by setoid_rewrite validLDHLabel_spec. }
  destruct (Z.eqb_spec (len d) 0) as [H0 | H0]; cbn [orb].
  - split; [done | ]. intros [_ H]. destruct d; [ | rewrite len_cons in H0; pose proof (len_nonneg d); lia].
    cbn in H. apply Forall_cons in H as [H _]. by apply empty_not_label in H.
  - destruct (Z.ltb_spec 255 (len d)); [split; [done | lia] | ]. rewrite E. tauto.
Qed.
Lemma smtp_domain_chars d : is_smtp_domain d -> Forall (fun b => isASCIILetterOrDigit b || (b =?b x2d) || (b =?b x2e) = true) d.
Proof.
  intros [_ H]. eapply (split_byte_chars _ x2e); [ | done]. eapply Forall_impl; [exact H | ].
  intros l (Hl & _). rewrite Forall_map in Hl. eapply Forall_impl; [exact Hl | ]. cbn. intros b. rewrite ldh_fold. by intros ->.
Qed.

(** ** Source routes *)
Definition is_route (r : bytes) : Prop :=
  exists ds, ds <> [] /\ Forall is_smtp_domain ds /\ r = render_group (map (cons x40) ds) ++ [x3a].
Lemma is_smtp_domain_nonempty d : is_smtp_domain d -> d <> [].
Proof. intros [_ H] ->. cbn in H. apply Forall_cons in H as [H _]. by apply empty_not_label in H. Qed.
Lemma smtp_domain_no b d : isASCIILetterOrDigit b || (b =?b x2d) || (b =?b x2e) = false -> is_smtp_domain d -> b ∉ d.
Proof.
  intros Hb Hd%smtp_domain_chars.
  by apply (chars_no (fun b => isASCIILetterOrDigit b || (b =?b x2d) || (b =?b x2e))).
Qed.

Definition route_part (part : bytes) : bool :=
  match part with first :: second :: rest => (first =?b x40) && validSMTPDomain (second :: rest) | _ => false end.
Lemma route_part_spec p : route_part p = true <-> exists d, p = x40 :: d /\ is_smtp_domain d.
Proof.
  split.
  - destruct p as [|a [|b p]]; try done. cbn [route_part]. intros [->%byte_eqb_eq H%validSMTPDomain_spec]%andb_true_iff. eauto.
  - intros (d & -> & Hd). pose proof (is_smtp_domain_nonempty d Hd). destruct d as [|b d]; [done | ].
    cbn [route_part]. rewrite byte_eqb_refl. by apply validSMTPDomain_spec.
Qed.
Lemma validSourceRoute_spec r :
  validSourceRoute r = true <-> exists ds, ds <> [] /\ Forall is_smtp_domain ds /\ r = render_group (map (cons x40) ds).
Proof.
  unfold validSourceRoute. change (forallb _ (split_byte x2c r)) with (forallb route_part (split_byte x2c r)).
  rewrite andb_true_iff, forallb_forall. setoid_rewrite <- list_elem_of_In. setoid_rewrite route_part_spec. split.
  - intros [H _]. destruct (proj1 (split_comma_iff r _) eq_refl) as (Hne & _ & E).
    revert E H Hne. generalize (split_byte x2c r) as ps. intros ps -> H Hne.
    assert (exists ds, ps = map (cons x40) ds /\ Forall is_smtp_domain ds) as (ds & -> & Hds).
    { clear Hne. induction ps as [|p ps IH]; [by exists [] | ].
      destruct (H p) as (d & -> & Hd); [apply elem_of_cons; by left | ].
      assert (forall q, q ∈ ps -> exists d, q = x40 :: d /\ is_smtp_domain d) as (ds & -> & Hds)%IH.
      { intros q Hq. apply H, elem_of_cons. by right. }
      exists (d :: ds). split; [done | by constructor]. }
    exists ds. split_and!; [by intros -> | done | done].
  - intros (ds & Hne & Hds & ->).
    assert (split_byte x2c (render_group (map (cons x40) ds)) = map (cons x40) ds) as ->.
    { apply split_comma_iff. split_and!; [by destruct ds | | done]. apply Forall_map.
      eapply Forall_impl; [exact Hds | ]. intros d Hd. apply not_elem_of_cons. split; [done | by apply smtp_domain_no]. }
    split.
    + intros p (d & -> & Hd)%list_elem_of_fmap. rewrite list.Forall_forall in Hds. eauto.
    + destruct ds; [done | ]. cbn [map]. rewrite len_cons. pose proof (len_nonneg (map (cons x40) ds)). lia.
Qed.

(** ** Local parts *)
Definition is_dot_string (l : bytes) : Prop :=
  Forall (fun atom => atom <> [] /\ Forall (fun b => isSMTPAtext b = true) atom) (split_byte x2e l).
(** The text between quotes: printable or non-ASCII bytes, and escaped
    printable ones. *)
Inductive quoted_text : bytes -> Prop :=
  | quoted_nil : quoted_text []
  | quoted_byte b t : isSMTPQuotedText b || (128 <=? bval b) = true -> quoted_text t -> quoted_text (b :: t)
  | quoted_pair c t : 32 <= bval c <= 126 -> quoted_text t -> quoted_text (x5c :: c :: t).
Definition is_local (l : bytes) : Prop :=
  is_dot_string l \/ exists t, quoted_text t /\ l = x22 :: t ++ [x22].

Lemma validDotString_spec l : validDotString l = true <-> is_dot_string l.
Proof.
  unfold validDotString, is_dot_string.
  assert (forallb (fun atom => negb (bool_decide (atom = [])) && forallb isSMTPAtext atom) (split_byte x2e l) = true <->
    Forall (fun atom => atom <> [] /\ Forall (fun b => isSMTPAtext b = true) atom) (split_byte x2e l)) as E.
  { rewrite forallb_forall, list.Forall_forall. setoid_rewrite list_elem_of_In.
    setoid_rewrite andb_true_iff. setoid_rewrite negb_true_iff. setoid_rewrite bool_decide_eq_false.
    setoid_rewrite forallb_forall. setoid_rewrite list.Forall_forall. by setoid_rewrite list_elem_of_In. }
  rewrite andb_true_iff, E. split; [tauto | ]. intros H. split; [done | ].
  destruct l as [|b l]; [ | rewrite len_cons; pose proof (len_nonneg l); lia].
  cbn in H. apply Forall_cons in H as [[H _] _]. done.
Qed.
Lemma smtp_atext_facts b : isSMTPAtext b = true -> b <> x40 /\ b <> x22 /\ b <> x5b.
Proof.
  enough (implb (isSMTPAtext b) (negb (b =?b x40) && negb (b =?b x22) && negb (b =?b x5b)) = true) as H.
  { intros E. rewrite E in H. cbn [implb] in H. apply andb_true_iff in H as [[H1 H2]%andb_true_iff H3].
    apply negb_true_iff in H1, H2, H3. apply byte_eqb_ne in H1, H2, H3. done. }
  by_bytes b.
Qed.
Lemma dot_string_chars l : is_dot_string l -> Forall (fun b => b <> x40 /\ b <> x22 /\ b <> x5b) l.
Proof.
  intros H. eapply (split_byte_chars _ x2e); [ | done]. eapply Forall_impl; [exact H | ].
  intros a [_ Ha]. eapply Forall_impl; [exact Ha | ]. apply smtp_atext_facts.
Qed.
Lemma dot_string_nonempty l : is_dot_string l -> l <> [].
Proof. intros H ->. cbn in H. apply Forall_cons in H as [[H _] _]. done. Qed.

Lemma quoted_byte_facts b :
  isSMTPQuotedText b || (128 <=? bval b) = true -> (b =?b x22) = false /\ (b =?b x5c) = false.
Proof.
  enough (implb (isSMTPQuotedText b || (128 <=? bval b)) (negb (b =?b x22) && negb (b =?b x5c)) = true) as H.
  { intros Hb. rewrite Hb in H. by apply andb_true_iff in H as [?%negb_true_iff ?%negb_true_iff]. }
  by_bytes b.
Qed.
Lemma quotedEnd_ok t rest i : quoted_text t -> quotedEnd (t ++ x22 :: rest) i = Some (i + len t + 1).
Proof.
  intros Ht. revert i. induction Ht as [|b t Hb _ IH|c t Hc _ IH]; intros i; cbn [app quotedEnd].
  - rewrite byte_eqb_refl. change (len (@nil byte)) with 0. f_equal. lia.
  - assert ((b =?b x22) = false /\ (b =?b x5c) = false) as [-> ->].
    { by apply quoted_byte_facts. }
    assert (negb (isSMTPQuotedText b) && (bval b <? 128) = false) as ->.
    { destruct (isSMTPQuotedText b); [done | ]. cbn in *. lia. }
    rewrite IH, len_cons. f_equal. lia.
  - rewrite (proj2 (Z.ltb_ge (bval c) 32)), (proj2 (Z.ltb_ge 126 (bval c))) by lia. cbn.
    rewrite IH, !len_cons. f_equal. lia.
Qed.
Lemma quotedEnd_inv s i e :
  quotedEnd s i = Some e -> exists t rest, quoted_text t /\ s = t ++ x22 :: rest /\ e = i + len t + 1.
Proof.
  revert i. remember (length s) as n eqn:En. revert s En.
  induction n as [n IH] using lt_wf_ind. intros s -> i. destruct s as [|b s]; cbn [quotedEnd]; [done | ].
  destruct (byte_eqb_spec b x22) as [-> | Hq].
  { intros [= <-]. exists [], s. split_and!; [constructor | done | ]. change (len (@nil byte)) with 0. lia. }
  destruct (byte_eqb_spec b x5c) as [-> | Hb].
  - destruct s as [|c s]; [done | ]. destruct (_ || _) eqn:Hc; [done | ]. intros H.
    apply (IH (length s)) in H as (t & rest & Ht & -> & ->); [ | cbn; lia | done].
    exists (x5c :: c :: t), rest. split_and!; [constructor; [lia | done] | done | rewrite !len_cons; lia].
  - destruct (_ && _) eqn:Hc; [done | ]. intros H.
    apply (IH (length s)) in H as (t & rest & Ht & -> & ->); [ | cbn; lia | done].
    exists (b :: t), rest. split_and!; [constructor; [ | done] | done | rewrite !len_cons; lia].
    destruct (isSMTPQuotedText b); [done | ]. cbn in *. lia.
Qed.

(** ** Mailboxes *)
Definition is_mailbox (local dom : bytes) : Prop :=
  is_local local /\ len local <= 64 /\ len dom <= 255 /\
  match dom with
  | [] => False
  | b :: _ => if b =?b x5b then validAddressLiteral dom = true else utf8_valid local = true
  end.

Lemma local_end local dom :
  is_local local -> smtpLocalPartEnd (local ++ x40 :: dom) = Some (len local).
Proof.
  intros [H | (t & Ht & ->)].
  - pose proof (dot_string_chars _ H) as Hc. pose proof (dot_string_nonempty _ H) as Hne.
    destruct local as [|b l]; [done | ]. change ((b :: l) ++ x40 :: dom) with (b :: (l ++ x40 :: dom)).
    unfold smtpLocalPartEnd. apply Forall_cons in Hc as Hb. destruct Hb as [(_ & Hb & _) _].
    case_byte; [done | ]. change (b :: (l ++ x40 :: dom)) with ((b :: l) ++ x40 :: dom).
    rewrite index_byte_app. 2: { rewrite list.Forall_forall in Hc. by intros [? _]%Hc. }
    rewrite take_app_length, (proj2 (validDotString_spec _) H). cbn [negb]. rewrite orb_false_r.
    rewrite (proj2 (Z.leb_gt _ _)) by (cbn; lia). done.
  - change ((x22 :: t ++ [x22]) ++ x40 :: dom) with (x22 :: ((t ++ [x22]) ++ x40 :: dom)). unfold smtpLocalPartEnd.
    rewrite byte_eqb_refl, <- app_assoc. cbn [app]. rewrite quotedEnd_ok by done.
    rewrite len_cons, len_app. change (len [x22]) with 1. f_equal. lia.
Qed.
Lemma local_end_inv m e :
  smtpLocalPartEnd m = Some e -> exists local rest, m = local ++ rest /\ is_local local /\ e = len local.
Proof.
  unfold smtpLocalPartEnd. destruct m as [|b m]; [done | ]. case_byte.
  - intros (t & rest & Ht & -> & ->)%quotedEnd_inv. exists (x22 :: t ++ [x22]), rest. split_and!.
    + cbn. by rewrite <- app_assoc.
    + right. eauto.
    + rewrite len_cons, len_app. change (len [x22]) with 1. lia.
  - destruct (index_byte (b :: m) x40) as [i|] eqn:Ei; [ | done]. destruct (_ || _) eqn:Hc; [done | ]. intros [= <-].
    apply orb_false_iff in Hc as [_ Hv%negb_false_iff%validDotString_spec].
    exists (take i (b :: m)), (drop i (b :: m)). split_and!; [by rewrite take_drop | by left | ].
    apply index_byte_Some in Ei as [E _]. apply (f_equal length) in E. revert E.
    rewrite length_app. unfold len. rewrite length_take. cbn [length]. lia.
Qed.

Lemma smtpMailboxDomainStart_Some m s :
  smtpMailboxDomainStart m = Some s <->
  exists local dom, is_mailbox local dom /\ m = local ++ x40 :: dom /\ s = len local + 1.
Proof.
  unfold smtpMailboxDomainStart. split.
  - destruct (smtpLocalPartEnd m) as [e|] eqn:Ee; [ | done]. cbn [mbind option_bind].
    apply local_end_inv in Ee as (local & rest & -> & Hl & ->). rewrite suffix_app by done.
    destruct rest as [|c dom]; [done | ]. destruct (byte_eqb_spec c x40) as [-> | Hc]; [ | by destruct c].
    rewrite len_nat, take_app_length. destruct dom as [|d dom]; [done | ].
    destruct (_ || _) eqn:Hlen; [done | ]. apply orb_false_iff in Hlen as [Hll%Z.ltb_ge Hdl%Z.ltb_ge]. intros H.
    exists local, (d :: dom). unfold is_mailbox. destruct (d =?b x5b).
    + destruct (validAddressLiteral _) eqn:Ev; [ | done]. injection H as <-. by split_and!.
    + destruct (utf8_valid local) eqn:Ev; [ | done]. injection H as <-. by split_and!.
  - intros (local & dom & (Hl & Hll & Hdl & Hd) & -> & ->). rewrite local_end by done. cbn [mbind option_bind].
    rewrite suffix_app by done. rewrite len_nat, take_app_length. destruct dom as [|d dom]; [done | ].
    rewrite (proj2 (Z.ltb_ge _ _)), (proj2 (Z.ltb_ge _ _)) by done. cbn [orb].
    destruct (d =?b x5b); by rewrite Hd.
Qed.
Lemma local_head local : is_local local -> exists b l, local = b :: l /\ b <> x40.
Proof.
  intros [H | (t & _ & ->)]; [ | by eexists _, _].
  pose proof (dot_string_nonempty _ H). apply dot_string_chars in H. destruct local as [|b l]; [done | ].
  apply Forall_cons in H as [(? & _) _]. by eexists _, _.
Qed.
(** The domain begins at one place only. *)
Lemma mailbox_unique l1 d1 l2 d2 :
  is_local l1 -> is_local l2 -> l1 ++ x40 :: d1 = l2 ++ x40 :: d2 -> l1 = l2 /\ d1 = d2.
Proof.
  intros H1 H2 E. pose proof (local_end l1 d1 H1) as E1. rewrite E, (local_end l2 d2 H2) in E1.
  injection E1 as El. apply app_inj_1 in E as [-> [= ->]]; [done | ]. unfold len in El. lia.
Qed.

(** ** Paths *)
Definition path_text (route local dom : bytes) : bytes := x3c :: (route ++ local ++ x40 :: dom) ++ [x3e].
Definition path_ok (route local dom : bytes) : Prop :=
  (route = [] \/ is_route route) /\ is_mailbox local dom /\ len (path_text route local dom) <= MaxEnvelopePathBytes.
Definition is_literal (dom : bytes) : bool := match dom with b :: _ => b =?b x5b | [] => false end.
Definition path_start (route local : bytes) : Z := 1 + len route + (len local + 1).

Lemma path_len route local dom : len (path_text route local dom) = path_start route local + len dom + 1.
Proof.
  unfold path_text, path_start. rewrite len_cons, !len_app, len_cons. change (len [x3e]) with 1. lia.
Qed.
Lemma path_split route local dom :
  path_text route local dom = (x3c :: route ++ local ++ [x40]) ++ dom ++ [x3e].
Proof. unfold path_text. cbn [app]. by rewrite <- !app_assoc. Qed.
Lemma path_prefix_len route local : len (x3c :: route ++ local ++ [x40]) = path_start route local.
Proof. unfold path_start. rewrite len_cons, !len_app. change (len [x40]) with 1. lia. Qed.
Lemma path_domain route local dom :
  sub (path_text route local dom) (path_start route local) (len (path_text route local dom) - 1) = dom.
Proof.
  rewrite path_len, path_split. apply sub_app; rewrite path_prefix_len; lia.
Qed.
Lemma path_prefix route local dom :
  sub (path_text route local dom) 0 (path_start route local) = x3c :: route ++ local ++ [x40].
Proof. rewrite path_split. apply sub_prefix. by rewrite path_prefix_len. Qed.
Lemma path_interior route local dom : interior (path_text route local dom) = route ++ local ++ x40 :: dom.
Proof. apply interior_mid. Qed.

Lemma route_no_colon ds : Forall is_smtp_domain ds -> x3a ∉ render_group (map (cons x40) ds).
Proof.
  induction 1 as [|d ds Hd Hds IH]; [apply not_elem_of_nil | ]. cbn [map].
  assert (x3a ∉ x40 :: d) as Hn by (apply not_elem_of_cons; split; [done | by apply smtp_domain_no]).
  destruct ds as [|e ds]; [done | ]. rewrite render_group_cons by done. change AllSeparator with x2c.
  apply not_elem_of_app. split; [done | ]. apply not_elem_of_cons. by split.
Qed.
Lemma route_head ds :
  ds <> [] -> Forall is_smtp_domain ds -> exists t, render_group (map (cons x40) ds) = x40 :: t /\ t <> [].
Proof.
  intros Hne Hds. destruct ds as [|d ds]; [done | ]. apply Forall_cons in Hds as [Hd%is_smtp_domain_nonempty _].
  destruct ds as [|d' ds]; cbn; eexists; (split; [done | ]); [done | by destruct d].
Qed.
Lemma bracketed (path : bytes) first rest :
  path = first :: rest -> 2 <= len path -> first = x3c -> List.last path first = x3e ->
  path = x3c :: interior path ++ [x3e].
Proof.
  intros -> Hl -> Hlast. destruct rest as [|c rest _] using rev_ind; [by vm_compute in Hl | ].
  rewrite app_comm_cons, List.last_last in Hlast. subst c. by rewrite interior_mid.
Qed.

Definition bounded (r : bytes) : option bytes := if MaxEnvelopePathBytes <? len r then None else Some r.
Lemma bounded_Some r t : bounded r = Some t <-> t = r /\ len r <= MaxEnvelopePathBytes.
Proof.
  unfold bounded. destruct (Z.ltb_spec MaxEnvelopePathBytes (len r)).
  - split; [done | intros [_ ?]; lia].
  - split; [by intros [= <-] | by intros [-> _]].
Qed.

Lemma fold_route_prefix route local :
  route = [] \/ is_route route ->
  let prefix := x3c :: route ++ local ++ [x40] in
  (if 1 <? len route
   then sub prefix 0 1 ++ map fold_byte (sub prefix 1 (len route)) ++ suffix prefix (len route)
   else prefix) = x3c :: map fold_byte route ++ local ++ [x40].
Proof.
  intros Hr. cbn zeta. destruct Hr as [-> | (ds & Hne & Hds & ->)]; [done | ].
  set (r := render_group (map (cons x40) ds)). rewrite len_app. change (len [x3a]) with 1.
  destruct (route_head ds Hne Hds) as (t & Et & _). fold r in Et.
  assert (0 < len r) as Hr by (rewrite Et, len_cons; pose proof (len_nonneg t); lia).
  rewrite (proj2 (Z.ltb_lt _ _)) by lia.
  replace (x3c :: (r ++ [x3a]) ++ local ++ [x40]) with ([x3c] ++ r ++ ([x3a] ++ local ++ [x40])) by (cbn; by rewrite <- app_assoc).
  rewrite sub_prefix by done. rewrite sub_app; [ | done | change (len [x3c]) with 1; lia]. rewrite (app_assoc [x3c] r), (suffix_app ([x3c] ++ r)).
  2: { rewrite len_app. change (len [x3c]) with 1. lia. }
  rewrite map_app. cbn. by rewrite <- app_assoc.
Qed.

(** ** Literals in lower case *)
Lemma byte_implb (f g : byte -> bool) :
  forallb (fun b => implb (f b) (g b)) (map byte_of (seqZ 0 256)) = true -> forall b, f b = true -> g b = true.
Proof.
  intros H b Hb. rewrite forallb_forall in H. specialize (H b). rewrite Hb in H. apply H.
  rewrite <- list_elem_of_In. apply list_elem_of_fmap. exists (bval b). rewrite byte_of_bval.
  split; [done | ]. apply elem_of_seqZ. pose proof (bval_range b). lia.
Qed.
Lemma is6_fold s : ParseAddr_Is6 (map fold_byte s) = ParseAddr_Is6 s.
Proof.
  apply ParseAddr_Is6_fold.
  - intros b. enough (bool_decide (hexDigit (fold_byte b) = hexDigit b) = true) as H by by apply bool_decide_eq_true in H.
    by_bytes b.
  - intros b Hb. apply byte_eqb_eq. revert b Hb. by apply byte_implb; vm_compute.
  - intros b. apply eqb_prop. by_bytes b.
  - intros m b [-> | [-> | ->]]; apply eqb_prop; by_bytes b.
Qed.
Lemma snum_fold p : snum p = true -> map fold_byte p = p.
Proof.
  unfold snum. rewrite !andb_true_iff. intros [[_ H] _]. rewrite forallb_forall in H.
  induction p as [|b p IH]; [done | ]. cbn. rewrite IH by (intros; apply H; by right). f_equal.
  apply byte_eqb_eq. specialize (H b (or_introl eq_refl)). revert b H. by apply byte_implb; vm_compute.
Qed.
Lemma ipv4_fold c : validIPv4AddressLiteral c = true -> validIPv4AddressLiteral (map fold_byte c) = true.
Proof.
  unfold validIPv4AddressLiteral. rewrite split_byte_fold, len_mapped, !andb_true_iff, forallb_map. intros [Hl H].
  split; [done | ]. rewrite forallb_forall in *. intros p Hp. specialize (H p Hp). by rewrite (snum_fold p H).
Qed.
Lemma tag_fold t : validStandardizedTag t = true -> validStandardizedTag (map fold_byte t) = true.
Proof.
  destruct t as [|b t]; [done | ]. unfold validStandardizedTag. cbn [map].
  change (fold_byte b :: map fold_byte t) with (map fold_byte (b :: t)).
  rewrite last_map. intros [H1 H2]%andb_true_iff. apply andb_true_iff. split.
  - revert H1. generalize (List.last (b :: t) b). apply (byte_implb isASCIILetterOrDigit (fun b => isASCIILetterOrDigit (fold_byte b))).
    by vm_compute.
  - assert (removelast (map fold_byte (b :: t)) = map fold_byte (removelast (b :: t))) as ->.
    { generalize (b :: t). intros l. induction l as [|x l IH]; [done | ]. destruct l; [done | ]. cbn [map removelast] in *. by rewrite IH. }
    rewrite forallb_map, forallb_forall. rewrite forallb_forall in H2. intros x Hx. specialize (H2 x Hx). revert x H2 Hx.
    intros x H2 _. revert x H2. apply (byte_implb (fun b => isASCIILetterOrDigit b || (b =?b x2d))
      (fun b => isASCIILetterOrDigit (fold_byte b) || (fold_byte b =?b x2d))). by vm_compute.
Qed.
Definition dcontent (b : byte) : bool := negb ((bval b <? 33) || (90 <? bval b) && (bval b <? 94) || (126 <? bval b)).
Lemma content_fold c : validGeneralAddressContent c = true -> validGeneralAddressContent (map fold_byte c) = true.
Proof.
  unfold validGeneralAddressContent. rewrite len_mapped. change (forallb _ c) with (forallb dcontent c).
  change (forallb _ (map fold_byte c)) with (forallb dcontent (map fold_byte c)). rewrite forallb_map.
  rewrite !andb_true_iff, !forallb_forall. intros [Hl H]. split; [done | ]. intros b Hb. specialize (H b Hb). revert b H Hb.
  intros b H _. revert b H. apply (byte_implb dcontent (fun b => dcontent (fold_byte b))). by vm_compute.
Qed.
Lemma map_fold_idem s : map fold_byte (map fold_byte s) = map fold_byte s.
Proof. rewrite map_map. apply map_ext. apply fold_byte_idem. Qed.
Lemma literal_fold d : validAddressLiteral d = true -> validAddressLiteral (map fold_byte d) = true.
Proof.
  destruct d as [|b d]; [done | ]. unfold validAddressLiteral. cbn [map].
  change (fold_byte b :: map fold_byte d) with (map fold_byte (b :: d)). rewrite len_mapped, last_map.
  destruct (_ || _) eqn:Hc; [done | ]. apply orb_false_iff in Hc as [[Hl H1%negb_false_iff]%orb_false_iff H2%negb_false_iff].
  apply byte_eqb_eq in H1, H2. rewrite H2. subst b. rewrite Hl. change (fold_byte x5b =?b x5b) with true. change (fold_byte x5d =?b x5d) with true.
  cbn [negb orb].
  assert (interior (map fold_byte (x5b :: d)) = map fold_byte (interior (x5b :: d))) as ->.
  { unfold interior. cbn [map tail]. induction d as [|x l IH]; [done | ]. destruct l; [done | ]. clear. 
    generalize (b :: l). intros k. revert x. induction k as [|y k IH]; intros x; [done | ]. cbn [map removelast] in *. by rewrite <- IH. }
  generalize (interior (x5b :: d)) as c. intros c.
  destruct (validIPv4AddressLiteral c) eqn:E4; [by rewrite (ipv4_fold c E4) | ].
  destruct (validIPv4AddressLiteral (map fold_byte c)); [done | ]. rewrite len_mapped.
  assert (equalFold (take 5 (map fold_byte c)) ipv6Prefix = equalFold (take 5 c) ipv6Prefix) as ->.
  { unfold equalFold. by rewrite firstn_map, map_fold_idem. }
  destruct (_ && _); [by rewrite skipn_map, is6_fold | ].
  rewrite index_byte_fold; [ | intros m x [-> | [-> | ->]]; apply eqb_prop; by_bytes x | auto].
  destruct (index_byte c x3a) as [i|]; [ | done]. rewrite firstn_map, skipn_map, !andb_true_iff.
  intros [[Hi Ht] Hg]. split_and!; [done | by apply tag_fold | by apply content_fold].
Qed.
Lemma route_fold r : is_route r -> is_route (map fold_byte r).
Proof.
  intros (ds & Hne & Hds & ->). exists (map (map fold_byte) ds). split_and!; [by destruct ds | | ].
  - apply Forall_map. eapply Forall_impl; [exact Hds | ]. intros d [Hl Hd]. split; [by rewrite len_mapped | ].
    rewrite split_byte_fold. apply Forall_map. eapply Forall_impl; [exact Hd | ]. intros l. by rewrite map_fold_idem.
  - rewrite map_app. f_equal. clear. induction ds as [|d ds IH]; [done | ]. destruct ds as [|e ds]; [done | ].
    cbn [map] in *. rewrite (render_group_cons (x40 :: d)), (render_group_cons (x40 :: map fold_byte d)) by done.
    rewrite map_app, (map_cons fold_byte AllSeparator), IH. done.
Qed.

Lemma ascii_not_literal a : is_domain a -> is_literal a = false.
Proof.
  intros Ha. destruct a as [|b a]; [done | ]. cbn. apply byte_eqb_ne. intros ->. destruct Ha as [_ Ha]. cbn [split_byte] in Ha.
  change (x5b =?b x2e) with false in Ha. destruct (split_byte x2e a) as [|q qs]; apply Forall_cons in Ha as [(Hx & _) _];
    apply Forall_cons in Hx as [Hx _]; by vm_compute in Hx.
Qed.
Lemma domain_mailbox local dom a : is_mailbox local dom -> is_literal dom = false -> is_domain a -> is_mailbox local a.
Proof.
  intros (Hl & Hll & _ & Hd) Hlit Ha. pose proof Ha as [Hla _]. unfold maxDomainBytes in Hla.
  split_and!; [done | done | lia | ]. pose proof (ascii_not_literal a Ha) as Hb.
  destruct a as [|b a]; [by apply validASCIIDomain_spec in Ha | ]. cbn in Hb. rewrite Hb.
  destruct dom as [|c dom]; [done | ]. cbn in Hlit. by rewrite Hlit in Hd.
Qed.

Section idna.
Context (registration : bytes -> option bytes).
#[local] Abbreviation ToASCII := (DomainName.ToASCII registration).
#[local] Abbreviation parse := (parseEnvelopeParts registration).

(** The positions of a path with the A-label form of its domain. *)
Definition parts_of (route local dom : bytes) (parts : envelopeParts) : Prop :=
  exists a, parts = MkParts false (is_literal dom) (len route) (path_start route local)
                      (len (path_text route local dom) - 1) a /\
    if is_literal dom then a = [] else ToASCII dom = Some a.

Lemma parseMailboxParts_Some path inner off rEnd route parts :
  path = x3c :: (route ++ inner) ++ [x3e] -> off = 1 + len route -> rEnd = len route ->
  parseMailboxParts registration path inner off rEnd = Some parts <->
  exists local dom, is_mailbox local dom /\ inner = local ++ x40 :: dom /\ parts_of route local dom parts.
Proof.
  intros Hp -> ->. unfold parseMailboxParts.
  assert (forall local dom, inner = local ++ x40 :: dom -> path = path_text route local dom) as Ht by by intros ? ? ->.
  assert (forall local dom, is_mailbox local dom -> path = path_text route local dom ->
    match dom with
    | x5b :: _ => Some (MkParts false true (len route) (path_start route local) (len path - 1) [])
    | _ => a ← ToASCII dom; Some (MkParts false false (len route) (path_start route local) (len path - 1) a)
    end = Some parts <-> parts_of route local dom parts) as Hparts.
  { intros local dom (_ & _ & _ & Hd) ->. unfold parts_of. destruct dom as [|b dom]; [done | ]. unfold is_literal.
    destruct (byte_eqb_spec b x5b) as [-> | Hb]; [split; [intros [= <-]; eauto | by intros (a & -> & ->)] | ].
    assert (match b with x5b => Some (MkParts false true (len route) (path_start route local)
        (len (path_text route local (b :: dom)) - 1) []) | _ => a ← ToASCII (b :: dom);
        Some (MkParts false false (len route) (path_start route local) (len (path_text route local (b :: dom)) - 1) a) end =
      (a ← ToASCII (b :: dom);
       Some (MkParts false false (len route) (path_start route local) (len (path_text route local (b :: dom)) - 1) a))) as ->
      by by destruct b.
    destruct (ToASCII (b :: dom)) as [a|]; cbn [mbind option_bind]; naive_solver. }
  split.
  - intros (s & Hs & H)%bind_Some. apply smtpMailboxDomainStart_Some in Hs as (local & dom & Hm & -> & ->).
    exists local, dom. split_and!; [done | done | ]. specialize (Ht local dom eq_refl). cbv zeta in H.
    assert (sub path (1 + len route + (len local + 1)) (len path - 1) = dom) as Hsub by (rewrite Ht; apply path_domain).
    rewrite Hsub in H. by apply Hparts.
  - intros (local & dom & Hm & -> & Hpo). specialize (Ht local dom eq_refl).
    rewrite (proj2 (smtpMailboxDomainStart_Some _ (len local + 1))) by eauto. cbn [mbind option_bind].
    assert (sub path (1 + len route + (len local + 1)) (len path - 1) = dom) as Hsub by (rewrite Ht; apply path_domain).
    cbv zeta. rewrite Hsub. by apply Hparts.
Qed.

(** parseEnvelopeParts after the brackets. *)
Definition parseInner (path inner : bytes) (allowNull : bool) : option envelopeParts :=
  match inner with
  | [] => if allowNull then Some nullParts else None
  | b :: _ =>
      if b =?b x40 then
        match index_byte inner x3a with
        | None => None
        | Some separator =>
            if (Z.of_nat separator <=? 1) || negb (validSourceRoute (take separator inner)) then None
            else parseMailboxParts registration path (drop (S separator) inner) (1 + (Z.of_nat separator + 1))
                   (1 + Z.of_nat separator)
        end
      else parseMailboxParts registration path inner 1 0
  end.
Lemma parse_inner path first rest allowNull :
  path = first :: rest ->
  parse path allowNull =
  if (len path <? 2) || (MaxEnvelopePathBytes <? len path) || negb (first =?b x3c) || negb (List.last path first =?b x3e)
  then None else parseInner path (interior path) allowNull.
Proof.
  intros ->. unfold parseEnvelopeParts, parseInner. destruct (_ || negb (List.last _ _ =?b _)); [done | ].
  destruct (interior (first :: rest)) as [|b inner]; [done | ].
  destruct (byte_eqb_spec b x40) as [-> | Hb]; [done | ]. by destruct b.
Qed.

Lemma parseInner_Some path inner allowNull parts :
  path = x3c :: inner ++ [x3e] -> len path <= MaxEnvelopePathBytes ->
  parseInner path inner allowNull = Some parts <->
  (allowNull = true /\ inner = [] /\ parts = nullParts) \/
  (exists route local dom, inner = route ++ local ++ x40 :: dom /\ path_ok route local dom /\ parts_of route local dom parts).
Proof.
  intros Hp Hlen. unfold parseInner. split.
  - destruct inner as [|b inner]; [destruct allowNull; [intros [= <-]; by left | done] | ]. intros H. right. revert H.
    destruct (byte_eqb_spec b x40) as [-> | Hb].
    + destruct (index_byte (x40 :: inner) x3a) as [sep|] eqn:Es; [ | done]. apply index_byte_Some in Es as [Es _].
      destruct (_ || _) eqn:Hc; [done | ]. apply orb_false_iff in Hc as [Hc%Z.leb_gt Hr%negb_false_iff].
      pose proof (f_equal length Es) as El. revert El.
      rewrite length_app, length_take. cbn [length]. intros El.
      set (r := take sep (x40 :: inner)) in *. set (m := drop (S sep) (x40 :: inner)) in *.
      assert (len r = Z.of_nat sep) as Hlr by (unfold len, r; rewrite length_take; cbn [length]; lia).
      intros H. apply (parseMailboxParts_Some _ _ _ _ (r ++ [x3a])) in H as (local & dom & Hm & Em & Hpo).
      * exists (r ++ [x3a]), local, dom. rewrite Es, Em, <- app_assoc. split_and!; [done | | done]. split_and!; [right | done | ].
        -- apply validSourceRoute_spec in Hr as (ds & ? & ? & ->). by exists ds.
        -- rewrite Hp, Es, Em in Hlen. unfold path_text. by rewrite <- (app_assoc r [x3a]).
      * rewrite Hp, Es. by rewrite <- (app_assoc r [x3a]).
      * rewrite len_app, Hlr. change (len [x3a]) with 1. lia.
      * rewrite len_app, Hlr. change (len [x3a]) with 1. lia.
    + intros H. apply (parseMailboxParts_Some _ _ _ _ []) in H as (local & dom & Hm & Em & Hpo); [ | done | done | done].
      exists [], local, dom. rewrite Em. split_and!; [done | | done]. split_and!; [by left | done | ]. rewrite Hp, Em in Hlen. done.
  - intros [(-> & -> & ->) | (route & local & dom & -> & (Hr & Hm & _) & Hpo)]; [done | ].
    assert (path = x3c :: (route ++ local ++ x40 :: dom) ++ [x3e]) as Hp' by done.
    destruct Hr as [-> | (ds & Hds & Hall & ->)].
    + destruct (local_head local) as (b & l & -> & Hb); [apply Hm | ]. cbn [app].
      rewrite (proj2 (byte_eqb_ne b x40)) by done.
      apply (parseMailboxParts_Some _ (b :: l ++ x40 :: dom) _ _ []); [done | done | done | ].
      exists (b :: l), dom. by split_and!.
    + set (r := render_group (map (cons x40) ds)) in *. pose proof (route_no_colon ds Hall) as Hn. fold r in Hn.
      destruct (route_head ds Hds Hall) as (t & Et & Ht). fold r in Et.
      rewrite <- !app_assoc, Et. cbn [app]. rewrite byte_eqb_refl.
      change (x40 :: t ++ x3a :: local ++ x40 :: dom) with ((x40 :: t) ++ x3a :: local ++ x40 :: dom).
      rewrite <- Et, index_byte_app by done.
      assert (Z.of_nat (length r) <=? 1 = false) as ->.
      { rewrite Et. cbn [length]. destruct t; [done | cbn; lia]. }
      rewrite take_app_length. assert (validSourceRoute r = true) as -> by (apply validSourceRoute_spec; by exists ds).
      cbn [negb orb].
      replace (drop (S (length r)) (r ++ x3a :: local ++ x40 :: dom)) with (local ++ x40 :: dom).
      2: { change (x3a :: local ++ x40 :: dom) with ([x3a] ++ local ++ x40 :: dom). rewrite app_assoc.
           replace (S (length r)) with (length (r ++ [x3a])) by (rewrite length_app; cbn; lia). by rewrite drop_app_length. }
      assert (len (r ++ [x3a]) = 1 + Z.of_nat (length r)) as Hlr by (rewrite len_app; change (len [x3a]) with 1; unfold len; lia).
      apply (parseMailboxParts_Some _ _ _ _ (r ++ [x3a])); [ | lia | lia | ].
      * by rewrite Hp', <- !app_assoc.
      * by exists local, dom.
Qed.

Lemma parseEnvelopeParts_Some path allowNull parts :
  parse path allowNull = Some parts <->
  (allowNull = true /\ path = bs "<>" /\ parts = nullParts) \/
  (exists route local dom, path = path_text route local dom /\ path_ok route local dom /\ parts_of route local dom parts).
Proof.
  split.
  - destruct path as [|first rest] eqn:Ep; [done | ]. rewrite <- Ep in *. rewrite (parse_inner _ _ _ _ Ep).
    destruct (_ || negb (List.last _ _ =?b _)) eqn:Hc; [done | ].
    apply orb_false_iff in Hc as [[[H1%Z.ltb_ge H2%Z.ltb_ge]%orb_false_iff H3]%orb_false_iff H4].
    apply negb_false_iff, byte_eqb_eq in H3, H4.
    pose proof (bracketed _ _ _ Ep H1 H3 H4) as Hb. intros H. apply parseInner_Some in H; [ | done | done].
    destruct H as [(-> & Hi & ->) | (route & local & dom & Hi & Hok & Hpo)]; rewrite Hi in Hb; [by left | right; eauto 10].
  - intros [(-> & -> & ->) | (route & local & dom & -> & Hok & Hpo)]; [done | ].
    rewrite (parse_inner _ x3c ((route ++ local ++ x40 :: dom) ++ [x3e])) by done. rewrite path_interior.
    pose proof Hok as (_ & _ & Hlen). rewrite (proj2 (Z.ltb_ge (len _) 2)).
    2: { rewrite path_len. unfold path_start. pose proof (len_nonneg route). pose proof (len_nonneg local). pose proof (len_nonneg dom). lia. }
    rewrite (proj2 (Z.ltb_ge _ _)) by done. unfold path_text at 1. rewrite app_comm_cons, List.last_last, !byte_eqb_refl. cbn [negb orb].
    apply parseInner_Some; [done | done | ]. right. eauto 10.
Qed.

(** ** The forms a path is written in *)
Lemma parts_null parts route local dom : parts_of route local dom parts -> ep_null parts = false.
Proof. by intros (a & -> & _). Qed.
Lemma parts_domain parts route local dom :
  parts_of route local dom parts ->
  sub (path_text route local dom) (domainStart parts) (domainEnd parts) = dom.
Proof. intros (a & -> & _). apply path_domain. Qed.

(** The domain of the canonical form. *)
Definition written_domain (dom : bytes) (parts : envelopeParts) : bytes :=
  if is_literal dom then map fold_byte dom else asciiDomain parts.
Lemma render_keep route local dom parts :
  parts_of route local dom parts ->
  render parts (path_text route local dom) false = bounded (path_text route local (written_domain dom parts)).
Proof.
  intros (a & -> & _). unfold render, bounded, written_domain. cbn [domainStart routeEnd ep_literal domainEnd asciiDomain andb].
  rewrite path_prefix, path_domain. rewrite <- path_split. done.
Qed.
Lemma render_fold route local dom parts :
  route = [] \/ is_route route -> parts_of route local dom parts ->
  render parts (path_text route local dom) true =
  bounded (path_text (map fold_byte route) local (written_domain dom parts)).
Proof.
  intros Hr (a & -> & _). unfold render, bounded, written_domain. cbn [domainStart routeEnd ep_literal domainEnd asciiDomain andb].
  rewrite path_prefix, path_domain. pose proof (fold_route_prefix route local Hr) as E. cbn zeta in E. rewrite E.
  by rewrite <- path_split.
Qed.

(** The domain text that a path has in its recorded form, and in its canonical form. *)
Definition recorded_domain (dom r : bytes) : Prop :=
  if is_literal dom then r = dom
  else exists a, ToASCII dom = Some a /\ r = if IsASCII dom then dom else a.
Definition canonical_domain (dom r : bytes) : Prop :=
  if is_literal dom then r = map fold_byte dom else ToASCII dom = Some r.

Lemma parse_path route local dom allowNull :
  path_ok route local dom -> (is_literal dom = true \/ exists a, ToASCII dom = Some a) ->
  exists parts, parse (path_text route local dom) allowNull = Some parts /\ parts_of route local dom parts.
Proof.
  intros Hok Hd.
  assert (exists parts, parts_of route local dom parts) as [parts Hp].
  { unfold parts_of. destruct (is_literal dom); [by eexists _, [] | ]. destruct Hd as [? | [a Ha]]; [done | by eexists _, a]. }
  exists parts. split; [ | done]. apply parseEnvelopeParts_Some. right. eauto 10.
Qed.

Lemma Recordable_Some path allowNull r :
  RecordableEnvelopePath registration path allowNull = Some r <->
  (allowNull = true /\ path = bs "<>" /\ r = bs "<>") \/
  (exists route local dom d, path = path_text route local dom /\ path_ok route local dom /\ recorded_domain dom d /\
     r = path_text route local d /\ len r <= MaxEnvelopePathBytes).
Proof.
  unfold RecordableEnvelopePath. split.
  - intros (parts & Hp & H)%bind_Some. apply parseEnvelopeParts_Some in Hp as [(-> & -> & ->) | (route & local & dom & -> & Hok & Hpo)].
    { left. by injection H as <-. }
    right. exists route, local, dom. rewrite (parts_null _ _ _ _ Hpo), (parts_domain _ _ _ _ Hpo), (render_keep _ _ _ _ Hpo) in H.
    unfold recorded_domain, written_domain in *. destruct Hpo as (a & -> & Ha). cbn [ep_literal orb asciiDomain] in H.
    destruct (is_literal dom) eqn:El; [injection H as <- | ].
    + exists dom. split_and!; try done. apply Hok.
    + cbn [orb] in H. destruct (IsASCII dom) eqn:Ei.
      * injection H as <-. exists dom. split_and!; try done; [by exists a | apply Hok].
      * apply bounded_Some in H as [-> Hl]. exists a. split_and!; try done. by exists a.
  - intros [(-> & -> & ->) | (route & local & dom & d & -> & Hok & Hd & -> & Hl)]; [done | ].
    destruct (parse_path route local dom allowNull Hok) as (parts & -> & Hpo).
    { unfold recorded_domain in Hd. destruct (is_literal dom); [by left | right]. destruct Hd as (a & Ha & _). eauto. }
    cbn [mbind option_bind]. rewrite (parts_null _ _ _ _ Hpo), (parts_domain _ _ _ _ Hpo), (render_keep _ _ _ _ Hpo).
    unfold recorded_domain, written_domain in *. destruct Hpo as (a & -> & Ha). cbn [ep_literal orb asciiDomain].
    destruct (is_literal dom); [by subst d | ]. destruct Hd as (a' & Ha' & ->). assert (a' = a) as -> by congruence.
    destruct (IsASCII dom); [done | ]. by apply bounded_Some.
Qed.
Lemma canonical_Some path allowNull r :
  canonicalEnvelopePath registration path allowNull = Some r <->
  (allowNull = true /\ path = bs "<>" /\ r = bs "<>") \/
  (exists route local dom d, path = path_text route local dom /\ path_ok route local dom /\ canonical_domain dom d /\
     r = path_text (map fold_byte route) local d /\ len r <= MaxEnvelopePathBytes).
Proof.
  unfold canonicalEnvelopePath. split.
  - intros (parts & Hp & H)%bind_Some. apply parseEnvelopeParts_Some in Hp as [(-> & -> & ->) | (route & local & dom & -> & Hok & Hpo)].
    { left. by injection H as <-. }
    right. rewrite (parts_null _ _ _ _ Hpo), (render_fold _ _ _ _ (proj1 Hok) Hpo) in H. apply bounded_Some in H as [-> Hl].
    exists route, local, dom, (written_domain dom parts). split_and!; try done.
    unfold canonical_domain, written_domain. destruct Hpo as (a & -> & Ha). by destruct (is_literal dom).
  - intros [(-> & -> & ->) | (route & local & dom & d & -> & Hok & Hd & -> & Hl)]; [done | ].
    destruct (parse_path route local dom allowNull Hok) as (parts & -> & Hpo).
    { unfold canonical_domain in Hd. destruct (is_literal dom); [by left | right; eauto]. }
    cbn [mbind option_bind]. rewrite (parts_null _ _ _ _ Hpo), (render_fold _ _ _ _ (proj1 Hok) Hpo). apply bounded_Some.
    assert (written_domain dom parts = d) as -> by (unfold canonical_domain, written_domain in *; destruct Hpo as (a & -> & Ha);
      destruct (is_literal dom); [done | cbn; congruence]).
    done.
Qed.

(** ** Canonical domains *)
Lemma CanonicalEnvelopeDomain_Some path allowNull d :
  CanonicalEnvelopeDomain registration path allowNull = Some d <->
  exists route local dom, path = path_text route local dom /\ path_ok route local dom /\ is_literal dom = false /\
    ToASCII dom = Some d /\ len (path_text route local d) <= MaxEnvelopePathBytes.
Proof.
  assert (forall route local e, is_mailbox local e -> route = [] \/ is_route route ->
    (if len (path_text (map fold_byte route) local e) <? 4 then None
     else let mailbox := interior (path_text (map fold_byte route) local e) in
       match mailbox with
       | [] => None
       | b :: _ =>
           mailbox ←
             (if b =?b x40 then
                match index_byte mailbox x3a with
                | None => None
                | Some separator =>
                    if (Z.of_nat separator <=? 1) || (Z.of_nat separator =? len mailbox - 1) then None
                    else Some (drop (S separator) mailbox)
                end
              else Some mailbox);
           start ← smtpMailboxDomainStart mailbox;
           if len mailbox <=? start then None else canonicalDNSName (suffix mailbox start)
       end) = canonicalDNSName e) as Hmain.
  { intros route local e Hm Hr. pose proof Hm as (Hl & _ & _ & He). destruct e as [|c e]; [done | ]. clear He.
    assert (len (path_text (map fold_byte route) local (c :: e)) <? 4 = false) as ->.
    { rewrite path_len. unfold path_start. rewrite len_cons. pose proof (len_nonneg (map fold_byte route)). pose proof (len_nonneg e).
      destruct (local_head local Hl) as (b & l & -> & _). rewrite len_cons. pose proof (len_nonneg l). lia. }
    cbv zeta. rewrite path_interior.
    assert (forall m, m = local ++ x40 :: c :: e ->
      (start ← smtpMailboxDomainStart m; if len m <=? start then None else canonicalDNSName (suffix m start)) = canonicalDNSName (c :: e)) as Hend.
    { intros m ->. rewrite (proj2 (smtpMailboxDomainStart_Some _ (len local + 1))) by eauto. cbn [mbind option_bind].
      rewrite (proj2 (Z.leb_gt _ _)) by (rewrite len_app, !len_cons; pose proof (len_nonneg e); lia).
      change (x40 :: c :: e) with ([x40] ++ c :: e). rewrite app_assoc, suffix_app; [done | ]. by rewrite len_app. }
    destruct Hr as [-> | Hr]; cbn [map].
    - destruct (local_head local Hl) as (b & l & -> & Hb). cbn [app]. rewrite (proj2 (byte_eqb_ne b x40)) by done.
      cbn [mbind option_bind]. by apply Hend.
    - apply route_fold in Hr as (ds & Hne & Hds & ->). destruct (route_head ds Hne Hds) as (t & Et & Ht).
      pose proof (route_no_colon ds Hds) as Hn. set (r := render_group (map (cons x40) ds)) in *.
      rewrite <- app_assoc, Et. cbn [app]. rewrite byte_eqb_refl.
      change (x40 :: t ++ x3a :: local ++ x40 :: c :: e) with ((x40 :: t) ++ x3a :: (local ++ x40 :: c :: e)).
      rewrite <- Et, index_byte_app by done.
      assert (Z.of_nat (length r) <=? 1 = false) as -> by (rewrite Et; cbn [length]; destruct t; [done | cbn; lia]).
      rewrite (proj2 (Z.eqb_neq _ _)).
      2: { rewrite len_app, len_cons, len_app, len_cons. unfold len. cbn [length]. lia. }
      cbn [orb mbind option_bind]. apply Hend.
      change (x3a :: local ++ x40 :: c :: e) with ([x3a] ++ local ++ x40 :: c :: e). rewrite app_assoc.
      replace (S (length r)) with (length (r ++ [x3a])) by (rewrite length_app; cbn; lia). by rewrite drop_app_length. }
  unfold CanonicalEnvelopeDomain. split.
  - intros (r & Hr & H)%bind_Some. apply canonical_Some in Hr as [(_ & _ & ->) | (route & local & dom & e & -> & Hok & He & -> & Hlen)]; [done | ].
    pose proof Hok as (Hroute & Hm & _). unfold canonical_domain in He. destruct (is_literal dom) eqn:El.
    + subst e. exfalso. rewrite Hmain in H; [ | | done].
      * apply canonicalDNSName_Some in H as [Hd _]. rewrite map_fold_idem in Hd.
        apply ascii_not_literal in Hd. destruct dom as [|b dom]; [done | ]. cbn in El, Hd. apply byte_eqb_eq in El as ->. done.
      * destruct Hm as (? & ? & ? & Hd). split_and!; [done | done | by rewrite len_mapped | ].
        destruct dom as [|b dom]; [done | ]. cbn [map]. cbn in El. apply byte_eqb_eq in El as ->.
        change (fold_byte x5b =?b x5b) with true. change (fold_byte x5b :: map fold_byte dom) with (map fold_byte (x5b :: dom)).
        by apply literal_fold.
    + pose proof (ToASCII_domain _ _ _ He) as Hd. rewrite Hmain in H; [ | by eapply domain_mailbox | done].
      rewrite canonicalDNSName_domain in H by done. injection H as ->.
      exists route, local, dom. split_and!; try done. rewrite path_len in *. unfold path_start in *. by rewrite len_mapped in Hlen.
  - intros (route & local & dom & -> & Hok & El & Ha & Hlen). pose proof (ToASCII_domain _ _ _ Ha) as Hd.
    pose proof Hok as (Hroute & Hm & _).
    rewrite (proj2 (canonical_Some _ _ (path_text (map fold_byte route) local d))).
    + cbn [mbind option_bind]. rewrite Hmain; [by apply canonicalDNSName_domain | by eapply domain_mailbox | done].
    + right. exists route, local, dom, d. split_and!; try done; [unfold canonical_domain; by rewrite El | ].
      rewrite path_len in *. unfold path_start in *. by rewrite len_mapped.
Qed.
End idna.

(** ** Theorems *)
Section paths.
Context (registration : bytes -> option bytes).
#[local] Abbreviation ToASCII := (DomainName.ToASCII registration).

(** C27: parseEnvelopeParts accepts exactly the null path, where it is allowed,
    and the bracketed texts of at most 256 octets made of an optional source
    route, a local part (a dot string or a quoted string) of at most 64 octets,
    an at sign and an address literal or a domain that converts to A-labels;
    the positions it returns are those of the parts, inside the text. *)
Theorem parseEnvelopeParts_refines path allowNull parts :
  parseEnvelopeParts registration path allowNull = Some parts <->
  (allowNull = true /\ path = bs "<>" /\ parts = nullParts) \/
  (exists route local dom, path = path_text route local dom /\ path_ok route local dom /\
     parts_of registration route local dom parts).
Proof. apply parseEnvelopeParts_Some. Qed.

(** The canonical domain of a path exists exactly for paths with a DNS
    domain whose converted form keeps the path within 256 octets, and is the
    A-label form of that domain: never that of a source route or of an address
    literal. *)
Theorem CanonicalEnvelopeDomain_exact path allowNull d :
  CanonicalEnvelopeDomain registration path allowNull = Some d <->
  exists route local dom, path = path_text route local dom /\ path_ok route local dom /\ is_literal dom = false /\
    ToASCII dom = Some d /\ len (path_text route local d) <= MaxEnvelopePathBytes.
Proof. apply CanonicalEnvelopeDomain_Some. Qed.

Section fixed.
Hypothesis registration_fixed : forall d a, registration d = Some a -> registration a = Some a.

Lemma literal_ok route local dom :
  path_ok route local dom -> is_literal dom = true ->
  path_ok (map fold_byte route) local (map fold_byte dom) /\ is_literal (map fold_byte dom) = true.
Proof using.
  intros (Hr & (Hl & Hll & Hdl & Hd) & Hlen) El. destruct dom as [|b dom]; [done | ]. cbn in El.
  apply byte_eqb_eq in El as ->. split; [ | done]. split_and!.
  - destruct Hr as [-> | Hr]; [by left | right; by apply route_fold].
  - split_and!; [done | done | by rewrite len_mapped | ].
    apply (literal_fold (x5b :: dom)). by rewrite byte_eqb_refl in Hd.
  - rewrite path_len in *. unfold path_start in *. by rewrite !len_mapped.
Qed.
Lemma converted_ok route local dom a :
  path_ok route local dom -> is_literal dom = false -> ToASCII dom = Some a -> len (path_text route local a) <= MaxEnvelopePathBytes ->
  path_ok route local a /\ is_literal a = false /\ ToASCII a = Some a /\ IsASCII a = true.
Proof using registration_fixed.
  intros (Hr & Hm & _) El Ha Hlen. pose proof (ToASCII_domain _ _ _ Ha) as Hd. split_and!.
  - split_and!; [done | by eapply domain_mailbox | done].
  - by apply ascii_not_literal.
  - by apply (ToASCII_fixed registration registration_fixed dom).
  - by apply domain_folded.
Qed.

Lemma recordable_fixed path allowNull r :
  RecordableEnvelopePath registration path allowNull = Some r ->
  RecordableEnvelopePath registration r allowNull = Some r /\
  (validRecordedEnvelopePath registration r allowNull = true \/
   exists route local dom, r = path_text route local dom /\ path_ok route local dom /\ is_literal dom = true /\ IsASCII dom = false).
Proof using registration_fixed.
  intros [(-> & -> & ->) | (route & local & dom & d & -> & Hok & Hd & -> & Hlen)]%Recordable_Some; [split; [done | by left] | ].
  assert (path_ok route local d /\ recorded_domain registration d d /\ (is_literal d = true \/ exists a, ToASCII d = Some a) /\
          (is_literal d = false -> IsASCII d = true)) as (Hok' & Hrec & Hp & Hasc).
  { unfold recorded_domain in *. destruct (is_literal dom) eqn:El; [subst d; rewrite El; split_and!; auto; done | ].
    destruct Hd as (a & Ha & ->). destruct (IsASCII dom) eqn:Ei.
    - rewrite El, Ei. split_and!; [done | by exists a | right; by exists a | done].
    - destruct (converted_ok _ _ _ _ Hok El Ha Hlen) as (? & -> & ? & ->). split_and!; try done; [by exists a | right; by exists a]. }
  split; [apply Recordable_Some; right; exists route, local, d, d; by split_and! | ].
  destruct (IsASCII d) eqn:Ei.
  - left. unfold validRecordedEnvelopePath. destruct (parse_path registration route local d allowNull Hok' Hp) as (parts & -> & Hpo).
    by rewrite (parts_null _ _ _ _ _ Hpo), (parts_domain _ _ _ _ _ Hpo), Ei.
  - right. exists route, local, d. split_and!; [done | done | | done]. destruct (is_literal d); [done | by discriminate Hasc].
Qed.

(** A path whose domain is an address literal with octets outside ASCII: the
    zone of an IPv6 address. *)
Definition zoned_path (path : bytes) : Prop :=
  exists route local dom, path = path_text route local dom /\ path_ok route local dom /\ is_literal dom = true /\
    IsASCII dom = false.
Lemma zoned_rejected path allowNull : zoned_path path -> validRecordedEnvelopePath registration path allowNull = false.
Proof.
  intros (route & local & dom & -> & Hok & Hlit & Hasc). unfold validRecordedEnvelopePath.
  destruct (parse_path registration route local dom allowNull Hok (or_introl Hlit)) as (parts & -> & Hpo).
  by rewrite (parts_null _ _ _ _ _ Hpo), (parts_domain _ _ _ _ _ Hpo).
Qed.

(** C28: provided that the IDNA library maps its own results to themselves,
    recording a recorded path again leaves it unchanged, and the parser accepts
    a recorded path exactly when its domain is not an address literal with
    octets outside ASCII (the zone of an IPv6 address), which is recorded and
    then rejected. *)
Theorem recorded_path_accepted path allowNull r :
  RecordableEnvelopePath registration path allowNull = Some r ->
  RecordableEnvelopePath registration r allowNull = Some r /\
  (validRecordedEnvelopePath registration r allowNull = true <-> ~ zoned_path r).
Proof using registration_fixed.
  intros H. destruct (recordable_fixed _ _ _ H) as [Hr Hcase]. split; [done | ]. split.
  - intros Hv Hz. by rewrite (zoned_rejected _ _ Hz) in Hv.
  - intros Hz. by destruct Hcase.
Qed.

(** The canonical form of a path is its own canonical form, and has the same
    canonical domain, provided that the IDNA library maps its own results to
    themselves. *)
Theorem canonical_path_idempotent path allowNull r :
  canonicalEnvelopePath registration path allowNull = Some r ->
  canonicalEnvelopePath registration r allowNull = Some r /\
  forall d, CanonicalEnvelopeDomain registration path allowNull = Some d ->
    CanonicalEnvelopeDomain registration r allowNull = Some d.
Proof using registration_fixed.
  intros Hr.
  assert (canonicalEnvelopePath registration r allowNull = Some r) as Hrr.
  { apply canonical_Some in Hr as [(-> & -> & ->) | (route & local & dom & d & -> & Hok & Hd & -> & Hlen)]; [done | ].
    apply canonical_Some. right. exists (map fold_byte route), local, d, d. rewrite map_fold_idem.
    unfold canonical_domain in *. destruct (is_literal dom) eqn:El.
    - subst d. destruct (literal_ok _ _ _ Hok El) as [? Hl]. rewrite Hl, map_fold_idem. by split_and!.
    - assert (len (path_text route local d) <= MaxEnvelopePathBytes) as Hlen'.
      { rewrite path_len in *. unfold path_start in *. by rewrite len_mapped in Hlen. }
      destruct (converted_ok _ _ _ _ Hok El Hd Hlen') as ((Hroute & Hm & _) & -> & Ha & _).
      assert (map fold_byte route = [] \/ is_route (map fold_byte route)) as Hroute'.
      { destruct Hroute as [-> | Hroute]; [by left | right; by apply route_fold]. }
      by split_and!. }
  split; [done | ]. intros d. unfold CanonicalEnvelopeDomain. by rewrite Hr, Hrr.
Qed.
End fixed.
End paths.

(** ** Witnesses *)
Definition sample_idna (d : bytes) : option bytes := Some (bs "xn--bcher-kva.example").
Lemma sample_idna_fixed d a : sample_idna d = Some a -> sample_idna a = Some a.
Proof. by intros [= <-]. Qed.
(** A mailbox at a domain that is not ASCII, recorded with its A-label form. *)
Definition sample_path : bytes := bs "<a@b" ++ [xc3; xbc] ++ bs "cher.example>".
Definition sample_recorded : bytes := bs "<a@xn--bcher-kva.example>".
Lemma recorded_path_accepted_witness :
  RecordableEnvelopePath sample_idna sample_path false = Some sample_recorded /\
  RecordableEnvelopePath sample_idna sample_recorded false = Some sample_recorded /\
  validRecordedEnvelopePath sample_idna sample_recorded false = true /\ ~ zoned_path sample_recorded.
Proof.
  assert (RecordableEnvelopePath sample_idna sample_path false = Some sample_recorded) as H by (vm_compute; reflexivity).
  destruct (recorded_path_accepted sample_idna sample_idna_fixed _ _ _ H) as [H1 [H2 _]].
  assert (validRecordedEnvelopePath sample_idna sample_recorded false = true) as Hv by (vm_compute; reflexivity).
  split; [exact H | split; [exact H1 | split; [exact Hv | exact (H2 Hv)]]].
Defined.
Definition sample_routed : bytes := bs "<@Relay.Example:Some.One@B" ++ [xc3; xbc] ++ bs "cher.example>".
Definition sample_canonical : bytes := bs "<@relay.example:Some.One@xn--bcher-kva.example>".
Lemma canonical_path_idempotent_witness :
  canonicalEnvelopePath sample_idna sample_routed false = Some sample_canonical /\
  canonicalEnvelopePath sample_idna sample_canonical false = Some sample_canonical.
Proof.
  assert (canonicalEnvelopePath sample_idna sample_routed false = Some sample_canonical) as H by (vm_compute; reflexivity).
  split; [exact H | exact (proj1 (canonical_path_idempotent sample_idna sample_idna_fixed _ _ _ H))].
Defined.

(** The zone of an IPv6 address literal may hold any octets: such a path is
    recorded, but the field that holds it does not parse. *)
Definition zone_path : bytes := bs "<a@[IPv6:fe80::1%" ++ [xff] ++ bs "]>".
Example recorded_zone_rejected :
  RecordableEnvelopePath (fun _ => None) zone_path false = Some zone_path /\
  validRecordedEnvelopePath (fun _ => None) zone_path false = false.
Proof. split; vm_compute; reflexivity. Qed.
(** The local part of a path with an address literal need not be UTF-8. *)
Definition latin1_path : bytes := bs "<" ++ [xff] ++ bs "@[192.0.2.1]>".
Example literal_local_not_utf8 :
  validEnvelopePath (fun _ => None) latin1_path false = true /\ utf8_valid [xff] = false /\
  validEnvelopePath (fun _ => None) (bs "<" ++ [xff] ++ bs "@example.org>") false = false.
Proof. split_and!; vm_compute; reflexivity. Qed.
