(* ===== verification/SigParser.v ===== *)
(** * Package internal/signature: DKIM2-Signature fields (signatures.go, parser.go)

    The IDNA library stays a parameter, as in SigEnvelope.v. *)

From stdpp Require Import gmap.
From S2P Require Import Prelude GoBytes GoStrconv RawMsg TagTypes TagScan TagBase64 Combine TagSpec DomainName SigAlgorithm SigTypes SigEnvelope.
#[local] Open Scope Z_scope.

(** ** signatures.go *)
Definition ed25519SignatureBytes : Z := 64.
Definition mldsa44SignatureBytes : Z := 2420.
Definition maxRSASignatureBytes : Z := 1024.
Definition fixedSignatureBytes (a : Algorithm) : option Z :=
  if bytes_equal a AlgorithmEd25519SHA256 then Some ed25519SignatureBytes
  else if bytes_equal a AlgorithmMLDSA44 then Some mldsa44SignatureBytes
  else None.
Definition DecodedLen (b : Base64String) : Z := len (decoded b).

Definition malformedSignatureSetError (fieldIndex signatureIndex : Z) : Failure :=
  sigError ErrorCodeMalformedSignatureSet (MkLoc fieldIndex 0 signatureIndex 0) (tagDetails "s").
Definition knownSignatureAlgorithm (a : bytes) : bool := Algorithm_Known a.

Definition parseSignatureSet (input : bytes) (limits : TagTypes.Limits) (fieldIndex signatureIndex : Z)
    : outcome Failure SigSet :=
  match split_byte x3a input with
  | [c0; c1; c2] =>
      let rawSelector := (trimWSP c0).1 in
      let rawAlgorithm := (trimWSP c1).1 in
      let rawSignature := trimTrailingWSP c2 in
      match canonicalDNSName rawSelector with
      | None => Fail (malformedSignatureSetError fieldIndex signatureIndex)
      | Some sel =>
          match ParseTextstring rawAlgorithm, rawSignature with
          | None, _ | Some _, [] => Fail (malformedSignatureSetError fieldIndex signatureIndex)
          | Some alg, first :: _ =>
              check require (negb (isWSP first)) (malformedSignatureSetError fieldIndex signatureIndex) ;;
              let* sig := map_fail (fun cause => SignatureFailure
                    (newError ErrorCodeInvalidSignatureBase64 (MkLoc fieldIndex 0 signatureIndex 0)
                       (tagDetails "s") (Some cause)))
                  (ParseBase64String rawSignature limits) in
              let set := MkSet sel rawSelector alg (knownSignatureAlgorithm alg) sig in
              match fixedSignatureBytes alg with
              | Some exact =>
                  check require (DecodedLen sig =? exact)
                    (sigError ErrorCodeInvalidSignatureLength (MkLoc fieldIndex 0 signatureIndex 0)
                       (MkDetails "s" "" exact (DecodedLen sig) 0 0)) ;;
                  Ret set
              | None => Ret set
              end
          end
      end
  | _ => Fail (malformedSignatureSetError fieldIndex signatureIndex)
  end.

Fixpoint setsLoop (parts : list bytes) (limits : TagTypes.Limits) (fieldIndex i : Z)
    (selectors : selectorUniqueness) (acc : list SigSet) : outcome Failure (list SigSet) :=
  match parts with
  | [] => Ret acc
  | part :: rest =>
      let* set := parseSignatureSet part limits fieldIndex i in
      let* selectors := selector_add selectors (selector set) fieldIndex i in
      setsLoop rest limits fieldIndex (i + 1) selectors (acc ++ [set])
  end.
Definition parseSignatureSets (value : bytes) (limits : Limits) (fieldIndex : Z)
    : outcome Failure (list SigSet * Layout) :=
  check require (negb (len value =? 0)) (malformedSignatureSetError fieldIndex 0) ;;
  let count := CountSets value in
  check require (negb (MaxSignatureSets limits <? count))
    (sigError ErrorCodeLimitExceeded (fieldLoc fieldIndex)
       (MkDetails "s" "max_signature_sets" (MaxSignatureSets limits) count 0 0)) ;;
  match Split value with
  | None => Fail (malformedSignatureSetError fieldIndex 0)
  | Some (parts, layout) =>
      let* sets := setsLoop parts (TagLimits limits) fieldIndex 0 newSelectorUniqueness [] in
      Ret (sets, layout)
  end.

(** ** parser.go *)
Definition knownSignatureTags : KnownTags :=
  match NewKnownTags (map bs ["i"; "m"; "t"; "mf"; "rt"; "nd"; "d"; "s"; "n"; "f"]%string) with
  | Ret k => k | _ => MkKnown ∅ end.

Definition invalidEnvelopeFormError (fieldIndex : Z) : Failure :=
  sigError ErrorCodeInvalidEnvelopeForm (fieldLoc fieldIndex) noDetails.
Definition missingTagError (fieldIndex : Z) (tagName : TagName) : Failure :=
  sigError ErrorCodeMissingRequiredTag (fieldLoc fieldIndex) (tagDetails tagName).
Definition invalidNumberError (fieldIndex : Z) (tagName : TagName) : Failure :=
  sigError ErrorCodeInvalidNumber (fieldLoc fieldIndex) (tagDetails tagName).
Definition invalidTimestampError (fieldIndex : Z) : Failure :=
  sigError ErrorCodeInvalidTimestamp (fieldLoc fieldIndex) (tagDetails "t").

#[local] Abbreviation Get := (get_tag TagFailure).
Definition requiredTag (field : Field) (fieldIndex : Z) (tagName : string) : outcome Failure Tag :=
  let* tag := Get field (bs tagName) in
  match tag with
  | Some tag => Ret tag
  | None => Fail (missingTagError fieldIndex tagName)
  end.
Definition decimal_digits (value : bytes) : bool := forallb (fun b => in_range x30 b x39) value.
Definition parsePositiveDecimal (value : bytes) (fieldIndex : Z) (tagName : TagName) : outcome Failure Z :=
  check require (negb (bool_decide (value = []))) (invalidNumberError fieldIndex tagName) ;;
  check require (decimal_digits value) (invalidNumberError fieldIndex tagName) ;;
  match ParseUint value with
  | Some n => if n =? 0 then Fail (invalidNumberError fieldIndex tagName) else Ret n
  | None => Fail (invalidNumberError fieldIndex tagName)
  end.
Definition parseTimestamp (value : bytes) (fieldIndex : Z) : outcome Failure Z :=
  check require (negb (bool_decide (value = []))) (invalidTimestampError fieldIndex) ;;
  check require (decimal_digits value) (invalidTimestampError fieldIndex) ;;
  match ParseUint value with
  | Some n => Ret n
  | None => Fail (invalidTimestampError fieldIndex)
  end.

(** A parser is its limits. *)
Definition NewParser (limits : Limits) : outcome Failure Limits :=
  let limits := Limits_normalize limits in
  check Limits_Validate limits ;; Ret limits.

(** The envelope of a field: its next domain, or its paths. *)
Inductive envelope := NextDomainForm (d : bytes) | PathsForm (from : EnvelopePath) (to : list EnvelopePath).
Definition set_envelope (s : Signature) (e : envelope) : Signature :=
  match e with
  | NextDomainForm d =>
      MkSignature (sequence s) (instanceNumber s) (timestamp s) (mailFrom s) (recipients s) d true (domain s)
        (signatures s) (setLayout s) (flags s) (nonce s) (hasNonce s) (headerIndex s)
  | PathsForm from to =>
      MkSignature (sequence s) (instanceNumber s) (timestamp s) from to (nextDomain s) (hasNextDomain s) (domain s)
        (signatures s) (setLayout s) (flags s) (nonce s) (hasNonce s) (headerIndex s)
  end.
Definition set_nonce (s : Signature) (n : bytes) : Signature :=
  MkSignature (sequence s) (instanceNumber s) (timestamp s) (mailFrom s) (recipients s) (nextDomain s)
    (hasNextDomain s) (domain s) (signatures s) (setLayout s) (flags s) n true (headerIndex s).
Definition set_flags (s : Signature) (f : Flags) : Signature :=
  MkSignature (sequence s) (instanceNumber s) (timestamp s) (mailFrom s) (recipients s) (nextDomain s)
    (hasNextDomain s) (domain s) (signatures s) (setLayout s) f (nonce s) (hasNonce s) (headerIndex s).

Section idna.
Variable registration_ToASCII : bytes -> option bytes.

Definition parseEnvelopeForm (limits : Limits) (field : Field) (fieldIndex : Z) : outcome Failure envelope :=
  let* nextDomainTag := Get field (bs "nd") in
  let* mailFromTag := Get field (bs "mf") in
  let* recipientsTag := Get field (bs "rt") in
  match nextDomainTag with
  | Some nd =>
      match mailFromTag, recipientsTag with
      | None, None =>
          let* d := parseDomain (tag_value nd) fieldIndex "nd" in
          Ret (NextDomainForm d)
      | _, _ => Fail (invalidEnvelopeFormError fieldIndex)
      end
  | None =>
      match mailFromTag, recipientsTag with
      | Some mf, Some rt =>
          let* from := parseEnvelopePath registration_ToASCII (tag_value mf) (TagLimits limits) fieldIndex (-1) "mf" in
          let* to := parseRecipientPaths registration_ToASCII (tag_value rt) limits fieldIndex in
          Ret (PathsForm from to)
      | _, _ => Fail (invalidEnvelopeFormError fieldIndex)
      end
  end.

Definition ParseField (limits : Limits) (field : HeaderField) : outcome Failure Signature :=
  let index := hf_index field in
  check require (bool_decide (nameLower field = HeaderName))
    (sigError ErrorCodeWrongHeaderField (fieldLoc index) noDetails) ;;
  let* tagField := map_fail TagFailure (ScanHeader (unfoldedValue field) knownSignatureTags (TagLimits limits)) in
  let* sequenceTag := requiredTag tagField index "i" in
  let* instanceTag := requiredTag tagField index "m" in
  let* timestampTag := requiredTag tagField index "t" in
  let* domainTag := requiredTag tagField index "d" in
  let* signaturesTag := requiredTag tagField index "s" in
  let* sequence := parsePositiveDecimal (tag_value sequenceTag) index "i" in
  let* instanceNumber := parsePositiveDecimal (tag_value instanceTag) index "m" in
  let* timestamp := parseTimestamp (tag_value timestampTag) index in
  let* domain := parseDomain (tag_value domainTag) index "d" in
  let* (sets, layout) := parseSignatureSets (tag_value signaturesTag) limits index in
  let signature := MkSignature sequence instanceNumber timestamp noPath [] [] false domain sets layout noFlags [] false index in
  let* form := parseEnvelopeForm limits tagField index in
  let signature := set_envelope signature form in
  let* nonceTag := Get tagField (bs "n") in
  let* signature :=
    match nonceTag with
    | Some tag => let* n := parseNonce (tag_value tag) limits index in Ret (set_nonce signature n)
    | None => Ret signature
    end in
  let* flagsTag := Get tagField (bs "f") in
  match flagsTag with
  | Some tag => let* f := parseFlags (tag_value tag) limits index in Ret (set_flags signature f)
  | None => Ret signature
  end.
Definition Parse (field : HeaderField) : outcome Failure Signature :=
  let* parser := NewParser (MkLimits (TagTypes.MkLimits 0 0 0 0 0) 0 0 0 0 0) in ParseField parser field.
End idna.
