(* ===== verification/SigSpec.v ===== *)
(** * What a DKIM2-Signature field is, and that the parser reads exactly that

    The grammar of signature sets, recipients, flags and the field's tags, the
    values they denote, and the refinement theorem for ParseField. *)

From stdpp Require Import gmap.
From S2P Require Import Prelude GoBytes GoBase64 GoStrconv RawMsg TagTypes TagScan TagBase64 Combine TagSpec DomainName SigAlgorithm SigTypes SigEnvelope SigEnvelopeSpec SigParser.
#[local] Open Scope Z_scope.

Lemma isWSP_tag b : SigTypes.isWSP b = TagTypes.isWSP b.
Proof. done. Qed.

(** ** Signature sets *)
Definition set_text (s : SigSet) (text piece : bytes) : Prop :=
  exists w1 w2 w3 w4 w5, wsp w1 /\ wsp w2 /\ wsp w3 /\ wsp w4 /\ wsp w5 /\
    piece = (w1 ++ rawSelector s ++ w2) ++ x3a :: (w3 ++ algorithm s ++ w4) ++ x3a :: text ++ w5.
Definition ok_set (L : TagTypes.Limits) (s : SigSet) (text : bytes) : Prop :=
  is_domain (map fold_byte (rawSelector s)) /\ selector s = map fold_byte (rawSelector s) /\
  ParseTextstring (algorithm s) = Some (algorithm s) /\ knownAlgorithm s = Algorithm_Known (algorithm s) /\
  base64_value L text (set_signature s) /\
  (forall n, fixedSignatureBytes (algorithm s) = Some n -> DecodedLen (set_signature s) = n).
Definition denotes_set (L : TagTypes.Limits) (s : SigSet) (piece : bytes) : Prop :=
  exists text, set_text s text piece /\ ok_set L s text.

Lemma raw_domain_chars d : is_domain (map fold_byte d) ->
  Forall (fun b => isASCIILetterOrDigit b || (b =?b x2d) || (b =?b x2e) = true) d.
Proof.
  intros [Hl H]. apply smtp_domain_chars. split; [rewrite len_mapped in Hl; unfold maxDomainBytes in Hl; lia | ].
  rewrite split_byte_fold, Forall_map in H. done.
Qed.
Lemma domain_byte_dark b : isASCIILetterOrDigit b || (b =?b x2d) || (b =?b x2e) = true -> TagTypes.isWSP b = false.
Proof.
  intros H. apply negb_true_iff. revert b H. apply byte_implb. by vm_compute.
Qed.
Lemma raw_domain_facts d : is_domain (map fold_byte d) -> edged TagTypes.isWSP d /\ x3a ∉ d.
Proof.
  intros Hd%raw_domain_chars. split.
  - by eapply (all_dark_edged (fun b => isASCIILetterOrDigit b || (b =?b x2d) || (b =?b x2e))); [apply domain_byte_dark | ].
  - by apply (chars_no (fun b => isASCIILetterOrDigit b || (b =?b x2d) || (b =?b x2e))).
Qed.
Lemma textstring_facts t : ParseTextstring t = Some t -> edged TagTypes.isWSP t /\ x3a ∉ t /\ x2c ∉ t.
Proof.
  intros (_ & _ & H)%ParseTextstring_Some. split_and!; [ | by eapply chars_no..].
  eapply all_dark_edged; [ | done]. intros b Hb%textstring_byte_facts. tauto.
Qed.

Section sets.
Context (limits : TagTypes.Limits).
Let L := TagTypes.Limits_normalize limits.
Hypothesis Hvalid : TagTypes.Limits_Validate L = Ret tt.

Lemma set_split s text piece :
  set_text s text piece -> ok_set L s text ->
  exists c0 c1 c2, split_byte x3a piece = [c0; c1; c2] /\ (SigTypes.trimWSP c0).1 = rawSelector s /\
    (SigTypes.trimWSP c1).1 = algorithm s /\ SigTypes.trimTrailingWSP c2 = text.
Proof using.
  intros (w1 & w2 & w3 & w4 & w5 & H1 & H2 & H3 & H4 & H5 & ->) (Hd & _ & Ht & _ & Hb & _).
  apply raw_domain_facts in Hd as [He Hc]. apply textstring_facts in Ht as (He' & Hc' & _).
  pose proof (base64_value_chars _ _ _ Hb) as Hbc.
  exists (w1 ++ rawSelector s ++ w2), (w3 ++ algorithm s ++ w4), (text ++ w5). split_and!.
  - rewrite split_byte_app by (rewrite !not_elem_of_app; split_and!; [by apply wsp_no_colon | done | by apply wsp_no_colon]).
    rewrite split_byte_app by (rewrite !not_elem_of_app; split_and!; [by apply wsp_no_colon | done | by apply wsp_no_colon]).
    rewrite split_byte_plain; [done | ]. rewrite not_elem_of_app. split; [by eapply chars_no | by apply wsp_no_colon].
  - by apply trim_bytes_mid.
  - by apply trim_bytes_mid.
  - apply trim_trailing_app; [apply Hb | done].
Qed.

Lemma parseSignatureSet_Ret piece fieldIndex i s :
  parseSignatureSet piece limits fieldIndex i = Ret s <-> denotes_set L s piece.
Proof using Hvalid.
  split.
  - unfold parseSignatureSet. destruct (split_byte x3a piece) as [|c0 [|c1 [|c2 [|? ?]]]] eqn:Es; try done.
    apply split_byte_inv in Es as (_ & [[? _] | (s1 & -> & Es)]); [done | ].
    apply split_byte_inv in Es as (_ & [[? _] | (s2 & -> & Es)]); [done | ].
    apply split_byte_inv in Es as (_ & [[_ ->] | (s3 & -> & Es)]); [ | by apply split_byte_nonempty in Es].
    destruct (canonicalDNSName _) as [sel|] eqn:Esel; [ | done]. apply canonicalDNSName_Some in Esel as [Hd ->].
    destruct (ParseTextstring _) as [alg|] eqn:Ealg; [ | done]. apply ParseTextstring_Some in Ealg as (-> & Hne & Ht).
    destruct (trimTrailingWSP c2) as [|first text] eqn:Esig; [done | ]. intros H.
    apply obind_ret_inv in H as (? & _ & H).
    apply obind_ret_inv in H as (v & Hv%map_fail_Ret & H). apply ParseBase64String_value in Hv; [ | done].
    destruct (trim_bytes_split TagTypes.isWSP c0) as (w1 & w2 & E0 & _ & H1 & H2).
    destruct (trim_bytes_split TagTypes.isWSP c1) as (w3 & w4 & E1 & _ & H3 & H4).
    destruct (trim_trailing_spec c2) as (w5 & H5 & E2 & _). change (trim_trailing TagTypes.isWSP c2) with (trimTrailingWSP c2) in E2.
    rewrite Esig in E2.
    assert (s = MkSet (map fold_byte (SigTypes.trimWSP c0).1) (SigTypes.trimWSP c0).1 (SigTypes.trimWSP c1).1
                  (Algorithm_Known (SigTypes.trimWSP c1).1) v /\
            (forall n, fixedSignatureBytes (SigTypes.trimWSP c1).1 = Some n -> DecodedLen v = n)) as [-> Hlen].
    { destruct (fixedSignatureBytes _) as [n|]; [ | by injection H as <-].
      apply obind_ret_inv in H as (? & Hx%require_ret_inv%Z.eqb_eq & H). injection H as <-. split; [done | ]. by intros ? [= <-]. }
    exists (first :: text). split.
    + exists w1, w2, w3, w4, w5. split_and!; try done. cbn [rawSelector algorithm]. cbn. 
      change (trim_bytes SigTypes.isWSP c0) with (trim_bytes TagTypes.isWSP c0).
      change (trim_bytes SigTypes.isWSP c1) with (trim_bytes TagTypes.isWSP c1). rewrite <- E0, <- E1.
      by rewrite E2.
    + split_and!; try done. by apply ParseTextstring_Some.
  - intros (text & Ht & Hok). destruct (set_split s text piece Ht Hok) as (c0 & c1 & c2 & Es & E0 & E1 & E2).
    destruct Hok as (Hd & Hs & Ha & Hk & Hb & Hl). unfold parseSignatureSet. rewrite Es, E0, E1, E2.
    rewrite (proj2 (canonicalDNSName_Some _ (selector s))) by done. rewrite Ha.
    pose proof (base64_value_nonempty _ _ _ Hb) as Hne. destruct text as [|first text]; [done | ].
    assert (SigTypes.isWSP first = false) as -> by (destruct Hb as ([He _] & _); by eapply He).
    cbn [negb require obind]. rewrite (proj2 (map_fail_Ret _ _ (set_signature s))) by by apply ParseBase64String_value.
    cbn [obind]. unfold knownSignatureAlgorithm. rewrite <- Hk. destruct (fixedSignatureBytes _) as [n|].
    + rewrite (Hl n eq_refl), Z.eqb_refl. cbn. by destruct s.
    + by destruct s.
Qed.
End sets.

(** ** The s= value *)
(** Groups of signature sets with distinct selectors. *)
Definition signatures_value (L : TagTypes.Limits) (maxSets : Z) (text : bytes) (ss : list SigSet) (l : Layout) : Prop :=
  exists gs, groups_ok gs /\ len (concat gs) <= MaxSets /\ len (concat gs) <= maxSets /\
    text = render_groups gs /\ l = layout_of (map len gs) /\
    Forall2 (denotes_set L) ss (concat gs) /\ NoDup (selector <$> ss).

Section values.
Context (limits : Limits) (fieldIndex : Z).
Let L := TagTypes.Limits_normalize (TagLimits limits).
Hypothesis Hvalid : TagTypes.Limits_Validate L = Ret tt.

Lemma selector_add_Ret u s i u' : selector_add u s fieldIndex i = Ret u' <-> s ∉ u /\ u' = {[s]} ∪ u.
Proof using. unfold selector_add. case_bool_decide; split; [done | by intros [? _] | by intros [= <-] | by intros [_ ->]]. Qed.

Lemma setsLoop_Ret parts i seen acc r :
  setsLoop parts (TagLimits limits) fieldIndex i seen acc = Ret r <->
  exists ss, Forall2 (denotes_set L) ss parts /\ NoDup (selector <$> ss) /\
    (forall s, s ∈ ss -> selector s ∉ seen) /\ r = acc ++ ss.
Proof using Hvalid.
  revert i seen acc. induction parts as [|p parts IH]; intros i seen acc; cbn [setsLoop].
  - split.
    + intros [= <-]. exists []. rewrite app_nil_r. split_and!; [done | constructor | | done].
      by intros h ?%elem_of_nil.
    + intros (hs & Hf & _ & _ & ->). apply Forall2_nil_inv_r in Hf as ->. by rewrite app_nil_r.
  - split.
    + intros H. apply obind_ret_inv in H as (s & Hh%parseSignatureSet_Ret & H); [ | done].
      apply obind_ret_inv in H as (u & [Hn ->]%selector_add_Ret & H).
      apply IH in H as (ss & Hf & Hnd & Hs & ->). exists (s :: ss). rewrite <- app_assoc.
      split_and!; [by constructor | | | done].
      * cbn. constructor; [ | done]. intros (s' & Hs' & Hin)%list_elem_of_fmap.
        apply (Hs s' Hin). rewrite <- Hs'. set_solver.
      * intros s' [-> | Hin]%elem_of_cons; [done | ]. apply Hs in Hin. set_solver.
    + intros (ss & Hf & Hnd & Hs & ->). apply Forall2_cons_inv_r in Hf as (s & ss' & Hh & Hf & ->).
      cbn in Hnd. apply NoDup_cons in Hnd as [Hni Hnd].
      rewrite (proj2 (parseSignatureSet_Ret (TagLimits limits) Hvalid p fieldIndex i s)) by done. cbn [obind].
      rewrite (proj2 (selector_add_Ret seen (selector s) i ({[selector s]} ∪ seen))) by (split; [apply Hs; set_solver | done]).
      cbn [obind]. apply IH. exists ss'. rewrite <- app_assoc. split_and!; [done | done | | done].
      intros s' Hin. rewrite not_elem_of_union, not_elem_of_singleton. split; [ | apply Hs; set_solver].
      intros E. apply Hni. rewrite <- E. by apply list_elem_of_fmap_2.
Qed.

Lemma parseSignatureSets_Ret text ss l :
  parseSignatureSets text limits fieldIndex = Ret (ss, l) <-> signatures_value L (MaxSignatureSets limits) text ss l.
Proof using Hvalid.
  unfold parseSignatureSets, signatures_value. split.
  - intros H. apply obind_ret_inv in H as (? & _ & H).
    apply obind_ret_inv in H as (? & Hc%require_ret_inv%negb_true_iff%Z.ltb_ge & H).
    destruct (Split text) as [[parts l']|] eqn:Es; [ | done].
    apply obind_ret_inv in H as (ss' & H & [= <- <-]).
    apply Split_iff in Es as (gs & Hok & Hlen & -> & -> & ->). rewrite CountSets_groups in Hc by done.
    apply setsLoop_Ret in H as (ss'' & Hf & Hnd & _ & ->). exists gs. by split_and!.
  - intros (gs & Hok & Hlen & Hmax & -> & -> & Hf & Hnd).
    rewrite CountSets_groups, (proj2 (Z.ltb_ge _ _)) by done. pose proof (render_groups_nonempty gs Hok).
    rewrite (proj2 (Z.eqb_neq _ _)). 2: { destruct (render_groups gs) as [|b s]; [done | ]. rewrite len_cons.
      pose proof (len_nonneg s). lia. }
    cbn [negb require obind]. rewrite (proj2 (Split_iff _ (concat gs) (layout_of (map len gs)))) by by exists gs.
    rewrite (proj2 (setsLoop_Ret _ _ _ _ ss)); [done | ]. exists ss. split_and!; [done | done | | done].
    unfold newSelectorUniqueness. set_solver.
Qed.

End values.

(** ** Flags *)
Definition denotes_flag (f : Flag) (part : bytes) : Prop :=
  exists w1 w2, wsp w1 /\ wsp w2 /\ part = w1 ++ flag_name f ++ w2 /\
    ParseTextstring (flag_name f) = Some (flag_name f) /\ flag_known f = knownFlag (flag_name f).
Definition flags_value (maxFlags : Z) (text : bytes) (f : Flags) : Prop :=
  exists parts, text = render_group parts /\ text <> [] /\ len parts <= maxFlags /\
    Forall2 denotes_flag (values f) parts /\
    NoDup (flag_name <$> List.filter flag_known (values f)).

Lemma flag_parse part name :
  ParseTextstring (SigTypes.trimWSP part).1 = Some name <->
  denotes_flag (MkFlag name (knownFlag name)) part.
Proof.
  split.
  - intros H. destruct (trim_bytes_split TagTypes.isWSP part) as (w1 & w2 & E & _ & H1 & H2).
    pose proof H as H'. apply ParseTextstring_Some in H' as (-> & Hne & Ht). exists w1, w2. cbn [flag_name flag_known].
    split_and!; [done | done | done | | done]. by apply ParseTextstring_Some.
  - intros (w1 & w2 & H1 & H2 & -> & Ht & _). cbn [flag_name] in *. cbn. pose proof (textstring_facts _ Ht) as (He & _).
    by rewrite (trim_bytes_mid SigTypes.isWSP).
Qed.

Lemma flagsLoop_Ret parts fieldIndex i seen acc r :
  flagsLoop parts fieldIndex i seen acc = Ret r <->
  exists fs, Forall2 denotes_flag fs parts /\ NoDup (flag_name <$> List.filter flag_known fs) /\
    (forall f, f ∈ fs -> flag_known f = true -> flag_name f ∉ seen) /\ r = acc ++ fs.
Proof.
  revert i seen acc. induction parts as [|p parts IH]; intros i seen acc; cbn [flagsLoop].
  - split.
    + intros [= <-]. exists []. rewrite app_nil_r. split_and!; [done | constructor | | done]. by intros h ?%elem_of_nil.
    + intros (hs & Hf & _ & _ & ->). apply Forall2_nil_inv_r in Hf as ->. by rewrite app_nil_r.
  - split.
    + destruct (ParseTextstring _) as [name|] eqn:En; [ | done]. intros H. apply flag_parse in En.
      apply obind_ret_inv in H as (? & Hn%require_ret_inv & H). apply IH in H as (fs & Hf & Hnd & Hs & ->).
      exists (MkFlag name (knownFlag name) :: fs). rewrite <- app_assoc. split_and!; [by constructor | | | done].
      * cbn [List.filter flag_known]. destruct (knownFlag name) eqn:Ek; [ | done]. cbn.
        constructor; [ | done]. intros (f & Hff & Hin)%list_elem_of_fmap. cbn in Hff.
        rewrite list_elem_of_In, filter_In, <- list_elem_of_In in Hin. destruct Hin as [Hin Hk].
        apply (Hs f Hin Hk). rewrite <- Hff. set_solver.
      * intros f [-> | Hin]%elem_of_cons Hk.
        -- cbn in *. rewrite Hk in Hn. cbn in Hn. by apply negb_true_iff, bool_decide_eq_false in Hn.
        -- specialize (Hs f Hin Hk). destruct (knownFlag name); set_solver.
    + intros (fs & Hf & Hnd & Hs & ->). apply Forall2_cons_inv_r in Hf as (f & fs' & Hh & Hf & ->).
      assert (flag_known f = knownFlag (flag_name f)) as Ekf by by destruct Hh as (? & ? & _ & _ & _ & _ & ?).
      assert (f = MkFlag (flag_name f) (knownFlag (flag_name f))) as Ef by (rewrite <- Ekf; by destruct f).
      rewrite Ef in Hh. apply flag_parse in Hh. rewrite Hh.
      assert (negb (knownFlag (flag_name f) && bool_decide (flag_name f ∈ seen)) = true) as ->.
      { apply negb_true_iff, andb_false_iff. destruct (knownFlag (flag_name f)) eqn:Ek; [right | by left].
        apply bool_decide_eq_false, Hs; [set_solver | congruence]. }
      cbn [require obind]. apply IH. exists fs'. rewrite <- app_assoc, <- Ef. split_and!; [done | | | done].
      * cbn [List.filter] in Hnd. destruct (flag_known f); [ | done]. cbn in Hnd. by apply NoDup_cons in Hnd as [_ ?].
      * intros g Hg Hk. pose proof (Hs g ltac:(set_solver) Hk) as Hn. destruct (knownFlag (flag_name f)) eqn:Ek; [ | done].
        rewrite not_elem_of_union, not_elem_of_singleton. split; [ | done]. intros E.
        cbn [List.filter] in Hnd. rewrite Ekf in Hnd. cbn in Hnd.
        apply NoDup_cons in Hnd as [Hni _]. apply Hni. rewrite <- E. apply list_elem_of_fmap_2.
        by rewrite list_elem_of_In, filter_In, <- list_elem_of_In.
Qed.

Lemma denotes_flag_comma f part : denotes_flag f part -> x2c ∉ part.
Proof.
  intros (w1 & w2 & H1 & H2 & -> & Ht & _). apply textstring_facts in Ht as (_ & _ & Hc).
  rewrite !not_elem_of_app. split_and!; [ | done | ]; by eapply (chars_no TagTypes.isWSP).
Qed.
Lemma parseFlags_Ret limits fieldIndex text f : parseFlags text limits fieldIndex = Ret f <-> flags_value (MaxFlags limits) text f.
Proof.
  unfold parseFlags, flags_value. split.
  - intros (? & Hne%require_ret_inv & H)%obind_ret_inv.
    apply obind_ret_inv in H as (? & Hc%require_ret_inv%negb_true_iff%Z.ltb_ge & H).
    apply obind_ret_inv in H as (fs & H & [= <-]). apply flagsLoop_Ret in H as (fs' & Hf & Hnd & _ & ->).
    destruct text as [|b text]; [done | ]. cbn [splitCommaList] in *.
    exists (split_byte x2c (b :: text)). split_and!; [ | done | done | done | done].
    by apply (split_comma_iff (b :: text) _).
  - intros (parts & E & Hne & Hlen & Hf & Hnd).
    assert (splitCommaList text = parts) as ->.
    { destruct text as [|b text]; [done | ]. cbn [splitCommaList]. apply split_comma_iff. split_and!; [ | | done].
      - intros ->. done.
      - clear -Hf. induction Hf as [|x y xs ys Hxy _ IH]; constructor; [by eapply denotes_flag_comma | done]. }
    assert (0 < len parts) as Hp.
    { destruct parts as [|p parts]; [done | ]. rewrite len_cons. pose proof (len_nonneg parts). lia. }
    rewrite (proj2 (Z.eqb_neq _ _)), (proj2 (Z.ltb_ge _ _)) by lia. cbn [negb require obind].
    rewrite (proj2 (flagsLoop_Ret _ _ _ _ _ (values f))); [by destruct f | ]. exists (values f). split_and!; [done | done | | done].
    intros g _ _. set_solver.
Qed.

(** ** Numbers, domains and nonces *)
Definition timestamp_value (text : bytes) (n : Z) : Prop :=
  text <> [] /\ forallb is_digit text = true /\ n = dec_value text /\ n <= MaxUint64.
Definition domain_value (text d : bytes) : Prop := is_domain (map fold_byte text) /\ d = map fold_byte text.
Definition nonce_value (limits : Limits) (text n : bytes) : Prop :=
  n = text /\ len text <= MaxNonceBytes limits /\ ValidNonceSyntax text = true.

Lemma parseTimestamp_Ret text i n : parseTimestamp text i = Ret n <-> timestamp_value text n.
Proof.
  unfold parseTimestamp, timestamp_value. change (decimal_digits text) with (forallb is_digit text).
  case_bool_decide as E; cbn [negb require obind]; [by split; [ | intros [? _]] | ].
  destruct (forallb is_digit text) eqn:Hd; cbn [require obind]; [ | by split; [ | intros (_ & ? & _)]].
  pose proof (ParseUint_number text) as Hn. pose proof (dec_value_bounds _ Hd).
  destruct (ParseUint text) as [k|].
  - destruct (proj1 (Hn k E Hd) eq_refl) as [-> Hk]. split; [intros [= <-]; split_and!; done || lia | by intros (_ & _ & -> & _)].
  - split; [done | ]. intros (_ & _ & -> & Hk).
    assert (None = Some (dec_value text)) by (apply Hn; [done | done | lia]). congruence.
Qed.
Lemma parsePositiveDecimal_Ret text i t n : parsePositiveDecimal text i t = Ret n <-> number_value text n.
Proof.
  unfold parsePositiveDecimal, number_value. change (decimal_digits text) with (forallb is_digit text).
  case_bool_decide as E; cbn [negb require obind]; [by split; [ | intros [? _]] | ].
  destruct (forallb is_digit text) eqn:Hd; cbn [require obind]; [ | by split; [ | intros (_ & ? & _)]].
  pose proof (ParseUint_number text) as Hn. destruct (ParseUint text) as [k|].
  - destruct (proj1 (Hn k E Hd) eq_refl) as [-> Hk]. destruct (Z.eqb_spec (dec_value text) 0).
    + split; [done | lia].
    + split; [intros [= <-]; split_and!; done || lia | by intros (_ & _ & -> & _)].
  - split; [done | ]. intros (_ & _ & -> & Hk).
    assert (None = Some (dec_value text)) by (apply Hn; [done | done | lia]). congruence.
Qed.
Lemma parseDomain_Ret text i t d : parseDomain text i t = Ret d <-> domain_value text d.
Proof.
  unfold parseDomain, domain_value. rewrite <- canonicalDNSName_Some.
  destruct (canonicalDNSName text); split; intros H; try done; by injection H as <-.
Qed.
Lemma parseNonce_Ret text limits i n : parseNonce text limits i = Ret n <-> nonce_value limits text n.
Proof.
  unfold parseNonce, nonce_value. destruct (Z.ltb_spec (MaxNonceBytes limits) (len text)); cbn [negb require obind].
  { split; [done | lia]. }
  destruct (ValidNonceSyntax text); cbn [require obind]; split; [by intros [= <-] | by intros [-> _] | done | by intros (_ & _ & ?)].
Qed.

Section idna.
Context (registration : bytes -> option bytes).

(** ** Paths *)
Definition denotes_path (L : TagTypes.Limits) (allowNull : bool) (p : EnvelopePath) (text : bytes) : Prop :=
  base64_value L text (container p) /\ value p = decoded (container p) /\
  validRecordedEnvelopePath registration (value p) allowNull = true.
(** A recipient between commas: white space may precede it, and follow only the
    last one. *)
Definition recipient_part (L : TagTypes.Limits) (final : bool) (p : EnvelopePath) (part : bytes) : Prop :=
  exists w1 text w2, wsp w1 /\ wsp w2 /\ (final = false -> w2 = []) /\ part = w1 ++ text ++ w2 /\ denotes_path L false p text.
Inductive recipient_list (L : TagTypes.Limits) : list EnvelopePath -> list bytes -> Prop :=
  | recipient_last p part : recipient_part L true p part -> recipient_list L [p] [part]
  | recipient_more p part ps parts :
      recipient_part L false p part -> recipient_list L ps parts -> recipient_list L (p :: ps) (part :: parts).
Definition recipients_value (L : TagTypes.Limits) (maxRecipients : Z) (text : bytes) (ps : list EnvelopePath) : Prop :=
  exists parts, text = render_group parts /\ len parts <= maxRecipients /\ recipient_list L ps parts.

Section paths.
Context (tagLimits : TagTypes.Limits).
Let L := TagTypes.Limits_normalize tagLimits.
Hypothesis Hvalid : TagTypes.Limits_Validate L = Ret tt.

Lemma parseEnvelopePath_Ret text i j t p :
  parseEnvelopePath registration text tagLimits i j t = Ret p <->
  denotes_path L (bool_decide (t = "mf"%string)) p text.
Proof using Hvalid.
  unfold parseEnvelopePath, denotes_path. split.
  - intros (v & Hv%map_fail_Ret & H)%obind_ret_inv. apply ParseBase64String_value in Hv; [ | done].
    apply obind_ret_inv in H as (? & Hr%require_ret_inv & [= <-]). done.
  - intros (Hv & Hd & Hr). rewrite (proj2 (map_fail_Ret _ _ (container p))) by by apply ParseBase64String_value.
    cbn [obind]. rewrite <- Hd, Hr. cbn. rewrite Hd. destruct p as [v c]; cbn in *. by subst v.
Qed.

Lemma trimmed_part (final : bool) part :
  let text := (SigTypes.trimWSP part).1 in
  text <> [] -> (final = false -> match last part with Some b => SigTypes.isWSP b | None => false end = false) ->
  exists w1 w2, wsp w1 /\ wsp w2 /\ (final = false -> w2 = []) /\ part = w1 ++ text ++ w2.
Proof using.
  cbn zeta. intros Hne Hend. destruct (trim_bytes_split TagTypes.isWSP part) as (w1 & w2 & E & He & H1 & H2).
  exists w1, w2. split_and!; [done | done | | done]. intros Hf%Hend.
  destruct w2 as [|b w2 _] using rev_ind; [done | ]. exfalso.
  rewrite E, !app_assoc, last_snoc in Hf. apply Forall_app in H2 as [_ [Hb _]%Forall_cons].
  change (SigTypes.isWSP b) with (TagTypes.isWSP b) in Hf. congruence.
Qed.
Lemma part_trimmed (final : bool) w1 text w2 :
  edged TagTypes.isWSP text -> text <> [] -> wsp w1 -> wsp w2 -> (final = false -> w2 = []) ->
  (SigTypes.trimWSP (w1 ++ text ++ w2)).1 = text /\
  (final = false -> match last (w1 ++ text ++ w2) with Some b => SigTypes.isWSP b | None => false end = false).
Proof using.
  intros He Hne H1 H2 Hf. split; [by apply (trim_bytes_mid SigTypes.isWSP) | ]. intros ->%Hf. rewrite app_nil_r.
  destruct text as [|b text _] using rev_ind; [done | ]. rewrite app_assoc, last_snoc. by eapply He.
Qed.

Lemma recipientsLoop_Ret limits parts fieldIndex i n acc r :
  TagLimits limits = tagLimits -> n = i + len parts -> parts <> [] ->
  recipientsLoop registration parts limits fieldIndex i n acc = Ret r <->
  exists ps, recipient_list L ps parts /\ r = acc ++ ps.
Proof using Hvalid.
  intros HL. revert i acc. induction parts as [|part parts IH]; [done | ]. intros i acc Hn _.
  rewrite len_cons in Hn. pose proof (len_nonneg parts) as Hp. cbn [recipientsLoop].
  set (final := bool_decide (parts = [])).
  assert ((i <? n - 1) = negb final) as ->.
  { unfold final. destruct parts as [|q parts]; [ | rewrite len_cons in *; pose proof (len_nonneg parts)]; cbn.
    - change (len (@nil bytes)) with 0 in Hn. lia.
    - lia. }
  assert (forall t : bytes, (len t =? 0) = bool_decide (t = [])) as Hz.
  { intros [|b t]; [done | ]. rewrite len_cons. pose proof (len_nonneg t). rewrite (proj2 (Z.eqb_neq _ _)) by lia. done. }
  rewrite Hz, HL. split.
  - intros (? & Hg%require_ret_inv%negb_true_iff%orb_false_iff & H)%obind_ret_inv. destruct Hg as [Hne%bool_decide_eq_false Hend].
    apply obind_ret_inv in H as (p & Hp'%parseEnvelopePath_Ret & H). change (bool_decide ("rt"%string = "mf"%string)) with false in Hp'.
    destruct (trimmed_part final part Hne) as (w1 & w2 & H1 & H2 & Hf & E); [by intros Hfin; rewrite Hfin in Hend | ].
    assert (recipient_part L final p part) as Hpart by (by exists w1, (SigTypes.trimWSP part).1, w2).
    destruct parts as [|q parts].
    + injection H as <-. exists [p]. split; [by constructor | done].
    + apply IH in H as (ps & Hps & ->); [ | lia | done]. exists (p :: ps). rewrite <- app_assoc.
      split; [by constructor | done].
  - clear HL. intros (ps & Hps & ->). inversion Hps as [p part' Hpart | p part' ps' parts' Hpart Hrest]; subst.
    + destruct Hpart as (w1 & text & w2 & H1 & H2 & Hf & -> & Hd). pose proof (base64_value_nonempty _ _ _ (proj1 Hd)) as Hne.
      destruct (part_trimmed true w1 text w2) as [-> _]; [apply Hd | done | done | done | done | ].
      rewrite bool_decide_eq_false_2 by done. cbn [negb orb andb require obind].
      rewrite (proj2 (parseEnvelopePath_Ret text fieldIndex i "rt" p)) by done. done.
    + assert (final = false) as -> by (unfold final; destruct Hrest; done).
      destruct Hpart as (w1 & text & w2 & H1 & H2 & Hf & -> & Hd). pose proof (base64_value_nonempty _ _ _ (proj1 Hd)) as Hne.
      destruct (part_trimmed false w1 text w2) as [-> Hend]; [apply Hd | done | done | done | done | ].
      rewrite (Hend eq_refl). rewrite bool_decide_eq_false_2 by done. cbn [negb orb andb require obind].
      rewrite (proj2 (parseEnvelopePath_Ret text fieldIndex i "rt" p)) by done. cbn [obind].
      apply IH; [lia | by destruct Hrest | ]. exists ps'. rewrite <- app_assoc. done.
Qed.

Lemma recipient_comma final p part : recipient_part L final p part -> x2c ∉ part.
Proof using.
  intros (w1 & text & w2 & H1 & H2 & _ & -> & (Hb & _)). apply base64_value_chars in Hb.
  rewrite !not_elem_of_app. split_and!; [by eapply (chars_no TagTypes.isWSP) | by eapply chars_no | by eapply (chars_no TagTypes.isWSP)].
Qed.
Lemma recipient_list_commas ps parts : recipient_list L ps parts -> Forall (fun p => x2c ∉ p) parts /\ parts <> [].
Proof using.
  induction 1 as [p part H | p part ps parts H _ [IH _]].
  - split; [ | done]. apply Forall_singleton. by eapply recipient_comma.
  - split; [ | done]. constructor; [by eapply recipient_comma | done].
Qed.
Lemma recipient_part_nonempty final p part : recipient_part L final p part -> part <> [].
Proof using.
  intros (w1 & text & w2 & _ & _ & _ & -> & (Hb & _)) E. apply base64_value_nonempty in Hb.
  apply app_eq_nil in E as [_ E]. by apply app_eq_nil in E as [? _].
Qed.
Lemma parseRecipientPaths_Ret limits text fieldIndex ps :
  TagLimits limits = tagLimits ->
  parseRecipientPaths registration text limits fieldIndex = Ret ps <-> recipients_value L (MaxRecipients limits) text ps.
Proof using Hvalid.
  intros HL. unfold parseRecipientPaths, recipients_value. split.
  - intros (? & Hne%require_ret_inv & H)%obind_ret_inv.
    apply obind_ret_inv in H as (? & Hc%require_ret_inv%negb_true_iff%Z.ltb_ge & H).
    destruct text as [|b text]; [done | ]. cbn [splitCommaList] in *.
    pose proof (proj1 (split_comma_iff (b :: text) _) eq_refl) as (Hnn & _ & E).
    apply recipientsLoop_Ret in H as (ps' & Hps & ->); [ | done | lia | done]. exists (split_byte x2c (b :: text)). by split_and!.
  - intros (parts & E & Hlen & Hps). destruct (recipient_list_commas _ _ Hps) as [Hcom Hne].
    assert (text <> []) as Ht.
    { intros ->. destruct parts as [|part parts]; [done | ].
      assert (part <> []) as Hpn by (clear HL; inversion Hps; subst; by eapply recipient_part_nonempty).
      destruct parts as [|q parts]; [by cbn in E | ]. rewrite render_group_cons in E by done. by destruct part. }
    assert (splitCommaList text = parts) as ->.
    { destruct text as [|b text]; [done | ]. cbn [splitCommaList]. by apply split_comma_iff. }
    assert (0 < len parts) as Hp.
    { destruct parts as [|p parts]; [done | ]. rewrite len_cons. pose proof (len_nonneg parts). lia. }
    rewrite (proj2 (Z.eqb_neq _ _)), (proj2 (Z.ltb_ge _ _)) by lia. cbn [negb require obind].
    apply recipientsLoop_Ret; [done | lia | done | ]. by exists ps.
Qed.
End paths.

(** ** The field *)
(** An optional tag: its value denotes [x], or the tag is absent and [x] is the default. *)
Definition optional_tag (f : Field) (n : bytes) (present : bool) (denotes : bytes -> Prop) (absent : Prop) : Prop :=
  if present then exists v, tag_of f n v /\ denotes v else (forall v, ~ tag_of f n v) /\ absent.

Definition envelope_tags (limits : Limits) (f : Field) (s : Signature) : Prop :=
  let L := TagTypes.Limits_normalize (TagLimits limits) in
  if hasNextDomain s then
    (exists v, tag_of f (bs "nd") v /\ domain_value v (nextDomain s)) /\
    (forall v, ~ tag_of f (bs "mf") v) /\ (forall v, ~ tag_of f (bs "rt") v) /\
    mailFrom s = noPath /\ recipients s = []
  else
    (forall v, ~ tag_of f (bs "nd") v) /\ nextDomain s = [] /\
    (exists v, tag_of f (bs "mf") v /\ denotes_path L true (mailFrom s) v) /\
    (exists v, tag_of f (bs "rt") v /\ recipients_value L (MaxRecipients limits) v (recipients s)).

(** The tags of a signature field and the values they denote. *)
Definition signature_tags (limits : Limits) (f : Field) (s : Signature) : Prop :=
  let L := TagTypes.Limits_normalize (TagLimits limits) in
  (exists v, tag_of f (bs "i") v /\ number_value v (sequence s)) /\
  (exists v, tag_of f (bs "m") v /\ number_value v (instanceNumber s)) /\
  (exists v, tag_of f (bs "t") v /\ timestamp_value v (timestamp s)) /\
  (exists v, tag_of f (bs "d") v /\ domain_value v (domain s)) /\
  (exists v, tag_of f (bs "s") v /\ signatures_value L (MaxSignatureSets limits) v (signatures s) (setLayout s)) /\
  envelope_tags limits f s /\
  optional_tag f (bs "n") (hasNonce s) (fun v => nonce_value limits v (nonce s)) (nonce s = []) /\
  ((exists v, tag_of f (bs "f") v /\ flags_value (MaxFlags limits) v (flags s)) \/
   ((forall v, ~ tag_of f (bs "f") v) /\ flags s = noFlags)).

Definition signature_text (limits : Limits) (text : bytes) (s : Signature) : Prop :=
  let L := TagTypes.Limits_normalize (TagLimits limits) in
  TagTypes.Limits_Validate L = Ret tt /\ len text <= MaxFieldValueBytes L /\
  Forall (fun b => b <> CR /\ b <> LF) text /\
  exists f, tag_list knownSignatureTags L scanModeHeader text f /\ signature_tags limits f s.

#[local] Abbreviation Get := (get_tag TagFailure).
Lemma requiredTag_Ret ts n i t :
  NoDup (tag_name <$> ts) -> requiredTag (field_of ts) i n = Ret t <-> Get (field_of ts) (bs n) = Ret (Some t).
Proof.
  intros Hnd. unfold requiredTag. split.
  - intros ([t'|] & Ht & H)%obind_ret_inv; [ | done]. by injection H as ->.
  - by intros ->.
Qed.
(** A required tag whose value a reader accepts. *)
Lemma required_value {A} ts n i (k : Tag -> outcome Failure A) r :
  NoDup (tag_name <$> ts) ->
  (let* t := requiredTag (field_of ts) i n in k t) = Ret r <->
  exists t, Get (field_of ts) (bs n) = Ret (Some t) /\ k t = Ret r.
Proof.
  intros Hnd. split.
  - intros (t & Ht & H)%obind_ret_inv. exists t. by apply requiredTag_Ret in Ht.
  - intros (t & Ht & H). by rewrite (proj2 (requiredTag_Ret ts n i t Hnd) Ht).
Qed.
Lemma absent_tag ts n : NoDup (tag_name <$> ts) -> Get (field_of ts) n = Ret None <-> forall v, ~ tag_of (field_of ts) n v.
Proof. intros Hnd. by apply get_tag_Ret. Qed.
Lemma present_tag ts n (P : bytes -> Prop) :
  NoDup (tag_name <$> ts) ->
  (exists v, tag_of (field_of ts) n v /\ P v) <-> exists t, Get (field_of ts) n = Ret (Some t) /\ P (tag_value t).
Proof.
  intros Hnd. split.
  - intros (v & Hv & HP). apply (tag_of_get TagFailure) in Hv as (t & Ht & <-); [ | done]. by exists t.
  - intros (t & Ht & HP). exists (tag_value t). split; [ | done]. by apply (get_tag_of TagFailure).
Qed.

Section sig_parse_field.
Context (limits : Limits).
Let L := TagTypes.Limits_normalize (TagLimits limits).
Hypothesis HL : TagTypes.Limits_Validate L = Ret tt.

Lemma parseEnvelopeForm_Ret ts i e :
  NoDup (tag_name <$> ts) ->
  parseEnvelopeForm registration limits (field_of ts) i = Ret e <->
  match e with
  | NextDomainForm d =>
      (exists t, Get (field_of ts) (bs "nd") = Ret (Some t) /\ domain_value (tag_value t) d) /\
      Get (field_of ts) (bs "mf") = Ret None /\ Get (field_of ts) (bs "rt") = Ret None
  | PathsForm from to =>
      Get (field_of ts) (bs "nd") = Ret None /\
      (exists t, Get (field_of ts) (bs "mf") = Ret (Some t) /\ denotes_path L true from (tag_value t)) /\
      (exists t, Get (field_of ts) (bs "rt") = Ret (Some t) /\ recipients_value L (MaxRecipients limits) (tag_value t) to)
  end.
Proof using HL.
  intros Hnd. unfold parseEnvelopeForm. split.
  - intros (nd & Hd & H)%obind_ret_inv. apply obind_ret_inv in H as (mf & Hmf & H). apply obind_ret_inv in H as (rt & Hrt & H).
    destruct nd as [nd|].
    + destruct mf, rt; try done. apply obind_ret_inv in H as (d & Hv%parseDomain_Ret & [= <-]). split_and!; try done. by exists nd.
    + destruct mf as [mf|], rt as [rt|]; try done. apply obind_ret_inv in H as (p & Hp%parseEnvelopePath_Ret & H); [ | done].
      apply obind_ret_inv in H as (ps & Hps & [= <-]). apply (parseRecipientPaths_Ret (TagLimits limits) HL) in Hps; [ | done].
      split_and!; [done | by exists mf | by exists rt].
  - destruct e as [d | from to].
    + intros ((t & -> & Hd) & -> & ->). cbn [obind]. rewrite (proj2 (parseDomain_Ret _ _ _ d)) by done. done.
    + intros (-> & (mf & -> & Hp) & (rt & -> & Hps)). cbn [obind].
      rewrite (proj2 (parseEnvelopePath_Ret (TagLimits limits) HL (tag_value mf) i (-1) "mf" from)) by done. cbn [obind].
      rewrite (proj2 (parseRecipientPaths_Ret (TagLimits limits) HL limits (tag_value rt) i to eq_refl)) by done. done.
Qed.

(** The part of ParseField after the scan. *)
Definition parseTags (tagField : Field) (index : Z) : outcome Failure Signature :=
  let* sequenceTag := requiredTag tagField index "i" in
  let* instanceTag := requiredTag tagField index "m" in
  let* timestampTag := requiredTag tagField index "t" in
  let* domainTag := requiredTag tagField index "d" in
  let* signaturesTag := requiredTag tagField index "s" in
  let* sequence := parsePositiveDecimal (tag_value sequenceTag) index "i" in
  let* instanceNumber := parsePositiveDecimal (tag_value instanceTag) index "m" in
  let* timestamp := parseTimestamp (tag_value timestampTag) index in
  let* domain := parseDomain (tag_value domainTag) index "d" in
  let* (sets, layout) := parseSignatureSets (tag_value signaturesTag) limits index in
  let signature := MkSignature sequence instanceNumber timestamp noPath [] [] false domain sets layout noFlags [] false index in
  let* form := parseEnvelopeForm registration limits tagField index in
  let signature := set_envelope signature form in
  let* nonceTag := Get tagField (bs "n") in
  let* signature :=
    match nonceTag with
    | Some tag => let* n := parseNonce (tag_value tag) limits index in Ret (set_nonce signature n)
    | None => Ret signature
    end in
  let* flagsTag := Get tagField (bs "f") in
  match flagsTag with
  | Some tag => let* f := parseFlags (tag_value tag) limits index in Ret (set_flags signature f)
  | None => Ret signature
  end.

(** The signature that ParseField assembles. *)
Definition built (q m t : Z) (d : bytes) (ss : list SigSet) (l : Layout) (e : envelope) (n : bytes) (hn : bool)
    (f : Flags) (index : Z) : Signature :=
  let s := set_envelope (MkSignature q m t noPath [] [] false d ss l noFlags [] false index) e in
  set_flags (if hn then set_nonce s n else s) f.
Definition envelope_of (s : Signature) : envelope :=
  if hasNextDomain s then NextDomainForm (nextDomain s) else PathsForm (mailFrom s) (recipients s).
Definition envelope_denoted (f : Field) (e : envelope) : Prop :=
  match e with
  | NextDomainForm d =>
      (exists v, tag_of f (bs "nd") v /\ domain_value v d) /\
      (forall v, ~ tag_of f (bs "mf") v) /\ (forall v, ~ tag_of f (bs "rt") v)
  | PathsForm from to =>
      (forall v, ~ tag_of f (bs "nd") v) /\
      (exists v, tag_of f (bs "mf") v /\ denotes_path L true from v) /\
      (exists v, tag_of f (bs "rt") v /\ recipients_value L (MaxRecipients limits) v to)
  end.
Definition nonce_tag (f : Field) (n : bytes) (hn : bool) : Prop :=
  optional_tag f (bs "n") hn (fun v => nonce_value limits v n) (n = []).
Definition flags_tag (f : Field) (fl : Flags) : Prop :=
  (exists v, tag_of f (bs "f") v /\ flags_value (MaxFlags limits) v fl) \/
  ((forall v, ~ tag_of f (bs "f") v) /\ fl = noFlags).

Lemma parseEnvelopeForm_denoted ts i e :
  NoDup (tag_name <$> ts) ->
  parseEnvelopeForm registration limits (field_of ts) i = Ret e <-> envelope_denoted (field_of ts) e.
Proof using HL.
  intros Hnd. rewrite parseEnvelopeForm_Ret by done. unfold envelope_denoted.
  destruct e; rewrite !(present_tag ts), <- !(absent_tag ts) by done; done.
Qed.
Lemma nonce_step ts index s0 (k : Signature -> outcome Failure Signature) s :
  NoDup (tag_name <$> ts) ->
  (let* nonceTag := Get (field_of ts) (bs "n") in
   let* signature :=
     match nonceTag with
     | Some tag => let* n := parseNonce (tag_value tag) limits index in Ret (set_nonce s0 n)
     | None => Ret s0
     end in k signature) = Ret s <->
  exists n hn, nonce_tag (field_of ts) n hn /\ k (if (hn : bool) then set_nonce s0 n else s0) = Ret s.
Proof using.
  intros Hnd. unfold nonce_tag, optional_tag. split.
  - intros ([t|] & Ht & (s1 & Hs1 & H)%obind_ret_inv)%obind_ret_inv.
    + apply obind_ret_inv in Hs1 as (n & Hn%parseNonce_Ret & [= <-]). exists n, true. split; [ | done].
      apply present_tag; [done | by exists t].
    + injection Hs1 as <-. exists [], false. split; [ | done]. split; [by apply absent_tag | done].
  - intros (n & hn & Hn & H). destruct hn.
    + apply present_tag in Hn as (t & -> & Hn); [ | done]. cbn [obind]. by rewrite (proj2 (parseNonce_Ret _ _ _ n) Hn).
    + destruct Hn as [Hn ->]. apply absent_tag in Hn as ->; [ | done]. done.
Qed.
Lemma flags_step ts index s0 s :
  NoDup (tag_name <$> ts) -> flags s0 = noFlags ->
  (let* flagsTag := Get (field_of ts) (bs "f") in
   match flagsTag with
   | Some tag => let* f := parseFlags (tag_value tag) limits index in Ret (set_flags s0 f)
   | None => Ret s0
   end) = Ret s <->
  exists f, flags_tag (field_of ts) f /\ s = set_flags s0 f.
Proof using.
  intros Hnd H0. unfold flags_tag. split.
  - intros ([t|] & Ht & H)%obind_ret_inv.
    + apply obind_ret_inv in H as (f & Hf%parseFlags_Ret & [= <-]). exists f. split; [left | done].
      apply present_tag; [done | by exists t].
    + injection H as <-. exists noFlags. split; [right; split; [by apply absent_tag | done] | ]. rewrite <- H0. by destruct s0.
  - intros (f & [Hf | [Hf ->]] & ->).
    + apply present_tag in Hf as (t & -> & Hf); [ | done]. cbn [obind]. by rewrite (proj2 (parseFlags_Ret _ _ _ f) Hf).
    + apply absent_tag in Hf as ->; [ | done]. cbn [obind]. f_equal. rewrite <- H0. by destruct s0.
Qed.

Lemma signature_tags_built fld q m t d ss l e n hn f index :
  (exists v, tag_of fld (bs "i") v /\ number_value v q) ->
  (exists v, tag_of fld (bs "m") v /\ number_value v m) ->
  (exists v, tag_of fld (bs "t") v /\ timestamp_value v t) ->
  (exists v, tag_of fld (bs "d") v /\ domain_value v d) ->
  (exists v, tag_of fld (bs "s") v /\ signatures_value L (MaxSignatureSets limits) v ss l) ->
  envelope_denoted fld e -> nonce_tag fld n hn -> flags_tag fld f ->
  signature_tags limits fld (built q m t d ss l e n hn f index).
Proof using.
  intros Hi Hm Ht Hd Hs He Hn Hf. unfold signature_tags, built.
  assert (nonce_tag fld (nonce (set_flags (if hn then set_nonce (set_envelope (MkSignature q m t noPath [] [] false d ss l noFlags [] false index) e) n
      else set_envelope (MkSignature q m t noPath [] [] false d ss l noFlags [] false index) e) f)) hn) as Hn'.
  { destruct hn, e; [done | done | by destruct Hn | by destruct Hn]. }
  destruct hn, e; split_and!; try done; unfold envelope_tags; cbn; destruct He as (? & ? & ?); by split_and!.
Qed.
Lemma built_eta fld s :
  signature_tags limits fld s ->
  s = built (sequence s) (instanceNumber s) (timestamp s) (domain s) (signatures s) (setLayout s) (envelope_of s)
        (nonce s) (hasNonce s) (flags s) (headerIndex s) /\ envelope_denoted fld (envelope_of s).
Proof using.
  intros (_ & _ & _ & _ & _ & He & Hn & _). unfold envelope_tags, envelope_of in *. destruct s. cbn in *.
  destruct hasNextDomain.
  - destruct He as (? & ? & ? & -> & ->). split; [ | done]. destruct hasNonce; [done | ]. by destruct Hn as [_ ->].
  - destruct He as (? & -> & ? & ?). split; [ | done]. destruct hasNonce; [done | ]. by destruct Hn as [_ ->].
Qed.

Lemma sig_parseTags_Ret ts index s :
  NoDup (tag_name <$> ts) ->
  parseTags (field_of ts) index = Ret s <-> signature_tags limits (field_of ts) s /\ headerIndex s = index.
Proof using HL.
  intros Hnd. unfold parseTags. split.
  - intros (ti & Hi & H)%required_value; [ | done]. apply required_value in H as (tm & Hm & H); [ | done].
    apply required_value in H as (tt' & Ht & H); [ | done]. apply required_value in H as (td & Hd & H); [ | done].
    apply required_value in H as (tsg & Hs & H); [ | done].
    apply obind_ret_inv in H as (q & Hq%parsePositiveDecimal_Ret & H). apply obind_ret_inv in H as (m & Hm'%parsePositiveDecimal_Ret & H).
    apply obind_ret_inv in H as (t & Ht'%parseTimestamp_Ret & H). apply obind_ret_inv in H as (d & Hd'%parseDomain_Ret & H).
    apply obind_ret_inv in H as ([ss l] & Hss%parseSignatureSets_Ret & H); [ | done].
    apply obind_ret_inv in H as (e & He%parseEnvelopeForm_denoted & H); [ | done]. cbv zeta in H.
    apply nonce_step in H as (n & hn & Hn & H); [ | done]. apply flags_step in H as (f & Hf & ->); [ | done | by destruct hn, e].
    split; [ | by destruct hn, e].
    apply signature_tags_built; [apply present_tag; [done | by eexists].. | done | done | done].
  - intros [H <-]. pose proof (built_eta _ _ H) as [Es He].
    destruct H as (Hi & Hm & Ht & Hd & Hs & _ & Hn & Hf).
    apply present_tag in Hi as (ti & Hi & Hq), Hm as (tm & Hm & Hm'), Ht as (tt' & Ht & Ht'), Hd as (td & Hd & Hd'), Hs as (tsg & Hs & Hss); try done.
    apply required_value; [done | ]. exists ti. split; [done | ]. apply required_value; [done | ]. exists tm. split; [done | ].
    apply required_value; [done | ]. exists tt'. split; [done | ]. apply required_value; [done | ]. exists td. split; [done | ].
    apply required_value; [done | ]. exists tsg. split; [done | ].
    rewrite (proj2 (parsePositiveDecimal_Ret _ _ _ _) Hq), (proj2 (parsePositiveDecimal_Ret _ _ _ _) Hm'). cbn [obind].
    rewrite (proj2 (parseTimestamp_Ret _ _ _) Ht'), (proj2 (parseDomain_Ret _ _ _ _) Hd'). cbn [obind].
    rewrite (proj2 (parseSignatureSets_Ret _ _ HL _ _ _) Hss). cbn [obind].
    rewrite (proj2 (parseEnvelopeForm_denoted ts _ (envelope_of s) Hnd) He). cbn [obind]. cbv zeta.
    apply nonce_step; [done | ]. exists (nonce s), (hasNonce s). split; [done | ].
    apply flags_step; [done | by destruct (hasNonce s), (envelope_of s) | ]. exists (flags s). split; [done | ]. exact Es.
Qed.
End sig_parse_field.

Lemma sig_ParseField_Ret limits field s :
  ParseField registration limits field = Ret s <->
  nameLower field = HeaderName /\ headerIndex s = hf_index field /\ signature_text limits (unfoldedValue field) s.
Proof.
  unfold ParseField, signature_text. split.
  - intros (? & Hn%require_ret_inv%bool_decide_eq_true & H)%obind_ret_inv.
    apply obind_ret_inv in H as (f & Hf%map_fail_Ret & H).
    apply scan_iff in Hf as (HL & Hlen & text & [-> Hplain] & Hf).
    change (parseTags limits f (hf_index field) = Ret s) in H.
    pose proof Hf as (ts & texts & tail & _ & _ & _ & _ & Hnd & _ & ->).
    apply sig_parseTags_Ret in H as [H Hi]; [ | done | done]. split_and!; eauto.
  - intros (Hn & Hi & HL & Hlen & Hplain & f & Hf & Ht). rewrite bool_decide_eq_true_2 by done.
    cbn [require obind]. rewrite (proj2 (map_fail_Ret _ _ f)).
    2: { apply scan_iff. split_and!; try done. by exists (unfoldedValue field). }
    cbn [obind]. change (parseTags limits f (hf_index field) = Ret s).
    destruct Hf as (ts & texts & tail & _ & _ & _ & _ & Hnd & _ & ->). by apply sig_parseTags_Ret.
Qed.
End idna.

(** ** The parser does not panic *)
Lemma parseSignatureSet_safe piece limits i j : no_crash (parseSignatureSet piece limits i j).
Proof.
  unfold parseSignatureSet. crash_free; apply map_fail_no_crash, parseBase64String_no_crash.
Qed.
#[export] Hint Resolve parseSignatureSet_safe : go.
Lemma parseDomain_safe text i t : no_crash (parseDomain text i t).
Proof. unfold parseDomain. crash_free. Qed.
#[export] Hint Resolve parseDomain_safe : go.
Lemma selector_add_safe u s i j : no_crash (selector_add u s i j).
Proof. unfold selector_add. crash_free. Qed.
#[export] Hint Resolve selector_add_safe : go.
Lemma setsLoop_safe parts limits i j seen acc : no_crash (setsLoop parts limits i j seen acc).
Proof. revert j seen acc. induction parts as [|p parts IH]; intros; cbn [setsLoop]; crash_free. Qed.
#[export] Hint Resolve setsLoop_safe : go.
Lemma flagsLoop_safe parts i j seen acc : no_crash (flagsLoop parts i j seen acc).
Proof. revert j seen acc. induction parts as [|p parts IH]; intros; cbn [flagsLoop]; crash_free. Qed.
#[export] Hint Resolve flagsLoop_safe : go.

Section safe.
Context (registration : bytes -> option bytes).

Lemma parseEnvelopePath_safe text L i j t : no_crash (parseEnvelopePath registration text L i j t).
Proof. unfold parseEnvelopePath. crash_free. apply map_fail_no_crash, parseBase64String_no_crash. Qed.
Hint Resolve parseEnvelopePath_safe : go.
Lemma recipientsLoop_safe parts limits i j n acc : no_crash (recipientsLoop registration parts limits i j n acc).
Proof. revert j acc. induction parts as [|p parts IH]; intros; cbn [recipientsLoop]; crash_free. Qed.
Hint Resolve recipientsLoop_safe : go.
Lemma sig_parseTags_safe limits ts i : NoDup (tag_name <$> ts) -> no_crash (parseTags registration limits (field_of ts) i).
Proof.
  intros Hnd.
  assert (forall n, no_crash (get_tag TagFailure (field_of ts) n)) as HG by (intros n; by apply get_tag_safe).
  unfold parseTags, requiredTag, parsePositiveDecimal, parseTimestamp, parseSignatureSets, parseEnvelopeForm,
    parseRecipientPaths, parseNonce, parseFlags. crash_free.
Qed.
Lemma sig_ParseField_safe limits field : no_crash (ParseField registration limits field).
Proof.
  unfold ParseField. apply obind_no_crash; [apply require_no_crash | intros _ _].
  apply obind_no_crash; [apply map_fail_no_crash, scan_no_crash | ]. intros f Hf%map_fail_Ret.
  apply scan_iff in Hf as (_ & _ & text & _ & ts & ? & ? & _ & _ & _ & _ & Hnd & _ & ->).
  by apply sig_parseTags_safe.
Qed.

(** C24: ParseField never panics and succeeds exactly on DKIM2-Signature fields
    whose unfolded value is, within the limits, a tag list in which i= and m=
    are positive decimals and t= a decimal of 64 bits, d= a domain name, s=
    groups of signature sets (a selector name, an algorithm, the Base64 of a
    signature of the algorithm's length) with distinct selectors, the envelope
    is either nd= with a domain name or mf= and rt= with recorded paths, and
    n= and f=, if there, are a printable nonce and distinct known flags; the
    signature holds exactly those values. *)
Theorem sig_ParseField_refines limits field :
  ParseField registration limits field <> Crash /\
  forall s, ParseField registration limits field = Ret s <->
    nameLower field = HeaderName /\ headerIndex s = hf_index field /\
    signature_text registration limits (unfoldedValue field) s.
Proof. split; [apply sig_ParseField_safe | intros s; apply sig_ParseField_Ret]. Qed.
End safe.
