(* ===== verification/SigCollection.v ===== *)
(** * Package internal/signature: sequences of signatures (collection.go)

    Sequence numbers are unsigned 64-bit integers.  The sequence check is the
    one of Message-Instance numbers with other errors; the lemmas here say so
    and take its properties over. *)

From stdpp Require Import gmap numbers sorting.
From S2P Require Import Prelude GoBytes RawMsg RawBody RawParser TagTypes TagBase64 Combine TagSpec DomainName SigAlgorithm.
From S2P Require Import InstTypes InstParser InstSpec InstCollection.
From S2P Require Import SigTypes SigEnvelope SigParser SigSpec.
#[local] Open Scope Z_scope.

Definition firstSignatureIndex (ss : list Signature) : Z :=
  match ss with [] => 0 | s :: _ => headerIndex s end.
Definition lowestObservedSequence (ss : list Signature) : outcome Failure Z :=
  match ss with
  | [] => Crash
  | s :: rest => Ret (foldl (fun lowest p => if sequence p <? lowest then sequence p else lowest) (sequence s) rest)
  end.
Definition nextSequenceStep (expected : Z) (acc : Z * Z) (parsed : Signature) : Z * Z :=
  let '(observed, fieldIndex) := acc in
  if sequence parsed <=? expected then acc
  else if (observed =? 0) || (sequence parsed <? observed) then (sequence parsed, headerIndex parsed) else acc.
Definition nextObservedSequence (ss : list Signature) (expected : Z) : Z * Z :=
  foldl (nextSequenceStep expected) (0, firstSignatureIndex ss) ss.

Definition newSequenceError (c : ErrorCode) (fieldIndex expected observed duplicateOf : Z) : Failure :=
  sigError c (fieldLoc fieldIndex)
    (MkDetails "i" "" 0 (if decide (c = ErrorCodeDuplicateSequence) then duplicateOf + 1 else 0) expected observed).

(** The first loop of ValidateSequence: the header index of each number, and
    the greatest number. *)
Fixpoint seenLoop (ss : list Signature) (seen : gmap Z Z) (maxSequence : Z) : outcome Failure (gmap Z Z * Z) :=
  match ss with
  | [] => Ret (seen, maxSequence)
  | parsed :: rest =>
      match seen !! sequence parsed with
      | Some firstIndex =>
          Fail (newSequenceError ErrorCodeDuplicateSequence (headerIndex parsed) (sequence parsed)
                  (sequence parsed) firstIndex)
      | None =>
          seenLoop rest (<[sequence parsed := headerIndex parsed]> seen)
            (if maxSequence <? sequence parsed then sequence parsed else maxSequence)
      end
  end.
(** The first of [count] numbers from [expected] on that was not seen. *)
Fixpoint missingLoop (count : nat) (expected : Z) (seen : gmap Z Z) : option Z :=
  match count with
  | O => None
  | S count =>
      match seen !! expected with
      | Some _ => missingLoop count (expected + 1) seen
      | None => Some expected
      end
  end.
Definition ValidateSequence (ss : list Signature) : outcome Failure unit :=
  if len ss =? 0 then Ret tt
  else
    check require (negb (MaxSignatures DefaultLimits <? len ss))
      (sigError ErrorCodeLimitExceeded noLoc
         (limitDetails "max_signatures" (MaxSignatures DefaultLimits) (len ss))) ;;
    let* (seen, maxSequence) := seenLoop ss ∅ 0 in
    match seen !! 1 with
    | None =>
        let* lowest := lowestObservedSequence ss in
        Fail (newSequenceError ErrorCodeMissingOrigin (firstSignatureIndex ss) 1 lowest 0)
    | Some _ =>
        if negb (maxSequence =? len ss) then
          match missingLoop (length ss) 1 seen with
          | Some expected =>
              let '(observed, fieldIndex) := nextObservedSequence ss expected in
              Fail (newSequenceError ErrorCodeSequenceGap fieldIndex expected observed 0)
          | None =>
              Fail (newSequenceError ErrorCodeSequenceGap (firstSignatureIndex ss) (len ss) maxSequence 0)
          end
        else Ret tt
    end.

Definition noSignature : Signature :=
  MkSignature 0 0 0 noPath [] [] false [] [] noLayout noFlags [] false 0.
(** The loop that stores each signature at its sequence number; the index is
    checked by the run time. *)
Fixpoint placeLoop (ss ordered : list Signature) : outcome Failure (list Signature) :=
  match ss with
  | [] => Ret ordered
  | parsed :: rest =>
      let index := sequence parsed - 1 in
      if (0 <=? index) && (index <? len ordered)
      then placeLoop rest (<[Z.to_nat index := parsed]> ordered)
      else Crash
  end.
Definition OrderBySequence (ss : list Signature) : outcome Failure (list Signature) :=
  check ValidateSequence ss ;;
  placeLoop ss (repeat noSignature (length ss)).

Section idna.
Variable registration_ToASCII : bytes -> option bytes.
Fixpoint parseFields (limits : Limits) (fields : list HeaderField) : outcome Failure (list Signature) :=
  match fields with
  | [] => Ret []
  | field :: rest =>
      let* parsed := ParseField registration_ToASCII limits field in
      let* parsedRest := parseFields limits rest in
      Ret (parsed :: parsedRest)
  end.
Definition Extract (limits : Limits) (msg : Message) : outcome Failure (list Signature) :=
  let fields := HeaderBlock_FieldsByName (headers msg) HeaderName in
  check require (negb (MaxSignatures limits <? len fields))
    (sigError ErrorCodeLimitExceeded noLoc
       (limitDetails "max_signatures" (MaxSignatures limits) (len fields))) ;;
  let* ss := parseFields limits fields in
  check ValidateSequence ss ;;
  Ret ss.
(** The package's Extract, with default limits. *)
Definition Extract_default (msg : Message) : outcome Failure (list Signature) :=
  let* parser := NewParser (MkLimits (TagTypes.MkLimits 0 0 0 0 0) 0 0 0 0 0) in Extract parser msg.
End idna.

(** ** References to Message-Instance fields *)
Inductive ReferenceFailure := FromInstance (f : InstTypes.Failure) | FromSignature (f : Failure).
Definition reference_error (c : ErrorCode) (fieldIndex expected observed : Z) : ReferenceFailure :=
  FromSignature (sigError c (fieldLoc fieldIndex) (MkDetails TagNameInstance "" 0 0 expected observed)).

(** The numbers of the instances, the greatest one and the index of its field. *)
Fixpoint highestLoop (instances : list MessageInstance) (numbers : gset Z) (highest index : Z) : gset Z * Z * Z :=
  match instances with
  | [] => (numbers, highest, index)
  | parsed :: rest =>
      let numbers := {[number parsed]} ∪ numbers in
      if highest <? number parsed
      then highestLoop rest numbers (number parsed) (InstTypes.headerIndex parsed)
      else highestLoop rest numbers highest index
  end.
Fixpoint referenceLoop (ordered : list Signature) (numbers : gset Z) (previous : Z) : outcome ReferenceFailure Z :=
  match ordered with
  | [] => Ret previous
  | parsed :: rest =>
      let reference := instanceNumber parsed in
      if negb (bool_decide (reference ∈ numbers)) || (reference <? previous)
      then Fail (reference_error ErrorCodeInvalidInstanceReference (headerIndex parsed) previous reference)
      else referenceLoop rest numbers reference
  end.
Definition ValidateInstanceReferences (instances : list MessageInstance) (ss : list Signature)
    : outcome ReferenceFailure unit :=
  check map_fail FromInstance (InstCollection.ValidateSequence instances) ;;
  check map_fail FromSignature (ValidateSequence ss) ;;
  match instances, ss with
  | [], [] => Ret tt
  | [], s :: _ =>
      Fail (reference_error ErrorCodeInvalidInstanceReference (headerIndex s) 0 (instanceNumber s))
  | _ :: _, _ =>
      let '(numbers, highest, highestFieldIndex) := highestLoop instances ∅ 0 0 in
      match ss with
      | [] => Fail (reference_error ErrorCodeUnreferencedInstance highestFieldIndex 0 highest)
      | _ :: _ =>
          let* ordered := map_fail FromSignature (OrderBySequence ss) in
          let* previous := referenceLoop ordered numbers 0 in
          if negb (previous =? highest)
          then Fail (reference_error ErrorCodeUnreferencedInstance highestFieldIndex previous highest)
          else Ret tt
      end
  end.

(** ** The sequence check is the one of instance numbers *)
Abbreviation sequences := (map sequence).
Definition sequential (ss : list Signature) : Prop := sequences ss ≡ₚ seqZ 1 (len ss).
Definition as_instance (s : Signature) : MessageInstance :=
  MkInstance (sequence s) [] noLayout emptyBase64 false (headerIndex s).
Definition same_result {E F A} (m : outcome E A) (n : outcome F A) : Prop :=
  match m, n with Ret a, Ret b => a = b | Fail _, Fail _ | Crash, Crash => True | _, _ => False end.

Lemma same_result_Ret {E F A} (m : outcome E A) (n : outcome F A) a : same_result m n -> m = Ret a <-> n = Ret a.
Proof. destruct m, n; cbn; naive_solver. Qed.
Lemma same_result_safe {E F A} (m : outcome E A) (n : outcome F A) : same_result m n -> n <> Crash -> m <> Crash.
Proof. by destruct m, n. Qed.

Lemma seenLoop_instances ss seen mx :
  same_result (seenLoop ss seen mx) (sequenceLoop (map as_instance ss) seen mx).
Proof.
  revert seen mx. induction ss as [|s ss IH]; intros seen mx; cbn [seenLoop sequenceLoop map]; [done | ].
  cbn [number as_instance]. destruct (seen !! sequence s); [done | apply IH].
Qed.
Lemma ValidateSequence_instances ss :
  same_result (ValidateSequence ss) (InstCollection.ValidateSequence (map as_instance ss)).
Proof.
  unfold ValidateSequence, InstCollection.ValidateSequence.
  change (MaxSignatures DefaultLimits) with maxInstancesHard.
  assert (len (map as_instance ss) = len ss) as -> by (unfold len; by rewrite length_map).
  destruct (len ss =? 0) eqn:E0; [done | ].
  destruct (maxInstancesHard <? len ss); cbn [negb require obind]; [done | ].
  pose proof (seenLoop_instances ss ∅ 0) as H.
  destruct (seenLoop ss ∅ 0) as [[s mx]| |], (sequenceLoop (map as_instance ss) ∅ 0) as [[s2 mx2]| |]; try done.
  injection H as <- <-. cbn [obind]. rewrite length_map. change (gapLoop (length ss) 1 s) with (missingLoop (length ss) 1 s).
  destruct ss as [|s0 ss]; [done | ]. cbn [map]. destruct (s !! 1).
  - destruct (mx =? _); cbn [negb]; [done | ]. destruct (missingLoop _ _ _); [ | done].
    destruct (nextObservedSequence _ _), (nextObservedNumber _ _). done.
  - done.
Qed.

Lemma numbers_instances ss : map number (map as_instance ss) = sequences ss.
Proof. by rewrite map_map. Qed.
Lemma contiguous_instances ss : contiguous (map as_instance ss) <-> sequential ss.
Proof. unfold contiguous, sequential, len. by rewrite numbers_instances, length_map. Qed.
Lemma positive_instances ss : positive (map as_instance ss) <-> Forall (fun s => 0 < sequence s) ss.
Proof. unfold positive. by rewrite Forall_map. Qed.

Lemma sig_ValidateSequence_Ret ss :
  Forall (fun s => 0 < sequence s) ss ->
  ValidateSequence ss = Ret tt <-> len ss <= MaxSignatures DefaultLimits /\ sequential ss.
Proof.
  intros Hp%positive_instances. rewrite (same_result_Ret _ _ _ (ValidateSequence_instances ss)).
  rewrite ValidateSequence_Ret, contiguous_instances by done. unfold len. by rewrite length_map.
Qed.
Lemma sig_ValidateSequence_safe ss :
  Forall (fun s => 0 < sequence s) ss -> no_crash (ValidateSequence ss).
Proof.
  intros Hp%positive_instances. eapply same_result_safe; [apply ValidateSequence_instances | ].
  by destruct (ValidateSequence_cases _ Hp) as [(-> & _) | (e & -> & _)].
Qed.

(** ** The ordered sequence *)
Definition in_order (ss ordered : list Signature) : Prop :=
  ordered ≡ₚ ss /\ sequences ordered = seqZ 1 (len ss).

Lemma placeLoop_Ret ss o :
  (forall s, s ∈ ss -> 1 <= sequence s <= len o) -> NoDup (sequences ss) ->
  exists r, placeLoop ss o = Ret r /\ length r = length o /\
    (forall s, s ∈ ss -> r !! Z.to_nat (sequence s - 1) = Some s) /\
    (forall i, Z.of_nat i + 1 ∉ sequences ss -> r !! i = o !! i).
Proof.
  revert o. induction ss as [|s ss IH]; intros o Hb; cbn [placeLoop map].
  - intros _. exists o. split_and!; [done | done | by intros s ?%elem_of_nil | done].
  - intros [Hni Hnd]%NoDup_cons. pose proof (Hb s ltac:(apply list_elem_of_here)) as Hs.
    rewrite (proj2 (Z.leb_le _ _)), (proj2 (Z.ltb_lt _ _)) by lia. cbn [andb].
    destruct (IH (<[Z.to_nat (sequence s - 1) := s]> o)) as (r & -> & Hl & Hin & Hout); [ | done | ].
    { intros t Ht. specialize (Hb t ltac:(by right)). unfold len in *. by rewrite length_insert. }
    rewrite length_insert in Hl. exists r. split_and!; [done | done | | ].
    + intros t [-> | Ht]%elem_of_cons; [ | by apply Hin].
      rewrite Hout by (rewrite Z2Nat.id by lia; by replace (sequence s - 1 + 1) with (sequence s) by lia).
      apply list_lookup_insert_eq. unfold len in Hs. lia.
    + intros i [Hi1 Hi2]%not_elem_of_cons. rewrite Hout by done. apply list_lookup_insert_ne. lia.
Qed.

Lemma sequential_bounds ss s : sequential ss -> s ∈ ss -> 1 <= sequence s <= len ss.
Proof.
  unfold sequential. intros H Hs. assert (sequence s ∈ sequences ss) as Hin by by apply list_elem_of_fmap_2.
  rewrite H, elem_of_seqZ in Hin. lia.
Qed.
Lemma sequential_NoDup ss : sequential ss -> NoDup (sequences ss).
Proof. unfold sequential. intros H. rewrite H. apply NoDup_seqZ. Qed.
Lemma sequential_eq ss s t : sequential ss -> s ∈ ss -> t ∈ ss -> sequence s = sequence t -> s = t.
Proof.
  intros Hnd%sequential_NoDup [i Hi]%list_elem_of_lookup_1 [j Hj]%list_elem_of_lookup_1 E.
  assert (i = j) as ->; [ | congruence].
  eapply NoDup_lookup; [done | |]; rewrite list_lookup_fmap; [by rewrite Hi | rewrite Hj; cbn; by rewrite E].
Qed.
Lemma in_order_sequential ss o : in_order ss o -> sequential ss.
Proof. intros [Hp Ho]. unfold sequential. rewrite <- Ho. symmetry. by apply Permutation_map. Qed.
Lemma in_order_unique ss o1 o2 : in_order ss o1 -> in_order ss o2 -> o1 = o2.
Proof.
  intros H1 H2. pose proof (in_order_sequential _ _ H1) as Hs. destruct H1 as [Hp1 Ho1], H2 as [Hp2 Ho2].
  assert (sequences o1 = sequences o2) as E by congruence.
  apply list_eq_same_length with (length o1); [by rewrite Hp1, Hp2 | done | ].
  intros i s t _ Hi Hj. apply (sequential_eq ss); [done | | | ].
  - rewrite <- Hp1. by eapply list_elem_of_lookup_2.
  - rewrite <- Hp2. by eapply list_elem_of_lookup_2.
  - assert (sequences o1 !! i = sequences o2 !! i) as E2 by by rewrite E.
    rewrite !list_lookup_fmap, Hi, Hj in E2. by injection E2.
Qed.

Lemma OrderBySequence_sequential ss :
  sequential ss -> exists o, placeLoop ss (repeat noSignature (length ss)) = Ret o /\ in_order ss o.
Proof.
  intros Hs. destruct (placeLoop_Ret ss (repeat noSignature (length ss))) as (o & Ho & Hl & Hin & _).
  - intros s Hss. unfold len. rewrite repeat_length. by apply (sequential_bounds ss).
  - by apply sequential_NoDup.
  - exists o. split; [done | ]. rewrite repeat_length in Hl. split.
    + symmetry. apply submseteq_length_Permutation; [ | lia].
      apply NoDup_submseteq; [by eapply NoDup_fmap_1, sequential_NoDup | ].
      intros s Hss. eapply list_elem_of_lookup_2, Hin, Hss.
    + apply list_eq_same_length with (length ss); [by rewrite length_seqZ; unfold len; lia | by rewrite length_map | ].
      intros i k j Hi Hk [-> Hj]%lookup_seqZ. rewrite list_lookup_fmap in Hk.
      assert (1 + Z.of_nat i ∈ sequences ss) as (s & E & Hss)%list_elem_of_fmap.
      { unfold sequential in Hs. rewrite Hs, elem_of_seqZ. lia. }
      specialize (Hin s Hss). rewrite <- E in Hin. replace (Z.to_nat _) with i in Hin by lia.
      rewrite Hin in Hk. cbn in Hk. congruence.
Qed.

Lemma OrderBySequence_Ret ss o :
  Forall (fun s => 0 < sequence s) ss ->
  OrderBySequence ss = Ret o <-> len ss <= MaxSignatures DefaultLimits /\ in_order ss o.
Proof.
  intros Hp. unfold OrderBySequence. split.
  - intros ([] & [Hl Hs]%sig_ValidateSequence_Ret & H)%obind_ret_inv; [ | done].
    destruct (OrderBySequence_sequential ss Hs) as (o2 & E & Ho). split; [done | ]. congruence.
  - intros [Hl Ho]. pose proof (in_order_sequential _ _ Ho) as Hs.
    rewrite (proj2 (sig_ValidateSequence_Ret ss Hp)) by done. cbn [obind].
    destruct (OrderBySequence_sequential ss Hs) as (o2 & -> & Ho2). f_equal. by eapply in_order_unique.
Qed.
Lemma OrderBySequence_safe ss : Forall (fun s => 0 < sequence s) ss -> no_crash (OrderBySequence ss).
Proof.
  intros Hp. unfold OrderBySequence. apply obind_no_crash; [by apply sig_ValidateSequence_safe | ].
  intros [] [_ Hs]%sig_ValidateSequence_Ret; [ | done].
  by destruct (OrderBySequence_sequential ss Hs) as (o2 & -> & _).
Qed.

(** For signatures with positive numbers OrderBySequence never panics; it
    succeeds exactly when there are at most 128 signatures whose numbers are 1
    to their count in some order, and returns the one arrangement of them in
    which the numbers ascend. *)
Theorem OrderBySequence_exact ss :
  Forall (fun s => 0 < sequence s) ss ->
  OrderBySequence ss <> Crash /\
  (is_ret (OrderBySequence ss) = true <-> len ss <= 128 /\ sequential ss) /\
  forall o, OrderBySequence ss = Ret o <-> len ss <= 128 /\ o ≡ₚ ss /\ sequences o = seqZ 1 (len ss).
Proof.
  intros Hp. split_and!; [by apply OrderBySequence_safe | | intros o; by apply OrderBySequence_Ret].
  split.
  - destruct (OrderBySequence ss) as [o| |] eqn:E; [ | done | done].
    apply OrderBySequence_Ret in E as [? ?%in_order_sequential]; done.
  - intros [Hl Hs]. destruct (OrderBySequence_sequential ss Hs) as (o & _ & Ho).
    by rewrite (proj2 (OrderBySequence_Ret ss o Hp)).
Qed.

Definition referring (n m : Z) : Signature :=
  MkSignature n m 0 noPath [] [] false [] [] noLayout noFlags [] false 0.
Lemma OrderBySequence_exact_witness :
  OrderBySequence [referring 2 1; referring 1 1] = Ret [referring 1 1; referring 2 1] /\
  OrderBySequence [referring 2 1; referring 1 1] <> Crash.
Proof.
  split; [reflexivity | ]. apply (OrderBySequence_exact [referring 2 1; referring 1 1]). by repeat constructor.
Defined.

(** A number of zero, which no parsed field has, passes the sequence check and
    is stored before the beginning of the ordered slice. *)
Example OrderBySequence_zero : OrderBySequence [referring 0 1; referring 1 1; referring 3 1] = Crash.
Proof. reflexivity. Qed.

(** ** References *)
(** Every signature refers to an instance, a later one to no earlier instance
    than an earlier one does, and some signature refers to the last instance. *)
Definition references_cover (count : Z) (ss : list Signature) : Prop :=
  (forall s, s ∈ ss -> 1 <= instanceNumber s <= count) /\
  (forall s t, s ∈ ss -> t ∈ ss -> sequence s <= sequence t -> instanceNumber s <= instanceNumber t) /\
  (exists s, s ∈ ss /\ instanceNumber s = count).

Lemma highestLoop_spec ms ns h i ns' h' i' :
  highestLoop ms ns h i = (ns', h', i') ->
  (forall k, k ∈ ns' <-> k ∈ map number ms \/ k ∈ ns) /\
  h <= h' /\ (forall k, k ∈ map number ms -> k <= h') /\ (h' = h \/ h' ∈ map number ms).
Proof.
  revert ns h i. induction ms as [|m ms IH]; intros ns h i; cbn [highestLoop map]; cbv zeta.
  - intros [= <- <- _]. set_solver by lia.
  - intros H. destruct (Z.ltb_spec h (number m)); apply IH in H as (Hk & Hh & Hle & Hin); (split_and!;
      [intros k; rewrite Hk; set_solver | lia | | set_solver]);
    intros k [-> | ?]%elem_of_cons; [lia | auto | lia | auto].
Qed.

Lemma referenceLoop_Ret o ns previous p :
  StronglySorted Z.lt (sequences o) ->
  referenceLoop o ns previous = Ret p <->
  (forall s, s ∈ o -> instanceNumber s ∈ ns /\ previous <= instanceNumber s) /\
  (forall s t, s ∈ o -> t ∈ o -> sequence s <= sequence t -> instanceNumber s <= instanceNumber t) /\
  (o = [] /\ p = previous \/ (exists s, s ∈ o /\ p = instanceNumber s) /\ forall t, t ∈ o -> instanceNumber t <= p).
Proof.
  revert previous. induction o as [|s o IH]; intros previous; cbn [referenceLoop map].
  - intros _. set_solver.
  - intros [Hss Hlt]%StronglySorted_inv. cbn zeta.
    assert (forall t, t ∈ o -> sequence s < sequence t) as Hs.
    { rewrite Forall_forall in Hlt. intros t Ht. apply Hlt. by apply list_elem_of_fmap_2. }
    clear Hlt. case_bool_decide as Hin; cbn [negb orb].
    2: { split; [done | ]. intros [H _]. by destruct (H s ltac:(apply list_elem_of_here)). }
    destruct (Z.ltb_spec (instanceNumber s) previous).
    { split; [done | ]. intros [Hf _]. destruct (Hf s ltac:(apply list_elem_of_here)). lia. }
    rewrite IH by done. clear IH. split.
    + intros (H1 & H2 & H3). split_and!.
      * intros t [-> | Ht]%elem_of_cons; [done | ]. destruct (H1 t Ht). split; [done | lia].
      * intros t u [-> | Ht]%elem_of_cons [-> | Hu]%elem_of_cons Htu; [lia | by apply H1 | | by apply H2].
        specialize (Hs t Ht). lia.
      * right. destruct H3 as [[-> ->] | [(t & Ht & ->) H3]].
        -- split; [exists s; split; [apply list_elem_of_here | done] | ]. intros t ->%list_elem_of_singleton. lia.
        -- split; [exists t; split; [by right | done] | ]. intros u [-> | Hu]%elem_of_cons; [by apply H1 | by apply H3].
    + intros (H1 & H2 & H3). split_and!.
      * intros t Ht. split; [by apply H1; right | ].
        apply H2; [apply list_elem_of_here | by right | ]. specialize (Hs t Ht). lia.
      * intros t u Ht Hu. apply H2; by right.
      * destruct H3 as [[? _] | [(t & Ht & ->) H3]]; [done | ]. destruct (decide (o = [])) as [-> | Hne].
        -- left. apply list_elem_of_singleton in Ht as ->. done.
        -- right. split; [ | intros u Hu; apply H3; by right].
           apply elem_of_cons in Ht as [-> | Ht]; [ | by exists t].
           destruct o as [|u o]; [done | ]. exists u. split; [apply list_elem_of_here | ].
           pose proof (Hs u ltac:(apply list_elem_of_here)) as Hu.
           apply Z.le_antisymm; [apply H2; [apply list_elem_of_here | right; apply list_elem_of_here | lia] | ].
           apply H3. right. apply list_elem_of_here.
Qed.

Lemma seqZ_sorted n k : StronglySorted Z.lt (seqZ k n).
Proof.
  unfold seqZ. generalize (Z.to_nat n). clear n. intros n. revert k.
  enough (forall j k, StronglySorted Z.lt ((fun i => Z.of_nat i + k) <$> seq j n)) as H by (intros k; apply (H 0%nat)).
  induction n as [|n IH]; intros j k; cbn; [constructor | ]. constructor; [apply IH | ].
  apply Forall_fmap, Forall_forall. intros i Hi%list_elem_of_In%in_seq. cbn. lia.
Qed.
Lemma in_order_sorted ss o : in_order ss o -> StronglySorted Z.lt (sequences o).
Proof. intros [_ ->]. apply seqZ_sorted. Qed.

Lemma highest_contiguous m ms ns h i :
  contiguous (m :: ms) -> highestLoop (m :: ms) ∅ 0 0 = (ns, h, i) ->
  h = len (m :: ms) /\ forall k, k ∈ ns <-> 1 <= k <= len (m :: ms).
Proof.
  intros Hc H. apply highestLoop_spec in H as (Hk & H0 & Hle & Hin).
  assert (forall k, k ∈ map number (m :: ms) <-> 1 <= k <= len (m :: ms)) as Hn by (intros k; by apply contiguous_elem).
  assert (0 < len (m :: ms)) by (rewrite len_cons; pose proof (len_nonneg ms); lia).
  split; [ | intros k; rewrite Hk, Hn; set_solver].
  pose proof (proj2 (Hn (len (m :: ms))) ltac:(lia)) as Hl%Hle.
  destruct Hin as [-> | Hin%Hn]; lia.
Qed.

Lemma references_Ret m ms ss o :
  contiguous (m :: ms) -> in_order ss o ->
  (exists p, referenceLoop o (highestLoop (m :: ms) ∅ 0 0).1.1 0 = Ret p /\ p = (highestLoop (m :: ms) ∅ 0 0).1.2)
  <-> references_cover (len (m :: ms)) ss.
Proof.
  intros Hc Ho. destruct (highestLoop (m :: ms) ∅ 0 0) as [[ns h] i] eqn:E. cbn [fst snd].
  apply highest_contiguous in E as [-> Hns]; [ | done].
  assert (forall s, s ∈ o <-> s ∈ ss) as Hos by (intros s; by rewrite (proj1 Ho)).
  assert (1 <= len (m :: ms)) by (rewrite len_cons; pose proof (len_nonneg ms); lia).
  assert (forall s, instanceNumber s ∈ ns <-> 1 <= instanceNumber s <= len (m :: ms)) as Hn by (intros; apply Hns).
  unfold references_cover. split.
  - intros (p & H1 & ->). apply (referenceLoop_Ret _ _ _ _ (in_order_sorted _ _ Ho)) in H1 as (H1 & H2 & H3).
    split_and!.
    + intros s Hs. by apply Hn, H1, Hos.
    + intros s t Hs Ht. by apply H2; apply Hos.
    + destruct H3 as [[_ ?] | [(s & Hs & ->) _]]; [lia | ]. exists s. by rewrite <- Hos.
  - intros (H1 & H2 & s & Hs & E). exists (len (m :: ms)). split; [ | done].
    apply referenceLoop_Ret; [by eapply in_order_sorted | ]. split_and!.
    + intros t Ht%Hos. rewrite Hn. specialize (H1 t Ht). lia.
    + intros t u Ht Hu. by apply H2; apply Hos.
    + right. split; [exists s; by rewrite Hos | ]. intros t Ht%Hos. by apply H1.
Qed.

Lemma ValidateInstanceReferences_Ret ms ss :
  positive ms -> Forall (fun s => 0 < sequence s) ss ->
  ValidateInstanceReferences ms ss = Ret tt <->
  len ms <= 128 /\ contiguous ms /\ len ss <= 128 /\ sequential ss /\
  (ms = [] /\ ss = [] \/ references_cover (len ms) ss).
Proof.
  intros Hm Hs. unfold ValidateInstanceReferences. split.
  - intros ([] & Hvm%map_fail_Ret & H)%obind_ret_inv. apply obind_ret_inv in H as ([] & Hvs%map_fail_Ret & H).
    apply ValidateSequence_Ret in Hvm as [Hl Hc]; [ | done]. pose proof Hvs as Hv.
    apply sig_ValidateSequence_Ret in Hvs as [Hls Hsq]; [ | done]. split_and!; try done.
    destruct ms as [|m ms]; [destruct ss; [by left | done] | right].
    pose proof (references_Ret m ms ss) as HR. destruct (highestLoop (m :: ms) ∅ 0 0) as [[ns h] i].
    destruct ss as [|s ss]; [done | ].
    apply obind_ret_inv in H as (o & Ho%map_fail_Ret & H). apply OrderBySequence_Ret in Ho as [_ Ho]; [ | done].
    apply obind_ret_inv in H as (p & Hp & H). destruct (Z.eqb_spec p h) as [-> | ?]; [ | done].
    apply (HR o Hc Ho). by exists h.
  - intros (Hl & Hc & Hls & Hsq & H).
    rewrite (proj2 (map_fail_Ret _ _ tt) (proj2 (ValidateSequence_Ret ms Hm) (conj Hl Hc))). cbn [obind].
    rewrite (proj2 (map_fail_Ret _ _ tt) (proj2 (sig_ValidateSequence_Ret ss Hs) (conj Hls Hsq))). cbn [obind].
    destruct H as [[-> ->] | H]; [done | ].
    destruct ms as [|m ms]; [destruct H as (H1 & _ & s & Hin & _); specialize (H1 s Hin); change (len (@nil MessageInstance)) with 0 in H1; lia | ].
    destruct (OrderBySequence_sequential ss Hsq) as (o & _ & Ho). pose proof (references_Ret m ms ss o Hc Ho) as HR.
    destruct (highestLoop (m :: ms) ∅ 0 0) as [[ns h] i]. apply HR in H as H2. cbn [fst snd] in H2.
    destruct H2 as (p & Hp & ->). destruct ss as [|s ss]; [destruct H as (_ & _ & s & Hin & _); by apply elem_of_nil in Hin | ].
    rewrite (proj2 (map_fail_Ret _ _ o) (proj2 (OrderBySequence_Ret (s :: ss) o Hs) (conj Hls Ho))). cbn [obind].
    rewrite Hp. cbn [obind]. by rewrite Z.eqb_refl.
Qed.
Lemma referenceLoop_safe o ns previous : no_crash (referenceLoop o ns previous).
Proof. revert previous. induction o as [|s o IH]; intros; cbn [referenceLoop]; crash_free. Qed.
Lemma ValidateInstanceReferences_safe ms ss :
  positive ms -> Forall (fun s => 0 < sequence s) ss -> no_crash (ValidateInstanceReferences ms ss).
Proof.
  intros Hm Hs. unfold ValidateInstanceReferences.
  apply obind_no_crash; [apply map_fail_no_crash | intros _ _].
  { by destruct (ValidateSequence_cases ms Hm) as [(-> & _) | (e & -> & _)]. }
  apply obind_no_crash; [by apply map_fail_no_crash, sig_ValidateSequence_safe | intros _ _].
  destruct ms as [|m ms]; [by destruct ss | ]. destruct (highestLoop _ _ _ _) as [[ns h] i].
  destruct ss as [|s ss]; [done | ].
  apply obind_no_crash; [by apply map_fail_no_crash, OrderBySequence_safe | intros o _].
  apply obind_no_crash; [apply referenceLoop_safe | intros p _]. by destruct (p =? h).
Qed.

(** C26: for instances and signatures with positive numbers
    ValidateInstanceReferences never panics and succeeds exactly when both are
    numbered from 1 without a gap, at most 128 each, and either there are none
    of both or every signature refers to an instance that is there, a later
    signature to no earlier instance than an earlier one, and some signature to
    the last instance. *)
Theorem ValidateInstanceReferences_exact ms ss :
  Forall (fun m => 0 < number m) ms -> Forall (fun s => 0 < sequence s) ss ->
  ValidateInstanceReferences ms ss <> Crash /\
  (ValidateInstanceReferences ms ss = Ret tt <->
   len ms <= 128 /\ contiguous ms /\ len ss <= 128 /\ sequential ss /\
   (ms = [] /\ ss = [] \/ references_cover (len ms) ss)).
Proof.
  intros Hm Hs. split; [by apply ValidateInstanceReferences_safe | by apply ValidateInstanceReferences_Ret].
Qed.
Lemma ValidateInstanceReferences_exact_witness :
  let ms := map numbered [2; 1] in let ss := [referring 2 1; referring 1 1; referring 3 2] in
  ValidateInstanceReferences ms ss = Ret tt /\
  is_ret (ValidateInstanceReferences ms [referring 1 2; referring 2 1]) = false /\
  references_cover 2 ss.
Proof.
  cbv zeta. split_and!; [reflexivity | reflexivity | ].
  destruct (ValidateInstanceReferences_exact (map numbered [2; 1]) [referring 2 1; referring 1 1; referring 3 2])
    as [_ [H _]]; [by repeat constructor | by repeat constructor | ].
  destruct (H eq_refl) as (_ & _ & _ & _ & [[E _] | Hc]); [discriminate E | exact Hc].
Defined.

(** ** Extraction from a message *)
Section extract.
Context (registration : bytes -> option bytes).
Definition denotes_signature_field (limits : Limits) (s : Signature) (field : HeaderField) : Prop :=
  headerIndex s = hf_index field /\ signature_text registration limits (unfoldedValue field) s.

Lemma sig_parseFields_Ret limits fields ss :
  Forall (fun f => nameLower f = HeaderName) fields ->
  parseFields registration limits fields = Ret ss <-> Forall2 (denotes_signature_field limits) ss fields.
Proof.
  intros Hf. revert ss. induction Hf as [|f fields Hn _ IH]; intros ss; cbn [parseFields].
  - split; [by intros [= <-] | ]. by intros ->%Forall2_nil_inv_r.
  - split.
    + intros (s & (_ & Hs)%sig_ParseField_Ret & H)%obind_ret_inv. apply obind_ret_inv in H as (ss' & Hss & [= <-]).
      constructor; [done | by apply IH].
    + intros (s & ss' & Hs & Hss & ->)%Forall2_cons_inv_r.
      rewrite (proj2 (sig_ParseField_Ret registration limits f s)) by done. cbn [obind]. by rewrite (proj2 (IH ss')).
Qed.
Lemma sig_parseFields_safe limits fields : no_crash (parseFields registration limits fields).
Proof. induction fields as [|f fields IH]; cbn [parseFields]; [done | ]. crash_free. apply sig_ParseField_safe. Qed.
Lemma denoted_sequence_positive limits ss fields :
  Forall2 (denotes_signature_field limits) ss fields -> Forall (fun s => 0 < sequence s) ss.
Proof.
  induction 1 as [|s f ss fields [_ (_ & _ & _ & tf & _ & Hs)] _ IH]; constructor; [ | done].
  destruct Hs as ((v & _ & _ & _ & _ & ? & _) & _). done.
Qed.

(** Extract never panics and returns a sequence exactly when the message
    has at most the allowed number of DKIM2-Signature fields, each of them
    denotes the signature at its position, and the signatures' numbers are 1 to
    their count in some order. *)
Theorem sig_Extract_refines limits msg :
  Extract registration limits msg <> Crash /\
  forall ss, Extract registration limits msg = Ret ss <->
    let fields := filter (fun f => nameLower f = HeaderName) (hb_fields (headers msg)) in
    len fields <= MaxSignatures limits /\ Forall2 (denotes_signature_field limits) ss fields /\
    len ss <= 128 /\ sequential ss.
Proof.
  unfold Extract. change (HeaderBlock_FieldsByName (headers msg) HeaderName)
    with (filter (fun f => nameLower f = HeaderName) (hb_fields (headers msg))). set (fields := filter _ _).
  assert (Forall (fun f => nameLower f = HeaderName) fields) as Hf.
  { apply list.Forall_forall. by intros f [? _]%list_elem_of_filter. }
  split.
  - match goal with |- ?g <> Crash => change (no_crash g) end. crash_free; [apply sig_parseFields_safe | ].
    match goal with H : parseFields _ _ _ = Ret ?ss |- _ =>
      apply sig_parseFields_Ret in H as H%denoted_sequence_positive; [ | done]; by apply sig_ValidateSequence_safe end.
  - intros ss. cbn zeta. split.
    + intros (? & Hl%require_ret_inv%negb_true_iff%Z.ltb_ge & H)%obind_ret_inv.
      apply obind_ret_inv in H as (ss' & Hss & H). apply sig_parseFields_Ret in Hss; [ | done].
      apply obind_ret_inv in H as ([] & Hv & [= <-]).
      apply sig_ValidateSequence_Ret in Hv as [? ?]; [done | by eapply denoted_sequence_positive].
    + intros (Hl & Hss & Hmax & Hc). rewrite (proj2 (Z.ltb_ge _ _)) by done. cbn [negb require obind].
      rewrite (proj2 (sig_parseFields_Ret limits fields ss Hf)) by done. cbn [obind].
      rewrite (proj2 (sig_ValidateSequence_Ret ss (denoted_sequence_positive _ _ _ Hss))) by done. done.
Qed.
End extract.
