(* ===== verification/SigCustody.v ===== *)
(** * Package internal/signature: the chain of custody (custody.go)

    The two status vocabularies are Go strings whose zero value is the empty
    string.  A recipient set is a map of which only the keys are used; the loops
    over it return a Boolean that does not depend on their order. *)

From stdpp Require Import gmap numbers sorting.
From S2P Require Import Prelude GoBytes RawMsg RawBody RawParser TagTypes TagBase64 Combine TagSpec DomainName SigAlgorithm.
From S2P Require Import SigTypes SigEnvelope SigEnvelopeSpec SigParser SigSpec SigCollection.
#[local] Open Scope Z_scope.

(** ** Limits *)
Record CustodyLimits := MkCustodyLimits { cl_MaxSignatures : Z; MaxRecipientsPerSignature : Z }.
Definition DefaultCustodyLimits : CustodyLimits :=
  MkCustodyLimits (MaxSignatures DefaultLimits) (MaxRecipients DefaultLimits).
Definition CustodyLimits_Validate (l : CustodyLimits) : outcome Failure unit :=
  let hard := DefaultCustodyLimits in
  require (negb ((cl_MaxSignatures l <=? 0) || (cl_MaxSignatures hard <? cl_MaxSignatures l)
                 || (MaxRecipientsPerSignature l <=? 0)
                 || (MaxRecipientsPerSignature hard <? MaxRecipientsPerSignature l)))
    (sigError ErrorCodeInvalidOptions noLoc noDetails).
Definition CustodyLimits_normalized (l : CustodyLimits) : outcome Failure CustodyLimits :=
  let defaults := DefaultCustodyLimits in
  let l := MkCustodyLimits (default_if_zero (cl_MaxSignatures l) (cl_MaxSignatures defaults))
             (default_if_zero (MaxRecipientsPerSignature l) (MaxRecipientsPerSignature defaults)) in
  check CustodyLimits_Validate l ;;
  Ret l.

(** ** Results *)
Definition CustodyStatus := string.
Definition CustodyStatusOrdinaryComplete : CustodyStatus := "ordinary_complete"%string.
Definition CustodyStatusTerminalNextDomain : CustodyStatus := "terminal_next_domain"%string.
Definition CustodyStatus_Known (s : CustodyStatus) : bool :=
  bool_decide (s = CustodyStatusOrdinaryComplete) || bool_decide (s = CustodyStatusTerminalNextDomain).

Definition CustodyDirectAlignmentStatus := string.
Definition CustodyDirectAlignmentPass : CustodyDirectAlignmentStatus := "pass"%string.
Definition CustodyDirectAlignmentNotApplicableNull : CustodyDirectAlignmentStatus := "not_applicable_null"%string.
Definition CustodyDirectAlignmentNotApplicableNextDomain : CustodyDirectAlignmentStatus :=
  "not_applicable_next_domain"%string.
Definition CustodyDirectAlignmentMismatch : CustodyDirectAlignmentStatus := "mismatch"%string.
Definition CustodyDirectAlignmentInvalid : CustodyDirectAlignmentStatus := "invalid"%string.
Definition DirectAlignmentStatus_Known (s : CustodyDirectAlignmentStatus) : bool :=
  bool_decide (s = CustodyDirectAlignmentPass) || bool_decide (s = CustodyDirectAlignmentNotApplicableNull)
  || bool_decide (s = CustodyDirectAlignmentNotApplicableNextDomain)
  || bool_decide (s = CustodyDirectAlignmentMismatch) || bool_decide (s = CustodyDirectAlignmentInvalid).

Record CustodyResult := MkCustodyResult {
  status : CustodyStatus; count : Z; hadNextDomain : bool;
  direct : list CustodyDirectAlignmentStatus; result_initialized : bool }.
Definition noCustodyResult : CustodyResult := MkCustodyResult "" 0 false [] false.

(** The loop of Evaluated: no result on an unknown status. *)
Fixpoint derivedLoop (statuses : list CustodyDirectAlignmentStatus) (derived : bool) : option bool :=
  match statuses with
  | [] => Some derived
  | s :: rest =>
      if negb (DirectAlignmentStatus_Known s) then None
      else derivedLoop rest (derived || bool_decide (s = CustodyDirectAlignmentNotApplicableNextDomain))
  end.
Definition Evaluated (r : CustodyResult) : bool :=
  if negb (result_initialized r) || negb (CustodyStatus_Known (status r)) || (count r <=? 0)
     || (cl_MaxSignatures DefaultCustodyLimits <? count r) || negb (len (direct r) =? count r)
  then false
  else
    match derivedLoop (direct r) false with
    | None => false
    | Some derivedHadNextDomain =>
        let terminalNextDomain :=
          bool_decide (List.last (direct r) ""%string = CustodyDirectAlignmentNotApplicableNextDomain) in
        Bool.eqb (hadNextDomain r) derivedHadNextDomain
        && Bool.eqb (bool_decide (status r = CustodyStatusTerminalNextDomain)) terminalNextDomain
    end.
Definition DirectAlignment (r : CustodyResult) (sequence : Z) : CustodyDirectAlignmentStatus :=
  if negb (Evaluated r) || (sequence =? 0) || (len (direct r) <? sequence) then ""%string
  else default ""%string (direct r !! Z.to_nat (sequence - 1)).

Definition not_aligned (s : CustodyDirectAlignmentStatus) : bool :=
  bool_decide (s = CustodyDirectAlignmentMismatch) || bool_decide (s = CustodyDirectAlignmentInvalid).
Definition AllDirectAligned (r : CustodyResult) : bool :=
  if negb (Evaluated r) then false else forallb (fun s => negb (not_aligned s)) (direct r).
Fixpoint alignedExceptLoop (statuses : list CustodyDirectAlignmentStatus) (index sequence : Z) : bool :=
  match statuses with
  | [] => true
  | s :: rest =>
      if index + 1 =? sequence then alignedExceptLoop rest (index + 1) sequence
      else if not_aligned s then false else alignedExceptLoop rest (index + 1) sequence
  end.
Definition AllDirectAlignedExcept (r : CustodyResult) (sequence : Z) : bool :=
  if negb (Evaluated r) || (sequence =? 0) || (len (direct r) <? sequence) then false
  else alignedExceptLoop (direct r) 0 sequence.
Fixpoint firstMismatchLoop (statuses : list CustodyDirectAlignmentStatus) (index : Z)
    : option (Z * CustodyDirectAlignmentStatus) :=
  match statuses with
  | [] => None
  | s :: rest => if not_aligned s then Some (index + 1, s) else firstMismatchLoop rest (index + 1)
  end.
Definition FirstDirectMismatch (r : CustodyResult) : option (Z * CustodyDirectAlignmentStatus) :=
  if negb (Evaluated r) then None else firstMismatchLoop (direct r) 0.
Definition CustodyResult_Valid (r : CustodyResult) : bool := Evaluated r && AllDirectAligned r.

(** ** Domains of a hop *)
(** [bytes.LastIndexByte s c]; Go's -1 is [None]. *)
Fixpoint last_index_byte (s : bytes) (c : byte) : option nat :=
  match s with
  | [] => None
  | b :: s' =>
      match last_index_byte s' c with
      | Some i => Some (S i)
      | None => if b =?b c then Some 0%nat else None
      end
  end.
Definition custodyPathDomain (path : bytes) : option bytes :=
  match path with
  | first :: _ =>
      if (len path <? 4) || negb (first =?b x3c) || negb (List.last path first =?b x3e) then None
      else
        let mailbox := interior path in
        match last_index_byte mailbox x40 with
        | None => None
        | Some separator =>
            if (separator <? 1)%nat || (Z.of_nat separator =? len mailbox - 1) then None
            else canonicalDNSName (drop (S separator) mailbox)
        end
  | [] => None
  end.
Definition RelaxedDomainMatch (base candidate : bytes) : bool :=
  bool_decide (candidate = base) || has_suffix candidate (x2e :: base).

Record custodyEntry := MkEntry {
  entry_domain : bytes; mailDomain : bytes; nullReverse : bool; entry_recipients : gset bytes;
  entry_nextDomain : bytes; entry_hasNextDomain : bool; entry_direct : CustodyDirectAlignmentStatus }.
Definition custodyMismatch : Failure := sigError ErrorCodeCustodyMismatch noLoc noDetails.

Definition custodyTransitionAllowed (previous current : custodyEntry) : bool :=
  if entry_hasNextDomain previous
  then bool_decide (entry_domain current = entry_nextDomain previous)
  else if entry_hasNextDomain current || nullReverse current
  then existsb (fun recipientDomain => RelaxedDomainMatch (entry_domain current) recipientDomain)
         (elements (entry_recipients previous))
  else if bool_decide (mailDomain current = []) then false
  else existsb (fun recipientDomain => RelaxedDomainMatch recipientDomain (mailDomain current))
         (elements (entry_recipients previous)).
Definition custodyError (c : ErrorCode) (parsed : Signature) (d : ErrorDetails) : Failure :=
  sigError c (fieldLoc (headerIndex parsed))
    (MkDetails (det_TagName d) (det_LimitName d) (det_Limit d) (det_Count d) (det_ExpectedNumber d) (sequence parsed)).

Section idna.
Variable registration_ToASCII : bytes -> option bytes.
Abbreviation validEnvelopePath := (validEnvelopePath registration_ToASCII).

(** ** Hops *)
Fixpoint entryRecipientsLoop (paths : list EnvelopePath) (acc : gset bytes) : outcome Failure (gset bytes) :=
  match paths with
  | [] => Ret acc
  | recipient :: rest =>
      let path := value recipient in
      check require (validEnvelopePath path false) custodyMismatch ;;
      match custodyPathDomain path with
      | None => entryRecipientsLoop rest acc
      | Some recipientDomain => entryRecipientsLoop rest ({[recipientDomain]} ∪ acc)
      end
  end.
(** The mail domain and the alignment of a nonempty reverse path. *)
Definition entryAlignment (domain reversePath : bytes) : bytes * CustodyDirectAlignmentStatus :=
  match custodyPathDomain reversePath with
  | None => ([], CustodyDirectAlignmentInvalid)
  | Some mailDomain =>
      (mailDomain, if negb (RelaxedDomainMatch domain mailDomain)
                   then CustodyDirectAlignmentMismatch else CustodyDirectAlignmentPass)
  end.
Definition newCustodyEntry (parsed : Signature) (limits : CustodyLimits) : outcome Failure custodyEntry :=
  match canonicalDNSName (domain parsed) with
  | None => Fail custodyMismatch
  | Some canonical =>
      match Signature_NextDomain parsed with
      | Some next =>
          check require (negb (negb (len (value (mailFrom parsed)) =? 0) || negb (len (recipients parsed) =? 0)))
            custodyMismatch ;;
          match canonicalDNSName next with
          | None => Fail custodyMismatch
          | Some canonicalNext =>
              Ret (MkEntry canonical [] false ∅ canonicalNext true CustodyDirectAlignmentNotApplicableNextDomain)
          end
      | None =>
          check require (negb (negb (bool_decide (nextDomain parsed = [])) || hasNextDomain parsed)) custodyMismatch ;;
          let reversePath := value (mailFrom parsed) in
          check require (validEnvelopePath reversePath true) custodyMismatch ;;
          let '(null, (mail, alignment)) :=
            if bytes_equal reversePath (bs "<>")
            then (true, ([], CustodyDirectAlignmentNotApplicableNull))
            else (false, entryAlignment canonical reversePath) in
          check require (negb (len (recipients parsed) =? 0)) custodyMismatch ;;
          check require (negb (MaxRecipientsPerSignature limits <? len (recipients parsed)))
            (sigError ErrorCodeLimitExceeded noLoc
               (limitDetails LimitNameMaxRecipients (MaxRecipientsPerSignature limits) (len (recipients parsed)))) ;;
          let* domains := entryRecipientsLoop (recipients parsed) ∅ in
          Ret (MkEntry canonical mail null domains [] false alignment)
      end
  end.

(** ** The evaluation of a chain *)
(** The error of newCustodyEntry as evaluateCustody reports it. *)
Definition entryError (parsed : Signature) (f : Failure) : Failure :=
  match f with
  | SignatureFailure typed =>
      let tagName := if hasNextDomain parsed then TagNameNextDomain else TagNameMailFrom in
      custodyError (err_code typed) parsed
        (MkDetails tagName (det_LimitName (err_details typed)) (det_Limit (err_details typed))
           (det_Count (err_details typed)) 0 0)
  | TagFailure _ => custodyError ErrorCodeCustodyMismatch parsed noDetails
  end.
Definition transitionError (previousParsed parsed : Signature) (previous entry : custodyEntry) : Failure :=
  let tagName := if entry_hasNextDomain previous || entry_hasNextDomain entry
                 then TagNameNextDomain else TagNameMailFrom in
  let offending := if entry_hasNextDomain previous then previousParsed else parsed in
  custodyError ErrorCodeCustodyMismatch offending (tagDetails tagName).

(** The loop over the ordered signatures; [previous] is the signature before
    the first of them and its entry, when there is one. *)
Fixpoint custodyLoop (ordered : list Signature) (limits : CustodyLimits)
    (previous : option (Signature * custodyEntry)) (direct : list CustodyDirectAlignmentStatus)
    : outcome Failure (option (Signature * custodyEntry) * list CustodyDirectAlignmentStatus) :=
  match ordered with
  | [] => Ret (previous, direct)
  | parsed :: rest =>
      let* entry := map_fail (entryError parsed) (newCustodyEntry parsed limits) in
      check match previous with
            | None => Ret tt
            | Some (previousParsed, previousEntry) =>
                require (custodyTransitionAllowed previousEntry entry)
                  (transitionError previousParsed parsed previousEntry entry)
            end ;;
      custodyLoop rest limits (Some (parsed, entry)) (direct ++ [entry_direct entry])
  end.
Definition custodyContainsNextDomain (ss : list Signature) : bool := existsb hasNextDomain ss.
Definition evaluateCustody (ss : list Signature) (limits : CustodyLimits) : outcome Failure CustodyResult :=
  let* resolved := CustodyLimits_normalized limits in
  check require (negb (len ss =? 0)) custodyMismatch ;;
  check require (negb (cl_MaxSignatures resolved <? len ss))
    (sigError ErrorCodeLimitExceeded noLoc
       (limitDetails LimitNameMaxSignatures (cl_MaxSignatures resolved) (len ss))) ;;
  check ValidateSequence ss ;;
  let* ordered := OrderBySequence ss in
  let* (previous, direct) := custodyLoop ordered resolved None [] in
  let status := match previous with
                | Some (_, entry) => if entry_hasNextDomain entry
                                     then CustodyStatusTerminalNextDomain else CustodyStatusOrdinaryComplete
                | None => CustodyStatusOrdinaryComplete
                end in
  Ret (MkCustodyResult status (len ss) (custodyContainsNextDomain ordered) direct true).

Fixpoint sequenceIndexLoop (ss : list Signature) (s : Z) (index : nat) : nat :=
  match ss with
  | [] => 0
  | parsed :: rest => if sequence parsed =? s then index else sequenceIndexLoop rest s (S index)
  end.
Definition sequenceIndex (ss : list Signature) (s : Z) : nat := sequenceIndexLoop ss s 0.

(** The result is returned with an error too. *)
Definition ValidateCustody (ss : list Signature) (limits : CustodyLimits)
    : outcome (CustodyResult * Failure) CustodyResult :=
  let* result := map_fail (pair noCustodyResult) (evaluateCustody ss limits) in
  match FirstDirectMismatch result with
  | Some (s, _) =>
      match ss !! sequenceIndex ss s with
      | Some parsed => Fail (result, custodyError ErrorCodeCustodyMismatch parsed (tagDetails TagNameMailFrom))
      | None => Crash
      end
  | None => Ret result
  end.

Definition inheritedCustodySignatures (hb : HeaderBlock) : outcome Failure (list Signature) :=
  let fields := HeaderBlock_FieldsByName hb HeaderName in
  foldr (fun field rest =>
    let* parsed := Parse registration_ToASCII field in
    let* parsedRest := rest in
    Ret (parsed :: parsedRest)) (Ret []) fields.
End idna.

(** ** Relaxed domain match *)
(** The labels of [base] end the labels of [candidate]. *)
Definition within (base candidate : bytes) : Prop := split_byte x2e base `suffix_of` split_byte x2e candidate.
#[export] Instance within_dec base candidate : Decision (within base candidate).
Proof. unfold within. apply _. Defined.

Lemma relaxed_within base candidate : RelaxedDomainMatch base candidate = true <-> within base candidate.
Proof.
  unfold RelaxedDomainMatch, within. rewrite orb_true_iff, bool_decide_eq_true, has_suffix_spec. split.
  - intros [-> | [t ->]]; [done | ]. rewrite split_byte_app_split. by apply suffix_app_r.
  - intros [ls E]. destruct (decide (ls = [])) as [-> | Hne].
    + left. rewrite <- (join_split candidate), E. apply join_split.
    + right. exists (join_labels ls). rewrite <- (join_split candidate), E.
      rewrite join_labels_app by (done || apply split_byte_nonempty). by rewrite join_split.
Qed.

(** The relaxed match compares whole labels: it holds exactly when the
    labels of the base are the last labels of the candidate, so that each name
    matches itself and the names below it; it is a partial order on names. *)
Theorem RelaxedDomainMatch_exact base candidate :
  (RelaxedDomainMatch base candidate = true <-> split_byte x2e base `suffix_of` split_byte x2e candidate) /\
  RelaxedDomainMatch base base = true /\
  (RelaxedDomainMatch base candidate = true -> RelaxedDomainMatch candidate base = true -> base = candidate) /\
  (forall name, RelaxedDomainMatch base candidate = true -> RelaxedDomainMatch candidate name = true ->
     RelaxedDomainMatch base name = true).
Proof.
  split_and!; [apply relaxed_within | apply relaxed_within; unfold within; reflexivity | | ].
  - intros H1%relaxed_within H2%relaxed_within. rewrite <- (join_split base), <- (join_split candidate). f_equal.
    by apply (anti_symm list.suffix).
  - intros name H1%relaxed_within H2%relaxed_within. apply relaxed_within. unfold within in *. by etrans.
Qed.
Lemma RelaxedDomainMatch_exact_witness :
  RelaxedDomainMatch (bs "example.org") (bs "mail.example.org") = true /\
  RelaxedDomainMatch (bs "example.org") (bs "badexample.org") = false /\
  RelaxedDomainMatch (bs "org") (bs "mail.example.org") = true.
Proof.
  split_and!; [reflexivity | reflexivity | ].
  by apply (RelaxedDomainMatch_exact (bs "org") (bs "example.org")).
Defined.

(** ** Domains of paths *)
Lemma last_index_app s c t : c ∉ t -> last_index_byte (s ++ c :: t) c = Some (length s).
Proof.
  intros Ht. assert (last_index_byte t c = None) as E.
  { induction t as [|b t IH]; [done | ]. apply not_elem_of_cons in Ht as [Hb Ht]. cbn [last_index_byte]. rewrite IH by done.
    by rewrite (proj2 (byte_eqb_ne b c)). }
  induction s as [|b s IH]; cbn [app last_index_byte length]; [rewrite E, byte_eqb_refl; done | by rewrite IH].
Qed.
Lemma last_index_inv s c i : last_index_byte s c = Some i -> exists t, s = take i s ++ c :: t /\ c ∉ t /\ t = drop (S i) s.
Proof.
  revert i. induction s as [|b s IH]; intros i; cbn [last_index_byte]; [done | ].
  destruct (last_index_byte s c) as [j|] eqn:E.
  - intros [= <-]. destruct (IH j eq_refl) as (t & Es & Ht & Ed). exists t. split_and!; [ | done | done].
    cbn [take app]. by rewrite <- Es.
  - case_byte; [ | done]. intros [= <-]. exists s. split_and!; [done | | done]. clear -E.
    induction s as [|b s IH]; [by intros ?%elem_of_nil | ]. cbn [last_index_byte] in E.
    destruct (last_index_byte s c); [done | ]. revert E. case_byte; [done | ]. intros _.
    apply not_elem_of_cons. split; [by intros -> | by apply IH].
Qed.
Lemma custodyPathDomain_path route local dom d :
  path_ok route local dom -> x40 ∉ dom ->
  custodyPathDomain (path_text route local dom) = Some d <->
  is_literal dom = false /\ is_domain (map fold_byte dom) /\ d = map fold_byte dom.
Proof.
  intros (_ & (Hl & _ & _ & Hd) & _) Hdom. unfold custodyPathDomain.
  pose proof (path_interior route local dom) as Ei.
  pose proof (path_len route local dom) as El. unfold path_start in El.
  pose proof (len_nonneg route). pose proof (len_nonneg local).
  destruct (local_head local Hl) as (b & l & -> & _). rewrite (len_cons b l) in El. pose proof (len_nonneg l).
  destruct dom as [|c dom]; [done | ]. pose proof (len_nonneg dom) as Hdl.
  assert (exists t, path_text route (b :: l) (c :: dom) = x3c :: t ++ [x3e]) as [t Et] by by eexists.
  rewrite Et in *. rewrite (len_cons c dom) in El. rewrite (proj2 (Z.ltb_ge _ _)) by lia.
  replace (List.last (x3c :: t ++ [x3e]) x3c) with x3e by (rewrite app_comm_cons; by rewrite List.last_last).
  cbn [orb negb Byte.eqb]. rewrite Ei.
  rewrite byte_eqb_refl. cbn [negb orb].
  change (route ++ (b :: l) ++ x40 :: c :: dom) with (route ++ (b :: l) ++ [x40] ++ c :: dom).
  assert (route ++ (b :: l) ++ [x40] ++ c :: dom = (route ++ b :: l) ++ x40 :: c :: dom) as -> by by rewrite <- app_assoc.
  rewrite last_index_app by done. rewrite length_app. cbn [length].
  rewrite (proj2 (Nat.ltb_ge _ _)) by lia.
  rewrite (proj2 (Z.eqb_neq _ _)).
  2: { rewrite !len_app, !len_cons. unfold len. lia. }
  cbn [orb]. replace (drop _ _) with (c :: dom).
  2: { rewrite cons_middle, app_assoc, drop_app_ge by (rewrite !length_app; cbn; lia).
       rewrite !length_app. cbn [length]. replace (_ - _)%nat with 0%nat by lia. done. }
  change (negb (x3e =?b x3e)) with false. cbv iota. rewrite canonicalDNSName_Some. cbn [is_literal]. split; [intros [Hf ->]; split_and!; [ | done | done] | tauto].
  destruct (c =?b x5b) eqn:Ec; [ | done]. apply byte_eqb_eq in Ec as ->. exfalso.
  apply raw_domain_chars, Forall_cons in Hf as [Hf _]. done.
Qed.

Section spec.
Context (registration : bytes -> option bytes).
#[local] Abbreviation validPath := (SigEnvelope.validEnvelopePath registration).
#[local] Abbreviation newEntry := (newCustodyEntry registration).

(** The custody domain of an SMTP path is its own domain in lower case:
    for every valid path whose domain text has no at sign, there is one exactly
    when the domain is a DNS name; a source route, the local part and an address
    literal never give one. *)
Theorem custodyPathDomain_exact route local dom d :
  path_ok route local dom -> x40 ∉ dom ->
  custodyPathDomain (path_text route local dom) = Some d <->
  is_literal dom = false /\ is_domain (map fold_byte dom) /\ d = map fold_byte dom.
Proof. apply custodyPathDomain_path. Qed.

(** ** What a hop is *)
Definition reverse_path (s : Signature) : bytes := value (mailFrom s).
Definition null_reverse (s : Signature) : bool := bool_decide (reverse_path s = bs "<>").
(** One signature of a chain, by itself. *)
Definition hop_ok (maxRecipients : Z) (s : Signature) : Prop :=
  is_domain (map fold_byte (domain s)) /\
  if hasNextDomain s
  then reverse_path s = [] /\ recipients s = [] /\ is_domain (map fold_byte (nextDomain s))
  else nextDomain s = [] /\ validPath (reverse_path s) true = true /\
    1 <= len (recipients s) <= maxRecipients /\
    Forall (fun p => validPath (value p) false = true) (recipients s).
(** The alignment of a signature's domain with its reverse path. *)
Definition hop_alignment (s : Signature) : CustodyDirectAlignmentStatus :=
  if hasNextDomain s then CustodyDirectAlignmentNotApplicableNextDomain
  else if null_reverse s then CustodyDirectAlignmentNotApplicableNull
  else match custodyPathDomain (reverse_path s) with
       | None => CustodyDirectAlignmentInvalid
       | Some m => if decide (within (map fold_byte (domain s)) m)
                   then CustodyDirectAlignmentPass else CustodyDirectAlignmentMismatch
       end.
(** One signature passes the message on to the next: a next domain is the next
    signer's; otherwise a recipient's domain is within the next signer's when
    that one has no sender of its own, and the next sender's domain is within a
    recipient's when it has one. *)
Definition hop_link (s t : Signature) : Prop :=
  if hasNextDomain s then map fold_byte (domain t) = map fold_byte (nextDomain s)
  else exists p d, p ∈ recipients s /\ custodyPathDomain (value p) = Some d /\
    if hasNextDomain t || null_reverse t then within (map fold_byte (domain t)) d
    else exists m, custodyPathDomain (reverse_path t) = Some m /\ within d m.

(** The state that newCustodyEntry computes. *)
Definition entry_of (s : Signature) : custodyEntry :=
  if hasNextDomain s
  then MkEntry (map fold_byte (domain s)) [] false ∅ (map fold_byte (nextDomain s)) true (hop_alignment s)
  else MkEntry (map fold_byte (domain s))
         (if null_reverse s then [] else default [] (custodyPathDomain (reverse_path s)))
         (null_reverse s) (list_to_set (omap (fun p => custodyPathDomain (value p)) (recipients s)))
         [] false (hop_alignment s).

Lemma entryRecipientsLoop_Ret paths acc r :
  entryRecipientsLoop registration paths acc = Ret r <->
  Forall (fun p => validPath (value p) false = true) paths /\
  r = list_to_set (omap (fun p => custodyPathDomain (value p)) paths) ∪ acc.
Proof.
  revert acc. induction paths as [|p paths IH]; intros acc; cbn [entryRecipientsLoop].
  - cbn. rewrite Forall_nil, union_empty_l_L. split; [intros [= <-]; done | intros [_ ->]; done].
  - rewrite Forall_cons. cbn [omap list_omap].
    destruct (validPath (value p) false); cbn [require obind]; [ | naive_solver].
    destruct (custodyPathDomain (value p)) as [d|]; cbn [list_to_set]; rewrite IH; [ | naive_solver].
    change (list_omap _ _ _ paths) with (omap (fun p => custodyPathDomain (value p)) paths).
    replace ({[d]} ∪ list_to_set (omap (fun p => custodyPathDomain (value p)) paths) ∪ acc)
      with (list_to_set (C := gset bytes) (omap (fun p => custodyPathDomain (value p)) paths) ∪ ({[d]} ∪ acc)) by set_solver.
    naive_solver.
Qed.
Lemma entryAlignment_hop s :
  hasNextDomain s = false -> null_reverse s = false ->
  entryAlignment (map fold_byte (domain s)) (reverse_path s) =
  (default [] (custodyPathDomain (reverse_path s)), hop_alignment s).
Proof.
  intros Hn Hr. unfold entryAlignment, hop_alignment. rewrite Hn, Hr.
  destruct (custodyPathDomain _) as [m|]; [ | done]. cbn [default from_option id]. f_equal.
  destruct (RelaxedDomainMatch _ _) eqn:E; cbn [negb].
  - by rewrite decide_True by by apply relaxed_within.
  - rewrite decide_False; [done | ]. intros H%relaxed_within. congruence.
Qed.

Lemma newCustodyEntry_Ret s limits e :
  newEntry s limits = Ret e <-> hop_ok (MaxRecipientsPerSignature limits) s /\ e = entry_of s.
Proof.
  unfold newCustodyEntry, hop_ok, Signature_NextDomain.
  destruct (canonicalDNSName (domain s)) as [c|] eqn:Ec.
  2: { split; [done | ]. intros [[H _] _]. by rewrite (proj2 (canonicalDNSName_Some _ _) (conj H eq_refl)) in Ec. }
  apply canonicalDNSName_Some in Ec as [Hd ->]. unfold reverse_path at 1.
  destruct (hasNextDomain s) eqn:En; cbn [negb].
  - destruct (value (mailFrom s)) as [|b v] eqn:Ev.
    2: { rewrite len_cons. pose proof (len_nonneg v). rewrite (proj2 (Z.eqb_neq _ _)) by lia. cbn. naive_solver. }
    destruct (recipients s) as [|p ps].
    2: { rewrite len_cons. pose proof (len_nonneg ps). rewrite (proj2 (Z.eqb_neq (1 + _) _)) by lia. cbn. naive_solver. }
    cbn [negb orb require obind Z.eqb]. change (len (@nil byte) =? 0) with true. change (len (@nil EnvelopePath) =? 0) with true.
    cbn [negb orb require obind].
    destruct (canonicalDNSName (nextDomain s)) as [nx|] eqn:Enx.
    2: { split; [done | ]. intros [(_ & _ & _ & H) _]. by rewrite (proj2 (canonicalDNSName_Some _ _) (conj H eq_refl)) in Enx. }
    apply canonicalDNSName_Some in Enx as [Hnx ->]. unfold entry_of, hop_alignment. rewrite En. naive_solver.
  - case_bool_decide as Hnx; cbn [negb orb require obind]; [ | naive_solver].
    fold (reverse_path s). destruct (validPath (reverse_path s) true) eqn:Ev; cbn [require obind]; [ | naive_solver].
    assert ((if bytes_equal (reverse_path s) (bs "<>")
             then (true, ([], CustodyDirectAlignmentNotApplicableNull))
             else (false, entryAlignment (map fold_byte (domain s)) (reverse_path s))) =
            (null_reverse s, (if null_reverse s then [] else default [] (custodyPathDomain (reverse_path s)), hop_alignment s))) as ->.
    { destruct (bytes_equal (reverse_path s) (bs "<>")) eqn:E.
      - apply bytes_equal_eq in E. unfold hop_alignment. assert (null_reverse s = true) as -> by by apply bool_decide_eq_true.
        by rewrite En.
      - assert (null_reverse s = false) as Hr.
        { apply bool_decide_eq_false. intros H%bytes_equal_eq. congruence. }
        rewrite entryAlignment_hop, Hr by done. done. }
    pose proof (len_nonneg (recipients s)).
    destruct (Z.eqb_spec (len (recipients s)) 0) as [E0 | E0]; cbn [negb require obind]; [naive_solver lia | ].
    destruct (Z.ltb_spec (MaxRecipientsPerSignature limits) (len (recipients s))); cbn [negb require obind]; [naive_solver lia | ].
    unfold entry_of. rewrite En.
    destruct (entryRecipientsLoop registration (recipients s) ∅) as [r| f |] eqn:Er; cbn [obind].
    + apply entryRecipientsLoop_Ret in Er as [Hv ->]. rewrite union_empty_r_L. split; [intros [= <-] | intros [_ ->]; done].
      split_and!; try done; lia.
    + split; [done | ]. intros [(_ & _ & _ & _ & Hv) _].
      rewrite (proj2 (entryRecipientsLoop_Ret _ _ _) (conj Hv eq_refl)) in Er. done.
    + split; [done | ]. intros [(_ & _ & _ & _ & Hv) _].
      rewrite (proj2 (entryRecipientsLoop_Ret _ _ _) (conj Hv eq_refl)) in Er. done.
Qed.

Lemma existsb_elements (f : bytes -> bool) (X : gset bytes) :
  existsb f (elements X) = true <-> exists d, d ∈ X /\ f d = true.
Proof.
  rewrite existsb_exists. setoid_rewrite <- list_elem_of_In. by setoid_rewrite elem_of_elements.
Qed.
Lemma path_domain_nonempty path : custodyPathDomain path <> Some [].
Proof.
  unfold custodyPathDomain. destruct path as [|b path]; [done | ]. destruct (_ || _); [done | ].
  destruct (last_index_byte _ _); [ | done]. destruct (_ || _); [done | ].
  intros H%canonicalDNSName_is_domain. destruct H as [_ [H _]%Forall_cons]. by apply empty_not_label.
Qed.
Lemma transition_link maxRecipients s t :
  hop_ok maxRecipients t -> custodyTransitionAllowed (entry_of s) (entry_of t) = true <-> hop_link s t.
Proof.
  intros Ht. unfold custodyTransitionAllowed, hop_link.
  assert (entry_domain (entry_of t) = map fold_byte (domain t)) as -> by (unfold entry_of; by destruct (hasNextDomain t)).
  assert (entry_hasNextDomain (entry_of t) = hasNextDomain t) as -> by (unfold entry_of; by destruct (hasNextDomain t)).
  remember (entry_of t) as et eqn:Et in |- *. unfold entry_of. destruct (hasNextDomain s); cbn [entry_hasNextDomain entry_nextDomain entry_recipients].
  { by rewrite bool_decide_eq_true. }
  assert (forall d, d ∈@{gset bytes} list_to_set (omap (fun p => custodyPathDomain (value p)) (recipients s)) <->
            exists p, p ∈ recipients s /\ custodyPathDomain (value p) = Some d) as Hin.
  { intros d. by rewrite elem_of_list_to_set, list_elem_of_omap. }
  destruct (hasNextDomain t) eqn:En; cbn [orb].
  - rewrite existsb_elements. setoid_rewrite Hin. setoid_rewrite relaxed_within. naive_solver.
  - unfold entry_of in Et. rewrite En in Et. subst et. cbn [nullReverse mailDomain]. destruct (null_reverse t) eqn:Er.
    + rewrite existsb_elements. setoid_rewrite Hin. setoid_rewrite relaxed_within. naive_solver.
    + destruct (custodyPathDomain (reverse_path t)) as [m|] eqn:Em; cbn [default from_option id].
      * rewrite bool_decide_eq_false_2 by (intros ->; by apply path_domain_nonempty in Em).
        rewrite existsb_elements. setoid_rewrite Hin. setoid_rewrite relaxed_within. naive_solver.
      * rewrite bool_decide_eq_true_2 by done. naive_solver.
Qed.

(** ** Chains *)
Definition linked_from (previous : option Signature) (o : list Signature) : Prop :=
  forall i s t, (option_list previous ++ o) !! i = Some s -> (option_list previous ++ o) !! S i = Some t -> hop_link s t.
Lemma linked_cons previous s o :
  linked_from previous (s :: o) <-> (forall p, previous = Some p -> hop_link p s) /\ linked_from (Some s) o.
Proof.
  unfold linked_from. destruct previous as [p|]; cbn [option_list app]; split.
  - intros H. split; [intros q [= <-]; by apply (H 0%nat) | ]. intros i. exact (H (S i)).
  - intros [H1 H2] [|i]; [ | apply H2]. cbn. intros x y [= <-] [= <-]. by apply H1.
  - intros H. split; [done | exact H].
  - intros [_ H]. exact H.
Qed.

Definition last_entry (previous : option Signature) (o : list Signature) : option (Signature * custodyEntry) :=
  (fun s => (s, entry_of s)) <$> last (option_list previous ++ o).
Lemma custodyLoop_Ret o limits previous direct r :
  custodyLoop registration o limits ((fun s => (s, entry_of s)) <$> previous) direct = Ret r <->
  Forall (hop_ok (MaxRecipientsPerSignature limits)) o /\ linked_from previous o /\
  r = (last_entry previous o, direct ++ map hop_alignment o).
Proof.
  revert previous direct. induction o as [|s o IH]; intros previous direct; cbn [custodyLoop map].
  - rewrite app_nil_r. unfold last_entry, linked_from. rewrite app_nil_r. split.
    + intros [= <-]. split_and!; [constructor | | by destruct previous].
      destruct previous; [ | done]. cbn. intros i x y _. by destruct i.
    + intros (_ & _ & ->). by destruct previous.
  - rewrite Forall_cons, linked_cons. split.
    + intros (e & He%map_fail_Ret & H)%obind_ret_inv. apply newCustodyEntry_Ret in He as [Hok ->].
      apply obind_ret_inv in H as (? & Hl & H).
      apply (IH (Some s)) in H as (Hf & Hlk & ->). split_and!; try done.
      * intros p ->. cbn [fmap option_fmap option_map] in Hl. apply require_ret_inv in Hl. by eapply transition_link.
      * unfold last_entry. f_equal; [by destruct previous | ].
        rewrite <- app_assoc. cbn [app]. repeat f_equal. unfold entry_of. by destruct (hasNextDomain s).
    + intros ([Hok Hf] & [Hp Hlk] & ->).
      rewrite (proj2 (map_fail_Ret _ _ (entry_of s))) by by apply newCustodyEntry_Ret. cbn [obind].
      assert (entry_direct (entry_of s) = hop_alignment s) as E by (unfold entry_of; by destruct (hasNextDomain s)).
      assert (custodyLoop registration o limits (Some (s, entry_of s)) (direct ++ [entry_direct (entry_of s)]) =
              Ret (last_entry previous (s :: o), direct ++ hop_alignment s :: map hop_alignment o)) as Hrest.
      { apply (IH (Some s)). split_and!; [done | done | ]. rewrite E, <- app_assoc. f_equal.
        unfold last_entry. by destruct previous. }
      destruct previous as [p|]; cbn [fmap option_fmap option_map obind]; [ | exact Hrest].
      rewrite (proj2 (transition_link _ p s Hok)) by by apply Hp. exact Hrest.
Qed.

(** What evaluateCustody reports of a chain. *)
Definition chain_result (o : list Signature) : CustodyResult :=
  MkCustodyResult
    (if existsb hasNextDomain (option_list (last o)) then CustodyStatusTerminalNextDomain else CustodyStatusOrdinaryComplete)
    (len o) (existsb hasNextDomain o) (map hop_alignment o) true.
Definition custody_chain (maxSignatures maxRecipients : Z) (o : list Signature) : Prop :=
  o <> [] /\ len o <= maxSignatures /\ sequences o = seqZ 1 (len o) /\
  Forall (hop_ok maxRecipients) o /\
  (forall i s t, o !! i = Some s -> o !! S i = Some t -> hop_link s t).

Lemma normalized_bounds l l' :
  CustodyLimits_normalized l = Ret l' ->
  1 <= cl_MaxSignatures l' <= 128 /\ 1 <= MaxRecipientsPerSignature l' <= 2000.
Proof.
  unfold CustodyLimits_normalized. intros (? & H%require_ret_inv & [= <-])%obind_ret_inv.
  apply negb_true_iff in H. cbn [cl_MaxSignatures MaxRecipientsPerSignature] in *.
  change (cl_MaxSignatures DefaultCustodyLimits) with 128 in *.
  change (MaxRecipientsPerSignature DefaultCustodyLimits) with 2000 in *. lia.
Qed.

Lemma evaluateCustody_Ret ss limits r :
  Forall (fun s => 0 < sequence s) ss ->
  evaluateCustody registration ss limits = Ret r <->
  exists l o, CustodyLimits_normalized limits = Ret l /\ o ≡ₚ ss /\
    custody_chain (cl_MaxSignatures l) (MaxRecipientsPerSignature l) o /\ r = chain_result o.
Proof.
  intros Hp. unfold evaluateCustody. split.
  - intros (l & Hl & H)%obind_ret_inv. apply obind_ret_inv in H as (? & Hne%require_ret_inv%negb_true_iff%Z.eqb_neq & H).
    apply obind_ret_inv in H as (? & Hmax%require_ret_inv%negb_true_iff%Z.ltb_ge & H).
    apply obind_ret_inv in H as ([] & _ & H). apply obind_ret_inv in H as (o & Ho & H).
    apply OrderBySequence_Ret in Ho as [_ [Hpm Hseq]]; [ | done].
    apply obind_ret_inv in H as ([p d] & (Hok & Hlk & [= -> ->])%(custodyLoop_Ret o l None) & [= <-]).
    assert (len o = len ss) as El by (unfold len; by rewrite Hpm). exists l, o. split_and!; [done | done | | ].
    + split_and!; [by intros -> | lia | congruence | done | exact Hlk].
    + unfold chain_result, last_entry. change (option_list None ++ o) with o. rewrite El. f_equal.
      destruct (last o) as [s|]; cbn; [ | done]. rewrite orb_false_r. unfold entry_of. by destruct (hasNextDomain s).
  - intros (l & o & Hl & Hpm & (Hne & Hmax & Hseq & Hok & Hlk) & ->).
    assert (len o = len ss) as El by (unfold len; by rewrite Hpm). pose proof (normalized_bounds _ _ Hl) as [? _].
    assert (in_order ss o) as Ho by (split; [done | congruence]).
    rewrite Hl. cbn [obind]. rewrite (proj2 (Z.eqb_neq _ _)).
    2: { rewrite <- El. destruct o as [|s o]; [done | ]. rewrite len_cons. pose proof (len_nonneg o). lia. }
    cbn [negb require obind]. rewrite (proj2 (Z.ltb_ge _ _)) by lia. cbn [negb require obind].
    assert (len ss <= MaxSignatures DefaultLimits) by (change (MaxSignatures DefaultLimits) with 128; lia).
    rewrite (proj2 (sig_ValidateSequence_Ret ss Hp)) by (split; [done | by eapply in_order_sequential]). cbn [obind].
    rewrite (proj2 (OrderBySequence_Ret ss o Hp)) by done. cbn [obind].
    assert (custodyLoop registration o l None [] = Ret (last_entry None o, map hop_alignment o)) as ->.
    { apply (custodyLoop_Ret o l None). split_and!; [done | exact Hlk | done]. }
    cbn [obind].
    unfold chain_result, last_entry. change (option_list None ++ o) with o. rewrite El. do 2 f_equal.
    destruct (last o) as [s|]; cbn; [ | done]. rewrite orb_false_r. unfold entry_of. by destruct (hasNextDomain s).
Qed.

(** ** What the result says *)
Lemma alignment_known s : DirectAlignmentStatus_Known (hop_alignment s) = true.
Proof.
  unfold hop_alignment. destruct (hasNextDomain s); [done | ]. destruct (null_reverse s); [done | ].
  destruct (custodyPathDomain _); [ | done]. by destruct (decide _).
Qed.
Lemma alignment_next s :
  bool_decide (hop_alignment s = CustodyDirectAlignmentNotApplicableNextDomain) = hasNextDomain s.
Proof.
  unfold hop_alignment. destruct (hasNextDomain s); [done | ]. destruct (null_reverse s); [done | ].
  destruct (custodyPathDomain _); [ | done]. by destruct (decide _).
Qed.
Lemma derivedLoop_alignments o b :
  derivedLoop (map hop_alignment o) b = Some (b || existsb hasNextDomain o).
Proof.
  revert b. induction o as [|s o IH]; intros b; cbn [map derivedLoop existsb]; [by rewrite orb_false_r | ].
  rewrite alignment_known, alignment_next, IH. cbn [negb]. by rewrite orb_assoc.
Qed.
Lemma list_last_default {A} (l : list A) d : List.last l d = default d (last l).
Proof. induction l as [|x l IH]; [done | ]. destruct l; [done | exact IH]. Qed.
Lemma chain_evaluated o : o <> [] -> len o <= 128 -> Evaluated (chain_result o) = true.
Proof.
  intros Hne Hl. assert (1 <= len o) by (destruct o as [|s o]; [done | rewrite len_cons; pose proof (len_nonneg o); lia]).
  unfold Evaluated, chain_result. cbn [result_initialized status count direct hadNextDomain].
  change (cl_MaxSignatures DefaultCustodyLimits) with 128.
  rewrite (proj2 (Z.leb_gt _ _)), (proj2 (Z.ltb_ge _ _)) by lia. rewrite len_mapped, Z.eqb_refl.
  rewrite derivedLoop_alignments, list_last_default, fmap_last. cbn [negb orb].
  destruct (last_is_Some o) as [_ [s Es]]; [done | ]. rewrite Es. cbn. rewrite orb_false_r, alignment_next.
  by destruct (hasNextDomain s), (existsb hasNextDomain o).
Qed.
Definition aligned (s : Signature) : Prop := not_aligned (hop_alignment s) = false.
Lemma firstMismatchLoop_spec o k :
  match firstMismatchLoop (map hop_alignment o) k with
  | None => Forall aligned o
  | Some (n, a) => exists p s q, o = p ++ s :: q /\ Forall aligned p /\ ~ aligned s /\ a = hop_alignment s /\ n = k + len p + 1
  end.
Proof.
  revert k. induction o as [|s o IH]; intros k; cbn [map firstMismatchLoop]; [done | ].
  destruct (not_aligned (hop_alignment s)) eqn:E.
  - exists [], s, o. split_and!; [done | constructor | unfold aligned; congruence | done | change (len (@nil Signature)) with 0; lia].
  - specialize (IH (k + 1)). destruct (firstMismatchLoop _ _) as [[n a]|]; [ | by constructor].
    destruct IH as (p & t & q & -> & Hp & Ht & -> & ->). exists (s :: p), t, q.
    split_and!; [done | by constructor | done | done | rewrite len_cons; lia].
Qed.
Lemma sequenceIndex_spec ss s k i :
  NoDup (sequences ss) -> ss !! i = Some s -> sequenceIndexLoop ss (sequence s) k = (k + i)%nat.
Proof.
  revert k i. induction ss as [|t ss IH]; intros k i; [done | ]. cbn [sequenceIndexLoop map]. intros [Hni Hnd]%NoDup_cons.
  destruct i as [|i]; cbn.
  - intros [= ->]. by rewrite Z.eqb_refl, Nat.add_0_r.
  - intros Hi. rewrite (proj2 (Z.eqb_neq _ _)); [rewrite (IH (S k) i) by done; lia | ].
    intros E. apply Hni. rewrite E. apply list_elem_of_fmap_2. by eapply list_elem_of_lookup_2.
Qed.

Lemma chain_mismatch ss o p s q :
  in_order ss o -> o = p ++ s :: q -> ss !! sequenceIndex ss (len p + 1) = Some s /\ sequence s = len p + 1.
Proof.
  intros Ho ->. pose proof (in_order_sequential _ _ Ho) as Hs. destruct Ho as [Hpm Hseq].
  assert (s ∈ ss) as Hin by (rewrite <- Hpm; set_solver).
  assert (sequence s = len p + 1) as Es.
  { assert (sequences (p ++ s :: q) !! length p = Some (sequence s)) as E.
    { rewrite list_lookup_fmap, lookup_app_r, Nat.sub_diag by done. done. }
    rewrite Hseq in E. apply lookup_seqZ in E as [E _]. unfold len. lia. }
  split; [ | done]. apply list_elem_of_lookup_1 in Hin as [i Hi]. rewrite <- Es.
  unfold sequenceIndex. by rewrite (sequenceIndex_spec ss s 0 i) by (done || by apply sequential_NoDup).
Qed.

Lemma custodyLoop_safe o limits previous acc : no_crash (custodyLoop registration o limits previous acc).
Proof.
  revert previous acc. induction o as [|s o IH]; intros previous acc; cbn [custodyLoop]; [done | ].
  apply obind_no_crash; [apply map_fail_no_crash | intros e _].
  - unfold newCustodyEntry. crash_free.
    enough (forall paths acc, no_crash (entryRecipientsLoop registration paths acc)) as Hloop by apply Hloop.
    clear. induction paths as [|p paths IH]; intros acc; cbn [entryRecipientsLoop]; crash_free.
  - apply obind_no_crash; [ | intros _ _; apply IH]. destruct previous as [[? ?]|]; [apply require_no_crash | done].
Qed.
Lemma evaluateCustody_safe ss limits :
  Forall (fun s => 0 < sequence s) ss -> no_crash (evaluateCustody registration ss limits).
Proof.
  intros Hp. unfold evaluateCustody, CustodyLimits_normalized, CustodyLimits_Validate.
  apply obind_no_crash; [by crash_free | intros l _].
  apply obind_no_crash; [apply require_no_crash | intros _ _].
  apply obind_no_crash; [apply require_no_crash | intros _ _].
  apply obind_no_crash; [by apply sig_ValidateSequence_safe | intros _ _].
  apply obind_no_crash; [by apply OrderBySequence_safe | intros o _].
  apply obind_no_crash; [apply custodyLoop_safe | by intros [p d] _].
Qed.

(** C25: for signatures with positive numbers ValidateCustody never panics. It
    succeeds exactly when, with limits that are in bounds, there is at least
    one signature and no more than allowed, they are numbered from 1 without a
    gap, each is a hop by itself (a next domain and no envelope, or an
    envelope with valid paths), each passes the message on to the next, and
    every signer is aligned with its sender; the result then describes that
    chain. A chain whose only fault is alignment gives its result with a
    custody error that names the first signature that is not aligned; every
    other error comes with the empty result. *)
Theorem ValidateCustody_refines ss limits :
  Forall (fun s => 0 < sequence s) ss ->
  ValidateCustody registration ss limits <> Crash /\
  (forall r, ValidateCustody registration ss limits = Ret r <->
     exists l o, CustodyLimits_normalized limits = Ret l /\ o ≡ₚ ss /\
       custody_chain (cl_MaxSignatures l) (MaxRecipientsPerSignature l) o /\ Forall aligned o /\ r = chain_result o) /\
  (forall r e, ValidateCustody registration ss limits = Fail (r, e) ->
     r = noCustodyResult /\ evaluateCustody registration ss limits = Fail e \/
     exists p s q, p ++ s :: q ≡ₚ ss /\ r = chain_result (p ++ s :: q) /\ Forall aligned p /\ ~ aligned s /\
       e = custodyError ErrorCodeCustodyMismatch s (tagDetails TagNameMailFrom)).
Proof.
  intros Hp. pose proof (evaluateCustody_safe ss limits Hp) as Hsafe. unfold ValidateCustody.
  destruct (evaluateCustody registration ss limits) as [r0|f|] eqn:E; cbn [map_fail obind]; [ | | done].
  2: { split_and!; [done | | intros r e [= <- <-]; by left].
       intros r. split; [done | ]. intros (l & o & Hl & Hpm & Hc & _ & _).
       assert (evaluateCustody registration ss limits = Ret (chain_result o)) as E2 by (apply evaluateCustody_Ret; [done | by exists l, o]).
       congruence. }
  clear Hsafe. pose proof E as (l & o & Hl & Hpm & Hc & ->)%evaluateCustody_Ret; [ | done].
  pose proof Hc as (Hne & Hmax & Hseq & _). pose proof (normalized_bounds _ _ Hl) as [? _].
  unfold FirstDirectMismatch. rewrite chain_evaluated by (done || lia). cbn [negb chain_result direct].
  assert (in_order ss o) as Ho by (split; [done | rewrite Hseq; f_equal; unfold len; by rewrite Hpm]).
  assert (forall r, (exists l o, CustodyLimits_normalized limits = Ret l /\ o ≡ₚ ss /\
       custody_chain (cl_MaxSignatures l) (MaxRecipientsPerSignature l) o /\ Forall aligned o /\ r = chain_result o) <->
     Forall aligned o /\ r = chain_result o) as Hr.
  { intros r. split; [ | intros [? ->]; eauto 10]. intros (l2 & o2 & _ & Hpm2 & (_ & _ & Hseq2 & _) & Ha & ->).
    assert (o2 = o) as ->; [ | done]. eapply in_order_unique; [ | done].
    split; [done | rewrite Hseq2; f_equal; unfold len; by rewrite Hpm2]. }
  setoid_rewrite Hr. pose proof (firstMismatchLoop_spec o 0) as Hm.
  destruct (firstMismatchLoop (map hop_alignment o) 0) as [[n a]|].
  - destruct Hm as (p & s & q & -> & Hpa & Hs & _ & ->). destruct (chain_mismatch ss _ p s q Ho eq_refl) as [Ei _].
    replace (0 + len p + 1) with (len p + 1) by lia. rewrite Ei. split_and!; [done | | ].
    + intros r. split; [done | ]. intros [[_ [Ha _]%Forall_cons]%Forall_app _]. done.
    + intros r e [= <- <-]. right. exists p, s, q. done.
  - split_and!; [done | | done]. intros r. split; [by intros [= <-] | by intros [_ ->]].
Qed.

(** The result of an evaluated chain is coherent: it counts the
    signatures, tells the alignment of each by its number, is valid exactly
    when all are aligned and valid but for one number exactly when the others
    are, and its status says whether the last signature names a next domain. *)
Theorem custody_result_coherent ss limits r :
  Forall (fun s => 0 < sequence s) ss -> evaluateCustody registration ss limits = Ret r ->
  Evaluated r = true /\ count r = len ss /\
  (forall s, s ∈ ss -> DirectAlignment r (sequence s) = hop_alignment s) /\
  (CustodyResult_Valid r = true <-> Forall aligned ss) /\
  (forall n, 1 <= n <= len ss ->
     (AllDirectAlignedExcept r n = true <-> forall s, s ∈ ss -> sequence s <> n -> aligned s)) /\
  (hadNextDomain r = true <-> exists s, s ∈ ss /\ hasNextDomain s = true) /\
  (forall s, s ∈ ss -> sequence s = len ss ->
     status r = if hasNextDomain s then CustodyStatusTerminalNextDomain else CustodyStatusOrdinaryComplete).
Proof.
  intros Hp (l & o & Hl & Hpm & (Hne & Hmax & Hseq & _) & ->)%evaluateCustody_Ret; [ | done].
  pose proof (normalized_bounds _ _ Hl) as [? _].
  pose proof (chain_evaluated o Hne ltac:(lia)) as Hev.
  assert (len o = len ss) as El by (unfold len; by rewrite Hpm).
  assert (forall i s, o !! i = Some s -> sequence s = 1 + Z.of_nat i) as Hi.
  { intros i s Hs. assert (sequences o !! i = Some (sequence s)) as E by by rewrite list_lookup_fmap, Hs.
    rewrite Hseq in E. by apply lookup_seqZ in E as [-> _]. }
  assert (forall s, s ∈ ss -> o !! Z.to_nat (sequence s - 1) = Some s /\ 1 <= sequence s <= len o) as Hat.
  { intros s Hs. rewrite <- Hpm in Hs. apply list_elem_of_lookup_1 in Hs as [i Es].
    pose proof (Hi i s Es) as E. pose proof (lookup_lt_Some _ _ _ Es). rewrite E.
    replace (Z.to_nat _) with i by lia. unfold len. split; [done | lia]. }
  assert (len (map hop_alignment o) = len o) as Em by apply len_mapped.
  split_and!; [done | done | | | | | ].
  - intros s Hs. destruct (Hat s Hs) as [Es Hb]. unfold DirectAlignment. rewrite Hev. cbn [negb orb chain_result direct].
    rewrite Em, (proj2 (Z.eqb_neq _ _)), (proj2 (Z.ltb_ge _ _)) by lia. cbn [orb].
    by rewrite list_lookup_fmap, Es.
  - unfold CustodyResult_Valid, AllDirectAligned. rewrite Hev. cbn [negb andb chain_result direct].
    rewrite <- Hpm. rewrite forallb_forall, list.Forall_forall. unfold aligned. setoid_rewrite <- list_elem_of_In.
    setoid_rewrite negb_true_iff. split; [intros H1 s Hs; by apply H1, list_elem_of_fmap_2 | ].
    intros H1 a (s & -> & Hs)%list_elem_of_fmap. by apply H1.
  - intros n Hn. unfold AllDirectAlignedExcept. rewrite Hev. cbn [negb orb chain_result direct].
    rewrite Em, (proj2 (Z.eqb_neq _ _)), (proj2 (Z.ltb_ge _ _)) by lia. cbn [orb].
    setoid_rewrite <- Hpm.
    enough (forall k o, (forall i s, o !! i = Some s -> sequence s = 1 + k + Z.of_nat i) ->
      alignedExceptLoop (map hop_alignment o) k n = true <-> forall s, s ∈ o -> sequence s <> n -> aligned s) as Hloop
      by (apply Hloop; intros; by rewrite (Hi i s)).
    clear. intros k o. revert k. induction o as [|s o IH]; intros k Hi; cbn [map alignedExceptLoop].
    + split; [by intros _ s ?%elem_of_nil | done].
    + pose proof (Hi 0%nat s eq_refl) as Es. assert (forall i t, o !! i = Some t -> sequence t = 1 + (k + 1) + Z.of_nat i) as Ho.
      { intros i t Ht. rewrite (Hi (S i) t Ht). lia. }
      specialize (IH (k + 1) Ho). setoid_rewrite elem_of_cons. destruct (Z.eqb_spec (k + 1) n) as [E | E].
      * rewrite IH. split; [intros H1 t [-> | Ht] Hne; [lia | by apply H1] | intros H1 t Ht; apply H1; by right].
      * unfold aligned in *. destruct (not_aligned (hop_alignment s)) eqn:Ea.
        -- split; [done | ]. intros H1. specialize (H1 s (or_introl eq_refl) ltac:(lia)). congruence.
        -- rewrite IH. split; [intros H1 t [-> | Ht] Hne; [done | by apply H1] | intros H1 t Ht; apply H1; by right].
  - cbn [chain_result hadNextDomain]. rewrite existsb_exists. setoid_rewrite <- list_elem_of_In. by setoid_rewrite Hpm.
  - intros s Hs E. destruct (Hat s Hs) as [Es _]. cbn [chain_result status]. rewrite last_lookup.
    replace (pred (length o)) with (Z.to_nat (sequence s - 1)) by (unfold len in *; lia). rewrite Es. cbn. by rewrite orb_false_r.
Qed.
End spec.

(** ** Examples *)
Definition no_idna : bytes -> option bytes := fun _ => None.
Definition plain_path (text : bytes) : EnvelopePath := MkPath text emptyBase64.
Definition hop (n : Z) (from to d : bytes) : Signature :=
  MkSignature n 1 0 (plain_path from) [plain_path to] [] false d [] noLayout noFlags [] false 0.
Definition next_hop (n : Z) (next d : bytes) : Signature :=
  MkSignature n 1 0 noPath [] next true d [] noLayout noFlags [] false 0.
Definition noCustodyLimits : CustodyLimits := MkCustodyLimits 0 0.
Definition sample_chain : list Signature :=
  [hop 1 (bs "<a@example.org>") (bs "<list@example.net>") (bs "example.org");
   next_hop 2 (bs "Relay.example") (bs "net");
   hop 3 (bs "<>") (bs "<c@example.com>") (bs "relay.example")].

(** The relaxed match lets a signer of the whole top-level domain pass a
    message on to a next hop. *)
Lemma ValidateCustody_refines_witness :
  is_ret (ValidateCustody no_idna sample_chain noCustodyLimits) = true /\
  is_ret (ValidateCustody no_idna (rev sample_chain) noCustodyLimits) = true /\
  exists o, o ≡ₚ sample_chain /\ Forall aligned o.
Proof.
  split_and!; [reflexivity | reflexivity | ].
  destruct (ValidateCustody_refines no_idna sample_chain noCustodyLimits) as (_ & H & _); [by repeat constructor | ].
  destruct (proj1 (H _) eq_refl) as (l & o & _ & Ho & _ & Ha & _). by exists o.
Defined.

Definition broken_chain : list Signature :=
  [hop 1 (bs "<a@example.org>") (bs "<list@example.net>") (bs "mail.example.org");
   hop 2 (bs "<list@lists.example.net>") (bs "<c@example.com>") (bs "example.net")].
Lemma custody_result_coherent_witness :
  exists r, evaluateCustody no_idna broken_chain noCustodyLimits = Ret r /\
    AllDirectAlignedExcept r 1 = true /\ FirstDirectMismatch r = Some (1, CustodyDirectAlignmentMismatch) /\
    (CustodyResult_Valid r = true <-> Forall aligned broken_chain).
Proof.
  eexists. split; [reflexivity | ]. split; [reflexivity | ]. split; [reflexivity | ].
  by apply (custody_result_coherent no_idna broken_chain noCustodyLimits); [repeat constructor | ].
Defined.

Lemma custodyPathDomain_exact_witness :
  custodyPathDomain (path_text (bs "@relay.example:") (bs "some.one") (bs "Example.ORG")) = Some (bs "example.org").
Proof.
  apply custodyPathDomain_exact.
  - split_and!; [right | | by vm_compute].
    + exists [bs "relay.example"]. split_and!; [done | | done]. constructor; [by apply validSMTPDomain_spec | done].
    + split_and!; [left | by vm_compute | by vm_compute | done]. by apply validDotString_spec.
  - apply (bool_decide_unpack _); by vm_compute.
  - split_and!; [done | | done]. by apply validASCIIDomain_spec.
Defined.
