(* ===== verification/SigRender.v ===== *)
(** * Package internal/signature: rendering DKIM2-Signature fields (render.go, unsigned.go)

    The emitter is threaded through its methods; its [builder] is the text
    written so far when there is one (rendering) and [None] in the preflight.
    slices.SortFunc is modelled by a stable sort: the plans, completions and
    flags that it is applied to differ pairwise under the comparison, so that
    there is one sorted arrangement.  The formatting methods are not modelled. *)

From stdpp Require Import gmap.
From S2P Require Import Prelude GoBytes GoBase64 GoStrconv RawMsg RawBody RawParser TagTypes TagScan TagBase64 Combine TagSpec DomainName SigAlgorithm.
From S2P Require Import SigTypes SigEnvelope SigParser.
#[local] Open Scope Z_scope.

Definition maxRenderedFieldBytes : Z := 64 * 1024.
Definition maxRenderedLineBytes : Z := 998.
Definition maxGeneratedRecipients : Z := 128.
Definition maxGeneratedSets : Z := len SigningAlgorithmOrder.
Definition maxEnvelopePathBytes : Z := 32 * 1024.
Definition maxGeneratedNonceBytes : Z := 64.
Definition maxSignatureBytes : Z := mldsa44SignatureBytes.

Record SetPlan := MkPlan { plan_Selector : bytes; plan_Algorithm : bytes }.
Record SetValue := MkSetValue { sv_Selector : bytes; sv_Algorithm : bytes; sv_Signature : bytes }.
Record SetLength := MkSetLength { sl_Selector : bytes; sl_Algorithm : bytes; sl_Bytes : Z }.
Record TargetRequest := MkTarget {
  tr_Sequence : Z; tr_InstanceNumber : Z; tr_Timestamp : Z; tr_MailFrom : bytes; tr_Recipients : list bytes;
  tr_NextDomain : bytes; tr_Domain : bytes; tr_Sets : list SetPlan; tr_Nonce : bytes; tr_NoncePresent : bool;
  tr_Flags : list bytes }.

Record RenderLimits := MkRenderLimits {
  MaxFieldBytes : Z; MaxLineBytes : Z; rl_MaxRecipients : Z; rl_MaxSignatureSets : Z;
  rl_MaxEnvelopePathBytes : Z; rl_MaxNonceBytes : Z; MaxSignatureBytes : Z }.
Definition DefaultRenderLimits : RenderLimits :=
  MkRenderLimits maxRenderedFieldBytes maxRenderedLineBytes maxGeneratedRecipients maxGeneratedSets
    maxEnvelopePathBytes maxGeneratedNonceBytes maxSignatureBytes.
Fixpoint limitsLoop (candidates : list (string * Z * Z)) : outcome Failure unit :=
  match candidates with
  | [] => Ret tt
  | (name, value, hard) :: rest =>
      check require (negb ((value <=? 0) || (hard <? value))) (invalidLimitError name value) ;;
      limitsLoop rest
  end.
Definition RenderLimits_Validate (l : RenderLimits) : outcome Failure unit :=
  let hard := DefaultRenderLimits in
  limitsLoop
    [("max_field_bytes"%string, MaxFieldBytes l, MaxFieldBytes hard);
     ("max_line_bytes"%string, MaxLineBytes l, MaxLineBytes hard);
     ("max_recipients"%string, rl_MaxRecipients l, rl_MaxRecipients hard);
     ("max_signature_sets"%string, rl_MaxSignatureSets l, rl_MaxSignatureSets hard);
     ("max_envelope_path_bytes"%string, rl_MaxEnvelopePathBytes l, rl_MaxEnvelopePathBytes hard);
     ("max_nonce_bytes"%string, rl_MaxNonceBytes l, rl_MaxNonceBytes hard);
     ("max_signature_bytes"%string, MaxSignatureBytes l, MaxSignatureBytes hard)].
Definition RenderLimits_normalized (l : RenderLimits) : outcome Failure RenderLimits :=
  let defaults := DefaultRenderLimits in
  let l := MkRenderLimits
    (default_if_zero (MaxFieldBytes l) (MaxFieldBytes defaults))
    (default_if_zero (MaxLineBytes l) (MaxLineBytes defaults))
    (default_if_zero (rl_MaxRecipients l) (rl_MaxRecipients defaults))
    (default_if_zero (rl_MaxSignatureSets l) (rl_MaxSignatureSets defaults))
    (default_if_zero (rl_MaxEnvelopePathBytes l) (rl_MaxEnvelopePathBytes defaults))
    (default_if_zero (rl_MaxNonceBytes l) (rl_MaxNonceBytes defaults))
    (default_if_zero (MaxSignatureBytes l) (MaxSignatureBytes defaults)) in
  check RenderLimits_Validate l ;; Ret l.

Definition renderConstructionError (t : TagName) : Failure :=
  sigError ErrorCodeInvalidConstruction noLoc (tagDetails t).
Definition renderLimitError (n : string) (limit count : Z) : Failure :=
  sigError ErrorCodeLimitExceeded noLoc (limitDetails n limit count).
Definition renderInvariantError : Failure := sigError ErrorCodeRenderInvariant noLoc noDetails.

(** ** The unsigned value of s= (unsigned.go) *)
Record unsignedSetComponent := MkComponent { comp_selector : bytes; comp_algorithm : bytes }.
Fixpoint unsignedSetLoop (sets : list unsignedSetComponent) (index : Z) (layout : Layout) (output : bytes)
    : option bytes :=
  match sets with
  | [] => Some output
  | set :: rest =>
      if bool_decide (comp_selector set = []) || bool_decide (comp_algorithm set = []) then None
      else
        let separator := SeparatorBefore layout index in
        let output := if negb (separator =?b x00) then output ++ [separator] else output in
        unsignedSetLoop rest (index + 1) layout
          (output ++ comp_selector set ++ [x3a] ++ comp_algorithm set ++ [x3a])
  end.
Definition appendUnsignedSetList (output : bytes) (sets : list unsignedSetComponent) (layout : Layout) : option bytes :=
  if (len sets =? 0) || negb (Valid layout) || negb (Sets layout =? len sets) then None
  else unsignedSetLoop sets 0 layout output.
Definition UnsignedSignatureValue (s : Signature) : option bytes :=
  appendUnsignedSetList [] (map (fun set => MkComponent (rawSelector set) (algorithm set)) (signatures s)) (setLayout s).

Definition signingGroup (a : bytes) : Z :=
  if bytes_equal a AlgorithmRSASHA256 || bytes_equal a AlgorithmEd25519SHA256 then 0 else 1.
(** The loop of generatedSetLayout; [sizes] ends with the size of the current group. *)
Fixpoint layoutLoop (plans : list SetPlan) (current : Z) (sizes : list Z) : option (list Z) :=
  match plans with
  | [] => Some sizes
  | plan :: rest =>
      let group := signingGroup (plan_Algorithm plan) in
      if group <? current then None
      else
        let sizes := if negb (group =? current) then sizes ++ [0] else sizes in
        layoutLoop rest group (alter (Z.add 1) (length sizes - 1)%nat sizes)
  end.
Definition generatedSetLayout (plans : list SetPlan) : option Layout :=
  if len plans =? 0 then None
  else sizes ← layoutLoop plans (-1) []; NewLayout sizes.
Definition unsignedSetListFromPlans (plans : list SetPlan) : option bytes :=
  layout ← generatedSetLayout plans;
  appendUnsignedSetList [] (map (fun plan => MkComponent (plan_Selector plan) (plan_Algorithm plan)) plans) layout.

(** ** Orders *)
Definition strings_Compare (a b : bytes) : Z :=
  if bytes_ltb a b then -1 else if bytes_ltb b a then 1 else 0.
Definition generatedAlgorithmRank (a : bytes) : Z :=
  let '(rank, ranked) := SigningRank a in
  if ranked then rank else len SigningAlgorithmOrder.
Definition compareSetPlans (left right : SetPlan) : Z :=
  if negb (bytes_equal (plan_Algorithm left) (plan_Algorithm right)) then
    let leftRank := generatedAlgorithmRank (plan_Algorithm left) in
    let rightRank := generatedAlgorithmRank (plan_Algorithm right) in
    if negb (leftRank =? rightRank) then leftRank - rightRank
    else strings_Compare (plan_Algorithm left) (plan_Algorithm right)
  else strings_Compare (plan_Selector left) (plan_Selector right).
Definition generatedFlagRank (name : bytes) : Z :=
  if bytes_equal name FlagFeedback then 0
  else if bytes_equal name FlagFeedHere then 1
  else if bytes_equal name FlagExploded then 2 else 3.
Definition compareGeneratedFlags (left right : bytes) : Z := generatedFlagRank left - generatedFlagRank right.
Definition slices_SortFunc {A} (compare : A -> A -> Z) (l : list A) : list A :=
  slice_stable (fun a b => compare a b <? 0) l.

(** ** Canonical requests *)
Fixpoint setPlansLoop (input : list SetPlan) (index : Z) (selectors : selectorUniqueness) (output : list SetPlan)
    : outcome Failure (list SetPlan) :=
  match input with
  | [] => Ret output
  | plan :: rest =>
      match canonicalDNSName (plan_Selector plan), ParseTextstring (plan_Algorithm plan) with
      | Some selector, Some algorithm =>
          let* selectors := selector_add selectors selector 0 index in
          setPlansLoop rest (index + 1) selectors (output ++ [MkPlan selector algorithm])
      | _, _ => Fail (renderConstructionError "s")
      end
  end.
Definition canonicalizeSetPlans (input : list SetPlan) (limits : RenderLimits) : outcome Failure (list SetPlan) :=
  check require (negb ((len input =? 0) || (rl_MaxSignatureSets limits <? len input)))
    (renderLimitError "max_signature_sets" (rl_MaxSignatureSets limits) (len input)) ;;
  let* output := setPlansLoop input 0 newSelectorUniqueness [] in
  let output := slices_SortFunc compareSetPlans output in
  match generatedSetLayout output with
  | None => Fail (renderConstructionError "s")
  | Some _ => Ret output
  end.
Fixpoint generatedFlagsLoop (input : list bytes) (index : Z) (seen : gset bytes) (output : list bytes)
    : outcome Failure (list bytes) :=
  match input with
  | [] => Ret output
  | raw :: rest =>
      match ParseTextstring raw with
      | None => Fail (malformedFlagError 0 index)
      | Some name =>
          check require (knownFlag name) (malformedFlagError 0 index) ;;
          check require (negb (bool_decide (name ∈ seen)))
            (sigError ErrorCodeDuplicateKnownFlag (MkLoc 0 0 0 index) (tagDetails "f")) ;;
          generatedFlagsLoop rest (index + 1) ({[name]} ∪ seen) (output ++ [name])
      end
  end.
Definition canonicalizeGeneratedFlags (input : list bytes) : outcome Failure (list bytes) :=
  let* output := generatedFlagsLoop input 0 ∅ [] in
  Ret (slices_SortFunc compareGeneratedFlags output).
Definition validGeneratedNonce (value : bytes) : bool := ValidNonceSyntax value.

Definition with_envelope (r : TargetRequest) (from : bytes) (to : list bytes) (next : bytes) : TargetRequest :=
  MkTarget (tr_Sequence r) (tr_InstanceNumber r) (tr_Timestamp r) from to next (tr_Domain r) (tr_Sets r)
    (tr_Nonce r) (tr_NoncePresent r) (tr_Flags r).
Definition with_domain (r : TargetRequest) (d : bytes) : TargetRequest :=
  MkTarget (tr_Sequence r) (tr_InstanceNumber r) (tr_Timestamp r) (tr_MailFrom r) (tr_Recipients r)
    (tr_NextDomain r) d (tr_Sets r) (tr_Nonce r) (tr_NoncePresent r) (tr_Flags r).
Definition with_sets (r : TargetRequest) (sets : list SetPlan) : TargetRequest :=
  MkTarget (tr_Sequence r) (tr_InstanceNumber r) (tr_Timestamp r) (tr_MailFrom r) (tr_Recipients r)
    (tr_NextDomain r) (tr_Domain r) sets (tr_Nonce r) (tr_NoncePresent r) (tr_Flags r).
Definition with_flags (r : TargetRequest) (fs : list bytes) : TargetRequest :=
  MkTarget (tr_Sequence r) (tr_InstanceNumber r) (tr_Timestamp r) (tr_MailFrom r) (tr_Recipients r)
    (tr_NextDomain r) (tr_Domain r) (tr_Sets r) (tr_Nonce r) (tr_NoncePresent r) fs.

(** ** The emitter *)
Record fieldEmitter := MkEmitter {
  em_limits : RenderLimits; builder : option bytes; em_size : Z; em_line : Z; em_err : option Failure }.
Definition set_err (e : fieldEmitter) (f : Failure) : fieldEmitter :=
  MkEmitter (em_limits e) (builder e) (em_size e) (em_line e) (Some f).
Definition WriteString (e : fieldEmitter) (value : bytes) : fieldEmitter :=
  MkEmitter (em_limits e) ((fun b => b ++ value) <$> builder e) (em_size e) (em_line e) (em_err e).
Definition fail (e : fieldEmitter) (f : Failure) : fieldEmitter :=
  match em_err e with None => set_err e f | Some _ => e end.

Definition textCount (count : Z) (e : fieldEmitter) : fieldEmitter :=
  let L := em_limits e in
  match em_err e with
  | Some _ => e
  | None =>
      if (count <? 0) || (MaxFieldBytes L - em_size e <? count)
      then set_err e (renderLimitError "max_field_bytes" (MaxFieldBytes L) (MaxFieldBytes L + 1))
      else if MaxLineBytes L - em_line e <? count
      then set_err e (renderLimitError "max_line_bytes" (MaxLineBytes L) (MaxLineBytes L + 1))
      else MkEmitter L (builder e) (em_size e + count) (em_line e + count) None
  end.
Definition text (value : bytes) (e : fieldEmitter) : fieldEmitter :=
  let e := textCount (len value) e in
  match em_err e, builder e with None, Some _ => WriteString e value | _, _ => e end.
Definition emit_crlf (e : fieldEmitter) : fieldEmitter :=
  let L := em_limits e in
  match em_err e with
  | Some _ => e
  | None =>
      if MaxFieldBytes L - em_size e <? 2
      then set_err e (renderLimitError "max_field_bytes" (MaxFieldBytes L) (MaxFieldBytes L + 1))
      else
        let e := MkEmitter L (builder e) (em_size e + 2) 0 None in
        match builder e with Some _ => WriteString e crlf | None => e end
  end.

(** The visitor of base64With, over the calls of the chunk walker. *)
Fixpoint emitChunks (encoded : bytes) (calls : list (bool * Z * Z)) (e : fieldEmitter)
    : outcome Failure fieldEmitter :=
  match calls with
  | [] => Ret e
  | (first, offset, size) :: rest =>
      let e := if first : bool then e else text [x09] (emit_crlf e) in
      match builder e with
      | None => emitChunks encoded rest (textCount size e)
      | Some _ =>
          let* chunk := zslice encoded offset (offset + size) in
          emitChunks encoded rest (text chunk e)
      end
  end.
Definition base64With (decoded : bytes) (decodedBytes : Z)
    (walk : Z -> outcome TagTypes.Error (list (bool * Z * Z) * Z * bool)) (e : fieldEmitter)
    : outcome Failure fieldEmitter :=
  match em_err e with
  | Some _ => Ret e
  | None =>
      if (if builder e is Some _ then negb (len decoded =? decodedBytes) else false)
      then Ret (set_err e renderInvariantError)
      else
        let encoded := if builder e is Some _ then EncodeBase64 decoded else [] in
        let* (calls, encodedLen, ok) := map_fail TagFailure (walk decodedBytes) in
        let* e := emitChunks encoded calls e in
        if negb ok || (if builder e is Some _ then negb (len encoded =? encodedLen) else false)
        then Ret (set_err e renderInvariantError)
        else Ret e
  end.
Definition base64 (decoded : bytes) (decodedBytes : Z) (e : fieldEmitter) : outcome Failure fieldEmitter :=
  base64With decoded decodedBytes WalkBase64Chunks e.
Definition base64Continued (decoded : bytes) (decodedBytes : Z) (e : fieldEmitter) : outcome Failure fieldEmitter :=
  base64With decoded decodedBytes WalkContinuedBase64Chunks e.

(** ** The frozen grammar of a field *)
Record renderSetValue := MkRenderValue { rv_signature : bytes; rv_bytes : Z }.
Fixpoint emitRecipients (recipients : list bytes) (index : Z) (e : fieldEmitter) : outcome Failure fieldEmitter :=
  match recipients with
  | [] => Ret e
  | recipient :: rest =>
      let* e := if 0 <? index then base64Continued recipient (len recipient) (text [x2c] e)
                else base64 recipient (len recipient) e in
      emitRecipients rest (index + 1) e
  end.
(** The loop over the set plans; [values] is [None] for an unsigned field. *)
Fixpoint emitSets (plans : list SetPlan) (index : Z) (layout : Layout) (values : option (list renderSetValue))
    (e : fieldEmitter) : outcome Failure fieldEmitter :=
  match plans with
  | [] => Ret e
  | plan :: rest =>
      let separator := SeparatorBefore layout index in
      let e := if negb (separator =?b x00) then text [x09] (emit_crlf (text [separator] e)) else e in
      let e := text [x3a] (text (plan_Algorithm plan) (text [x3a] (text (plan_Selector plan) e))) in
      let* e := match values with
                | None => Ret e
                | Some values =>
                    match values !! Z.to_nat index with
                    | None => Crash
                    | Some v => base64 (rv_signature v) (rv_bytes v) e
                    end
                end in
      emitSets rest (index + 1) layout values e
  end.
Fixpoint emitFlags (flags : list bytes) (index : Z) (e : fieldEmitter) : fieldEmitter :=
  match flags with
  | [] => e
  | flag :: rest => emitFlags rest (index + 1) (text flag (if 0 <? index then text [x2c] e else e))
  end.
Definition end_tag (e : fieldEmitter) : fieldEmitter := emit_crlf (text (bs ";") e).
Definition emitEnvelope (request : TargetRequest) (e : fieldEmitter) : outcome Failure fieldEmitter :=
  if negb (bool_decide (tr_NextDomain request = []))
  then Ret (end_tag (text (tr_NextDomain request) (text (x09 :: bs "nd=") e)))
  else
    let* e := base64 (tr_MailFrom request) (len (tr_MailFrom request)) (text (x09 :: bs "mf=") e) in
    let e := text (x09 :: bs "rt=") (end_tag e) in
    let* e := emitRecipients (tr_Recipients request) 0 e in
    Ret (end_tag e).
Definition emitTarget (e : fieldEmitter) (request : TargetRequest) (values : option (list renderSetValue))
    : outcome Failure fieldEmitter :=
  let e := end_tag (text (format_uint (tr_Sequence request)) (text (bs "DKIM2-Signature: i=") e)) in
  let e := end_tag (text (format_uint (tr_InstanceNumber request)) (text (x09 :: bs "m=") e)) in
  let e := end_tag (text (format_uint (tr_Timestamp request)) (text (x09 :: bs "t=") e)) in
  let* e := emitEnvelope request e in
  let e := end_tag (text (tr_Domain request) (text (x09 :: bs "d=") e)) in
  let e := text (x09 :: bs "s=") e in
  match generatedSetLayout (tr_Sets request) with
  | None => Ret (fail e (renderConstructionError "s"))
  | Some layout =>
      let* e := emitSets (tr_Sets request) 0 layout values e in
      let e := end_tag e in
      let e := if tr_NoncePresent request
               then end_tag (text (tr_Nonce request) (text (x09 :: bs "n=") e)) else e in
      if 0 <? len (tr_Flags request)
      then Ret (end_tag (emitFlags (tr_Flags request) 0 (text (x09 :: bs "f=") e)))
      else Ret e
  end.

Definition preflightTarget (request : TargetRequest) (values : option (list renderSetValue)) (limits : RenderLimits)
    : outcome Failure Z :=
  let* e := emitTarget (MkEmitter limits None 0 0 None) request values in
  match em_err e with
  | Some f => Fail f
  | None => if negb (em_line e =? 0) then Fail renderInvariantError else Ret (em_size e)
  end.
Definition renderTarget (request : TargetRequest) (values : option (list renderSetValue)) (limits : RenderLimits)
    (size : Z) : outcome Failure bytes :=
  let* e := emitTarget (MkEmitter limits (Some []) 0 0 None) request values in
  match em_err e with
  | Some _ => Fail renderInvariantError
  | None => if negb (em_size e =? size) then Fail renderInvariantError else Ret (default [] (builder e))
  end.

(** ** Completion of a target *)
Record UnsignedTarget := MkUnsigned { ut_request : TargetRequest; ut_limits : RenderLimits; ut_unsigned : bytes }.
Record CompleteField := MkComplete { complete_field : bytes }.
Definition CompleteField_Valid (f : CompleteField) : bool := 0 <? len (complete_field f).

Record completionInput := MkInput { in_selector : bytes; in_algorithm : bytes; in_bytes : Z; in_signature : bytes }.
Definition validateGeneratedSignatureLength (a : bytes) (length : Z) (limits : RenderLimits) : outcome Failure unit :=
  check require (negb ((length <=? 0) || (MaxSignatureBytes limits <? length)))
    (renderLimitError "max_signature_bytes" (MaxSignatureBytes limits) length) ;;
  check require (negb (bytes_equal a AlgorithmRSASHA256 && (maxRSASignatureBytes <? length)))
    (renderLimitError "max_signature_bytes" maxRSASignatureBytes length) ;;
  match fixedSignatureBytes a with
  | Some exact =>
      require (negb (negb (length =? exact)))
        (sigError ErrorCodeInvalidSignatureLength noLoc (MkDetails "s" "" exact length 0 0))
  | None => Ret tt
  end.
Fixpoint completionLoop (inputs : list completionInput) (limits : RenderLimits) (seen : gset bytes)
    (canonical : list completionInput) : outcome Failure (list completionInput) :=
  match inputs with
  | [] => Ret canonical
  | input :: rest =>
      match canonicalDNSName (in_selector input), ParseTextstring (in_algorithm input) with
      | Some selector, Some algorithm =>
          let key := selector ++ [x00] ++ algorithm in
          check require (negb (bool_decide (key ∈ seen))) (renderConstructionError "s") ;;
          check validateGeneratedSignatureLength algorithm (in_bytes input) limits ;;
          completionLoop rest limits ({[key]} ∪ seen)
            (canonical ++ [MkInput selector algorithm (in_bytes input) (in_signature input)])
      | _, _ => Fail (renderConstructionError "s")
      end
  end.
Definition compareInputs (left right : completionInput) : Z :=
  compareSetPlans (MkPlan (in_selector left) (in_algorithm left)) (MkPlan (in_selector right) (in_algorithm right)).
Fixpoint completionValues (plans : list SetPlan) (canonical : list completionInput)
    : outcome Failure (list renderSetValue) :=
  match plans, canonical with
  | [], _ => Ret []
  | plan :: plans, input :: canonical =>
      check require (negb (negb (bytes_equal (in_selector input) (plan_Selector plan))
                           || negb (bytes_equal (in_algorithm input) (plan_Algorithm plan))))
        (renderConstructionError "s") ;;
      let* rest := completionValues plans canonical in
      Ret (MkRenderValue (in_signature input) (in_bytes input) :: rest)
  | _ :: _, [] => Crash
  end.
Definition canonicalCompletionPlan (t : UnsignedTarget) (inputs : list completionInput)
    : outcome Failure (list renderSetValue) :=
  check require (negb ((len (ut_unsigned t) =? 0) || (len (tr_Sets (ut_request t)) =? 0)
                       || negb (len inputs =? len (tr_Sets (ut_request t)))))
    (renderConstructionError "s") ;;
  let* canonical := completionLoop inputs (ut_limits t) ∅ [] in
  completionValues (tr_Sets (ut_request t)) (slices_SortFunc compareInputs canonical).
Definition canonicalCompleteLengths (t : UnsignedTarget) (lengths : list SetLength)
    : outcome Failure (list renderSetValue) :=
  canonicalCompletionPlan t (map (fun l => MkInput (sl_Selector l) (sl_Algorithm l) (sl_Bytes l) []) lengths).
Definition PreflightComplete (t : UnsignedTarget) (lengths : list SetLength) : outcome Failure Z :=
  let* values := canonicalCompleteLengths t lengths in
  preflightTarget (ut_request t) (Some values) (ut_limits t).
Definition Complete (t : UnsignedTarget) (values : list SetValue) : outcome Failure CompleteField :=
  let inputs := map (fun v => MkInput (sv_Selector v) (sv_Algorithm v) (len (sv_Signature v)) (sv_Signature v)) values in
  let* renderValues := canonicalCompletionPlan t inputs in
  let* size := preflightTarget (ut_request t) (Some renderValues) (ut_limits t) in
  let* field := renderTarget (ut_request t) (Some renderValues) (ut_limits t) size in
  Ret (MkComplete field).

(** ** Reading a field back *)
Definition parseRenderedSignatureField (field : bytes) : outcome Failure HeaderField :=
  check require (has_suffix field crlf) (renderConstructionError "s") ;;
  let* message := map_fail (fun _ => renderConstructionError "s") (RawParser.Parse field) in
  check require (negb (negb (bool_decide (Message_Framing message = Some MessageFramingHeaderOnly))
                       || negb (HeaderBlock_Len (headers message) =? 1) || negb (Body_Len (body message) =? 0)))
    (renderConstructionError "s") ;;
  match HeaderBlock_FieldsByName (headers message) HeaderName with
  | [field] => Ret field
  | _ => Fail (renderConstructionError "s")
  end.
Definition signatureValueWithoutWSP (value : bytes) : bytes := List.filter (fun b => negb (isWSP b)) value.
Definition logicalUnsignedTagValue (tag : Tag) (parsed : Signature) : option bytes :=
  if negb (bytes_equal (tag_name tag) (bs "s")) then Some (signatureValueWithoutWSP (tag_value tag))
  else UnsignedSignatureValue parsed.
Fixpoint matchLoop (completeTags unsignedTags : list Tag) (parsed : Signature) : bool :=
  match completeTags, unsignedTags with
  | c :: completeTags, u :: unsignedTags =>
      if negb (bytes_equal (tag_name c) (tag_name u)) then false
      else match logicalUnsignedTagValue c parsed with
           | None => false
           | Some v => if negb (bytes_equal v (signatureValueWithoutWSP (tag_value u))) then false
                       else matchLoop completeTags unsignedTags parsed
           end
  | _, _ => true
  end.
Definition matchesUnsignedTagSequence (complete : Field) (parsed : Signature) (unsigned : Field) : bool :=
  if negb (len (tags complete) =? len (tags unsigned)) then false
  else matchLoop (tags complete) (tags unsigned) parsed.
Definition targetRequestFromComplete (parsed : Signature) : TargetRequest :=
  MkTarget (sequence parsed) (instanceNumber parsed) (timestamp parsed)
    (if Signature_NextDomain parsed is Some _ then [] else value (mailFrom parsed))
    (map value (recipients parsed))
    (default [] (Signature_NextDomain parsed)) (domain parsed)
    (map (fun set => MkPlan (selector set) (algorithm set)) (signatures parsed))
    (default [] (Signature_Nonce parsed)) (hasNonce parsed) (map flag_name (values (flags parsed))).

Section idna.
Variable registration_ToASCII : bytes -> option bytes.

Fixpoint recipientPathsLoop (inputs : list bytes) (index : Z) (limits : RenderLimits) (seen : gset bytes)
    (totalBytes : Z) (output : list bytes) : outcome Failure (list bytes) :=
  match inputs with
  | [] => Ret output
  | input :: rest =>
      match RecordableEnvelopePath registration_ToASCII input false with
      | None => Fail (sigError ErrorCodeInvalidEnvelopePath (MkLoc 0 index 0 0) (tagDetails "rt"))
      | Some recipient =>
          check require (negb (bool_decide (recipient ∈ seen)))
            (sigError ErrorCodeInvalidEnvelopePath (MkLoc 0 index 0 0) (tagDetails "rt")) ;;
          check require (negb (rl_MaxEnvelopePathBytes limits - len recipient <? totalBytes))
            (renderLimitError "max_envelope_path_bytes" (rl_MaxEnvelopePathBytes limits)
               (rl_MaxEnvelopePathBytes limits + 1)) ;;
          recipientPathsLoop rest (index + 1) limits ({[recipient]} ∪ seen) (totalBytes + len recipient)
            (output ++ [recipient])
      end
  end.
Definition canonicalizeEnvelope (request : TargetRequest) (limits : RenderLimits) : outcome Failure TargetRequest :=
  let hasNextDomain := negb (bool_decide (tr_NextDomain request = [])) in
  let hasOrdinary := negb (len (tr_MailFrom request) =? 0) || negb (len (tr_Recipients request) =? 0) in
  check require (negb (Bool.eqb hasNextDomain hasOrdinary)) (invalidEnvelopeFormError 0) ;;
  if hasNextDomain then
    match canonicalDNSName (tr_NextDomain request) with
    | None => Fail (sigError ErrorCodeInvalidDomain noLoc (tagDetails "nd"))
    | Some nextDomain => Ret (with_envelope request (tr_MailFrom request) (tr_Recipients request) nextDomain)
    end
  else
    check require (negb ((len (tr_Recipients request) =? 0) || (rl_MaxRecipients limits <? len (tr_Recipients request))))
      (renderLimitError "max_recipients" (rl_MaxRecipients limits) (len (tr_Recipients request))) ;;
    match RecordableEnvelopePath registration_ToASCII (tr_MailFrom request) true with
    | None => Fail (sigError ErrorCodeInvalidEnvelopePath noLoc (tagDetails "mf"))
    | Some mailFrom =>
        let* recipients := recipientPathsLoop (tr_Recipients request) 0 limits ∅ (len mailFrom) [] in
        Ret (with_envelope request mailFrom recipients (tr_NextDomain request))
    end.
Definition canonicalTargetRequest (request : TargetRequest) (limits : RenderLimits) : outcome Failure TargetRequest :=
  check require (negb ((tr_Sequence request =? 0) || (tr_InstanceNumber request =? 0))) (renderConstructionError "i") ;;
  match canonicalDNSName (tr_Domain request) with
  | None => Fail (sigError ErrorCodeInvalidDomain noLoc (tagDetails "d"))
  | Some domain =>
      let request := with_domain request domain in
      let* request := canonicalizeEnvelope request limits in
      let* sets := canonicalizeSetPlans (tr_Sets request) limits in
      let request := with_sets request sets in
      check (if tr_NoncePresent request
             then require (negb ((rl_MaxNonceBytes limits <? len (tr_Nonce request))
                                 || negb (validGeneratedNonce (tr_Nonce request))))
                    (sigError ErrorCodeInvalidNonce noLoc
                       (MkDetails "n" "" (rl_MaxNonceBytes limits) (len (tr_Nonce request)) 0 0))
             else require (len (tr_Nonce request) =? 0) (sigError ErrorCodeInvalidNonce noLoc (tagDetails "n"))) ;;
      let* flags := canonicalizeGeneratedFlags (tr_Flags request) in
      Ret (with_flags request flags)
  end.

Definition unsignedFieldMatchesSharedRenderer (unsigned : bytes) (plans : list SetPlan) : bool :=
  match unsignedSetListFromPlans plans with
  | None => false
  | Some expected =>
      match parseRenderedSignatureField unsigned with
      | Ret field =>
          match ScanHeader (unfoldedValue field) knownSignatureTags TagTypes.DefaultLimits with
          | Ret tags =>
              match get_tag TagFailure tags (bs "s") with
              | Ret (Some tag) => bytes_equal (signatureValueWithoutWSP (tag_value tag)) expected
              | _ => false
              end
          | _ => false
          end
      | _ => false
      end
  end.
Definition NewUnsignedTarget (request : TargetRequest) (limits : RenderLimits) : outcome Failure UnsignedTarget :=
  let* resolved := RenderLimits_normalized limits in
  let* canonical := canonicalTargetRequest request resolved in
  let* size := preflightTarget canonical None resolved in
  let* unsigned := renderTarget canonical None resolved size in
  check require (unsignedFieldMatchesSharedRenderer unsigned (tr_Sets canonical)) renderInvariantError ;;
  Ret (MkUnsigned canonical resolved unsigned).
Definition UnsignedTarget_Valid (t : UnsignedTarget) : bool :=
  if (len (ut_unsigned t) =? 0) || negb (is_ret (RenderLimits_Validate (ut_limits t))) then false
  else match NewUnsignedTarget (ut_request t) (ut_limits t) with
       | Ret rebuilt => bytes_equal (ut_unsigned rebuilt) (ut_unsigned t)
       | _ => false
       end.
Definition UnsignedTarget_Sequence (t : UnsignedTarget) : Z :=
  if negb (UnsignedTarget_Valid t) then 0 else tr_Sequence (ut_request t).
Definition UnsignedTarget_InstanceNumber (t : UnsignedTarget) : Z :=
  if negb (UnsignedTarget_Valid t) then 0 else tr_InstanceNumber (ut_request t).

Definition RebuildUnsignedFromComplete (t : UnsignedTarget) (complete : CompleteField) : outcome Failure UnsignedTarget :=
  let failure := renderConstructionError "s" in
  check require (UnsignedTarget_Valid t && negb (len (complete_field complete) =? 0)) failure ;;
  let* completeField := map_fail (fun _ => failure) (parseRenderedSignatureField (complete_field complete)) in
  let* parsed := map_fail (fun _ => failure) (SigParser.Parse registration_ToASCII completeField) in
  let* completeTags := map_fail (fun _ => failure)
        (ScanHeader (unfoldedValue completeField) knownSignatureTags TagTypes.DefaultLimits) in
  let* unsignedField := map_fail (fun _ => failure) (parseRenderedSignatureField (ut_unsigned t)) in
  let* unsignedTags := map_fail (fun _ => failure)
        (ScanHeader (unfoldedValue unsignedField) knownSignatureTags TagTypes.DefaultLimits) in
  check require (matchesUnsignedTagSequence completeTags parsed unsignedTags) failure ;;
  let* rebuilt := map_fail (fun _ => failure) (NewUnsignedTarget (targetRequestFromComplete parsed) (ut_limits t)) in
  check require (bytes_equal (ut_unsigned rebuilt) (ut_unsigned t)) failure ;;
  Ret rebuilt.
End idna.
