(* ===== verification/SigRenderSpec.v ===== *)
(** * What the signature renderer writes

    The emitter of render.go satisfies the laws of Emitter.v; the emission of a
    target is a script of tags; the preflight computes the exact size of what
    the rendering writes, or its error. *)

From stdpp Require Import gmap.
From S2P Require Import Prelude GoBytes GoBase64 RawMsg RawBody RawParser TagTypes TagScan TagBase64 Combine GoStrconv TagSpec Emitter FieldScript.
From S2P Require Import DomainName SigAlgorithm SigTypes SigEnvelope SigParser SigRender.
#[local] Open Scope Z_scope.

(** ** The emitter *)
Definition emitter_view (e : fieldEmitter) : option view :=
  match em_err e with
  | Some _ => None
  | None => Some (MkView (MaxFieldBytes (em_limits e)) (MaxLineBytes (em_limits e)) (builder e) (em_size e) (em_line e))
  end.
#[export] Instance field_emitter : Emitter fieldEmitter :=
  { e_text := text; e_count := textCount; e_crlf := emit_crlf; e_builder := builder; e_view := emitter_view }.
#[export] Instance field_emitter_laws : EmitterLaws fieldEmitter.
Proof.
  split; unfold e_emit, e_view, e_builder, e_text, e_count, e_crlf; cbn [field_emitter].
  - intros [L bl sz ln er] i v. unfold emitter_view. destruct er; [done | ].
    cbn [em_err em_limits builder em_size em_line]. intros [= <-].
    destruct i as [s|]; unfold view_fits; cbn [item_fits v_field v_line v_size v_open].
    + unfold text, textCount. cbn [em_err em_limits builder em_size em_line]. pose proof (len_nonneg s).
      rewrite (proj2 (Z.ltb_ge _ 0)) by lia. cbn [orb]. rewrite !(Z.ltb_antisym (len s)).
      destruct (len s <=? _); cbn [negb andb]; [ | done]. destruct (len s <=? _); cbn [negb]; by destruct bl.
    + unfold emit_crlf. cbn [em_err em_limits builder em_size em_line].
      rewrite Z.ltb_antisym. destruct (2 <=? _); cbn [negb]; [by destruct bl | done].
  - intros [L bl sz ln er] [s|]; unfold emitter_view; cbn [em_err]; intros H; destruct er; try done;
      unfold text, textCount, emit_crlf; cbn; by destruct bl.
  - intros [L bl sz ln er] [s|]; unfold text, textCount, emit_crlf; cbn;
      destruct er, bl; cbn; repeat case_match; try done; by rewrite !is_Some_alt.
  - intros [L bl sz ln er] s H. cbn in H. subst bl. unfold text. assert (builder (textCount (len s) (MkEmitter L None sz ln er)) = None) as ->.
    { unfold textCount. cbn. repeat case_match; done. }
    by destruct (em_err _).
  - intros [L bl sz ln er] n. unfold textCount. cbn. repeat case_match; done.
Qed.

Lemma emit_txt s (e : fieldEmitter) : e_emit e (Txt s) = text s e.
Proof. done. Qed.
Lemma emit_brk (e : fieldEmitter) : e_emit e Brk = emit_crlf e.
Proof. done. Qed.
Ltac scripts := repeat (first [rewrite run_app | rewrite run_cons | rewrite run_nil | rewrite emit_txt | rewrite emit_brk]); cbn [app].

Lemma view_ok (e : fieldEmitter) f l b s o :
  e_view e = Some (MkView f l b s o) -> em_err e = None /\ builder e = b /\ em_size e = s /\ em_line e = o.
Proof. destruct e as [L bl sz ln [f'|]]; [done | ]. by intros [= _ _ <- <- <-]. Qed.
Lemma view_failed (e : fieldEmitter) : e_view e = None -> exists f, em_err e = Some f.
Proof. destruct e as [L bl sz ln [f'|]]; [by eexists | done]. Qed.
Lemma run_failed_id items (e : fieldEmitter) : em_err e <> None -> run items e = e.
Proof.
  revert e. induction items as [|i items IH]; intros e He; [done | ]. rewrite run_cons.
  assert (e_emit e i = e) as ->; [ | by apply IH]. destruct e as [L bl sz ln er]. cbn in He. destruct er; [ | done].
  destruct i as [s|]; [unfold e_emit, e_text; cbn; unfold text; cbn; by destruct bl | done].
Qed.
Lemma emitChunks_generic encoded calls e : emitChunks encoded calls e = emit_chunks encoded calls e.
Proof.
  revert e. induction calls as [|[[first offset] size] calls IH]; intros e; [done | ].
  cbn [emitChunks emit_chunks]. cbn [e_text e_count e_crlf e_builder field_emitter].
  destruct (builder _); [ | apply IH]. destruct (zslice _ _ _); [apply IH | done | done].
Qed.

Lemma builder_run items (e : fieldEmitter) : is_Some (builder (run items e)) <-> is_Some (builder e).
Proof. exact (run_builder e items). Qed.

(** ** Base64 values *)
Section base64.
Context (d : bytes) (Hne : d <> []) (Hlen : len d <= 2 ^ 62).

Lemma base64With_run walk calls items decoded e :
  walk (len d) = Ret (calls, len (std_encode d), true) ->
  (forall encoded (e : fieldEmitter), (is_Some (builder e) -> encoded = std_encode d) ->
     emit_chunks (F := Failure) encoded calls e = Ret (run items e)) ->
  (is_Some (builder e) -> decoded = d) ->
  base64With decoded (len d) walk e = Ret (run items e).
Proof using.
  intros Hw Hitems Hb. unfold base64With. destruct (em_err e) as [f|] eqn:Ee.
  { by rewrite run_failed_id by by rewrite Ee. }
  rewrite Hw. assert ((if builder e is Some _ then negb (len decoded =? len d) else false) = false) as ->.
  { destruct (builder e); [ | done]. rewrite Hb by eauto. by rewrite Z.eqb_refl. }
  cbn [map_fail obind negb orb]. rewrite emitChunks_generic, Hitems.
  2: { intros [b Eb]. rewrite Eb, Hb by eauto. done. }
  cbn [obind]. pose proof (builder_run items e) as Hr.
  assert ((if builder (run items e) is Some _
           then negb (len (if builder e is Some _ then EncodeBase64 decoded else []) =? len (std_encode d)) else false) = false) as ->; [ | done].
  destruct (builder (run items e)) as [b|] eqn:Eb; [ | done].
  destruct (proj1 Hr ltac:(by eexists)) as [b' Eb']. rewrite Eb', Hb by by eexists. unfold EncodeBase64. by rewrite Z.eqb_refl.
Qed.
Lemma base64_run decoded e : (is_Some (builder e) -> decoded = d) -> base64 decoded (len d) e = Ret (run (b64_items d) e).
Proof using Hne Hlen.
  intros Hb. destruct (walk_emits (X := fieldEmitter) d Hne Hlen) as (calls & Hw & Hi).
  eapply base64With_run; [exact Hw | intros; by apply Hi | done].
Qed.
Lemma base64Continued_run decoded e :
  (is_Some (builder e) -> decoded = d) -> base64Continued decoded (len d) e = Ret (run (b64_cont_items d) e).
Proof using Hne Hlen.
  intros Hb. destruct (walk_continued_emits (X := fieldEmitter) d Hne Hlen) as (calls & Hw & Hi).
  eapply base64With_run; [exact Hw | intros; by apply Hi | done].
Qed.
End base64.

(** ** The tags of a target *)
Fixpoint recipient_items (recipients : list bytes) (index : Z) : list item :=
  match recipients with
  | [] => []
  | r :: rest => (if 0 <? index then Txt [x2c] :: b64_cont_items r else b64_items r) ++ recipient_items rest (index + 1)
  end.
(** [sigs] are the signatures of a complete field, in the order of the plans. *)
Definition signature_items (sigs : option (list bytes)) (index : Z) : list item :=
  match sigs with
  | None => []
  | Some ds => match ds !! Z.to_nat index with Some d => b64_items d | None => [] end
  end.
Fixpoint set_items (plans : list SetPlan) (index : Z) (layout : Layout) (sigs : option (list bytes)) : list item :=
  match plans with
  | [] => []
  | plan :: rest =>
      let separator := SeparatorBefore layout index in
      (if negb (separator =?b x00) then [Txt [separator]; Brk; Txt [x09]] else []) ++
      [Txt (plan_Selector plan); Txt [x3a]; Txt (plan_Algorithm plan); Txt [x3a]] ++
      signature_items sigs index ++ set_items rest (index + 1) layout sigs
  end.
Fixpoint flag_items (flags : list bytes) (index : Z) : list item :=
  match flags with
  | [] => []
  | flag :: rest => (if 0 <? index then [Txt [x2c]] else []) ++ Txt flag :: flag_items rest (index + 1)
  end.
Definition envelope_tags_of (r : TargetRequest) : list (bytes * list item) :=
  if negb (bool_decide (tr_NextDomain r = [])) then [(bs "nd", [Txt (tr_NextDomain r)])]
  else [(bs "mf", b64_items (tr_MailFrom r)); (bs "rt", recipient_items (tr_Recipients r) 0)].
Definition sequence_items (r : TargetRequest) : list item := [Txt (format_uint (tr_Sequence r))].
Definition target_tags (r : TargetRequest) (layout : Layout) (sigs : option (list bytes)) : list (bytes * list item) :=
  [(bs "m", [Txt (format_uint (tr_InstanceNumber r))]); (bs "t", [Txt (format_uint (tr_Timestamp r))])] ++
  envelope_tags_of r ++
  [(bs "d", [Txt (tr_Domain r)]); (bs "s", set_items (tr_Sets r) 0 layout sigs)] ++
  (if tr_NoncePresent r then [(bs "n", [Txt (tr_Nonce r)])] else []) ++
  (if 0 <? len (tr_Flags r) then [(bs "f", flag_items (tr_Flags r) 0)] else []).
Definition field_name : bytes := bs "DKIM2-Signature".
Definition target_script (r : TargetRequest) (layout : Layout) (sigs : option (list bytes)) : list item :=
  header_script field_name (bs "i") (sequence_items r) (target_tags r layout sigs).

(** What the emission relies on: texts that can be encoded. *)
Definition encodable (d : bytes) : Prop := d <> [] /\ len d <= 2 ^ 62.
Definition ok_target (r : TargetRequest) : Prop :=
  tr_NextDomain r = [] -> encodable (tr_MailFrom r) /\ Forall encodable (tr_Recipients r).
(** The values that carry the signatures, or their lengths only. *)
Definition values_of (full : bool) (values : option (list renderSetValue)) (sigs : option (list bytes)) : Prop :=
  match values, sigs with
  | None, None => True
  | Some vs, Some ds =>
      Forall2 (fun v d => encodable d /\ rv_bytes v = len d /\ (full = true -> rv_signature v = d)) vs ds
  | _, _ => False
  end.

(** ** The emission is the script *)
#[local] Opaque text emit_crlf textCount.
Lemma emitRecipients_run rs index e :
  Forall encodable rs -> 0 <= index -> emitRecipients rs index e = Ret (run (recipient_items rs index) e).
Proof.
  intros Hrs. revert index e. induction Hrs as [|r rs [Hne Hl] _ IH]; intros index e Hi; [done | ].
  cbn [emitRecipients recipient_items]. destruct (0 <? index).
  - rewrite base64Continued_run by done. cbn [obind]. rewrite IH by lia. scripts; reflexivity.
  - rewrite base64_run by done. cbn [obind]. rewrite IH by lia. scripts; reflexivity.
Qed.
Lemma emitFlags_run fs index e : emitFlags fs index e = run (flag_items fs index) e.
Proof.
  revert index e. induction fs as [|f fs IH]; intros index e; [done | ]. cbn [emitFlags flag_items].
  rewrite IH. destruct (0 <? index); scripts; reflexivity.
Qed.
(** One plan: its separator, selector and algorithm, and then its value. *)
Definition plan_items (plan : SetPlan) (separator : byte) : list item :=
  (if negb (separator =?b x00) then [Txt [separator]; Brk; Txt [x09]] else []) ++
  [Txt (plan_Selector plan); Txt [x3a]; Txt (plan_Algorithm plan); Txt [x3a]].
Definition emit_value (values : option (list renderSetValue)) (index : Z) (e : fieldEmitter) : outcome Failure fieldEmitter :=
  match values with
  | None => Ret e
  | Some values =>
      match values !! Z.to_nat index with
      | None => Crash
      | Some v => base64 (rv_signature v) (rv_bytes v) e
      end
  end.
Lemma set_items_cons plan plans index layout sigs :
  set_items (plan :: plans) index layout sigs =
  plan_items plan (SeparatorBefore layout index) ++ signature_items sigs index ++ set_items plans (index + 1) layout sigs.
Proof. unfold plan_items. rewrite <- app_assoc. reflexivity. Qed.
Lemma plan_items_run plan separator e :
  run (plan_items plan separator) e =
  text [x3a] (text (plan_Algorithm plan) (text [x3a] (text (plan_Selector plan)
    (if negb (separator =?b x00) then text [x09] (emit_crlf (text [separator] e)) else e)))).
Proof. unfold plan_items. destruct (negb _); scripts; reflexivity. Qed.
Lemma emitSets_cons plan plans index layout values e :
  emitSets (plan :: plans) index layout values e =
  (let* e := emit_value values index (run (plan_items plan (SeparatorBefore layout index)) e) in
   emitSets plans (index + 1) layout values e).
Proof. rewrite plan_items_run. reflexivity. Qed.
Lemma emit_value_run values sigs index (e : fieldEmitter) :
  values_of (bool_decide (is_Some (builder e))) values sigs -> 0 <= index ->
  (forall vs, values = Some vs -> index < len vs) ->
  emit_value values index e = Ret (run (signature_items sigs index) e).
Proof.
  unfold emit_value, signature_items, values_of. intros Hv Hi Hl. destruct values as [vs|], sigs as [ds|]; try done.
  specialize (Hl vs eq_refl).
  destruct (lookup_lt_is_Some_2 vs (Z.to_nat index)) as [v Ev]; [unfold len in *; lia | ].
  destruct (Forall2_lookup_l _ _ _ _ _ Hv Ev) as (d & Ed & [Hne Hdl] & Hb & Hs). rewrite Ev, Ed, Hb.
  apply base64_run; [done | done | ]. intros Hx. apply Hs. by apply bool_decide_eq_true.
Qed.
Lemma values_builder items (e : fieldEmitter) values sigs :
  values_of (bool_decide (is_Some (builder e))) values sigs ->
  values_of (bool_decide (is_Some (builder (run items e)))) values sigs.
Proof.
  assert (bool_decide (is_Some (builder (run items e))) = bool_decide (is_Some (builder e))) as ->; [ | done].
  apply bool_decide_ext, builder_run.
Qed.
Lemma emitSets_run plans index layout values sigs e :
  values_of (bool_decide (is_Some (builder e))) values sigs -> 0 <= index ->
  (forall vs, values = Some vs -> index + len plans <= len vs) ->
  emitSets plans index layout values e = Ret (run (set_items plans index layout sigs) e).
Proof.
  intros Hv. revert index e Hv. induction plans as [|plan plans IH]; intros index e Hv Hi Hl; [done | ].
  rewrite emitSets_cons, set_items_cons, !run_app. rewrite len_cons in Hl. pose proof (len_nonneg plans).
  rewrite (emit_value_run _ sigs); [ | by apply values_builder | done | intros vs Hvs; specialize (Hl vs Hvs); lia].
  cbn [obind]. apply IH; [by apply values_builder, values_builder | lia | intros vs Hvs; specialize (Hl vs Hvs); lia].
Qed.

Definition sets_match (r : TargetRequest) (values : option (list renderSetValue)) : Prop :=
  forall vs, values = Some vs -> len vs = len (tr_Sets r).
Lemma end_tag_run e : end_tag e = run [Txt [x3b]; Brk] e.
Proof. scripts; reflexivity. Qed.
Lemma builder_emit s (e : fieldEmitter) : is_Some (builder (text s e)) <-> is_Some (builder e).
Proof. rewrite <- emit_txt. exact (emit_builder e (Txt s)). Qed.
Lemma builder_end_tag (e : fieldEmitter) : is_Some (builder (end_tag e)) <-> is_Some (builder e).
Proof. rewrite end_tag_run. apply builder_run. Qed.

Definition envelope_items (r : TargetRequest) : list item :=
  if negb (bool_decide (tr_NextDomain r = []))
  then [Txt (x09 :: bs "nd="); Txt (tr_NextDomain r); Txt [x3b]; Brk]
  else Txt (x09 :: bs "mf=") :: b64_items (tr_MailFrom r) ++ [Txt [x3b]; Brk; Txt (x09 :: bs "rt=")] ++
       recipient_items (tr_Recipients r) 0 ++ [Txt [x3b]; Brk].
Lemma emitEnvelope_run r e : ok_target r -> emitEnvelope r e = Ret (run (envelope_items r) e).
Proof.
  intros Hok. unfold emitEnvelope, envelope_items, ok_target in *. case_bool_decide as En; cbn [negb].
  - destruct (Hok En) as [[Hne Hl] Hrs]. rewrite base64_run by done. cbn [obind].
    rewrite emitRecipients_run by done. cbn [obind]. rewrite !end_tag_run. scripts; reflexivity.
  - rewrite end_tag_run. scripts; reflexivity.
Qed.

Definition head_items (r : TargetRequest) : list item :=
  [Txt (bs "DKIM2-Signature: i="); Txt (format_uint (tr_Sequence r)); Txt [x3b]; Brk;
   Txt (x09 :: bs "m="); Txt (format_uint (tr_InstanceNumber r)); Txt [x3b]; Brk;
   Txt (x09 :: bs "t="); Txt (format_uint (tr_Timestamp r)); Txt [x3b]; Brk].
Definition domain_items (r : TargetRequest) : list item :=
  [Txt (x09 :: bs "d="); Txt (tr_Domain r); Txt [x3b]; Brk; Txt (x09 :: bs "s=")].
Definition tail_items (r : TargetRequest) : list item :=
  [Txt [x3b]; Brk] ++
  (if tr_NoncePresent r then [Txt (x09 :: bs "n="); Txt (tr_Nonce r); Txt [x3b]; Brk] else []) ++
  (if 0 <? len (tr_Flags r) then Txt (x09 :: bs "f=") :: flag_items (tr_Flags r) 0 ++ [Txt [x3b]; Brk] else []).

(** The tags of the target, with the separators where they are written. *)
Lemma target_script_items r layout sigs :
  target_script r layout sigs =
  head_items r ++ envelope_items r ++ domain_items r ++ set_items (tr_Sets r) 0 layout sigs ++ tail_items r.
Proof.
  unfold target_script, header_script, more_tags, target_tags, envelope_tags_of, head_items, envelope_items, domain_items, tail_items, sequence_items.
  destruct (negb (bool_decide (tr_NextDomain r = []))), (tr_NoncePresent r), (0 <? len (tr_Flags r));
    cbn [app map concat]; repeat (rewrite <- ?app_assoc; cbn [app]); reflexivity.
Qed.

Lemma emitTarget_run r layout values sigs e :
  ok_target r -> generatedSetLayout (tr_Sets r) = Some layout -> sets_match r values ->
  values_of (bool_decide (is_Some (builder e))) values sigs ->
  emitTarget e r values = Ret (run (target_script r layout sigs) e).
Proof.
  intros Hok Hlay Hm Hv. rewrite target_script_items. unfold emitTarget. cbv zeta.
  rewrite Hlay. rewrite emitEnvelope_run by done. cbn [obind].
  rewrite (emitSets_run _ _ _ _ sigs).
  2: { assert (forall b b' : Prop, (b <-> b') -> forall (H : Decision b) (H' : Decision b'), bool_decide b = bool_decide b') as Hext
         by (intros; by apply bool_decide_ext).
       erewrite Hext; [exact Hv | ]. rewrite !builder_emit, builder_end_tag, !builder_emit.
       rewrite builder_run, !builder_end_tag, !builder_emit, builder_end_tag, !builder_emit, builder_end_tag, !builder_emit.
       reflexivity. }
  2: done.
  2: { intros vs Hvs. rewrite (Hm vs Hvs). lia. }
  cbn [obind]. unfold tail_items. destruct (tr_NoncePresent r), (0 <? len (tr_Flags r));
    rewrite ?emitFlags_run, !end_tag_run; unfold head_items, domain_items; scripts; reflexivity.
Qed.

(** ** Preflight and rendering *)
Section sized.
Context (r : TargetRequest) (layout : Layout) (sigs : option (list bytes)) (values : option (list renderSetValue)).
Context (L : RenderLimits).
Hypothesis Hok : ok_target r.
Hypothesis Hlay : generatedSetLayout (tr_Sets r) = Some layout.
Hypothesis Hm : sets_match r values.
Let script := target_script r layout sigs.
Let fits := script_fits (MaxFieldBytes L) (MaxLineBytes L) 0 0 script.

Lemma script_open : open_after 0 script = 0.
Proof using.
  unfold script, target_script, header_script.
  replace (Txt (field_name ++ [x3a; x20] ++ bs "i" ++ [x3d]) :: sequence_items r ++ more_tags (target_tags r layout sigs) ++ [Txt [x3b]; Brk])
    with ((Txt (field_name ++ [x3a; x20] ++ bs "i" ++ [x3d]) :: sequence_items r ++ more_tags (target_tags r layout sigs) ++ [Txt [x3b]]) ++ [Brk]).
  - apply open_after_break.
  - cbn [app]. rewrite <- !app_assoc. done.
Qed.
Lemma emitTarget_view bl :
  values_of (bool_decide (is_Some bl)) values sigs ->
  exists e, emitTarget (MkEmitter L bl 0 0 None) r values = Ret e /\
    if fits then em_err e = None /\ builder e = (fun b => b ++ script_bytes script) <$> bl /\
                 em_size e = len (script_bytes script) /\ em_line e = 0
    else exists f, em_err e = Some f.
Proof using Hok Hlay Hm.
  intros Hv. set (e0 := MkEmitter L bl 0 0 None). rewrite (emitTarget_run r layout values sigs e0) by done.
  eexists. split; [done | ]. fold script.
  pose proof (run_view script e0 (MkView (MaxFieldBytes L) (MaxLineBytes L) bl 0 0) eq_refl) as HV.
  cbn [v_field v_line v_built v_size v_open] in HV. fold fits in HV. rewrite script_open in HV.
  generalize dependent (run script e0). generalize fits (script_bytes script). clear. intros [|] bytes e HV.
  - apply view_ok in HV. tauto.
  - by apply view_failed.
Qed.

Lemma preflightTarget_cases :
  values_of false values sigs ->
  if fits then preflightTarget r values L = Ret (len (script_bytes script))
  else exists f, preflightTarget r values L = Fail f.
Proof using Hok Hlay Hm.
  intros Hv. destruct (emitTarget_view None) as (e & He & H); [done | ]. unfold preflightTarget. rewrite He. cbn [obind].
  destruct fits; [destruct H as (-> & _ & -> & ->); done | destruct H as [f ->]; by exists f].
Qed.
Lemma renderTarget_fits :
  values_of true values sigs -> fits = true ->
  renderTarget r values L (len (script_bytes script)) = Ret (script_bytes script).
Proof using Hok Hlay Hm.
  intros Hv Hf. destruct (emitTarget_view (Some [])) as (e & He & H); [done | ]. unfold renderTarget. rewrite He. cbn [obind].
  rewrite Hf in H. destruct H as (-> & -> & -> & _). rewrite Z.eqb_refl. done.
Qed.
End sized.

(** What is written depends on the signatures only; values that agree in
    their lengths have the same preflight. *)
Lemma preflight_lengths r values values' layout ds L :
  ok_target r -> generatedSetLayout (tr_Sets r) = Some layout -> sets_match r (Some values) ->
  values_of true (Some values) (Some ds) ->
  map rv_bytes values' = map rv_bytes values ->
  preflightTarget r (Some values') L = preflightTarget r (Some values) L.
Proof.
  intros Hok Hlay Hm Hv Hb.
  assert (len values' = len values) as El by (apply (f_equal length) in Hb; rewrite !length_map in Hb; unfold len; lia).
  assert (values_of false (Some values') (Some ds)) as Hv'.
  { cbn in *. revert values' Hb El. clear Hm. induction Hv as [|v d vs ds (He & Hn & _) _ IH]; intros values' Hb El;
      [by destruct values'; [constructor | ] | ]. destruct values' as [|v' values']; [done | ].
    injection Hb as Hb1 Hb2. constructor; [split_and!; [done | congruence | done] | apply IH; [done | ]].
    apply (f_equal length) in Hb2. rewrite !length_map in Hb2. unfold len. lia. }
  assert (values_of false (Some values) (Some ds)) as Hv0.
  { cbn in *. eapply Forall2_impl; [exact Hv | ]. cbn. intros v d (He & Hn & _). done. }
  assert (sets_match r (Some values')) as Hm' by (intros vs [= <-]; rewrite El; by apply Hm).
  unfold preflightTarget. rewrite !(emitTarget_run r layout _ (Some ds)) by done. done.
Qed.

(** ** The groups of a generated s= value

    generatedSetLayout puts the plans of a signing group next to each other;
    the text that the emission writes for them is the text of those groups. *)
(** ** generatedSetLayout *)
Lemma alter_last (s : list Z) n : alter (Z.add 1) (length (s ++ [n]) - 1)%nat (s ++ [n]) = s ++ [1 + n].
Proof.
  rewrite length_app. cbn [length]. replace (length s + 1 - 1)%nat with (length s + 0)%nat by lia. by rewrite alter_app_r.
Qed.
Lemma layoutLoop_groups plans current s n szs :
  layoutLoop plans current (s ++ [n]) = Some szs ->
  exists g gs, plans = g ++ concat gs /\ szs = s ++ [n + len g] ++ map len gs /\ Forall (fun g => g <> []) gs.
Proof.
  revert current s n. induction plans as [|p plans IH]; intros current s n; cbn [layoutLoop].
  - intros [= <-]. exists [], []. split_and!; [done | by rewrite Z.add_0_r | constructor].
  - cbv zeta. destruct (_ <? current); [done | ]. destruct (negb _); rewrite alter_last.
    + intros (g & gs & E1 & E2 & Hgs)%IH. exists [], ((p :: g) :: gs). rewrite E1, E2. split_and!; [done | | by constructor].
      cbn [map]. change (len (@nil SetPlan)) with 0. rewrite <- app_assoc, len_cons, !Z.add_0_r. done.
    + intros (g & gs & E1 & E2 & Hgs)%IH. exists (p :: g), gs. rewrite E1, E2. split_and!; [done | | done].
      rewrite len_cons. cbn [app]. do 2 f_equal. lia.
Qed.
Lemma generatedSetLayout_Some plans l :
  generatedSetLayout plans = Some l ->
  exists gs, plans = concat gs /\ gs <> [] /\ Forall (fun g => g <> []) gs /\
    good_sizes (map len gs) /\ l = layout_of (map len gs).
Proof.
  unfold generatedSetLayout. destruct (len plans =? 0) eqn:E; [done | ].
  intros (szs & Hl & [Hg ->]%NewLayout_Some)%bind_Some. destruct plans as [|p plans]; [done | ]. cbn [layoutLoop] in Hl. cbv zeta in Hl.
  assert (0 <= signingGroup (plan_Algorithm p)) by (unfold signingGroup; by destruct (_ || _)).
  rewrite (proj2 (Z.ltb_ge _ _)), (proj2 (Z.eqb_neq _ _)) in Hl by lia. cbn [negb app] in Hl.
  apply (layoutLoop_groups plans _ [] 1) in Hl as (g & gs & -> & -> & Hgs).
  exists ((p :: g) :: gs). cbn [map app] in *. rewrite len_cons. split_and!; [done | done | by constructor | done | done].
Qed.

(** ** Separators *)
Lemma separatorLoop_in pre n post start index :
  Forall (fun size => 0 < size) pre -> start + sum_sizes pre <= index < start + sum_sizes pre + n ->
  separatorLoop (pre ++ n :: post) start index = if index =? start + sum_sizes pre then AnySeparator else AllSeparator.
Proof.
  intros Hp. revert start. induction Hp as [|x pre Hx Hp IH]; intros start; cbn [app separatorLoop].
  - change (sum_sizes []) with 0. rewrite Z.add_0_r. intros Hi. destruct (index =? start); [done | ].
    by rewrite (proj2 (Z.ltb_lt _ _)) by lia.
  - rewrite sum_sizes_cons. intros Hi. pose proof (sum_sizes_bound pre Hp). pose proof (len_nonneg pre).
    rewrite (proj2 (Z.eqb_neq _ _)), (proj2 (Z.ltb_ge _ _)) by lia. rewrite IH by lia. by rewrite Z.add_assoc.
Qed.

Lemma separator_cases l i : SeparatorBefore l i = x00 \/ SeparatorBefore l i = AllSeparator \/ SeparatorBefore l i = AnySeparator.
Proof.
  assert (forall ns start, let s := separatorLoop ns start i in s = x00 \/ s = AllSeparator \/ s = AnySeparator) as H.
  { induction ns as [|n ns IH]; intros start; cbn [separatorLoop]; [by left | ].
    destruct (i =? start); [by right; right | ]. destruct (i <? _); [by right; left | apply IH]. }
  unfold SeparatorBefore. destruct (i <=? 0); [by left | apply H].
Qed.
(** The pieces with the separators before them. *)
Fixpoint separated (pieces : list bytes) (index : Z) (layout : Layout) : bytes :=
  match pieces with
  | [] => []
  | p :: rest =>
      let separator := SeparatorBefore layout index in
      (if negb (separator =?b x00) then [separator; x09] else []) ++ p ++ separated rest (index + 1) layout
  end.
Definition tabbed (gs : list (list bytes)) : list (list bytes) :=
  match gs with
  | (p :: g) :: gs => (p :: map (cons x09) g) :: map (map (cons x09)) gs
  | _ => []
  end.
Lemma render_group_concat p g : render_group (p :: g) = p ++ concat (map (cons AllSeparator) g).
Proof.
  revert p. induction g as [|q g IH]; intros p; [by rewrite app_nil_r | ]. rewrite render_group_cons by done. by rewrite IH.
Qed.
Lemma render_groups_concat g gs : render_groups (g :: gs) = render_group g ++ concat (map (fun g => AnySeparator :: render_group g) gs).
Proof.
  revert g. induction gs as [|h gs IH]; intros g; [by rewrite app_nil_r | ]. rewrite render_groups_cons by done. by rewrite IH.
Qed.

Section groups.
Context (l : Layout).

Lemma separated_inside pre n post g rest index :
  GroupSizes l = pre ++ n :: post -> Forall (fun size => 0 < size) pre ->
  sum_sizes pre < index -> index + len g <= sum_sizes pre + n ->
  separated (g ++ rest) index l = concat (map (cons AllSeparator) (map (cons x09) g)) ++ separated rest (index + len g) l.
Proof.
  intros El Hp. revert index. induction g as [|p g IH]; intros index H1 H2; [by rewrite Z.add_0_r | ].
  rewrite len_cons in *. pose proof (len_nonneg g). pose proof (sum_sizes_bound pre Hp). pose proof (len_nonneg pre).
  cbn [app separated map concat]. rewrite IH by lia. unfold SeparatorBefore. rewrite (proj2 (Z.leb_gt _ _)) by lia.
  rewrite El, separatorLoop_in by (done || lia). rewrite (proj2 (Z.eqb_neq _ _)) by lia. replace (index + (1 + len g)) with (index + 1 + len g) by lia.
  change (negb (AllSeparator =?b x00)) with true. cbn [app]. by rewrite <- app_assoc.
Qed.
Lemma separated_groups pre gs :
  pre <> [] -> GroupSizes l = pre ++ map len gs -> Forall (fun size => 0 < size) pre -> Forall (fun g => g <> []) gs ->
  separated (concat gs) (sum_sizes pre) l = concat (map (fun g => AnySeparator :: render_group g) (map (map (cons x09)) gs)).
Proof.
  intros Hne El Hp Hgs. revert pre Hne El Hp. induction Hgs as [|g gs Hg _ IH]; intros pre Hne El Hp; [done | ].
  destruct g as [|p g]; [done | ]. cbn [map concat app separated]. pose proof (len_nonneg g).
  pose proof (sum_sizes_bound pre Hp). assert (0 < len pre) by (destruct pre; [done | rewrite len_cons; pose proof (len_nonneg pre); lia]).
  unfold SeparatorBefore. rewrite (proj2 (Z.leb_gt _ _)) by lia. cbn [map] in El. rewrite len_cons in El.
  rewrite El, (separatorLoop_in pre _ _ 0) by (done || lia). rewrite Z.add_0_l, Z.eqb_refl. cbn [negb app].
  change (negb (AnySeparator =?b x00)) with true. cbn [app].
  rewrite (separated_inside pre (1 + len g) (map len gs) g) by (done || lia).
  replace (sum_sizes pre + 1 + len g) with (sum_sizes (pre ++ [1 + len g])).
  2: { rewrite sum_sizes_app, sum_sizes_cons. change (sum_sizes []) with 0. lia. }
  rewrite IH.
  - rewrite render_group_concat. cbn [app]. by rewrite <- !app_assoc.
  - by destruct pre.
  - by rewrite <- app_assoc.
  - apply Forall_app. split; [done | ]. constructor; [lia | done].
Qed.
Lemma separated_render gs :
  gs <> [] -> Forall (fun g => g <> []) gs -> GroupSizes l = map len gs ->
  separated (concat gs) 0 l = render_groups (tabbed gs).
Proof.
  intros Hne Hgs El. destruct Hgs as [|g gs Hg Hgs]; [done | ]. destruct g as [|p g]; [done | ].
  cbn [concat app tabbed separated]. change (SeparatorBefore l 0) with x00. cbn [negb]. change (negb (x00 =?b x00)) with false. cbn [app].
  cbn [map] in El. rewrite len_cons in El. pose proof (len_nonneg g).
  rewrite (separated_inside [] (1 + len g) (map len gs) g); [ | done | done | done | change (sum_sizes []) with 0; lia].
  replace (0 + 1 + len g) with (sum_sizes [1 + len g]) by (rewrite sum_sizes_cons; change (sum_sizes []) with 0; lia).
  rewrite (separated_groups [1 + len g] gs); [ | done | done | by repeat constructor; lia | done].
  rewrite render_groups_concat, render_group_concat. by rewrite <- app_assoc.
Qed.
End groups.

(** ** The text of the emission *)
Fixpoint plan_pieces (plans : list SetPlan) (index : Z) (sigs : option (list bytes)) : list bytes :=
  match plans with
  | [] => []
  | plan :: rest =>
      (plan_Selector plan ++ [x3a] ++ plan_Algorithm plan ++ [x3a] ++ script_text (signature_items sigs index))
      :: plan_pieces rest (index + 1) sigs
  end.
Lemma set_items_text plans index layout sigs :
  script_text (set_items plans index layout sigs) = separated (plan_pieces plans index sigs) index layout.
Proof.
  revert index. induction plans as [|plan plans IH]; intros index; [done | ].
  rewrite set_items_cons, !script_text_app, IH. cbn [plan_pieces separated]. unfold plan_items, script_text.
  destruct (negb _); cbn [app map concat item_text]; rewrite ?app_nil_r; repeat (rewrite <- ?app_assoc; cbn [app]); done.
Qed.
(** The shared renderer writes the same text without white space. *)
Lemma filter_dark s : Forall (fun b => TagTypes.isWSP b = false) s -> signatureValueWithoutWSP s = s.
Proof.
  intros H. apply filter_id. eapply Forall_impl; [exact H | ]. intros b Hb. cbn. change (negb (TagTypes.isWSP b) = true). by rewrite Hb.
Qed.
Lemma dark_app s t : signatureValueWithoutWSP (s ++ t) = signatureValueWithoutWSP s ++ signatureValueWithoutWSP t.
Proof. apply List.filter_app. Qed.

Definition dark (s : bytes) : Prop := s <> [] /\ Forall (fun b => TagTypes.isWSP b = false) s.
Lemma unsignedSetLoop_text plans index layout out :
  Forall (fun p => dark (plan_Selector p) /\ dark (plan_Algorithm p)) plans ->
  unsignedSetLoop (map (fun plan => MkComponent (plan_Selector plan) (plan_Algorithm plan)) plans) index layout out =
  Some (out ++ signatureValueWithoutWSP (separated (plan_pieces plans index None) index layout)).
Proof.
  intros H. revert index out. induction H as [|p plans [[Hs Hsd] [Ha Had]] _ IH]; intros index out; cbn [map unsignedSetLoop].
  - by rewrite app_nil_r.
  - cbn [comp_selector comp_algorithm]. rewrite !bool_decide_eq_false_2 by done. cbn [orb]. rewrite IH. f_equal.
    cbn [plan_pieces separated]. cbn [signature_items]. change (script_text []) with (@nil byte).
    rewrite !dark_app, !(filter_dark (plan_Selector p)), !(filter_dark (plan_Algorithm p)) by done.
    change (signatureValueWithoutWSP [x3a]) with [x3a]. change (signatureValueWithoutWSP []) with (@nil byte).
    assert (signatureValueWithoutWSP (if negb (SeparatorBefore layout index =?b x00) then [SeparatorBefore layout index; x09] else []) =
            if negb (SeparatorBefore layout index =?b x00) then [SeparatorBefore layout index] else []) as ->.
    { destruct (negb _) eqn:En; [ | done].
      assert (SeparatorBefore layout index = AllSeparator \/ SeparatorBefore layout index = AnySeparator) as [-> | ->]; [ | done | done].
      apply negb_true_iff, byte_eqb_ne in En. destruct (separator_cases layout index) as [? | H]; done. }
    destruct (negb _); rewrite ?app_nil_r; repeat (rewrite <- ?app_assoc; cbn [app]); done.
Qed.
Lemma unsignedSetList_text plans layout :
  Forall (fun p => dark (plan_Selector p) /\ dark (plan_Algorithm p)) plans ->
  generatedSetLayout plans = Some layout ->
  unsignedSetListFromPlans plans = Some (signatureValueWithoutWSP (script_text (set_items plans 0 layout None))).
Proof.
  intros Hd Hl. unfold unsignedSetListFromPlans, appendUnsignedSetList. rewrite Hl. cbn.
  apply generatedSetLayout_Some in Hl as (gs & E & Hne & Hgs & Hg & ->).
  assert (len (map (fun plan => MkComponent (plan_Selector plan) (plan_Algorithm plan)) plans) = len plans) as -> by (unfold len; by rewrite length_map).
  assert (Sets (layout_of (map len gs)) = len plans) as ->.
  { unfold Sets. rewrite GroupSizes_of, E. clear. induction gs as [|g gs IH]; [done | ]. cbn [map concat].
    rewrite sum_sizes_cons, IH, len_app. done. }
  rewrite (Valid_of _ Hg), Z.eqb_refl. cbn [negb orb].
  assert (plans <> []) as Hp.
  { rewrite E. destruct Hgs as [|g gs Hg0 _]; [done | ]. cbn [concat]. intros [? _]%app_nil. done. }
  destruct (Z.eqb_spec (len plans) 0) as [E0 | _].
  { destruct plans as [|p plans]; [done | rewrite len_cons in E0; pose proof (len_nonneg plans); lia]. }
  cbn [orb]. rewrite unsignedSetLoop_text by done. by rewrite set_items_text.
Qed.
