(* ===== verification/SigTarget.v ===== *)
(** * Canonical targets

    What canonicalTargetRequest accepts and returns, that its results are their
    own canonical forms, and that the unsigned target of a request exists exactly
    when the request is acceptable and its field is within the limits. *)

From stdpp Require Import gmap sorting.
From S2P Require Import Prelude GoBytes GoBase64 GoStrconv RawMsg RawBody RawParser TagTypes TagScan TagBase64 Combine TagSpec Emitter FieldScript DomainName SigAlgorithm.
From S2P Require Import SigTypes SigEnvelope SigEnvelopeSpec SigParser SigSpec SigCollection SigCustody SigRender SigRenderSpec.
#[local] Open Scope Z_scope.

(** ** Sorting *)
Section sorting.
Context {A : Type} (less : A -> A -> bool).
Let R (a b : A) : Prop := less b a = false.
Hypothesis R_trans : forall a b c, R a b -> R b c -> R a c.
Hypothesis less_asym : forall a b, less a b = true -> less b a = false.

Lemma insert_stable_sorted x l : StronglySorted R l -> StronglySorted R (insert_stable less x l).
Proof using R_trans less_asym.
  induction 1 as [|y l Hl IH Hy]; cbn [insert_stable]; [by repeat constructor | ]. destruct (less y x) eqn:E.
  - constructor; [done | ]. rewrite insert_stable_perm. constructor; [by apply less_asym | done].
  - constructor; [by constructor | ]. constructor; [done | ]. eapply Forall_impl; [exact Hy | ]. intros z Hz. by eapply R_trans.
Qed.
Lemma slice_stable_StronglySorted l : StronglySorted R (slice_stable less l).
Proof using R_trans less_asym. induction l as [|x l IH]; [constructor | ]. by apply insert_stable_sorted. Qed.
Lemma slice_stable_id l : StronglySorted R l -> slice_stable less l = l.
Proof using.
  induction 1 as [|x l _ IH Hx]; [done | ]. cbn [slice_stable foldr]. unfold slice_stable in IH. rewrite IH.
  destruct Hx as [|y l Hy _]; [done | ]. cbn [insert_stable]. unfold R in Hy. by rewrite Hy.
Qed.
Lemma slice_stable_unique l l' :
  (forall a b, R a b -> R b a -> a = b) -> l ≡ₚ l' -> StronglySorted R l' -> slice_stable less l = l'.
Proof using R_trans less_asym.
  intros Hanti Hp Hs. eapply (StronglySorted_unique_strong R); [ | apply slice_stable_StronglySorted | exact Hs | by rewrite slice_stable_perm].
  intros a b _ _. apply Hanti.
Qed.
End sorting.

Section plans.
Definition plan_less (a b : SetPlan) : bool := compareSetPlans a b <? 0.
Definition lex (a b : SetPlan) : Prop :=
  let ra := generatedAlgorithmRank (plan_Algorithm a) in
  let rb := generatedAlgorithmRank (plan_Algorithm b) in
  ra < rb \/ ra = rb /\ (bytes_ltb (plan_Algorithm a) (plan_Algorithm b) = true \/
    plan_Algorithm a = plan_Algorithm b /\ bytes_ltb (plan_Selector a) (plan_Selector b) = true).
Lemma strings_Compare_less a b : (strings_Compare a b <? 0) = bytes_ltb a b.
Proof. unfold strings_Compare. destruct (bytes_ltb a b); [done | ]. by destruct (bytes_ltb b a). Qed.
Lemma plan_less_lex a b : plan_less a b = true <-> lex a b.
Proof.
  unfold plan_less, compareSetPlans, lex. cbv zeta. destruct (bytes_equal (plan_Algorithm a) (plan_Algorithm b)) eqn:E; cbn [negb].
  - apply bytes_equal_eq in E. rewrite E, strings_Compare_less, bytes_ltb_irrefl. split; [auto | ].
    intros [? | [_ [? | [_ ?]]]]; [lia | done | done].
  - assert (plan_Algorithm a <> plan_Algorithm b) as Hne by by intros H%bytes_equal_eq; congruence.
    destruct (Z.eqb_spec (generatedAlgorithmRank (plan_Algorithm a)) (generatedAlgorithmRank (plan_Algorithm b))) as [Er | Er]; cbn [negb].
    + rewrite strings_Compare_less, Er. split; [auto | ]. intros [? | [_ [? | [? _]]]]; [lia | done | done].
    + rewrite Z.ltb_lt. split; [left; lia | ]. intros [? | [? _]]; lia.
Qed.
Lemma lex_trans a b c : lex a b -> lex b c -> lex a c.
Proof.
  unfold lex. cbv zeta. intros [H1 | [H1 [H2 | [H2 H3]]]] [G1 | [G1 [G2 | [G2 G3]]]]; try (left; lia); right; (split; [lia | ]).
  - left. by eapply bytes_ltb_trans.
  - left. by rewrite <- G2.
  - left. by rewrite H2.
  - right. split; [congruence | by eapply bytes_ltb_trans].
Qed.
Lemma lex_irrefl a : ~ lex a a.
Proof. unfold lex. cbv zeta. rewrite !bytes_ltb_irrefl. intros [? | [_ [? | [_ ?]]]]; [lia | done | done]. Qed.
Lemma lex_total a b : ~ lex a b -> ~ lex b a -> a = b.
Proof.
  unfold lex. cbv zeta. intros H1 H2. destruct a as [sa aa], b as [sb ab]. cbn [plan_Selector plan_Algorithm] in *.
  assert (generatedAlgorithmRank aa = generatedAlgorithmRank ab) as Er by lia.
  assert (aa = ab) as ->.
  { apply bytes_ltb_total; apply not_true_iff_false; intros E; [apply H1 | apply H2]; right; (split; [lia | by left]). }
  f_equal. apply bytes_ltb_total; apply not_true_iff_false; intros E; [apply H1 | apply H2]; right; (split; [lia | by right]).
Qed.
Lemma plan_less_false a b : plan_less a b = false <-> ~ lex a b.
Proof. rewrite <- not_true_iff_false. by rewrite plan_less_lex. Qed.
Lemma plan_less_asym a b : plan_less a b = true -> plan_less b a = false.
Proof. rewrite plan_less_lex, plan_less_false. intros H1 H2. eapply lex_irrefl, lex_trans; done. Qed.
Lemma plan_le_trans a b c : plan_less b a = false -> plan_less c b = false -> plan_less c a = false.
Proof.
  rewrite !plan_less_false. intros H1 H2 H3.
  destruct (plan_less a b) eqn:E; [apply plan_less_lex in E; apply H2; by eapply lex_trans | apply plan_less_false in E].
  by rewrite (lex_total a b E H1) in H3.
Qed.
Lemma plan_le_antisym a b : plan_less b a = false -> plan_less a b = false -> a = b.
Proof. rewrite !plan_less_false. intros. by apply lex_total. Qed.

Definition plans_sorted (ps : list SetPlan) : Prop := StronglySorted (fun a b => plan_less b a = false) ps.
Lemma sort_plans_sorted ps : plans_sorted (slices_SortFunc compareSetPlans ps).
Proof. apply slice_stable_StronglySorted; [apply plan_le_trans | apply plan_less_asym]. Qed.
Lemma sort_plans_id ps : plans_sorted ps -> slices_SortFunc compareSetPlans ps = ps.
Proof. apply slice_stable_id. Qed.
Lemma sort_plans_perm ps : slices_SortFunc compareSetPlans ps ≡ₚ ps.
Proof. apply slice_stable_perm. Qed.
Lemma sort_plans_unique ps qs : ps ≡ₚ qs -> plans_sorted qs -> slices_SortFunc compareSetPlans ps = qs.
Proof. apply slice_stable_unique; [apply plan_le_trans | apply plan_less_asym | apply plan_le_antisym]. Qed.
End plans.

Definition flags_sorted (fs : list bytes) : Prop := StronglySorted (fun a b => (compareGeneratedFlags b a <? 0) = false) fs.
Lemma sort_flags_sorted fs : flags_sorted (slices_SortFunc compareGeneratedFlags fs).
Proof. apply slice_stable_StronglySorted; unfold compareGeneratedFlags; intros *; lia. Qed.
Lemma sort_flags_id fs : flags_sorted fs -> slices_SortFunc compareGeneratedFlags fs = fs.
Proof. apply slice_stable_id. Qed.

(** ** The parts of a request *)
Definition plan_canon (p input : SetPlan) : Prop :=
  canonicalDNSName (plan_Selector input) = Some (plan_Selector p) /\
  ParseTextstring (plan_Algorithm input) = Some (plan_Algorithm p).
Definition ok_plan (p : SetPlan) : Prop :=
  is_domain (plan_Selector p) /\ ParseTextstring (plan_Algorithm p) = Some (plan_Algorithm p).
Lemma plan_canon_ok p input : plan_canon p input -> ok_plan p.
Proof.
  intros [Hd%canonicalDNSName_is_domain Ha]. split; [done | ].
  pose proof Ha as (E & _)%ParseTextstring_Some. by rewrite E at 1.
Qed.
Lemma ok_plan_canon p : ok_plan p -> plan_canon p p.
Proof. intros [Hd Ha]. split; [by apply canonicalDNSName_domain | done]. Qed.

Lemma plan_selector_add u s i u' : selector_add u s 0 i = Ret u' <-> s ∉ u /\ u' = {[s]} ∪ u.
Proof. unfold selector_add. case_bool_decide; split; [done | by intros [? _] | by intros [= <-] | by intros [_ ->]]. Qed.

Lemma setPlansLoop_Ret input index seen out r :
  setPlansLoop input index seen out = Ret r <->
  exists ps, r = out ++ ps /\ Forall2 plan_canon ps input /\ NoDup (map plan_Selector ps) /\
    (forall p, p ∈ ps -> plan_Selector p ∉ seen).
Proof.
  revert index seen out. induction input as [|i input IH]; intros index seen out; cbn [setPlansLoop].
  - split; [intros [= <-] | intros (ps & -> & ->%Forall2_nil_inv_r & _); by rewrite app_nil_r].
    exists []. split_and!; [by rewrite app_nil_r | constructor | constructor | by intros ? ?%elem_of_nil].
  - destruct (canonicalDNSName (plan_Selector i)) as [s|] eqn:Es.
    2: { split; [done | ]. intros (ps & _ & (p & ps' & [E _] & _)%Forall2_cons_inv_r & _). congruence. }
    destruct (ParseTextstring (plan_Algorithm i)) as [a|] eqn:Ea.
    2: { split; [done | ]. intros (ps & _ & (p & ps' & [_ E] & _)%Forall2_cons_inv_r & _). congruence. }
    split.
    + intros (u & [Hs ->]%plan_selector_add & H)%obind_ret_inv. apply IH in H as (ps & -> & Hps & Hnd & Hin).
      exists (MkPlan s a :: ps). split_and!; [by rewrite <- app_assoc | by constructor | | ].
      * cbn. constructor; [ | done]. intros (p & E & Hp)%list_elem_of_fmap. apply (Hin p Hp). cbn in E. rewrite <- E. set_solver.
      * intros p [-> | Hp]%elem_of_cons; [done | ]. specialize (Hin p Hp). set_solver.
    + intros (ps & -> & (p & ps' & [E1 E2] & Hps & ->)%Forall2_cons_inv_r & Hnd & Hin).
      assert (p = MkPlan s a) as -> by (destruct p; cbn in *; congruence). cbn [map] in Hnd. apply NoDup_cons in Hnd as [Hni Hnd].
      pose proof (Hin _ (list_elem_of_here _ _)) as Hs. cbn [plan_Selector] in *.
      rewrite (proj2 (plan_selector_add seen s index ({[s]} ∪ seen))) by done. cbn [obind]. apply IH. exists ps'.
      split_and!; [by rewrite <- app_assoc | done | done | ]. intros p Hp. specialize (Hin p ltac:(by right)).
      assert (plan_Selector p <> s) by (intros <-; apply Hni; by apply list_elem_of_fmap_2). set_solver.
Qed.

Definition ok_plans (L : RenderLimits) (ps : list SetPlan) : Prop :=
  1 <= len ps <= rl_MaxSignatureSets L /\ Forall ok_plan ps /\ NoDup (map plan_Selector ps) /\ plans_sorted ps /\
  is_Some (generatedSetLayout ps).
Lemma canonicalizeSetPlans_Ret L input r :
  canonicalizeSetPlans input L = Ret r <->
  exists ps, Forall2 plan_canon ps input /\ r ≡ₚ ps /\ ok_plans L r.
Proof.
  unfold canonicalizeSetPlans, ok_plans. pose proof (len_nonneg input). split.
  - intros (? & Hl%require_ret_inv & H0)%obind_ret_inv. apply obind_ret_inv in H0 as (ps & Hps & H0).
    apply setPlansLoop_Ret in Hps as (ps' & -> & Hps & Hnd & _). cbn [app] in *.
    pose proof (sort_plans_perm ps') as Hp. pose proof (sort_plans_sorted ps') as Hs.
    destruct (generatedSetLayout _) as [l|] eqn:El; [ | done]. injection H0 as <-. exists ps'. split_and!; try done.
    + unfold len in *. rewrite Hp, (Forall2_length _ _ _ Hps). lia.
    + unfold len in *. rewrite Hp, (Forall2_length _ _ _ Hps). lia.
    + rewrite Hp. apply list.Forall_forall. intros p Hin. apply list_elem_of_lookup_1 in Hin as [i Hi].
      destruct (Forall2_lookup_l _ _ _ _ _ Hps Hi) as (j & _ & Hc). by eapply plan_canon_ok.
    + by rewrite Hp.
  - intros (ps & Hps & Hp & Hl & _ & Hnd & Hs & [l El]).
    assert (len input = len r) as -> by (unfold len; rewrite Hp; by rewrite (Forall2_length _ _ _ Hps)).
    rewrite (proj2 (Z.eqb_neq _ _)), (proj2 (Z.ltb_ge _ _)) by lia. cbn [orb negb require obind].
    rewrite (proj2 (setPlansLoop_Ret input 0 newSelectorUniqueness [] ps)).
    2: { exists ps. split_and!; [done | done | by rewrite <- Hp | ]. intros p _. unfold newSelectorUniqueness. set_solver. }
    cbn [obind]. rewrite (sort_plans_unique ps r) by done. by rewrite El.
Qed.
Lemma ok_plans_fixed L ps : ok_plans L ps -> canonicalizeSetPlans ps L = Ret ps.
Proof.
  intros Hok. apply canonicalizeSetPlans_Ret. exists ps. split_and!; [ | done | done].
  destruct Hok as (_ & Hf & _). clear -Hf. induction Hf; constructor; [by apply ok_plan_canon | done].
Qed.

Definition ok_flag (f : bytes) : Prop := ParseTextstring f = Some f /\ knownFlag f = true.
Lemma generatedFlagsLoop_Ret input index seen out r :
  generatedFlagsLoop input index seen out = Ret r <->
  r = out ++ input /\ Forall ok_flag input /\ NoDup input /\ (forall f, f ∈ input -> f ∉ seen).
Proof.
  revert index seen out. induction input as [|f input IH]; intros index seen out; cbn [generatedFlagsLoop].
  - rewrite app_nil_r. split; [intros [= <-] | by intros (-> & _)]. repeat split; [constructor | constructor | by intros ? ?%elem_of_nil].
  - rewrite Forall_cons, NoDup_cons. unfold ok_flag at 1. destruct (ParseTextstring f) as [n|] eqn:En.
    2: { split; [done | ]. by intros (_ & [[? _] _] & _). }
    pose proof En as (-> & _)%ParseTextstring_Some.
    destruct (knownFlag f); cbn [require obind]; [ | split; [done | by intros (_ & [[_ ?] _] & _)]].
    case_bool_decide as Hs; cbn [negb require obind].
    { split; [done | ]. intros (_ & _ & _ & Hin). destruct (Hin f (list_elem_of_here _ _)). done. }
    rewrite IH, <- app_assoc. cbn [app]. split.
    + intros (-> & Hf & Hnd & Hin). split_and!; try done; [intros Hfi; specialize (Hin f Hfi); set_solver | ].
      intros g [-> | Hg]%elem_of_cons; [done | specialize (Hin g Hg); set_solver].
    + intros (-> & [_ Hf] & [Hni Hnd] & Hin). repeat (split; [done | ]). intros g Hg.
      specialize (Hin g ltac:(by right)). assert (g <> f) by by intros ->. set_solver.
Qed.
Lemma canonicalizeGeneratedFlags_Ret input r :
  canonicalizeGeneratedFlags input = Ret r <->
  Forall ok_flag input /\ NoDup input /\ r = slices_SortFunc compareGeneratedFlags input.
Proof.
  unfold canonicalizeGeneratedFlags. split.
  - intros (o & (-> & Hf & Hnd & _)%generatedFlagsLoop_Ret & [= <-])%obind_ret_inv. done.
  - intros (Hf & Hnd & ->). rewrite (proj2 (generatedFlagsLoop_Ret input 0 ∅ [] input)); [done | ].
    split_and!; try done; intros f _; set_solver.
Qed.

Section idna.
Context (registration : bytes -> option bytes).
#[local] Abbreviation Recordable := (RecordableEnvelopePath registration).

Definition total_len (rs : list bytes) : Z := len (concat rs).
Lemma recipientPathsLoop_Ret inputs index L seen total out r :
  recipientPathsLoop registration inputs index L seen total out = Ret r <->
  exists rs, r = out ++ rs /\ Forall2 (fun r i => Recordable i false = Some r) rs inputs /\ NoDup rs /\
    (forall r, r ∈ rs -> r ∉ seen) /\ (rs = [] \/ total + total_len rs <= rl_MaxEnvelopePathBytes L).
Proof.
  revert index seen total out. induction inputs as [|i inputs IH]; intros index seen total out; cbn [recipientPathsLoop].
  - split; [intros [= <-] | intros (rs & -> & ->%Forall2_nil_inv_r & _); by rewrite app_nil_r].
    exists []. split_and!; [by rewrite app_nil_r | constructor | constructor | by intros ? ?%elem_of_nil | by left].
  - destruct (Recordable i false) as [p|] eqn:Ep.
    2: { split; [done | ]. intros (rs & _ & (q & rs' & E & _)%Forall2_cons_inv_r & _). congruence. }
    split.
    + case_bool_decide as Hs; cbn [negb require obind]; [done | ].
      destruct (Z.ltb_spec (rl_MaxEnvelopePathBytes L - len p) total); cbn [negb require obind]; [done | ].
      intros (rs & -> & Hrs & Hnd & Hin & Hl)%IH. exists (p :: rs). split_and!; [by rewrite <- app_assoc | by constructor | | | ].
      * constructor; [ | done]. intros Hp. specialize (Hin p Hp). set_solver.
      * intros q [-> | Hq]%elem_of_cons; [done | specialize (Hin q Hq); set_solver].
      * right. unfold total_len in *. cbn [concat]. rewrite len_app. destruct Hl as [-> | Hl]; [cbn; change (len (@nil byte)) with 0; lia | lia].
    + intros (rs & -> & (q & rs' & E & Hrs & ->)%Forall2_cons_inv_r & [Hni Hnd]%NoDup_cons & Hin & [? | Hl]); [done | ].
      assert (q = p) as -> by congruence. pose proof (Hin p (list_elem_of_here _ _)) as Hp.
      rewrite bool_decide_eq_false_2 by done. cbn [negb require obind].
      unfold total_len in Hl. cbn [concat] in Hl. rewrite len_app in Hl. pose proof (len_nonneg (concat rs')).
      rewrite (proj2 (Z.ltb_ge _ _)) by lia. cbn [negb require obind]. apply IH. exists rs'.
      split_and!; [by rewrite <- app_assoc | done | done | | right; unfold total_len; lia].
      intros q Hq. specialize (Hin q ltac:(by right)). assert (q <> p) by by intros ->. set_solver.
Qed.

(** ** The whole request *)
Definition envelope_canon (L : RenderLimits) (r c : TargetRequest) : Prop :=
  tr_NextDomain r <> [] /\ tr_MailFrom r = [] /\ tr_Recipients r = [] /\
    canonicalDNSName (tr_NextDomain r) = Some (tr_NextDomain c) /\ tr_MailFrom c = [] /\ tr_Recipients c = [] \/
  tr_NextDomain r = [] /\ tr_NextDomain c = [] /\ 1 <= len (tr_Recipients r) <= rl_MaxRecipients L /\
    Recordable (tr_MailFrom r) true = Some (tr_MailFrom c) /\
    Forall2 (fun r i => Recordable i false = Some r) (tr_Recipients c) (tr_Recipients r) /\ NoDup (tr_Recipients c) /\
    len (tr_MailFrom c) + total_len (tr_Recipients c) <= rl_MaxEnvelopePathBytes L.
Definition nonce_ok (L : RenderLimits) (r : TargetRequest) : Prop :=
  if tr_NoncePresent r then len (tr_Nonce r) <= rl_MaxNonceBytes L /\ ValidNonceSyntax (tr_Nonce r) = true
  else tr_Nonce r = [].
(** [c] is the canonical form of the request [r]. *)
Definition canonical_of (L : RenderLimits) (r c : TargetRequest) : Prop :=
  tr_Sequence r <> 0 /\ tr_InstanceNumber r <> 0 /\
  tr_Sequence c = tr_Sequence r /\ tr_InstanceNumber c = tr_InstanceNumber r /\ tr_Timestamp c = tr_Timestamp r /\
  canonicalDNSName (tr_Domain r) = Some (tr_Domain c) /\ envelope_canon L r c /\
  (exists ps, Forall2 plan_canon ps (tr_Sets r) /\ tr_Sets c ≡ₚ ps /\ ok_plans L (tr_Sets c)) /\
  nonce_ok L r /\ tr_Nonce c = tr_Nonce r /\ tr_NoncePresent c = tr_NoncePresent r /\
  Forall ok_flag (tr_Flags r) /\ NoDup (tr_Flags r) /\ tr_Flags c = slices_SortFunc compareGeneratedFlags (tr_Flags r).

Lemma canonicalizeEnvelope_Ret r L c :
  canonicalizeEnvelope registration r L = Ret c <->
  exists c0, envelope_canon L r c0 /\ c = with_envelope r (tr_MailFrom c0) (tr_Recipients c0) (tr_NextDomain c0).
Proof.
  unfold canonicalizeEnvelope, envelope_canon. cbv zeta. pose proof (len_nonneg (tr_Recipients r)).
  case_bool_decide as En; cbn [negb].
  - destruct (negb (len (tr_MailFrom r) =? 0) || negb (len (tr_Recipients r) =? 0)) eqn:Eo; cbn [Bool.eqb negb require obind].
    2: { split; [done | ]. intros (c0 & [(? & _) | (_ & _ & Hl & _)] & _); [done | ].
         apply orb_false_iff in Eo as [_ Eo%negb_false_iff%Z.eqb_eq]. lia. }
    split.
    + intros (? & Hl%require_ret_inv & H0)%obind_ret_inv. destruct (Recordable (tr_MailFrom r) true) as [mf|] eqn:Em; [ | done].
      apply obind_ret_inv in H0 as (rs & Hrs & [= <-]). apply recipientPathsLoop_Ret in Hrs as (rs' & -> & Hrs & Hnd & _ & Hb).
      exists (with_envelope r mf rs' []). split; [ | cbn; rewrite En; done]. right. cbn. split_and!; try done; [lia | lia | ].
      destruct Hb as [-> | Hb]; [ | done]. apply Forall2_length in Hrs. unfold len in *. cbn in Hrs. lia.
    + intros (c0 & [(? & _) | (_ & Ec & Hl & Em & Hrs & Hnd & Hb)] & ->); [done | ].
      rewrite (proj2 (Z.eqb_neq _ _)), (proj2 (Z.ltb_ge _ _)) by lia. cbn [orb negb require obind]. rewrite Em.
      rewrite (proj2 (recipientPathsLoop_Ret _ 0 L ∅ _ [] (tr_Recipients c0))).
      2: { exists (tr_Recipients c0). split_and!; try done; by right. }
      cbn [obind]. by rewrite En, Ec.
  - destruct (negb (len (tr_MailFrom r) =? 0) || negb (len (tr_Recipients r) =? 0)) eqn:Eo; cbn [Bool.eqb negb require obind].
    { split; [done | ]. intros (c0 & [(_ & Em & Er & _) | (? & _)] & _); [ | done]. by rewrite Em, Er in Eo. }
    apply orb_false_iff in Eo as [Em%negb_false_iff%Z.eqb_eq Er%negb_false_iff%Z.eqb_eq].
    assert (tr_MailFrom r = []) as Em' by (destruct (tr_MailFrom r) as [|b l]; [done | rewrite len_cons in Em; pose proof (len_nonneg l); lia]).
    assert (tr_Recipients r = []) as Er' by (destruct (tr_Recipients r) as [|b l]; [done | rewrite len_cons in Er; pose proof (len_nonneg l); lia]).
    split.
    + destruct (canonicalDNSName (tr_NextDomain r)) as [nx|] eqn:Ex; [ | done]. intros [= <-].
      exists (with_envelope r [] [] nx). split; [left; by split_and! | cbn; by rewrite Em', Er'].
    + intros (c0 & [(_ & _ & _ & -> & E1 & E2) | (? & _)] & ->); [ | done]. by rewrite E1, E2, Em', Er'.
Qed.

Lemma canonicalTargetRequest_Ret r L c :
  canonicalTargetRequest registration r L = Ret c <-> canonical_of L r c.
Proof.
  unfold canonicalTargetRequest, canonical_of. split.
  - intros (? & Hn%require_ret_inv%negb_true_iff & H)%obind_ret_inv.
    apply orb_false_iff in Hn as [H1%Z.eqb_neq H2%Z.eqb_neq].
    destruct (canonicalDNSName (tr_Domain r)) as [d|] eqn:Ed; [ | done].
    apply obind_ret_inv in H as (r1 & (c0 & Henv & ->)%canonicalizeEnvelope_Ret & H).
    apply obind_ret_inv in H as (sets & Hs%canonicalizeSetPlans_Ret & H).
    apply obind_ret_inv in H as (? & Hn & H).
    apply obind_ret_inv in H as (fs & (Hf & Hnd & ->)%canonicalizeGeneratedFlags_Ret & [= <-]).
    cbn [with_domain with_envelope with_sets with_flags tr_Sequence tr_InstanceNumber tr_Timestamp tr_MailFrom tr_Recipients
         tr_NextDomain tr_Domain tr_Sets tr_Nonce tr_NoncePresent tr_Flags] in *.
    split_and!; try done. unfold nonce_ok. destruct (tr_NoncePresent r); apply require_ret_inv in Hn.
    + apply negb_true_iff, orb_false_iff in Hn as [Hn%Z.ltb_ge Hv%negb_false_iff]. done.
    + apply Z.eqb_eq in Hn. destruct (tr_Nonce r) as [|b l]; [done | rewrite len_cons in Hn; pose proof (len_nonneg l); lia].
  - intros (H1 & H2 & E1 & E2 & E3 & -> & Henv & Hs & Hn & E4 & E5 & Hf & Hnd & E6).
    rewrite (proj2 (Z.eqb_neq _ _) H1), (proj2 (Z.eqb_neq _ _) H2). cbn [orb negb require obind].
    rewrite (proj2 (canonicalizeEnvelope_Ret _ L (with_envelope (with_domain r (tr_Domain c)) (tr_MailFrom c) (tr_Recipients c) (tr_NextDomain c)))).
    2: { exists c. by split. }
    cbn [obind with_domain with_envelope tr_Sets]. rewrite (proj2 (canonicalizeSetPlans_Ret L _ (tr_Sets c))) by done.
    cbn [obind with_domain with_envelope with_sets tr_NoncePresent tr_Nonce tr_Flags].
    assert ((if tr_NoncePresent r
             then require (negb ((rl_MaxNonceBytes L <? len (tr_Nonce r)) || negb (validGeneratedNonce (tr_Nonce r))))
                    (sigError ErrorCodeInvalidNonce SigTypes.noLoc (MkDetails "n" "" (rl_MaxNonceBytes L) (len (tr_Nonce r)) 0 0))
             else require (len (tr_Nonce r) =? 0) (sigError ErrorCodeInvalidNonce SigTypes.noLoc (tagDetails "n"))) = Ret tt) as ->.
    { unfold nonce_ok, validGeneratedNonce in *. destruct (tr_NoncePresent r); [ | by rewrite Hn].
      destruct Hn as [Hn ->]. by rewrite (proj2 (Z.ltb_ge _ _)). }
    cbn [obind]. rewrite (proj2 (canonicalizeGeneratedFlags_Ret _ (tr_Flags c))) by done. cbn [obind]. f_equal.
    destruct c. cbn in *. by subst.
Qed.

(** ** Canonical requests are their own canonical forms *)
Definition recorded (p : bytes) (allowNull : bool) : Prop := exists path, Recordable path allowNull = Some p.
Definition frozen_envelope (L : RenderLimits) (c : TargetRequest) : Prop :=
  is_domain (tr_NextDomain c) /\ tr_NextDomain c <> [] /\ tr_MailFrom c = [] /\ tr_Recipients c = [] \/
  tr_NextDomain c = [] /\ 1 <= len (tr_Recipients c) <= rl_MaxRecipients L /\
    recorded (tr_MailFrom c) true /\ Forall (fun p => recorded p false) (tr_Recipients c) /\ NoDup (tr_Recipients c) /\
    len (tr_MailFrom c) + total_len (tr_Recipients c) <= rl_MaxEnvelopePathBytes L.
Definition frozen (L : RenderLimits) (c : TargetRequest) : Prop :=
  tr_Sequence c <> 0 /\ tr_InstanceNumber c <> 0 /\ is_domain (tr_Domain c) /\ frozen_envelope L c /\
  ok_plans L (tr_Sets c) /\ nonce_ok L c /\ Forall ok_flag (tr_Flags c) /\ NoDup (tr_Flags c) /\ flags_sorted (tr_Flags c).

Lemma is_domain_nonempty d : is_domain d -> d <> [].
Proof. intros [_ H] ->. apply Forall_cons in H as [(_ & H & _) _]. cbn in H. change (len (@nil byte)) with 0 in H. lia. Qed.
Lemma canonical_of_frozen L r c : canonical_of L r c -> frozen L c.
Proof.
  intros (H1 & H2 & E1 & E2 & E3 & Hd%canonicalDNSName_is_domain & Henv & (_ & _ & _ & Hs) & Hn & E4 & E5 & Hf & Hnd & E6).
  unfold frozen. rewrite E1, E2, E6. split_and!; try done.
  - destruct Henv as [(_ & _ & _ & Hnx%canonicalDNSName_is_domain & ? & ?) | (_ & ? & Hl & Hm & Hrs & ? & ?)].
    + left. split_and!; try done. by apply is_domain_nonempty.
    + right. split_and!; try done; [unfold len in *; rewrite (Forall2_length _ _ _ Hrs); lia..
                                  | by exists (tr_MailFrom r) | ].
      clear -Hrs. induction Hrs as [|p i ps is_ Hp _ IH]; constructor; [by exists i | done].
  - unfold nonce_ok in *. by rewrite E4, E5.
  - unfold slices_SortFunc. by rewrite slice_stable_perm.
  - unfold slices_SortFunc. by rewrite slice_stable_perm.
  - apply sort_flags_sorted.
Qed.

Hypothesis registration_fixed : forall d a, registration d = Some a -> registration a = Some a.
Lemma recorded_fixed p allowNull : recorded p allowNull -> Recordable p allowNull = Some p.
Proof using registration_fixed. intros [path H]. eapply recordable_fixed; done. Qed.
Lemma frozen_canonical L c : frozen L c -> canonicalTargetRequest registration c L = Ret c.
Proof using registration_fixed.
  intros (H1 & H2 & Hd & Henv & Hs & Hn & Hf & Hnd & Hso). apply canonicalTargetRequest_Ret. unfold canonical_of.
  split_and!; try done.
  - by apply canonicalDNSName_domain.
  - destruct Henv as [(? & ? & ? & ?) | (? & ? & Hm & Hr & ? & ?)]; [left | right].
    + split_and!; try done. by apply canonicalDNSName_domain.
    + split_and!; try done; try lia; [by apply recorded_fixed | ].
      clear -Hr registration_fixed. induction Hr; constructor; [by apply recorded_fixed | done].
  - exists (tr_Sets c). split_and!; [ | done | done]. destruct Hs as (_ & Hps & _). clear -Hps.
    induction Hps; constructor; [by apply ok_plan_canon | done].
  - symmetry. by apply sort_flags_id.
Qed.
End idna.
