(* ===== verification/SigUnsigned.v ===== *)
(** * Unsigned targets

    The field of a canonical request is, when it fits, a message of one header
    field whose tag list is the request; the check against the shared renderer
    never fails on it, so that NewUnsignedTarget succeeds exactly on acceptable
    requests whose field fits, and what it returns is valid. *)

From stdpp Require Import gmap.
From S2P Require Import Prelude GoBytes GoBase64 GoStrconv RawMsg RawBody RawParser RawSpec TagTypes TagScan TagBase64 Combine TagSpec Emitter FieldScript DomainName SigAlgorithm.
From S2P Require Import SigTypes SigEnvelope SigEnvelopeSpec SigParser SigSpec SigCollection SigCustody SigRender SigRenderSpec SigTarget.
#[local] Open Scope Z_scope.

(** ** The characters of the values *)
Definition clean_byte (b : byte) : bool := plain_byte b && negb (b =?b x3b).
Definition clean (s : bytes) : Prop := Forall (fun b => clean_byte b = true) s.
Definition clean_items (items : list item) : Prop := Forall (fun i => clean (item_text i)) items.
Definition good_value (v : list item) : Prop := folded v /\ clean_items v.

Lemma clean_spec s : clean s <-> plain s /\ x3b ∉ s.
Proof.
  unfold clean, plain, clean_byte. induction s as [|b s IH].
  - split; [intros _; split; [constructor | by intros ?%elem_of_nil] | constructor].
  - rewrite !Forall_cons, IH, not_elem_of_cons, andb_true_iff, negb_true_iff, byte_eqb_ne. naive_solver.
Qed.
Lemma clean_items_text items : clean_items items -> clean (script_text items).
Proof. unfold script_text, clean. intros H. apply Forall_concat. by apply Forall_map. Qed.
Lemma clean_items_plain items : clean_items items -> plain_items items.
Proof. intros H. eapply Forall_impl; [exact H | ]. intros i Hi. by apply clean_spec in Hi as [? _]. Qed.
Lemma good_app a b : good_value a -> good_value b -> good_value (a ++ b).
Proof. intros [? ?] [? ?]. split; [by apply folded_app | by apply Forall_app]. Qed.
Lemma good_txt s v : clean s -> good_value v -> good_value (Txt s :: v).
Proof. intros ? [? ?]. split; [by constructor | by constructor]. Qed.
Lemma good_nil : good_value [].
Proof. split; constructor. Qed.
Lemma good_fold s v : clean s -> good_value v -> good_value (Brk :: Txt (x09 :: s) :: v).
Proof. intros ? [? ?]. split; [by constructor | ]. repeat constructor; done. Qed.

Lemma clean_encode d : clean (std_encode d).
Proof.
  eapply Forall_impl; [apply encode_chars | ]. intros b Hb. cbn beta in Hb. unfold clean_byte.
  rewrite (dark_plain b Hb). apply negb_true_iff, byte_eqb_ne. by intros ->.
Qed.
Lemma clean_concat cs : clean (concat cs) -> Forall clean cs.
Proof.
  induction cs as [|c cs IH]; [constructor | ]. cbn [concat]. intros [? ?]%Forall_app. constructor; [done | auto].
Qed.
Lemma good_fold_items cs : Forall clean cs -> good_value (fold_items cs).
Proof.
  unfold fold_items. induction 1 as [|c cs Hc _ IH]; [apply good_nil | ]. cbn [map concat app].
  apply (good_fold []); [constructor | ]. by apply good_txt.
Qed.
Lemma good_b64 d : good_value (b64_items d).
Proof.
  unfold b64_items. destruct (std_encode d) as [|b s] eqn:E; [apply good_nil | ].
  destruct (chunk64_spec (b :: s)) as [_ Hc]; [done | ]. pose proof (clean_encode d) as Hd. rewrite E, <- Hc in Hd.
  apply clean_concat in Hd. destruct (chunk64 (b :: s)) as [|c cs]; [apply good_nil | ]. apply Forall_cons in Hd as [? ?].
  apply good_txt; [done | by apply good_fold_items].
Qed.
Lemma good_b64_cont d : good_value (b64_cont_items d).
Proof.
  unfold b64_cont_items. pose proof (clean_encode d) as Hd. destruct (std_encode d) as [|b s]; [apply good_nil | ].
  apply Forall_cons in Hd as [Hb Hs]. apply good_txt; [by constructor | ]. apply good_fold_items.
  destruct s as [|b' s]; [constructor | ]. destruct (chunk64_spec (b' :: s)) as [_ Hc]; [done | ]. rewrite <- Hc in Hs. by apply clean_concat.
Qed.

Lemma clean_chars (P : byte -> bool) s :
  Forall (fun b => P b = true) s -> forallb (fun b => implb (P b) (clean_byte b)) (map byte_of (seqZ 0 256)) = true -> clean s.
Proof. intros Hs HP. eapply Forall_impl; [exact Hs | ]. intros b. by apply byte_implb. Qed.
Lemma clean_domain d : is_domain d -> clean d.
Proof.
  intros [_ H]. apply (clean_chars (fun b => isASCIILetterOrDigit b || (b =?b x2d) || (b =?b x2e))); [ | by vm_compute].
  eapply (split_byte_chars _ x2e); [ | done]. eapply Forall_impl; [exact H | ].
  intros l (Hl & _). eapply Forall_impl; [exact Hl | ]. cbn. apply byte_implb. by vm_compute.
Qed.
Lemma clean_textstring s : ParseTextstring s = Some s -> clean s.
Proof. intros (_ & _ & H)%ParseTextstring_Some. by apply (clean_chars textstring_byte); [ | vm_compute]. Qed.
Lemma clean_number n : 0 <= n <= MaxUint64 -> clean (format_uint n).
Proof.
  unfold MaxUint64. intros Hn. destruct (format_uint_spec n ltac:(lia)) as (Hd & _). apply (clean_chars is_digit); [ | by vm_compute].
  apply list.Forall_forall. intros b Hb%list_elem_of_In. by apply (proj1 (forallb_forall _ _) Hd).
Qed.
Lemma clean_nonce s : ValidNonceSyntax s = true -> clean s.
Proof.
  intros H. apply (clean_chars (fun b => negb ((bval b <? 32) || (126 <? bval b) || (b =?b x3b)))); [ | by vm_compute].
  apply list.Forall_forall. intros b Hb%list_elem_of_In. by apply (proj1 (forallb_forall _ _) H).
Qed.

(** ** The tags of a canonical request *)
Definition u64 (n : Z) : Prop := 0 <= n <= MaxUint64.
Definition wide (r : TargetRequest) : Prop := u64 (tr_Sequence r) /\ u64 (tr_InstanceNumber r) /\ u64 (tr_Timestamp r).

Lemma good_recipients rs i : good_value (recipient_items rs i).
Proof.
  revert i. induction rs as [|r rs IH]; intros i; cbn [recipient_items]; [apply good_nil | ]. apply good_app; [ | done].
  destruct (0 <? i); [ | apply good_b64]. apply good_txt; [by repeat constructor | apply good_b64_cont].
Qed.
Lemma good_plan plan separator :
  ok_plan plan -> separator = x00 \/ separator = AllSeparator \/ separator = AnySeparator ->
  good_value (plan_items plan separator).
Proof.
  intros [Hs Ha] Hsep. unfold plan_items. apply good_app.
  - destruct Hsep as [-> | [-> | ->]]; cbn; [apply good_nil | | ];
      (apply good_txt; [by repeat constructor | apply (good_fold []); [constructor | apply good_nil]]).
  - repeat apply good_txt; [by apply clean_domain | by repeat constructor | by apply clean_textstring | by repeat constructor | apply good_nil].
Qed.
Lemma good_sets plans layout sigs i : Forall ok_plan plans -> good_value (set_items plans i layout sigs).
Proof.
  intros H. revert i. induction H as [|plan plans Hp _ IH]; intros i; [apply good_nil | ]. rewrite set_items_cons.
  apply good_app; [apply good_plan; [done | apply separator_cases] | ]. apply good_app; [ | done].
  unfold signature_items. destruct sigs as [ds|]; [ | apply good_nil]. destruct (ds !! _); [apply good_b64 | apply good_nil].
Qed.
Lemma good_flags fs i : Forall ok_flag fs -> good_value (flag_items fs i).
Proof.
  intros H. revert i. induction H as [|f fs [Hf _] _ IH]; intros i; cbn [flag_items]; [apply good_nil | ].
  destruct (0 <? i); cbn [app].
  - apply good_txt; [by repeat constructor | ]. apply good_txt; [by apply clean_textstring | done].
  - apply good_txt; [by apply clean_textstring | done].
Qed.

Definition listed (t : bytes * list item) : Prop := known_name knownSignatureTags t.1 = true /\ plain t.1 /\ good_value t.2.
Ltac name_ok := split; [by vm_compute | split; [by apply plain_literal | ]].

Section target.
Context (registration : bytes -> option bytes) (L : RenderLimits) (c : TargetRequest).
Hypothesis Hfrozen : frozen registration L c.
Hypothesis Hwide : wide c.

Lemma target_listed layout sigs : Forall listed ((bs "i", sequence_items c) :: target_tags c layout sigs).
Proof using Hfrozen Hwide.
  destruct Hfrozen as (_ & _ & Hd & Henv & (_ & Hp & _) & Hn & Hf & _). destruct Hwide as (H1 & H2 & H3).
  assert (forall s, clean s -> good_value [Txt s]) as Hone by (intros s Hs; apply good_txt; [done | apply good_nil]).
  unfold target_tags, sequence_items. constructor; [name_ok; by apply Hone, clean_number | ]. rewrite !Forall_app, !Forall_cons, !Forall_nil.
  split_and!; try done.
  - name_ok. by apply Hone, clean_number.
  - name_ok. by apply Hone, clean_number.
  - unfold envelope_tags_of. destruct Henv as [(Hx & Hne & _) | (-> & _)].
    + rewrite bool_decide_eq_false_2 by done. cbn [negb]. constructor; [ | constructor]. name_ok. by apply Hone, clean_domain.
    + cbn. constructor; [name_ok; apply good_b64 | ]. constructor; [name_ok; apply good_recipients | constructor].
  - name_ok. by apply Hone, clean_domain.
  - name_ok. by apply good_sets.
  - unfold nonce_ok in Hn. destruct (tr_NoncePresent c); [ | constructor]. constructor; [ | constructor]. name_ok.
    apply Hone, clean_nonce. by destruct Hn.
  - destruct (0 <? _); [ | constructor]. constructor; [ | constructor]. name_ok. by apply good_flags.
Qed.
Lemma target_names_ok layout sigs :
  NoDup (map fst ((bs "i", sequence_items c) :: target_tags c layout sigs)) /\
  len ((bs "i", sequence_items c) :: target_tags c layout sigs) <= 64.
Proof using.
  unfold target_tags, envelope_tags_of. destruct (negb _), (tr_NoncePresent c), (0 <? len (tr_Flags c));
    (split; [apply (bool_decide_unpack _); by vm_compute | by vm_compute]).
Qed.

(** ** The field of a canonical request *)
Section field.
Context (layout : Layout) (sigs : option (list bytes)).
Let script := target_script c layout sigs.
Let all := (bs "i", sequence_items c) :: target_tags c layout sigs.
Hypothesis Hfield : 0 <= MaxFieldBytes L <= 65536.
Hypothesis Hline : 0 <= MaxLineBytes L <= 998.
Hypothesis Hfits : script_fits (MaxFieldBytes L) (MaxLineBytes L) 0 0 script = true.
Definition target_value : bytes := header_value (bs "i") (sequence_items c) (target_tags c layout sigs).

Lemma script_suffix : has_suffix (script_bytes script) crlf = true.
Proof using.
  apply has_suffix_spec. unfold script, target_script, header_script, script_bytes.
  change (?x :: ?y ++ ?z ++ ?w) with ((x :: y) ++ z ++ w). rewrite !map_app, !concat_app. eexists.
  cbn [map concat item_bytes app]. rewrite app_nil_r. repeat rewrite app_assoc. 
  change (x3b :: crlf) with ([x3b] ++ crlf). rewrite app_assoc. done.
Qed.
Lemma target_field :
  exists field, parseRenderedSignatureField (script_bytes script) = Ret field /\
    unfoldedValue field = target_value /\ nameLower field = SigTypes.HeaderName /\ hf_index field = 0 /\
    Forall (fun b => b <> CR /\ b <> LF) target_value /\ len target_value <= 65536.
Proof using All.
  assert (Forall good_tag all) as Hgood.
  { pose proof (target_listed layout sigs) as H. eapply Forall_impl; [exact H | ].
    intros t (_ & Hp & Hf & Hc). split_and!; [done | done | by apply clean_items_plain]. }
  destruct (header_message field_name _ _ _ eq_refl Hgood _ _ Hfield Hline Hfits) as (first & conts & HP & _ & E & Hb & Hl).
  unfold parseRenderedSignatureField. rewrite script_suffix. cbn [require obind]. unfold script, target_script. rewrite HP.
  cbn [map_fail obind]. rewrite field_message_framing, bool_decide_eq_true_2 by done.
  eexists. split; [reflexivity | ]. cbn. rewrite E. by split_and!.
Qed.
(** With an empty line after it, the field is a message of the same field. *)
Lemma target_delimited field :
  parseRenderedSignatureField (script_bytes script) = Ret field ->
  exists M, RawParser.Parse (script_bytes script ++ crlf) = Ret M /\ hb_fields (headers M) = [field] /\
    HeaderBlock_FieldsByName (headers M) SigTypes.HeaderName = [field].
Proof using All.
  assert (Forall good_tag all) as Hgood.
  { pose proof (target_listed layout sigs) as H. eapply Forall_impl; [exact H | ].
    intros t (_ & Hp & Hf & Hc). split_and!; [done | done | by apply clean_items_plain]. }
  destruct (header_message field_name _ _ _ eq_refl Hgood _ _ Hfield Hline Hfits) as (first & conts & HP & HD & _).
  unfold parseRenderedSignatureField. rewrite script_suffix. cbn [require obind]. unfold script, target_script. rewrite HP.
  cbn [map_fail obind]. rewrite field_message_framing, bool_decide_eq_true_2 by done. intros [= <-].
  eexists. split; [exact HD | ]. by split.
Qed.
Lemma target_scan :
  ScanHeader target_value knownSignatureTags TagTypes.DefaultLimits = Ret (field_of (map as_tag all)) /\
  NoDup (tag_name <$> map as_tag all).
Proof using All.
  destruct target_field as (_ & _ & _ & _ & _ & Hb & Hl).
  assert (NoDup (tag_name <$> map as_tag all)) as Hnd.
  { assert (tag_name <$> map as_tag all = map fst all) as -> by apply map_map. apply target_names_ok. }
  split; [ | done]. apply scan_iff. split_and!; [done | done | ]. exists target_value. split; [done | ].
  apply header_tag_list; [ | apply target_names_ok | apply target_names_ok | done].
  pose proof (target_listed layout sigs) as H. eapply Forall_impl; [exact H | ].
  intros t (Hk & _ & _ & Hc). split; [done | ]. by apply clean_items_text, clean_spec in Hc as [_ ?].
Qed.
End field.
End target.

(** ** Limits *)
Lemma limitsLoop_Ret cs : limitsLoop cs = Ret tt <-> Forall (fun '(_, value, hard) => 0 < value <= hard) cs.
Proof.
  induction cs as [|[[n v] h] cs IH]; cbn [limitsLoop]; [by split | ]. rewrite Forall_cons, <- IH.
  destruct (Z.leb_spec v 0), (Z.ltb_spec h v); cbn [orb negb require obind]; (split; [ | intros [? ?]]); try done; try lia.
Qed.
Lemma RenderLimits_Validate_Ret L :
  RenderLimits_Validate L = Ret tt <->
  0 < MaxFieldBytes L <= 65536 /\ 0 < MaxLineBytes L <= 998 /\ 0 < rl_MaxRecipients L <= 128 /\
  0 < rl_MaxSignatureSets L <= maxGeneratedSets /\ 0 < rl_MaxEnvelopePathBytes L <= 32768 /\
  0 < rl_MaxNonceBytes L <= 64 /\ 0 < MaxSignatureBytes L <= maxSignatureBytes.
Proof.
  unfold RenderLimits_Validate. rewrite limitsLoop_Ret, !Forall_cons, Forall_nil. cbn [DefaultRenderLimits MaxFieldBytes MaxLineBytes rl_MaxRecipients
    rl_MaxSignatureSets rl_MaxEnvelopePathBytes rl_MaxNonceBytes MaxSignatureBytes].
  change maxRenderedFieldBytes with 65536. change maxEnvelopePathBytes with 32768. change maxRenderedLineBytes with 998.
  change maxGeneratedRecipients with 128. change maxGeneratedNonceBytes with 64. tauto.
Qed.
Lemma normalized_valid l L : RenderLimits_normalized l = Ret L -> RenderLimits_Validate L = Ret tt.
Proof. unfold RenderLimits_normalized. by intros ([] & H & [= <-])%obind_ret_inv. Qed.
Lemma valid_normalized L : RenderLimits_Validate L = Ret tt -> RenderLimits_normalized L = Ret L.
Proof.
  intros H. pose proof H as H'. apply RenderLimits_Validate_Ret in H' as (H1 & H2 & H3 & H4 & H5 & H6 & H7).
  unfold RenderLimits_normalized, default_if_zero. rewrite !(proj2 (Z.eqb_neq _ _)) by lia. destruct L. cbn in *. by rewrite H.
Qed.
Lemma normalized_limits_safe l : no_crash (RenderLimits_normalized l).
Proof.
  unfold RenderLimits_normalized, RenderLimits_Validate. apply obind_no_crash; [ | done].
  generalize (DefaultRenderLimits). intros hard. cbn [limitsLoop]. crash_free.
Qed.

(** ** Targets *)
Section targets.
Context (registration : bytes -> option bytes).
#[local] Abbreviation Frozen := (frozen registration).

Lemma recorded_encodable p allowNull : recorded registration p allowNull -> encodable p.
Proof.
  intros (path & [(_ & _ & ->) | (route & local & dom & d & _ & _ & _ & -> & Hl)]%Recordable_Some); [done | ].
  split; [done | ]. change MaxEnvelopePathBytes with 256 in Hl. lia.
Qed.
Lemma frozen_ok_target L c : Frozen L c -> ok_target c.
Proof.
  intros (_ & _ & _ & [(_ & Hne & _) | (_ & _ & Hm & Hr & _)] & _) Hnd; [done | ]. split; [by eapply recorded_encodable | ].
  eapply Forall_impl; [exact Hr | ]. intros p. apply recorded_encodable.
Qed.
Lemma frozen_dark L c :
  Frozen L c -> Forall (fun p => SigRenderSpec.dark (plan_Selector p) /\ SigRenderSpec.dark (plan_Algorithm p)) (tr_Sets c).
Proof.
  intros (_ & _ & _ & _ & (_ & H & _) & _). eapply Forall_impl; [exact H | ]. intros p [Hs Ha]. split.
  - split; [by apply is_domain_nonempty | ]. apply canonicalDNSName_domain in Hs.
    apply canonicalDNSName_is_domain in Hs. destruct Hs as [_ Hl].
    eapply (split_byte_chars _ x2e); [ | done]. eapply Forall_impl; [exact Hl | ]. intros l (Hb & _). eapply Forall_impl; [exact Hb | ].
    intros b E. apply negb_true_iff. revert b E. apply byte_implb. by vm_compute.
  - apply ParseTextstring_Some in Ha as (_ & Hne & Hb). split; [done | ].
    eapply Forall_impl; [exact Hb | ]. intros b E. by apply textstring_byte_facts in E as [? _].
Qed.
Lemma frozen_layout L c : Frozen L c -> exists layout, generatedSetLayout (tr_Sets c) = Some layout.
Proof. by intros (_ & _ & _ & _ & (_ & _ & _ & _ & Hl) & _). Qed.

Definition unsigned_script (c : TargetRequest) (layout : Layout) : list item := target_script c layout None.
Definition fits_limits (L : RenderLimits) (script : list item) : bool :=
  script_fits (MaxFieldBytes L) (MaxLineBytes L) 0 0 script.

Lemma shared_renderer_matches L c layout :
  RenderLimits_Validate L = Ret tt -> Frozen L c -> wide c -> generatedSetLayout (tr_Sets c) = Some layout ->
  fits_limits L (unsigned_script c layout) = true ->
  unsignedFieldMatchesSharedRenderer (script_bytes (unsigned_script c layout)) (tr_Sets c) = true.
Proof.
  intros (HF & HL & _)%RenderLimits_Validate_Ret Hfr Hw Hlay Hfit. unfold unsignedFieldMatchesSharedRenderer.
  rewrite (unsignedSetList_text _ layout) by (done || by eapply frozen_dark).
  destruct (target_field registration L c Hfr Hw layout None) as (field & Hf & Hu & _ & _ & _ & _); [lia | lia | done | ].
  fold (unsigned_script c layout) in Hf. rewrite Hf, Hu.
  destruct (target_scan registration L c Hfr Hw layout None) as [Hs Hnd]; [lia | lia | done | ]. rewrite Hs.
  rewrite (proj2 (get_tag_Ret TagFailure _ (bs "s") (Some (as_tag (bs "s", set_items (tr_Sets c) 0 layout None))) Hnd)).
  - apply bytes_equal_eq. unfold as_tag. cbn [tag_value snd]. set (text := script_text _).
    destruct (trim_bytes_split TagTypes.isWSP text) as (w1 & w2 & E & _ & H1 & H2).
    rewrite E at 2. rewrite !dark_app.
    assert (forall w, Forall (fun b => TagTypes.isWSP b = true) w -> signatureValueWithoutWSP w = []) as Hw'.
    { clear. unfold signatureValueWithoutWSP. induction 1 as [|b w Hb _ IH]; [done | ]. cbn. change (isWSP b) with (TagTypes.isWSP b). by rewrite Hb. }
    rewrite (Hw' w1), (Hw' w2) by done. cbn [app]. by rewrite app_nil_r.
  - split; [ | done]. unfold target_tags. cbn [map]. right. rewrite !map_app. apply elem_of_app. right. apply elem_of_app. right.
    apply elem_of_app. left. cbn [map]. right. by left.
Qed.

Definition unsigned_target (L : RenderLimits) (c : TargetRequest) (layout : Layout) : UnsignedTarget :=
  MkUnsigned c L (script_bytes (unsigned_script c layout)).
Lemma wide_canonical L r c : canonical_of registration L r c -> wide r -> wide c.
Proof. unfold wide. by intros (_ & _ & -> & -> & -> & _). Qed.
Lemma NewUnsignedTarget_Ret r l t :
  wide r ->
  NewUnsignedTarget registration r l = Ret t <->
  exists L c layout, RenderLimits_normalized l = Ret L /\ canonicalTargetRequest registration r L = Ret c /\
    generatedSetLayout (tr_Sets c) = Some layout /\ fits_limits L (unsigned_script c layout) = true /\
    t = unsigned_target L c layout.
Proof.
  intros Hw. unfold NewUnsignedTarget.
  assert (forall L c layout, RenderLimits_normalized l = Ret L -> canonicalTargetRequest registration r L = Ret c ->
            generatedSetLayout (tr_Sets c) = Some layout ->
            if fits_limits L (unsigned_script c layout)
            then preflightTarget c None L = Ret (len (script_bytes (unsigned_script c layout))) /\
                 renderTarget c None L (len (script_bytes (unsigned_script c layout))) = Ret (script_bytes (unsigned_script c layout)) /\
                 unsignedFieldMatchesSharedRenderer (script_bytes (unsigned_script c layout)) (tr_Sets c) = true
            else exists f, preflightTarget c None L = Fail f) as H.
  { intros L c layout HL%normalized_valid Hc%canonicalTargetRequest_Ret Hlay.
    pose proof (canonical_of_frozen _ _ _ _ Hc) as Hfr. pose proof (wide_canonical _ _ _ Hc Hw) as Hwc.
    pose proof (preflightTarget_cases c layout None None L (frozen_ok_target _ _ Hfr) Hlay ltac:(done) I) as Hp.
    pose proof (renderTarget_fits c layout None None L (frozen_ok_target _ _ Hfr) Hlay ltac:(done) I) as Hr.
    pose proof (shared_renderer_matches L c layout HL Hfr Hwc Hlay) as Hm.
    unfold fits_limits, unsigned_script in *. destruct (script_fits _ _ _ _ _); [ | done]. split_and!; [done | by apply Hr | by apply Hm]. }
  split.
  - intros (L & HL & (c & Hc & H0)%obind_ret_inv)%obind_ret_inv. pose proof Hc as Hc'. apply canonicalTargetRequest_Ret, canonical_of_frozen in Hc'.
    destruct (frozen_layout _ _ Hc') as [layout Hlay]. specialize (H L c layout HL Hc Hlay). exists L, c, layout.
    destruct (fits_limits _ _) eqn:Ef; [ | destruct H as [f Hf]; by rewrite Hf in H0]. destruct H as (Hp & Hr & Hm).
    rewrite Hp in H0. cbn [obind] in H0. rewrite Hr in H0. cbn [obind] in H0. rewrite Hm in H0. by injection H0 as <-.
  - intros (L & c & layout & HL & Hc & Hlay & Hf & ->). specialize (H L c layout HL Hc Hlay). rewrite Hf in H. destruct H as (Hp & Hr & Hm).
    rewrite HL. cbn [obind]. rewrite Hc. cbn [obind]. rewrite Hp. cbn [obind]. rewrite Hr. cbn [obind]. by rewrite Hm.
Qed.

Lemma canonicalTargetRequest_safe r L : no_crash (canonicalTargetRequest registration r L).
Proof.
  assert (forall inputs i seen total out, no_crash (recipientPathsLoop registration inputs i L seen total out)) as H1.
  { induction inputs as [|x inputs IH]; intros; cbn [recipientPathsLoop]; crash_free. }
  assert (forall plans i u out, no_crash (setPlansLoop plans i u out)) as H2.
  { induction plans as [|x plans IH]; intros; cbn [setPlansLoop]; crash_free. }
  assert (forall fs i u out, no_crash (generatedFlagsLoop fs i u out)) as H3.
  { induction fs as [|x fs IH]; intros; cbn [generatedFlagsLoop]; crash_free. }
  unfold canonicalTargetRequest, canonicalizeEnvelope, canonicalizeSetPlans, canonicalizeGeneratedFlags. crash_free.
Qed.
Lemma NewUnsignedTarget_safe r l : wide r -> no_crash (NewUnsignedTarget registration r l).
Proof.
  intros Hw. unfold NewUnsignedTarget. apply obind_no_crash; [apply normalized_limits_safe | intros L HL].
  apply obind_no_crash; [apply canonicalTargetRequest_safe | intros c Hc%canonicalTargetRequest_Ret].
  pose proof (canonical_of_frozen _ _ _ _ Hc) as Hfr. destruct (frozen_layout _ _ Hfr) as [layout Hlay].
  pose proof (preflightTarget_cases c layout None None L (frozen_ok_target _ _ Hfr) Hlay ltac:(done) I) as Hp.
  pose proof (renderTarget_fits c layout None None L (frozen_ok_target _ _ Hfr) Hlay ltac:(done) I) as Hr.
  destruct (script_fits _ _ _ _ _); [ | by destruct Hp as [f ->]]. rewrite Hp. cbn [obind]. rewrite Hr by done. cbn [obind]. crash_free.
Qed.

(** C29: NewUnsignedTarget never panics and succeeds exactly when the render
    limits are valid, the request has a canonical form (nonzero sequence and
    instance, a domain name, either a next domain or recordable paths that are
    distinct and within the limits, set plans with distinct selectors and known
    groups, a printable nonce, known flags that differ), and the field of that
    form keeps to the limits of its length and of each of its lines; the target
    is then the canonical request and that field.  The check against the shared
    renderer of s= never rejects one. *)
Theorem NewUnsignedTarget_exact r l :
  wide r ->
  NewUnsignedTarget registration r l <> Crash /\
  forall t, NewUnsignedTarget registration r l = Ret t <->
    RenderLimits_normalized l = Ret (ut_limits t) /\ canonical_of registration (ut_limits t) r (ut_request t) /\
    exists layout, generatedSetLayout (tr_Sets (ut_request t)) = Some layout /\
      let script := target_script (ut_request t) layout None in
      ut_unsigned t = script_bytes script /\ len (script_bytes script) <= MaxFieldBytes (ut_limits t) /\
      lines_fit (MaxLineBytes (ut_limits t)) (script_lines [] script).
Proof.
  intros Hw. split; [by apply NewUnsignedTarget_safe | ]. intros t. rewrite NewUnsignedTarget_Ret by done.
  assert (forall L script, RenderLimits_normalized l = Ret L -> fits_limits L script = true <->
            len (script_bytes script) <= MaxFieldBytes L /\ lines_fit (MaxLineBytes L) (script_lines [] script)) as Hfit.
  { intros L script HL. apply normalized_valid, RenderLimits_Validate_Ret in HL. unfold fits_limits.
    pose proof (script_fits_iff (MaxFieldBytes L) (MaxLineBytes L) 0 [] script) as H. change (len (@nil byte)) with 0 in H.
    rewrite H by lia. by rewrite Z.add_0_l. }
  split.
  - intros (L & c & layout & HL & Hc%canonicalTargetRequest_Ret & Hlay & Hf & ->).
    apply (Hfit L _ HL) in Hf as [Hf1 Hf2]. split_and!; [done | done | ]. exists layout. by split_and!.
  - intros (HL & Hc & layout & Hlay & Hu & Hf). exists (ut_limits t), (ut_request t), layout.
    split_and!; [done | by apply canonicalTargetRequest_Ret | done | by apply Hfit | ]. destruct t. cbn in *. by rewrite Hu.
Qed.

Hypothesis registration_fixed : forall d a, registration d = Some a -> registration a = Some a.
Lemma unsigned_target_stable L c layout :
  RenderLimits_Validate L = Ret tt -> Frozen L c -> wide c -> generatedSetLayout (tr_Sets c) = Some layout ->
  fits_limits L (unsigned_script c layout) = true ->
  NewUnsignedTarget registration c L = Ret (unsigned_target L c layout) /\
  UnsignedTarget_Valid registration (unsigned_target L c layout) = true.
Proof using registration_fixed.
  intros HL Hfr Hw Hlay Hfit.
  assert (NewUnsignedTarget registration c L = Ret (unsigned_target L c layout)) as HN.
  { apply NewUnsignedTarget_Ret; [done | ]. exists L, c, layout. split_and!; try done; [by apply valid_normalized | by apply frozen_canonical]. }
  split; [done | ]. unfold UnsignedTarget_Valid. cbn [ut_unsigned ut_limits ut_request unsigned_target]. rewrite HL, HN. cbn [is_ret negb].
  destruct (target_field registration L c Hfr Hw layout None) as (field & Hf & _); [apply RenderLimits_Validate_Ret in HL; lia.. | done | ].
  fold (unsigned_script c layout) in Hf. destruct (Z.eqb_spec (len (script_bytes (unsigned_script c layout))) 0) as [E | _].
  - destruct (script_bytes (unsigned_script c layout)) as [|b s]; [done | rewrite len_cons in E; pose proof (len_nonneg s); lia].
  - cbn [orb ut_unsigned unsigned_target]. by apply bytes_equal_eq.
Qed.

(** What NewUnsignedTarget returns is valid: rebuilding it from its own
    request and limits gives the same target, provided that the IDNA library maps
    its own results to themselves. *)
Theorem NewUnsignedTarget_valid r l t :
  wide r -> NewUnsignedTarget registration r l = Ret t ->
  UnsignedTarget_Valid registration t = true /\ NewUnsignedTarget registration (ut_request t) (ut_limits t) = Ret t.
Proof using registration_fixed.
  intros Hw (L & c & layout & HL & Hc & Hlay & Hf & ->)%NewUnsignedTarget_Ret; [ | done].
  apply canonicalTargetRequest_Ret in Hc. apply and_comm. apply unsigned_target_stable; try done;
    [by eapply normalized_valid | by eapply canonical_of_frozen | by eapply wide_canonical].
Qed.
End targets.

(** ** Witnesses *)
Definition sample_plans : list SetPlan :=
  [MkPlan (bs "Sel.A") AlgorithmMLDSA44; MkPlan (bs "sel.b") AlgorithmRSASHA256; MkPlan (bs "sel.a1") AlgorithmEd25519SHA256].
Definition sample_target : TargetRequest :=
  MkTarget 2 1 1700000000 (bs "<>") [sample_path; bs "<bob@example.net>"] [] (bs "Example.ORG") sample_plans
    (bs "abc 123") true [FlagExploded; FlagFeedback].
Definition sample_limits : RenderLimits := MkRenderLimits 0 120 0 0 0 0 0.
Definition sample_unsigned : UnsignedTarget :=
  match NewUnsignedTarget sample_idna sample_target sample_limits with Ret t => t | _ => MkUnsigned sample_target sample_limits [] end.
Lemma NewUnsignedTarget_exact_witness :
  wide sample_target /\ NewUnsignedTarget sample_idna sample_target sample_limits = Ret sample_unsigned /\
  canonical_of sample_idna (ut_limits sample_unsigned) sample_target (ut_request sample_unsigned) /\
  len (ut_unsigned sample_unsigned) = 248.
Proof.
  assert (wide sample_target) as Hw by (repeat split; vm_compute; discriminate).
  assert (NewUnsignedTarget sample_idna sample_target sample_limits = Ret sample_unsigned) as H by (vm_compute; reflexivity).
  split; [exact Hw | split; [exact H | split; [ | vm_compute; reflexivity]]].
  destruct (NewUnsignedTarget_exact sample_idna sample_target sample_limits Hw) as [_ HE].
  exact (proj1 (proj2 (proj1 (HE sample_unsigned) H))).
Defined.
Lemma NewUnsignedTarget_valid_witness :
  NewUnsignedTarget sample_idna sample_target sample_limits = Ret sample_unsigned /\
  UnsignedTarget_Valid sample_idna sample_unsigned = true.
Proof.
  assert (wide sample_target) as Hw by (repeat split; vm_compute; discriminate).
  assert (NewUnsignedTarget sample_idna sample_target sample_limits = Ret sample_unsigned) as H by (vm_compute; reflexivity).
  split; [exact H | exact (proj1 (NewUnsignedTarget_valid sample_idna sample_idna_fixed sample_target sample_limits sample_unsigned Hw H))].
Defined.
