(* ===== verification/SigComplete.v ===== *)
(** * Completing targets

    What the completion of an unsigned target accepts and writes: the values are
    a rearrangement of the plans, the preflight on their lengths gives the
    length of the field, and the field is the script of the target with the
    signatures in the order of the plans. *)

From stdpp Require Import gmap sorting.
From S2P Require Import Prelude GoBytes GoBase64 GoStrconv RawMsg RawBody RawParser RawSpec TagTypes TagScan TagBase64 Combine TagSpec Emitter FieldScript DomainName SigAlgorithm.
From S2P Require Import SigTypes SigEnvelope SigEnvelopeSpec SigParser SigSpec SigCollection SigCustody SigRender SigRenderSpec SigTarget SigUnsigned.
#[local] Open Scope Z_scope.

(** ** Completion does not look at the signatures *)
Definition strip (i : completionInput) : completionInput := MkInput (in_selector i) (in_algorithm i) (in_bytes i) [].
Definition strip_value (v : renderSetValue) : renderSetValue := MkRenderValue [] (rv_bytes v).
Ltac step := match goal with |- context [obind ?m _] => destruct m; [ | done | done]; cbn [obind] end.
Lemma completionLoop_strip inputs L seen out :
  completionLoop (map strip inputs) L seen (map strip out) = (let* cs := completionLoop inputs L seen out in Ret (map strip cs)).
Proof.
  revert seen out. induction inputs as [|i inputs IH]; intros seen out; [done | ]. cbn [map completionLoop]. cbn [strip in_selector in_algorithm in_bytes in_signature].
  destruct (canonicalDNSName (in_selector i)) as [s|], (ParseTextstring (in_algorithm i)) as [a|]; try done. cbv zeta. step. step.
  rewrite <- IH, map_app. done.
Qed.
Lemma insert_stable_map {A B} (f : A -> B) lessA lessB x l :
  (forall a b, lessB (f a) (f b) = lessA a b) -> insert_stable lessB (f x) (map f l) = map f (insert_stable lessA x l).
Proof. intros H. induction l as [|y l IH]; [done | ]. cbn [map insert_stable]. rewrite H. destruct (lessA y x); [ | done]. cbn [map]. by rewrite IH. Qed.
Lemma sort_map {A B} (f : A -> B) cmpA cmpB l :
  (forall a b, cmpB (f a) (f b) = cmpA a b) -> slices_SortFunc cmpB (map f l) = map f (slices_SortFunc cmpA l).
Proof.
  intros H. unfold slices_SortFunc, slice_stable. induction l as [|x l IH]; [done | ]. cbn [map foldr]. rewrite IH.
  apply insert_stable_map. intros a b. by rewrite H.
Qed.
Lemma completionValues_strip plans cs :
  completionValues plans (map strip cs) = (let* vs := completionValues plans cs in Ret (map strip_value vs)).
Proof.
  revert cs. induction plans as [|p plans IH]; intros [|c cs]; [done | done | done | ]. cbn [map completionValues strip in_selector in_algorithm].
  step. rewrite IH. by destruct (completionValues plans cs).
Qed.
Lemma completionPlan_strip t inputs :
  canonicalCompletionPlan t (map strip inputs) = (let* vs := canonicalCompletionPlan t inputs in Ret (map strip_value vs)).
Proof.
  unfold canonicalCompletionPlan. assert (len (map strip inputs) = len inputs) as -> by (unfold len; by rewrite length_map).
  step. change (@nil completionInput) with (map strip []).
  rewrite completionLoop_strip. destruct (completionLoop _ _ _ _) as [cs| |]; [ | done | done]. cbn [obind].
  rewrite (sort_map strip compareInputs) by done. apply completionValues_strip.
Qed.

(** ** What completion accepts *)
Definition input_of (v : SetValue) : completionInput := MkInput (sv_Selector v) (sv_Algorithm v) (len (sv_Signature v)) (sv_Signature v).
Definition length_of (v : SetValue) : SetLength := MkSetLength (sv_Selector v) (sv_Algorithm v) (len (sv_Signature v)).
Definition good_length (L : RenderLimits) (a : bytes) (n : Z) : Prop :=
  0 < n <= MaxSignatureBytes L /\ (a = AlgorithmRSASHA256 -> n <= maxRSASignatureBytes) /\
  (forall exact, fixedSignatureBytes a = Some exact -> n = exact).
Lemma validateGeneratedSignatureLength_Ret a n L :
  validateGeneratedSignatureLength a n L = Ret tt <-> good_length L a n.
Proof.
  unfold validateGeneratedSignatureLength, good_length. split.
  - intros (? & H1%require_ret_inv & (? & H2%require_ret_inv & H3)%obind_ret_inv)%obind_ret_inv. split_and!.
    + apply negb_true_iff, orb_false_iff in H1 as [?%Z.leb_gt ?%Z.ltb_ge]. lia.
    + apply negb_true_iff, orb_false_iff in H1 as [?%Z.leb_gt ?%Z.ltb_ge]. lia.
    + intros ->. rewrite bytes_equal_refl in H2. by apply negb_true_iff, Z.ltb_ge in H2.
    + intros exact E. rewrite E in H3. apply require_ret_inv in H3. rewrite negb_involutive in H3. by apply Z.eqb_eq.
  - intros ([H1 H2] & H3 & H4). rewrite (proj2 (Z.leb_gt _ _)), (proj2 (Z.ltb_ge _ _)) by lia. cbn [orb negb require obind].
    destruct (bytes_equal a AlgorithmRSASHA256) eqn:E; cbn [andb].
    + apply bytes_equal_eq in E. rewrite (proj2 (Z.ltb_ge _ _)) by auto. cbn [negb require obind].
      destruct (fixedSignatureBytes a) as [m|] eqn:Em; [ | done]. by rewrite (H4 m), Z.eqb_refl.
    + cbn [negb require obind]. destruct (fixedSignatureBytes a) as [m|] eqn:Em; [ | done]. by rewrite (H4 m), Z.eqb_refl.
Qed.
Definition input_canon (L : RenderLimits) (c i : completionInput) : Prop :=
  canonicalDNSName (in_selector i) = Some (in_selector c) /\ ParseTextstring (in_algorithm i) = Some (in_algorithm c) /\
  good_length L (in_algorithm c) (in_bytes i) /\ in_bytes c = in_bytes i /\ in_signature c = in_signature i.
Definition input_key (c : completionInput) : bytes := in_selector c ++ [x00] ++ in_algorithm c.

Lemma completionLoop_Ret inputs L seen out r :
  completionLoop inputs L seen out = Ret r <->
  exists cs, r = out ++ cs /\ Forall2 (input_canon L) cs inputs /\ NoDup (map input_key cs) /\ (forall c, c ∈ cs -> input_key c ∉ seen).
Proof.
  revert seen out. induction inputs as [|i inputs IH]; intros seen out; cbn [completionLoop].
  - split; [intros [= <-] | intros (cs & -> & ->%Forall2_nil_inv_r & _); by rewrite app_nil_r].
    exists []. split_and!; [by rewrite app_nil_r | constructor | constructor | by intros ? ?%elem_of_nil].
  - destruct (canonicalDNSName (in_selector i)) as [s|] eqn:Es.
    2: { split; [done | ]. intros (cs & _ & (c & cs' & [E _] & _)%Forall2_cons_inv_r & _). congruence. }
    destruct (ParseTextstring (in_algorithm i)) as [a|] eqn:Ea.
    2: { split; [done | ]. intros (cs & _ & (c & cs' & (_ & E & _) & _)%Forall2_cons_inv_r & _). congruence. }
    cbv zeta. set (c0 := MkInput s a (in_bytes i) (in_signature i)). change (s ++ [x00] ++ a) with (input_key c0). split.
    + intros (? & Hs%require_ret_inv & H)%obind_ret_inv. apply obind_ret_inv in H as ([] & Hl%validateGeneratedSignatureLength_Ret & H).
      apply IH in H as (cs & -> & Hcs & Hnd & Hin). exists (c0 :: cs). apply negb_true_iff, bool_decide_eq_false in Hs.
      split_and!; [by rewrite <- app_assoc | by constructor | | ].
      * cbn [map]. constructor; [ | done]. intros (c & E & Hc)%list_elem_of_fmap. apply (Hin c Hc). rewrite <- E. set_solver.
      * intros c [-> | Hc]%elem_of_cons; [done | ]. specialize (Hin c Hc). set_solver.
    + intros (cs & -> & (c & cs' & (E1 & E2 & Hl & E3 & E4) & Hcs & ->)%Forall2_cons_inv_r & Hnd & Hin).
      assert (c = c0) as -> by (destruct c; unfold c0; cbn in *; congruence). cbn [map] in Hnd. apply NoDup_cons in Hnd as [Hni Hnd].
      rewrite bool_decide_eq_false_2 by (apply Hin; by left). cbn [negb require obind].
      rewrite (proj2 (validateGeneratedSignatureLength_Ret _ _ _)) by done. cbn [obind]. apply IH. exists cs'.
      split_and!; [by rewrite <- app_assoc | done | done | ]. intros c Hc. specialize (Hin c ltac:(by right)).
      assert (input_key c <> input_key c0) by (intros E; apply Hni; rewrite <- E; by apply list_elem_of_fmap_2). set_solver.
Qed.

Definition matches (p : SetPlan) (c : completionInput) : Prop := in_selector c = plan_Selector p /\ in_algorithm c = plan_Algorithm p.
Definition value_of (c : completionInput) : renderSetValue := MkRenderValue (in_signature c) (in_bytes c).
Lemma completionValues_Ret plans cs vs :
  length cs = length plans ->
  completionValues plans cs = Ret vs <-> Forall2 matches plans cs /\ vs = map value_of cs.
Proof.
  revert cs vs. induction plans as [|p plans IH]; intros [|c cs] vs Hl; try done.
  - cbn. split; [intros [= <-]; by split | by intros [_ ->]].
  - cbn [completionValues]. injection Hl as Hl. split.
    + intros (? & H%require_ret_inv & H')%obind_ret_inv. apply obind_ret_inv in H' as (vs' & [Hm ->]%IH & [= <-]); [ | done].
      apply negb_true_iff, orb_false_iff in H as [H1%negb_false_iff H2%negb_false_iff]. apply bytes_equal_eq in H1, H2.
      split; [by constructor | done].
    + intros [[[H1 H2] Hm]%Forall2_cons ->]. rewrite !(proj2 (bytes_equal_eq _ _)) by done. cbn [negb orb require obind].
      rewrite (proj2 (IH cs (map value_of cs) Hl)) by done. done.
Qed.
Lemma completionValues_safe plans cs : length cs = length plans -> no_crash (completionValues plans cs).
Proof.
  revert cs. induction plans as [|p plans IH]; intros [|c cs] Hl; try done. injection Hl as Hl. cbn [completionValues].
  apply obind_no_crash; [apply require_no_crash | intros _ _]. apply obind_no_crash; [by apply IH | done].
Qed.

(** ** The completion of a target *)
Definition supplied (L : RenderLimits) (p : SetPlan) (v : SetValue) : Prop :=
  canonicalDNSName (sv_Selector v) = Some (plan_Selector p) /\ ParseTextstring (sv_Algorithm v) = Some (plan_Algorithm p) /\
  good_length L (plan_Algorithm p) (len (sv_Signature v)).
(** [ordered] are the values in the order of the plans. *)
Definition completes (L : RenderLimits) (plans : list SetPlan) (values ordered : list SetValue) : Prop :=
  ordered ≡ₚ values /\ Forall2 (supplied L) plans ordered.
Definition render_value (v : SetValue) : renderSetValue := MkRenderValue (sv_Signature v) (len (sv_Signature v)).

Lemma is_domain_no_nul d : is_domain d -> x00 ∉ d.
Proof.
  intros [_ H]. apply (chars_no (fun b => isASCIILetterOrDigit b || (b =?b x2d) || (b =?b x2e))); [ | done].
  eapply (split_byte_chars _ x2e); [ | done]. eapply Forall_impl; [exact H | ].
  intros l (Hl & _). eapply Forall_impl; [exact Hl | ]. cbn. apply byte_implb. by vm_compute.
Qed.
Lemma app_sep_inj (c : byte) a a' b b' : c ∉ a -> c ∉ a' -> a ++ c :: b = a' ++ c :: b' -> a = a' /\ b = b'.
Proof.
  revert a'. induction a as [|x a IH]; intros [|y a'] H H' E; cbn in E.
  - by injection E as ->.
  - injection E as -> _. set_solver.
  - injection E as -> _. set_solver.
  - injection E as -> E. apply IH in E as [-> ->]; [done | set_solver | set_solver].
Qed.
Lemma input_key_inj c c' :
  x00 ∉ in_selector c -> x00 ∉ in_selector c' -> input_key c = input_key c' ->
  in_selector c = in_selector c' /\ in_algorithm c = in_algorithm c'.
Proof. unfold input_key. intros H H' E. by apply app_sep_inj in E. Qed.

Definition input_less (a b : completionInput) : bool := compareInputs a b <? 0.
Definition input_plan (c : completionInput) : SetPlan := MkPlan (in_selector c) (in_algorithm c).
Lemma sort_inputs_sorted cs : StronglySorted (fun a b => input_less b a = false) (slices_SortFunc compareInputs cs).
Proof.
  apply slice_stable_StronglySorted; intros a b; unfold compareInputs; fold (input_plan a); fold (input_plan b).
  - intros c. fold (input_plan c). apply plan_le_trans.
  - apply plan_less_asym.
Qed.
Lemma sort_inputs_unique cs ds :
  NoDup (map input_plan cs) -> ds ≡ₚ cs -> plans_sorted (map input_plan ds) -> slices_SortFunc compareInputs cs = ds.
Proof.
  intros Hnd Hp Hs.
  assert (StronglySorted (fun a b => input_less b a = false) ds) as Hds.
  { revert Hs. clear. unfold plans_sorted. induction ds as [|d ds IH]; cbn [map]; [constructor | ]. intros [Hd Hf]%StronglySorted_inv.
    constructor; [auto | ]. rewrite Forall_map in Hf. exact Hf. }
  eapply (StronglySorted_unique_strong (fun a b => input_less b a = false)); [ | apply sort_inputs_sorted | exact Hds | unfold slices_SortFunc; by rewrite slice_stable_perm].
  intros a b Ha Hb H1 H2. unfold slices_SortFunc in Ha. rewrite slice_stable_perm in Ha. rewrite Hp in Hb.
  assert (input_plan a = input_plan b) as E by (apply plan_le_antisym; done).
  apply list_elem_of_lookup_1 in Ha as [i Hi], Hb as [j Hj].
  assert (i = j) as ->; [ | congruence].
  eapply (NoDup_lookup (map input_plan cs)); [done | by rewrite list_lookup_fmap, Hi | rewrite list_lookup_fmap, Hj; cbn; by rewrite E].
Qed.

Section target.
Context (registration : bytes -> option bytes) (L : RenderLimits) (c : TargetRequest) (layout : Layout).
Hypothesis Hfrozen : frozen registration L c.
Let t := unsigned_target L c layout.

Lemma completion_guard (inputs : list completionInput) :
  require (negb ((len (ut_unsigned t) =? 0) || (len (tr_Sets (ut_request t)) =? 0) || negb (len inputs =? len (tr_Sets (ut_request t)))))
    (renderConstructionError "s") = Ret tt <-> len inputs = len (tr_Sets c).
Proof using Hfrozen.
  cbn [t unsigned_target ut_unsigned ut_request].
  assert (len (script_bytes (unsigned_script c layout)) =? 0 = false) as ->.
  { apply Z.eqb_neq. unfold unsigned_script, target_script, header_script, script_bytes. cbn [map concat item_bytes].
    rewrite len_app. change (field_name ++ ?x) with (x44 :: drop 1 field_name ++ x). rewrite len_cons.
    match goal with |- 1 + len ?a + len ?b <> 0 => pose proof (len_nonneg a); pose proof (len_nonneg b) end. lia. }
  destruct Hfrozen as (_ & _ & _ & _ & (Hl & _) & _). rewrite (proj2 (Z.eqb_neq (len (tr_Sets c)) 0)) by lia. cbn [orb].
  rewrite negb_involutive. destruct (Z.eqb_spec (len inputs) (len (tr_Sets c))); cbn; done.
Qed.
Lemma completion_values values vs :
  canonicalCompletionPlan t (map input_of values) = Ret vs <->
  exists ordered, completes L (tr_Sets c) values ordered /\ vs = map render_value ordered.
Proof using Hfrozen.
  pose proof Hfrozen as (_ & _ & _ & _ & (_ & Hpl & Hnd & Hso & _) & _).
  unfold canonicalCompletionPlan. split.
  - intros ([] & Hlen%completion_guard & H)%obind_ret_inv. apply obind_ret_inv in H as (cs & Hcs & Hv).
    apply completionLoop_Ret in Hcs as (cs' & -> & Hcs & _). cbn [app] in Hv.
    assert (slices_SortFunc compareInputs cs' ≡ₚ cs') as Hp by apply slice_stable_perm.
    assert (length (slices_SortFunc compareInputs cs') = length (tr_Sets c)) as Hl.
    { rewrite Hp, (Forall2_length _ _ _ Hcs). unfold len in Hlen. lia. }
    apply completionValues_Ret in Hv as [Hm ->]; [ | done].
    symmetry in Hp. destruct (Permutation.Permutation_Forall2 Hp Hcs) as (ins & Hpi & Hins).
    destruct (Permutation.Permutation_map_inv input_of values (Permutation_sym Hpi)) as (ordered & -> & Hpo).
    exists ordered. assert (Forall2 (supplied L) (tr_Sets c) ordered /\ map value_of (slices_SortFunc compareInputs cs') = map render_value ordered) as [Hs Hv].
    { change (tr_Sets (ut_request t)) with (tr_Sets c) in Hm. revert Hm ordered Hins Hpi Hpo. generalize (slices_SortFunc compareInputs cs') (tr_Sets c). clear. intros xs' ps' Hm ordered Hins _ _.
      revert ordered Hins. induction Hm as [|p x ps xs [H1 H2] _ IH]; intros ordered Hins.
      - apply Forall2_nil_inv_l in Hins. destruct ordered; [ | done]. split; [constructor | done].
      - apply Forall2_cons_inv_l in Hins as (i & is_ & (E1 & E2 & E3 & E4 & E5) & Hins & E). destruct ordered as [|v ordered]; [done | ].
        cbn [map] in E. injection E as <- <-. destruct (IH ordered Hins) as [IH1 IH2]. cbn [map]. split.
        + constructor; [ | done]. unfold supplied. rewrite <- H1, <- H2. by split_and!.
        + rewrite IH2. f_equal. unfold value_of. rewrite E4, E5. done. }
    split; [split; [by rewrite Hpo | done] | done].
  - intros (ordered & [Hp Hs] & ->). rewrite (proj2 (completion_guard (map input_of values))).
    2: { unfold len. rewrite length_map, <- Hp, <- (Forall2_length _ _ _ Hs). done. }
    cbn [obind].
    set (canon p v := MkInput (plan_Selector p) (plan_Algorithm p) (len (sv_Signature v)) (sv_Signature v)).
    set (ds := zip_with canon (tr_Sets c) ordered).
    assert (Forall2 (input_canon L) ds (map input_of ordered) /\ Forall2 matches (tr_Sets c) ds /\ map value_of ds = map render_value ordered /\
            map input_plan ds = tr_Sets c) as (Hc & Hm & Hv & Hpm).
    { unfold ds. revert Hs. generalize (tr_Sets c). clear. intros ps' Hs. induction Hs as [|p v ps vs (E1 & E2 & E3) _ (IH1 & IH2 & IH3 & IH4)]; [by repeat split; constructor | ].
      cbn [zip_with map]. split_and!; [constructor; [by split_and! | done] | by constructor | by rewrite IH3 | ].
      rewrite IH4. by destruct p. }
    assert (map input_of ordered ≡ₚ map input_of values) as Hpi by by rewrite Hp.
    assert (exists cs, ds ≡ₚ cs /\ Forall2 (input_canon L) cs (map input_of values)) as (cs & Hpc & Hcs).
    { apply Forall2_flip in Hc. destruct (Permutation.Permutation_Forall2 Hpi Hc) as (cs & Hpc & Hcs). exists cs. split; [done | by apply Forall2_flip]. }
    assert (NoDup (map input_plan cs)) as Hndp.
    { rewrite <- Hpc, Hpm. apply (NoDup_fmap_1 plan_Selector). exact Hnd. }
    rewrite (proj2 (completionLoop_Ret _ L ∅ [] cs)).
    2: { exists cs. split_and!; [done | done | | intros x _; set_solver].
         assert (Forall (fun x => x00 ∉ in_selector x) cs) as Hnul.
         { rewrite <- Hpc. revert Hm Hpl. generalize ds (tr_Sets c). clear. intros ds ps' Hm Hpl. induction Hm as [|p x ps xs [E _] _ IH]; [constructor | ]. apply Forall_cons in Hpl as [[Hd _] Hpl].
           constructor; [rewrite E; by apply is_domain_no_nul | auto]. }
         clear -Hndp Hnul. induction cs as [|x cs IH]; [constructor | ]. cbn [map] in *. apply NoDup_cons in Hndp as [Hni Hndp].
         apply Forall_cons in Hnul as [Hx Hnul]. constructor; [ | auto]. intros (y & E & Hy)%list_elem_of_fmap. apply Hni.
         rewrite Forall_forall in Hnul. apply input_key_inj in E as [E1 E2]; [ | done | by apply Hnul].
         apply list_elem_of_fmap. exists y. split; [ | done]. unfold input_plan. by rewrite E1, E2. }
    cbn [obind]. rewrite (sort_inputs_unique cs ds); [ | done | done | by rewrite Hpm].
    change (tr_Sets (ut_request t)) with (tr_Sets c). apply completionValues_Ret; [by rewrite (Forall2_length _ _ _ Hm) | by rewrite Hv].
Qed.

Hypothesis Hlay : generatedSetLayout (tr_Sets c) = Some layout.
Hypothesis HL : RenderLimits_Validate L = Ret tt.
Definition complete_script (ordered : list SetValue) : list item := target_script c layout (Some (map sv_Signature ordered)).

Lemma completes_values values ordered :
  completes L (tr_Sets c) values ordered ->
  sets_match c (Some (map render_value ordered)) /\
  (forall full, values_of full (Some (map render_value ordered)) (Some (map sv_Signature ordered))).
Proof using HL.
  intros [_ Hs]. apply RenderLimits_Validate_Ret in HL as (_ & _ & _ & _ & _ & _ & HS). change maxSignatureBytes with 2420 in HS. split.
  - intros vs [= <-]. unfold len. by rewrite length_map, (Forall2_length _ _ _ Hs).
  - intros full. cbn. revert Hs. generalize (tr_Sets c). clear -HS. intros ps Hs.
    induction Hs as [|p v ps vs (_ & _ & (Hl & _)) _ IH]; cbn [map]; constructor; [ | done]. split; [ | done].
    split; [intros E; rewrite E in Hl; change (len (@nil byte)) with 0 in Hl; lia | lia].
Qed.
Lemma rendered_cases values ordered :
  completes L (tr_Sets c) values ordered ->
  if fits_limits L (complete_script ordered)
  then preflightTarget c (Some (map render_value ordered)) L = Ret (len (script_bytes (complete_script ordered))) /\
       renderTarget c (Some (map render_value ordered)) L (len (script_bytes (complete_script ordered))) =
         Ret (script_bytes (complete_script ordered))
  else exists f, preflightTarget c (Some (map render_value ordered)) L = Fail f.
Proof using Hfrozen Hlay HL.
  intros Hc. destruct (completes_values _ _ Hc) as [Hm Hv].
  pose proof (preflightTarget_cases c layout (Some (map sv_Signature ordered)) _ L (frozen_ok_target _ _ _ Hfrozen) Hlay Hm (Hv false)) as Hp.
  pose proof (renderTarget_fits c layout (Some (map sv_Signature ordered)) _ L (frozen_ok_target _ _ _ Hfrozen) Hlay Hm (Hv true)) as Hr.
  unfold fits_limits, complete_script. destruct (script_fits _ _ _ _ _); [ | done]. split; [done | by apply Hr].
Qed.
Lemma Complete_Ret values f :
  Complete t values = Ret f <->
  exists ordered, completes L (tr_Sets c) values ordered /\ fits_limits L (complete_script ordered) = true /\
    f = MkComplete (script_bytes (complete_script ordered)).
Proof using Hfrozen Hlay HL.
  unfold Complete. cbv zeta. change (map _ values) with (map input_of values). split.
  - intros (vs & (ordered & Hc & ->)%completion_values & H)%obind_ret_inv. pose proof (rendered_cases _ _ Hc) as Hr.
    exists ordered. cbn [t unsigned_target ut_request ut_limits] in H. destruct (fits_limits _ _).
    + destruct Hr as [Hp Hr]. rewrite Hp in H. cbn [obind] in H. rewrite Hr in H. cbn [obind] in H. injection H as <-. by split_and!.
    + destruct Hr as [g Hr]. by rewrite Hr in H.
  - intros (ordered & Hc & Hf & ->). rewrite (proj2 (completion_values values (map render_value ordered))) by by exists ordered.
    pose proof (rendered_cases _ _ Hc) as Hr. rewrite Hf in Hr. destruct Hr as [Hp Hr].
    cbn [obind t unsigned_target ut_request ut_limits]. rewrite Hp. cbn [obind]. by rewrite Hr.
Qed.
Lemma Complete_preflight values :
  PreflightComplete t (map length_of values) = (let* f := Complete t values in Ret (len (complete_field f))).
Proof using Hfrozen Hlay HL.
  unfold PreflightComplete, canonicalCompleteLengths, Complete. cbv zeta. change (map _ values) with (map input_of values) at 2.
  rewrite map_map. assert (map (fun x => MkInput (sl_Selector (length_of x)) (sl_Algorithm (length_of x)) (sl_Bytes (length_of x)) []) values
    = map strip (map input_of values)) as -> by by rewrite map_map.
  rewrite completionPlan_strip. destruct (canonicalCompletionPlan t (map input_of values)) as [vs| |] eqn:Ev; [ | done | done]. cbn [obind].
  apply completion_values in Ev as (ordered & Hc & ->). destruct (completes_values _ _ Hc) as [Hm Hv].
  cbn [t unsigned_target ut_request ut_limits].
  rewrite (preflight_lengths c (map render_value ordered) _ layout (map sv_Signature ordered) L); [ | by eapply frozen_ok_target | done | done | apply Hv | by rewrite !map_map].
  pose proof (rendered_cases _ _ Hc) as Hr. destruct (fits_limits _ _); [ | by destruct Hr as [f ->]].
  destruct Hr as [-> Hr]. cbn [obind]. by rewrite Hr.
Qed.
Lemma completion_safe inputs : no_crash (canonicalCompletionPlan t inputs).
Proof using Hfrozen.
  unfold canonicalCompletionPlan. apply obind_no_crash; [apply require_no_crash | intros [] Hlen%completion_guard].
  apply obind_no_crash.
  - generalize (@nil completionInput) at 1. generalize (∅ : gset bytes). clear. induction inputs as [|i inputs IH]; intros seen out; cbn [completionLoop]; [done | ].
    unfold validateGeneratedSignatureLength. crash_free.
  - intros cs (cs' & -> & Hcs & _)%completionLoop_Ret. apply completionValues_safe.
    assert (slices_SortFunc compareInputs ([] ++ cs') ≡ₚ cs') as -> by apply slice_stable_perm.
    rewrite (Forall2_length _ _ _ Hcs). change (ut_request t) with c. unfold len in Hlen. lia.
Qed.
Lemma Complete_safe values : no_crash (Complete t values).
Proof using Hfrozen Hlay HL.
  unfold Complete. cbv zeta. change (map _ values) with (map input_of values).
  destruct (canonicalCompletionPlan t (map input_of values)) as [vs| |] eqn:Ev; [ | done | by destruct (completion_safe _ Ev)]. cbn [obind].
  apply completion_values in Ev as (ordered & Hc & ->). cbn [t unsigned_target ut_request ut_limits].
  pose proof (rendered_cases _ _ Hc) as Hr. destruct (fits_limits _ _); [ | by destruct Hr as [f ->]].
  destruct Hr as [-> Hr]. cbn [obind]. by rewrite Hr.
Qed.
End target.

(** C30: for every target of NewUnsignedTarget, Complete never panics and
    succeeds exactly when the values, put in the order of the plans, have the
    plans' selectors and algorithms and a length that the algorithm and the
    limits allow, and the field with those signatures keeps to the limits; it
    returns that field.  PreflightComplete, which sees the lengths only, returns
    the same error, or the length of the field that Complete returns. *)
Theorem Complete_exact registration r l t values :
  wide r -> NewUnsignedTarget registration r l = Ret t ->
  Complete t values <> Crash /\
  (forall f, Complete t values = Ret f <->
     exists layout ordered, generatedSetLayout (tr_Sets (ut_request t)) = Some layout /\
       completes (ut_limits t) (tr_Sets (ut_request t)) values ordered /\
       let script := target_script (ut_request t) layout (Some (map sv_Signature ordered)) in
       fits_limits (ut_limits t) script = true /\ complete_field f = script_bytes script) /\
  PreflightComplete t (map length_of values) = (let* f := Complete t values in Ret (len (complete_field f))).
Proof.
  intros Hw (L & c & layout & HL & Hc & Hlay & Hf & ->)%NewUnsignedTarget_Ret; [ | done].
  apply canonicalTargetRequest_Ret, canonical_of_frozen in Hc. apply normalized_valid in HL. split_and!.
  - by eapply Complete_safe.
  - intros f. rewrite (Complete_Ret registration) by done. cbn [unsigned_target ut_limits ut_request]. split.
    + intros (ordered & H1 & H2 & ->). by exists layout, ordered.
    + intros (layout' & ordered & Hlay' & H1 & H2 & H3). assert (layout' = layout) as -> by congruence.
      exists ordered. split_and!; [done | done | ]. destruct f. cbn in *. by rewrite H3.
  - by eapply Complete_preflight.
Qed.

(** ** Witnesses *)
Definition sample_values : list SetValue :=
  [MkSetValue (bs "sel.b") AlgorithmRSASHA256 (repeat x01 256); MkSetValue (bs "SEL.A1") AlgorithmEd25519SHA256 (repeat x02 64);
   MkSetValue (bs "sel.a") AlgorithmMLDSA44 (repeat x03 2420)].
Definition sample_completed : CompleteField :=
  match Complete sample_unsigned sample_values with Ret f => f | _ => MkComplete [] end.
Lemma Complete_exact_witness :
  Complete sample_unsigned sample_values = Ret sample_completed /\ len (complete_field sample_completed) = 4076 /\
  PreflightComplete sample_unsigned (map length_of sample_values) = Ret 4076.
Proof.
  assert (wide sample_target) as Hw by (repeat split; vm_compute; discriminate).
  assert (NewUnsignedTarget sample_idna sample_target sample_limits = Ret sample_unsigned) as H by (vm_compute; reflexivity).
  destruct (Complete_exact sample_idna sample_target sample_limits sample_unsigned sample_values Hw H) as (_ & _ & HP).
  assert (Complete sample_unsigned sample_values = Ret sample_completed) as HC by (vm_compute; reflexivity).
  split; [exact HC | split; [vm_compute; reflexivity | ]]. rewrite HP, HC. vm_compute. reflexivity.
Defined.
