(* ===== verification/SigRoundtrip.v ===== *)
(** * Completed fields read back

    The parser reads from a completed field the request of its target and the
    signatures that completed it; rebuilding the unsigned target from the field
    gives the target. *)

From stdpp Require Import gmap sorting.
From S2P Require Import Prelude GoBytes GoBase64 GoStrconv RawMsg RawBody RawParser RawSpec TagTypes TagScan TagBase64 Combine TagSpec Emitter FieldScript DomainName SigAlgorithm.
From S2P Require Import SigTypes SigEnvelope SigEnvelopeSpec SigParser SigSpec SigCollection SigCustody SigRender SigRenderSpec SigTarget SigUnsigned SigComplete.
#[local] Open Scope Z_scope.

(** ** The Base64 texts *)
Definition b64_text (d : bytes) : bytes := script_text (b64_items d).
Definition b64_cont_text (d : bytes) : bytes := script_text (b64_cont_items d).
Definition all_dark (s : bytes) : Prop := Forall (fun b => TagTypes.isWSP b = false) s.

Lemma chunk_items_text c cs : script_text (chunk_items c cs) = c ++ concat (map (cons x09) cs).
Proof.
  unfold chunk_items, fold_items. rewrite script_text_cons. cbn [item_text]. f_equal.
  induction cs as [|d cs IH]; [done | ]. cbn [map concat]. rewrite script_text_app, IH. f_equal.
  unfold script_text. cbn. by rewrite app_nil_r.
Qed.
Lemma strip_dark s : all_dark s -> stripBase64FWS s = s.
Proof. intros H. apply filter_id. eapply Forall_impl; [exact H | ]. intros b Hb. cbn. by rewrite Hb. Qed.
Lemma strip_tabbed cs : Forall all_dark cs -> stripBase64FWS (concat (map (cons x09) cs)) = concat cs.
Proof.
  unfold stripBase64FWS. induction 1 as [|c cs Hc _ IH]; [done | ]. cbn [map concat]. rewrite List.filter_app, IH.
  cbn [List.filter]. change (negb (TagTypes.isWSP x09)) with false. cbv iota. f_equal. by apply strip_dark.
Qed.
Definition ends_dark (s : bytes) : Prop := s <> [] /\ forall t b, s = t ++ [b] -> TagTypes.isWSP b = false.
Definition solid (s : bytes) : Prop := s <> [] /\ edged TagTypes.isWSP s.
Lemma solid_ends s : solid s -> ends_dark s.
Proof. intros [Hne [_ He]]. split; [done | ]. intros t b E. by eapply He. Qed.
Lemma ends_app a b : ends_dark b -> ends_dark (a ++ b).
Proof.
  intros [Hne He]. split; [intros [_ ?]%app_nil; done | ]. intros t x E. destruct b as [|y b _] using rev_ind; [done | ].
  rewrite app_assoc in E. apply app_inj_tail in E as [_ ->]. by eapply He.
Qed.
Lemma solid_app a b : solid a -> ends_dark (a ++ b) -> solid (a ++ b).
Proof.
  intros [Hne [Ha _]] [Hn Hb]. split; [done | ]. split; [ | intros; by eapply Hb]. intros x t E. destruct a as [|y a]; [done | ].
  injection E as -> _. by eapply Ha.
Qed.
Lemma solid_dark s : s <> [] -> all_dark s -> solid s.
Proof.
  intros Hne Hd. split; [done | ]. apply (all_dark_edged (fun b => negb (TagTypes.isWSP b))); [intros b; apply negb_true_iff | ].
  eapply Forall_impl; [exact Hd | ]. intros b Hb. cbn beta in *. by rewrite Hb.
Qed.
Lemma ends_joined sep s cs : ends_dark s -> Forall solid cs -> ends_dark (s ++ concat (map (cons sep) cs)).
Proof.
  intros Hs H. revert s Hs. induction H as [|c cs Hc _ IH]; intros s Hs; [by rewrite app_nil_r | ]. cbn [map concat].
  rewrite app_assoc. apply IH, ends_app. change (sep :: c) with ([sep] ++ c). by apply ends_app, solid_ends.
Qed.
Lemma solid_joined sep c cs : solid c -> Forall solid cs -> solid (c ++ concat (map (cons sep) cs)).
Proof. intros Hc Hcs. apply solid_app; [done | ]. apply ends_joined; [by apply solid_ends | done]. Qed.
Lemma encode_all_dark d : all_dark (std_encode d).
Proof. eapply Forall_impl; [apply encode_chars | ]. intros b Hb. by apply b64_char_plain in Hb as [_ ?]. Qed.

Definition read_b64 (text d : bytes) : Base64String := MkB64 text (std_encode d) d.
Lemma tabbed_value c cs d :
  d <> [] -> c <> [] -> Forall (fun c => c <> []) cs -> c ++ concat cs = std_encode d ->
  len (c ++ concat (map (cons x09) cs)) <= 65536 ->
  base64_value TagTypes.DefaultLimits (c ++ concat (map (cons x09) cs)) (read_b64 (c ++ concat (map (cons x09) cs)) d).
Proof.
  intros Hd Hc Hcs E Hl. pose proof (encode_all_dark d) as Hdk. rewrite <- E in Hdk. apply Forall_app in Hdk as [Hdc Hdcs].
  assert (Forall all_dark cs) as Hdk.
  { clear -Hdcs. induction cs as [|x cs IH]; [constructor | ]. cbn [concat] in Hdcs. apply Forall_app in Hdcs as [? ?]. constructor; auto. }
  assert (stripBase64FWS (c ++ concat (map (cons x09) cs)) = std_encode d) as Hs.
  { unfold stripBase64FWS. rewrite List.filter_app. fold (stripBase64FWS c). fold (stripBase64FWS (concat (map (cons x09) cs))).
    by rewrite strip_dark, strip_tabbed. }
  split_and!; [ | done | ].
  - apply solid_joined; [by apply solid_dark | ]. clear -Hcs Hdk. induction Hcs as [|x cs Hx _ IH]; constructor;
      apply Forall_cons in Hdk as [? ?]; [by apply solid_dark | auto].
  - exists d. split_and!; [done | | done | done]. change (MaxBase64DecodedBytes TagTypes.DefaultLimits) with 1048576.
    assert (len (std_encode d) <= 65536).
    { rewrite <- E. rewrite len_app in *. assert (len (concat cs) <= len (concat (map (cons x09) cs))); [ | lia].
      clear. induction cs as [|x cs IH]; [done | ]. cbn [map concat]. rewrite !len_app, len_cons. lia. }
    rewrite len_encode in *. pose proof (len_nonneg d). lia.
Qed.
Lemma chunked_nonempties cs : chunked cs -> Forall (fun c => c <> []) cs.
Proof.
  induction 1 as [c Hc | c cs Hc _ IH]; constructor; try done; change renderedBase64ChunkBytes with 64 in Hc; intros ->;
    change (len (@nil byte)) with 0 in Hc; lia.
Qed.
Lemma b64_text_value d :
  d <> [] -> len (b64_text d) <= 65536 -> base64_value TagTypes.DefaultLimits (b64_text d) (read_b64 (b64_text d) d).
Proof.
  intros Hd. unfold b64_text, b64_items. destruct (chunk64_spec _ (std_encode_nonempty d Hd)) as [Hch Hcat].
  pose proof (chunked_nonempties _ Hch) as Hne. destruct (chunk64 (std_encode d)) as [|c cs].
  { cbn in Hcat. by apply std_encode_nonempty in Hd. }
  rewrite chunk_items_text. apply Forall_cons in Hne as [Hc Hcs]. by apply tabbed_value.
Qed.
Lemma b64_cont_text_value d :
  d <> [] -> len (b64_cont_text d) <= 65536 -> base64_value TagTypes.DefaultLimits (b64_cont_text d) (read_b64 (b64_cont_text d) d).
Proof.
  intros Hd. unfold b64_cont_text, b64_cont_items. pose proof (std_encode_nonempty d Hd) as Hs.
  destruct (std_encode d) as [|b rest] eqn:E; [done | ]. rewrite chunk_items_text. intros Hl. apply tabbed_value; try done.
  - destruct rest as [|b' rest]; [constructor | ]. apply chunked_nonempties, chunk64_spec. done.
  - rewrite E. cbn [app]. f_equal. destruct rest as [|b' rest]; [done | ]. by apply chunk64_spec.
Qed.

(** ** The groups of s= *)
Lemma regroup {A B} (gs : list (list A)) (l : list B) :
  length l = length (concat gs) -> exists gs', concat gs' = l /\ map len gs' = map len gs.
Proof.
  revert l. induction gs as [|g gs IH]; intros l Hl; [exists []; by destruct l | ]. cbn [concat] in Hl. rewrite length_app in Hl.
  destruct (IH (drop (length g) l)) as (gs' & E & El); [rewrite length_drop; lia | ].
  exists (take (length g) l :: gs'). cbn [concat map]. rewrite E, El, take_drop. split; [done | ]. f_equal.
  unfold len. rewrite length_take. lia.
Qed.
Lemma map_len_nonempty {A B} (gs : list (list A)) (gs' : list (list B)) :
  map len gs' = map len gs -> Forall (fun g => g <> []) gs -> Forall (fun g => g <> []) gs'.
Proof.
  revert gs'. induction gs as [|g gs IH]; intros [|g' gs'] E Hgs; [constructor | done | done | ]. injection E as E1 E2.
  apply Forall_cons in Hgs as [Hg Hgs]. constructor; [ | by apply (IH gs')]. intros ->. destruct g as [|x g]; [done | ].
  rewrite len_cons in E1. change (len (@nil B)) with 0 in E1. pose proof (len_nonneg g). lia.
Qed.
Lemma tabbed_concat gs p ps :
  Forall (fun g => g <> []) gs -> concat gs = p :: ps ->
  concat (tabbed gs) = p :: map (cons x09) ps /\ map len (tabbed gs) = map len gs /\ Forall (fun g => g <> []) (tabbed gs).
Proof.
  intros Hgs E. destruct Hgs as [|g gs Hg Hgs]; [done | ]. destruct g as [|q g]; [done | ]. cbn [concat app] in E. injection E as -> <-.
  cbn [tabbed concat map app]. split_and!.
  - f_equal. by rewrite map_app, concat_map.
  - cbn [map]. rewrite map_map, !len_cons.
    assert (forall g, len (map (cons x09) g) = len g) as Hm by (intros h; unfold len; by rewrite length_map).
    rewrite Hm. f_equal. apply map_ext, Hm.
  - constructor; [done | ]. rewrite Forall_map. eapply Forall_impl; [exact Hgs | ]. by intros [|].
Qed.

Abbreviation L0 := TagTypes.DefaultLimits.
Definition piece (p : SetPlan) (d : bytes) : bytes := plan_Selector p ++ [x3a] ++ plan_Algorithm p ++ [x3a] ++ b64_text d.
Lemma plan_pieces_zip plans ds pre :
  length ds = length plans ->
  plan_pieces plans (len pre) (Some (pre ++ ds)) = zip_with piece plans ds.
Proof.
  revert ds pre. induction plans as [|p plans IH]; intros [|d ds] pre Hl; try done. injection Hl as Hl. cbn [plan_pieces zip_with]. f_equal.
  - unfold piece, b64_text, signature_items. unfold len. rewrite Nat2Z.id, list_lookup_middle by done. done.
  - replace (len pre + 1) with (len (pre ++ [d])) by (rewrite len_app; done).
    replace (pre ++ d :: ds) with ((pre ++ [d]) ++ ds) by (by rewrite <- app_assoc). by apply IH.
Qed.
Definition read_set (p : SetPlan) (d : bytes) : SigSet :=
  MkSet (plan_Selector p) (plan_Selector p) (plan_Algorithm p) (Algorithm_Known (plan_Algorithm p)) (read_b64 (b64_text d) d).
(** The plan with its signature is what the parser takes. *)
Definition readable_set (p : SetPlan) (d : bytes) : Prop :=
  ok_plan p /\ d <> [] /\ len (b64_text d) <= 65536 /\
  (forall n, fixedSignatureBytes (plan_Algorithm p) = Some n -> len d = n).

Lemma piece_denotes p d w : readable_set p d -> wsp w -> denotes_set L0 (read_set p d) (w ++ piece p d).
Proof.
  intros ([Hs Ha] & Hne & Hl & Hf) Hw. exists (b64_text d). destruct (domain_folded _ Hs) as [E _]. split.
  - exists w, [], [], [], []. split_and!; try constructor; try done. cbn [read_set rawSelector algorithm]. unfold piece.
    rewrite !app_nil_r. cbn [app]. by rewrite <- app_assoc.
  - unfold ok_set. cbn [read_set rawSelector selector algorithm knownAlgorithm set_signature]. rewrite E.
    split_and!; try done. by apply b64_text_value.
Qed.
Lemma piece_fine p d w : readable_set p d -> wsp w -> piece_ok (w ++ piece p d).
Proof.
  intros ([Hs Ha] & Hne & Hl & _) Hw. unfold piece. split.
  - rewrite !Forall_app. split_and!.
    + eapply Forall_impl; [exact Hw | ]. intros b. intros E. apply negb_true_iff. revert b E. apply byte_implb. by vm_compute.
    + destruct Hs as [_ H]. assert (Forall (fun b => isASCIILetterOrDigit b || (b =?b x2d) || (b =?b x2e) = true) (plan_Selector p)) as H'.
      { eapply (split_byte_chars _ x2e); [ | done]. eapply Forall_impl; [exact H | ].
        intros l (Hb & _). eapply Forall_impl; [exact Hb | ]. cbn. apply byte_implb. by vm_compute. }
      eapply Forall_impl; [exact H' | ]. intros b E. apply negb_true_iff. revert b E. apply byte_implb. by vm_compute.
    + by repeat constructor.
    + apply ParseTextstring_Some in Ha as (_ & _ & Hb). eapply Forall_impl; [exact Hb | ]. intros b Hb'. apply textstring_byte_facts in Hb'. tauto.
    + by repeat constructor.
    + pose proof (base64_value_chars _ _ _ (b64_text_value d Hne Hl)) as Hb. eapply Forall_impl; [exact Hb | ]. intros b Hb'. apply b64_text_byte_facts in Hb'. tauto.
  - unfold onlyWSP. rewrite forallb_app. apply andb_false_iff. right. rewrite !forallb_app. apply andb_false_iff. right. done.
Qed.

Lemma separated_solid ps l : ps <> [] -> Forall solid ps -> solid (separated ps 0 l).
Proof.
  assert (forall ps i s, ends_dark s -> Forall solid ps -> ends_dark (s ++ separated ps i l)) as Hends.
  { clear. intros ps i s Hs H. revert i s Hs. induction H as [|p ps Hp _ IH]; intros i s Hs; [by rewrite app_nil_r | ].
    cbn [separated]. cbv zeta. rewrite !app_assoc. apply IH, ends_app. by apply solid_ends. }
  intros Hne H. destruct H as [|p ps Hp H]; [done | ]. cbn [separated]. change (SeparatorBefore l 0) with x00.
  change (negb (x00 =?b x00)) with false. cbn [app]. apply solid_app; [done | ]. apply Hends; [by apply solid_ends | done].
Qed.
Lemma piece_solid p d : readable_set p d -> solid (piece p d).
Proof.
  intros ([Hs Ha] & Hne & Hl & _). unfold piece.
  pose proof (b64_text_value d Hne Hl) as Hb. pose proof (base64_value_nonempty _ _ _ Hb) as Hbn. destruct Hb as [Hbe _].
  apply solid_app.
  - split; [by apply is_domain_nonempty | ]. destruct (domain_folded _ Hs) as [E _]. rewrite <- E in Hs. by apply raw_domain_facts.
  - do 4 apply ends_app. apply solid_ends. by split.
Qed.

Lemma sets_denoted plans layout ds maxSets :
  generatedSetLayout plans = Some layout -> Forall2 readable_set plans ds -> NoDup (map plan_Selector plans) ->
  len plans <= maxSets ->
  signatures_value L0 maxSets (script_text (set_items plans 0 layout (Some ds))) (zip_with read_set plans ds) layout.
Proof.
  intros (gs & E & Hne & Hgs & Hgood & ->)%generatedSetLayout_Some Hr Hnd Hmax.
  rewrite set_items_text. pose proof (plan_pieces_zip plans ds [] ltac:(by rewrite (Forall2_length _ _ _ Hr))) as Hp. cbn [app] in Hp.
  change (len (@nil bytes)) with 0 in Hp. rewrite Hp.
  destruct (regroup gs (zip_with piece plans ds)) as (gs' & E' & El).
  { rewrite length_zip_with, <- E. rewrite (Forall2_length _ _ _ Hr). lia. }
  pose proof (map_len_nonempty _ _ El Hgs) as Hgs'.
  assert (gs' <> []) as Hne' by (intros ->; by destruct gs).
  rewrite <- E', (separated_render _ gs') by (done || by rewrite GroupSizes_of).
  destruct Hr as [|p d ps ds Hpd Hr]; [destruct gs as [|[|? ?] ?]; [done | by apply Forall_cons in Hgs as [? _] | done] | ]. cbn [zip_with] in E'.
  destruct (tabbed_concat gs' _ _ Hgs' E') as (Ec & Em & Hgt).
  assert (len (concat (tabbed gs')) = len (p :: ps)) as Hlen.
  { rewrite Ec, !len_cons. unfold len. rewrite length_map, length_zip_with, (Forall2_length _ _ _ Hr). lia. }
  assert (Forall2 (fun s t => denotes_set L0 s t /\ piece_ok t) (zip_with read_set (p :: ps) (d :: ds)) (concat (tabbed gs'))) as Hden.
  { rewrite Ec. cbn [zip_with]. constructor.
    - split; [apply (piece_denotes p d []) | apply (piece_fine p d [])]; done || constructor.
    - clear -Hr. induction Hr as [|q e ps ds Hq _ IH]; [constructor | ]. cbn [zip_with map]. constructor; [ | done].
      split; [apply (piece_denotes q e [x09]) | apply (piece_fine q e [x09])]; done || by repeat constructor. }
  exists (tabbed gs'). split_and!.
  - split; [by intros Hx; rewrite Hx in Ec | ].
    assert (Forall piece_ok (concat (tabbed gs'))) as Hok by (clear -Hden; induction Hden as [|? ? ? ? [_ ?] ? ?]; constructor; done).
    revert Hok Hgt. generalize (tabbed gs'). clear. intros gs Hok Hgt. induction Hgt as [|g gs Hg _ IH]; [constructor | ].
    cbn [concat] in Hok. apply Forall_app in Hok as [? ?]. constructor; [by split | auto].
  - rewrite Hlen, E. destruct Hgood as (_ & _ & Hs). 
    assert (forall A (gs : list (list A)), len (concat gs) = sum_sizes (map len gs)) as Hsum; [ | by rewrite Hsum].
    clear. intros A gs. induction gs as [|g gs IH]; [done | ]. cbn [map concat]. by rewrite sum_sizes_cons, len_app, IH.
  - by rewrite Hlen.
  - done.
  - by rewrite Em, El.
  - eapply Forall2_impl; [exact Hden | ]. by intros s t [? _].
  - assert (selector <$> zip_with read_set (p :: ps) (d :: ds) = map plan_Selector (p :: ps)) as ->; [ | done].
    cbn [zip_with fmap list_fmap map]. f_equal. clear -Hr. induction Hr as [|? ? ? ? ? _ IH]; [done | ]. cbn. by rewrite <- IH.
Qed.

(** ** Lists of recipients and flags *)
Lemma recipient_items_more rs i :
  0 < i -> script_text (recipient_items rs i) = concat (map (cons AllSeparator) (map b64_cont_text rs)).
Proof.
  revert i. induction rs as [|r rs IH]; intros i Hi; [done | ]. cbn [recipient_items]. rewrite (proj2 (Z.ltb_lt _ _)) by done.
  rewrite script_text_app, IH, script_text_cons by lia. done.
Qed.
Lemma recipient_items_text r rs :
  script_text (recipient_items (r :: rs) 0) = render_group (b64_text r :: map b64_cont_text rs).
Proof.
  cbn [recipient_items]. change (0 <? 0) with false. cbv iota. rewrite script_text_app, recipient_items_more, render_group_concat by lia. done.
Qed.
Lemma flag_items_more fs i : 0 < i -> script_text (flag_items fs i) = concat (map (cons AllSeparator) fs).
Proof.
  revert i. induction fs as [|f fs IH]; intros i Hi; [done | ]. cbn [flag_items]. rewrite (proj2 (Z.ltb_lt _ _)) by done.
  cbn [app]. rewrite !script_text_cons, IH by lia. done.
Qed.
Lemma flag_items_text f fs : script_text (flag_items (f :: fs) 0) = render_group (f :: fs).
Proof.
  cbn [flag_items]. change (0 <? 0) with false. cbn [app]. rewrite script_text_cons, flag_items_more, render_group_concat by lia. done.
Qed.
Lemma render_group_solid g : g <> [] -> Forall solid g -> solid (render_group g).
Proof. intros Hne H. destruct H as [|p g Hp Hg]; [done | ]. rewrite render_group_concat. by apply solid_joined. Qed.
Lemma in_render_group p g : p ∈ g -> len p <= len (render_group g).
Proof.
  destruct g as [|q g]; [by intros ?%elem_of_nil | ]. rewrite render_group_concat, len_app. pose proof (len_nonneg (concat (map (cons AllSeparator) g))). pose proof (len_nonneg q).
  intros [-> | Hp]%elem_of_cons; [lia | ]. assert (len p <= len (concat (map (cons AllSeparator) g))); [ | lia].
  clear -Hp. induction Hp as [p g | p x g Hp IH]; cbn [map concat]; rewrite len_app, len_cons.
  - pose proof (len_nonneg (concat (map (cons AllSeparator) g))). lia.
  - pose proof (len_nonneg x). lia.
Qed.

Section paths.
Context (registration : bytes -> option bytes).
Definition read_path (text p : bytes) : EnvelopePath := MkPath p (read_b64 text p).
Definition read_recipients (rs : list bytes) : list EnvelopePath :=
  match rs with
  | [] => []
  | r :: rs => read_path (b64_text r) r :: map (fun r => read_path (b64_cont_text r) r) rs
  end.
(** Texts without white space at their ends, decided. *)
Lemma clean_edges s :
  (match s with [] => true | b :: _ => negb (TagTypes.isWSP b) && negb (TagTypes.isWSP (List.last s b)) end) = true -> edged TagTypes.isWSP s.
Proof.
  destruct s as [|b s]; [intros _; split; intros; by destruct t | ]. intros [H1%negb_true_iff H2%negb_true_iff]%andb_true_iff. by apply edged_ends.
Qed.
Definition valid_path (allowNull : bool) (p : bytes) : Prop := validRecordedEnvelopePath registration p allowNull = true.
Lemma valid_path_nonempty allowNull p : valid_path allowNull p -> p <> [].
Proof. unfold valid_path. intros H ->. by destruct allowNull. Qed.

Lemma recipients_denoted rs maxRecipients :
  rs <> [] -> Forall (valid_path false) rs -> len rs <= maxRecipients ->
  len (script_text (recipient_items rs 0)) <= 65536 ->
  recipients_value registration L0 maxRecipients (script_text (recipient_items rs 0)) (read_recipients rs).
Proof.
  intros Hne Hv Hmax Hlen. destruct rs as [|r rs]; [done | ]. rewrite recipient_items_text in *.
  assert (forall s, s ∈ b64_text r :: map b64_cont_text rs -> len s <= 65536) as Hl.
  { intros s Hs%in_render_group. lia. }
  exists (b64_text r :: map b64_cont_text rs). split_and!; [done | | ].
  - rewrite len_cons in *. unfold len in *. by rewrite length_map.
  - apply Forall_cons in Hv as [Hr Hv].
    assert (forall final t p, t = b64_text p \/ t = b64_cont_text p -> valid_path false p -> len t <= 65536 ->
              recipient_part registration L0 final (read_path t p) t) as Hpart.
    { intros final t p Ht Hp Htl. exists [], t, [].
      do 2 (split; [constructor | ]). do 2 (split; [by rewrite ?app_nil_r | ]). split_and!; [ | done | done]. pose proof (valid_path_nonempty _ _ Hp).
      destruct Ht as [-> | ->]; [by apply b64_text_value | by apply b64_cont_text_value]. }
    cbn [read_recipients]. assert (len (b64_text r) <= 65536) as Hl0 by (apply Hl; by left).
    assert (forall s, s ∈ map b64_cont_text rs -> len s <= 65536) as Hls by (intros s Hs; apply Hl; by right).
    assert (recipient_list registration L0 (map (fun r => read_path (b64_cont_text r) r) rs) (map b64_cont_text rs) \/ rs = []) as Hrest.
    { clear -Hv Hls Hpart. induction Hv as [|p rs Hp Hv IH]; [by right | left]. cbn [map] in *.
      destruct IH as [IH | ->]; [intros s Hs; apply Hls; by right | | ].
      - apply recipient_more; [ | done]. apply Hpart; [by right | done | apply Hls; by left].
      - apply recipient_last. apply Hpart; [by right | done | apply Hls; by left]. }
    destruct Hrest as [Hrest | ->].
    + apply recipient_more; [ | done]. apply Hpart; [by left | done | done].
    + apply recipient_last. apply Hpart; [by left | done | done].
Qed.
Lemma recipients_solid rs :
  rs <> [] -> Forall (valid_path false) rs -> len (script_text (recipient_items rs 0)) <= 65536 ->
  edged TagTypes.isWSP (script_text (recipient_items rs 0)).
Proof.
  intros Hne Hv Hlen. destruct rs as [|r rs]; [done | ]. rewrite recipient_items_text in *.
  assert (forall s, s ∈ b64_text r :: map b64_cont_text rs -> len s <= 65536) as Hl by (intros s Hs%in_render_group; lia).
  apply Forall_cons in Hv as [Hr Hv].
  assert (forall t p, t = b64_text p \/ t = b64_cont_text p -> valid_path false p -> len t <= 65536 -> solid t) as Hone.
  { intros t p Ht Hp Htl. pose proof (valid_path_nonempty _ _ Hp).
    assert (exists v, base64_value L0 t v) as (v & Hb) by (destruct Ht as [-> | ->]; eexists; [by apply b64_text_value | by apply b64_cont_text_value]).
    split; [by eapply base64_value_nonempty | by destruct Hb]. }
  apply render_group_solid; [done | ]. constructor; [apply (Hone _ r); [by left | done | apply Hl; by left] | ].
  assert (forall s, s ∈ map b64_cont_text rs -> len s <= 65536) as Hls by (intros s Hs; apply Hl; by right).
  clear -Hv Hls Hone. induction Hv as [|p rs Hp Hv IH]; [constructor | ]. cbn [map] in *.
  constructor; [apply (Hone _ p); [by right | done | apply Hls; by left] | apply IH; intros s Hs; apply Hls; by right].
Qed.
End paths.

Definition read_flags (fs : list bytes) : Flags := MkFlags (map (fun f => MkFlag f true) fs).
Lemma flags_denoted fs maxFlags :
  fs <> [] -> Forall ok_flag fs -> NoDup fs -> len fs <= maxFlags ->
  flags_value maxFlags (script_text (flag_items fs 0)) (read_flags fs).
Proof.
  intros Hne Hf Hnd Hmax. destruct fs as [|f fs]; [done | ]. rewrite flag_items_text. exists (f :: fs). cbn [read_flags values]. split_and!.
  - done.
  - rewrite render_group_concat. apply Forall_cons in Hf as [[(_ & Hfn & _)%ParseTextstring_Some _] _]. by destruct f.
  - done.
  - clear -Hf. induction Hf as [|g gs [Hg Hk] _ IH]; [constructor | ]. cbn [map]. constructor; [ | done].
    exists [], []. split_and!; try constructor; cbn [flag_name flag_known]; [by rewrite app_nil_r | done | done].
  - assert (List.filter flag_known (map (fun f => MkFlag f true) (f :: fs)) = map (fun f => MkFlag f true) (f :: fs)) as ->.
    { generalize (f :: fs). clear. induction l as [|g l IH]; [done | ]. cbn. by rewrite IH. }
    assert ((flag_name <$> map (fun f => MkFlag f true) (f :: fs)) = f :: fs) as ->; [ | done].
    generalize (f :: fs). clear. induction l as [|g l IH]; [done | ]. cbn. f_equal. exact IH.
Qed.
Lemma known_flags_few fs : Forall ok_flag fs -> NoDup fs -> len fs <= 3.
Proof.
  intros Hf Hnd. assert (fs ⊆ [FlagFeedback; FlagFeedHere; FlagExploded]) as Hs.
  { intros f Hin. rewrite Forall_forall in Hf. destruct (Hf f Hin) as [_ Hk]. unfold knownFlag in Hk.
    repeat (apply orb_true_iff in Hk as [Hk | Hk]; [ | apply bool_decide_eq_true in Hk; subst f; set_solver]).
    apply bool_decide_eq_true in Hk. subst f. set_solver. }
  pose proof (NoDup_submseteq _ _ Hnd Hs) as Hsub.
  apply submseteq_length in Hsub. unfold len. cbn in Hsub. lia.
Qed.

(** ** The signature that the parser reads *)
Section completed.
Context (registration : bytes -> option bytes) (L : RenderLimits) (c : TargetRequest) (layout : Layout).
Hypothesis Hfrozen : frozen registration L c.
Hypothesis Hwide : wide c.
Hypothesis Hlay : generatedSetLayout (tr_Sets c) = Some layout.
Hypothesis HL : RenderLimits_Validate L = Ret tt.
Context (values ordered : list SetValue).
Hypothesis Hcompletes : completes L (tr_Sets c) values ordered.
Hypothesis Hfits : fits_limits L (complete_script c layout ordered) = true.
Definition valid_paths : Prop :=
  tr_NextDomain c = [] -> valid_path registration true (tr_MailFrom c) /\ Forall (valid_path registration false) (tr_Recipients c).
Hypothesis Hpaths : valid_paths.
Let ds := map sv_Signature ordered.
Let all := (bs "i", sequence_items c) :: target_tags c layout (Some ds).
Let f := field_of (map as_tag all).

Definition read_signature : Signature :=
  let next := negb (bool_decide (tr_NextDomain c = [])) in
  MkSignature (tr_Sequence c) (tr_InstanceNumber c) (tr_Timestamp c)
    (if next then noPath else read_path (b64_text (tr_MailFrom c)) (tr_MailFrom c))
    (if next then [] else read_recipients (tr_Recipients c)) (tr_NextDomain c) next (tr_Domain c)
    (zip_with read_set (tr_Sets c) ds) layout (read_flags (tr_Flags c))
    (if tr_NoncePresent c then trim_bytes TagTypes.isWSP (tr_Nonce c) else []) (tr_NoncePresent c) 0.

Lemma limits_facts : 0 <= MaxFieldBytes L <= 65536 /\ 0 <= MaxLineBytes L <= 998.
Proof using HL. apply RenderLimits_Validate_Ret in HL. clear -HL. lia. Qed.
Lemma tag_there n v : (n, v) ∈ all -> tag_of f n (trim_bytes TagTypes.isWSP (script_text v)).
Proof using. intros H. exists (as_tag (n, v)). split; [ | done]. unfold f. rewrite tags_field_of. by apply list_elem_of_fmap_2. Qed.
Lemma tag_text_there n v : (n, v) ∈ all -> edged TagTypes.isWSP (script_text v) -> tag_of f n (script_text v).
Proof using.
  intros H He. pose proof (tag_there n v H) as Ht. pose proof (as_tag_edged n v He) as E. injection E as E. by rewrite E in Ht.
Qed.
Lemma tag_absent n : n ∉ map fst all -> forall v, ~ tag_of f n v.
Proof using.
  intros Hn v (t & Ht & <- & _). unfold f in Ht. rewrite tags_field_of in Ht. apply list_elem_of_fmap in Ht as (x & -> & Hx).
  apply Hn. apply list_elem_of_fmap. by exists x.
Qed.
Lemma tag_short n v : (n, v) ∈ all -> len (script_text v) <= 65536.
Proof using All.
  intros Hin. destruct limits_facts as [HF HLn].
  destruct (target_field registration L c Hfrozen Hwide layout (Some ds) HF HLn Hfits) as (_ & _ & _ & _ & _ & _ & Hl).
  unfold target_value in Hl. apply header_value_len in Hin. cbn [snd] in Hin. lia.
Qed.
Lemma readable_sets : len (script_text (set_items (tr_Sets c) 0 layout (Some ds))) <= 65536 -> Forall2 readable_set (tr_Sets c) ds.
Proof using Hfrozen Hcompletes.
  intros Hl. rewrite set_items_text in Hl. destruct Hcompletes as [_ Hs]. destruct Hfrozen as (_ & _ & _ & _ & (_ & Hp & _) & _).
  assert (length ds = length (tr_Sets c)) as Hlen by (unfold ds; by rewrite length_map, (Forall2_length _ _ _ Hs)).
  pose proof (plan_pieces_zip (tr_Sets c) ds [] Hlen) as Hz. cbn [app] in Hz. change (len (@nil bytes)) with 0 in Hz. rewrite Hz in Hl.
  assert (Forall (fun p => len p <= 65536) (zip_with piece (tr_Sets c) ds)) as Hpl.
  { revert Hl. generalize (zip_with piece (tr_Sets c) ds) 0. clear. intros ps i Hl. revert i Hl.
    induction ps as [|p ps IH]; intros i Hl; [constructor | ]. cbn [separated] in Hl. cbv zeta in Hl. rewrite !len_app in Hl.
    pose proof (len_nonneg (separated ps (i + 1) layout)). pose proof (len_nonneg p).
    match type of Hl with len ?x + _ <= _ => pose proof (len_nonneg x) end. constructor; [lia | apply (IH (i + 1)); lia]. }
  clear -Hs Hp Hpl. unfold ds in *. revert Hp Hpl Hs. generalize (tr_Sets c). intros ps Hp Hpl Hs.
  induction Hs as [|p v ps vs (_ & _ & Hg) _ IH]; [constructor | ]. apply Forall_cons in Hp as [Hp0 Hp]. cbn [map zip_with] in *.
  apply Forall_cons in Hpl as [Hpl0 Hpl]. constructor; [ | by apply IH]. destruct Hg as (Hg & _ & Hx). split_and!; [done | | | done].
  - intros E. rewrite E in Hg. change (len (@nil byte)) with 0 in Hg. lia.
  - unfold piece in Hpl0. rewrite !len_app in Hpl0. pose proof (len_nonneg (plan_Selector p)). pose proof (len_nonneg (plan_Algorithm p)).
    change (len [x3a]) with 1 in Hpl0. lia.
Qed.

Lemma edged_number n : 0 <= n < 10 ^ 20 -> edged TagTypes.isWSP (format_uint n).
Proof using.
  clear. intros Hn. destruct (format_uint_spec n Hn) as (Hd & _). apply (all_dark_edged is_digit); [ | by apply digits_Forall].
  intros b Hb. by apply digit_byte in Hb as (_ & ? & _).
Qed.
Lemma one_text s : script_text [Txt s] = s.
Proof using. clear. unfold script_text. cbn. by rewrite app_nil_r. Qed.

Lemma all_i : (bs "i", sequence_items c) ∈ all.
Proof using. by left. Qed.
Lemma all_m : (bs "m", [Txt (format_uint (tr_InstanceNumber c))]) ∈ all.
Proof using. right. by left. Qed.
Lemma all_t : (bs "t", [Txt (format_uint (tr_Timestamp c))]) ∈ all.
Proof using. right. right. by left. Qed.
Lemma all_d : (bs "d", [Txt (tr_Domain c)]) ∈ all.
Proof using. do 3 right. apply elem_of_app. right. by left. Qed.
Lemma all_s : (bs "s", set_items (tr_Sets c) 0 layout (Some ds)) ∈ all.
Proof using. do 3 right. apply elem_of_app. right. right. by left. Qed.
Lemma all_envelope t : t ∈ envelope_tags_of c -> t ∈ all.
Proof using. intros H. do 3 right. apply elem_of_app. by left. Qed.
Lemma all_n : tr_NoncePresent c = true -> (bs "n", [Txt (tr_Nonce c)]) ∈ all.
Proof using. clear. intros E. do 3 right. apply elem_of_app. right. do 2 right. cbn [app]. rewrite E. by left. Qed.
Lemma all_f : 0 <? len (tr_Flags c) = true -> (bs "f", flag_items (tr_Flags c) 0) ∈ all.
Proof using. clear. intros E. do 3 right. apply elem_of_app. right. do 2 right. cbn [app]. apply elem_of_app. right. rewrite E. by left. Qed.

Lemma read_envelope : envelope_tags registration DefaultLimits f read_signature.
Proof using All.
  unfold envelope_tags. change (TagTypes.Limits_normalize (TagLimits DefaultLimits)) with L0. unfold read_signature.
  cbn [hasNextDomain nextDomain mailFrom recipients].
  pose proof Hfrozen as (_ & _ & _ & [(Hd & Hne & _) | (En & Hl & _ & _ & _ & _)] & _).
  - assert (bool_decide (tr_NextDomain c = []) = false) as Eb by by apply bool_decide_eq_false_2. rewrite Eb. cbn [negb].
    destruct (domain_folded _ Hd) as [E _]. split_and!.
    + exists (tr_NextDomain c). split; [ | unfold domain_value; by rewrite E]. rewrite <- (one_text (tr_NextDomain c)).
      apply tag_text_there; [apply all_envelope; unfold envelope_tags_of; rewrite Eb; by left | ]. rewrite one_text. rewrite <- E in Hd. by apply raw_domain_facts.
    + apply tag_absent. unfold all, target_tags, envelope_tags_of. rewrite Eb. destruct (tr_NoncePresent c), (0 <? len (tr_Flags c));
        apply (bool_decide_unpack _); by vm_compute.
    + apply tag_absent. unfold all, target_tags, envelope_tags_of. rewrite Eb. destruct (tr_NoncePresent c), (0 <? len (tr_Flags c));
        apply (bool_decide_unpack _); by vm_compute.
    + done.
    + done.
  - assert (bool_decide (tr_NextDomain c = []) = true) as Eb by by apply bool_decide_eq_true_2. rewrite Eb. cbn [negb].
    destruct (Hpaths En) as [Hm Hr].
    assert (envelope_tags_of c = [(bs "mf", b64_items (tr_MailFrom c)); (bs "rt", recipient_items (tr_Recipients c) 0)]) as Ee
      by (unfold envelope_tags_of; by rewrite Eb).
    assert ((bs "mf", b64_items (tr_MailFrom c)) ∈ all) as Hmf by (apply all_envelope; rewrite Ee; by left).
    assert ((bs "rt", recipient_items (tr_Recipients c) 0) ∈ all) as Hrt by (apply all_envelope; rewrite Ee; right; by left).
    pose proof (b64_text_value (tr_MailFrom c) (valid_path_nonempty _ _ _ Hm) (tag_short _ _ Hmf)) as Hmv.
    assert (tr_Recipients c <> []) as Hrne by (intros E; rewrite E in Hl; change (len (@nil bytes)) with 0 in Hl; clear -Hl; lia).
    pose proof (recipients_denoted registration (tr_Recipients c) 2000 Hrne Hr) as Hrv.
    assert (len (tr_Recipients c) <= 2000) as Hmax.
    { apply RenderLimits_Validate_Ret in HL as (_ & _ & HL3 & _). clear -Hl HL3. lia. }
    specialize (Hrv Hmax (tag_short _ _ Hrt)). split_and!.
    + apply tag_absent. unfold all, target_tags, envelope_tags_of. rewrite Eb. destruct (tr_NoncePresent c), (0 <? len (tr_Flags c));
        apply (bool_decide_unpack _); by vm_compute.
    + done.
    + exists (b64_text (tr_MailFrom c)). split; [apply tag_text_there; [done | by destruct Hmv] | ]. by split_and!.
    + exists (script_text (recipient_items (tr_Recipients c) 0)). split; [ | done]. apply tag_text_there; [done | ].
      apply (recipients_solid registration); [done | done | ]. by apply tag_short in Hrt.
Qed.

Lemma read_sets_value :
  exists v, tag_of f (bs "s") v /\ signatures_value L0 16 v (zip_with read_set (tr_Sets c) ds) layout.
Proof using All.
  pose proof (tag_short _ _ all_s) as Hl. pose proof (readable_sets Hl) as Hr.
  pose proof Hfrozen as (_ & _ & _ & _ & (Hn & _ & Hnd & _) & _).
  exists (script_text (set_items (tr_Sets c) 0 layout (Some ds))). split.
  - apply tag_text_there; [apply all_s | ]. rewrite set_items_text.
    pose proof (plan_pieces_zip (tr_Sets c) ds [] ltac:(by rewrite (Forall2_length _ _ _ Hr))) as Hz. cbn [app] in Hz.
    change (len (@nil bytes)) with 0 in Hz. rewrite Hz. apply separated_solid.
    + destruct Hr; [ | done]. clear -Hn. by change (len (@nil SetPlan)) with 0 in Hn; lia.
    + revert Hr. clear. induction 1 as [|p d ps es Hp _ IH]; [constructor | ]. cbn [zip_with]. constructor; [by apply piece_solid | done].
  - apply sets_denoted; [done | done | done | ]. apply RenderLimits_Validate_Ret in HL as (_ & _ & _ & HS & _).
    change maxGeneratedSets with 3 in HS. clear -Hn HS. lia.
Qed.
Lemma read_flags_value :
  (exists v, tag_of f (bs "f") v /\ flags_value 32 v (read_flags (tr_Flags c))) \/
  ((forall v, ~ tag_of f (bs "f") v) /\ read_flags (tr_Flags c) = noFlags).
Proof using All.
  pose proof Hfrozen as (_ & _ & _ & _ & _ & _ & Hf & Hnd & _). destruct (0 <? len (tr_Flags c)) eqn:E.
  - left. exists (script_text (flag_items (tr_Flags c) 0)).
    assert (tr_Flags c <> []) as Hne by (intros Hx; by rewrite Hx in E). split.
    + apply tag_text_there; [by apply all_f | ]. destruct (tr_Flags c) as [|g gs]; [done | ]. rewrite flag_items_text.
      apply render_group_solid; [done | ]. eapply Forall_impl; [exact Hf | ]. intros h [Hh _]. split.
      * by apply ParseTextstring_Some in Hh as (_ & ? & _).
      * by apply textstring_facts.
    + apply flags_denoted; [done | done | done | ]. pose proof (known_flags_few _ Hf Hnd) as Hfew. clear -Hfew. lia.
  - right. split.
    + apply tag_absent. unfold all, target_tags, envelope_tags_of. rewrite E. destruct (negb _), (tr_NoncePresent c);
        apply (bool_decide_unpack _); by vm_compute.
    + destruct (tr_Flags c) as [|g gs]; [done | ]. apply Z.ltb_ge in E. rewrite len_cons in E. pose proof (len_nonneg gs) as Hg. clear -E Hg. lia.
Qed.
Lemma trimmed_nonce s n : ValidNonceSyntax s = true -> len s <= n ->
  ValidNonceSyntax (trim_bytes TagTypes.isWSP s) = true /\ len (trim_bytes TagTypes.isWSP s) <= n.
Proof using.
  clear. intros Hs Hl. destruct (trim_bytes_split TagTypes.isWSP s) as (w1 & w2 & E & _). set (u := trim_bytes _ s) in *.
  rewrite E in Hs, Hl. unfold ValidNonceSyntax in *. rewrite !forallb_app in Hs. apply andb_true_iff in Hs as [_ [Hs _]%andb_true_iff].
  rewrite !len_app in Hl. pose proof (len_nonneg w1). pose proof (len_nonneg w2). split; [done | lia].
Qed.
Lemma read_nonce :
  optional_tag f (bs "n") (hasNonce read_signature) (fun v => nonce_value DefaultLimits v (nonce read_signature)) (nonce read_signature = []).
Proof using All.
  pose proof Hfrozen as (_ & _ & _ & _ & _ & Hn & _). unfold nonce_ok in Hn. unfold read_signature, optional_tag. cbn [hasNonce nonce].
  destruct (tr_NoncePresent c) eqn:E.
  - exists (trim_bytes TagTypes.isWSP (tr_Nonce c)). pose proof (tag_there _ _ (all_n E)) as Ht. rewrite one_text in Ht. split; [done | ].
    destruct Hn as [Hn1 Hn2]. apply RenderLimits_Validate_Ret in HL as (_ & _ & _ & _ & _ & HN & _).
    destruct (trimmed_nonce _ 64 Hn2) as [H1 H2]; [clear -Hn1 HN; lia | ]. by split_and!.
  - split; [ | done]. apply tag_absent. unfold all, target_tags, envelope_tags_of. rewrite E. destruct (negb _), (0 <? len (tr_Flags c));
      apply (bool_decide_unpack _); by vm_compute.
Qed.
Lemma read_tags : signature_tags registration DefaultLimits f read_signature.
Proof using All.
  pose proof Hfrozen as (H1 & H2 & Hd & _). pose proof Hwide as (W1 & W2 & W3). unfold u64, MaxUint64 in W1, W2, W3.
  assert (forall n, 0 <= n <= 18446744073709551615 -> 0 <= n < 10 ^ 20) as Hpow by (clear; lia).
  assert (forall n, n <> 0 -> 0 <= n <= 18446744073709551615 -> 0 < n <= MaxUint64) as Hpos by (clear; unfold MaxUint64; lia).
  unfold signature_tags. change (TagTypes.Limits_normalize (TagLimits DefaultLimits)) with L0. split_and!.
  - exists (format_uint (tr_Sequence c)). split; [ | apply number_ok; by apply Hpos].
    pose proof (tag_text_there _ _ all_i) as Ht. unfold sequence_items in Ht. rewrite one_text in Ht. by apply Ht, edged_number, Hpow.
  - exists (format_uint (tr_InstanceNumber c)). split; [ | apply number_ok; by apply Hpos].
    pose proof (tag_text_there _ _ all_m) as Ht. rewrite one_text in Ht. by apply Ht, edged_number, Hpow.
  - exists (format_uint (tr_Timestamp c)). split.
    + pose proof (tag_text_there _ _ all_t) as Ht. rewrite one_text in Ht. by apply Ht, edged_number, Hpow.
    + destruct (format_uint_spec _ (Hpow _ W3)) as (Hdg & Hv & Hne & _). unfold timestamp_value. split_and!; [done | done | done | ].
      unfold MaxUint64. clear -W3. cbn. lia.
  - exists (tr_Domain c). destruct (domain_folded _ Hd) as [E _]. split; [ | unfold domain_value; by rewrite E].
    pose proof (tag_text_there _ _ all_d) as Ht. rewrite one_text in Ht. apply Ht. rewrite <- E in Hd. by apply raw_domain_facts.
  - apply read_sets_value.
  - apply read_envelope.
  - apply read_nonce.
  - apply read_flags_value.
Qed.

Lemma completed_parses :
  exists field, parseRenderedSignatureField (script_bytes (complete_script c layout ordered)) = Ret field /\
    SigParser.Parse registration field = Ret read_signature /\
    ScanHeader (unfoldedValue field) knownSignatureTags TagTypes.DefaultLimits = Ret f.
Proof using All.
  destruct limits_facts as [HF HLn].
  destruct (target_field registration L c Hfrozen Hwide layout (Some ds) HF HLn Hfits) as (field & Hp & Hu & Hname & Hi & Hb & Hlen).
  destruct (target_scan registration L c Hfrozen Hwide layout (Some ds) HF HLn Hfits) as [Hs _].
  exists field. split; [done | ]. rewrite Hu. split; [ | done].
  unfold SigParser.Parse. change (NewParser _) with (Ret (E := Failure) DefaultLimits). cbn [obind].
  apply sig_ParseField_Ret. split_and!; [done | by rewrite Hi | ]. rewrite Hu.
  unfold signature_text. change (TagTypes.Limits_normalize (TagLimits DefaultLimits)) with L0. split_and!; [done | done | done | ].
  exists f. split; [ | apply read_tags]. apply scan_iff in Hs as (_ & _ & text & [-> _] & Ht). exact Ht.
Qed.

(** ** The request of the signature *)
Definition with_nonce (r : TargetRequest) (n : bytes) : TargetRequest :=
  MkTarget (tr_Sequence r) (tr_InstanceNumber r) (tr_Timestamp r) (tr_MailFrom r) (tr_Recipients r) (tr_NextDomain r) (tr_Domain r)
    (tr_Sets r) n (tr_NoncePresent r) (tr_Flags r).
Lemma read_plans : map (fun s => MkPlan (selector s) (algorithm s)) (signatures read_signature) = tr_Sets c /\
  map (fun s => MkComponent (rawSelector s) (algorithm s)) (signatures read_signature) =
  map (fun p => MkComponent (plan_Selector p) (plan_Algorithm p)) (tr_Sets c) /\
  map (fun s => decoded (set_signature s)) (signatures read_signature) = ds.
Proof using Hcompletes.
  destruct Hcompletes as [_ Hs]. cbn [read_signature signatures]. unfold ds. revert Hs. generalize (tr_Sets c). clear. intros ps Hs.
  induction Hs as [|p v ps vs _ _ (IH1 & IH2 & IH3)]; [done | ]. cbn [zip_with map]. rewrite IH1, IH2, IH3. split_and!; [by destruct p | done | done].
Qed.
Lemma read_request : targetRequestFromComplete read_signature = with_nonce c (trim_bytes TagTypes.isWSP (tr_Nonce c)).
Proof using Hcompletes Hfrozen.
  unfold targetRequestFromComplete, Signature_NextDomain, Signature_Nonce. destruct read_plans as (-> & _).
  cbn [read_signature sequence instanceNumber timestamp mailFrom recipients nextDomain hasNextDomain domain signatures flags nonce hasNonce read_flags SigTypes.values].
  pose proof Hfrozen as (_ & _ & _ & Henv & _ & Hn & _).
  assert (map flag_name (map (fun f => MkFlag f true) (tr_Flags c)) = tr_Flags c) as -> by (rewrite map_map; apply map_id).
  assert (forall rs, map value (read_recipients rs) = rs) as Hr.
  { clear. intros [|r rs]; [done | ]. cbn [read_recipients map value read_path]. rewrite map_map. cbn [value read_path]. by rewrite map_id. }
  assert (default [] (if negb (tr_NoncePresent c) then None else Some (if tr_NoncePresent c then trim_bytes TagTypes.isWSP (tr_Nonce c) else [])) =
          trim_bytes TagTypes.isWSP (tr_Nonce c)) as ->.
  { unfold nonce_ok in Hn. destruct (tr_NoncePresent c); [done | ]. by rewrite Hn. }
  unfold with_nonce. destruct Henv as [(_ & Hne & Em & Er) | (En & _)].
  - rewrite bool_decide_eq_false_2 by done. cbn [negb default map]. by rewrite Em, Er.
  - rewrite bool_decide_eq_true_2 by done. cbn [negb default value read_path]. by rewrite Hr, En.
Qed.

Hypothesis registration_fixed : forall d a, registration d = Some a -> registration a = Some a.
Hypothesis Hunsigned : fits_limits L (unsigned_script c layout) = true.

Lemma matchLoop_same ts us s :
  Forall2 (fun t u => tag_name t = tag_name u /\
    logicalUnsignedTagValue t s = Some (signatureValueWithoutWSP (tag_value u))) ts us -> matchLoop ts us s = true.
Proof using.
  clear. induction 1 as [|t u ts us [En Ev] _ IH]; [done | ]. cbn [matchLoop]. rewrite En, bytes_equal_refl. cbn [negb].
  by rewrite Ev, bytes_equal_refl.
Qed.
Lemma unsigned_value : UnsignedSignatureValue read_signature = Some (signatureValueWithoutWSP (script_text (set_items (tr_Sets c) 0 layout None))).
Proof using Hcompletes Hfrozen Hlay.
  rewrite <- (unsignedSetList_text (tr_Sets c) layout) by (done || by eapply frozen_dark).
  unfold UnsignedSignatureValue, unsignedSetListFromPlans. destruct read_plans as (_ & -> & _). by rewrite Hlay.
Qed.
Lemma signature_trim s : signatureValueWithoutWSP (trim_bytes TagTypes.isWSP s) = signatureValueWithoutWSP s.
Proof using.
  clear. destruct (trim_bytes_split TagTypes.isWSP s) as (w1 & w2 & E & _ & H1 & H2). rewrite E at 2. rewrite !dark_app.
  assert (forall w, Forall (fun b => TagTypes.isWSP b = true) w -> signatureValueWithoutWSP w = []) as Hw.
  { clear. unfold signatureValueWithoutWSP. induction 1 as [|b w Hb _ IH]; [done | ]. cbn. change (isWSP b) with (TagTypes.isWSP b). by rewrite Hb. }
  rewrite (Hw w1), (Hw w2) by done. by rewrite app_nil_r.
Qed.
Lemma tags_match :
  matchesUnsignedTagSequence f read_signature
    (field_of (map as_tag ((bs "i", sequence_items c) :: target_tags c layout None))) = true.
Proof using Hcompletes Hfrozen Hlay.
  unfold matchesUnsignedTagSequence, f. rewrite !tags_field_of.
  assert (Forall2 (fun t u : bytes * list item => t.1 = u.1 /\ (t.1 <> bs "s" -> t.2 = u.2) /\
            (t.1 = bs "s" -> u.2 = set_items (tr_Sets c) 0 layout None))
            all ((bs "i", sequence_items c) :: target_tags c layout None)) as HF.
  { assert (forall t : bytes * list item, t.1 <> bs "s" -> t.1 = t.1 /\ (t.1 <> bs "s" -> t.2 = t.2) /\
       (t.1 = bs "s" -> t.2 = set_items (tr_Sets c) 0 layout None)) as Hsame by (clear; intros; by split_and!).
    unfold all, target_tags, envelope_tags_of. destruct (negb _), (tr_NoncePresent c), (0 <? len (tr_Flags c)); cbn [app];
      repeat (constructor; [first [by apply Hsame | by split_and!] | ]); constructor. }
  assert (len (map as_tag all) = len (map as_tag ((bs "i", sequence_items c) :: target_tags c layout None))) as ->.
  { unfold len. rewrite !length_map. by rewrite (Forall2_length _ _ _ HF). }
  rewrite Z.eqb_refl. cbn [negb]. apply matchLoop_same. rewrite Forall2_fmap. eapply Forall2_impl; [exact HF | ].
  intros t u (E1 & E2 & E3). split; [done | ]. unfold logicalUnsignedTagValue, as_tag. cbn [tag_name tag_value].
  destruct (bytes_equal t.1 (bs "s")) eqn:Es; cbn [negb].
  - apply bytes_equal_eq in Es. rewrite unsigned_value, signature_trim. by rewrite (E3 Es).
  - rewrite E2; [done | ]. intros Hx. rewrite Hx in Es. by vm_compute in Es.
Qed.
Lemma completed_rebuilds :
  edged TagTypes.isWSP (tr_Nonce c) ->
  RebuildUnsignedFromComplete registration (unsigned_target L c layout) (MkComplete (script_bytes (complete_script c layout ordered))) =
  Ret (unsigned_target L c layout).
Proof using All.
  intros Hnonce. destruct (unsigned_target_stable registration registration_fixed L c layout HL Hfrozen Hwide Hlay Hunsigned) as [HN HV].
  destruct completed_parses as (field & Hp & Hs & Ht). destruct limits_facts as [HF HLn].
  destruct (target_field registration L c Hfrozen Hwide layout None HF HLn Hunsigned) as (field0 & Hp0 & Hu0 & _).
  destruct (target_scan registration L c Hfrozen Hwide layout None HF HLn Hunsigned) as [Hs0 _].
  unfold RebuildUnsignedFromComplete. rewrite HV. cbn [complete_field andb].
  assert (len (script_bytes (complete_script c layout ordered)) =? 0 = false) as ->.
  { apply Z.eqb_neq. intros E. destruct (script_bytes (complete_script c layout ordered)) as [|b s]; [ | rewrite len_cons in E; pose proof (len_nonneg s); clear -E H; lia].
    by vm_compute in Hp. }
  cbn [negb require obind]. rewrite Hp. cbn [map_fail obind]. rewrite Hs. cbn [map_fail obind]. rewrite Ht. cbn [map_fail obind].
  cbn [unsigned_target ut_unsigned ut_limits]. unfold unsigned_script in *. rewrite Hp0. cbn [map_fail obind]. rewrite Hu0, Hs0. cbn [map_fail obind].
  rewrite tags_match. cbn [require obind]. rewrite read_request.
  assert (with_nonce c (trim_bytes TagTypes.isWSP (tr_Nonce c)) = c) as ->.
  { assert (trim_bytes TagTypes.isWSP ([] ++ tr_Nonce c ++ []) = tr_Nonce c) as E by (apply trim_bytes_mid; [done | constructor | constructor]).
    cbn [app] in E. rewrite app_nil_r in E. rewrite E. unfold with_nonce. by destruct c. }
  rewrite HN. cbn [map_fail obind unsigned_target ut_unsigned]. by rewrite bytes_equal_refl.
Qed.
Lemma rebuilt_edged :
  RebuildUnsignedFromComplete registration (unsigned_target L c layout) (MkComplete (script_bytes (complete_script c layout ordered))) =
  Ret (unsigned_target L c layout) -> edged TagTypes.isWSP (tr_Nonce c).
Proof using All.
  destruct completed_parses as (field & Hp & Hs & _). unfold RebuildUnsignedFromComplete. cbn [complete_field].
  intros (_ & _ & H)%obind_ret_inv. rewrite Hp in H. cbn [map_fail obind] in H. rewrite Hs in H. cbn [map_fail obind] in H.
  apply obind_ret_inv in H as (? & _ & (? & _ & (? & _ & (_ & _ & (t & Ht & (_ & _ & [= ->])%obind_ret_inv)%obind_ret_inv)%obind_ret_inv)%obind_ret_inv)%obind_ret_inv).
  apply map_fail_Ret in Ht. rewrite read_request in Ht.
  apply NewUnsignedTarget_Ret in Ht as (? & c' & ? & _ & Hc' & _ & _ & E); [ | apply Hwide].
  apply (f_equal ut_request) in E. cbn [unsigned_target ut_request] in E. subst c'.
  apply canonicalTargetRequest_Ret in Hc' as (_ & _ & _ & _ & _ & _ & _ & _ & _ & E & _). cbn [with_nonce tr_Nonce] in E.
  rewrite E. by destruct (trim_bytes_split TagTypes.isWSP (tr_Nonce c)) as (? & ? & _ & ? & _).
Qed.
End completed.

(** C31: a completed field reads back, but for spaces at the ends of the nonce.
    For every target of NewUnsignedTarget and every field that Complete makes
    from it, whose paths hold no octets above 127 in an address literal, the
    field is one DKIM2-Signature header field for the parser, the signature has
    the sets of the plans with exactly the values given for them and the request
    of the target with its nonce trimmed; RebuildUnsignedFromComplete returns
    the target exactly when the nonce neither begins nor ends with a space.  The
    IDNA library is assumed to map its own results to themselves. *)
Theorem Complete_roundtrip registration r l t values f :
  (forall d a, registration d = Some a -> registration a = Some a) ->
  wide r -> NewUnsignedTarget registration r l = Ret t -> Complete t values = Ret f ->
  valid_paths registration (ut_request t) ->
  (exists field s ordered, parseRenderedSignatureField (complete_field f) = Ret field /\
     SigParser.Parse registration field = Ret s /\
     completes (ut_limits t) (tr_Sets (ut_request t)) values ordered /\
     map (fun set => decoded (set_signature set)) (signatures s) = map sv_Signature ordered /\
     targetRequestFromComplete s = with_nonce (ut_request t) (trim_bytes TagTypes.isWSP (tr_Nonce (ut_request t)))) /\
  (RebuildUnsignedFromComplete registration t f = Ret t <-> edged TagTypes.isWSP (tr_Nonce (ut_request t))).
Proof.
  intros Hfix Hw (L & c & layout & HL & Hc & Hlay & Hfit & ->)%NewUnsignedTarget_Ret; [ | done].
  apply canonicalTargetRequest_Ret in Hc. pose proof (canonical_of_frozen _ _ _ _ Hc) as Hfr. pose proof (wide_canonical _ _ _ _ Hc Hw) as Hwc.
  apply normalized_valid in HL. cbn [unsigned_target ut_request ut_limits].
  intros (ordered & Hcomp & Hf & ->)%(Complete_Ret registration); [ | done | done | done]. intros Hpaths. split.
  - destruct (completed_parses registration L c layout Hfr Hwc Hlay HL values ordered Hcomp Hf Hpaths) as (field & H1 & H2 & _).
    exists field, (read_signature c layout ordered), ordered. do 3 (split; [done | ]). split; [ | by eapply read_request].
    by destruct (read_plans L c layout values ordered Hcomp) as (_ & _ & ?).
  - split; [by eapply rebuilt_edged | by eapply completed_rebuilds].
Qed.

(** ** Witnesses *)
Lemma Complete_roundtrip_witness :
  Complete sample_unsigned sample_values = Ret sample_completed /\
  (exists field s, parseRenderedSignatureField (complete_field sample_completed) = Ret field /\
     SigParser.Parse sample_idna field = Ret s /\ length (signatures s) = 3%nat) /\
  RebuildUnsignedFromComplete sample_idna sample_unsigned sample_completed = Ret sample_unsigned.
Proof.
  assert (wide sample_target) as Hw by (repeat split; vm_compute; discriminate).
  assert (NewUnsignedTarget sample_idna sample_target sample_limits = Ret sample_unsigned) as H by (vm_compute; reflexivity).
  assert (Complete sample_unsigned sample_values = Ret sample_completed) as HC by (vm_compute; reflexivity).
  assert (valid_paths sample_idna (ut_request sample_unsigned)) as HP.
  { intros _. split; [vm_compute; reflexivity | ].
    assert (forallb (fun p => validRecordedEnvelopePath sample_idna p false) (tr_Recipients (ut_request sample_unsigned)) = true) as E by (vm_compute; reflexivity).
    apply List.Forall_forall. exact (proj1 (forallb_forall _ _) E). }
  assert (edged TagTypes.isWSP (tr_Nonce (ut_request sample_unsigned))) as He.
  { apply clean_edges. vm_compute. reflexivity. }
  destruct (Complete_roundtrip sample_idna sample_target sample_limits sample_unsigned sample_values sample_completed
              sample_idna_fixed Hw H HC HP) as [(field & s & ordered & H1 & H2 & [H3 _] & H4 & _) H5].
  split; [exact HC | split; [ | exact (proj2 H5 He)]]. exists field, s. split; [exact H1 | split; [exact H2 | ]].
  apply (f_equal length) in H4. rewrite !length_map in H4. rewrite H4. apply Permutation.Permutation_length in H3. exact H3.
Defined.

(** A nonce with a space at its end passes ValidNonceSyntax: a target is made
    and completed with it, but the field never gives the target back, because
    the parser drops the space. *)
Definition spaced_target : TargetRequest := with_nonce sample_target (bs "abc ").
Example spaced_nonce_rejected :
  match NewUnsignedTarget sample_idna spaced_target sample_limits with
  | Ret t => match Complete t sample_values with
             | Ret f => RebuildUnsignedFromComplete sample_idna t f = Fail (renderConstructionError "s")
             | _ => False
             end
  | _ => False
  end.
Proof. vm_compute. reflexivity. Qed.
