(* ===== verification/SigExtension.v ===== *)
(** * Package internal/signature: extending a chain of custody (custody.go)

    ValidateCompletedExtension and ValidateUnsignedExtension judge the inherited
    signatures of a header with one more signature: the completed field, or the
    target before it is signed.  They accept the same chains with the same
    result. *)

From stdpp Require Import gmap sorting.
From S2P Require Import Prelude GoBytes GoBase64 GoStrconv RawMsg RawBody RawParser RawSpec TagTypes TagScan TagBase64 Combine TagSpec Emitter FieldScript DomainName SigAlgorithm.
From S2P Require Import SigTypes SigEnvelope SigEnvelopeSpec SigParser SigSpec SigCollection SigCustody SigRender SigRenderSpec SigTarget SigUnsigned SigComplete SigRoundtrip.
#[local] Open Scope Z_scope.

Section idna.
Variable registration_ToASCII : bytes -> option bytes.

Definition ValidateCompletedExtension (hb : HeaderBlock) (complete : CompleteField) (limits : CustodyLimits)
    : outcome (CustodyResult * Failure) CustodyResult :=
  check require (CompleteField_Valid complete) (noCustodyResult, custodyMismatch) ;;
  let* ss := map_fail (pair noCustodyResult) (inheritedCustodySignatures registration_ToASCII hb) in
  let raw := complete_field complete ++ crlf in
  let* message := map_fail (fun _ => (noCustodyResult, custodyMismatch)) (RawParser.Parse raw) in
  match HeaderBlock_FieldsByName (headers message) HeaderName with
  | [generated] =>
      check require (negb (negb (len (hb_fields (headers message)) =? 1))) (noCustodyResult, custodyMismatch) ;;
      let* parsed := map_fail (pair noCustodyResult) (SigParser.Parse registration_ToASCII generated) in
      ValidateCustody registration_ToASCII (ss ++ [parsed]) limits
  | _ => Fail (noCustodyResult, custodyMismatch)
  end.
Definition syntheticSignature (request : TargetRequest) : Signature :=
  MkSignature (tr_Sequence request) (tr_InstanceNumber request) (tr_Timestamp request)
    (MkPath (tr_MailFrom request) emptyBase64) (map (fun recipient => MkPath recipient emptyBase64) (tr_Recipients request))
    (tr_NextDomain request) (negb (bool_decide (tr_NextDomain request = []))) (tr_Domain request) [] noLayout noFlags [] false (-1).
Definition ValidateUnsignedExtension (hb : HeaderBlock) (target : UnsignedTarget) (limits : CustodyLimits)
    : outcome (CustodyResult * Failure) CustodyResult :=
  check require (UnsignedTarget_Valid registration_ToASCII target) (noCustodyResult, custodyMismatch) ;;
  let* ss := map_fail (pair noCustodyResult) (inheritedCustodySignatures registration_ToASCII hb) in
  ValidateCustody registration_ToASCII (ss ++ [syntheticSignature (ut_request target)]) limits.
End idna.

(** ** What the evaluation of a chain looks at *)
Definition same_hop (s t : Signature) : Prop :=
  sequence s = sequence t /\ domain s = domain t /\ value (mailFrom s) = value (mailFrom t) /\
  map value (recipients s) = map value (recipients t) /\ nextDomain s = nextDomain t /\ hasNextDomain s = hasNextDomain t.
#[export] Instance same_hop_equivalence : Equivalence same_hop.
Proof. unfold same_hop. split; [by intros s | intros s t; naive_solver | intros s t u; intuition congruence]. Qed.

Section evaluation.
Context (registration : bytes -> option bytes).

Lemma forall_value (P : bytes -> Prop) ps : Forall (fun p => P (value p)) ps <-> Forall P (map value ps).
Proof. by rewrite Forall_map. Qed.
Lemma map_value_len (ps qs : list EnvelopePath) : map value ps = map value qs -> len ps = len qs.
Proof. intros E. apply (f_equal length) in E. rewrite !length_map in E. unfold len. lia. Qed.
Lemma same_hop_ok n s t : same_hop s t -> hop_ok registration n s -> hop_ok registration n t.
Proof.
  intros (_ & E1 & E2 & E3 & E4 & E5). unfold hop_ok, reverse_path. rewrite E1, E2, E4, E5. intros [Hd H]. split; [done | ].
  destruct (hasNextDomain t).
  - destruct H as (H1 & H2 & H3). split_and!; [done | | done]. rewrite H2 in E3. by destruct (recipients t).
  - rewrite (map_value_len _ _ E3) in H. destruct H as (H1 & H2 & H3 & H4). do 3 (split; [done | ]).
    apply (forall_value (fun v => validEnvelopePath registration v false = true)). rewrite <- E3. by apply forall_value.
Qed.
Lemma same_alignment s t : same_hop s t -> hop_alignment s = hop_alignment t.
Proof. intros (_ & E1 & E2 & _ & _ & E5). unfold hop_alignment, null_reverse, reverse_path. by rewrite E1, E2, E5. Qed.
Lemma exists_value (P : bytes -> Prop) ps :
  (exists p d, p ∈ ps /\ custodyPathDomain (value p) = Some d /\ P d) <->
  exists v d, v ∈ map value ps /\ custodyPathDomain v = Some d /\ P d.
Proof.
  split.
  - intros (p & d & Hp & Hd & H). exists (value p), d. split_and!; [by apply list_elem_of_fmap_2 | done | done].
  - intros (v & d & (p & -> & Hp)%list_elem_of_fmap & Hd & H). by exists p, d.
Qed.
Lemma same_link s s' t t' : same_hop s s' -> same_hop t t' -> hop_link s t -> hop_link s' t'.
Proof.
  intros (_ & _ & _ & E3 & E4 & E5) (_ & F1 & F2 & _ & _ & F5). unfold hop_link, null_reverse, reverse_path.
  rewrite E4, E5, F1, F2, F5. destruct (hasNextDomain s'); [done | ].
  set (P d := if hasNextDomain t' || bool_decide (value (mailFrom t') = bs "<>") then within (map fold_byte (domain t')) d
              else exists m, custodyPathDomain (value (mailFrom t')) = Some m /\ within d m).
  intros H. apply (exists_value P). rewrite <- E3. by apply (exists_value P).
Qed.
Lemma same_chain m n o o' : Forall2 same_hop o o' -> custody_chain registration m n o -> custody_chain registration m n o'.
Proof.
  intros HF (Hne & Hl & Hs & Hok & Hlk). pose proof (Forall2_length _ _ _ HF) as Hlen. unfold custody_chain.
  assert (len o' = len o) as -> by (unfold len; lia). split_and!; [ | done | | | ].
  - intros ->. by destruct o.
  - rewrite <- Hs. clear -HF. induction HF as [|s t o o' [E _] _ IH]; [done | ]. cbn. by rewrite E, <- IH.
  - clear -HF Hok. induction HF as [|s t o o' H _ IH]; [constructor | ]. apply Forall_cons in Hok as [? ?]. constructor; [by eapply same_hop_ok | auto].
  - intros i s' t' Hs' Ht'. destruct (Forall2_lookup_r _ _ _ _ _ HF Hs') as (s & Hs0 & H1).
    destruct (Forall2_lookup_r _ _ _ _ _ HF Ht') as (t & Ht0 & H2). eapply same_link; [done | done | by eapply Hlk].
Qed.
Lemma same_result o o' : Forall2 same_hop o o' -> chain_result o = chain_result o'.
Proof.
  intros HF. unfold chain_result. assert (len o = len o') as -> by (unfold len; by rewrite (Forall2_length _ _ _ HF)).
  assert (map hop_alignment o = map hop_alignment o') as ->.
  { induction HF as [|s t o o' H _ IH]; [done | ]. cbn [map]. by rewrite (same_alignment s t), IH. }
  assert (existsb hasNextDomain o = existsb hasNextDomain o') as ->.
  { induction HF as [|s t o o' (_ & _ & _ & _ & _ & E) _ IH]; [done | ]. cbn [existsb]. by rewrite E, IH. }
  f_equal. assert (existsb hasNextDomain (option_list (last o)) = existsb hasNextDomain (option_list (last o'))) as ->; [ | done].
  induction HF as [|s t o o' (_ & _ & _ & _ & _ & E) HF IH]; [done | ]. destruct HF; [cbn; by rewrite E | exact IH].
Qed.
Lemma evaluate_same ss tt limits r :
  Forall (fun s => 0 < sequence s) ss -> Forall2 same_hop ss tt ->
  evaluateCustody registration ss limits = Ret r -> evaluateCustody registration tt limits = Ret r.
Proof.
  intros Hp HF. assert (Forall (fun s => 0 < sequence s) tt) as Hp'.
  { clear -Hp HF. induction HF as [|s t ss tt [E _] _ IH]; [constructor | ]. apply Forall_cons in Hp as [? ?]. constructor; [by rewrite <- E | auto]. }
  rewrite !evaluateCustody_Ret by done. intros (l & o & Hl & Hpm & Hc & ->). symmetry in Hpm.
  destruct (Permutation.Permutation_Forall2 Hpm HF) as (o' & Hpm' & HF').
  exists l, o'. split_and!; [done | by symmetry | by eapply same_chain | by apply same_result].
Qed.
Lemma ValidateCustody_success ss limits r :
  ValidateCustody registration ss limits = Ret r <-> evaluateCustody registration ss limits = Ret r /\ FirstDirectMismatch r = None.
Proof.
  unfold ValidateCustody. split.
  - intros (r0 & H%map_fail_Ret & H')%obind_ret_inv. destruct (FirstDirectMismatch r0) as [[n a]|] eqn:E; [by destruct (ss !! _) | ].
    by injection H' as <-.
  - intros [-> H]. cbn [map_fail obind]. by rewrite H.
Qed.
Lemma validate_same ss tt limits r :
  Forall (fun s => 0 < sequence s) ss -> Forall2 same_hop ss tt ->
  ValidateCustody registration ss limits = Ret r <-> ValidateCustody registration tt limits = Ret r.
Proof.
  intros Hp HF. assert (Forall (fun s => 0 < sequence s) tt) as Hp'.
  { clear -Hp HF. induction HF as [|s t ss tt [E _] _ IH]; [constructor | ]. apply Forall_cons in Hp as [? ?]. constructor; [by rewrite <- E | auto]. }
  assert (Forall2 same_hop tt ss) as HF' by (clear -HF; induction HF; constructor; [by symmetry | done]).
  rewrite !ValidateCustody_success. split; intros [H1 H2]; (split; [ | done]); [by apply (evaluate_same ss tt) | by apply (evaluate_same tt ss)].
Qed.

Lemma Parse_positive field s : SigParser.Parse registration field = Ret s -> 0 < sequence s.
Proof.
  unfold SigParser.Parse. change (NewParser _) with (Ret (E := Failure) DefaultLimits). cbn [obind].
  intros (_ & _ & _ & _ & _ & f & _ & (v & _ & _ & _ & _ & H & _) & _)%sig_ParseField_Ret. done.
Qed.
Lemma inherited_positive hb ss : inheritedCustodySignatures registration hb = Ret ss -> Forall (fun s => 0 < sequence s) ss.
Proof.
  unfold inheritedCustodySignatures. cbv zeta. generalize (HeaderBlock_FieldsByName hb HeaderName). intros fields. revert ss.
  induction fields as [|field fields IH]; intros ss; cbn [foldr]; [intros [= <-]; constructor | ].
  intros (s & Hs & (rest & Hr & [= <-])%obind_ret_inv)%obind_ret_inv. constructor; [by eapply Parse_positive | by apply IH].
Qed.
End evaluation.

(** ** The two extensions agree *)
Section extension.
Context (registration : bytes -> option bytes) (L : RenderLimits) (c : TargetRequest) (layout : Layout).
Hypothesis Hfrozen : frozen registration L c.
Hypothesis Hwide : wide c.
Hypothesis Hlay : generatedSetLayout (tr_Sets c) = Some layout.
Hypothesis HL : RenderLimits_Validate L = Ret tt.
Context (values ordered : list SetValue).
Hypothesis Hcompletes : completes L (tr_Sets c) values ordered.
Hypothesis Hfits : fits_limits L (complete_script c layout ordered) = true.
Hypothesis Hunsigned : fits_limits L (unsigned_script c layout) = true.
Hypothesis Hpaths : valid_paths registration c.
Hypothesis registration_fixed : forall d a, registration d = Some a -> registration a = Some a.

Lemma synthetic_same : same_hop (read_signature c layout ordered) (syntheticSignature c).
Proof using Hfrozen.
  unfold same_hop, syntheticSignature, read_signature.
  cbn [sequence domain mailFrom recipients nextDomain hasNextDomain value].
  assert (forall rs, map value (read_recipients rs) = rs) as Hr.
  { clear. intros [|r rs]; [done | ]. cbn [read_recipients map value read_path]. rewrite map_map. cbn [value read_path]. by rewrite map_id. }
  assert (forall rs, map value (map (fun recipient => MkPath recipient emptyBase64) rs) = rs) as Hr'.
  { intros rs. rewrite map_map. apply map_id. }
  pose proof Hfrozen as (_ & _ & _ & [(_ & Hne & Em & Er) | (En & _)] & _).
  - rewrite bool_decide_eq_false_2 by done. cbn [negb value noPath map]. rewrite Em, Er. by split_and!.
  - rewrite bool_decide_eq_true_2 by done. cbn [negb value read_path]. rewrite Hr, Hr'. by split_and!.
Qed.
Lemma extensions_agree hb limits r :
  ValidateCompletedExtension registration hb (MkComplete (script_bytes (complete_script c layout ordered))) limits = Ret r <->
  ValidateUnsignedExtension registration hb (unsigned_target L c layout) limits = Ret r.
Proof using All.
  destruct (unsigned_target_stable registration registration_fixed L c layout HL Hfrozen Hwide Hlay Hunsigned) as [_ HV].
  destruct (completed_parses registration L c layout Hfrozen Hwide Hlay HL values ordered Hcompletes Hfits Hpaths) as (field & Hp & Hs & _).
  destruct (limits_facts L HL) as [HF HLn].
  destruct (target_delimited registration L c Hfrozen Hwide layout (Some (map sv_Signature ordered)) HF HLn Hfits field Hp) as (M & HM & Hfs & Hfn).
  unfold ValidateCompletedExtension, ValidateUnsignedExtension. rewrite HV. cbn [require obind complete_field].
  assert (CompleteField_Valid (MkComplete (script_bytes (complete_script c layout ordered))) = true) as ->.
  { unfold CompleteField_Valid. cbn [complete_field]. apply Z.ltb_lt.
    destruct (script_bytes (complete_script c layout ordered)) as [|b s]; [by vm_compute in Hp | ]. rewrite len_cons. pose proof (len_nonneg s) as Hn. clear -Hn. lia. }
  cbn [require obind]. destruct (inheritedCustodySignatures registration hb) as [ss| |] eqn:Ess; [ | done | done]. cbn [map_fail obind].
  unfold complete_script. rewrite HM. cbn [map_fail obind]. rewrite Hfn, Hfs. change (len [field] =? 1) with true. cbn [negb require obind].
  rewrite Hs. cbn [map_fail obind unsigned_target ut_request]. apply validate_same.
  - apply Forall_app. split; [by eapply inherited_positive | ]. apply Forall_singleton. by eapply Parse_positive.
  - apply Forall2_app; [ | constructor; [apply synthetic_same | constructor]]. clear. induction ss; constructor; done.
Qed.
End extension.


(** ** Witnesses *)
Definition no_idna (d : bytes) : option bytes := None.
Lemma no_idna_fixed d a : no_idna d = Some a -> no_idna a = Some a.
Proof. done. Qed.
(** Two hops: the origin, and a relay that signs for the origin's recipient. *)
Definition hop_target (sequence : Z) (from to d : bytes) : TargetRequest :=
  MkTarget sequence 1 1700000000 from [to] [] d [MkPlan (bs "sel") AlgorithmEd25519SHA256] [] false [].
Definition made (r : TargetRequest) : UnsignedTarget :=
  match NewUnsignedTarget no_idna r DefaultRenderLimits with Ret t => t | _ => MkUnsigned r DefaultRenderLimits [] end.
Definition hop_values : list SetValue := [MkSetValue (bs "sel") AlgorithmEd25519SHA256 (repeat x01 64)].
Definition signed (t : UnsignedTarget) : CompleteField :=
  match Complete t hop_values with Ret f => f | _ => MkComplete [] end.
Definition origin_hop : TargetRequest := hop_target 1 (bs "<a@example.org>") (bs "<list@relay.example>") (bs "example.org").
Definition relay_hop : TargetRequest := hop_target 2 (bs "<list@relay.example>") (bs "<b@example.net>") (bs "relay.example").
Definition origin_headers : HeaderBlock :=
  match RawParser.Parse (complete_field (signed (made origin_hop))) with Ret M => headers M | _ => emptyHeaderBlock end.
Definition two_hops : CustodyResult :=
  MkCustodyResult CustodyStatusOrdinaryComplete 2 false [CustodyDirectAlignmentPass; CustodyDirectAlignmentPass] true.
