(* ===== verification/CanonSignature.v ===== *)
(** * Package internal/canonical: signature input (signature.go)

    The bytes that a DKIM2 signature is made over: the Message-Instance fields
    up to the target's m=, the signature fields before the target and the target
    itself with empty signature strings, each without white space.  The verifier
    takes them from the header of a message (SignatureInput), the signer from a
    header and the fields it is about to add (SigningInput).  Errors of the
    packages called are kept as the values that they are; a nil byte slice is
    [None]. *)

From stdpp Require Import gmap.
From S2P Require Import Prelude GoBytes GoTime RawMsg RawBody RawParser TagTypes TagScan TagBase64 Combine TagSpec InstTypes InstParser InstCollection InstRender.
From S2P Require Import DomainName SigAlgorithm SigTypes SigEnvelope SigParser SigCollection SigRender Sha2 CanonTypes CanonHeader.
#[local] Open Scope Z_scope.

(** ** Errors *)
Inductive SignatureInputError :=
  | OfCanonical (e : CanonTypes.Error) (cause : option SignatureInputError)
  | OfInstance (f : InstTypes.Failure)
  | OfSignature (f : SigTypes.Failure)
  | OfTag (e : TagTypes.Error)
  | OfParser (e : ParserError).
Definition OfReference (f : ReferenceFailure) : SignatureInputError :=
  match f with FromInstance f => OfInstance f | FromSignature f => OfSignature f end.

Definition signatureLimitExceededError (limitName : string) (count limit fieldIndex : Z) : SignatureInputError :=
  OfCanonical (newError ErrorCodeLimitExceeded (MkLoc KindSignatureInput fieldIndex 0)
    (MkDetails ErrorClassLimit "" limitName limit count "")) None.
Definition signatureMissingTargetError (targetName : string) (targetNumber : Z) : SignatureInputError :=
  OfCanonical (newError ErrorCodeMissingTarget (MkLoc KindSignatureInput 0 targetNumber)
    (MkDetails ErrorClassMissing "" "" 0 0 targetName)) None.
Definition signatureDuplicateTargetError (targetName : string) (targetNumber fieldIndex : Z) : SignatureInputError :=
  OfCanonical (newError ErrorCodeDuplicateTarget (MkLoc KindSignatureInput fieldIndex targetNumber)
    (MkDetails ErrorClassDuplicate "" "" 0 2 targetName)) None.
Definition signatureAmbiguousSelectionError (targetName : string) (targetNumber fieldIndex : Z)
    (cause : option SignatureInputError) : SignatureInputError :=
  OfCanonical (newError ErrorCodeAmbiguousSelection (MkLoc KindSignatureInput fieldIndex targetNumber)
    (MkDetails ErrorClassAmbiguous "" "" 0 0 targetName)) cause.

Definition targetNameSignatureSet : string := "signature_set"%string.
Definition targetNameInstance : string := "message_instance"%string.
Definition targetNameSignature : string := "dkim2_signature"%string.
Definition knownSignatureInputTags : KnownTags :=
  match NewKnownTags (map bs ["i"; "m"; "t"; "mf"; "rt"; "nd"; "d"; "s"; "n"; "f"]%string) with
  | Ret k => k | _ => MkKnown ∅ end.

Record SignatureInputSelection := MkSelection { sel_Headers : HeaderBlock; sel_TargetSequence : Z }.
Record SigningInputSelection := MkSigning {
  sig_Headers : HeaderBlock; GeneratedInstance : InstTypes.MessageInstance; GeneratedInstanceField : option bytes;
  HasGeneratedInstance : bool; sig_Target : UnsignedTarget }.
Record signatureInputRecord := MkInputRecord {
  rec_number : Z; rec_headerIndex : Z; rec_bytes : bytes }.

Definition checkedSignatureInputAdd (left right : Z) : option Z :=
  if (left <? 0) || (right <? 0) || (MaxInt - left <? right) then None else Some (left + right).

(** ** Canonical bytes of one field *)
Definition isSignatureInputWSP (b : byte) : bool := (b =?b x20) || (b =?b x09).
Definition appendSignatureInputValueWithoutWSP (output value : bytes) : bytes :=
  output ++ List.filter (fun b => negb (isSignatureInputWSP b)) value.
Definition canonicalizeSignatureInputFieldBytes (nameLower unfoldedValue : bytes) : bytes :=
  appendSignatureInputValueWithoutWSP (nameLower ++ [x3a]) unfoldedValue ++ crlf.
Definition canonicalizeSignatureInputField (c : Canonicalizer) (field : HeaderField)
    : outcome SignatureInputError bytes :=
  let canonicalBytes := canonicalizeSignatureInputFieldBytes (nameLower field) (unfoldedValue field) in
  check require (negb (CanonTypes.MaxFieldBytes (opt_Limits c) <? len canonicalBytes))
    (signatureLimitExceededError "max_field_bytes" (len canonicalBytes) (CanonTypes.MaxFieldBytes (opt_Limits c))
       (hf_index field)) ;;
  Ret canonicalBytes.
Definition trimSignatureInputWSP (input : bytes) : bytes := trim_bytes isSignatureInputWSP input.

(** The tags with the value of s= replaced; also whether s= was seen. *)
Fixpoint incompleteLoop (tags : list Tag) (index : Z) (target : Signature) (sawSignatureTag : bool) (rendered : bytes)
    : outcome SignatureInputError (bytes * bool) :=
  match tags with
  | [] => Ret (rendered, sawSignatureTag)
  | tag :: rest =>
      let rendered := if 0 <? index then rendered ++ [x3b] else rendered in
      let rendered := rendered ++ tag_name tag ++ [x3d] in
      if negb (bytes_equal (tag_name tag) (bs "s"))
      then incompleteLoop rest (index + 1) target sawSignatureTag (rendered ++ tag_value tag)
      else
        match UnsignedSignatureValue target with
        | None =>
            Fail (signatureAmbiguousSelectionError targetNameSignature (sequence target) (SigTypes.headerIndex target)
                    (Some (OfCanonical (newError ErrorCodeMalformedState (MkLoc KindSignatureInput 0 0)
                       (MkDetails ErrorClassMalformed "" "" 0 0 targetNameSignatureSet)) None)))
        | Some nullValue => incompleteLoop rest (index + 1) target true (rendered ++ nullValue)
        end
  end.
Definition ends_semicolon (trimmed : bytes) : bool :=
  match List.rev trimmed with [] => false | b :: _ => b =?b x3b end.
Definition renderIncompleteSignatureValue (unfoldedValue : bytes) (target : Signature)
    : outcome SignatureInputError bytes :=
  let ambiguous := signatureAmbiguousSelectionError targetNameSignature (sequence target) (SigTypes.headerIndex target) in
  let* tagField := map_fail (fun e => ambiguous (Some (OfTag e)))
        (ScanHeader unfoldedValue knownSignatureInputTags TagTypes.DefaultLimits) in
  check require (negb (len (tags tagField) =? 0)) (ambiguous None) ;;
  let* (rendered, sawSignatureTag) := incompleteLoop (tags tagField) 0 target false [] in
  check require sawSignatureTag (ambiguous None) ;;
  Ret (if ends_semicolon (trimSignatureInputWSP unfoldedValue) then rendered ++ [x3b] else rendered).

(** ** Selection of fields *)
Definition signatureInputFieldByIndex (headers : HeaderBlock) (index : Z) (name : bytes) (targetName : string)
    : outcome SignatureInputError HeaderField :=
  match HeaderBlock_Field headers index with
  | None => Fail (signatureAmbiguousSelectionError targetName 0 index None)
  | Some field =>
      check require (bytes_equal (nameLower field) name) (signatureAmbiguousSelectionError targetName 0 index None) ;;
      Ret field
  end.
Definition sortSignatureInputRecords (records : list signatureInputRecord) : list signatureInputRecord :=
  slice_stable (fun a b => rec_number a <? rec_number b) records.

(** The loops of signatureInputInstanceRecords and
    signatureInputCompleteSignatureRecords, which differ in the parsed type and
    in names: the map by number, and the records of [count] numbers from
    [expected] on. *)
Section records.
Context {A : Type} (number_of index_of : A -> Z) (parse_of : HeaderField -> outcome SignatureInputError A).
Context (headerName : bytes) (headerText targetName : string).
Fixpoint byNumberLoop (parsed : list A) (byNumber : gmap Z A) : outcome SignatureInputError (gmap Z A) :=
  match parsed with
  | [] => Ret byNumber
  | p :: rest =>
      match byNumber !! number_of p with
      | Some _ => Fail (signatureDuplicateTargetError targetName (number_of p) (index_of p))
      | None => byNumberLoop rest (<[number_of p := p]> byNumber)
      end
  end.
Fixpoint recordsLoop (c : Canonicalizer) (headers : HeaderBlock) (count : nat) (expected : Z) (byNumber : gmap Z A)
    : outcome SignatureInputError (list signatureInputRecord) :=
  match count with
  | O => Ret []
  | S count =>
      match byNumber !! expected with
      | None => Fail (signatureMissingTargetError targetName expected)
      | Some p =>
          let* field := signatureInputFieldByIndex headers (index_of p) headerName headerText in
          match parse_of field with
          | Crash => Crash
          | Fail e => Fail (signatureAmbiguousSelectionError targetName (number_of p) (index_of p) (Some e))
          | Ret reparsed =>
              check require (number_of reparsed =? number_of p)
                (signatureAmbiguousSelectionError targetName (number_of p) (index_of p) None) ;;
              let* canonicalBytes := canonicalizeSignatureInputField c field in
              let* records := recordsLoop c headers count (expected + 1) byNumber in
              Ret (MkInputRecord (number_of p) (index_of p) canonicalBytes :: records)
          end
      end
  end.
End records.

Fixpoint seenTargets (parsed : list Signature) (targetSequence : Z) (seen : gmap Z Z) (target : option Signature)
    : outcome SignatureInputError (option Signature) :=
  match parsed with
  | [] => Ret target
  | p :: rest =>
      match seen !! sequence p with
      | Some firstIndex => Fail (signatureDuplicateTargetError targetNameSignature (sequence p) firstIndex)
      | None =>
          seenTargets rest targetSequence (<[sequence p := SigTypes.headerIndex p]> seen)
            (if negb (sequence p =? targetSequence) then target else Some p)
      end
  end.
Definition selectSignatureTarget (signatures : list Signature) (targetSequence : Z)
    : outcome SignatureInputError Signature :=
  check require (negb (targetSequence =? 0)) (signatureMissingTargetError targetNameSignature targetSequence) ;;
  let* target := seenTargets signatures targetSequence ∅ None in
  match target with
  | None => Fail (signatureMissingTargetError targetNameSignature targetSequence)
  | Some target => Ret target
  end.

Definition appendSignatureInputField (output : bytes) (record : signatureInputRecord) (limit : Z)
    : outcome SignatureInputError bytes :=
  match checkedSignatureInputAdd (len output) (len (rec_bytes record)) with
  | None => Fail (signatureLimitExceededError "max_signature_input_bytes" (wrap64 (limit + 1)) limit (rec_headerIndex record))
  | Some total =>
      check require (negb (limit <? total))
        (signatureLimitExceededError "max_signature_input_bytes" total limit (rec_headerIndex record)) ;;
      Ret (output ++ rec_bytes record)
  end.
Fixpoint appendFields (output : bytes) (records : list signatureInputRecord) (limit : Z)
    : outcome SignatureInputError bytes :=
  match records with
  | [] => Ret output
  | record :: rest => let* output := appendSignatureInputField output record limit in appendFields output rest limit
  end.

Definition rawProtocolFieldLen (headers : HeaderBlock) (fieldIndex : Z) : Z :=
  match HeaderBlock_Field headers fieldIndex with None => 0 | Some field => len (originalBytes field) end.
Definition protocolFieldInputBytes (headers : HeaderBlock) (instances signatures : list signatureInputRecord)
    (target : signatureInputRecord) : Z :=
  foldl (fun total r => total + rawProtocolFieldLen headers (rec_headerIndex r)) 0 (instances ++ signatures ++ [target]).

(** The loop over records that counts their original bytes. *)
Fixpoint countInputBytes (c : Canonicalizer) (headers : HeaderBlock) (records : list signatureInputRecord) (inputBytes : Z)
    : outcome SignatureInputError Z :=
  match records with
  | [] => Ret inputBytes
  | record :: rest =>
      match checkedSignatureInputAdd inputBytes (rawProtocolFieldLen headers (rec_headerIndex record)) with
      | None =>
          Fail (signatureLimitExceededError "max_signature_input_bytes"
                  (wrap64 (MaxSignatureInputBytes (opt_Limits c) + 1)) (MaxSignatureInputBytes (opt_Limits c))
                  (rec_headerIndex record))
      | Some inputBytes => countInputBytes c headers rest inputBytes
      end
  end.

Definition standaloneSignatureInputField (field expectedName : bytes) (expectedText : string)
    : outcome SignatureInputError HeaderField :=
  let* message := map_fail OfParser (RawParser.Parse (field ++ crlf)) in
  match HeaderBlock_FieldsByName (RawParser.headers message) expectedName with
  | [f] =>
      check require (HeaderBlock_Len (RawParser.headers message) =? 1) (signatureMissingTargetError expectedText 0) ;;
      Ret f
  | _ => Fail (signatureMissingTargetError expectedText 0)
  end.

Fixpoint parseInstances (fields : list HeaderField) : outcome SignatureInputError (list InstTypes.MessageInstance) :=
  match fields with
  | [] => Ret []
  | field :: rest =>
      let* parsed := map_fail OfInstance (InstParser.Parse field) in
      let* instances := parseInstances rest in
      Ret (parsed :: instances)
  end.

(** The sum of two field counts, or the error of an overflow. *)
Definition addCount (c : Canonicalizer) (count more : Z) : outcome SignatureInputError Z :=
  match checkedSignatureInputAdd count more with
  | None =>
      Fail (signatureLimitExceededError "max_field_count" (wrap64 (CanonTypes.MaxFieldCount (opt_Limits c) + 1))
              (CanonTypes.MaxFieldCount (opt_Limits c)) 0)
  | Some n => Ret n
  end.
Definition addInputBytes (c : Canonicalizer) (inputBytes more : Z) : outcome SignatureInputError Z :=
  match checkedSignatureInputAdd inputBytes more with
  | None =>
      Fail (signatureLimitExceededError "max_signature_input_bytes"
              (wrap64 (MaxSignatureInputBytes (opt_Limits c) + 1)) (MaxSignatureInputBytes (opt_Limits c)) (-1))
  | Some n => Ret n
  end.

Section idna.
Variable registration_ToASCII : bytes -> option bytes.
Fixpoint parseSignatures (fields : list HeaderField) : outcome SignatureInputError (list Signature) :=
  match fields with
  | [] => Ret []
  | field :: rest =>
      let* parsed := map_fail OfSignature (SigParser.Parse registration_ToASCII field) in
      let* signatures := parseSignatures rest in
      Ret (parsed :: signatures)
  end.
Definition extractSignatureInputState (headers : HeaderBlock)
    : outcome SignatureInputError (list InstTypes.MessageInstance * list Signature) :=
  let* instances := parseInstances (HeaderBlock_FieldsByName headers InstTypes.HeaderName) in
  check map_fail OfInstance (InstCollection.ValidateSequence instances) ;;
  let* signatures := parseSignatures (HeaderBlock_FieldsByName headers SigTypes.HeaderName) in
  check map_fail OfSignature (SigCollection.ValidateSequence signatures) ;;
  check map_fail OfReference (ValidateInstanceReferences instances signatures) ;;
  Ret (instances, signatures).

Definition signatureInputInstanceRecords (c : Canonicalizer) (headers : HeaderBlock) (instances : list InstTypes.MessageInstance)
    (targetInstance : Z) : outcome SignatureInputError (list signatureInputRecord) :=
  check require (negb (targetInstance =? 0)) (signatureMissingTargetError targetNameInstance targetInstance) ;;
  check require (negb (len instances <? targetInstance)) (signatureMissingTargetError targetNameInstance targetInstance) ;;
  let* byNumber := byNumberLoop number InstTypes.headerIndex targetNameInstance instances ∅ in
  let* records := recordsLoop number InstTypes.headerIndex (fun f => map_fail OfInstance (InstParser.Parse f))
        InstTypes.HeaderName "message-instance" targetNameInstance c headers (Z.to_nat targetInstance) 1 byNumber in
  Ret (sortSignatureInputRecords records).
Definition signatureInputCompleteSignatureRecords (c : Canonicalizer) (headers : HeaderBlock) (signatures : list Signature)
    (targetSequence : Z) : outcome SignatureInputError (list signatureInputRecord) :=
  check require (negb ((targetSequence =? 0) || (len signatures + 1 <? targetSequence)))
    (signatureMissingTargetError targetNameSignature targetSequence) ;;
  let* bySequence := byNumberLoop sequence SigTypes.headerIndex targetNameSignature signatures ∅ in
  let* records := recordsLoop sequence SigTypes.headerIndex
        (fun f => map_fail OfSignature (SigParser.Parse registration_ToASCII f))
        SigTypes.HeaderName "dkim2-signature" targetNameSignature c headers (Z.to_nat (targetSequence - 1)) 1 bySequence in
  Ret (sortSignatureInputRecords records).
Definition signatureInputTargetRecord (c : Canonicalizer) (headers : HeaderBlock) (target : Signature)
    : outcome SignatureInputError signatureInputRecord :=
  let* field := signatureInputFieldByIndex headers (SigTypes.headerIndex target) SigTypes.HeaderName "dkim2-signature" in
  let ambiguous := signatureAmbiguousSelectionError targetNameSignature (sequence target) (SigTypes.headerIndex target) in
  let* reparsed := map_fail (fun f => ambiguous (Some (OfSignature f))) (SigParser.Parse registration_ToASCII field) in
  check require (sequence reparsed =? sequence target) (ambiguous None) ;;
  let* incompleteValue := renderIncompleteSignatureValue (unfoldedValue field) target in
  let canonicalBytes := canonicalizeSignatureInputFieldBytes SigTypes.HeaderName incompleteValue in
  check require (negb (CanonTypes.MaxFieldBytes (opt_Limits c) <? len canonicalBytes))
    (signatureLimitExceededError "max_field_bytes" (len canonicalBytes) (CanonTypes.MaxFieldBytes (opt_Limits c))
       (SigTypes.headerIndex target)) ;;
  Ret (MkInputRecord (sequence target) (SigTypes.headerIndex target) canonicalBytes).

(** ** The verifier's input *)
Definition SignatureInput (c : Canonicalizer) (selection : SignatureInputSelection)
    : outcome SignatureInputError ByteInput :=
  let headers := sel_Headers selection in
  let maxCount := CanonTypes.MaxFieldCount (opt_Limits c) in
  let protocolFieldCount := len (HeaderBlock_FieldsByName headers InstTypes.HeaderName)
        + len (HeaderBlock_FieldsByName headers SigTypes.HeaderName) in
  check require (negb (maxCount <? protocolFieldCount))
    (signatureLimitExceededError "max_field_count" protocolFieldCount maxCount 0) ;;
  let* (instances, signatures) := extractSignatureInputState headers in
  let* target := selectSignatureTarget signatures (sel_TargetSequence selection) in
  let* instanceRecords := signatureInputInstanceRecords c headers instances (instanceNumber target) in
  let* signatureRecords := signatureInputCompleteSignatureRecords c headers signatures (sequence target) in
  let* targetRecord := signatureInputTargetRecord c headers target in
  let includedFields := len instanceRecords + len signatureRecords + 1 in
  check require (negb (maxCount <? includedFields))
    (signatureLimitExceededError "max_field_count" includedFields maxCount (SigTypes.headerIndex target)) ;;
  let limit := MaxSignatureInputBytes (opt_Limits c) in
  let* canonical := appendFields [] instanceRecords limit in
  let* canonical := appendFields canonical signatureRecords limit in
  let* canonical := appendSignatureInputField canonical targetRecord limit in
  map_fail (fun e => OfCanonical e None)
    (NewCanonicalBytes KindSignatureInput canonical
       (MkMetadata "" "" "" (protocolFieldInputBytes headers instanceRecords signatureRecords targetRecord) 0
          includedFields (len instances + len signatures - includedFields) noCounts 0 BodyTerminalActionUnspecified)).
Definition SignatureInputFromMessage (c : Canonicalizer) (message : Message) (targetSequence : Z)
    : outcome SignatureInputError ByteInput :=
  SignatureInput c (MkSelection (RawParser.headers message) targetSequence).

(** ** The signer's input *)
(** The record of the generated instance, after its field is checked. *)
Definition generatedRecord (c : Canonicalizer) (selection : SigningInputSelection) (targetInstance : Z)
    : outcome SignatureInputError signatureInputRecord :=
  let generated := default [] (GeneratedInstanceField selection) in
  let* rendered := map_fail OfInstance (InstRender.Render (GeneratedInstance selection) InstRender.DefaultRenderLimits) in
  check require (bytes_equal rendered generated) (signatureMissingTargetError targetNameInstance targetInstance) ;;
  let* field := standaloneSignatureInputField generated InstTypes.HeaderName "message-instance" in
  let* canonicalBytes := canonicalizeSignatureInputField c field in
  Ret (MkInputRecord (number (GeneratedInstance selection)) (-1) canonicalBytes).
Definition existingRecords (c : Canonicalizer) (selection : SigningInputSelection) (instances : list InstTypes.MessageInstance)
    (targetInstance : Z) : outcome SignatureInputError (list signatureInputRecord * Z) :=
  if 0 <? len instances then
    let* records := signatureInputInstanceRecords c (sig_Headers selection) instances
          (if HasGeneratedInstance selection then targetInstance - 1 else targetInstance) in
    let* inputBytes := countInputBytes c (sig_Headers selection) records 0 in
    Ret (records, inputBytes)
  else Ret ([], 0).

Definition SigningInput (c : Canonicalizer) (selection : SigningInputSelection) : outcome SignatureInputError ByteInput :=
  let headers := sig_Headers selection in
  let target := sig_Target selection in
  let generated := HasGeneratedInstance selection in
  let maxCount := CanonTypes.MaxFieldCount (opt_Limits c) in
  check require (negb (negb (UnsignedTarget_Valid registration_ToASCII target)
                       || (negb generated && (negb (number (GeneratedInstance selection) =? 0)
                             || (if GeneratedInstanceField selection is Some _ then true else false)))))
    (signatureMissingTargetError targetNameSignature 0) ;;
  let* protocolFieldCount := addCount c (len (HeaderBlock_FieldsByName headers InstTypes.HeaderName))
        (len (HeaderBlock_FieldsByName headers SigTypes.HeaderName)) in
  let* protocolFieldCount := addCount c protocolFieldCount 1 in
  let* protocolFieldCount := if generated then addCount c protocolFieldCount 1 else Ret protocolFieldCount in
  check require (negb (maxCount <? protocolFieldCount))
    (signatureLimitExceededError "max_field_count" protocolFieldCount maxCount 0) ;;
  let* (instances, signatures) := extractSignatureInputState headers in
  let targetSequence := UnsignedTarget_Sequence registration_ToASCII target in
  let targetInstance := UnsignedTarget_InstanceNumber registration_ToASCII target in
  check require (targetSequence =? len signatures + 1) (signatureMissingTargetError targetNameSignature targetSequence) ;;
  check (if generated
         then require (negb (negb (number (GeneratedInstance selection) =? len instances + 1)
                             || negb (targetInstance =? len instances + 1)))
                (signatureMissingTargetError targetNameInstance targetInstance)
         else require (negb (negb (targetInstance =? len instances) || (len instances =? 0)))
                (signatureMissingTargetError targetNameInstance targetInstance)) ;;
  let* includedFields := addCount c (len instances) (len signatures) in
  let* includedFields := addCount c includedFields 1 in
  let* includedFields := if generated then addCount c includedFields 1 else Ret includedFields in
  check require (negb (maxCount <? includedFields))
    (signatureLimitExceededError "max_field_count" includedFields maxCount 0) ;;
  let* (records, inputBytes) := existingRecords c selection instances targetInstance in
  let* (records, inputBytes) :=
    if generated then
      let* record := generatedRecord c selection targetInstance in
      let* inputBytes := addInputBytes c inputBytes (len (default [] (GeneratedInstanceField selection))) in
      Ret (records ++ [record], inputBytes)
    else Ret (records, inputBytes) in
  let records := sortSignatureInputRecords records in
  let* signatureRecords := signatureInputCompleteSignatureRecords c headers signatures targetSequence in
  let* inputBytes := countInputBytes c headers signatureRecords inputBytes in
  let targetBytes := ut_unsigned target in
  let* targetField := standaloneSignatureInputField targetBytes SigTypes.HeaderName "dkim2-signature" in
  let* targetCanonical := canonicalizeSignatureInputField c targetField in
  let signatureRecords := signatureRecords ++ [MkInputRecord targetSequence (-1) targetCanonical] in
  let* inputBytes := addInputBytes c inputBytes (len targetBytes) in
  let limit := MaxSignatureInputBytes (opt_Limits c) in
  let* canonicalBytes := appendFields [] records limit in
  let* canonicalBytes := appendFields canonicalBytes signatureRecords limit in
  map_fail (fun e => OfCanonical e None)
    (NewCanonicalBytes KindSignatureInput canonicalBytes
       (MkMetadata "" "" "" inputBytes 0 includedFields (len (hb_fields headers) - len instances - len signatures)
          noCounts 0 BodyTerminalActionUnspecified)).
End idna.
