(* ===== verification/CanonSigSpec.v ===== *)
(** * What a signature is made over

    The protocol fields of a header, the ordered canonical fields that
    SignatureInput concatenates, and the proof that it returns exactly these
    bytes, or an error exactly when the header or the limits do not allow it. *)

From stdpp Require Import gmap sorting numbers.
From S2P Require Import Prelude GoBytes GoTime RawMsg RawBody RawParser TagTypes TagScan TagBase64 Combine TagSpec.
From S2P Require Import InstTypes InstParser InstSpec InstCollection InstRender.
From S2P Require Import DomainName SigAlgorithm SigTypes SigEnvelope SigParser SigSpec SigCollection SigRender SigTarget Sha2 CanonTypes CanonHeader CanonSignature.
#[local] Open Scope Z_scope.

(** ** Canonical fields *)
Definition no_wsp (value : bytes) : bytes := List.filter (fun b => negb (isSignatureInputWSP b)) value.
(** The name in lower case, a colon, the value without white space, CRLF. *)
Definition signed_field (name value : bytes) : bytes := name ++ [x3a] ++ no_wsp value ++ crlf.
Lemma canonical_signed name value : canonicalizeSignatureInputFieldBytes name value = signed_field name value.
Proof. unfold canonicalizeSignatureInputFieldBytes, appendSignatureInputValueWithoutWSP, signed_field, no_wsp. by rewrite <- !app_assoc. Qed.
(** ** Records in the order of their numbers *)
Lemma sort_ascending records : StronglySorted Z.lt (map rec_number records) -> sortSignatureInputRecords records = records.
Proof.
  unfold sortSignatureInputRecords, slice_stable. induction records as [|r records IH]; [done | ]. cbn [map foldr].
  intros [Ha Hr]%StronglySorted_inv. rewrite IH by done. destruct records as [|s records]; [done | ]. cbn [map] in Hr.
  apply Forall_cons in Hr as [Hr _]. cbn [insert_stable]. by rewrite (proj2 (Z.ltb_ge _ _)) by lia.
Qed.

(** ** Selected fields *)
Definition fits_field (c : Canonicalizer) (part : bytes) : Prop := len part <= CanonTypes.MaxFieldBytes (opt_Limits c).
Lemma canonicalizeField_settles c field :
  settles (canonicalizeSignatureInputField c field) (fits_field c (signed_field (nameLower field) (unfoldedValue field)))
    (fun s => s = signed_field (nameLower field) (unfoldedValue field)).
Proof.
  unfold canonicalizeSignatureInputField, fits_field. rewrite canonical_signed. cbv zeta.
  destruct (Z.ltb_spec (CanonTypes.MaxFieldBytes (opt_Limits c)) (len (signed_field (nameLower field) (unfoldedValue field)))); cbn; [lia | done].
Qed.
Definition parts_of (name : bytes) (m : gmap Z bytes) (ns : list Z) : list bytes :=
  map (fun n => signed_field name (m !!! n)) ns.

Lemma keys_of_pairs {A} (key : A -> Z) (l : list A) : (map (fun p => (key p, p)) l).*1 = map key l.
Proof. apply map_map. Qed.
Section selected.
Context {A : Type} (number_of index_of : A -> Z) (parse_of : HeaderField -> outcome SignatureInputError A).
Context (headerName : bytes) (headerText targetName : string) (c : Canonicalizer) (headers : HeaderBlock).
Context (parsed : list A) (fields : list HeaderField).
Hypothesis Hparsed : Forall2 (fun p f => index_of p = hf_index f /\ parse_of f = Ret p) parsed fields.
Hypothesis Hfields : Forall (fun f => HeaderBlock_Field headers (hf_index f) = Some f /\ nameLower f = headerName) fields.
Hypothesis Hdistinct : NoDup (map number_of parsed).
Definition field_values : gmap Z bytes := list_to_map (zip (map number_of parsed) (map unfoldedValue fields)).
Definition by_number : gmap Z A := list_to_map (map (fun p => (number_of p, p)) parsed).

Lemma byNumberLoop_Ret : byNumberLoop number_of index_of targetName parsed ∅ = Ret by_number.
Proof using Hdistinct.
  unfold by_number. clear Hparsed Hfields fields. enough (forall m, (forall p, p ∈ parsed -> m !! number_of p = None) ->
    byNumberLoop number_of index_of targetName parsed m = Ret (list_to_map (map (fun p => (number_of p, p)) parsed) ∪ m)) as H.
  { rewrite H by (intros; apply lookup_empty). by rewrite (right_id_L ∅ (∪)). }
  induction parsed as [|p ps IH]; intros m Hm; cbn [byNumberLoop map]; [cbn; by rewrite (left_id_L ∅ (∪)) | ].
  cbn [map] in Hdistinct. apply NoDup_cons in Hdistinct as [Hp Hnd]. rewrite Hm by by left. rewrite IH; [ | done | ].
  - f_equal. cbn [list_to_map foldr curry]. rewrite <- insert_union_r; [by rewrite insert_union_l | ].
    apply not_elem_of_list_to_map_1. by rewrite keys_of_pairs.
  - intros q Hq. rewrite lookup_insert_ne; [apply Hm; by right | ]. intros E. apply Hp. rewrite E. by apply list_elem_of_fmap_2.
Qed.
Lemma selected_number n :
  n ∈ map number_of parsed ->
  exists p f, p ∈ parsed /\ by_number !! n = Some p /\ number_of p = n /\ HeaderBlock_Field headers (index_of p) = Some f /\
    nameLower f = headerName /\ parse_of f = Ret p /\ field_values !! n = Some (unfoldedValue f).
Proof using Hparsed Hfields Hdistinct.
  intros (p & -> & Hp)%list_elem_of_fmap. apply list_elem_of_lookup in Hp as [i Hp].
  destruct (Forall2_lookup_l _ _ _ _ _ Hparsed Hp) as (f & Hf & Hi & Hr). exists p, f.
  destruct (proj1 (Forall_lookup _ _) Hfields i f Hf) as [Hh Hn]. rewrite Hi. split_and!; try done.
  - by eapply list_elem_of_lookup_2.
  - apply elem_of_list_to_map_1; [by rewrite keys_of_pairs | ]. apply (list_elem_of_lookup_2 _ i). by rewrite list_lookup_fmap, Hp.
  - unfold field_values. assert (length parsed = length fields) as El by by eapply Forall2_length.
    apply elem_of_list_to_map_1; [rewrite fst_zip; [done | rewrite !length_map; lia] | ].
    apply (list_elem_of_lookup_2 _ i). apply lookup_zip_with_Some. exists (number_of p), (unfoldedValue f).
    split; [done | ]. by rewrite !list_lookup_fmap, Hp, Hf.
Qed.
Definition parts_for (ns : list Z) : list bytes := parts_of headerName field_values ns.
Definition records_for (ns : list Z) (records : list signatureInputRecord) : Prop :=
  map rec_number records = ns /\ map rec_bytes records = parts_for ns.
Lemma recordsLoop_settles count expected :
  Forall (fun n => n ∈ map number_of parsed) (seqZ expected (Z.of_nat count)) ->
  settles (recordsLoop number_of index_of parse_of headerName headerText targetName c headers count expected by_number)
    (Forall (fits_field c) (parts_for (seqZ expected (Z.of_nat count)))) (records_for (seqZ expected (Z.of_nat count))).
Proof using Hparsed Hfields Hdistinct.
  revert expected. induction count as [|count IH]; intros expected.
  { intros _. split; [constructor | done]. }
  rewrite seqZ_cons by lia. replace (Z.succ expected) with (expected + 1) by lia. replace (Z.pred (Z.of_nat (S count))) with (Z.of_nat count) by lia.
  intros [H0 Hrest]%Forall_cons. destruct (selected_number expected H0) as (p & f & _ & Hb & En & Hh & Hname & Hr & Hv).
  cbn [recordsLoop]. rewrite Hb. unfold signatureInputFieldByIndex. rewrite Hh, Hname, bytes_equal_refl. cbn [require obind].
  rewrite Hr, Z.eqb_refl. cbn [require obind].
  assert (parts_for (expected :: seqZ (expected + 1) (Z.of_nat count)) =
    signed_field headerName (unfoldedValue f) :: parts_for (seqZ (expected + 1) (Z.of_nat count))) as Ep.
  { unfold parts_for, parts_of. cbn [map]. by rewrite (lookup_total_correct _ _ _ Hv). }
  rewrite Ep. eapply settles_iff; [ | symmetry; apply Forall_cons].
  pose proof (canonicalizeField_settles c f) as Hc. rewrite Hname in Hc. eapply settles_bind; [exact Hc | ]. intros s _ ->.
  eapply settles_iff; [eapply (settles_bind _ _ _ True); [by apply IH | ] | split; [intros [? _]; done | intros ?; by split]].
  intros records _ [H1 H2]. split; [done | ]. unfold records_for. cbn [map rec_number rec_bytes]. by rewrite H1, H2, En, Ep.
Qed.
End selected.

(** ** The protocol fields of a header *)
Definition indexed (h : HeaderBlock) : Prop := forall i f, hb_fields h !! i = Some f -> hf_index f = Z.of_nat i.
Definition instance_fields (h : HeaderBlock) : list HeaderField := HeaderBlock_FieldsByName h InstTypes.HeaderName.
Definition signature_fields (h : HeaderBlock) : list HeaderField := HeaderBlock_FieldsByName h SigTypes.HeaderName.
Lemma located h name lower :
  indexed h -> canonicalHeaderLookupName name = Some lower ->
  Forall (fun f => HeaderBlock_Field h (hf_index f) = Some f /\ nameLower f = lower) (HeaderBlock_FieldsByName h name).
Proof.
  intros Hi Hn. unfold HeaderBlock_FieldsByName. rewrite Hn. apply list.Forall_forall. intros f [Hl Hin]%list_elem_of_filter.
  apply list_elem_of_lookup in Hin as [i Hin]. split; [ | done]. unfold HeaderBlock_Field. rewrite (Hi i f Hin).
  apply lookup_lt_Some in Hin as Hlt. unfold len. rewrite (proj2 (Z.ltb_ge _ _)), (proj2 (Z.leb_gt _ _)) by lia. cbn [orb]. by rewrite Nat2Z.id.
Qed.

Section idna.
Context (registration : bytes -> option bytes).
(** Every field denotes its parsed value, the instances and the signatures are
    numbered from 1, and the references of the latter cover the former. *)
Definition protocol_state (h : HeaderBlock) (ms : list InstTypes.MessageInstance) (ss : list Signature) : Prop :=
  Forall2 (denotes_field InstTypes.DefaultLimits) ms (instance_fields h) /\
  Forall2 (denotes_signature_field registration SigTypes.DefaultLimits) ss (signature_fields h) /\
  len ms <= 128 /\ contiguous ms /\ len ss <= 128 /\ sequential ss /\ (ms = [] /\ ss = [] \/ references_cover (len ms) ss).

(** The package's Parse leaves zeros for the tag limits, which the scanner replaces. *)
Definition parse_limits : InstTypes.Limits := InstTypes.MkLimits (TagTypes.MkLimits 0 0 0 0 0) maxHashSetsHard maxInstancesHard.
Lemma parse_limits_same m f : denotes_field parse_limits m f <-> denotes_field InstTypes.DefaultLimits m f.
Proof. done. Qed.
Lemma parseInstances_fields fields : parseInstances fields = map_fail OfInstance (InstCollection.parseFields parse_limits fields).
Proof.
  induction fields as [|f fields IH]; [done | ]. cbn [parseInstances InstCollection.parseFields]. rewrite IH.
  change (InstParser.Parse f) with (InstParser.ParseField parse_limits f).
  destruct (InstParser.ParseField parse_limits f); cbn [map_fail obind]; [ | done | done].
  by destruct (InstCollection.parseFields parse_limits fields).
Qed.
Lemma parseInstances_Ret fields ms :
  Forall (fun f => nameLower f = InstTypes.HeaderName) fields ->
  InstCollection.parseFields parse_limits fields = Ret ms <-> Forall2 (denotes_field InstTypes.DefaultLimits) ms fields.
Proof. intros H. by rewrite parseFields_Ret. Qed.
Lemma parseSignatures_fields fields :
  parseSignatures registration fields = map_fail OfSignature (SigCollection.parseFields registration SigTypes.DefaultLimits fields).
Proof.
  induction fields as [|f fields IH]; [done | ]. cbn [parseSignatures SigCollection.parseFields]. rewrite IH.
  change (SigParser.Parse registration f) with (SigParser.ParseField registration SigTypes.DefaultLimits f).
  destruct (SigParser.ParseField registration SigTypes.DefaultLimits f); cbn [map_fail obind]; [ | done | done].
  by destruct (SigCollection.parseFields registration SigTypes.DefaultLimits fields).
Qed.
Lemma named_fields h name lower :
  canonicalHeaderLookupName name = Some lower -> Forall (fun f => nameLower f = lower) (HeaderBlock_FieldsByName h name).
Proof. intros E. unfold HeaderBlock_FieldsByName. rewrite E. apply list.Forall_forall. by intros f [? _]%list_elem_of_filter. Qed.
Lemma extract_Ret h ms ss : extractSignatureInputState registration h = Ret (ms, ss) <-> protocol_state h ms ss.
Proof.
  unfold extractSignatureInputState, protocol_state. fold (instance_fields h). fold (signature_fields h).
  rewrite parseInstances_fields, parseSignatures_fields.
  assert (Forall (fun f => nameLower f = InstTypes.HeaderName) (instance_fields h)) as Hi by by apply named_fields.
  assert (Forall (fun f => nameLower f = SigTypes.HeaderName) (signature_fields h)) as Hs by by apply named_fields.
  split.
  - intros (ms' & Hms%map_fail_Ret & ([] & Hv%map_fail_Ret & (ss' & Hss%map_fail_Ret & ([] & Hw%map_fail_Ret & ([] & Hr%map_fail_Ret & [= <- <-])%obind_ret_inv)%obind_ret_inv)%obind_ret_inv)%obind_ret_inv)%obind_ret_inv.
    apply parseInstances_Ret in Hms; [ | done]. apply sig_parseFields_Ret in Hss; [ | done].
    pose proof (denoted_positive _ _ _ Hms). pose proof (denoted_sequence_positive _ _ _ _ Hss).
    apply ValidateInstanceReferences_Ret in Hr as (? & ? & ? & ? & ?); [ | done | done]. by split_and!.
  - intros (Hms & Hss & H1 & H2 & H3 & H4 & H5). pose proof (denoted_positive _ _ _ Hms) as Hp. pose proof (denoted_sequence_positive _ _ _ _ Hss) as Hq.
    rewrite (proj2 (parseInstances_Ret _ _ Hi) Hms). cbn [map_fail obind].
    rewrite (proj2 (ValidateSequence_Ret ms Hp)) by done. cbn [map_fail obind].
    rewrite (proj2 (sig_parseFields_Ret _ _ _ _ Hs) Hss). cbn [map_fail obind].
    rewrite (proj2 (sig_ValidateSequence_Ret ss Hq)) by done. cbn [map_fail obind].
    by rewrite (proj2 (ValidateInstanceReferences_Ret ms ss Hp Hq)) by (by split_and!).
Qed.
Lemma extract_safe h : no_crash (extractSignatureInputState registration h).
Proof.
  unfold extractSignatureInputState. fold (instance_fields h). fold (signature_fields h). rewrite parseInstances_fields, parseSignatures_fields.
  assert (Forall (fun f => nameLower f = InstTypes.HeaderName) (instance_fields h)) as Hi by by apply named_fields.
  assert (Forall (fun f => nameLower f = SigTypes.HeaderName) (signature_fields h)) as Hs by by apply named_fields.
  apply obind_no_crash; [apply map_fail_no_crash, parseFields_safe | intros ms Hms%map_fail_Ret]. apply parseInstances_Ret, denoted_positive in Hms; [ | done].
  apply obind_no_crash; [apply map_fail_no_crash | intros _ _].
  { by destruct (ValidateSequence_cases ms Hms) as [(-> & _) | (e & -> & _)]. }
  apply obind_no_crash; [apply map_fail_no_crash, sig_parseFields_safe | intros ss Hss%map_fail_Ret].
  apply sig_parseFields_Ret, denoted_sequence_positive in Hss; [ | done].
  apply obind_no_crash; [by apply map_fail_no_crash, sig_ValidateSequence_safe | intros _ _].
  apply obind_no_crash; [by apply map_fail_no_crash, ValidateInstanceReferences_safe | done].
Qed.
End idna.

(** ** The target with empty signature strings *)
Definition incomplete_tag (null : bytes) (t : Tag) : bytes :=
  tag_name t ++ [x3d] ++ (if bytes_equal (tag_name t) (bs "s") then null else tag_value t).
Definition incomplete_text (null : bytes) (ts : list Tag) : bytes := join_semi (map (incomplete_tag null) ts).
(** The tag list of the value with the selectors and algorithms alone in s=, and
    the final semicolon that the value has. *)
Definition incomplete_value (value : bytes) (s : Signature) : bytes :=
  match ScanHeader value knownSignatureTags TagTypes.DefaultLimits with
  | Ret f =>
      incomplete_text (default [] (UnsignedSignatureValue s)) (tags f)
      ++ (if ends_semicolon (trimSignatureInputWSP value) then [x3b] else [])
  | _ => []
  end.

Lemma join_semi_concat x l : join_semi (x :: l) = x ++ concat (map (cons x3b) l).
Proof.
  revert x. induction l as [|y l IH]; intros x; [cbn; by rewrite app_nil_r | ]. rewrite join_semi_cons by done.
  cbn [map concat]. by rewrite IH.
Qed.
Lemma incompleteLoop_Ret ts index target saw rendered null :
  UnsignedSignatureValue target = Some null -> 0 <= index ->
  incompleteLoop ts index target saw rendered =
  Ret (rendered ++ (if 0 <? index then concat (map (cons x3b) (map (incomplete_tag null) ts)) else incomplete_text null ts),
       saw || existsb (fun t => bytes_equal (tag_name t) (bs "s")) ts).
Proof.
  intros Hnull. revert index saw rendered. induction ts as [|t ts IH]; intros index saw rendered Hi; cbn [incompleteLoop map existsb].
  { rewrite orb_false_r. destruct (0 <? index); cbn; by rewrite app_nil_r. }
  cbv zeta. assert (forall v, v = incomplete_tag null t ->
    (if 0 <? index then rendered ++ [x3b] else rendered) ++ v ++ concat (map (cons x3b) (map (incomplete_tag null) ts)) =
    rendered ++ (if 0 <? index then concat (map (cons x3b) (incomplete_tag null t :: map (incomplete_tag null) ts))
                 else incomplete_text null (t :: ts))) as Hstep.
  { intros v ->. destruct (0 <? index); [cbn [map concat]; by rewrite <- !app_assoc | ].
    f_equal. unfold incomplete_text. cbn [map]. by rewrite join_semi_concat. }
  unfold incomplete_tag in Hstep at 1. destruct (bytes_equal (tag_name t) (bs "s")) eqn:Es; cbn [negb].
  - rewrite Hnull, IH by lia. rewrite (proj2 (Z.ltb_lt 0 (index + 1))) by lia. cbn [orb]. rewrite orb_true_r.
    do 2 f_equal. etransitivity; [ | exact (Hstep _ eq_refl)]. by rewrite <- !app_assoc.
  - rewrite IH by lia. rewrite (proj2 (Z.ltb_lt 0 (index + 1))) by lia. cbn [orb].
    do 2 f_equal. etransitivity; [ | exact (Hstep _ eq_refl)]. by rewrite <- !app_assoc.
Qed.
Lemma unsignedSetLoop_is_Some sets index layout output :
  Forall (fun s => comp_selector s <> [] /\ comp_algorithm s <> []) sets -> is_Some (unsignedSetLoop sets index layout output).
Proof.
  intros H. revert index output. induction H as [|s sets [Hs Ha] _ IH]; intros index output; cbn [unsignedSetLoop]; [done | ].
  rewrite !bool_decide_eq_false_2 by done. apply IH.
Qed.
Lemma unsigned_value_exists L maxSets text s :
  signatures_value L maxSets text (signatures s) (setLayout s) -> is_Some (UnsignedSignatureValue s).
Proof.
  intros (gs & Hgs & Hmax & _ & _ & El & Hd & _). unfold UnsignedSignatureValue, appendUnsignedSetList.
  pose proof (group_sizes_good gs Hgs Hmax) as Hgood. pose proof (Forall2_length _ _ _ Hd) as Hlen.
  assert (len (map (fun set => MkComponent (rawSelector set) (algorithm set)) (signatures s)) = len (concat gs)) as E1
    by (unfold len; by rewrite length_map, Hlen).
  rewrite E1, El, Valid_of by done. unfold Sets. rewrite GroupSizes_of, sum_len, Z.eqb_refl.
  assert (len (concat gs) =? 0 = false) as ->.
  { apply Z.eqb_neq. destruct Hgood as (Hne & Hpos & _). rewrite <- sum_len. destruct gs as [|g gs]; [done | ]. cbn [map] in *.
    apply Forall_cons in Hpos as [H0 Hpos]. apply sum_sizes_bound in Hpos. rewrite sum_sizes_cons. pose proof (len_nonneg (map len gs)). lia. }
  cbn [orb negb]. apply unsignedSetLoop_is_Some. rewrite Forall_map. clear -Hd. induction Hd as [|x p ss ps (text & _ & Hs & _ & Ha & _) _ IH]; [constructor | ].
  constructor; [ | done]. cbn [comp_selector comp_algorithm]. split.
  - intros E. rewrite E in Hs. by apply is_domain_nonempty in Hs.
  - by apply ParseTextstring_Some in Ha as (_ & ? & _).
Qed.
Section incomplete.
Context (registration : bytes -> option bytes).
Lemma renderIncomplete_Ret value s :
  signature_text registration SigTypes.DefaultLimits value s ->
  renderIncompleteSignatureValue value s = Ret (incomplete_value value s).
Proof.
  intros (_ & Hlen & Hb & f & Hf & Htags). destruct Htags as (_ & _ & _ & _ & (v & (t & Ht & Hn & _) & Hv) & _).
  change (TagTypes.Limits_normalize (TagLimits SigTypes.DefaultLimits)) with TagTypes.DefaultLimits in *.
  assert (ScanHeader value knownSignatureTags TagTypes.DefaultLimits = Ret f) as Hs.
  { apply scan_iff. split_and!; [done | done | ]. by exists value. }
  destruct (unsigned_value_exists _ _ _ _ Hv) as [null Hnull].
  unfold renderIncompleteSignatureValue, incomplete_value. change knownSignatureInputTags with knownSignatureTags. rewrite Hs, Hnull. cbn [map_fail obind default].
  assert (len (tags f) =? 0 = false) as ->.
  { apply Z.eqb_neq. intros E. destruct (tags f) as [|t' ts]; [by apply elem_of_nil in Ht | ]. rewrite len_cons in E. pose proof (len_nonneg ts). lia. }
  cbn [negb require obind]. rewrite (incompleteLoop_Ret _ _ _ _ _ null) by (done || lia). cbn [obind app orb].
  assert (existsb (fun t => bytes_equal (tag_name t) (bs "s")) (tags f) = true) as ->.
  { apply existsb_exists. exists t. split; [by apply list_elem_of_In | ]. by apply bytes_equal_eq. }
  cbn [require obind]. change (0 <? 0) with false. cbv iota. destruct (ends_semicolon _); [done | by rewrite app_nil_r].
Qed.
End incomplete.

(** ** Accumulation under the total limit *)
Definition input_bound (c : Canonicalizer) : Z := Z.min (MaxSignatureInputBytes (opt_Limits c)) MaxInt.
Lemma appendField_settles c output r :
  len output <= input_bound c ->
  settles (appendSignatureInputField output r (MaxSignatureInputBytes (opt_Limits c)))
    (len (output ++ rec_bytes r) <= input_bound c) (fun s => s = output ++ rec_bytes r).
Proof.
  unfold input_bound, appendSignatureInputField, checkedSignatureInputAdd. intros Ho. rewrite len_app. pose proof (len_nonneg output). pose proof (len_nonneg (rec_bytes r)).
  rewrite !(proj2 (Z.ltb_ge _ 0)) by lia. cbn [orb]. destruct (Z.ltb_spec (MaxInt - len output) (len (rec_bytes r))); [cbn; lia | ].
  destruct (Z.ltb_spec (MaxSignatureInputBytes (opt_Limits c)) (len output + len (rec_bytes r))); cbn; [lia | ]. split; [lia | done].
Qed.
Lemma appendFields_settles c output rs :
  len output <= input_bound c ->
  settles (appendFields output rs (MaxSignatureInputBytes (opt_Limits c)))
    (len (output ++ concat (map rec_bytes rs)) <= input_bound c) (fun s => s = output ++ concat (map rec_bytes rs)).
Proof.
  revert output. induction rs as [|r rs IH]; intros output Ho; cbn [appendFields map concat]; [rewrite app_nil_r; by split | ].
  rewrite app_assoc. eapply settles_iff; [eapply settles_bind; [by apply appendField_settles | ] | ].
  - intros s Hs ->. apply IH. exact Hs.
  - rewrite (len_app (output ++ rec_bytes r)). pose proof (len_nonneg (concat (map rec_bytes rs))). split; [intros [_ ?]; lia | intros ?; lia].
Qed.

(** ** The signature input of a header *)
Section signature_input.
Context (registration : bytes -> option bytes) (c : Canonicalizer) (h : HeaderBlock).
Hypothesis Hindexed : indexed h.
Definition instance_values (ms : list InstTypes.MessageInstance) : gmap Z bytes := field_values number ms (instance_fields h).
Definition signature_values (ss : list Signature) : gmap Z bytes := field_values sequence ss (signature_fields h).
Definition instance_parts (ms : list InstTypes.MessageInstance) (k : Z) : list bytes :=
  parts_of InstTypes.HeaderName (instance_values ms) (seqZ 1 k).
Definition signature_parts (ss : list Signature) (k : Z) : list bytes :=
  parts_of SigTypes.HeaderName (signature_values ss) (seqZ 1 k).

Section state.
Context (ms : list InstTypes.MessageInstance) (ss : list Signature).
Hypothesis Hstate : protocol_state registration h ms ss.
Lemma instances_located :
  Forall2 (fun p f => InstTypes.headerIndex p = hf_index f /\ map_fail OfInstance (InstParser.Parse f) = Ret p) ms (instance_fields h).
Proof using Hstate.
  destruct Hstate as (Hms & _). assert (Forall (fun f => nameLower f = InstTypes.HeaderName) (instance_fields h)) as Hn by by apply named_fields.
  revert Hms Hn. generalize (instance_fields h). clear. intros fields H. induction H as [|m f ms fields [Hi Ht] _ IH]; [constructor | ].
  intros [Hn Hrest]%Forall_cons. constructor; [ | by apply IH]. split; [done | ]. apply map_fail_Ret.
  change (InstParser.Parse f) with (InstParser.ParseField parse_limits f). apply ParseField_Ret. by split_and!.
Qed.
Lemma signatures_located :
  Forall2 (fun p f => SigTypes.headerIndex p = hf_index f /\ map_fail OfSignature (SigParser.Parse registration f) = Ret p) ss (signature_fields h).
Proof using Hstate.
  destruct Hstate as (_ & Hss & _). assert (Forall (fun f => nameLower f = SigTypes.HeaderName) (signature_fields h)) as Hn by by apply named_fields.
  revert Hss Hn. generalize (signature_fields h). clear. intros fields H. induction H as [|m f ms fields [Hi Ht] _ IH]; [constructor | ].
  intros [Hn Hrest]%Forall_cons. constructor; [ | by apply IH]. split; [done | ]. apply map_fail_Ret.
  change (SigParser.Parse registration f) with (SigParser.ParseField registration SigTypes.DefaultLimits f). apply sig_ParseField_Ret. by split_and!.
Qed.
Lemma instanceRecords_settles k :
  1 <= k <= len ms ->
  settles (signatureInputInstanceRecords c h ms k) (Forall (fits_field c) (instance_parts ms k))
    (fun rs => len rs = k /\ map rec_bytes rs = instance_parts ms k /\ map rec_number rs = seqZ 1 k).
Proof using Hindexed Hstate.
  intros Hk. unfold signatureInputInstanceRecords. rewrite (proj2 (Z.eqb_neq _ _)), (proj2 (Z.ltb_ge _ _)) by lia. cbn [negb require obind].
  pose proof Hstate as (_ & _ & _ & Hc & _). pose proof (contiguous_NoDup _ Hc) as Hnd.
  rewrite byNumberLoop_Ret by done. cbn [obind].
  pose proof (recordsLoop_settles number InstTypes.headerIndex _ InstTypes.HeaderName "message-instance" targetNameInstance c h ms (instance_fields h)
    instances_located (located h InstTypes.HeaderName _ Hindexed eq_refl) Hnd (Z.to_nat k) 1) as H. rewrite Z2Nat.id in H by lia.
  eapply settles_iff; [eapply (settles_bind _ _ _ True); [apply H | ] | split; [by intros [? _] | by intros ?; split]].
  - apply list.Forall_forall. intros n Hn%elem_of_seqZ. apply contiguous_elem; [done | lia].
  - intros rs _ [H1 H2]. split; [done | ]. rewrite sort_ascending by (rewrite H1; apply seqZ_sorted). split; [ | by split].
    apply (f_equal length) in H1. rewrite length_map, length_seqZ in H1. unfold len. lia.
Qed.
Lemma signatureRecords_settles n :
  1 <= n <= len ss + 1 ->
  settles (signatureInputCompleteSignatureRecords registration c h ss n) (Forall (fits_field c) (signature_parts ss (n - 1)))
    (fun rs => len rs = n - 1 /\ map rec_bytes rs = signature_parts ss (n - 1)).
Proof using Hindexed Hstate.
  intros Hk. unfold signatureInputCompleteSignatureRecords. rewrite (proj2 (Z.eqb_neq _ _)), (proj2 (Z.ltb_ge _ _)) by lia. cbn [negb orb require obind].
  pose proof Hstate as (_ & _ & _ & _ & _ & Hc & _). pose proof (sequential_NoDup _ Hc) as Hnd.
  rewrite byNumberLoop_Ret by done. cbn [obind].
  pose proof (recordsLoop_settles sequence SigTypes.headerIndex _ SigTypes.HeaderName "dkim2-signature" targetNameSignature c h ss (signature_fields h)
    signatures_located (located h SigTypes.HeaderName _ Hindexed eq_refl) Hnd (Z.to_nat (n - 1)) 1) as H. rewrite Z2Nat.id in H by lia.
  eapply settles_iff; [eapply (settles_bind _ _ _ True); [apply H | ] | split; [by intros [? _] | by intros ?; split]].
  - apply list.Forall_forall. intros k Hn%elem_of_seqZ. change (map sequence ss) with (sequences ss). rewrite <- numbers_instances.
    apply contiguous_elem; [by apply contiguous_instances | ]. unfold len in *. rewrite length_map. lia.
  - intros rs _ [H1 H2]. split; [done | ]. rewrite sort_ascending by (rewrite H1; apply seqZ_sorted). split; [ | done].
    apply (f_equal length) in H1. rewrite length_map, length_seqZ in H1. unfold len. lia.
Qed.
Lemma target_exists n :
  1 <= n <= len ss ->
  exists s f, s ∈ ss /\ sequence s = n /\ HeaderBlock_Field h (SigTypes.headerIndex s) = Some f /\ nameLower f = SigTypes.HeaderName /\
    SigParser.Parse registration f = Ret s /\ signature_values ss !! n = Some (unfoldedValue f) /\
    signature_text registration SigTypes.DefaultLimits (unfoldedValue f) s.
Proof using Hindexed Hstate.
  intros Hn. pose proof Hstate as (_ & _ & _ & _ & _ & Hc & _). pose proof (sequential_NoDup _ Hc) as Hnd.
  destruct (selected_number sequence SigTypes.headerIndex (fun f => map_fail OfSignature (SigParser.Parse registration f)) SigTypes.HeaderName h ss
    (signature_fields h) signatures_located (located h SigTypes.HeaderName _ Hindexed eq_refl) Hnd n) as (s & f & Hin & _ & En & Hf & Hname & Hp & Hv).
  { change (map sequence ss) with (sequences ss). rewrite <- numbers_instances. apply contiguous_elem; [by apply contiguous_instances | ].
    unfold len in *. by rewrite length_map. }
  apply map_fail_Ret in Hp. exists s, f. split_and!; try done.
  change (SigParser.Parse registration f) with (SigParser.ParseField registration SigTypes.DefaultLimits f) in Hp.
  by apply sig_ParseField_Ret in Hp as (_ & _ & ?).
Qed.
Definition target_part (n : Z) (s : Signature) : bytes :=
  signed_field SigTypes.HeaderName (incomplete_value (signature_values ss !!! n) s).
Lemma targetRecord_settles s :
  s ∈ ss ->
  settles (signatureInputTargetRecord registration c h s) (fits_field c (target_part (sequence s) s))
    (fun r => rec_bytes r = target_part (sequence s) s).
Proof using Hindexed Hstate.
  intros Hs. pose proof Hstate as (_ & _ & _ & _ & _ & Hc & _). pose proof (sequential_bounds _ _ Hc Hs) as Hb.
  destruct (target_exists _ Hb) as (s' & f & Hs' & E & Hf & Hname & Hp & Hv & Ht).
  apply (sequential_eq ss) in E as ->; [ | done | done | done].
  unfold signatureInputTargetRecord, signatureInputFieldByIndex. rewrite Hf, Hname, bytes_equal_refl. cbn [require obind].
  rewrite Hp. cbn [map_fail obind]. rewrite Z.eqb_refl. cbn [require obind].
  rewrite (renderIncomplete_Ret registration) by done. cbn [obind]. cbv zeta. rewrite canonical_signed.
  unfold target_part. rewrite (lookup_total_correct _ _ _ Hv). unfold fits_field.
  destruct (Z.ltb_spec (CanonTypes.MaxFieldBytes (opt_Limits c)) (len (signed_field SigTypes.HeaderName (incomplete_value (unfoldedValue f) s)))); cbn [negb require obind settles rec_bytes]; [lia | done].
Qed.
Lemma seenTargets_Ret n l seen t :
  NoDup (sequences l) -> (forall p, p ∈ l -> seen !! sequence p = None) ->
  exists r, seenTargets l n seen t = Ret r /\
    ((exists p, r = Some p /\ p ∈ l /\ sequence p = n) \/ (n ∉ sequences l /\ r = t)).
Proof using.
  clear. revert seen t. induction l as [|p l IH]; intros seen t; cbn [seenTargets map]; [intros; exists t; split; [done | right; split; [by intros ?%elem_of_nil | done]] | ].
  intros [Hp Hnd]%NoDup_cons Hseen. rewrite Hseen by by left.
  destruct (IH (<[sequence p := SigTypes.headerIndex p]> seen) (if negb (sequence p =? n) then t else Some p) Hnd) as (r & Hr & Hcase).
  { intros q Hq. rewrite lookup_insert_ne; [apply Hseen; by right | ]. intros E. apply Hp. rewrite E. by apply list_elem_of_fmap_2. }
  exists r. split; [done | ]. destruct Hcase as [(q & -> & Hq & E) | [Hn ->]]; [left; exists q; split_and!; [done | by right | done] | ].
  destruct (Z.eqb_spec (sequence p) n) as [E | E]; cbn [negb]; [left; exists p; split_and!; [done | by left | done] | right; split; [ | done]].
  apply not_elem_of_cons. by split; [congruence | ].
Qed.
Lemma select_settles n :
  settles (selectSignatureTarget ss n) (1 <= n <= len ss) (fun s => s ∈ ss /\ sequence s = n).
Proof using Hstate.
  pose proof Hstate as (_ & _ & _ & _ & _ & Hc & _). unfold selectSignatureTarget.
  destruct (Z.eqb_spec n 0) as [-> | Hn]; cbn [negb require obind]; [cbn; lia | ].
  destruct (seenTargets_Ret n ss ∅ None (sequential_NoDup _ Hc) ltac:(intros; apply lookup_empty)) as (r & Hr & Hcase). rewrite Hr. cbn [obind].
  destruct Hcase as [(p & -> & Hp & E) | [Hnot ->]].
  - split; [rewrite <- E; by apply sequential_bounds | done].
  - cbn. intros Hb. apply Hnot. change (map sequence ss) with (sequences ss). rewrite <- numbers_instances. apply contiguous_elem; [by apply contiguous_instances | ].
    unfold len in *. by rewrite length_map.
Qed.
(** The parts of the input for the target [s]: the instances that it covers, the
    signatures before it, and the target without its signature strings. *)
Definition input_parts (s : Signature) : list bytes :=
  instance_parts ms (instanceNumber s) ++ signature_parts ss (sequence s - 1) ++ [target_part (sequence s) s].
Definition input_fits (parts : list bytes) : Prop :=
  len (instance_fields h) + len (signature_fields h) <= CanonTypes.MaxFieldCount (opt_Limits c) /\
  Forall (fits_field c) parts /\ len (concat parts) <= input_bound c.
End state.
Definition signature_input (n : Z) (input : bytes) : Prop :=
  exists ms ss s, protocol_state registration h ms ss /\ s ∈ ss /\ sequence s = n /\
    input_fits (input_parts ms ss s) /\ input = concat (input_parts ms ss s).

Lemma signature_input_unique n a b : signature_input n a -> signature_input n b -> a = b.
Proof using.
  clear. intros (ms & ss & s & Hst & Hs & En & _ & ->) (ms' & ss' & s' & Hst' & Hs' & En' & _ & ->).
  apply extract_Ret in Hst as Hex. apply extract_Ret in Hst'. rewrite Hex in Hst'. injection Hst' as <- <-.
  destruct Hst as (_ & _ & _ & _ & _ & Hc & _). by rewrite (sequential_eq ss s' s Hc Hs' Hs) by congruence.
Qed.

Hypothesis Hoptions : Options_Validate c = Ret tt.
Lemma input_bound_positive : 0 < input_bound c.
Proof using Hoptions.
  unfold input_bound, MaxInt. apply obind_ret_inv in Hoptions as ([] & H & _). unfold CanonTypes.Limits_Validate in H.
  apply obind_ret_inv in H as (? & _ & H). apply obind_ret_inv in H as (? & _ & H). apply obind_ret_inv in H as (? & H%require_ret_inv%Z.ltb_lt & _). lia.
Qed.
Lemma input_fits_iff ms ss s :
  len (instance_fields h) + len (signature_fields h) <= CanonTypes.MaxFieldCount (opt_Limits c) ->
  Forall (fits_field c) (instance_parts ms (instanceNumber s)) /\ Forall (fits_field c) (signature_parts ss (sequence s - 1)) /\
  fits_field c (target_part ss (sequence s) s) /\ len (concat (instance_parts ms (instanceNumber s))) <= input_bound c /\
  len (concat (instance_parts ms (instanceNumber s)) ++ concat (signature_parts ss (sequence s - 1))) <= input_bound c /\
  len ((concat (instance_parts ms (instanceNumber s)) ++ concat (signature_parts ss (sequence s - 1))) ++ target_part ss (sequence s) s) <= input_bound c
  <-> input_fits (input_parts ms ss s).
Proof using.
  clear. intros Hcount. unfold input_fits, input_parts. rewrite !Forall_app, Forall_singleton, !concat_app, !len_app. cbn [concat]. rewrite app_nil_r.
  pose proof (len_nonneg (concat (signature_parts ss (sequence s - 1)))). pose proof (len_nonneg (target_part ss (sequence s) s)).
  split; [intros (? & ? & ? & ? & ? & ?) | intros (? & (? & ? & ?) & ?)]; split_and!; done || lia.
Qed.
Lemma SignatureInput_target n ms ss s :
  protocol_state registration h ms ss -> s ∈ ss -> sequence s = n ->
  len (instance_fields h) + len (signature_fields h) <= CanonTypes.MaxFieldCount (opt_Limits c) ->
  extractSignatureInputState registration h = Ret (ms, ss) -> selectSignatureTarget ss n = Ret s ->
  settles (SignatureInput registration c (MkSelection h n)) (input_fits (input_parts ms ss s))
    (fun input => in_bytes input = concat (input_parts ms ss s)).
Proof using Hindexed Hoptions.
  intros Hst Hs <- Hcount Hex Hsel. pose proof Hst as (Hms & Hss & _ & _ & _ & Hc & Hr).
  assert (1 <= instanceNumber s <= len ms) as Hk.
  { destruct Hr as [[_ ->] | [Hr _]]; [by apply elem_of_nil in Hs | by apply Hr]. }
  pose proof (sequential_bounds _ _ Hc Hs) as Hn. pose proof input_bound_positive as Hpos.
  assert (len ms = len (instance_fields h) /\ len ss = len (signature_fields h)) as [El Es].
  { unfold len. by rewrite (Forall2_length _ _ _ Hms), (Forall2_length _ _ _ Hss). }
  unfold SignatureInput. cbn [sel_Headers sel_TargetSequence]. cbv zeta. fold (instance_fields h). fold (signature_fields h).
  rewrite (proj2 (Z.ltb_ge _ _)) by done. cbn [negb require obind]. rewrite Hex. cbn [obind]. rewrite Hsel. cbn [obind].
  eapply settles_iff; [ | by apply input_fits_iff].
  eapply settles_bind; [by apply (instanceRecords_settles ms ss Hst) | ]. intros ir _ (Hil & Hib & _).
  eapply settles_bind; [apply (signatureRecords_settles ms ss Hst); lia | ]. intros sr _ [Hsl Hsb].
  eapply settles_bind; [by apply (targetRecord_settles ms ss Hst) | ]. intros tr _ Htb.
  rewrite (proj2 (Z.ltb_ge _ _)) by (rewrite Hil, Hsl; lia). cbn [negb require obind].
  pose proof (appendFields_settles c [] ir ltac:(change (len (@nil byte)) with 0; lia)) as H1. rewrite Hib in H1. cbn [app] in H1.
  eapply settles_bind; [exact H1 | ]. intros s1 Hl1 ->.
  pose proof (appendFields_settles c _ sr Hl1) as H2. rewrite Hsb in H2. eapply settles_bind; [exact H2 | ]. intros s2 Hl2 ->.
  pose proof (appendField_settles c _ tr Hl2) as H3. rewrite Htb in H3.
  eapply settles_iff; [eapply (settles_bind _ _ _ True); [exact H3 | ] | split; [by intros [? _] | by intros ?; split]].
  intros s3 _ ->. split; [done | ]. cbn [in_bytes]. unfold input_parts. rewrite !concat_app. cbn [concat]. by rewrite app_nil_r, <- app_assoc.
Qed.
Lemma SignatureInput_settles n :
  settles (SignatureInput registration c (MkSelection h n)) (exists input, signature_input n input)
    (fun input => signature_input n (in_bytes input)).
Proof using Hindexed Hoptions.
  destruct (Z.ltb_spec (CanonTypes.MaxFieldCount (opt_Limits c)) (len (instance_fields h) + len (signature_fields h))) as [Hcount | Hcount].
  { unfold SignatureInput. cbn [sel_Headers sel_TargetSequence]. cbv zeta. fold (instance_fields h). fold (signature_fields h).
    rewrite (proj2 (Z.ltb_lt _ _)) by done. cbn [negb require obind settles]. intros (input & ms & ss & s & _ & _ & _ & (Hc & _) & _). lia. }
  pose proof (extract_safe registration h) as Hsafe.
  destruct (extractSignatureInputState registration h) as [[ms ss] | e |] eqn:Hex; [ | | done].
  2: { unfold SignatureInput. cbn [sel_Headers sel_TargetSequence]. cbv zeta. fold (instance_fields h). fold (signature_fields h).
       rewrite (proj2 (Z.ltb_ge _ _)) by done. cbn [negb require obind]. rewrite Hex. cbn [obind settles].
       intros (input & ms & ss & s & Hst & _). apply extract_Ret in Hst. congruence. }
  apply extract_Ret in Hex as Hst. pose proof Hst as (_ & _ & _ & _ & _ & Hc & _).
  assert (forall input, signature_input n input <-> exists s, s ∈ ss /\ sequence s = n /\ input_fits (input_parts ms ss s) /\ input = concat (input_parts ms ss s)) as Hiff.
  { intros input. split; [ | intros (s & ?); by exists ms, ss, s]. intros (ms' & ss' & s & Hst' & H).
    apply extract_Ret in Hst'. rewrite Hex in Hst'. injection Hst' as <- <-. by exists s. }
  pose proof (select_settles ms ss Hst n) as Hsel. destruct (selectSignatureTarget ss n) as [s | e |] eqn:Es; cbn [settles] in Hsel; [ | | done].
  - destruct Hsel as (Hn & Hs & E). eapply settles_conv; [by apply (SignatureInput_target n ms ss s) | | ].
    + split; [intros H; exists (concat (input_parts ms ss s)); apply Hiff; by exists s | ].
      intros (input & (s' & Hs' & E' & Hf & _)%Hiff). by rewrite <- (sequential_eq ss s' s Hc Hs' Hs) by congruence.
    + intros input Hf Eb. apply Hiff. by exists s.
  - unfold SignatureInput. cbn [sel_Headers sel_TargetSequence]. cbv zeta. fold (instance_fields h). fold (signature_fields h).
    rewrite (proj2 (Z.ltb_ge _ _)) by done. cbn [negb require obind]. rewrite Hex. cbn [obind]. rewrite Es. cbn [obind settles].
    intros (input & (s' & Hs' & <- & _)%Hiff). apply Hsel. by apply sequential_bounds.
Qed.

(** C34: what a verifier hashes.  For valid options and a header whose fields carry
    their own positions, SignatureInput never panics, and it returns a value
    exactly when every Message-Instance and every DKIM2-Signature field denotes
    a parsed value, the numbers are 1 to their count and the references cover the
    instances, the target number is there, and the fields and the total keep to
    the limits; the bytes are then the canonical instance fields 1 to the
    target's m=, the canonical signature fields before the target and the
    target with the signature strings left empty, each in lower case and without
    white space, in the order of their numbers. *)
Theorem SignatureInput_exact n :
  SignatureInput registration c (MkSelection h n) <> Crash /\
  forall bytes, (exists input, SignatureInput registration c (MkSelection h n) = Ret input /\ in_bytes input = bytes) <->
    signature_input n bytes.
Proof using Hindexed Hoptions.
  pose proof (SignatureInput_settles n) as H. destruct (SignatureInput _ _ _) as [input | e |] eqn:E; cbn [settles] in H; [ | | done].
  - split; [done | ]. intros bytes. split; [intros (? & [= <-] & <-); by destruct H | ]. intros Hb. exists input. split; [done | ].
    destruct H as [_ H]. by eapply signature_input_unique.
  - split; [done | ]. intros bytes. split; [by intros (? & ? & _) | ]. intros Hb. destruct H. by exists bytes.
Qed.
End signature_input.
