(* ===== verification/CanonSigAgree.v ===== *)
(** * The signer and the verifier hash the same bytes

    What SigningInput builds from a message and from the fields that are about
    to be added is what SignatureInput builds from the message that has these
    fields: leaving the signature strings out of a completed field gives the
    unsigned target but for white space, and parsing, numbering and references
    of the other fields do not change. *)

From stdpp Require Import gmap sorting numbers.
From S2P Require Import Prelude GoBytes GoTime RawMsg RawBody RawParser RawSpec RawInsertion TagTypes TagScan TagBase64 Combine TagSpec Emitter FieldScript.
From S2P Require Import InstTypes InstParser InstSpec InstCollection InstRender InstRenderSpec InstRoundtrip.
From S2P Require Import DomainName SigAlgorithm SigTypes SigEnvelope SigEnvelopeSpec SigParser SigSpec SigCollection SigRender SigRenderSpec SigTarget SigUnsigned SigComplete SigRoundtrip.
From S2P Require Import Sha2 CanonTypes CanonHeader CanonSignature CanonSigSpec.
#[local] Open Scope Z_scope.

(** ** Values without white space *)
Lemma no_wsp_app a b : no_wsp (a ++ b) = no_wsp a ++ no_wsp b.
Proof. apply dark_app. Qed.
Lemma no_wsp_trim s : no_wsp (trim_bytes TagTypes.isWSP s) = no_wsp s.
Proof. apply signature_trim. Qed.
Lemma no_wsp_idem s : no_wsp (no_wsp s) = no_wsp s.
Proof.
  unfold no_wsp. apply filter_id. apply list.Forall_forall. intros b Hb%list_elem_of_In%filter_In. by destruct Hb as [_ ->].
Qed.
Lemma no_wsp_join l : no_wsp (join_semi l) = join_semi (map no_wsp l).
Proof.
  destruct l as [|x l]; [done | ]. cbn [map]. rewrite !join_semi_concat, no_wsp_app. f_equal.
  induction l as [|y l IH]; [done | ]. cbn [map concat]. change (x3b :: y) with ([x3b] ++ y). rewrite !no_wsp_app, IH. done.
Qed.
Lemma final_semicolon v : ends_semicolon (trimSignatureInputWSP (v ++ [x3b])) = true.
Proof.
  unfold trimSignatureInputWSP. destruct (trim_bytes_split isSignatureInputWSP (v ++ [x3b])) as (w1 & w2 & E & _ & H1 & H2).
  set (u := trim_bytes _ _) in *. unfold ends_semicolon. destruct w2 as [|b w2 _] using rev_ind.
  - rewrite app_nil_r in E. destruct u as [|b u _] using rev_ind.
    + rewrite app_nil_r in E. assert (x3b ∈ w1) as Hin by (rewrite <- E; set_solver). rewrite Forall_forall in H1. by apply H1 in Hin.
    + rewrite app_assoc in E. apply app_inj_tail in E as [_ <-]. by rewrite List.rev_app_distr.
  - rewrite !app_assoc in E. apply app_inj_tail in E as [_ <-]. apply Forall_app in H2 as [_ [H2 _]%Forall_cons]. done.
Qed.

(** The tags of a field, each without white space. *)
Definition dark_tag (t : bytes * list item) : bytes := no_wsp t.1 ++ [x3d] ++ no_wsp (script_text t.2).
Lemma header_value_dark n0 v0 tags : no_wsp (header_value n0 v0 tags) = join_semi (map dark_tag ((n0, v0) :: tags)) ++ [x3b].
Proof.
  unfold header_value. rewrite no_wsp_app, no_wsp_join. f_equal. f_equal. unfold tag_texts. cbn [map]. f_equal.
  - unfold dark_tag. cbn [fst snd]. by rewrite !no_wsp_app.
  - rewrite map_map. apply map_ext. intros [n v]. unfold dark_tag. cbn [fst snd]. by rewrite !no_wsp_app.
Qed.

Section completed.
Context (registration : bytes -> option bytes) (L : RenderLimits) (c : TargetRequest) (layout : Layout).
Hypothesis Hfrozen : frozen registration L c.
Hypothesis Hwide : wide c.
Hypothesis Hlay : generatedSetLayout (tr_Sets c) = Some layout.
Hypothesis HL : RenderLimits_Validate L = Ret tt.
Context (values ordered : list SetValue).
Hypothesis Hcompletes : completes L (tr_Sets c) values ordered.
Hypothesis Hfits : fits_limits L (complete_script c layout ordered) = true.
Hypothesis Hpaths : valid_paths registration c.

(** Without its signature strings the completed field is the unsigned one. *)
Lemma incomplete_completed s :
  UnsignedSignatureValue s = Some (no_wsp (script_text (set_items (tr_Sets c) 0 layout None))) ->
  no_wsp (incomplete_value (target_value c layout (Some (map sv_Signature ordered))) s) = no_wsp (target_value c layout None).
Proof using Hfrozen Hwide HL Hfits.
  intros Hs. destruct (limits_facts L HL) as [HF HLn].
  destruct (target_scan registration L c Hfrozen Hwide layout (Some (map sv_Signature ordered)) HF HLn Hfits) as [Hscan _].
  unfold incomplete_value. rewrite Hscan, Hs, tags_field_of. cbn [default]. unfold target_value at 1, header_value at 1.
  rewrite final_semicolon, no_wsp_app. unfold target_value. rewrite header_value_dark. f_equal. unfold incomplete_text. rewrite no_wsp_join. f_equal.
  rewrite !map_map. unfold target_tags, envelope_tags_of.
  assert (forall t : bytes * list item, bytes_equal t.1 (bs "s") = false ->
    no_wsp (incomplete_tag (id (no_wsp (script_text (set_items (tr_Sets c) 0 layout None)))) (as_tag t)) = dark_tag t) as Hsame.
  { intros t Ht. unfold incomplete_tag, as_tag, dark_tag. cbn [tag_name tag_value]. rewrite Ht, !no_wsp_app, no_wsp_trim. done. }
  assert (forall v, no_wsp (incomplete_tag (id (no_wsp (script_text (set_items (tr_Sets c) 0 layout None)))) (as_tag (bs "s", v))) =
    dark_tag (bs "s", set_items (tr_Sets c) 0 layout None)) as Hset.
  { intros v. unfold incomplete_tag, as_tag, dark_tag. cbn [tag_name tag_value fst snd]. rewrite bytes_equal_refl, !no_wsp_app. unfold id. by rewrite no_wsp_idem. }
  destruct (negb _), (tr_NoncePresent c), (0 <? len (tr_Flags c)); cbn [app map]; repeat (f_equal; try first [apply Hset | apply Hsame; reflexivity]).
Qed.
End completed.

(** ** The state of a header with one more hop *)
Definition instance_at (m : InstTypes.MessageInstance) (i : Z) : InstTypes.MessageInstance :=
  MkInstance (number m) (hashes m) (hashLayout m) (recipe m) (hasRecipe m) i.
Definition signature_at (s : Signature) (i : Z) : Signature :=
  MkSignature (sequence s) (instanceNumber s) (timestamp s) (mailFrom s) (recipients s) (nextDomain s) (hasNextDomain s) (domain s)
    (signatures s) (setLayout s) (flags s) (nonce s) (hasNonce s) i.
Definition instances_at (ms : list InstTypes.MessageInstance) (fields : list HeaderField) : list InstTypes.MessageInstance :=
  zip_with (fun m f => instance_at m (hf_index f)) ms fields.
Definition signatures_at (ss : list Signature) (fields : list HeaderField) : list Signature :=
  zip_with (fun s f => signature_at s (hf_index f)) ss fields.
Lemma instances_denoted limits ms fields :
  Forall2 (instance_text limits) (map unfoldedValue fields) ms ->
  Forall2 (denotes_field limits) (instances_at ms fields) fields /\ map number (instances_at ms fields) = map number ms.
Proof.
  revert ms. induction fields as [|f fields IH]; intros ms; cbn [map]; intros H.
  - apply Forall2_nil_inv_l in H as ->. by split; [constructor | ].
  - apply Forall2_cons_inv_l in H as (m & ms' & Hm & Hms & ->). destruct (IH _ Hms) as [H1 H2]. split; [constructor; [by split | done] | ].
    cbn [instances_at zip_with map instance_at number]. by f_equal.
Qed.
Lemma signatures_denoted registration limits ss fields :
  Forall2 (signature_text registration limits) (map unfoldedValue fields) ss ->
  Forall2 (denotes_signature_field registration limits) (signatures_at ss fields) fields /\
  Forall2 (fun s' s => exists i, s' = signature_at s i) (signatures_at ss fields) ss.
Proof.
  revert ss. induction fields as [|f fields IH]; intros ss; cbn [map]; intros H.
  - apply Forall2_nil_inv_l in H as ->. by split; constructor.
  - apply Forall2_cons_inv_l in H as (s & ss' & Hs & Hss & ->). destruct (IH _ Hss) as [H1 H2]. split; (constructor; [ | done]).
    + by split.
    + by eexists.
Qed.
Lemma instances_texts limits ms fields :
  Forall2 (denotes_field limits) ms fields -> Forall2 (instance_text limits) (map unfoldedValue fields) ms.
Proof. induction 1 as [|m f ms fields [_ Hm] _ IH]; by constructor. Qed.
Lemma signatures_texts registration limits ss fields :
  Forall2 (denotes_signature_field registration limits) ss fields -> Forall2 (signature_text registration limits) (map unfoldedValue fields) ss.
Proof. induction 1 as [|m f ms fields [_ Hm] _ IH]; by constructor. Qed.

Lemma seqZ_snoc n : 0 <= n -> seqZ 1 (n + 1) = seqZ 1 n ++ [n + 1].
Proof. intros Hn. rewrite seqZ_app, (seqZ_cons (1 + n)) by lia. change (Z.pred 1) with 0. by replace (1 + n) with (n + 1) by lia. Qed.
Lemma next_number l n : 0 <= n -> l ≡ₚ seqZ 1 n -> (n + 1) :: l ≡ₚ seqZ 1 (n + 1).
Proof. intros Hn ->. rewrite seqZ_snoc by done. by rewrite Permutation_app_comm. Qed.
Lemma parts_below name m n v k : k <= n -> parts_of name (<[n + 1 := v]> m) (seqZ 1 k) = parts_of name m (seqZ 1 k).
Proof.
  intros Hk. unfold parts_of. apply map_ext_in. intros j Hj%list_elem_of_In%elem_of_seqZ. by rewrite lookup_total_insert_ne by lia.
Qed.
Lemma parts_next name m n v :
  0 <= n -> parts_of name (<[n + 1 := v]> m) (seqZ 1 (n + 1)) = parts_of name m (seqZ 1 n) ++ [signed_field name v].
Proof.
  intros Hn. rewrite seqZ_snoc by done. unfold parts_of at 1. rewrite map_app. fold (parts_of name (<[n + 1 := v]> m) (seqZ 1 n)).
  rewrite parts_below by lia. cbn [map]. by rewrite lookup_total_insert_eq.
Qed.

Section extended.
Context (registration : bytes -> option bytes) (h h' : HeaderBlock).
Context (ms : list InstTypes.MessageInstance) (ss : list Signature).
Hypothesis Hstate : protocol_state registration h ms ss.
(** The instance that is added, if any, and the text of its field. *)
Context (new : option (InstTypes.MessageInstance * bytes)) (s : Signature) (v : bytes).
Definition new_values : list bytes := if new is Some (_, w) then [w] else [].
Definition new_instances : list InstTypes.MessageInstance := if new is Some (m, _) then [m] else [].
Definition next_count : Z := len ms + len new_values.
Hypothesis Hnew : forall m w, new = Some (m, w) -> instance_text InstTypes.DefaultLimits w m /\ number m = len ms + 1.
Hypothesis Hs : signature_text registration SigTypes.DefaultLimits v s.
Hypothesis Hsequence : sequence s = len ss + 1.
Hypothesis Hinstance : instanceNumber s = next_count.
Hypothesis Hnonempty : 1 <= next_count.
Hypothesis Hbounds : next_count <= 128 /\ len ss + 1 <= 128.
Hypothesis Hinstances : map unfoldedValue (instance_fields h') = new_values ++ map unfoldedValue (instance_fields h).
Hypothesis Hsignatures : map unfoldedValue (signature_fields h') = v :: map unfoldedValue (signature_fields h).
Let ms' := instances_at (new_instances ++ ms) (instance_fields h').
Let ss' := signatures_at (s :: ss) (signature_fields h').

Lemma new_texts : Forall2 (instance_text InstTypes.DefaultLimits) (map unfoldedValue (instance_fields h')) (new_instances ++ ms).
Proof using Hstate Hnew Hinstances.
  rewrite Hinstances. apply Forall2_app; [ | by apply instances_texts, Hstate]. unfold new_values, new_instances.
  destruct new as [[m w]|]; [ | constructor]. constructor; [by apply (Hnew m w) | constructor].
Qed.
Lemma new_signature_texts : Forall2 (signature_text registration SigTypes.DefaultLimits) (map unfoldedValue (signature_fields h')) (s :: ss).
Proof using Hstate Hs Hsignatures. rewrite Hsignatures. constructor; [done | ]. by apply signatures_texts, Hstate. Qed.
Lemma new_numbers : map number ms' ≡ₚ seqZ 1 next_count /\ len ms' = next_count.
Proof using Hstate Hnew Hinstances.
  destruct (instances_denoted _ _ _ new_texts) as [_ E]. unfold ms'. pose proof Hstate as (_ & _ & _ & Hc & _).
  assert (map number (instances_at (new_instances ++ ms) (instance_fields h')) ≡ₚ seqZ 1 next_count) as H.
  { rewrite E, map_app. unfold next_count, new_values, new_instances. destruct new as [[m w]|]; cbn [map app].
    - destruct (Hnew m w eq_refl) as [_ ->]. change (len [w]) with 1. apply next_number; [apply len_nonneg | done].
    - change (len (@nil bytes)) with 0. by rewrite Z.add_0_r. }
  split; [done | ]. apply Permutation.Permutation_length in H. rewrite length_map, length_seqZ in H. unfold len at 1. rewrite H.
  assert (forall a b : Z, 0 <= a -> 0 <= b -> Z.of_nat (Z.to_nat (a + b)) = a + b) as Hz by (clear; lia). apply Hz; apply len_nonneg.
Qed.
Lemma new_sequences : sequences ss' = (len ss + 1) :: sequences ss /\ len ss' = len ss + 1.
Proof using Hstate Hs Hsignatures Hsequence.
  destruct (signatures_denoted _ _ _ _ new_signature_texts) as [_ E]. fold ss' in E. split.
  - assert (sequences ss' = sequences (s :: ss)) as ->; [ | cbn [map]; by rewrite Hsequence].
    clear -E. induction E as [|? ? ? ? [i ->] _ IH]; [done | ]. cbn [map signature_at sequence]. by f_equal.
  - apply Forall2_length in E. unfold len. rewrite E. cbn [length]. clear. lia.
Qed.
Lemma new_signature_in t : t ∈ ss' -> exists t0 i, t = signature_at t0 i /\ (t0 = s \/ t0 ∈ ss).
Proof using Hstate Hs Hsignatures.
  destruct (signatures_denoted _ _ _ _ new_signature_texts) as [_ E]. fold ss' in E. intros Ht. apply list_elem_of_lookup in Ht as [j Ht].
  destruct (Forall2_lookup_l _ _ _ _ _ E Ht) as (t0 & Ht0 & i & ->). exists t0, i. split; [done | ].
  apply list_elem_of_lookup_2 in Ht0. by apply elem_of_cons in Ht0.
Qed.
Lemma new_signature_there : exists i, signature_at s i ∈ ss'.
Proof using Hstate Hs Hsignatures.
  destruct (signatures_denoted _ _ _ _ new_signature_texts) as [_ E]. fold ss' in E.
  destruct (Forall2_lookup_r _ _ _ 0%nat s E eq_refl) as (t & Ht & i & ->). exists i. by apply list_elem_of_lookup_2 in Ht.
Qed.
Lemma new_references : references_cover next_count ss'.
Proof using All.
  pose proof Hstate as (_ & _ & _ & _ & _ & Hc & Hr).
  assert (forall t, t ∈ ss -> 1 <= instanceNumber t <= len ms /\ sequence t <= len ss) as Hold.
  { intros t Ht. split; [ | by apply sequential_bounds]. destruct Hr as [[_ ->] | [H _]]; [by apply elem_of_nil in Ht | by apply H]. }
  pose proof (len_nonneg new_values) as Hlen. assert (next_count = len ms + len new_values) as En by done. split_and!.
  - intros t (t0 & i & -> & [-> | Ht])%new_signature_in; cbn [signature_at instanceNumber]; [lia | ]. specialize (Hold t0 Ht). lia.
  - intros t u (t0 & i & -> & Ht)%new_signature_in (u0 & j & -> & Hu)%new_signature_in. cbn [signature_at instanceNumber sequence].
    destruct Ht as [-> | Ht], Hu as [-> | Hu]; intros Hle.
    + done.
    + specialize (Hold u0 Hu). lia.
    + specialize (Hold t0 Ht). lia.
    + destruct Hr as [[_ ->] | (_ & Hmono & _)]; [by apply elem_of_nil in Ht | by apply Hmono].
  - destruct new_signature_there as [i Hi]. exists (signature_at s i). by split.
Qed.
Lemma extended_state : protocol_state registration h' ms' ss'.
Proof using All.
  destruct new_numbers as [Hn El]. destruct new_sequences as [Eq Es]. pose proof Hstate as (_ & _ & _ & _ & _ & Hc & _). destruct Hbounds as [Hb1 Hb2]. split_and!.
  - apply instances_denoted, new_texts.
  - apply signatures_denoted, new_signature_texts.
  - by rewrite El.
  - unfold contiguous. by rewrite El.
  - by rewrite Es.
  - unfold sequential. rewrite Es, Eq. apply next_number; [apply len_nonneg | done].
  - right. rewrite El. apply new_references.
Qed.
Lemma new_instance_values :
  instance_values h' ms' = (if new is Some (_, w) then <[len ms + 1 := w]> (instance_values h ms) else instance_values h ms).
Proof using Hstate Hnew Hinstances.
  unfold instance_values, field_values. destruct (instances_denoted _ _ _ new_texts) as [_ E]. fold ms' in E. rewrite E, Hinstances.
  unfold new_instances, new_values. destruct new as [[m w]|]; [ | done]. cbn [app map zip zip_with list_to_map foldr curry fst snd].
  by destruct (Hnew m w eq_refl) as [_ ->].
Qed.
Lemma new_signature_values : signature_values h' ss' = <[len ss + 1 := v]> (signature_values h ss).
Proof using Hstate Hs Hsignatures Hsequence.
  unfold signature_values, field_values. destruct new_sequences as [E _]. change (map sequence ss') with (sequences ss').
  by rewrite E, Hsignatures.
Qed.
Definition extended_parts : list bytes :=
  (instance_parts h ms (len ms) ++ map (signed_field InstTypes.HeaderName) new_values) ++ signature_parts h ss (len ss) ++
  [signed_field SigTypes.HeaderName (incomplete_value v s)].
Lemma extended_input :
  exists s', s' ∈ ss' /\ sequence s' = len ss + 1 /\ input_parts h' ms' ss' s' = extended_parts.
Proof using All.
  destruct new_signature_there as [i Hi]. exists (signature_at s i). split; [done | ]. split; [done | ].
  unfold input_parts, extended_parts, instance_parts, signature_parts, target_part. cbn [signature_at sequence instanceNumber].
  rewrite new_instance_values, new_signature_values, Hsequence, Hinstance, lookup_total_insert_eq. f_equal; [ | f_equal].
  - unfold next_count, new_values. destruct new as [[m w]|]; [change (len [w]) with 1; apply parts_next, len_nonneg | ].
    cbn [map]. change (len (@nil bytes)) with 0. by rewrite Z.add_0_r, app_nil_r.
  - rewrite parts_below by lia. by replace (len ss + 1 - 1) with (len ss) by lia.
Qed.
(** SignatureInput succeeds on the extended header. *)
Lemma extended_signature_input c :
  Options_Validate c = Ret tt -> indexed h' ->
  len (instance_fields h') + len (signature_fields h') <= CanonTypes.MaxFieldCount (opt_Limits c) ->
  Forall (fits_field c) extended_parts -> len (concat extended_parts) <= input_bound c ->
  exists input, SignatureInput registration c (MkSelection h' (sequence s)) = Ret input /\ in_bytes input = concat extended_parts.
Proof using All.
  intros Hopt Hi Hcount Hparts Htotal. destruct extended_input as (s' & Hs' & Es & Ep).
  assert (signature_input registration c h' (sequence s) (concat extended_parts)) as H.
  { exists ms', ss', s'. rewrite Ep. split_and!; [apply extended_state | done | by rewrite Es | | done]. by split_and!. }
  destruct (settles_Ret _ _ _ (SignatureInput_settles registration c h' Hi Hopt (sequence s))) as (input & E & Hin); [by eexists | ].
  exists input. split; [done | ]. by eapply signature_input_unique.
Qed.
End extended.
Lemma signed_field_same name a b : no_wsp a = no_wsp b -> signed_field name a = signed_field name b.
Proof. unfold signed_field. by intros ->. Qed.

(** ** What the signer hashes *)
Section signing.
Context (registration : bytes -> option bytes) (c : Canonicalizer) (sel : SigningInputSelection).
Hypothesis Hoptions : Options_Validate c = Ret tt.
Hypothesis Hindexed : indexed (sig_Headers sel).
Let h := sig_Headers sel.
Let generated := default [] (GeneratedInstanceField sel).

(** The value of the added instance, as SigningInput reads it. *)
Definition generated_value (w : option bytes) : Prop :=
  if HasGeneratedInstance sel then
    InstRender.Render (GeneratedInstance sel) InstRender.DefaultRenderLimits = Ret generated /\
    exists f, standaloneSignatureInputField generated InstTypes.HeaderName "message-instance" = Ret f /\
      nameLower f = InstTypes.HeaderName /\ w = Some (unfoldedValue f)
  else w = None.
Definition value_list (w : option bytes) : list bytes := if w is Some x then [x] else [].
Definition signing_parts (ms : list InstTypes.MessageInstance) (ss : list Signature) (w : option bytes) (u : bytes) : list bytes :=
  (instance_parts h ms (len ms) ++ map (signed_field InstTypes.HeaderName) (value_list w)) ++
  signature_parts h ss (len ss) ++ [signed_field SigTypes.HeaderName u].

Lemma standalone_name field name text f :
  canonicalHeaderLookupName name = Some name -> standaloneSignatureInputField field name text = Ret f -> nameLower f = name.
Proof using.
  clear. intros Hn H. unfold standaloneSignatureInputField in H. apply obind_ret_inv in H as (M & _ & H).
  unfold HeaderBlock_FieldsByName in H. rewrite Hn in H.
  destruct (filter (fun g => nameLower g = name) (hb_fields (RawParser.headers M))) as [|g [|? ?]] eqn:E; [done | | done].
  apply obind_ret_inv in H as (_ & _ & [= <-]). assert (g ∈ [g]) as Hg by set_solver. rewrite <- E in Hg. by apply list_elem_of_filter in Hg as [? _].
Qed.
Lemma addCount_Ret n k r : addCount c n k = Ret r -> r = n + k.
Proof using. clear. unfold addCount, checkedSignatureInputAdd. destruct (_ || _ || _); [done | ]. by intros [= <-]. Qed.
Lemma generatedRecord_Ret k r :
  HasGeneratedInstance sel = true -> generatedRecord c sel k = Ret r ->
  exists w, generated_value (Some w) /\ rec_number r = number (GeneratedInstance sel) /\
    rec_bytes r = signed_field InstTypes.HeaderName w /\ fits_field c (signed_field InstTypes.HeaderName w).
Proof using.
  clear. intros Hg H. unfold generatedRecord in H. cbv zeta in H. fold generated in H.
  apply obind_ret_inv in H as (rendered & Hr%map_fail_Ret & H). apply obind_ret_inv in H as (_ & He%require_ret_inv%bytes_equal_eq & H).
  apply obind_ret_inv in H as (f & Hf & H). apply obind_ret_inv in H as (bytes & Hb & [= <-]). subst rendered.
  pose proof (standalone_name _ InstTypes.HeaderName _ _ eq_refl Hf) as Hn. pose proof (canonicalizeField_settles c f) as Hd. rewrite Hb in Hd. destruct Hd as [Hfit ->].
  rewrite Hn in *. exists (unfoldedValue f). split_and!; [ | done | done | done]. unfold generated_value. rewrite Hg. split; [done | ]. by exists f.
Qed.
Lemma existingRecords_inv ms ss k rs b :
  protocol_state registration h ms ss -> (if HasGeneratedInstance sel then k - 1 else k) = len ms ->
  existingRecords c sel ms k = Ret (rs, b) ->
  map rec_number rs = seqZ 1 (len ms) /\ map rec_bytes rs = instance_parts h ms (len ms) /\ Forall (fits_field c) (instance_parts h ms (len ms)).
Proof using Hindexed.
  intros Hst Ek H. unfold existingRecords in H. rewrite Ek in H. destruct (Z.ltb_spec 0 (len ms)) as [Hpos | Hzero].
  - apply obind_ret_inv in H as (rs' & Hrs & H). apply obind_ret_inv in H as (b' & _ & [= <- _]).
    pose proof (instanceRecords_settles registration c h Hindexed ms ss Hst (len ms) ltac:(lia)) as Hd. unfold h in Hd. rewrite Hrs in Hd.
    by destruct Hd as (Hf & _ & Hb & Hn).
  - injection H as <- <-. assert (len ms = 0) as -> by (pose proof (len_nonneg ms); lia). by split_and!.
Qed.
(** The instance records of the signer, with the generated one. *)
Lemma allRecords_inv ms ss k rs b rs' b' :
  protocol_state registration h ms ss ->
  (if HasGeneratedInstance sel then k - 1 else k) = len ms ->
  (HasGeneratedInstance sel = true -> number (GeneratedInstance sel) = len ms + 1) ->
  existingRecords c sel ms k = Ret (rs, b) ->
  (if HasGeneratedInstance sel then
     let* record := generatedRecord c sel k in
     let* inputBytes := addInputBytes c b (len (default [] (GeneratedInstanceField sel))) in
     Ret (rs ++ [record], inputBytes)
   else Ret (rs, b)) = Ret (rs', b') ->
  exists w, generated_value w /\ len (value_list w) = (if HasGeneratedInstance sel then 1 else 0) /\
    let parts := instance_parts h ms (len ms) ++ map (signed_field InstTypes.HeaderName) (value_list w) in
    map rec_bytes (sortSignatureInputRecords rs') = parts /\ Forall (fits_field c) parts.
Proof using Hindexed.
  intros Hst Ek Hnum Hrs H. destruct (existingRecords_inv _ _ _ _ _ Hst Ek Hrs) as (Hn & Hb & Hf).
  destruct (HasGeneratedInstance sel) eqn:Hg.
  - apply obind_ret_inv in H as (r & Hr & H). apply obind_ret_inv in H as (b2 & _ & [= <- _]).
    destruct (generatedRecord_Ret k r Hg Hr) as (w & Hw & Ern & Erb & Hfw). exists (Some w). split; [done | split; [done | cbv zeta]].
    rewrite sort_ascending, map_app, Hb.
    + cbn [map value_list]. rewrite Erb. split; [done | ]. apply Forall_app. split; [done | by constructor].
    + rewrite map_app, Hn. cbn [map]. rewrite Ern, Hnum, <- seqZ_snoc by (done || apply len_nonneg). apply seqZ_sorted.
  - injection H as <- _. exists None. unfold generated_value. rewrite Hg. split; [done | split; [done | cbv zeta]].
    rewrite sort_ascending, Hb by (rewrite Hn; apply seqZ_sorted). cbn [value_list map]. by rewrite app_nil_r.
Qed.
Lemma SigningInput_inv input :
  SigningInput registration c sel = Ret input ->
  let t := sig_Target sel in
  exists ms ss w u, protocol_state registration h ms ss /\
    UnsignedTarget_Valid registration t = true /\ tr_Sequence (ut_request t) = len ss + 1 /\
    tr_InstanceNumber (ut_request t) = len ms + len (value_list w) /\ 1 <= len ms + len (value_list w) /\
    (HasGeneratedInstance sel = true -> number (GeneratedInstance sel) = len ms + 1) /\
    generated_value w /\
    (exists f, standaloneSignatureInputField (ut_unsigned t) SigTypes.HeaderName "dkim2-signature" = Ret f /\ u = unfoldedValue f) /\
    len (instance_fields h) + len (signature_fields h) + 1 + len (value_list w) <= CanonTypes.MaxFieldCount (opt_Limits c) /\
    Forall (fits_field c) (signing_parts ms ss w u) /\ len (concat (signing_parts ms ss w u)) <= input_bound c /\
    in_bytes input = concat (signing_parts ms ss w u).
Proof using Hindexed Hoptions.
  unfold SigningInput. cbv zeta. fold h. fold (instance_fields h). fold (signature_fields h). set (t := sig_Target sel).
  intros H. apply obind_ret_inv in H as (_ & Hv%require_ret_inv & H). apply negb_true_iff, orb_false_iff in Hv as [Hv%negb_false_iff Hgen].
  apply obind_ret_inv in H as (n1 & ->%addCount_Ret & H). apply obind_ret_inv in H as (n2 & ->%addCount_Ret & H).
  apply obind_ret_inv in H as (n3 & Hn3 & H). apply obind_ret_inv in H as (_ & Hcount%require_ret_inv%negb_true_iff%Z.ltb_ge & H).
  apply obind_ret_inv in H as ([ms ss] & Hst%extract_Ret & H).
  unfold UnsignedTarget_Sequence, UnsignedTarget_InstanceNumber in H. rewrite Hv in H. cbn [negb] in H.
  apply obind_ret_inv in H as (_ & Hseq%require_ret_inv%Z.eqb_eq & H). apply obind_ret_inv in H as ([] & Hins & H).
  apply obind_ret_inv in H as (i1 & _ & H). apply obind_ret_inv in H as (i2 & _ & H). apply obind_ret_inv in H as (i3 & _ & H).
  apply obind_ret_inv in H as (_ & _ & H). apply obind_ret_inv in H as ([rs b0] & Hrs & H).
  apply obind_ret_inv in H as ([rs' b1] & Hrs' & H). apply obind_ret_inv in H as (srs & Hsrs & H).
  apply obind_ret_inv in H as (b2 & _ & H). apply obind_ret_inv in H as (tf & Htf & H). apply obind_ret_inv in H as (tb & Htb & H).
  apply obind_ret_inv in H as (b3 & _ & H). apply obind_ret_inv in H as (s1 & Hs1 & H). apply obind_ret_inv in H as (s2 & Hs2 & [= <-]).
  assert ((if HasGeneratedInstance sel then tr_InstanceNumber (ut_request t) - 1 else tr_InstanceNumber (ut_request t)) = len ms /\
    (HasGeneratedInstance sel = true -> number (GeneratedInstance sel) = len ms + 1) /\
    (HasGeneratedInstance sel = false -> 1 <= len ms)) as (Ek & Hnum & Hone).
  { pose proof (len_nonneg ms). destruct (HasGeneratedInstance sel); apply require_ret_inv, negb_true_iff, orb_false_iff in Hins as [H1 H2];
      [apply negb_false_iff, Z.eqb_eq in H1, H2 | apply negb_false_iff, Z.eqb_eq in H1; apply Z.eqb_neq in H2]; split_and!; done || lia. }
  destruct (allRecords_inv ms ss _ _ _ _ _ Hst Ek Hnum Hrs Hrs') as (w & Hw & Ew & Hib & Hif).
  pose proof (signatureRecords_settles registration c h Hindexed ms ss Hst (tr_Sequence (ut_request t))
    ltac:(pose proof (len_nonneg ss); lia)) as Hd. rewrite Hsrs in Hd. destruct Hd as (Hsf & _ & Hsb).
  rewrite Hseq in Hsf, Hsb. replace (len ss + 1 - 1) with (len ss) in Hsf, Hsb by lia.
  pose proof (standalone_name _ SigTypes.HeaderName _ _ eq_refl Htf) as Htn. pose proof (canonicalizeField_settles c tf) as Hd. rewrite Htb in Hd.
  destruct Hd as [Htfit ->]. rewrite Htn in *. pose proof (input_bound_positive c Hoptions) as Hpos.
  pose proof (appendFields_settles c [] (sortSignatureInputRecords rs') ltac:(change (len (@nil byte)) with 0; lia)) as Hd. rewrite Hs1, Hib in Hd.
  cbn [app] in Hd. destruct Hd as [Hl1 ->].
  match type of Hs2 with appendFields ?o ?r _ = _ => pose proof (appendFields_settles c o r Hl1) as Hd end. rewrite Hs2 in Hd.
  rewrite map_app, Hsb in Hd. cbn [map rec_bytes] in Hd. destruct Hd as [Hl2 ->].
  assert (signing_parts ms ss w (unfoldedValue tf) = (instance_parts h ms (len ms) ++ map (signed_field InstTypes.HeaderName) (value_list w)) ++
    signature_parts h ss (len ss) ++ [signed_field SigTypes.HeaderName (unfoldedValue tf)]) as Ep by done.
  exists ms, ss, w, (unfoldedValue tf). rewrite Ep, concat_app, Ew. split_and!; try done.
  - destruct (HasGeneratedInstance sel); lia.
  - destruct (HasGeneratedInstance sel); [pose proof (len_nonneg ms); lia | specialize (Hone eq_refl); lia].
  - by exists tf.
  - destruct (HasGeneratedInstance sel); [apply addCount_Ret in Hn3; lia | injection Hn3 as <-; lia].
  - rewrite !Forall_app, Forall_singleton in *. done.
Qed.
End signing.

(** ** Added fields *)
Lemma split_unique {A} (c : A) a b s t : c ∉ a -> c ∉ b -> a ++ c :: s = b ++ c :: t -> a = b /\ s = t.
Proof.
  revert b. induction a as [|x a IH]; intros [|y b]; cbn [app]; rewrite ?not_elem_of_cons.
  - by intros _ _ [= ->].
  - intros _ [? _] [= ? _]. congruence.
  - intros [? _] _ [= ? _]. congruence.
  - intros [_ Ha] [_ Hb] [= -> E]. by destruct (IH b Ha Hb E) as [-> ->].
Qed.
Lemma plain_no_cr s : plain s -> CR ∉ s.
Proof. intros H Hin. unfold plain in H. rewrite Forall_forall in H. by apply H in Hin. Qed.
Lemma unlines_unique ls ks a b :
  Forall plain ls -> Forall plain ks -> plain a -> plain b -> unlines ls ++ a = unlines ks ++ b -> ls = ks /\ a = b.
Proof.
  intros Hls. revert ks. induction Hls as [|l ls Hl _ IH]; intros ks Hks Ha Hb; destruct Hks as [|k ks Hk Hks].
  - by intros.
  - rewrite unlines_cons. change (unlines [] ++ a) with a. intros ->. destruct (plain_no_cr _ Ha). unfold crlf. set_solver.
  - rewrite unlines_cons. change (unlines [] ++ b) with b. intros <-. destruct (plain_no_cr _ Hb). unfold crlf. set_solver.
  - rewrite !unlines_cons. unfold crlf. rewrite <- !app_assoc. cbn [app]. intros E.
    apply split_unique in E as [-> E]; [ | by apply plain_no_cr | by apply plain_no_cr]. injection E as E.
    by destruct (IH ks Hks Ha Hb E) as [-> ->].
Qed.
Lemma field_lines_unique f g : wf_field f -> wf_field g -> field_lines f = field_lines g -> f = g.
Proof.
  destruct f as [n v cs], g as [n' v' cs']. intros (Hn & _) (Hn' & _) E. cbn in *. injection E as E ->.
  apply valid_name_plain in Hn as (_ & Hn & _). apply valid_name_plain in Hn' as (_ & Hn' & _).
  by destruct (split_unique _ _ _ _ _ Hn Hn' E) as [-> ->].
Qed.
Lemma enc_field_unique f g : wf_field f -> wf_field g -> enc_field f = enc_field g -> f = g.
Proof.
  intros Hf Hg E. apply field_lines_unique; [done | done | ]. unfold enc_field in E.
  destruct (unlines_unique (field_lines f) (field_lines g) [] []) as [? _]; try done; [by apply field_lines_plain | by apply field_lines_plain | constructor | constructor | ].
  by rewrite E.
Qed.
Lemma delimited_unique f g m :
  wf_field f -> wf_msg m -> ms_fields m = [g] -> encode_msg m = enc_field f ++ crlf -> g = f.
Proof.
  intros Hf (_ & Hg & Hb) E Em. rewrite E in Hg. apply Forall_cons in Hg as [Hg _]. unfold encode_msg in Em. rewrite E, enc_fields_one in Em.
  assert (forall h, wf_field h -> [] ∉ field_lines h) as Hne.
  { intros h Hh Hin. pose proof (field_lines_content h Hh) as Hc. rewrite Forall_forall in Hc. by apply Hc in Hin as [_ ?]. }
  pose proof (field_lines_plain f Hf) as Hpf. pose proof (field_lines_plain g Hg) as Hpg. unfold enc_field in Em.
  assert (unlines (field_lines f) ++ crlf = unlines (field_lines f ++ [[]]) ++ []) as Ef by (rewrite unlines_app, app_nil_r; done).
  rewrite Ef in Em. destruct (ms_body m) as [[ls last]|]; cbn [enc_body] in Em.
  - assert (unlines (field_lines g) ++ crlf ++ unlines ls ++ last = unlines (field_lines g ++ [] :: ls) ++ last) as Eg
      by (rewrite unlines_app, unlines_cons, <- !app_assoc; done).
    rewrite Eg in Em. destruct Hb as [Hls Hlast]. apply unlines_unique in Em as [El _]; [ | | | done | constructor].
    + apply split_unique in El as [El _]; [ | by apply Hne | by apply Hne]. by apply field_lines_unique.
    + apply Forall_app. split; [done | ]. constructor; [constructor | done].
    + apply Forall_app. split; [done | ]. constructor; [constructor | done].
  - apply unlines_unique in Em as [El _]; [ | done | | constructor | constructor].
    + destruct (Hne g Hg). rewrite El. set_solver.
    + apply Forall_app. split; [done | ]. constructor; [constructor | done].
Qed.
Definition spec_value (f : field_spec) : bytes := fs_first f ++ concat (fs_conts f).
Lemma standalone_spec g name text f :
  canonicalHeaderLookupName name = Some name -> wf_field g -> standaloneSignatureInputField (enc_field g) name text = Ret f ->
  lowerASCII (fs_name g) = name /\ spec_value g = unfoldedValue f.
Proof.
  intros Hname Hg H. pose proof (standalone_name _ _ _ _ Hname H) as Hn. unfold standaloneSignatureInputField in H. apply obind_ret_inv in H as (M & HM%map_fail_Ret & H).
  apply parse_inv in HM as (m & Hwf & _ & Em & ->). unfold HeaderBlock_FieldsByName in H. rewrite Hname in H.
  cbn [message_of RawParser.headers block_of hb_fields HeaderBlock_Len] in H.
  destruct (filter _ _) as [|f' [|? ?]] eqn:Ef; [done | | done].
  apply obind_ret_inv in H as (_ & Hlen%require_ret_inv%Z.eqb_eq & [= <-]). unfold HeaderBlock_Len in Hlen. cbn in Hlen. rewrite len_fields_of in Hlen.
  destruct (ms_fields m) as [|g' [|? ?]] eqn:Eg; [done | | rewrite !len_cons in Hlen; match type of Hlen with context[len ?l] => pose proof (len_nonneg l) end; lia].
  symmetry in Em. apply (delimited_unique g g' m) in Em as ->; [ | done | done | done].
  cbn [fields_of] in Ef. rewrite filter_cons in Ef. destruct (decide _); [ | done]. injection Ef as <-. split; done.
Qed.

Definition spec_values (name : bytes) (fs : list field_spec) : list bytes :=
  map spec_value (filter (fun g => lowerASCII (fs_name g) = name) fs).
Lemma block_values name fs :
  canonicalHeaderLookupName name = Some name ->
  map unfoldedValue (HeaderBlock_FieldsByName (block_of fs) name) = spec_values name fs.
Proof.
  intros Hn. unfold HeaderBlock_FieldsByName, spec_values. rewrite Hn. cbn [block_of hb_fields]. generalize 0. induction fs as [|f fs IH]; intros i; [done | ].
  cbn [fields_of]. rewrite !filter_cons. cbn [nameLower parsed_field]. destruct (decide _); cbn [map]; [f_equal; apply IH | apply IH].
Qed.
Lemma block_indexed fs : indexed (block_of fs).
Proof.
  unfold indexed. cbn [block_of hb_fields]. enough (forall i j f, fields_of i fs !! j = Some f -> hf_index f = i + Z.of_nat j) as H.
  { intros j f Hf. by apply H in Hf. }
  induction fs as [|g fs IH]; intros i [|j] f; cbn [fields_of]; [done | done | intros [= <-]; cbn; lia | ].
  intros Hf. change (fields_of (i + 1) fs !! j = Some f) in Hf. apply IH in Hf. lia.
Qed.
Lemma spec_values_app name fs gs : spec_values name (fs ++ gs) = spec_values name fs ++ spec_values name gs.
Proof. unfold spec_values. by rewrite filter_app, map_app. Qed.
Lemma spec_values_one name g : spec_values name [g] = if decide (lowerASCII (fs_name g) = name) then [spec_value g] else [].
Proof. unfold spec_values. rewrite filter_cons. by destruct (decide _). Qed.
Lemma single_value g o M field :
  wf_field g -> ParseWithOptions (enc_field g) o = Ret M -> hb_fields (RawParser.headers M) = [field] -> unfoldedValue field = spec_value g.
Proof.
  intros Hg HM Hf. apply parse_inv in HM as (m & (_ & Hms & Hb) & _ & Em & ->). cbn [message_of RawParser.headers block_of hb_fields] in Hf.
  destruct (ms_fields m) as [|g' [|? ?]] eqn:Eg; [done | | done]. cbn [fields_of] in Hf. injection Hf as <-. cbn [unfoldedValue parsed_field].
  apply Forall_cons in Hms as [Hg' _]. unfold encode_msg in Em. rewrite Eg, enc_fields_one in Em.
  pose proof (field_lines_plain g Hg) as Hp. pose proof (field_lines_plain g' Hg') as Hp'.
  destruct (ms_body m) as [[ls last]|]; cbn [enc_body] in Em; [ | rewrite app_nil_r in Em; by rewrite (enc_field_unique g g')].
  unfold enc_field in Em. assert (unlines (field_lines g') ++ crlf ++ unlines ls ++ last = unlines (field_lines g' ++ [] :: ls) ++ last) as Eg'
    by (rewrite unlines_app, unlines_cons, <- !app_assoc; done).
  rewrite Eg' in Em. destruct Hb as [Hls Hlast]. rewrite <- (app_nil_r (unlines (field_lines g))) in Em.
  apply unlines_unique in Em as [El _]; [ | done | apply Forall_app; split; [done | by constructor; [constructor | ]] | constructor | done].
  pose proof (field_lines_content g Hg) as Hc. rewrite Forall_forall in Hc. destruct (Hc []) as [_ ?]; [rewrite El; set_solver | done].
Qed.

(** ** Agreement *)
(** The fields that the signer adds, in the order of its insertion. *)
Definition added_fields (sel : SigningInputSelection) (f : CompleteField) : list bytes :=
  (if HasGeneratedInstance sel then [default [] (GeneratedInstanceField sel)] else []) ++ [complete_field f].

Lemma generated_text sel req g out :
  0 <= req_Number req <= GoStrconv.MaxUint64 -> NewForSigning req = Ret (GeneratedInstance sel) ->
  InstRender.Render (GeneratedInstance sel) InstRender.DefaultRenderLimits = Ret out -> wf_field g -> enc_field g = out ->
  exists m, instance_text InstTypes.DefaultLimits (spec_value g) m /\ number m = number (GeneratedInstance sel).
Proof.
  intros Hn [Hreq E]%NewForSigning_Ret Hr Hg <-. rewrite E in Hr.
  destruct (rendered_instance_reads req _ _ Hn Hreq Hr) as (M & field & r & _ & HM & Hf & _ & Hp).
  apply ParseField_Ret in Hp as (_ & _ & Hp). rewrite (single_value g _ M field Hg HM Hf) in Hp. exists (read_instance req r). split; [done | by rewrite E].
Qed.

(** A field of a target, complete or not, is what the signer's reading gives. *)
Lemma target_standalone registration L c layout sigs :
  frozen registration L c -> wide c -> RenderLimits_Validate L = Ret tt ->
  script_fits (SigRender.MaxFieldBytes L) (MaxLineBytes L) 0 0 (target_script c layout sigs) = true ->
  exists f, standaloneSignatureInputField (script_bytes (target_script c layout sigs)) SigTypes.HeaderName "dkim2-signature" = Ret f /\
    unfoldedValue f = target_value c layout sigs /\ parseRenderedSignatureField (script_bytes (target_script c layout sigs)) = Ret f.
Proof.
  intros Hfr Hw HL Hfit. destruct (limits_facts L HL) as [HF HLn].
  destruct (target_field registration L c Hfr Hw layout sigs HF HLn Hfit) as (f & Hp & Hu & _).
  destruct (target_delimited registration L c Hfr Hw layout sigs HF HLn Hfit f Hp) as (M & HM & Hone & Hname).
  exists f. split; [ | by split]. unfold standaloneSignatureInputField. rewrite HM. cbn [map_fail obind]. rewrite Hname. unfold HeaderBlock_Len. rewrite Hone. done.
Qed.

(** The fields that the insertion puts in front, as the parser reads them. *)
Lemma inserted_values registration sel L c layout ordered w gs :
  let f := MkComplete (script_bytes (complete_script c layout ordered)) in
  frozen registration L c -> wide c -> RenderLimits_Validate L = Ret tt -> fits_limits L (complete_script c layout ordered) = true ->
  generated_value sel w -> Forall wf_field gs -> added_fields sel f = map enc_field gs ->
  spec_values InstTypes.HeaderName gs = value_list w /\
  spec_values SigTypes.HeaderName gs = [target_value c layout (Some (map sv_Signature ordered))] /\
  (HasGeneratedInstance sel = true -> exists g, wf_field g /\ enc_field g = default [] (GeneratedInstanceField sel) /\ w = Some (spec_value g)).
Proof.
  cbv zeta. intros Hfr Hw HL Hfit Hgen Hgs Eg.
  destruct (target_standalone registration L c layout (Some (map sv_Signature ordered)) Hfr Hw HL Hfit) as (fc & Hfc & Hu & _).
  assert (forall g, wf_field g -> script_bytes (complete_script c layout ordered) = enc_field g ->
    lowerASCII (fs_name g) = SigTypes.HeaderName /\ spec_value g = target_value c layout (Some (map sv_Signature ordered))) as Hc.
  { intros g Hg E. unfold complete_script in E. rewrite E in Hfc. apply standalone_spec in Hfc as [? ?]; [ | done | done]. by rewrite <- Hu. }
  unfold added_fields, generated_value in *. cbn [complete_field] in Eg. destruct (HasGeneratedInstance sel).
  - destruct Hgen as (_ & fw & Hfw & _ & ->). destruct gs as [|gi [|gc [|? ?]]]; try done. cbn [app map] in Eg. injection Eg as Ei Ec.
    apply Forall_cons in Hgs as [Hgi [Hgc _]%Forall_cons]. destruct (Hc gc Hgc Ec) as [Hn Hv].
    rewrite Ei in Hfw. apply standalone_spec in Hfw as [Hin Hiv]; [ | done | done].
    change [gi; gc] with ([gi] ++ [gc]). rewrite !spec_values_app, !spec_values_one, Hn, Hin.
    do 4 (case_decide; [try done | try done]). cbn [app value_list]. rewrite Hv, Hiv. split_and!; [done | done | ].
    intros _. exists gi. by rewrite Hiv.
  - subst w. destruct gs as [|gc [|? ?]]; try done. cbn [app map] in Eg. injection Eg as Ec. apply Forall_cons in Hgs as [Hgc _].
    destruct (Hc gc Hgc Ec) as [Hn Hv]. rewrite !spec_values_one, Hn. do 2 (case_decide; [try done | try done]). by rewrite Hv.
Qed.

(** The instance that the verifier reads from the added field, if there is one. *)
Lemma added_instance sel k w :
  (HasGeneratedInstance sel = true -> exists req,
     0 <= req_Number req <= GoStrconv.MaxUint64 /\ NewForSigning req = Ret (GeneratedInstance sel)) ->
  (HasGeneratedInstance sel = true -> number (GeneratedInstance sel) = k + 1) ->
  generated_value sel w ->
  (HasGeneratedInstance sel = true -> exists g, wf_field g /\ enc_field g = default [] (GeneratedInstanceField sel) /\ w = Some (spec_value g)) ->
  exists new, new_values new = value_list w /\
    forall m v, new = Some (m, v) -> instance_text InstTypes.DefaultLimits v m /\ number m = k + 1.
Proof.
  intros Hgen Hnum Hgv Hgi. unfold generated_value in Hgv. destruct (HasGeneratedInstance sel) eqn:Hg; [ | subst w; by exists None].
  destruct (Hgen eq_refl) as (req & Hreq & HN). destruct (Hgi eq_refl) as (g & Hgw & Hge & ->). destruct Hgv as [Hr _].
  destruct (generated_text sel req g _ Hreq HN Hr Hgw Hge) as (mi & Hmt & Hmn). exists (Some (mi, spec_value g)). split; [done | ].
  intros ? ? [= <- <-]. rewrite Hmn. split; [done | by apply Hnum].
Qed.


(** ** Witnesses *)
(** The first hop of a message: an instance and a signature over it. *)
Definition first_target : TargetRequest :=
  MkTarget 1 1 1700000000 (bs "<>") [sample_path; bs "<bob@example.net>"] [] (bs "Example.ORG") sample_plans
    (bs "abc 123") true [FlagExploded].
Definition first_instance_request : InstRender.SigningRequest :=
  InstRender.MkRequest 1 (repeat x41 32) (repeat x42 32) [] false.
Definition get_or {E A} (d : A) (m : outcome E A) : A := match m with Ret a => a | _ => d end.
Definition first_unsigned : UnsignedTarget := get_or sample_unsigned (NewUnsignedTarget sample_idna first_target sample_limits).
Definition first_completed : CompleteField := get_or sample_completed (Complete first_unsigned sample_values).
Definition first_instance : InstTypes.MessageInstance := get_or InstTypes.noInstance (NewForSigning first_instance_request).
Definition first_instance_field : bytes := get_or [] (InstRender.Render first_instance InstRender.DefaultRenderLimits).
Definition first_message : Message :=
  get_or (message_of (MkMS [] None)) (ParseWithOptions (bs "From: a@example.org" ++ crlf ++ crlf ++ bs "text" ++ crlf) DefaultParserOptions).
Definition first_selection : SigningInputSelection :=
  MkSigning (RawParser.headers first_message) first_instance (Some first_instance_field) true first_unsigned.
Definition first_insertion : InsertionRequest :=
  MkInsertion first_message TransportFormFinalNetworkPreDotStuffing (added_fields first_selection first_completed) DefaultParserOptions.
Definition first_signed : Message := get_or first_message (PrependValidatedFields first_insertion).
Lemma first_signed_indexed : indexed (RawParser.headers first_signed).
Proof.
  assert (exists m, RawParser.headers first_signed = block_of m) as [m ->]; [ | apply block_indexed].
  assert (PrependValidatedFields first_insertion = Ret first_signed) as H by (vm_compute; reflexivity).
  apply PrependValidatedFields_inv in H as (_ & m & gs & _ & _ & _ & _ & _ & _ & _ & ->). by exists (ms_fields (prepend_spec gs m)).
Qed.
Lemma SignatureInput_exact_witness :
  exists bytes, signature_input sample_idna DefaultOptions (RawParser.headers first_signed) 1 bytes /\ len bytes = 326.
Proof.
  assert (match SignatureInput sample_idna DefaultOptions (MkSelection (RawParser.headers first_signed) 1) with
          | Ret input => len (in_bytes input) =? 326 | _ => false end = true) as Hlen by (vm_compute; reflexivity).
  destruct (SignatureInput sample_idna DefaultOptions (MkSelection (RawParser.headers first_signed) 1)) as [input | |] eqn:E;
    [ | discriminate Hlen | discriminate Hlen].
  apply Z.eqb_eq in Hlen. exists (in_bytes input). split; [ | exact Hlen].
  apply (SignatureInput_exact sample_idna DefaultOptions (RawParser.headers first_signed) first_signed_indexed eq_refl 1).
  exists input. split; [exact E | reflexivity].
Defined.
