(* ===== verification/Crypto.v ===== *)
(** * Package internal/cryptodkim2: keys, limits and verification

    crypto.go, mldsa44.go and the codes of errors.go.  The primitives of Go's
    crypto packages (signature verification, DER decoding, construction of
    ML-DSA keys) are parameters; the key material is data: an RSA key is its
    modulus and exponent, which may be nil pointers, an ML-DSA key its
    parameter set and encoding. *)

From S2P Require Import Prelude GoBytes Sha2 SigAlgorithm.
#[local] Open Scope Z_scope.

Inductive ErrorCode :=
  | ErrorCodeInvalidOptions | ErrorCodeUnsupportedAlgorithm | ErrorCodeWrongKeyType | ErrorCodeInvalidKey
  | ErrorCodeKeyPolicyRejected | ErrorCodeInvalidDigestLength | ErrorCodeInvalidSignatureLength
  | ErrorCodeSignatureMismatch | ErrorCodeAlgorithmUnavailable.

(** ** Key material *)
Record RSAPublicKey := MkRSA { rsa_N : option Z; rsa_E : Z }.
Inductive MLDSAParameters := MLDSA44 | MLDSA65 | MLDSA87.
#[export] Instance MLDSAParameters_eq_dec : EqDecision MLDSAParameters.
Proof. solve_decision. Defined.
Record MLDSAPublicKey := MkMLDSA { mldsa_Parameters : MLDSAParameters; mldsa_Bytes : bytes }.
(** A Go value of type any; [OtherKey] is a value of any other type. *)
Inductive Material :=
  | NilMaterial | RSAKey (key : option RSAPublicKey) | Ed25519Key (key : bytes) | MLDSAKey (key : option MLDSAPublicKey)
  | OtherKey.

(** ** Limits *)
Definition MinSigningRSABits : Z := 2048.
Definition hardMinRSABits : Z := 1024.
Definition hardMaxRSABits : Z := 8192.
Definition requiredRSAExponent : Z := 65537.
Definition maxRSASignatureBytes : Z := hardMaxRSABits / 8.
Definition MLDSA44PublicKeyBytes : Z := 1312.
Definition MLDSA44SignatureBytes : Z := 2420.
Definition MLDSA44Context : bytes := bs "DKIM2".
Definition hardMaxSignatureBytes : Z := MLDSA44SignatureBytes.
Definition ed25519_PublicKeySize : Z := 32.
Definition ed25519_SignatureSize : Z := 64.

Record Limits := MkLimits { MinRSABits : Z; MaxRSABits : Z; RequiredRSAExponent : Z; MaxSignatureBytes : Z }.
Definition DefaultLimits : Limits := MkLimits hardMinRSABits hardMaxRSABits requiredRSAExponent hardMaxSignatureBytes.
Definition Limits_Validate (l : Limits) : outcome ErrorCode unit :=
  require (negb ((MinRSABits l <? hardMinRSABits) || (hardMaxRSABits <? MaxRSABits l) || (MaxRSABits l <? MinRSABits l) ||
    negb (RequiredRSAExponent l =? requiredRSAExponent) || (MaxSignatureBytes l <=? 0) ||
    (hardMaxSignatureBytes <? MaxSignatureBytes l) || (MaxSignatureBytes l <? Z.quot (MaxRSABits l + 7) 8)))
    ErrorCodeInvalidOptions.
Definition or_default (v d : Z) : Z := if v =? 0 then d else v.
Definition normalized (l : Limits) : outcome ErrorCode Limits :=
  let l := MkLimits (or_default (MinRSABits l) hardMinRSABits) (or_default (MaxRSABits l) hardMaxRSABits)
    (or_default (RequiredRSAExponent l) requiredRSAExponent) (or_default (MaxSignatureBytes l) hardMaxSignatureBytes) in
  check Limits_Validate l ;; Ret l.

(** ** Public keys *)
Definition BitLen (n : Z) : Z := if n =? 0 then 0 else Z.log2 (Z.abs n) + 1.
Definition rsa_Size (n : Z) : Z := (BitLen n + 7) / 8.
Definition ValidRSAPublicKeyStructure (key : option RSAPublicKey) : bool :=
  match key with
  | Some (MkRSA (Some n) e) => (0 <? n) && Z.testbit n 0 && (3 <=? e) && (Z.rem e 2 =? 1) && (e <? n)
  | _ => false
  end.
Definition cloneRSAKey (key : option RSAPublicKey) : option RSAPublicKey :=
  match key with Some (MkRSA (Some n) e) => Some (MkRSA (Some n) e) | _ => None end.
Definition validMLDSA44PublicKey (key : option MLDSAPublicKey) : bool :=
  match key with Some key => bool_decide (mldsa_Parameters key = MLDSA44) | None => false end.

Definition validateMaterial (algorithm : Algorithm) (material : Material) (resolved : Limits) : outcome ErrorCode Material :=
  check require (Algorithm_Known algorithm) ErrorCodeUnsupportedAlgorithm ;;
  if bytes_equal algorithm AlgorithmRSASHA256 then
    match material with
    | RSAKey key =>
        check require (ValidRSAPublicKeyStructure key) ErrorCodeInvalidKey ;;
        match key with
        | Some (MkRSA (Some n) e) =>
            let bits := BitLen n in
            check require (negb (negb (e =? RequiredRSAExponent resolved) || (bits <? MinRSABits resolved) ||
                                 (MaxRSABits resolved <? bits))) ErrorCodeKeyPolicyRejected ;;
            Ret (RSAKey (cloneRSAKey key))
        | _ => Crash
        end
    | _ => Fail ErrorCodeWrongKeyType
    end
  else if bytes_equal algorithm AlgorithmEd25519SHA256 then
    match material with
    | Ed25519Key key =>
        check require (len key =? ed25519_PublicKeySize) ErrorCodeInvalidKey ;; Ret (Ed25519Key key)
    | _ => Fail ErrorCodeWrongKeyType
    end
  else if bytes_equal algorithm AlgorithmMLDSA44 then
    match material with
    | MLDSAKey key => check require (validMLDSA44PublicKey key) ErrorCodeInvalidKey ;; Ret (MLDSAKey key)
    | _ => Fail ErrorCodeWrongKeyType
    end
  else Fail ErrorCodeUnsupportedAlgorithm.
Definition ValidatePublicKey (algorithm : Algorithm) (material : Material) (limits : Limits) : outcome ErrorCode Material :=
  let* resolved := normalized limits in validateMaterial algorithm material resolved.

Definition ExpectedSignatureBytes (validated : Material) : Z * bool :=
  match validated with
  | RSAKey (Some (MkRSA (Some n) _)) => (rsa_Size n, true)
  | RSAKey _ => (0, false)
  | Ed25519Key _ => (ed25519_SignatureSize, true)
  | MLDSAKey key => (MLDSA44SignatureBytes, validMLDSA44PublicKey key)
  | _ => (0, false)
  end.
Definition SigningKeyBelowFloor (material : Material) : Z * bool :=
  match material with
  | RSAKey (Some (MkRSA (Some n) _)) => (BitLen n, BitLen n <? MinSigningRSABits)
  | _ => (0, false)
  end.
Definition MaxSignatureBytesFor (algorithm : Algorithm) : Z :=
  if bytes_equal algorithm AlgorithmRSASHA256 then maxRSASignatureBytes
  else if bytes_equal algorithm AlgorithmEd25519SHA256 then ed25519_SignatureSize
  else if bytes_equal algorithm AlgorithmMLDSA44 then MLDSA44SignatureBytes
  else 0.
Definition validateSignatureLengthValidated (algorithm : Algorithm) (validated : Material) (length : Z) (resolved : Limits)
    : outcome ErrorCode unit :=
  check require (Algorithm_Known algorithm) ErrorCodeUnsupportedAlgorithm ;;
  check require (negb ((length <=? 0) || (MaxSignatureBytes resolved <? length) || (MaxSignatureBytesFor algorithm <? length)))
    ErrorCodeInvalidSignatureLength ;;
  match validated with
  | RSAKey (Some (MkRSA (Some n) _)) => require (length =? rsa_Size n) ErrorCodeInvalidSignatureLength
  | RSAKey _ => Crash
  | Ed25519Key _ => require (length =? ed25519_SignatureSize) ErrorCodeInvalidSignatureLength
  | MLDSAKey _ => require (length =? MLDSA44SignatureBytes) ErrorCodeInvalidSignatureLength
  | _ => Fail ErrorCodeWrongKeyType
  end.
Definition ValidateSignatureLength (algorithm : Algorithm) (material : Material) (length : Z) (limits : Limits)
    : outcome ErrorCode unit :=
  let* resolved := normalized limits in
  let* validated := ValidatePublicKey algorithm material resolved in
  validateSignatureLengthValidated algorithm validated length resolved.

Definition ClonePublicKey (material : Material) : Material :=
  match material with
  | RSAKey key => RSAKey (cloneRSAKey key)
  | Ed25519Key key => Ed25519Key key
  | MLDSAKey key => if validMLDSA44PublicKey key then MLDSAKey key else NilMaterial
  | _ => NilMaterial
  end.
Definition PublicKeysEqual (l r : Material) : bool :=
  match l, r with
  | RSAKey (Some (MkRSA (Some n) e)), RSAKey (Some (MkRSA (Some n') e')) => (e =? e') && (n =? n')
  | Ed25519Key k, Ed25519Key k' => (len k =? ed25519_PublicKeySize) && bytes_equal k k'
  | MLDSAKey k, MLDSAKey k' =>
      validMLDSA44PublicKey k && validMLDSA44PublicKey k' &&
      match k, k' with Some k, Some k' => bytes_equal (mldsa_Bytes k) (mldsa_Bytes k') | _, _ => false end
  | _, _ => false
  end.

(** ** Representatives *)
Definition SignsInputDirectly (algorithm : Algorithm) : bool := bytes_equal algorithm AlgorithmMLDSA44.
Definition ValidRepresentativeLength (algorithm : Algorithm) (length : Z) : bool :=
  if negb (Signable algorithm) then false
  else if SignsInputDirectly algorithm then 0 <? length
  else length =? 32.
Definition MessageRepresentative (algorithm : Algorithm) (input : bytes) : outcome ErrorCode bytes :=
  check require (negb (len input =? 0)) ErrorCodeInvalidDigestLength ;;
  check require (Signable algorithm) ErrorCodeUnsupportedAlgorithm ;;
  if SignsInputDirectly algorithm then Ret input else Ret (sha256_Sum256 input).

(** ** Verification and parsing *)
Section primitives.
(** rsa.VerifyPKCS1v15 with SHA-256, ed25519.Verify, mldsa.Verify with a
    context, mldsa.NewPublicKey of ML-DSA-44 and x509's decoders. *)
Variable rsa_VerifyPKCS1v15 : RSAPublicKey -> bytes -> bytes -> bool.
Variable ed25519_Verify : bytes -> bytes -> bytes -> bool.
Variable mldsa_Verify : MLDSAPublicKey -> bytes -> bytes -> bytes -> bool.
Variable mldsa_NewPublicKey : bytes -> option MLDSAPublicKey.
Variable mldsa_available : bool.
Variable x509_ParsePKIXPublicKey : bytes -> option Material.
Variable x509_MarshalPKIXPublicKey : Material -> option bytes.

Definition verifyMLDSA44 (key : option MLDSAPublicKey) (input signatureBytes : bytes) : bool :=
  match key with
  | Some k =>
      validMLDSA44PublicKey key && (len signatureBytes =? MLDSA44SignatureBytes) &&
      mldsa_Verify k input signatureBytes MLDSA44Context
  | None => false
  end.
Definition VerifyRepresentative (algorithm : Algorithm) (material : Material) (representative signatureBytes : bytes)
    (limits : Limits) : outcome ErrorCode unit :=
  check require (ValidRepresentativeLength algorithm (len representative)) ErrorCodeInvalidDigestLength ;;
  let* resolved := normalized limits in
  let* validated := ValidatePublicKey algorithm material resolved in
  check validateSignatureLengthValidated algorithm validated (len signatureBytes) resolved ;;
  match validated with
  | RSAKey (Some key) => require (rsa_VerifyPKCS1v15 key representative signatureBytes) ErrorCodeSignatureMismatch
  | RSAKey None => Crash
  | Ed25519Key key => require (ed25519_Verify key representative signatureBytes) ErrorCodeSignatureMismatch
  | MLDSAKey key => require (verifyMLDSA44 key representative signatureBytes) ErrorCodeSignatureMismatch
  | _ => Fail ErrorCodeWrongKeyType
  end.
Definition SelfVerifyRepresentative := VerifyRepresentative.

Definition MLDSA44Available : outcome ErrorCode unit := require mldsa_available ErrorCodeAlgorithmUnavailable.
Definition ParseMLDSA44PublicKey (raw : bytes) : outcome ErrorCode MLDSAPublicKey :=
  check MLDSA44Available ;;
  check require (len raw =? MLDSA44PublicKeyBytes) ErrorCodeInvalidKey ;;
  match mldsa_NewPublicKey raw with Some key => Ret key | None => Fail ErrorCodeInvalidKey end.
Definition ParseSigningPublicKeySPKI (algorithm : Algorithm) (spki : bytes) : outcome ErrorCode Material :=
  check require (Signable algorithm) ErrorCodeUnsupportedAlgorithm ;;
  check (if bytes_equal algorithm AlgorithmMLDSA44 then MLDSA44Available else Ret tt) ;;
  match x509_ParsePKIXPublicKey spki with
  | None => Fail ErrorCodeInvalidKey
  | Some parsed =>
      match x509_MarshalPKIXPublicKey parsed with
      | Some canonical => check require (bytes_equal canonical spki) ErrorCodeInvalidKey ;; Ret parsed
      | None => Fail ErrorCodeInvalidKey
      end
  end.
End primitives.

(** ** What verification accepts *)
Definition limits_ok (l : Limits) : Prop :=
  hardMinRSABits <= MinRSABits l <= MaxRSABits l /\ MaxRSABits l <= hardMaxRSABits /\
  RequiredRSAExponent l = requiredRSAExponent /\ (MaxRSABits l + 7) / 8 <= MaxSignatureBytes l <= hardMaxSignatureBytes.
Definition defaulted (l : Limits) : Limits :=
  MkLimits (or_default (MinRSABits l) hardMinRSABits) (or_default (MaxRSABits l) hardMaxRSABits)
    (or_default (RequiredRSAExponent l) requiredRSAExponent) (or_default (MaxSignatureBytes l) hardMaxSignatureBytes).

Lemma Limits_Validate_iff l : Limits_Validate l = Ret tt <-> limits_ok l.
Proof.
  unfold Limits_Validate, limits_ok. rewrite (yields_require _ _ tt). rewrite negb_true_iff, !orb_false_iff, !negb_false_iff.
  rewrite !Z.ltb_ge, Z.leb_gt, Z.eqb_eq. unfold hardMinRSABits, hardMaxRSABits.
  split.
  - intros [[[[[[[H1 H2] H3] H4] H5] H6] H7] _]. rewrite Z.quot_div_nonneg in H7 by lia. lia.
  - intros (H1 & H2 & H3 & H4). rewrite Z.quot_div_nonneg by lia.
    assert (0 < (MaxRSABits l + 7) / 8) by (apply Z.div_str_pos; lia). split; [split_and!; lia | done].
Qed.
Lemma normalized_iff l r : normalized l = Ret r <-> limits_ok (defaulted l) /\ r = defaulted l.
Proof.
  unfold normalized. fold (defaulted l). rewrite <- Limits_Validate_iff.
  destruct (Limits_Validate (defaulted l)) as [[] | | ]; cbn; split; (by intros [= <-]) || (by intros [? ->]).
Qed.
Lemma defaulted_ok l : limits_ok l -> defaulted l = l.
Proof.
  destruct l as [a b c d]. unfold limits_ok, defaulted, or_default. cbn. intros (H1 & H2 & -> & H4).
  assert (0 < (b + 7) / 8) by (apply Z.div_str_pos; unfold hardMinRSABits in *; lia).
  unfold hardMinRSABits in *. rewrite !(proj2 (Z.eqb_neq _ 0)) by (unfold requiredRSAExponent; lia). done.
Qed.

Lemma DefaultLimits_ok : limits_ok DefaultLimits.
Proof. unfold limits_ok. vm_compute. intuition congruence. Qed.

(** A key of the algorithm within the policy. *)
Definition key_for (l : Limits) (algorithm : Algorithm) (material : Material) : Prop :=
  (algorithm = AlgorithmRSASHA256 /\ exists n, material = RSAKey (Some (MkRSA (Some n) requiredRSAExponent)) /\
     0 < n /\ Z.Odd n /\ MinRSABits l <= BitLen n <= MaxRSABits l) \/
  (algorithm = AlgorithmEd25519SHA256 /\ exists k, material = Ed25519Key k /\ len k = ed25519_PublicKeySize) \/
  (algorithm = AlgorithmMLDSA44 /\ exists k, material = MLDSAKey (Some k) /\ mldsa_Parameters k = MLDSA44).

Lemma BitLen_large n : 0 < n -> 1024 <= BitLen n -> 65537 < n.
Proof.
  intros Hn. unfold BitLen. rewrite (proj2 (Z.eqb_neq n 0)), Z.abs_eq by lia. intros H.
  pose proof (Z.log2_spec n Hn) as [Hl _]. assert (2 ^ 17 <= 2 ^ Z.log2 n) by (apply Z.pow_le_mono_r; lia). lia.
Qed.
Lemma algorithms_distinct :
  bytes_equal AlgorithmEd25519SHA256 AlgorithmRSASHA256 = false /\ bytes_equal AlgorithmMLDSA44 AlgorithmRSASHA256 = false /\
  bytes_equal AlgorithmMLDSA44 AlgorithmEd25519SHA256 = false.
Proof. done. Qed.

Lemma validateMaterial_iff algorithm material l r :
  limits_ok l -> validateMaterial algorithm material l = Ret r <-> key_for l algorithm material /\ r = material.
Proof.
  intros (Hmin & Hmax & He & _). unfold validateMaterial, key_for, Algorithm_Known.
  destruct algorithms_distinct as (D1 & D2 & D3).
  destruct (bytes_equal algorithm AlgorithmRSASHA256) eqn:E1; [apply bytes_equal_eq in E1 as -> | ]; cbn [orb require obind].
  { split.
    - intros H. destruct material as [ | key | | | ]; try done. apply obind_ret_inv in H as (? & Hv%require_ret_inv & H).
      destruct key as [[[n | ] e] | ]; try done. cbn in Hv. rewrite !andb_true_iff in Hv.
      apply obind_ret_inv in H as (? & Hp%require_ret_inv & [= <-]).
      rewrite negb_true_iff, !orb_false_iff, negb_false_iff, Z.eqb_eq, !Z.ltb_ge in Hp. destruct Hp as [[-> Hp1] Hp2].
      split; [ | done]. left. split; [done | ]. exists n. rewrite <- He. split_and!; [done | lia | | lia | lia].
      apply Z.odd_spec. rewrite <- Z.bit0_odd. apply Hv.
    - intros [[(_ & n & -> & Hn & Hodd & Hb) | [(E & _) | (E & _)]] ->]; [ | by rewrite <- E in D1 | by rewrite <- E in D2].
      cbn [ValidRSAPublicKeyStructure]. rewrite Z.bit0_odd. apply Z.odd_spec in Hodd. rewrite Hodd.
      pose proof (BitLen_large n Hn ltac:(unfold hardMinRSABits in *; lia)). unfold requiredRSAExponent in *.
      rewrite (proj2 (Z.ltb_lt 0 n)), (proj2 (Z.ltb_lt 65537 n)) by lia. cbn [andb require obind]. change (3 <=? 65537) with true.
      change (Z.rem 65537 2 =? 1) with true. cbn [andb require obind].
      rewrite He, Z.eqb_refl. rewrite !(proj2 (Z.ltb_ge _ _)) by lia. done. }
  destruct (bytes_equal algorithm AlgorithmEd25519SHA256) eqn:E2; [apply bytes_equal_eq in E2 as -> | ]; cbn [orb require obind].
  { split.
    - intros H. destruct material as [ | | key | | ]; try done. apply obind_ret_inv in H as (? & Hv%require_ret_inv & [= <-]).
      split; [ | done]. right; left. split; [done | ]. exists key. split; [done | lia].
    - intros [[(E & _) | [(_ & k & -> & Hk) | (E & _)]] ->]; [by rewrite E in E1 | | by rewrite <- E in D3].
      rewrite (proj2 (Z.eqb_eq _ _)) by done. done. }
  destruct (bytes_equal algorithm AlgorithmMLDSA44) eqn:E3; [apply bytes_equal_eq in E3 as -> | ]; cbn [orb require obind].
  { split.
    - intros H. destruct material as [ | | | key | ]; try done. apply obind_ret_inv in H as (? & Hv%require_ret_inv & [= <-]).
      split; [ | done]. right; right. split; [done | ]. destruct key as [key | ]; [ | done]. exists key.
      cbn in Hv. by apply bool_decide_eq_true in Hv.
    - intros [[(E & _) | [(E & _) | (_ & k & -> & Hk)]] ->]; [by rewrite E in E1 | by rewrite E in E2 | ].
      cbn. by rewrite bool_decide_eq_true_2. }
  split; [done | ]. intros [[(E & _) | [(E & _) | (E & _)]] _]; subst; by rewrite bytes_equal_refl in *.
Qed.
Lemma validateMaterial_safe algorithm material l : no_crash (validateMaterial algorithm material l).
Proof.
  unfold validateMaterial. crash_free.
Qed.

(** The size of the signatures of a key. *)
Definition signature_size (material : Material) : Z := (ExpectedSignatureBytes material).1.
(** The primitive's answer for a key of the algorithm. *)
Definition primitive_accepts (rsa : RSAPublicKey -> bytes -> bytes -> bool) (ed : bytes -> bytes -> bytes -> bool)
    (mldsa : MLDSAPublicKey -> bytes -> bytes -> bytes -> bool) (material : Material) (representative s : bytes) : bool :=
  match material with
  | RSAKey (Some key) => rsa key representative s
  | Ed25519Key key => ed key representative s
  | MLDSAKey (Some key) => mldsa key representative s MLDSA44Context
  | _ => false
  end.

Lemma signature_length_iff l algorithm material length :
  limits_ok l -> key_for l algorithm material ->
  validateSignatureLengthValidated algorithm material length l = Ret tt <->
  length = signature_size material /\ length <= MaxSignatureBytes l.
Proof.
  intros (Hmin & Hmax & _ & Hs1 & Hs2). unfold validateSignatureLengthValidated, signature_size, MaxSignatureBytesFor, Algorithm_Known.
  destruct algorithms_distinct as (D1 & D2 & D3).
  intros [(-> & n & -> & Hn & _ & Hb) | [(-> & k & -> & Hk) | (-> & k & -> & Hk)]];
    rewrite ?D1, ?D2, ?D3, bytes_equal_refl; cbn [orb require obind ExpectedSignatureBytes fst].
  - assert (rsa_Size n <= (MaxRSABits l + 7) / 8) by (apply Z.div_le_mono; lia).
    assert (0 < rsa_Size n) by (apply Z.div_str_pos; unfold hardMinRSABits in *; lia).
    assert ((MaxRSABits l + 7) / 8 <= maxRSASignatureBytes)
      by (change maxRSASignatureBytes with ((8192 + 7) / 8); apply Z.div_le_mono; unfold hardMaxRSABits in *; lia).
    split.
    + intros Hv. apply obind_ret_inv in Hv as (? & Hc%require_ret_inv%negb_true_iff & He%require_ret_inv). lia.
    + intros [-> Hle]. rewrite (proj2 (Z.leb_gt _ _)), !(proj2 (Z.ltb_ge _ _)), Z.eqb_refl by lia. done.
  - unfold ed25519_SignatureSize. split.
    + intros Hv. apply obind_ret_inv in Hv as (? & Hc%require_ret_inv%negb_true_iff & He%require_ret_inv). lia.
    + intros [-> Hle]. by rewrite (proj2 (Z.ltb_ge _ 64)) by lia.
  - unfold MLDSA44SignatureBytes. split.
    + intros Hv. apply obind_ret_inv in Hv as (? & Hc%require_ret_inv%negb_true_iff & He%require_ret_inv). lia.
    + intros [-> Hle]. by rewrite (proj2 (Z.ltb_ge _ 2420)) by lia.
Qed.

(** ** Which check fails first *)
(** The outcome of a sequence of checks, each with the error it reports. *)
Inductive first_failing : list (Prop * ErrorCode) -> outcome ErrorCode unit -> Prop :=
  | all_pass : first_failing [] (Ret tt)
  | check_fails (P : Prop) e cs : ~ P -> first_failing ((P, e) :: cs) (Fail e)
  | check_passes (P : Prop) e cs out : P -> first_failing cs out -> first_failing ((P, e) :: cs) out.
Lemma first_failing_bind {A} cs cs' (m : outcome ErrorCode A) k :
  first_failing cs (let* _ := m in Ret tt) -> (forall v, m = Ret v -> first_failing cs' (k v)) ->
  first_failing (cs ++ cs') (obind m k).
Proof.
  intros H Hk. remember (let* _ := m in Ret tt) as out eqn:Eo. induction H as [ | P e cs Hn | P e cs out Hp _ IH]; cbn [app].
  - destruct m; try done. by apply Hk.
  - destruct m; try done. injection Eo as ->. by constructor.
  - constructor; [done | by apply IH].
Qed.
Lemma first_failing_require b e (P : Prop) : (b = true <-> P) -> first_failing [(P, e)] (require b e).
Proof. intros H. destruct b; [apply check_passes; [by apply H | constructor] | apply check_fails; by intros ?%H]. Qed.

(** The type of key that an algorithm takes, the keys of that type that are well
    formed, and those within the policy. *)
Definition key_type (algorithm : Algorithm) (material : Material) : Prop :=
  (algorithm = AlgorithmRSASHA256 /\ exists k, material = RSAKey k) \/
  (algorithm = AlgorithmEd25519SHA256 /\ exists k, material = Ed25519Key k) \/
  (algorithm = AlgorithmMLDSA44 /\ exists k, material = MLDSAKey k).
Definition key_shape (material : Material) : Prop :=
  match material with
  | RSAKey (Some (MkRSA (Some n) e)) => 0 < n /\ Z.Odd n /\ 3 <= e < n /\ Z.Odd e
  | Ed25519Key k => len k = ed25519_PublicKeySize
  | MLDSAKey (Some k) => mldsa_Parameters k = MLDSA44
  | _ => False
  end.
Definition key_policy (l : Limits) (material : Material) : Prop :=
  match material with
  | RSAKey (Some (MkRSA (Some n) e)) => e = requiredRSAExponent /\ MinRSABits l <= BitLen n <= MaxRSABits l
  | _ => True
  end.
Lemma rsa_structure n e :
  ValidRSAPublicKeyStructure (Some (MkRSA (Some n) e)) = true <-> key_shape (RSAKey (Some (MkRSA (Some n) e))).
Proof.
  cbn [ValidRSAPublicKeyStructure key_shape]. rewrite !andb_true_iff, !Z.ltb_lt, Z.leb_le, Z.eqb_eq, Z.bit0_odd, Z.odd_spec. rewrite <- (Z.odd_spec e).
  assert (3 <= e -> Z.rem e 2 = 1 <-> Z.odd e = true) as He.
  { intros Hle. rewrite Z.rem_mod_nonneg, Zmod_odd by lia. by destruct (Z.odd e). }
  intuition.
Qed.
Lemma known_algorithm algorithm :
  Algorithm_Known algorithm = true ->
  algorithm = AlgorithmRSASHA256 \/ algorithm = AlgorithmEd25519SHA256 \/ algorithm = AlgorithmMLDSA44.
Proof. unfold Algorithm_Known. intros [[H | H]%orb_true_iff | H]%orb_true_iff; apply bytes_equal_eq in H; auto. Qed.
Lemma validateMaterial_first l algorithm material :
  limits_ok l -> Algorithm_Known algorithm = true ->
  first_failing [(key_type algorithm material, ErrorCodeWrongKeyType); (key_shape material, ErrorCodeInvalidKey);
                 (key_policy l material, ErrorCodeKeyPolicyRejected)]
    (let* _ := validateMaterial algorithm material l in Ret tt).
Proof.
  intros (_ & _ & He & _) Hk. unfold validateMaterial. rewrite Hk. cbn [require obind]. destruct algorithms_distinct as (D1 & D2 & D3).
  apply known_algorithm in Hk as [-> | [-> | ->]]; rewrite ?D1, ?D2, ?D3, ?bytes_equal_refl;
    (destruct material as [ | k | k | k | ];
      try (apply check_fails; intros [(E & ? & E') | [(E & ? & E') | (E & ? & E')]]; first [discriminate E' | by vm_compute in E]));
    (apply check_passes; [unfold key_type; eauto 10 | ]).
  - destruct k as [[[n | ] e] | ]; try (apply check_fails; exact (fun H => H)).
    pose proof (rsa_structure n e) as Hs. destruct (ValidRSAPublicKeyStructure _); cbn [require obind].
    2: { apply check_fails. by intros ?%Hs. }
    apply check_passes; [by apply Hs | ]. destruct (negb _) eqn:Ep; cbn [require obind key_policy].
    + apply check_passes; [cbn [key_policy]; lia | constructor].
    + apply check_fails. cbn [key_policy]. lia.
  - destruct (Z.eqb_spec (len k) ed25519_PublicKeySize); [ | by apply check_fails]. repeat (apply check_passes; [done | ]). constructor.
  - destruct k as [k | ]; [ | apply check_fails; exact (fun H => H)]. cbn [validMLDSA44PublicKey]. case_bool_decide; [ | by apply check_fails].
    repeat (apply check_passes; [done | ]). constructor.
Qed.
Lemma signature_length_first l algorithm material length :
  limits_ok l -> key_for l algorithm material ->
  first_failing [(length = signature_size material /\ length <= MaxSignatureBytes l, ErrorCodeInvalidSignatureLength)]
    (validateSignatureLengthValidated algorithm material length l).
Proof.
  intros Hl Hk. pose proof (signature_length_iff l algorithm material length Hl Hk) as Hiff. revert Hiff.
  unfold validateSignatureLengthValidated at 1 2.
  assert (Algorithm_Known algorithm = true) as ->.
  { apply Algorithm_Known_iff. unfold SigningAlgorithmOrder. rewrite !elem_of_cons. destruct Hk as [[-> _] | [[-> _] | [-> _]]]; auto. }
  cbn [require obind]. destruct (negb _); cbn [require obind]; [ | intros Hiff; apply check_fails; by rewrite <- Hiff].
  destruct Hk as [(_ & n & -> & _) | [(_ & k & -> & _) | (_ & k & -> & _)]]; intros Hiff; apply first_failing_require;
    rewrite <- Hiff; destruct (_ =? _); cbn; by split.
Qed.

Lemma bind_tt (m : outcome ErrorCode unit) : (let* _ := m in Ret tt) = m.
Proof. by destruct m as [[] | | ]. Qed.
Lemma first_failing_outcome cs out : first_failing cs out -> no_crash out /\ (out = Ret tt <-> Forall fst cs).
Proof.
  induction 1 as [ | P e cs Hn | P e cs out Hp _ [IH1 IH2]]; rewrite ?Forall_cons; [done | | cbn; tauto].
  split; [done | ]. split; [done | by intros [? _]].
Qed.
Lemma normalized_first l :
  first_failing [(limits_ok (defaulted l), ErrorCodeInvalidOptions)] (let* _ := normalized l in Ret tt).
Proof.
  pose proof (Limits_Validate_iff (defaulted l)) as H. unfold normalized. fold (defaulted l). revert H. unfold Limits_Validate.
  destruct (negb _); cbn [require obind]; intros H; [apply check_passes; [by apply H | constructor] | apply check_fails; by rewrite <- H].
Qed.
Lemma representative_length algorithm (representative : bytes) :
  ValidRepresentativeLength algorithm (len representative) = true <->
  algorithm ∈ SigningAlgorithmOrder /\ (if SignsInputDirectly algorithm then 0 < len representative else len representative = 32).
Proof.
  rewrite <- Algorithm_Known_iff. unfold ValidRepresentativeLength. rewrite (proj1 (SigningRank_spec algorithm)).
  destruct (Algorithm_Known algorithm), (SignsInputDirectly algorithm); cbn [negb]; lia || (split; [done | by intros [? _]]).
Qed.

(** The checks of a verification in the order of the code. *)
Definition verification_checks (rsa : RSAPublicKey -> bytes -> bytes -> bool) (ed : bytes -> bytes -> bytes -> bool)
    (mldsa : MLDSAPublicKey -> bytes -> bytes -> bytes -> bool) (algorithm : Algorithm) (material : Material)
    (representative s : bytes) (limits : Limits) : list (Prop * ErrorCode) :=
  let l := defaulted limits in
  [(algorithm ∈ SigningAlgorithmOrder /\
      (if SignsInputDirectly algorithm then 0 < len representative else len representative = 32), ErrorCodeInvalidDigestLength);
   (limits_ok l, ErrorCodeInvalidOptions);
   (key_type algorithm material, ErrorCodeWrongKeyType);
   (key_shape material, ErrorCodeInvalidKey);
   (key_policy l material, ErrorCodeKeyPolicyRejected);
   (len s = signature_size material /\ len s <= MaxSignatureBytes l, ErrorCodeInvalidSignatureLength);
   (primitive_accepts rsa ed mldsa material representative s = true, ErrorCodeSignatureMismatch)].

(** C40: verification never panics and reports the first failing check: the
    representative has the length of a known algorithm, the limits (with zeros
    replaced by the defaults) are within the hard bounds, the key has the
    algorithm's type, is well formed (an odd RSA modulus above an odd exponent
    of at least 3, a 32-byte Ed25519 key, an ML-DSA-44 key) and within the
    policy (exponent 65537, a modulus size between the bounds), the signature
    has exactly the key's size within the narrowed ceiling, and the primitive of
    that key accepts.  It succeeds exactly when all of them hold. *)
Theorem VerifyRepresentative_exact rsa ed mldsa algorithm material representative s limits :
  let checks := verification_checks rsa ed mldsa algorithm material representative s limits in
  let out := VerifyRepresentative rsa ed mldsa algorithm material representative s limits in
  no_crash out /\ first_failing checks out /\ (out = Ret tt <-> Forall fst checks).
Proof.
  cbv zeta. enough (first_failing (verification_checks rsa ed mldsa algorithm material representative s limits)
    (VerifyRepresentative rsa ed mldsa algorithm material representative s limits)) as H.
  { destruct (first_failing_outcome _ _ H). by split_and!. }
  unfold VerifyRepresentative, ValidatePublicKey, verification_checks. cbv zeta.
  apply (first_failing_bind [_]).
  { rewrite bind_tt. apply first_failing_require, representative_length. }
  intros [] [Hkn _]%require_ret_inv%representative_length. apply Algorithm_Known_iff in Hkn.
  apply (first_failing_bind [_]); [apply normalized_first | intros r [Hl ->]%normalized_iff].
  rewrite (proj2 (normalized_iff (defaulted limits) (defaulted limits))) by (by rewrite (defaulted_ok _ Hl)). cbn [obind].
  apply (first_failing_bind [_; _; _]); [by apply validateMaterial_first | intros v [Hk ->]%(validateMaterial_iff _ _ _ _ Hl)].
  pose proof (signature_length_first _ _ _ (len s) Hl Hk) as Hlen.
  apply (first_failing_bind [_]); [by rewrite bind_tt | intros [] [Hs _]%(signature_length_iff _ _ _ _ Hl Hk)].
  destruct Hk as [(_ & n & -> & _) | [(_ & k & -> & _) | (_ & k & -> & Hk)]]; apply first_failing_require; try done.
  unfold verifyMLDSA44, validMLDSA44PublicKey. rewrite bool_decide_eq_true_2 by done. cbn in Hs |- *. by rewrite Hs.
Qed.

Definition ed25519_verdict (accepts : bool) (material : Material) (representative s : bytes) (limits : Limits) :=
  VerifyRepresentative (fun _ _ _ => true) (fun _ _ _ => accepts) (fun _ _ _ _ => true) AlgorithmEd25519SHA256 material
    representative s limits.
Example VerifyRepresentative_samples :
  let key := Ed25519Key (repeat x01 32) in
  let representative := repeat x02 32 in
  let wide := MkLimits 512 0 0 0 in
  ed25519_verdict true key representative (repeat x03 64) DefaultLimits = Ret tt /\
  ed25519_verdict false key representative (repeat x03 64) DefaultLimits = Fail ErrorCodeSignatureMismatch /\
  ed25519_verdict false key representative (repeat x03 63) DefaultLimits = Fail ErrorCodeInvalidSignatureLength /\
  ed25519_verdict false (Ed25519Key []) representative [] DefaultLimits = Fail ErrorCodeInvalidKey /\
  ed25519_verdict false OtherKey representative [] DefaultLimits = Fail ErrorCodeWrongKeyType /\
  ed25519_verdict false OtherKey representative [] wide = Fail ErrorCodeInvalidOptions /\
  ed25519_verdict false OtherKey [] [] wide = Fail ErrorCodeInvalidDigestLength.
Proof. vm_compute. split_and!; reflexivity. Qed.
