(* ===== verification/KeyTypes.v ===== *)
(** * Package internal/keyresolver: errors, limits, owners and TXT answers

    errors.go, limits.go, query.go and transport.go.  Error and outcome codes
    are enumerations; durations are nanoseconds.  A name with a byte outside
    ASCII has no valid label, so lower-casing is stated on ASCII bytes only. *)

From S2P Require Import Prelude GoBytes GoTime DomainName SigAlgorithm.
#[local] Open Scope Z_scope.

(** ** errors.go *)
Inductive ErrorClass := ErrorClassContract | ErrorClassPermanent.
#[export] Instance ErrorClass_eq_dec : EqDecision ErrorClass.
Proof. solve_decision. Defined.

(** ** limits.go *)
Definition hardMaxNameBytes : Z := 253.
Definition hardMaxNameLabels : Z := 127.
Definition hardMaxTXTRecords : Z := 8.
Definition hardMaxTXTRecordBytes : Z := 64 * 1024.
Definition hardMaxTags : Z := 128.
Definition hardMaxTagNameBytes : Z := 63.
Definition hardMaxTagValueBytes : Z := 64 * 1024.
Definition hardMaxDecodedKeyBytes : Z := 64 * 1024.
Definition hardMaxCacheEntries : Z := 65536.
Definition hardMaxConcurrentLookups : Z := 1024.
Definition hardMaxCoalescedWaiters : Z := 1024.
Definition Minute : Z := 60 * Second.

Record Limits := MkLimits {
  MaxSelectorBytes : Z; MaxSelectorLabels : Z; MaxSigningDomainBytes : Z; MaxSigningDomainLabels : Z;
  MaxOwnerBytes : Z; MaxTXTRecords : Z; MaxTXTRecordBytes : Z; MaxTags : Z; MaxTagNameBytes : Z;
  MaxTagValueBytes : Z; MaxDecodedKeyBytes : Z; MaxCacheEntries : Z; MaxPositiveTTL : Z; MaxNegativeTTL : Z;
  MaxStableErrorTTL : Z; MaxConcurrentLookups : Z; MaxCoalescedWaiters : Z; LookupTimeout : Z }.
Definition DefaultLimits : Limits :=
  MkLimits 253 127 253 127 253 hardMaxTXTRecords (8 * 1024) 32 63 (8 * 1024) (8 * 1024) 1024
    Hour (5 * Minute) Minute 64 64 (5 * Second).
Definition HardLimits : Limits :=
  MkLimits hardMaxNameBytes hardMaxNameLabels hardMaxNameBytes hardMaxNameLabels hardMaxNameBytes hardMaxTXTRecords
    hardMaxTXTRecordBytes hardMaxTags hardMaxTagNameBytes hardMaxTagValueBytes hardMaxDecodedKeyBytes
    hardMaxCacheEntries (24 * Hour) Hour (5 * Minute) hardMaxConcurrentLookups hardMaxCoalescedWaiters (30 * Second).

Definition positiveWithin (value maximum : Z) : bool := (0 <? value) && (value <=? maximum).
Definition nonNegativeWithin (value maximum : Z) : bool := (0 <=? value) && (value <=? maximum).
Definition nonNegativeDurationWithin (value maximum : Z) : bool := (0 <=? value) && (value <=? maximum).
Definition limits_within (l : Limits) : bool :=
  positiveWithin (MaxSelectorBytes l) hardMaxNameBytes && positiveWithin (MaxSelectorLabels l) hardMaxNameLabels &&
  positiveWithin (MaxSigningDomainBytes l) hardMaxNameBytes &&
  positiveWithin (MaxSigningDomainLabels l) hardMaxNameLabels &&
  positiveWithin (MaxOwnerBytes l) hardMaxNameBytes && positiveWithin (MaxTXTRecords l) hardMaxTXTRecords &&
  positiveWithin (MaxTXTRecordBytes l) hardMaxTXTRecordBytes && positiveWithin (MaxTags l) hardMaxTags &&
  positiveWithin (MaxTagNameBytes l) hardMaxTagNameBytes && positiveWithin (MaxTagValueBytes l) hardMaxTagValueBytes &&
  positiveWithin (MaxDecodedKeyBytes l) hardMaxDecodedKeyBytes &&
  nonNegativeWithin (MaxCacheEntries l) hardMaxCacheEntries &&
  nonNegativeDurationWithin (MaxPositiveTTL l) (24 * Hour) && nonNegativeDurationWithin (MaxNegativeTTL l) Hour &&
  nonNegativeDurationWithin (MaxStableErrorTTL l) (5 * Minute) &&
  positiveWithin (MaxConcurrentLookups l) hardMaxConcurrentLookups &&
  positiveWithin (MaxCoalescedWaiters l) hardMaxCoalescedWaiters &&
  negb ((LookupTimeout l <=? 0) || (30 * Second <? LookupTimeout l)).
Definition Limits_Validate (l : Limits) : outcome ErrorClass unit := require (limits_within l) ErrorClassContract.

(** ** query.go: names *)
Definition ToLower (s : bytes) : bytes := map fold_byte s.
Definition asciiLetterOrDigit (b : byte) : bool := in_range x61 b x7a || in_range x41 b x5a || in_range x30 b x39.
(** The bytes strictly between the first and the last. *)
Definition interior (s : bytes) : bytes := removelast (tail s).
Definition validDNSLabel (label : bytes) : bool :=
  match label with
  | [] => false
  | first :: _ =>
      negb ((63 <? len label) || negb (asciiLetterOrDigit first) || negb (asciiLetterOrDigit (List.last label first)))
      && forallb (fun b => asciiLetterOrDigit b || (b =?b x2d)) (interior label)
  end.
Definition canonicalDNSName (value : bytes) : option (bytes * Z) :=
  if bool_decide (value = []) || (hardMaxNameBytes <? len value) then None
  else
    let labels := split_byte x2e value in
    if (len labels =? 0) || (hardMaxNameLabels <? len labels) then None
    else if forallb validDNSLabel labels then Some (ToLower value, len labels) else None.
Definition canonicalBoundedDNSName (value : bytes) (maxBytes maxLabels : Z) : outcome ErrorClass bytes :=
  if (maxBytes <=? 0) || (hardMaxNameBytes <? maxBytes) || (maxLabels <=? 0) || (hardMaxNameLabels <? maxLabels)
  then Fail ErrorClassContract
  else
    match canonicalDNSName value with
    | Some (domain, labels) =>
        if (maxBytes <? len domain) || (maxLabels <? labels) then Fail ErrorClassContract else Ret domain
    | None => Fail ErrorClassContract
    end.
Definition CanonicalSigningDomain := canonicalBoundedDNSName.
Definition CanonicalSelector := canonicalBoundedDNSName.

(** ** query.go: owners *)
Inductive OwnerKind := OwnerKindSelector | OwnerKindDomainPolicy.
#[export] Instance OwnerKind_eq_dec : EqDecision OwnerKind.
Proof. solve_decision. Defined.
Definition domainkey : bytes := bs "_domainkey".

(** The loop over the labels; [None] when a label is invalid or repeated. *)
Fixpoint ownerLoop (labels : list bytes) (index domainKeyIndex : Z) : option Z :=
  match labels with
  | [] => Some domainKeyIndex
  | label :: rest =>
      if bytes_equal label domainkey then
        if 0 <=? domainKeyIndex then None else ownerLoop rest (index + 1) index
      else if validDNSLabel label then ownerLoop rest (index + 1) domainKeyIndex
      else None
  end.
Definition ClassifyAbsoluteOwner (name : bytes) : option OwnerKind :=
  if (len name <? 3) || negb (has_suffix name [x2e]) || (hardMaxNameBytes <? len name - 1) ||
     has_suffix name (bs "..") || negb (bytes_equal name (ToLower name))
  then None
  else
    let labels := split_byte x2e (removelast name) in
    match ownerLoop labels 0 (-1) with
    | None => None
    | Some domainKeyIndex =>
        if (domainKeyIndex <? 0) || (len labels - 1 <=? domainKeyIndex) then None
        else if domainKeyIndex =? 0 then Some OwnerKindDomainPolicy
        else Some OwnerKindSelector
    end.
Definition ValidAbsoluteOwner_kind (k : OwnerKind) (name : bytes) : bool :=
  bool_decide (ClassifyAbsoluteOwner name = Some k).
Definition ValidAbsoluteOwner (name : bytes) : bool :=
  if ClassifyAbsoluteOwner name is Some _ then true else false.

Record Query := MkQuery {
  q_signingDomain : bytes; q_selector : bytes; q_algorithm : Algorithm; q_presentationName : bytes; q_absoluteName : bytes }.
(** Whatever the error of a component, NewQuery reports a contract error. *)
Definition as_contract {A} (m : outcome ErrorClass A) : outcome ErrorClass A :=
  map_fail (fun _ => ErrorClassContract) m.
Definition NewQuery (signingDomain selector : bytes) (algorithm : Algorithm) (limits : Limits)
    : outcome ErrorClass Query :=
  check require (is_ret (Limits_Validate limits) && Algorithm_Known algorithm) ErrorClassContract ;;
  let* domain := as_contract (CanonicalSigningDomain signingDomain (MaxSigningDomainBytes limits)
                                (MaxSigningDomainLabels limits)) in
  let* canonicalSelector := as_contract (CanonicalSelector selector (MaxSelectorBytes limits)
                                           (MaxSelectorLabels limits)) in
  let presentation := canonicalSelector ++ bs "._domainkey." ++ domain in
  check require (negb ((MaxOwnerBytes limits <? len presentation) || (hardMaxNameBytes <? len presentation)))
    ErrorClassPermanent ;;
  let absolute := presentation ++ [x2e] in
  check require (ValidAbsoluteOwner_kind OwnerKindSelector absolute) ErrorClassContract ;;
  Ret (MkQuery domain canonicalSelector algorithm presentation absolute).

(** domain_policy.go: the query of a Domain Policy Record. *)
Record DomainPolicyQuery := MkPolicyQuery { dq_domain : bytes; dq_absoluteName : bytes }.
Definition NewDomainPolicyQuery (domain : bytes) (limits : Limits) : outcome ErrorClass DomainPolicyQuery :=
  check as_contract (Limits_Validate limits) ;;
  let* canonicalDomain := as_contract (CanonicalSigningDomain domain (MaxSigningDomainBytes limits)
                                         (MaxSigningDomainLabels limits)) in
  let presentation := bs "_domainkey." ++ canonicalDomain in
  check require (negb ((MaxOwnerBytes limits <? len presentation) || (hardMaxNameBytes <? len presentation)))
    ErrorClassPermanent ;;
  let absolute := presentation ++ [x2e] in
  check require (ValidAbsoluteOwner_kind OwnerKindDomainPolicy absolute) ErrorClassContract ;;
  Ret (MkPolicyQuery canonicalDomain absolute).

(** ** transport.go *)
Inductive LookupStatus := LookupStatusUnset | LookupStatusFound | LookupStatusAbsent.
Inductive AbsenceClass := AbsenceUnset | AbsenceNXDOMAIN | AbsenceNODATA.
Inductive DNSSECStatus := DNSSECStatusUnset | DNSSECStatusSecure | DNSSECStatusInsecure | DNSSECStatusBogus
  | DNSSECStatusIndeterminate | DNSSECStatusUnavailable.
Inductive TransportErrorClass := TransportErrorTemporary | TransportErrorPermanent.
#[export] Instance LookupStatus_eq_dec : EqDecision LookupStatus.
Proof. solve_decision. Defined.
#[export] Instance AbsenceClass_eq_dec : EqDecision AbsenceClass.
Proof. solve_decision. Defined.
#[export] Instance DNSSECStatus_eq_dec : EqDecision DNSSECStatus.
Proof. solve_decision. Defined.
Definition LookupStatus_Known (s : LookupStatus) : bool := negb (bool_decide (s = LookupStatusUnset)).
Definition AbsenceClass_Known (a : AbsenceClass) : bool := negb (bool_decide (a = AbsenceUnset)).
Definition DNSSECStatus_Known (s : DNSSECStatus) : bool := negb (bool_decide (s = DNSSECStatusUnset)).

Record LookupResult := MkLookup {
  lr_status : LookupStatus; lr_records : list bytes; lr_recordCount : Z; lr_absence : AbsenceClass;
  lr_positiveTTL : Z; lr_negativeTTL : Z; lr_dnssec : DNSSECStatus }.
Definition NewAmbiguousResult (recordCount ttl : Z) (dnssec : DNSSECStatus) : outcome ErrorClass LookupResult :=
  if (recordCount <=? 1) || negb (DNSSECStatus_Known dnssec) then Fail ErrorClassContract
  else Ret (MkLookup LookupStatusFound [] recordCount AbsenceUnset ttl 0 dnssec).
Definition NewFoundResult (payloads : list bytes) (ttl : Z) (dnssec : DNSSECStatus) : outcome ErrorClass LookupResult :=
  if (len payloads =? 0) || negb (DNSSECStatus_Known dnssec) then Fail ErrorClassContract
  else if hardMaxTXTRecords <? len payloads then NewAmbiguousResult (len payloads) ttl dnssec
  else if existsb (fun payload => hardMaxTXTRecordBytes <? len payload) payloads then Fail ErrorClassContract
  else Ret (MkLookup LookupStatusFound payloads (len payloads) AbsenceUnset ttl 0 dnssec).
Definition NewAbsentResult (absence : AbsenceClass) (ttl : Z) (dnssec : DNSSECStatus) : outcome ErrorClass LookupResult :=
  if negb (AbsenceClass_Known absence) || negb (DNSSECStatus_Known dnssec) then Fail ErrorClassContract
  else Ret (MkLookup LookupStatusAbsent [] 0 absence 0 ttl dnssec).
Definition LookupResult_IsZero (r : LookupResult) : bool :=
  bool_decide (lr_status r = LookupStatusUnset) && (len (lr_records r) =? 0) && (lr_recordCount r =? 0) &&
  bool_decide (lr_absence r = AbsenceUnset) && (lr_positiveTTL r =? 0) && (lr_negativeTTL r =? 0) &&
  bool_decide (lr_dnssec r = DNSSECStatusUnset).
(** resolver.go *)
Definition lookupResultValid (r : LookupResult) : bool :=
  if negb (LookupStatus_Known (lr_status r)) || negb (DNSSECStatus_Known (lr_dnssec r)) then false
  else
    match lr_status r with
    | LookupStatusFound =>
        if negb (bool_decide (lr_absence r = AbsenceUnset)) || negb (lr_negativeTTL r =? 0) || (lr_recordCount r <=? 0)
        then false
        else ((1 <? lr_recordCount r) && (len (lr_records r) =? 0)) ||
             ((lr_recordCount r <=? hardMaxTXTRecords) && (len (lr_records r) =? lr_recordCount r))
    | LookupStatusAbsent =>
        AbsenceClass_Known (lr_absence r) && (lr_recordCount r =? 0) && (len (lr_records r) =? 0) &&
        (lr_positiveTTL r =? 0)
    | LookupStatusUnset => false
    end.

Example owner_samples :
  ClassifyAbsoluteOwner (bs "s1.east._domainkey.example.org.") = Some OwnerKindSelector /\
  ClassifyAbsoluteOwner (bs "_domainkey.example.org.") = Some OwnerKindDomainPolicy /\
  ClassifyAbsoluteOwner (bs "_domainkey._domainkey.example.org.") = None /\
  ClassifyAbsoluteOwner (bs "s1._domainkey.") = None /\ ClassifyAbsoluteOwner (bs "S1._domainkey.example.") = None /\
  validDNSLabel (bs "a") = true /\ validDNSLabel (bs "a-") = false /\ validDNSLabel (bs "-") = false.
Proof. split_and!; vm_compute; reflexivity. Qed.
