(* ===== verification/KeyOwner.v ===== *)
(** * Owners of key and policy records

    The grammar of the TXT owners, that the classification accepts exactly it,
    and that the queries build exactly the owners of their names. *)

From S2P Require Import Prelude GoBytes GoTime DomainName SigAlgorithm KeyTypes.
#[local] Open Scope Z_scope.

(** ** Labels *)
Lemma split_len s : Forall (fun l => 1 <= len l) (split_byte x2e s) -> 2 * len (split_byte x2e s) <= len s + 1.
Proof.
  remember (split_byte x2e s) as ps eqn:E. symmetry in E. intros H. revert s E.
  induction H as [|p ps Hp _ IH]; intros s E; [by apply split_byte_nonempty in E | ].
  apply split_byte_inv in E as (_ & [[-> ->] | (s' & -> & E)]).
  - unfold len in *. simpl. lia.
  - apply IH in E. rewrite len_app, !len_cons in *. lia.
Qed.

(** ** Letter case *)
Lemma split_lower s : split_byte x2e (ToLower s) = map ToLower (split_byte x2e s).
Proof.
  unfold ToLower. induction s as [|b s IH]; [done | ]. cbn [map split_byte]. rewrite fold_dot, IH.
  case_byte; [done | ]. by destruct (split_byte x2e s).
Qed.
Lemma len_lower s : len (ToLower s) = len s.
Proof. unfold len, ToLower. by rewrite length_map. Qed.
Lemma lower_app s t : ToLower (s ++ t) = ToLower s ++ ToLower t.
Proof. apply map_app. Qed.
Lemma lower_idem s : ToLower (ToLower s) = ToLower s.
Proof. unfold ToLower. rewrite map_map. apply map_ext, fold_byte_idem. Qed.

Lemma dns_byte_fold b :
  (asciiLetterOrDigit b || (b =?b x2d)) = ldh_byte (fold_byte b) /\
  asciiLetterOrDigit b = ldh_byte (fold_byte b) && negb (fold_byte b =?b x2d).
Proof.
  enough (Bool.eqb (asciiLetterOrDigit b || (b =?b x2d)) (ldh_byte (fold_byte b)) &&
          Bool.eqb (asciiLetterOrDigit b) (ldh_byte (fold_byte b) && negb (fold_byte b =?b x2d)) = true) as H.
  { apply andb_true_iff in H as [H1%eqb_prop H2%eqb_prop]. done. }
  by_bytes b.
Qed.
(** A label in the sense of the resolver is one of package domainname up to
    the case of its letters. *)
Lemma validDNSLabel_spec l : validDNSLabel l = true <-> is_label (ToLower l).
Proof.
  unfold is_label, validDNSLabel. rewrite len_lower. destruct l as [|b l].
  { split; [done | ]. intros (_ & H & _). unfold len in H. simpl in H. lia. }
  unfold ToLower. cbn [map]. rewrite edged_ends.
  change (fold_byte b :: map fold_byte l) with (map fold_byte (b :: l)). rewrite last_map.
  set (e := List.last (b :: l) b).
  assert (forallb (fun b => asciiLetterOrDigit b || (b =?b x2d)) (interior (b :: l)) = true /\
          asciiLetterOrDigit b = true /\ asciiLetterOrDigit e = true <->
          Forall (fun b => ldh_byte b = true) (map fold_byte (b :: l)) /\
          (fold_byte b =?b x2d) = false /\ (fold_byte e =?b x2d) = false) as Hb.
  { rewrite (proj2 (dns_byte_fold b)), (proj2 (dns_byte_fold e)), !andb_true_iff, !negb_true_iff.
    rewrite Forall_map, forallb_forall.
    assert ((forall x, List.In x (interior (b :: l)) -> asciiLetterOrDigit x || (x =?b x2d) = true) <->
            Forall (fun x => ldh_byte (fold_byte x) = true) (interior (b :: l))) as ->.
    { rewrite list.Forall_forall. setoid_rewrite list_elem_of_In.
      split; intros H x Hx; specialize (H x Hx); by rewrite (proj1 (dns_byte_fold x)) in *. }
    unfold e, interior. cbn [tail].
    destruct (decide (l = [])) as [-> | Hl].
    - cbn. rewrite !Forall_cons, !Forall_nil. tauto.
    - destruct (exists_last Hl) as (m & c & ->). rewrite removelast_last, app_comm_cons, List.last_last.
      rewrite Forall_app, !Forall_cons, Forall_nil. tauto. }
  change maxLabelBytes with 63. rewrite andb_true_iff, negb_true_iff, !orb_false_iff, !negb_false_iff, Z.ltb_ge.
  pose proof (len_nonneg l). rewrite len_cons. assert (1 <= 1 + len l) by lia. tauto.
Qed.

Lemma canonicalDNSName_iff v d n :
  canonicalDNSName v = Some (d, n) <->
  is_domain (ToLower v) /\ d = ToLower v /\ n = len (split_byte x2e v).
Proof.
  unfold canonicalDNSName, is_domain. rewrite len_lower, split_lower, Forall_map.
  change maxDomainBytes with hardMaxNameBytes.
  assert (forallb validDNSLabel (split_byte x2e v) = true <-> Forall (fun l => is_label (ToLower l)) (split_byte x2e v)) as Hf.
  { rewrite forallb_forall, list.Forall_forall. setoid_rewrite list_elem_of_In. by setoid_rewrite validDNSLabel_spec. }
  rewrite <- Hf.
  destruct (bool_decide_reflect (v = [])) as [-> | Hne]; cbn [orb]; [split; [done | by intros [[_ ?] _]] | ].
  destruct (Z.ltb_spec hardMaxNameBytes (len v)); [split; [done | lia] | ].
  destruct (forallb validDNSLabel (split_byte x2e v)) eqn:E.
  - assert (2 * len (split_byte x2e v) <= len v + 1) as Hn.
    { apply split_len. eapply Forall_impl; [by apply Hf | ]. intros l (_ & Hl & _). rewrite len_lower in Hl. lia. }
    assert (len (split_byte x2e v) <> 0) as H0.
    { unfold len. destruct (split_byte x2e v) eqn:Es; [by apply split_byte_nonempty in Es | simpl; lia]. }
    rewrite (proj2 (Z.eqb_neq _ _)) by done. rewrite (proj2 (Z.ltb_ge _ _)) by (unfold hardMaxNameLabels, hardMaxNameBytes in *; lia).
    cbn [orb]. split; [by intros [= <- <-] | by intros (_ & -> & ->)].
  - split; [by destruct (_ || _) | by intros [[_ ?] _]].
Qed.

Lemma label_no_dot l : is_label l -> x2e ∉ l.
Proof. intros (H & _) Hin. rewrite list.Forall_forall in H. by apply H in Hin. Qed.
Lemma label_lower l : is_label l -> ToLower l = l.
Proof.
  intros (H & _). unfold ToLower. induction H as [|b l Hb _ IH]; [done | ]. cbn. rewrite IH.
  by rewrite (proj1 (ldh_byte_facts b Hb)).
Qed.
Lemma domainkey_not_label : ~ is_label domainkey /\ validDNSLabel domainkey = false /\ x2e ∉ domainkey.
Proof.
  split_and!; [ | done | ].
  - intros H. pose proof (label_lower _ H) as E. rewrite <- E in H. by apply validDNSLabel_spec in H.
  - apply (bool_decide_eq_false (x2e ∈ domainkey)). by vm_compute.
Qed.

(** ** The grammar of owners *)
Definition owner_text (before after : list bytes) : bytes := join_labels (before ++ domainkey :: after) ++ [x2e].
Definition owner_kind (before : list bytes) : OwnerKind :=
  match before with [] => OwnerKindDomainPolicy | _ => OwnerKindSelector end.
Definition owner (name : bytes) (before after : list bytes) : Prop :=
  name = owner_text before after /\ after <> [] /\ Forall is_label (before ++ after) /\ len name <= hardMaxNameBytes + 1.

Lemma ownerLoop_after labels i k :
  0 <= k -> ownerLoop labels i k = (if forallb (fun l => validDNSLabel l) labels then Some k else None).
Proof.
  intros Hk. revert i. induction labels as [|l labels IH]; intros i; [done | ]. cbn [ownerLoop forallb].
  destruct (bytes_equal l domainkey) eqn:E.
  - apply bytes_equal_eq in E as ->. rewrite (proj1 (proj2 domainkey_not_label)). cbn [andb].
    by rewrite (proj2 (Z.leb_le 0 k)).
  - destruct (validDNSLabel l); [apply IH | done].
Qed.
Lemma ownerLoop_iff labels i k :
  0 <= i -> ownerLoop labels i (-1) = Some k /\ 0 <= k <->
  exists before after, labels = before ++ domainkey :: after /\ k = i + len before /\
    Forall (fun l => validDNSLabel l = true) (before ++ after).
Proof.
  revert i. induction labels as [|l labels IH]; intros i Hi; cbn [ownerLoop].
  { split; [intros [[= <-] ?]; lia | ]. intros (b & a & E & _). by destruct b. }
  destruct (bytes_equal l domainkey) eqn:E.
  - apply bytes_equal_eq in E as ->. change (0 <=? -1) with false. cbn match. rewrite ownerLoop_after by done. split.
    + intros [H _]. destruct (forallb _ labels) eqn:Ef; [ | done]. injection H as <-.
      exists [], labels. split_and!; [done | unfold len; simpl; lia | ].
      apply Forall_forall. intros x Hx%list_elem_of_In. by apply (proj1 (forallb_forall _ _) Ef).
    + intros (b & a & E & -> & H). destruct b as [|x b].
      * injection E as ->. rewrite (proj2 (forallb_forall _ _)); [split; [f_equal; unfold len; simpl; lia | unfold len; lia] | ].
        rewrite list.Forall_forall in H. intros x Hx%list_elem_of_In. by apply H.
      * injection E as <- _. apply Forall_cons in H as [H _]. by rewrite (proj1 (proj2 domainkey_not_label)) in H.
  - destruct (validDNSLabel l) eqn:Ev.
    + rewrite IH by lia. split.
      * intros (b & a & -> & -> & H). exists (l :: b), a. split_and!; [done | rewrite len_cons; lia | by constructor].
      * intros (b & a & E' & -> & H). destruct b as [|x b].
        { injection E' as -> _. by rewrite bytes_equal_refl in E. }
        injection E' as <- ->. exists b, a. split_and!; [done | rewrite len_cons; lia | by apply Forall_cons in H as [_ H]].
    + split; [by intros [? _] | ]. intros (b & a & E' & _ & H). destruct b as [|x b].
      * injection E' as -> _. by rewrite bytes_equal_refl in E.
      * injection E' as <- _. apply Forall_cons in H as [H _]. congruence.
Qed.

Lemma lower_domainkey : ToLower domainkey = domainkey.
Proof. reflexivity. Qed.
Lemma valid_lower_label l : ToLower l = l -> validDNSLabel l = true <-> is_label l.
Proof. intros E. by rewrite validDNSLabel_spec, E. Qed.
Lemma join_fixed s : ToLower s = s <-> Forall (fun l => ToLower l = l) (split_byte x2e s).
Proof.
  split.
  - intros E. pose proof (split_lower s) as H. rewrite E in H. induction (split_byte x2e s) as [|l ls IH]; [done | ].
    injection H as H1 H2. constructor; [done | by apply IH].
  - intros H. rewrite <- (join_split s) at 2. rewrite <- (join_split (ToLower s)), split_lower. f_equal.
    induction H as [|l ls Hl _ IH]; [done | ]. cbn. by rewrite Hl, IH.
Qed.
Lemma owner_labels before after :
  Forall is_label (before ++ after) ->
  split_byte x2e (join_labels (before ++ domainkey :: after)) = before ++ domainkey :: after /\
  Forall (fun l => ToLower l = l) (before ++ domainkey :: after).
Proof.
  intros [Hb Ha]%Forall_app. split.
  - apply split_join; [by destruct before | ]. rewrite Forall_app, Forall_cons.
    split_and!; [ | apply domainkey_not_label | ]; (eapply Forall_impl; [done | apply label_no_dot]).
  - rewrite Forall_app, Forall_cons. split_and!; [ | done | ]; (eapply Forall_impl; [done | apply label_lower]).
Qed.
Lemma has_suffix_dot s : has_suffix s [x2e] = true <-> exists t, s = t ++ [x2e].
Proof. apply has_suffix_spec. Qed.

Lemma ClassifyAbsoluteOwner_iff name k :
  ClassifyAbsoluteOwner name = Some k <-> exists before after, owner name before after /\ k = owner_kind before.
Proof.
  unfold ClassifyAbsoluteOwner, owner. split.
  - destruct (_ || _) eqn:Ec; [done | ]. rewrite !orb_false_iff in Ec. destruct Ec as [[[[_ H2] H3] _] H5].
    apply negb_false_iff in H2. apply has_suffix_dot in H2 as [t ->]. rewrite removelast_last.
    apply negb_false_iff, bytes_equal_eq in H5. rewrite len_app in H3. change (len [x2e]) with 1 in H3. apply Z.ltb_ge in H3.
    destruct (ownerLoop _ 0 (-1)) as [i | ] eqn:El; [ | done].
    destruct (Z.ltb_spec i 0); cbn [orb]; [done | ].
    destruct (Z.leb_spec (len (split_byte x2e t) - 1) i); [done | ]. intros Hk.
    assert (0 <= i) as Hi by lia.
    destruct (proj1 (ownerLoop_iff (split_byte x2e t) 0 i ltac:(done)) (conj El Hi)) as (b & a & Es & -> & Hv).
    exists b, a. unfold owner_text. rewrite <- Es, join_split.
    match goal with H : _ < len (split_byte _ _) - 1 |- _ => rewrite Es, len_app, len_cons in H; rename H into Hidx end.
    rewrite lower_app in H5. apply app_inj_tail in H5 as [H5 _].
    symmetry in H5. apply join_fixed in H5. rewrite Es in H5. apply Forall_app in H5 as [Hlb [_ Hla]%Forall_cons].
    split_and!; [done | | | rewrite len_app; change (len [x2e]) with 1; lia | ].
    + intros ->. change (len (@nil bytes)) with 0 in Hidx. lia.
    + assert (Forall (fun l => ToLower l = l) (b ++ a)) as Hl by (by apply Forall_app).
      clear -Hv Hl. induction Hv as [|l ls Hl1 _ IH]; [done | ]. apply Forall_cons in Hl as [Hl2 Hl3].
      constructor; [by apply valid_lower_label | by apply IH].
    + destruct b as [|l b]; [by injection Hk as <- | ]. rewrite len_cons in Hk. pose proof (len_nonneg b).
      rewrite (proj2 (Z.eqb_neq _ _)) in Hk by lia. by injection Hk as <-.
  - intros (b & a & (-> & Hne & Hl & Hlen) & ->). destruct (owner_labels b a Hl) as [Hs Hlow].
    assert (ToLower (owner_text b a) = owner_text b a) as Hfix.
    { unfold owner_text. rewrite lower_app. f_equal. apply join_fixed. by rewrite Hs. }
    rewrite Hfix, bytes_equal_refl. unfold owner_text in *. set (t := join_labels _) in *.
    assert (has_suffix (t ++ [x2e]) [x2e] = true) as -> by (apply has_suffix_dot; by exists t).
    rewrite len_app in *. change (len [x2e]) with 1 in *.
    assert (len t >= 10) as Ht.
    { unfold t. destruct (decide (b = [])) as [-> | Hb].
      - cbn [app]. rewrite join_labels_cons by done. rewrite len_app, len_cons. pose proof (len_nonneg (join_labels a)).
        change (len domainkey) with 10. lia.
      - rewrite join_labels_app, join_labels_cons by done. rewrite !len_app, !len_cons, len_app, len_cons.
        pose proof (len_nonneg (join_labels a)). pose proof (len_nonneg (join_labels b)). change (len domainkey) with 10. lia. }
    assert (has_suffix (t ++ [x2e]) (bs "..") = false) as ->.
    { apply not_true_iff_false. intros (u & E)%has_suffix_spec. change (bs "..") with ([x2e] ++ [x2e]) in E.
      rewrite app_assoc in E. apply app_inj_tail in E as [E _].
      destruct (split_byte_snoc x2e u) as (p & ps & Ep). rewrite <- E, Hs in Ep.
      apply (f_equal (fun l => List.last l [])) in Ep.
      assert (exists x a', a = a' ++ [x]) as (x & a' & ->) by (destruct (exists_last Hne) as (a' & x & ->); eauto).
      rewrite app_comm_cons, app_assoc, !List.last_last in Ep.
      rewrite !Forall_app, Forall_cons in Hl. destruct Hl as (_ & _ & Hx & _). rewrite Ep in Hx. by apply empty_not_label. }
    rewrite (proj2 (Z.ltb_ge _ _)) by lia. rewrite (proj2 (Z.ltb_ge _ _)) by lia. cbn [orb negb].
    rewrite removelast_last, Hs.
    assert (ownerLoop (b ++ domainkey :: a) 0 (-1) = Some (len b)) as ->.
    { apply ownerLoop_iff; [done | ]. exists b, a. split_and!; [done | lia | ].
      eapply Forall_impl; [exact Hl | ]. intros l Hx. apply valid_lower_label; [by apply label_lower | done]. }
    rewrite len_app, len_cons. pose proof (len_nonneg b).
    assert (1 <= len a) by (destruct a; [done | rewrite len_cons; pose proof (len_nonneg a); lia]).
    rewrite (proj2 (Z.ltb_ge _ _)) by lia. rewrite (proj2 (Z.leb_gt _ _)) by lia. cbn [orb].
    destruct b as [|l b]; [done | ]. rewrite (proj2 (Z.eqb_neq _ _)); [done | ]. rewrite len_cons. pose proof (len_nonneg b). lia.
Qed.

(** ** Queries *)
Definition name_within (v : bytes) (maxBytes maxLabels : Z) : Prop :=
  is_domain (ToLower v) /\ len v <= maxBytes /\ len (split_byte x2e v) <= maxLabels.

Lemma canonicalBoundedDNSName_yields v maxBytes maxLabels :
  positiveWithin maxBytes hardMaxNameBytes = true -> positiveWithin maxLabels hardMaxNameLabels = true ->
  yields (as_contract (canonicalBoundedDNSName v maxBytes maxLabels)) (name_within v maxBytes maxLabels) (ToLower v) /\
  no_crash (as_contract (canonicalBoundedDNSName v maxBytes maxLabels)) /\
  as_contract (canonicalBoundedDNSName v maxBytes maxLabels) <> Fail ErrorClassPermanent.
Proof.
  unfold positiveWithin, canonicalBoundedDNSName, name_within. intros Hb Hl.
  assert ((maxBytes <=? 0) || (hardMaxNameBytes <? maxBytes) || (maxLabels <=? 0) || (hardMaxNameLabels <? maxLabels) = false)
    as -> by lia.
  destruct (canonicalDNSName v) as [[d n] | ] eqn:E.
  - apply canonicalDNSName_iff in E as (Hd & -> & ->). rewrite len_lower.
    destruct (Z.ltb_spec maxBytes (len v)), (Z.ltb_spec maxLabels (len (split_byte x2e v))); cbn [orb];
      (split_and!; [ | done | done]); intros x; cbn; (split; [ | intros [(_ & ? & ?) ->]; try lia]); try done.
    + by intros [= <-].
  - split_and!; [ | done | done]. intros x. split; [done | ]. intros [(Hd & _) ->].
    rewrite (proj2 (canonicalDNSName_iff v (ToLower v) (len (split_byte x2e v)))) in E; [done | by split_and!].
Qed.

Lemma selector_owner sd sel :
  is_domain (ToLower sd) -> is_domain (ToLower sel) -> len sel + 12 + len sd <= hardMaxNameBytes ->
  owner ((ToLower sel ++ bs "._domainkey." ++ ToLower sd) ++ [x2e])
    (split_byte x2e (ToLower sel)) (split_byte x2e (ToLower sd)).
Proof.
  intros [_ Hd] [_ Hs] Hlen. unfold owner, owner_text. split_and!.
  - rewrite join_labels_app, join_labels_cons, !join_split by (done || apply split_byte_nonempty). by rewrite <- !app_assoc.
  - apply split_byte_nonempty.
  - by apply Forall_app.
  - rewrite !len_app, !len_lower. change (len (bs "._domainkey.")) with 12. change (len [x2e]) with 1. lia.
Qed.
Lemma policy_owner sd :
  is_domain (ToLower sd) -> 11 + len sd <= hardMaxNameBytes ->
  owner ((bs "_domainkey." ++ ToLower sd) ++ [x2e]) [] (split_byte x2e (ToLower sd)).
Proof.
  intros [_ Hd] Hlen. unfold owner, owner_text. split_and!.
  - cbn [app]. rewrite join_labels_cons, join_split by apply split_byte_nonempty. done.
  - apply split_byte_nonempty.
  - done.
  - rewrite !len_app, len_lower. change (len (bs "_domainkey.")) with 11. change (len [x2e]) with 1. lia.
Qed.

Lemma limits_names l :
  limits_within l = true ->
  positiveWithin (MaxSelectorBytes l) hardMaxNameBytes = true /\ positiveWithin (MaxSelectorLabels l) hardMaxNameLabels = true /\
  positiveWithin (MaxSigningDomainBytes l) hardMaxNameBytes = true /\
  positiveWithin (MaxSigningDomainLabels l) hardMaxNameLabels = true /\ MaxOwnerBytes l <= hardMaxNameBytes.
Proof. unfold limits_within, positiveWithin. rewrite !andb_true_iff. lia. Qed.

(** The conditions of a query, apart from the length of its owner. *)
Definition query_names (sd sel : bytes) (alg : Algorithm) (l : Limits) : Prop :=
  limits_within l = true /\ Algorithm_Known alg = true /\
  name_within sd (MaxSigningDomainBytes l) (MaxSigningDomainLabels l) /\
  name_within sel (MaxSelectorBytes l) (MaxSelectorLabels l).
Definition query_of (sd sel : bytes) (alg : Algorithm) : Query :=
  let presentation := ToLower sel ++ bs "._domainkey." ++ ToLower sd in
  MkQuery (ToLower sd) (ToLower sel) alg presentation (presentation ++ [x2e]).

Lemma NewQuery_cases sd sel alg l :
  (query_names sd sel alg l /\ len sel + 12 + len sd <= MaxOwnerBytes l /\
     NewQuery sd sel alg l = Ret (query_of sd sel alg)) \/
  (query_names sd sel alg l /\ MaxOwnerBytes l < len sel + 12 + len sd /\
     NewQuery sd sel alg l = Fail ErrorClassPermanent) \/
  (~ query_names sd sel alg l /\ NewQuery sd sel alg l = Fail ErrorClassContract).
Proof.
  unfold NewQuery, query_names, Limits_Validate.
  destruct (limits_within l) eqn:El; [ | right; right; split; [by intros [? _] | done]].
  destruct (Algorithm_Known alg) eqn:Ea; [ | right; right; split; [by intros (_ & ? & _) | done]].
  destruct (limits_names l El) as (Hs1 & Hs2 & Hd1 & Hd2 & Ho). cbn [require is_ret andb obind].
  destruct (canonicalBoundedDNSName_yields sd _ _ Hd1 Hd2) as (Yd & Nd & Pd).
  destruct (canonicalBoundedDNSName_yields sel _ _ Hs1 Hs2) as (Ys & Ns & Ps).
  unfold CanonicalSigningDomain, CanonicalSelector.
  destruct (as_contract (canonicalBoundedDNSName sd _ _)) as [d | [ | ] | ]; [ | | done | done]; cbn [obind].
  2: { right; right. split; [ | done]. intros (_ & _ & Hsd & _). by apply (yields_Ret _ _ _ Yd) in Hsd. }
  destruct (proj1 (Yd d) eq_refl) as [Hsd ->].
  destruct (as_contract (canonicalBoundedDNSName sel _ _)) as [s | [ | ] | ]; [ | | done | done]; cbn [obind].
  2: { right; right. split; [ | done]. intros (_ & _ & _ & Hsl). by apply (yields_Ret _ _ _ Ys) in Hsl. }
  destruct (proj1 (Ys s) eq_refl) as [Hsl ->].
  assert (len (ToLower sel ++ bs "._domainkey." ++ ToLower sd) = len sel + 12 + len sd) as Hlen
    by (rewrite !len_app, !len_lower; change (len (bs "._domainkey.")) with 12; lia).
  rewrite Hlen. destruct (Z.ltb_spec (MaxOwnerBytes l) (len sel + 12 + len sd)) as [Hlt | Hle]; cbn [orb negb require obind].
  { right; left. by split_and!. }
  rewrite (proj2 (Z.ltb_ge _ _)) by lia. cbn [negb require obind].
  destruct (selector_owner sd sel) as (Hown & Hrest); [apply Hsd | apply Hsl | lia | ].
  unfold ValidAbsoluteOwner_kind. rewrite bool_decide_eq_true_2.
  - left. by split_and!.
  - apply ClassifyAbsoluteOwner_iff. eexists _, _. split; [by split | ].
    destruct (split_byte x2e (ToLower sel)) eqn:E; [by apply split_byte_nonempty in E | done].
Qed.

Lemma NewDomainPolicyQuery_Ret d l q :
  NewDomainPolicyQuery d l = Ret q ->
  q = MkPolicyQuery (ToLower d) ((bs "_domainkey." ++ ToLower d) ++ [x2e]) /\
  ClassifyAbsoluteOwner (dq_absoluteName q) = Some OwnerKindDomainPolicy.
Proof.
  unfold NewDomainPolicyQuery, Limits_Validate. destruct (limits_within l) eqn:El; [ | done].
  destruct (limits_names l El) as (_ & _ & Hd1 & Hd2 & Ho). cbn [require as_contract map_fail obind].
  destruct (canonicalBoundedDNSName_yields d _ _ Hd1 Hd2) as (Yd & _ & _). unfold CanonicalSigningDomain. intros H.
  apply obind_ret_inv in H as (d' & [_ ->]%Yd & H).
  apply obind_ret_inv in H as (? & _ & H). apply obind_ret_inv in H as (? & Hk%require_ret_inv & [= <-]).
  split; [done | ]. by apply bool_decide_eq_true in Hk.
Qed.

(** A query is built exactly when the limits hold, the algorithm is known
    and both names are domains up to letter case within their bounds; a query
    whose names are fine but whose owner is too long is the permanent error,
    everything else the contract error, and nothing panics.  The owner is the
    folded selector, the _domainkey label and the folded domain, and it is
    always classified as a selector owner. *)
Theorem NewQuery_exact sd sel alg l :
  (forall q, NewQuery sd sel alg l = Ret q <->
     query_names sd sel alg l /\ len sel + 12 + len sd <= MaxOwnerBytes l /\ q = query_of sd sel alg) /\
  (NewQuery sd sel alg l = Fail ErrorClassPermanent <->
     query_names sd sel alg l /\ MaxOwnerBytes l < len sel + 12 + len sd) /\
  no_crash (NewQuery sd sel alg l) /\
  (forall q, NewQuery sd sel alg l = Ret q -> ClassifyAbsoluteOwner (q_absoluteName q) = Some OwnerKindSelector).
Proof.
  assert (forall q, NewQuery sd sel alg l = Ret q -> ClassifyAbsoluteOwner (q_absoluteName q) = Some OwnerKindSelector) as Hcl.
  { intros q Hq. destruct (NewQuery_cases sd sel alg l) as [(Hn & Hlen & E) | [(_ & _ & E) | (_ & E)]]; rewrite E in Hq; try done.
    injection Hq as <-. destruct Hn as (Hl & _ & Hd & Hs). pose proof (limits_names l Hl) as (_ & _ & _ & _ & Ho).
    apply ClassifyAbsoluteOwner_iff. eexists _, _. split; [apply selector_owner; [apply Hd | apply Hs | lia] | ].
    destruct (split_byte x2e (ToLower sel)) eqn:Es; [by apply split_byte_nonempty in Es | done]. }
  destruct (NewQuery_cases sd sel alg l) as [(Hn & Hlen & E) | [(Hn & Hlen & E) | (Hn & E)]]; rewrite E in *;
    (split_and!; [intros q | | done | done]); split; try done; try tauto; try lia.
  - by intros [= <-].
  - by intros (_ & _ & ->).
Qed.

(** Queries for different names have different owners, and the owner of a
    policy query is never that of a key query, so cached keys and policies
    share no cache key. *)
Theorem query_owners_distinct sd sel alg l sd' sel' alg' l' d q q' p :
  NewQuery sd sel alg l = Ret q -> NewQuery sd' sel' alg' l' = Ret q' -> NewDomainPolicyQuery d l = Ret p ->
  (q_absoluteName q = q_absoluteName q' <-> ToLower sd = ToLower sd' /\ ToLower sel = ToLower sel') /\
  q_absoluteName q <> dq_absoluteName p.
Proof.
  assert (forall sd sel alg l q, NewQuery sd sel alg l = Ret q -> is_domain (ToLower sd) /\ is_domain (ToLower sel) /\
    len sel + 12 + len sd <= hardMaxNameBytes /\ q = query_of sd sel alg) as Hq.
  { clear. intros sd sel alg l q H.
    destruct (NewQuery_cases sd sel alg l) as [((Hl & _ & Hd & Hs) & Hlen & E) | [(_ & _ & E) | (_ & E)]]; rewrite E in H; try done.
    pose proof (limits_names l Hl) as (_ & _ & _ & _ & Ho). injection H as <-. split_and!; [apply Hd | apply Hs | lia | done]. }
  intros (Hd & Hs & Hlen & ->)%Hq (Hd' & Hs' & Hlen' & ->)%Hq [-> Hp]%NewDomainPolicyQuery_Ret.
  pose proof (selector_owner sd sel Hd Hs Hlen) as (E1 & _ & Hl1 & _).
  pose proof (selector_owner sd' sel' Hd' Hs' Hlen') as (E2 & _ & Hl2 & _).
  split; [split | ].
  - cbn [query_of q_absoluteName]. rewrite E1, E2. unfold owner_text. intros [E _]%app_inj_tail.
    apply (f_equal (split_byte x2e)) in E. rewrite (proj1 (owner_labels _ _ Hl1)), (proj1 (owner_labels _ _ Hl2)) in E.
    assert (forall b a b' a', Forall is_label b -> Forall is_label b' -> b ++ domainkey :: a = b' ++ domainkey :: a' ->
              b = b' /\ a = a') as Hinj.
    { clear. induction b as [|x b IH]; intros a [|x' b'] a' Hb Hb' E; cbn in E.
      - by injection E as ->.
      - injection E as <- _. apply Forall_cons in Hb' as [H _]. by apply domainkey_not_label in H.
      - injection E as -> _. apply Forall_cons in Hb as [H _]. by apply domainkey_not_label in H.
      - injection E as <- E. apply Forall_cons in Hb as [_ Hb], Hb' as [_ Hb'].
        destruct (IH a b' a' Hb Hb' E) as [-> ->]. done. }
    apply Forall_app in Hl1 as [Hl1 _], Hl2 as [Hl2 _]. apply Hinj in E as [Eb Ea]; [ | done | done].
    by rewrite <- (join_split (ToLower sd)), <- (join_split (ToLower sel)), Ea, Eb, !join_split.
  - intros [Ed Es]. cbn. by rewrite Ed, Es.
  - intros E. rewrite <- E in Hp. cbn [query_of q_absoluteName] in Hp.
    assert (ClassifyAbsoluteOwner ((ToLower sel ++ bs "._domainkey." ++ ToLower sd) ++ [x2e]) = Some OwnerKindSelector) as Hc.
    { apply ClassifyAbsoluteOwner_iff. eexists _, _. split; [by apply selector_owner | ].
      destruct (split_byte x2e (ToLower sel)) eqn:Es; [by apply split_byte_nonempty in Es | done]. }
    congruence.
Qed.

Lemma query_owners_distinct_witness :
  exists q q' p,
    NewQuery (bs "Example.org") (bs "s1.East") AlgorithmRSASHA256 DefaultLimits = Ret q /\
    NewQuery (bs "east.example.org") (bs "s1") AlgorithmRSASHA256 DefaultLimits = Ret q' /\
    NewDomainPolicyQuery (bs "Example.org") DefaultLimits = Ret p /\
    q_absoluteName q = bs "s1.east._domainkey.example.org." /\ q_absoluteName q <> dq_absoluteName p.
Proof.
  do 3 eexists. split_and!; [vm_compute; reflexivity | vm_compute; reflexivity | vm_compute; reflexivity | reflexivity | ].
  refine (proj2 (query_owners_distinct (bs "Example.org") (bs "s1.East") AlgorithmRSASHA256 DefaultLimits
    (bs "east.example.org") (bs "s1") AlgorithmRSASHA256 DefaultLimits (bs "Example.org") _ _ _ _ _ _));
    vm_compute; reflexivity.
Defined.
