(* ===== verification/KeyRecord.v ===== *)
(** * Package internal/keyresolver: key records and policy records

    version.go, record.go, key.go and the parser of domain_policy.go.  The DER
    decoders and ML-DSA key construction are the parameters of Crypto.v. *)

From stdpp Require Import gmap.
From S2P Require Import Prelude GoBytes TagTypes TagScan TagBase64 Crypto SigAlgorithm KeyTypes.
#[local] Open Scope Z_scope.

(** ** version.go *)
Definition dkim1Version : bytes := bs "DKIM1".
Definition isTXTWhitespace (b : byte) : bool := (b =?b x20) || (b =?b x09).
Definition skipTXTWhitespace (payload : bytes) : bytes := drop_while isTXTWhitespace payload.
(** The text up to the first semicolon, without the white space at its end. *)
Definition versionText (rest : bytes) : bytes :=
  let text := match index_byte rest x3b with Some i => take i rest | None => rest end in
  reverse (drop_while isTXTWhitespace (reverse text)).
Definition leadingVersion (payload : bytes) : option bytes :=
  match skipTXTWhitespace payload with
  | v :: rest =>
      if v =?b x76 then
        match skipTXTWhitespace rest with
        | eq :: rest => if eq =?b x3d then Some (versionText (skipTXTWhitespace rest)) else None
        | [] => None
        end
      else None
  | [] => None
  end.
Definition foreignVersionRecord (payload : bytes) : bool :=
  match leadingVersion payload with Some version => negb (bytes_equal version dkim1Version) | None => false end.
Definition domainPolicyRecordCandidate (payload : bytes) : bool :=
  match leadingVersion payload with Some version => bytes_equal version dkim1Version | None => false end.

(** ** record.go *)
Inductive KeyType := KeyTypeUnset | KeyTypeRSA | KeyTypeEd25519 | KeyTypeMLDSA44 | KeyTypeUnsupported.
Inductive RecordStatus := RecordStatusUnset | RecordStatusKeyData | RecordStatusRevoked | RecordStatusUnsupportedKeyType.
#[export] Instance KeyType_eq_dec : EqDecision KeyType.
Proof. solve_decision. Defined.
#[export] Instance RecordStatus_eq_dec : EqDecision RecordStatus.
Proof. solve_decision. Defined.
Inductive RecordErrorCode :=
  | RecordErrorContract | RecordErrorInvalidSyntax | RecordErrorLimitExceeded | RecordErrorInvalidVersion
  | RecordErrorMissingPublicKey | RecordErrorInvalidKeyType | RecordErrorInvalidPublicKeyData.
#[export] Instance RecordErrorCode_eq_dec : EqDecision RecordErrorCode.
Proof. solve_decision. Defined.

Definition DNSDraftIdentifier : bytes := bs "draft-ietf-dkim-dkim2-dns-02".
Record KeyRecord := MkRecord {
  rec_draft : bytes; rec_status : RecordStatus; rec_keyType : KeyType; rec_publicKey : bytes; rec_initialized : bool }.
Definition zeroRecord : KeyRecord := MkRecord [] RecordStatusUnset KeyTypeUnset [] false.
Definition parsedRecord (status : RecordStatus) (keyType : KeyType) (publicKey : bytes) : KeyRecord :=
  MkRecord DNSDraftIdentifier status keyType publicKey true.
Definition KeyType_Known (k : KeyType) : bool := negb (bool_decide (k = KeyTypeUnset)).
Definition RecordStatus_Known (s : RecordStatus) : bool := negb (bool_decide (s = RecordStatusUnset)).
Definition Record_Valid (r : KeyRecord) : bool :=
  if negb (rec_initialized r) || negb (bytes_equal (rec_draft r) DNSDraftIdentifier) ||
     negb (RecordStatus_Known (rec_status r)) || negb (KeyType_Known (rec_keyType r))
  then false
  else
    match rec_status r with
    | RecordStatusKeyData =>
        match rec_keyType r with
        | KeyTypeRSA | KeyTypeEd25519 | KeyTypeMLDSA44 => 0 <? len (rec_publicKey r)
        | _ => false
        end
    | RecordStatusRevoked => len (rec_publicKey r) =? 0
    | RecordStatusUnsupportedKeyType => bool_decide (rec_keyType r = KeyTypeUnsupported) && (len (rec_publicKey r) =? 0)
    | RecordStatusUnset => false
    end.

Definition known_tags (names : list bytes) : KnownTags :=
  match NewKnownTags names with Ret k => k | _ => MkKnown ∅ end.
Definition dnsRecordTags : KnownTags := known_tags [bs "v"; bs "h"; bs "k"; bs "n"; bs "p"; bs "s"].
Definition domainPolicyTags : KnownTags := known_tags [bs "v"; bs "f"].
Definition recordTagLimits (limits : Limits) : TagTypes.Limits :=
  TagTypes.MkLimits (MaxTXTRecordBytes limits) (MaxTags limits) (MaxTagNameBytes limits) (MaxTagValueBytes limits)
    (MaxDecodedKeyBytes limits).

Definition is_limit_error (err : Error) : bool :=
  match code err with ErrorCodeLimitExceeded => true | _ => false end.
Definition mappedScannerError (err : Error) : RecordErrorCode :=
  if is_limit_error err then RecordErrorLimitExceeded else RecordErrorInvalidSyntax.
Definition mappedKeyDataError (err : Error) : RecordErrorCode :=
  if is_limit_error err then RecordErrorLimitExceeded else RecordErrorInvalidPublicKeyData.
(** field.Get; the scanner's fields never make it panic. *)
Definition getTag (field : Field) (name : bytes) : outcome RecordErrorCode (option Tag) :=
  map_fail mappedScannerError (Field_Get field name).

Definition asciiAlpha (b : byte) : bool := in_range x61 b x7a || in_range x41 b x5a.
Definition asciiAlphaDigit (b : byte) : bool := asciiAlpha b || in_range x30 b x39.
Definition validHyphenatedWord (value : bytes) : bool :=
  match value with
  | [] => false
  | first :: _ =>
      asciiAlpha first && asciiAlphaDigit (List.last value first) &&
      forallb (fun b => asciiAlphaDigit b || (b =?b x2d)) (interior value)
  end.
Definition parsedKeyType (field : Field) : outcome RecordErrorCode KeyType :=
  let* tag := getTag field (bs "k") in
  match tag with
  | None => Ret KeyTypeRSA
  | Some tag =>
      let value := tag_value tag in
      if bytes_equal value (bs "rsa") then Ret KeyTypeRSA
      else if bytes_equal value (bs "ed25519") then Ret KeyTypeEd25519
      else if bytes_equal value (bs "mldsa44") then Ret KeyTypeMLDSA44
      else check require (validHyphenatedWord value) RecordErrorInvalidKeyType ;; Ret KeyTypeUnsupported
  end.

(** The first tag is v= and its value is DKIM1. *)
Definition leads_with_version (ts : list Tag) (version : Tag) : bool :=
  match ts with t :: _ => bytes_equal (tag_name t) (bs "v") && bytes_equal (tag_value version) dkim1Version | [] => false end.

Definition ParseRecord (input : bytes) (limits : Limits) : outcome RecordErrorCode KeyRecord :=
  check map_fail (fun _ => RecordErrorContract) (Limits_Validate limits) ;;
  let* field := map_fail mappedScannerError (Scan input dnsRecordTags (recordTagLimits limits)) in
  let* version := getTag field (bs "v") in
  check (match version with
         | Some version => require (leads_with_version (tags field) version) RecordErrorInvalidVersion
         | None => Ret tt
         end) ;;
  let* publicKeyTag := getTag field (bs "p") in
  match publicKeyTag with
  | None => Fail RecordErrorMissingPublicKey
  | Some publicKeyTag =>
      let* keyType := parsedKeyType field in
      if bytes_equal (tag_value publicKeyTag) [] then Ret (parsedRecord RecordStatusRevoked keyType [])
      else
        let* parsed := map_fail mappedKeyDataError
                         (ParseOptionalPaddingBase64String (tag_value publicKeyTag) (recordTagLimits limits)) in
        if decide (keyType = KeyTypeUnsupported) then Ret (parsedRecord RecordStatusUnsupportedKeyType keyType [])
        else Ret (parsedRecord RecordStatusKeyData keyType (TagBase64.decoded parsed))
  end.

(** ** domain_policy.go: the record *)
Definition domainPolicyStrictFlag : bytes := bs "strict".
Definition wsp_trim (s : bytes) : bytes := trim_bytes isTXTWhitespace s.
Record DomainPolicyRecord := MkPolicyRecord { pr_strict : bool; pr_initialized : bool }.
Definition Strict (r : DomainPolicyRecord) : bool := pr_initialized r && pr_strict r.
Definition ParseDomainPolicyRecord (input : bytes) (limits : Limits) : outcome RecordErrorCode DomainPolicyRecord :=
  check map_fail (fun _ => RecordErrorContract) (Limits_Validate limits) ;;
  let* field := map_fail mappedScannerError (Scan input domainPolicyTags (recordTagLimits limits)) in
  let* version := getTag field (bs "v") in
  check (match version with
         | Some version => require (leads_with_version (tags field) version) RecordErrorInvalidVersion
         | None => Fail RecordErrorInvalidVersion
         end) ;;
  let* flags := getTag field (bs "f") in
  match flags with
  | Some flags =>
      Ret (MkPolicyRecord
             (existsb (fun flag => bytes_equal (wsp_trim flag) domainPolicyStrictFlag) (split_byte x3a (tag_value flags)))
             true)
  | None => Ret (MkPolicyRecord false true)
  end.

(** ** key.go *)
Inductive KeyOutcomeStatus :=
  | KeyOutcomeUnset | KeyOutcomeFound | KeyOutcomeRevoked | KeyOutcomeInvalid | KeyOutcomeUnsupportedKeyType
  | KeyOutcomeAlgorithmMismatch | KeyOutcomeMissing | KeyOutcomeAmbiguous | KeyOutcomeTemporary | KeyOutcomePermanent
  | KeyOutcomeProviderContract.
#[export] Instance KeyOutcomeStatus_eq_dec : EqDecision KeyOutcomeStatus.
Proof. solve_decision. Defined.
Definition KeyOutcomeStatus_Known (s : KeyOutcomeStatus) : bool := negb (bool_decide (s = KeyOutcomeUnset)).

Record KeyOutcome := MkOutcome {
  ko_status : KeyOutcomeStatus; ko_algorithm : Algorithm; ko_material : Material; ko_initialized : bool }.
Definition zeroOutcome : KeyOutcome := MkOutcome KeyOutcomeUnset [] NilMaterial false.
Definition material_is_nil (m : Material) : bool := match m with NilMaterial => true | _ => false end.
Definition KeyOutcome_Valid (o : KeyOutcome) : bool :=
  if negb (ko_initialized o) || negb (KeyOutcomeStatus_Known (ko_status o)) || negb (Algorithm_Known (ko_algorithm o))
  then false
  else
    match ko_status o with
    | KeyOutcomeFound =>
        if bytes_equal (ko_algorithm o) AlgorithmRSASHA256 then
          match ko_material o with RSAKey key => ValidRSAPublicKeyStructure key | _ => false end
        else if bytes_equal (ko_algorithm o) AlgorithmEd25519SHA256 then
          match ko_material o with Ed25519Key key => len key =? ed25519_PublicKeySize | _ => false end
        else if bytes_equal (ko_algorithm o) AlgorithmMLDSA44 then
          is_ret (ValidatePublicKey AlgorithmMLDSA44 (ko_material o) Crypto.DefaultLimits)
        else false
    | KeyOutcomeUnset => false
    | _ => material_is_nil (ko_material o)
    end.
Definition KeyOutcome_IsZero (o : KeyOutcome) : bool :=
  negb (ko_initialized o) && bool_decide (ko_status o = KeyOutcomeUnset) && bytes_equal (ko_algorithm o) [] &&
  material_is_nil (ko_material o).
Definition newStatusOutcome (status : KeyOutcomeStatus) (algorithm : Algorithm) : KeyOutcome :=
  MkOutcome status algorithm NilMaterial true.
(** cache.go *)
Definition cloneKeyOutcome (o : KeyOutcome) : KeyOutcome :=
  if negb (KeyOutcome_Valid o) then zeroOutcome
  else MkOutcome (ko_status o) (ko_algorithm o) (ClonePublicKey (ko_material o)) true.

Definition keyTypeMatchesAlgorithm (keyType : KeyType) (algorithm : Algorithm) : bool :=
  match keyType with
  | KeyTypeRSA => bytes_equal algorithm AlgorithmRSASHA256
  | KeyTypeEd25519 => bytes_equal algorithm AlgorithmEd25519SHA256
  | KeyTypeMLDSA44 => bytes_equal algorithm AlgorithmMLDSA44
  | KeyTypeUnsupported | KeyTypeUnset => false
  end.

Section decoders.
Variable x509_ParsePKCS1PublicKey : bytes -> option RSAPublicKey.
Variable x509_ParsePKIXPublicKey : bytes -> option Material.
Variable mldsa_NewPublicKey : bytes -> option MLDSAPublicKey.
Variable mldsa_available : bool.

Definition decodeRSAPublicKey (data : bytes) : option RSAPublicKey :=
  match x509_ParsePKCS1PublicKey data with
  | Some key => if ValidRSAPublicKeyStructure (Some key) then Some key else None
  | None =>
      match x509_ParsePKIXPublicKey data with
      | Some (RSAKey key) => if negb (ValidRSAPublicKeyStructure key) then None else key
      | _ => None
      end
  end.
Definition DecodeKey (record : KeyRecord) (requested : Algorithm) : outcome ErrorClass KeyOutcome :=
  check require (Record_Valid record && Algorithm_Known requested) ErrorClassContract ;;
  let base status material := Ret (MkOutcome status requested material true) in
  match rec_status record with
  | RecordStatusRevoked => base KeyOutcomeRevoked NilMaterial
  | RecordStatusUnsupportedKeyType => base KeyOutcomeUnsupportedKeyType NilMaterial
  | RecordStatusUnset => Fail ErrorClassContract
  | RecordStatusKeyData =>
      if negb (keyTypeMatchesAlgorithm (rec_keyType record) requested) then base KeyOutcomeAlgorithmMismatch NilMaterial
      else
        let data := rec_publicKey record in
        if bytes_equal requested AlgorithmRSASHA256 then
          match decodeRSAPublicKey data with
          | None => base KeyOutcomeInvalid NilMaterial
          | Some key => base KeyOutcomeFound (ClonePublicKey (RSAKey (Some key)))
          end
        else if bytes_equal requested AlgorithmEd25519SHA256 then
          if negb (len data =? ed25519_PublicKeySize) then base KeyOutcomeInvalid NilMaterial
          else base KeyOutcomeFound (Ed25519Key data)
        else if bytes_equal requested AlgorithmMLDSA44 then
          match ParseMLDSA44PublicKey mldsa_NewPublicKey mldsa_available data with
          | Ret key => base KeyOutcomeFound (MLDSAKey (Some key))
          | _ => base KeyOutcomeInvalid NilMaterial
          end
        else Fail ErrorClassContract
  end.
End decoders.

Definition sample_record : bytes := bs "v=DKIM1; k=ed25519; t=s; p=AQEBAQEBAQEBAQEBAQEBAQEBAQEBAQEBAQEBAQEBAQE".
Example record_samples :
  ParseRecord sample_record DefaultLimits = Ret (parsedRecord RecordStatusKeyData KeyTypeEd25519 (repeat x01 32)) /\
  ParseRecord (bs "p=") DefaultLimits = Ret (parsedRecord RecordStatusRevoked KeyTypeRSA []) /\
  ParseRecord (bs "p=; v=DKIM1") DefaultLimits = Fail RecordErrorInvalidVersion /\
  ParseRecord (bs "k=x25519-y; p=AQ") DefaultLimits = Ret (parsedRecord RecordStatusUnsupportedKeyType KeyTypeUnsupported []) /\
  ParseRecord (bs "v=DKIM1") DefaultLimits = Fail RecordErrorMissingPublicKey /\
  ParseDomainPolicyRecord (bs "v=DKIM1; f= x : strict ") DefaultLimits = Ret (MkPolicyRecord true true) /\
  foreignVersionRecord (bs " v = DKIM2 ; p=") = true /\ foreignVersionRecord (bs "p=; v=DKIM2") = false.
Proof. split_and!; vm_compute; reflexivity. Qed.
