(* ===== verification/KeyRecordSpec.v ===== *)
(** * Correctness of the record parsers and of key decoding *)

From stdpp Require Import gmap.
From S2P Require Import Prelude GoBytes GoBase64 TagTypes TagScan TagBase64 Crypto SigAlgorithm KeyTypes KeyRecord.
#[local] Open Scope Z_scope.

(** ** Reading a scanned field *)
Definition tag_at (ts : list Tag) (n : bytes) (o : option Tag) : Prop :=
  forall t, o = Some t <-> t ∈ ts /\ tag_name t = n.
Lemma getTag_field_of ts n :
  NoDup (tag_name <$> ts) -> exists o, getTag (field_of ts) n = Ret o /\ tag_at ts n o.
Proof.
  intros Hnd. destruct (Field_Get_field_of ts n Hnd) as (o & E & Ho). exists o. split; [ | done].
  unfold getTag. by rewrite E.
Qed.

Lemma recordTagLimits_ok limits :
  limits_within limits = true ->
  TagTypes.Limits_normalize (recordTagLimits limits) = recordTagLimits limits /\
  TagTypes.Limits_Validate (recordTagLimits limits) = Ret tt.
Proof.
  unfold limits_within, positiveWithin. rewrite !andb_true_iff. intros H.
  assert (0 < MaxTXTRecordBytes limits /\ 0 < MaxTags limits /\ 0 < MaxTagNameBytes limits /\
          0 < MaxTagValueBytes limits /\ 0 < MaxDecodedKeyBytes limits) as (H1 & H2 & H3 & H4 & H5) by lia.
  unfold TagTypes.Limits_normalize, TagTypes.Limits_Validate, recordTagLimits, default_if_zero. cbn.
  rewrite !(proj2 (Z.eqb_neq _ 0)) by lia. split; [done | ].
  by rewrite !(proj2 (Z.ltb_lt 0 _)) by lia.
Qed.

(** The tags of a TXT payload within the limits. *)
Definition record_tags (known : KnownTags) (limits : Limits) (input : bytes) (ts : list Tag) : Prop :=
  len input <= MaxTXTRecordBytes limits /\
  exists text, unfoldDNSFWS input = Ret text /\ tag_list known (recordTagLimits limits) scanModeDNS text (field_of ts).

Lemma tag_list_tags known L mode text ts : tag_list known L mode text (field_of ts) -> NoDup (tag_name <$> ts) /\ ts <> [].
Proof.
  intros (ts' & texts & tail & _ & _ & _ & Hne & Hnd & _ & E).
  apply (f_equal TagScan.tags) in E. rewrite !tags_field_of in E. by subst.
Qed.
Lemma Scan_tags known limits input f :
  limits_within limits = true ->
  Scan input known (recordTagLimits limits) = Ret f <-> exists ts, record_tags known limits input ts /\ f = field_of ts.
Proof.
  intros Hl. destruct (recordTagLimits_ok limits Hl) as [En Ev]. unfold Scan. rewrite scan_iff. rewrite En. split.
  - intros (_ & Hlen & text & Ht & Htl). destruct (Htl) as (ts & texts & tail & _ & _ & _ & _ & _ & _ & ->).
    exists ts. split; [ | done]. split; [done | ]. by exists text.
  - intros (ts & (Hlen & text & Ht & Htl) & ->). split_and!; [done | done | ]. by exists text.
Qed.

(** ** What a key record means *)
Definition is_word_value (v : bytes) : Prop :=
  exists a rest z, (v = [a] /\ z = a \/ v = a :: rest ++ [z]) /\ asciiAlpha a = true /\ asciiAlphaDigit z = true /\
    Forall (fun b => asciiAlphaDigit b || (b =?b x2d) = true) rest.
Definition key_type (ts : list Tag) (kt : KeyType) : Prop :=
  ((forall t, t ∈ ts -> tag_name t <> bs "k") /\ kt = KeyTypeRSA) \/
  exists t, t ∈ ts /\ tag_name t = bs "k" /\
    ((tag_value t = bs "rsa" /\ kt = KeyTypeRSA) \/ (tag_value t = bs "ed25519" /\ kt = KeyTypeEd25519) \/
     (tag_value t = bs "mldsa44" /\ kt = KeyTypeMLDSA44) \/
     (tag_value t ∉ [bs "rsa"; bs "ed25519"; bs "mldsa44"] /\ is_word_value (tag_value t) /\ kt = KeyTypeUnsupported)).
Definition version_first (ts : list Tag) : Prop :=
  forall v, v ∈ ts -> tag_name v = bs "v" -> head ts = Some v /\ tag_value v = dkim1Version.
Definition record_of_tags (limits : Limits) (ts : list Tag) (r : KeyRecord) : Prop :=
  version_first ts /\
  exists p kt, p ∈ ts /\ tag_name p = bs "p" /\ key_type ts kt /\
    ((tag_value p = [] /\ r = parsedRecord RecordStatusRevoked kt []) \/
     (tag_value p <> [] /\ exists d, d <> [] /\ len d <= MaxDecodedKeyBytes limits /\
        b64_text true (stripBase64FWS (tag_value p)) d /\
        r = if decide (kt = KeyTypeUnsupported) then parsedRecord RecordStatusUnsupportedKeyType kt []
            else parsedRecord RecordStatusKeyData kt d)).

Lemma validHyphenatedWord_iff v : validHyphenatedWord v = true <-> is_word_value v.
Proof.
  unfold validHyphenatedWord, is_word_value, interior. destruct v as [|a v].
  { split; [done | ]. by intros (? & ? & ? & [[? _] | ?] & _). }
  rewrite !andb_true_iff. destruct (decide (v = [])) as [-> | Hne].
  - cbn. split.
    + intros [[H1 H2] _]. exists a, [], a. split_and!; auto.
    + intros (a' & r & z & [[[= <-] ->] | E] & H1 & H2 & _); [done | ]. injection E as -> E. by destruct r.
  - destruct (exists_last Hne) as (m & z & ->). rewrite app_comm_cons, List.last_last. cbn [tail app]. rewrite removelast_last.
    rewrite forallb_forall. setoid_rewrite <- list_elem_of_In. rewrite <- list.Forall_forall. split.
    + intros [[H1 H2] H3]. exists a, m, z. split_and!; auto.
    + intros (a' & r & z' & [[E _] | E] & H1 & H2 & H3); [by destruct m | ].
      injection E as <- E. apply app_inj_tail in E as [<- <-]. done.
Qed.

Lemma parsedKeyType_iff ts kt :
  NoDup (tag_name <$> ts) -> parsedKeyType (field_of ts) = Ret kt <-> key_type ts kt.
Proof.
  intros Hnd. unfold parsedKeyType, key_type. destruct (getTag_field_of ts (bs "k") Hnd) as (o & -> & Ho). cbn [obind].
  destruct o as [t | ].
  - destruct (proj1 (Ho t) eq_refl) as [Ht Hn].
    assert (forall t', t' ∈ ts -> tag_name t' = bs "k" -> t' = t) as Huniq.
    { intros t' H1 H2. specialize (proj2 (Ho t') (conj H1 H2)). by intros [= <-]. }
    assert (forall P, (exists t', t' ∈ ts /\ tag_name t' = bs "k" /\ P t') <-> P t) as Hex.
    { intros P. split; [intros (t' & H1 & H2 & H3); by rewrite <- (Huniq t' H1 H2) | intros H; by exists t]. }
    rewrite (Hex (fun t => _)). assert (~ ((forall t0, t0 ∈ ts -> tag_name t0 <> bs "k") /\ kt = KeyTypeRSA)) as Hno
      by (intros [H _]; by apply (H t)).
    destruct (bytes_equal (tag_value t) (bs "rsa")) eqn:E1; [apply bytes_equal_eq in E1; rewrite E1 | ].
    { split; [intros [= <-]; right; by left | ]. intros [? | [[_ ->] | [[? _] | [[? _] | [H _]]]]]; try done.
      exfalso. apply H. apply list_elem_of_here. }
    destruct (bytes_equal (tag_value t) (bs "ed25519")) eqn:E2; [apply bytes_equal_eq in E2; rewrite E2 | ].
    { split; [intros [= <-]; right; right; by left | ]. intros [? | [[? _] | [[_ ->] | [[? _] | [H _]]]]]; try done.
      exfalso. apply H. apply list_elem_of_further, list_elem_of_here. }
    destruct (bytes_equal (tag_value t) (bs "mldsa44")) eqn:E3; [apply bytes_equal_eq in E3; rewrite E3 | ].
    { split; [intros [= <-]; right; right; right; by left | ]. intros [? | [[? _] | [[? _] | [[_ ->] | [H _]]]]]; try done.
      exfalso. apply H. by do 2 apply list_elem_of_further; apply list_elem_of_here. }
    split.
    + intros H. apply obind_ret_inv in H as (? & Hw%require_ret_inv%validHyphenatedWord_iff & [= <-]).
      right; right; right; right. split_and!; [ | done | done].
      rewrite !elem_of_cons, elem_of_nil. intros [E | [E | [E | []]]];
        first [by rewrite E in E1 | by rewrite E in E2 | by rewrite E in E3].
    + intros [? | [[E ->] | [[E ->] | [[E ->] | (_ & Hw%validHyphenatedWord_iff & ->)]]]]; try done;
        first [by rewrite E in E1 | by rewrite E in E2 | by rewrite E in E3 | by rewrite Hw].
  - assert (forall t, t ∈ ts -> tag_name t <> bs "k") as Hno.
    { intros t H1 H2. by discriminate (proj2 (Ho t) (conj H1 H2)). }
    split; [intros [= <-]; by left | ]. intros [[_ ->] | (t & H1 & H2 & _)]; [done | by apply Hno in H2].
Qed.

Lemma parsedKeyType_safe ts : NoDup (tag_name <$> ts) -> no_crash (parsedKeyType (field_of ts)).
Proof.
  intros Hnd. unfold parsedKeyType. destruct (getTag_field_of ts (bs "k") Hnd) as (o & -> & _). cbn [obind]. crash_free.
Qed.

Lemma leads_with_version_iff ts v :
  NoDup (tag_name <$> ts) -> v ∈ ts -> tag_name v = bs "v" ->
  leads_with_version ts v = true <-> head ts = Some v /\ tag_value v = dkim1Version.
Proof.
  intros Hnd Hv Hn. unfold leads_with_version. destruct ts as [|t ts]; [by apply elem_of_nil in Hv | ].
  rewrite andb_true_iff, !bytes_equal_eq. cbn [head]. split.
  - intros [Ht Hval]. split; [ | done]. apply elem_of_cons in Hv as [-> | Hv]; [done | ].
    rewrite fmap_cons in Hnd. apply NoDup_cons in Hnd as [Hnot _]. exfalso. apply Hnot. rewrite Ht, <- Hn. by apply list_elem_of_fmap_2.
  - intros [[= ->] Hval]. done.
Qed.

Lemma ParseRecord_iff input limits :
  no_crash (ParseRecord input limits) /\
  forall r, ParseRecord input limits = Ret r <->
    limits_within limits = true /\ exists ts, record_tags dnsRecordTags limits input ts /\ record_of_tags limits ts r.
Proof.
  unfold ParseRecord, Limits_Validate. destruct (limits_within limits) eqn:El; [ | split; [done | ]; intros r; split; [done | by intros [? _]]].
  cbn [require map_fail obind]. pose proof (Scan_tags dnsRecordTags limits input) as Hscan.
  destruct (Scan input dnsRecordTags (recordTagLimits limits)) as [f | e | ] eqn:Es; cbn [map_fail obind].
  2: { split; [done | ]. intros r. split; [done | ]. intros (_ & ts & Hts & _).
       by discriminate (proj2 (Hscan _ El) (ex_intro _ ts (conj Hts eq_refl))). }
  2: by apply scan_no_crash in Es.
  destruct (proj1 (Hscan f El) eq_refl) as (ts & Hts & ->).
  assert (NoDup (tag_name <$> ts)) as Hnd by (destruct Hts as (_ & text & _ & H); apply (tag_list_tags _ _ _ _ _ H)).
  assert (forall ts', record_tags dnsRecordTags limits input ts' -> ts' = ts) as Huniq.
  { intros ts' H. assert (Ret (E := Error) (field_of ts) = Ret (field_of ts')) as [= E] by (apply Hscan; [done | by exists ts']).
    apply (f_equal TagScan.tags) in E. by rewrite !tags_field_of in E. }
  assert (forall r, (true = true /\ exists ts, record_tags dnsRecordTags limits input ts /\ record_of_tags limits ts r) <->
    record_of_tags limits ts r) as Hex.
  { intros r. split; [intros (_ & ts' & H1 & H2); by rewrite <- (Huniq ts' H1) | intros H; split; [done | by exists ts]]. }
  setoid_rewrite Hex. clear Hex Huniq. unfold record_of_tags.
  destruct (getTag_field_of ts (bs "v") Hnd) as (ov & -> & Hv). destruct (getTag_field_of ts (bs "p") Hnd) as (op & -> & Hp).
  cbn [obind]. rewrite tags_field_of.
  set (vc := match ov with Some version => require (leads_with_version ts version) RecordErrorInvalidVersion | None => Ret tt end).
  assert (vc = Ret tt <-> version_first ts) as Hvc.
  { unfold vc, version_first. destruct ov as [v | ].
    - destruct (proj1 (Hv v) eq_refl) as [H1 H2]. rewrite (yields_require _ _ tt).
      rewrite (leads_with_version_iff ts v Hnd H1 H2). split.
      + intros [H _] v' H1' H2'. specialize (proj2 (Hv v') (conj H1' H2')). by intros [= <-].
      + intros H. by specialize (H v H1 H2).
    - split; [ | done]. intros _ v H1 H2. by discriminate (proj2 (Hv v) (conj H1 H2)). }
  assert (no_crash vc) as Hvs by (unfold vc; destruct ov; [apply require_no_crash | done]).
  destruct vc as [[] | e | ]; cbn [obind]; [ | | done].
  2: { split; [done | ]. intros r. split; [done | ]. intros [H _]. by discriminate (proj2 Hvc H). }
  destruct op as [p | ].
  2: { split; [done | ]. intros r. split; [done | ]. intros (_ & p & _ & H1 & H2 & _).
       by discriminate (proj2 (Hp p) (conj H1 H2)). }
  destruct (proj1 (Hp p) eq_refl) as [Hpin Hpn].
  pose proof (parsedKeyType_iff ts) as Hkt.
  destruct (parsedKeyType (field_of ts)) as [kt | e | ] eqn:Ek; cbn [obind].
  2: { split; [done | ]. intros r. split; [done | ]. intros (_ & p' & kt & _ & _ & H & _).
       by discriminate (proj2 (Hkt kt Hnd) H). }
  2: by apply parsedKeyType_safe in Ek.
  destruct (recordTagLimits_ok limits El) as [En Ev].
  assert (forall kt', key_type ts kt' -> kt' = kt) as Hku by (intros kt' H; by injection (proj2 (Hkt kt' Hnd) H)).
  assert (forall p', p' ∈ ts -> tag_name p' = bs "p" -> p' = p) as Hpu.
  { intros p' H1 H2. specialize (proj2 (Hp p') (conj H1 H2)). by intros [= <-]. }
  assert (key_type ts kt) as Hk by (by apply Hkt).
  assert (len (tag_value p) <= MaxTagValueBytes limits) as Hplen.
  { destruct Hts as (_ & text & _ & ts' & texts & tail & Hf & _ & _ & _ & _ & _ & E).
    apply (f_equal TagScan.tags) in E. rewrite !tags_field_of in E. subst ts'. apply list_elem_of_lookup in Hpin as [i Hi].
    destruct (Forall2_lookup_l _ _ _ _ _ Hf Hi) as (s & _ & _ & (_ & _ & _ & H & _) & _). exact H. }
  destruct (bytes_equal (tag_value p) []) eqn:Ep.
  { apply bytes_equal_eq in Ep. split; [done | ]. intros r. split.
    - intros [= <-]. split; [by apply Hvc | ]. exists p, kt. split_and!; [done | done | done | by left].
    - intros (_ & p' & kt' & H1 & H2 & H3 & H4). rewrite (Hpu p' H1 H2), (Hku kt' H3) in H4.
      destruct H4 as [[_ ->] | [? _]]; done. }
  assert (tag_value p <> []) as Hpne by (intros E; by rewrite E in Ep).
  pose proof (fun v => parseBase64String_iff (tag_value p) (recordTagLimits limits) true v) as Hb. cbn zeta in Hb. rewrite En in Hb.
  unfold ParseOptionalPaddingBase64String.
  destruct (parseBase64String (tag_value p) (recordTagLimits limits) true) as [v | e | ] eqn:Eb; cbn [map_fail obind].
  3: by apply parseBase64String_no_crash in Eb.
  2: { split; [done | ]. intros r. split; [done | ]. intros (_ & p' & kt' & H1 & H2 & _ & H4). rewrite (Hpu p' H1 H2) in H4.
       destruct H4 as [[? _] | (_ & d & Hd & Hdl & Hdt & _)]; [done | ].
       assert (Fail (A := Base64String) e = Ret (MkB64 (tag_value p) (std_encode d) d)) as ?; [ | done].
       apply Hb. split_and!; [done | done | done | ]. by exists d. }
  destruct (proj1 (Hb v) eq_refl) as (_ & _ & _ & d & Hd & Hdl & Hdt & ->).
  cbn [TagBase64.decoded]. split; [by destruct (decide _) | ]. intros r. split.
  - intros H. split; [by apply Hvc | ]. exists p, kt. split_and!; [done | done | done | right]. split; [done | ].
    exists d. split_and!; [done | done | done | ]. destruct (decide (kt = KeyTypeUnsupported)); by injection H.
  - intros (_ & p' & kt' & H1 & H2 & H3 & H4). rewrite (Hpu p' H1 H2), (Hku kt' H3) in H4.
    destruct H4 as [[? _] | (_ & d' & Hd' & Hdl' & Hdt' & ->)]; [done | ].
    assert (Ret (E := Error) (MkB64 (tag_value p) (std_encode d) d) = Ret (MkB64 (tag_value p) (std_encode d') d')) as [= _ ->].
    { apply Hb. split_and!; [done | done | done | ]. by exists d'. }
    by destruct (decide _).
Qed.

Lemma ParseRecord_sound input limits r :
  ParseRecord input limits = Ret r ->
  limits_within limits = true /\ exists ts, record_tags dnsRecordTags limits input ts /\ record_of_tags limits ts r.
Proof. apply ParseRecord_iff. Qed.

(** C39: ParseRecord never panics, and it returns a record exactly when the
    limits hold and the payload unfolds to a tag list within them whose
    version, if there is one, comes first and is DKIM1, and which has a p=
    tag and an admissible key type; the record is revoked for an empty p=,
    unsupported for another key type, and otherwise carries the bytes that
    the Base64 text of p= denotes. *)
Theorem ParseRecord_refines input limits :
  no_crash (ParseRecord input limits) /\
  forall r, ParseRecord input limits = Ret r <->
    limits_within limits = true /\ exists ts, record_tags dnsRecordTags limits input ts /\ record_of_tags limits ts r.
Proof. apply ParseRecord_iff. Qed.

(** ** Decoding *)
Lemma parsed_valid input limits r : ParseRecord input limits = Ret r -> Record_Valid r = true.
Proof.
  intros (_ & ts & _ & _ & p & kt & _ & _ & Hk & H)%ParseRecord_sound.
  assert (kt <> KeyTypeUnset) as Hne.
  { destruct Hk as [[_ ->] | (t & _ & _ & [[_ ->] | [[_ ->] | [[_ ->] | (_ & _ & ->)]]])]; done. }
  destruct H as [[_ ->] | (_ & d & Hd & _ & _ & ->)].
  - unfold Record_Valid. cbn. by destruct kt.
  - assert (0 < len d) as Hlen by (destruct d; [done | rewrite len_cons; pose proof (len_nonneg d); lia]).
    destruct (decide (kt = KeyTypeUnsupported)) as [-> | Hu]; unfold Record_Valid; cbn; [done | ].
    apply Z.ltb_lt in Hlen. by destruct kt.
Qed.

Section decoding.
Context (pkcs1 : bytes -> option RSAPublicKey) (pkix : bytes -> option Material)
  (mldsa_new : bytes -> option MLDSAPublicKey) (available : bool).
(** crypto/mldsa constructs keys of the requested parameter set only. *)
Context (mldsa_new_parameters : forall raw k, mldsa_new raw = Some k -> mldsa_Parameters k = MLDSA44).

Lemma decodeRSAPublicKey_valid data key :
  decodeRSAPublicKey pkcs1 pkix data = Some key ->
  ValidRSAPublicKeyStructure (Some key) = true /\ cloneRSAKey (Some key) = Some key.
Proof.
  intros H. assert (ValidRSAPublicKeyStructure (Some key) = true) as Hv.
  { revert H. unfold decodeRSAPublicKey. destruct (pkcs1 data) as [k | ].
    - destruct (ValidRSAPublicKeyStructure (Some k)) eqn:E; [ | done]. by intros [= <-].
    - destruct (pkix data) as [[ | k | | | ] | ]; try done. destruct (ValidRSAPublicKeyStructure k) eqn:E; [ | done]. cbn. by intros ->. }
  split; [done | ]. by destruct key as [[n | ] e].
Qed.

(** The key of a record's bytes for an algorithm. *)
Definition key_of_data (requested : Algorithm) (data : bytes) (m : Material) : Prop :=
  (requested = AlgorithmRSASHA256 /\ exists key, decodeRSAPublicKey pkcs1 pkix data = Some key /\ m = RSAKey (Some key)) \/
  (requested = AlgorithmEd25519SHA256 /\ len data = ed25519_PublicKeySize /\ m = Ed25519Key data) \/
  (requested = AlgorithmMLDSA44 /\ available = true /\ len data = MLDSA44PublicKeyBytes /\
     exists key, mldsa_new data = Some key /\ m = MLDSAKey (Some key)).

Lemma DecodeKey_cases r requested :
  Record_Valid r = true -> Algorithm_Known requested = true ->
  exists status m, DecodeKey pkcs1 pkix mldsa_new available r requested = Ret (MkOutcome status requested m true) /\
    ((status = KeyOutcomeRevoked /\ rec_status r = RecordStatusRevoked /\ m = NilMaterial) \/
     (status = KeyOutcomeUnsupportedKeyType /\ rec_status r = RecordStatusUnsupportedKeyType /\ m = NilMaterial) \/
     (rec_status r = RecordStatusKeyData /\
        ((status = KeyOutcomeAlgorithmMismatch /\ keyTypeMatchesAlgorithm (rec_keyType r) requested = false /\ m = NilMaterial) \/
         (keyTypeMatchesAlgorithm (rec_keyType r) requested = true /\
            ((status = KeyOutcomeFound /\ key_of_data requested (rec_publicKey r) m) \/
             (status = KeyOutcomeInvalid /\ m = NilMaterial /\ forall m', ~ key_of_data requested (rec_publicKey r) m')))))).
Proof using Type.
  intros Hv Ha. unfold DecodeKey. rewrite Hv, Ha. cbn [andb require obind].
  destruct (rec_status r) eqn:Es; [unfold Record_Valid in Hv; rewrite Es in Hv; by destruct (_ || _) | | by eauto 10 | by eauto 10].
  destruct (keyTypeMatchesAlgorithm (rec_keyType r) requested) eqn:Ek; cbn [negb]; [ | by eauto 12].
  unfold key_of_data. apply Algorithm_Known_iff in Ha. unfold SigningAlgorithmOrder in Ha.
  rewrite !elem_of_cons, elem_of_nil in Ha. destruct Ha as [-> | [-> | [-> | []]]].
  - rewrite bytes_equal_refl. destruct (decodeRSAPublicKey pkcs1 pkix (rec_publicKey r)) as [key | ] eqn:E.
    + exists KeyOutcomeFound, (RSAKey (Some key)). destruct (decodeRSAPublicKey_valid _ _ E) as [_ Hc].
      cbn [ClonePublicKey]. rewrite Hc. split; [done | ]. right; right. split; [done | right]. split; [done | left].
      split; [done | left]. split; [done | by exists key].
    + exists KeyOutcomeInvalid, NilMaterial. split; [done | ]. right; right. split; [done | right]. split; [done | right].
      split_and!; [done | done | ]. intros m' [(_ & key & H & _) | [(H & _) | (H & _)]]; done.
  - change (bytes_equal AlgorithmEd25519SHA256 AlgorithmRSASHA256) with false. rewrite bytes_equal_refl. cbn match.
    destruct (Z.eqb_spec (len (rec_publicKey r)) ed25519_PublicKeySize) as [E | E]; cbn [negb].
    + exists KeyOutcomeFound, (Ed25519Key (rec_publicKey r)). split; [done | ]. right; right. split; [done | right].
      split; [done | left]. split; [done | right; left]. done.
    + exists KeyOutcomeInvalid, NilMaterial. split; [done | ]. right; right. split; [done | right]. split; [done | right].
      split_and!; [done | done | ]. intros m' [(H & _) | [(_ & H & _) | (H & _)]]; done.
  - change (bytes_equal AlgorithmMLDSA44 AlgorithmRSASHA256) with false.
    change (bytes_equal AlgorithmMLDSA44 AlgorithmEd25519SHA256) with false. rewrite bytes_equal_refl. cbn match.
    unfold ParseMLDSA44PublicKey, MLDSA44Available.
    destruct available; cbn [require obind]; [destruct (Z.eqb_spec (len (rec_publicKey r)) MLDSA44PublicKeyBytes) as [E | E]; cbn [require obind];
      [destruct (mldsa_new (rec_publicKey r)) as [key | ] eqn:En | ] | ].
    1: { exists KeyOutcomeFound, (MLDSAKey (Some key)). split; [done | ]. right; right. split; [done | right].
         split; [done | left]. split; [done | right; right]. split_and!; [done | done | done | by exists key]. }
    all: exists KeyOutcomeInvalid, NilMaterial; split; [done | ]; right; right; split; [done | right]; split; [done | right].
    all: split_and!; [done | done | ].
    all: intros m' [(H & _) | [(H & _) | (_ & H1 & H2 & key' & H3 & _)]]; try done; congruence.
Qed.

Lemma decode_parsed input limits r requested :
  ParseRecord input limits = Ret r -> Algorithm_Known requested = true ->
  exists o, DecodeKey pkcs1 pkix mldsa_new available r requested = Ret o /\
    KeyOutcome_Valid o = true /\ ko_algorithm o = requested /\ cloneKeyOutcome o = o /\
    (ko_status o = KeyOutcomeFound <->
       rec_status r = RecordStatusKeyData /\ keyTypeMatchesAlgorithm (rec_keyType r) requested = true /\
       key_of_data requested (rec_publicKey r) (ko_material o)).
Proof using mldsa_new_parameters.
  intros Hr%parsed_valid Ha. destruct (DecodeKey_cases r requested Hr Ha) as (status & m & -> & H). eexists. split; [done | ].
  assert (KeyOutcome_Valid (MkOutcome status requested m true) = true /\ ClonePublicKey m = m) as [Hv Hc].
  { unfold KeyOutcome_Valid. cbn [ko_initialized ko_status ko_algorithm ko_material]. rewrite Ha.
    destruct H as [(-> & _ & ->) | [(-> & _ & ->) | (_ & [(-> & _ & ->) | (_ & [(-> & H) | (-> & -> & _)])])]]; try done.
    destruct H as [(-> & key & Hk & ->) | [(-> & Hlen & ->) | (-> & _ & _ & key & Hk & ->)]].
    - apply decodeRSAPublicKey_valid in Hk as [Hk1 Hk2]. cbn [ClonePublicKey]. rewrite Hk2. split; [exact Hk1 | done].
    - rewrite Hlen. done.
    - apply mldsa_new_parameters in Hk. split; [ | cbn; by rewrite bool_decide_eq_true_2].
      change (is_ret (ValidatePublicKey AlgorithmMLDSA44 (MLDSAKey (Some key)) Crypto.DefaultLimits) = true).
      unfold ValidatePublicKey. rewrite (proj2 (normalized_iff Crypto.DefaultLimits Crypto.DefaultLimits)).
      + cbn [obind]. rewrite (proj2 (validateMaterial_iff AlgorithmMLDSA44 _ _ (MLDSAKey (Some key)) DefaultLimits_ok)); [done | ].
        split; [ | done]. right; right. split; [done | ]. by exists key.
      + split; [exact DefaultLimits_ok | done]. }
  split_and!; [done | done | unfold cloneKeyOutcome; rewrite Hv; cbn; by rewrite Hc | ].
  cbn [ko_status ko_material].
  destruct H as [(-> & Hs & ->) | [(-> & Hs & ->) | (Hs & [(-> & Hk & ->) | (Hk & [(-> & H) | (-> & -> & Hno)])])]].
  - split; [done | ]. rewrite Hs. by intros (? & _).
  - split; [done | ]. rewrite Hs. by intros (? & _).
  - split; [done | ]. rewrite Hk. by intros (_ & ? & _).
  - done.
  - split; [done | ]. intros (_ & _ & H). by apply Hno in H.
Qed.

(** A parsed record and a known algorithm always decode to a valid outcome
    for that algorithm, which a detached copy does not change: revoked and
    unsupported records keep their status, a key of another type is a
    mismatch, and otherwise the key is found exactly when its bytes decode. *)
Theorem decode_parsed_record input limits r requested :
  ParseRecord input limits = Ret r -> Algorithm_Known requested = true ->
  exists o, DecodeKey pkcs1 pkix mldsa_new available r requested = Ret o /\
    KeyOutcome_Valid o = true /\ ko_algorithm o = requested /\ cloneKeyOutcome o = o /\
    (ko_status o = KeyOutcomeFound <->
       rec_status r = RecordStatusKeyData /\ keyTypeMatchesAlgorithm (rec_keyType r) requested = true /\
       key_of_data requested (rec_publicKey r) (ko_material o)).
Proof using mldsa_new_parameters. apply decode_parsed. Qed.
End decoding.

Definition no_pkcs1 : bytes -> option RSAPublicKey := fun _ => None.
Definition no_pkix : bytes -> option Material := fun _ => None.
Definition raw_mldsa : bytes -> option MLDSAPublicKey := fun raw => Some (MkMLDSA MLDSA44 raw).
Lemma raw_mldsa_parameters raw k : raw_mldsa raw = Some k -> mldsa_Parameters k = MLDSA44.
Proof. by intros [= <-]. Qed.
Lemma decode_parsed_record_witness :
  exists r o, ParseRecord sample_record DefaultLimits = Ret r /\
    DecodeKey no_pkcs1 no_pkix raw_mldsa true r AlgorithmEd25519SHA256 = Ret o /\ KeyOutcome_Valid o = true.
Proof.
  destruct (ParseRecord sample_record DefaultLimits) as [r | e | ] eqn:E.
  - destruct (decode_parsed_record no_pkcs1 no_pkix raw_mldsa true raw_mldsa_parameters sample_record DefaultLimits r
      AlgorithmEd25519SHA256 E eq_refl) as (o & Ho & Hv & _).
    exists r, o. by split_and!.
  - exfalso. vm_compute in E. discriminate E.
  - exfalso. vm_compute in E. discriminate E.
Defined.

(** ** The version filter *)
Lemma drop_wsp w s : wsp w -> drop_while isTXTWhitespace (w ++ s) = drop_while isTXTWhitespace s.
Proof. apply (drop_while_app isTXTWhitespace). Qed.
Lemma drop_wsp_head b s : isTXTWhitespace b = false -> drop_while isTXTWhitespace (b :: s) = b :: s.
Proof. intros H. cbn. by rewrite H. Qed.

Lemma versionText_value v w rest :
  edged isWSP v -> x3b ∉ v -> wsp w -> (rest = [] \/ exists r, rest = x3b :: r) -> versionText (v ++ w ++ rest) = v.
Proof.
  intros [_ Hv] Hs Hw Hr. unfold versionText.
  assert (x3b ∉ v ++ w) as Hn.
  { rewrite not_elem_of_app. split; [done | ]. intros Hin. unfold wsp in Hw. rewrite list.Forall_forall in Hw.
    by apply Hw in Hin. }
  assert (match index_byte (v ++ w ++ rest) x3b with Some i => take i (v ++ w ++ rest) | None => v ++ w ++ rest end = v ++ w) as ->.
  { rewrite app_assoc. destruct Hr as [-> | [r ->]].
    - rewrite app_nil_r. by rewrite (proj2 (index_byte_None _ _) Hn).
    - rewrite index_byte_app by done. by rewrite take_app_length. }
  rewrite reverse_app. rewrite drop_wsp.
  - destruct (decide (v = [])) as [-> | Hne]; [done | ]. destruct (exists_last Hne) as (m & z & E). rewrite E, reverse_snoc.
    rewrite drop_wsp_head by (by eapply Hv). by rewrite <- reverse_snoc, reverse_involutive.
  - unfold wsp in *. apply Forall_forall. intros b. rewrite elem_of_reverse. rewrite list.Forall_forall in Hw. apply Hw.
Qed.

Lemma versionText_skip v w rest :
  edged isWSP v -> x3b ∉ v -> wsp w -> (rest = [] \/ exists r, rest = x3b :: r) ->
  versionText (drop_while isTXTWhitespace (v ++ w ++ rest)) = v.
Proof.
  intros Hv Hs Hw Hr. destruct v as [|b v].
  - cbn [app]. rewrite drop_wsp by done.
    assert (drop_while isTXTWhitespace rest = rest) as -> by (by destruct Hr as [-> | [r ->]]).
    apply (versionText_value [] [] rest); [apply edged_nil | by apply not_elem_of_nil | constructor | done].
  - cbn [app]. rewrite drop_wsp_head by (exact (proj1 Hv b v eq_refl)). by apply (versionText_value (b :: v)).
Qed.

(** The leading version of a tag list is the value of its first tag, if that
    tag is v=. *)
Lemma leadingVersion_tags known limits mode text t ts :
  tag_list known limits mode text (field_of (t :: ts)) ->
  leadingVersion text = if bytes_equal (tag_name t) (bs "v") then Some (tag_value t) else None.
Proof.
  intros (ts' & texts & tail & Hf & -> & Htail & _ & _ & _ & E). apply (f_equal TagScan.tags) in E.
  rewrite !tags_field_of in E. subst ts'. inversion Hf as [ | x1 s x2 texts' Hx Hx2 E1 E2]; subst; destruct Hx as [Ht [Hok Hsemi]]; clear Hx2.
  destruct Ht as (w1 & w2 & w3 & w4 & H1 & H2 & H3 & H4 & ->). destruct Hok as (Hname & _ & Hval & _).
  assert (exists rest, (rest = [] \/ exists r, rest = x3b :: r) /\
    join_semi ((w1 ++ tag_name t ++ w2 ++ x3d :: w3 ++ tag_value t ++ w4) :: texts') ++ tail =
    w1 ++ tag_name t ++ w2 ++ x3d :: w3 ++ tag_value t ++ w4 ++ rest) as (rest & Hrest & ->).
  { destruct (decide (texts' = [])) as [-> | Hne].
    - exists tail. split; [destruct Htail as [-> | (w & _ & ->)]; eauto | ]. cbn [join_semi]. by rewrite <- !app_assoc, <- app_comm_cons, <- !app_assoc.
    - exists (x3b :: join_semi texts' ++ tail). split; [eauto | ]. rewrite join_semi_cons by done.
      by rewrite <- !app_assoc, <- app_comm_cons, <- !app_assoc. }
  unfold leadingVersion, skipTXTWhitespace. rewrite drop_wsp by done.
  apply tagName_inv in Hname as (_ & Hne & Hchars & _). destruct (tag_name t) as [|a n] eqn:En; [done | ].
  apply Forall_cons in Hchars as [Ha Hn]. apply nameByte_dark in Ha as [Ha _]. cbn [app]. rewrite drop_wsp_head by done.
  destruct (byte_eqb_spec a x76) as [-> | Hav].
  2: { destruct (bytes_equal (a :: n) (bs "v")) eqn:Eb; [ | done]. apply bytes_equal_eq in Eb. by injection Eb as ->. }
  destruct n as [|b n].
  - cbn [app]. change (bytes_equal [x76] (bs "v")) with true. cbn match. rewrite drop_wsp by done.
    rewrite drop_wsp_head by done. rewrite byte_eqb_refl, drop_wsp by done. f_equal. by apply versionText_skip.
  - apply Forall_cons in Hn as [Hb _]. pose proof (nameByte_dark _ Hb) as [Hbw [Hbe _]]. cbn [app]. rewrite drop_wsp_head by done.
    rewrite (proj2 (byte_eqb_ne b x3d)) by done.
    destruct (bytes_equal (x76 :: b :: n) (bs "v")) eqn:Eb; [ | done]. by apply bytes_equal_eq in Eb.
Qed.

Lemma unfold_plain input i text : CR ∉ input -> unfoldDNSLoop input i = Ret text -> text = input.
Proof.
  revert i text. induction input as [|b input IH]; intros i text Hc; cbn [unfoldDNSLoop]; [by intros [= <-] | ].
  apply not_elem_of_cons in Hc as [Hb Hc]. rewrite (proj2 (byte_eqb_ne b CR)) by done. destruct (b =?b LF); [done | ].
  intros (t & Ht%IH & [= <-])%obind_ret_inv; [by subst | done].
Qed.

(** On payloads without line breaks the version filters agree with the
    parsers: a record the key parser accepts is never dropped as one of a
    foreign version, and one the policy parser accepts is always a candidate. *)
Theorem version_filter_sound input limits :
  CR ∉ input ->
  (forall r, ParseRecord input limits = Ret r -> foreignVersionRecord input = false) /\
  (forall r, ParseDomainPolicyRecord input limits = Ret r -> domainPolicyRecordCandidate input = true).
Proof.
  intros Hc. assert (forall known ts, record_tags known limits input ts ->
    exists t ts', ts = t :: ts' /\ NoDup (tag_name <$> ts) /\
      leadingVersion input = if bytes_equal (tag_name t) (bs "v") then Some (tag_value t) else None) as Hlead.
  { intros known ts (_ & text & Hu & Htl). apply (unfold_plain _ _ _ Hc) in Hu. subst text.
    destruct (tag_list_tags _ _ _ _ _ Htl) as [Hnd Hne]. destruct ts as [|t ts]; [done | ]. exists t, ts.
    split_and!; [done | done | by eapply leadingVersion_tags]. }
  split.
  - intros r (_ & ts & Hts & Hv & _)%ParseRecord_sound. destruct (Hlead _ _ Hts) as (t & ts' & -> & _ & E).
    unfold foreignVersionRecord. rewrite E. destruct (bytes_equal (tag_name t) (bs "v")) eqn:Et; [ | done].
    apply bytes_equal_eq in Et. destruct (Hv t) as [_ ->]; [apply list_elem_of_here | done | ]. by rewrite bytes_equal_refl.
  - intros r. unfold ParseDomainPolicyRecord, Limits_Validate. destruct (limits_within limits) eqn:El; [ | done].
    cbn [require map_fail obind]. destruct (Scan input domainPolicyTags (recordTagLimits limits)) as [f | | ] eqn:Es; try done.
    cbn [map_fail obind]. destruct (proj1 (Scan_tags _ _ _ f El) Es) as (ts & Hts & ->).
    destruct (Hlead _ _ Hts) as (t & ts' & -> & Hnd & E). rewrite tags_field_of.
    destruct (getTag_field_of _ (bs "v") Hnd) as (ov & -> & Hv). cbn [obind]. destruct ov as [v | ]; [ | done].
    destruct (proj1 (Hv v) eq_refl) as [H1 H2]. destruct (leads_with_version (t :: ts') v) eqn:Elv; [ | done]. intros _.
    apply (leads_with_version_iff _ _ Hnd H1 H2) in Elv as [[= ->] Eval].
    unfold domainPolicyRecordCandidate. by rewrite E, H2, bytes_equal_refl, Eval, bytes_equal_refl.
Qed.
Lemma version_filter_sound_witness : foreignVersionRecord sample_record = false.
Proof.
  destruct (ParseRecord sample_record DefaultLimits) as [r | e | ] eqn:E.
  - refine (proj1 (version_filter_sound sample_record DefaultLimits _) r E).
    apply (bool_decide_eq_false (CR ∈ sample_record)). vm_compute. reflexivity.
  - exfalso. vm_compute in E. discriminate E.
  - exfalso. vm_compute in E. discriminate E.
Defined.

(** With folding white space after the version the filter drops a record that
    the parser would accept. *)
Definition folded_record : bytes := bs "v=DKIM1" ++ [CR; LF; SP] ++ bs "; p=".
Example folded_version_dropped :
  foreignVersionRecord folded_record = true /\
  ParseRecord folded_record DefaultLimits = Ret (parsedRecord RecordStatusRevoked KeyTypeRSA []).
Proof. split; vm_compute; reflexivity. Qed.
