(* ===== verification/GoHeapPtr.v ===== *)
(** * Go's container/heap over shared objects

    [heap.Remove], and heaps whose elements are pointers to objects that carry
    their own index, as [heap.Interface] implementations keep it in [Swap],
    [Push] and [Pop]: what every operation does to the objects and the slice. *)

From stdpp Require Import gmap.
From S2P Require Import Prelude GoHeap.
#[local] Open Scope Z_scope.

(** ** heap.Remove *)
(** What [heap.Remove] does before the interface's own [Pop]. *)
Definition heap_to_remove {S} `{HeapInterface S} (h : S) (i : nat) : S :=
  let n := (hLen h - 1)%nat in
  if (n =? i)%nat then h
  else
    let '(h', i') := down n (hSwap h i n) i n in
    if (i <? i')%nat then h' else up (Datatypes.S i) h' i.

Section lists.
Context {A : Type} (less : A -> A -> bool).
#[local] Existing Instance list_heap.
#[local] Instance lh : HeapInterface (list A) := list_heap less.
Context (le_trans : forall a b c, le less a b -> le less b c -> le less a c).
Context (less_le : forall a b, less a b = true -> le less a b).

Lemma swap_at_app (l t : list A) i j :
  (i < length l)%nat -> (j < length l)%nat -> swap_at (l ++ t) i j = swap_at l i j ++ t.
Proof.
  intros Hi Hj. unfold swap_at. rewrite !lookup_app_l by done.
  destruct (l !! i), (l !! j); try done. rewrite insert_app_l by done. by rewrite insert_app_l by (by rewrite length_insert).
Qed.
Lemma less_at_app (l t : list A) i j :
  (i < length l)%nat -> (j < length l)%nat -> less_at less (l ++ t) i j = less_at less l i j.
Proof. intros Hi Hj. unfold less_at. by rewrite !lookup_app_l by done. Qed.
Lemma up_app fuel (l t : list A) j : (j < length l)%nat -> up fuel (l ++ t) j = up fuel l j ++ t.
Proof.
  revert l j. induction fuel as [|fuel IH]; intros l j Hj; [done | ]. cbn [up hLess hSwap lh list_heap].
  assert (parent j < length l)%nat by (destruct j; [done | pose proof (parent_lt (Datatypes.S j)); lia]).
  rewrite less_at_app by done. destruct (_ || _); [done | ]. rewrite swap_at_app by done.
  apply IH. by rewrite length_swap_at.
Qed.
Lemma down_app fuel (l t : list A) i n :
  (i < n)%nat -> (n <= length l)%nat ->
  down fuel (l ++ t) i n = ((down fuel l i n).1 ++ t, (down fuel l i n).2).
Proof.
  revert l i. induction fuel as [|fuel IH]; intros l i Hi Hn; [done | ]. cbn [down hLess hSwap lh list_heap].
  destruct (Nat.leb_spec n (2 * i + 1)); [done | ].
  set (j := if ((2 * i + 1 + 1 <? n)%nat && less_at less l (2 * i + 1 + 1) (2 * i + 1)) then (2 * i + 1 + 1)%nat else (2 * i + 1)%nat).
  assert (j < n)%nat as Hj by (unfold j; destruct (Nat.ltb_spec (2 * i + 1 + 1) n), (less_at _ _ _ _); cbn; lia).
  assert ((if ((2 * i + 1 + 1 <? n)%nat && less_at less (l ++ t) (2 * i + 1 + 1) (2 * i + 1)) then (2 * i + 1 + 1)%nat
           else (2 * i + 1)%nat) = j) as ->.
  { unfold j. destruct (Nat.ltb_spec (2 * i + 1 + 1) n); cbn [andb]; [ | done]. by rewrite less_at_app by lia. }
  rewrite less_at_app by lia. destruct (negb _); [done | ]. rewrite swap_at_app by lia.
  apply IH; [done | by rewrite length_swap_at].
Qed.

Lemma insert_replaced (m : list A) i x z : m !! i = Some x -> x :: <[i := z]> m ≡ₚ m ++ [z].
Proof.
  intros Hx. pose proof (lookup_lt_Some _ _ _ Hx) as Hi.
  rewrite (insert_take_drop _ _ _ Hi). rewrite <- (take_drop_middle _ _ _ Hx) at 3. solve_Permutation.
Qed.
Lemma heap_to_remove_spec l i x :
  heap less l -> l !! i = Some x ->
  exists l', heap_to_remove l i = l' ++ [x] /\ heap less l' /\ x :: l' ≡ₚ l.
Proof using le_trans less_le.
  intros Ho Hx. pose proof (lookup_lt_Some _ _ _ Hx) as Hi.
  destruct (exists_last (l := l)) as (m & z & ->); [by intros -> | ]. rewrite length_app in Hi. cbn in Hi.
  assert (heap less m) as Hm.
  { intros k Hk a b Ha Hb. pose proof (parent_lt k ltac:(lia)). apply (Ho k).
    - rewrite length_app. lia.
    - by rewrite lookup_app_l by lia.
    - by rewrite lookup_app_l by lia. }
  unfold heap_to_remove. cbn [hLen lh list_heap]. rewrite length_app. cbn [length].
  replace (length m + 1 - 1)%nat with (length m) by lia.
  destruct (Nat.eqb_spec (length m) i) as [<- | Hne].
  - rewrite lookup_app_r, Nat.sub_diag in Hx by lia. injection Hx as ->. exists m. split_and!; [done | done | ].
    by rewrite Permutation_app_comm.
  - rewrite lookup_app_l in Hx by lia.
    assert (hSwap (m ++ [z]) i (length m) = <[i := z]> m ++ [x]) as ->.
    { cbn [hSwap lh list_heap]. unfold swap_at. rewrite lookup_app_l, Hx, lookup_app_r, Nat.sub_diag by lia. cbn.
      rewrite insert_app_r_alt, Nat.sub_diag by lia. cbn. by rewrite insert_app_l by lia. }
    destruct (heap_Fix_spec less le_trans less_le m i z x Hm Hx) as [Hh Hp].
    exists (heap_Fix (<[i := z]> m) i). split_and!; [ | exact Hh | rewrite Hp; by apply insert_replaced].
    rewrite down_app by (rewrite ?length_insert; lia).
    unfold heap_Fix. cbn [hLen list_heap lh]. rewrite length_insert.
    pose proof (down_perm less (length m) (<[i := z]> m) i (length m)) as Hlen%Permutation_length. rewrite length_insert in Hlen.
    change (list_heap less) with lh in *.
    destruct (down (length m) (<[i := z]> m) i (length m)) as [h' i']. cbn [fst snd] in *.
    destruct (i <? i')%nat; [done | ]. rewrite up_app by lia. done.
Qed.
End lists.

Section simulation.
Context {S A : Type} `{HeapInterface S} (less : A -> A -> bool) (R : S -> list A -> Prop).
#[local] Existing Instance list_heap.
Context (R_len : forall h l, R h l -> hLen h = length l).
Context (R_less : forall h l i j, R h l -> (i < length l)%nat -> (j < length l)%nat -> hLess h i j = less_at less l i j).
Context (R_swap : forall h l i j, R h l -> (i < length l)%nat -> (j < length l)%nat -> R (hSwap h i j) (swap_at l i j)).
Lemma heap_to_remove_sim h l i :
  R h l -> (i < length l)%nat -> R (heap_to_remove h i) (heap_to_remove (H := list_heap less) l i).
Proof using R_len R_less R_swap.
  intros HR Hi. unfold heap_to_remove. rewrite (R_len h l HR). cbn [hLen list_heap].
  destruct (Nat.eqb_spec (length l - 1) i) as [E | E]; [done | ].
  assert (R (hSwap h i (length l - 1)) (swap_at l i (length l - 1))) as HR' by (apply R_swap; [done | lia | lia]).
  pose proof (down_sim less R R_less R_swap (length l - 1) _ _ i (length l - 1) HR') as Hd.
  rewrite length_swap_at in Hd. destruct Hd as (H1 & H2 & H3); [lia | lia | ].
  cbn [hSwap list_heap] in *.
  pose proof (down_perm less (length l - 1) (swap_at l i (length l - 1)) i (length l - 1)) as Hp%Permutation_length.
  rewrite length_swap_at in Hp.
  destruct (down _ (hSwap h i _) _ _) as [h' i'], (down _ (swap_at l i _) _ _) as [l' i'']. cbn [fst snd] in *. subst i''.
  destruct (_ <? _)%nat; [done | ]. apply (up_sim less R R_less R_swap); [done | lia].
Qed.
End simulation.

(** ** Heaps of pointers *)
Abbreviation pointerHeap E := (gmap positive E * list positive)%type.
Section pointers.
Context {E : Type} (set_index : Z -> E -> E) (eless : E -> E -> bool).
Abbreviation objects := (gmap positive E).
Definition ptr_less (h : pointerHeap E) (left right : nat) : bool :=
  match h.2 !! left, h.2 !! right with
  | Some p, Some q =>
      match h.1 !! p, h.1 !! q with Some a, Some b => eless a b | _, _ => false end
  | _, _ => false
  end.
Definition ptr_swap (h : pointerHeap E) (left right : nat) : pointerHeap E :=
  match h.2 !! left, h.2 !! right with
  | Some p, Some q =>
      (alter (set_index (Z.of_nat right)) p (alter (set_index (Z.of_nat left)) q h.1),
       <[left := q]> (<[right := p]> h.2))
  | _, _ => h
  end.
#[local] Instance ptr_interface : HeapInterface (pointerHeap E) :=
  { hLen := fun h => length h.2; hLess := ptr_less; hSwap := ptr_swap }.

(** The interface's own Push and Pop, and the package's functions with them. *)
Definition ptr_pop (h : pointerHeap E) : option (positive * pointerHeap E) :=
  p ← last h.2;
  Some (p, (alter (set_index (-1)) p h.1, take (length h.2 - 1) h.2)).
Definition ptr_Push (p : positive) (h : pointerHeap E) : pointerHeap E :=
  heap_pushed (alter (set_index (len h.2)) p h.1, h.2 ++ [p]).
Definition ptr_Remove (i : nat) (h : pointerHeap E) : option (positive * pointerHeap E) := ptr_pop (heap_to_remove h i).
Definition ptr_Fix (i : nat) (h : pointerHeap E) : pointerHeap E := heap_Fix h i.

(** ** What they do *)
Context (set_index_twice : forall i j e, set_index i (set_index j e) = set_index i e).
Context (eless_index : forall i j a b, eless (set_index i a) (set_index j b) = eless a b).
Context (ele_trans : forall a b c, le eless a b -> le eless b c -> le eless a c).
Context (eless_le : forall a b, eless a b = true -> le eless a b).

(** [v] gives the object of every pointer up to its index. *)
Section value.
Context (v : positive -> E).
Definition value_less (p q : positive) : bool := eless (v p) (v q).
Definition all_placed (m : objects) (l : list positive) : Prop :=
  forall i p, l !! i = Some p -> m !! p = Some (set_index (Z.of_nat i) (v p)).
Definition ptr_rel (m0 : objects) (h : pointerHeap E) (l : list positive) : Prop :=
  h.2 = l /\ NoDup l /\ all_placed h.1 l /\ forall p, p ∉ l -> h.1 !! p = m0 !! p.

Lemma value_le_trans p q r : le value_less p q -> le value_less q r -> le value_less p r.
Proof using ele_trans. apply ele_trans. Qed.
Lemma value_less_le p q : value_less p q = true -> le value_less p q.
Proof using eless_le. apply eless_le. Qed.
Lemma ptr_rel_len m0 h l : ptr_rel m0 h l -> hLen h = length l.
Proof. by intros [<- _]. Qed.
Lemma ptr_rel_less m0 h l i j :
  ptr_rel m0 h l -> (i < length l)%nat -> (j < length l)%nat -> hLess h i j = less_at value_less l i j.
Proof using eless_index.
  intros (Eq & _ & Hp & _) [p Hi]%lookup_lt_is_Some_2 [q Hj]%lookup_lt_is_Some_2.
  cbn [hLess ptr_interface]. unfold ptr_less, less_at. rewrite Eq, Hi, Hj, (Hp _ _ Hi), (Hp _ _ Hj). apply eless_index.
Qed.
Lemma ptr_rel_swap m0 h l i j :
  ptr_rel m0 h l -> (i < length l)%nat -> (j < length l)%nat -> ptr_rel m0 (hSwap h i j) (swap_at l i j).
Proof using set_index_twice.
  destruct h as [m ps]. intros (Eq & Hnd & Hp & Hm) [p Hi]%lookup_lt_is_Some_2 [q Hj]%lookup_lt_is_Some_2.
  cbn [fst snd] in *. subst ps. cbn [hSwap ptr_interface]. unfold ptr_swap. cbn [fst snd]. rewrite Hi, Hj.
  assert (NoDup (swap_at l i j)) as Hnd' by (by rewrite swap_at_perm).
  split; [cbn; unfold swap_at; by rewrite Hi, Hj | ]. split; [done | ]. split; cbn [fst].
  - intros k r. rewrite (swap_at_lookup _ _ _ _ _ _ Hi Hj). destruct (decide (k = i)) as [->|Hki].
    + intros [= <-]. destruct (decide (p = q)) as [->|Hpq].
      * pose proof (NoDup_lookup _ _ _ _ Hnd Hi Hj) as ->. rewrite !lookup_alter_eq, (Hp _ _ Hj). cbn. by rewrite !set_index_twice.
      * rewrite lookup_alter_ne, lookup_alter_eq, (Hp _ _ Hj) by done. cbn. by rewrite set_index_twice.
    + destruct (decide (k = j)) as [->|Hkj].
      * intros [= <-]. rewrite lookup_alter_eq. assert (p <> q) as Hpq by (intros ->; by pose proof (NoDup_lookup _ _ _ _ Hnd Hi Hj)).
        rewrite lookup_alter_ne, (Hp _ _ Hi) by done. cbn. by rewrite set_index_twice.
      * intros Hr. assert (p <> r) by (intros ->; apply Hki; exact (NoDup_lookup _ _ _ _ Hnd Hr Hi)).
        assert (q <> r) by (intros ->; apply Hkj; exact (NoDup_lookup _ _ _ _ Hnd Hr Hj)).
        rewrite !lookup_alter_ne by done. by apply Hp.
  - intros r Hr. assert (r ∉ l) as Hr' by (by rewrite swap_at_perm in Hr).
    rewrite !lookup_alter_ne; [by apply Hm | | ]; intros ->; apply Hr'; by eapply list_elem_of_lookup_2.
Qed.

(** A well-formed heap of pointers. *)
Definition pheap (h : pointerHeap E) : Prop := NoDup h.2 /\ all_placed h.1 h.2 /\ heap value_less h.2.
(** The objects outside [l] are untouched. *)
Definition only_touches (l : list positive) (m m' : objects) : Prop := forall q, q ∉ l -> m' !! q = m !! q.

Lemma pheap_push m l p e :
  pheap (m, l) -> p ∉ l -> m !! p = Some e -> (forall i, set_index i e = set_index i (v p)) ->
  pheap (ptr_Push p (m, l)) /\ (ptr_Push p (m, l)).2 ≡ₚ p :: l /\ only_touches (p :: l) m (ptr_Push p (m, l)).1.
Proof using ele_trans eless_index eless_le set_index_twice.
  intros (Hnd & Hpl & Ho) Hp Hm He. cbn [fst snd] in *. set (m1 := alter (set_index (len l)) p m).
  assert (ptr_rel m (m1, l ++ [p]) (l ++ [p])) as HR.
  { split_and!; [done | | | ]; cbn [fst snd].
    - apply NoDup_app. split_and!; [done | | apply NoDup_singleton]. by intros q Hq ->%list_elem_of_singleton.
    - intros i q Hi. apply lookup_snoc_Some in Hi as [[Hlt Hi] | [-> ->]].
      + unfold m1. rewrite lookup_alter_ne by (intros ->; apply Hp; by eapply list_elem_of_lookup_2). by apply Hpl.
      + unfold m1. rewrite lookup_alter_eq, Hm. cbn. by rewrite He.
    - intros q Hq. unfold m1. rewrite lookup_alter_ne; [done | ]. intros ->. apply Hq, elem_of_app. right. by apply list_elem_of_singleton. }
  destruct (heap_pushed_spec value_less value_le_trans value_less_le l p Ho) as [Hh Hperm].
  pose proof (heap_pushed_sim value_less (ptr_rel m) (ptr_rel_len m) (ptr_rel_less m) (ptr_rel_swap m) _ _ HR ltac:(by destruct l))
    as (E1 & E2 & E3 & E4).
  change (ptr_Push p (m, l)) with (heap_pushed (m1, l ++ [p])). unfold pheap. rewrite !E1. split_and!; [done | done | exact Hh | exact Hperm | ].
  intros q Hq. apply E4. by rewrite Hperm.
Qed.

Lemma pheap_remove m l i p :
  pheap (m, l) -> l !! i = Some p ->
  exists h', ptr_Remove i (m, l) = Some (p, h') /\ pheap h' /\ p :: h'.2 ≡ₚ l /\
    h'.1 !! p = Some (set_index (-1) (v p)) /\ only_touches l m h'.1.
Proof using ele_trans eless_index eless_le set_index_twice.
  intros (Hnd & Hpl & Ho) Hi. cbn [fst snd] in *.
  assert (ptr_rel m (m, l) l) as HR by (by split_and!).
  destruct (heap_to_remove_spec value_less value_le_trans value_less_le l i p Ho Hi) as (l' & El & Hh & Hperm).
  pose proof (heap_to_remove_sim value_less (ptr_rel m) (ptr_rel_len m) (ptr_rel_less m) (ptr_rel_swap m) _ _ i HR (lookup_lt_Some _ _ _ Hi)) as HR'.
  change (lh value_less) with (list_heap value_less) in El. rewrite El in HR'. destruct HR' as (E1 & E2 & E3 & E4).
  unfold ptr_Remove, ptr_pop. rewrite !E1. rewrite last_snoc. cbn [mbind option_bind].
  rewrite length_app. cbn [length]. replace (length l' + 1 - 1)%nat with (length l') by lia. rewrite take_app_length.
  eexists. split; [done | ]. apply NoDup_app in E2 as (Hnd' & Hnot & _).
  assert (p ∉ l') as Hpl' by (intros H; apply (Hnot p H); by apply list_elem_of_singleton).
  unfold pheap. cbn [fst snd]. split_and!; [done | | exact Hh | done | | ].
  - intros k q Hk. rewrite lookup_alter_ne by (intros ->; apply Hpl'; by eapply list_elem_of_lookup_2).
    apply E3. by rewrite lookup_app_l by (by eapply lookup_lt_Some).
  - rewrite lookup_alter_eq. rewrite (E3 (length l') p) by (by rewrite lookup_app_r, Nat.sub_diag by lia). cbn. by rewrite set_index_twice.
  - intros q Hq. rewrite lookup_alter_ne.
    + apply E4. rewrite Permutation_app_comm. cbn. by rewrite Hperm.
    + intros ->. apply Hq. by eapply list_elem_of_lookup_2.
Qed.
End value.

Lemma pheap_change v v' m m' l :
  pheap v (m, l) -> (forall i q, l !! i = Some q -> m' !! q = Some (set_index (Z.of_nat i) (v' q))) ->
  (forall q r, q ∈ l -> r ∈ l -> eless (v' q) (v' r) = eless (v q) (v r)) -> pheap v' (m', l).
Proof using Type.
  intros (Hnd & _ & Ho) Hm He. split_and!; [done | done | ]. intros k Hk a b Ha Hb. unfold le, value_less.
  rewrite He by (by eapply list_elem_of_lookup_2). by apply (Ho k Hk).
Qed.
Lemma heap_map (v : positive -> E) (l : list positive) : heap (value_less v) l <-> heap eless (v <$> l).
Proof using Type.
  unfold heap. rewrite length_fmap. unfold heap_ordered, edge_ok. setoid_rewrite list_lookup_fmap.
  setoid_rewrite fmap_Some. unfold le, value_less. naive_solver.
Qed.
Lemma heap_Fix_perm (v : positive -> E) (l : list positive) i : heap_Fix (H := list_heap (value_less v)) l i ≡ₚ l.
Proof using Type.
  unfold heap_Fix. pose proof (down_perm (value_less v) (length l) l i (length l)) as Hd. cbn [hLen list_heap].
  destruct (down _ _ _ _) as [l' i']. cbn [fst] in Hd. destruct (_ <? _)%nat; [done | by rewrite up_perm].
Qed.
Lemma heap_Fix_map (v : positive -> E) (l : list positive) i :
  (i < length l)%nat ->
  heap_Fix (H := list_heap eless) (v <$> l) i = v <$> heap_Fix (H := list_heap (value_less v)) l i.
Proof using Type.
  intros Hi. pose proof (heap_Fix_sim (H := list_heap (value_less v)) eless (fun (h : list positive) (l' : list E) => l' = v <$> h)) as Hsim.
  apply Hsim; [ | | | done | by rewrite length_fmap].
  - intros h l' ->. by rewrite length_fmap.
  - intros h l' j k -> [a Ha]%lookup_lt_is_Some_2 [b Hb]%lookup_lt_is_Some_2. cbn [hLess list_heap]. unfold less_at.
    rewrite Ha, Hb. rewrite !list_lookup_fmap in *. apply fmap_Some in Ha as (a' & Ha & ->), Hb as (b' & Hb & ->). by rewrite Ha, Hb.
  - intros h l' j k -> [a Ha]%lookup_lt_is_Some_2 [b Hb]%lookup_lt_is_Some_2. cbn [hSwap list_heap]. unfold swap_at.
    rewrite Ha, Hb. rewrite !list_lookup_fmap in *. apply fmap_Some in Ha as (a' & Ha & ->), Hb as (b' & Hb & ->).
    rewrite Ha, Hb. by rewrite !list_fmap_insert.
Qed.
Lemma map_moved (v v' : positive -> E) (l : list positive) i p :
  NoDup l -> l !! i = Some p -> (forall q, q <> p -> v' q = v q) -> v' <$> l = <[i := v' p]> (v <$> l).
Proof using Type.
  intros Hnd Hi Hv. apply list_eq. intros k. rewrite list_lookup_fmap. pose proof (lookup_lt_Some _ _ _ Hi).
  destruct (decide (k = i)) as [-> | Hk].
  - rewrite Hi, list_lookup_insert_eq by (by rewrite length_fmap). done.
  - rewrite list_lookup_insert_ne, list_lookup_fmap by done. destruct (l !! k) as [q | ] eqn:Eq; [ | done]. cbn. f_equal.
    apply Hv. intros ->. apply Hk. by eapply NoDup_lookup.
Qed.

(** [Fix] after the object at one place was replaced. *)
Lemma pheap_fix v v' m m' l i p :
  pheap v (m, l) -> l !! i = Some p -> (forall q, q <> p -> v' q = v q) ->
  m' !! p = Some (set_index (Z.of_nat i) (v' p)) -> (forall q, q <> p -> m' !! q = m !! q) ->
  pheap v' (ptr_Fix i (m', l)) /\ (ptr_Fix i (m', l)).2 ≡ₚ l /\ only_touches l m' (ptr_Fix i (m', l)).1.
Proof using ele_trans eless_index eless_le set_index_twice.
  intros (Hnd & Hpl & Ho) Hi Hv Hp Hm. cbn [fst snd] in *.
  assert (ptr_rel v' m' (m', l) l) as HR.
  { split_and!; [done | done | | done]. intros k q Hk. destruct (decide (q = p)) as [-> | Hq].
    - by rewrite (NoDup_lookup _ _ _ _ Hnd Hk Hi).
    - cbn [fst]. rewrite Hm by done. rewrite Hv by done. by apply Hpl. }
  assert (heap (value_less v') (heap_Fix (H := list_heap (value_less v')) l i)) as Hh.
  { apply heap_map. rewrite <- heap_Fix_map by (by eapply lookup_lt_Some). rewrite (map_moved v v' l i p) by done.
    apply (heap_Fix_spec eless ele_trans eless_le _ i _ (v p)); [by apply heap_map | by rewrite list_lookup_fmap, Hi]. }
  pose proof (heap_Fix_perm v' l i) as Hperm.
  pose proof (heap_Fix_sim (value_less v') (ptr_rel v' m') (ptr_rel_len v' m') (ptr_rel_less v' m') (ptr_rel_swap v' m') _ _ i HR (lookup_lt_Some _ _ _ Hi))
    as (E1 & E2 & E3 & E4).
  unfold ptr_Fix, pheap. rewrite !E1. split_and!; [done | done | exact Hh | exact Hperm | ].
  intros q Hq. apply E4. by rewrite Hperm.
Qed.
End pointers.

(** ** Strict total orders for heaps *)
Definition strict_total {A} (lt : A -> A -> bool) : Prop :=
  (forall a, lt a a = false) /\ (forall a b c, lt a b = true -> lt b c = true -> lt a c = true) /\
  (forall a b, lt a b = false -> lt b a = false -> a = b).
(** The lexicographic order of pairs. *)
Definition lex {A B} `{EqDecision A} (lt1 : A -> A -> bool) (lt2 : B -> B -> bool) (x y : A * B) : bool :=
  if decide (x.1 = y.1) then lt2 x.2 y.2 else lt1 x.1 y.1.

Lemma strict_total_asym {A} (lt : A -> A -> bool) a b : strict_total lt -> lt a b = true -> lt b a = false.
Proof.
  intros (Hi & Ht & _) H. destruct (lt b a) eqn:E; [ | done]. by rewrite <- (Ht a b a H E), Hi.
Qed.
Lemma strict_total_lex {A B} `{EqDecision A} (lt1 : A -> A -> bool) (lt2 : B -> B -> bool) :
  strict_total lt1 -> strict_total lt2 -> strict_total (lex lt1 lt2).
Proof.
  intros H1 H2. pose proof H1 as (Hi1 & Ht1 & Hc1). pose proof H2 as (Hi2 & Ht2 & Hc2). unfold lex. split_and!.
  - intros [a x]. cbn. by rewrite decide_True.
  - intros [a x] [b y] [c z]. cbn. intros Hab Hbc.
    destruct (decide (a = b)) as [-> | Nab].
    { destruct (decide (b = c)); [by eapply Ht2 | done]. }
    destruct (decide (b = c)) as [-> | Nbc]; [by rewrite decide_False | ].
    destruct (decide (a = c)) as [-> | ]; [ | by eapply Ht1].
    by rewrite (strict_total_asym lt1 c b H1 Hab) in Hbc.
  - intros [a x] [b y]. cbn. destruct (decide (a = b)) as [-> | N].
    + rewrite decide_True by done. intros Hxy Hyx. by rewrite (Hc2 x y Hxy Hyx).
    + rewrite decide_False by done. intros Hab Hba. by destruct N; apply Hc1.
Qed.
(** The hypotheses of the heap lemmas, for an order on what [f] computes. *)
Lemma strict_total_le {A B} (f : A -> B) (lt : B -> B -> bool) :
  strict_total lt ->
  (forall a b c, le (fun x y => lt (f x) (f y)) a b -> le (fun x y => lt (f x) (f y)) b c -> le (fun x y => lt (f x) (f y)) a c) /\
  (forall a b, lt (f a) (f b) = true -> le (fun x y => lt (f x) (f y)) a b).
Proof.
  intros H. pose proof H as (Hi & Ht & Hc). unfold le. split.
  - intros a b c H1 H2. destruct (lt (f c) (f a)) eqn:E; [ | done].
    destruct (lt (f a) (f b)) eqn:Eab; [by rewrite (Ht _ _ _ E Eab) in H2 | ].
    rewrite (Hc _ _ Eab H1) in E. congruence.
  - intros a b. by apply strict_total_asym.
Qed.
