(* ===== verification/KeyCache.v ===== *)
(** * Package internal/keyresolver: the outcome cache (cache.go)

    The map, the recency list and the expiry heap share the entries: all three
    hold pointers into [oc_memory], and the entries carry their place in the
    heap.  A list element is identified with the entry it was created for;
    [ce_recency] says whether the entry still has one.  Every operation runs
    under the cache's mutex; the clock is an argument.  [Crash] is a nil
    dereference, a pop from an empty heap, or the purge loop running for ever. *)

From stdpp Require Import gmap.
From S2P Require Import Prelude GoBytes GoTime GoHeap GoHeapPtr Crypto SigAlgorithm KeyTypes KeyRecord.
#[local] Open Scope Z_scope.

(** ** Outcomes of policy lookups (domain_policy.go) *)
Inductive DomainPolicyStatus :=
  | DomainPolicyUnset | DomainPolicyAuthorized | DomainPolicyStrict | DomainPolicyTemporary | DomainPolicyAmbiguous
  | DomainPolicyInvalid.
#[export] Instance DomainPolicyStatus_eq_dec : EqDecision DomainPolicyStatus.
Proof. solve_decision. Defined.
Record DomainPolicyOutcome := MkPolicyOutcome { po_status : DomainPolicyStatus; po_initialized : bool }.
#[export] Instance DomainPolicyOutcome_eq_dec : EqDecision DomainPolicyOutcome.
Proof. solve_decision. Defined.
Definition zeroPolicy : DomainPolicyOutcome := MkPolicyOutcome DomainPolicyUnset false.
Definition newDomainPolicyOutcome (status : DomainPolicyStatus) : DomainPolicyOutcome := MkPolicyOutcome status true.
Definition DomainPolicyOutcome_Valid (o : DomainPolicyOutcome) : bool :=
  po_initialized o && negb (bool_decide (po_status o = DomainPolicyUnset)).
Definition policy_cacheable (o : DomainPolicyOutcome) : bool :=
  DomainPolicyOutcome_Valid o && negb (bool_decide (po_status o = DomainPolicyTemporary)).

(** ** Keys and values *)
Record cacheKey := MkCacheKey { ck_owner : bytes; ck_algorithm : Algorithm }.
#[export] Instance cacheKey_eq_dec : EqDecision cacheKey.
Proof. solve_decision. Defined.
#[export] Instance cacheKey_countable : Countable cacheKey.
Proof.
  refine (inj_countable (fun k => (ck_owner k, ck_algorithm k)) (fun x => Some (MkCacheKey x.1 x.2)) _). by intros [].
Defined.
Record cacheValue := MkCacheValue { cv_key : KeyOutcome; cv_policy : DomainPolicyOutcome }.
Definition zeroValue : cacheValue := MkCacheValue zeroOutcome zeroPolicy.

Definition cacheKeyValid (key : cacheKey) : bool :=
  match ClassifyAbsoluteOwner (ck_owner key) with
  | None => false
  | Some OwnerKindDomainPolicy => bytes_equal (ck_algorithm key) []
  | Some OwnerKindSelector => Algorithm_Known (ck_algorithm key)
  end.
Definition cacheOutcomeValidForKey (outcome : KeyOutcome) (key : cacheKey) : bool :=
  if negb (KeyOutcome_Valid outcome) || negb (bytes_equal (ko_algorithm outcome) (ck_algorithm key)) then false
  else
    match ko_status outcome with
    | KeyOutcomeFound | KeyOutcomeMissing | KeyOutcomeRevoked | KeyOutcomeInvalid | KeyOutcomeAmbiguous
    | KeyOutcomeUnsupportedKeyType | KeyOutcomeAlgorithmMismatch => true
    | _ => false
    end.
Definition cacheValueValidForKey (value : cacheValue) (key : cacheKey) : bool :=
  if ValidAbsoluteOwner_kind OwnerKindDomainPolicy (ck_owner key)
  then KeyOutcome_IsZero (cv_key value) && policy_cacheable (cv_policy value)
  else bool_decide (cv_policy value = zeroPolicy) && cacheOutcomeValidForKey (cv_key value) key.
Definition cloneCacheValue (value : cacheValue) : cacheValue :=
  MkCacheValue (cloneKeyOutcome (cv_key value)) (cv_policy value).

(** ** Entries and the expiry queue *)
Record cacheEntry := MkCacheEntry {
  ce_key : cacheKey; ce_value : cacheValue; ce_expiry : Time; ce_recency : bool; ce_expiryIndex : Z }.
Definition set_expiryIndex (i : Z) (e : cacheEntry) : cacheEntry :=
  MkCacheEntry (ce_key e) (ce_value e) (ce_expiry e) (ce_recency e) i.
Definition set_recency (r : bool) (e : cacheEntry) : cacheEntry :=
  MkCacheEntry (ce_key e) (ce_value e) (ce_expiry e) r (ce_expiryIndex e).
Definition set_outcome (value : cacheValue) (expiry : Time) (e : cacheEntry) : cacheEntry :=
  MkCacheEntry (ce_key e) value expiry (ce_recency e) (ce_expiryIndex e).
Definition queue_less (a b : cacheEntry) : bool :=
  if Equal (ce_expiry a) (ce_expiry b) then
    if bytes_equal (ck_owner (ce_key a)) (ck_owner (ce_key b))
    then bytes_ltb (ck_algorithm (ce_key a)) (ck_algorithm (ce_key b))
    else bytes_ltb (ck_owner (ce_key a)) (ck_owner (ce_key b))
  else Before (ce_expiry a) (ce_expiry b).

(** ** The cache *)
Record outcomeCache := MkCache {
  oc_memory : gmap positive cacheEntry; oc_entries : gmap cacheKey (option positive); oc_capacity : Z; oc_clock : bool;
  oc_recency : list positive; oc_expiries : list positive }.
Definition newOutcomeCache (capacity : Z) (clock : bool) : outcomeCache :=
  let capacity := if (capacity <? 0) || (hardMaxCacheEntries <? capacity) then 0 else capacity in
  MkCache ∅ ∅ capacity clock [] [].

Definition with_entries (c : outcomeCache) (m : gmap cacheKey (option positive)) : outcomeCache :=
  MkCache (oc_memory c) m (oc_capacity c) (oc_clock c) (oc_recency c) (oc_expiries c).
Definition with_memory (c : outcomeCache) (m : gmap positive cacheEntry) : outcomeCache :=
  MkCache m (oc_entries c) (oc_capacity c) (oc_clock c) (oc_recency c) (oc_expiries c).
Definition with_recency (c : outcomeCache) (l : list positive) : outcomeCache :=
  MkCache (oc_memory c) (oc_entries c) (oc_capacity c) (oc_clock c) l (oc_expiries c).
Definition with_heap (c : outcomeCache) (h : pointerHeap cacheEntry) : outcomeCache :=
  MkCache h.1 (oc_entries c) (oc_capacity c) (oc_clock c) (oc_recency c) h.2.
Definition oc_heap (c : outcomeCache) : pointerHeap cacheEntry := (oc_memory c, oc_expiries c).

(** container/list: Remove and MoveToBack of an element that is in the list. *)
Definition list_Remove (p : positive) (l : list positive) : list positive := filter (fun q => q <> p) l.
Definition list_MoveToBack (p : positive) (l : list positive) : list positive :=
  if bool_decide (p ∈ l) then list_Remove p l ++ [p] else l.

Definition expiryEntryIndexed (c : outcomeCache) (p : positive) : bool :=
  match oc_memory c !! p with
  | Some e =>
      (0 <=? ce_expiryIndex e) && (ce_expiryIndex e <? len (oc_expiries c)) &&
      bool_decide (oc_expiries c !! Z.to_nat (ce_expiryIndex e) = Some p)
  | None => false
  end.

Definition removeEntryLocked (key : cacheKey) (entry : option positive) (c : outcomeCache) : outcome unit outcomeCache :=
  let c := match oc_entries c !! key with
           | Some current => if decide (current = entry) then with_entries c (delete key (oc_entries c)) else c
           | None => c
           end in
  match entry with
  | None => Ret c
  | Some p =>
      match oc_memory c !! p with
      | None => Crash
      | Some e =>
          let c := if ce_recency e
                   then with_memory (with_recency c (list_Remove p (oc_recency c))) (alter (set_recency false) p (oc_memory c))
                   else c in
          if expiryEntryIndexed c p then
            match ptr_Remove set_expiryIndex queue_less (Z.to_nat (ce_expiryIndex e)) (oc_heap c) with
            | Some (_, h) => Ret (with_heap c h)
            | None => Crash
            end
          else Ret c
      end
  end.

Fixpoint purgeLoop (fuel : nat) (now : Time) (c : outcomeCache) : outcome unit outcomeCache :=
  match fuel with
  | O => Crash
  | S fuel =>
      match oc_expiries c with
      | [] => Ret c
      | p :: _ =>
          match oc_memory c !! p with
          | None => Crash
          | Some entry =>
              if negb (Before now (ce_expiry entry)) then
                let* c := removeEntryLocked (ce_key entry) (Some p) c in purgeLoop fuel now c
              else Ret c
          end
      end
  end.
Definition purgeExpiredLocked (now : Time) (c : outcomeCache) : outcome unit outcomeCache :=
  purgeLoop (S (length (oc_expiries c))) now c.

(** The order in which Go visits the map is unspecified; a coherent cache is
    never repaired. *)
Fixpoint repairLoop (items : list (cacheKey * option positive)) (c : outcomeCache) : outcome unit outcomeCache :=
  match items with
  | [] => Ret c
  | (key, entry) :: items =>
      let corrupt :=
        match entry with
        | None => true
        | Some p =>
            match oc_memory c !! p with
            | None => true
            | Some e => negb (bool_decide (ce_key e = key)) || negb (ce_recency e) || negb (expiryEntryIndexed c p)
            end
        end in
      if corrupt then let* c := removeEntryLocked key entry c in repairLoop items c else repairLoop items c
  end.
Definition repairCorruptEntriesLocked (c : outcomeCache) : outcome unit outcomeCache :=
  repairLoop (map_to_list (oc_entries c)) c.

Definition evictLeastRecentLocked (c : outcomeCache) : outcome unit outcomeCache :=
  match oc_recency c with
  | p :: _ =>
      match oc_memory c !! p with
      | Some entry => removeEntryLocked (ce_key entry) (Some p) c
      | None => Crash
      end
  | [] => repairCorruptEntriesLocked c
  end.

(** lookup: value, hit, corrupt. *)
Definition lookup (key : cacheKey) (now : Time) (c : outcomeCache) : outcome unit (cacheValue * bool * bool * outcomeCache) :=
  if (oc_capacity c =? 0) || negb (oc_clock c) then Ret (zeroValue, false, false, c)
  else
    match oc_entries c !! key with
    | None => Ret (zeroValue, false, false, c)
    | Some None => Ret (zeroValue, false, true, with_entries c (delete key (oc_entries c)))
    | Some (Some p) =>
        match oc_memory c !! p with
        | None => Crash
        | Some entry =>
            if negb (bool_decide (ce_key entry = key)) || negb (cacheKeyValid key) ||
               negb (cacheValueValidForKey (ce_value entry) key) || IsZero (ce_expiry entry) || negb (ce_recency entry)
            then let* c := removeEntryLocked key (Some p) c in Ret (zeroValue, false, true, c)
            else if negb (Before now (ce_expiry entry))
            then let* c := removeEntryLocked key (Some p) c in Ret (zeroValue, false, false, c)
            else Ret (cloneCacheValue (ce_value entry), true, false, with_recency c (list_MoveToBack p (oc_recency c)))
        end
    end.
Definition cache_get (key : cacheKey) (now : Time) (c : outcomeCache) : outcome unit (KeyOutcome * bool * bool * outcomeCache) :=
  let* (value, hit, corrupt, c) := lookup key now c in Ret (cv_key value, hit, corrupt, c).
Definition getPolicy (key : cacheKey) (now : Time) (c : outcomeCache)
    : outcome unit (DomainPolicyOutcome * bool * bool * outcomeCache) :=
  let* (value, hit, corrupt, c) := lookup key now c in Ret (cv_policy value, hit, corrupt, c).

(** heap.Push of a new or re-indexed entry. *)
Definition pushExpiry (p : positive) (c : outcomeCache) : outcomeCache :=
  with_heap c (ptr_Push set_expiryIndex queue_less p (oc_heap c)).
Definition insertNew (key : cacheKey) (value : cacheValue) (expiry : Time) (c : outcomeCache)
    : outcome unit (bool * outcomeCache) :=
  let* c := if oc_capacity c <=? Z.of_nat (size (oc_entries c)) then evictLeastRecentLocked c else Ret c in
  let p := fresh (dom (oc_memory c)) in
  let entry := MkCacheEntry key value expiry true (-1) in
  let c := with_recency (with_memory c (<[p := entry]> (oc_memory c))) (oc_recency c ++ [p]) in
  let c := with_entries c (<[key := Some p]> (oc_entries c)) in
  Ret (true, pushExpiry p c).
Definition updateExisting (p : positive) (value : cacheValue) (expiry : Time) (c : outcomeCache)
    : outcome unit (bool * outcomeCache) :=
  let c := with_memory c (alter (set_outcome value expiry) p (oc_memory c)) in
  let c := with_recency c (list_MoveToBack p (oc_recency c)) in
  match oc_memory c !! p with
  | None => Crash
  | Some e =>
      if expiryEntryIndexed c p
      then Ret (true, with_heap c (ptr_Fix set_expiryIndex queue_less (Z.to_nat (ce_expiryIndex e)) (oc_heap c)))
      else Ret (true, pushExpiry p c)
  end.
Definition putLocked (key : cacheKey) (value : cacheValue) (expiry now : Time) (c : outcomeCache)
    : outcome unit (bool * outcomeCache) :=
  let* c := purgeExpiredLocked now c in
  let* c := if negb (bool_decide (size (oc_entries c) = length (oc_recency c))) ||
               negb (bool_decide (size (oc_entries c) = length (oc_expiries c)))
            then repairCorruptEntriesLocked c else Ret c in
  match oc_entries c !! key with
  | Some existing =>
      let corrupt :=
        match existing with
        | None => true
        | Some p =>
            match oc_memory c !! p with
            | Some e => negb (bool_decide (ce_key e = key)) || negb (ce_recency e)
            | None => true
            end
        end in
      if corrupt then let* c := removeEntryLocked key existing c in insertNew key value expiry c
      else match existing with Some p => updateExisting p value expiry c | None => Crash end
  | None => insertNew key value expiry c
  end.

(** Seconds from January 1 of year 1 to January 1 of year 10000 (UTC). *)
Definition year10000 : Z := 315537897600.
Definition year_over_9999 (t : Time) : bool := year10000 <=? t_sec t.
Definition putValue (key : cacheKey) (value : cacheValue) (ttl : Z) (now : Time) (c : outcomeCache)
    : outcome unit (bool * outcomeCache) :=
  if (oc_capacity c =? 0) || negb (oc_clock c) || (ttl <=? 0) || (24 * Hour <? ttl) || negb (cacheKeyValid key) ||
     negb (cacheValueValidForKey value key)
  then Ret (false, c)
  else
    let expiry := Add now ttl in
    if negb (After expiry now) || year_over_9999 expiry then Ret (false, c)
    else putLocked key (cloneCacheValue value) expiry now c.
Definition put (key : cacheKey) (outcome : KeyOutcome) (ttl : Z) (now : Time) (c : outcomeCache) :=
  putValue key (MkCacheValue outcome zeroPolicy) ttl now c.

Record cacheAdmission := MkAdmission { ad_key : cacheKey; ad_value : cacheValue; ad_expiry : Time; ad_now : Time }.
Definition prepareAdmission (c : outcomeCache) (key : cacheKey) (value : cacheValue) (expiry now : Time)
    : option cacheAdmission :=
  if (oc_capacity c =? 0) || negb (oc_clock c) || IsZero expiry || negb (cacheKeyValid key) ||
     negb (cacheValueValidForKey value key)
  then None
  else if negb (After expiry now) || year_over_9999 expiry then None
  else Some (MkAdmission key (cloneCacheValue value) expiry now).
Definition commitAdmission (a : cacheAdmission) (c : outcomeCache) : outcome unit (bool * outcomeCache) :=
  if negb (cacheKeyValid (ad_key a)) || negb (cacheValueValidForKey (ad_value a) (ad_key a)) || IsZero (ad_expiry a) ||
     negb (After (ad_expiry a) (ad_now a))
  then Ret (false, c)
  else putLocked (ad_key a) (ad_value a) (ad_expiry a) (ad_now a) c.
