(* ===== verification/KeyCacheSpec.v ===== *)
(** * Correctness of the outcome cache

    The contents of a coherent cache are a list of keys with their values and
    expiries, the least recently used first; every operation computes an
    operation on such lists and leaves the cache coherent. *)

From stdpp Require Import gmap functions.
From S2P Require Import Prelude GoBytes GoTime GoHeap GoHeapPtr Crypto SigAlgorithm KeyTypes KeyRecord KeyCache.
#[local] Open Scope Z_scope.

Lemma filter_all_True {A} (P : A -> Prop) `{!forall x, Decision (P x)} (l : list A) :
  Forall P l -> filter P l = l.
Proof. induction 1 as [|x l Hx _ IH]; [done | ]. by rewrite filter_cons_True, IH. Qed.

(** ** The order of the expiry queue *)
Definition queue_key (e : cacheEntry) : Time * (bytes * bytes) := (ce_expiry e, (ck_owner (ce_key e), ck_algorithm (ce_key e))).
Definition queue_lt : Time * (bytes * bytes) -> Time * (bytes * bytes) -> bool := lex Before (lex bytes_ltb bytes_ltb).
Lemma queue_less_lex a b : queue_less a b = queue_lt (queue_key a) (queue_key b).
Proof.
  unfold queue_less, queue_lt, lex, queue_key. cbn. destruct (Equal (ce_expiry a) (ce_expiry b)) eqn:E.
  - apply Equal_spec in E. rewrite decide_True by done. destruct (bytes_equal _ _) eqn:Eo.
    + apply bytes_equal_eq in Eo. by rewrite decide_True.
    + rewrite decide_False; [done | ]. intros Ho%bytes_equal_eq. congruence.
  - rewrite decide_False; [done | ]. intros Ht%Equal_spec. congruence.
Qed.
Lemma strict_total_bytes : strict_total bytes_ltb.
Proof. split_and!; [apply bytes_ltb_irrefl | apply bytes_ltb_trans | apply bytes_ltb_total]. Qed.
Lemma strict_total_Before : strict_total Before.
Proof.
  unfold Before. split_and!.
  - intros a. destruct (time_cmp a a) as [(H & N & _) | [_ | (H & N & _)]]; try done. unfold After. lia.
  - intros a b c H1 H2. by apply (After_trans c b a).
  - intros a b H1 H2. destruct (time_cmp a b) as [(H & _) | [H | (H & _)]]; congruence.
Qed.
Lemma queue_le_trans a b c : le queue_less a b -> le queue_less b c -> le queue_less a c.
Proof.
  unfold le. rewrite !queue_less_lex.
  apply (proj1 (strict_total_le queue_key queue_lt
    (strict_total_lex _ _ strict_total_Before (strict_total_lex _ _ strict_total_bytes strict_total_bytes))) a b c).
Qed.
Lemma queue_less_le a b : queue_less a b = true -> le queue_less a b.
Proof.
  unfold le. rewrite !queue_less_lex.
  apply (proj2 (strict_total_le queue_key queue_lt
    (strict_total_lex _ _ strict_total_Before (strict_total_lex _ _ strict_total_bytes strict_total_bytes))) a b).
Qed.
Lemma set_expiryIndex_twice i j e : set_expiryIndex i (set_expiryIndex j e) = set_expiryIndex i e.
Proof. done. Qed.
Lemma queue_less_index i j a b : queue_less (set_expiryIndex i a) (set_expiryIndex j b) = queue_less a b.
Proof. done. Qed.
(** The order reads only the expiry and the key. *)
Lemma queue_less_ext a a' b b' : queue_key a' = queue_key a -> queue_key b' = queue_key b -> queue_less a' b' = queue_less a b.
Proof. intros Ha Hb. by rewrite !queue_less_lex, Ha, Hb. Qed.
Lemma queue_le_expiry a b now : le queue_less a b -> Before now (ce_expiry a) = true -> Before now (ce_expiry b) = true.
Proof.
  unfold le, Before. rewrite queue_less_lex. unfold queue_lt, lex, queue_key, Before. cbn. intros Hle Ha.
  destruct (decide (ce_expiry b = ce_expiry a)) as [-> | Hne]; [done | ].
  destruct (time_cmp (ce_expiry a) (ce_expiry b)) as [(H & _) | [H | (H & _)]]; [congruence | congruence | by apply (After_trans _ (ce_expiry a))].
Qed.

Abbreviation cpheap := (pheap set_expiryIndex queue_less).
Lemma cpheap_push v m l p e :
  cpheap v (m, l) -> p ∉ l -> m !! p = Some e -> (forall i, set_expiryIndex i e = set_expiryIndex i (v p)) ->
  cpheap v (ptr_Push set_expiryIndex queue_less p (m, l)) /\ (ptr_Push set_expiryIndex queue_less p (m, l)).2 ≡ₚ p :: l /\
  only_touches (p :: l) m (ptr_Push set_expiryIndex queue_less p (m, l)).1.
Proof. apply pheap_push; [apply set_expiryIndex_twice | apply queue_less_index | apply queue_le_trans | apply queue_less_le]. Qed.
Lemma cpheap_remove v m l i p :
  cpheap v (m, l) -> l !! i = Some p ->
  exists h', ptr_Remove set_expiryIndex queue_less i (m, l) = Some (p, h') /\ cpheap v h' /\ p :: h'.2 ≡ₚ l /\
    h'.1 !! p = Some (set_expiryIndex (-1) (v p)) /\ only_touches l m h'.1.
Proof. apply pheap_remove; [apply set_expiryIndex_twice | apply queue_less_index | apply queue_le_trans | apply queue_less_le]. Qed.
Lemma cpheap_fix v v' m m' l i p :
  cpheap v (m, l) -> l !! i = Some p -> (forall q, q <> p -> v' q = v q) ->
  m' !! p = Some (set_expiryIndex (Z.of_nat i) (v' p)) -> (forall q, q <> p -> m' !! q = m !! q) ->
  cpheap v' (ptr_Fix set_expiryIndex queue_less i (m', l)) /\ (ptr_Fix set_expiryIndex queue_less i (m', l)).2 ≡ₚ l /\
  only_touches l m' (ptr_Fix set_expiryIndex queue_less i (m', l)).1.
Proof. apply pheap_fix; [apply set_expiryIndex_twice | apply queue_less_index | apply queue_le_trans | apply queue_less_le]. Qed.

(** ** Coherence and contents *)
Abbreviation item := (cacheKey * (cacheValue * Time))%type.
Definition item_of (e : cacheEntry) : item := (ce_key e, (ce_value e, ce_expiry e)).
Definition contents (c : outcomeCache) : list item :=
  omap (fun p => item_of <$> oc_memory c !! p) (oc_recency c).
Definition live_entry (e : cacheEntry) : Prop :=
  ce_recency e = true /\ cacheKeyValid (ce_key e) = true /\ cacheValueValidForKey (ce_value e) (ce_key e) = true /\
  IsZero (ce_expiry e) = false.
(** The three indexes hold the same entries; [v] is the entries without their
    places in the heap. *)
Record cache_rel (v : positive -> cacheEntry) (c : outcomeCache) : Prop := MkCacheRel {
  cr_capacity : 0 < oc_capacity c;
  cr_clock : oc_clock c = true;
  cr_heap : cpheap v (oc_heap c);
  cr_perm : oc_expiries c ≡ₚ oc_recency c;
  cr_entries : forall k o, oc_entries c !! k = Some o <-> exists p, o = Some p /\ p ∈ oc_recency c /\ ce_key (v p) = k;
  cr_live : forall p, p ∈ oc_recency c -> live_entry (v p);
  cr_size : len (oc_recency c) <= oc_capacity c }.
Definition cache_ok (c : outcomeCache) : Prop := exists v, cache_rel v c.
Definition same_config (c c' : outcomeCache) : Prop := oc_capacity c' = oc_capacity c /\ oc_clock c' = oc_clock c.

Section cache_rel.
Context (v : positive -> cacheEntry) (c : outcomeCache) (Hc : cache_rel v c).
Lemma cr_nodup : NoDup (oc_recency c).
Proof using Hc. rewrite <- (cr_perm _ _ Hc). apply (cr_heap _ _ Hc). Qed.
Lemma cr_place p : p ∈ oc_recency c ->
  exists i, oc_expiries c !! i = Some p /\ oc_memory c !! p = Some (set_expiryIndex (Z.of_nat i) (v p)).
Proof using Hc.
  intros Hp. rewrite <- (cr_perm _ _ Hc) in Hp. apply list_elem_of_lookup in Hp as [i Hi]. exists i. split; [done | ].
  apply (cr_heap _ _ Hc). exact Hi.
Qed.
Lemma contents_items : contents c = (fun p : positive => item_of (v p)) <$> oc_recency c.
Proof using Hc.
  unfold contents. assert (forall l : list positive, (forall p : positive, p ∈ l -> p ∈ oc_recency c) ->
    omap (fun p => item_of <$> oc_memory c !! p) l = (fun p => item_of (v p)) <$> l) as H.
  { induction l as [|p l IH]; intros Hl; [done | ]. cbn. destruct (cr_place p) as (i & _ & ->); [apply Hl, list_elem_of_here | ].
    cbn. rewrite IH; [done | ]. intros q Hq. by apply Hl, list_elem_of_further. }
  by apply H.
Qed.
Lemma key_pointer p q : p ∈ oc_recency c -> q ∈ oc_recency c -> ce_key (v p) = ce_key (v q) -> p = q.
Proof using Hc.
  intros Hp Hq E.
  assert (oc_entries c !! ce_key (v p) = Some (Some p)) as Ep by (apply (cr_entries _ _ Hc); by exists p).
  assert (oc_entries c !! ce_key (v p) = Some (Some q)) as Eq by (apply (cr_entries _ _ Hc); by exists q).
  congruence.
Qed.
Lemma contents_nodup : NoDup (contents c).*1.
Proof using Hc.
  rewrite contents_items, <- list_fmap_compose. apply NoDup_fmap_2_strong; [ | apply cr_nodup].
  intros p q Hp Hq E. by apply key_pointer.
Qed.
Lemma entries_length : size (oc_entries c) = length (oc_recency c).
Proof using Hc.
  rewrite <- length_map_to_list, <- (length_fmap snd), <- (length_fmap Some (oc_recency c)). apply Permutation_length, NoDup_Permutation.
  - apply NoDup_fmap_2_strong; [ | apply NoDup_map_to_list].
    intros [k o] [k' o'] Hk Hk'. apply elem_of_map_to_list, (cr_entries _ _ Hc) in Hk as (p & -> & Hp & <-).
    apply elem_of_map_to_list, (cr_entries _ _ Hc) in Hk' as (p' & -> & Hp' & <-). cbn. by intros [= ->].
  - apply NoDup_fmap_2; [apply _ | apply cr_nodup].
  - intros o. rewrite !list_elem_of_fmap. split.
    + intros ([k o'] & -> & Hk). apply elem_of_map_to_list, (cr_entries _ _ Hc) in Hk as (p & -> & Hp & _). by exists p.
    + intros (p & -> & Hp). exists (ce_key (v p), Some p). split; [done | ]. apply elem_of_map_to_list, (cr_entries _ _ Hc). by exists p.
Qed.
Lemma contents_entry p : p ∈ oc_recency c -> item_of (v p) ∈ contents c.
Proof using Hc. intros Hp. rewrite contents_items. by apply (list_elem_of_fmap_2 (fun p => item_of (v p))). Qed.
End cache_rel.

Definition without (k : cacheKey) (l : list item) : list item := filter (fun x => x.1 <> k) l.
Lemma map_without v p l :
  (forall q, q ∈ l -> ce_key (v q) = ce_key (v p) -> q = p) ->
  (fun q => item_of (v q)) <$> list_Remove p l = without (ce_key (v p)) ((fun q => item_of (v q)) <$> l).
Proof.
  intros H. unfold list_Remove, without. induction l as [|q l IH]; [done | ]. rewrite fmap_cons, !filter_cons. cbn [fst item_of].
  assert (forall q, q ∈ l -> ce_key (v q) = ce_key (v p) -> q = p) as Hl by (intros r Hr; apply H; by apply list_elem_of_further).
  destruct (decide (q <> p)) as [N | N].
  - rewrite decide_True by (intros E; apply N, H; [apply list_elem_of_here | done]). rewrite fmap_cons. by rewrite IH.
  - apply dec_stable in N as ->. rewrite decide_False by (intros N; by apply N). by apply IH.
Qed.

(** ** Removal *)
Lemma elem_of_list_Remove p q l : q ∈ list_Remove p l <-> q ∈ l /\ q <> p.
Proof. unfold list_Remove. rewrite list_elem_of_filter. tauto. Qed.
Lemma indexed_at v c i p r :
  cache_rel v c -> oc_expiries c !! i = Some p ->
  oc_memory c !! p = Some (set_expiryIndex (Z.of_nat i) (v p)) ->
  forall c', oc_expiries c' = oc_expiries c -> oc_memory c' !! p = Some (set_expiryIndex (Z.of_nat i) r) ->
  expiryEntryIndexed c' p = true.
Proof.
  intros _ Hi _ c' He Hm. unfold expiryEntryIndexed. rewrite Hm, He. cbn [ce_expiryIndex set_expiryIndex].
  rewrite Nat2Z.id, Hi. pose proof (lookup_lt_Some _ _ _ Hi). unfold len.
  rewrite bool_decide_eq_true_2 by done. apply andb_true_iff. split; [lia | done].
Qed.

Lemma removeEntry_rel v c p :
  cache_rel v c -> p ∈ oc_recency c ->
  exists c', removeEntryLocked (ce_key (v p)) (Some p) c = Ret c' /\ cache_rel v c' /\ same_config c c' /\
    oc_recency c' = list_Remove p (oc_recency c) /\ contents c' = without (ce_key (v p)) (contents c) /\
    length (oc_expiries c) = S (length (oc_expiries c')).
Proof.
  intros Hc Hp. destruct (cr_place v c Hc p Hp) as (i & Hi & Hm).
  assert (oc_entries c !! ce_key (v p) = Some (Some p)) as Hent by (apply (cr_entries _ _ Hc); by exists p).
  destruct (cr_live _ _ Hc p Hp) as (Hrec & _).
  unfold removeEntryLocked. rewrite Hent, decide_True by done. cbn [with_entries oc_memory]. rewrite Hm.
  cbn [ce_recency set_expiryIndex]. rewrite Hrec.
  set (m1 := alter (set_recency false) p (oc_memory c)). set (v1 := <[p := set_recency false (v p)]> v).
  cbn [oc_memory oc_entries with_recency with_memory].
  assert (m1 !! p = Some (set_expiryIndex (Z.of_nat i) (v1 p))) as Hm1.
  { unfold m1, v1. rewrite lookup_alter_eq, Hm, fn_lookup_insert. done. }
  rewrite (indexed_at v c i p (v1 p) Hc Hi Hm) by done. cbn [ce_expiryIndex set_expiryIndex]. rewrite Nat2Z.id.
  assert (cpheap v1 (m1, oc_expiries c)) as Hh1.
  { eapply pheap_change; [apply (cr_heap _ _ Hc) | | ].
    - intros j q Hj. destruct (decide (q = p)) as [-> | Hq].
      + by rewrite (NoDup_lookup _ _ _ _ (proj1 (cr_heap _ _ Hc)) Hj Hi).
      + unfold m1, v1. rewrite lookup_alter_ne, fn_lookup_insert_ne by done. by apply (cr_heap _ _ Hc).
    - intros q r _ _. apply queue_less_ext; unfold v1;
        [destruct (decide (q = p)) as [-> | ?] | destruct (decide (r = p)) as [-> | ?]];
        rewrite ?fn_lookup_insert, ?fn_lookup_insert_ne by done; done. }
  destruct (cpheap_remove v1 m1 (oc_expiries c) i p Hh1 Hi) as ([m' l'] & Erem & Hh' & Hperm & _ & Htouch). cbn [fst snd] in *.
  match goal with |- context [ptr_Remove _ _ _ ?h] => change h with (m1, oc_expiries c) end. rewrite Erem.
  assert (NoDup (p :: l')) as Hnd by (rewrite Hperm; apply (cr_heap _ _ Hc)). apply NoDup_cons in Hnd as [Hpl' Hnd'].
  eexists. split; [done | ].
  assert (cache_rel v (with_heap (MkCache m1 (delete (ce_key (v p)) (oc_entries c)) (oc_capacity c) (oc_clock c)
    (list_Remove p (oc_recency c)) (oc_expiries c)) (m', l'))) as Hc'.
  { split; cbn; try apply Hc.
    - eapply pheap_change; [exact Hh' | | ].
      + cbn. intros j q Hj. destruct Hh' as (_ & Hpl & _). pose proof (Hpl j q Hj) as Hmq. cbn [fst snd] in Hmq. rewrite Hmq. unfold v1.
        rewrite fn_lookup_insert_ne; [done | ]. intros <-. apply Hpl'. by eapply list_elem_of_lookup_2.
      + cbn. intros q r Hq Hr. unfold v1. rewrite !fn_lookup_insert_ne; [done | | ]; by intros <-.
    - apply (Permutation_cons_inv (a := p)). rewrite Hperm, (cr_perm _ _ Hc).
      unfold list_Remove. pose proof (cr_nodup v c Hc) as Hn. clear -Hp Hn.
      induction (oc_recency c) as [|q l IH]; [by apply elem_of_nil in Hp | ]. apply NoDup_cons in Hn as [Hq Hn]. rewrite filter_cons.
      destruct (decide (q <> p)) as [N | N].
      + rewrite perm_swap. f_equiv. apply IH; [ | done]. by apply elem_of_cons in Hp as [-> | Hp].
      + apply dec_stable in N as ->. f_equiv. rewrite filter_all_True; [done | ]. apply Forall_forall. by intros r Hr ->.
    - intros k o. destruct (decide (k = ce_key (v p))) as [-> | Hk].
      + rewrite lookup_delete_eq. split; [done | ]. intros (q & -> & [Hq Hne]%elem_of_list_Remove & E).
        by destruct Hne; apply (key_pointer v c Hc).
      + rewrite lookup_delete_ne by done. rewrite (cr_entries _ _ Hc). setoid_rewrite elem_of_list_Remove. split.
        * intros (q & -> & Hq & <-). exists q. split_and!; [done | done | by intros -> | done].
        * intros (q & -> & [Hq _] & <-). by exists q.
    - intros q [Hq _]%elem_of_list_Remove. by apply Hc.
    - pose proof (cr_size _ _ Hc) as Hs. unfold len, list_Remove in *.
      pose proof (length_filter (fun q => q <> p) (oc_recency c)). lia. }
  split_and!; [exact Hc' | done | done | | ].
  - rewrite (contents_items v c Hc). etrans; [exact (contents_items v _ Hc') | ]. apply map_without.
    intros q Hq E. by apply (key_pointer v c Hc).
  - cbn. by rewrite <- Hperm.
Qed.

(** ** Purging *)
Definition alive (now : Time) (l : list item) : list item := filter (fun x => Before now x.2.2 = true) l.
Lemma alive_without now k l :
  (forall x, x ∈ l -> x.1 = k -> Before now x.2.2 = false) -> alive now (without k l) = alive now l.
Proof.
  intros H. unfold alive, without. induction l as [|x l IH]; [done | ]. rewrite !filter_cons.
  assert (forall x, x ∈ l -> x.1 = k -> Before now x.2.2 = false) as Hl by (intros y Hy; apply H; by apply list_elem_of_further).
  destruct (decide (x.1 <> k)) as [N | N].
  - rewrite filter_cons. destruct (decide _); [f_equal | ]; by apply IH.
  - apply dec_stable in N. rewrite (decide_False (P := Before now x.2.2 = true)); [by apply IH | ].
    rewrite (H x) by (done || apply list_elem_of_here). done.
Qed.

Lemma purge_rel v c now :
  cache_rel v c ->
  exists c', purgeExpiredLocked now c = Ret c' /\ cache_rel v c' /\ same_config c c' /\ contents c' = alive now (contents c).
Proof.
  unfold purgeExpiredLocked. assert (forall fuel c, (length (oc_expiries c) < fuel)%nat -> cache_rel v c ->
    exists c', purgeLoop fuel now c = Ret c' /\ cache_rel v c' /\ same_config c c' /\ contents c' = alive now (contents c)) as H.
  2: { intros Hc. by apply H; [lia | ]. }
  clear c. induction fuel as [|fuel IH]; intros c Hf Hc; [lia | ]. cbn [purgeLoop].
  destruct (oc_expiries c) as [|p l] eqn:El.
  - exists c. split_and!; [done | done | done | ]. rewrite (contents_items v c Hc).
    pose proof (cr_perm _ _ Hc) as Hp. rewrite El in Hp. apply Permutation_nil_l in Hp. by rewrite <- Hp.
  - assert (p ∈ oc_recency c) as Hp by (rewrite <- (cr_perm _ _ Hc), El; apply list_elem_of_here).
    destruct (cr_place v c Hc p Hp) as (i & Hi & Hm). rewrite Hm. cbn [ce_expiry ce_key set_expiryIndex].
    destruct (Before now (ce_expiry (v p))) eqn:Eb; cbn [negb].
    + exists c. split_and!; [done | done | done | ]. rewrite (contents_items v c Hc). unfold alive.
      symmetry. apply filter_all_True. apply Forall_forall. intros x Hx. apply list_elem_of_fmap in Hx as (q & -> & Hq).
      cbn. rewrite <- (cr_perm _ _ Hc) in Hq. apply list_elem_of_lookup in Hq as [j Hj].
      apply (queue_le_expiry (v p) (v q)); [ | done].
      destruct (cr_heap _ _ Hc) as (_ & _ & Ho).
      apply (heap_min (value_less queue_less v) (fun a b c => queue_le_trans (v a) (v b) (v c)) (length (oc_expiries c)) (oc_expiries c) j p q Ho);
        [by eapply lookup_lt_Some | | by rewrite El | done].
      intros a. unfold le, value_less. rewrite queue_less_lex.
      apply (strict_total_lex _ _ strict_total_Before (strict_total_lex _ _ strict_total_bytes strict_total_bytes)).
    + destruct (removeEntry_rel v c p Hc Hp) as (c1 & -> & Hc1 & [Hcap Hclk] & _ & Hcont & Hlen). cbn [obind].
      rewrite El in Hlen. cbn in Hlen, Hf. destruct (IH c1 ltac:(lia) Hc1) as (c' & -> & Hc' & [Hcap' Hclk'] & Hcont').
      exists c'. split_and!; [done | done | split; congruence | ]. rewrite Hcont', Hcont. apply alive_without.
      intros x Hx Ek. rewrite (contents_items v c Hc) in Hx. apply list_elem_of_fmap in Hx as (q & -> & Hq).
      cbn in Ek |- *. by rewrite (key_pointer v c Hc q p Hq Hp Ek).
Qed.

(** ** Eviction and insertion *)
Lemma without_absent k (l : list item) : k ∉ l.*1 -> without k l = l.
Proof. intros Hk. apply filter_all_True, Forall_forall. intros x Hx <-. by apply Hk, list_elem_of_fmap_2. Qed.
Lemma without_head x (l : list item) : NoDup (x :: l).*1 -> without x.1 (x :: l) = l.
Proof.
  intros [Hx _]%NoDup_cons. unfold without. rewrite filter_cons_False; [by apply without_absent | ]. intros N. by apply N.
Qed.
Lemma entry_absent v c k : cache_rel v c -> oc_entries c !! k = None <-> k ∉ (contents c).*1.
Proof.
  intros Hc. rewrite (contents_items v c Hc). split.
  - intros Hn (x & Hk & (p & -> & Hp)%list_elem_of_fmap)%list_elem_of_fmap. cbn in Hk. subst k.
    assert (oc_entries c !! ce_key (v p) = Some (Some p)) by (apply (cr_entries _ _ Hc); by exists p). congruence.
  - intros Hk. destruct (oc_entries c !! k) as [o | ] eqn:Eo; [ | done].
    apply (cr_entries _ _ Hc) in Eo as (p & -> & Hp & <-). destruct Hk.
    rewrite <- list_fmap_compose. by apply (list_elem_of_fmap_2 (fst ∘ (fun p => item_of (v p)))).
Qed.

Lemma evict_rel v c x l :
  cache_rel v c -> contents c = x :: l ->
  exists c', evictLeastRecentLocked c = Ret c' /\ cache_rel v c' /\ same_config c c' /\ contents c' = l.
Proof.
  intros Hc Hl. pose proof (contents_nodup v c Hc) as Hnd. rewrite Hl in Hnd.
  pose proof (contents_items v c Hc) as Hi. rewrite Hl in Hi. unfold evictLeastRecentLocked.
  destruct (oc_recency c) as [|p r] eqn:Er; [done | ]. cbn in Hi.
  assert (p ∈ oc_recency c) as Hp by (rewrite Er; apply list_elem_of_here).
  destruct (cr_place v c Hc p Hp) as (i & _ & ->). cbn [ce_key set_expiryIndex].
  destruct (removeEntry_rel v c p Hc Hp) as (c' & -> & Hc' & Hs & _ & Hcont & _).
  exists c'. split_and!; [done | done | done | ]. rewrite Hcont, Hl.
  change (ce_key (v p)) with (item_of (v p)).1. replace (item_of (v p)) with x by congruence. by apply without_head.
Qed.

Lemma contents_length v c : cache_rel v c -> length (contents c) = length (oc_recency c).
Proof. intros Hc. rewrite (contents_items v c Hc). apply length_fmap. Qed.
Lemma oc_heap_with c h : oc_heap (with_heap c h) = h.
Proof. by destruct h. Qed.
Lemma insert_rel v c key value expiry :
  cache_rel v c -> oc_entries c !! key = None -> len (oc_recency c) < oc_capacity c ->
  live_entry (MkCacheEntry key value expiry true (-1)) ->
  let p := fresh (dom (oc_memory c)) in
  let entry := MkCacheEntry key value expiry true (-1) in
  let c1 := with_recency (with_memory c (<[p := entry]> (oc_memory c))) (oc_recency c ++ [p]) in
  let c' := pushExpiry p (with_entries c1 (<[key := Some p]> (oc_entries c1))) in
  cache_rel (<[p := entry]> v) c' /\ same_config c c' /\ contents c' = contents c ++ [(key, (value, expiry))].
Proof.
  intros Hc Hk Hcap Hlive p entry c1 c'.
  assert (forall q, q ∈ oc_recency c -> q <> p) as Hfresh.
  { intros q Hq ->. destruct (cr_place v c Hc p Hq) as (i & _ & Hm).
    apply (is_fresh (dom (oc_memory c))). apply elem_of_dom. by eexists. }
  assert (forall q, q ∈ oc_recency c -> (<[p := entry]> v) q = v q) as Hv.
  { intros q Hq. apply fn_lookup_insert_ne. intros ->. by apply (Hfresh q). }
  assert (p ∉ oc_expiries c) as Hp by (rewrite (cr_perm _ _ Hc); intros Hp; by apply (Hfresh p)).
  assert (cpheap (<[p := entry]> v) (<[p := entry]> (oc_memory c), oc_expiries c)) as Hh.
  { eapply pheap_change; [apply (cr_heap _ _ Hc) | | ].
    - intros i q Hi. assert (q <> p) by (intros ->; apply Hp; by eapply list_elem_of_lookup_2).
      rewrite lookup_insert_ne, fn_lookup_insert_ne by done. by apply (cr_heap _ _ Hc).
    - intros q r Hq Hr. by rewrite !fn_lookup_insert_ne by (intros <-; by apply Hp). }
  destruct (cpheap_push _ _ _ p entry Hh Hp) as (Hh' & Hperm & _); [by rewrite lookup_insert_eq | | ].
  { intros i. by rewrite fn_lookup_insert. }
  assert (cache_rel (<[p := entry]> v) c') as Hc'.
  { split; [apply Hc | apply Hc | | | | | ].
    - unfold c', pushExpiry. rewrite oc_heap_with. exact Hh'.
    - etrans; [exact Hperm | ]. rewrite (cr_perm _ _ Hc). apply Permutation_cons_append.
    - intros k o. cbn. destruct (decide (k = key)) as [-> | Hne].
      + rewrite lookup_insert_eq. split.
        * intros [= <-]. exists p. split_and!; [done | apply elem_of_app; right; apply list_elem_of_here | by rewrite fn_lookup_insert].
        * intros (q & -> & [Hq | ->%list_elem_of_singleton]%elem_of_app & E); [ | done].
          rewrite Hv in E by done. assert (oc_entries c !! key = Some (Some q)) by (apply (cr_entries _ _ Hc); by exists q). congruence.
      + rewrite lookup_insert_ne by done. rewrite (cr_entries _ _ Hc). split.
        * intros (q & -> & Hq & E). exists q. rewrite Hv by done. split_and!; [done | apply elem_of_app; by left | done].
        * intros (q & -> & [Hq | ->%list_elem_of_singleton]%elem_of_app & E).
          -- exists q. by rewrite Hv in E by done.
          -- by rewrite fn_lookup_insert in E.
    - intros q [Hq | ->%list_elem_of_singleton]%elem_of_app.
      + rewrite Hv by done. by apply Hc.
      + by rewrite fn_lookup_insert.
    - unfold len in *. cbn. rewrite length_app. cbn. lia. }
  split_and!; [exact Hc' | done | ]. etrans; [exact (contents_items _ _ Hc') | ].
  rewrite (contents_items v c Hc). change (oc_recency c') with (oc_recency c ++ [p]). rewrite fmap_app. f_equal.
  - apply list_fmap_ext. intros i q Hq%list_elem_of_lookup_2. by rewrite Hv.
  - cbn. by rewrite fn_lookup_insert.
Qed.

(** ** Replacement and recency *)
Lemma list_Remove_perm p l : NoDup l -> p ∈ l -> p :: list_Remove p l ≡ₚ l.
Proof.
  intros Hn Hp. unfold list_Remove. induction l as [|q l IH]; [by apply elem_of_nil in Hp | ].
  apply NoDup_cons in Hn as [Hq Hn]. rewrite filter_cons. destruct (decide (q <> p)) as [N | N].
  - rewrite perm_swap. f_equiv. apply IH; [done | ]. by apply elem_of_cons in Hp as [-> | Hp].
  - apply dec_stable in N as ->. f_equiv. rewrite filter_all_True; [done | ]. apply Forall_forall. by intros r Hr ->.
Qed.
Lemma MoveToBack_perm p l : NoDup l -> list_MoveToBack p l ≡ₚ l.
Proof.
  intros Hn. unfold list_MoveToBack. case_bool_decide as Hp; [ | done].
  by rewrite <- Permutation_cons_append, list_Remove_perm.
Qed.
(** Moving an entry to the back keeps the cache coherent. *)
Lemma cache_rel_permuted v c l : cache_rel v c -> l ≡ₚ oc_recency c -> cache_rel v (with_recency c l).
Proof.
  intros Hc Hl. split; cbn; try apply Hc.
  - by rewrite Hl, (cr_perm _ _ Hc).
  - intros k o. rewrite (cr_entries _ _ Hc). by setoid_rewrite Hl.
  - intros p Hp. apply Hc. by rewrite <- Hl.
  - unfold len. rewrite Hl. apply Hc.
Qed.
Lemma move_rel v c p :
  cache_rel v c -> p ∈ oc_recency c ->
  let c' := with_recency c (list_MoveToBack p (oc_recency c)) in
  cache_rel v c' /\ contents c' = without (ce_key (v p)) (contents c) ++ [item_of (v p)].
Proof.
  intros Hc Hp c'. assert (cache_rel v c') as Hc' by (apply cache_rel_permuted; [done | apply MoveToBack_perm, (cr_nodup v c Hc)]).
  split; [done | ]. rewrite (contents_items v c' Hc'), (contents_items v c Hc). cbn. unfold list_MoveToBack.
  rewrite bool_decide_true by done. rewrite fmap_app. f_equal. apply map_without. intros q Hq E. by apply (key_pointer v c Hc).
Qed.

Lemma update_rel v c p value expiry :
  cache_rel v c -> p ∈ oc_recency c -> live_entry (set_outcome value expiry (v p)) ->
  exists v' c', updateExisting p value expiry c = Ret (true, c') /\ cache_rel v' c' /\ same_config c c' /\
    contents c' = without (ce_key (v p)) (contents c) ++ [(ce_key (v p), (value, expiry))].
Proof.
  intros Hc Hp Hlive. destruct (cr_place v c Hc p Hp) as (i & Hi & Hm). unfold updateExisting.
  set (v' := <[p := set_outcome value expiry (v p)]> v). set (m1 := alter (set_outcome value expiry) p (oc_memory c)).
  assert (m1 !! p = Some (set_expiryIndex (Z.of_nat i) (v' p))) as Hm1.
  { unfold m1, v'. rewrite lookup_alter_eq, Hm, fn_lookup_insert. done. }
  assert (forall q, q <> p -> v' q = v q) as Hv' by (intros q Hq; by apply fn_lookup_insert_ne).
  assert (forall q, ce_key (v' q) = ce_key (v q)) as Hkey.
  { intros q. destruct (decide (q = p)) as [-> | Hq]; [unfold v'; by rewrite fn_lookup_insert | by rewrite Hv']. }
  cbn [with_recency with_memory oc_memory oc_recency]. rewrite Hm1. rewrite (indexed_at v c i p (v' p) Hc Hi Hm) by done.
  cbn [ce_expiryIndex set_expiryIndex]. rewrite Nat2Z.id.
  destruct (cpheap_fix v v' (oc_memory c) m1 (oc_expiries c) i p (cr_heap _ _ Hc) Hi Hv' Hm1) as (Hh & Hperm & _).
  { intros q Hq. by apply lookup_alter_ne. }
  eexists v', _. split; [done | ].
  match goal with |- cache_rel _ ?c0 /\ _ => set (c' := c0) end.
  assert (oc_recency c' = list_MoveToBack p (oc_recency c)) as Hr by done.
  pose proof (MoveToBack_perm p _ (cr_nodup v c Hc)) as Hmove.
  assert (cache_rel v' c') as Hc'.
  { split; [apply Hc | apply Hc | | | | | ]; try rewrite Hr.
    - unfold c'. rewrite oc_heap_with. exact Hh.
    - etrans; [exact Hperm | ]. by rewrite Hmove, (cr_perm _ _ Hc).
    - intros k o. change (oc_entries c' !! k) with (oc_entries c !! k). rewrite (cr_entries _ _ Hc). setoid_rewrite Hmove. by setoid_rewrite Hkey.
    - intros q. rewrite Hmove. intros Hq. destruct (decide (q = p)) as [-> | Hne].
      + unfold v'. by rewrite fn_lookup_insert.
      + rewrite Hv' by done. by apply Hc.
    - unfold len. rewrite Hmove. apply Hc. }
  split_and!; [exact Hc' | done | ]. etrans; [exact (contents_items _ _ Hc') | ]. rewrite Hr, (contents_items v c Hc).
  unfold list_MoveToBack. rewrite bool_decide_true by done. rewrite fmap_app. f_equal.
  - rewrite <- map_without by (intros q Hq E; by apply (key_pointer v c Hc)). apply list_fmap_ext.
    intros j q Hq%list_elem_of_lookup_2. apply elem_of_list_Remove in Hq as [_ Hq]. by rewrite Hv'.
  - cbn. unfold v'. by rewrite fn_lookup_insert.
Qed.

(** ** The specification: lists of items *)
Definition evicted (capacity : Z) (l : list item) : list item := if capacity <=? len l then tail l else l.
Definition cached (k : cacheKey) (l : list item) : option (cacheValue * Time) := snd <$> List.find (fun x => bool_decide (x.1 = k)) l.
(** A lookup: a live item moves to the back, an expired one disappears. *)
Definition spec_lookup (k : cacheKey) (now : Time) (l : list item) : option cacheValue * list item :=
  match cached k l with
  | None => (None, l)
  | Some (value, expiry) => if Before now expiry then (Some value, without k l ++ [(k, (value, expiry))]) else (None, without k l)
  end.
(** A put: expired items go, the key's item is replaced, the least recently
    used one makes room. *)
Definition spec_put (capacity : Z) (k : cacheKey) (value : cacheValue) (expiry now : Time) (l : list item) : list item :=
  let l := alive now l in
  if cached k l then without k l ++ [(k, (value, expiry))] else evicted capacity l ++ [(k, (value, expiry))].

Lemma cached_elem k x l : NoDup l.*1 -> (k, x) ∈ l <-> cached k l = Some x.
Proof.
  unfold cached. induction l as [|y l IH]; [intros _; cbn; split; [by intros ?%elem_of_nil | done] | ].
  intros [Hy Hn]%NoDup_cons. cbn. case_bool_decide as E.
  - cbn. rewrite elem_of_cons. split.
    + intros [<- | Hx]; [done | ]. destruct Hy. rewrite E. by apply (list_elem_of_fmap_2 fst _ (k, x)).
    + intros [= <-]. left. by destruct y as [? ?]; cbn in *; subst.
  - rewrite <- IH by done. rewrite elem_of_cons. split; [intros [<- | Hx]; done | by right].
Qed.
Lemma cached_None k l : cached k l = None <-> k ∉ l.*1.
Proof.
  unfold cached. induction l as [|y l IH]; [cbn; split; [by intros _ ?%elem_of_nil | done] | ]. cbn. case_bool_decide as E.
  - split; [done | ]. intros []. rewrite <- E. apply list_elem_of_here.
  - rewrite IH. rewrite not_elem_of_cons. naive_solver.
Qed.
Lemma cached_pointer v c k x :
  cache_rel v c -> cached k (contents c) = Some x ->
  exists p, oc_entries c !! k = Some (Some p) /\ p ∈ oc_recency c /\ ce_key (v p) = k /\ (ce_value (v p), ce_expiry (v p)) = x.
Proof.
  intros Hc Hx. apply cached_elem in Hx; [ | by apply (contents_nodup v)]. rewrite (contents_items v c Hc) in Hx.
  apply list_elem_of_fmap in Hx as (p & [= Ek Ex] & Hp). exists p. split_and!; [ | done | done | done].
  apply (cr_entries _ _ Hc). by exists p.
Qed.

(** ** Each operation computes its specification *)
Lemma material_nil_iff m : material_is_nil m = true -> m = NilMaterial.
Proof. by destruct m. Qed.
Lemma cloneKeyOutcome_valid o : KeyOutcome_Valid o = true -> cloneKeyOutcome o = o.
Proof.
  intros Hv. unfold cloneKeyOutcome. rewrite Hv. cbn [negb]. destruct o as [st alg mat init]. cbn [ko_status ko_algorithm ko_material].
  unfold KeyOutcome_Valid in Hv. cbn [ko_status ko_algorithm ko_material ko_initialized] in Hv.
  destruct init; [ | done]. destruct (negb (KeyOutcomeStatus_Known st)); [done | ]. destruct (negb (Algorithm_Known alg)); [done | ].
  cbn [negb orb] in Hv. f_equal.
  destruct st; try (by apply material_nil_iff in Hv as ->); [done | ].
  destruct (bytes_equal alg AlgorithmRSASHA256).
  { destruct mat as [key| | | |]; try done. cbn in Hv |- *. by destruct key as [[[n | ] e] | ]. }
  destruct (bytes_equal alg AlgorithmEd25519SHA256); [by destruct mat | ].
  destruct (bytes_equal alg AlgorithmMLDSA44); [ | done].
  destruct mat; try done. cbn. by destruct (validMLDSA44PublicKey _) eqn:E; [ | cbv -[validMLDSA44PublicKey] in Hv; rewrite E in Hv].
Qed.
Lemma cloneCacheValue_valid value key : cacheValueValidForKey value key = true -> cloneCacheValue value = value.
Proof.
  unfold cacheValueValidForKey, cloneCacheValue. destruct value as [o p]. cbn. destruct (ValidAbsoluteOwner_kind _ _).
  - intros [Hz _]%andb_true_iff. unfold KeyOutcome_IsZero in Hz. destruct o as [st alg mat init]. cbn in Hz.
    apply andb_true_iff in Hz as [[[Hi Hs]%andb_true_iff Ha]%andb_true_iff Hm]. apply bool_decide_eq_true in Hs as ->.
    apply bytes_equal_eq in Ha as ->. apply material_nil_iff in Hm as ->. by destruct init.
  - intros [_ Ho]%andb_true_iff. f_equal. apply cloneKeyOutcome_valid. unfold cacheOutcomeValidForKey in Ho.
    by destruct (KeyOutcome_Valid o).
Qed.

Lemma lookup_refines v c key now :
  cache_rel v c ->
  exists c', KeyCache.lookup key now c =
      Ret (match (spec_lookup key now (contents c)).1 with
           | Some value => (value, true, false, c')
           | None => (zeroValue, false, false, c')
           end) /\
    cache_rel v c' /\ same_config c c' /\ contents c' = (spec_lookup key now (contents c)).2.
Proof.
  intros Hc. unfold KeyCache.lookup, spec_lookup. pose proof (cr_capacity _ _ Hc). rewrite (cr_clock _ _ Hc).
  rewrite (proj2 (Z.eqb_neq _ _)) by lia. cbn [negb orb].
  destruct (cached key (contents c)) as [[value expiry] | ] eqn:Ec.
  - destruct (cached_pointer v c key _ Hc Ec) as (p & Hent & Hp & Hk & [= Hv He]). rewrite Hent.
    destruct (cr_place v c Hc p Hp) as (i & _ & ->). destruct (cr_live _ _ Hc p Hp) as (Hl1 & Hl2 & Hl3 & Hl4).
    cbn [ce_key ce_value ce_expiry ce_recency set_expiryIndex]. rewrite Hk, Hv, He in *.
    rewrite bool_decide_true, Hl1, Hl2, Hl3, Hl4 by done. cbn [negb orb].
    destruct (Before now expiry); cbn [negb fst snd].
    + eexists. rewrite (cloneCacheValue_valid value key) by done. split; [done | ].
      destruct (move_rel v c p Hc Hp) as [Hc' Hcont]. split_and!; [exact Hc' | done | ]. rewrite Hcont. unfold item_of. by rewrite Hk, Hv, He.
    + rewrite <- Hk. destruct (removeEntry_rel v c p Hc Hp) as (c' & -> & Hc' & Hs & _ & Hcont & _). by exists c'.
  - apply cached_None, (entry_absent v c key Hc) in Ec. rewrite Ec. by exists c.
Qed.

Lemma cache_rel_counts v c : cache_rel v c ->
  size (oc_entries c) = length (oc_recency c) /\ size (oc_entries c) = length (oc_expiries c).
Proof. intros Hc. rewrite (entries_length v c Hc). split; [done | ]. by rewrite (cr_perm _ _ Hc). Qed.

Lemma insertNew_refines v c key value expiry :
  cache_rel v c -> oc_entries c !! key = None -> live_entry (MkCacheEntry key value expiry true (-1)) ->
  exists v' c', insertNew key value expiry c = Ret (true, c') /\ cache_rel v' c' /\ same_config c c' /\
    contents c' = evicted (oc_capacity c) (contents c) ++ [(key, (value, expiry))].
Proof.
  intros Hc Hk Hlive. unfold insertNew, evicted. destruct (cache_rel_counts v c Hc) as [Hsz _]. rewrite Hsz.
  pose proof (cr_capacity _ _ Hc) as Hcap. pose proof (contents_length v c Hc) as Hlen. unfold len. rewrite Hlen.
  destruct (Z.leb_spec (oc_capacity c) (Z.of_nat (length (oc_recency c)))) as [Hle | Hlt].
  - destruct (contents c) as [|x l] eqn:El; [cbn in Hlen; lia | ].
    destruct (evict_rel v c x l Hc El) as (c0 & -> & Hc0 & [Hs1 Hs2] & Hcont). cbn [obind tail].
    assert (oc_entries c0 !! key = None) as Hk0.
    { apply (entry_absent v c0 key Hc0). apply (entry_absent v c key Hc) in Hk. rewrite Hcont. rewrite El in Hk.
      intros Hin. apply Hk. by apply list_elem_of_further. }
    destruct (insert_rel v c0 key value expiry Hc0 Hk0) as (Hc' & [Hs1' Hs2'] & Hcont'); [ | done | ].
    { pose proof (contents_length v c0 Hc0) as Hl0. rewrite Hcont in Hl0. cbn in Hlen. pose proof (cr_size _ _ Hc). unfold len in *. lia. }
    eexists _, _. split; [done | ]. split_and!; [exact Hc' | split; congruence | ]. by rewrite <- Hcont.
  - destruct (insert_rel v c key value expiry Hc Hk Hlt Hlive) as (Hc' & Hs & Hcont).
    eexists _, _. split; [done | ]. split_and!; [exact Hc' | exact Hs | exact Hcont].
Qed.

Lemma putLocked_refines v c key value expiry now :
  cache_rel v c -> live_entry (MkCacheEntry key value expiry true (-1)) ->
  exists v' c', putLocked key value expiry now c = Ret (true, c') /\ cache_rel v' c' /\ same_config c c' /\
    contents c' = spec_put (oc_capacity c) key value expiry now (contents c).
Proof.
  intros Hc Hlive. unfold putLocked, spec_put.
  destruct (purge_rel v c now Hc) as (c0 & -> & Hc0 & [Hs1 Hs2] & Hcont). cbn [obind].
  destruct (cache_rel_counts v c0 Hc0) as [Hn1 Hn2]. rewrite (bool_decide_true (size (oc_entries c0) = length (oc_recency c0))) by done. rewrite (bool_decide_true (size (oc_entries c0) = length (oc_expiries c0))) by done. cbn [negb orb obind].
  rewrite <- Hcont, <- Hs1. destruct (cached key (contents c0)) as [[value0 expiry0] | ] eqn:Ec.
  - destruct (cached_pointer v c0 key _ Hc0 Ec) as (p & -> & Hp & Hk & _). destruct (cr_place v c0 Hc0 p Hp) as (i & _ & ->).
    destruct (cr_live _ _ Hc0 p Hp) as (Hl & _). cbn [ce_key ce_recency set_expiryIndex]. rewrite bool_decide_true, Hl by done. cbn [negb orb].
    destruct (update_rel v c0 p value expiry Hc0 Hp) as (v' & c' & -> & Hc' & [Hs1' Hs2'] & Hcont').
    { destruct Hlive as (_ & H2 & H3 & H4). split_and!; cbn in *; try done; by rewrite Hk. }
    exists v', c'. rewrite Hk in Hcont'. split_and!; [done | done | split; congruence | done].
  - apply cached_None, (entry_absent v c0 key Hc0) in Ec. rewrite Ec.
    destruct (insertNew_refines v c0 key value expiry Hc0 Ec Hlive) as (v' & c' & -> & Hc' & [Hs1' Hs2'] & Hcont').
    exists v', c'. split_and!; [done | done | split; congruence | done].
Qed.

(** ** Histories of operations *)
Inductive cacheOp :=
  | OpLookup (key : cacheKey) (now : Time)
  | OpPut (key : cacheKey) (value : cacheValue) (ttl : Z) (now : Time)
  | OpAdmit (key : cacheKey) (value : cacheValue) (expiry now : Time).
Inductive cacheResult := ResHit (value : cacheValue) | ResMiss | ResCorrupt | ResStored (ok : bool).
Definition run_op (op : cacheOp) (c : outcomeCache) : outcome unit (cacheResult * outcomeCache) :=
  match op with
  | OpLookup key now =>
      let* (value, hit, corrupt, c) := KeyCache.lookup key now c in
      Ret (if corrupt then ResCorrupt else if hit then ResHit value else ResMiss, c)
  | OpPut key value ttl now => let* (ok, c) := putValue key value ttl now c in Ret (ResStored ok, c)
  | OpAdmit key value expiry now =>
      match prepareAdmission c key value expiry now with
      | None => Ret (ResStored false, c)
      | Some admission => let* (ok, c) := commitAdmission admission c in Ret (ResStored ok, c)
      end
  end.
Fixpoint run_ops (ops : list cacheOp) (c : outcomeCache) : outcome unit (list cacheResult * outcomeCache) :=
  match ops with
  | [] => Ret ([], c)
  | op :: ops => let* (r, c) := run_op op c in let* (rs, c) := run_ops ops c in Ret (r :: rs, c)
  end.

(** What an operation stores, if it is accepted. *)
Definition op_stores (op : cacheOp) : option (cacheKey * (cacheValue * Time) * Time) :=
  match op with
  | OpLookup _ _ => None
  | OpPut key value ttl now =>
      if (ttl <=? 0) || (24 * Hour <? ttl) || negb (cacheKeyValid key) || negb (cacheValueValidForKey value key) ||
         negb (After (Add now ttl) now) || year_over_9999 (Add now ttl)
      then None else Some (key, (value, Add now ttl), now)
  | OpAdmit key value expiry now =>
      if IsZero expiry || negb (cacheKeyValid key) || negb (cacheValueValidForKey value key) ||
         negb (After expiry now) || year_over_9999 expiry
      then None else Some (key, (value, expiry), now)
  end.
Definition spec_op (capacity : Z) (op : cacheOp) (l : list item) : cacheResult * list item :=
  match op with
  | OpLookup key now => (if (spec_lookup key now l).1 is Some value then ResHit value else ResMiss, (spec_lookup key now l).2)
  | _ =>
      match op_stores op with
      | Some (key, (value, expiry), now) => (ResStored true, spec_put capacity key value expiry now l)
      | None => (ResStored false, l)
      end
  end.
Fixpoint spec_ops (capacity : Z) (ops : list cacheOp) (l : list item) : list cacheResult * list item :=
  match ops with
  | [] => ([], l)
  | op :: ops => ((spec_op capacity op l).1 :: (spec_ops capacity ops (spec_op capacity op l).2).1,
                  (spec_ops capacity ops (spec_op capacity op l).2).2)
  end.
(** The clock never gives a put the zero time as its expiry. *)
Definition op_clock_ok (op : cacheOp) : Prop :=
  match op with OpPut _ _ ttl now => IsZero (Add now ttl) = false | _ => True end.

Lemma run_op_refines c op :
  cache_ok c -> op_clock_ok op ->
  exists c', run_op op c = Ret ((spec_op (oc_capacity c) op (contents c)).1, c') /\ cache_ok c' /\ same_config c c' /\
    contents c' = (spec_op (oc_capacity c) op (contents c)).2.
Proof.
  intros [v Hc] Hop. pose proof (cr_capacity _ _ Hc) as Hcap.
  assert ((oc_capacity c =? 0) = false) as Hz by lia.
  destruct op as [key now | key value ttl now | key value expiry now]; cbn [run_op spec_op op_stores].
  - destruct (lookup_refines v c key now Hc) as (c' & -> & Hc' & Hs & Hcont). exists c'.
    split_and!; [by destruct (spec_lookup key now (contents c)) as [[value | ] l] | by exists v | done | done].
  - unfold putValue. rewrite Hz, (cr_clock _ _ Hc). cbn [negb orb].
    destruct (ttl <=? 0); [exists c; split_and!; [done | by exists v | done | done] | ].
    destruct (24 * Hour <? ttl); [exists c; split_and!; [done | by exists v | done | done] | ].
    destruct (cacheKeyValid key) eqn:Ek; [ | exists c; split_and!; [done | by exists v | done | done]].
    destruct (cacheValueValidForKey value key) eqn:Ev; [ | exists c; split_and!; [done | by exists v | done | done]].
    cbn [negb orb]. rewrite (cloneCacheValue_valid value key Ev).
    destruct (negb (After (Add now ttl) now) || year_over_9999 (Add now ttl)); [exists c; split_and!; [done | by exists v | done | done] | ].
    destruct (putLocked_refines v c key value (Add now ttl) now Hc) as (v' & c' & -> & Hc' & Hs & Hcont); [done | ].
    exists c'. split_and!; [done | by exists v' | done | done].
  - unfold prepareAdmission. rewrite Hz, (cr_clock _ _ Hc). cbn [negb orb].
    destruct (IsZero expiry) eqn:Ez; [exists c; split_and!; [done | by exists v | done | done] | ].
    destruct (cacheKeyValid key) eqn:Ek; [ | exists c; split_and!; [done | by exists v | done | done]].
    destruct (cacheValueValidForKey value key) eqn:Ev; [ | exists c; split_and!; [done | by exists v | done | done]].
    cbn [negb orb]. rewrite (cloneCacheValue_valid value key Ev).
    destruct (After expiry now) eqn:Ea; [ | exists c; split_and!; [done | by exists v | done | done]]. cbn [negb orb].
    destruct (year_over_9999 expiry); [exists c; split_and!; [done | by exists v | done | done] | ].
    unfold commitAdmission. cbn [ad_key ad_value ad_expiry ad_now]. rewrite Ek, Ev, Ez, Ea. cbn [negb orb].
    destruct (putLocked_refines v c key value expiry now Hc) as (v' & c' & -> & Hc' & Hs & Hcont); [done | ].
    exists c'. split_and!; [done | by exists v' | done | done].
Qed.

Lemma newOutcomeCache_ok capacity :
  0 < capacity <= hardMaxCacheEntries -> cache_ok (newOutcomeCache capacity true).
Proof.
  intros Hcap. exists (fun _ => MkCacheEntry (MkCacheKey [] []) zeroValue zeroTime true 0). unfold newOutcomeCache.
  rewrite (proj2 (Z.ltb_ge _ _)), (proj2 (Z.ltb_ge _ _)) by lia. cbn. split; cbn; try done; try lia.
  - split_and!; [constructor | done | ]. intros k Hk. cbn in Hk. lia.
  - intros k o. rewrite lookup_empty. split; [done | ]. by intros (p & _ & Hp%elem_of_nil & _).
  - by intros p Hp%elem_of_nil.
  - unfold len. cbn. lia.
Qed.

Lemma run_ops_refines ops : forall c,
  cache_ok c -> Forall op_clock_ok ops ->
  exists c', run_ops ops c = Ret ((spec_ops (oc_capacity c) ops (contents c)).1, c') /\ cache_ok c' /\
    same_config c c' /\ contents c' = (spec_ops (oc_capacity c) ops (contents c)).2.
Proof.
  induction ops as [|op ops IH]; intros c Hc Hops; cbn [run_ops spec_ops]; [by exists c | ].
  apply Forall_cons in Hops as [Hop Hops].
  destruct (run_op_refines c op Hc Hop) as (c1 & -> & Hc1 & [Hs1 Hs2] & Hcont). cbn [obind].
  destruct (IH c1 Hc1 Hops) as (c2 & -> & Hc2 & [Hs3 Hs4] & Hcont2). cbn [obind]. rewrite <- Hcont, <- Hs1.
  exists c2. split_and!; [done | done | split; congruence | done].
Qed.

(** ** Hits are the last accepted stores *)
Definition store_step (key : cacheKey) (acc : option (cacheValue * Time)) (op : cacheOp) : option (cacheValue * Time) :=
  match op_stores op with
  | Some (k, x, _) => if decide (k = key) then Some x else acc
  | None => acc
  end.
Definition last_stored (key : cacheKey) (ops : list cacheOp) : option (cacheValue * Time) := foldl (store_step key) None ops.
Definition all_last (ops : list cacheOp) (l : list item) : Prop := forall k x, (k, x) ∈ l -> last_stored k ops = Some x.

Lemma elem_without x k l : x ∈ without k l <-> x ∈ l /\ x.1 <> k.
Proof. unfold without. rewrite list_elem_of_filter. tauto. Qed.
Lemma cached_in k x l : cached k l = Some x -> (k, x) ∈ l.
Proof.
  unfold cached. induction l as [|y l IH]; [done | ]. cbn. case_bool_decide as E.
  - intros [= <-]. subst k. rewrite <- surjective_pairing. apply list_elem_of_here.
  - intros H. by apply list_elem_of_further, IH.
Qed.
Lemma spec_lookup_elem k now l x : x ∈ (spec_lookup k now l).2 -> x ∈ l.
Proof.
  unfold spec_lookup. destruct (cached k l) as [[value expiry] | ] eqn:Ec; [ | done].
  destruct (Before now expiry); cbn.
  - rewrite elem_of_app, elem_without, list_elem_of_singleton. intros [[H _] | ->]; [done | by apply cached_in].
  - rewrite elem_without. tauto.
Qed.
Lemma spec_put_elem capacity k value expiry now l x :
  x ∈ spec_put capacity k value expiry now l -> x = (k, (value, expiry)) \/ (x ∈ l /\ x.1 <> k).
Proof.
  unfold spec_put. assert (forall y, y ∈ alive now l -> y ∈ l) as Ha by (intros y [_ Hy]%list_elem_of_filter; done).
  destruct (cached k (alive now l)) eqn:Ec; rewrite elem_of_app, list_elem_of_singleton.
  - rewrite elem_without. naive_solver.
  - intros [Hx | ->]; [right | by left]. assert (x ∈ alive now l) as Hx'.
    { unfold evicted in Hx. destruct (capacity <=? _); [ | done]. destruct (alive now l); [done | by apply list_elem_of_further]. }
    split; [by apply Ha | ]. intros <-. apply cached_None in Ec. by apply Ec, list_elem_of_fmap_2.
Qed.
Lemma spec_op_last capacity ops op l : all_last ops l -> all_last (ops ++ [op]) (spec_op capacity op l).2.
Proof.
  intros H k x. unfold last_stored. rewrite foldl_app. cbn [foldl]. fold (last_stored k ops). unfold store_step.
  destruct op as [key now | key value ttl now | key value expiry now]; cbn [spec_op].
  1: { cbn. intros Hx%spec_lookup_elem. by apply H. }
  all: destruct (op_stores _) as [[[k' [value' expiry']] now'] | ]; cbn; [ | by apply H];
    intros [[= -> ->] | [Hx Hk]]%spec_put_elem; [by rewrite decide_True | cbn in Hk; rewrite decide_False by congruence; by apply H].
Qed.
Lemma spec_ops_app capacity ops ops' : forall l,
  spec_ops capacity (ops ++ ops') l =
    ((spec_ops capacity ops l).1 ++ (spec_ops capacity ops' (spec_ops capacity ops l).2).1,
     (spec_ops capacity ops' (spec_ops capacity ops l).2).2).
Proof. induction ops as [|op ops IH]; intros l; [cbn; by destruct (spec_ops _ _ _) | ]. cbn. by rewrite IH. Qed.
Lemma spec_ops_last capacity ops : all_last ops (spec_ops capacity ops []).2.
Proof.
  induction ops as [|op ops IH] using rev_ind; [by intros k x ?%elem_of_nil | ].
  rewrite spec_ops_app. cbn. by apply spec_op_last.
Qed.

(** C38: a cache of positive capacity, through any sequence of lookups, puts and
    admissions, never reports corruption and never faults: its answers and its
    contents, from the least to the most recently used, are those of the list
    specification, which purges expired items at every store and evicts the
    least recently used one for a new key when the cache is full; the three
    indexes keep the same size, which never exceeds the capacity. *)
Theorem outcome_cache_refines capacity ops :
  0 < capacity <= hardMaxCacheEntries -> Forall op_clock_ok ops ->
  exists c, run_ops ops (newOutcomeCache capacity true) = Ret ((spec_ops capacity ops []).1, c) /\
    contents c = (spec_ops capacity ops []).2 /\ NoDup (contents c).*1 /\ len (contents c) <= capacity /\
    size (oc_entries c) = length (contents c) /\ length (oc_expiries c) = length (contents c).
Proof.
  intros Hcap Hops. destruct (run_ops_refines ops _ (newOutcomeCache_ok capacity Hcap) Hops) as (c & Hrun & [v Hc] & [Hs _] & Hcont).
  assert (oc_capacity (newOutcomeCache capacity true) = capacity) as Hcapacity.
  { unfold newOutcomeCache. cbn. by rewrite (proj2 (Z.ltb_ge _ _)), (proj2 (Z.ltb_ge _ _)) by lia. }
  rewrite Hcapacity in *. exists c. destruct (cache_rel_counts v c Hc) as [H1 H2]. unfold len. rewrite (contents_length v c Hc).
  split_and!; [done | done | by apply (contents_nodup v) | rewrite <- Hs; apply Hc | done | congruence].
Qed.

(** A lookup that hits returns exactly the value of the last accepted store
    of its key, and that value has not expired. *)
Theorem cache_hit_is_last_store capacity ops key now rs value c :
  0 < capacity <= hardMaxCacheEntries -> Forall op_clock_ok ops ->
  run_ops (ops ++ [OpLookup key now]) (newOutcomeCache capacity true) = Ret (rs ++ [ResHit value], c) ->
  exists expiry, last_stored key ops = Some (value, expiry) /\ Before now expiry = true.
Proof.
  intros Hcap Hops Hrun.
  destruct (run_ops_refines (ops ++ [OpLookup key now]) _ (newOutcomeCache_ok capacity Hcap)) as (c' & Hrun' & _).
  { apply Forall_app. split; [done | by repeat constructor]. }
  rewrite Hrun in Hrun'. injection Hrun' as Hrs _.
  change (contents (newOutcomeCache capacity true)) with (@nil item) in Hrs. rewrite spec_ops_app in Hrs. cbn in Hrs.
  apply app_inj_tail in Hrs as [_ Hlast]. unfold spec_lookup in Hlast.
  destruct (cached key _) as [[value' expiry] | ] eqn:Ec; [ | done]. destruct (Before now expiry) eqn:Eb; [ | done].
  injection Hlast as ->. exists expiry. split; [ | done]. by eapply spec_ops_last, cached_in, Ec.
Qed.

(** *** A concrete history *)
Definition sample_cache_key (c : byte) : cacheKey := MkCacheKey ([c] ++ bs "._domainkey.example.com.") AlgorithmRSASHA256.
Definition sample_cache_value (status : KeyOutcomeStatus) : cacheValue := MkCacheValue (newStatusOutcome status AlgorithmRSASHA256) zeroPolicy.
Definition sample_cache_ops : list cacheOp :=
  [OpAdmit (sample_cache_key x61) (sample_cache_value KeyOutcomeMissing) (MkTime 1100 0) (MkTime 1000 0);
   OpPut (sample_cache_key x62) (sample_cache_value KeyOutcomeRevoked) (50 * Second) (MkTime 1000 0);
   OpLookup (sample_cache_key x61) (MkTime 1001 0);
   OpAdmit (sample_cache_key x63) (sample_cache_value KeyOutcomeInvalid) (MkTime 1200 0) (MkTime 1002 0);
   OpLookup (sample_cache_key x62) (MkTime 1003 0)].
Definition sample_cache_results : list cacheResult :=
  [ResStored true; ResStored true; ResHit (sample_cache_value KeyOutcomeMissing); ResStored true; ResMiss].
Example sample_cache_history :
  exists c, run_ops (sample_cache_ops ++ [OpLookup (sample_cache_key x61) (MkTime 1099 0)]) (newOutcomeCache 2 true) =
    Ret (sample_cache_results ++ [ResHit (sample_cache_value KeyOutcomeMissing)], c).
Proof. vm_compute. eexists. reflexivity. Qed.
Lemma outcome_cache_refines_witness :
  exists c, run_ops sample_cache_ops (newOutcomeCache 2 true) = Ret ((spec_ops 2 sample_cache_ops []).1, c) /\
    (contents c).*1 = [sample_cache_key x61; sample_cache_key x63].
Proof.
  destruct (outcome_cache_refines 2 sample_cache_ops) as (c & Hrun & Hcont & _); [done | by repeat constructor | ].
  exists c. split; [exact Hrun | ]. rewrite Hcont. vm_compute. reflexivity.
Defined.
Lemma cache_hit_is_last_store_witness :
  exists expiry, last_stored (sample_cache_key x61) sample_cache_ops = Some (sample_cache_value KeyOutcomeMissing, expiry) /\
    Before (MkTime 1099 0) expiry = true.
Proof.
  assert (0 < 2 <= hardMaxCacheEntries) as Hcap by done.
  assert (Forall op_clock_ok sample_cache_ops) as Hops by (by repeat constructor).
  destruct sample_cache_history as [c Hrun]. exact (cache_hit_is_last_store _ _ _ _ _ _ _ Hcap Hops Hrun).
Defined.
