(* ===== verification/KeyFlight.v ===== *)
(** * Package internal/keyresolver: miss coordination (flight.go)

    Callers and workers are goroutines; a step is one critical section of the
    group's mutex, one channel operation or one reading of a context.  A
    context can end at any moment, so a section that reads contexts takes the
    set of those ended when it reads them, which may have grown since it
    started.  What the work returns is the argument [work_may]; [Crash] is a
    dangling pointer, a channel closed twice, a receive from the empty
    semaphore or an endless search for a waiter identity. *)

From stdpp Require Import gmap.
From S2P Require Import Prelude GoBytes GoTime Crypto SigAlgorithm KeyTypes KeyRecord KeyCache.
#[local] Open Scope Z_scope.

(** ** Flights *)
Record flightResult := MkFlightResult { fr_outcome : KeyOutcome; fr_policy : DomainPolicyOutcome; fr_expiry : Time }.
Definition zeroFlightResult : flightResult := MkFlightResult zeroOutcome zeroPolicy zeroTime.
Definition outcomeResult (outcome : KeyOutcome) : flightResult := MkFlightResult outcome zeroPolicy zeroTime.
Definition policyResult (policy : DomainPolicyOutcome) : flightResult := MkFlightResult zeroOutcome policy zeroTime.
Definition cloneFlightResult (result : flightResult) : flightResult :=
  MkFlightResult (cloneKeyOutcome (fr_outcome result)) (fr_policy result) (fr_expiry result).
Definition temporaryFlightResult (key : cacheKey) : flightResult :=
  if ValidAbsoluteOwner_kind OwnerKindDomainPolicy (ck_owner key)
  then policyResult (newDomainPolicyOutcome DomainPolicyTemporary)
  else outcomeResult (newStatusOutcome KeyOutcomeTemporary (ck_algorithm key)).

(** A context is a number; [rf_ended] says that the worker's own context ended:
    it was cancelled, or timed out, or its parent ended. *)
Record resolverFlight := MkFlight {
  rf_done : bool; rf_ended : bool; rf_completed : bool; rf_result : flightResult; rf_waiterCtx : gmap Z nat }.
Definition flight_cancel (f : resolverFlight) : resolverFlight :=
  MkFlight (rf_done f) true (rf_completed f) (rf_result f) (rf_waiterCtx f).
Definition with_waiters (f : resolverFlight) (w : gmap Z nat) : resolverFlight :=
  MkFlight (rf_done f) (rf_ended f) (rf_completed f) (rf_result f) w.
Definition flight_complete (f : resolverFlight) (result : flightResult) : resolverFlight :=
  MkFlight true true true result (rf_waiterCtx f).

(** The semaphore channel holds [fg_running] tokens and has room for
    [fg_maxLookups]. *)
Record flightGroup := MkGroup {
  fg_flights : gmap cacheKey positive; fg_memory : gmap positive resolverFlight; fg_running : Z; fg_maxLookups : Z;
  fg_maxWaiters : Z; fg_initialized : bool; fg_cache : option outcomeCache; fg_waiterID : Z }.
Definition set_flights (g : flightGroup) (m : gmap cacheKey positive) : flightGroup :=
  MkGroup m (fg_memory g) (fg_running g) (fg_maxLookups g) (fg_maxWaiters g) (fg_initialized g) (fg_cache g) (fg_waiterID g).
Definition set_flight (g : flightGroup) (p : positive) (f : resolverFlight) : flightGroup :=
  MkGroup (fg_flights g) (<[p := f]> (fg_memory g)) (fg_running g) (fg_maxLookups g) (fg_maxWaiters g) (fg_initialized g)
    (fg_cache g) (fg_waiterID g).
Definition set_running (g : flightGroup) (n : Z) : flightGroup :=
  MkGroup (fg_flights g) (fg_memory g) n (fg_maxLookups g) (fg_maxWaiters g) (fg_initialized g) (fg_cache g) (fg_waiterID g).
Definition set_cache (g : flightGroup) (c : outcomeCache) : flightGroup :=
  MkGroup (fg_flights g) (fg_memory g) (fg_running g) (fg_maxLookups g) (fg_maxWaiters g) (fg_initialized g) (Some c) (fg_waiterID g).
Definition set_waiterID (g : flightGroup) (i : Z) : flightGroup :=
  MkGroup (fg_flights g) (fg_memory g) (fg_running g) (fg_maxLookups g) (fg_maxWaiters g) (fg_initialized g) (fg_cache g) i.

(** [parent] says whether the parent context is not nil. *)
Definition newFlightGroup (parent : bool) (maxLookups maxWaiters timeout : Z) (publications : list outcomeCache) : flightGroup :=
  let valid := parent && (0 <? maxLookups) && (maxLookups <=? hardMaxConcurrentLookups) && (0 <? maxWaiters) &&
               (maxWaiters <=? hardMaxCoalescedWaiters) && (0 <? timeout) && (timeout <=? 30 * Second) in
  let maxLookups := if (maxLookups <=? 0) || (hardMaxConcurrentLookups <? maxLookups) then 0 else maxLookups in
  let maxWaiters := if (maxWaiters <=? 0) || (hardMaxCoalescedWaiters <? maxWaiters) then 0 else maxWaiters in
  MkGroup ∅ ∅ 0 maxLookups maxWaiters (valid && (len publications <=? 1))
    (match publications with [cache] => Some cache | _ => None end) 0.

(** ** Critical sections *)
Definition currentFlight (g : flightGroup) (key : cacheKey) (f : positive) : bool := bool_decide (fg_flights g !! key = Some f).
Definition dropCurrent (g : flightGroup) (key : cacheKey) (f : positive) : flightGroup :=
  if currentFlight g key f then set_flights g (delete key (fg_flights g)) else g.
Definition pruneCanceledWaitersLocked (ended : gset nat) (f : resolverFlight) : resolverFlight :=
  let f := with_waiters f (filter (fun w => w.2 ∉ ended) (rf_waiterCtx f)) in
  if bool_decide (rf_waiterCtx f = ∅) && negb (rf_completed f) then flight_cancel f else f.

Definition incrementWaiterID (i : Z) : Z :=
  let i := (i + 1) mod 2 ^ 64 in if i =? 0 then (i + 1) mod 2 ^ 64 else i.
Fixpoint nextWaiterLoop (fuel : nat) (i : Z) (waiters : gmap Z nat) : option Z :=
  match fuel with
  | O => None
  | S fuel =>
      let i := incrementWaiterID i in
      match waiters !! i with Some _ => nextWaiterLoop fuel i waiters | None => Some i end
  end.
Definition nextWaiterIDLocked (f : resolverFlight) (g : flightGroup) : outcome unit (Z * flightGroup) :=
  match nextWaiterLoop (S (size (rf_waiterCtx f))) (fg_waiterID g) (rf_waiterCtx f) with
  | Some i => Ret (i, set_waiterID g i)
  | None => Crash
  end.

(** The section of [do], from the lock to [wait] or to the return. *)
Inductive doResult := DoContext | DoSaturated | DoWait (f : positive) (id : Z) (started : bool).
Definition do_start (ctx : nat) (key : cacheKey) (g : flightGroup) : outcome unit (doResult * flightGroup) :=
  if fg_running g <? fg_maxLookups g then
    let g := set_running g (fg_running g + 1) in
    let p := fresh (dom (fg_memory g)) in
    let f := MkFlight false false false zeroFlightResult ∅ in
    let* (id, g) := nextWaiterIDLocked f g in
    let g := set_flight g p (with_waiters f (<[id := ctx]> (rf_waiterCtx f))) in
    Ret (DoWait p id true, set_flights g (<[key := p]> (fg_flights g)))
  else Ret (DoSaturated, g).
Definition do_locked (ended ended' : gset nat) (ctx : nat) (key : cacheKey) (g : flightGroup)
    : outcome unit (doResult * flightGroup) :=
  if bool_decide (ctx ∈ ended) then Ret (DoContext, g)
  else
    match fg_flights g !! key with
    | None => do_start ctx key g
    | Some p =>
        match fg_memory g !! p with
        | None => Crash
        | Some f =>
            let f := pruneCanceledWaitersLocked ended' f in
            let g := set_flight g p f in
            if bool_decide (rf_waiterCtx f = ∅)
            then do_start ctx key (set_flight (dropCurrent g key p) p (flight_cancel f))
            else if fg_maxWaiters g <=? Z.of_nat (size (rf_waiterCtx f)) then Ret (DoSaturated, g)
            else
              let* (id, g) := nextWaiterIDLocked f g in
              Ret (DoWait p id false, set_flight g p (with_waiters f (<[id := ctx]> (rf_waiterCtx f))))
        end
    end.

(** The section that ends [run]; [timeout] says whether the worker's context
    ended on its own before the section reads it. *)
Definition run_locked (ended : gset nat) (timeout : bool) (key : cacheKey) (p : positive) (result : flightResult)
    (prepared : option cacheAdmission) (g : flightGroup) : outcome unit flightGroup :=
  match fg_memory g !! p with
  | None => Crash
  | Some f =>
      let f := pruneCanceledWaitersLocked ended f in
      let f := if timeout then flight_cancel f else f in
      let abandoned := rf_ended f || negb (currentFlight g key p) || bool_decide (rf_waiterCtx f = ∅) in
      let* g :=
        match prepared, fg_cache g with
        | Some admission, Some c => if abandoned then Ret g else let* (_, c) := commitAdmission admission c in Ret (set_cache g c)
        | Some admission, None => if abandoned then Ret g else Crash
        | None, _ => Ret g
        end in
      let result := if abandoned then temporaryFlightResult key else result in
      let g := dropCurrent (set_flight g p (flight_complete f (cloneFlightResult result))) key p in
      if rf_done f || (fg_running g <=? 0) then Crash else Ret (set_running g (fg_running g - 1))
  end.

Definition leave (key : cacheKey) (p : positive) (id : Z) (g : flightGroup) : outcome unit (bool * flightGroup) :=
  match fg_memory g !! p with
  | None => Crash
  | Some f =>
      let f := with_waiters f (delete id (rf_waiterCtx f)) in
      let last := bool_decide (rf_waiterCtx f = ∅) && negb (rf_completed f) in
      if last then Ret (last, dropCurrent (set_flight g p (flight_cancel f)) key p) else Ret (last, set_flight g p f)
  end.
Definition finishWaiter (p : positive) (id : Z) (g : flightGroup) : outcome unit flightGroup :=
  match fg_memory g !! p with
  | None => Crash
  | Some f => Ret (set_flight g p (with_waiters f (delete id (rf_waiterCtx f))))
  end.

(** ** Goroutines *)
Inductive callReturn := RetContract | RetContext | RetSaturated | RetResult (r : flightResult).
(** Where a call of [do] stands: before its first check, before the lock, at
    the start of [wait], in its select, in [finishWaiter], after it, in
    [leave], waiting for the abandoned work, returned. *)
Inductive callerState :=
  | CStart | CLock | CWait (f : positive) (id : Z) | CSelect (f : positive) (id : Z) | CFinish (f : positive) (id : Z)
  | CFinished (f : positive) | CLeave (f : positive) (id : Z) | CAwait (f : positive) | CReturned (r : callReturn).
Record caller := MkCaller { cl_ctx : nat; cl_key : cacheKey; cl_state : callerState }.
(** Where the goroutine of a flight stands in [run]. *)
Inductive workerState :=
  | WWork | WWorked (r : flightResult) | WPrepared (r : flightResult) (a : option cacheAdmission) | WEnd (r : flightResult).
Record worker := MkWorker { wk_key : cacheKey; wk_state : workerState }.

Record system := MkSystem {
  sys_group : flightGroup; sys_callers : gmap nat caller; sys_workers : gmap positive worker; sys_ended : gset nat }.
Definition at_caller (s : system) (t : nat) (c : caller) (x : callerState) : gmap nat caller :=
  <[t := MkCaller (cl_ctx c) (cl_key c) x]> (sys_callers s).

Section steps.
Context (work_may : cacheKey -> flightResult -> Prop).

(** What the outside does: new calls (with a valid key, a context and work, on
    an initialized group), contexts that end, lookups in the cache. *)
Inductive env_step : system -> system -> Prop :=
  | env_call s t ctx key :
      sys_callers s !! t = None -> fg_initialized (sys_group s) = true -> cacheKeyValid key = true ->
      env_step s (MkSystem (sys_group s) (<[t := MkCaller ctx key CStart]> (sys_callers s)) (sys_workers s) (sys_ended s))
  | env_end s ctx :
      env_step s (MkSystem (sys_group s) (sys_callers s) (sys_workers s) ({[ctx]} ∪ sys_ended s))
  | env_timeout s p f :
      fg_memory (sys_group s) !! p = Some f ->
      env_step s (MkSystem (set_flight (sys_group s) p (flight_cancel f)) (sys_callers s) (sys_workers s) (sys_ended s))
  | env_lookup s key now c value hit corrupt c' :
      fg_cache (sys_group s) = Some c -> KeyCache.lookup key now c = Ret (value, hit, corrupt, c') ->
      env_step s (MkSystem (set_cache (sys_group s) c') (sys_callers s) (sys_workers s) (sys_ended s)).

(** What a caller does next. *)
Inductive caller_step : system -> system -> Prop :=
  | step_start s t c :
      sys_callers s !! t = Some c -> cl_state c = CStart ->
      caller_step s (MkSystem (sys_group s)
        (at_caller s t c (if bool_decide (cl_ctx c ∈ sys_ended s) then CReturned RetContext else CLock)) (sys_workers s) (sys_ended s))
  | step_lock s t c ended' r g :
      sys_callers s !! t = Some c -> cl_state c = CLock -> sys_ended s ⊆ ended' ->
      do_locked (sys_ended s) ended' (cl_ctx c) (cl_key c) (sys_group s) = Ret (r, g) ->
      caller_step s (MkSystem g
        (at_caller s t c (match r with
                          | DoContext => CReturned RetContext
                          | DoSaturated => CReturned RetSaturated
                          | DoWait f id _ => CWait f id
                          end))
        (match r with DoWait f _ true => <[f := MkWorker (cl_key c) WWork]> (sys_workers s) | _ => sys_workers s end) ended')
  | step_wait s t c f id :
      sys_callers s !! t = Some c -> cl_state c = CWait f id ->
      caller_step s (MkSystem (sys_group s)
        (at_caller s t c (if bool_decide (cl_ctx c ∈ sys_ended s) then CLeave f id else CSelect f id)) (sys_workers s) (sys_ended s))
  | step_select_done s t c f id fl :
      sys_callers s !! t = Some c -> cl_state c = CSelect f id -> fg_memory (sys_group s) !! f = Some fl -> rf_done fl = true ->
      caller_step s (MkSystem (sys_group s) (at_caller s t c (CFinish f id)) (sys_workers s) (sys_ended s))
  | step_select_ended s t c f id :
      sys_callers s !! t = Some c -> cl_state c = CSelect f id -> cl_ctx c ∈ sys_ended s ->
      caller_step s (MkSystem (sys_group s) (at_caller s t c (CLeave f id)) (sys_workers s) (sys_ended s))
  | step_finish s t c f id g :
      sys_callers s !! t = Some c -> cl_state c = CFinish f id -> finishWaiter f id (sys_group s) = Ret g ->
      caller_step s (MkSystem g (at_caller s t c (CFinished f)) (sys_workers s) (sys_ended s))
  | step_finished s t c f fl :
      sys_callers s !! t = Some c -> cl_state c = CFinished f -> fg_memory (sys_group s) !! f = Some fl ->
      caller_step s (MkSystem (sys_group s)
        (at_caller s t c (CReturned (if bool_decide (cl_ctx c ∈ sys_ended s) then RetContext
                                     else RetResult (cloneFlightResult (rf_result fl))))) (sys_workers s) (sys_ended s))
  | step_leave s t c f id last g :
      sys_callers s !! t = Some c -> cl_state c = CLeave f id -> leave (cl_key c) f id (sys_group s) = Ret (last, g) ->
      caller_step s (MkSystem g (at_caller s t c (if last then CAwait f else CReturned RetContext)) (sys_workers s) (sys_ended s))
  | step_await s t c f fl :
      sys_callers s !! t = Some c -> cl_state c = CAwait f -> fg_memory (sys_group s) !! f = Some fl -> rf_done fl = true ->
      caller_step s (MkSystem (sys_group s) (at_caller s t c (CReturned RetContext)) (sys_workers s) (sys_ended s)).

(** What the worker of a flight does next. *)
Inductive worker_step : system -> system -> Prop :=
  | step_work s p w r :
      sys_workers s !! p = Some w -> wk_state w = WWork -> work_may (wk_key w) r ->
      worker_step s (MkSystem (sys_group s) (sys_callers s) (<[p := MkWorker (wk_key w) (WWorked r)]> (sys_workers s)) (sys_ended s))
  | step_prepare s p w r fl now :
      sys_workers s !! p = Some w -> wk_state w = WWorked r -> fg_memory (sys_group s) !! p = Some fl ->
      worker_step s (MkSystem (sys_group s) (sys_callers s)
        (<[p := MkWorker (wk_key w) (WPrepared r
             (match fg_cache (sys_group s) with
              | Some c => if rf_ended fl then None
                          else prepareAdmission c (wk_key w) (MkCacheValue (fr_outcome r) (fr_policy r)) (fr_expiry r) now
              | None => None
              end))]> (sys_workers s)) (sys_ended s))
  | step_run s p w r a ended' timeout g :
      sys_workers s !! p = Some w -> wk_state w = WPrepared r a -> sys_ended s ⊆ ended' ->
      run_locked ended' timeout (wk_key w) p r a (sys_group s) = Ret g ->
      worker_step s (MkSystem g (sys_callers s) (<[p := MkWorker (wk_key w) (WEnd r)]> (sys_workers s)) ended').

Definition internal_step (s s' : system) : Prop := caller_step s s' \/ worker_step s s'.
Definition step (s s' : system) : Prop := env_step s s' \/ internal_step s s'.
End steps.

Definition initial (g : flightGroup) : system := MkSystem g ∅ ∅ ∅.
