(* ===== verification/KeyFlightSpec.v ===== *)
(** * Correctness of the miss coordination

    The invariant of the flight group under any interleaving of callers,
    workers, ending contexts and cache lookups; what callers can be told and
    what the cache can hold; that no call is ever stuck. *)

From stdpp Require Import gmap.
From S2P Require Import Prelude GoBytes GoTime Crypto SigAlgorithm KeyTypes KeyRecord KeyCache KeyCacheSpec KeyFlight.
#[local] Open Scope Z_scope.

(** ** Sums over a map *)
Section msum.
Context `{Countable K} {A : Type} (f : A -> nat).
Definition msum (m : gmap K A) : nat := map_fold (fun _ x n => (f x + n)%nat) 0%nat m.
Lemma msum_empty : msum ∅ = 0%nat.
Proof. apply map_fold_empty. Qed.
Lemma msum_insert_new m i x : m !! i = None -> msum (<[i := x]> m) = (f x + msum m)%nat.
Proof. intros Hi. unfold msum. rewrite map_fold_insert_L; [done | intros; lia | done]. Qed.
Lemma msum_insert m i x y : m !! i = Some x -> (msum (<[i := y]> m) + f x = msum m + f y)%nat.
Proof.
  intros Hi. rewrite <- (insert_delete_id m i x Hi) at 2. rewrite <- insert_delete_eq.
  rewrite !msum_insert_new by apply lookup_delete_eq. lia.
Qed.
Lemma msum_zero m : msum m = 0%nat <-> (forall i x, m !! i = Some x -> f x = 0%nat).
Proof.
  induction m as [|i x m Hi IH] using map_ind; [split; [intros _ i x; by rewrite lookup_empty | done] | ].
  rewrite msum_insert_new by done. split.
  - intros Hz j y. destruct (decide (j = i)) as [-> | Hj]; [rewrite lookup_insert_eq; intros [= <-]; lia | ].
    rewrite lookup_insert_ne by done. apply IH. lia.
  - intros Hall. rewrite (Hall i x) by apply lookup_insert_eq. cbn. apply IH. intros j y Hy.
    apply (Hall j). rewrite lookup_insert_ne; [done | ]. intros <-. congruence.
Qed.
End msum.

(** ** Waiter identities *)
Lemma incrementWaiterID_range i : 0 <= i < 2 ^ 64 -> 1 <= incrementWaiterID i < 2 ^ 64.
Proof.
  intros Hi. unfold incrementWaiterID. pose proof (Z.mod_pos_bound (i + 1) (2 ^ 64) ltac:(lia)).
  destruct (Z.eqb_spec ((i + 1) mod 2 ^ 64) 0) as [E | E]; [rewrite E; cbn; lia | lia].
Qed.
(** The identities are visited in a cycle of length 2^64 - 1. *)
Definition id_at (i : Z) (n : nat) : Z := (i - 1 + Z.of_nat n) mod (2 ^ 64 - 1) + 1.
Lemma incrementWaiterID_next i : 1 <= i < 2 ^ 64 -> incrementWaiterID i = id_at i 1.
Proof.
  intros Hi. unfold incrementWaiterID, id_at. destruct (decide (i = 2 ^ 64 - 1)) as [-> | Hne].
  - done.
  - rewrite (Z.mod_small (i + 1)) by lia. destruct (Z.eqb_spec (i + 1) 0); [lia | ]. rewrite Z.mod_small by lia. lia.
Qed.
Lemma id_at_range i n : 1 <= id_at i n < 2 ^ 64.
Proof. unfold id_at. pose proof (Z.mod_pos_bound (i - 1 + Z.of_nat n) (2 ^ 64 - 1) ltac:(lia)). lia. Qed.
Lemma id_at_add i n m : id_at (id_at i n) m = id_at i (n + m).
Proof.
  unfold id_at. f_equal. rewrite Z.add_simpl_r. rewrite Zplus_mod_idemp_l. f_equal. lia.
Qed.
Lemma id_at_inj i n m : Z.of_nat n < 2 ^ 64 - 1 -> Z.of_nat m < 2 ^ 64 - 1 -> id_at i n = id_at i m -> n = m.
Proof.
  unfold id_at. intros Hn Hm E. assert ((i - 1 + Z.of_nat n) mod (2 ^ 64 - 1) = (i - 1 + Z.of_nat m) mod (2 ^ 64 - 1)) as E' by lia.
  assert ((Z.of_nat n - Z.of_nat m) mod (2 ^ 64 - 1) = 0) as Hz.
  { replace (Z.of_nat n - Z.of_nat m) with ((i - 1 + Z.of_nat n) - (i - 1 + Z.of_nat m)) by lia. rewrite Zminus_mod, E', Z.sub_diag. done. }
  apply Z.mod_divide in Hz as [q Hq]; [ | lia]. nia.
Qed.
Lemma nextWaiterLoop_None w fuel : forall i,
  0 <= i < 2 ^ 64 -> nextWaiterLoop fuel i w = None ->
  forall n, (n < fuel)%nat -> is_Some (w !! id_at (incrementWaiterID i) n).
Proof.
  induction fuel as [|fuel IH]; intros i Hi Hloop n Hn; [lia | ]. cbn [nextWaiterLoop] in Hloop.
  pose proof (incrementWaiterID_range i Hi) as Hr. destruct (w !! incrementWaiterID i) as [c | ] eqn:Ew; [ | done].
  destruct n as [|n].
  - unfold id_at. rewrite Z.add_0_r, Z.mod_small by lia. rewrite Z.sub_add. by exists c.
  - specialize (IH (incrementWaiterID i) ltac:(lia) Hloop n ltac:(lia)). rewrite incrementWaiterID_next in IH by lia.
    by rewrite id_at_add in IH.
Qed.
Lemma nextWaiterLoop_Some w fuel : forall i id,
  0 <= i < 2 ^ 64 -> nextWaiterLoop fuel i w = Some id -> w !! id = None /\ 1 <= id < 2 ^ 64.
Proof.
  induction fuel as [|fuel IH]; intros i id Hi; [done | ]. cbn [nextWaiterLoop].
  pose proof (incrementWaiterID_range i Hi) as Hr. destruct (w !! incrementWaiterID i) eqn:Ew.
  - intros H. by apply (IH (incrementWaiterID i)); [lia | ].
  - intros [= <-]. done.
Qed.
Lemma nextWaiterID_fresh (w : gmap Z nat) i :
  0 <= i < 2 ^ 64 -> Z.of_nat (size w) < 2 ^ 64 - 2 ->
  exists id, nextWaiterLoop (S (size w)) i w = Some id /\ w !! id = None /\ 1 <= id < 2 ^ 64.
Proof.
  intros Hi Hsize. destruct (nextWaiterLoop _ i w) as [id | ] eqn:El.
  - exists id. split; [done | ]. by eapply nextWaiterLoop_Some.
  - exfalso. pose proof (nextWaiterLoop_None w _ i Hi El) as Hall.
    set (ids := id_at (incrementWaiterID i) <$> seq 0 (S (size w))).
    assert (NoDup ids) as Hnd.
    { apply NoDup_fmap_2_strong; [ | apply NoDup_seq]. intros n m Hn%elem_of_seq Hm%elem_of_seq. apply id_at_inj; lia. }
    assert (list_to_set (C := gset Z) ids ⊆ dom w) as Hsub.
    { intros id. rewrite elem_of_list_to_set. unfold ids. rewrite list_elem_of_fmap. intros (n & -> & Hn%elem_of_seq).
      apply elem_of_dom, Hall. lia. }
    apply subseteq_size in Hsub. rewrite size_list_to_set, size_dom in Hsub by done. unfold ids in Hsub.
    rewrite length_fmap, length_seq in Hsub. lia.
Qed.

(** ** Pruning and dropping *)
Lemma dropCurrent_lookup g key p k q :
  (forall k, fg_flights g !! k = Some p -> k = key) ->
  fg_flights (dropCurrent g key p) !! k = Some q <-> fg_flights g !! k = Some q /\ q <> p.
Proof.
  intros Hinj. unfold dropCurrent, currentFlight. case_bool_decide as Hc; cbn.
  - destruct (decide (k = key)) as [-> | Hk].
    + rewrite lookup_delete_eq, Hc. naive_solver.
    + rewrite lookup_delete_ne by done. split; [ | tauto]. intros Hq. split; [done | ]. intros ->. by apply Hk, Hinj.
  - split; [ | tauto]. intros Hq. split; [done | ]. intros ->. apply Hc. by rewrite <- (Hinj k Hq).
Qed.
Lemma pruned_waiters ended f : rf_waiterCtx (pruneCanceledWaitersLocked ended f) = filter (fun w => w.2 ∉ ended) (rf_waiterCtx f).
Proof. unfold pruneCanceledWaitersLocked. by destruct (bool_decide _ && _). Qed.
Lemma pruned_flags ended f :
  rf_done (pruneCanceledWaitersLocked ended f) = rf_done f /\ rf_completed (pruneCanceledWaitersLocked ended f) = rf_completed f /\
  rf_result (pruneCanceledWaitersLocked ended f) = rf_result f /\
  (rf_ended f = true -> rf_ended (pruneCanceledWaitersLocked ended f) = true).
Proof. unfold pruneCanceledWaitersLocked. by destruct (bool_decide _ && _). Qed.
Lemma pruned_size ended f : (size (rf_waiterCtx (pruneCanceledWaitersLocked ended f)) <= size (rf_waiterCtx f))%nat.
Proof. rewrite pruned_waiters. apply map_subseteq_size, map_filter_subseteq. Qed.

Lemma dropCurrent_fields g key p :
  fg_memory (dropCurrent g key p) = fg_memory g /\ fg_running (dropCurrent g key p) = fg_running g /\
  fg_maxLookups (dropCurrent g key p) = fg_maxLookups g /\ fg_maxWaiters (dropCurrent g key p) = fg_maxWaiters g /\
  fg_initialized (dropCurrent g key p) = fg_initialized g /\ fg_cache (dropCurrent g key p) = fg_cache g /\
  fg_waiterID (dropCurrent g key p) = fg_waiterID g.
Proof. unfold dropCurrent. by destruct (currentFlight _ _ _). Qed.
Definition with_cache (g : flightGroup) (cache : option outcomeCache) : flightGroup :=
  MkGroup (fg_flights g) (fg_memory g) (fg_running g) (fg_maxLookups g) (fg_maxWaiters g) (fg_initialized g) cache (fg_waiterID g).
Lemma clone_twice r : cloneFlightResult (cloneFlightResult r) = cloneFlightResult r.
Proof.
  unfold cloneFlightResult. cbn. f_equal. destruct (KeyOutcome_Valid (fr_outcome r)) eqn:Ev.
  - by rewrite !(cloneKeyOutcome_valid (fr_outcome r) Ev).
  - unfold cloneKeyOutcome at 2 3. by rewrite Ev.
Qed.
Lemma temporary_clone key : cacheKeyValid key = true -> cloneFlightResult (temporaryFlightResult key) = temporaryFlightResult key.
Proof.
  unfold cacheKeyValid, temporaryFlightResult, ValidAbsoluteOwner_kind. destruct (ClassifyAbsoluteOwner (ck_owner key)) as [[ | ] | ]; cbn; try done.
  intros Hk. rewrite bool_decide_false by done. unfold cloneFlightResult. cbn. unfold outcomeResult. f_equal. apply cloneKeyOutcome_valid. unfold KeyOutcome_Valid. cbn. by rewrite Hk.
Qed.

(** ** The invariant *)
Section invariant.
Context (work_may : cacheKey -> flightResult -> Prop).

(** What a call for a key can be told. *)
Definition result_may (key : cacheKey) (r : flightResult) : Prop :=
  r = temporaryFlightResult key \/ exists r0, work_may key r0 /\ r = cloneFlightResult r0.
(** What the cache can hold under a key: what the work returned. *)
Definition stored_may (key : cacheKey) (x : cacheValue * Time) : Prop :=
  exists r, work_may key r /\ x = (MkCacheValue (fr_outcome r) (fr_policy r), fr_expiry r).
Definition admission_ok (key : cacheKey) (a : cacheAdmission) : Prop :=
  ad_key a = key /\ stored_may key (ad_value a, ad_expiry a) /\ cacheKeyValid key = true /\
  cacheValueValidForKey (ad_value a) key = true /\ IsZero (ad_expiry a) = false.
Definition cache_sound (c : outcomeCache) : Prop :=
  (oc_capacity c = 0) \/ (cache_ok c /\ forall x, x ∈ contents c -> stored_may x.1 x.2).

(** Whether a prepared admission can exist. *)
Definition caching (g : flightGroup) : bool := match fg_cache g with Some c => negb (oc_capacity c =? 0) | None => false end.
Definition live (w : worker) : nat := match wk_state w with WEnd _ => 0 | _ => 1 end.
Definition worker_ok (caching : bool) (w : worker) (f : resolverFlight) : Prop :=
  match wk_state w with
  | WWork => rf_done f = false
  | WWorked r => rf_done f = false /\ work_may (wk_key w) r
  | WPrepared r a =>
      rf_done f = false /\ work_may (wk_key w) r /\ forall x, a = Some x -> caching = true /\ admission_ok (wk_key w) x
  | WEnd r => rf_done f = true /\ work_may (wk_key w) r /\ result_may (wk_key w) (rf_result f)
  end.
(** [current]: the map still holds the flight. *)
Record flight_ok (g : flightGroup) (current : Prop) (w : worker) (f : resolverFlight) : Prop := MkFlightOk {
  fo_key : cacheKeyValid (wk_key w) = true;
  fo_completed : rf_completed f = rf_done f;
  fo_waiters : Z.of_nat (size (rf_waiterCtx f)) <= fg_maxWaiters g;
  fo_current : current -> rf_done f = false /\ rf_waiterCtx f <> ∅;
  fo_abandoned : ~ current -> rf_ended f = true;
  fo_worker : worker_ok (caching g) w f }.
Record group_ok (g : flightGroup) (ws : gmap positive worker) : Prop := MkGroupOk {
  go_running : fg_running g = Z.of_nat (msum live ws);
  go_lookups : 0 < fg_maxLookups g /\ fg_running g <= fg_maxLookups g;
  go_waiters : 0 < fg_maxWaiters g <= hardMaxCoalescedWaiters;
  go_ids : 0 <= fg_waiterID g < 2 ^ 64;
  go_initialized : fg_initialized g = true;
  go_flights : forall k p, fg_flights g !! k = Some p -> exists w, ws !! p = Some w /\ wk_key w = k;
  go_worker : forall p w, ws !! p = Some w -> exists f, fg_memory g !! p = Some f /\ flight_ok g (fg_flights g !! wk_key w = Some p) w f;
  go_memory : forall p f, fg_memory g !! p = Some f -> is_Some (ws !! p);
  go_cache : forall c, fg_cache g = Some c -> cache_sound c }.

Definition flight_done (g : flightGroup) (p : positive) : Prop := exists f, fg_memory g !! p = Some f /\ rf_done f = true.
Definition at_flight (ws : gmap positive worker) (key : cacheKey) (p : positive) : Prop :=
  exists w, ws !! p = Some w /\ wk_key w = key.
Definition caller_ok (g : flightGroup) (ws : gmap positive worker) (c : caller) : Prop :=
  cacheKeyValid (cl_key c) = true /\
  match cl_state c with
  | CWait p _ | CSelect p _ | CLeave p _ | CAwait p => at_flight ws (cl_key c) p
  | CFinish p _ | CFinished p => at_flight ws (cl_key c) p /\ flight_done g p
  | CReturned (RetResult r) => result_may (cl_key c) r
  | CReturned RetContract => False
  | _ => True
  end.
Record system_ok (s : system) : Prop := MkSystemOk {
  so_group : group_ok (sys_group s) (sys_workers s);
  so_callers : forall t c, sys_callers s !! t = Some c -> caller_ok (sys_group s) (sys_workers s) c }.
(** Workers keep their keys, finished flights stay finished. *)
Definition extends (g : flightGroup) (ws : gmap positive worker) (g' : flightGroup) (ws' : gmap positive worker) : Prop :=
  (forall key p, at_flight ws key p -> at_flight ws' key p) /\ (forall p, flight_done g p -> flight_done g' p).
Lemma caller_ok_extends g ws g' ws' c : extends g ws g' ws' -> caller_ok g ws c -> caller_ok g' ws' c.
Proof using Type. intros [H1 H2] [Hk H]. split; [done | ]. destruct (cl_state c); naive_solver. Qed.
Lemma system_ok_callers s g ws ended t c :
  system_ok s -> group_ok g ws -> extends (sys_group s) (sys_workers s) g ws -> caller_ok g ws c ->
  system_ok (MkSystem g (<[t := c]> (sys_callers s)) ws ended).
Proof using Type.
  intros Hs Hg He Hc. split; [done | ]. intros t' c'. cbn. destruct (decide (t' = t)) as [-> | Ht].
  - rewrite lookup_insert_eq. by intros [= <-].
  - rewrite lookup_insert_ne by done. intros Hc'. eapply caller_ok_extends; [exact He | ]. by eapply so_callers.
Qed.
Lemma system_ok_group s g ws ended :
  system_ok s -> group_ok g ws -> extends (sys_group s) (sys_workers s) g ws -> system_ok (MkSystem g (sys_callers s) ws ended).
Proof using Type. intros Hs Hg He. split; [done | ]. intros t c Hc. eapply caller_ok_extends; [exact He | ]. by eapply so_callers. Qed.
Lemma extends_refl g ws : extends g ws g ws.
Proof using Type. done. Qed.

(** ** Updating one flight *)
Lemma update_ok g ws g' p w f w' f' (drop : bool) :
  group_ok g ws -> ws !! p = Some w -> fg_memory g !! p = Some f ->
  fg_memory g' = <[p := f']> (fg_memory g) ->
  (forall k q, fg_flights g' !! k = Some q <-> fg_flights g !! k = Some q /\ (drop = true -> q <> p)) ->
  fg_maxLookups g' = fg_maxLookups g -> fg_maxWaiters g' = fg_maxWaiters g -> fg_initialized g' = fg_initialized g ->
  0 <= fg_waiterID g' < 2 ^ 64 ->
  fg_running g' + Z.of_nat (live w) = fg_running g + Z.of_nat (live w') -> (live w' <= live w)%nat ->
  caching g' = caching g -> (forall c, fg_cache g' = Some c -> cache_sound c) ->
  wk_key w' = wk_key w -> (rf_done f = true -> rf_done f' = true) ->
  flight_ok g (fg_flights g !! wk_key w = Some p /\ drop = false) w' f' ->
  group_ok g' (<[p := w']> ws) /\ extends g ws g' (<[p := w']> ws).
Proof using Type.
  intros Hg Hw Hf Hmem Hfl Hml Hmw Hini Hid Hrun Hlive Hsome Hcache Hkey Hdone Hok.
  pose proof (go_running _ _ Hg) as Hr. pose proof (go_lookups _ _ Hg) as [Hl1 Hl2].
  pose proof (msum_insert live ws p w w' Hw) as Hsum. split.
  - split; rewrite ?Hml, ?Hmw, ?Hini; try apply Hg; try done; try lia.
    + intros k q [Hq _]%Hfl. destruct (go_flights _ _ Hg k q Hq) as (v & Hv & Hk). destruct (decide (q = p)) as [-> | Hqp].
      * exists w'. rewrite lookup_insert_eq. split; [done | ]. congruence.
      * exists v. by rewrite lookup_insert_ne.
    + intros q v. rewrite Hmem. destruct (decide (q = p)) as [-> | Hqp].
      * rewrite !lookup_insert_eq. intros [= <-]. exists f'. split; [done | ].
        assert (fg_flights g' !! wk_key w' = Some p <-> fg_flights g !! wk_key w = Some p /\ drop = false) as Hcur.
        { rewrite Hfl, Hkey. by destruct drop; naive_solver. }
        destruct Hok as [H1 H2 H3 H4 H5 H6]. split; rewrite ?Hmw, ?Hcur; try done. by rewrite Hsome.
      * rewrite !lookup_insert_ne by done. intros Hv. destruct (go_worker _ _ Hg q v Hv) as (fq & Hfq & Hokq). exists fq. split; [done | ].
        assert (fg_flights g' !! wk_key v = Some q <-> fg_flights g !! wk_key v = Some q) as Hcur by (rewrite Hfl; naive_solver).
        destruct Hokq as [H1 H2 H3 H4 H5 H6]. split; rewrite ?Hmw, ?Hcur; try done. by rewrite Hsome.
    + intros q fq. rewrite Hmem. destruct (decide (q = p)) as [-> | Hqp]; [by rewrite !lookup_insert_eq | ].
      rewrite !lookup_insert_ne by done. apply Hg.
  - split.
    + intros key q (v & Hv & Hk). destruct (decide (q = p)) as [-> | Hqp].
      * exists w'. rewrite lookup_insert_eq. split; [done | ]. congruence.
      * exists v. by rewrite lookup_insert_ne.
    + intros q (fq & Hfq & Hd). unfold flight_done. rewrite Hmem. destruct (decide (q = p)) as [-> | Hqp].
      * exists f'. rewrite lookup_insert_eq. split; [done | ]. apply Hdone. congruence.
      * exists fq. by rewrite lookup_insert_ne.
Qed.

(** The common case: the worker stays where it is. *)
Lemma set_flight_ok g ws p w f f' :
  group_ok g ws -> ws !! p = Some w -> fg_memory g !! p = Some f -> (rf_done f = true -> rf_done f' = true) ->
  flight_ok g (fg_flights g !! wk_key w = Some p) w f' ->
  group_ok (set_flight g p f') ws /\ extends g ws (set_flight g p f') ws.
Proof using Type.
  intros Hg Hw Hf Hd Hok. rewrite <- (insert_id ws p w Hw) at 1 3.
  eapply (update_ok g ws _ p w f w f' false); try done; try apply Hg; try lia.
  - cbn. naive_solver.
  - destruct Hok as [H1 H2 H3 H4 H5 H6]. split; try done; naive_solver.
Qed.
Lemma flights_inj g ws p w k : group_ok g ws -> ws !! p = Some w -> fg_flights g !! k = Some p -> k = wk_key w.
Proof using Type. intros Hg Hw (v & Hv & <-)%(go_flights _ _ Hg). congruence. Qed.
(** A flight that ended its context leaves the map. *)
Lemma retire_ok g ws p w f f' :
  group_ok g ws -> ws !! p = Some w -> fg_memory g !! p = Some f -> (rf_done f = true -> rf_done f' = true) ->
  flight_ok g False w f' ->
  group_ok (dropCurrent (set_flight g p f') (wk_key w) p) ws /\
  extends g ws (dropCurrent (set_flight g p f') (wk_key w) p) ws.
Proof using Type.
  intros Hg Hw Hf Hd Hok. rewrite <- (insert_id ws p w Hw) at 1 3.
  assert (forall (P : flightGroup -> Prop), (forall h, (fg_memory h, fg_running h, fg_maxLookups h, fg_maxWaiters h, fg_initialized h, fg_cache h, fg_waiterID h) =
     (fg_memory (set_flight g p f'), fg_running g, fg_maxLookups g, fg_maxWaiters g, fg_initialized g, fg_cache g, fg_waiterID g) -> P h) ->
     P (dropCurrent (set_flight g p f') (wk_key w) p)) as Hshape.
  { intros P HP. apply HP. unfold dropCurrent. by destruct (currentFlight _ _ _). }
  pose proof (dropCurrent_lookup (set_flight g p f') (wk_key w) p) as Hdrop. revert Hdrop. apply Hshape.
  intros h [= H1 H2 H3 H4 H5 H6 H7] Hdrop. assert (caching h = caching g) as H8 by (unfold caching; by rewrite H6).
  eapply (update_ok g ws h p w f w f' true); rewrite ?H1, ?H2, ?H3, ?H4, ?H5, ?H6, ?H7, ?H8; try done; try apply Hg; try lia.
  - intros k q. rewrite Hdrop; [naive_solver | ]. intros k'. by apply (flights_inj g ws).
  - destruct Hok as [? ? ? ? ? ?]. split; try done; naive_solver.
Qed.

(** ** The sections keep the invariant *)
Lemma worker_ok_flags caching w f f' :
  rf_done f' = rf_done f -> rf_result f' = rf_result f -> worker_ok caching w f -> worker_ok caching w f'.
Proof using Type. intros Hd Hr. unfold worker_ok. by destruct (wk_state w); rewrite Hd, ?Hr. Qed.

Lemma do_start_ok ctx key g ws :
  group_ok g ws -> fg_flights g !! key = None -> cacheKeyValid key = true ->
  do_start ctx key g = Ret (DoSaturated, g) \/
  exists p id g', do_start ctx key g = Ret (DoWait p id true, g') /\ ws !! p = None /\
    group_ok g' (<[p := MkWorker key WWork]> ws) /\ extends g ws g' (<[p := MkWorker key WWork]> ws).
Proof using Type.
  intros Hg Hkey Hvalid. unfold do_start. destruct (Z.ltb_spec (fg_running g) (fg_maxLookups g)) as [Hlt | ]; [right | by left].
  set (p := fresh (dom (fg_memory g))).
  assert (fg_memory g !! p = None) as Hp by apply not_elem_of_dom, is_fresh.
  assert (ws !! p = None) as Hwp.
  { destruct (ws !! p) as [w | ] eqn:Ew; [ | done]. destruct (go_worker _ _ Hg p w Ew) as (f & Hf & _). congruence. }
  destruct (nextWaiterID_fresh ∅ (fg_waiterID g) (go_ids _ _ Hg)) as (id & Hid & _ & Hrange); [rewrite map_size_empty; lia | ].
  unfold nextWaiterIDLocked. cbn [rf_waiterCtx set_running fg_waiterID]. rewrite Hid. cbn [obind].
  eexists p, id, _. split; [done | ]. split; [done | ].
  pose proof (go_running _ _ Hg) as Hr. pose proof (go_lookups _ _ Hg) as [Hl1 Hl2]. pose proof (go_waiters _ _ Hg) as Hwt.
  split.
  - split; cbn; try apply Hg; try done; try lia.
    + rewrite msum_insert_new by done. cbn. lia.
    + intros k q. destruct (decide (k = key)) as [-> | Hk].
      * rewrite lookup_insert_eq. intros [= <-]. eexists. by rewrite lookup_insert_eq.
      * rewrite lookup_insert_ne by done. intros (v & Hv & Hk')%(go_flights _ _ Hg). exists v.
        rewrite lookup_insert_ne; [done | congruence].
    + intros q v. destruct (decide (q = p)) as [-> | Hq].
      * rewrite !lookup_insert_eq. intros [= <-]. eexists. split; [done | ]. cbn. rewrite lookup_insert_eq.
        split; cbn; try done.
        rewrite map_size_insert_None, map_size_empty by done. lia.
      * rewrite !lookup_insert_ne by done. intros Hv. destruct (go_worker _ _ Hg q v Hv) as (f & Hf & [H1 H2 H3 H4 H5 H6]).
        exists f. split; [done | ]. assert (<[key := p]> (fg_flights g) !! wk_key v = Some q <-> fg_flights g !! wk_key v = Some q) as Hcur.
        { destruct (decide (wk_key v = key)) as [-> | Hk]; [rewrite lookup_insert_eq, Hkey; naive_solver | by rewrite lookup_insert_ne]. }
        split; cbn; fold p; rewrite ?Hcur; done.
    + intros q f. destruct (decide (q = p)) as [-> | Hq]; [by rewrite !lookup_insert_eq | ].
      rewrite !lookup_insert_ne by done. apply Hg.
  - split.
    + intros k q (v & Hv & Hk). exists v. rewrite lookup_insert_ne; [done | congruence].
    + intros q (f & Hf & Hd). exists f. cbn. rewrite lookup_insert_ne; [done | fold p; intros <-; congruence].
Qed.

Lemma extends_trans g1 ws1 g2 ws2 g3 ws3 : extends g1 ws1 g2 ws2 -> extends g2 ws2 g3 ws3 -> extends g1 ws1 g3 ws3.
Proof using Type. intros [H1 H2] [H3 H4]. split; [intros k p H; by apply H3, H1 | intros p H; by apply H4, H2]. Qed.
Lemma at_new ws p key x : at_flight (<[p := MkWorker key x]> ws) key p.
Proof using Type. eexists. by rewrite lookup_insert_eq. Qed.
Definition do_workers (key : cacheKey) (r : doResult) (ws : gmap positive worker) : gmap positive worker :=
  match r with DoWait p _ true => <[p := MkWorker key WWork]> ws | _ => ws end.
Lemma set_waiterID_ok g ws id : group_ok g ws -> 0 <= id < 2 ^ 64 -> group_ok (set_waiterID g id) ws.
Proof using Type.
  intros [H1 H2 H3 H4 H5 H6 H7 H8 H9] Hid. split; try done. intros p w Hw. destruct (H7 p w Hw) as (f & Hf & [? ? ? ? ? ?]).
  by exists f.
Qed.
Lemma do_locked_ok ended ended' ctx key g ws :
  group_ok g ws -> cacheKeyValid key = true ->
  exists r g', do_locked ended ended' ctx key g = Ret (r, g') /\ group_ok g' (do_workers key r ws) /\
    extends g ws g' (do_workers key r ws) /\
    match r with
    | DoWait p _ started => at_flight (do_workers key r ws) key p /\ (started = true -> ws !! p = None)
    | _ => True
    end.
Proof using Type.
  intros Hg Hvalid. unfold do_locked. case_bool_decide; [by exists DoContext, g | ].
  destruct (fg_flights g !! key) as [p | ] eqn:Ek.
  2: { destruct (do_start_ok ctx key g ws Hg Ek Hvalid) as [-> | (p & id & g' & -> & Hnew & Hg' & He)]; [by exists DoSaturated, g | ].
       exists (DoWait p id true), g'. split_and!; [done | done | done | apply at_new | done]. }
  destruct (go_flights _ _ Hg key p Ek) as (w & Hw & <-). destruct (go_worker _ _ Hg p w Hw) as (f & Hf & Hok). rewrite Hf.
  destruct (fo_current _ _ _ _ Hok Ek) as [Hd Hne]. set (f1 := pruneCanceledWaitersLocked ended' f).
  destruct (pruned_flags ended' f) as (Hd1 & Hc1 & Hr1 & _). fold f1 in Hd1, Hc1, Hr1. pose proof (pruned_size ended' f) as Hsz. fold f1 in Hsz.
  assert (forall f', rf_done f' = rf_done f -> rf_result f' = rf_result f -> worker_ok (caching g) w f') as Hworker.
  { intros f' Hd' Hr'. eapply worker_ok_flags; [exact Hd' | exact Hr' | apply Hok]. }
  pose proof (fo_waiters _ _ _ _ Hok) as Hmax. pose proof (go_waiters _ _ Hg) as Hlim.
  destruct (bool_decide_reflect (rf_waiterCtx f1 = ∅)) as [Hempty | Hempty].
  - destruct (retire_ok g ws p w f (flight_cancel f1)) as [Hg1 He1]; [done | done | done | by rewrite <- Hd1 | | ].
    { destruct Hok as [H1 H2 H3 H4 H5 H6]. split; cbn; try done; [congruence | lia | by apply Hworker]. }
    replace (set_flight (dropCurrent (set_flight g p f1) (wk_key w) p) p (flight_cancel f1))
      with (dropCurrent (set_flight g p (flight_cancel f1)) (wk_key w) p).
    2: { unfold dropCurrent, currentFlight. cbn. rewrite bool_decide_true by done. unfold set_flights, set_flight. cbn. by rewrite insert_insert_eq. }
    assert (fg_flights (dropCurrent (set_flight g p (flight_cancel f1)) (wk_key w) p) !! wk_key w = None) as Hnone.
    { unfold dropCurrent, currentFlight. cbn. rewrite bool_decide_true by done. apply lookup_delete_eq. }
    destruct (do_start_ok ctx (wk_key w) _ ws Hg1 Hnone Hvalid) as [-> | (q & id & g' & -> & Hnew & Hg' & He)]; [by eexists DoSaturated, _ | ].
    exists (DoWait q id true), g'. split_and!; [done | done | by eapply extends_trans | apply at_new | done].
  - destruct (Z.leb_spec (fg_maxWaiters (set_flight g p f1)) (Z.of_nat (size (rf_waiterCtx f1)))) as [Hfull | Hroom]; cbn [fg_maxWaiters set_flight] in *.
    + destruct (set_flight_ok g ws p w f f1) as [Hg1 He1]; [done | done | done | by rewrite <- Hd1 | | by eexists DoSaturated, _].
      destruct Hok as [H1 H2 H3 H4 H5 H6]. split; try done; [congruence | lia | intros _; by rewrite Hd1 | by apply Hworker].
    + unfold nextWaiterIDLocked. cbn [fg_waiterID set_flight].
      destruct (nextWaiterID_fresh (rf_waiterCtx f1) (fg_waiterID g) (go_ids _ _ Hg)) as (id & -> & Hfree & Hid).
      { unfold hardMaxCoalescedWaiters in Hlim. lia. }
      cbn [obind].
      set (f2 := with_waiters f1 (<[id := ctx]> (rf_waiterCtx f1))).
      destruct (set_flight_ok (set_waiterID g id) ws p w f f2) as [Hg1 He1]; [ | done | done | by cbn; rewrite Hd1 | | ].
      { apply set_waiterID_ok; [done | lia]. }
      { destruct Hok as [H1 H2 H3 H4 H5 H6]. split; cbn; try done; [congruence | | | by apply Hworker].
        - rewrite map_size_insert_None by done. lia.
        - intros _. rewrite Hd1. split; [done | apply insert_non_empty]. }
      exists (DoWait p id false), (set_flight (set_waiterID g id) p f2).
      split_and!; [ | done | done | by exists w | done].
      unfold set_flight, set_waiterID. cbn. by rewrite insert_insert_eq.
Qed.

Lemma admission_prepared key r c now a :
  work_may key r -> prepareAdmission c key (MkCacheValue (fr_outcome r) (fr_policy r)) (fr_expiry r) now = Some a ->
  oc_capacity c <> 0 /\ admission_ok key a.
Proof using Type.
  intros Hr. unfold prepareAdmission. destruct (Z.eqb_spec (oc_capacity c) 0); [done | ]. cbn [orb].
  destruct (oc_clock c); [ | done]. destruct (IsZero (fr_expiry r)) eqn:Ez; [done | ].
  destruct (cacheKeyValid key) eqn:Ek; [ | done]. destruct (cacheValueValidForKey _ key) eqn:Ev; [ | done]. cbn [negb orb].
  destruct (negb _ || _); [done | ]. intros [= <-]. rewrite (cloneCacheValue_valid _ key Ev).
  split; [done | ]. split_and!; try done. by exists r.
Qed.
Lemma commit_sound key a c :
  cache_sound c -> oc_capacity c <> 0 -> admission_ok key a ->
  exists ok c', commitAdmission a c = Ret (ok, c') /\ cache_sound c' /\ oc_capacity c' = oc_capacity c.
Proof using Type.
  intros [? | [[v Hc] Hall]] Hcap (<- & Hst & Hk & Hv & Hz); [done | ]. unfold commitAdmission. rewrite Hk, Hv, Hz. cbn [negb orb].
  destruct (After (ad_expiry a) (ad_now a)); cbn [negb]; [ | exists false, c; split_and!; [done | | done]; right; split; [by exists v | done]].
  destruct (putLocked_refines v c (ad_key a) (ad_value a) (ad_expiry a) (ad_now a) Hc) as (v' & c' & -> & Hc' & [Hs _] & Hcont); [done | ].
  exists true, c'. split_and!; [done | | done]. right. split; [by exists v' | ]. intros x. rewrite Hcont.
  intros [-> | [Hx _]]%spec_put_elem; [done | by apply Hall].
Qed.
Lemma lookup_sound key now c :
  cache_sound c ->
  exists value hit c', KeyCache.lookup key now c = Ret (value, hit, false, c') /\ cache_sound c' /\
    oc_capacity c' = oc_capacity c /\ (hit = true -> exists expiry, stored_may key (value, expiry) /\ Before now expiry = true).
Proof using Type.
  intros [H0 | [[v Hc] Hall]].
  - unfold KeyCache.lookup. rewrite H0. cbn. exists zeroValue, false, c. split_and!; [done | by left | done | done].
  - destruct (lookup_refines v c key now Hc) as (c' & -> & Hc' & [Hs _] & Hcont).
    assert (cache_sound c') as Hc''.
    { right. split; [by exists v | ]. intros x. rewrite Hcont. intros Hx%spec_lookup_elem. by apply Hall. }
    destruct (spec_lookup key now (contents c)) as [[value | ] l] eqn:El; cbn.
    + exists value, true, c'. split_and!; [done | done | done | ]. intros _. unfold spec_lookup in El.
      destruct (cached key (contents c)) as [[value' expiry] | ] eqn:Ec; [ | done]. destruct (Before now expiry) eqn:Eb; [ | done].
      injection El as -> _. exists expiry. split; [ | done]. by apply (Hall (key, (value, expiry))), cached_in.
    + exists zeroValue, false, c'. by split_and!.
Qed.


(** Completion: the worker gives its token back. *)
Lemma complete_ok g ws p w f r r' cache f' :
  group_ok g ws -> ws !! p = Some w -> fg_memory g !! p = Some f -> live w = 1%nat ->
  work_may (wk_key w) r -> result_may (wk_key w) r' -> (forall c, cache = Some c -> cache_sound c) ->
  caching (with_cache g cache) = caching g -> rf_done f' = rf_done f ->
  (size (rf_waiterCtx f') <= size (rf_waiterCtx f))%nat ->
  let g2 := dropCurrent (set_flight (with_cache g cache) p (flight_complete f' r')) (wk_key w) p in
  fg_running g2 = fg_running g /\
  group_ok (set_running g2 (fg_running g2 - 1)) (<[p := MkWorker (wk_key w) (WEnd r)]> ws) /\
  extends g ws (set_running g2 (fg_running g2 - 1)) (<[p := MkWorker (wk_key w) (WEnd r)]> ws).
Proof using Type.
  intros Hg Hw Hf Hlive Hr Hr' Hcache Hcaching Hd Hsz g2.
  destruct (dropCurrent_fields (set_flight (with_cache g cache) p (flight_complete f' r')) (wk_key w) p) as (E1 & E2 & E3 & E4 & E5 & E6 & E7).
  fold g2 in E1, E2, E3, E4, E5, E6, E7. split; [done | ].
  destruct (go_worker _ _ Hg p w Hw) as (f0 & Hf0 & Hok). assert (f0 = f) as -> by congruence.
  eapply (update_ok g ws _ p w f _ (flight_complete f' r') true); cbn; try done.
  - intros k q. unfold g2. rewrite dropCurrent_lookup; [cbn; naive_solver | ]. cbn. intros k'. by apply (flights_inj g ws).
  - rewrite E7. apply Hg.
  - rewrite E2. cbn. lia.
  - unfold live at 1. cbn. lia.
  - rewrite <- Hcaching. unfold caching. cbn. by rewrite E6.
  - intros c. rewrite E6. apply Hcache.
  - destruct Hok as [H1 H2 H3 H4 H5 H6]. split; cbn; try done; [lia | naive_solver].
Qed.
(** The publication: what the section does to the cache. *)
Lemma publish_ok (abandoned : bool) key a g ws :
  group_ok g ws -> (forall x, a = Some x -> caching g = true /\ admission_ok key x) ->
  exists cache, match a, fg_cache g with
      | Some admission, Some c => if abandoned then Ret g else let* (_, c) := commitAdmission admission c in Ret (set_cache g c)
      | Some admission, None => if abandoned then Ret g else Crash
      | None, _ => Ret g
      end = Ret (E := unit) (with_cache g cache) /\
    (forall c, cache = Some c -> cache_sound c) /\ caching (with_cache g cache) = caching g.
Proof using Type.
  intros Hg Ha. assert (g = with_cache g (fg_cache g)) as Hsame by (by destruct g).
  pose proof (go_cache _ _ Hg) as Hsound.
  destruct a as [admission | ]; [ | exists (fg_cache g); rewrite <- Hsame; by split_and!].
  destruct (Ha admission eq_refl) as [Hcap Hadm]. unfold caching in Hcap.
  destruct (fg_cache g) as [c | ] eqn:Ec; [ | done]. destruct abandoned; [exists (Some c); rewrite <- Hsame; by split_and! | ].
  destruct (commit_sound key admission c) as (ok & c' & -> & Hc' & Hsc); [by apply Hsound | by intros E; rewrite E in Hcap | done | ].
  exists (Some c'). split_and!; [done | by intros ? [= <-] | ]. unfold caching. cbn. by rewrite Ec, Hsc.
Qed.
Lemma run_locked_ok ended timeout p r a g ws w :
  group_ok g ws -> ws !! p = Some w -> wk_state w = WPrepared r a ->
  exists g', run_locked ended timeout (wk_key w) p r a g = Ret g' /\ group_ok g' (<[p := MkWorker (wk_key w) (WEnd r)]> ws) /\
    extends g ws g' (<[p := MkWorker (wk_key w) (WEnd r)]> ws).
Proof using Type.
  intros Hg Hw Hst. destruct (go_worker _ _ Hg p w Hw) as (f & Hf & Hok). unfold run_locked. rewrite Hf.
  set (f1 := if timeout then flight_cancel (pruneCanceledWaitersLocked ended f) else pruneCanceledWaitersLocked ended f).
  assert (rf_done f1 = rf_done f /\ (size (rf_waiterCtx f1) <= size (rf_waiterCtx f))%nat) as [Hd1 Hsz].
  { destruct (pruned_flags ended f) as (Hd & _). pose proof (pruned_size ended f). unfold f1. by destruct timeout. }
  set (abandoned := rf_ended f1 || _ || _). pose proof (fo_worker _ _ _ _ Hok) as Hwok. unfold worker_ok in Hwok. rewrite Hst in Hwok.
  destruct Hwok as (Hd & Hr & Ha). assert (live w = 1%nat) as Hlive by (unfold live; by rewrite Hst).
  assert (0 < fg_running g) as Hpos.
  { rewrite (go_running _ _ Hg). pose proof (msum_insert live ws p w (MkWorker (wk_key w) (WEnd r)) Hw).
    assert (live (MkWorker (wk_key w) (WEnd r)) = 0%nat) by done. lia. }
  assert (result_may (wk_key w) (cloneFlightResult (if abandoned then temporaryFlightResult (wk_key w) else r))) as Hres.
  { destruct abandoned; [left | right; by exists r]. apply temporary_clone, (fo_key _ _ _ _ Hok). }
  destruct (publish_ok abandoned (wk_key w) a g ws Hg Ha) as (cache & -> & Hc & Hcaching). cbn [obind]. rewrite Hd1, Hd. cbn [orb].
  destruct (complete_ok g ws p w f r _ cache f1 Hg Hw Hf Hlive Hr Hres Hc Hcaching Hd1 Hsz) as (Hrun & Hg' & He).
  rewrite Hrun. destruct (Z.leb_spec (fg_running g) 0); [lia | ]. rewrite Hrun in Hg', He. by eexists.
Qed.

Lemma leave_ok p id g ws w :
  group_ok g ws -> ws !! p = Some w ->
  exists last g', leave (wk_key w) p id g = Ret (last, g') /\ group_ok g' ws /\ extends g ws g' ws.
Proof using Type.
  intros Hg Hw. destruct (go_worker _ _ Hg p w Hw) as (f & Hf & Hok). unfold leave. rewrite Hf.
  set (f1 := with_waiters f (delete id (rf_waiterCtx f))).
  assert (size (rf_waiterCtx f1) <= size (rf_waiterCtx f))%nat as Hsz by (apply map_subseteq_size, delete_subseteq).
  pose proof (fo_waiters _ _ _ _ Hok) as Hmax.
  destruct (bool_decide (rf_waiterCtx f1 = ∅) && negb (rf_completed f1)) eqn:Elast.
  - destruct (retire_ok g ws p w f (flight_cancel f1)) as [Hg' He]; try done; [ | by eexists _, _].
    destruct Hok as [H1 H2 H3 H4 H5 H6]. split; cbn in *; try done. lia.
  - destruct (set_flight_ok g ws p w f f1) as [Hg' He]; try done; [ | by eexists _, _].
    destruct Hok as [H1 H2 H3 H4 H5 H6]. split; try done; [lia | ]. intros Hcur. destruct (H4 Hcur) as [Hd _]. split; [done | ].
    intros Hempty. rewrite bool_decide_true in Elast by done. cbn in Elast. by rewrite H2, Hd in Elast.
Qed.
Lemma finishWaiter_ok p id g ws w :
  group_ok g ws -> ws !! p = Some w -> flight_done g p ->
  exists g', finishWaiter p id g = Ret g' /\ group_ok g' ws /\ extends g ws g' ws.
Proof using Type.
  intros Hg Hw (f & Hf & Hd). destruct (go_worker _ _ Hg p w Hw) as (f0 & Hf0 & Hok). assert (f0 = f) as -> by congruence.
  unfold finishWaiter. rewrite Hf. set (f1 := with_waiters f (delete id (rf_waiterCtx f))).
  assert (size (rf_waiterCtx f1) <= size (rf_waiterCtx f))%nat as Hsz by (apply map_subseteq_size, delete_subseteq).
  destruct (set_flight_ok g ws p w f f1) as [Hg' He]; try done; [ | by eexists].
  destruct Hok as [H1 H2 H3 H4 H5 H6]. split; try done; [lia | ]. intros Hcur. destruct (H4 Hcur) as [Hd' _]. congruence.
Qed.
Lemma worker_update_ok g ws p w x :
  group_ok g ws -> ws !! p = Some w -> live (MkWorker (wk_key w) x) = live w ->
  (forall f, fg_memory g !! p = Some f -> worker_ok (caching g) w f -> worker_ok (caching g) (MkWorker (wk_key w) x) f) ->
  group_ok g (<[p := MkWorker (wk_key w) x]> ws) /\ extends g ws g (<[p := MkWorker (wk_key w) x]> ws).
Proof using Type.
  intros Hg Hw Hlive Hx. destruct (go_worker _ _ Hg p w Hw) as (f & Hf & Hok).
  eapply (update_ok g ws g p w f _ f false); rewrite ?Hlive; try done; try apply Hg.
  - by rewrite insert_id.
  - naive_solver.
  - destruct Hok as [H1 H2 H3 H4 H5 H6]. split; cbn; try done; [naive_solver | naive_solver | by apply Hx].
Qed.
Lemma set_cache_ok g ws c c' :
  group_ok g ws -> fg_cache g = Some c -> cache_sound c' -> oc_capacity c' = oc_capacity c ->
  group_ok (set_cache g c') ws /\ extends g ws (set_cache g c') ws.
Proof using Type.
  intros [H1 H2 H3 H4 H5 H6 H7 H8 H9] Hc Hs Hcap. split; [ | done]. split; try done.
  - intros p w Hw. destruct (H7 p w Hw) as (f & Hf & [? ? ? ? ? ?]). exists f. split; [done | ]. split; try done.
    unfold caching in *. cbn. by rewrite Hcap, Hc in *.
  - by intros ? [= <-].
Qed.

(** ** Every step keeps the invariant *)
Lemma env_step_ok s s' : system_ok s -> env_step s s' -> system_ok s'.
Proof using Type.
  intros Hs Hstep. pose proof (so_group _ Hs) as Hg. destruct Hstep as [s t ctx key Ht Hi Hk | s ctx | s p f Hf | s key now c value hit corrupt c' Hc Hl].
  - apply system_ok_callers; [done | done | apply extends_refl | done].
  - by apply system_ok_group.
  - destruct (go_memory _ _ Hg p f Hf) as [w Hw]. destruct (go_worker _ _ Hg p w Hw) as (f0 & Hf0 & Hok). assert (f0 = f) as -> by congruence.
    destruct (set_flight_ok (sys_group s) (sys_workers s) p w f (flight_cancel f)) as [Hg' He]; try done; [ | by apply system_ok_group].
    destruct Hok as [H1 H2 H3 H4 H5 H6]. by split.
  - destruct (lookup_sound key now c (go_cache _ _ Hg c Hc)) as (v & h & c1 & E & Hsound & Hcap & _). rewrite E in Hl. injection Hl as -> -> <- ->.
    destruct (set_cache_ok _ _ c c' Hg Hc Hsound Hcap). by apply system_ok_group.
Qed.
Lemma caller_step_ok s s' : system_ok s -> caller_step s s' -> system_ok s'.
Proof using Type.
  intros Hs Hstep. pose proof (so_group _ Hs) as Hg.
  destruct Hstep as [s t c Ht Hst | s t c ended' r g Ht Hst Hsub Hdo | s t c f id Ht Hst | s t c f id fl Ht Hst Hf Hd | s t c f id Ht Hst Hctx |
    s t c f id g Ht Hst Hfin | s t c f fl Ht Hst Hf | s t c f id last g Ht Hst Hleave | s t c f fl Ht Hst Hf Hd];
    destruct (so_callers _ Hs t c Ht) as [Hk Hcl]; rewrite Hst in Hcl; unfold at_caller.
  - apply system_ok_callers; [done | done | apply extends_refl | ]. split; [done | ]. cbn. by case_bool_decide.
  - destruct (do_locked_ok (sys_ended s) ended' (cl_ctx c) (cl_key c) _ _ Hg Hk) as (r' & g' & E & Hg' & He & Hr). rewrite E in Hdo.
    injection Hdo as -> ->. apply (system_ok_callers s g (do_workers (cl_key c) r (sys_workers s))); [done | done | done | ].
    split; [done | ]. destruct r as [ | | p id started]; [done | done | apply Hr].
  - apply system_ok_callers; [done | done | apply extends_refl | ]. split; [done | ]. cbn. by case_bool_decide.
  - apply system_ok_callers; [done | done | apply extends_refl | ]. split; [done | ]. split; [done | by exists fl].
  - apply system_ok_callers; [done | done | apply extends_refl | ]. by split.
  - destruct Hcl as [(w & Hw & Hwk) Hd]. destruct (finishWaiter_ok f id _ _ w Hg Hw Hd) as (g' & E & Hg' & He). rewrite E in Hfin. injection Hfin as ->.
    apply system_ok_callers; [done | done | done | ]. split; [done | ]. cbn. split; [by exists w | by apply He].
  - destruct Hcl as [(w & Hw & Hwk) (f0 & Hf0 & Hd)]. assert (f0 = fl) as -> by congruence.
    apply system_ok_callers; [done | done | apply extends_refl | ]. split; [done | ]. cbn. case_bool_decide; [done | ].
    destruct (go_worker _ _ Hg f w Hw) as (f1 & Hf1 & Hok). assert (f1 = fl) as -> by congruence. pose proof (fo_worker _ _ _ _ Hok) as Hwok.
    unfold worker_ok in Hwok. rewrite Hwk in Hwok. destruct (wk_state w); try (by destruct Hwok; congruence); [congruence | ].
    destruct Hwok as (_ & _ & [-> | (r0 & Hr0 & ->)]); [left; by apply temporary_clone | right; exists r0; by rewrite clone_twice].
  - destruct Hcl as (w & Hw & Hwk). destruct (leave_ok f id _ _ w Hg Hw) as (last' & g' & E & Hg' & He). rewrite Hwk, Hleave in E. injection E as <- <-.
    apply system_ok_callers; [done | done | done | ]. split; [done | ]. cbn. destruct last; [by exists w | done].
  - apply system_ok_callers; [done | done | apply extends_refl | ]. by split.
Qed.
Lemma worker_step_ok s s' : system_ok s -> worker_step work_may s s' -> system_ok s'.
Proof using Type.
  intros Hs Hstep. pose proof (so_group _ Hs) as Hg.
  destruct Hstep as [s p w r Hw Hst Hr | s p w r fl now Hw Hst Hf | s p w r a ended' timeout g Hw Hst Hsub Hrun].
  - destruct (worker_update_ok _ _ p w (WWorked r) Hg Hw) as [Hg' He]; [unfold live; by rewrite Hst | | by apply system_ok_group].
    intros f Hf. unfold worker_ok. by rewrite Hst.
  - destruct (worker_update_ok (sys_group s) (sys_workers s) p w (WPrepared r
             (match fg_cache (sys_group s) with
              | Some c => if rf_ended fl then None
                          else prepareAdmission c (wk_key w) (MkCacheValue (fr_outcome r) (fr_policy r)) (fr_expiry r) now
              | None => None
              end)) Hg Hw) as [Hg' He]; [unfold live; by rewrite Hst | | by apply system_ok_group].
    intros f Hf'. unfold worker_ok. rewrite Hst. cbn. intros [Hd Hr]. split_and!; [done | done | ]. unfold caching.
    destruct (fg_cache (sys_group s)) as [c | ]; [ | done]. destruct (rf_ended fl); [done | ].
    intros x Hx. destruct (admission_prepared (wk_key w) r c now x Hr Hx) as [Hcap Hadm]. split; [ | done].
    by apply negb_true_iff, Z.eqb_neq.
  - destruct (run_locked_ok ended' timeout p r a _ _ w Hg Hw Hst) as (g' & E & Hg' & He). rewrite E in Hrun. injection Hrun as ->.
    by apply system_ok_group.
Qed.
Lemma step_ok s s' : system_ok s -> step work_may s s' -> system_ok s'.
Proof using Type.
  intros Hs [H | [H | H]]; [by eapply env_step_ok | by eapply caller_step_ok | by eapply worker_step_ok].
Qed.
Lemma steps_ok s s' : system_ok s -> rtc (step work_may) s s' -> system_ok s'.
Proof using Type. intros Hs Hr. induction Hr as [ | s s1 s2 H1 _ IH]; [done | ]. apply IH. by eapply step_ok. Qed.

(** ** Progress *)
Definition caller_weight (c : caller) : nat :=
  match cl_state c with
  | CStart => 9 | CLock => 8 | CWait _ _ => 4 | CSelect _ _ => 3 | CFinish _ _ => 2 | CFinished _ => 1
  | CLeave _ _ => 2 | CAwait _ => 1 | CReturned _ => 0
  end.
Definition worker_weight (w : worker) : nat :=
  match wk_state w with WWork => 3 | WWorked _ => 2 | WPrepared _ _ => 1 | WEnd _ => 0 end.
Definition weight (s : system) : nat := (msum caller_weight (sys_callers s) + msum worker_weight (sys_workers s))%nat.
Lemma caller_step_weight s s' : system_ok s -> caller_step s s' -> (weight s' < weight s)%nat.
Proof using Type.
  intros Hs Hstep. pose proof (so_group _ Hs) as Hg. unfold weight.
  destruct Hstep as [s t c Ht Hst | s t c ended' r g Ht Hst Hsub Hdo | s t c f id Ht Hst | s t c f id fl Ht Hst Hf Hd | s t c f id Ht Hst Hctx |
    s t c f id g Ht Hst Hfin | s t c f fl Ht Hst Hf | s t c f id last g Ht Hst Hleave | s t c f fl Ht Hst Hf Hd]; unfold at_caller; cbn [sys_callers sys_workers];
    match goal with |- context [<[t := ?x]> _] => pose proof (msum_insert caller_weight (sys_callers s) t c x Ht) as Hsum end;
    unfold caller_weight at 2 4 in Hsum; rewrite Hst in Hsum; cbn [cl_state] in Hsum.
  2: { destruct (so_callers _ Hs t c Ht) as [Hk _].
       destruct (do_locked_ok (sys_ended s) ended' (cl_ctx c) (cl_key c) _ _ Hg Hk) as (r' & g' & E & _ & _ & Hr). rewrite E in Hdo.
       injection Hdo as -> ->. destruct r as [ | | p id [ | ]]; try lia. destruct Hr as [_ Hnew].
       rewrite (msum_insert_new worker_weight) by (by apply Hnew). unfold worker_weight at 1. cbn [wk_state]. lia. }
  all: try (case_bool_decide; lia); try (destruct last; lia); lia.
Qed.
Lemma worker_step_weight s s' : worker_step work_may s s' -> (weight s' < weight s)%nat.
Proof using Type.
  intros Hstep. unfold weight.
  destruct Hstep as [s p w r Hw Hst Hr | s p w r fl now Hw Hst Hf | s p w r a ended' timeout g Hw Hst Hsub Hrun]; cbn [sys_callers sys_workers];
    match goal with |- context [<[p := ?x]> _] => pose proof (msum_insert worker_weight (sys_workers s) p w x Hw) as Hsum end;
    unfold worker_weight at 2 4 in Hsum; rewrite Hst in Hsum; cbn [wk_state] in Hsum; lia.
Qed.
Lemma internal_weight s s' n : system_ok s -> nsteps (internal_step work_may) n s s' -> (n + weight s' <= weight s)%nat.
Proof using Type.
  intros Hs Hn. induction Hn as [s | n s s1 s2 Hstep _ IH]; [lia | ].
  assert (system_ok s1) as Hs1 by (eapply step_ok; [done | by right]).
  specialize (IH Hs1). assert (weight s1 < weight s)%nat; [ | lia].
  destruct Hstep as [H | H]; [by apply caller_step_weight | by apply worker_step_weight].
Qed.

Lemma worker_progress s p w :
  (forall key, exists r, work_may key r) -> system_ok s -> sys_workers s !! p = Some w -> live w = 1%nat ->
  exists s', internal_step work_may s s'.
Proof using Type.
  intros Hwork Hs Hw Hlive. pose proof (so_group _ Hs) as Hg. destruct (go_worker _ _ Hg p w Hw) as (f & Hf & _).
  unfold live in Hlive. destruct (wk_state w) as [ | r | r a | r] eqn:Hst; [ | | | done].
  - destruct (Hwork (wk_key w)) as [r Hr]. eexists. right. by eapply step_work.
  - eexists. right. by eapply (step_prepare _ s p w r f zeroTime).
  - destruct (run_locked_ok (sys_ended s) false p r a _ _ w Hg Hw Hst) as (g' & E & _). eexists. right.
    by eapply (step_run _ s p w r a (sys_ended s) false g').
Qed.
Lemma caller_progress s t c :
  (forall key, exists r, work_may key r) -> system_ok s -> sys_callers s !! t = Some c -> (0 < caller_weight c)%nat ->
  exists s', internal_step work_may s s'.
Proof using Type.
  intros Hwork Hs Ht Hweight. pose proof (so_group _ Hs) as Hg. destruct (so_callers _ Hs t c Ht) as [Hk Hcl].
  assert (forall p, at_flight (sys_workers s) (cl_key c) p ->
    (exists f, fg_memory (sys_group s) !! p = Some f /\ rf_done f = true) \/ exists s', internal_step work_may s s') as Hflight.
  { intros p (w & Hw & Hwk). destruct (go_worker _ _ Hg p w Hw) as (f & Hf & Hok).
    destruct (wk_state w) as [ | | | r] eqn:Hst; try (right; eapply worker_progress; [done | done | done | unfold live; by rewrite Hst]).
    left. exists f. split; [done | ]. pose proof (fo_worker _ _ _ _ Hok) as Hwok. unfold worker_ok in Hwok. rewrite Hst in Hwok. apply Hwok. }
  unfold caller_weight in Hweight. destruct (cl_state c) as [ | | p id | p id | p id | p | p id | p | r] eqn:Hst; [ .. | lia].
  - eexists. left. by eapply (step_start s t c).
  - destruct (do_locked_ok (sys_ended s) (sys_ended s) (cl_ctx c) (cl_key c) _ _ Hg Hk) as (r & g & E & _).
    eexists. left. by eapply (step_lock s t c (sys_ended s) r g).
  - eexists. left. by eapply (step_wait s t c p id).
  - destruct (Hflight p Hcl) as [(f & Hf & Hd) | ?]; [ | done]. eexists. left. by eapply (step_select_done s t c p id f).
  - destruct Hcl as [(w & Hw & Hwk) Hd]. destruct (finishWaiter_ok p id _ _ w Hg Hw Hd) as (g & E & _).
    eexists. left. by eapply (step_finish s t c p id g).
  - destruct Hcl as [_ (f & Hf & Hd)]. eexists. left. by eapply (step_finished s t c p f).
  - destruct Hcl as (w & Hw & Hwk). destruct (leave_ok p id _ _ w Hg Hw) as (last & g & E & _). rewrite Hwk in E.
    eexists. left. by eapply (step_leave s t c p id last g).
  - destruct (Hflight p Hcl) as [(f & Hf & Hd) | ?]; [ | done]. eexists. left. by eapply (step_await s t c p f).
Qed.

Definition flight_config (capacity maxLookups maxWaiters timeout : Z) : Prop :=
  0 <= capacity <= hardMaxCacheEntries /\ 0 < maxLookups <= hardMaxConcurrentLookups /\
  0 < maxWaiters <= hardMaxCoalescedWaiters /\ 0 < timeout <= 30 * Second.
Definition flight_initial (capacity maxLookups maxWaiters timeout : Z) : system :=
  initial (newFlightGroup true maxLookups maxWaiters timeout [newOutcomeCache capacity true]).
Lemma newOutcomeCache_sound capacity : 0 <= capacity <= hardMaxCacheEntries -> cache_sound (newOutcomeCache capacity true).
Proof using Type.
  intros Hcap. destruct (decide (capacity = 0)) as [-> | Hne]; [by left | right]. split; [apply newOutcomeCache_ok; lia | ].
  by intros x ?%elem_of_nil.
Qed.
Lemma newFlightGroup_fields capacity maxLookups maxWaiters timeout :
  flight_config capacity maxLookups maxWaiters timeout ->
  newFlightGroup true maxLookups maxWaiters timeout [newOutcomeCache capacity true] =
    MkGroup ∅ ∅ 0 maxLookups maxWaiters true (Some (newOutcomeCache capacity true)) 0.
Proof using Type.
  intros (Hc & Hl & Hw & Ht). unfold newFlightGroup.
  rewrite (proj2 (Z.ltb_lt 0 maxLookups)), (proj2 (Z.leb_le maxLookups hardMaxConcurrentLookups)), (proj2 (Z.ltb_lt 0 maxWaiters)), (proj2 (Z.leb_le maxWaiters hardMaxCoalescedWaiters)),
    (proj2 (Z.ltb_lt 0 timeout)), (proj2 (Z.leb_le timeout (30 * Second))), (proj2 (Z.leb_gt maxLookups 0)), (proj2 (Z.ltb_ge hardMaxConcurrentLookups maxLookups)),
    (proj2 (Z.leb_gt maxWaiters 0)), (proj2 (Z.ltb_ge hardMaxCoalescedWaiters maxWaiters)) by lia. done.
Qed.
Lemma initial_ok capacity maxLookups maxWaiters timeout :
  flight_config capacity maxLookups maxWaiters timeout -> system_ok (flight_initial capacity maxLookups maxWaiters timeout).
Proof using Type.
  intros Hcfg. unfold flight_initial. rewrite newFlightGroup_fields by done. destruct Hcfg as (Hc & Hl & Hw & Ht).
  split; [ | intros t c; cbn; by rewrite lookup_empty]. split; cbn; try done; try lia; try (intros ? ?; by rewrite lookup_empty).
  intros c [= <-]. by apply newOutcomeCache_sound.
Qed.
Lemma reachable_ok capacity maxLookups maxWaiters timeout s :
  flight_config capacity maxLookups maxWaiters timeout ->
  rtc (step work_may) (flight_initial capacity maxLookups maxWaiters timeout) s -> system_ok s.
Proof using Type. intros Hcfg. apply steps_ok, (initial_ok _ _ _ _ Hcfg). Qed.
(** The configuration never changes. *)
Lemma do_locked_limits ended ended' ctx key g r g' :
  do_locked ended ended' ctx key g = Ret (r, g') -> fg_maxLookups g' = fg_maxLookups g /\ fg_maxWaiters g' = fg_maxWaiters g.
Proof using Type.
  assert (forall ctx key g r g', do_start ctx key g = Ret (r, g') -> fg_maxLookups g' = fg_maxLookups g /\ fg_maxWaiters g' = fg_maxWaiters g) as Hstart.
  { clear. intros ctx key g r g'. unfold do_start, nextWaiterIDLocked. destruct (fg_running g <? fg_maxLookups g); [ | by intros [= <- <-]].
    destruct (nextWaiterLoop _ _ _); [ | done]. cbn. by intros [= <- <-]. }
  unfold do_locked. case_bool_decide; [by intros [= <- <-] | ]. destruct (fg_flights g !! key) as [p | ]; [ | apply Hstart].
  destruct (fg_memory g !! p) as [f | ]; [ | done]. case_bool_decide.
  - intros [E1 E2]%Hstart. destruct (dropCurrent_fields (set_flight g p (pruneCanceledWaitersLocked ended' f)) key p) as (_ & _ & H3 & H4 & _).
    cbn [set_flight fg_maxLookups fg_maxWaiters] in E1, E2, H3, H4. split; congruence.
  - destruct (_ <=? _); [by intros [= <- <-] | ]. unfold nextWaiterIDLocked. destruct (nextWaiterLoop _ _ _); [ | done]. cbn. by intros [= <- <-].
Qed.
Lemma step_limits s s' : step work_may s s' ->
  fg_maxLookups (sys_group s') = fg_maxLookups (sys_group s) /\ fg_maxWaiters (sys_group s') = fg_maxWaiters (sys_group s).
Proof using Type.
  intros [H | [H | H]]; [by destruct H | | ].
  - destruct H as [ | s t c ended' r g Ht Hst Hsub Hdo | | | | s t c f id g Ht Hst Hfin | | s t c f id last g Ht Hst Hleave | ]; try done; cbn [sys_group].
    + by eapply do_locked_limits.
    + unfold finishWaiter in Hfin. destruct (fg_memory _ !! f); [ | done]. by injection Hfin as <-.
    + unfold leave in Hleave. destruct (fg_memory _ !! f) as [fl | ]; [ | done]. destruct (_ && _); injection Hleave as <- <-; [ | done].
      match goal with |- context [dropCurrent ?h ?k ?q] => destruct (dropCurrent_fields h k q) as (_ & _ & H3 & H4 & _) end. by rewrite H3, H4.
  - destruct H as [ | | s p w r a ended' timeout g Hw Hst Hsub Hrun]; try done; cbn [sys_group].
    unfold run_locked in Hrun. destruct (fg_memory _ !! p) as [fl | ]; [ | done].
    match type of Hrun with obind ?m _ = _ => destruct m as [g0 | | ] eqn:E0; cbn [obind] in Hrun; [ | done | done] end.
    destruct (rf_done _ || _) in Hrun; [done | ]. injection Hrun as <-. cbn [set_running fg_maxLookups fg_maxWaiters].
    match goal with |- context [dropCurrent ?h ?k ?q] => destruct (dropCurrent_fields h k q) as (_ & _ & -> & -> & _) end. cbn.
    destruct a as [x | ]; [ | by injection E0 as <-].
    destruct (fg_cache (sys_group s)) as [c | ], (rf_ended _ || _ || _) in E0; try done; try (by injection E0 as <-).
    destruct (commitAdmission x c) as [[ok c'] | | ]; [ | done | done]. by injection E0 as <-.
Qed.
Lemma steps_limits s s' : rtc (step work_may) s s' ->
  fg_maxLookups (sys_group s') = fg_maxLookups (sys_group s) /\ fg_maxWaiters (sys_group s') = fg_maxWaiters (sys_group s).
Proof using Type. induction 1 as [ | s s1 s2 [H1 H2]%step_limits _ [IH1 IH2]]; [done | ]. split; congruence. Qed.
End invariant.

(** ** The properties *)

(** C36: whatever callers, workers, deadlines, cancelled contexts and cache
    lookups do, the semaphore counts the workers that still run and never more
    than the configured number of lookups, no flight has more waiters than
    configured, and two flights of one key whose contexts are both alive are
    the same flight. *)
Theorem flight_group_bounded work_may capacity maxLookups maxWaiters timeout s :
  flight_config capacity maxLookups maxWaiters timeout ->
  rtc (step work_may) (flight_initial capacity maxLookups maxWaiters timeout) s ->
  fg_running (sys_group s) = Z.of_nat (msum live (sys_workers s)) /\ fg_running (sys_group s) <= maxLookups /\
  (forall p f, fg_memory (sys_group s) !! p = Some f -> Z.of_nat (size (rf_waiterCtx f)) <= maxWaiters) /\
  (forall p q v w f h, sys_workers s !! p = Some v -> sys_workers s !! q = Some w -> wk_key v = wk_key w ->
     fg_memory (sys_group s) !! p = Some f -> fg_memory (sys_group s) !! q = Some h ->
     rf_ended f = false -> rf_ended h = false -> p = q).
Proof.
  intros Hcfg Hr. pose proof (so_group _ _ (reachable_ok work_may _ _ _ _ s Hcfg Hr)) as Hg.
  assert (fg_maxLookups (sys_group s) = maxLookups /\ fg_maxWaiters (sys_group s) = maxWaiters) as [Hl Hw].
  { destruct (steps_limits _ _ _ Hr) as [-> ->]. unfold flight_initial. by rewrite newFlightGroup_fields. }
  split_and!.
  - apply Hg.
  - rewrite <- Hl. apply Hg.
  - intros p f Hf. destruct (go_memory _ _ _ Hg p f Hf) as [w Hpw]. destruct (go_worker _ _ _ Hg p w Hpw) as (f0 & Hf0 & Hok).
    assert (f0 = f) as -> by congruence. rewrite <- Hw. apply Hok.
  - intros p q v w f h Hp Hq Hk Hf Hh Hef Heh.
    destruct (go_worker _ _ _ Hg p v Hp) as (f0 & Hf0 & Hokf). destruct (go_worker _ _ _ Hg q w Hq) as (h0 & Hh0 & Hokh).
    assert (f0 = f) as -> by congruence. assert (h0 = h) as -> by congruence.
    destruct (decide (fg_flights (sys_group s) !! wk_key v = Some p)) as [Hcp | Hcp]; [ | rewrite (fo_abandoned _ _ _ _ _ Hokf Hcp) in Hef; done].
    destruct (decide (fg_flights (sys_group s) !! wk_key w = Some q)) as [Hcq | Hcq]; [ | rewrite (fo_abandoned _ _ _ _ _ Hokh Hcq) in Heh; done].
    congruence.
Qed.

(** A call is only answered with a result of work done for its key, or
    with the temporary outcome of its key; a lookup in the shared cache never
    reports corruption, and a value it finds was returned by work for that key
    with an expiry that has not passed. *)
Theorem flight_answers_sound work_may capacity maxLookups maxWaiters timeout s :
  flight_config capacity maxLookups maxWaiters timeout ->
  rtc (step work_may) (flight_initial capacity maxLookups maxWaiters timeout) s ->
  (forall t c r, sys_callers s !! t = Some c -> cl_state c = CReturned (RetResult r) ->
     r = temporaryFlightResult (cl_key c) \/ exists r0, work_may (cl_key c) r0 /\ r = cloneFlightResult r0) /\
  (forall cache key now, fg_cache (sys_group s) = Some cache ->
     exists value hit cache', KeyCache.lookup key now cache = Ret (value, hit, false, cache') /\
       (hit = true -> exists r, work_may key r /\ value = MkCacheValue (fr_outcome r) (fr_policy r) /\ Before now (fr_expiry r) = true)).
Proof.
  intros Hcfg Hr. pose proof (reachable_ok work_may _ _ _ _ s Hcfg Hr) as Hs. split.
  - intros t c r Ht Hst. destruct (so_callers _ _ Hs t c Ht) as [_ Hc]. by rewrite Hst in Hc.
  - intros cache key now Hc. pose proof (go_cache _ _ _ (so_group _ _ Hs) cache Hc) as Hsound.
    destruct (lookup_sound work_may key now cache Hsound) as (value & hit & cache' & E & _ & _ & Hhit).
    exists value, hit, cache'. split; [done | ]. intros Htrue. destruct (Hhit Htrue) as (expiry & (r & Hwork & [= -> ->]) & Hb). by exists r.
Qed.

(** C37: no call is ever stuck: from any reachable state the goroutines can only
    take a bounded number of steps, and when none is left every call has
    returned and every token of the semaphore is back, provided that the work
    of each key can return. *)
Theorem flight_calls_return work_may capacity maxLookups maxWaiters timeout s :
  (forall key, exists r, work_may key r) -> flight_config capacity maxLookups maxWaiters timeout ->
  rtc (step work_may) (flight_initial capacity maxLookups maxWaiters timeout) s ->
  (forall n s', nsteps (internal_step work_may) n s s' -> (n <= weight s)%nat) /\
  (forall s', rtc (internal_step work_may) s s' -> (forall s'', ~ internal_step work_may s' s'') ->
     (forall t c, sys_callers s' !! t = Some c -> exists r, cl_state c = CReturned r) /\ fg_running (sys_group s') = 0).
Proof.
  intros Hwork Hcfg Hr. pose proof (reachable_ok work_may _ _ _ _ s Hcfg Hr) as Hs. split.
  - intros n s' Hn. pose proof (internal_weight work_may s s' n Hs Hn). lia.
  - intros s' Hrun Hstuck. assert (system_ok work_may s') as Hs'.
    { apply (steps_ok _ s); [done | ]. eapply rtc_subrel; [ | exact Hrun]. intros x y H. by right. }
    split.
    + intros t c Ht. destruct (decide (caller_weight c = 0)%nat) as [Hz | Hnz].
      * unfold caller_weight in Hz. destruct (cl_state c) as [ | | | | | | | | r]; try lia. by exists r.
      * destruct (caller_progress work_may s' t c Hwork Hs' Ht ltac:(lia)) as [s'' Hstep]. by destruct (Hstuck s'').
    + rewrite (go_running _ _ _ (so_group _ _ Hs')). assert (msum live (sys_workers s') = 0%nat) as ->; [ | done].
      apply msum_zero. intros p w Hw. destruct (decide (live w = 1%nat)) as [Hl | Hl].
      * destruct (worker_progress work_may s' p w Hwork Hs' Hw Hl) as [s'' Hstep]. by destruct (Hstuck s'').
      * unfold live in *. by destruct (wk_state w).
Qed.

(** *** A concrete run: two callers of one key share a flight *)
Definition sample_work (key : cacheKey) (r : flightResult) : Prop :=
  r = MkFlightResult (newStatusOutcome KeyOutcomeMissing (ck_algorithm key)) zeroPolicy (MkTime 1100 0).
Definition sample_flight_key : cacheKey := sample_cache_key x61.
Definition sample_flight_start : system := flight_initial 2 1 2 Second.
Lemma sample_flight_config : flight_config 2 1 2 Second.
Proof. by unfold flight_config. Qed.
Definition sample_group (waiters : gmap Z nat) (id : Z) : flightGroup :=
  MkGroup {[sample_flight_key := 1%positive]} {[1%positive := MkFlight false false false zeroFlightResult waiters]} 1 1 2 true
    (Some (newOutcomeCache 2 true)) id.
Definition sample_shared : system :=
  MkSystem (sample_group (<[2 := 8%nat]> {[1 := 7%nat]}) 2)
    (<[1%nat := MkCaller 8 sample_flight_key (CWait 1 2)]> {[0%nat := MkCaller 7 sample_flight_key (CWait 1 1)]})
    {[1%positive := MkWorker sample_flight_key WWork]} ∅.
Lemma sample_shared_reachable : rtc (step sample_work) sample_flight_start sample_shared.
Proof.
  eapply rtc_l; [left; apply (env_call _ 0%nat 7%nat sample_flight_key); [done | done | by vm_compute] | ].
  eapply rtc_l; [right; left; apply (step_start _ 0%nat (MkCaller 7 sample_flight_key CStart)); by vm_compute | ].
  eapply rtc_l; [right; left; eapply (step_lock _ 0%nat (MkCaller 7 sample_flight_key CLock) ∅ (DoWait 1 1 true) (sample_group {[1 := 7%nat]} 1)); by vm_compute | ].
  eapply rtc_l; [left; apply (env_call _ 1%nat 8%nat sample_flight_key); [by vm_compute | done | by vm_compute] | ].
  eapply rtc_l; [right; left; apply (step_start _ 1%nat (MkCaller 8 sample_flight_key CStart)); by vm_compute | ].
  eapply rtc_l; [right; left; eapply (step_lock _ 1%nat (MkCaller 8 sample_flight_key CLock) ∅ (DoWait 1 2 false) (sample_group (<[2 := 8%nat]> {[1 := 7%nat]}) 2)); by vm_compute | ].
  match goal with |- rtc _ ?x ?y => assert (x = y) as -> by (vm_compute; reflexivity) end. apply rtc_refl.
Qed.
Lemma flight_group_bounded_witness : fg_running (sys_group sample_shared) = 1 /\ fg_running (sys_group sample_shared) <= 1.
Proof.
  split; [reflexivity | ]. apply (flight_group_bounded sample_work 2 1 2 Second sample_shared sample_flight_config sample_shared_reachable).
Defined.
Lemma flight_answers_sound_witness : forall t c r, sys_callers sample_shared !! t = Some c -> cl_state c = CReturned (RetResult r) ->
  r = temporaryFlightResult (cl_key c) \/ exists r0, sample_work (cl_key c) r0 /\ r = cloneFlightResult r0.
Proof. exact (proj1 (flight_answers_sound sample_work 2 1 2 Second sample_shared sample_flight_config sample_shared_reachable)). Defined.
Lemma flight_calls_return_witness :
  weight sample_shared = 11%nat /\
  (forall n s', nsteps (internal_step sample_work) n sample_shared s' -> (n <= 11)%nat).
Proof.
  split; [reflexivity | ].
  exact (proj1 (flight_calls_return sample_work 2 1 2 Second sample_shared (fun key => ex_intro _ _ eq_refl) sample_flight_config sample_shared_reachable)).
Defined.
