(* ===== verification/KeyResolver.v ===== *)
(** * Package internal/keyresolver: the resolver (resolver.go, domain_policy.go)

    The transport's answer is a value: what it found, and the class its error
    reports, if there is an error.  [Resolve] is stated on what the cache and
    the flight group answer; KeyResolverSpec.v connects it to their models.
    A reading of a context is a boolean: whether it had ended. *)

From S2P Require Import Prelude GoBytes GoTime Crypto SigAlgorithm KeyTypes KeyRecord KeyCache KeyFlight.
#[local] Open Scope Z_scope.

(** An error that is not nil, with the class that errors.As finds in it. *)
Record transportAnswer := MkAnswer { ta_lookup : LookupResult; ta_error : option (option TransportErrorClass) }.

(** ** Lifetimes *)
Definition maximumDNSTTL : Z := (2 ^ 32 - 1) * Second.
Definition boundedCacheTTL (ttl maximum : Z) : Z :=
  if (ttl <=? 0) || (maximumDNSTTL <? ttl) || (maximum <=? 0) then 0
  else if maximum <? ttl then maximum else ttl.
Definition boundedCacheExpiry (observedAt : Time) (ttl maximum : Z) : Time :=
  let ttl := boundedCacheTTL ttl maximum in
  if ttl <=? 0 then zeroTime
  else
    let expiry := Add observedAt ttl in
    if negb (After expiry observedAt) || year_over_9999 expiry then zeroTime else expiry.

(** ** Key lookups *)
Definition transportFailure (algorithm : Algorithm) (lookup : LookupResult) (err : option TransportErrorClass) : KeyOutcome :=
  if negb (LookupResult_IsZero lookup) then newStatusOutcome KeyOutcomeProviderContract algorithm
  else
    match err with
    | Some TransportErrorTemporary => newStatusOutcome KeyOutcomeTemporary algorithm
    | Some TransportErrorPermanent => newStatusOutcome KeyOutcomePermanent algorithm
    | None => newStatusOutcome KeyOutcomeProviderContract algorithm
    end.
(** The payloads left by the version filter; [None] when one of them is too
    long. *)
Fixpoint keyCandidates (limits : Limits) (records : list bytes) (candidates : list bytes) : option (list bytes) :=
  match records with
  | [] => Some candidates
  | payload :: records =>
      if foreignVersionRecord payload then keyCandidates limits records candidates
      else if MaxTXTRecordBytes limits <? len payload then None
      else keyCandidates limits records (candidates ++ [payload])
  end.

Section decoders.
Variable x509_ParsePKCS1PublicKey : bytes -> option RSAPublicKey.
Variable x509_ParsePKIXPublicKey : bytes -> option Material.
Variable mldsa_NewPublicKey : bytes -> option MLDSAPublicKey.
Variable mldsa_available : bool.

Definition resolveLookup (limits : Limits) (algorithm : Algorithm) (answer : transportAnswer) (observedAt : Time) (ended : bool)
    : outcome unit flightResult :=
  let lookup := ta_lookup answer in
  let status s := newStatusOutcome s algorithm in
  let cached outcome ttl maximum := Ret (MkFlightResult outcome zeroPolicy (boundedCacheExpiry observedAt ttl maximum)) in
  if ended then Ret (outcomeResult (status KeyOutcomeTemporary))
  else
    match ta_error answer with
    | Some err => Ret (outcomeResult (transportFailure algorithm lookup err))
    | None =>
        if negb (LookupResult_IsZero lookup) && negb (lookupResultValid lookup)
        then Ret (outcomeResult (status KeyOutcomeProviderContract))
        else if LookupResult_IsZero lookup then Ret (outcomeResult (status KeyOutcomeProviderContract))
        else if bool_decide (lr_status lookup = LookupStatusAbsent)
        then cached (status KeyOutcomeMissing) (lr_negativeTTL lookup) (MaxNegativeTTL limits)
        else if MaxTXTRecords limits <? lr_recordCount lookup
        then cached (status KeyOutcomeAmbiguous) (lr_positiveTTL lookup) (MaxStableErrorTTL limits)
        else
          let records := lr_records lookup in
          if len records =? 0 then cached (status KeyOutcomeAmbiguous) (lr_positiveTTL lookup) (MaxStableErrorTTL limits)
          else
            match keyCandidates limits records [] with
            | None => cached (status KeyOutcomeInvalid) (lr_positiveTTL lookup) (MaxStableErrorTTL limits)
            | Some [] => cached (status KeyOutcomeMissing) (lr_positiveTTL lookup) (MaxNegativeTTL limits)
            | Some [payload] =>
                match ParseRecord payload limits with
                | Crash => Crash
                | Fail RecordErrorContract => Ret (outcomeResult (status KeyOutcomeProviderContract))
                | Fail _ => cached (status KeyOutcomeInvalid) (lr_positiveTTL lookup) (MaxStableErrorTTL limits)
                | Ret record =>
                    match DecodeKey x509_ParsePKCS1PublicKey x509_ParsePKIXPublicKey mldsa_NewPublicKey mldsa_available record algorithm with
                    | Crash => Crash
                    | Fail _ => Ret (outcomeResult (status KeyOutcomeProviderContract))
                    | Ret outcome =>
                        cached outcome (lr_positiveTTL lookup)
                          (if bool_decide (ko_status outcome = KeyOutcomeFound) then MaxPositiveTTL limits else MaxStableErrorTTL limits)
                    end
                end
            | Some _ => cached (status KeyOutcomeAmbiguous) (lr_positiveTTL lookup) (MaxStableErrorTTL limits)
            end
    end.
End decoders.

(** ** Policy lookups (domain_policy.go) *)
(** The last candidate and how many there are; [None] when one is too long. *)
Fixpoint policyCandidates (limits : Limits) (records : list bytes) (candidate : bytes) (candidates : Z) : option (bytes * Z) :=
  match records with
  | [] => Some (candidate, candidates)
  | payload :: records =>
      if negb (domainPolicyRecordCandidate payload) then policyCandidates limits records candidate candidates
      else if MaxTXTRecordBytes limits <? len payload then None
      else policyCandidates limits records payload (candidates + 1)
  end.
Definition resolveDomainPolicyLookup (limits : Limits) (answer : transportAnswer) (observedAt : Time) (ended : bool)
    : outcome unit flightResult :=
  let lookup := ta_lookup answer in
  let uncached status := Ret (policyResult (newDomainPolicyOutcome status)) in
  let cached status ttl maximum :=
    Ret (MkFlightResult zeroOutcome (newDomainPolicyOutcome status) (boundedCacheExpiry observedAt ttl maximum)) in
  if ended then uncached DomainPolicyTemporary
  else
    match ta_error answer with
    | Some err =>
        match err with
        | Some TransportErrorTemporary =>
            if LookupResult_IsZero lookup then uncached DomainPolicyTemporary else uncached DomainPolicyInvalid
        | _ => uncached DomainPolicyInvalid
        end
    | None =>
        if LookupResult_IsZero lookup || negb (lookupResultValid lookup) then uncached DomainPolicyInvalid
        else if bool_decide (lr_status lookup = LookupStatusAbsent)
        then cached DomainPolicyAuthorized (lr_negativeTTL lookup) (MaxNegativeTTL limits)
        else
          let records := lr_records lookup in
          if (MaxTXTRecords limits <? lr_recordCount lookup) || (len records =? 0)
          then cached DomainPolicyAmbiguous (lr_positiveTTL lookup) (MaxStableErrorTTL limits)
          else
            match policyCandidates limits records [] 0 with
            | None => cached DomainPolicyInvalid (lr_positiveTTL lookup) (MaxStableErrorTTL limits)
            | Some (candidate, candidates) =>
                if candidates =? 0 then cached DomainPolicyAuthorized (lr_positiveTTL lookup) (MaxNegativeTTL limits)
                else if candidates =? 1 then
                  match ParseDomainPolicyRecord candidate limits with
                  | Crash => Crash
                  | Fail RecordErrorContract => uncached DomainPolicyInvalid
                  | Fail _ => cached DomainPolicyInvalid (lr_positiveTTL lookup) (MaxStableErrorTTL limits)
                  | Ret record =>
                      if Strict record then cached DomainPolicyStrict (lr_positiveTTL lookup) (MaxPositiveTTL limits)
                      else cached DomainPolicyAuthorized (lr_positiveTTL lookup) (MaxPositiveTTL limits)
                  end
                else cached DomainPolicyAmbiguous (lr_positiveTTL lookup) (MaxStableErrorTTL limits)
            end
    end.

(** ** The resolver *)
Record Resolver := MkResolver { rs_transport : bool; rs_limits : Limits; rs_initialized : bool; rs_group : flightGroup }.
(** [transport], [clock] and [parent] say whether they are not nil; the cache
    is the one of the flight group. *)
Definition NewResolver (transport : bool) (limits : Limits) (clock parent : bool) : outcome ErrorClass Resolver :=
  if negb transport || negb (is_ret (Limits_Validate limits)) then Fail ErrorClassContract
  else if negb clock || negb parent then Fail ErrorClassContract
  else
    let cache := newOutcomeCache (MaxCacheEntries limits) clock in
    Ret (MkResolver transport limits true
           (newFlightGroup parent (MaxConcurrentLookups limits) (MaxCoalescedWaiters limits) (LookupTimeout limits) [cache])).

Inductive resolveAnswer (A : Type) := AnswerContract | AnswerContext | Answer (a : A) | AnswerPanic.
Arguments AnswerContract {A}.
Arguments AnswerContext {A}.
Arguments Answer {A} a.
Arguments AnswerPanic {A}.
(** The context as it reads before the call, after the cache and after the
    flight. *)
Record contextReadings := MkReadings { cx_present : bool; cx_before : bool; cx_cached : bool; cx_after : bool }.

Definition Resolve (r : Resolver) (ctx : contextReadings) (get : cacheKey -> KeyOutcome * bool * bool)
    (do : cacheKey -> Query -> callReturn) (signingDomain selector : bytes) (algorithm : Algorithm) : resolveAnswer KeyOutcome :=
  if negb (rs_initialized r) || negb (rs_transport r) || negb (cx_present ctx) || negb (Algorithm_Known algorithm) then AnswerContract
  else if cx_before ctx then AnswerContext
  else
    match NewQuery signingDomain selector algorithm (rs_limits r) with
    | Fail ErrorClassPermanent => Answer (newStatusOutcome KeyOutcomePermanent algorithm)
    | Fail ErrorClassContract => Answer (newStatusOutcome KeyOutcomeProviderContract algorithm)
    | Crash => AnswerPanic
    | Ret query =>
        let key := MkCacheKey (q_absoluteName query) algorithm in
        let '(value, hit, corrupt) := get key in
        if corrupt then if cx_cached ctx then AnswerContext else Answer (newStatusOutcome KeyOutcomeProviderContract algorithm)
        else if hit then if cx_cached ctx then AnswerContext else Answer value
        else
          let returned := do key query in
          if cx_after ctx then AnswerContext
          else
            match returned with
            | RetContract => AnswerContract
            | RetContext => AnswerContext
            | RetSaturated => Answer (newStatusOutcome KeyOutcomeTemporary algorithm)
            | RetResult resolved =>
                if negb (KeyOutcome_Valid (fr_outcome resolved)) then Answer (newStatusOutcome KeyOutcomeProviderContract algorithm)
                else Answer (cloneKeyOutcome (fr_outcome resolved))
            end
    end.
Definition ResolveDomainPolicy (r : Resolver) (ctx : contextReadings) (getPolicy : cacheKey -> DomainPolicyOutcome * bool * bool)
    (do : cacheKey -> DomainPolicyQuery -> callReturn) (domain : bytes) : resolveAnswer DomainPolicyOutcome :=
  if negb (rs_initialized r) || negb (rs_transport r) || negb (cx_present ctx) then AnswerContract
  else if cx_before ctx then AnswerContext
  else
    match NewDomainPolicyQuery domain (rs_limits r) with
    | Fail _ => Answer (newDomainPolicyOutcome DomainPolicyInvalid)
    | Crash => AnswerPanic
    | Ret query =>
        let key := MkCacheKey (dq_absoluteName query) [] in
        let '(value, hit, corrupt) := getPolicy key in
        if corrupt then if cx_cached ctx then AnswerContext else Answer (newDomainPolicyOutcome DomainPolicyInvalid)
        else if hit then if cx_cached ctx then AnswerContext else Answer value
        else
          let returned := do key query in
          if cx_after ctx then AnswerContext
          else
            match returned with
            | RetContract => AnswerContract
            | RetContext => AnswerContext
            | RetSaturated => Answer (newDomainPolicyOutcome DomainPolicyTemporary)
            | RetResult resolved =>
                if negb (DomainPolicyOutcome_Valid (fr_policy resolved)) then Answer (newDomainPolicyOutcome DomainPolicyInvalid)
                else Answer (fr_policy resolved)
            end
    end.
