(* ===== verification/KeyResolverSpec.v ===== *)
(** * Correctness of the resolver

    What one lookup returns for a transport answer, how long it may be cached,
    and what [Resolve] can answer on top of the shared cache and the flights. *)

From stdpp Require Import gmap.
From S2P Require Import Prelude GoBytes GoTime TagTypes TagScan Crypto SigAlgorithm KeyTypes KeyOwner KeyRecord KeyRecordSpec KeyCache KeyCacheSpec KeyFlight KeyFlightSpec KeyResolver.
#[local] Open Scope Z_scope.

(** ** Lifetimes *)
Lemma boundedCacheTTL_spec ttl maximum :
  (boundedCacheTTL ttl maximum = 0 /\ (ttl <= 0 \/ maximumDNSTTL < ttl \/ maximum <= 0)) \/
  (0 < boundedCacheTTL ttl maximum /\ boundedCacheTTL ttl maximum = Z.min ttl maximum /\ ttl <= maximumDNSTTL).
Proof.
  unfold boundedCacheTTL. destruct (Z.leb_spec ttl 0), (Z.ltb_spec maximumDNSTTL ttl), (Z.leb_spec maximum 0); cbn [orb]; try lia.
  destruct (Z.ltb_spec maximum ttl); lia.
Qed.
Lemma Add_day t d : wf_time t -> 0 <= d <= 24 * Hour -> t_sec t <= MaxInt - 86401 -> wf_time (Add t d) /\ instant (Add t d) = instant t + d.
Proof.
  intros Ht Hd Hs. apply Add_exact; [done | lia | ]. pose proof (carry_seconds_bounds t d Ht ltac:(lia)) as Hb.
  assert (d / Second <= 86400). { unfold Hour, Second in *. apply Z.div_le_upper_bound; lia. } lia.
Qed.

(** A DNS lifetime is cached for min(ttl, maximum) after the answer was
    observed, and not at all when it is not positive, longer than DNS allows,
    not admitted by the maximum, or would end after the year 9999. *)
Theorem boundedCacheExpiry_exact observedAt ttl maximum :
  wf_time observedAt -> maximum <= 24 * Hour -> t_sec observedAt <= MaxInt - 86401 ->
  let expiry := boundedCacheExpiry observedAt ttl maximum in
  wf_time expiry /\
  (expiry = zeroTime \/
   0 < ttl <= maximumDNSTTL /\ 0 < maximum /\ year_over_9999 expiry = false /\
   instant expiry = instant observedAt + Z.min ttl maximum).
Proof.
  intros Ht Hmax Hs expiry. unfold expiry, boundedCacheExpiry.
  assert (wf_time zeroTime) as Hzero by (unfold wf_time, zeroTime, MinInt, MaxInt, Second; cbn; lia).
  destruct (boundedCacheTTL_spec ttl maximum) as [[-> _] | (Hpos & E & Hle)]; [cbn; split; [done | by left] | ].
  destruct (Z.leb_spec (boundedCacheTTL ttl maximum) 0); [lia | ].
  destruct (Add_day observedAt (boundedCacheTTL ttl maximum)) as [Hwf Hi]; [done | lia | done | ].
  destruct (negb _ || year_over_9999 _) eqn:Eg; [split; [done | by left] | ]. apply orb_false_iff in Eg as [_ Hy].
  split; [done | right]. split_and!; [lia | lia | lia | done | ]. by rewrite Hi, E.
Qed.
Lemma boundedCacheExpiry_exact_witness :
  let expiry := boundedCacheExpiry (MkTime 1000 0) (7 * Hour) Hour in wf_time expiry /\ expiry = MkTime 4600 0.
Proof.
  split; [ | vm_compute; reflexivity].
  apply (boundedCacheExpiry_exact (MkTime 1000 0) (7 * Hour) Hour); [unfold wf_time, MinInt, MaxInt, Second; cbn; lia | unfold Hour, Second; lia | unfold MaxInt; cbn; lia].
Defined.

(** ** The candidates *)
Definition key_candidates (records : list bytes) : list bytes := filter (fun p => foreignVersionRecord p = false) records.
Definition policy_candidates (records : list bytes) : list bytes := filter (fun p => domainPolicyRecordCandidate p = true) records.
Definition oversized (limits : Limits) (l : list bytes) : bool := existsb (fun p => MaxTXTRecordBytes limits <? len p) l.
Lemma keyCandidates_spec limits records : forall acc,
  keyCandidates limits records acc =
    if oversized limits (key_candidates records) then None else Some (acc ++ key_candidates records).
Proof.
  induction records as [|p records IH]; intros acc; cbn [keyCandidates]; [by rewrite app_nil_r | ].
  unfold key_candidates. rewrite filter_cons. fold (key_candidates records). destruct (foreignVersionRecord p); cbn [decide]; [apply IH | ].
  rewrite decide_True by done. cbn [oversized existsb]. destruct (MaxTXTRecordBytes limits <? len p); [done | ].
  cbn [orb]. rewrite IH. unfold oversized. destruct (existsb _ _); [done | ]. by rewrite <- app_assoc.
Qed.
Lemma policyCandidates_spec limits records : forall c n,
  policyCandidates limits records c n =
    if oversized limits (policy_candidates records) then None
    else Some (List.last (policy_candidates records) c, n + len (policy_candidates records)).
Proof.
  induction records as [|p records IH]; intros c n; cbn [policyCandidates]; [by rewrite Z.add_0_r | ].
  unfold policy_candidates. rewrite filter_cons. fold (policy_candidates records). destruct (domainPolicyRecordCandidate p); cbn [negb].
  - rewrite decide_True by done. cbn [oversized existsb]. destruct (MaxTXTRecordBytes limits <? len p); [done | ].
    cbn [orb]. rewrite IH. unfold oversized. destruct (existsb _ _); [done | ]. rewrite len_cons. f_equal. f_equal; [ | lia].
    clear. revert p c. induction (policy_candidates records) as [|q l IH]; intros p c; [done | ]. cbn. destruct l; [done | apply IH].
  - rewrite decide_False by done. apply IH.
Qed.
Lemma ParseDomainPolicyRecord_no_crash input limits : no_crash (ParseDomainPolicyRecord input limits).
Proof.
  unfold ParseDomainPolicyRecord, Limits_Validate. destruct (limits_within limits) eqn:El; [ | done].
  cbn [require map_fail obind]. destruct (Scan input domainPolicyTags (recordTagLimits limits)) as [f | | ] eqn:Es; [ | done | by apply scan_no_crash in Es].
  cbn [map_fail obind]. destruct (proj1 (Scan_tags _ _ _ f El) Es) as (ts & (_ & text & _ & Htl) & ->).
  destruct (tag_list_tags _ _ _ _ _ Htl) as [Hnd _]. destruct (getTag_field_of ts (bs "v") Hnd) as (ov & -> & _). cbn [obind].
  destruct ov as [v | ]; [ | done]. destruct (leads_with_version _ v); [ | done]. cbn [require obind].
  destruct (getTag_field_of ts (bs "f") Hnd) as (o & -> & _). cbn [obind]. by destruct o.
Qed.

(** ** One key lookup *)
Definition inspectable (limits : Limits) (lookup : LookupResult) : Prop :=
  lookupResultValid lookup = true /\ lr_status lookup = LookupStatusFound /\ lr_records lookup <> [] /\
  lr_recordCount lookup <= MaxTXTRecords limits.
Definition unique_record (limits : Limits) (lookup : LookupResult) (payload : bytes) : Prop :=
  inspectable limits lookup /\ key_candidates (lr_records lookup) = [payload] /\ len payload <= MaxTXTRecordBytes limits.
Lemma valid_not_zero lookup : lookupResultValid lookup = true -> LookupResult_IsZero lookup = false.
Proof. unfold lookupResultValid, LookupResult_IsZero. by destruct (lr_status lookup). Qed.
Lemma oversized_nil limits : oversized limits [] = false.
Proof. done. Qed.
Lemma len_zero_inv {A} (l : list A) : (len l =? 0) = true <-> l = [].
Proof. rewrite Z.eqb_eq. destruct l; [done | ]. rewrite len_cons. pose proof (len_nonneg l). split; [lia | done]. Qed.

Section decoding.
Context (pkcs1 : bytes -> option RSAPublicKey) (pkix : bytes -> option Material)
  (mldsa_new : bytes -> option MLDSAPublicKey) (available : bool).
Context (mldsa_new_parameters : forall raw k, mldsa_new raw = Some k -> mldsa_Parameters k = MLDSA44).
Abbreviation lookup_result := (resolveLookup pkcs1 pkix mldsa_new available).

(** When the outcome says that there is a key, that there is none, or that
    the question may be asked again. *)
Definition found_when (limits : Limits) (algorithm : Algorithm) (lookup : LookupResult) (m : Material) : Prop :=
  exists payload record, unique_record limits lookup payload /\ ParseRecord payload limits = Ret record /\
    rec_status record = RecordStatusKeyData /\ keyTypeMatchesAlgorithm (rec_keyType record) algorithm = true /\
    key_of_data pkcs1 pkix mldsa_new available algorithm (rec_publicKey record) m.
Definition missing_when (limits : Limits) (lookup : LookupResult) : Prop :=
  lookupResultValid lookup = true /\
  (lr_status lookup = LookupStatusAbsent \/ (inspectable limits lookup /\ key_candidates (lr_records lookup) = [])).
Definition retry_when (answer : transportAnswer) (ended : bool) : Prop :=
  ended = true \/ (ta_error answer = Some (Some TransportErrorTemporary) /\ LookupResult_IsZero (ta_lookup answer) = true).
Definition outcome_spec (limits : Limits) (algorithm : Algorithm) (answer : transportAnswer) (ended : bool) (o : KeyOutcome) : Prop :=
  (ko_status o = KeyOutcomeFound <->
     ended = false /\ ta_error answer = None /\ found_when limits algorithm (ta_lookup answer) (ko_material o)) /\
  (ko_status o = KeyOutcomeMissing <-> ended = false /\ ta_error answer = None /\ missing_when limits (ta_lookup answer)) /\
  (ko_status o = KeyOutcomeTemporary <-> retry_when answer ended).

Lemma status_valid status algorithm : Algorithm_Known algorithm = true -> status <> KeyOutcomeUnset -> status <> KeyOutcomeFound ->
  KeyOutcome_Valid (newStatusOutcome status algorithm) = true.
Proof using Type. intros Ha H1 H2. unfold KeyOutcome_Valid. cbn. rewrite Ha. by destruct status. Qed.
(** A status without key material that is neither found, missing nor
    temporary, when none of the three conditions holds. *)
Lemma other_status limits algorithm answer ended status :
  status <> KeyOutcomeFound -> status <> KeyOutcomeMissing -> status <> KeyOutcomeTemporary -> ~ retry_when answer ended ->
  (ended = false -> ta_error answer = None -> (forall m, ~ found_when limits algorithm (ta_lookup answer) m) /\ ~ missing_when limits (ta_lookup answer)) ->
  outcome_spec limits algorithm answer ended (newStatusOutcome status algorithm).
Proof using Type. unfold outcome_spec. cbn. intros H1 H2 H3 H4 H5. split_and!; split; try done; naive_solver. Qed.

Lemma DecodeKey_spec limits algorithm answer payload record :
  limits_within limits = true -> Algorithm_Known algorithm = true -> ta_error answer = None ->
  unique_record limits (ta_lookup answer) payload -> ParseRecord payload limits = Ret record ->
  exists o, DecodeKey pkcs1 pkix mldsa_new available record algorithm = Ret o /\ KeyOutcome_Valid o = true /\
    ko_algorithm o = algorithm /\ outcome_spec limits algorithm answer false o /\
    ko_status o <> KeyOutcomePermanent /\ ko_status o <> KeyOutcomeProviderContract.
Proof using mldsa_new_parameters.
  intros Hl Ha He Hu Hp. destruct (decode_parsed pkcs1 pkix mldsa_new available mldsa_new_parameters payload limits record algorithm Hp Ha)
    as (o & Ho & Hv & Halg & _ & Hfound). exists o. split; [done | ]. split; [done | ]. split; [done | ].
  assert (ko_status o = KeyOutcomeRevoked \/ ko_status o = KeyOutcomeUnsupportedKeyType \/ ko_status o = KeyOutcomeAlgorithmMismatch \/
    ko_status o = KeyOutcomeFound \/ ko_status o = KeyOutcomeInvalid) as Hst.
  { destruct (DecodeKey_cases pkcs1 pkix mldsa_new available record algorithm) as (status & m & E & H); [by apply parsed_valid in Hp | done | ].
    rewrite E in Ho. injection Ho as <-. cbn. naive_solver. }
  assert (ko_status o <> KeyOutcomeMissing /\ ko_status o <> KeyOutcomeTemporary /\ ko_status o <> KeyOutcomePermanent /\
    ko_status o <> KeyOutcomeProviderContract) as (Hn1 & Hn2 & Hn3 & Hn4) by (by destruct Hst as [-> | [-> | [-> | [-> | ->]]]]).
  split; [ | done]. split_and!.
  - rewrite Hfound. split.
    + intros (H1 & H2 & H3). split_and!; [done | done | ]. exists payload, record. by split_and!.
    + intros (_ & _ & payload' & record' & (_ & E & _) & Hp' & H). destruct Hu as (_ & E' & _). assert (payload' = payload) as -> by congruence.
      by replace record with record' by congruence.
  - split; [done | ]. intros (_ & _ & _ & [Habs | [_ Hnone]]); destruct Hu as [(_ & Hf & _) [E _]]; congruence.
  - split; [done | ]. intros [H | [H _]]; congruence.
Qed.

Lemma cached_status (limits : Limits) (lookup : LookupResult) o e :
  exists r, Ret (E := unit) (MkFlightResult o zeroPolicy e) = Ret r /\ fr_outcome r = o /\ fr_policy r = zeroPolicy.
Proof using Type. by eexists. Qed.
Lemma not_retry answer : ta_error answer = None -> ~ retry_when answer false.
Proof using Type. intros E [H | [H _]]; congruence. Qed.
(** An answer whose records cannot be inspected gives neither a key nor its
    absence. *)
Lemma not_inspectable limits algorithm lookup :
  lr_status lookup <> LookupStatusAbsent -> ~ inspectable limits lookup ->
  (forall m, ~ found_when limits algorithm lookup m) /\ ~ missing_when limits lookup.
Proof using Type.
  intros Habs Hno. split.
  - by intros m (p & r & (Hi & _) & _).
  - by intros [_ [? | [Hi _]]].
Qed.
Lemma not_unique limits algorithm lookup :
  lr_status lookup <> LookupStatusAbsent -> key_candidates (lr_records lookup) <> [] ->
  (forall p, key_candidates (lr_records lookup) = [p] -> MaxTXTRecordBytes limits < len p \/ forall r, ParseRecord p limits <> Ret r) ->
  (forall m, ~ found_when limits algorithm lookup m) /\ ~ missing_when limits lookup.
Proof using Type.
  intros Habs Hne Hp. split.
  - intros m (p & r & (_ & E & Hlen) & Hr & _). destruct (Hp p E) as [? | Hno]; [lia | by apply (Hno r)].
  - by intros [_ [? | [_ ?]]].
Qed.

Definition never_cached (status : KeyOutcomeStatus) : Prop :=
  status = KeyOutcomeTemporary \/ status = KeyOutcomePermanent \/ status = KeyOutcomeProviderContract.
Definition lookup_spec (limits : Limits) (algorithm : Algorithm) (answer : transportAnswer) (ended : bool) (r : flightResult) : Prop :=
  fr_policy r = zeroPolicy /\ KeyOutcome_Valid (fr_outcome r) = true /\ ko_algorithm (fr_outcome r) = algorithm /\
  outcome_spec limits algorithm answer ended (fr_outcome r) /\ (never_cached (ko_status (fr_outcome r)) -> fr_expiry r = zeroTime).
Lemma other_leaf limits algorithm answer ended status e :
  Algorithm_Known algorithm = true -> status <> KeyOutcomeUnset ->
  status <> KeyOutcomeFound -> status <> KeyOutcomeMissing -> status <> KeyOutcomeTemporary -> ~ retry_when answer ended ->
  (ended = false -> ta_error answer = None -> (forall m, ~ found_when limits algorithm (ta_lookup answer) m) /\ ~ missing_when limits (ta_lookup answer)) ->
  (never_cached status -> e = zeroTime) ->
  lookup_spec limits algorithm answer ended (MkFlightResult (newStatusOutcome status algorithm) zeroPolicy e).
Proof using Type.
  intros Ha Hu H1 H2 H3 H4 H5 H6. split_and!; [done | by apply status_valid | done | by apply other_status | done].
Qed.
Lemma temporary_leaf limits algorithm answer ended :
  Algorithm_Known algorithm = true -> retry_when answer ended ->
  lookup_spec limits algorithm answer ended (outcomeResult (newStatusOutcome KeyOutcomeTemporary algorithm)).
Proof using Type.
  intros Ha Hr. split_and!; [done | by apply status_valid | done | | done].
  unfold outcome_spec. cbn. unfold retry_when in *. split_and!; split; try done; intros (-> & He & _); destruct Hr as [? | [Hr _]]; congruence.
Qed.
Lemma missing_leaf limits algorithm answer e :
  Algorithm_Known algorithm = true -> ta_error answer = None -> missing_when limits (ta_lookup answer) ->
  lookup_spec limits algorithm answer false (MkFlightResult (newStatusOutcome KeyOutcomeMissing algorithm) zeroPolicy e).
Proof using Type.
  intros Ha He Hm. split_and!; [done | by apply status_valid | done | | by intros [? | [? | ?]]].
  unfold outcome_spec. cbn. split_and!; split; try done.
  - intros (_ & _ & p & r & ((_ & Hf & _) & E & _) & _). destruct Hm as [_ [Habs | [_ Hnone]]]; congruence.
  - intros H. by apply (not_retry answer He) in H.
Qed.

Lemma resolveLookup_spec limits algorithm answer observedAt ended :
  limits_within limits = true -> Algorithm_Known algorithm = true ->
  exists r, lookup_result limits algorithm answer observedAt ended = Ret r /\ lookup_spec limits algorithm answer ended r.
Proof using mldsa_new_parameters.
  intros Hl Ha. unfold resolveLookup. destruct ended; [eexists; split; [done | apply temporary_leaf; [done | by left]] | ].
  destruct (ta_error answer) as [err | ] eqn:He.
  { unfold transportFailure. destruct (LookupResult_IsZero (ta_lookup answer)) eqn:Ez; cbn [negb].
    1: destruct err as [[ | ] | ]; [eexists; split; [done | apply temporary_leaf; [done | by right]] | | ].
    all: eexists; split; [done | apply other_leaf; try done; [intros [? | [H ?]]; congruence | intros; congruence]]. }
  assert (forall status e, status <> KeyOutcomeUnset -> status <> KeyOutcomeFound -> status <> KeyOutcomeMissing -> status <> KeyOutcomeTemporary ->
    (never_cached status -> e = zeroTime) ->
    ((forall m, ~ found_when limits algorithm (ta_lookup answer) m) /\ ~ missing_when limits (ta_lookup answer)) ->
    exists r, Ret (E := unit) (MkFlightResult (newStatusOutcome status algorithm) zeroPolicy e) = Ret r /\ lookup_spec limits algorithm answer false r) as Hother.
  { intros status e ? ? ? ? ? ?. eexists. split; [done | ]. apply other_leaf; try done. by apply not_retry. }
  set (lookup := ta_lookup answer) in *. destruct (lookupResultValid lookup) eqn:Hv.
  2: { assert (forall m, ~ found_when limits algorithm lookup m) as Hf by (intros m (p & r & ((H & _) & _) & _); congruence).
       assert (~ missing_when limits lookup) as Hm by (intros [H _]; congruence).
       destruct (LookupResult_IsZero lookup); cbn [negb andb]; by apply Hother. }
  rewrite (valid_not_zero lookup Hv). cbn [negb andb].
  case_bool_decide as Habs; [eexists; split; [done | apply missing_leaf; [done | done | split; [done | by left]]] | ].
  assert (lr_status lookup = LookupStatusFound) as Hfound by (unfold lookupResultValid in Hv; by destruct (lr_status lookup)).
  destruct (Z.ltb_spec (MaxTXTRecords limits) (lr_recordCount lookup)) as [Hmany | Hcount].
  { apply Hother; try done; [by intros [? | [? | ?]] | apply not_inspectable; [done | intros (_ & _ & _ & H); lia]]. }
  destruct (len (lr_records lookup) =? 0) eqn:Hz.
  { apply len_zero_inv in Hz. apply Hother; try done; [by intros [? | [? | ?]] | apply not_inspectable; [done | by intros (_ & _ & H & _)]]. }
  assert (inspectable limits lookup) as Hi by (split_and!; [done | done | by intros E%len_zero_inv; congruence | done]).
  rewrite keyCandidates_spec. cbn [app]. set (cands := key_candidates (lr_records lookup)).
  destruct (oversized limits cands) eqn:Hover.
  { apply Hother; try done; [by intros [? | [? | ?]] | ]. apply not_unique; [done | by fold cands; intros E; rewrite E in Hover | ].
    intros p E. fold cands in E. rewrite E in Hover. cbn in Hover. rewrite orb_false_r in Hover. left. lia. }
  destruct cands as [ | payload [ | payload2 rest]] eqn:Ec.
  - eexists. split; [done | apply missing_leaf; [done | done | split; [done | by right]]].
  - assert (unique_record limits lookup payload) as Hu by (cbn in Hover; rewrite orb_false_r in Hover; split_and!; [apply Hi.. | exact Ec | lia]).
    assert ((exists r, ParseRecord payload limits = Ret r) \/ exists e, ParseRecord payload limits = Fail e) as [[record Hp] | [e Hp]].
    { pose proof (proj1 (ParseRecord_iff payload limits)) as Hsafe. destruct (ParseRecord payload limits); [left | right | done]; by eexists. }
    + rewrite Hp. destruct (DecodeKey_spec limits algorithm answer payload record Hl Ha He Hu Hp) as (o & Ho & Hov & Halg & Hspec & Hn1 & Hn2).
      rewrite Ho. eexists. split; [done | ]. split_and!; [done | exact Hov | exact Halg | exact Hspec | ]. cbn.
      intros [H | [H | H]]; [ | done | done]. destruct Hspec as (_ & _ & Hspec). apply Hspec in H. by apply (not_retry answer He) in H.
    + assert ((forall m, ~ found_when limits algorithm lookup m) /\ ~ missing_when limits lookup) as Hnot.
      { apply not_unique; [done | by fold cands; rewrite Ec | ]. intros p E. fold cands in E. rewrite Ec in E. injection E as <-. right. intros r. congruence. }
      rewrite Hp. destruct e; apply Hother; try done; by intros [? | [? | ?]].
  - apply Hother; try done; [by intros [? | [? | ?]] | apply not_unique; [done | by fold cands; rewrite Ec | intros p E; fold cands in E; congruence]].
Qed.
End decoding.

(** ** One policy lookup *)
Definition unique_policy (limits : Limits) (lookup : LookupResult) (r : DomainPolicyRecord) : Prop :=
  inspectable limits lookup /\ exists payload, policy_candidates (lr_records lookup) = [payload] /\
    len payload <= MaxTXTRecordBytes limits /\ ParseDomainPolicyRecord payload limits = Ret r.
Definition strict_when (limits : Limits) (lookup : LookupResult) : Prop :=
  exists r, unique_policy limits lookup r /\ Strict r = true.
Definition authorized_when (limits : Limits) (lookup : LookupResult) : Prop :=
  lookupResultValid lookup = true /\
  (lr_status lookup = LookupStatusAbsent \/ (inspectable limits lookup /\ policy_candidates (lr_records lookup) = []) \/
   exists r, unique_policy limits lookup r /\ Strict r = false).
Definition policy_spec (limits : Limits) (answer : transportAnswer) (ended : bool) (r : flightResult) : Prop :=
  fr_outcome r = zeroOutcome /\ DomainPolicyOutcome_Valid (fr_policy r) = true /\
  (po_status (fr_policy r) = DomainPolicyStrict <-> ended = false /\ ta_error answer = None /\ strict_when limits (ta_lookup answer)) /\
  (po_status (fr_policy r) = DomainPolicyAuthorized <-> ended = false /\ ta_error answer = None /\ authorized_when limits (ta_lookup answer)) /\
  (po_status (fr_policy r) = DomainPolicyTemporary <-> retry_when answer ended) /\
  (po_status (fr_policy r) = DomainPolicyTemporary -> fr_expiry r = zeroTime).

Lemma policy_leaf limits answer status e :
  ta_error answer = None -> status <> DomainPolicyUnset -> status <> DomainPolicyTemporary ->
  (status = DomainPolicyStrict <-> strict_when limits (ta_lookup answer)) ->
  (status = DomainPolicyAuthorized <-> authorized_when limits (ta_lookup answer)) ->
  policy_spec limits answer false (MkFlightResult zeroOutcome (newDomainPolicyOutcome status) e).
Proof.
  intros He Hu Ht Hs Ha. unfold policy_spec. cbn. rewrite Hs, Ha. pose proof (not_retry answer He). split_and!; try done; try tauto.
  by destruct status.
Qed.
Lemma policy_error_leaf limits answer ended status :
  status <> DomainPolicyUnset -> status <> DomainPolicyStrict -> status <> DomainPolicyAuthorized ->
  (ended = true \/ ta_error answer <> None) -> (status = DomainPolicyTemporary <-> retry_when answer ended) ->
  policy_spec limits answer ended (policyResult (newDomainPolicyOutcome status)).
Proof.
  intros Hu Hs Ha He Ht. unfold policy_spec. cbn. rewrite Ht. split_and!; try done.
  - by destruct status.
  - split; [done | ]. intros (-> & E & _). by destruct He.
  - split; [done | ]. intros (-> & E & _). by destruct He.
Qed.
Lemma unique_policy_candidates limits lookup r : unique_policy limits lookup r ->
  exists p, policy_candidates (lr_records lookup) = [p] /\ len p <= MaxTXTRecordBytes limits /\ ParseDomainPolicyRecord p limits = Ret r.
Proof. by intros [_ H]. Qed.
(** Found answers whose candidates are not one parsed record. *)
Lemma neither_policy limits lookup :
  lr_status lookup <> LookupStatusAbsent -> (inspectable limits lookup -> policy_candidates (lr_records lookup) <> []) ->
  (forall r, ~ unique_policy limits lookup r) -> ~ strict_when limits lookup /\ ~ authorized_when limits lookup.
Proof.
  intros Habs Hne Hno. split; [by intros (r & Hr & _); apply (Hno r) | ].
  intros [_ [H | [[Hi H] | (r & Hr & _)]]]; [done | by apply Hne | by apply (Hno r)].
Qed.
Lemma resolveDomainPolicyLookup_spec limits answer observedAt ended :
  exists r, resolveDomainPolicyLookup limits answer observedAt ended = Ret r /\ policy_spec limits answer ended r.
Proof.
  unfold resolveDomainPolicyLookup. destruct ended.
  { eexists. split; [done | ]. apply policy_error_leaf; try done; [by left | ]. split; [by left | done]. }
  destruct (ta_error answer) as [err | ] eqn:He.
  { assert (ta_error answer <> None) as Hne by congruence.
    destruct err as [[ | ] | ]; [destruct (LookupResult_IsZero (ta_lookup answer)) eqn:Ez | | ]; eexists; (split; [done | ]);
      apply policy_error_leaf; try done; try (by right); unfold retry_when; split; try done.
    - intros _. right. by rewrite He.
    - intros [? | [? ?]]; congruence.
    - intros [? | [? ?]]; congruence.
    - intros [? | [? ?]]; congruence. }
  set (lookup := ta_lookup answer).
  assert (forall status e, status <> DomainPolicyUnset -> status <> DomainPolicyTemporary -> status <> DomainPolicyStrict -> status <> DomainPolicyAuthorized ->
    ~ strict_when limits lookup /\ ~ authorized_when limits lookup ->
    exists r, Ret (E := unit) (MkFlightResult zeroOutcome (newDomainPolicyOutcome status) e) = Ret r /\ policy_spec limits answer false r) as Hother.
  { intros status e ? ? ? ? [Hs Ha]. eexists. split; [done | ]. by apply policy_leaf. }
  assert (forall e, authorized_when limits lookup -> ~ strict_when limits lookup ->
    exists r, Ret (E := unit) (MkFlightResult zeroOutcome (newDomainPolicyOutcome DomainPolicyAuthorized) e) = Ret r /\ policy_spec limits answer false r) as Hauth.
  { intros e Ha Hs. eexists. split; [done | ]. by apply policy_leaf. }
  destruct (lookupResultValid lookup) eqn:Hv.
  2: { assert (~ strict_when limits lookup /\ ~ authorized_when limits lookup) as Hno.
       { split; [intros (r & [(H & _) _] & _); congruence | intros [H _]; congruence]. }
       rewrite orb_true_r. by apply Hother. }
  rewrite (valid_not_zero lookup Hv). cbn [negb orb].
  case_bool_decide as Habs.
  { apply Hauth; [split; [done | by left] | ]. intros (r & [(_ & H & _) _] & _). congruence. }
  assert (lr_status lookup = LookupStatusFound) as Hfound by (unfold lookupResultValid in Hv; by destruct (lr_status lookup)).
  destruct ((MaxTXTRecords limits <? lr_recordCount lookup) || (len (lr_records lookup) =? 0)) eqn:Hbad.
  { apply Hother; try done. assert (~ inspectable limits lookup) as Hno.
    { intros (_ & _ & H1 & H2). apply orb_true_iff in Hbad as [H | H%len_zero_inv]; [lia | done]. }
    apply neither_policy; [done | done | by intros r [Hi _]]. }
  apply orb_false_iff in Hbad as [Hcount Hlen].
  assert (inspectable limits lookup) as Hi by (split_and!; [done | done | by intros E%len_zero_inv; congruence | lia]).
  rewrite policyCandidates_spec. set (cands := policy_candidates (lr_records lookup)).
  destruct (oversized limits cands) eqn:Hover.
  { apply Hother; try done. apply neither_policy; [done | by fold cands; intros _ E; rewrite E in Hover | ].
    intros r (p & E & Hp & _)%unique_policy_candidates. fold cands in E. rewrite E in Hover. cbn in Hover. rewrite orb_false_r in Hover. lia. }
  destruct cands as [ | payload [ | payload2 rest]] eqn:Ec; cbn [List.last].
  - cbn. apply Hauth; [split; [done | right; by left] | ].
    intros (r & (p & E & _)%unique_policy_candidates & _). fold cands in E. congruence.
  - cbn. assert (len payload <= MaxTXTRecordBytes limits) as Hbound by (cbn in Hover; rewrite orb_false_r in Hover; lia).
    pose proof (ParseDomainPolicyRecord_no_crash payload limits) as Hsafe.
    destruct (ParseDomainPolicyRecord payload limits) as [r | e | ] eqn:Hp; [ | | done].
    + assert (forall r', unique_policy limits lookup r' -> r' = r) as Huniq.
      { intros r' (p & E & _ & Hp')%unique_policy_candidates. fold cands in E. congruence. }
      assert (unique_policy limits lookup r) as Hu by (split; [done | ]; exists payload; by split_and!).
      destruct (Strict r) eqn:Hs.
      * eexists. split; [done | ]. apply policy_leaf; [done | done | done | split; [by intros _; exists r | done] | split; [done | ]]. intros [_ Hc]. exfalso.
        destruct Hc as [H | [[_ H] | (r' & Hr'%Huniq & H)]]; [done | change (cands = []) in H; congruence | congruence].
      * apply Hauth; [split; [done | right; right; by exists r] | ]. intros (r' & Hr'%Huniq & H). congruence.
    + assert (~ strict_when limits lookup /\ ~ authorized_when limits lookup) as Hno.
      { apply neither_policy; [done | by fold cands; rewrite Ec | ]. intros r (p & E & _ & H)%unique_policy_candidates. fold cands in E. congruence. }
      destruct e; by apply Hother.
  - rewrite len_cons, len_cons. pose proof (len_nonneg rest).
    rewrite (proj2 (Z.eqb_neq _ 0)), (proj2 (Z.eqb_neq _ 1)) by lia. apply Hother; try done.
    apply neither_policy; [done | by fold cands; rewrite Ec | ]. intros r (p & E & _)%unique_policy_candidates. fold cands in E. congruence.
Qed.

(** ** The resolver on its cache and flights *)
Section resolver.
Context (pkcs1 : bytes -> option RSAPublicKey) (pkix : bytes -> option Material)
  (mldsa_new : bytes -> option MLDSAPublicKey) (available : bool).
Context (mldsa_new_parameters : forall raw k, mldsa_new raw = Some k -> mldsa_Parameters k = MLDSA44).
(** The answers that the transport may give for an owner. *)
Context (transport : bytes -> transportAnswer -> Prop).

(** What the work of a flight may return: the classification of an answer of
    the transport for the owner of the key. *)
Definition key_work (limits : Limits) (key : cacheKey) (r : flightResult) : Prop :=
  exists sd sel alg q answer observedAt ended, NewQuery sd sel alg limits = Ret q /\
    key = MkCacheKey (q_absoluteName q) alg /\ transport (q_absoluteName q) answer /\
    resolveLookup pkcs1 pkix mldsa_new available limits alg answer observedAt ended = Ret r.
Definition policy_work (limits : Limits) (key : cacheKey) (r : flightResult) : Prop :=
  exists d q answer observedAt ended, NewDomainPolicyQuery d limits = Ret q /\
    key = MkCacheKey (dq_absoluteName q) [] /\ transport (dq_absoluteName q) answer /\
    resolveDomainPolicyLookup limits answer observedAt ended = Ret r.
Definition resolver_work (limits : Limits) (key : cacheKey) (r : flightResult) : Prop :=
  key_work limits key r \/ policy_work limits key r.

Lemma limits_config l : limits_within l = true ->
  flight_config (MaxCacheEntries l) (MaxConcurrentLookups l) (MaxCoalescedWaiters l) (LookupTimeout l).
Proof using Type.
  unfold limits_within, positiveWithin, nonNegativeWithin, flight_config. intros H.
  repeat (apply andb_true_iff in H as [H ?]). lia.
Qed.
Lemma NewResolver_initial limits r : NewResolver true limits true true = Ret r ->
  limits_within limits = true /\ rs_limits r = limits /\ rs_initialized r = true /\ rs_transport r = true /\
  initial (rs_group r) = flight_initial (MaxCacheEntries limits) (MaxConcurrentLookups limits) (MaxCoalescedWaiters limits) (LookupTimeout limits).
Proof using Type.
  unfold NewResolver, Limits_Validate. destruct (limits_within limits); [ | done]. cbn. by intros [= <-].
Qed.
Lemma NewQuery_owner sd sel alg l q : NewQuery sd sel alg l = Ret q ->
  ClassifyAbsoluteOwner (q_absoluteName q) = Some OwnerKindSelector /\ limits_within l = true /\ Algorithm_Known alg = true.
Proof using Type.
  intros Hq. unfold NewQuery in Hq. apply obind_ret_inv in Hq as (? & Hr%require_ret_inv & Hq).
  apply andb_true_iff in Hr as [Hl Ha]. split; [ | split; [ | done]].
  - apply obind_ret_inv in Hq as (? & _ & Hq). apply obind_ret_inv in Hq as (? & _ & Hq). apply obind_ret_inv in Hq as (? & _ & Hq).
    apply obind_ret_inv in Hq as (? & Hk%require_ret_inv & [= <-]). by apply bool_decide_eq_true in Hk.
  - unfold Limits_Validate in Hl. by destruct (limits_within l).
Qed.
Lemma NewDomainPolicyQuery_no_crash d l : no_crash (NewDomainPolicyQuery d l).
Proof using Type.
  unfold NewDomainPolicyQuery, Limits_Validate. destruct (limits_within l) eqn:El; [ | done].
  destruct (limits_names l El) as (_ & _ & Hd1 & Hd2 & _). cbn [require as_contract map_fail obind].
  destruct (canonicalBoundedDNSName_yields d _ _ Hd1 Hd2) as (_ & Nd & _). unfold CanonicalSigningDomain.
  destruct (as_contract (canonicalBoundedDNSName d _ _)); [ | done | done]. cbn [obind].
  by repeat (apply obind_no_crash; [apply require_no_crash | intros]).
Qed.
(** Work for the key of a query comes from answers for its owner. *)
Lemma key_work_query limits sd sel alg q r :
  NewQuery sd sel alg limits = Ret q -> resolver_work limits (MkCacheKey (q_absoluteName q) alg) r ->
  exists answer ended, transport (q_absoluteName q) answer /\
    lookup_spec pkcs1 pkix mldsa_new available limits alg answer ended r.
Proof using mldsa_new_parameters.
  intros Hq [(sd' & sel' & alg' & q' & answer & obs & ended & Hq' & [= Eq Ealg] & Ht & Hr) | (d & q' & answer & obs & ended & Hq' & [= Eq Ealg] & _)].
  - subst alg'. destruct (NewQuery_owner _ _ _ _ _ Hq') as (_ & Hl & Ha). exists answer, ended. rewrite Eq. split; [done | ].
    destruct (resolveLookup_spec pkcs1 pkix mldsa_new available mldsa_new_parameters limits alg answer obs ended Hl Ha) as (r' & E & Hspec).
    congruence.
  - destruct (NewQuery_owner _ _ _ _ _ Hq) as (Hs & _). destruct (NewDomainPolicyQuery_Ret _ _ _ Hq') as [_ Hd]. congruence.
Qed.
Lemma policy_work_query limits d q r :
  NewDomainPolicyQuery d limits = Ret q -> resolver_work limits (MkCacheKey (dq_absoluteName q) []) r ->
  exists answer ended, transport (dq_absoluteName q) answer /\ policy_spec limits answer ended r.
Proof using Type.
  intros Hq [(sd' & sel' & alg' & q' & answer & obs & ended & Hq' & [= Eq Ealg] & Ht & Hr) | (d' & q' & answer & obs & ended & Hq' & [= Eq] & Ht & Hr)].
  - destruct (NewQuery_owner _ _ _ _ _ Hq') as (Hs & _). destruct (NewDomainPolicyQuery_Ret _ _ _ Hq) as [_ Hd]. congruence.
  - exists answer, ended. rewrite Eq. split; [done | ]. destruct (resolveDomainPolicyLookup_spec limits answer obs ended) as (r' & E & Hspec). congruence.
Qed.

(** What the shared cache answered in a reachable state, and what a call of
    [do] for a key returned. *)
Definition cache_says (s : system) (key : cacheKey) (value : cacheValue) (hit corrupt : bool) : Prop :=
  exists now cache cache', fg_cache (sys_group s) = Some cache /\ KeyCache.lookup key now cache = Ret (value, hit, corrupt, cache').
Definition call_returned (s : system) (key : cacheKey) (ret : callReturn) : Prop :=
  exists t c, sys_callers s !! t = Some c /\ cl_key c = key /\ cl_state c = CReturned ret.
Definition reachable (r : Resolver) (s : system) : Prop := rtc (step (resolver_work (rs_limits r))) (initial (rs_group r)) s.

Lemma cache_answer limits r s key value hit corrupt :
  NewResolver true limits true true = Ret r -> reachable r s -> cache_says s key value hit corrupt ->
  corrupt = false /\ (hit = true -> exists fr, resolver_work limits key fr /\ value = MkCacheValue (fr_outcome fr) (fr_policy fr)).
Proof using Type.
  intros (Hl & Hlim & _ & _ & Hinit)%NewResolver_initial Hr (now & cache & cache' & Hc & E). unfold reachable in Hr. rewrite Hinit, Hlim in Hr.
  pose proof (reachable_ok _ _ _ _ _ s (limits_config limits Hl) Hr) as Hs.
  destruct (lookup_sound (resolver_work limits) key now cache) as (v & h & c' & E' & _ & _ & Hhit).
  { apply (go_cache _ _ _ (so_group _ _ Hs) cache Hc). }
  rewrite E in E'. injection E' as -> -> -> ->. split; [done | ]. intros Ht. destruct (Hhit Ht) as (expiry & (fr & Hw & [= -> _]) & _). by exists fr.
Qed.
Lemma flight_answer limits r s key ret :
  NewResolver true limits true true = Ret r -> reachable r s -> call_returned s key ret ->
  match ret with
  | RetContract => False
  | RetResult fr => fr = temporaryFlightResult key \/ exists r0, resolver_work limits key r0 /\ fr = cloneFlightResult r0
  | _ => True
  end.
Proof using Type.
  intros (Hl & Hlim & _ & _ & Hinit)%NewResolver_initial Hr (t & c & Ht & <- & Hst). unfold reachable in Hr. rewrite Hinit, Hlim in Hr.
  pose proof (reachable_ok _ _ _ _ _ s (limits_config limits Hl) Hr) as Hs. destruct (so_callers _ _ Hs t c Ht) as [_ Hc].
  rewrite Hst in Hc. by destruct ret.
Qed.

(** What an outcome for a query promises. *)
Definition answer_promises (limits : Limits) (sd sel : bytes) (alg : Algorithm) (o : KeyOutcome) : Prop :=
  KeyOutcome_Valid o = true /\ ko_algorithm o = alg /\
  (ko_status o = KeyOutcomeFound -> exists q answer, NewQuery sd sel alg limits = Ret q /\ transport (q_absoluteName q) answer /\
     ta_error answer = None /\ found_when pkcs1 pkix mldsa_new available limits alg (ta_lookup answer) (ko_material o)) /\
  (ko_status o = KeyOutcomeMissing -> exists q answer, NewQuery sd sel alg limits = Ret q /\ transport (q_absoluteName q) answer /\
     ta_error answer = None /\ missing_when limits (ta_lookup answer)).
Lemma promises_status limits sd sel alg status :
  Algorithm_Known alg = true -> status <> KeyOutcomeUnset -> status <> KeyOutcomeFound -> status <> KeyOutcomeMissing ->
  answer_promises limits sd sel alg (newStatusOutcome status alg).
Proof using Type. intros Ha H1 H2 H3. split_and!; [by apply status_valid | done | done | done]. Qed.
Lemma promises_work limits sd sel alg q fr :
  NewQuery sd sel alg limits = Ret q -> resolver_work limits (MkCacheKey (q_absoluteName q) alg) fr ->
  answer_promises limits sd sel alg (fr_outcome fr).
Proof using mldsa_new_parameters.
  intros Hq Hw. destruct (key_work_query _ _ _ _ _ _ Hq Hw) as (answer & ended & Ht & _ & Hv & Ha & (Hf & Hm & _) & _).
  split_and!; [done | done | intros (_ & He & H)%Hf | intros (_ & He & H)%Hm]; exists q, answer; by split_and!.
Qed.

(** C35: a call of Resolve on the shared cache and flight group never panics;
    whatever other callers, workers and deadlines do, an outcome it answers is
    valid for the requested algorithm, a found key was decoded from the only
    candidate record of an error-free transport answer for the owner of this
    very query, and a missing one stands for an answer without a candidate. *)
Theorem Resolve_sound limits r s s' ctx get do sd sel alg :
  NewResolver true limits true true = Ret r -> reachable r s -> reachable r s' ->
  (forall q, NewQuery sd sel alg limits = Ret q -> forall k, k = MkCacheKey (q_absoluteName q) alg ->
     (exists value hit corrupt, cache_says s k value hit corrupt /\ get k = (cv_key value, hit, corrupt)) /\ call_returned s' k (do k q)) ->
  match Resolve r ctx get do sd sel alg with
  | AnswerPanic => False
  | AnswerContract => cx_present ctx = false \/ Algorithm_Known alg = false
  | AnswerContext => True
  | Answer o => answer_promises limits sd sel alg o
  end.
Proof using mldsa_new_parameters.
  intros Hnew Hs Hs' Hio. destruct (NewResolver_initial _ _ Hnew) as (Hl & Hlim & Hini & Htr & _). unfold Resolve.
  rewrite Hini, Htr, Hlim. cbn [negb orb]. destruct (cx_present ctx); [ | by left]. destruct (Algorithm_Known alg) eqn:Ha; [ | by right].
  cbn [negb orb]. destruct (cx_before ctx); [done | ].
  destruct (NewQuery sd sel alg limits) as [q | [ | ] | ] eqn:Hq;
    [ | by apply promises_status | by apply promises_status
      | by destruct (NewQuery_cases sd sel alg limits) as [(_ & _ & E) | [(_ & _ & E) | (_ & E)]]; rewrite Hq in E].
  destruct (Hio q eq_refl _ eq_refl) as [(value & hit & corrupt & Hcache & ->) Hret].
  destruct (cache_answer _ _ _ _ _ _ _ Hnew Hs Hcache) as [-> Hhit]. destruct hit.
  - destruct (cx_cached ctx); [done | ]. destruct (Hhit eq_refl) as (fr & Hw & ->). by eapply promises_work.
  - destruct (cx_after ctx); [done | ]. pose proof (flight_answer _ _ _ _ _ Hnew Hs' Hret) as Hans.
    destruct (do _ q) as [ | | | fr]; [done | done | by apply promises_status | ].
    destruct (KeyOutcome_Valid (fr_outcome fr)) eqn:Hv; cbn [negb]; [ | by apply promises_status].
    rewrite (cloneKeyOutcome_valid _ Hv). destruct Hans as [-> | (r0 & Hw & ->)].
    + unfold temporaryFlightResult, ValidAbsoluteOwner_kind. cbn [ck_owner]. destruct (NewQuery_owner _ _ _ _ _ Hq) as (-> & _).
      rewrite bool_decide_false by done. by apply promises_status.
    + destruct (promises_work _ _ _ _ _ _ Hq Hw) as (Hv0 & Hrest). cbn. rewrite (cloneKeyOutcome_valid _ Hv0). by split.
Qed.

(** The same for ResolveDomainPolicy: a strict answer was parsed from the
    only policy candidate of an error-free transport answer for the policy
    owner of this very domain, and an authorized one from an answer that has
    no candidate, or whose only candidate is not strict. *)
Theorem ResolveDomainPolicy_sound limits r s s' ctx get do d :
  NewResolver true limits true true = Ret r -> reachable r s -> reachable r s' ->
  (forall q, NewDomainPolicyQuery d limits = Ret q -> forall k, k = MkCacheKey (dq_absoluteName q) [] ->
     (exists value hit corrupt, cache_says s k value hit corrupt /\ get k = (cv_policy value, hit, corrupt)) /\ call_returned s' k (do k q)) ->
  match ResolveDomainPolicy r ctx get do d with
  | AnswerPanic => False
  | AnswerContract => cx_present ctx = false
  | AnswerContext => True
  | Answer o => DomainPolicyOutcome_Valid o = true /\
      (po_status o = DomainPolicyStrict -> exists q answer, NewDomainPolicyQuery d limits = Ret q /\ transport (dq_absoluteName q) answer /\
         ta_error answer = None /\ strict_when limits (ta_lookup answer)) /\
      (po_status o = DomainPolicyAuthorized -> exists q answer, NewDomainPolicyQuery d limits = Ret q /\ transport (dq_absoluteName q) answer /\
         ta_error answer = None /\ authorized_when limits (ta_lookup answer))
  end.
Proof using mldsa_new_parameters.
  intros Hnew Hs Hs' Hio. destruct (NewResolver_initial _ _ Hnew) as (Hl & Hlim & Hini & Htr & _). unfold ResolveDomainPolicy.
  rewrite Hini, Htr, Hlim. cbn [negb orb]. destruct (cx_present ctx); [ | done]. cbn [negb orb]. destruct (cx_before ctx); [done | ].
  destruct (NewDomainPolicyQuery d limits) as [q | e | ] eqn:Hq; [ | by split_and! | by apply NewDomainPolicyQuery_no_crash in Hq].
  assert (forall fr, resolver_work limits (MkCacheKey (dq_absoluteName q) []) fr -> DomainPolicyOutcome_Valid (fr_policy fr) = true /\
      (po_status (fr_policy fr) = DomainPolicyStrict -> exists q0 answer, Ret (E := ErrorClass) q = Ret q0 /\ transport (dq_absoluteName q0) answer /\
         ta_error answer = None /\ strict_when limits (ta_lookup answer)) /\
      (po_status (fr_policy fr) = DomainPolicyAuthorized -> exists q0 answer, Ret (E := ErrorClass) q = Ret q0 /\ transport (dq_absoluteName q0) answer /\
         ta_error answer = None /\ authorized_when limits (ta_lookup answer))) as Hwork.
  { intros fr Hw. destruct (policy_work_query _ _ _ _ Hq Hw) as (answer & ended & Ht & _ & Hv & Hst & Hau & _).
    split_and!; [done | intros (_ & He & H)%Hst | intros (_ & He & H)%Hau]; exists q, answer; by split_and!. }
  destruct (Hio q eq_refl _ eq_refl) as [(value & hit & corrupt & Hcache & ->) Hret].
  destruct (cache_answer _ _ _ _ _ _ _ Hnew Hs Hcache) as [-> Hhit]. destruct hit.
  - destruct (cx_cached ctx); [done | ]. destruct (Hhit eq_refl) as (fr & Hw & ->). by apply Hwork.
  - destruct (cx_after ctx); [done | ]. pose proof (flight_answer _ _ _ _ _ Hnew Hs' Hret) as Hans.
    destruct (do _ q) as [ | | | fr]; [done | done | by split_and! | ].
    destruct (DomainPolicyOutcome_Valid (fr_policy fr)) eqn:Hv; cbn [negb]; [ | by split_and!].
    destruct Hans as [-> | (r0 & Hw & ->)]; [ | exact (Hwork r0 Hw)].
    unfold temporaryFlightResult, ValidAbsoluteOwner_kind. cbn [ck_owner]. destruct (NewDomainPolicyQuery_Ret _ _ _ Hq) as [_ ->].
    by rewrite bool_decide_true.
Qed.
End resolver.

(** One key lookup never panics and always gives a valid outcome for the
    algorithm: found exactly for an error-free, inspectable answer whose only
    candidate record (after the version filter, within the size bound) parses
    and decodes; missing exactly for an absence or an answer without
    candidates; temporary exactly when the context ended or the transport
    reports a temporary error and nothing else; and the outcomes that may not
    be cached carry no lifetime. *)
Theorem resolveLookup_exact pkcs1 pkix mldsa_new available limits algorithm answer observedAt ended :
  (forall raw k, mldsa_new raw = Some k -> mldsa_Parameters k = MLDSA44) ->
  limits_within limits = true -> Algorithm_Known algorithm = true ->
  exists r, resolveLookup pkcs1 pkix mldsa_new available limits algorithm answer observedAt ended = Ret r /\
    lookup_spec pkcs1 pkix mldsa_new available limits algorithm answer ended r.
Proof. intros Hnew Hl Ha. by apply resolveLookup_spec. Qed.

(** One policy lookup never panics and always gives a valid policy: strict
    or authorized exactly as the only candidate says, authorized also without
    a candidate or on absence, temporary exactly for an ended context or a
    temporary transport error, and never with a lifetime then. *)
Theorem resolveDomainPolicyLookup_exact limits answer observedAt ended :
  exists r, resolveDomainPolicyLookup limits answer observedAt ended = Ret r /\ policy_spec limits answer ended r.
Proof. apply resolveDomainPolicyLookup_spec. Qed.

(** *** A concrete resolution *)
Definition sample_answer : transportAnswer :=
  MkAnswer (MkLookup LookupStatusFound [bs "v=DKIM2; x=1"; sample_record] 2 AbsenceUnset (600 * Second) 0 DNSSECStatusSecure) None.
Definition sample_transport (owner : bytes) (answer : transportAnswer) : Prop := answer = sample_answer.
Definition sample_resolver : Resolver :=
  MkResolver true DefaultLimits true (newFlightGroup true 64 64 (5 * Second) [newOutcomeCache 1024 true]).
Definition sample_found : KeyOutcome := MkOutcome KeyOutcomeFound AlgorithmEd25519SHA256 (Ed25519Key (repeat x01 32)) true.
Definition sample_fr : flightResult := MkFlightResult sample_found zeroPolicy (MkTime 1600 0).
Example sample_lookup : resolveLookup no_pkcs1 no_pkix raw_mldsa true DefaultLimits AlgorithmEd25519SHA256 sample_answer (MkTime 1000 0) false = Ret sample_fr.
Proof. vm_compute. reflexivity. Qed.
Lemma resolveLookup_exact_witness :
  ko_status sample_found = KeyOutcomeFound <->
    false = false /\ ta_error sample_answer = None /\
    found_when no_pkcs1 no_pkix raw_mldsa true DefaultLimits AlgorithmEd25519SHA256 (ta_lookup sample_answer) (Ed25519Key (repeat x01 32)).
Proof.
  destruct (resolveLookup_exact no_pkcs1 no_pkix raw_mldsa true DefaultLimits AlgorithmEd25519SHA256 sample_answer (MkTime 1000 0) false
    raw_mldsa_parameters eq_refl eq_refl) as (r & E & _ & _ & _ & (Hf & _) & _).
  rewrite sample_lookup in E. injection E as <-. exact Hf.
Defined.

Definition sample_owner_key : cacheKey := MkCacheKey (bs "s._domainkey.example.org.") AlgorithmEd25519SHA256.
Abbreviation sample_steps := (rtc (step (resolver_work no_pkcs1 no_pkix raw_mldsa true sample_transport DefaultLimits))).
Lemma sample_query : NewQuery (bs "example.org") (bs "s") AlgorithmEd25519SHA256 DefaultLimits =
  Ret (MkQuery (bs "example.org") (bs "s") AlgorithmEd25519SHA256 (bs "s._domainkey.example.org") (bs "s._domainkey.example.org.")).
Proof. vm_compute. reflexivity. Qed.
Lemma sample_key_work : key_work no_pkcs1 no_pkix raw_mldsa true sample_transport DefaultLimits sample_owner_key sample_fr.
Proof.
  eexists _, _, _, _, sample_answer, (MkTime 1000 0), false.
  split; [exact sample_query | split; [reflexivity | split; [reflexivity | exact sample_lookup]]].
Qed.
Definition sample_admission : cacheAdmission := MkAdmission sample_owner_key (MkCacheValue sample_found zeroPolicy) (MkTime 1600 0) (MkTime 1001 0).
Definition sample_cache : outcomeCache :=
  match commitAdmission sample_admission (newOutcomeCache 1024 true) with Ret (_, c) => c | _ => newOutcomeCache 0 false end.
Definition sample_waiting : flightGroup :=
  MkGroup {[sample_owner_key := 1%positive]} {[1%positive := MkFlight false false false zeroFlightResult {[1 := 7%nat]}]} 1 64 64 true
    (Some (newOutcomeCache 1024 true)) 1.
Definition sample_completed (waiters : gmap Z nat) : flightGroup :=
  MkGroup ∅ {[1%positive := MkFlight true true true sample_fr waiters]} 0 64 64 true (Some sample_cache) 1.
(** Evaluation of both sides, without writing the values down. *)
Ltac by_vm := match goal with |- _ = ?b => vm_cast_no_check (eq_refl b) end.
Lemma rtc_to {A} (R : A -> A -> Prop) x y y' z : R x y -> y = y' -> rtc R y' z -> rtc R x z.
Proof. intros H <-. by apply rtc_l. Qed.
Definition sample_at (g : flightGroup) (c : callerState) (w : gmap positive workerState) : system :=
  MkSystem g {[0%nat := MkCaller 7 sample_owner_key c]} (MkWorker sample_owner_key <$> w) ∅.
Definition sample_idle : flightGroup := rs_group sample_resolver.
Definition sample_shared_flight : resolverFlight := MkFlight false false false zeroFlightResult {[1 := 7%nat]}.
Definition sample_done_flight (waiters : gmap Z nat) : resolverFlight := MkFlight true true true sample_fr waiters.
Definition sample_end : system := sample_at (sample_completed ∅) (CReturned (RetResult sample_fr)) {[1%positive := WEnd sample_fr]}.
Lemma sample_resolution : sample_steps (initial sample_idle) sample_end.
Proof.
  eapply (rtc_to _ _ _ (sample_at sample_idle CStart ∅)); [left; apply (env_call _ 0%nat 7%nat sample_owner_key); by_vm | by_vm | ].
  eapply (rtc_to _ _ _ (sample_at sample_idle CLock ∅)); [right; left; apply (step_start _ 0%nat (MkCaller 7 sample_owner_key CStart)); by_vm | by_vm | ].
  eapply (rtc_to _ _ _ (sample_at sample_waiting (CWait 1 1) {[1%positive := WWork]}));
    [right; left; apply (step_lock _ 0%nat (MkCaller 7 sample_owner_key CLock) ∅ (DoWait 1 1 true) sample_waiting); [by_vm | by_vm | done | by_vm] | by_vm | ].
  eapply (rtc_to _ _ _ (sample_at sample_waiting (CWait 1 1) {[1%positive := WWorked sample_fr]}));
    [right; right; apply (step_work _ _ 1%positive (MkWorker sample_owner_key WWork) sample_fr); [by_vm | by_vm | left; exact sample_key_work] | by_vm | ].
  eapply (rtc_to _ _ _ (sample_at sample_waiting (CWait 1 1) {[1%positive := WPrepared sample_fr (Some sample_admission)]}));
    [right; right; apply (step_prepare _ _ 1%positive (MkWorker sample_owner_key (WWorked sample_fr)) sample_fr sample_shared_flight (MkTime 1001 0)); by_vm | by_vm | ].
  eapply (rtc_to _ _ _ (sample_at (sample_completed {[1 := 7%nat]}) (CWait 1 1) {[1%positive := WEnd sample_fr]}));
    [right; right; apply (step_run _ _ 1%positive (MkWorker sample_owner_key (WPrepared sample_fr (Some sample_admission))) sample_fr
       (Some sample_admission) ∅ false (sample_completed {[1 := 7%nat]})); [by_vm | by_vm | done | by_vm] | by_vm | ].
  eapply (rtc_to _ _ _ (sample_at (sample_completed {[1 := 7%nat]}) (CSelect 1 1) {[1%positive := WEnd sample_fr]}));
    [right; left; apply (step_wait _ 0%nat (MkCaller 7 sample_owner_key (CWait 1 1)) 1 1); by_vm | by_vm | ].
  eapply (rtc_to _ _ _ (sample_at (sample_completed {[1 := 7%nat]}) (CFinish 1 1) {[1%positive := WEnd sample_fr]}));
    [right; left; apply (step_select_done _ 0%nat (MkCaller 7 sample_owner_key (CSelect 1 1)) 1 1 (sample_done_flight {[1 := 7%nat]})); by_vm | by_vm | ].
  eapply (rtc_to _ _ _ (sample_at (sample_completed ∅) (CFinished 1) {[1%positive := WEnd sample_fr]}));
    [right; left; apply (step_finish _ 0%nat (MkCaller 7 sample_owner_key (CFinish 1 1)) 1 1 (sample_completed ∅)); by_vm | by_vm | ].
  eapply (rtc_to _ _ _ sample_end);
    [right; left; apply (step_finished _ 0%nat (MkCaller 7 sample_owner_key (CFinished 1)) 1 (sample_done_flight ∅)); by_vm | by_vm | ].
  apply rtc_refl.
Qed.
Lemma sample_miss key : cache_says (initial sample_idle) key zeroValue false false.
Proof. exists (MkTime 1000 0), (newOutcomeCache 1024 true), (newOutcomeCache 1024 true). split; reflexivity. Qed.
Lemma Resolve_sound_witness :
  answer_promises no_pkcs1 no_pkix raw_mldsa true sample_transport DefaultLimits (bs "example.org") (bs "s") AlgorithmEd25519SHA256 sample_found.
Proof.
  assert (forall q, NewQuery (bs "example.org") (bs "s") AlgorithmEd25519SHA256 DefaultLimits = Ret q ->
    forall k, k = MkCacheKey (q_absoluteName q) AlgorithmEd25519SHA256 ->
    (exists value hit corrupt, cache_says (initial sample_idle) k value hit corrupt /\ (zeroOutcome, false, false) = (cv_key value, hit, corrupt)) /\
    call_returned sample_end k (RetResult sample_fr)) as Hio.
  { rewrite sample_query. intros q [= <-] k ->. split; [exists zeroValue, false, false; split; [apply sample_miss | reflexivity] | ].
    exists 0%nat, (MkCaller 7 sample_owner_key (CReturned (RetResult sample_fr))). split; [reflexivity | split; reflexivity]. }
  exact (Resolve_sound no_pkcs1 no_pkix raw_mldsa true raw_mldsa_parameters sample_transport DefaultLimits sample_resolver
    (initial sample_idle) sample_end (MkReadings true false false false) (fun _ => (zeroOutcome, false, false)) (fun _ _ => RetResult sample_fr)
    (bs "example.org") (bs "s") AlgorithmEd25519SHA256 eq_refl (rtc_refl _ _) sample_resolution Hio).
Defined.

(** A policy call whose context ends before it takes the lock. *)
Definition sample_policy_key : cacheKey := MkCacheKey (bs "_domainkey.example.org.") [].
Definition sample_given_up : system :=
  MkSystem sample_idle {[0%nat := MkCaller 7 sample_policy_key (CReturned RetContext)]} ∅ {[7%nat]}.
Lemma sample_given_up_reachable : sample_steps (initial sample_idle) sample_given_up.
Proof.
  eapply (rtc_to _ _ _ (MkSystem sample_idle {[0%nat := MkCaller 7 sample_policy_key CStart]} ∅ ∅));
    [left; apply (env_call _ 0%nat 7%nat sample_policy_key); by_vm | by_vm | ].
  eapply (rtc_to _ _ _ (MkSystem sample_idle {[0%nat := MkCaller 7 sample_policy_key CStart]} ∅ {[7%nat]})); [left; apply (env_end _ 7%nat) | by_vm | ].
  eapply (rtc_to _ _ _ sample_given_up); [right; left; apply (step_start _ 0%nat (MkCaller 7 sample_policy_key CStart)); by_vm | by_vm | ].
  apply rtc_refl.
Qed.
Lemma ResolveDomainPolicy_sound_witness :
  match ResolveDomainPolicy sample_resolver (MkReadings true false false false) (fun _ => (zeroPolicy, false, false)) (fun _ _ => RetContext) (bs "example.org") with
  | AnswerContext => True | _ => False end.
Proof.
  assert (forall q, NewDomainPolicyQuery (bs "example.org") DefaultLimits = Ret q -> forall k, k = MkCacheKey (dq_absoluteName q) [] ->
    (exists value hit corrupt, cache_says (initial sample_idle) k value hit corrupt /\ (zeroPolicy, false, false) = (cv_policy value, hit, corrupt)) /\
    call_returned sample_given_up k RetContext) as Hio.
  { assert (NewDomainPolicyQuery (bs "example.org") DefaultLimits = Ret (MkPolicyQuery (bs "example.org") (bs "_domainkey.example.org."))) as ->
      by (vm_compute; reflexivity).
    intros q [= <-] k ->. split; [exists zeroValue, false, false; split; [apply sample_miss | reflexivity] | ].
    exists 0%nat, (MkCaller 7 sample_policy_key (CReturned RetContext)). split; [reflexivity | split; reflexivity]. }
  pose proof (ResolveDomainPolicy_sound no_pkcs1 no_pkix raw_mldsa true raw_mldsa_parameters sample_transport DefaultLimits sample_resolver
    (initial sample_idle) sample_given_up (MkReadings true false false false) (fun _ => (zeroPolicy, false, false)) (fun _ _ => RetContext)
    (bs "example.org") eq_refl (rtc_refl _ _) sample_given_up_reachable Hio) as H.
  vm_compute in H. vm_compute. exact H.
Defined.
